(* ===== verification/_CoqProject ===== *)
-Q . S2P
Prelude.v
Geometry.v
Region.v
RegionAlgebra.v
RegionBounds.v
RegionCorrect.v
ASCIICType.v
SegmentedString.v
HTMLEntitySearch.v
HTMLEntityParser.v
HTMLEntityCorrect.v
HTMLToken.v
HTMLTokenizer.v
HTMLTokenizerStates.v
HTMLTokenizerSafe.v
HTMLTokenizerSteps.v
HTMLTokenizerCorrect.v
HTMLTokenizerText.v
HTMLTokenizerTags.v
Double.v
DateMath.v
DateMathCorrect.v
DateComponents.v
DateComponentsAdd.v
DateComponentsParse.v
DateComponentsPrint.v
DateComponentsMs.v
DateInputTypes.v
DateInputTypesProperties.v
WebBackForwardList.v
WebBackForwardListProperties.v
Base64.v
Base64Encode.v
Base64Decode.v
Base64Correct.v
DFA.v
DFABytecode.v
DFABytecodeCompiler.v
DFABytecodeInterpreter.v
DFATransitions.v
DFAEmit.v
DFACompile.v
DFARun.v
DFASimulation.v
DFAProperties.v
ContentExtensionRule.v
ContentExtensionCompiler.v
ContentExtensionSerialize.v
ContentExtension.v
ContentExtensionsBackend.v
ContentExtensionCorrect.v
ContentExtensionProperties.v
ContentExtensionsBackendCorrect.v
MutableRangeList.v
MutableRangeListCorrect.v
DFAMinimizer.v
DFAPartition.v
DFASingular.v
DFAMinimizerCorrect.v
DFACombiner.v
NFA.v
NFAToDFA.v
NFAToDFAClosure.v
NFAToDFACorrect.v
DFACombinerCorrect.v
ImmutableNFANodeBuilder.v
Term.v
TermLanguage.v
NFAFragment.v
TermGraph.v
CombinedURLFilters.v
CombinedURLFiltersTree.v
CombinedURLFiltersProcess.v
CombinedURLFiltersGraph.v
CombinedURLFiltersSubtree.v
CombinedURLFiltersProcessCorrect.v
URLFilterParser.v
URLFilterParserCorrect.v
RuleListCompiler.v
RuleListCompilerCorrect.v
