(* ===== verification/Prelude.v ===== *)
(** * A verification development for core components of WebKit (WebKitGTK)

    WebKit is a browser engine.  Its source falls into the JavaScript engine
    (src/Source/JavaScriptCore), the document and rendering engine
    (src/Source/WebCore), the multi-process embedding layer
    (src/Source/WebKit), and the base library under all of them
    (src/Source/WTF).  This library models components of the last three whose
    logic is their own - algorithms on data, state machines, codecs - as
    executable functions, and proves what makes them correct.

    ** Conventions

    A function that can fail an assertion (of either kind, debug or release) or
    read out of range returns an [option]; [None] is that failure, so a theorem
    that a call returns [Some] is a theorem that no assertion fails and no index
    is out of range.  Machine integers are [Z], with [i32] and [u32] written
    where the type wraps; the conditions under which no wrap happens are
    hypotheses of the theorems.  A loop that is not structural takes fuel, and
    the theorems show that the fuel given is enough: the results are never of
    the form "if it returns".  Code that is not under src/ (the generated entity
    table, ICU, the C library's clock and time zone, clients of the embedding
    layer), and large classes that a component only calls (URLs, the style sheet
    parser, hash-table order), are arguments.

    ** The parts, and where they are

    - Region (src/Source/WebCore/platform/graphics/Region.cpp, IntRect.h):
      [Geometry], [Region] are the model - a shape is the two vectors of spans
      and segments of the class.  [RegionAlgebra], [RegionBounds]
      and [RegionCorrect] show that the scan-line algorithms compute union,
      intersection, difference and translation of point sets, keep the class
      invariant, and that the representation is canonical, so that [operator==]
      is equality of point sets.  Coordinates are within +-2^30, so that widths
      do not overflow.
    - The HTML tokenizer (src/Source/WebCore/html/parser): [ASCIICType],
      [SegmentedString] (platform/text/SegmentedString.cpp), [HTMLEntitySearch],
      [HTMLEntityParser] (with [HTMLEntityCorrect]), [HTMLToken], [HTMLTokenizer] (all states of
      HTMLTokenizer.cpp).  The tokenizer is written against the interface
      [InputStream], which [SegmentedString] implements and whose laws it is
      shown to keep (it refines a flat list of characters).
      [HTMLTokenizerStates], [HTMLTokenizerSafe], [HTMLTokenizerSteps] and
      [HTMLTokenizerCorrect] show that from every reachable tokenizer a call
      ends within [3n+3] jumps on [n] characters and fails no assertion;
      [HTMLTokenizerText] and [HTMLTokenizerTags] say what is emitted.
    - Dates of forms: [Double] (the rounding of the arithmetic), [DateMath]
      (src/Source/WTF/wtf/DateMath.cpp), [DateComponents]
      (src/Source/WebCore/platform/DateComponents.cpp) and [DateInputTypes]
      (the six input types of src/Source/WebCore/html).  [DateMathCorrect] and
      [DateComponentsAdd] relate them to the Gregorian calendar and to ISO
      8601; [DateComponentsAdd], [DateComponentsParse], [DateComponentsPrint],
      [DateComponentsMs] and [DateInputTypesProperties] have limits, parsing,
      printing and the round trips.  Times are within +-9*10^15 ms, where doubles are exact; texts are
      short enough for an [unsigned] index.
    - Session history (src/Source/WebKit/UIProcess/WebBackForwardList.cpp):
      [WebBackForwardList]; the clients' answers are arguments and what the page
      is told is a list of calls.  [WebBackForwardListProperties] shows that
      the list refines a zipper.
    - Base64 (src/Source/WTF/wtf/text/Base64.cpp): [Base64], with
      [Base64Encode], [Base64Decode] and [Base64Correct] against the reference
      of RFC 4648.  Lengths are up to the limit the encoder tests itself, and
      2^30 for the decoder.
    - Content blockers (src/Source/WebCore/contentextensions).  Rules are
      triggers with actions; URL filters become automata, automata become
      bytecode, and a load asks every extension for the actions of its URL.
      [DFA] holds automata, [DFABytecode], [DFABytecodeCompiler] and
      [DFABytecodeInterpreter] the machine, its compiler and its interpreter;
      [DFATransitions], [DFAEmit], [DFACompile], [DFARun] and [DFASimulation] lead to [DFAProperties]: compiled code finds exactly the
      actions of the automata.  [ContentExtensionRule] and
      [ContentExtensionCompiler] have the rules and the serialization of their
      actions; [ContentExtensionSerialize] shows what is read back.  [ContentExtension] is
      one extension with its caches and [ContentExtensionsBackend] the table of
      all; [ContentExtensionCorrect], [ContentExtensionProperties] and
      [ContentExtensionsBackendCorrect] say which rules apply to a load.
      Automata have fewer than 2^30 nodes, transitions and actions; running
      takes fewer than (|url|+3)*(|bytecode|+1) instructions; the serialized
      actions of a rule list have fewer than 2^32-1 bytes.
    - From NFAs to DFAs (NFAToDFA.cpp, MutableRangeList.h, ImmutableNFA.h of the
      same directory): [MutableRangeList] is the list of character ranges whose
      cells are linked by index in a vector; [MutableRangeListCorrect] relates
      the vector to a list with a cursor and shows that [extend] merges two lists character by character.  [NFA] and [NFAToDFA]
      have the automata and the powerset construction; [NFAToDFAClosure]
      leads to [NFAToDFACorrect]: the DFA is where the NFA can
      be, and converted, compiled and interpreted an NFA gives the actions it
      finds on the URL.  The number
      of rounds is a bound on the reachable sets of nodes; 128 times that number
      fits 32 bits.
    - Minimization of DFAs (DFAMinimizer.cpp): [DFAMinimizer] refines a
      partition of the nodes and one of the transitions, held in arrays.
      [DFAPartition] has the partitions and the refinement loop on any graph,
      [DFASingular] the ranges of characters that no node tells apart and the
      tables of transitions, and [DFAMinimizerCorrect] shows that the result has
      the same actions after each word and no two nodes alike.  There are no
      more turns of the loop than transitions.
    - Combination of DFAs (DFACombiner.cpp): [DFACombiner] builds the product of
      two automata, with a node for each pair that a word leads to, and joins
      small automata until they are large enough.  [DFACombinerCorrect] shows
      that what is handed on finds what was added.  The number of turns is the
      number of pairs of nodes, one of which can be missing.
    - From URL filters to NFAs (URLFilterParser.cpp, Term.h,
      CombinedURLFilters.cpp, ImmutableNFANodeBuilder.h of the same directory):
      [ImmutableNFANodeBuilder] writes the nodes of an automaton, [Term] has the
      terms of a filter (character sets of 128 bits, groups, quantifiers) and
      the graph they generate.  [TermLanguage] gives the strings a term matches
      and what the quick tests of a term say of them; [NFAFragment] is the
      theory of automata built piece by piece, and [TermGraph] shows that the
      graph of a term reads exactly its strings.  [CombinedURLFilters] is the
      tree of shared prefixes of a rule list, with domains; its theorems are in
      [CombinedURLFiltersTree]: the automaton of
      a path of the tree, taken through NFA, DFA, bytecode and interpreter,
      reports the actions of the prefix a URL has.  [CombinedURLFiltersProcess]
      is the loop that takes the tree apart into automata of a limited size, in
      which the ends of filters with the same actions share their nodes.
      [CombinedURLFiltersGraph] is an automaton under construction with several
      open nodes, [CombinedURLFiltersSubtree] the walk over a subtree, and
      [CombinedURLFiltersProcessCorrect] shows that the automata together find
      exactly the actions of the patterns that match.
      The walk takes at most two turns per vertex and an automaton takes at
      least one leaf.  [URLFilterParser] is the
      delegate that turns the tokens of a pattern into terms, with all its
      error statuses; the regular expression parser that calls it (YARR) is an
      argument.  [URLFilterParserCorrect] shows, on every regular expression of
      the supported subset, that the terms left in the tree by [addFilter] match
      a URL exactly where the expression does.
    - [RuleListCompiler] is the compiler of rule lists as a whole
      (ContentExtensionCompiler.cpp): it puts the patterns and conditions of the
      rules into filters and takes the filters through all of the above; what
      the client is told is a list of calls.  [RuleListCompilerCorrect] joins
      the theorems of the passes: the bytecode of a list of patterns finds the
      actions of the patterns that a URL matches and the universal actions.  It
      asks that sizes stay below the widths of the source's counters, that some
      string and not the empty one matches each pattern, and, where a pattern
      reads the end of the URL, that the automata are safe for the bytecode
      compiler; two examples show that the room on the first root and this
      safety can fail.

    ** Not modelled

    Within these components: the debug offsets of pushed-back input,
    [parseError] (a no-op in the source), dumps and logging, the local time
    zone, Cocoa snapshots, the editing of a request after a load is promoted.
    The rest of the engine is not modelled: the JavaScript engine (its
    compilers, heap and runtime), DOM, style, layout and painting, networking,
    media, and the inspector; most of it is either glue to platform libraries or
    needs semantics (of JavaScript, of CSS) that are larger than the code.
    Of the content blockers, the regular expression parser and the JSON reader
    are not modelled: what they return is an argument. *)

From Stdlib Require Export ZArith Lia Bool.
From stdpp Require Export base numbers option list list_numbers strings sets.

#[global] Open Scope Z_scope.

(** ** Machine integers

    An [int] of the source is a [Z]; the operations that can leave the 32-bit
    range go through [i32] (two's complement wrap) or [u32] (reduction modulo
    [2^32]), written out where the source computes with the type. *)

Definition i32 (z : Z) : Z := (z + 2 ^ 31) mod 2 ^ 32 - 2 ^ 31.
Definition u32 (z : Z) : Z := z mod 2 ^ 32.

Definition INT_MAX : Z := 2 ^ 31 - 1.
Definition INT_MIN : Z := - 2 ^ 31.

Definition is_i32 (z : Z) : Prop := INT_MIN <= z <= INT_MAX.

Lemma i32_id z : is_i32 z -> i32 z = z.
Proof.
  unfold is_i32, INT_MIN, INT_MAX, i32. intros H.
  rewrite Z.mod_small; lia.
Qed.

Lemma i32_range z : is_i32 (i32 z).
Proof.
  unfold is_i32, INT_MIN, INT_MAX, i32.
  pose proof (Z.mod_pos_bound (z + 2 ^ 31) (2 ^ 32)). lia.
Qed.

Lemma u32_id z : 0 <= z < 2 ^ 32 -> u32 z = z.
Proof. apply Z.mod_small. Qed.

Lemma u32_range z : 0 <= u32 z < 2 ^ 32.
Proof. apply Z.mod_pos_bound. lia. Qed.

(** Coordinates in this range can be added and subtracted once without
    leaving the 32-bit range. *)
Definition coord (z : Z) : Prop := - 2 ^ 30 <= z < 2 ^ 30.

Lemma coord_sub_i32 a b : coord a -> coord b -> i32 (a - b) = a - b.
Proof. unfold coord. intros. apply i32_id. unfold is_i32, INT_MIN, INT_MAX. lia. Qed.

Lemma coord_add_i32 a b : coord a -> coord b -> i32 (a + b) = a + b.
Proof. unfold coord. intros. apply i32_id. unfold is_i32, INT_MIN, INT_MAX. lia. Qed.

Create HintDb wk.
Create Rewrite HintDb wk.
#[export] Hint Rewrite coord_sub_i32 coord_add_i32 using (assumption || (unfold coord in *; lia)) : wk.

(** ** Characters

    Characters are code units, kept as [Z].  [chr "x"] is the code of a
    character literal and [chrs "xyz"] the codes of a string literal, both as
    numerals. *)

Definition char_code (s : string) : Z :=
  match s with String a _ => Z.of_N (Ascii.N_of_ascii a) | EmptyString => 0 end.

Fixpoint char_codes (s : string) : list Z :=
  match s with String a s => Z.of_N (Ascii.N_of_ascii a) :: char_codes s | EmptyString => [] end.

Notation "'chr' x" := ltac:(let v := eval vm_compute in (char_code x) in exact v)
  (at level 0, x at level 0, only parsing).
Notation "'chrs' x" := ltac:(let v := eval vm_compute in (char_codes x) in exact v)
  (at level 0, x at level 0, only parsing).

(** ** Boolean comparisons

    [zbool] turns every boolean comparison of the context and the goal into
    the proposition it decides. *)

Ltac zbool :=
  repeat match goal with
  | H : _ && _ = true |- _ => apply andb_true_iff in H as [? ?]
  | H : _ || _ = false |- _ => apply orb_false_iff in H as [? ?]
  | H : negb _ = true |- _ => apply negb_true_iff in H
  | H : negb _ = false |- _ => apply negb_false_iff in H
  | H : (_ <? _) = true |- _ => apply Z.ltb_lt in H
  | H : (_ <? _) = false |- _ => apply Z.ltb_ge in H
  | H : (_ <=? _) = true |- _ => apply Z.leb_le in H
  | H : (_ <=? _) = false |- _ => apply Z.leb_gt in H
  | H : (_ =? _) = true |- _ => apply Z.eqb_eq in H
  | H : (_ =? _) = false |- _ => apply Z.eqb_neq in H
  end.

(** Case analysis on the scrutinee of the first [if] or [match] of the goal. *)
Ltac step_if :=
  match goal with
  | |- context [if ?b then _ else _] => destruct b eqn:?
  end.
