(* ===== verification/Geometry.v ===== *)
(** * Integer geometry: IntPoint, IntSize and IntRect

    Translated from src/Source/WebCore/platform/graphics/IntPoint.h, IntSize.h,
    IntRect.h and IntRect.cpp.  Coordinates are 32-bit integers; every sum and
    difference the source computes in [int] goes through [i32]. *)

From S2P Require Import Prelude.

Record IntPoint := mkIntPoint { m_x : Z; m_y : Z }.
Record IntSize := mkIntSize { m_width : Z; m_height : Z }.
Record IntRect := mkIntRect { m_location : IntPoint; m_size : IntSize }.

Module IntRect.

Definition xywh (x y width height : Z) : IntRect :=
  mkIntRect (mkIntPoint x y) (mkIntSize width height).

Definition empty : IntRect := xywh 0 0 0 0.

Definition x (r : IntRect) : Z := m_x (m_location r).
Definition y (r : IntRect) : Z := m_y (m_location r).
Definition width (r : IntRect) : Z := m_width (m_size r).
Definition height (r : IntRect) : Z := m_height (m_size r).
Definition maxX (r : IntRect) : Z := i32 (x r + width r).
Definition maxY (r : IntRect) : Z := i32 (y r + height r).

Definition IntSize_isEmpty (s : IntSize) : bool := (m_width s <=? 0) || (m_height s <=? 0).
Definition isEmpty (r : IntRect) : bool := IntSize_isEmpty (m_size r).

Definition IntPoint_move (p : IntPoint) (dx dy : Z) : IntPoint :=
  mkIntPoint (i32 (m_x p + dx)) (i32 (m_y p + dy)).

Definition move (r : IntRect) (offset : IntSize) : IntRect :=
  mkIntRect (IntPoint_move (m_location r) (m_width offset) (m_height offset)) (m_size r).

Definition intersects (r other : IntRect) : bool :=
  negb (isEmpty r) && negb (isEmpty other)
  && (x r <? maxX other) && (x other <? maxX r)
  && (y r <? maxY other) && (y other <? maxY r).

Definition contains_rect (r other : IntRect) : bool :=
  (x r <=? x other) && (maxX other <=? maxX r)
  && (y r <=? y other) && (maxY other <=? maxY r).

Definition contains_point (r : IntRect) (p : IntPoint) : bool :=
  (x r <=? m_x p) && (m_x p <? maxX r) && (y r <=? m_y p) && (m_y p <? maxY r).

Definition intersect (r other : IntRect) : IntRect :=
  let l := Z.max (x r) (x other) in
  let t := Z.max (y r) (y other) in
  let rr := Z.min (maxX r) (maxX other) in
  let b := Z.min (maxY r) (maxY other) in
  if (rr <=? l) || (b <=? t) then xywh 0 0 (i32 (0 - 0)) (i32 (0 - 0))
  else xywh l t (i32 (rr - l)) (i32 (b - t)).

Definition unite (r other : IntRect) : IntRect :=
  if isEmpty other then r
  else if isEmpty r then other
  else
    let l := Z.min (x r) (x other) in
    let t := Z.min (y r) (y other) in
    let rr := Z.max (maxX r) (maxX other) in
    let b := Z.max (maxY r) (maxY other) in
    xywh l t (i32 (rr - l)) (i32 (b - t)).

Definition uniteIfNonZero (r other : IntRect) : IntRect :=
  if (width other =? 0) && (height other =? 0) then r
  else if (width r =? 0) && (height r =? 0) then other
  else
    let left := Z.min (x r) (x other) in
    let top := Z.min (y r) (y other) in
    let right := Z.max (maxX r) (maxX other) in
    let bottom := Z.max (maxY r) (maxY other) in
    xywh left top (i32 (right - left)) (i32 (bottom - top)).

Definition eqb (a b : IntRect) : bool :=
  (x a =? x b) && (y a =? y b) && ((width a =? width b) && (height a =? height b)).

(** ** Rectangles as point sets *)

(** A rectangle whose edges are representable without overflow. *)
Definition fits (r : IntRect) : Prop :=
  coord (x r) /\ coord (x r + width r) /\ coord (y r) /\ coord (y r + height r).

Lemma maxX_fits r : fits r -> maxX r = x r + width r.
Proof. intros (H1 & H2 & _). unfold maxX. apply i32_id. unfold coord, is_i32, INT_MIN, INT_MAX in *. lia. Qed.

Lemma maxY_fits r : fits r -> maxY r = y r + height r.
Proof. intros (_ & _ & H1 & H2). unfold maxY. apply i32_id. unfold coord, is_i32, INT_MIN, INT_MAX in *. lia. Qed.

Lemma contains_point_iff r px py : fits r ->
  contains_point r (mkIntPoint px py) = true <->
  x r <= px < x r + width r /\ y r <= py < y r + height r.
Proof.
  intros Hf. unfold contains_point. rewrite maxX_fits, maxY_fits by done. simpl.
  rewrite !andb_true_iff, !Z.leb_le, !Z.ltb_lt. lia.
Qed.

Lemma eqb_eq a b : eqb a b = true <-> a = b.
Proof.
  destruct a as [[ax ay] [aw ah]], b as [[bx by_] [bw bh]]. unfold eqb, x, y, width, height. simpl.
  rewrite !andb_true_iff, !Z.eqb_eq. split; [intros [[-> ->] [-> ->]]; done|by intros [= -> -> -> ->]].
Qed.

End IntRect.
