(* ===== verification/Region.v ===== *)
(** * Region: scan-line shape algebra over integer rectangles

    Translated from src/Source/WebCore/platform/graphics/Region.h and
    Region.cpp.  A shape is kept as in the source: one vector of segment
    end points and one vector of spans, each span holding the index of its
    first segment.  A span iterator is the suffix of the span vector it points
    at; a pair of segment iterators is the list of the end points between them.
    An operation answers [None] where the source would fail an assertion or
    read outside a vector; [RegionAlgebra] proves that this never happens on
    the shapes the operations build. *)

From S2P Require Import Prelude Geometry.

Module Region.

Record Span := mkSpan { span_y : Z; segmentIndex : nat }.

Record Shape := mkShape { m_segments : list Z; m_spans : list Span }.

Record Region := mkRegion { m_bounds : IntRect; m_shape : Shape }.

(** ** Shape: construction and iteration *)

Definition Shape_empty : Shape := mkShape [] [].

Definition appendSpan (s : Shape) (y : Z) : Shape :=
  mkShape (m_segments s) (m_spans s ++ [mkSpan y (length (m_segments s))]).

Definition appendSegment (s : Shape) (x : Z) : Shape :=
  mkShape (m_segments s ++ [x]) (m_spans s).

Definition Shape_rect (r : IntRect) : Shape :=
  let s := appendSpan Shape_empty (IntRect.y r) in
  let s := appendSegment s (IntRect.x r) in
  let s := appendSegment s (IntRect.maxX r) in
  appendSpan s (IntRect.maxY r).

Definition Shape_isEmpty (s : Shape) : bool :=
  match m_spans s with [] => true | _ => false end.

Definition Shape_isRect (s : Shape) : bool :=
  (length (m_spans s) <=? 2)%nat && (length (m_segments s) <=? 2)%nat.

Definition gridSize (s : Shape) : Z :=
  u32 (Z.of_nat (length (m_spans s)) * Z.of_nat (length (m_segments s))).

Definition canCoalesce (s : Shape) (segs : list Z) : bool :=
  match last (m_spans s) with
  | None => false
  | Some l =>
      let lastSpan := drop (segmentIndex l) (m_segments s) in
      (length lastSpan =? length segs)%nat && bool_decide (segs = lastSpan)
  end.

Definition appendSpan_range (s : Shape) (y : Z) (segs : list Z) : Shape :=
  if canCoalesce s segs then s
  else
    let s := appendSpan s y in
    mkShape (m_segments s ++ segs) (m_spans s).

(** The segments of the span at an iterator: [segments_begin] and
    [segments_end] together, as the end points between them. *)
Definition segments (s : Shape) (it : list Span) : option (list Z) :=
  match it with
  | [] => None
  | sp :: rest =>
      if (segmentIndex sp =? length (m_segments s))%nat then Some []
      else
        match rest with
        | [] => None
        | sp' :: _ =>
            if (segmentIndex sp <=? segmentIndex sp')%nat
               && (segmentIndex sp' <=? length (m_segments s))%nat
            then Some (take (segmentIndex sp' - segmentIndex sp)
                         (drop (segmentIndex sp) (m_segments s)))
            else None
        end
  end.

Fixpoint appendSpans (result shape : Shape) (it : list Span) : option Shape :=
  match it with
  | [] => Some result
  | sp :: rest =>
      segs ← segments shape it;
      appendSpans (appendSpan_range result (span_y sp) segs) shape rest
  end.

(** ** Shape: validity, bounds, translation *)

Fixpoint segments_valid (segs : list Z) : bool :=
  match segs with
  | x :: x' :: rest => if i32 (x' - x) <? 0 then false else segments_valid rest
  | _ => true
  end.

Fixpoint isValid_loop (s : Shape) (it : list Span) : option bool :=
  match it with
  | sp :: ((sp' :: _) as rest) =>
      if i32 (span_y sp' - span_y sp) <? 0 then Some false
      else
        segs ← segments s it;
        if segments_valid segs then isValid_loop s rest else Some false
  | _ => Some true
  end.

Definition Shape_isValid (s : Shape) : option bool := isValid_loop s (m_spans s).

(** The loop of [bounds] over the spans before the last one.  A span without
    segments that is not at the end of the segment vector makes the source
    read the first segment of the next span and the last one of the previous
    span; the model reads the same elements. *)
Fixpoint bounds_loop (s : Shape) (it : list Span) (minX maxX : Z) : option (Z * Z) :=
  match it with
  | sp :: ((sp' :: _) as rest) =>
      if (segmentIndex sp =? length (m_segments s))%nat then bounds_loop s rest minX maxX
      else
        first ← m_segments s !! segmentIndex sp;
        last ← (if (segmentIndex sp' =? 0)%nat then None
                else m_segments s !! (segmentIndex sp' - 1)%nat);
        bounds_loop s rest (if first <? minX then first else minX)
          (if maxX <? last then last else maxX)
  | _ => Some (minX, maxX)
  end.

Definition Shape_bounds (s : Shape) : option IntRect :=
  match m_spans s with
  | [] => Some IntRect.empty
  | sp :: _ =>
      lastSpan ← last (m_spans s);
      let minY := span_y sp in
      let maxY := span_y lastSpan in
      '(minX, maxX) ← bounds_loop s (m_spans s) INT_MAX INT_MIN;
      Some (IntRect.xywh minX minY (i32 (maxX - minX)) (i32 (maxY - minY)))
  end.

Definition Shape_translate (s : Shape) (offset : IntSize) : Shape :=
  mkShape (map (fun x => i32 (x + m_width offset)) (m_segments s))
    (map (fun sp => mkSpan (i32 (span_y sp + m_height offset)) (segmentIndex sp)) (m_spans s)).

(** ** Shape: comparison

    A [CompareOperation] member that answers [Some r] stores [r] in the result
    and makes the comparison return it; [None] lets the comparison go on. *)

Record CompareOperation := mkCompareOperation {
  defaultResult : bool;
  aOutsideB : option bool;
  bOutsideA : option bool;
  aOverlapsB : option bool
}.

Definition CompareContainsOperation : CompareOperation :=
  mkCompareOperation true None (Some false) None.

Definition CompareIntersectsOperation : CompareOperation :=
  mkCompareOperation false None None (Some true).

(** [Stop r]: the comparison returns [r]; [Go v]: it goes on with [v]. *)
Inductive flow (A : Type) := Stop (r : bool) | Go (v : A).
Arguments Stop {A} r.
Arguments Go {A} v.

Definition test {A} (c : bool) (hook : option bool) (k : option (flow A)) : option (flow A) :=
  match c, hook with
  | true, Some r => Some (Stop r)
  | _, _ => k
  end.

Fixpoint compareSegments (op : CompareOperation) (a : list Z) : list Z -> option (flow (list Z * list Z)) :=
  fix inner (b : list Z) : option (flow (list Z * list Z)) :=
    match a, b with
    | [], _ | _, [] => Some (Go (a, b))
    | aX :: aMaxX :: a', bX :: bMaxX :: b' =>
        test ((aX <? bMaxX) && (bX <? aMaxX)) (aOverlapsB op)
          (test (aX <? bX) (aOutsideB op)
             (test (bX <? aX) (bOutsideA op)
                (if aMaxX <? bMaxX then compareSegments op a' b
                 else if bMaxX <? aMaxX then inner b'
                 else compareSegments op a' b')))
    | _, _ => None
    end.

Definition compareOverlappingSpans (op : CompareOperation) (aSegs bSegs : list Z) : option (flow unit) :=
  r ← compareSegments op aSegs bSegs;
  match r with
  | Stop r => Some (Stop r)
  | Go (a, b) =>
      test (bool_decide (a ≠ [])) (aOutsideB op)
        (test (bool_decide (b ≠ [])) (bOutsideA op) (Some (Go tt)))
  end.

(** One round of the span loop up to the advance of the iterators. *)
Definition compareSpans (op : CompareOperation) (aY aMaxY bY bMaxY : Z) (aSegs bSegs : list Z)
    (aHad bHad : bool) : option (flow unit) :=
  let aHas := bool_decide (aSegs ≠ []) in
  let bHas := bool_decide (bSegs ≠ []) in
  test ((aY <? bY) && negb bHad && aHas) (aOutsideB op)
    (test ((bY <? aY) && negb aHad && bHas) (bOutsideA op)
       (if (aY <? bMaxY) && (bY <? aMaxY) then compareOverlappingSpans op aSegs bSegs
        else Some (Go tt))).

Fixpoint compareShapes_loop (op : CompareOperation) (aShape bShape : Shape) (aSpan : list Span) :
    list Span -> bool -> bool -> option bool :=
  fix inner (bSpan : list Span) (aHad bHad : bool) : option bool :=
    match aSpan, bSpan with
    | a :: ((a' :: _) as aRest), b :: ((b' :: _) as bRest) =>
        aSegs ← segments aShape aSpan;
        bSegs ← segments bShape bSpan;
        r ← compareSpans op (span_y a) (span_y a') (span_y b) (span_y b') aSegs bSegs aHad bHad;
        match r with
        | Stop r => Some r
        | Go _ =>
            let aHad := bool_decide (aSegs ≠ []) in
            let bHad := bool_decide (bSegs ≠ []) in
            if span_y a' <? span_y b' then compareShapes_loop op aShape bShape aRest bSpan aHad bHad
            else if span_y b' <? span_y a' then inner bRest aHad bHad
            else compareShapes_loop op aShape bShape aRest bRest aHad bHad
        end
    | _, _ =>
        let more l := match l with _ :: _ :: _ => true | _ => false end in
        match more aSpan, aOutsideB op with
        | true, Some r => Some r
        | _, _ =>
            match more bSpan, bOutsideA op with
            | true, Some r => Some r
            | _, _ => Some (defaultResult op)
            end
        end
    end.

Definition compareShapes (op : CompareOperation) (aShape bShape : Shape) : option bool :=
  compareShapes_loop op aShape bShape (m_spans aShape) (m_spans bShape) false false.

(** ** Shape: union, intersection, difference *)

Record Operation := mkOperation {
  trySimpleOperation : Shape -> Shape -> option Shape;
  opCode : Z;
  shouldAddRemainingSegmentsFromSpan1 : bool;
  shouldAddRemainingSegmentsFromSpan2 : bool;
  shouldAddRemainingSpansFromShape1 : bool;
  shouldAddRemainingSpansFromShape2 : bool
}.

(** The loop that merges the segments of two spans.  Answers the segments
    appended and what is left of both inputs. *)
Fixpoint mergeSegments (op : Operation) (s1 : list Z) :
    list Z -> Z -> Z -> list Z -> list Z * list Z * list Z :=
  fix inner (s2 : list Z) (flag oldFlag : Z) (segs : list Z) : list Z * list Z * list Z :=
    match s1, s2 with
    | x1 :: s1', x2 :: s2' =>
        let test := i32 (x1 - x2) in
        let flag1 := if test <=? 0 then Z.lxor flag 1 else flag in
        let flag' := if 0 <=? test then Z.lxor flag1 2 else flag1 in
        let x := if 0 <=? test then x2 else x1 in
        let segs' := if (flag' =? opCode op) || (oldFlag =? opCode op) then segs ++ [x] else segs in
        if test <? 0 then mergeSegments op s1' s2 flag' flag' segs'
        else if 0 <? test then inner s2' flag' flag' segs'
        else mergeSegments op s1' s2' flag' flag' segs'
    | _, _ => (segs, s1, s2)
    end.

Definition combineSegments (op : Operation) (segments1 segments2 : list Z) : list Z :=
  let '(segs, s1, s2) := mergeSegments op segments1 segments2 0 0 [] in
  if shouldAddRemainingSegmentsFromSpan1 op && bool_decide (s1 ≠ []) then segs ++ s1
  else if shouldAddRemainingSegmentsFromSpan2 op && bool_decide (s2 ≠ []) then segs ++ s2
  else segs.

Definition addSpan (result : Shape) (y : Z) (segs : list Z) : Shape :=
  if bool_decide (segs ≠ []) || negb (Shape_isEmpty result)
  then appendSpan_range result y segs else result.

(** The loop over the spans of both shapes.  [segments1] and [segments2] are
    the segments of the current span of each shape. *)
Fixpoint shapeOperation_loop (op : Operation) (shape1 shape2 : Shape) (spans1 : list Span) :
    list Span -> list Z -> list Z -> Shape -> option (Shape * list Span * list Span) :=
  fix inner (spans2 : list Span) (segments1 segments2 : list Z) (result : Shape) :
      option (Shape * list Span * list Span) :=
    match spans1, spans2 with
    | sp1 :: rest1, sp2 :: rest2 =>
        let test := i32 (span_y sp1 - span_y sp2) in
        segs1 ← (if test <=? 0 then segments shape1 spans1 else Some segments1);
        segs2 ← (if 0 <=? test then segments shape2 spans2 else Some segments2);
        let y := if 0 <=? test then span_y sp2 else span_y sp1 in
        let result' := addSpan result y (combineSegments op segs1 segs2) in
        if test <? 0 then shapeOperation_loop op shape1 shape2 rest1 spans2 segs1 segs2 result'
        else if 0 <? test then inner rest2 segs1 segs2 result'
        else shapeOperation_loop op shape1 shape2 rest1 rest2 segs1 segs2 result'
    | _, _ => Some (result, spans1, spans2)
    end.

Definition shapeOperation (op : Operation) (shape1 shape2 : Shape) : option Shape :=
  match trySimpleOperation op shape1 shape2 with
  | Some result => Some result
  | None =>
      '(result, spans1, spans2) ←
        shapeOperation_loop op shape1 shape2 (m_spans shape1) (m_spans shape2) [] [] Shape_empty;
      if shouldAddRemainingSpansFromShape1 op && bool_decide (spans1 ≠ [])
      then appendSpans result shape1 spans1
      else if shouldAddRemainingSpansFromShape2 op && bool_decide (spans2 ≠ [])
      then appendSpans result shape2 spans2
      else Some result
  end.

Definition UnionOperation : Operation :=
  mkOperation (fun shape1 shape2 => if Shape_isEmpty shape1 then Some shape2 else None)
    0 true true true true.

Definition IntersectOperation : Operation :=
  mkOperation (fun _ _ => None) 3 false false false false.

Definition SubtractOperation : Operation :=
  mkOperation (fun _ _ => None) 1 true false true false.

Definition unionShapes : Shape -> Shape -> option Shape := shapeOperation UnionOperation.
Definition intersectShapes : Shape -> Shape -> option Shape := shapeOperation IntersectOperation.
Definition subtractShapes : Shape -> Shape -> option Shape := shapeOperation SubtractOperation.

(** ** Region *)

Definition Region_empty : Region := mkRegion IntRect.empty Shape_empty.

Definition Region_rect (r : IntRect) : Region := mkRegion r (Shape_rect r).

Definition isEmpty (r : Region) : bool := IntRect.isEmpty (m_bounds r).
Definition isRect (r : Region) : bool := Shape_isRect (m_shape r).

Fixpoint rects_in_span (y height : Z) (segs : list Z) : list IntRect :=
  match segs with
  | x :: x' :: rest => IntRect.xywh x y (i32 (x' - x)) height :: rects_in_span y height rest
  | _ => []
  end.

Fixpoint rects_loop (s : Shape) (it : list Span) : option (list IntRect) :=
  match it with
  | sp :: ((sp' :: _) as rest) =>
      segs ← segments s it;
      rs ← rects_loop s rest;
      Some (rects_in_span (span_y sp) (i32 (span_y sp' - span_y sp)) segs ++ rs)
  | _ => Some []
  end.

Definition rects (r : Region) : option (list IntRect) := rects_loop (m_shape r) (m_spans (m_shape r)).

Definition totalArea (r : Region) : option Z :=
  rs ← rects r;
  Some (foldl (fun totalArea rect => u32 (totalArea + i32 (IntRect.width rect * IntRect.height rect))) 0 rs).

Fixpoint segments_contain (segs : list Z) (px : Z) : bool :=
  match segs with
  | x :: maxX :: rest =>
      if px <? x then false
      else if px <? maxX then true
      else segments_contain rest px
  | _ => false
  end.

Fixpoint contains_loop (s : Shape) (it : list Span) (p : IntPoint) : option bool :=
  match it with
  | sp :: ((sp' :: _) as rest) =>
      if m_y p <? span_y sp then Some false
      else if span_y sp' <=? m_y p then contains_loop s rest p
      else
        segs ← segments s it;
        if segments_contain segs (m_x p) then Some true else contains_loop s rest p
  | _ => Some false
  end.

Definition contains_point (r : Region) (p : IntPoint) : option bool :=
  if negb (IntRect.contains_point (m_bounds r) p) then Some false
  else contains_loop (m_shape r) (m_spans (m_shape r)) p.

Definition contains (r region : Region) : option bool :=
  if negb (IntRect.contains_rect (m_bounds r) (m_bounds region)) then Some false
  else compareShapes CompareContainsOperation (m_shape r) (m_shape region).

Definition intersects (r region : Region) : option bool :=
  if negb (IntRect.intersects (m_bounds r) (m_bounds region)) then Some false
  else compareShapes CompareIntersectsOperation (m_shape r) (m_shape region).

Definition updateBoundsFromShape (r : Region) : option Region :=
  b ← Shape_bounds (m_shape r);
  Some (mkRegion b (m_shape r)).

Definition intersect (r region : Region) : option Region :=
  if IntRect.isEmpty (m_bounds r) then Some r
  else if negb (IntRect.intersects (m_bounds r) (m_bounds region)) then
    Some (mkRegion IntRect.empty Shape_empty)
  else
    s ← intersectShapes (m_shape r) (m_shape region);
    b ← Shape_bounds s;
    Some (mkRegion b s).

Definition unite (r region : Region) : option Region :=
  if isEmpty region then Some r
  else if isRect r && IntRect.contains_rect (m_bounds r) (m_bounds region) then Some r
  else if isRect region && IntRect.contains_rect (m_bounds region) (m_bounds r) then
    Some (mkRegion (m_bounds region) (m_shape region))
  else
    already ← (if isRect r then Some false else contains r region);
    if already : bool then Some r
    else
      s ← unionShapes (m_shape r) (m_shape region);
      Some (mkRegion (IntRect.unite (m_bounds r) (m_bounds region)) s).

Definition subtract (r region : Region) : option Region :=
  if IntRect.isEmpty (m_bounds r) then Some r
  else if isEmpty region then Some r
  else if negb (IntRect.intersects (m_bounds r) (m_bounds region)) then Some r
  else
    s ← subtractShapes (m_shape r) (m_shape region);
    b ← Shape_bounds s;
    Some (mkRegion b s).

Definition translate (r : Region) (offset : IntSize) : Region :=
  mkRegion (IntRect.move (m_bounds r) offset) (Shape_translate (m_shape r) offset).

(** [operator==] on spans, shapes and regions compares the vectors and the
    bounds member by member. *)
Definition Span_eqb (a b : Span) : bool :=
  (span_y a =? span_y b) && (segmentIndex a =? segmentIndex b)%nat.

Fixpoint list_eqb {A} (eqb : A -> A -> bool) (l1 l2 : list A) : bool :=
  match l1, l2 with
  | [], [] => true
  | a :: l1, b :: l2 => eqb a b && list_eqb eqb l1 l2
  | _, _ => false
  end.

Definition Shape_eqb (a b : Shape) : bool :=
  list_eqb Span_eqb (m_spans a) (m_spans b) && list_eqb Z.eqb (m_segments a) (m_segments b).

Definition Region_eqb (a b : Region) : bool :=
  IntRect.eqb (m_bounds a) (m_bounds b) && Shape_eqb (m_shape a) (m_shape b).

End Region.
