(* ===== verification/RegionAlgebra.v ===== *)
(** * Region: the shape algebra computes the set operations

    A row is the list of end points of one scan line.  [ins l x] is the set of
    abscissas a row stands for, [pt_in rs x y] the set of points a list of rows
    stands for.  [flatten] lays rows out in the two vectors of a [Shape].  The
    shapes the operations build are the flattenings of canonical rows
    ([rows_ok]); on those every operation of [Region] returns (no assertion
    fails, no read is out of range) and computes the set operation it is
    named after. *)

From S2P Require Import Prelude Geometry Region.
From Stdlib Require Import Sorted.
Import Region.

(** ** Rows of end points *)

Fixpoint ins (l : list Z) (x : Z) : bool :=
  match l with
  | [] => false
  | a :: t => xorb (a <=? x) (ins t x)
  end.

Definition row_ok (l : list Z) : Prop :=
  StronglySorted Z.lt l /\ Forall coord l /\ Nat.odd (length l) = false.

Lemma ins_app l1 l2 x : ins (l1 ++ l2) x = xorb (ins l1 x) (ins l2 x).
Proof. induction l1 as [|a l1 IH]; simpl; [by destruct (ins l2 x)|]. by rewrite IH, xorb_assoc. Qed.

Lemma ins_below l x : Forall (fun a => x < a) l -> ins l x = false.
Proof.
  induction 1 as [|a l Ha _ IH]; simpl; [done|].
  rewrite IH. replace (a <=? x) with false by (symmetry; apply Z.leb_gt; lia). done.
Qed.

Lemma ins_above l x : Forall (fun a => a <= x) l -> ins l x = Nat.odd (length l).
Proof.
  induction 1 as [|a l Ha _ IH]; simpl; [done|].
  replace (a <=? x) with true by (symmetry; apply Z.leb_le; lia).
  rewrite IH, Nat.odd_succ, <- Nat.negb_odd. by destruct (Nat.odd _).
Qed.

Lemma sorted_forall_lt a l x : StronglySorted Z.lt (a :: l) -> x <= a -> Forall (fun b => x < b) l.
Proof.
  intros [_ H]%StronglySorted_inv Hx. eapply Forall_impl; [exact H|]. simpl. lia.
Qed.

Lemma ins_head a l : StronglySorted Z.lt (a :: l) -> ins (a :: l) a = true.
Proof.
  intros H. simpl. rewrite Z.leb_refl, ins_below; [done|].
  eapply sorted_forall_lt; [exact H|lia].
Qed.

(** Sorted rows are determined by the set they stand for. *)
Lemma ins_inj l1 : forall l2, StronglySorted Z.lt l1 -> StronglySorted Z.lt l2 ->
  (forall x, ins l1 x = ins l2 x) -> l1 = l2.
Proof.
  induction l1 as [|a l1 IH]; intros [|b l2] H1 H2 E; [done|..].
  - specialize (E b). rewrite ins_head in E; done.
  - specialize (E a). rewrite ins_head in E; done.
  - assert (a = b) as ->.
    { destruct (Z.lt_trichotomy a b) as [L|[L|L]]; [|done|]; exfalso.
      - specialize (E a). rewrite ins_head in E by done.
        rewrite ins_below in E; [done|]. constructor; [done|].
        eapply sorted_forall_lt; [exact H2|lia].
      - specialize (E b). rewrite (ins_head b) in E by done.
        rewrite ins_below in E; [done|]. constructor; [done|].
        eapply sorted_forall_lt; [exact H1|lia]. }
    f_equal. apply IH; [by inversion H1|by inversion H2|].
    intros x. specialize (E x). simpl in E. by destruct (b <=? x), (ins l1 x), (ins l2 x).
Qed.

Lemma segments_contain_ins l px : row_ok l -> segments_contain l px = ins l px.
Proof.
  intros (Hs & _ & Ho). revert Hs Ho.
  induction l as [l IH] using (induction_ltof1 _ (@length Z)). unfold ltof in IH.
  destruct l as [|a [|b l]]; [done|done|]. intros Hs Ho. cbn [segments_contain ins].
  pose proof Hs as [Hs1 Hb]%StronglySorted_inv.
  pose proof Hs1 as [Hs2 _]%StronglySorted_inv. inversion Hb; subst.
  rewrite IH; [|simpl; lia|done|done].
  destruct (Z.ltb_spec px a).
  - rewrite !(proj2 (Z.leb_gt _ _)) by lia. simpl. symmetry. apply ins_below.
    eapply sorted_forall_lt; [exact Hs1|lia].
  - rewrite (proj2 (Z.leb_le a px)) by lia. destruct (Z.ltb_spec px b).
    + rewrite (proj2 (Z.leb_gt _ _)) by lia. rewrite ins_below; [done|].
      eapply sorted_forall_lt; [exact Hs1|lia].
    + rewrite (proj2 (Z.leb_le b px)) by lia. by destruct (ins l px).
Qed.

(** ** Merging two rows *)

Definition flagz (f1 f2 : bool) : Z := (if f1 then 1 else 0) + (if f2 then 2 else 0).

(** Whether a point with membership [f1], [f2] in the two inputs is in the
    result: the state the merge loop tracks with [opCode]. *)
Definition sem (op : Operation) (f1 f2 : bool) : bool :=
  xorb (flagz f1 f2 =? opCode op) (0 =? opCode op).

(** What the five parameters of an [Operation] have to agree on. *)
Record op_ok (op : Operation) : Prop := {
  op_simple : forall s1 s2 s, trySimpleOperation op s1 s2 = Some s ->
    s = s2 /\ Shape_isEmpty s1 = true /\ sem op false true = true;
  op_seg1 : shouldAddRemainingSegmentsFromSpan1 op = sem op true false;
  op_seg2 : shouldAddRemainingSegmentsFromSpan2 op = sem op false true;
  op_span1 : shouldAddRemainingSpansFromShape1 op = sem op true false;
  op_span2 : shouldAddRemainingSpansFromShape2 op = sem op false true;
  op_code : 0 <= opCode op <= 3
}.

Lemma UnionOperation_ok : op_ok UnionOperation.
Proof.
  split; try done. intros s1 s2 s. simpl. destruct (Shape_isEmpty s1); [|done]. by intros [= ->].
Qed.

Lemma IntersectOperation_ok : op_ok IntersectOperation.
Proof. by split. Qed.

Lemma SubtractOperation_ok : op_ok SubtractOperation.
Proof. by split. Qed.

Lemma sem_false op : sem op false false = false.
Proof. unfold sem. change (flagz false false) with 0. by destruct (0 =? opCode op). Qed.

Lemma sem_union a b : sem UnionOperation a b = a || b.
Proof. by destruct a, b. Qed.
Lemma sem_intersect a b : sem IntersectOperation a b = a && b.
Proof. by destruct a, b. Qed.
Lemma sem_subtract a b : sem SubtractOperation a b = a && negb b.
Proof. by destruct a, b. Qed.

Lemma flagz_xor1 f1 f2 : Z.lxor (flagz f1 f2) 1 = flagz (negb f1) f2.
Proof. by destruct f1, f2. Qed.
Lemma flagz_xor2 f1 f2 : Z.lxor (flagz f1 f2) 2 = flagz f1 (negb f2).
Proof. by destruct f1, f2. Qed.

Lemma flagz_inj f1 f2 g1 g2 : flagz f1 f2 = flagz g1 g2 -> f1 = g1 /\ f2 = g2.
Proof. by destruct f1, f2, g1, g2. Qed.

(** The end point is appended exactly when the state of the output changes. *)
Lemma append_iff_change op f1 f2 g1 g2 : op_ok op -> (f1, f2) <> (g1, g2) ->
  (flagz g1 g2 =? opCode op) || (flagz f1 f2 =? opCode op) = xorb (sem op f1 f2) (sem op g1 g2).
Proof.
  intros _ Hne. unfold sem.
  destruct (Z.eqb_spec (flagz g1 g2) (opCode op)), (Z.eqb_spec (flagz f1 f2) (opCode op));
    destruct (0 =? opCode op); try done;
    exfalso; apply Hne; destruct (flagz_inj f1 f2 g1 g2) as [-> ->]; congruence.
Qed.

(** One run of the merge loop: at each step the least end point [x] is taken
    from the inputs that have it ([t1], [t2]). *)
Definition taken (t : bool) (x : Z) : list Z := if t then [x] else [].

Inductive merges (op : Operation) : bool -> bool -> list Z -> list Z -> list Z -> list Z -> list Z -> Prop :=
| merges_end f1 f2 s1 s2 : s1 = [] \/ s2 = [] -> merges op f1 f2 s1 s2 [] s1 s2
| merges_step f1 f2 t1 t2 x s1 s2 out r1 r2 :
    t1 || t2 = true ->
    Forall (fun e => x < e) s1 -> Forall (fun e => x < e) s2 ->
    merges op (xorb f1 t1) (xorb f2 t2) s1 s2 out r1 r2 ->
    merges op f1 f2 (taken t1 x ++ s1) (taken t2 x ++ s2)
      (taken (xorb (sem op f1 f2) (sem op (xorb f1 t1) (xorb f2 t2))) x ++ out) r1 r2.

Lemma mergeSegments_cons op x1 s1 x2 s2 flag oldFlag segs :
  mergeSegments op (x1 :: s1) (x2 :: s2) flag oldFlag segs =
    let test := i32 (x1 - x2) in
    let flag1 := if test <=? 0 then Z.lxor flag 1 else flag in
    let flag' := if 0 <=? test then Z.lxor flag1 2 else flag1 in
    let x := if 0 <=? test then x2 else x1 in
    let segs' := if (flag' =? opCode op) || (oldFlag =? opCode op) then segs ++ [x] else segs in
    if test <? 0 then mergeSegments op s1 (x2 :: s2) flag' flag' segs'
    else if 0 <? test then mergeSegments op (x1 :: s1) s2 flag' flag' segs'
    else mergeSegments op s1 s2 flag' flag' segs'.
Proof. reflexivity. Qed.

Lemma mergeSegments_nil_l op s2 f o acc : mergeSegments op [] s2 f o acc = (acc, [], s2).
Proof. by destruct s2. Qed.
Lemma mergeSegments_nil_r op s1 f o acc : mergeSegments op s1 [] f o acc = (acc, s1, []).
Proof. by destruct s1. Qed.

Lemma append_taken op f1 f2 t1 t2 (acc : list Z) x : op_ok op -> t1 || t2 = true ->
  (if (flagz (xorb f1 t1) (xorb f2 t2) =? opCode op) || (flagz f1 f2 =? opCode op)
   then acc ++ [x] else acc)
  = acc ++ taken (xorb (sem op f1 f2) (sem op (xorb f1 t1) (xorb f2 t2))) x.
Proof.
  intros Hop Ht. rewrite append_iff_change; [|done|].
  - unfold taken. destruct (xorb _ _); [done|by rewrite app_nil_r].
  - intros [= E1 E2]. by destruct f1, t1, f2, t2.
Qed.

Lemma mergeSegments_merges op s1 : op_ok op -> forall s2 f1 f2 acc,
  StronglySorted Z.lt s1 -> StronglySorted Z.lt s2 -> Forall coord s1 -> Forall coord s2 ->
  exists out r1 r2,
    mergeSegments op s1 s2 (flagz f1 f2) (flagz f1 f2) acc = (acc ++ out, r1, r2) /\
    merges op f1 f2 s1 s2 out r1 r2.
Proof.
  intros Hop. induction s1 as [|x1 s1 IH1]; intros s2.
  { intros f1 f2 acc _ _ _ _. exists [], [], s2.
    rewrite mergeSegments_nil_l, app_nil_r. split; [done|]. constructor. by left. }
  induction s2 as [|x2 s2 IH2]; intros f1 f2 acc Hs1 Hs2 Hc1 Hc2.
  { exists [], (x1 :: s1), []. rewrite mergeSegments_nil_r, app_nil_r. split; [done|].
    constructor. by right. }
  inversion Hc1; inversion Hc2; subst.
  pose proof (proj2 (StronglySorted_inv Hs1)) as Hf1.
  pose proof (proj2 (StronglySorted_inv Hs2)) as Hf2.
  rewrite mergeSegments_cons, coord_sub_i32 by done. cbv zeta.
  destruct (Z.lt_trichotomy x1 x2) as [L|[->|L]].
  - rewrite (proj2 (Z.leb_le _ 0)), (proj2 (Z.leb_gt 0 _)), (proj2 (Z.ltb_lt _ 0)) by lia.
    rewrite flagz_xor1. pose proof (append_taken op f1 f2 true false acc x1 Hop eq_refl) as E.
    rewrite xorb_true_r, xorb_false_r in E. rewrite E. clear E.
    destruct (IH1 (x2 :: s2) (negb f1) f2 (acc ++ taken (xorb (sem op f1 f2) (sem op (negb f1) f2)) x1))
      as (out & r1 & r2 & E & M); [by inversion Hs1|done..|].
    rewrite E, <- app_assoc. eexists _, r1, r2. split; [done|].
    pose proof (merges_step op f1 f2 true false x1 s1 (x2 :: s2) out r1 r2) as S.
    rewrite xorb_true_r, xorb_false_r in S. apply S; [done|done| |done].
    constructor; [done|]. eapply sorted_forall_lt; [exact Hs2|lia].
  - rewrite Z.sub_diag. change (0 <=? 0) with true. change (0 <? 0) with false. cbv iota.
    rewrite flagz_xor1, flagz_xor2.
    pose proof (append_taken op f1 f2 true true acc x2 Hop eq_refl) as E.
    rewrite !xorb_true_r in E. rewrite E. clear E.
    destruct (IH1 s2 (negb f1) (negb f2) (acc ++ taken (xorb (sem op f1 f2) (sem op (negb f1) (negb f2))) x2))
      as (out & r1 & r2 & E & M); [by inversion Hs1|by inversion Hs2|done..|].
    rewrite E, <- app_assoc. eexists _, r1, r2. split; [done|].
    pose proof (merges_step op f1 f2 true true x2 s1 s2 out r1 r2) as S.
    rewrite !xorb_true_r in S. by apply S.
  - rewrite (proj2 (Z.leb_gt _ 0)), (proj2 (Z.leb_le 0 _)), (proj2 (Z.ltb_ge _ 0)),
      (proj2 (Z.ltb_lt 0 _)) by lia.
    rewrite flagz_xor2. pose proof (append_taken op f1 f2 false true acc x2 Hop eq_refl) as E.
    rewrite xorb_true_r, xorb_false_r in E. rewrite E. clear E.
    destruct (IH2 f1 (negb f2) (acc ++ taken (xorb (sem op f1 f2) (sem op f1 (negb f2))) x2))
      as (out & r1 & r2 & E & M); [done|by inversion Hs2|done..|].
    rewrite E, <- app_assoc. eexists _, r1, r2. split; [done|].
    pose proof (merges_step op f1 f2 false true x2 (x1 :: s1) s2 out r1 r2) as S.
    rewrite xorb_true_r, xorb_false_r in S. apply S; [done| |done|done].
    constructor; [done|]. eapply sorted_forall_lt; [exact Hs1|lia].
Qed.

Lemma ins_taken t x z : ins (taken t x) z = t && (x <=? z).
Proof. destruct t; simpl; [apply xorb_false_r|done]. Qed.

(** What a run leaves and what it appends. *)
Lemma merges_split op f1 f2 s1 s2 out r1 r2 : merges op f1 f2 s1 s2 out r1 r2 ->
  exists c1 c2, s1 = c1 ++ r1 /\ s2 = c2 ++ r2 /\ (r1 = [] \/ r2 = []) /\
    (forall e, e ∈ out -> e ∈ c1 \/ e ∈ c2) /\ StronglySorted Z.lt out /\
    (forall e r, e ∈ c1 \/ e ∈ c2 -> r ∈ r1 \/ r ∈ r2 -> e < r) /\
    (forall z, xorb (sem op f1 f2) (ins out z) = sem op (xorb f1 (ins c1 z)) (xorb f2 (ins c2 z))).
Proof.
  induction 1 as [f1 f2 s1 s2 H|f1 f2 t1 t2 x s1 s2 out r1 r2 Ht H1 H2 _ IH].
  { exists [], []. repeat split; try done; [set_solver|constructor|set_solver|].
    intros z. simpl. by rewrite !xorb_false_r. }
  destruct IH as (c1 & c2 & -> & -> & Hr & Hin & Hso & Hlt & Hz).
  apply Forall_app in H1 as [H1 H1']. apply Forall_app in H2 as [H2 H2'].
  rewrite Forall_forall in H1, H1', H2, H2'.
  exists (taken t1 x ++ c1), (taken t2 x ++ c2).
  assert (Ht1 : forall t e, e ∈ taken t x -> e = x).
  { intros [] e; simpl; set_solver. }
  assert (Hx1 : forall t e, e ∈ taken t x ++ out -> e = x \/ e ∈ c1 \/ e ∈ c2).
  { intros t e [He%Ht1|He]%elem_of_app; eauto. }
  rewrite !app_assoc. repeat split; try done.
  - intros e [-> |He]%Hx1; [|set_solver]. destruct t1, t2; simpl; set_solver.
  - destruct (xorb (sem op f1 f2) _); simpl; [|done]. constructor; [done|].
    apply Forall_forall. intros e [He|He]%Hin; eauto.
  - intros e r He Hr'. rewrite !elem_of_app in He.
    destruct Hr' as [Hr'|Hr']; destruct He as [[->%Ht1|He]|[->%Ht1|He]]; eauto.
  - intros z. rewrite !ins_app, !ins_taken. destruct (Z.leb_spec x z) as [L|L].
    + rewrite !andb_true_r. specialize (Hz z). rewrite <- !xorb_assoc, <- Hz.
      by destruct (sem op f1 f2), (sem op (xorb f1 t1) (xorb f2 t2)), (ins out z).
    + rewrite !andb_false_r, !xorb_false_l.
      rewrite !(ins_below _ z); [by rewrite !xorb_false_r|..]; apply Forall_forall.
      * intros e He. apply H2 in He. lia.
      * intros e He. apply H1 in He. lia.
      * intros e [He|He]%Hin; [apply H1 in He|apply H2 in He]; lia.
Qed.

Lemma row_parity l : Forall coord l -> ins l (2 ^ 30) = Nat.odd (length l).
Proof. intros H. apply ins_above. eapply Forall_impl; [exact H|]. unfold coord. simpl. lia. Qed.

Lemma row_ok_nil : row_ok [].
Proof. repeat split; constructor. Qed.

Lemma sorted_app l1 l2 : StronglySorted Z.lt l1 -> StronglySorted Z.lt l2 ->
  (forall a b, a ∈ l1 -> b ∈ l2 -> a < b) -> StronglySorted Z.lt (l1 ++ l2).
Proof.
  intros H1 H2 H. induction H1 as [|a l1 _ IH Ha]; simpl; [done|].
  constructor; [apply IH; set_solver|]. apply Forall_app. split; [done|].
  apply Forall_forall. set_solver.
Qed.

Lemma sorted_app_r l1 l2 : StronglySorted Z.lt (l1 ++ l2) -> StronglySorted Z.lt l2.
Proof. induction l1; [done|]. intros [H _]%StronglySorted_inv. auto. Qed.

Section Combine.
Context (op : Operation) (Hop : op_ok op).

(** What is left of one input once the other is used up. *)
Definition remaining (add : bool) (r : list Z) : list Z := if add then r else [].

Lemma combineSegments_eq out r1 r2 s1 s2 : mergeSegments op s1 s2 0 0 [] = (out, r1, r2) ->
  r1 = [] \/ r2 = [] ->
  combineSegments op s1 s2 =
    out ++ remaining (sem op true false) r1 ++ remaining (sem op false true) r2.
Proof.
  intros E Hr. unfold combineSegments. rewrite E.
  rewrite (op_seg1 _ Hop), (op_seg2 _ Hop).
  destruct Hr as [-> | ->]; [destruct r2|destruct r1];
    destruct (sem op true false), (sem op false true); unfold remaining; rewrite ?app_nil_r; reflexivity.
Qed.

Lemma sem_l f : sem op f false = f && sem op true false.
Proof. destruct f; simpl; [done|apply sem_false]. Qed.
Lemma sem_r f : sem op false f = f && sem op false true.
Proof. destruct f; simpl; [done|apply sem_false]. Qed.

(** The rest appended after the loop agrees with the operation: everything
    consumed lies below it and the exhausted input is over. *)
Lemma remaining_ins c r s z : StronglySorted Z.lt (c ++ r) -> row_ok (c ++ r) -> row_ok s ->
  (forall e e', e ∈ s -> e' ∈ r -> e < e') ->
  forall add, (add = sem op true false ->
    xorb (sem op (ins c z) (ins s z)) (ins (remaining add r) z) = sem op (ins (c ++ r) z) (ins s z)) /\
  (add = sem op false true ->
    xorb (sem op (ins s z) (ins c z)) (ins (remaining add r) z) = sem op (ins s z) (ins (c ++ r) z)).
Proof.
  intros Hso Hr (Hs & Hc & Ho) Hlt add. rewrite ins_app.
  destruct (decide (Forall (fun e => z < e) r)) as [Hz|Hz].
  { rewrite (ins_below r) by done. rewrite xorb_false_r.
    assert (ins (remaining add r) z = false) as ->
      by (destruct add; [by apply ins_below|done]).
    by rewrite !xorb_false_r. }
  assert (ins s z = false) as ->.
  { rewrite ins_above; [done|]. apply not_Forall_Exists in Hz; [|intros ?; apply _].
    apply Exists_exists in Hz as (e' & He' & Hge). apply Forall_forall. intros e He.
    specialize (Hlt e e' He He'). simpl in Hge. lia. }
  split; intros ->; [rewrite (sem_l (ins c z)), (sem_l (xorb _ _))|rewrite (sem_r (ins c z)), (sem_r (xorb _ _))];
    unfold remaining.
  - destruct (sem op true false); rewrite ?andb_true_r, ?andb_false_r; done.
  - destruct (sem op false true); rewrite ?andb_true_r, ?andb_false_r; done.
Qed.

Lemma combineSegments_spec s1 s2 : row_ok s1 -> row_ok s2 ->
  row_ok (combineSegments op s1 s2) /\
  forall z, ins (combineSegments op s1 s2) z = sem op (ins s1 z) (ins s2 z).
Proof.
  intros H1 H2. pose proof H1 as (Hs1 & Hc1 & Ho1). pose proof H2 as (Hs2 & Hc2 & Ho2).
  destruct (mergeSegments_merges op s1 Hop s2 false false [] Hs1 Hs2 Hc1 Hc2)
    as (out & r1 & r2 & E & M).
  destruct (merges_split _ _ _ _ _ _ _ _ M) as (c1 & c2 & -> & -> & Hr & Hin & Hso & Hlt & Hz).
  rewrite (combineSegments_eq _ _ _ _ _ E Hr). simpl.
  assert (Hsem : forall z, ins (out ++ remaining (sem op true false) r1 ++ remaining (sem op false true) r2) z
    = sem op (ins (c1 ++ r1) z) (ins (c2 ++ r2) z)).
  { intros z. specialize (Hz z). rewrite sem_false, !xorb_false_l in Hz. rewrite ins_app, Hz, ins_app.
    destruct Hr as [-> | ->]; rewrite !app_nil_r in *.
    - destruct (remaining_ins c2 r2 c1 z Hs2 H2 H1) with (add := sem op false true) as [_ R];
        [intros; apply Hlt; eauto|]. rewrite <- R by done.
      destruct (sem op true false); simpl; by rewrite ?xorb_false_l.
    - destruct (remaining_ins c1 r1 c2 z Hs1 H1 H2) with (add := sem op true false) as [R _];
        [intros; apply Hlt; eauto|]. rewrite <- R by done.
      destruct (sem op false true); simpl; by rewrite ?xorb_false_r. }
  split; [|exact Hsem].
  assert (Hcoord : Forall coord (out ++ remaining (sem op true false) r1 ++ remaining (sem op false true) r2)).
  { rewrite Forall_forall in Hc1, Hc2. apply Forall_forall.
    intros e [[He|He]%Hin|[He|He]%elem_of_app]%elem_of_app; unfold remaining in *; repeat case_match; set_solver. }
  repeat split; [|done|].
  - apply sorted_app; [done|..].
    + destruct Hr as [-> | ->]; unfold remaining; repeat case_match; rewrite ?app_nil_r; simpl;
        try constructor; eapply sorted_app_r; eassumption.
    + intros a b [Ha|Ha]%Hin Hb; apply Hlt; try (by eauto); revert Hb; unfold remaining; repeat case_match; set_solver.
  - rewrite <- row_parity by done. rewrite Hsem, !row_parity, Ho1, Ho2 by done. apply sem_false.
Qed.

Lemma combineSegments_nil_r l : combineSegments op l [] = if sem op true false then l else [].
Proof.
  rewrite (combineSegments_eq [] l []); [|by rewrite mergeSegments_nil_r|by right].
  unfold remaining. repeat case_match; by rewrite ?app_nil_r.
Qed.

Lemma combineSegments_nil_l l : combineSegments op [] l = if sem op false true then l else [].
Proof.
  rewrite (combineSegments_eq [] [] l); [|by rewrite mergeSegments_nil_l|by left].
  unfold remaining. repeat case_match; by rewrite ?app_nil_r.
Qed.

End Combine.

(** ** Rows and their layout in the two vectors *)

Abbreviation rows := (list (Z * list Z)).

Fixpoint row_at (prev : list Z) (rs : rows) (py : Z) : list Z :=
  match rs with
  | [] => prev
  | (y, l) :: t => if y <=? py then row_at l t py else prev
  end.

(** The point set a list of rows stands for. *)
Definition pt_in (rs : rows) (px py : Z) : bool := ins (row_at [] rs py) px.

(** Canonical rows after a row [prev]: increasing ordinates, every row well
    formed and different from the one above it, the last row empty. *)
Inductive rows_ok : list Z -> rows -> Prop :=
| rows_ok_nil : rows_ok [] []
| rows_ok_cons prev y l t :
    row_ok l -> coord y -> l <> prev -> Forall (fun r => y < r.1) t -> rows_ok l t ->
    rows_ok prev ((y, l) :: t).

Fixpoint spans_of (n : nat) (rs : rows) : list Span :=
  match rs with
  | [] => []
  | (y, l) :: t => mkSpan y n :: spans_of (n + length l) t
  end.

Definition segs_of (rs : rows) : list Z := concat (map snd rs).

Definition flatten (rs : rows) : Shape := mkShape (segs_of rs) (spans_of 0 rs).

Definition last_row (rs : rows) : list Z := match last rs with Some r => r.2 | None => [] end.

Lemma segs_of_app r1 r2 : segs_of (r1 ++ r2) = segs_of r1 ++ segs_of r2.
Proof. unfold segs_of. by rewrite map_app, concat_app. Qed.

Lemma spans_of_app r1 : forall r2 n,
  spans_of n (r1 ++ r2) = spans_of n r1 ++ spans_of (n + length (segs_of r1)) r2.
Proof.
  induction r1 as [|[y l] r1 IH]; intros r2 n; simpl; [by rewrite Nat.add_0_r|].
  rewrite IH. unfold segs_of. simpl. rewrite length_app. do 3 f_equal. lia.
Qed.

Lemma rows_ok_last prev rs : rows_ok prev rs -> rs <> [] -> last_row rs = [].
Proof.
  induction 1 as [|prev y l t Hl Hy Hne Hf Ht IH]; [done|]. intros _.
  destruct t as [|r t]; [by inversion Ht|]. unfold last_row in *. rewrite last_cons.
  destruct (last (r :: t)) eqn:E; [by apply IH|]. by apply last_None in E.
Qed.

Lemma last_row_app rs y l : last_row (rs ++ [(y, l)]) = l.
Proof. unfold last_row. by rewrite last_snoc. Qed.

(** [it] points at the rows [suf] of the shape of [rs0]. *)
Definition at_rows (rs0 : rows) (it : list Span) (suf : rows) : Prop :=
  exists pre, rs0 = pre ++ suf /\ it = spans_of (length (segs_of pre)) suf.

Lemma at_rows_begin rs : at_rows rs (m_spans (flatten rs)) rs.
Proof. by exists []. Qed.

Lemma at_rows_nil rs it : at_rows rs it [] -> it = [].
Proof. by intros (pre & _ & ->). Qed.

Lemma at_rows_cons rs0 it y l t : at_rows rs0 it ((y, l) :: t) ->
  exists n it', it = mkSpan y n :: it' /\ at_rows rs0 it' t.
Proof.
  intros (pre & -> & ->). eexists _, _. split; [done|].
  exists (pre ++ [(y, l)]). rewrite <- app_assoc. split; [done|].
  rewrite segs_of_app, length_app. unfold segs_of at 3. simpl. by rewrite app_nil_r.
Qed.

(** Reading the segments of a span of a laid-out shape never fails. *)
Lemma segments_flatten rs0 it y l t : last_row rs0 = [] -> at_rows rs0 it ((y, l) :: t) ->
  segments (flatten rs0) it = Some l.
Proof.
  intros Hlast (pre & -> & ->). simpl. unfold segs_of.
  rewrite map_app, concat_app. simpl. rewrite !length_app.
  destruct (Nat.eqb_spec (length (concat (map snd pre)))
    (length (concat (map snd pre)) + (length l + length (concat (map snd t))))) as [E|E].
  { assert (length l = 0%nat) as ->%nil_length_inv by lia. done. }
  destruct t as [|[y' l'] t].
  { rewrite last_row_app in Hlast. subst l. simpl in E. lia. }
  simpl. rewrite ?length_app.
  rewrite (proj2 (Nat.leb_le _ _)) by lia. rewrite (proj2 (Nat.leb_le _ _)) by lia. simpl.
  rewrite drop_app_length. f_equal.
  replace (_ + length l - _)%nat with (length l) by lia. by rewrite take_app_length.
Qed.

(** ** Appending rows *)

Definition push (rs : rows) (y : Z) (l : list Z) : rows :=
  if bool_decide (l = last_row rs) then rs else rs ++ [(y, l)].

Lemma flatten_snoc rs y l : flatten (rs ++ [(y, l)]) =
  mkShape (segs_of rs ++ l) (m_spans (flatten rs) ++ [mkSpan y (length (segs_of rs))]).
Proof.
  unfold flatten. rewrite segs_of_app, spans_of_app. unfold segs_of at 2. simpl. by rewrite app_nil_r.
Qed.

Lemma canCoalesce_flatten rs l : rs <> [] ->
  canCoalesce (flatten rs) l = bool_decide (l = last_row rs).
Proof.
  intros Hne. destruct rs as [|[y p] rs _] using rev_ind; [done|].
  rewrite last_row_app. unfold canCoalesce. rewrite flatten_snoc. simpl.
  rewrite last_snoc. simpl. rewrite drop_app_length.
  destruct (decide (l = p)) as [->|Hn].
  - by rewrite Nat.eqb_refl, bool_decide_eq_true_2.
  - rewrite !(bool_decide_eq_false_2 (l = p)) by done. apply andb_false_r.
Qed.

Lemma appendSpan_range_flatten rs y l : rs <> [] \/ l <> [] ->
  appendSpan_range (flatten rs) y l = flatten (push rs y l).
Proof.
  intros H. unfold appendSpan_range, push. destruct rs as [|r rs].
  - simpl. destruct H as [?|H]; [done|]. rewrite bool_decide_eq_false_2 by done.
    unfold canCoalesce. simpl. unfold flatten, segs_of. simpl. by rewrite app_nil_r.
  - rewrite canCoalesce_flatten by done. case_bool_decide; [done|]. by rewrite flatten_snoc.
Qed.

Lemma Shape_isEmpty_flatten rs : Shape_isEmpty (flatten rs) = bool_decide (rs = []).
Proof. by destruct rs as [|[y l] rs]. Qed.

Lemma addSpan_flatten rs y l : addSpan (flatten rs) y l = flatten (push rs y l).
Proof.
  unfold addSpan. rewrite Shape_isEmpty_flatten.
  destruct (decide (rs = [])) as [->|Hr], (decide (l = [])) as [->|Hl].
  - done.
  - rewrite (bool_decide_eq_true_2 (l <> [])) by done. simpl. apply (appendSpan_range_flatten []). by right.
  - rewrite (bool_decide_eq_false_2 (rs = [])) by done. rewrite orb_true_r.
    apply appendSpan_range_flatten. by left.
  - rewrite (bool_decide_eq_true_2 (l <> [])) by done. simpl. apply appendSpan_range_flatten. by left.
Qed.

Lemma last_row_push rs y l : last_row (push rs y l) = l.
Proof. unfold push. case_bool_decide; [done|]. apply last_row_app. Qed.

Lemma appendSpans_flatten rs0 t : last_row rs0 = [] -> forall it acc,
  at_rows rs0 it t -> rows_ok (last_row acc) t ->
  appendSpans (flatten acc) (flatten rs0) it = Some (flatten (acc ++ t)).
Proof.
  intros Hlast. induction t as [|[y l] t IH]; intros it acc Hit Hok.
  { apply at_rows_nil in Hit as ->. simpl. by rewrite app_nil_r. }
  pose proof (segments_flatten _ _ _ _ _ Hlast Hit) as Hs.
  destruct (at_rows_cons _ _ _ _ _ Hit) as (n & it' & -> & Hit').
  inversion Hok; subst. cbn [appendSpans]. rewrite Hs. simpl.
  assert (push acc y l = acc ++ [(y, l)]) as Hp.
  { unfold push. by rewrite bool_decide_eq_false_2. }
  rewrite appendSpan_range_flatten, Hp, IH, <- app_assoc; [done|done| |].
  - by rewrite last_row_app.
  - destruct acc; [|by left]. right. done.
Qed.

(** ** Merging the rows of two shapes *)

Lemma row_at_below prev rs py : Forall (fun r => py < r.1) rs -> row_at prev rs py = prev.
Proof.
  destruct rs as [|[y l] rs]; [done|]. intros H. inversion H; subst. simpl in *.
  by rewrite (proj2 (Z.leb_gt _ _)).
Qed.

Lemma row_at_ok rs py : forall prev, row_ok prev -> rows_ok prev rs -> row_ok (row_at prev rs py).
Proof.
  induction rs as [|[y l] rs IH]; intros prev Hp Hr; simpl; [done|].
  inversion Hr; subst. case_match; auto.
Qed.

(** The optional row an input contributes at ordinate [y]; the current row
    goes from [seg] to [l]. *)
Inductive advance (y : Z) (seg : list Z) : rows -> list Z -> Prop :=
| advance_no : advance y seg [] seg
| advance_yes l : advance y seg [(y, l)] l.

Section MergeRows.
Context (op : Operation) (Hop : op_ok op).

Inductive rmerges : list Z -> list Z -> rows -> rows -> rows -> rows -> rows -> Prop :=
| rmerges_end seg1 seg2 rs1 rs2 : rs1 = [] \/ rs2 = [] -> rmerges seg1 seg2 rs1 rs2 [] rs1 rs2
| rmerges_step seg1 seg2 p1 p2 y l1 l2 rs1 rs2 new r1 r2 :
    advance y seg1 p1 l1 -> advance y seg2 p2 l2 ->
    Forall (fun r => y < r.1) rs1 -> Forall (fun r => y < r.1) rs2 -> coord y ->
    rmerges l1 l2 rs1 rs2 new r1 r2 ->
    rmerges seg1 seg2 (p1 ++ rs1) (p2 ++ rs2)
      ((if bool_decide (combineSegments op l1 l2 = combineSegments op seg1 seg2) then []
        else [(y, combineSegments op l1 l2)]) ++ new) r1 r2.

Lemma advance_ok y seg p l rs : advance y seg p l -> row_ok seg -> rows_ok seg (p ++ rs) ->
  row_ok l /\ rows_ok l rs.
Proof. intros [|l'] Hs Hr; [done|]. simpl in Hr. by inversion Hr; subst. Qed.

Lemma advance_row_at y seg p l rs py : advance y seg p l -> Forall (fun r => y < r.1) rs ->
  row_at seg (p ++ rs) py = if y <=? py then row_at l rs py else seg.
Proof.
  intros [|l'] Hf; simpl; [|done]. destruct (Z.leb_spec y py); [done|].
  apply row_at_below. eapply Forall_impl; [exact Hf|]. simpl. lia.
Qed.

Definition final_rows (new r1 r2 : rows) : rows :=
  new ++ (if sem op true false then r1 else []) ++ (if sem op false true then r2 else []).

Lemma rmerges_bound seg1 seg2 rs1 rs2 new r1 r2 lo : rmerges seg1 seg2 rs1 rs2 new r1 r2 ->
  Forall (fun r => lo < r.1) rs1 -> Forall (fun r => lo < r.1) rs2 ->
  Forall (fun r => lo < r.1) (final_rows new r1 r2).
Proof.
  induction 1 as [seg1 seg2 rs1 rs2 H|seg1 seg2 p1 p2 y l1 l2 rs1 rs2 new r1 r2 A1 A2 F1 F2 Hy _ IH].
  - intros H1 H2. unfold final_rows. simpl. apply Forall_app. repeat case_match; done.
  - intros [Hp1 H1]%Forall_app [Hp2 H2]%Forall_app. specialize (IH H1 H2).
    unfold final_rows in *. rewrite <- app_assoc. apply Forall_app. split; [|done].
    case_bool_decide as E; [done|]. constructor; [|done]. simpl.
    inversion A1; subst; [inversion A2; subst; [done|]|].
    + inversion Hp2; subst. done.
    + inversion Hp1; subst. done.
Qed.

Lemma rmerges_spec seg1 seg2 rs1 rs2 new r1 r2 : rmerges seg1 seg2 rs1 rs2 new r1 r2 ->
  row_ok seg1 -> row_ok seg2 -> rows_ok seg1 rs1 -> rows_ok seg2 rs2 ->
  rows_ok (combineSegments op seg1 seg2) (final_rows new r1 r2) /\
  forall py, row_at (combineSegments op seg1 seg2) (final_rows new r1 r2) py =
    combineSegments op (row_at seg1 rs1 py) (row_at seg2 rs2 py).
Proof.
  induction 1 as [seg1 seg2 rs1 rs2 H|seg1 seg2 p1 p2 y l1 l2 rs1 rs2 new r1 r2 A1 A2 F1 F2 Hy M IH];
    intros Hs1 Hs2 Hr1 Hr2.
  - unfold final_rows. simpl. destruct H as [-> | ->].
    + inversion Hr1; subst. rewrite (combineSegments_nil_l _ Hop).
      destruct (sem op true false), (sem op false true) eqn:E2; (split; [simpl; done || constructor|]);
        intros py; by rewrite (combineSegments_nil_l _ Hop), E2.
    + inversion Hr2; subst. rewrite (combineSegments_nil_r _ Hop).
      destruct (sem op true false) eqn:E1, (sem op false true);
        (split; [simpl; rewrite ?app_nil_r; done || constructor|]);
        intros py; by rewrite (combineSegments_nil_r _ Hop), ?app_nil_r, E1.
  - destruct (advance_ok _ _ _ _ _ A1 Hs1 Hr1) as [Hl1 Ht1].
    destruct (advance_ok _ _ _ _ _ A2 Hs2 Hr2) as [Hl2 Ht2].
    destruct (IH Hl1 Hl2 Ht1 Ht2) as [IHok IHat]. clear IH.
    pose proof (rmerges_bound _ _ _ _ _ _ _ y M F1 F2) as Hb.
    assert (Hc : row_ok (combineSegments op l1 l2)) by (by apply combineSegments_spec).
    assert (Hb' : forall py, py < y -> row_at (combineSegments op seg1 seg2) (final_rows new r1 r2) py
      = combineSegments op seg1 seg2).
    { intros py Hp. apply row_at_below. eapply Forall_impl; [exact Hb|]. simpl. lia. }
    case_bool_decide as E.
    + rewrite <- E in Hb' |- *. split; [done|]. intros py.
      rewrite (advance_row_at _ _ _ _ _ _ A1 F1), (advance_row_at _ _ _ _ _ _ A2 F2).
      change (final_rows ([] ++ new) r1 r2) with (final_rows new r1 r2).
      destruct (Z.leb_spec y py); [done|]. by rewrite Hb'.
    + change (final_rows ([(y, combineSegments op l1 l2)] ++ new) r1 r2)
        with ((y, combineSegments op l1 l2) :: final_rows new r1 r2).
      split; [by constructor|]. intros py. simpl.
      rewrite (advance_row_at _ _ _ _ _ _ A1 F1), (advance_row_at _ _ _ _ _ _ A2 F2).
      by destruct (Z.leb_spec y py).
Qed.

Lemma rmerges_ends seg1 seg2 rs1 rs2 new r1 r2 : rmerges seg1 seg2 rs1 rs2 new r1 r2 ->
  r1 = [] \/ r2 = [].
Proof. by induction 1. Qed.

Lemma push_combine acc y l1 l2 seg1 seg2 : last_row acc = combineSegments op seg1 seg2 ->
  push acc y (combineSegments op l1 l2) =
  acc ++ (if bool_decide (combineSegments op l1 l2 = combineSegments op seg1 seg2) then []
          else [(y, combineSegments op l1 l2)]).
Proof. intros E. unfold push. rewrite E. case_bool_decide; by rewrite ?app_nil_r. Qed.

Lemma shapeOperation_loop_cons shape1 shape2 sp1 rest1 sp2 rest2 seg1 seg2 result :
  shapeOperation_loop op shape1 shape2 (sp1 :: rest1) (sp2 :: rest2) seg1 seg2 result =
    let test := i32 (span_y sp1 - span_y sp2) in
    segs1 ← (if test <=? 0 then segments shape1 (sp1 :: rest1) else Some seg1);
    segs2 ← (if 0 <=? test then segments shape2 (sp2 :: rest2) else Some seg2);
    let y := if 0 <=? test then span_y sp2 else span_y sp1 in
    let result' := addSpan result y (combineSegments op segs1 segs2) in
    if test <? 0 then shapeOperation_loop op shape1 shape2 rest1 (sp2 :: rest2) segs1 segs2 result'
    else if 0 <? test then shapeOperation_loop op shape1 shape2 (sp1 :: rest1) rest2 segs1 segs2 result'
    else shapeOperation_loop op shape1 shape2 rest1 rest2 segs1 segs2 result'.
Proof. reflexivity. Qed.

(** A rest of canonical rows, with the ordinate of the next one bounded. *)
Lemma rows_ok_inv prev y l t : rows_ok prev ((y, l) :: t) ->
  coord y /\ Forall (fun r => y < r.1) t /\ rows_ok l t.
Proof. by inversion 1. Qed.

Lemma rows_above y' y l t : y < y' -> Forall (fun r : Z * list Z => y' < r.1) t ->
  Forall (fun r => y < r.1) ((y', l) :: t).
Proof.
  intros L F. constructor; [done|]. eapply Forall_impl; [exact F|]. simpl. lia.
Qed.

Lemma shapeOperation_loop_rows A B : last_row A = [] -> last_row B = [] ->
  forall rs1 rs2 it1 it2 seg1 seg2 acc,
  at_rows A it1 rs1 -> at_rows B it2 rs2 -> rows_ok seg1 rs1 -> rows_ok seg2 rs2 ->
  last_row acc = combineSegments op seg1 seg2 ->
  exists new r1 r2 it1' it2',
    shapeOperation_loop op (flatten A) (flatten B) it1 it2 seg1 seg2 (flatten acc)
      = Some (flatten (acc ++ new), it1', it2') /\
    rmerges seg1 seg2 rs1 rs2 new r1 r2 /\ at_rows A it1' r1 /\ at_rows B it2' r2 /\
    exists seg1' seg2', rows_ok seg1' r1 /\ rows_ok seg2' r2 /\
      last_row (acc ++ new) = combineSegments op seg1' seg2'.
Proof.
  intros HA HB. induction rs1 as [|[y1 l1] t1 IH1]; intros rs2.
  { intros it1 it2 seg1 seg2 acc H1 H2 Hr1 Hr2 Hl. exists [], [], rs2, it1, it2.
    rewrite app_nil_r. apply at_rows_nil in H1 as H1'. subst it1.
    split; [by destruct it2|]. split; [constructor; by left|].
    split_and!; [done|done|]. by exists seg1, seg2. }
  induction rs2 as [|[y2 l2] t2 IH2]; intros it1 it2 seg1 seg2 acc H1 H2 Hr1 Hr2 Hl.
  { exists [], ((y1, l1) :: t1), [], it1, it2.
    rewrite app_nil_r. apply at_rows_nil in H2 as H2'. subst it2.
    split; [by destruct it1|]. split; [constructor; by right|].
    split_and!; [done|done|]. by exists seg1, seg2. }
  pose proof (segments_flatten _ _ _ _ _ HA H1) as S1.
  pose proof (segments_flatten _ _ _ _ _ HB H2) as S2.
  destruct (at_rows_cons _ _ _ _ _ H1) as (n1 & i1 & -> & H1').
  destruct (at_rows_cons _ _ _ _ _ H2) as (n2 & i2 & -> & H2').
  destruct (rows_ok_inv _ _ _ _ Hr1) as (Hc1 & Hf1 & Ht1).
  destruct (rows_ok_inv _ _ _ _ Hr2) as (Hc2 & Hf2 & Ht2).
  rewrite shapeOperation_loop_cons, S1, S2. simpl span_y. rewrite coord_sub_i32 by done. cbv zeta.
  destruct (Z.lt_trichotomy y1 y2) as [L|[->|L]].
  - rewrite (proj2 (Z.leb_le _ 0)), (proj2 (Z.leb_gt 0 _)), (proj2 (Z.ltb_lt _ 0)) by lia. cbn [mbind option_bind].
    rewrite addSpan_flatten, (push_combine _ _ _ _ _ _ Hl).
    destruct (IH1 ((y2, l2) :: t2) i1 (mkSpan y2 n2 :: i2) l1 seg2
      (acc ++ (if bool_decide (combineSegments op l1 seg2 = combineSegments op seg1 seg2) then []
          else [(y1, combineSegments op l1 seg2)])))
      as (new & r1 & r2 & it1' & it2' & E & M & R); [done..| |].
    { by rewrite <- (push_combine _ _ _ _ _ _ Hl), last_row_push. }
    rewrite E, <- app_assoc. rewrite <- app_assoc in R. do 5 eexists. split; [done|]. split; [|exact R].
    apply (rmerges_step seg1 seg2 [(y1, l1)] [] y1 l1 seg2 t1 ((y2, l2) :: t2));
      [constructor|constructor|done|by apply rows_above|done|done].
  - rewrite Z.sub_diag. change (0 <=? 0) with true. change (0 <? 0) with false. cbn [mbind option_bind].
    rewrite addSpan_flatten, (push_combine _ _ _ _ _ _ Hl).
    destruct (IH1 t2 i1 i2 l1 l2
      (acc ++ (if bool_decide (combineSegments op l1 l2 = combineSegments op seg1 seg2) then []
          else [(y2, combineSegments op l1 l2)])))
      as (new & r1 & r2 & it1' & it2' & E & M & R); [done..| |].
    { by rewrite <- (push_combine _ _ _ _ _ _ Hl), last_row_push. }
    rewrite E, <- app_assoc. rewrite <- app_assoc in R. do 5 eexists. split; [done|]. split; [|exact R].
    apply (rmerges_step seg1 seg2 [(y2, l1)] [(y2, l2)] y2 l1 l2 t1 t2);
      [constructor|constructor|done..].
  - rewrite (proj2 (Z.leb_gt _ 0)), (proj2 (Z.leb_le 0 _)), (proj2 (Z.ltb_ge _ 0)),
      (proj2 (Z.ltb_lt 0 _)) by lia. cbn [mbind option_bind].
    rewrite addSpan_flatten, (push_combine _ _ _ _ _ _ Hl).
    destruct (IH2 (mkSpan y1 n1 :: i1) i2 seg1 l2
      (acc ++ (if bool_decide (combineSegments op seg1 l2 = combineSegments op seg1 seg2) then []
          else [(y2, combineSegments op seg1 l2)])))
      as (new & r1 & r2 & it1' & it2' & E & M & R); [done..| |].
    { by rewrite <- (push_combine _ _ _ _ _ _ Hl), last_row_push. }
    rewrite E, <- app_assoc. rewrite <- app_assoc in R. do 5 eexists. split; [done|]. split; [|exact R].
    apply (rmerges_step seg1 seg2 [] [(y2, l2)] y2 seg1 l2 ((y1, l1) :: t1) t2);
      [constructor|constructor|by apply rows_above|done..].
Qed.

(** The operation on the shapes of canonical rows: it returns, the result is
    the shape of canonical rows, and it stands for the combined point set. *)
Lemma shapeOperation_rows A B : rows_ok [] A -> rows_ok [] B ->
  exists C, shapeOperation op (flatten A) (flatten B) = Some (flatten C) /\ rows_ok [] C /\
    forall px py, pt_in C px py = sem op (pt_in A px py) (pt_in B px py).
Proof.
  intros HA HB. unfold shapeOperation.
  destruct (trySimpleOperation op (flatten A) (flatten B)) eqn:Es.
  { destruct (op_simple _ Hop _ _ _ Es) as (-> & He & Hsem). exists B. split; [done|]. split; [done|].
    rewrite Shape_isEmpty_flatten in He. apply bool_decide_eq_true_1 in He as ->.
    intros px py. unfold pt_in at 2. simpl. rewrite sem_r, Hsem. by rewrite andb_true_r. }
  assert (HlA : last_row A = []) by (destruct A; [done|by eapply rows_ok_last]).
  assert (HlB : last_row B = []) by (destruct B; [done|by eapply rows_ok_last]).
  assert (Hnil : combineSegments op [] [] = []) by (rewrite combineSegments_nil_l by done; by case_match).
  destruct (shapeOperation_loop_rows A B HlA HlB A B _ _ [] [] [] (at_rows_begin A) (at_rows_begin B) HA HB)
    as (new & r1 & r2 & it1 & it2 & E & M & H1 & H2 & seg1 & seg2 & Hr1 & Hr2 & Hl).
  { by rewrite Hnil. }
  change (flatten []) with Shape_empty in E. rewrite E. simpl.
  pose proof (rmerges_ends _ _ _ _ _ _ _ M) as Hends.
  destruct (rmerges_spec _ _ _ _ _ _ _ M) as [Hok Hat]; [apply row_ok_nil|apply row_ok_nil|done|done|].
  rewrite Hnil in Hok, Hat. exists (final_rows new r1 r2). split; [|split; [done|]].
  - rewrite (op_span1 _ Hop), (op_span2 _ Hop). unfold final_rows. simpl in Hl.
    destruct Hends as [-> | ->].
    + apply at_rows_nil in H1 as ->. inversion Hr1; subst. rewrite combineSegments_nil_l in Hl by done.
      rewrite andb_false_r. destruct (sem op false true) eqn:E2.
      * destruct r2 as [|[y2 l2] r2].
        { apply at_rows_nil in H2 as ->. by destruct (sem op true false); simpl; rewrite !app_nil_r. }
        assert (bool_decide (it2 <> []) = true) as ->.
        { apply bool_decide_eq_true_2. by destruct (at_rows_cons _ _ _ _ _ H2) as (? & ? & -> & _). }
        simpl. rewrite (appendSpans_flatten B ((y2, l2) :: r2)); [|done|done|by rewrite Hl].
        by destruct (sem op true false).
      * simpl. by destruct (sem op true false); rewrite !app_nil_r.
    + apply at_rows_nil in H2 as ->. inversion Hr2; subst. rewrite combineSegments_nil_r in Hl by done.
      rewrite andb_false_r. destruct (sem op true false) eqn:E1.
      * destruct r1 as [|[y1 l1] r1].
        { apply at_rows_nil in H1 as ->. by destruct (sem op false true); simpl; rewrite !app_nil_r. }
        assert (bool_decide (it1 <> []) = true) as ->.
        { apply bool_decide_eq_true_2. by destruct (at_rows_cons _ _ _ _ _ H1) as (? & ? & -> & _). }
        simpl. rewrite (appendSpans_flatten A ((y1, l1) :: r1)); [|done|done|by rewrite Hl].
        destruct (sem op false true); by rewrite app_nil_r.
      * simpl. by destruct (sem op false true); rewrite !app_nil_r.
  - intros px py. unfold pt_in. rewrite Hat.
    apply combineSegments_spec; [done|..]; apply row_at_ok; auto using row_ok_nil.
Qed.

End MergeRows.
