(* ===== verification/RegionBounds.v ===== *)
(** * RegionBounds: the bounds of shapes, and comparing shapes *)

From Stdlib Require Import Sorted.
From S2P Require Import Prelude Geometry Region RegionAlgebra.

(** * Point queries and bounding boxes *)

Import Region.

(** ** Rows and points *)

Lemma last_row_canonical rs : rows_ok [] rs -> last_row rs = [].
Proof. destruct rs; [done|]. intros H. by eapply rows_ok_last. Qed.

Lemma row_at_in rs py : forall prev, row_at prev rs py = prev \/ exists y, (y, row_at prev rs py) ∈ rs.
Proof.
  induction rs as [|[y l] rs IH]; intros prev; simpl; [by left|].
  case_match; [|by left]. right. destruct (IH l) as [E|[y' E]].
  - exists y. rewrite E. left.
  - exists y'. by right.
Qed.

Lemma row_at_row rs y l : forall prev, rows_ok prev rs -> (y, l) ∈ rs -> row_at prev rs y = l.
Proof.
  induction rs as [|[y' l'] rs IH]; intros prev Hok Hin; [by apply elem_of_nil in Hin|].
  inversion Hok as [|? ? ? ? Hl Hy Hne Hf Ht]; subst. simpl.
  apply elem_of_cons in Hin as [[= -> ->]|Hin].
  - rewrite Z.leb_refl. apply row_at_below. done.
  - rewrite Forall_forall in Hf. specialize (Hf _ Hin). simpl in Hf.
    rewrite (proj2 (Z.leb_le _ _)) by lia. auto.
Qed.

Lemma rows_ok_row rs y l : forall prev, rows_ok prev rs -> (y, l) ∈ rs -> row_ok l /\ coord y.
Proof.
  induction rs as [|[y' l'] rs IH]; intros prev Hok Hin; [by apply elem_of_nil in Hin|].
  inversion Hok; subst. apply elem_of_cons in Hin as [[= -> ->]|Hin]; eauto.
Qed.

Lemma row_at_past rs py : forall prev, Forall (fun r => r.1 <= py) rs -> rows_ok prev rs ->
  row_at prev rs py = [].
Proof.
  induction rs as [|[y l] rs IH]; intros prev Hf Hok; inversion Hok; subst; [done|].
  inversion Hf; subst. simpl in *. rewrite (proj2 (Z.leb_le _ _)) by done. auto.
Qed.

Lemma ins_head_le l a px : row_ok l -> head l = Some a -> ins l px = true -> a <= px.
Proof.
  intros (Hs & _) Hh Hi. destruct l as [|b l]; simplify_eq/=.
  destruct (Z.leb_spec a px); [done|]. rewrite ins_below in Hi; [done|].
  eapply sorted_forall_lt; [exact Hs|lia].
Qed.

Lemma sorted_last_max l b : StronglySorted Z.lt l -> last l = Some b -> Forall (fun e => e <= b) l.
Proof.
  intros Hs. induction Hs as [|a l Hs IH Ha]; [done|]. rewrite last_cons.
  destruct (last l) eqn:E; intros [= ->].
  - constructor; [|by apply IH]. apply last_Some_elem_of in E.
    rewrite Forall_forall in Ha. specialize (Ha _ E). lia.
  - apply last_None in E as ->. constructor; [lia|constructor].
Qed.

Lemma ins_lt_last l b px : row_ok l -> last l = Some b -> ins l px = true -> px < b.
Proof.
  intros (Hs & _ & Ho) Hb Hi. destruct (Z.ltb_spec px b); [done|].
  rewrite ins_above in Hi; [congruence|].
  eapply Forall_impl; [by eapply sorted_last_max|]. simpl. lia.
Qed.

Lemma ins_last l b : row_ok l -> last l = Some b -> ins l (b - 1) = true.
Proof.
  intros (Hs & _ & Ho) Hb. apply last_Some in Hb as [l' ->].
  rewrite ins_app. simpl. rewrite (proj2 (Z.leb_gt b (b - 1))) by lia. rewrite !xorb_false_r.
  rewrite length_app, Nat.add_1_r in Ho. rewrite Nat.odd_succ, <- Nat.negb_odd in Ho.
  rewrite ins_above; [by destruct (Nat.odd _)|].
  assert (forall e, e ∈ l' -> e < b) as H.
  { clear Ho. induction l' as [|a l' IH]; [set_solver|]. intros e [->|He]%elem_of_cons.
    - apply StronglySorted_inv in Hs as [_ Hs]. rewrite Forall_forall in Hs. apply Hs. set_solver.
    - apply IH; [by inversion Hs|done]. }
  apply Forall_forall. intros e He. specialize (H e He). lia.
Qed.

Lemma row_nonempty l : row_ok l -> l <> [] -> exists a b, head l = Some a /\ last l = Some b /\ a < b.
Proof.
  intros Hr Hne. destruct l as [|a l]; [done|]. destruct (last (a :: l)) as [b|] eqn:Eb.
  - exists a, b. split_and!; [done|done|].
    assert (Hi : ins (a :: l) a = true) by (apply ins_head; apply Hr).
    eapply ins_lt_last; eauto.
  - by apply last_None in Eb.
Qed.

(** ** Point membership *)

Lemma contains_loop_above s y n it p : m_y p < y -> contains_loop s (mkSpan y n :: it) p = Some false.
Proof. intros H. destruct it; simpl; [done|]. by rewrite (proj2 (Z.ltb_lt _ _)). Qed.

Lemma contains_loop_cons s sp sp' rest p : contains_loop s (sp :: sp' :: rest) p =
  if m_y p <? span_y sp then Some false
  else if span_y sp' <=? m_y p then contains_loop s (sp' :: rest) p
  else
    segs ← segments s (sp :: sp' :: rest);
    if segments_contain segs (m_x p) then Some true else contains_loop s (sp' :: rest) p.
Proof. reflexivity. Qed.

Lemma contains_loop_rows rs0 p : last_row rs0 = [] -> forall suf it prev,
  at_rows rs0 it suf -> rows_ok prev suf -> Forall (fun r => prev = [] \/ r.1 <= m_y p) (take 1 suf) ->
  contains_loop (flatten rs0) it p = Some (ins (row_at prev suf (m_y p)) (m_x p)).
Proof.
  intros Hlast. induction suf as [|[y l] t IH]; intros it prev Hit Hok Hpre.
  { apply at_rows_nil in Hit as ->. inversion Hok; subst. done. }
  pose proof (segments_flatten _ _ _ _ _ Hlast Hit) as Hs.
  destruct (at_rows_cons _ _ _ _ _ Hit) as (n & it' & -> & Hit').
  inversion Hok as [|? ? ? ? Hl Hy Hne Hf Ht]; subst.
  destruct t as [|[y2 l2] t].
  { apply at_rows_nil in Hit' as ->. inversion Ht; subst. simpl in *.
    inversion Hpre as [|? ? [->|Hpy] _]; subst; simpl.
    - by destruct (y <=? m_y p).
    - by rewrite (proj2 (Z.leb_le _ _)). }
  destruct (at_rows_cons _ _ _ _ _ Hit') as (n2 & it2 & -> & Hit2).
  rewrite contains_loop_cons, Hs. simpl span_y. cbn [mbind option_bind].
  inversion Hf as [|? ? Hy2 Hf2]; subst. simpl in Hy2.
  destruct (Z.ltb_spec (m_y p) y).
  { simpl. rewrite (proj2 (Z.leb_gt _ _)) by lia.
    inversion Hpre as [|? ? [->|Hpy] _]; subst; [done|]. simpl in Hpy. lia. }
  simpl row_at. rewrite (proj2 (Z.leb_le y _)) by lia.
  destruct (Z.leb_spec y2 (m_y p)).
  - rewrite (IH _ l Hit' Ht); [|by (constructor; [by right|constructor])].
    simpl. by rewrite (proj2 (Z.leb_le y2 _)) by lia.
  - rewrite (segments_contain_ins _ _ Hl).
    destruct (ins l (m_x p)) eqn:Ei; [done|].
    by apply contains_loop_above.
Qed.

(** ** Bounding boxes *)

(** [r] is the bounding box of [P]: the default rectangle when [P] is empty,
    otherwise a rectangle that covers [P] and touches it on every side. *)
Record box (P : Z -> Z -> bool) (r : IntRect) : Prop := {
  box_fits : coord (IntRect.x r) /\ coord (IntRect.x r + IntRect.width r) /\
    coord (IntRect.y r) /\ coord (IntRect.y r + IntRect.height r);
  box_covers : forall px py, P px py = true ->
    IntRect.x r <= px < IntRect.x r + IntRect.width r /\ IntRect.y r <= py < IntRect.y r + IntRect.height r;
  box_left : exists py, P (IntRect.x r) py = true;
  box_right : exists py, P (IntRect.x r + IntRect.width r - 1) py = true;
  box_top : exists px, P px (IntRect.y r) = true;
  box_bottom : exists px, P px (IntRect.y r + IntRect.height r - 1) = true
}.

Definition bbox (P : Z -> Z -> bool) (r : IntRect) : Prop :=
  ((forall px py, P px py = false) /\ r = IntRect.empty) \/ box P r.

Lemma segs_head rs e : head (segs_of rs) = Some e -> exists y l, (y, l) ∈ rs /\ head l = Some e.
Proof.
  induction rs as [|[y [|a l]] rs IH]; [done|..].
  - intros H. destruct (IH H) as (y' & l' & Hin & Hh). exists y', l'. split; [by right|done].
  - intros [= ->]. exists y, (e :: l). split; [left|done].
Qed.

Lemma segs_last rs e : last (segs_of rs) = Some e -> exists y l, (y, l) ∈ rs /\ last l = Some e.
Proof.
  induction rs as [|[y l] rs IH] using rev_ind; [done|].
  rewrite segs_of_app. unfold segs_of at 2. simpl. rewrite app_nil_r.
  destruct l as [|a l] using rev_ind.
  - rewrite app_nil_r. intros H. destruct (IH H) as (y' & l' & Hin & Hh). exists y', l'. set_solver.
  - rewrite app_assoc, last_snoc. intros [= ->]. exists y, (l ++ [e]). rewrite last_snoc. set_solver.
Qed.

Lemma lookup_first (l1 l2 : list Z) : (l1 ++ l2) !! length l1 = head l2.
Proof. rewrite lookup_app_r by lia. rewrite Nat.sub_diag. by destruct l2. Qed.

Lemma lookup_before (l1 l2 : list Z) : l1 <> [] -> (l1 ++ l2) !! (length l1 - 1)%nat = last l1.
Proof.
  intros H. destruct l1 as [|a l1]; [done|]. rewrite lookup_app_l by (simpl; lia).
  rewrite last_lookup. f_equal. simpl. lia.
Qed.

Lemma bounds_loop_cons s sp sp' rest minX maxX : bounds_loop s (sp :: sp' :: rest) minX maxX =
  if (segmentIndex sp =? length (m_segments s))%nat then bounds_loop s (sp' :: rest) minX maxX
  else
    first ← m_segments s !! segmentIndex sp;
    last ← (if (segmentIndex sp' =? 0)%nat then None else m_segments s !! (segmentIndex sp' - 1)%nat);
    bounds_loop s (sp' :: rest) (if first <? minX then first else minX) (if maxX <? last then last else maxX).
Proof. reflexivity. Qed.

(** The loop of [bounds]: it never reads out of range, and it returns the
    least head and the greatest last end point of the rows it passes. *)
Lemma bounds_loop_rows rs0 : last_row rs0 = [] -> (forall e l t, rs0 = (e, l) :: t -> l <> []) ->
  forall suf pre mn mx, rs0 = pre ++ suf ->
  exists mn' mx',
    bounds_loop (flatten rs0) (spans_of (length (segs_of pre)) suf) mn mx = Some (mn', mx') /\
    mn' <= mn /\ mx <= mx' /\
    (forall y l a b, (y, l) ∈ suf -> head l = Some a -> last l = Some b -> mn' <= a /\ b <= mx') /\
    (mn' = mn \/ exists y l, (y, l) ∈ rs0 /\ head l = Some mn') /\
    (mx' = mx \/ exists y l, (y, l) ∈ rs0 /\ last l = Some mx').
Proof.
  intros Hlast Hfirst. induction suf as [|[y l] t IH]; intros pre mn mx E.
  { exists mn, mx. simpl. split_and!; try lia; try done. set_solver. }
  destruct t as [|[y2 l2] t2].
  { exists mn, mx. simpl. subst rs0. rewrite last_row_app in Hlast. subst l.
    split_and!; try lia; try done. set_solver. }
  assert (Hpre : rs0 = (pre ++ [(y, l)]) ++ (y2, l2) :: t2) by (rewrite <- app_assoc; done).
  assert (Hlen : (length (segs_of pre) + length l)%nat = length (segs_of (pre ++ [(y, l)]))).
  { rewrite segs_of_app, length_app. unfold segs_of at 3. simpl. by rewrite app_nil_r. }
  simpl spans_of. rewrite bounds_loop_cons. simpl segmentIndex. rewrite Hlen.
  change (mkSpan y2 (length (segs_of (pre ++ [(y, l)]))) :: spans_of (length (segs_of (pre ++ [(y, l)])) + length l2) t2)
    with (spans_of (length (segs_of (pre ++ [(y, l)]))) ((y2, l2) :: t2)).
  assert (Hseg : m_segments (flatten rs0) = segs_of pre ++ segs_of ((y, l) :: (y2, l2) :: t2)).
  { simpl. by rewrite E, segs_of_app. }
  destruct (Nat.eqb_spec (length (segs_of pre)) (length (m_segments (flatten rs0)))) as [El|El].
  { destruct (IH (pre ++ [(y, l)]) mn mx Hpre) as (mn' & mx' & Hb & H1 & H2 & H3 & H4 & H5).
    exists mn', mx'. split_and!; try done. intros y' l' a b [[= -> ->]|Hin]%elem_of_cons Ha Hb'; [|eauto].
    rewrite Hseg, length_app in El. unfold segs_of at 3 in El. simpl in El. rewrite length_app in El.
    destruct l; [done|]. simpl in El. lia. }
  rewrite Hseg, lookup_first.
  destruct (head (segs_of ((y, l) :: (y2, l2) :: t2))) as [first|] eqn:Eh.
  2: { rewrite Hseg, length_app in El. by destruct (segs_of ((y, l) :: (y2, l2) :: t2)); simplify_eq/=. }
  cbn [mbind option_bind].
  assert (Hne : segs_of (pre ++ [(y, l)]) <> []).
  { destruct pre as [|[y0 l0] pre].
    - unfold segs_of. simpl. rewrite app_nil_r. by eapply Hfirst.
    - unfold segs_of. simpl. assert (l0 <> []) by (by eapply Hfirst). by destruct l0. }
  destruct (Nat.eqb_spec (length (segs_of (pre ++ [(y, l)]))) 0) as [E0|_].
  { by apply nil_length_inv in E0. }
  assert (segs_of pre ++ segs_of ((y, l) :: (y2, l2) :: t2) = segs_of (pre ++ [(y, l)]) ++ segs_of ((y2, l2) :: t2)) as ->.
  { by rewrite <- !segs_of_app, <- app_assoc. }
  rewrite lookup_before by done.
  destruct (last (segs_of (pre ++ [(y, l)]))) as [lst|] eqn:Elst; [|by apply last_None in Elst].
  cbn [mbind option_bind].
  destruct (IH (pre ++ [(y, l)]) (if first <? mn then first else mn) (if mx <? lst then lst else mx) Hpre)
    as (mn' & mx' & Hb & H1 & H2 & H3 & H4 & H5).
  destruct (segs_head _ _ Eh) as (yf & lf & Hinf & Hhf).
  destruct (segs_last _ _ Elst) as (yl & ll & Hinl & Hhl).
  exists mn', mx'. split_and!; [done|..].
  - destruct (Z.ltb_spec first mn); lia.
  - destruct (Z.ltb_spec mx lst); lia.
  - intros y' l' a b [[= -> ->]|Hin]%elem_of_cons Ha Hb'; [|eauto].
    assert (first = a) as ->.
    { unfold segs_of in Eh. simpl in Eh. destruct l; simplify_eq/=. done. }
    assert (lst = b) as ->.
    { rewrite segs_of_app in Elst. unfold segs_of at 2 in Elst. simpl in Elst.
      rewrite app_nil_r, last_app, Hb' in Elst. by simplify_eq. }
    destruct (Z.ltb_spec a mn), (Z.ltb_spec mx b); lia.
  - destruct H4 as [->|H4]; [|by right]. destruct (first <? mn); [right|by left].
    exists yf, lf. split; [|done]. rewrite E. set_solver.
  - destruct H5 as [->|H5]; [|by right]. destruct (mx <? lst); [right|by left].
    exists yl, ll. split; [|done]. rewrite Hpre. set_solver.
Qed.

(** The last row above the end of a shape is not empty. *)
Lemma rows_bottom rs : forall prev, rows_ok prev rs -> prev <> [] \/ rs <> [] ->
  exists ylast, last rs = Some (ylast, []) /\ row_at prev rs (ylast - 1) <> [] /\
    Forall (fun r => r.1 <= ylast) rs.
Proof.
  induction rs as [|[y l] t IH]; intros prev Hok Hne.
  { inversion Hok; subst. by destruct Hne. }
  inversion Hok as [|? ? ? ? Hl Hy Hneq Hf Ht]; subst. destruct t as [|r t].
  { inversion Ht; subst. exists y. simpl. rewrite (proj2 (Z.leb_gt y (y - 1))) by lia.
    split_and!; [done|by destruct prev|]. constructor; [simpl; lia|constructor]. }
  destruct (IH l Ht) as (yl & Hlast & Hrow & Hle); [by right|].
  exists yl. rewrite last_cons, Hlast. split; [done|].
  assert (y < yl).
  { apply last_Some_elem_of in Hlast. rewrite Forall_forall in Hf. by apply (Hf (yl, [])). }
  split; [|constructor; [simpl; lia|done]].
  change (row_at prev ((y, l) :: r :: t) (yl - 1)) with
    (if y <=? yl - 1 then row_at l (r :: t) (yl - 1) else prev).
  by rewrite (proj2 (Z.leb_le y (yl - 1))) by lia.
Qed.

Lemma pt_in_row rs px py : rows_ok [] rs -> pt_in rs px py = true ->
  exists y l, (y, l) ∈ rs /\ row_at [] rs py = l /\ l <> [] /\ row_ok l /\ ins l px = true.
Proof.
  unfold pt_in. intros Hok Hi. destruct (row_at_in rs py []) as [E|[y Hin]].
  { by rewrite E in Hi. }
  exists y, (row_at [] rs py). destruct (rows_ok_row _ _ _ _ Hok Hin) as [Hl _].
  split_and!; [done|done|by intros E; rewrite E in Hi|done|done].
Qed.

Lemma Forall_le_first prev y l t : rows_ok prev ((y, l) :: t) -> Forall (fun r => y <= r.1) ((y, l) :: t).
Proof.
  intros H. inversion H; subst. constructor; [simpl; lia|].
  eapply Forall_impl; [eassumption|]. simpl. lia.
Qed.

Lemma pt_in_height rs y l t yl : rs = (y, l) :: t -> rows_ok [] rs ->
  Forall (fun r => r.1 <= yl) rs -> forall px py, pt_in rs px py = true -> y <= py < yl.
Proof.
  intros E Hok Hle px py Hi. unfold pt_in in Hi. split.
  - destruct (Z.leb_spec y py); [done|]. rewrite row_at_below in Hi; [done|].
    subst rs. eapply Forall_impl; [by eapply Forall_le_first|]. simpl. lia.
  - destruct (Z.ltb_spec py yl); [done|]. rewrite row_at_past in Hi; [done| |done].
    eapply Forall_impl; [exact Hle|]. simpl. lia.
Qed.

Lemma coord_lt_INT_MAX a : coord a -> a < INT_MAX.
Proof. unfold coord, INT_MAX. lia. Qed.
Lemma INT_MIN_lt_coord a : coord a -> INT_MIN < a.
Proof. unfold coord, INT_MIN. lia. Qed.

Lemma row_ok_head_coord l a : row_ok l -> head l = Some a -> coord a.
Proof. intros (_ & H & _). destruct l; [done|]. by inversion H; intros [= <-]. Qed.
Lemma row_ok_last_coord l a : row_ok l -> last l = Some a -> coord a.
Proof.
  intros (_ & H & _) E. apply last_Some_elem_of in E. rewrite Forall_forall in H. by apply H.
Qed.

Lemma pt_in_head rs y l a : rows_ok [] rs -> (y, l) ∈ rs -> head l = Some a -> pt_in rs a y = true.
Proof.
  intros Hok Hin Ha. unfold pt_in. rewrite (row_at_row _ _ _ _ Hok Hin).
  destruct (rows_ok_row _ _ _ _ Hok Hin) as [Hl _].
  destruct l; [done|]. injection Ha as ->. apply ins_head, Hl.
Qed.

Lemma pt_in_last rs y l b : rows_ok [] rs -> (y, l) ∈ rs -> last l = Some b -> pt_in rs (b - 1) y = true.
Proof.
  intros Hok Hin Hb. unfold pt_in. rewrite (row_at_row _ _ _ _ Hok Hin).
  apply ins_last; [|done]. by destruct (rows_ok_row _ _ _ _ Hok Hin).
Qed.

(** The four edges found by [bounds] make a bounding box. *)
Lemma box_rows rs y l t yl mn mx y1 l1 y2 l2 : rs = (y, l) :: t -> rows_ok [] rs ->
  last rs = Some (yl, []) -> row_at [] rs (yl - 1) <> [] -> Forall (fun r => r.1 <= yl) rs ->
  (forall y l a b, (y, l) ∈ rs -> head l = Some a -> last l = Some b -> mn <= a /\ b <= mx) ->
  (y1, l1) ∈ rs -> head l1 = Some mn -> (y2, l2) ∈ rs -> last l2 = Some mx ->
  box (pt_in rs) (IntRect.xywh mn y (mx - mn) (yl - y)).
Proof.
  intros Ers Hok Hlast Hbot Hle Hall Hin1 Hh1 Hin2 Hh2.
  assert (Hin0 : (y, l) ∈ rs) by (subst rs; left).
  assert (Hlne : l <> []) by (rewrite Ers in Hok; by inversion Hok).
  destruct (rows_ok_row _ _ _ _ Hok Hin0) as [Hl Hy].
  destruct (row_nonempty l Hl Hlne) as (a & b & Ha & _).
  assert (Ex : mn + (mx - mn) = mx) by lia. assert (Ey : y + (yl - y) = yl) by lia.
  split; simpl; unfold IntRect.x, IntRect.y, IntRect.width, IntRect.height; simpl; rewrite ?Ex, ?Ey.
  - destruct (rows_ok_row _ _ _ _ Hok Hin1), (rows_ok_row _ _ _ _ Hok Hin2).
    destruct (rows_ok_row _ yl [] _ Hok) as [_ Hcl]; [by apply last_Some_elem_of|].
    split_and!; eauto using row_ok_head_coord, row_ok_last_coord.
  - intros px py Hp. split; [|by eapply pt_in_height].
    destruct (pt_in_row _ _ _ Hok Hp) as (y' & l' & Hin' & _ & Hne' & Hl' & Hi).
    destruct (row_nonempty _ Hl' Hne') as (a' & b' & Ha' & Hb' & _).
    destruct (Hall _ _ _ _ Hin' Ha' Hb').
    pose proof (ins_head_le _ _ _ Hl' Ha' Hi). pose proof (ins_lt_last _ _ _ Hl' Hb' Hi). lia.
  - exists y1. by eapply pt_in_head.
  - exists y2. by eapply pt_in_last.
  - exists a. by eapply pt_in_head.
  - destruct (row_at_in rs (yl - 1) []) as [E|[y' Hin']]; [done|].
    destruct (rows_ok_row _ _ _ _ Hok Hin') as [Hl' _].
    destruct (row_nonempty _ Hl' Hbot) as (a' & b' & Ha' & _).
    exists a'. unfold pt_in. destruct (row_at [] rs (yl - 1)) as [|c l']; [done|].
    injection Ha' as ->. apply ins_head, Hl'.
Qed.

Lemma last_spans_of rs y l n : last rs = Some (y, l) -> exists m, last (spans_of n rs) = Some (mkSpan y m).
Proof.
  intros [pre ->]%last_Some. rewrite spans_of_app. simpl. eexists. by rewrite last_snoc.
Qed.

(** [bounds] of the shape of canonical rows is the bounding box of its points. *)
Lemma Shape_bounds_rows rs : rows_ok [] rs ->
  exists r, Shape_bounds (flatten rs) = Some r /\ bbox (pt_in rs) r.
Proof.
  intros Hok. destruct rs as [|[y l] t] eqn:Ers.
  { exists IntRect.empty. split; [done|]. left. done. }
  rewrite <- Ers in *. assert (Hrs : rs <> []) by (by subst).
  destruct (rows_bottom rs [] Hok) as (yl & Hlast & Hbot & Hle); [by right|].
  assert (Hin0 : (y, l) ∈ rs) by (subst rs; left).
  assert (Hlne : l <> []) by (rewrite Ers in Hok; by inversion Hok).
  destruct (rows_ok_row _ _ _ _ Hok Hin0) as [Hl Hy].
  destruct (row_nonempty l Hl Hlne) as (a & b & Ha & Hb & Hab).
  destruct (bounds_loop_rows rs (last_row_canonical _ Hok)) with (suf := rs) (pre := @nil (Z * list Z))
    (mn := INT_MAX) (mx := INT_MIN) as (mn & mx & Hloop & Hmn & Hmx & Hall & Hmn' & Hmx').
  { intros e l' t' E'. rewrite Ers in E'. by injection E' as -> -> ->. }
  { done. }
  destruct (Hall y l a b Hin0 Ha Hb) as [Ha' Hb'].
  pose proof (coord_lt_INT_MAX _ (row_ok_head_coord _ _ Hl Ha)).
  pose proof (INT_MIN_lt_coord _ (row_ok_last_coord _ _ Hl Hb)).
  destruct Hmn' as [->|(y1 & l1 & Hin1 & Hh1)]; [lia|].
  destruct Hmx' as [->|(y2 & l2 & Hin2 & Hh2)]; [lia|].
  pose proof (box_rows rs y l t yl mn mx y1 l1 y2 l2 Ers Hok Hlast Hbot Hle Hall Hin1 Hh1 Hin2 Hh2) as Hbox.
  exists (IntRect.xywh mn y (mx - mn) (yl - y)). split; [|by right].
  destruct (box_fits _ _ Hbox) as (C1 & C2 & C3 & C4).
  unfold IntRect.x, IntRect.y, IntRect.width, IntRect.height in C1, C2, C3, C4. simpl in C1, C2, C3, C4.
  replace (mn + (mx - mn)) with mx in C2 by lia. replace (y + (yl - y)) with yl in C4 by lia.
  destruct (last_spans_of _ _ _ 0 Hlast) as [m Hm].
  unfold Shape_bounds. cbn [flatten m_spans]. rewrite Hm. change (length (segs_of [])) with 0%nat in Hloop.
  rewrite Hloop, Ers. cbn [spans_of mbind option_bind]. simpl span_y. by rewrite !coord_sub_i32 by done.
Qed.

(** The bounding box is determined by the point set. *)
Lemma bbox_unique P Q r s : (forall px py, P px py = Q px py) -> bbox P r -> bbox Q s -> r = s.
Proof.
  intros E [[HP ->]|Hr] [[HQ ->]|Hs]; [done|..].
  - destruct (box_left _ _ Hs) as [py H]. by rewrite <- E, HP in H.
  - destruct (box_left _ _ Hr) as [py H]. by rewrite E, HQ in H.
  - destruct r as [[rx ry] [rw rh]], s as [[sx sy] [sw sh]].
    destruct Hr as [_ Hc1 [? L1] [? R1] [? T1] [? B1]], Hs as [_ Hc2 [? L2] [? R2] [? T2] [? B2]].
    unfold IntRect.x, IntRect.y, IntRect.width, IntRect.height in *. simpl in *.
    pose proof (Hc1 _ _ L1). pose proof (Hc1 _ _ R1). pose proof (Hc1 _ _ T1). pose proof (Hc1 _ _ B1).
    rewrite E in L1, R1, T1, B1. rewrite <- E in L2, R2, T2, B2.
    apply Hc2 in L1, R1, T1, B1. apply Hc1 in L2, R2, T2, B2.
    repeat f_equal; lia.
Qed.

(** * Comparing shapes *)

Import Region.

(** ** Comparing two rows *)

Definition even_row (l : list Z) : Prop := StronglySorted Z.lt l /\ Nat.odd (length l) = false.

Lemma row_ok_even l : row_ok l -> even_row l.
Proof. by intros (? & _ & ?). Qed.

Lemma even_row_ind (P : list Z -> Prop) : P [] ->
  (forall u v l, u < v -> even_row l -> Forall (fun e => v < e) l -> even_row (u :: v :: l) -> P l -> P (u :: v :: l)) ->
  forall l, even_row l -> P l.
Proof.
  intros H0 HS l. induction l as [l IH] using (induction_ltof1 _ (@length Z)). unfold ltof in IH.
  destruct l as [|u [|v l]]; [done|by intros [_ ?]|]. intros [Hs Ho].
  pose proof Hs as [Hs1 Hu]%StronglySorted_inv. pose proof Hs1 as [Hs2 Hv]%StronglySorted_inv.
  inversion Hu; subst. apply HS; try done. apply IH; [simpl; lia|done].
Qed.

Lemma ins_pair u v l x : u < v -> Forall (fun e => v < e) l ->
  ins (u :: v :: l) x = ((u <=? x) && (x <? v)) || ins l x.
Proof.
  intros Huv Hl. simpl. destruct (Z.leb_spec u x), (Z.leb_spec v x), (Z.ltb_spec x v); try lia; simpl.
  - by destruct (ins l x).
  - rewrite ins_below; [done|]. eapply Forall_impl; [exact Hl|]. simpl. lia.
  - done.
Qed.

Lemma ins_gt v l x : Forall (fun e => v < e) l -> ins l x = true -> v < x.
Proof.
  intros Hl Hi. destruct (Z.ltb_spec v x); [done|]. rewrite ins_below in Hi; [done|].
  eapply Forall_impl; [exact Hl|]. simpl. lia.
Qed.

(** What a comparison operation looks for: a pair of memberships that makes
    it stop with the value [v]. *)
Record cmp_ok (op : CompareOperation) (v : bool) (hit : bool -> bool -> bool) : Prop := {
  cmp_aOut : aOutsideB op = None;
  cmp_bOut : bOutsideA op = if hit false true then Some v else None;
  cmp_default : defaultResult op = negb v;
  cmp_hit_b : forall f, hit f false = false;
  cmp_rows : forall a b, even_row a -> even_row b ->
    (compareOverlappingSpans op a b = Some (Stop v) /\ exists x, hit (ins a x) (ins b x) = true) \/
    (compareOverlappingSpans op a b = Some (Go tt) /\ forall x, hit (ins a x) (ins b x) = false)
}.

Lemma test_None {A} c (k : option (flow A)) : test c None k = k.
Proof. by destruct c. Qed.

Lemma compareSegments_cons op aX aM a bX bM b :
  compareSegments op (aX :: aM :: a) (bX :: bM :: b) =
    test ((aX <? bM) && (bX <? aM)) (aOverlapsB op)
      (test (aX <? bX) (aOutsideB op)
         (test (bX <? aX) (bOutsideA op)
            (if aM <? bM then compareSegments op a (bX :: bM :: b)
             else if bM <? aM then compareSegments op (aX :: aM :: a) b
             else compareSegments op a b))).
Proof. reflexivity. Qed.

Lemma compareSegments_nil_l op b : compareSegments op [] b = Some (Go ([], b)).
Proof. by destruct b. Qed.
Lemma compareSegments_nil_r op a : compareSegments op a [] = Some (Go (a, [])).
Proof. by destruct a as [|? [|]]. Qed.

Lemma overlapping_cons op aX aM a bX bM b :
  compareOverlappingSpans op (aX :: aM :: a) (bX :: bM :: b) =
    test ((aX <? bM) && (bX <? aM)) (aOverlapsB op)
      (test (aX <? bX) (aOutsideB op)
         (test (bX <? aX) (bOutsideA op)
            (if aM <? bM then compareOverlappingSpans op a (bX :: bM :: b)
             else if bM <? aM then compareOverlappingSpans op (aX :: aM :: a) b
             else compareOverlappingSpans op a b))).
Proof.
  unfold compareOverlappingSpans. rewrite compareSegments_cons.
  destruct (_ && _), (aOverlapsB op), (aX <? bX), (aOutsideB op), (bX <? aX), (bOutsideA op);
    simpl; repeat case_match; done.
Qed.

Definition hit_contains (fa fb : bool) : bool := fb && negb fa.
Definition hit_intersects (fa fb : bool) : bool := fa && fb.

Ltac cases_ins :=
  repeat match goal with
  | |- context [?a <=? ?b] => destruct (Z.leb_spec a b)
  | |- context [?a <? ?b] => destruct (Z.ltb_spec a b)
  | H : context [?a <=? ?b] |- _ => destruct (Z.leb_spec a b)
  | H : context [?a <? ?b] |- _ => destruct (Z.ltb_spec a b)
  end.

Lemma cmp_ok_contains : cmp_ok CompareContainsOperation false hit_contains.
Proof.
  split; try done. intros a b Ha. revert b.
  induction Ha as [|aX aM a Hlt Hev Hf Hev' IHa] using even_row_ind; intros b Hb.
  { unfold compareOverlappingSpans. rewrite compareSegments_nil_l. destruct b as [|bX b]; [by right|].
    left. split; [done|]. exists bX. rewrite ins_head by apply Hb. done. }
  induction Hb as [|bX bM b Hltb Hevb Hfb Hevb' IHb] using even_row_ind.
  { right. unfold compareOverlappingSpans. by rewrite compareSegments_nil_r. }
  rewrite overlapping_cons. cbn [aOverlapsB aOutsideB bOutsideA CompareContainsOperation].
  rewrite !test_None. unfold test.
  destruct (Z.ltb_spec bX aX) as [L|L].
  { left. split; [done|]. exists bX. rewrite (ins_head bX) by apply Hevb'.
    rewrite ins_below; [done|]. constructor; [lia|]. constructor; [lia|].
    eapply Forall_impl; [exact Hf|]. simpl. lia. }
  unfold hit_contains in *.
  destruct (Z.ltb_spec aM bM); [|destruct (Z.ltb_spec bM aM)].
  - destruct (IHa (bX :: bM :: b) Hevb') as [[-> [x Hx]]|[-> Hx]]; [left|right]; (split; [done|]).
    + destruct (decide (aX <= x < aM)).
      * exists aM. rewrite !ins_pair in * by done. rewrite (ins_below a aM) by done.
        apply andb_true_iff in Hx as [Hx _]. apply orb_true_iff in Hx as [Hx|Hx].
        -- revert Hx. cases_ins; simpl; try done; lia.
        -- apply (ins_gt _ _ _ Hfb) in Hx. lia.
      * exists x. rewrite (ins_pair aX) by done. revert Hx. cases_ins; simpl; try done; lia.
    + intros x. specialize (Hx x). rewrite (ins_pair aX) by done.
      destruct (ins (bX :: bM :: b) x), (ins a x); simpl in *; try done. by rewrite orb_true_r.
  - destruct IHb as [[-> [x Hx]]|[-> Hx]]; [left|right]; (split; [done|]).
    + exists x. rewrite (ins_pair bX) by done. destruct (ins b x); [|done]. by rewrite orb_true_r.
    + intros x. specialize (Hx x). rewrite (ins_pair bX) by done. rewrite (ins_pair aX) in * by done.
      destruct (ins b x); [by rewrite orb_true_r|]. revert Hx. cases_ins; simpl; try done; lia.
  - destruct (IHa b Hevb) as [[-> [x Hx]]|[-> Hx]]; [left|right]; (split; [done|]).
    + exists x. rewrite (ins_pair bX), (ins_pair aX) by done.
      assert (bM < x) by (eapply ins_gt; [exact Hfb|]; by destruct (ins b x)).
      revert Hx. cases_ins; simpl; try done; try lia. all: by destruct (ins b x).
    + intros x. specialize (Hx x). rewrite (ins_pair bX), (ins_pair aX) by done.
      destruct (ins b x), (ins a x); simpl in *; rewrite ?orb_true_r; try done; cases_ins; simpl; try done; lia.
Qed.

Lemma cmp_ok_intersects : cmp_ok CompareIntersectsOperation true hit_intersects.
Proof.
  split; try done; [by intros []|]. intros a b Ha. revert b.
  induction Ha as [|aX aM a Hlt Hev Hf Hev' IHa] using even_row_ind; intros b Hb.
  { right. unfold compareOverlappingSpans. rewrite compareSegments_nil_l. by destruct b. }
  induction Hb as [|bX bM b Hltb Hevb Hfb Hevb' IHb] using even_row_ind.
  { right. unfold compareOverlappingSpans. rewrite compareSegments_nil_r.
    split; [done|]. intros x. apply andb_false_r. }
  rewrite overlapping_cons. cbn [aOverlapsB aOutsideB bOutsideA CompareIntersectsOperation].
  unfold hit_intersects in *.
  destruct ((aX <? bM) && (bX <? aM)) eqn:Eo.
  { left. split; [done|]. exists (Z.max aX bX). rewrite (ins_pair bX), (ins_pair aX) by done.
    zbool. cases_ins; simpl; try done; lia. }
  assert (Hno : bM <= aX \/ aM <= bX) by (apply andb_false_iff in Eo as [|]; zbool; lia).
  rewrite !test_None. unfold test.
  assert (Ha' : forall x, ins a x = true -> aM < x) by (intros x; by apply ins_gt).
  assert (Hb' : forall x, ins b x = true -> bM < x) by (intros x; by apply ins_gt).
  destruct (Z.ltb_spec aM bM); [|destruct (Z.ltb_spec bM aM)].
  - destruct (IHa (bX :: bM :: b) Hevb') as [[-> [x Hx]]|[-> Hx]]; [left; split; [done|]; exists x|right; split; [done|]; intros x; specialize (Hx x)];
      rewrite (ins_pair aX), (ins_pair bX) in * by done; specialize (Ha' x); specialize (Hb' x);
      destruct (ins a x), (ins b x); simpl in *; rewrite ?orb_true_r in *; try done;
      try specialize (Ha' eq_refl); try specialize (Hb' eq_refl); revert Hx; cases_ins; simpl; try done; lia.
  - destruct IHb as [[-> [x Hx]]|[-> Hx]]; [left; split; [done|]; exists x|right; split; [done|]; intros x; specialize (Hx x)];
      rewrite (ins_pair aX), ?(ins_pair bX) in * by done; specialize (Ha' x); specialize (Hb' x);
      destruct (ins a x), (ins b x); simpl in *; rewrite ?orb_true_r in *; try done;
      try specialize (Ha' eq_refl); try specialize (Hb' eq_refl); revert Hx; cases_ins; simpl; try done; lia.
  - lia.
Qed.

(** ** Comparing two shapes *)

Lemma compareShapes_loop_cons op aS bS a a' ra b b' rb aHad bHad :
  compareShapes_loop op aS bS (a :: a' :: ra) (b :: b' :: rb) aHad bHad =
    (aSegs ← segments aS (a :: a' :: ra);
     bSegs ← segments bS (b :: b' :: rb);
     r ← compareSpans op (span_y a) (span_y a') (span_y b) (span_y b') aSegs bSegs aHad bHad;
     match r with
     | Stop r => Some r
     | Go _ =>
         let aHad := bool_decide (aSegs ≠ []) in
         let bHad := bool_decide (bSegs ≠ []) in
         if span_y a' <? span_y b' then compareShapes_loop op aS bS (a' :: ra) (b :: b' :: rb) aHad bHad
         else if span_y b' <? span_y a' then compareShapes_loop op aS bS (a :: a' :: ra) (b' :: rb) aHad bHad
         else compareShapes_loop op aS bS (a' :: ra) (b' :: rb) aHad bHad
     end).
Proof. reflexivity. Qed.

Lemma row_at_ge prev y l t py : y <= py -> row_at prev ((y, l) :: t) py = row_at l t py.
Proof. intros H. simpl. by rewrite (proj2 (Z.leb_le _ _)). Qed.

Lemma row_at_between prev y l y' l' t py : y <= py < y' -> row_at prev ((y, l) :: (y', l') :: t) py = l.
Proof. intros H. rewrite row_at_ge by lia. simpl. by rewrite (proj2 (Z.leb_gt _ _)) by lia. Qed.

Section CompareRows.
Context (op : CompareOperation) (v : bool) (hit : bool -> bool -> bool) (Hop : cmp_ok op v hit).

(** The answer of a comparison that looks at the ordinates from [c] down. *)
Definition answers (res : option bool) (c : Z) (rowA rowB : Z -> list Z) : Prop :=
  (res = Some v /\ exists px py, c <= py /\ hit (ins (rowA py) px) (ins (rowB py) px) = true) \/
  (res = Some (negb v) /\ forall px py, c <= py -> hit (ins (rowA py) px) (ins (rowB py) px) = false).

Lemma answers_step res c c' rowA rowB rowA' rowB' : c <= c' ->
  (forall px py, c <= py < c' -> hit (ins (rowA py) px) (ins (rowB py) px) = false) ->
  (forall py, c' <= py -> rowA py = rowA' py /\ rowB py = rowB' py) ->
  answers res c' rowA' rowB' -> answers res c rowA rowB.
Proof.
  intros Hc Hno Heq [[-> (px & py & Hp & Hh)]|[-> Hn]].
  - left. split; [done|]. exists px, py. destruct (Heq py Hp) as [-> ->]. split; [lia|done].
  - right. split; [done|]. intros px py Hp. destruct (decide (py < c')); [by apply Hno; lia|].
    destruct (Heq py) as [-> ->]; [lia|]. apply Hn. lia.
Qed.

(** What the loop relies on when it looks for a part of B outside A: the span
    of A above the current one was compared with the current span of B. *)
Definition above_tested (aY bY : Z) (lb : list Z) (tB : rows) (aHad : bool) : Prop :=
  hit false true = true -> bY < aY ->
  (aHad = false -> lb = []) /\ (match tB with [] => True | r :: _ => aY < r.1 end).

Lemma compareSpans_eq aY aM bY bM la lb aHad bHad :
  (hit false true = true -> bY < aY -> aHad = false -> lb = []) ->
  compareSpans op aY aM bY bM la lb aHad bHad =
    if (aY <? bM) && (bY <? aM) then compareOverlappingSpans op la lb else Some (Go tt).
Proof.
  intros Hinv. unfold compareSpans. rewrite (cmp_aOut _ _ _ Hop), (cmp_bOut _ _ _ Hop), test_None.
  destruct (hit false true) eqn:Eh; [|by rewrite test_None].
  destruct ((bY <? aY) && negb aHad && bool_decide (lb ≠ [])) eqn:E; [|done].
  zbool. apply bool_decide_eq_true_1 in H0. destruct H0. by apply Hinv.
Qed.

(** Leftover spans of B below the end of A are outside A. *)
Lemma leftover_hit bY lb r tB pb c : rows_ok pb ((bY, lb) :: r :: tB) -> c < r.1 -> bY <= c ->
  exists px py, c <= py /\ ins (row_at pb ((bY, lb) :: r :: tB) py) px = true.
Proof.
  intros Hok Hc Hb. destruct (rows_bottom _ _ Hok) as (yl & Hlast & Hne & Hle); [by right|].
  assert (r.1 <= yl) by (rewrite Forall_forall in Hle; apply Hle; set_solver).
  destruct (row_at_in ((bY, lb) :: r :: tB) (yl - 1) pb) as [E|[y Hin]].
  - assert (bY <= yl - 1) by lia. rewrite row_at_ge in Hne, E by done.
    destruct (row_at_in (r :: tB) (yl - 1) lb) as [E'|[y' Hin']].
    + destruct (rows_ok_row _ bY lb _ Hok) as [Hl _]; [left|]. rewrite E' in Hne.
      destruct lb as [|u lb]; [done|]. exists u, (yl - 1). split; [lia|].
      rewrite row_at_ge, E' by done. apply ins_head, Hl.
    + destruct (rows_ok_row _ y' (row_at lb (r :: tB) (yl - 1)) _ Hok) as [Hl _]; [by right|].
      destruct (row_at lb (r :: tB) (yl - 1)) as [|u l'] eqn:El; [done|].
      exists u, (yl - 1). split; [lia|]. rewrite row_at_ge, El by done. apply ins_head, Hl.
  - destruct (rows_ok_row _ _ _ _ Hok Hin) as [Hl _].
    destruct (row_at pb ((bY, lb) :: r :: tB) (yl - 1)) as [|u l'] eqn:El; [done|].
    exists u, (yl - 1). split; [lia|]. rewrite El. apply ins_head, Hl.
Qed.

Lemma hit_false_l f : hit false f = f && hit false true.
Proof. destruct f; [done|]. by rewrite (cmp_hit_b _ _ _ Hop). Qed.

Lemma compareShapes_end_a aS bS a bSpan aHad bHad :
  compareShapes_loop op aS bS [a] bSpan aHad bHad =
    Some (match bSpan with _ :: _ :: _ => if hit false true then v else negb v | _ => negb v end).
Proof.
  destruct bSpan as [|b [|b' rb]]; cbn; rewrite ?(cmp_aOut _ _ _ Hop), ?(cmp_bOut _ _ _ Hop), ?(cmp_default _ _ _ Hop);
    try done. by destruct (hit false true).
Qed.

Lemma compareShapes_end_b aS bS a a' ra b aHad bHad :
  compareShapes_loop op aS bS (a :: a' :: ra) [b] aHad bHad = Some (negb v).
Proof. cbn. by rewrite (cmp_aOut _ _ _ Hop), (cmp_default _ _ _ Hop). Qed.

(** A is over: only leftover spans of B can matter. *)
Lemma answers_end_a A0 B0 aY a bY lb tB itB pa pb aHad bHad :
  at_rows B0 itB ((bY, lb) :: tB) -> rows_ok pb ((bY, lb) :: tB) -> above_tested aY bY lb tB aHad ->
  answers (compareShapes_loop op (flatten A0) (flatten B0) [a] itB aHad bHad) (Z.max aY bY)
    (row_at pa [(aY, [])]) (row_at pb ((bY, lb) :: tB)).
Proof.
  intros HitB HokB Hinv. destruct (at_rows_cons _ _ _ _ _ HitB) as (nb & iB & -> & HitB').
  rewrite compareShapes_end_a. inversion HokB as [|? ? ? ? Hlb _ _ HfB HtB]; subst.
  assert (Hrow : forall py, Z.max aY bY <= py -> row_at pa [(aY, [])] py = [])
    by (intros; rewrite row_at_ge by lia; done).
  destruct (hit false true) eqn:Eh.
  - destruct tB as [|[bM lb2] tB].
    + apply at_rows_nil in HitB' as ->. inversion HtB; subst. right. split; [done|]. intros px py Hp.
      rewrite row_at_ge by lia. rewrite (row_at_ge pb) by lia. apply (cmp_hit_b _ _ _ Hop).
    + destruct (at_rows_cons _ _ _ _ _ HitB') as (nb2 & iB2 & -> & _). left. split; [done|].
      inversion HfB as [|? ? Hlt _]; subst. simpl in Hlt.
      destruct (leftover_hit bY lb (bM, lb2) tB pb (Z.max aY bY) HokB) as (px & py & Hc & Hi); [|lia|].
      { unfold above_tested in Hinv. simpl in *. destruct (decide (bY < aY)); [destruct Hinv; auto|]; lia. }
      exists px, py. rewrite Hrow, Hi by done. by split.
  - right. split; [by destruct iB as [|? []]|]. intros px py Hp. rewrite Hrow by done. simpl.
    rewrite hit_false_l, Eh. apply andb_false_r.
Qed.

(** Two spans that do not overlap: the upper one is passed. *)
Lemma not_overlapping aY aM bY bM lb tB aHad : aY < aM -> bY < bM ->
  above_tested aY bY lb ((bM, tB) :: nil) aHad ->
  (aY <? bM) && (bY <? aM) = false -> aM <= bY \/ (hit false true = false /\ bM <= aY).
Proof.
  intros Ha Hb Hinv Ho. apply andb_false_iff in Ho as [Ho|Ho]; zbool; [|by left].
  destruct (hit false true) eqn:Eh; [|by right]. unfold above_tested in Hinv. rewrite Eh in Hinv.
  simpl in Hinv. destruct Hinv; try done; lia.
Qed.

Lemma compareShapes_rows A0 B0 : last_row A0 = [] -> last_row B0 = [] ->
  forall n aY la tA bY lb tB itA itB pa pb aHad bHad, (length tA + length tB < n)%nat ->
  at_rows A0 itA ((aY, la) :: tA) -> at_rows B0 itB ((bY, lb) :: tB) ->
  rows_ok pa ((aY, la) :: tA) -> rows_ok pb ((bY, lb) :: tB) ->
  above_tested aY bY lb tB aHad ->
  answers (compareShapes_loop op (flatten A0) (flatten B0) itA itB aHad bHad) (Z.max aY bY)
    (row_at pa ((aY, la) :: tA)) (row_at pb ((bY, lb) :: tB)).
Proof.
  intros HA HB n. induction n as [|n IH]; [lia|].
  intros aY la tA bY lb tB itA itB pa pb aHad bHad Hn HitA HitB HokA HokB Hinv.
  pose proof (segments_flatten _ _ _ _ _ HA HitA) as SA. pose proof (segments_flatten _ _ _ _ _ HB HitB) as SB.
  destruct (at_rows_cons _ _ _ _ _ HitA) as (na & iA & -> & HitA').
  pose proof HokA as HokA'. inversion HokA' as [|? ? ? ? Hla _ _ HfA HtA]; subst.
  destruct tA as [|[aM la2] tA].
  { apply at_rows_nil in HitA' as ->. inversion HtA; subst. by apply answers_end_a. }
  pose proof HokB as HokB'. inversion HokB' as [|? ? ? ? Hlb _ _ HfB HtB]; subst.
  destruct (at_rows_cons _ _ _ _ _ HitB) as (nb & iB & -> & HitB').
  destruct (at_rows_cons _ _ _ _ _ HitA') as (na2 & iA2 & -> & HitA2).
  inversion HfA as [|? ? HaM _]; subst. simpl in HaM.
  destruct tB as [|[bM lb2] tB].
  { apply at_rows_nil in HitB' as ->. inversion HtB; subst. rewrite compareShapes_end_b. right.
    split; [done|]. intros px py Hp. rewrite (row_at_ge pb) by lia. apply (cmp_hit_b _ _ _ Hop). }
  destruct (at_rows_cons _ _ _ _ _ HitB') as (nb2 & iB2 & -> & HitB2).
  inversion HfB as [|? ? HbM _]; subst. simpl in HbM. simpl in Hn.
  rewrite compareShapes_loop_cons, SA, SB. cbn [mbind option_bind]. simpl span_y.
  rewrite compareSpans_eq by (intros; by apply Hinv).
  destruct ((aY <? bM) && (bY <? aM)) eqn:Eo.
  - zbool. destruct (cmp_rows _ _ _ Hop la lb (row_ok_even _ Hla) (row_ok_even _ Hlb)) as [[-> [px Hx]]|[-> Hx]].
    { left. split; [done|]. exists px, (Z.max aY bY). split; [lia|].
      by rewrite !row_at_between by lia. }
    cbn [mbind option_bind]. cbv zeta.
    assert (Hno : forall px py, Z.max aY bY <= py < Z.min aM bM ->
      hit (ins (row_at pa ((aY, la) :: (aM, la2) :: tA) py) px) (ins (row_at pb ((bY, lb) :: (bM, lb2) :: tB) py) px) = false).
    { intros px py Hp. by rewrite !row_at_between by lia. }
    destruct (Z.ltb_spec aM bM); [|destruct (Z.ltb_spec bM aM)].
    + eapply (answers_step _ _ (Z.max aM bY)); [lia|intros; apply Hno; lia| |].
      2: { apply (IH aM la2 tA bY lb ((bM, lb2) :: tB) _ _ la pb); try done; [simpl; lia|].
           intros Hs _. split; [|simpl; lia]. intros Hn'. destruct lb as [|u lb]; [done|]. specialize (Hx u).
           rewrite ins_head in Hx by apply Hlb. apply bool_decide_eq_false_1, dec_stable in Hn'. subst la.
           simpl in Hx. congruence. }
      intros py Hp. rewrite (row_at_ge pa) by lia. done.
    + eapply (answers_step _ _ (Z.max aY bM)); [lia|intros; apply Hno; lia| |].
      2: { apply (IH aY la ((aM, la2) :: tA) bM lb2 tB _ _ pa lb); try done; [simpl; lia|]. intros _ ?. lia. }
      intros py Hp. rewrite (row_at_ge pb) by lia. done.
    + eapply (answers_step _ _ (Z.max aM bM)); [lia|intros; apply Hno; lia| |].
      2: { apply (IH aM la2 tA bM lb2 tB _ _ la lb); try done; [lia|]. intros _ ?. lia. }
      intros py Hp. rewrite (row_at_ge pa), (row_at_ge pb) by lia. done.
  - cbn [mbind option_bind]. cbv zeta.
    destruct (not_overlapping aY aM bY bM lb lb2 aHad HaM HbM) as [Ho|[Hs Ho]]; [done|done|..].
    + rewrite (proj2 (Z.ltb_lt aM bM)) by lia.
      eapply (answers_step _ _ (Z.max aM bY)); [lia|lia| |].
      2: { apply (IH aM la2 tA bY lb ((bM, lb2) :: tB) _ _ la pb); try done; [simpl; lia|]. intros _ ?. lia. }
      intros py Hp. rewrite (row_at_ge pa) by lia. done.
    + rewrite (proj2 (Z.ltb_ge aM bM)), (proj2 (Z.ltb_lt bM aM)) by lia.
      eapply (answers_step _ _ (Z.max aY bM)); [lia|lia| |].
      2: { apply (IH aY la ((aM, la2) :: tA) bM lb2 tB _ _ pa lb); try done; [simpl; lia|].
           intros Hs'. congruence. }
      intros py Hp. rewrite (row_at_ge pb) by lia. done.
Qed.

End CompareRows.
