(* ===== verification/RegionCorrect.v ===== *)
(** * Region: translation and concrete instances *)

From Stdlib Require Import Sorted.
From S2P Require Import Prelude Geometry Region RegionAlgebra RegionBounds.

(** * The operations as set operations *)

Import Region.

Definition region_rows (r : Region) (rs : rows) : Prop :=
  m_shape r = flatten rs /\ rows_ok [] rs /\ bbox (pt_in rs) (m_bounds r).

Definition region_ok (r : Region) : Prop := exists rs, region_rows r rs.

(** ** Canonical rows are determined by their points *)

Lemma row_at_inj rs1 : forall rs2 prev, rows_ok prev rs1 -> rows_ok prev rs2 ->
  (forall py, row_at prev rs1 py = row_at prev rs2 py) -> rs1 = rs2.
Proof.
  assert (Hlow : forall y l t prev rs2, rows_ok prev ((y, l) :: t) -> Forall (fun r => y < r.1) rs2 ->
    (forall py, row_at prev ((y, l) :: t) py = row_at prev rs2 py) -> False).
  { intros y l t prev rs2 Hok Hf E. specialize (E y). rewrite (row_at_below prev rs2) in E by done.
    rewrite (row_at_row _ y l prev Hok) in E by left. by inversion Hok. }
  induction rs1 as [|[y1 l1] t1 IH]; intros [|[y2 l2] t2] prev H1 H2 E; [done|..].
  - exfalso. eapply Hlow; [exact H2|constructor|]. done.
  - exfalso. eapply Hlow; [exact H1|constructor|]. done.
  - destruct (rows_ok_inv _ _ _ _ H1) as (_ & F1 & T1). destruct (rows_ok_inv _ _ _ _ H2) as (_ & F2 & T2).
    destruct (Z.lt_trichotomy y1 y2) as [L|[->|L]].
    + exfalso. eapply Hlow; [exact H1|by eapply rows_above|done].
    + assert (l1 = l2) as ->.
      { specialize (E y2). rewrite (row_at_row _ y2 l1 prev H1) in E by left.
        by rewrite (row_at_row _ y2 l2 prev H2) in E by left. }
      f_equal. eapply IH; [exact T1|exact T2|]. intros py. destruct (decide (y2 <= py)).
      * specialize (E py). by rewrite !row_at_ge in E by done.
      * rewrite !row_at_below; [done|..]; (eapply Forall_impl; [eassumption|]); simpl; lia.
    + exfalso. eapply Hlow; [exact H2|by eapply rows_above|done].
Qed.

Lemma pt_in_inj rs1 rs2 : rows_ok [] rs1 -> rows_ok [] rs2 ->
  (forall px py, pt_in rs1 px py = pt_in rs2 px py) -> rs1 = rs2.
Proof.
  intros H1 H2 E. eapply row_at_inj; [exact H1|exact H2|]. intros py.
  apply ins_inj; [apply row_at_ok; auto using row_ok_nil..|]. intros px. apply E.
Qed.

Lemma region_rows_inj r1 r2 rs1 rs2 : region_rows r1 rs1 -> region_rows r2 rs2 ->
  (forall px py, pt_in rs1 px py = pt_in rs2 px py) -> r1 = r2.
Proof.
  intros (S1 & O1 & B1) (S2 & O2 & B2) E. destruct r1 as [b1 s1], r2 as [b2 s2]. simpl in *.
  rewrite S1, S2, (pt_in_inj _ _ O1 O2 E), (bbox_unique _ _ _ _ E B1 B2). done.
Qed.

(** ** Membership *)

Lemma bbox_fits P r : bbox P r -> IntRect.fits r.
Proof. intros [[_ ->]|H]; [|apply H]. by repeat split. Qed.

Lemma bbox_covers P r px py : bbox P r -> P px py = true ->
  IntRect.contains_point r (mkIntPoint px py) = true.
Proof.
  intros Hb Hp. apply IntRect.contains_point_iff; [by eapply bbox_fits|].
  destruct Hb as [[Hn _]|Hb]; [by rewrite Hn in Hp|]. by apply Hb.
Qed.

Lemma contains_point_rows r rs p : region_rows r rs ->
  contains_point r p = Some (pt_in rs (m_x p) (m_y p)).
Proof.
  intros (Hs & Hok & Hb). unfold contains_point.
  destruct (IntRect.contains_point (m_bounds r) p) eqn:E; simpl.
  - rewrite Hs. unfold pt_in. apply contains_loop_rows; [by apply last_row_canonical|apply at_rows_begin|done|].
    destruct rs; constructor; [by left|constructor].
  - destruct (pt_in rs (m_x p) (m_y p)) eqn:Ep; [|done]. destruct p as [px py].
    simpl in Ep. by rewrite (bbox_covers _ _ _ _ Hb Ep) in E.
Qed.

(** ** Bounds and emptiness *)

Lemma box_size P r : box P r -> 0 < IntRect.width r /\ 0 < IntRect.height r.
Proof.
  intros H. destruct (box_left _ _ H) as [py Hp]. apply (box_covers _ _ H) in Hp. lia.
Qed.

Lemma bbox_isEmpty P r : bbox P r -> IntRect.isEmpty r = true <-> (forall px py, P px py = false).
Proof.
  intros [[Hn ->]|H]; [done|]. unfold IntRect.isEmpty, IntRect.IntSize_isEmpty.
  pose proof (box_size _ _ H) as [Hw Hh]. unfold IntRect.width, IntRect.height in *. split.
  - rewrite orb_true_iff, !Z.leb_le. lia.
  - intros Hn. destruct (box_left _ _ H) as [py Hp]. by rewrite Hn in Hp.
Qed.

Lemma bbox_nonempty P r : bbox P r -> IntRect.isEmpty r = false -> box P r.
Proof. intros [[Hn ->]|H]; done. Qed.

Lemma bbox_intersects P Q r s : bbox P r -> bbox Q s -> IntRect.intersects r s = false ->
  forall px py, P px py = true -> Q px py = false.
Proof.
  intros Hr Hs Hi px py Hp. destruct (Q px py) eqn:Hq; [|done]. exfalso.
  destruct Hr as [[Hn _]|Hr]; [by rewrite Hn in Hp|]. destruct Hs as [[Hn _]|Hs]; [by rewrite Hn in Hq|].
  pose proof (box_covers _ _ Hr _ _ Hp). pose proof (box_covers _ _ Hs _ _ Hq).
  pose proof (box_size _ _ Hr). pose proof (box_size _ _ Hs).
  unfold IntRect.intersects, IntRect.isEmpty, IntRect.IntSize_isEmpty in Hi.
  rewrite !IntRect.maxX_fits, !IntRect.maxY_fits in Hi by (apply box_fits in Hr; apply box_fits in Hs; done).
  unfold IntRect.width, IntRect.height in *.
  repeat (apply andb_false_iff in Hi as [Hi|Hi]); zbool; try lia;
    apply orb_true_iff in Hi as [Hi|Hi]; zbool; lia.
Qed.

Lemma contains_rect_iff r s : IntRect.fits r -> IntRect.fits s ->
  IntRect.contains_rect r s = true <->
  IntRect.x r <= IntRect.x s /\ IntRect.x s + IntRect.width s <= IntRect.x r + IntRect.width r /\
  IntRect.y r <= IntRect.y s /\ IntRect.y s + IntRect.height s <= IntRect.y r + IntRect.height r.
Proof.
  intros Hr Hs. unfold IntRect.contains_rect.
  rewrite !IntRect.maxX_fits, !IntRect.maxY_fits by done. rewrite !andb_true_iff, !Z.leb_le. tauto.
Qed.

Lemma unite_bbox P Q r s : bbox P r -> box Q s ->
  box (fun px py => P px py || Q px py) (IntRect.unite r s).
Proof.
  intros Hr Hs. unfold IntRect.unite. pose proof (box_size _ _ Hs) as [Sw Sh].
  assert (IntRect.isEmpty s = false) as ->.
  { unfold IntRect.isEmpty, IntRect.IntSize_isEmpty, IntRect.width, IntRect.height in *.
    apply orb_false_iff. rewrite !Z.leb_gt. lia. }
  destruct (IntRect.isEmpty r) eqn:Er.
  { pose proof (proj1 (bbox_isEmpty _ _ Hr) Er) as Hn. destruct Hs as [F C [? L] [? R] [? T] [? B]].
    split; [done|..]; setoid_rewrite Hn; simpl; eauto. }
  apply (bbox_nonempty _ _ Hr) in Er. clear Hr. pose proof (box_size _ _ Er) as [Rw Rh].
  rewrite !IntRect.maxX_fits, !IntRect.maxY_fits by (apply box_fits in Er; apply box_fits in Hs; done).
  destruct Er as [(F1 & F2 & F3 & F4) C1 [py1 L1] [py2 R1] [px1 T1] [px2 B1]].
  destruct Hs as [(G1 & G2 & G3 & G4) C2 [qy1 L2] [qy2 R2] [qx1 T2] [qx2 B2]].
  cbv zeta. rewrite !i32_id by (unfold coord, is_i32, INT_MIN, INT_MAX in *; lia).
  split; unfold IntRect.xywh, IntRect.x, IntRect.y, IntRect.width, IntRect.height in *; simpl.
  - unfold coord in *. lia.
  - intros px py [H|H]%orb_true_iff; [apply C1 in H|apply C2 in H]; lia.
  - destruct (Z.min_spec (m_x (m_location r)) (m_x (m_location s))) as [[_ ->]|[_ ->]];
      [exists py1; by rewrite L1|exists qy1; rewrite L2; apply orb_true_r].
  - destruct (Z.max_spec (m_x (m_location r) + m_width (m_size r)) (m_x (m_location s) + m_width (m_size s)))
      as [[_ ->]|[_ ->]]; rewrite Zplus_minus; [exists qy2; rewrite R2; apply orb_true_r|exists py2; by rewrite R1].
  - destruct (Z.min_spec (m_y (m_location r)) (m_y (m_location s))) as [[_ ->]|[_ ->]];
      [exists px1; by rewrite T1|exists qx1; rewrite T2; apply orb_true_r].
  - destruct (Z.max_spec (m_y (m_location r) + m_height (m_size r)) (m_y (m_location s) + m_height (m_size s)))
      as [[_ ->]|[_ ->]]; rewrite Zplus_minus; [exists qx2; rewrite B2; apply orb_true_r|exists px2; by rewrite B1].
Qed.

(** ** Rectangular regions *)

Lemma length_spans_of rs n : length (spans_of n rs) = length rs.
Proof. revert n. induction rs as [|[y l] rs IH]; intros n; simpl; [done|]. by rewrite IH. Qed.

Lemma rect_rows rs : rows_ok [] rs -> Shape_isRect (flatten rs) = true ->
  rs = [] \/ exists y y' a b, rs = [(y, [a; b]); (y', [])] /\ y < y' /\ a < b.
Proof.
  intros Hok Hr. unfold Shape_isRect in Hr. apply andb_true_iff in Hr as [H1%Nat.leb_le H2%Nat.leb_le].
  simpl in H1, H2. rewrite length_spans_of in H1.
  destruct rs as [|[y l] t]; [by left|]. right. inversion Hok as [|? ? ? ? Hl Hy Hne Hf Ht]; subst.
  destruct t as [|[y' l'] t]; [inversion Ht; subst; done|]. destruct t; [|simpl in H1; lia].
  inversion Ht as [|? ? ? ? _ _ _ _ Ht']; subst. inversion Ht'; subst. inversion Hf; subst.
  unfold segs_of in H2. simpl in H2. rewrite app_nil_r in H2. destruct Hl as (Hs & _ & Ho).
  destruct l as [|a [|b [|]]]; try done; [|simpl in H2; lia].
  exists y, y', a, b. split_and!; [done|done|]. apply StronglySorted_inv in Hs as [_ Hs]. by inversion Hs.
Qed.

Lemma pt_in_rect y y' a b px py : y < y' -> a < b ->
  pt_in [(y, [a; b]); (y', [])] px py = (a <=? px) && (px <? b) && (y <=? py) && (py <? y').
Proof.
  intros Hy Hx. unfold pt_in. simpl.
  destruct (Z.leb_spec y py), (Z.leb_spec y' py), (Z.ltb_spec py y'); simpl; try lia;
    cases_ins; simpl; try done; lia.
Qed.

Lemma isRect_points r rs px py : region_rows r rs -> isRect r = true ->
  pt_in rs px py = IntRect.contains_point (m_bounds r) (mkIntPoint px py).
Proof.
  intros (Hs & Hok & Hb) Hr. unfold isRect in Hr. rewrite Hs in Hr.
  apply Bool.eq_iff_eq_true. rewrite IntRect.contains_point_iff by (by eapply bbox_fits).
  split.
  { intros Hp. destruct Hb as [[Hn _]|Hb]; [by rewrite Hn in Hp|]. by apply Hb. }
  destruct (rect_rows _ Hok Hr) as [->|(y & y' & a & b & -> & Hy & Hab)].
  { destruct Hb as [[_ ->]|Hb]; [unfold IntRect.x, IntRect.width; simpl; lia|]. by destruct (box_left _ _ Hb). }
  destruct Hb as [[Hn _]|Hb].
  { specialize (Hn a y). rewrite pt_in_rect in Hn by done.
    rewrite Z.leb_refl, Z.leb_refl, !(proj2 (Z.ltb_lt _ _)) in Hn by lia. done. }
  destruct (box_left _ _ Hb) as [? L], (box_right _ _ Hb) as [? R], (box_top _ _ Hb) as [? T], (box_bottom _ _ Hb) as [? B].
  rewrite pt_in_rect in * by done. intros [Hx' Hy']. zbool. rewrite !andb_true_iff, !Z.leb_le, !Z.ltb_lt. lia.
Qed.

(** A rectangular region includes every region inside its bounds. *)
Lemma rect_includes r s R S : region_rows r R -> region_rows s S -> isRect r = true ->
  IntRect.contains_rect (m_bounds r) (m_bounds s) = true ->
  forall px py, pt_in S px py = true -> pt_in R px py = true.
Proof.
  intros Hr Hs Hrect Hc px py Hp. rewrite (isRect_points _ _ _ _ Hr Hrect).
  pose proof (bbox_fits _ _ (proj2 (proj2 Hr))) as Fr. pose proof (bbox_fits _ _ (proj2 (proj2 Hs))) as Fs.
  apply (contains_rect_iff _ _ Fr Fs) in Hc. apply IntRect.contains_point_iff; [done|].
  pose proof (bbox_covers _ _ _ _ (proj2 (proj2 Hs)) Hp) as Hi.
  apply (IntRect.contains_point_iff _ _ _ Fs) in Hi. lia.
Qed.

(** ** Comparisons *)

Lemma canonical_two y l t : rows_ok [] ((y, l) :: t) -> exists y' l' t', t = (y', l') :: t' /\ y < y' /\ row_ok l /\ l <> [].
Proof.
  intros H. inversion H as [|? ? ? ? Hl Hy Hne Hf Ht]; subst.
  destruct t as [|[y' l'] t']; [by inversion Ht; subst|]. inversion Hf; subst. by exists y', l', t'.
Qed.

Lemma flatten_begin rs : m_spans (flatten rs) = spans_of 0 rs.
Proof. done. Qed.

Lemma compareShapes_contains A B : rows_ok [] A -> rows_ok [] B -> B <> [] ->
  exists b, compareShapes CompareContainsOperation (flatten A) (flatten B) = Some b /\
    (b = true <-> forall px py, pt_in B px py = true -> pt_in A px py = true).
Proof.
  intros HA HB Hne. destruct B as [|[bY lb] tB]; [done|].
  destruct (canonical_two _ _ _ HB) as (bM & lb2 & tB' & EB & HbM & Hlb & Hlbne).
  destruct (row_nonempty _ Hlb Hlbne) as (u & _ & Hu & _).
  assert (Hpt : pt_in ((bY, lb) :: tB) u bY = true) by (eapply pt_in_head; [exact HB|left|done]).
  destruct A as [|[aY la] tA].
  { exists false. unfold compareShapes. subst tB. split; [done|]. split; [done|].
    intros H. by specialize (H _ _ Hpt). }
  destruct (decide (bY < aY)) as [L|L].
  { exists false. split.
    - destruct (canonical_two _ _ _ HA) as (aM & la2 & tA' & -> & _). subst tB. unfold compareShapes.
      pose proof (segments_flatten _ _ _ _ _ (last_row_canonical _ HA) (at_rows_begin _)) as SA.
      pose proof (segments_flatten _ _ _ _ _ (last_row_canonical _ HB) (at_rows_begin _)) as SB.
      rewrite flatten_begin in SA |- *. rewrite flatten_begin in SB |- *.
      simpl spans_of in SA, SB |- *. rewrite compareShapes_loop_cons, SA, SB. cbn [mbind option_bind].
      unfold compareSpans. cbn [aOutsideB bOutsideA CompareContainsOperation]. rewrite test_None. simpl span_y.
      rewrite (proj2 (Z.ltb_lt bY aY)), (bool_decide_eq_true_2 (lb ≠ [])) by done. done.
    - split; [done|]. intros H. specialize (H _ _ Hpt). unfold pt_in in H.
      rewrite row_at_below in H; [done|]. eapply Forall_impl; [by eapply Forall_le_first|]. simpl. lia. }
  destruct (compareShapes_rows _ _ _ cmp_ok_contains _ _ (last_row_canonical _ HA) (last_row_canonical _ HB)
    _ aY la tA bY lb tB _ _ [] [] false false (Nat.lt_succ_diag_r _) (at_rows_begin _) (at_rows_begin _) HA HB)
    as [[E (px & py & _ & Hh)]|[E Hn]].
  - intros _ ?. lia.
  - exists false. split; [exact E|]. split; [done|]. intros H. specialize (H px py).
    unfold hit_contains, pt_in in *. apply andb_true_iff in Hh as [H1 H2]. rewrite H1 in H.
    by rewrite H in H2.
  - exists true. split; [exact E|]. split; [|done]. intros _ px py Hp.
    assert (bY <= py).
    { destruct (Z.leb_spec bY py); [done|]. unfold pt_in in Hp. rewrite row_at_below in Hp; [done|].
      eapply Forall_impl; [by eapply Forall_le_first|]. simpl. lia. }
    specialize (Hn px py). unfold hit_contains, pt_in in *. rewrite Hp in Hn. simpl in Hn.
    apply negb_false_iff, Hn. lia.
Qed.

Lemma compareShapes_intersects A B : rows_ok [] A -> rows_ok [] B ->
  exists b, compareShapes CompareIntersectsOperation (flatten A) (flatten B) = Some b /\
    (b = true <-> exists px py, pt_in A px py = true /\ pt_in B px py = true).
Proof.
  intros HA HB.
  destruct A as [|[aY la] tA].
  { exists false. split; [by destruct B as [|[] [|[]]]|]. split; [done|]. by intros (? & ? & ? & _). }
  destruct B as [|[bY lb] tB].
  { exists false. split; [|split; [done|by intros (? & ? & _ & ?)]].
    destruct (canonical_two _ _ _ HA) as (aM & la2 & tA' & -> & _). done. }
  destruct (compareShapes_rows _ _ _ cmp_ok_intersects _ _ (last_row_canonical _ HA) (last_row_canonical _ HB)
    _ aY la tA bY lb tB _ _ [] [] false false (Nat.lt_succ_diag_r _) (at_rows_begin _) (at_rows_begin _) HA HB)
    as [[E (px & py & _ & Hh)]|[E Hn]].
  - intros ?. done.
  - exists true. split; [exact E|]. split; [|done]. intros _. exists px, py. by apply andb_true_iff.
  - exists false. split; [exact E|]. split; [done|]. intros (px & py & H1 & H2).
    assert (Z.max aY bY <= py).
    { destruct (Z.leb_spec (Z.max aY bY) py); [done|]. exfalso. unfold pt_in in *.
      destruct (decide (py < aY)); [rewrite row_at_below in H1; [done|]|rewrite row_at_below in H2; [done|]];
        (eapply Forall_impl; [by eapply Forall_le_first|]; simpl; lia). }
    specialize (Hn px py H). unfold hit_intersects, pt_in in *. by rewrite H1, H2 in Hn.
Qed.

(** ** The operations *)

(** The set operation [f] on regions, in terms of point queries. *)
Definition computes (f : bool -> bool -> bool) (a b c : Region) : Prop :=
  forall p, exists ba bb, contains_point a p = Some ba /\ contains_point b p = Some bb /\
    contains_point c p = Some (f ba bb).

Lemma computes_rows f a b c A B C : region_rows a A -> region_rows b B -> region_rows c C ->
  (forall px py, pt_in C px py = f (pt_in A px py) (pt_in B px py)) -> computes f a b c.
Proof.
  intros Ha Hb Hc E p. rewrite (contains_point_rows _ _ _ Ha), (contains_point_rows _ _ _ Hb),
    (contains_point_rows _ _ _ Hc), E. eauto.
Qed.

Lemma shapes_bounded op A B a b : op_ok op -> region_rows a A -> region_rows b B ->
  exists C r, shapeOperation op (m_shape a) (m_shape b) = Some (flatten C) /\
    Shape_bounds (flatten C) = Some r /\ rows_ok [] C /\ bbox (pt_in C) r /\
    forall px py, pt_in C px py = sem op (pt_in A px py) (pt_in B px py).
Proof.
  intros Hop (Sa & Oa & _) (Sb & Ob & _).
  destruct (shapeOperation_rows op Hop A B Oa Ob) as (C & E & OC & HC).
  destruct (Shape_bounds_rows C OC) as (r & Er & Hr). exists C, r. rewrite Sa, Sb. done.
Qed.

Lemma region_rect_rows r : IntRect.fits r -> 0 < IntRect.width r -> 0 < IntRect.height r ->
  region_rows (Region_rect r)
    [(IntRect.y r, [IntRect.x r; IntRect.maxX r]); (IntRect.maxY r, [])].
Proof.
  intros Hf Hw Hh. pose proof (IntRect.maxX_fits r Hf) as Ex. pose proof (IntRect.maxY_fits r Hf) as Ey.
  destruct Hf as (F1 & F2 & F3 & F4). split; [done|]. split.
  - constructor; [|done|done|constructor; [simpl; lia|constructor]|].
    + split_and!; [|constructor; [|constructor; [rewrite Ex|constructor]]; done|done].
      repeat constructor. lia.
    + constructor; [apply row_ok_nil|by rewrite Ey|done|constructor|constructor].
  - right. rewrite Ex, Ey. split; [done|..]; simpl.
    + intros px py H. rewrite pt_in_rect in H by lia. zbool. lia.
    + exists (IntRect.y r). rewrite pt_in_rect by lia. rewrite !Z.leb_refl, !(proj2 (Z.ltb_lt _ _)) by lia. done.
    + exists (IntRect.y r). rewrite pt_in_rect by lia.
      rewrite !(proj2 (Z.leb_le _ _)), !(proj2 (Z.ltb_lt _ _)) by lia. done.
    + exists (IntRect.x r). rewrite pt_in_rect by lia. rewrite !Z.leb_refl, !(proj2 (Z.ltb_lt _ _)) by lia. done.
    + exists (IntRect.x r). rewrite pt_in_rect by lia.
      rewrite !(proj2 (Z.leb_le _ _)), !(proj2 (Z.ltb_lt _ _)) by lia. done.
Qed.

Lemma region_rect_ok r : IntRect.fits r -> 0 < IntRect.width r -> 0 < IntRect.height r ->
  region_ok (Region_rect r).
Proof. intros. eexists. by apply region_rect_rows. Qed.

Lemma region_empty_ok : region_ok Region_empty.
Proof. exists []. split_and!; [done|constructor|by left]. Qed.

(** C1: [Region::unite] of two well-formed regions returns (no assertion or
    out-of-range read on any of its shortcuts or loops), keeps the class
    invariant, and contains exactly the points of either region. *)
Theorem unite_correct a b : region_ok a -> region_ok b ->
  exists c, unite a b = Some c /\ region_ok c /\ computes orb a b c.
Proof.
  intros [A Ha] [B Hb]. unfold unite.
  destruct (isEmpty b) eqn:Eb.
  { exists a. split; [done|]. split; [by exists A|]. eapply computes_rows; eauto.
    intros px py. rewrite (proj1 (bbox_isEmpty _ _ (proj2 (proj2 Hb))) Eb). by rewrite orb_false_r. }
  pose proof (bbox_nonempty _ _ (proj2 (proj2 Hb)) Eb) as Hbox.
  destruct (isRect a && IntRect.contains_rect (m_bounds a) (m_bounds b)) eqn:E1.
  { apply andb_true_iff in E1 as [E1 E2]. exists a. split; [done|]. split; [by exists A|].
    eapply computes_rows; eauto. intros px py.
    pose proof (rect_includes _ _ _ _ Ha Hb E1 E2 px py). destruct (pt_in A px py), (pt_in B px py); naive_solver. }
  destruct (isRect b && IntRect.contains_rect (m_bounds b) (m_bounds a)) eqn:E2.
  { apply andb_true_iff in E2 as [E2 E3]. exists b. split; [by destruct b|]. split; [by exists B|].
    eapply computes_rows; eauto. intros px py.
    pose proof (rect_includes _ _ _ _ Hb Ha E2 E3 px py). destruct (pt_in A px py), (pt_in B px py); naive_solver. }
  assert (exists k, (if isRect a then Some false else contains a b) = Some k /\
    (k = true -> forall px py, pt_in B px py = true -> pt_in A px py = true)) as (k & -> & Hk).
  { destruct (isRect a); [by exists false|]. unfold contains.
    destruct (IntRect.contains_rect (m_bounds a) (m_bounds b)); simpl; [|by exists false].
    destruct Ha as (-> & Oa & _), Hb as (-> & Ob & _).
    destruct (compareShapes_contains A B Oa Ob) as (k & -> & Hk); [|exists k; split; [done|by apply Hk]].
    intros ->. by destruct (box_left _ _ Hbox). }
  cbn [mbind option_bind]. destruct k.
  { exists a. split; [done|]. split; [by exists A|]. eapply computes_rows; eauto. intros px py.
    specialize (Hk eq_refl px py). destruct (pt_in A px py), (pt_in B px py); naive_solver. }
  destruct (shapes_bounded _ _ _ _ _ UnionOperation_ok Ha Hb) as (C & r & E & _ & OC & _ & HC).
  unfold unionShapes. rewrite E. cbn [mbind option_bind]. eexists. split; [done|].
  assert (Hrows : region_rows (mkRegion (IntRect.unite (m_bounds a) (m_bounds b)) (flatten C)) C).
  { split; [done|]. split; [done|]. right. pose proof (unite_bbox _ _ _ _ (proj2 (proj2 Ha)) Hbox) as Hu.
    simpl. setoid_rewrite sem_union in HC.
    destruct Hu as [F Cv L R T Bo]. split; [done|..]; setoid_rewrite HC; done. }
  split; [by exists C|]. eapply computes_rows; eauto. intros px py. by rewrite HC, sem_union.
Qed.

(** C3: [Region::intersect] of two well-formed regions returns, keeps the
    invariant, and contains exactly the points of both. *)
Theorem intersect_correct a b : region_ok a -> region_ok b ->
  exists c, intersect a b = Some c /\ region_ok c /\ computes andb a b c.
Proof.
  intros [A Ha] [B Hb]. unfold intersect. destruct (IntRect.isEmpty (m_bounds a)) eqn:Ea.
  { exists a. split; [done|]. split; [by exists A|]. eapply computes_rows; eauto. intros px py.
    by rewrite (proj1 (bbox_isEmpty _ _ (proj2 (proj2 Ha))) Ea). }
  destruct (IntRect.intersects (m_bounds a) (m_bounds b)) eqn:Ei; simpl.
  - destruct (shapes_bounded _ _ _ _ _ IntersectOperation_ok Ha Hb) as (C & r & E & Er & OC & Hr & HC).
    unfold intersectShapes. rewrite E. simpl. rewrite Er. simpl. eexists. split; [done|].
    assert (Hrows : region_rows (mkRegion r (flatten C)) C) by done.
    split; [by exists C|]. eapply computes_rows; eauto. intros px py. by rewrite HC, sem_intersect.
  - exists Region_empty. split; [done|]. split; [apply region_empty_ok|].
    assert (H0 : region_rows Region_empty []) by (split_and!; [done|constructor|by left]).
    eapply computes_rows; eauto. intros px py. symmetry.
    pose proof (bbox_intersects _ _ _ _ (proj2 (proj2 Ha)) (proj2 (proj2 Hb)) Ei px py).
    destruct (pt_in A px py); [|done]. simpl. auto.
Qed.

(** C2: [Region::subtract] of two well-formed regions returns, keeps the
    invariant, and contains exactly the points of the first that are not in
    the second. *)
Theorem subtract_correct a b : region_ok a -> region_ok b ->
  exists c, subtract a b = Some c /\ region_ok c /\ computes (fun fa fb => fa && negb fb) a b c.
Proof.
  intros [A Ha] [B Hb]. unfold subtract.
  assert (Hsame : (forall px py, pt_in A px py = true -> pt_in B px py = false) ->
    exists c, Some a = Some c /\ region_ok c /\ computes (fun fa fb => fa && negb fb) a b c).
  { intros H. exists a. split; [done|]. split; [by exists A|]. eapply computes_rows; eauto. intros px py.
    specialize (H px py). destruct (pt_in A px py); [by rewrite H|done]. }
  destruct (IntRect.isEmpty (m_bounds a)) eqn:Ea.
  { apply Hsame. intros px py. by rewrite (proj1 (bbox_isEmpty _ _ (proj2 (proj2 Ha))) Ea). }
  destruct (isEmpty b) eqn:Eb.
  { apply Hsame. intros px py _. by rewrite (proj1 (bbox_isEmpty _ _ (proj2 (proj2 Hb))) Eb). }
  destruct (IntRect.intersects (m_bounds a) (m_bounds b)) eqn:Ei; simpl.
  - destruct (shapes_bounded _ _ _ _ _ SubtractOperation_ok Ha Hb) as (C & r & E & Er & OC & Hr & HC).
    unfold subtractShapes. rewrite E. simpl. rewrite Er. simpl. eexists. split; [done|].
    assert (Hrows : region_rows (mkRegion r (flatten C)) C) by done.
    split; [by exists C|]. eapply computes_rows; eauto. intros px py. by rewrite HC, sem_subtract.
  - apply Hsame. exact (bbox_intersects _ _ _ _ (proj2 (proj2 Ha)) (proj2 (proj2 Hb)) Ei).
Qed.

(** [Region::contains(const Region&)] decides inclusion of a non-empty
    well-formed region, bounding-box shortcut and span walk included. *)
Theorem contains_correct a b : region_ok a -> region_ok b -> isEmpty b = false ->
  exists r, contains a b = Some r /\
    (r = true <-> forall p, contains_point b p = Some true -> contains_point a p = Some true).
Proof.
  intros [A Ha] [B Hb] Hne. pose proof (bbox_nonempty _ _ (proj2 (proj2 Hb)) Hne) as Hbox.
  assert (Hpts : (forall p, contains_point b p = Some true -> contains_point a p = Some true) <->
    (forall px py, pt_in B px py = true -> pt_in A px py = true)).
  { setoid_rewrite (contains_point_rows _ _ _ Ha). setoid_rewrite (contains_point_rows _ _ _ Hb). split.
    - intros H px py Hp. specialize (H (mkIntPoint px py)). simpl in H. rewrite Hp in H. specialize (H eq_refl). congruence.
    - intros H [px py]. simpl. intros [= Hp]. by rewrite H. }
  setoid_rewrite Hpts. unfold contains.
  destruct (IntRect.contains_rect (m_bounds a) (m_bounds b)) eqn:Ec; simpl.
  - destruct Ha as (-> & Oa & _), Hb as (-> & Ob & _). apply compareShapes_contains; [done|done|].
    intros ->. by destruct (box_left _ _ Hbox).
  - exists false. split; [done|]. split; [done|]. intros H. exfalso. apply not_true_iff_false in Ec. apply Ec.
    pose proof (proj2 (proj2 Ha)) as BA.
    assert (HaC : forall px py, pt_in B px py = true ->
      IntRect.x (m_bounds a) <= px < IntRect.x (m_bounds a) + IntRect.width (m_bounds a) /\
      IntRect.y (m_bounds a) <= py < IntRect.y (m_bounds a) + IntRect.height (m_bounds a)).
    { intros px py Hp. apply H in Hp. apply IntRect.contains_point_iff; [by eapply bbox_fits|]. by eapply bbox_covers. }
    apply contains_rect_iff; [by eapply bbox_fits|apply Hbox|].
    destruct (box_left _ _ Hbox) as [? L%HaC], (box_right _ _ Hbox) as [? R%HaC],
      (box_top _ _ Hbox) as [? T%HaC], (box_bottom _ _ Hbox) as [? Bo%HaC]. lia.
Qed.

(** [Region::intersects] answers whether the two regions share a point. *)
Theorem intersects_correct a b : region_ok a -> region_ok b ->
  exists r, intersects a b = Some r /\
    (r = true <-> exists p, contains_point a p = Some true /\ contains_point b p = Some true).
Proof.
  intros [A Ha] [B Hb].
  assert (Hpts : (exists p, contains_point a p = Some true /\ contains_point b p = Some true) <->
    (exists px py, pt_in A px py = true /\ pt_in B px py = true)).
  { setoid_rewrite (contains_point_rows _ _ _ Ha). setoid_rewrite (contains_point_rows _ _ _ Hb). split.
    - intros ([px py] & [= H1] & [= H2]). by exists px, py.
    - intros (px & py & H1 & H2). exists (mkIntPoint px py). simpl. by rewrite H1, H2. }
  setoid_rewrite Hpts. unfold intersects.
  destruct (IntRect.intersects (m_bounds a) (m_bounds b)) eqn:Ei; simpl.
  - destruct Ha as (-> & Oa & _), Hb as (-> & Ob & _). by apply compareShapes_intersects.
  - exists false. split; [done|]. split; [done|]. intros (px & py & H1 & H2).
    by rewrite (bbox_intersects _ _ _ _ (proj2 (proj2 Ha)) (proj2 (proj2 Hb)) Ei px py H1) in H2.
Qed.

Lemma list_eqb_eq {A} (eqb : A -> A -> bool) (H : forall a b, eqb a b = true <-> a = b) l1 l2 :
  list_eqb eqb l1 l2 = true <-> l1 = l2.
Proof.
  revert l2. induction l1 as [|a l1 IH]; intros [|b l2]; simpl; [done..|].
  rewrite andb_true_iff, H, IH. split; [by intros [-> ->]|by intros [= -> ->]].
Qed.

Lemma Region_eqb_eq a b : Region_eqb a b = true <-> a = b.
Proof.
  unfold Region_eqb, Shape_eqb. rewrite !andb_true_iff, IntRect.eqb_eq, !list_eqb_eq.
  - destruct a as [? []], b as [? []]; simpl. split; [by intros (-> & -> & ->)|by intros [= -> -> ->]].
  - apply Z.eqb_eq.
  - intros [y1 n1] [y2 n2]. unfold Span_eqb. simpl. rewrite andb_true_iff, Z.eqb_eq, Nat.eqb_eq.
    split; [by intros [-> ->]|by intros [= -> ->]].
Qed.

(** C4: the representation is canonical: [operator==], which compares the
    vectors and the bounds, answers whether two well-formed regions contain
    the same points. *)
Theorem Region_eqb_canonical a b : region_ok a -> region_ok b ->
  Region_eqb a b = true <-> forall p, contains_point a p = contains_point b p.
Proof.
  intros [A Ha] [B Hb]. rewrite Region_eqb_eq. split; [by intros ->|]. intros H.
  eapply region_rows_inj; [exact Ha|exact Hb|]. intros px py. specialize (H (mkIntPoint px py)).
  rewrite (contains_point_rows _ _ _ Ha), (contains_point_rows _ _ _ Hb) in H. by injection H.
Qed.

(** ** Decomposition into rectangles *)

Definition covering (p : IntPoint) (rs : list IntRect) : nat :=
  length (filter (fun r => IntRect.contains_point r p = true) rs).

Definition one (b : bool) : nat := if b then 1%nat else 0%nat.

Lemma covering_app p l1 l2 : covering p (l1 ++ l2) = (covering p l1 + covering p l2)%nat.
Proof. unfold covering. by rewrite filter_app, length_app. Qed.

Lemma covering_cons p r l : covering p (r :: l) = (one (IntRect.contains_point r p) + covering p l)%nat.
Proof.
  unfold covering. rewrite filter_cons. destruct (IntRect.contains_point r p) eqn:E.
  - by rewrite decide_True.
  - by rewrite decide_False.
Qed.

Lemma rects_in_span_covering y h l px py : coord y -> coord (y + h) -> row_ok l ->
  covering (mkIntPoint px py) (rects_in_span y h l) = one ((y <=? py) && (py <? y + h) && ins l px).
Proof.
  intros Hy Hh Hl. pose proof (row_ok_even _ Hl) as He. destruct Hl as (_ & Hc & _). revert Hc.
  induction He as [|u v l Huv _ Hf _ IH] using even_row_ind; intros Hc.
  { by rewrite andb_false_r. }
  inversion Hc as [|? ? Cu Hc']; subst. inversion Hc' as [|? ? Cv Hc'']; subst.
  cbn [rects_in_span]. rewrite covering_cons, IH by done. rewrite (ins_pair u) by done.
  rewrite coord_sub_i32 by done.
  assert (IntRect.contains_point (IntRect.xywh u y (v - u) h) (mkIntPoint px py)
    = (u <=? px) && (px <? v) && (y <=? py) && (py <? y + h)) as ->.
  { unfold IntRect.contains_point. rewrite IntRect.maxX_fits, IntRect.maxY_fits;
      unfold IntRect.fits, IntRect.xywh, IntRect.x, IntRect.y, IntRect.width, IntRect.height; simpl;
      rewrite ?Zplus_minus; done. }
  destruct (ins l px) eqn:Ei.
  - apply (ins_gt _ _ _ Hf) in Ei. cases_ins; simpl; try done; lia.
  - by destruct (u <=? px), (px <? v), (y <=? py), (py <? y + h).
Qed.

Lemma rects_loop_rows rs0 : last_row rs0 = [] -> forall suf it prev, at_rows rs0 it suf -> rows_ok prev suf ->
  exists out, rects_loop (flatten rs0) it = Some out /\ forall px py, covering (mkIntPoint px py) out =
    match suf with [] => 0%nat | (y, _) :: _ => one ((y <=? py) && ins (row_at prev suf py) px) end.
Proof.
  intros Hlast. induction suf as [|[y l] t IH]; intros it prev Hit Hok.
  { apply at_rows_nil in Hit as ->. by exists []. }
  pose proof (segments_flatten _ _ _ _ _ Hlast Hit) as Hs.
  destruct (at_rows_cons _ _ _ _ _ Hit) as (n & it' & -> & Hit').
  inversion Hok as [|? ? ? ? Hl Hy Hne Hf Ht]; subst. destruct t as [|[y2 l2] t].
  { apply at_rows_nil in Hit' as ->. inversion Ht; subst. exists []. split; [done|]. intros px py. simpl.
    by destruct (y <=? py). }
  destruct (IH _ l Hit' Ht) as (out & Eo & Hc). destruct (at_rows_cons _ _ _ _ _ Hit') as (n2 & it2 & -> & _).
  inversion Hf as [|? ? Hy2 _]; subst. simpl in Hy2. inversion Ht as [|? ? ? ? _ Cy2 _ _ _]; subst.
  change (rects_loop (flatten rs0) (mkSpan y n :: mkSpan y2 n2 :: it2)) with
    (segs ← segments (flatten rs0) (mkSpan y n :: mkSpan y2 n2 :: it2);
     rs ← rects_loop (flatten rs0) (mkSpan y2 n2 :: it2);
     Some (rects_in_span y (i32 (y2 - y)) segs ++ rs)).
  rewrite Hs, Eo. cbn [mbind option_bind]. eexists. split; [done|]. intros px py.
  rewrite covering_app, Hc, coord_sub_i32, rects_in_span_covering by (try done; by rewrite Zplus_minus).
  rewrite Zplus_minus. simpl. cases_ins; simpl; try lia; rewrite ?Nat.add_0_r; done.
Qed.

(** C5: [Region::rects] decomposes a well-formed region into rectangles: a
    point of the region lies in exactly one of them, any other point in none. *)
Theorem rects_partition r : region_ok r ->
  exists rs, rects r = Some rs /\
    forall p, exists b, contains_point r p = Some b /\ covering p rs = one b.
Proof.
  intros [R HR]. pose proof HR as (Hs & Hok & _). unfold rects. rewrite Hs.
  destruct (rects_loop_rows R (last_row_canonical _ Hok) R _ [] (at_rows_begin R) Hok) as (out & E & Hc).
  exists out. split; [done|]. intros [px py]. rewrite (contains_point_rows _ _ _ HR).
  eexists. split; [done|]. rewrite Hc. simpl. unfold pt_in. destruct R as [|[y l] t]; [done|].
  destruct (Z.leb_spec y py); [done|]. simpl. by rewrite (proj2 (Z.leb_gt y py)).
Qed.

(** * Translation and concrete instances *)

Import Region.

(** ** Translation *)

Definition shift_rows (dx dy : Z) (rs : rows) : rows :=
  map (fun r => (r.1 + dy, map (fun a => a + dx) r.2)) rs.

Lemma ins_shift dx l px : ins (map (fun a => a + dx) l) px = ins l (px - dx).
Proof.
  induction l as [|a l IH]; simpl; [done|]. rewrite IH. f_equal.
  destruct (Z.leb_spec (a + dx) px), (Z.leb_spec a (px - dx)); try done; lia.
Qed.

Lemma row_at_shift dx dy rs py : forall prev,
  row_at (map (fun a => a + dx) prev) (shift_rows dx dy rs) py = map (fun a => a + dx) (row_at prev rs (py - dy)).
Proof.
  induction rs as [|[y l] rs IH]; intros prev; simpl; [done|].
  destruct (Z.leb_spec (y + dy) py), (Z.leb_spec y (py - dy)); try lia; done.
Qed.

Lemma pt_in_shift dx dy rs px py : pt_in (shift_rows dx dy rs) px py = pt_in rs (px - dx) (py - dy).
Proof. unfold pt_in. rewrite <- ins_shift. by rewrite <- (row_at_shift dx dy rs py []). Qed.

(** The end points and ordinates that the translated rows must keep in range. *)
Definition shift_fits (dx dy : Z) (rs : rows) : Prop :=
  Forall (fun r => coord (r.1 + dy) /\ Forall (fun a => coord (a + dx)) r.2) rs.

Lemma sorted_shift dx l : StronglySorted Z.lt l -> StronglySorted Z.lt (map (fun a => a + dx) l).
Proof.
  induction 1 as [|a l Hs IH Ha]; simpl; constructor; [done|].
  apply Forall_map. eapply Forall_impl; [exact Ha|]. simpl. lia.
Qed.

Lemma row_ok_shift dx l : row_ok l -> Forall (fun a => coord (a + dx)) l -> row_ok (map (fun a => a + dx) l).
Proof.
  intros (Hs & _ & Ho) Hc. split_and!; [by apply sorted_shift|by apply Forall_map|by rewrite length_map].
Qed.

Lemma map_add_inj dx l1 l2 : map (fun a => a + dx) l1 = map (fun a => a + dx) l2 -> l1 = l2.
Proof.
  revert l2. induction l1 as [|a l1 IH]; intros [|b l2]; simpl; try done.
  intros [= H1 H2%IH]. f_equal; [lia|done].
Qed.

Lemma rows_ok_shift dx dy rs : forall prev, rows_ok prev rs -> shift_fits dx dy rs ->
  rows_ok (map (fun a => a + dx) prev) (shift_rows dx dy rs).
Proof.
  induction rs as [|[y l] rs IH]; intros prev Hok Hf; inversion Hok as [|? ? ? ? ? ? ? Hlt]; subst; [constructor|].
  inversion Hf as [|? ? [Hy Hl] Hf']; subst. simpl in *. constructor; auto.
  - by apply row_ok_shift.
  - by intros ?%map_add_inj.
  - apply Forall_map. eapply Forall_impl; [exact Hlt|]. simpl. lia.
Qed.

Lemma spans_of_shift dx dy rs : shift_fits dx dy rs -> forall n,
  map (fun sp => mkSpan (i32 (span_y sp + dy)) (segmentIndex sp)) (spans_of n rs) = spans_of n (shift_rows dx dy rs).
Proof.
  induction 1 as [|[y l] rs [Hy _] _ IH]; intros n; simpl; [done|]. rewrite IH, length_map. simpl in Hy.
  f_equal. f_equal. apply i32_id. unfold coord, is_i32, INT_MIN, INT_MAX in *. lia.
Qed.

Lemma segs_of_shift dx dy rs : shift_fits dx dy rs ->
  map (fun a => i32 (a + dx)) (segs_of rs) = segs_of (shift_rows dx dy rs).
Proof.
  unfold segs_of. induction 1 as [|[y l] rs [_ Hl] _ IH]; simpl; [done|]. rewrite map_app, IH. f_equal.
  simpl in Hl. clear -Hl. induction Hl as [|a l Ha _ IH]; simpl; [done|]. rewrite IH. f_equal.
  apply i32_id. unfold coord, is_i32, INT_MIN, INT_MAX in *. lia.
Qed.

(** Every end point and every ordinate lies within the bounding box. *)
Lemma rows_within rs r : rows_ok [] rs -> box (pt_in rs) r -> forall dx dy,
  coord (IntRect.x r + dx) -> coord (IntRect.x r + IntRect.width r + dx) ->
  coord (IntRect.y r + dy) -> coord (IntRect.y r + IntRect.height r + dy) -> shift_fits dx dy rs.
Proof.
  intros Hok Hb dx dy C1 C2 C3 C4. apply Forall_forall. intros [y l] Hin. simpl.
  destruct (rows_ok_row _ _ _ _ Hok Hin) as [Hl _]. split.
  - destruct rs as [|[y0 l0] t] eqn:E; [by apply elem_of_nil in Hin|]. rewrite <- E in *.
    destruct (rows_bottom rs [] Hok) as (yl & Hlast & Hbot & Hle); [right; by rewrite E|].
    assert (y0 <= y <= yl).
    { rewrite Forall_forall in Hle. specialize (Hle _ Hin). simpl in Hle. split; [|done].
      assert (Hf : Forall (fun r => y0 <= r.1) rs) by (rewrite E in Hok |- *; by eapply Forall_le_first).
      rewrite Forall_forall in Hf. by apply (Hf _ Hin). }
    assert (Hl0 : l0 <> [] /\ row_ok l0) by (rewrite E in Hok; by inversion Hok). destruct Hl0 as [Hne0 Hok0].
    destruct (row_nonempty _ Hok0 Hne0) as (a & _ & Ha & _).
    assert (Htop : pt_in rs a y0 = true) by (eapply pt_in_head; [done| |done]; rewrite E; left).
    destruct (row_at_in rs (yl - 1) []) as [E'|[y' Hin']]; [done|].
    destruct (rows_ok_row _ _ _ _ Hok Hin') as [Hl' _]. destruct (row_nonempty _ Hl' Hbot) as (a' & _ & Ha' & _).
    assert (Hbo : pt_in rs a' (yl - 1) = true).
    { unfold pt_in. destruct (row_at [] rs (yl - 1)); [done|]. injection Ha' as ->. apply ins_head, Hl'. }
    apply (box_covers _ _ Hb) in Htop, Hbo. unfold coord in *. lia.
  - destruct (decide (l = [])) as [->|Hne]; [constructor|].
    destruct (row_nonempty _ Hl Hne) as (a & b & Ha & Hb' & _).
    pose proof (pt_in_head _ _ _ _ Hok Hin Ha) as H1%(box_covers _ _ Hb).
    pose proof (pt_in_last _ _ _ _ Hok Hin Hb') as H2%(box_covers _ _ Hb).
    destruct Hl as (Hs & _). pose proof (sorted_last_max _ _ Hs Hb') as Hmax.
    assert (Hmin : Forall (fun e => a <= e) l).
    { destruct l; [done|]. injection Ha as ->. constructor; [lia|].
      eapply Forall_impl; [by eapply sorted_forall_lt|]. simpl. lia. }
    rewrite Forall_forall in Hmax, Hmin. apply Forall_forall. intros e He.
    specialize (Hmax _ He). specialize (Hmin _ He). simpl in *. unfold coord in *. lia.
Qed.

(** [Region::translate] of a non-empty well-formed region by an offset that
    keeps its bounding box in range keeps the invariant and moves every point
    by the offset. *)
Theorem translate_correct r offset : region_ok r -> isEmpty r = false ->
  let dx := m_width offset in let dy := m_height offset in let b := m_bounds r in
  coord (IntRect.x b + dx) -> coord (IntRect.x b + IntRect.width b + dx) ->
  coord (IntRect.y b + dy) -> coord (IntRect.y b + IntRect.height b + dy) ->
  region_ok (translate r offset) /\
  forall px py, contains_point (translate r offset) (mkIntPoint px py)
    = contains_point r (mkIntPoint (px - dx) (py - dy)).
Proof.
  intros [R HR] Hne dx dy b C1 C2 C3 C4. pose proof HR as (Hs & Hok & Hb).
  pose proof (bbox_nonempty _ _ Hb Hne) as Hbox.
  pose proof (rows_within _ _ Hok Hbox dx dy C1 C2 C3 C4) as Hf.
  assert (Hrows : region_rows (translate r offset) (shift_rows dx dy R)).
  { split_and!.
    - unfold translate, Shape_translate, flatten. simpl. rewrite Hs. simpl. subst dx dy.
      by rewrite segs_of_shift with (dy := m_height offset), (spans_of_shift (m_width offset)).
    - by apply (rows_ok_shift dx dy R []).
    - right. destruct Hbox as [F C [? L] [? Ri] [? T] [? B]]. fold b in F, C, L, Ri, T, B.
      unfold translate, IntRect.move, IntRect.IntPoint_move. simpl. fold b dx dy.
      unfold IntRect.x, IntRect.y, IntRect.width, IntRect.height in *. simpl.
      assert (E1 : i32 (m_x (m_location b) + dx) = m_x (m_location b) + dx)
        by (apply i32_id; unfold coord, is_i32, INT_MIN, INT_MAX in *; lia).
      assert (E2 : i32 (m_y (m_location b) + dy) = m_y (m_location b) + dy)
        by (apply i32_id; unfold coord, is_i32, INT_MIN, INT_MAX in *; lia).
      split; unfold IntRect.x, IntRect.y, IntRect.width, IntRect.height; simpl; rewrite ?E1, ?E2.
      + unfold coord in *. lia.
      + intros px py Hp. rewrite pt_in_shift in Hp. apply C in Hp. lia.
      + eexists (_ + dy). rewrite pt_in_shift, !Z.add_simpl_r. exact L.
      + eexists (_ + dy). rewrite pt_in_shift, Z.add_simpl_r.
        replace (_ - 1 - dx) with (m_x (m_location b) + m_width (m_size b) - 1) by lia. exact Ri.
      + eexists (_ + dx). rewrite pt_in_shift, !Z.add_simpl_r. exact T.
      + eexists (_ + dx). rewrite pt_in_shift, Z.add_simpl_r.
        replace (_ - 1 - dy) with (m_y (m_location b) + m_height (m_size b) - 1) by lia. exact B. }
  split; [by eexists|]. intros px py.
  rewrite (contains_point_rows _ _ _ Hrows), (contains_point_rows _ _ _ HR). simpl. by rewrite pt_in_shift.
Qed.

(** ** Concrete instances *)

Definition sample_a : Region := Region_rect (IntRect.xywh 0 0 10 10).
Definition sample_b : Region := Region_rect (IntRect.xywh 5 5 10 10).

Lemma sample_a_ok : region_ok sample_a.
Proof. apply region_rect_ok; done. Qed.
Lemma sample_b_ok : region_ok sample_b.
Proof. apply region_rect_ok; done. Qed.

Lemma unite_correct_witness : exists c, unite sample_a sample_b = Some c /\ region_ok c /\ computes orb sample_a sample_b c.
Proof. exact (unite_correct sample_a sample_b sample_a_ok sample_b_ok). Defined.

Lemma intersect_correct_witness : exists c, intersect sample_a sample_b = Some c /\ region_ok c /\ computes andb sample_a sample_b c.
Proof. exact (intersect_correct sample_a sample_b sample_a_ok sample_b_ok). Defined.

Lemma subtract_correct_witness : exists c, subtract sample_a sample_b = Some c /\ region_ok c /\
  computes (fun fa fb => fa && negb fb) sample_a sample_b c.
Proof. exact (subtract_correct sample_a sample_b sample_a_ok sample_b_ok). Defined.

Lemma contains_correct_witness : exists r, contains sample_a sample_b = Some r /\
  (r = true <-> forall p, contains_point sample_b p = Some true -> contains_point sample_a p = Some true).
Proof. exact (contains_correct sample_a sample_b sample_a_ok sample_b_ok eq_refl). Defined.

Lemma intersects_correct_witness : exists r, intersects sample_a sample_b = Some r /\
  (r = true <-> exists p, contains_point sample_a p = Some true /\ contains_point sample_b p = Some true).
Proof. exact (intersects_correct sample_a sample_b sample_a_ok sample_b_ok). Defined.

Lemma Region_eqb_canonical_witness : Region_eqb sample_a sample_b = true <->
  forall p, contains_point sample_a p = contains_point sample_b p.
Proof. exact (Region_eqb_canonical sample_a sample_b sample_a_ok sample_b_ok). Defined.

Lemma rects_partition_witness : exists rs, rects sample_a = Some rs /\
  forall p, exists b, contains_point sample_a p = Some b /\ covering p rs = one b.
Proof. exact (rects_partition sample_a sample_a_ok). Defined.

Lemma translate_correct_witness : region_ok (translate sample_a (mkIntSize 3 (-4))).
Proof. apply (translate_correct sample_a (mkIntSize 3 (-4)) sample_a_ok eq_refl); done. Defined.

(** The union of the samples, computed: three bands. *)
Example unite_samples : option_map (fun c => m_segments (m_shape c)) (unite sample_a sample_b)
  = Some [0; 10; 0; 15; 5; 15].
Proof. reflexivity. Qed.

Example subtract_samples : option_map m_bounds (subtract sample_a sample_b) = Some (IntRect.xywh 0 0 10 10).
Proof. reflexivity. Qed.
