(* ===== verification/ASCIICType.v ===== *)
(** * ASCIICType: character classes of the parsers

    Translated from src/Source/WTF/wtf/ASCIICType.h.  A character is a code
    unit; the functions take any character type, so any non-negative [Z]. *)

From S2P Require Import Prelude.

Definition isASCII (character : Z) : bool := Z.land character (Z.lnot 127) =? 0.

Definition isASCIILower (character : Z) : bool := (97 <=? character) && (character <=? 122).

Definition toASCIILowerUnchecked (character : Z) : Z := Z.lor character 32.

Definition isASCIIAlpha (character : Z) : bool := isASCIILower (toASCIILowerUnchecked character).

Definition isASCIIDigit (character : Z) : bool := (48 <=? character) && (character <=? 57).

Definition isASCIIAlphanumeric (character : Z) : bool := isASCIIDigit character || isASCIIAlpha character.

Definition isASCIIHexDigit (character : Z) : bool :=
  isASCIIDigit character ||
  ((97 <=? toASCIILowerUnchecked character) && (toASCIILowerUnchecked character <=? 102)).

Definition isASCIISpace (character : Z) : bool :=
  (character <=? 32) && ((character =? 32) || ((character <=? 13) && (9 <=? character))).

Definition isASCIIUpper (character : Z) : bool := (65 <=? character) && (character <=? 90).

Definition toASCIILower (character : Z) : Z :=
  Z.lor character (Z.shiftl (Z.b2z (isASCIIUpper character)) 5).

Definition toASCIIUpper (character : Z) : Z :=
  Z.land character (Z.lnot (Z.shiftl (Z.b2z (isASCIILower character)) 5)).

Definition toASCIIHexValue (character : Z) : Z :=
  if character <? 65 then character - 48 else Z.land (character - 65 + 10) 15.

Definition isASCIIAlphaCaselessEqual (inputCharacter expectedASCIILowercaseLetter : Z) : bool :=
  toASCIILowerUnchecked inputCharacter =? expectedASCIILowercaseLetter.

(** ** What the bit tricks compute *)

Lemma lor_32 c : Z.lor c 32 = if Z.testbit c 5 then c else c + 32.
Proof.
  assert (Z.land c 32 = if Z.testbit c 5 then 32 else 0) as Hl.
  { change 32 with (2 ^ 5). apply Z.bits_inj'. intros n Hn. rewrite Z.land_spec, Z.pow2_bits_eqb by lia.
    destruct (Z.eqb_spec 5 n) as [<-|Hne].
    - destruct (Z.testbit c 5); cbn [andb]; [by rewrite Z.pow2_bits_true by lia|by rewrite Z.bits_0].
    - rewrite andb_false_r. destruct (Z.testbit c 5); [by rewrite Z.pow2_bits_false by lia|by rewrite Z.bits_0]. }
  pose proof (Z.add_lor_land c 32). rewrite Hl in *. destruct (Z.testbit c 5); lia.
Qed.

Lemma testbit_5 c : Z.testbit c 5 = true <-> 32 <= c mod 64.
Proof.
  rewrite Z.testbit_true by lia. change (2 ^ 5) with 32.
  pose proof (Z.mod_pos_bound (c / 32) 2). pose proof (Z.mod_pos_bound c 32).
  assert (c mod 64 = c mod 32 + 32 * ((c / 32) mod 2)) as -> by (by rewrite <- Z.rem_mul_r by lia).
  lia.
Qed.

(** [c | 0x20] as case distinction: the letters are the characters it maps into
    the lower-case range. *)
Lemma toASCIILowerUnchecked_cases c :
  (32 <= c mod 64 /\ toASCIILowerUnchecked c = c) \/ (c mod 64 < 32 /\ toASCIILowerUnchecked c = c + 32).
Proof.
  unfold toASCIILowerUnchecked. rewrite lor_32. pose proof (testbit_5 c).
  destruct (Z.testbit c 5); [left|right]; split; try done; [tauto|].
  destruct (decide (32 <= c mod 64)); [|lia]. by apply H in l.
Qed.

Lemma isASCIIAlpha_spec c : isASCIIAlpha c = true <-> 65 <= c <= 90 \/ 97 <= c <= 122.
Proof.
  unfold isASCIIAlpha, isASCIILower. rewrite andb_true_iff, !Z.leb_le.
  pose proof (Z.div_mod c 64 ltac:(lia)). pose proof (Z.mod_pos_bound c 64 ltac:(lia)).
  destruct (toASCIILowerUnchecked_cases c) as [[? ->]|[? ->]]; lia.
Qed.

Lemma isASCIIAlpha_lower c : isASCIIAlpha c = true -> 97 <= toASCIILowerUnchecked c <= 122.
Proof. unfold isASCIIAlpha, isASCIILower. rewrite andb_true_iff, !Z.leb_le. lia. Qed.

Lemma toASCIILower_spec c : toASCIILower c = if isASCIIUpper c then c + 32 else c.
Proof.
  unfold toASCIILower. destruct (isASCIIUpper c) eqn:E; cbn [Z.b2z].
  - change (Z.shiftl 1 5) with 32. rewrite lor_32.
    destruct (Z.testbit c 5) eqn:Ht; [|done]. apply testbit_5 in Ht.
    unfold isASCIIUpper in E. zbool. pose proof (Z.div_mod c 64). pose proof (Z.mod_pos_bound c 64).
    assert (1 = c / 64) by (apply (Z.div_unique c 64 1 (c - 64)); lia). lia.
  - by rewrite Z.lor_0_r.
Qed.

Lemma isASCII_spec c : 0 <= c -> isASCII c = (c <? 128).
Proof.
  intros H. unfold isASCII. rewrite <- Z.ldiff_land. change 127 with (Z.ones 7).
  rewrite Z.ldiff_ones_r, Z.shiftl_mul_pow2, Z.shiftr_div_pow2 by lia. change (2 ^ 7) with 128.
  pose proof (Z.div_mod c 128). pose proof (Z.mod_pos_bound c 128).
  destruct (Z.ltb_spec c 128).
  - rewrite Z.div_small by lia. done.
  - apply Z.eqb_neq. pose proof (Z.div_le_lower_bound c 128 1). lia.
Qed.

Lemma isASCIIHexDigit_spec c :
  isASCIIHexDigit c = true <-> 48 <= c <= 57 \/ 65 <= c <= 70 \/ 97 <= c <= 102.
Proof.
  unfold isASCIIHexDigit, isASCIIDigit. rewrite orb_true_iff, !andb_true_iff, !Z.leb_le.
  pose proof (Z.div_mod c 64 ltac:(lia)). pose proof (Z.mod_pos_bound c 64 ltac:(lia)).
  destruct (toASCIILowerUnchecked_cases c) as [[? ->]|[? ->]]; lia.
Qed.

Lemma toASCIIHexValue_spec c :
  isASCIIHexDigit c = true ->
  toASCIIHexValue c = if c <=? 57 then c - 48 else if c <=? 70 then c - 55 else c - 87.
Proof.
  intros E. apply isASCIIHexDigit_spec in E.
  unfold toASCIIHexValue. change 15 with (Z.ones 4). rewrite Z.land_ones by lia. change (2 ^ 4) with 16.
  repeat step_if; zbool; try lia.
  - rewrite Z.mod_small; lia.
  - replace (c - 65 + 10) with (c - 87 + 2 * 16) by lia. rewrite Z.mod_add, Z.mod_small; lia.
Qed.

Lemma toASCIIHexValue_range c : isASCIIHexDigit c = true -> 0 <= toASCIIHexValue c <= 15.
Proof.
  intros H. rewrite toASCIIHexValue_spec by done. apply isASCIIHexDigit_spec in H. repeat step_if; zbool; lia.
Qed.
