(* ===== verification/SegmentedString.v ===== *)
(** * SegmentedString: the parsers' input stream

    Translated from src/Source/WebCore/platform/text/SegmentedString.h and
    SegmentedString.cpp.  A substring keeps how many of its characters were
    consumed and the characters that remain; characters are UTF-16 code units.
    The function pointers and fast-path flags of the class select a body by
    the length of the current substring, its width and whether it counts
    lines; the model selects by the same data.

    [Stream] is the abstract stream the tokenizers read: the characters that
    remain and whether the end of the input was marked.  [InputStream] is the
    interface the tokenizers are written against: the operations they call and
    the laws that say each operation implements the one of [Stream] through
    [view].  [SegmentedString] has an instance of it. *)

From S2P Require Import Prelude ASCIICType.

(** ** The abstract stream *)

Inductive AdvancePastResult := DidNotMatch | DidMatch | NotEnoughCharacters.

(** [characterMismatch] of the source, for both values of its template flag. *)
Definition characterMismatch (lettersIgnoringASCIICase : bool) (a b : Z) : bool :=
  if lettersIgnoringASCIICase then negb (isASCIIAlphaCaselessEqual a b) else negb (a =? b).

Fixpoint prefixMatches (ignoreCase : bool) (literal cs : list Z) : bool :=
  match literal, cs with
  | [], _ => true
  | b :: literal, a :: cs => if characterMismatch ignoreCase a b then false else prefixMatches ignoreCase literal cs
  | _ :: _, [] => false
  end.

Module Stream.

Record t := mk { chars : list Z; isClosed : bool }.

Definition isEmpty (s : t) : bool := match chars s with [] => true | _ => false end.
Definition length (s : t) : Z := Z.of_nat (List.length (chars s)).
Definition currentCharacter (s : t) : Z := hd 0 (chars s).

Definition advance (s : t) : t := mk (tl (chars s)) (isClosed s).
Definition pushBack (str : list Z) (s : t) : t := mk (str ++ chars s) (isClosed s).
Definition append (str : list Z) (s : t) : t := mk (chars s ++ str) (isClosed s).
Definition close (s : t) : t := mk (chars s) true.

(** The number of characters that remain is an [unsigned]. *)
Definition fits (s : t) : Prop := length s < 2 ^ 32.

Definition advancePast (ignoreCase : bool) (literal : list Z) (s : t) : AdvancePastResult * t :=
  if length s <? Z.of_nat (List.length literal) then (NotEnoughCharacters, s)
  else if prefixMatches ignoreCase literal (chars s)
  then (DidMatch, mk (drop (List.length literal) (chars s)) (isClosed s))
  else (DidNotMatch, s).

End Stream.

(** ** The interface of the tokenizers' input *)

Class InputStream (S : Type) := {
  isEmpty : S -> bool;
  sourceLength : S -> Z;
  isClosed : S -> bool;
  currentCharacter : S -> Z;
  numberOfCharactersConsumed : S -> Z;
  advance : S -> S;
  advancePastNonNewline : S -> S;
  advancePastNewline : S -> S;
  pushBack : list Z -> S -> S;
  advancePast : bool -> list Z -> S -> AdvancePastResult * S
}.

Class InputStreamLaws (S : Type) `{InputStream S} := {
  wf : S -> Prop;
  view : S -> Stream.t;
  isEmpty_view s : wf s -> isEmpty s = Stream.isEmpty (view s);
  sourceLength_view s : wf s -> Stream.fits (view s) -> sourceLength s = Stream.length (view s);
  isClosed_view s : wf s -> isClosed s = Stream.isClosed (view s);
  currentCharacter_view s : wf s -> currentCharacter s = Stream.currentCharacter (view s);
  advance_view s : wf s -> wf (advance s) /\ view (advance s) = Stream.advance (view s);
  advancePastNonNewline_view s :
    wf s -> wf (advancePastNonNewline s) /\ view (advancePastNonNewline s) = Stream.advance (view s);
  advancePastNewline_view s :
    wf s -> wf (advancePastNewline s) /\ view (advancePastNewline s) = Stream.advance (view s);
  pushBack_view str s :
    wf s -> str <> [] -> wf (pushBack str s) /\ view (pushBack str s) = Stream.pushBack str (view s);
  advancePast_view ignoreCase literal s :
    wf s -> Stream.fits (view s) ->
    wf (snd (advancePast ignoreCase literal s)) /\
    (fst (advancePast ignoreCase literal s), view (snd (advancePast ignoreCase literal s)))
    = Stream.advancePast ignoreCase literal (view s)
}.

(** [reads s cs closed]: [s] is well formed, [cs] is left to read and [closed]
    says whether the end of the input was marked. *)
Definition reads {S} `{InputStreamLaws S} (s : S) (cs : list Z) (closed : bool) : Prop :=
  wf s /\ view s = Stream.mk cs closed.

Section Reads.

Context {S : Type} `{InputStreamLaws S}.
Implicit Types (s : S) (cs : list Z) (b : bool).

Lemma reads_isEmpty s cs b : reads s cs b -> isEmpty s = match cs with [] => true | _ => false end.
Proof. intros [Hw Hv]. by rewrite isEmpty_view, Hv. Qed.

Lemma reads_isClosed s cs b : reads s cs b -> isClosed s = b.
Proof. intros [Hw Hv]. by rewrite isClosed_view, Hv. Qed.

Lemma reads_currentCharacter s c cs b : reads s (c :: cs) b -> currentCharacter s = c.
Proof. intros [Hw Hv]. by rewrite currentCharacter_view, Hv. Qed.

Lemma reads_length s cs b :
  reads s cs b -> Z.of_nat (length cs) < 2 ^ 32 -> sourceLength s = Z.of_nat (length cs).
Proof. intros [Hw Hv] ?. rewrite sourceLength_view; rewrite ?Hv; done. Qed.

Lemma reads_advance s c cs b : reads s (c :: cs) b -> reads (advance s) cs b.
Proof. intros [Hw Hv]. destruct (advance_view s Hw) as [? E]. split; [done|]. by rewrite E, Hv. Qed.

Lemma reads_advancePastNonNewline s c cs b : reads s (c :: cs) b -> reads (advancePastNonNewline s) cs b.
Proof. intros [Hw Hv]. destruct (advancePastNonNewline_view s Hw) as [? E]. split; [done|]. by rewrite E, Hv. Qed.

Lemma reads_advancePastNewline s c cs b : reads s (c :: cs) b -> reads (advancePastNewline s) cs b.
Proof. intros [Hw Hv]. destruct (advancePastNewline_view s Hw) as [? E]. split; [done|]. by rewrite E, Hv. Qed.

Lemma reads_pushBack s str cs b : reads s cs b -> str <> [] -> reads (pushBack str s) (str ++ cs) b.
Proof. intros [Hw Hv] ?. destruct (pushBack_view str s Hw) as [? E]; [done|]. split; [done|]. by rewrite E, Hv. Qed.

Lemma reads_advancePast s ignoreCase literal cs b :
  reads s cs b -> Z.of_nat (length cs) < 2 ^ 32 ->
  exists s', advancePast ignoreCase literal s
    = (if Z.of_nat (length cs) <? Z.of_nat (length literal) then NotEnoughCharacters
       else if prefixMatches ignoreCase literal cs then DidMatch else DidNotMatch, s') /\
    reads s' (if (Z.of_nat (length literal) <=? Z.of_nat (length cs)) && prefixMatches ignoreCase literal cs
              then drop (length literal) cs else cs) b.
Proof.
  intros [Hw Hv] Hf.
  destruct (advancePast_view ignoreCase literal s Hw) as [Hw' E]; [by rewrite Hv|].
  destruct (advancePast ignoreCase literal s) as [r s']. cbn [fst snd] in *. exists s'. rewrite Hv in E.
  unfold Stream.advancePast, Stream.length in E. cbn [Stream.chars Stream.isClosed] in E.
  rewrite Z.leb_antisym. destruct (_ <? _); cbn [negb andb].
  - injection E as -> E. by split.
  - destruct (prefixMatches ignoreCase literal cs); injection E as -> E; by split.
Qed.

End Reads.

(** ** The segmented string *)

Module SegmentedString.

Record Substring := mkSubstring {
  consumed : Z;
  rest : list Z;
  is8Bit : bool;
  doNotExcludeLineNumbers : bool
}.

Record t := mk {
  m_currentSubstring : Substring;
  m_otherSubstrings : list Substring;
  m_isClosed : bool;
  m_currentCharacter : Z;
  m_numberOfCharactersConsumedPriorToCurrentSubstring : Z;
  m_numberOfCharactersConsumedPriorToCurrentLine : Z;
  m_currentLine : Z
}.

(** A substring built from a string: a width and its characters. *)
Definition Substring_of (is8 : bool) (str : list Z) : Substring := mkSubstring 0 str is8 true.

Definition Substring_currentCharacter (sub : Substring) : Z := hd 0 (rest sub).

Definition SegmentedString_of (is8 : bool) (str : list Z) : t :=
  let sub := Substring_of is8 str in
  mk sub [] false (match str with [] => 0 | _ => Substring_currentCharacter sub end) 0 0 0.

Definition isEmpty (s : t) : bool := match rest (m_currentSubstring s) with [] => true | _ => false end.

Definition length (s : t) : Z :=
  foldl (fun length sub => u32 (length + Z.of_nat (List.length (rest sub))))
    (u32 (Z.of_nat (List.length (rest (m_currentSubstring s))))) (m_otherSubstrings s).

Definition numberOfCharactersConsumed (s : t) : Z :=
  u32 (m_numberOfCharactersConsumedPriorToCurrentSubstring s + consumed (m_currentSubstring s)).

Definition currentCharacter (s : t) : Z := m_currentCharacter s.

Definition toString (s : t) : list Z :=
  rest (m_currentSubstring s) ++ concat (map rest (m_otherSubstrings s)).

Definition currentColumn (s : t) : Z :=
  i32 (u32 (numberOfCharactersConsumed s - m_numberOfCharactersConsumedPriorToCurrentLine s)).

Definition setCurrentPosition (line columnAfterProlog prologLength : Z) (s : t) : t :=
  mk (m_currentSubstring s) (m_otherSubstrings s) (m_isClosed s) (m_currentCharacter s)
    (m_numberOfCharactersConsumedPriorToCurrentSubstring s)
    (u32 (numberOfCharactersConsumed s + prologLength - columnAfterProlog)) line.

Definition setExcludeLineNumbers (s : t) : t :=
  let exclude sub := mkSubstring (consumed sub) (rest sub) (is8Bit sub) false in
  if negb (doNotExcludeLineNumbers (m_currentSubstring s)) then s
  else mk (exclude (m_currentSubstring s)) (map exclude (m_otherSubstrings s)) (m_isClosed s)
         (m_currentCharacter s) (m_numberOfCharactersConsumedPriorToCurrentSubstring s)
         (m_numberOfCharactersConsumedPriorToCurrentLine s) (m_currentLine s).

Definition clear (s : t) : t :=
  let sub := m_currentSubstring s in
  mk (mkSubstring (consumed sub + Z.of_nat (List.length (rest sub))) [] (is8Bit sub) (doNotExcludeLineNumbers sub))
    [] false 0 0 0 0.

Definition close (s : t) : t :=
  mk (m_currentSubstring s) (m_otherSubstrings s) true (m_currentCharacter s)
    (m_numberOfCharactersConsumedPriorToCurrentSubstring s)
    (m_numberOfCharactersConsumedPriorToCurrentLine s) (m_currentLine s).

Definition appendSubstring (s : t) (sub : Substring) : t :=
  match rest sub with
  | [] => s
  | c :: _ =>
      match rest (m_currentSubstring s) with
      | _ :: _ =>
          mk (m_currentSubstring s) (m_otherSubstrings s ++ [sub]) (m_isClosed s) (m_currentCharacter s)
            (m_numberOfCharactersConsumedPriorToCurrentSubstring s)
            (m_numberOfCharactersConsumedPriorToCurrentLine s) (m_currentLine s)
      | [] =>
          mk sub (m_otherSubstrings s) (m_isClosed s) c
            (u32 (m_numberOfCharactersConsumedPriorToCurrentSubstring s + consumed (m_currentSubstring s)))
            (m_numberOfCharactersConsumedPriorToCurrentLine s) (m_currentLine s)
      end
  end.

Definition append (s : t) (is8 : bool) (str : list Z) : t := appendSubstring s (Substring_of is8 str).

(** [append] of another segmented string. *)
Definition appendSegmentedString (s other : t) : t :=
  let s := appendSubstring s (m_currentSubstring other) in
  mk (m_currentSubstring s) (m_otherSubstrings s ++ m_otherSubstrings other) (m_isClosed s) (m_currentCharacter s)
    (m_numberOfCharactersConsumedPriorToCurrentSubstring s)
    (m_numberOfCharactersConsumedPriorToCurrentLine s) (m_currentLine s).

Definition pushBack (s : t) (is8 : bool) (str : list Z) : t :=
  let prior := u32 (m_numberOfCharactersConsumedPriorToCurrentSubstring s + consumed (m_currentSubstring s)) in
  let others := match rest (m_currentSubstring s) with
                | [] => m_otherSubstrings s
                | _ => m_currentSubstring s :: m_otherSubstrings s
                end in
  let sub := Substring_of is8 str in
  mk sub others (m_isClosed s) (Substring_currentCharacter sub)
    (u32 (prior - Z.of_nat (List.length str)))
    (m_numberOfCharactersConsumedPriorToCurrentLine s) (m_currentLine s).

Definition startNewLine (s : t) : t :=
  mk (m_currentSubstring s) (m_otherSubstrings s) (m_isClosed s) (m_currentCharacter s)
    (m_numberOfCharactersConsumedPriorToCurrentSubstring s) (numberOfCharactersConsumed s)
    (i32 (m_currentLine s + 1)).

Definition processPossibleNewline (s : t) : t :=
  if m_currentCharacter s =? 10 then startNewLine s else s.

(** Moving the current substring one character on, when it has at least two. *)
Definition stepSubstring (s : t) : t :=
  match rest (m_currentSubstring s) with
  | _ :: ((c :: _) as cs) =>
      let sub := m_currentSubstring s in
      mk (mkSubstring (consumed sub + 1) cs (is8Bit sub) (doNotExcludeLineNumbers sub))
        (m_otherSubstrings s) (m_isClosed s) c
        (m_numberOfCharactersConsumedPriorToCurrentSubstring s)
        (m_numberOfCharactersConsumedPriorToCurrentLine s) (m_currentLine s)
  | _ => s
  end.

(** The last character of the current substring was read: the next substring,
    if there is one, becomes current. *)
Definition advancePastSingleCharacterSubstringWithoutUpdatingLineNumber (s : t) : t :=
  match m_otherSubstrings s with
  | [] =>
      let sub := m_currentSubstring s in
      mk (mkSubstring (consumed sub + 1) [] (is8Bit sub) (doNotExcludeLineNumbers sub)) [] (m_isClosed s) 0
        (m_numberOfCharactersConsumedPriorToCurrentSubstring s)
        (m_numberOfCharactersConsumedPriorToCurrentLine s) (m_currentLine s)
  | sub :: others =>
      mk sub others (m_isClosed s) (Substring_currentCharacter sub)
        (u32 (u32 (m_numberOfCharactersConsumedPriorToCurrentSubstring s + consumed (m_currentSubstring s))
              - consumed sub))
        (m_numberOfCharactersConsumedPriorToCurrentLine s) (m_currentLine s)
  end.

Definition advancePastSingleCharacterSubstring (s : t) : t :=
  advancePastSingleCharacterSubstringWithoutUpdatingLineNumber (processPossibleNewline s).

Definition advanceWithoutUpdatingLineNumber (s : t) : t :=
  match rest (m_currentSubstring s) with
  | [] => s
  | [_] => advancePastSingleCharacterSubstringWithoutUpdatingLineNumber s
  | _ => stepSubstring s
  end.

Definition advanceAndUpdateLineNumber16 (s : t) : t := stepSubstring (processPossibleNewline s).

(** [advance]: the 8-bit fast path steps first and starts the new line
    afterwards; the 16-bit function starts the new line first. *)
Definition advance (s : t) : t :=
  let sub := m_currentSubstring s in
  match rest sub with
  | [] => s
  | [_] =>
      if doNotExcludeLineNumbers sub then advancePastSingleCharacterSubstring s
      else advancePastSingleCharacterSubstringWithoutUpdatingLineNumber s
  | _ =>
      if is8Bit sub then
        let lastCharacterWasNewline := m_currentCharacter s =? 10 in
        let s := stepSubstring s in
        if lastCharacterWasNewline && doNotExcludeLineNumbers sub then startNewLine s else s
      else if doNotExcludeLineNumbers sub then advanceAndUpdateLineNumber16 s
      else stepSubstring s
  end.

Definition advancePastNonNewline (s : t) : t := advanceWithoutUpdatingLineNumber s.

Definition advancePastNewline (s : t) : t :=
  let sub := m_currentSubstring s in
  match rest sub with
  | _ :: _ :: _ =>
      let s := if doNotExcludeLineNumbers sub then startNewLine s else s in
      stepSubstring s
  | [] => s
  | [_] =>
      if doNotExcludeLineNumbers sub then advancePastSingleCharacterSubstring s
      else advancePastSingleCharacterSubstringWithoutUpdatingLineNumber s
  end.

(** The loop of [advancePastSlowCase]: [done] are the characters consumed. *)
Fixpoint advancePastLoop (ignoreCase : bool) (literal done : list Z) (s : t) : AdvancePastResult * t :=
  match literal with
  | [] => (DidMatch, s)
  | b :: literal =>
      let character := m_currentCharacter s in
      if characterMismatch ignoreCase character b
      then (DidNotMatch, match done with [] => s | _ => pushBack s false done end)
      else advancePastLoop ignoreCase literal (done ++ [character]) (advancePastNonNewline s)
  end.

Definition advancePastSlowCase (ignoreCase : bool) (literal : list Z) (s : t) : AdvancePastResult * t :=
  if length s <? Z.of_nat (List.length literal) then (NotEnoughCharacters, s)
  else advancePastLoop ignoreCase literal [] s.

Definition advancePast (ignoreCase : bool) (literal : list Z) (s : t) : AdvancePastResult * t :=
  let sub := m_currentSubstring s in
  if (List.length literal + 1 <? List.length (rest sub))%nat then
    if prefixMatches ignoreCase literal (rest sub) then
      let cs := drop (List.length literal) (rest sub) in
      (DidMatch,
        mk (mkSubstring (consumed sub + Z.of_nat (List.length literal)) cs (is8Bit sub) (doNotExcludeLineNumbers sub))
          (m_otherSubstrings s) (m_isClosed s) (hd 0 cs)
          (m_numberOfCharactersConsumedPriorToCurrentSubstring s)
          (m_numberOfCharactersConsumedPriorToCurrentLine s) (m_currentLine s))
    else (DidNotMatch, s)
  else advancePastSlowCase ignoreCase literal s.


(** ** Refinement of the abstract stream *)

(** The representation invariant: substrings after the current one hold
    characters, there are none when the current one is exhausted, and the
    cached character is the first of the current substring. *)
Definition Wf (s : t) : Prop :=
  m_currentCharacter s = hd 0 (rest (m_currentSubstring s)) /\
  Forall (fun sub => rest sub <> []) (m_otherSubstrings s) /\
  (rest (m_currentSubstring s) = [] -> m_otherSubstrings s = []).

Definition toStream (s : t) : Stream.t := Stream.mk (toString s) (m_isClosed s).

Lemma toStream_isEmpty s : Wf s -> isEmpty s = Stream.isEmpty (toStream s).
Proof.
  intros (_ & _ & H). unfold isEmpty, Stream.isEmpty, toStream, toString. cbn.
  destruct (rest (m_currentSubstring s)) eqn:E; [|done]. by rewrite (H eq_refl).
Qed.

Lemma length_fold (subs : list Substring) n :
  u32 (foldl (fun length sub => u32 (length + Z.of_nat (List.length (rest sub)))) n subs)
  = u32 (n + Z.of_nat (List.length (concat (map rest subs)))).
Proof.
  revert n. induction subs as [|sub subs IH]; intros n; cbn [foldl map concat].
  - f_equal. cbn. lia.
  - rewrite IH, length_app. unfold u32. rewrite Zplus_mod_idemp_l. f_equal. lia.
Qed.

Lemma foldl_range (subs : list Substring) n :
  0 <= n < 2 ^ 32 ->
  0 <= foldl (fun length sub => u32 (length + Z.of_nat (List.length (rest sub)))) n subs < 2 ^ 32.
Proof. revert n. induction subs; intros n ?; cbn; [done|]. apply IHsubs, u32_range. Qed.

Lemma toStream_length s : Stream.fits (toStream s) -> length s = Stream.length (toStream s).
Proof.
  unfold Stream.fits, length, Stream.length, toStream, toString. cbn. intros Hf.
  rewrite <- (u32_id (foldl _ _ _)) by (apply foldl_range, u32_range).
  rewrite length_fold. unfold u32. rewrite Zplus_mod_idemp_l, length_app in *.
  rewrite Z.mod_small; lia.
Qed.

Lemma toStream_currentCharacter s : Wf s -> currentCharacter s = Stream.currentCharacter (toStream s).
Proof.
  intros (H1 & _ & H). unfold currentCharacter, Stream.currentCharacter, toStream, toString. cbn.
  rewrite H1. destruct (rest (m_currentSubstring s)) eqn:E; [|done]. by rewrite (H eq_refl).
Qed.

(** What the line bookkeeping does not touch. *)
Lemma startNewLine_Wf s : Wf s -> Wf (startNewLine s).
Proof. done. Qed.

Lemma processPossibleNewline_Wf s :
  Wf s -> Wf (processPossibleNewline s) /\ toStream (processPossibleNewline s) = toStream s
  /\ rest (m_currentSubstring (processPossibleNewline s)) = rest (m_currentSubstring s).
Proof. unfold processPossibleNewline. by step_if. Qed.

Lemma stepSubstring_view s a c cs :
  Wf s -> rest (m_currentSubstring s) = a :: c :: cs ->
  Wf (stepSubstring s) /\ toStream (stepSubstring s) = Stream.advance (toStream s).
Proof.
  intros (H1 & H2 & H3) E. unfold stepSubstring, Wf, toStream, toString, Stream.advance. rewrite !E.
  cbn. by split_and!.
Qed.

Lemma singleCharacter_view s a :
  Wf s -> rest (m_currentSubstring s) = [a] ->
  Wf (advancePastSingleCharacterSubstringWithoutUpdatingLineNumber s) /\
  toStream (advancePastSingleCharacterSubstringWithoutUpdatingLineNumber s) = Stream.advance (toStream s).
Proof.
  intros (H1 & H2 & H3) E.
  unfold advancePastSingleCharacterSubstringWithoutUpdatingLineNumber, Wf, toStream, toString, Stream.advance.
  destruct (m_otherSubstrings s) as [|sub others]; rewrite ?E; cbn; [done|].
  apply Forall_cons in H2 as [H2 H2']. by split_and!.
Qed.

Lemma singleCharacterLines_view s a :
  Wf s -> rest (m_currentSubstring s) = [a] ->
  Wf (advancePastSingleCharacterSubstring s) /\
  toStream (advancePastSingleCharacterSubstring s) = Stream.advance (toStream s).
Proof.
  intros H E. destruct (processPossibleNewline_Wf s H) as (H1 & <- & H3).
  apply singleCharacter_view with a; [done | congruence].
Qed.

Lemma advanceEmpty_view s :
  Wf s -> rest (m_currentSubstring s) = [] -> Wf s /\ toStream s = Stream.advance (toStream s).
Proof.
  intros H E. split; [done|]. destruct H as (_ & _ & H).
  unfold toStream, toString, Stream.advance. by rewrite E, (H E).
Qed.

Lemma advanceWithoutUpdatingLineNumber_view s :
  Wf s -> Wf (advanceWithoutUpdatingLineNumber s) /\
  toStream (advanceWithoutUpdatingLineNumber s) = Stream.advance (toStream s).
Proof.
  intros H. unfold advanceWithoutUpdatingLineNumber.
  destruct (rest (m_currentSubstring s)) as [|a [|c cs]] eqn:E;
    eauto using advanceEmpty_view, singleCharacter_view, stepSubstring_view.
Qed.

Lemma advance_refines s :
  Wf s -> Wf (advance s) /\ toStream (advance s) = Stream.advance (toStream s).
Proof.
  intros H. unfold advance, advanceAndUpdateLineNumber16.
  destruct (rest (m_currentSubstring s)) as [|a [|c cs]] eqn:E; [by apply advanceEmpty_view| |].
  - step_if; eauto using singleCharacter_view, singleCharacterLines_view.
  - destruct (processPossibleNewline_Wf s H) as (Hp & Hv & Hr). rewrite E in Hr.
    destruct (stepSubstring_view _ _ _ _ Hp Hr) as [? HH]. rewrite Hv in HH.
    destruct (stepSubstring_view _ _ _ _ H E).
    repeat step_if; done.
Qed.

Lemma advancePastNewline_refines s :
  Wf s -> Wf (advancePastNewline s) /\ toStream (advancePastNewline s) = Stream.advance (toStream s).
Proof.
  intros H. unfold advancePastNewline.
  destruct (rest (m_currentSubstring s)) as [|a [|c cs]] eqn:E; [by apply advanceEmpty_view| |].
  - step_if; eauto using singleCharacter_view, singleCharacterLines_view.
  - step_if; [|by eapply stepSubstring_view].
    change (toStream s) with (toStream (startNewLine s)). by eapply stepSubstring_view.
Qed.

Lemma pushBack_refines is8 str s :
  Wf s -> str <> [] -> Wf (pushBack s is8 str) /\ toStream (pushBack s is8 str) = Stream.pushBack str (toStream s).
Proof.
  intros (H1 & H2 & H3) Hs. unfold pushBack, Wf, toStream, toString, Stream.pushBack. cbn.
  destruct (rest (m_currentSubstring s)) eqn:E; cbn.
  - by rewrite (H3 eq_refl).
  - rewrite E. split_and!; try done. constructor; [by rewrite E | done].
Qed.

Lemma append_refines is8 str s :
  Wf s -> Wf (append s is8 str) /\ toStream (append s is8 str) = Stream.append str (toStream s).
Proof.
  intros (H1 & H2 & H3). unfold append, appendSubstring, Stream.append, toStream, toString. cbn.
  destruct str as [|c str]; cbn; [by rewrite app_nil_r|].
  destruct (rest (m_currentSubstring s)) eqn:E; cbn.
  - unfold Wf. cbn. by rewrite (H3 eq_refl), app_nil_r.
  - unfold Wf. cbn. rewrite E, map_app, concat_app. cbn. rewrite app_nil_r, app_assoc.
    split_and!; try done. apply Forall_app. by split; [|repeat constructor].
Qed.

Lemma advancePastLoop_view ignoreCase literal done s cs :
  Wf s -> Stream.chars (toStream s) = cs -> (List.length literal <= List.length cs)%nat ->
  let r := advancePastLoop ignoreCase literal done s in
  Wf (snd r) /\
  (fst r, toStream (snd r)) =
    if prefixMatches ignoreCase literal cs
    then (DidMatch, Stream.mk (drop (List.length literal) cs) (m_isClosed s))
    else (DidNotMatch, Stream.mk (done ++ cs) (m_isClosed s)).
Proof.
  revert done s cs. induction literal as [|b literal IH]; intros done s cs H E Hl; cbn in Hl; cbn [advancePastLoop].
  { split; [done|]. cbn. rewrite drop_0. unfold toStream in E |- *. cbn in E. by rewrite E. }
  destruct cs as [|a cs]; cbn in Hl; [lia|].
  pose proof (toStream_currentCharacter s H) as Hc. unfold currentCharacter, Stream.currentCharacter in Hc.
  rewrite E in Hc. cbn in Hc. cbn zeta. rewrite Hc. cbn [prefixMatches].
  destruct (characterMismatch ignoreCase a b).
  - assert (Hs : toStream s = Stream.mk (a :: cs) (m_isClosed s)) by (by unfold toStream in *; cbn in E; rewrite E).
    destruct done as [|d done]; [by cbn [fst snd app]; rewrite Hs|].
    destruct (pushBack_refines false (d :: done) s H) as [? Hpb]; [done|].
    cbn [fst snd]. split; [done|]. by rewrite Hpb, Hs.
  - destruct (advanceWithoutUpdatingLineNumber_view s H) as [Hw Hv].
    assert (Hcl : m_isClosed (advancePastNonNewline s) = m_isClosed s) by exact (f_equal Stream.isClosed Hv).
    specialize (IH (done ++ [a]) (advancePastNonNewline s) cs Hw).
    rewrite Hcl, <- app_assoc in IH. apply IH; [|lia].
    unfold advancePastNonNewline. rewrite Hv. cbn. unfold toStream in E. cbn in E. by rewrite E.
Qed.

Lemma prefixMatches_app ignoreCase literal cs cs' :
  (List.length literal <= List.length cs)%nat ->
  prefixMatches ignoreCase literal (cs ++ cs') = prefixMatches ignoreCase literal cs.
Proof.
  revert cs. induction literal as [|b literal IH]; intros [|c cs] H; cbn in *; try done; try lia.
  by rewrite IH by lia.
Qed.

Lemma advancePast_refines ignoreCase literal s :
  Wf s -> Stream.fits (toStream s) ->
  Wf (snd (advancePast ignoreCase literal s)) /\
  (fst (advancePast ignoreCase literal s), toStream (snd (advancePast ignoreCase literal s)))
  = Stream.advancePast ignoreCase literal (toStream s).
Proof.
  intros H Hf. unfold advancePast, advancePastSlowCase, Stream.advancePast. rewrite (toStream_length s Hf).
  set (cs := Stream.chars (toStream s)).
  destruct (_ + 1 <? _)%nat eqn:Hfast.
  - apply Nat.ltb_lt in Hfast. destruct H as (H1 & H2 & H3).
    unfold Stream.length. subst cs. unfold toStream, toString. cbn. rewrite length_app.
    rewrite (proj2 (Z.ltb_ge _ _)) by lia. rewrite prefixMatches_app by lia.
    step_if; cbn; [|done]. rewrite drop_app_le by lia. split; [|done].
    split_and!; try done. cbn. intros E%(f_equal List.length). rewrite length_drop in E. cbn in E. lia.
  - destruct (Stream.length (toStream s) <? _) eqn:Hlen; [done|].
    apply Z.ltb_ge in Hlen. unfold Stream.length in Hlen.
    pose proof (advancePastLoop_view ignoreCase literal [] s cs H eq_refl ltac:(subst cs; lia)) as [Hw Hv].
    split; [done|]. rewrite Hv. by step_if.
Qed.

Lemma SegmentedString_of_view is8 str :
  Wf (SegmentedString_of is8 str) /\ toStream (SegmentedString_of is8 str) = Stream.mk str false.
Proof. unfold Wf, toStream, toString. destruct str; cbn; by rewrite ?app_nil_r. Qed.

Lemma appendSegmentedString_refines other s :
  Wf s -> Wf other ->
  Wf (appendSegmentedString s other) /\
  toStream (appendSegmentedString s other) = Stream.append (toString other) (toStream s).
Proof.
  intros (H1 & H2 & H3) (O1 & O2 & O3).
  unfold appendSegmentedString, appendSubstring, Stream.append, toStream, toString, Wf. cbn.
  destruct (rest (m_currentSubstring other)) as [|c str] eqn:Eo; cbn.
  - rewrite (O3 eq_refl), !app_nil_r. done.
  - destruct (rest (m_currentSubstring s)) as [|c' cs] eqn:E; cbn; rewrite ?E, ?Eo.
    + rewrite (H3 eq_refl). cbn. by split_and!.
    + rewrite !map_app, !concat_app. cbn. rewrite Eo, app_nil_r, <- !app_assoc. cbn.
      repeat split; try done. apply Forall_app; split; [done|]. constructor; [by rewrite Eo | done].
Qed.

(** Sequences of operations, on the segmented string and on the stream. *)
Inductive op :=
  | OpAdvance | OpAdvancePastNonNewline | OpAdvancePastNewline
  | OpPushBack (is8 : bool) (str : list Z)
  | OpAppend (is8 : bool) (str : list Z)
  | OpAppendSegmentedString (other : t)
  | OpAdvancePast (ignoreCase : bool) (literal : list Z)
  | OpSetExcludeLineNumbers
  | OpClose.

Definition do_op (o : op) (s : t) : t :=
  match o with
  | OpAdvance => advance s
  | OpAdvancePastNonNewline => advancePastNonNewline s
  | OpAdvancePastNewline => advancePastNewline s
  | OpPushBack is8 str => pushBack s is8 str
  | OpAppend is8 str => append s is8 str
  | OpAppendSegmentedString other => appendSegmentedString s other
  | OpAdvancePast ignoreCase literal => snd (advancePast ignoreCase literal s)
  | OpSetExcludeLineNumbers => setExcludeLineNumbers s
  | OpClose => close s
  end.

Definition do_op_stream (o : op) (s : Stream.t) : Stream.t :=
  match o with
  | OpAdvance | OpAdvancePastNonNewline | OpAdvancePastNewline => Stream.advance s
  | OpPushBack _ str => Stream.pushBack str s
  | OpAppend _ str => Stream.append str s
  | OpAppendSegmentedString other => Stream.append (toString other) s
  | OpAdvancePast ignoreCase literal => snd (Stream.advancePast ignoreCase literal s)
  | OpSetExcludeLineNumbers => s
  | OpClose => Stream.close s
  end.

(** What the class asserts of its callers: a string pushed back is not empty,
    an appended segmented string is well formed. *)
Definition op_ok (o : op) : Prop :=
  match o with
  | OpPushBack _ str => str <> []
  | OpAppendSegmentedString other => Wf other
  | _ => True
  end.

(** How many characters an operation can add. *)
Definition op_grows (o : op) : Z :=
  match o with
  | OpPushBack _ str | OpAppend _ str => Z.of_nat (List.length str)
  | OpAppendSegmentedString other => Z.of_nat (List.length (toString other))
  | _ => 0
  end.

Lemma op_grows_nonneg o : 0 <= op_grows o.
Proof. destruct o; cbn; lia. Qed.

Lemma do_op_refines o s :
  Wf s -> op_ok o -> Stream.fits (toStream s) ->
  Wf (do_op o s) /\ toStream (do_op o s) = do_op_stream o (toStream s).
Proof.
  intros H Ho Hf. destruct o; cbn in Ho |- *.
  - by apply advance_refines.
  - by apply advanceWithoutUpdatingLineNumber_view.
  - by apply advancePastNewline_refines.
  - by apply pushBack_refines.
  - by apply append_refines.
  - by apply appendSegmentedString_refines.
  - destruct (advancePast_refines ignoreCase literal s H Hf) as [Hw Hv].
    split; [done|]. by rewrite <- Hv.
  - unfold setExcludeLineNumbers. step_if; [done|]. unfold Wf, toStream, toString. cbn.
    rewrite map_map. cbn. destruct H as (H1 & H2 & H3). split_and!; try done.
    + by apply Forall_map.
    + intros E. by rewrite (H3 E).
  - done.
Qed.

Lemma do_op_stream_length o s :
  0 <= Stream.length s /\ Stream.length (do_op_stream o s) <= Stream.length s + op_grows o.
Proof.
  unfold Stream.length. split; [lia|].
  destruct o; cbn; rewrite ?length_app; try (destruct (Stream.chars s); cbn; lia).
  unfold Stream.advancePast. repeat step_if; cbn; rewrite ?length_drop; lia.
Qed.

End SegmentedString.

(** The interface, implemented.  The tokenizers push back strings taken from a
    [StringBuilder] or an ASCII literal, which are 8-bit when every character
    is. *)
#[global] Instance SegmentedString_InputStream : InputStream SegmentedString.t := {
  isEmpty := SegmentedString.isEmpty;
  sourceLength := SegmentedString.length;
  isClosed := SegmentedString.m_isClosed;
  currentCharacter := SegmentedString.currentCharacter;
  numberOfCharactersConsumed := SegmentedString.numberOfCharactersConsumed;
  advance := SegmentedString.advance;
  advancePastNonNewline := SegmentedString.advancePastNonNewline;
  advancePastNewline := SegmentedString.advancePastNewline;
  pushBack str s := SegmentedString.pushBack s (forallb (fun c => c <=? 255) str) str;
  advancePast := SegmentedString.advancePast
}.

#[global] Instance SegmentedString_laws : InputStreamLaws SegmentedString.t.
Proof.
  refine {| wf := SegmentedString.Wf; view := SegmentedString.toStream |}; intros;
    [ by apply SegmentedString.toStream_isEmpty
    | by apply SegmentedString.toStream_length
    | done
    | by apply SegmentedString.toStream_currentCharacter
    | by apply SegmentedString.advance_refines
    | by apply SegmentedString.advanceWithoutUpdatingLineNumber_view
    | by apply SegmentedString.advancePastNewline_refines
    | by apply SegmentedString.pushBack_refines
    | by apply SegmentedString.advancePast_refines ].
Defined.



(** The count of consumed characters moves by one with each advance inside
    a substring and at the end of the input, and does not move when an advance
    leaves the last character of a substring for the next substring: the count
    is short by one for every substring boundary crossed. *)
Theorem advance_numberOfCharactersConsumed (s : SegmentedString.t) (c : Z) (cs : list Z) :
  SegmentedString.rest (SegmentedString.m_currentSubstring s) = c :: cs ->
  SegmentedString.numberOfCharactersConsumed (SegmentedString.advance s)
  = if bool_decide (cs = [] /\ SegmentedString.m_otherSubstrings s <> [])
    then SegmentedString.numberOfCharactersConsumed s
    else u32 (SegmentedString.numberOfCharactersConsumed s + 1).
Proof.
  intros E. unfold SegmentedString.advance. rewrite E. destruct cs as [|c' cs].
  - unfold SegmentedString.advancePastSingleCharacterSubstring, SegmentedString.processPossibleNewline.
    unfold SegmentedString.advancePastSingleCharacterSubstringWithoutUpdatingLineNumber.
    destruct (SegmentedString.m_otherSubstrings s) as [|sub others] eqn:Eo.
    + rewrite bool_decide_eq_false_2 by naive_solver.
      unfold SegmentedString.numberOfCharactersConsumed, u32.
      repeat step_if; cbn; rewrite ?Eo; cbn; rewrite Zplus_mod_idemp_l; f_equal; lia.
    + rewrite bool_decide_eq_true_2 by naive_solver.
      unfold SegmentedString.numberOfCharactersConsumed, u32.
      repeat step_if; cbn; rewrite ?Eo; cbn; rewrite Zplus_mod_idemp_l, Z.sub_add, Zmod_mod; reflexivity.
  - rewrite bool_decide_eq_false_2 by naive_solver.
    unfold SegmentedString.advanceAndUpdateLineNumber16, SegmentedString.processPossibleNewline.
    unfold SegmentedString.stepSubstring, SegmentedString.numberOfCharactersConsumed, u32.
    repeat step_if; cbn; rewrite ?E; cbn; rewrite Zplus_mod_idemp_l; f_equal; lia.
Qed.

Lemma advance_numberOfCharactersConsumed_witness :
  let s := SegmentedString.append (SegmentedString.SegmentedString_of true [97]) true [98] in
  SegmentedString.numberOfCharactersConsumed (SegmentedString.advance s) = 0.
Proof.
  intros s. refine (eq_trans (advance_numberOfCharactersConsumed s 97 [] _) _); vm_compute; reflexivity.
Defined.
