(* ===== verification/HTMLEntitySearch.v ===== *)
(** * HTMLEntitySearch: incremental search of the entity table

    Translated from src/Source/WebCore/html/parser/HTMLEntitySearch.cpp and .h
    and HTMLEntityTable.h.  The table itself is generated at build time from
    HTMLEntityNames.in by the script create-html-entity-table; it is a
    parameter of the model, with the properties the script gives it as
    hypotheses ([TableOk]).  A pointer into the table is an index; [None] as a
    result of an operation is a failed assertion or an access out of range. *)

From Stdlib Require Import Sorting.Sorted.
From S2P Require Import Prelude ASCIICType.

(** ** The table *)

Record HTMLEntityTableEntry := mkEntry {
  entity : list Z;
  length : Z;
  firstValue : Z;
  secondValue : Z
}.

Definition lastCharacter (e : HTMLEntityTableEntry) : Z := nth (Z.to_nat (length e - 1)) (entity e) 0.

Record HTMLEntityTable := mkTable {
  staticEntityTable : list HTMLEntityTableEntry;
  firstEntryStartingWith : Z -> option nat;
  lastEntryStartingWith : Z -> option nat
}.

(** What the generator gives the table: entries sorted by name with no name
    twice, names that are their recorded length, made of letters and digits
    with at most a final semicolon, code points that are not zero, and the
    first and last entries for each first letter, of which there are some. *)
Fixpoint lexlt (a b : list Z) : Prop :=
  match a, b with
  | [], _ :: _ => True
  | x :: a, y :: b => x < y \/ (x = y /\ lexlt a b)
  | _, [] => False
  end.

Definition isEntityNameCharacter (c : Z) : bool :=
  ((48 <=? c) && (c <=? 57)) || ((65 <=? c) && (c <=? 90)) || ((97 <=? c) && (c <=? 122)).

Record EntryOk (e : HTMLEntityTableEntry) : Prop := {
  entry_length : length e = Z.of_nat (List.length (entity e));
  entry_nonempty : entity e <> [];
  entry_characters : exists body, Forall (fun c => isEntityNameCharacter c = true) body /\
    (entity e = body \/ entity e = body ++ [59]);
  entry_firstValue : 0 < firstValue e <= 1114111;
  entry_secondValue : 0 <= secondValue e <= 1114111
}.

Record TableOk (table : HTMLEntityTable) : Prop := {
  table_entries : Forall EntryOk (staticEntityTable table);
  table_sorted : forall i j ei ej,
    staticEntityTable table !! i = Some ei -> staticEntityTable table !! j = Some ej ->
    (i < j)%nat -> lexlt (entity ei) (entity ej);
  table_index : forall c,
    match firstEntryStartingWith table c, lastEntryStartingWith table c with
    | Some f, Some l =>
        (f <= l < List.length (staticEntityTable table))%nat /\
        forall i e, staticEntityTable table !! i = Some e -> ((f <= i <= l)%nat <-> [c] `prefix_of` entity e)
    | None, None => forall i e, staticEntityTable table !! i = Some e -> ~ [c] `prefix_of` entity e
    | _, _ => False
    end;
  table_letters : forall c, isASCIIAlpha c = true ->
    exists i e, staticEntityTable table !! i = Some e /\ [c] `prefix_of` entity e
}.

Lemma lexlt_app w a b : lexlt (w ++ a) (w ++ b) -> lexlt a b.
Proof. induction w; cbn; [done|]. intros [?|[_ ?]]; [lia|auto]. Qed.

Lemma lexlt_prefix a b : b `prefix_of` a -> ~ lexlt a b.
Proof. intros [k ->]. induction b; cbn; [destruct k; intros []|]. intros [?|[_ ?]]; [lia|auto]. Qed.

Lemma prefix_snoc_inv (a w : list Z) c :
  a `prefix_of` (w ++ [c]) -> a `prefix_of` w \/ a = w ++ [c].
Proof.
  intros [k Hk]. destruct k as [|x k _] using rev_ind; [right; by rewrite app_nil_r in Hk|].
  rewrite app_assoc in Hk. apply app_inj_tail in Hk as [-> _]. left. by exists k.
Qed.

Lemma prefix_same_length (a b : list Z) :
  a `prefix_of` b -> List.length a = List.length b -> a = b.
Proof. intros [k ->] H. rewrite length_app in H. destruct k; [by rewrite app_nil_r|]. cbn in H. lia. Qed.

(** ** The search *)

Module HTMLEntitySearch.

Inductive CompareResult := Before | Prefix | After.

#[global] Instance CompareResult_eq_dec : EqDecision CompareResult.
Proof. solve_decision. Defined.

Record t := mk {
  m_currentLength : Z;
  m_mostRecentMatch : option nat;
  m_first : option nat;
  m_last : option nat
}.

Section Search.

Context (table : HTMLEntityTable).

Notation at_ i := (staticEntityTable table !! i).

Definition init : t :=
  mk 0 None (Some 0%nat) (Some (List.length (staticEntityTable table) - 1)%nat).

Definition isEntityPrefix (s : t) : bool := match m_first s with Some _ => true | None => false end.

Definition fail (s : t) : t := mk (m_currentLength s) (m_mostRecentMatch s) None None.

Definition halfway (left right : nat) : nat := left + (right - left) / 2.

Definition compare (currentLength : Z) (i : nat) (nextCharacter : Z) : option CompareResult :=
  entry ← at_ i;
  if length entry <? currentLength + 1 then Some Before
  else
    entryNextCharacter ← entity entry !! Z.to_nat currentLength;
    Some (if entryNextCharacter =? nextCharacter then Prefix
          else if entryNextCharacter <? nextCharacter then Before else After).

Fixpoint findFirstLoop (fuel : nat) (currentLength nextCharacter : Z) (left right : nat) : option nat :=
  if (left + 1 <? right)%nat then
    match fuel with
    | O => None
    | S fuel =>
        let probe := halfway left right in
        result ← compare currentLength probe nextCharacter;
        if bool_decide (result = Before) then findFirstLoop fuel currentLength nextCharacter probe right
        else findFirstLoop fuel currentLength nextCharacter left probe
    end
  else if (left + 1 =? right)%nat then Some right else None.

Definition findFirst (currentLength : Z) (m_first m_last : nat) (nextCharacter : Z) : option nat :=
  let left := m_first in
  let right := m_last in
  if (left =? right)%nat then Some left
  else
    result ← compare currentLength left nextCharacter;
    match result with
    | Prefix => Some left
    | After => Some right
    | Before => findFirstLoop (right - left) currentLength nextCharacter left right
    end.

Fixpoint findLastLoop (fuel : nat) (currentLength nextCharacter : Z) (left right : nat) : option nat :=
  if (left + 1 <? right)%nat then
    match fuel with
    | O => None
    | S fuel =>
        let probe := halfway left right in
        result ← compare currentLength probe nextCharacter;
        if bool_decide (result = After) then findLastLoop fuel currentLength nextCharacter left probe
        else findLastLoop fuel currentLength nextCharacter probe right
    end
  else if (left + 1 =? right)%nat then Some left else None.

Definition findLast (currentLength : Z) (m_first m_last : nat) (nextCharacter : Z) : option nat :=
  let left := m_first in
  let right := m_last in
  if (left =? right)%nat then Some right
  else
    result ← compare currentLength right nextCharacter;
    match result with
    | Prefix => Some right
    | Before => Some left
    | After => findLastLoop (right - left) currentLength nextCharacter left right
    end.

(** The end of [advance]: one more character matched. *)
Definition advanceMatched (s : t) (first last : nat) : option t :=
  let currentLength := m_currentLength s + 1 in
  entry ← at_ first;
  Some (mk currentLength
          (if length entry =? currentLength then Some first else m_mostRecentMatch s)
          (Some first) (Some last)).

(** [m_first] is assigned before [findLast] runs, which reads it. *)
Definition advance (s : t) (nextCharacter : Z) : option t :=
  match m_first s, m_last s with
  | Some first, Some last =>
      if m_currentLength s =? 0 then
        match firstEntryStartingWith table nextCharacter, lastEntryStartingWith table nextCharacter with
        | Some first, Some last => advanceMatched s first last
        | _, _ => Some (fail s)
        end
      else
        first ← findFirst (m_currentLength s) first last nextCharacter;
        last ← findLast (m_currentLength s) first last nextCharacter;
        if (first =? last)%nat then
          result ← compare (m_currentLength s) first nextCharacter;
          if bool_decide (result = Prefix) then advanceMatched s first last else Some (fail s)
        else advanceMatched s first last
  | _, _ => None
  end.

(** ** The binary searches

    Along a range of the table whose entries share the current prefix, the
    results of [compare] are [Before]s, then [Prefix]es, then [After]s. *)

Definition rank (r : CompareResult) : nat := match r with Before => 0 | Prefix => 1 | After => 2 end.

Lemma halfway_between left right :
  (left + 1 < right)%nat -> (left < halfway left right < right)%nat.
Proof.
  intros H. unfold halfway. pose proof (Nat.div_lt (right - left) 2).
  pose proof (Nat.div_le_lower_bound (right - left) 2 1). lia.
Qed.

Section Bisect.

Context (n c : Z) (f l : nat) (r : nat -> CompareResult).
Hypothesis (compare_r : forall i, (f <= i <= l)%nat -> compare n i c = Some (r i)).
Hypothesis (r_mono : forall i j, (f <= i)%nat -> (i <= j)%nat -> (j <= l)%nat -> (rank (r i) <= rank (r j))%nat).

Lemma findFirstLoop_spec fuel left right :
  (right - left <= fuel)%nat -> (f <= left < right)%nat -> (right <= l)%nat ->
  r left = Before -> (right = l \/ r right <> Before) ->
  exists x, findFirstLoop fuel n c left right = Some x /\ (left < x <= right)%nat /\
    r (x - 1)%nat = Before /\ (x = l \/ r x <> Before).
Proof.
  revert left right. induction fuel as [|fuel IH]; intros left right Hfuel Hlr Hrl Hleft Hright; [lia|].
  cbn [findFirstLoop]. destruct (left + 1 <? right)%nat eqn:E.
  - apply Nat.ltb_lt in E. pose proof (halfway_between left right E).
    rewrite compare_r by lia. cbn [mbind option_bind].
    case_bool_decide as Hp.
    + destruct (IH (halfway left right) right) as (x & -> & Hx & ?); [lia..|done|done|]. exists x. split_and!; naive_solver lia.
    + destruct (IH left (halfway left right)) as (x & -> & Hx & ?); [lia..|done|by right|]. exists x. split_and!; naive_solver lia.
  - apply Nat.ltb_ge in E. assert (right = left + 1)%nat as -> by lia.
    rewrite Nat.eqb_refl. exists (left + 1)%nat. split_and!; try done; try lia. by rewrite Nat.add_sub.
Qed.

Lemma findLastLoop_spec fuel left right :
  (right - left <= fuel)%nat -> (f <= left < right)%nat -> (right <= l)%nat ->
  r right = After -> (left = f \/ r left <> After) ->
  exists x, findLastLoop fuel n c left right = Some x /\ (left <= x < right)%nat /\
    r (x + 1)%nat = After /\ (x = f \/ r x <> After).
Proof.
  revert left right. induction fuel as [|fuel IH]; intros left right Hfuel Hlr Hrl Hright Hleft; [lia|].
  cbn [findLastLoop]. destruct (left + 1 <? right)%nat eqn:E.
  - apply Nat.ltb_lt in E. pose proof (halfway_between left right E).
    rewrite compare_r by lia. cbn [mbind option_bind].
    case_bool_decide as Hp.
    + destruct (IH left (halfway left right)) as (x & -> & Hx & ?); [lia..|done|done|]. exists x. split_and!; naive_solver lia.
    + destruct (IH (halfway left right) right) as (x & -> & Hx & ?); [lia..|done|by right|]. exists x. split_and!; naive_solver lia.
  - apply Nat.ltb_ge in E. assert (right = left + 1)%nat as -> by lia.
    rewrite Nat.eqb_refl. exists left. split_and!; try done; lia.
Qed.

Lemma findFirst_spec :
  (f <= l)%nat ->
  exists x, findFirst n f l c = Some x /\ (f <= x <= l)%nat /\
    (forall i, (f <= i <= l)%nat -> r i = Prefix -> r x = Prefix /\ (x <= i)%nat) /\
    ((forall i, (f <= i <= l)%nat -> r i <> Prefix) -> x = l \/ r x = After).
Proof.
  intros Hfl. unfold findFirst. destruct (f =? l)%nat eqn:E.
  { apply Nat.eqb_eq in E as ->. exists l. split_and!; [done|lia|lia| |by left].
    intros i Hi Hr. assert (i = l) as -> by lia. split; [done|lia]. }
  apply Nat.eqb_neq in E. rewrite compare_r by lia. cbn [mbind option_bind].
  destruct (r f) eqn:Ef.
  - destruct (findFirstLoop_spec (l - f) f l) as (x & -> & Hx & Hx1 & Hx2); [lia..|done|by left|].
    exists x. split_and!; [done|lia|lia| |].
    + intros i Hi Hr. assert (x <= i)%nat.
      { destruct (decide (x <= i)%nat); [done|]. pose proof (r_mono i (x - 1)%nat ltac:(lia) ltac:(lia) ltac:(lia)) as Hm.
        rewrite Hr, Hx1 in Hm. cbn in Hm. lia. }
      split; [|done]. destruct Hx2 as [->|Hx2]; [by assert (i = l) as -> by lia|].
      pose proof (r_mono x i ltac:(lia) ltac:(lia) ltac:(lia)) as Hm. rewrite Hr in Hm.
      destruct (r x); cbn in Hm; [done|done|lia].
    + intros Hn. destruct Hx2 as [->|Hx2]; [by left|right]. specialize (Hn x ltac:(lia)). by destruct (r x).
  - exists f. split_and!; [done|lia|lia| |]. { intros i Hi _. split; [done|lia]. } intros Hn. by destruct (Hn f ltac:(lia)).
  - exists l. split_and!; [done|lia|lia| |by left]. intros i Hi Hr.
    pose proof (r_mono f i ltac:(lia) ltac:(lia) ltac:(lia)) as Hm. rewrite Ef, Hr in Hm. cbn in Hm. lia.
Qed.

Lemma findLast_spec :
  (f <= l)%nat -> (f = l \/ r f <> Before) ->
  exists y, findLast n f l c = Some y /\ (f <= y <= l)%nat /\
    (r f = Prefix -> r y = Prefix /\ forall i, (f <= i <= l)%nat -> r i = Prefix -> (i <= y)%nat) /\
    (r f = After -> y = f).
Proof.
  intros Hfl Hf. unfold findLast. destruct (f =? l)%nat eqn:E.
  { apply Nat.eqb_eq in E as ->. exists l. split_and!; [done|lia|lia| |done].
    intros Hr. split; [done|]. intros. lia. }
  apply Nat.eqb_neq in E. destruct Hf as [Hf|Hf]; [done|].
  pose proof (r_mono f l ltac:(lia) ltac:(lia) ltac:(lia)) as Hm.
  rewrite compare_r by lia. cbn [mbind option_bind]. destruct (r l) eqn:El.
  - destruct (r f); cbn in Hm; done || lia.
  - exists l. split_and!; [done|lia|lia| |].
    { intros. split; [done|]. intros. lia. } intros Ha. rewrite Ha in Hm. cbn in Hm. lia.
  - destruct (findLastLoop_spec (l - f) f l) as (y & -> & Hy & Hy1 & Hy2); [lia..|done|by left|].
    exists y. split_and!; [done|lia|lia| |].
    + intros Hp. split.
      { destruct Hy2 as [->|Hy2]; [done|]. pose proof (r_mono f y ltac:(lia) ltac:(lia) ltac:(lia)) as Hm'.
        rewrite Hp in Hm'. destruct (r y); cbn in Hm'; done || lia. }
      intros i Hi Hr. destruct (decide (i <= y)%nat); [done|].
      pose proof (r_mono (y + 1)%nat i ltac:(lia) ltac:(lia) ltac:(lia)) as Hm'. rewrite Hy1, Hr in Hm'. cbn in Hm'. lia.
    + intros Ha. destruct Hy2 as [->|Hy2]; [done|].
      pose proof (r_mono f y ltac:(lia) ltac:(lia) ltac:(lia)) as Hm'. rewrite Ha in Hm'. destruct (r y); cbn in Hm'; done || lia.
Qed.

End Bisect.

Lemma narrow_spec n c f l r :
  (forall i, (f <= i <= l)%nat -> compare n i c = Some (r i)) ->
  (forall i j, (f <= i)%nat -> (i <= j)%nat -> (j <= l)%nat -> (rank (r i) <= rank (r j))%nat) ->
  (f <= l)%nat ->
  exists x y, findFirst n f l c = Some x /\ findLast n x l c = Some y /\ (f <= x <= y)%nat /\ (y <= l)%nat /\
    ((r x = Prefix /\ forall i, (f <= i <= l)%nat -> ((x <= i <= y)%nat <-> r i = Prefix)) \/
     (x = y /\ forall i, (f <= i <= l)%nat -> r i <> Prefix)).
Proof.
  intros Hc Hm Hfl. destruct (findFirst_spec n c f l r Hc Hm Hfl) as (x & Hff & Hx & Hx1 & Hx2).
  assert (Hdec : (exists i, (f <= i <= l)%nat /\ r i = Prefix) \/ forall i, (f <= i <= l)%nat -> r i <> Prefix).
  { destruct (decide (Exists (fun i => r i = Prefix) (seq f (l - f + 1)))) as [H|H].
    - left. apply Exists_exists in H as (i & Hi%elem_of_seq & ?). exists i. split; [lia|done].
    - right. intros i Hi Hr. apply H, Exists_exists. exists i. split; [|done]. apply elem_of_seq. lia. }
  assert (Hor : x = l \/ r x <> Before).
  { destruct Hdec as [(i & Hi & Hr)|Hno]; [right; by rewrite (proj1 (Hx1 i Hi Hr))|].
    destruct (Hx2 Hno) as [|E]; [by left|right; by rewrite E]. }
  destruct (findLast_spec n c x l r) as (y & Hfl' & Hy & Hy1 & Hy2);
    [intros; apply Hc; lia|intros; apply Hm; lia|lia|done|].
  exists x, y. split_and!; [done|done|lia|lia|lia|].
  destruct Hdec as [(i & Hi & Hr)|Hno].
  - left. pose proof (proj1 (Hx1 i Hi Hr)) as Hrx. split; [done|]. destruct (Hy1 Hrx) as [Hry Hlast].
    intros j Hj. split.
    + intros Hxy. pose proof (Hm x j ltac:(lia) ltac:(lia) ltac:(lia)) as M1.
      pose proof (Hm j y ltac:(lia) ltac:(lia) ltac:(lia)) as M2. rewrite Hrx in M1. rewrite Hry in M2.
      destruct (r j); cbn in M1, M2; done || lia.
    + intros Hrj. destruct (Hx1 j Hj Hrj). split; [done|]. apply Hlast; [lia|done].
  - right. split; [|done]. destruct (Hx2 Hno) as [->|E]; [lia|]. symmetry. auto.
Qed.

(** ** Correctness *)

Definition isPrefixOfEntry (w : list Z) : Prop :=
  exists i e, at_ i = Some e /\ w `prefix_of` entity e.

(** [m] is the longest entry that is a prefix of [w]. *)
Definition LongestMatch (w : list Z) (m : option nat) : Prop :=
  match m with
  | Some i =>
      exists e, at_ i = Some e /\ entity e `prefix_of` w /\
        forall j e', at_ j = Some e' -> entity e' `prefix_of` w -> length e' <= length e
  | None => forall j e', at_ j = Some e' -> ~ entity e' `prefix_of` w
  end.

(** The state after the characters [w], every one of which extended the match. *)
Record SearchOk (w : list Z) (s : t) : Prop := {
  ok_currentLength : m_currentLength s = Z.of_nat (List.length w);
  ok_match : LongestMatch w (m_mostRecentMatch s);
  ok_range : exists f l, m_first s = Some f /\ m_last s = Some l /\
    (w <> [] -> (f <= l < List.length (staticEntityTable table))%nat /\
                forall i e, at_ i = Some e -> ((f <= i <= l)%nat <-> w `prefix_of` entity e))
}.

Hypothesis Hok : TableOk table.

Lemma entry_ok i e : at_ i = Some e -> EntryOk e.
Proof. intros H. destruct Hok as [HF _ _]. rewrite Forall_lookup in HF. eauto. Qed.

(** [compare] as a function of the entry's next character. *)
Definition compareKey (k : option Z) (c : Z) : CompareResult :=
  match k with
  | None => Before
  | Some k => if k =? c then Prefix else if k <? c then Before else After
  end.

Definition keyAt (n : nat) (c : Z) (i : nat) : CompareResult :=
  match at_ i with Some e => compareKey (entity e !! n) c | None => Before end.

Lemma compare_keyAt n c i e :
  at_ i = Some e -> compare (Z.of_nat n) i c = Some (keyAt n c i).
Proof.
  intros H. unfold compare, keyAt. rewrite H. cbn [mbind option_bind].
  destruct (entry_ok i e H) as [-> _ _ _ _]. rewrite Nat2Z.id. step_if; zbool.
  - by rewrite lookup_ge_None_2 by lia.
  - destruct (lookup_lt_is_Some_2 (entity e) n) as [k Hk]; [lia|]. rewrite Hk. done.
Qed.

Lemma keyAt_Prefix w c i e :
  at_ i = Some e -> w `prefix_of` entity e ->
  (keyAt (List.length w) c i = Prefix <-> (w ++ [c]) `prefix_of` entity e).
Proof.
  intros H [a Ha]. unfold keyAt. rewrite H, Ha, lookup_app_r, Nat.sub_diag by lia.
  destruct a as [|k a]; cbn.
  - split; [done|]. intros [b Hb]. apply (f_equal List.length) in Hb. rewrite !length_app in Hb. cbn in Hb. lia.
  - split.
    + intros Hk. destruct (k =? c) eqn:E; [apply Z.eqb_eq in E as ->|by destruct (k <? c)].
      exists a. by rewrite <- app_assoc.
    + intros [b Hb]. rewrite <- app_assoc in Hb. apply app_inv_head in Hb. injection Hb as -> _.
      by rewrite Z.eqb_refl.
Qed.

Lemma keyAt_mono w c i j ei ej :
  at_ i = Some ei -> at_ j = Some ej -> (i <= j)%nat ->
  w `prefix_of` entity ei -> w `prefix_of` entity ej ->
  (rank (keyAt (List.length w) c i) <= rank (keyAt (List.length w) c j))%nat.
Proof.
  intros Hi Hj Hij [a Ha] [b Hb]. destruct (decide (i = j)) as [->|Hne]; [done|].
  pose proof (table_sorted table Hok i j ei ej Hi Hj ltac:(lia)) as Hlt.
  rewrite Ha, Hb in Hlt. apply lexlt_app in Hlt.
  unfold keyAt. rewrite Hi, Hj, Ha, Hb, !lookup_app_r, Nat.sub_diag by lia.
  destruct a as [|x a], b as [|y b]; cbn in Hlt |- *; try lia.
  repeat step_if; cbn; zbool; lia.
Qed.

(** One more character: the range narrows to the entries that go on with it. *)
Lemma LongestMatch_snoc w c i e :
  at_ i = Some e -> (w ++ [c]) `prefix_of` entity e ->
  (forall j e', at_ j = Some e' -> (w ++ [c]) `prefix_of` entity e' -> (i <= j)%nat) ->
  forall m, LongestMatch w m ->
  LongestMatch (w ++ [c]) (if length e =? Z.of_nat (List.length w) + 1 then Some i else m).
Proof.
  intros Hi Hp Hfirst m Hm. pose proof (entry_ok i e Hi) as Hei.
  destruct (length e =? _) eqn:E; zbool.
  - rewrite (entry_length _ Hei) in E.
    assert (w ++ [c] = entity e) as Hw by (apply prefix_same_length; [done|rewrite length_app; cbn; lia]).
    exists e. split_and!; [done|by rewrite Hw|].
    intros j e' Hj He'. rewrite (entry_length _ (entry_ok j e' Hj)), (entry_length _ Hei).
    apply prefix_length in He'. rewrite length_app in He'. cbn in He'. lia.
  - assert (Hno : forall j e', at_ j = Some e' -> entity e' `prefix_of` (w ++ [c]) -> entity e' `prefix_of` w).
    { intros j e' Hj He'. destruct (prefix_snoc_inv _ _ _ He') as [|Heq]; [done|exfalso].
      assert (i <= j)%nat as Hij by (apply (Hfirst j e'); [done|by rewrite Heq]).
      destruct (decide (i = j)) as [->|Hne].
      - rewrite Hi in Hj. injection Hj as ->. rewrite (entry_length _ Hei), Heq, length_app in E. cbn in E. lia.
      - pose proof (table_sorted table Hok i j e e' Hi Hj ltac:(lia)) as Hlt.
        rewrite Heq in Hlt. by apply lexlt_prefix in Hlt. }
    destruct m as [k|]; cbn in Hm |- *.
    + destruct Hm as (ek & Hk & Hkp & Hmax). exists ek. split_and!; [done|by apply prefix_app_r|]. eauto.
    + intros j e' Hj He'. eapply Hm; eauto.
Qed.

Lemma advanceMatched_ok w c s f l :
  SearchOk w s ->
  (f <= l < List.length (staticEntityTable table))%nat ->
  (forall i e, at_ i = Some e -> ((f <= i <= l)%nat <-> (w ++ [c]) `prefix_of` entity e)) ->
  exists s', advanceMatched s f l = Some s' /\ isEntityPrefix s' = true /\ SearchOk (w ++ [c]) s'.
Proof.
  intros [Hn Hm _] Hfl Hr. unfold advanceMatched.
  destruct (lookup_lt_is_Some_2 (staticEntityTable table) f) as [e He]; [lia|]. rewrite He. cbn [mbind option_bind].
  eexists. split; [done|]. split; [done|]. constructor; cbn.
  - rewrite Hn, length_app. cbn. lia.
  - rewrite Hn. eapply LongestMatch_snoc; [done|apply Hr with f; [done|lia]| |done].
    intros j e' Hj Hp. apply (Hr j e' Hj) in Hp. lia.
  - by exists f, l.
Qed.

(** The first character: the index functions give the range. *)
Lemma advance_first c s :
  SearchOk [] s ->
  exists s', advance s c = Some s' /\
    ((isPrefixOfEntry [c] /\ isEntityPrefix s' = true /\ SearchOk [c] s') \/
     (~ isPrefixOfEntry [c] /\ s' = fail s)).
Proof.
  intros Hs. pose proof Hs as [Hn _ (f & l & Hf & Hl & _)]. unfold advance. rewrite Hf, Hl, Hn. cbn.
  pose proof (table_index table Hok c) as Hi.
  destruct (firstEntryStartingWith table c) as [f'|], (lastEntryStartingWith table c) as [l'|]; try done.
  - destruct Hi as [Hfl Hi]. destruct (advanceMatched_ok [] c s f' l' Hs Hfl Hi) as (s' & -> & Hp & Hs').
    exists s'. split; [done|left]. split_and!; try done.
    destruct (lookup_lt_is_Some_2 (staticEntityTable table) f') as [e He]; [lia|].
    exists f', e. split; [done|]. apply Hi with f'; [done|lia].
  - eexists. split; [done|right]. split; [|done]. intros (i & e & He & Hp). by apply (Hi i e).
Qed.

(** Every other character: the two binary searches narrow the range. *)
Lemma advance_next w c s :
  w <> [] -> SearchOk w s ->
  exists s', advance s c = Some s' /\
    ((isPrefixOfEntry (w ++ [c]) /\ isEntityPrefix s' = true /\ SearchOk (w ++ [c]) s') \/
     (~ isPrefixOfEntry (w ++ [c]) /\ s' = fail s)).
Proof.
  intros Hne Hs. pose proof Hs as [Hn _ (f & l & Hf & Hl & Hr)]. unfold advance. rewrite Hf, Hl, Hn.
  destruct (Hr Hne) as [Hfl Hin]. clear Hr.
  rewrite (proj2 (Z.eqb_neq _ _)) by (destruct w; [done|cbn; lia]).
  set (r := keyAt (List.length w) c).
  assert (Hat : forall i, (f <= i <= l)%nat -> exists e, at_ i = Some e /\ w `prefix_of` entity e).
  { intros i Hi. destruct (lookup_lt_is_Some_2 (staticEntityTable table) i) as [e He]; [lia|].
    exists e. split; [done|]. by apply (Hin i e). }
  assert (Hpre : forall i e, at_ i = Some e -> ((w ++ [c]) `prefix_of` entity e <-> (f <= i <= l)%nat /\ r i = Prefix)).
  { intros i e He. split.
    - intros Hp. assert (w `prefix_of` entity e) as Hw by (by eapply prefix_app_l).
      split; [by apply (Hin i e)|]. by eapply keyAt_Prefix.
    - intros [Hi Hri]. eapply keyAt_Prefix; [done|by apply (Hin i e)|done]. }
  destruct (narrow_spec (Z.of_nat (List.length w)) c f l r) as (x & y & -> & Hy & Hxy & Hyl & Hcase); [| |lia|].
  { intros i Hi. destruct (Hat i Hi) as (e & He & _). by eapply compare_keyAt. }
  { intros i j ???. destruct (Hat i ltac:(lia)) as (ei & ? & ?), (Hat j ltac:(lia)) as (ej & ? & ?).
    by eapply keyAt_mono. }
  cbn [mbind option_bind]. rewrite Hy. cbn [mbind option_bind].
  destruct (Hat x ltac:(lia)) as (ex & Hex & _).
  destruct Hcase as [[Hrx Hiff]|[<- Hno]].
  - destruct (advanceMatched_ok w c s x y Hs) as (s' & Hs' & ?); [lia| |].
    { intros i e He. rewrite (Hpre i e He). naive_solver lia. }
    assert (Hd : (if (x =? y)%nat then compare (Z.of_nat (List.length w)) x c ≫= fun result =>
              if bool_decide (result = Prefix) then advanceMatched s x y else Some (fail s)
            else advanceMatched s x y) = Some s').
    { rewrite (compare_keyAt _ c x ex Hex). fold r. rewrite Hrx. cbn. by step_if. }
    exists s'. split; [exact Hd|left]. split; [|done]. exists x, ex. split; [done|]. apply Hpre with x; [done|]. split; [lia|done].
  - rewrite Nat.eqb_refl, (compare_keyAt _ c x ex Hex). cbn [mbind option_bind]. fold r.
    rewrite bool_decide_eq_false_2 by (apply Hno; lia).
    eexists. split; [done|right]. split; [|done]. intros (i & e & He & Hp). apply (Hpre i e He) in Hp as [? ?]. by eapply Hno.
Qed.

Lemma advance_step w c s :
  SearchOk w s ->
  exists s', advance s c = Some s' /\
    ((isPrefixOfEntry (w ++ [c]) /\ isEntityPrefix s' = true /\ SearchOk (w ++ [c]) s') \/
     (~ isPrefixOfEntry (w ++ [c]) /\ s' = fail s)).
Proof. intros Hs. destruct w as [|x w]; [by apply advance_first | by apply advance_next]. Qed.

Lemma init_ok : SearchOk [] init.
Proof.
  constructor; cbn; [done| |by eexists _, _].
  intros j e He Hp. apply prefix_nil_inv in Hp. by apply (entry_nonempty e (entry_ok j e He)).
Qed.

(** The characters of [w], one after the other. *)
Fixpoint advanceAll (s : t) (w : list Z) : option t :=
  match w with
  | [] => Some s
  | c :: w => s ← advance s c; advanceAll s w
  end.

Lemma isPrefixOfEntry_app w w' : isPrefixOfEntry (w ++ w') -> isPrefixOfEntry w.
Proof. intros (i & e & He & Hp). exists i, e. split; [done|]. by eapply prefix_app_l. Qed.

Lemma advanceAll_ok u w s :
  SearchOk u s -> isPrefixOfEntry (u ++ w) -> exists s', advanceAll s w = Some s' /\ SearchOk (u ++ w) s'.
Proof.
  revert u s. induction w as [|c w IH]; intros u s Hs Hp; cbn [advanceAll].
  - exists s. by rewrite app_nil_r.
  - destruct (advance_step u c s Hs) as (s' & -> & Hcase). cbn [mbind option_bind].
    rewrite (app_assoc u [c] w : u ++ c :: w = (u ++ [c]) ++ w) in *.
    destruct Hcase as [(_ & _ & Hs')|[Hno _]]; [by apply IH|].
    exfalso. apply Hno. by eapply isPrefixOfEntry_app.
Qed.

Lemma SearchOk_isEntityPrefix w s : SearchOk w s -> isEntityPrefix s = true.
Proof. intros [_ _ (f & l & Hf & _)]. unfold isEntityPrefix. by rewrite Hf. Qed.

End Search.

End HTMLEntitySearch.

(** C7: Fed the characters of a word that begins some entity name, the search
    runs without leaving the table, counts the characters and keeps the longest
    entity name that begins the word; the next character is then accepted
    exactly when some entity name begins with the longer word, and refusing it
    keeps the match. *)
Theorem search_correct (table : HTMLEntityTable) (w : list Z) (c : Z) :
  TableOk table -> HTMLEntitySearch.isPrefixOfEntry table w ->
  exists s s',
    HTMLEntitySearch.advanceAll table (HTMLEntitySearch.init table) w = Some s /\
    HTMLEntitySearch.isEntityPrefix s = true /\
    HTMLEntitySearch.m_currentLength s = Z.of_nat (List.length w) /\
    HTMLEntitySearch.LongestMatch table w (HTMLEntitySearch.m_mostRecentMatch s) /\
    HTMLEntitySearch.advance table s c = Some s' /\
    (HTMLEntitySearch.isEntityPrefix s' = true <-> HTMLEntitySearch.isPrefixOfEntry table (w ++ [c])) /\
    (HTMLEntitySearch.isEntityPrefix s' = false ->
     HTMLEntitySearch.m_mostRecentMatch s' = HTMLEntitySearch.m_mostRecentMatch s).
Proof.
  intros Hok Hp.
  destruct (HTMLEntitySearch.advanceAll_ok table Hok [] w (HTMLEntitySearch.init table)) as (s & Hs & Hsok);
    [by apply HTMLEntitySearch.init_ok|done|].
  destruct (HTMLEntitySearch.advance_step table Hok w c s Hsok) as (s' & Hs' & Hcase).
  exists s, s'. split_and!; try done; try apply Hsok.
  - by eapply HTMLEntitySearch.SearchOk_isEntityPrefix.
  - destruct Hcase as [(? & -> & _)|[? ->]]; done.
  - destruct Hcase as [(? & -> & _)|[? ->]]; done.
Qed.

(** ** Building a table as the generator does

    The offset arrays of the generated file hold, for each letter, the index of
    the first entry that starts with it; the last one precedes the first entry
    of the next letter. *)
Definition startsWith (c : Z) (e : HTMLEntityTableEntry) : bool :=
  match entity e with x :: _ => x =? c | [] => false end.

Definition buildTable (entries : list HTMLEntityTableEntry) : HTMLEntityTable :=
  mkTable entries
    (fun c => if isASCIIAlpha c then fst <$> list_find (fun e => startsWith c e = true) entries else None)
    (fun c => if isASCIIAlpha c
              then i ← fst <$> list_find (fun e => startsWith c e = true) entries;
                   Some (i + List.length (filter (fun e => startsWith c e = true) entries) - 1)%nat
              else None).

(** Boolean forms of the hypotheses on a table, to check a concrete one. *)
Fixpoint lexltb (a b : list Z) : bool :=
  match a, b with
  | [], _ :: _ => true
  | x :: a, y :: b => (x <? y) || ((x =? y) && lexltb a b)
  | _, [] => false
  end.

Lemma lexltb_spec a b : lexltb a b = true -> lexlt a b.
Proof.
  revert b. induction a as [|x a IH]; intros [|y b]; cbn; try done.
  intros [?|[? ?]%andb_true_iff]%orb_true_iff; zbool; [by left|right; auto].
Qed.

Definition entryOkb (e : HTMLEntityTableEntry) : bool :=
  let body := List.removelast (entity e) in
  let c := List.last (entity e) 0 in
  (length e =? Z.of_nat (List.length (entity e))) && (0 <? length e) &&
  forallb isEntityNameCharacter body && (isEntityNameCharacter c || (c =? 59)) &&
  ((0 <? firstValue e) && (firstValue e <=? 1114111) && (0 <=? secondValue e) && (secondValue e <=? 1114111)).

Lemma entryOkb_spec e : entryOkb e = true -> EntryOk e.
Proof.
  unfold entryOkb. rewrite !andb_true_iff. intros ((((Hlen & Hpos) & Hbody) & Hc) & ((Hf1 & Hf2) & Hs1) & Hs2). zbool.
  assert (entity e <> []) as Hne by (destruct (entity e); cbn in *; [lia|done]).
  constructor; try done; try lia.
  pose proof (app_removelast_last 0 Hne) as Hl.
  set (body := removelast (entity e)) in *. set (c := List.last (entity e) 0) in *. rewrite Hl.
  assert (HF : Forall (fun c => isEntityNameCharacter c = true) body).
  { apply Forall_forall. intros x Hx%list_elem_of_In. by apply (proj1 (forallb_forall _ _) Hbody). }
  apply orb_true_iff in Hc as [Hc|Hc].
  - exists (body ++ [c]). split; [|by left]. apply Forall_app; split; [done|]. by constructor.
  - zbool. exists body. split; [done|]. right. by rewrite Hc.
Qed.

Fixpoint sortedb (l : list HTMLEntityTableEntry) : bool :=
  match l with
  | [] => true
  | a :: l => forallb (fun b => lexltb (entity a) (entity b)) l && sortedb l
  end.

Lemma sortedb_spec l : sortedb l = true -> StronglySorted (fun a b => lexlt (entity a) (entity b)) l.
Proof.
  induction l as [|a l IH]; cbn; [constructor|]. intros [H1 H2]%andb_true_iff. constructor; [auto|].
  apply List.Forall_forall. intros x Hx. apply lexltb_spec. by apply (proj1 (forallb_forall _ _) H1).
Qed.

Lemma StronglySorted_lookup_lt {A} (R : A -> A -> Prop) (l : list A) :
  StronglySorted R l ->
  forall i j x y, l !! i = Some x -> l !! j = Some y -> (i < j)%nat -> R x y.
Proof.
  induction 1 as [|a l Hl IH Ha]; intros i j x y Hi Hj Hij; [done|].
  destruct j as [|j]; [lia|]. cbn in Hj. destruct i as [|i]; cbn in Hi.
  - injection Hi as <-. rewrite Forall_lookup in Ha. eauto.
  - eapply IH; eauto. lia.
Qed.

Definition letters : list Z := map (fun i => 65 + Z.of_nat i) (seq 0 26) ++ map (fun i => 97 + Z.of_nat i) (seq 0 26).

Lemma elem_of_letters c : isASCIIAlpha c = true -> c ∈ letters.
Proof.
  intros H%isASCIIAlpha_spec. apply list_elem_of_In, in_or_app.
  destruct H; [left|right]; apply in_map_iff.
  - exists (Z.to_nat (c - 65)). rewrite Z2Nat.id by lia. split; [lia|]. apply in_seq. lia.
  - exists (Z.to_nat (c - 97)). rewrite Z2Nat.id by lia. split; [lia|]. apply in_seq. lia.
Qed.

(** The entries of a letter are where the index says. *)
Definition indexOkb (entries : list HTMLEntityTableEntry) (c : Z) : bool :=
  match firstEntryStartingWith (buildTable entries) c, lastEntryStartingWith (buildTable entries) c with
  | Some f, Some l =>
      (f <=? l)%nat && (l <? List.length entries)%nat &&
      forallb (fun p => Bool.eqb ((f <=? fst p)%nat && (fst p <=? l)%nat) (startsWith c (snd p)))
        (zip (seq 0 (List.length entries)) entries)
  | _, _ => false
  end.

Lemma startsWith_spec c e : startsWith c e = true <-> [c] `prefix_of` entity e.
Proof.
  unfold startsWith. destruct (entity e) as [|x l]; split.
  - done.
  - intros H%prefix_nil_inv. done.
  - intros H. zbool. subst. by exists l.
  - intros [k [= -> _]]. apply Z.eqb_refl.
Qed.

Lemma indexOkb_spec entries c :
  indexOkb entries c = true ->
  exists f l, firstEntryStartingWith (buildTable entries) c = Some f /\
    lastEntryStartingWith (buildTable entries) c = Some l /\
    (f <= l < List.length entries)%nat /\
    forall i e, entries !! i = Some e -> ((f <= i <= l)%nat <-> [c] `prefix_of` entity e).
Proof.
  unfold indexOkb. destruct (firstEntryStartingWith _ c) as [f|], (lastEntryStartingWith _ c) as [l|]; try done.
  rewrite !andb_true_iff, Nat.leb_le, Nat.ltb_lt. intros [[? ?] Hall]. exists f, l. split_and!; try done.
  intros i e He. rewrite <- startsWith_spec.
  pose proof (proj1 (forallb_forall _ _) Hall (i, e)) as Hi. cbn in Hi. rewrite eqb_true_iff in Hi. rewrite <- Hi.
  - rewrite andb_true_iff, !Nat.leb_le. done.
  - apply list_elem_of_In, list_elem_of_lookup. exists i. rewrite lookup_zip_with, He.
    rewrite lookup_seq_lt by (by apply lookup_lt_Some in He). done.
Qed.

Definition tableOkb (entries : list HTMLEntityTableEntry) : bool :=
  forallb entryOkb entries && sortedb entries && forallb (indexOkb entries) letters &&
  forallb (fun e => match entity e with c :: _ => isASCIIAlpha c | [] => false end) entries.

Lemma tableOkb_spec entries : tableOkb entries = true -> TableOk (buildTable entries).
Proof.
  unfold tableOkb. rewrite !andb_true_iff. intros [[[He Hs] Hi] Hl].
  assert (Hidx : forall c, isASCIIAlpha c = true -> indexOkb entries c = true).
  { intros c Hc%elem_of_letters%list_elem_of_In. by apply (proj1 (forallb_forall _ _) Hi). }
  constructor; cbn [staticEntityTable buildTable].
  - apply Forall_forall. intros e Hin%list_elem_of_In. by apply entryOkb_spec, (proj1 (forallb_forall _ _) He).
  - apply (StronglySorted_lookup_lt (fun a b => lexlt (entity a) (entity b))). by apply sortedb_spec.
  - intros c. destruct (isASCIIAlpha c) eqn:Hc.
    + destruct (indexOkb_spec entries c (Hidx c Hc)) as (f & l & -> & -> & ? & ?). done.
    + unfold buildTable. cbn. rewrite Hc. intros i e Hie Hp%startsWith_spec.
      apply list_elem_of_lookup_2, list_elem_of_In in Hie. apply (proj1 (forallb_forall _ _) Hl) in Hie.
      unfold startsWith in Hp. destruct (entity e); [done|]. zbool. congruence.
  - intros c Hc. destruct (indexOkb_spec entries c (Hidx c Hc)) as (f & l & _ & _ & Hfl & Hr).
    destruct (lookup_lt_is_Some_2 entries f) as [e He']; [lia|]. exists f, e. split; [done|]. apply (Hr f e He'). lia.
Qed.

(** A part of HTMLEntityNames.in: the first name of each letter and some more. *)
Definition sampleEntries : list HTMLEntityTableEntry :=
  [ mkEntry (chrs "AElig") 5 198 0;
    mkEntry (chrs "Backslash;") 10 8726 0;
    mkEntry (chrs "CHcy;") 5 1063 0;
    mkEntry (chrs "DD;") 3 8517 0;
    mkEntry (chrs "ENG;") 4 330 0;
    mkEntry (chrs "Fcy;") 4 1060 0;
    mkEntry (chrs "GJcy;") 5 1027 0;
    mkEntry (chrs "HARDcy;") 7 1066 0;
    mkEntry (chrs "IEcy;") 5 1045 0;
    mkEntry (chrs "Jcirc;") 6 308 0;
    mkEntry (chrs "KHcy;") 5 1061 0;
    mkEntry (chrs "LJcy;") 5 1033 0;
    mkEntry (chrs "Map;") 4 10501 0;
    mkEntry (chrs "NJcy;") 5 1034 0;
    mkEntry (chrs "OElig;") 6 338 0;
    mkEntry (chrs "PartialD;") 9 8706 0;
    mkEntry (chrs "QUOT") 4 34 0;
    mkEntry (chrs "RBarr;") 6 10512 0;
    mkEntry (chrs "SHCHcy;") 7 1065 0;
    mkEntry (chrs "THORN") 5 222 0;
    mkEntry (chrs "Uacute") 6 218 0;
    mkEntry (chrs "VDash;") 6 8875 0;
    mkEntry (chrs "Wcirc;") 6 372 0;
    mkEntry (chrs "Xfr;") 4 120091 0;
    mkEntry (chrs "YAcy;") 5 1071 0;
    mkEntry (chrs "ZHcy;") 5 1046 0;
    mkEntry (chrs "aacute") 6 225 0;
    mkEntry (chrs "amacr;") 6 257 0;
    mkEntry (chrs "amalg;") 6 10815 0;
    mkEntry (chrs "amp") 3 38 0;
    mkEntry (chrs "amp;") 4 38 0;
    mkEntry (chrs "bNot;") 5 10989 0;
    mkEntry (chrs "cacute;") 7 263 0;
    mkEntry (chrs "copy") 4 169 0;
    mkEntry (chrs "copy;") 5 169 0;
    mkEntry (chrs "dArr;") 5 8659 0;
    mkEntry (chrs "eDDot;") 6 10871 0;
    mkEntry (chrs "fallingdotseq;") 14 8786 0;
    mkEntry (chrs "fjlig;") 6 102 106;
    mkEntry (chrs "gE;") 3 8807 0;
    mkEntry (chrs "hArr;") 5 8660 0;
    mkEntry (chrs "iacute") 6 237 0;
    mkEntry (chrs "jcirc;") 6 309 0;
    mkEntry (chrs "kappa;") 6 954 0;
    mkEntry (chrs "lAarr;") 6 8666 0;
    mkEntry (chrs "lt") 2 60 0;
    mkEntry (chrs "lt;") 3 60 0;
    mkEntry (chrs "mDDot;") 6 8762 0;
    mkEntry (chrs "nGg;") 4 8921 824;
    mkEntry (chrs "not") 3 172 0;
    mkEntry (chrs "not;") 4 172 0;
    mkEntry (chrs "notin;") 6 8713 0;
    mkEntry (chrs "oS;") 3 9416 0;
    mkEntry (chrs "par;") 4 8741 0;
    mkEntry (chrs "qfr;") 4 120110 0;
    mkEntry (chrs "rAarr;") 6 8667 0;
    mkEntry (chrs "sacute;") 7 347 0;
    mkEntry (chrs "target;") 7 8982 0;
    mkEntry (chrs "uArr;") 5 8657 0;
    mkEntry (chrs "vArr;") 5 8661 0;
    mkEntry (chrs "wcirc;") 6 373 0;
    mkEntry (chrs "xcap;") 5 8898 0;
    mkEntry (chrs "yacute") 6 253 0;
    mkEntry (chrs "zacute;") 7 378 0 ].

Definition sampleTable : HTMLEntityTable := buildTable sampleEntries.

Lemma sampleTable_ok : TableOk sampleTable.
Proof. apply tableOkb_spec. vm_compute. reflexivity. Qed.

Lemma search_correct_witness :
  exists s s',
    HTMLEntitySearch.advanceAll sampleTable (HTMLEntitySearch.init sampleTable) (chrs "noti") = Some s /\
    (m ← HTMLEntitySearch.m_mostRecentMatch s; entity <$> sampleEntries !! m) = Some (chrs "not") /\
    HTMLEntitySearch.advance sampleTable s (chr "t") = Some s' /\
    HTMLEntitySearch.isEntityPrefix s' = false.
Proof.
  assert (Hp : HTMLEntitySearch.isPrefixOfEntry sampleTable (chrs "noti")).
  { exists 51%nat, (mkEntry (chrs "notin;") 6 8713 0). split; [vm_compute; reflexivity|by eexists]. }
  destruct (search_correct sampleTable (chrs "noti") (chr "t") sampleTable_ok Hp)
    as (s & s' & Hs & _ & _ & _ & Hs' & _ & _).
  exists s, s'. split; [exact Hs|].
  vm_compute in Hs. injection Hs as <-. split; [vm_compute; reflexivity|]. split; [exact Hs'|].
  vm_compute in Hs'. injection Hs' as <-. reflexivity.
Defined.
