(* ===== verification/HTMLEntityParser.v ===== *)
(** * HTMLEntityParser: character references

    Translated from src/Source/WebCore/html/parser/HTMLEntityParser.cpp and
    src/Source/WebCore/xml/parser/CharacterReferenceParserInlines.h, whose
    template is instantiated with the functions of [HTMLEntityParser].  The
    input is any [InputStream].  [None] as a result is a failed assertion;
    assertions on the number of consumed characters are not modelled. *)

From S2P Require Import Prelude ASCIICType SegmentedString HTMLEntitySearch.

Definition replacementCharacter : Z := 65533.
Definition UCHAR_MAX_VALUE : Z := 1114111.

Definition U_IS_SURROGATE (c : Z) : bool := Z.land c 4294965248 =? 55296.

Definition windowsLatin1ExtensionArray : list Z :=
  [ 8364; 129; 8218; 402; 8222; 8230; 8224; 8225;
    710; 8240; 352; 8249; 338; 141; 381; 143;
    144; 8216; 8217; 8220; 8221; 8226; 8211; 8212;
    732; 8482; 353; 8250; 339; 157; 382; 376 ].

Definition legalEntityFor (value : Z) : Z :=
  if (value <=? 0) || (UCHAR_MAX_VALUE <? value) || U_IS_SURROGATE value then replacementCharacter
  else if negb (Z.land value (Z.lnot 31) =? 128) then value
  else nth (Z.to_nat (value - 128)) windowsLatin1ExtensionArray 0.

(** [StringBuilder::append(UChar32)] and [appendUChar32ToUCharArray]: one or
    two UTF-16 code units. *)
Definition U_IS_BMP (c : Z) : bool := c <=? 65535.
Definition U16_LEAD (c : Z) : Z := Z.shiftr c 10 + 55232.
Definition U16_TRAIL (c : Z) : Z := Z.lor (Z.land c 1023) 56320.

Definition appendUChar32 (value : Z) : list Z :=
  if U_IS_BMP value then [value] else [U16_LEAD value; U16_TRAIL value].

(** The code units an entry stands for. *)
Definition entryValue (e : HTMLEntityTableEntry) : list Z :=
  appendUChar32 (firstValue e) ++ (if secondValue e =? 0 then [] else appendUChar32 (secondValue e)).

Module HTMLEntityParser.

(** The two flags, the decoded text and the source of a call. *)
Record Result (S : Type) := mkResult {
  success : bool;
  notEnoughCharacters : bool;
  decodedEntity : list Z;
  source : S
}.
Arguments mkResult {S}.
Arguments success {S}.
Arguments notEnoughCharacters {S}.
Arguments decodedEntity {S}.
Arguments source {S}.

Inductive ReferenceState :=
  | Initial | Number | MaybeHexLowerCaseX | MaybeHexUpperCaseX | Hex | Decimal | Named.

Section Parser.

Context {S : Type} `{InputStream S}.
Context (table : HTMLEntityTable).

(** [SegmentedString::pushBack] and [advancePastNonNewline] with the
    assertions on the characters. *)
Definition pushBackAsserted (str : list Z) (source : S) : option S :=
  if bool_decide (str = []) || existsb (Z.eqb 10) str then None else Some (pushBack str source).

Definition advancePastNonNewlineAsserted (source : S) : option S :=
  if currentCharacter source =? 10 then None else Some (advancePastNonNewline source).

Definition unconsumeCharacters (source : S) (consumedCharacters : list Z) : option S :=
  pushBackAsserted consumedCharacters source.

(** The loop of [consumeNamedEntity] that reads while the characters begin an
    entity name: the search, the characters consumed and the source.  The
    characters of [cc] after it are the source's current character. *)
Fixpoint consumeNameLoop (fuel : nat) (entitySearch : HTMLEntitySearch.t) (consumedCharacters : list Z) (source : S)
  : option (HTMLEntitySearch.t * list Z * S) :=
  if isEmpty source then Some (entitySearch, consumedCharacters, source)
  else
    match fuel with
    | O => None
    | Datatypes.S fuel =>
        let cc := currentCharacter source in
        entitySearch ← HTMLEntitySearch.advance table entitySearch cc;
        if negb (HTMLEntitySearch.isEntityPrefix entitySearch) then Some (entitySearch, consumedCharacters, source)
        else
          source ← advancePastNonNewlineAsserted source;
          consumeNameLoop fuel entitySearch (consumedCharacters ++ [cc]) source
    end.

(** The loop that reads an entity name again after too much was consumed. *)
Fixpoint reconsumeLoop (reference consumedCharacters : list Z) (source : S) : option (list Z * S) :=
  match reference with
  | [] => Some (consumedCharacters, source)
  | r :: reference =>
      let cc := currentCharacter source in
      if negb (cc =? r) then None
      else
        source ← advancePastNonNewlineAsserted source;
        if isEmpty source then None
        else reconsumeLoop reference (consumedCharacters ++ [cc]) source
  end.

Definition consumeNamedEntity (source : S) (additionalAllowedCharacter : Z) : option (Result S) :=
  '(entitySearch, consumedCharacters, source) ←
    consumeNameLoop (Datatypes.S (Z.to_nat (sourceLength source))) (HTMLEntitySearch.init table) [] source;
  if isEmpty source then
    source ← unconsumeCharacters source consumedCharacters;
    Some (mkResult false true [] source)
  else
    match HTMLEntitySearch.m_mostRecentMatch entitySearch with
    | None =>
        source ← unconsumeCharacters source consumedCharacters;
        Some (mkResult false false [] source)
    | Some mostRecentMatch =>
        entry ← staticEntityTable table !! mostRecentMatch;
        '(consumedCharacters, source) ←
          (if negb (length entry =? HTMLEntitySearch.m_currentLength entitySearch) then
             source ← unconsumeCharacters source consumedCharacters;
             reconsumeLoop (take (Z.to_nat (length entry)) (entity entry)) [] source
           else Some (consumedCharacters, source));
        let cc := currentCharacter source in
        if (lastCharacter entry =? 59) || (additionalAllowedCharacter =? 0)
           || negb (isASCIIAlphanumeric cc || (cc =? 61))
        then Some (mkResult true false (entryValue entry) source)
        else
          source ← unconsumeCharacters source consumedCharacters;
          Some (mkResult false false [] source)
    end.

(** [consumeCharacterReference]; the source's [goto]s into the [Hex],
    [Decimal] and [Named] cases are the local definitions. [acceptMalformed]
    is true for the HTML parser. *)
Fixpoint consumeCharacterReferenceLoop (fuel : nat) (additionalAllowedCharacter : Z) (state : ReferenceState)
    (result : Z) (overflow : bool) (consumedCharacters : list Z) (source : S) : option (Result S) :=
  if isEmpty source then
    source ← unconsumeCharacters source consumedCharacters;
    Some (mkResult false true [] source)
  else
    match fuel with
    | O => None
    | Datatypes.S fuel =>
        let character := currentCharacter source in
        let next state result overflow :=
          source ← advancePastNonNewlineAsserted source;
          consumeCharacterReferenceLoop fuel additionalAllowedCharacter state result overflow
            (consumedCharacters ++ [character]) source in
        let finish :=
          let decoded := appendUChar32 (legalEntityFor (if overflow then 0 else result)) in
          if character =? chr ";" then
            source ← advancePastNonNewlineAsserted source;
            Some (mkResult true false decoded source)
          else Some (mkResult true false decoded source) in
        let hex :=
          if isASCIIHexDigit character then
            let result := i32 (result * 16 + toASCIIHexValue character) in
            next Hex result (overflow || (UCHAR_MAX_VALUE <? result))
          else finish in
        let decimal :=
          if isASCIIDigit character then
            let result := i32 (result * 10 + character - chr "0") in
            next Decimal result (overflow || (UCHAR_MAX_VALUE <? result))
          else finish in
        match state with
        | Initial =>
            if (character =? 9) || (character =? 10) || (character =? 12) || (character =? chr " ")
               || (character =? chr "<") || (character =? chr "&")
            then Some (mkResult false false [] source)
            else if negb (additionalAllowedCharacter =? 0) && (character =? additionalAllowedCharacter)
            then Some (mkResult false false [] source)
            else if character =? chr "#" then next Number result overflow
            else if isASCIIAlpha character then consumeNamedEntity source additionalAllowedCharacter
            else Some (mkResult false false [] source)
        | Number =>
            if character =? chr "x" then next MaybeHexLowerCaseX result overflow
            else if character =? chr "X" then next MaybeHexUpperCaseX result overflow
            else if isASCIIDigit character then decimal
            else
              source ← pushBackAsserted (chrs "#") source;
              Some (mkResult false false [] source)
        | MaybeHexLowerCaseX =>
            if isASCIIHexDigit character then hex
            else
              source ← pushBackAsserted (chrs "#x") source;
              Some (mkResult false false [] source)
        | MaybeHexUpperCaseX =>
            if isASCIIHexDigit character then hex
            else
              source ← pushBackAsserted (chrs "#X") source;
              Some (mkResult false false [] source)
        | Hex => hex
        | Decimal => decimal
        | Named => consumeNamedEntity source additionalAllowedCharacter
        end
    end.

(** The assertion on [additionalAllowedCharacter]. *)
Definition validAdditional (additionalAllowedCharacter : Z) : bool :=
  (additionalAllowedCharacter =? 0) || (additionalAllowedCharacter =? 34)
  || (additionalAllowedCharacter =? 39) || (additionalAllowedCharacter =? chr ">").

Definition consumeHTMLEntity (source : S) (additionalAllowedCharacter : Z) : option (Result S) :=
  if validAdditional additionalAllowedCharacter then
    consumeCharacterReferenceLoop (Datatypes.S (Z.to_nat (sourceLength source)))
      additionalAllowedCharacter Initial 0 false [] source
  else None.

(** [decodeNamedEntityToUCharArray]: [None] is a null match dereferenced; the
    result is the code units written. *)
Fixpoint decodeLoop (search : HTMLEntitySearch.t) (name : list Z) : option (option HTMLEntitySearch.t) :=
  match name with
  | [] => Some (Some search)
  | c :: name =>
      search ← HTMLEntitySearch.advance table search c;
      if negb (HTMLEntitySearch.isEntityPrefix search) then Some None else decodeLoop search name
  end.

Definition decodeNamedEntityToUCharArray (name : list Z) : option (list Z) :=
  search ← decodeLoop (HTMLEntitySearch.init table) name;
  match search with
  | None => Some []
  | Some search =>
      search ← HTMLEntitySearch.advance table search (chr ";");
      if negb (HTMLEntitySearch.isEntityPrefix search) then Some []
      else
        mostRecentMatch ← HTMLEntitySearch.m_mostRecentMatch search;
        entry ← staticEntityTable table !! mostRecentMatch;
        Some (entryValue entry)
  end.

End Parser.

End HTMLEntityParser.
