(* ===== verification/HTMLEntityCorrect.v ===== *)
(** * Character references: what a call of the parser promises

    The theorems about HTMLEntityParser: a call never fails an assertion, it
    consumes a prefix of the source or nothing, numeric references decode to
    the character of their value, named references to the longest entity name
    the source begins with. *)

From S2P Require Import Prelude ASCIICType SegmentedString HTMLEntitySearch HTMLEntityParser.

Import HTMLEntityParser.

Section Parser.

Context {S : Type} `{InputStreamLaws S}.
Context (table : HTMLEntityTable) (Htable : TableOk table).

Implicit Types (cs : list Z) (b : bool).

Lemma advancePastNonNewlineAsserted_reads (s : S) c cs b :
  reads s (c :: cs) b -> c <> 10 ->
  exists s', advancePastNonNewlineAsserted s = Some s' /\ reads s' cs b.
Proof.
  intros Hr Hc. unfold advancePastNonNewlineAsserted. rewrite (reads_currentCharacter s c cs b) by done.
  rewrite (proj2 (Z.eqb_neq _ _)) by done. eexists. split; [done|]. by eapply reads_advancePastNonNewline.
Qed.

Lemma pushBackAsserted_reads (s : S) str cs b :
  reads s cs b -> str <> [] -> 10 ∉ str ->
  exists s', pushBackAsserted str s = Some s' /\ reads s' (str ++ cs) b.
Proof.
  intros Hr Hne Hnl. unfold pushBackAsserted. rewrite bool_decide_eq_false_2 by done. cbn [orb].
  destruct (existsb (Z.eqb 10) str) eqn:E.
  - apply existsb_exists in E as (x & Hx & Hx'). zbool. subst x. by apply list_elem_of_In in Hx.
  - eexists. split; [done|]. by apply reads_pushBack.
Qed.

(** The characters of an entity name. *)
Lemma entity_no_newline i e : staticEntityTable table !! i = Some e -> 10 ∉ entity e.
Proof.
  intros He Hin. destruct (entry_characters e (HTMLEntitySearch.entry_ok table Htable i e He)) as (body & HF & Hb).
  rewrite Forall_forall in HF. assert (10 ∈ body) as Hin'.
  { destruct Hb as [<-|Hb]; [done|]. rewrite Hb in Hin. apply elem_of_app in Hin as [|Hin]; [done|].
    apply list_elem_of_singleton in Hin. done. }
  by apply HF in Hin'.
Qed.

Lemma isPrefixOfEntry_no_newline w : HTMLEntitySearch.isPrefixOfEntry table w -> 10 ∉ w.
Proof. intros (i & e & He & [k Hk]) Hin. apply (entity_no_newline i e He). rewrite Hk. set_solver. Qed.

(** The reading loop consumes the longest prefix of the source that begins an
    entity name. *)
Lemma consumeNameLoop_spec fuel search u done (s : S) cs b :
  reads s cs b -> (List.length cs < fuel)%nat -> HTMLEntitySearch.SearchOk table u search ->
  exists search' v cs' s',
    consumeNameLoop table fuel search done s = Some (search', done ++ v, s') /\
    cs = v ++ cs' /\ reads s' cs' b /\
    HTMLEntitySearch.m_currentLength search' = Z.of_nat (List.length (u ++ v)) /\
    HTMLEntitySearch.LongestMatch table (u ++ v) (HTMLEntitySearch.m_mostRecentMatch search') /\
    (v <> [] -> HTMLEntitySearch.isPrefixOfEntry table (u ++ v)) /\
    (match cs' with [] => True | c :: _ => ~ HTMLEntitySearch.isPrefixOfEntry table (u ++ v ++ [c]) end).
Proof.
  revert search u done s cs. induction fuel as [|fuel IH]; intros search u done s cs Hr Hf Hs; [lia|].
  cbn [consumeNameLoop]. rewrite (reads_isEmpty s cs b Hr). destruct cs as [|c cs].
  { exists search, [], [], s. rewrite !app_nil_r. split_and!; try done; apply Hs. }
  rewrite (reads_currentCharacter s c cs b Hr).
  destruct (HTMLEntitySearch.advance_step table Htable u c search Hs) as (search' & -> & Hcase).
  cbn [mbind option_bind]. destruct Hcase as [(Hp & -> & Hs')|[Hno ->]].
  - cbn [negb]. assert (c <> 10) as Hc.
    { intros ->. apply isPrefixOfEntry_no_newline in Hp. apply Hp. set_solver. }
    destruct (advancePastNonNewlineAsserted_reads s c cs b Hr Hc) as (s' & -> & Hr'). cbn [mbind option_bind].
    destruct (IH search' (u ++ [c]) (done ++ [c]) s' cs Hr') as (se & v & cs' & s'' & -> & -> & Hr'' & Hl & Hm & Hpv & Hstop);
      [cbn in Hf; lia|done|].
    exists se, (c :: v), cs', s''. rewrite <- !app_assoc in *. cbn [app] in *. split_and!; try done.
    + intros _. destruct v; [done|by apply Hpv].
    + destruct cs'; [done|]. by rewrite <- app_assoc in Hstop.
  - cbn. exists (HTMLEntitySearch.fail search), [], (c :: cs), s. rewrite !app_nil_r. split_and!; try done; apply Hs.
Qed.

Lemma reconsumeLoop_spec reference done (s : S) c cs b :
  reads s (reference ++ c :: cs) b -> 10 ∉ reference ->
  exists s', reconsumeLoop reference done s = Some (done ++ reference, s') /\ reads s' (c :: cs) b.
Proof.
  revert done s. induction reference as [|r reference IH]; intros done s Hr Hnl.
  { exists s. by rewrite app_nil_r. }
  cbn [reconsumeLoop]. cbn [app] in Hr. rewrite (reads_currentCharacter _ _ _ _ Hr), Z.eqb_refl. cbn [negb].
  destruct (advancePastNonNewlineAsserted_reads _ _ _ _ Hr) as (s' & -> & Hr'); [set_solver|].
  cbn [mbind option_bind]. rewrite (reads_isEmpty _ _ _ Hr').
  replace (match reference ++ c :: cs with [] => true | _ :: _ => false end) with false by (by destruct reference).
  destruct (IH (done ++ [r]) s' Hr') as (s'' & -> & ?); [set_solver|]. exists s''. by rewrite <- app_assoc.
Qed.

(** A failed reference: nothing consumed, nothing decoded. *)
Definition Failed (r : Result S) (notEnough : bool) cs b : Prop :=
  success r = false /\ notEnoughCharacters r = notEnough /\ decodedEntity r = [] /\ reads (source r) cs b.

(** A decoded reference: [rest] is what follows it. *)
Definition Decoded (r : Result S) (decoded rest : list Z) b : Prop :=
  success r = true /\ notEnoughCharacters r = false /\ decodedEntity r = decoded /\ reads (source r) rest b.

(** May an entry be used before [cc], when the reference is inside an
    attribute value delimited by [additionalAllowedCharacter]? *)
Definition entryAccepted (e : HTMLEntityTableEntry) (additionalAllowedCharacter cc : Z) : bool :=
  (lastCharacter e =? 59) || (additionalAllowedCharacter =? 0) || negb (isASCIIAlphanumeric cc || (cc =? 61)).

(** The result of [consumeNamedEntity], from the characters of the source: [u]
    is the longest prefix that begins an entity name. *)
Definition NamedOutcome (additionalAllowedCharacter : Z) cs b (r : Result S) : Prop :=
  (HTMLEntitySearch.isPrefixOfEntry table cs /\ Failed r true cs b) \/
  exists u c cs' m,
    cs = u ++ c :: cs' /\ HTMLEntitySearch.isPrefixOfEntry table u /\
    ~ HTMLEntitySearch.isPrefixOfEntry table (u ++ [c]) /\ HTMLEntitySearch.LongestMatch table u m /\
    match m with
    | None => Failed r false cs b
    | Some i =>
        exists e, staticEntityTable table !! i = Some e /\
          let rest := drop (List.length (entity e)) cs in
          if entryAccepted e additionalAllowedCharacter (hd 0 rest)
          then Decoded r (entryValue e) rest b
          else Failed r false cs b
    end.

(** Pushing back what was consumed restores the source. *)
Lemma unconsume_Failed (s : S) u cs b notEnough :
  reads s cs b -> u <> [] -> 10 ∉ u ->
  exists r, (source ← unconsumeCharacters s u; Some (mkResult false notEnough [] source)) = Some r /\
    Failed r notEnough (u ++ cs) b.
Proof.
  intros Hr Hu Hnl. destruct (pushBackAsserted_reads s u cs b Hr Hu Hnl) as (s' & E & Hr').
  unfold unconsumeCharacters. rewrite E. by eexists.
Qed.

(** Walking back to the end of the longest match. *)
Lemma walkBack_spec (s : S) u c cs b i e currentLength :
  reads s (c :: cs) b -> HTMLEntitySearch.isPrefixOfEntry table u -> u <> [] ->
  staticEntityTable table !! i = Some e -> entity e `prefix_of` u ->
  currentLength = Z.of_nat (List.length u) ->
  exists s', (if negb (length e =? currentLength)
              then source ← unconsumeCharacters s u;
                   reconsumeLoop (take (Z.to_nat (length e)) (entity e)) [] source
              else Some (u, s)) = Some (entity e, s') /\
    exists c' cs', drop (List.length (entity e)) (u ++ c :: cs) = c' :: cs' /\ reads s' (c' :: cs') b.
Proof.
  intros Hr Hu Hne He Hpre ->. pose proof (HTMLEntitySearch.entry_ok table Htable i e He) as Hok.
  rewrite (entry_length e Hok). destruct Hpre as [k ->]. rewrite length_app.
  destruct (_ =? _) eqn:E; zbool; cbn [negb].
  - destruct k; [|cbn in E; lia]. rewrite app_nil_r, drop_app_length in *. exists s. split; [done|]. by exists c, cs.
  - unfold unconsumeCharacters.
    destruct (pushBackAsserted_reads s (entity e ++ k) (c :: cs) b Hr Hne) as (s' & -> & Hr').
    { by apply isPrefixOfEntry_no_newline. }
    cbn [mbind option_bind]. rewrite Nat2Z.id, firstn_all.
    rewrite <- app_assoc in Hr' |- *. rewrite drop_app_length.
    destruct (k ++ c :: cs) as [|c' cs'] eqn:Ek; [by destruct k|].
    destruct (reconsumeLoop_spec (entity e) [] s' c' cs' b Hr') as (s'' & -> & ?); [by eapply entity_no_newline|].
    exists s''. split; [done|]. by exists c', cs'.
Qed.

Lemma consumeNamedEntity_spec (s : S) add c0 cs b :
  reads s (c0 :: cs) b -> Z.of_nat (List.length (c0 :: cs)) < 2 ^ 32 -> isASCIIAlpha c0 = true ->
  exists r, consumeNamedEntity table s add = Some r /\ NamedOutcome add (c0 :: cs) b r.
Proof.
  intros Hr Hlen Halpha. unfold consumeNamedEntity.
  destruct (consumeNameLoop_spec (Datatypes.S (Z.to_nat (sourceLength s))) (HTMLEntitySearch.init table) [] [] s (c0 :: cs) b Hr)
    as (search & u & cs' & s' & -> & Hcs & Hr' & Hl & Hm & Hp & Hstop).
  { rewrite (reads_length s _ b Hr Hlen). cbn [List.length]. lia. }
  { by apply HTMLEntitySearch.init_ok. }
  cbn [mbind option_bind app] in *.
  assert (u <> []) as Hne.
  { intros ->. cbn in Hcs, Hstop. subst cs'. apply Hstop. by apply (table_letters table Htable). }
  specialize (Hp Hne). pose proof (isPrefixOfEntry_no_newline u Hp) as Hnl.
  rewrite (reads_isEmpty s' cs' b Hr'). destruct cs' as [|c cs'].
  { rewrite app_nil_r in Hcs. destruct (unconsume_Failed s' u [] b true Hr' Hne Hnl) as (r & -> & Hf).
    rewrite app_nil_r in Hf. exists r. split; [done|]. left. by rewrite Hcs. }
  assert (Hout : forall r,
    match HTMLEntitySearch.m_mostRecentMatch search with
    | None => Failed r false (c0 :: cs) b
    | Some i =>
        exists e, staticEntityTable table !! i = Some e /\
          let rest := drop (List.length (entity e)) (c0 :: cs) in
          if entryAccepted e add (hd 0 rest) then Decoded r (entryValue e) rest b else Failed r false (c0 :: cs) b
    end -> NamedOutcome add (c0 :: cs) b r).
  { intros r Hout. right. by exists u, c, cs', (HTMLEntitySearch.m_mostRecentMatch search). }
  rewrite Hcs in *. destruct (HTMLEntitySearch.m_mostRecentMatch search) as [i|].
  - destruct Hm as (e & He & Hpre & _). rewrite He. cbn [mbind option_bind].
    destruct (walkBack_spec s' u c cs' b i e _ Hr' Hp Hne He Hpre Hl) as (s'' & -> & c' & cs'' & Hd & Hr'').
    cbn [mbind option_bind]. rewrite (reads_currentCharacter s'' c' cs'' b Hr'').
    assert (Hcat : u ++ c :: cs' = entity e ++ c' :: cs'').
    { rewrite <- Hd. destruct Hpre as [k ->]. rewrite <- app_assoc, drop_app_length. done. }
    fold (entryAccepted e add c'). destruct (entryAccepted e add c') eqn:Eacc.
    + eexists. split; [done|]. apply Hout. exists e. split; [done|]. rewrite Hd. cbn [hd]. rewrite Eacc. done.
    + destruct (unconsume_Failed s'' (entity e) (c' :: cs'') b false Hr'') as (r & -> & Hf).
      { by apply (entry_nonempty e), (HTMLEntitySearch.entry_ok table Htable i e). }
      { by eapply entity_no_newline. }
      exists r. split; [done|]. apply Hout. exists e. split; [done|]. rewrite Hd. cbn [hd]. rewrite Eacc, Hcat. done.
  - destruct (unconsume_Failed s' u (c :: cs') b false Hr' Hne Hnl) as (r & -> & Hf).
    exists r. split; [done|]. by apply Hout.
Qed.

(** ** Numeric references *)

(** The digits of the two radixes, and the number they write. *)
Definition isDigitOf (state : ReferenceState) (c : Z) : bool :=
  match state with Hex => isASCIIHexDigit c | _ => isASCIIDigit c end.

Definition digitValue (state : ReferenceState) (c : Z) : Z :=
  match state with Hex => toASCIIHexValue c | _ => c - 48 end.

Definition radix (state : ReferenceState) : Z := match state with Hex => 16 | _ => 10 end.

Definition numberOf (state : ReferenceState) (acc : Z) (ds : list Z) : Z :=
  foldl (fun v d => v * radix state + digitValue state d) acc ds.

(** The character of a number: numbers that are no character give U+FFFD. *)
Definition referencedCharacter (v : Z) : list Z :=
  appendUChar32 (legalEntityFor (if UCHAR_MAX_VALUE <? v then 0 else v)).

Lemma digitValue_range state c :
  isDigitOf state c = true -> 0 <= digitValue state c < radix state /\ c <> 10.
Proof.
  destruct state; cbn; unfold isASCIIDigit; intros Hd;
    try (apply andb_true_iff in Hd as [? ?]; zbool; lia).
  pose proof (toASCIIHexValue_range c Hd). apply isASCIIHexDigit_spec in Hd. lia.
Qed.

Lemma numeric_step fuel add state result overflow done (s : S) c cs b :
  state = Hex \/ state = Decimal -> reads s (c :: cs) b ->
  consumeCharacterReferenceLoop table (Datatypes.S fuel) add state result overflow done s =
  if isDigitOf state c then
    source ← advancePastNonNewlineAsserted s;
    consumeCharacterReferenceLoop table fuel add state (i32 (result * radix state + digitValue state c))
      (overflow || (UCHAR_MAX_VALUE <? i32 (result * radix state + digitValue state c))) (done ++ [c]) source
  else
    let decoded := appendUChar32 (legalEntityFor (if overflow then 0 else result)) in
    if c =? 59 then source ← advancePastNonNewlineAsserted s; Some (mkResult true false decoded source)
    else Some (mkResult true false decoded s).
Proof.
  intros Hst Hr. cbn [consumeCharacterReferenceLoop].
  rewrite (reads_isEmpty _ _ _ Hr), (reads_currentCharacter _ _ _ _ Hr).
  destruct Hst as [-> | ->]; cbn [isDigitOf radix digitValue]; [done|].
  by rewrite Z.add_sub_assoc.
Qed.

(** The accumulator is exact until it leaves the code points, and the flag
    stays set from then on. *)
Definition Accumulated (v result : Z) (overflow : bool) : Prop :=
  0 <= v /\ if overflow then UCHAR_MAX_VALUE < v else result = v /\ v <= UCHAR_MAX_VALUE.

Lemma Accumulated_step state v result overflow c :
  isDigitOf state c = true -> Accumulated v result overflow ->
  Accumulated (v * radix state + digitValue state c) (i32 (result * radix state + digitValue state c))
    (overflow || (UCHAR_MAX_VALUE <? i32 (result * radix state + digitValue state c))).
Proof.
  intros Hd [Hv Hacc]. destruct (digitValue_range state c Hd) as [Hd' _].
  assert (radix state = 16 \/ radix state = 10) as Hrad by (destruct state; cbn; lia).
  unfold Accumulated, UCHAR_MAX_VALUE in *. split; [nia|]. destruct overflow; cbn [orb]; [nia|].
  destruct Hacc as [-> Hle]. rewrite i32_id by (unfold is_i32, INT_MIN, INT_MAX; nia).
  destruct (Z.ltb_spec 1114111 (v * radix state + digitValue state c)); lia.
Qed.

Lemma Accumulated_decoded v result overflow :
  Accumulated v result overflow ->
  appendUChar32 (legalEntityFor (if overflow then 0 else result)) = referencedCharacter v.
Proof.
  intros [_ Hacc]. unfold referencedCharacter. destruct overflow.
  - by rewrite (proj2 (Z.ltb_lt _ _)) by lia.
  - destruct Hacc as [-> ?]. by rewrite (proj2 (Z.ltb_ge _ _)) by lia.
Qed.

Lemma numeric_spec state fuel add result overflow v done (s : S) ds rest b :
  state = Hex \/ state = Decimal ->
  reads s (ds ++ rest) b -> (List.length (ds ++ rest) < fuel)%nat ->
  Forall (fun d => isDigitOf state d = true) ds ->
  match rest with [] => True | c :: _ => isDigitOf state c = false end ->
  Accumulated v result overflow -> done <> [] -> 10 ∉ done ->
  exists r, consumeCharacterReferenceLoop table fuel add state result overflow done s = Some r /\
    match rest with
    | [] => Failed r true (done ++ ds) b
    | c :: rest' => Decoded r (referencedCharacter (numberOf state v ds)) (if c =? 59 then rest' else rest) b
    end.
Proof using Type. clear Htable.
  intros Hst. revert fuel result overflow v done s.
  induction ds as [|d ds IH]; intros fuel result overflow v done s Hr Hf Hds Hrest Hacc Hne Hnl;
    destruct fuel as [|fuel]; try (cbn in Hf; lia); cbn [app] in *.
  - destruct rest as [|c rest].
    + cbn [consumeCharacterReferenceLoop]. rewrite (reads_isEmpty _ _ _ Hr).
      destruct (unconsume_Failed s done [] b true Hr Hne Hnl) as (r & -> & ?). by exists r.
    + rewrite (numeric_step _ _ _ _ _ _ _ _ _ _ Hst Hr), Hrest. cbn zeta.
      rewrite (Accumulated_decoded v result overflow Hacc). destruct (c =? 59) eqn:Ec; zbool.
      * destruct (advancePastNonNewlineAsserted_reads s c rest b Hr) as (s' & -> & Hr'); [lia|]. by eexists.
      * by eexists.
  - apply Forall_cons in Hds as [Hd Hds]. rewrite (numeric_step _ _ _ _ _ _ _ _ _ _ Hst Hr), Hd.
    destruct (digitValue_range state d Hd) as [_ Hd10].
    destruct (advancePastNonNewlineAsserted_reads s d (ds ++ rest) b Hr Hd10) as (s' & -> & Hr'). cbn [mbind option_bind].
    pose proof (Accumulated_step state v result overflow d Hd Hacc) as Hacc'.
    destruct (IH fuel _ _ _ (done ++ [d]) s' Hr' ltac:(cbn in Hf; lia) Hds Hrest Hacc') as (r & Hrun & Hout).
    { by destruct done. }
    { apply not_elem_of_app. split; [done|]. set_solver. }
    exists r. split; [exact Hrun|]. destruct rest; [by rewrite <- app_assoc in Hout|done].
Qed.

(** The digits a list starts with. *)
Lemma digit_split state cs :
  exists ds rest, cs = ds ++ rest /\ Forall (fun d => isDigitOf state d = true) ds /\
    match rest with [] => True | c :: _ => isDigitOf state c = false end.
Proof.
  induction cs as [|c cs (ds & rest & -> & Hds & Hrest)]; [by exists [], []|].
  destruct (isDigitOf state c) eqn:E.
  - exists (c :: ds), rest. by repeat split; [constructor|].
  - by exists [], (c :: ds ++ rest).
Qed.

(** Entering the [Hex] or [Decimal] case with the first digit. *)
Lemma numeric_enter state from fuel add done (s : S) d ds rest b :
  (state = Decimal /\ from = Number) \/ (state = Hex /\ (from = MaybeHexLowerCaseX \/ from = MaybeHexUpperCaseX)) ->
  reads s (d :: ds ++ rest) b -> isDigitOf state d = true ->
  consumeCharacterReferenceLoop table (Datatypes.S fuel) add from 0 false done s =
  consumeCharacterReferenceLoop table (Datatypes.S fuel) add state 0 false done s.
Proof.
  intros Hst Hr Hd. cbn [consumeCharacterReferenceLoop].
  rewrite (reads_isEmpty _ _ _ Hr), (reads_currentCharacter _ _ _ _ Hr).
  destruct Hst as [[-> ->]|[-> [-> | ->]]]; cbn [isDigitOf] in Hd; rewrite Hd; try done.
  assert (48 <= d <= 57) by (unfold isASCIIDigit in Hd; zbool; lia).
  rewrite (proj2 (Z.eqb_neq d 120)), (proj2 (Z.eqb_neq d 88)) by lia. done.
Qed.

(** A step of the loop that only moves to another state. *)
Lemma reference_next from to fuel add done (s : S) c cs b :
  reads s (c :: cs) b -> c <> 10 ->
  (from = Initial /\ c = 35 /\ add <> 35 /\ to = Number) \/
  (from = Number /\ ((c = 120 /\ to = MaybeHexLowerCaseX) \/ (c = 88 /\ to = MaybeHexUpperCaseX))) ->
  exists s', reads s' cs b /\
  consumeCharacterReferenceLoop table (Datatypes.S fuel) add from 0 false done s =
  consumeCharacterReferenceLoop table fuel add to 0 false (done ++ [c]) s'.
Proof.
  intros Hr Hc Hcase. destruct (advancePastNonNewlineAsserted_reads s c cs b Hr Hc) as (s' & E & Hr').
  exists s'. split; [done|]. cbn [consumeCharacterReferenceLoop].
  rewrite (reads_isEmpty _ _ _ Hr), (reads_currentCharacter _ _ _ _ Hr), E.
  destruct Hcase as [(-> & -> & Hadd & ->)|(-> & [[-> ->]|[-> ->]])]; [|done..].
  rewrite (proj2 (Z.eqb_neq 35 add)), andb_false_r by done. done.
Qed.

Lemma validAdditional_not_hash add : validAdditional add = true -> add <> 35.
Proof. by intros H' ->. Qed.

(** [&#] digits and [&#x] hexadecimal digits. *)
Definition numericPrefix (state : ReferenceState) (prefix : list Z) : Prop :=
  match state with
  | Decimal => prefix = [35]
  | Hex => prefix = [35; 120] \/ prefix = [35; 88]
  | _ => False
  end.

Lemma numericReference_spec state prefix (s : S) add ds rest b :
  numericPrefix state prefix -> validAdditional add = true ->
  reads s (prefix ++ ds ++ rest) b -> Z.of_nat (List.length (prefix ++ ds ++ rest)) < 2 ^ 32 ->
  ds <> [] -> Forall (fun d => isDigitOf state d = true) ds ->
  match rest with [] => True | c :: _ => isDigitOf state c = false end ->
  exists r, consumeHTMLEntity table s add = Some r /\
    match rest with
    | [] => Failed r true (prefix ++ ds) b
    | c :: rest' => Decoded r (referencedCharacter (numberOf state 0 ds)) (if c =? 59 then rest' else rest) b
    end.
Proof using Type. clear Htable.
  intros Hpre Hvalid Hr Hlen Hne Hds Hrest. unfold consumeHTMLEntity. rewrite Hvalid.
  pose proof (validAdditional_not_hash add Hvalid) as Hadd.
  rewrite (reads_length s _ b Hr Hlen), Nat2Z.id. destruct ds as [|d ds]; [done|]. clear Hne.
  assert (Hd : isDigitOf state d = true) by (by apply Forall_cons in Hds as [? _]).
  destruct state; cbn in Hpre; try done.
  - assert (exists x to, prefix = [35; x] /\ ((x = 120 /\ to = MaybeHexLowerCaseX) \/ (x = 88 /\ to = MaybeHexUpperCaseX)))
      as (x & to & -> & Hx) by (destruct Hpre as [-> | ->]; eauto 10). clear Hpre. cbn [app List.length] in *.
    destruct (reference_next Initial Number (Datatypes.S (Datatypes.S (Datatypes.S (List.length (ds ++ rest))))) add [] s 35 _ b Hr)
      as (s1 & Hr1 & ->); [lia|by left|].
    destruct (reference_next Number to (Datatypes.S (Datatypes.S (List.length (ds ++ rest)))) add ([] ++ [35]) s1 x _ b Hr1)
      as (s2 & Hr2 & ->); [lia|by right|].
    rewrite (numeric_enter Hex to _ _ _ _ d ds rest b); [|right; naive_solver|done|done].
    apply (numeric_spec Hex _ _ _ _ 0 [35; x] _ (d :: ds) rest b); try done; auto; try (cbn; lia).
    destruct Hx as [[-> _]|[-> _]]; set_solver by lia.
  - subst prefix. cbn [app List.length] in *.
    destruct (reference_next Initial Number (Datatypes.S (Datatypes.S (List.length (ds ++ rest)))) add [] s 35 _ b Hr)
      as (s1 & Hr1 & ->); [lia|by left|].
    rewrite (numeric_enter Decimal Number _ _ _ _ d ds rest b); [|by left|done|done].
    apply (numeric_spec Decimal _ _ _ _ 0 [35] _ (d :: ds) rest b); try done; auto; try (cbn; lia).
    set_solver by lia.
Qed.

(** ** What is decoded is text *)

Definition codeUnit (c : Z) : Prop := 0 < c <= 65535.

Lemma appendUChar32_units v : 0 < v <= UCHAR_MAX_VALUE -> appendUChar32 v <> [] /\ Forall codeUnit (appendUChar32 v).
Proof.
  unfold appendUChar32, U_IS_BMP, U16_LEAD, U16_TRAIL, UCHAR_MAX_VALUE, codeUnit. intros Hv. step_if; zbool; split; try done.
  - repeat constructor; lia.
  - rewrite Z.shiftr_div_pow2 by lia. change (2 ^ 10) with 1024.
    assert (0 <= v / 1024 < 1088) by (split; [apply Z.div_pos; lia|apply Z.div_lt_upper_bound; lia]).
    change 1023 with (Z.ones 10). rewrite Z.land_ones by lia. change (2 ^ 10) with 1024.
    pose proof (Z.mod_pos_bound v 1024 ltac:(lia)) as Hm.
    assert (Z.lor (v mod 1024) 56320 = v mod 1024 + 56320) as ->.
    { pose proof (Z.add_lor_land (v mod 1024) 56320) as Hsum.
      assert (Z.land (v mod 1024) 56320 = 0) as Hz; [|lia].
      change 56320 with (Z.shiftl 55 10). apply Z.bits_inj'. intros n Hn. rewrite Z.land_spec, Z.bits_0.
      destruct (Z.ltb_spec n 10); [rewrite Z.shiftl_spec_low by lia; apply andb_false_r|].
      change 1024 with (2 ^ 10). by rewrite Z.mod_pow2_bits_high by lia. }
    repeat constructor; lia.
Qed.

Lemma legalEntityFor_range v : 0 < legalEntityFor v <= UCHAR_MAX_VALUE.
Proof.
  unfold legalEntityFor, UCHAR_MAX_VALUE, replacementCharacter. step_if; [lia|]. apply orb_false_iff in Heqb as [Hv _]. zbool.
  step_if; [lia|]. zbool. rewrite <- Z.ldiff_land in Heqb.
  change 31 with (Z.ones 5) in Heqb. rewrite Z.ldiff_ones_r, Z.shiftl_mul_pow2, Z.shiftr_div_pow2 in Heqb by lia.
  change (2 ^ 5) with 32 in Heqb. pose proof (Z.div_mod v 32 ltac:(lia)). pose proof (Z.mod_pos_bound v 32 ltac:(lia)).
  assert (Hi : (Z.to_nat (v - 128) < 32)%nat) by lia. generalize dependent (Z.to_nat (v - 128)). intros i Hi. clear -Hi.
  do 32 (destruct i as [|i]; [cbn; lia|]). lia.
Qed.

Lemma referencedCharacter_units v : referencedCharacter v <> [] /\ Forall codeUnit (referencedCharacter v).
Proof. apply appendUChar32_units, legalEntityFor_range. Qed.

Lemma entryValue_units i e :
  staticEntityTable table !! i = Some e -> entryValue e <> [] /\ Forall codeUnit (entryValue e).
Proof.
  intros He. destruct (HTMLEntitySearch.entry_ok table Htable i e He) as [_ _ _ Hf Hs].
  destruct (appendUChar32_units (firstValue e)) as [Hne HF]; [done|]. unfold entryValue. split.
  - by destruct (appendUChar32 (firstValue e)).
  - apply Forall_app. split; [done|]. step_if; [done|]. zbool. apply appendUChar32_units. unfold UCHAR_MAX_VALUE. lia.
Qed.

(** ** A call of the parser *)

(** What a caller relies on: a failed reference leaves the source as it was, a
    decoded one is text and was a non-empty prefix of the source. *)
Definition EntityOutcome cs b (r : Result S) : Prop :=
  (exists notEnough, Failed r notEnough cs b) \/
  exists decoded pre rest, cs = pre ++ rest /\ pre <> [] /\ Decoded r decoded rest b /\
    decoded <> [] /\ Forall codeUnit decoded.

Lemma NamedOutcome_EntityOutcome add cs b r : NamedOutcome add cs b r -> EntityOutcome cs b r.
Proof.
  intros [[_ Hf]|(u & c & cs' & m & -> & _ & _ & Hm & Hcase)]; [left; eauto|].
  destruct m as [i|]; [|left; eauto]. destruct Hcase as (e & He & Hcase). cbn zeta in Hcase.
  destruct (entryAccepted _ _ _); [|left; eauto]. right.
  destruct Hm as (e' & He' & [k ->] & _). rewrite He in He'. injection He' as <-.
  rewrite <- app_assoc, drop_app_length in Hcase.
  exists (entryValue e), (entity e), (k ++ c :: cs'). rewrite <- app_assoc.
  destruct (entryValue_units i e He). split_and!; try done.
  apply (entry_nonempty e), (HTMLEntitySearch.entry_ok table Htable i e He).
Qed.

(** [&#] and [&#x] followed by no digit: the characters go back. *)
Lemma numeric_noDigit from prefix fuel add (s : S) c cs b :
  (from = Number /\ prefix = [35] /\ c <> 120 /\ c <> 88 /\ isASCIIDigit c = false) \/
  (from = MaybeHexLowerCaseX /\ prefix = [35; 120] /\ isASCIIHexDigit c = false) \/
  (from = MaybeHexUpperCaseX /\ prefix = [35; 88] /\ isASCIIHexDigit c = false) ->
  reads s (c :: cs) b ->
  exists r, consumeCharacterReferenceLoop table (Datatypes.S fuel) add from 0 false prefix s = Some r /\
    Failed r false (prefix ++ c :: cs) b.
Proof.
  intros Hcase Hr. cbn [consumeCharacterReferenceLoop].
  rewrite (reads_isEmpty _ _ _ Hr), (reads_currentCharacter _ _ _ _ Hr).
  destruct Hcase as [(-> & -> & Hx & HX & Hd)|[(-> & -> & Hd)|(-> & -> & Hd)]]; rewrite Hd.
  - rewrite (proj2 (Z.eqb_neq c 120)), (proj2 (Z.eqb_neq c 88)) by done.
    destruct (pushBackAsserted_reads s [35] (c :: cs) b Hr) as (s' & -> & ?); [done|set_solver by lia|]. by eexists.
  - destruct (pushBackAsserted_reads s [35; 120] (c :: cs) b Hr) as (s' & -> & ?); [done|set_solver by lia|]. by eexists.
  - destruct (pushBackAsserted_reads s [35; 88] (c :: cs) b Hr) as (s' & -> & ?); [done|set_solver by lia|]. by eexists.
Qed.

(** A numeric reference, from its first digit or the lack of one. *)
Lemma numeric_outcome state from prefix fuel add (s : S) cs b :
  (state = Decimal /\ from = Number /\ prefix = [35] /\ (forall cs', cs <> 120 :: cs') /\ (forall cs', cs <> 88 :: cs')) \/
  (state = Hex /\ ((from = MaybeHexLowerCaseX /\ prefix = [35; 120]) \/ (from = MaybeHexUpperCaseX /\ prefix = [35; 88]))) ->
  reads s cs b -> (List.length cs < fuel)%nat ->
  exists r, consumeCharacterReferenceLoop table fuel add from 0 false prefix s = Some r /\
    EntityOutcome (prefix ++ cs) b r.
Proof.
  intros Hcase Hr Hf. destruct fuel as [|fuel]; [lia|].
  assert (prefix <> [] /\ 10 ∉ prefix) as [Hne Hnl].
  { destruct Hcase as [(_ & _ & -> & _)|(_ & [[_ ->]|[_ ->]])]; split; try done; set_solver by lia. }
  destruct cs as [|c cs].
  { cbn [consumeCharacterReferenceLoop]. rewrite (reads_isEmpty _ _ _ Hr).
    destruct (unconsume_Failed s prefix [] b true Hr Hne Hnl) as (r & -> & ?). exists r. split; [done|]. left. eauto. }
  destruct (isDigitOf state c) eqn:Ed.
  - destruct (digit_split state (c :: cs)) as (ds & rest & Hsplit & Hds & Hrest).
    destruct ds as [|d ds]; [cbn in Hsplit; subst rest; congruence|]. injection Hsplit as <- ->.
    rewrite (numeric_enter state from fuel add prefix s c ds rest b); [|naive_solver|done|done].
    destruct (numeric_spec state (Datatypes.S fuel) add 0 false 0 prefix s (c :: ds) rest b) as (r & -> & Hout);
      try done; [naive_solver|].
    exists r. split; [done|]. destruct rest as [|e rest]; [left; rewrite app_nil_r in *; eauto|right].
    destruct (referencedCharacter_units (numberOf state 0 (c :: ds))) as [? ?].
    destruct (e =? 59) eqn:Ee; zbool.
    + exists (referencedCharacter (numberOf state 0 (c :: ds))), (prefix ++ (c :: ds) ++ [e]), rest.
      split_and!; try done; [by rewrite <- !app_assoc|by destruct prefix].
    + exists (referencedCharacter (numberOf state 0 (c :: ds))), (prefix ++ c :: ds), (e :: rest).
      split_and!; try done; [by rewrite <- !app_assoc|by destruct prefix].
  - destruct (numeric_noDigit from prefix fuel add s c cs b) as (r & -> & Hfail); [|done|exists r; split; [done|left; eauto]].
    destruct Hcase as [(-> & -> & -> & Hx & HX)|(-> & [[-> ->]|[-> ->]])]; cbn in Ed; [|by auto..].
    left. split_and!; try done; intros ->; [by apply (Hx cs)|by apply (HX cs)].
Qed.

Lemma consumeHTMLEntity_total (s : S) add c cs b :
  validAdditional add = true -> reads s (c :: cs) b -> Z.of_nat (List.length (c :: cs)) < 2 ^ 32 ->
  exists r, consumeHTMLEntity table s add = Some r /\ EntityOutcome (c :: cs) b r.
Proof.
  intros Hvalid Hr Hlen. unfold consumeHTMLEntity. rewrite Hvalid, (reads_length s _ b Hr Hlen), Nat2Z.id.
  assert (Hfail : exists r, Some (mkResult false false [] s) = Some r /\ EntityOutcome (c :: cs) b r).
  { eexists. split; [done|]. left. by exists false. }
  cbn [consumeCharacterReferenceLoop]. rewrite (reads_isEmpty _ _ _ Hr), (reads_currentCharacter _ _ _ _ Hr).
  do 2 (step_if; [done|]). destruct (c =? 35) eqn:Ec.
  - zbool. subst c.
    destruct (advancePastNonNewlineAsserted_reads s 35 cs b Hr) as (s' & -> & Hr'); [lia|].
    cbn [mbind option_bind app List.length] in *. destruct cs as [|c cs].
    + apply (numeric_outcome Decimal Number [35]); [left; naive_solver|done|cbn; lia].
    + destruct (decide (c = 120 \/ c = 88)) as [Hx|Hx].
      * assert (exists to, (c = 120 /\ to = MaybeHexLowerCaseX) \/ (c = 88 /\ to = MaybeHexUpperCaseX)) as (to & Hto) by naive_solver.
        destruct (reference_next Number to (List.length (c :: cs)) add [35] s' c cs b Hr') as (s'' & Hr'' & ->);
          [lia|by right|].
        apply (numeric_outcome Hex to [35; c]); [right; naive_solver|done|cbn; lia].
      * apply (numeric_outcome Decimal Number [35]); [left; naive_solver|done|cbn; lia].
  - destruct (isASCIIAlpha c) eqn:Ea; [|done].
    destruct (consumeNamedEntity_spec s add c cs b Hr Hlen Ea) as (r & -> & Hout).
    exists r. split; [done|]. by eapply NamedOutcome_EntityOutcome.
Qed.

Lemma alpha_not_special c :
  isASCIIAlpha c = true ->
  (c =? 9) || (c =? 10) || (c =? 12) || (c =? 32) || (c =? 60) || (c =? 38) = false.
Proof. intros Ha%isASCIIAlpha_spec. rewrite !orb_false_iff, !Z.eqb_neq. lia. Qed.

Lemma alpha_not_additional c add :
  isASCIIAlpha c = true -> validAdditional add = true -> negb (add =? 0) && (c =? add) = false.
Proof.
  intros Ha%isASCIIAlpha_spec Hv. apply andb_false_iff. right. apply Z.eqb_neq. intros <-.
  unfold validAdditional in Hv. rewrite !orb_true_iff, !Z.eqb_eq in Hv. lia.
Qed.

Lemma alpha_not_hash c : isASCIIAlpha c = true -> (c =? 35) = false.
Proof. intros Ha%isASCIIAlpha_spec. apply Z.eqb_neq. lia. Qed.

(** ** Decoding a name *)

Lemma decodeLoop_spec search u name :
  HTMLEntitySearch.SearchOk table u search ->
  (exists search', decodeLoop table search name = Some (Some search') /\
     HTMLEntitySearch.SearchOk table (u ++ name) search') \/
  (decodeLoop table search name = Some None /\ ~ HTMLEntitySearch.isPrefixOfEntry table (u ++ name)).
Proof.
  revert search u. induction name as [|c name IH]; intros search u Hs; cbn [decodeLoop].
  { left. exists search. by rewrite app_nil_r. }
  destruct (HTMLEntitySearch.advance_step table Htable u c search Hs) as (search' & -> & Hcase). cbn [mbind option_bind].
  change (u ++ c :: name) with (u ++ [c] ++ name). rewrite app_assoc.
  destruct Hcase as [(_ & -> & Hs')|[Hno ->]]; cbn [negb]; [by apply IH|].
  right. split; [done|]. intros Hp. apply Hno. by eapply HTMLEntitySearch.isPrefixOfEntry_app.
Qed.

(** A semicolon ends an entity name. *)
Lemma semicolon_ends i e w :
  staticEntityTable table !! i = Some e -> (w ++ [59]) `prefix_of` entity e -> entity e = w ++ [59].
Proof.
  intros He [k Hk]. destruct (entry_characters e (HTMLEntitySearch.entry_ok table Htable i e He)) as (body & HF & Hb).
  assert (Hin : 59 ∉ body). { intros Hin. rewrite Forall_forall in HF. by apply HF in Hin. }
  rewrite <- app_assoc in Hk. destruct Hb as [Hb|Hb].
  - exfalso. apply Hin. rewrite <- Hb, Hk. set_solver.
  - destruct k as [|x k _] using rev_ind; [by rewrite Hk|exfalso].
    rewrite Hk, !app_assoc in Hb. apply app_inj_tail in Hb as [<- _]. apply Hin. set_solver.
Qed.

Lemma decodeNamedEntity_spec name :
  (exists i e, staticEntityTable table !! i = Some e /\ entity e = name ++ [59] /\
     decodeNamedEntityToUCharArray table name = Some (entryValue e)) \/
  ((forall i e, staticEntityTable table !! i = Some e -> entity e <> name ++ [59]) /\
   decodeNamedEntityToUCharArray table name = Some []).
Proof.
  unfold decodeNamedEntityToUCharArray.
  destruct (decodeLoop_spec (HTMLEntitySearch.init table) [] name) as [(se & -> & Hs)|[-> Hno]];
    [by apply HTMLEntitySearch.init_ok| |]; cbn [mbind option_bind app] in *.
  - destruct (HTMLEntitySearch.advance_step table Htable name 59 se Hs) as (se' & -> & Hcase). cbn [mbind option_bind].
    destruct Hcase as [(Hp & -> & Hs')|[Hno ->]]; cbn [negb].
    + left. destruct Hp as (i & e & He & Hpre). pose proof (semicolon_ends i e name He Hpre) as Hname.
      pose proof (HTMLEntitySearch.ok_match table _ _ Hs') as Hm.
      destruct (HTMLEntitySearch.m_mostRecentMatch se') as [m|]; [|by destruct (Hm i e He); rewrite Hname].
      destruct Hm as (em & Hem & Hpm & Hmax). exists m, em. split_and!; [done| |by cbn [mbind option_bind]; rewrite Hem].
      specialize (Hmax i e He ltac:(by rewrite Hname)).
      rewrite (entry_length e), (entry_length em), Hname in Hmax by (by eapply HTMLEntitySearch.entry_ok).
      apply prefix_same_length; [done|].
      apply prefix_length in Hpm. lia.
    + right. split; [|done]. intros i e He Heq. apply Hno. exists i, e. split; [done|]. by rewrite Heq.
  - right. split; [|done]. intros i e He Heq. apply Hno. exists i, e. split; [done|]. rewrite Heq. by apply prefix_app_r.
Qed.

End Parser.

(** ** The properties *)



(** C9: A named character reference: the parser reads the longest prefix of the
    source that begins an entity name; it asks for more input exactly when that
    is all of the source; otherwise it decodes the longest entity name the
    source begins with and consumes that name alone, unless the name has no
    semicolon, the reference is in an attribute value and a letter, a digit or
    an equals sign follows; in every other case the source is as it was. *)
Theorem namedReference_correct {S : Type} `{InputStreamLaws S} (table : HTMLEntityTable)
    (c : Z) (cs : list Z) (s : S) (add : Z) (b : bool) :
  TableOk table -> validAdditional add = true -> isASCIIAlpha c = true ->
  reads s (c :: cs) b -> Z.of_nat (List.length (c :: cs)) < 2 ^ 32 ->
  exists r, consumeHTMLEntity table s add = Some r /\ NamedOutcome table add (c :: cs) b r.
Proof.
  intros Htable Hvalid Ha Hr Hlen. unfold consumeHTMLEntity. rewrite Hvalid, (reads_length s _ b Hr Hlen), Nat2Z.id.
  cbn [consumeCharacterReferenceLoop]. rewrite (reads_isEmpty _ _ _ Hr), (reads_currentCharacter _ _ _ _ Hr).
  rewrite (alpha_not_special c Ha), (alpha_not_additional c add Ha Hvalid), (alpha_not_hash c Ha), Ha.
  by apply consumeNamedEntity_spec.
Qed.

Lemma namedReference_correct_witness :
  exists r,
    consumeHTMLEntity sampleTable
      (SegmentedString.append (SegmentedString.SegmentedString_of true (chrs "no")) true (chrs "tit;")) 0 = Some r /\
    decodedEntity r = [172] /\ SegmentedString.toString (source r) = chrs "it;".
Proof.
  destruct (namedReference_correct sampleTable (chr "n") (chrs "otit;")
              (SegmentedString.append (SegmentedString.SegmentedString_of true (chrs "no")) true (chrs "tit;")) 0 false)
    as (r & Hr & _).
  - exact sampleTable_ok.
  - reflexivity.
  - reflexivity.
  - apply (SegmentedString.append_refines true (chrs "tit;") (SegmentedString.SegmentedString_of true (chrs "no"))).
    apply SegmentedString.SegmentedString_of_view.
  - reflexivity.
  - exists r. split; [exact Hr|]. vm_compute in Hr. injection Hr as <-. vm_compute. split; reflexivity.
Defined.



(** Decoding a name without its semicolon gives the code units of the entry
    whose name it is, and nothing when there is no such entry; the match is
    never null where the source dereferences it. *)
Theorem decodeNamedEntity_correct (table : HTMLEntityTable) (name : list Z) :
  TableOk table ->
  (exists i e, staticEntityTable table !! i = Some e /\ entity e = name ++ [59] /\
     decodeNamedEntityToUCharArray table name = Some (entryValue e)) \/
  ((forall i e, staticEntityTable table !! i = Some e -> entity e <> name ++ [59]) /\
   decodeNamedEntityToUCharArray table name = Some []).
Proof. intros Htable. by apply decodeNamedEntity_spec. Qed.

Lemma decodeNamedEntity_correct_witness :
  decodeNamedEntityToUCharArray sampleTable (chrs "fjlig") = Some (chrs "fj").
Proof.
  destruct (decodeNamedEntity_correct sampleTable (chrs "fjlig") sampleTable_ok) as [(i & e & _ & _ & Hd)|[_ Hd]];
    vm_compute in Hd |- *; congruence.
Defined.
