(* ===== verification/HTMLToken.v ===== *)
(** * HTMLToken: the token the tokenizer builds

    Translated from src/Source/WebCore/html/parser/HTMLToken.h.  An operation
    that asserts something of the token returns [None] when the assertion
    fails.  [m_currentAttribute], a pointer into [m_attributes], is the index of
    the attribute; it is reset where builds with assertions reset it.  The
    assertion that the offset of an attribute is not zero is not modelled. *)

From S2P Require Import Prelude.

Record DoctypeData := mkDoctypeData {
  hasPublicIdentifier : bool;
  hasSystemIdentifier : bool;
  publicIdentifier : list Z;
  systemIdentifier : list Z;
  forceQuirks : bool
}.

Module HTMLToken.

Inductive Type_ := Uninitialized | DOCTYPE | StartTag | EndTag | Comment | Character | EndOfFile.

#[global] Instance Type_eq_dec : EqDecision Type_.
Proof. solve_decision. Defined.

Record Attribute := mkAttribute { name : list Z; value : list Z; startOffset : Z; endOffset : Z }.

Record t := mk {
  m_type : Type_;
  m_data : list Z;
  m_data8BitCheck : Z;
  m_selfClosing : bool;
  m_attributes : list Attribute;
  m_currentAttribute : option nat;
  m_doctypeData : option DoctypeData;
  m_attributeBaseOffset : Z
}.

Definition init : t := mk Uninitialized [] 0 false [] None None 0.

Definition is_type (types : list Type_) (token : t) : bool :=
  existsb (fun ty => bool_decide (m_type token = ty)) types.

(** [assert_ b k]: the assertion [b], then [k]. *)
Definition assert_ {A} (b : bool) (k : option A) : option A := if b then k else None.

Definition set_type (ty : Type_) (token : t) : t :=
  mk ty (m_data token) (m_data8BitCheck token) (m_selfClosing token) (m_attributes token)
    (m_currentAttribute token) (m_doctypeData token) (m_attributeBaseOffset token).

Definition set_data (data : list Z) (check : Z) (token : t) : t :=
  mk (m_type token) data check (m_selfClosing token) (m_attributes token)
    (m_currentAttribute token) (m_doctypeData token) (m_attributeBaseOffset token).

Definition set_tag (selfClosing : bool) (attributes : list Attribute) (current : option nat) (token : t) : t :=
  mk (m_type token) (m_data token) (m_data8BitCheck token) selfClosing attributes current
    (m_doctypeData token) (m_attributeBaseOffset token).

Definition set_doctypeData (data : option DoctypeData) (token : t) : t :=
  mk (m_type token) (m_data token) (m_data8BitCheck token) (m_selfClosing token) (m_attributes token)
    (m_currentAttribute token) data (m_attributeBaseOffset token).

Definition clear (token : t) : t := set_type Uninitialized (set_data [] 0 token).

Definition makeEndOfFile (token : t) : option t :=
  assert_ (is_type [Uninitialized] token) (Some (set_type EndOfFile token)).

(** [name], [characters] and [comment]: the data, for a token of the type. *)
Definition getName (token : t) : option (list Z) :=
  assert_ (is_type [StartTag; EndTag; DOCTYPE] token) (Some (m_data token)).

Definition characters (token : t) : option (list Z) :=
  assert_ (is_type [Character] token) (Some (m_data token)).

Definition charactersIsAll8BitData (token : t) : option bool :=
  assert_ (is_type [Character] token) (Some (m_data8BitCheck token <=? 255)).

Definition comment (token : t) : option (list Z) :=
  assert_ (is_type [Comment] token) (Some (m_data token)).

Definition commentIsAll8BitData (token : t) : option bool :=
  assert_ (is_type [Comment] token) (Some (m_data8BitCheck token <=? 255)).

(** Appending a character and noting its bits. *)
Definition appendData (character : Z) (token : t) : t :=
  set_data (m_data token ++ [character]) (Z.lor (m_data8BitCheck token) character) token.

Definition appendToName (character : Z) (token : t) : option t :=
  assert_ (is_type [StartTag; EndTag; DOCTYPE] token && negb (character =? 0)) (Some (appendData character token)).

Definition updateDoctype (f : DoctypeData -> option DoctypeData) (token : t) : option t :=
  assert_ (is_type [DOCTYPE] token)
    (data ← m_doctypeData token; data ← f data; Some (set_doctypeData (Some data) token)).

Definition setForceQuirks (token : t) : option t :=
  updateDoctype (fun d => Some (mkDoctypeData (hasPublicIdentifier d) (hasSystemIdentifier d)
    (publicIdentifier d) (systemIdentifier d) true)) token.

Definition beginDOCTYPE (token : t) : option t :=
  assert_ (is_type [Uninitialized] token)
    (Some (set_doctypeData (Some (mkDoctypeData false false [] [] false)) (set_type DOCTYPE token))).

Definition beginDOCTYPEWith (character : Z) (token : t) : option t :=
  assert_ (negb (character =? 0)) (token ← beginDOCTYPE token; Some (appendData character token)).

Definition setPublicIdentifierToEmptyString (token : t) : option t :=
  updateDoctype (fun d => Some (mkDoctypeData true (hasSystemIdentifier d) [] (systemIdentifier d) (forceQuirks d))) token.

Definition setSystemIdentifierToEmptyString (token : t) : option t :=
  updateDoctype (fun d => Some (mkDoctypeData (hasPublicIdentifier d) true (publicIdentifier d) [] (forceQuirks d))) token.

Definition appendToPublicIdentifier (character : Z) (token : t) : option t :=
  assert_ (negb (character =? 0))
    (updateDoctype (fun d => assert_ (hasPublicIdentifier d)
      (Some (mkDoctypeData (hasPublicIdentifier d) (hasSystemIdentifier d)
        (publicIdentifier d ++ [character]) (systemIdentifier d) (forceQuirks d)))) token).

Definition appendToSystemIdentifier (character : Z) (token : t) : option t :=
  assert_ (negb (character =? 0))
    (updateDoctype (fun d => assert_ (hasSystemIdentifier d)
      (Some (mkDoctypeData (hasPublicIdentifier d) (hasSystemIdentifier d)
        (publicIdentifier d) (systemIdentifier d ++ [character]) (forceQuirks d)))) token).

Definition releaseDoctypeData (token : t) : option DoctypeData * t :=
  (m_doctypeData token, set_doctypeData None token).

Definition selfClosing (token : t) : option bool :=
  assert_ (is_type [StartTag; EndTag] token) (Some (m_selfClosing token)).

Definition setSelfClosing (token : t) : option t :=
  assert_ (is_type [StartTag; EndTag] token)
    (Some (set_tag true (m_attributes token) (m_currentAttribute token) token)).

Definition beginStartTag (character : Z) (token : t) : option t :=
  assert_ (negb (character =? 0) && is_type [Uninitialized] token)
    (Some (set_data (m_data token ++ [character]) character (set_tag false [] None (set_type StartTag token)))).

Definition beginEndTag (character : Z) (token : t) : option t :=
  assert_ (is_type [Uninitialized] token)
    (Some (set_data (m_data token ++ [character]) (m_data8BitCheck token) (set_tag false [] None (set_type EndTag token)))).

(** [beginEndTag] of a vector of characters. *)
Definition beginEndTagWith (chars : list Z) (token : t) : option t :=
  assert_ (is_type [Uninitialized] token)
    (Some (set_data (m_data token ++ chars) (m_data8BitCheck token) (set_tag false [] None (set_type EndTag token)))).

Definition beginAttribute (offset : Z) (token : t) : option t :=
  assert_ (is_type [StartTag; EndTag] token)
    (Some (set_tag (m_selfClosing token)
      (m_attributes token ++ [mkAttribute [] [] (u32 (offset - m_attributeBaseOffset token)) 0])
      (Some (List.length (m_attributes token))) token)).

(** An update of the current attribute. *)
Definition updateAttribute (f : Attribute -> Attribute) (token : t) : option (list Attribute) :=
  i ← m_currentAttribute token;
  attribute ← m_attributes token !! i;
  Some (<[i := f attribute]> (m_attributes token)).

Definition endAttribute (offset : Z) (token : t) : option t :=
  attributes ← updateAttribute (fun a =>
    mkAttribute (name a) (value a) (startOffset a) (u32 (offset - m_attributeBaseOffset token))) token;
  Some (set_tag (m_selfClosing token) attributes None token).

Definition appendToAttributeName (character : Z) (token : t) : option t :=
  assert_ (negb (character =? 0) && is_type [StartTag; EndTag] token)
    (attributes ← updateAttribute (fun a =>
       mkAttribute (name a ++ [character]) (value a) (startOffset a) (endOffset a)) token;
     Some (set_tag (m_selfClosing token) attributes (m_currentAttribute token) token)).

Definition appendToAttributeValue (character : Z) (token : t) : option t :=
  assert_ (negb (character =? 0) && is_type [StartTag; EndTag] token)
    (attributes ← updateAttribute (fun a =>
       mkAttribute (name a) (value a ++ [character]) (startOffset a) (endOffset a)) token;
     Some (set_tag (m_selfClosing token) attributes (m_currentAttribute token) token)).

(** [eraseValueOfAttribute] and [appendToAttributeValue] of an index, for the
    XSS auditor. *)
Definition updateAttributeAt (i : nat) (f : list Z -> list Z) (token : t) : option t :=
  assert_ (is_type [StartTag; EndTag] token)
    (a ← m_attributes token !! i;
     Some (set_tag (m_selfClosing token)
       (<[i := mkAttribute (name a) (f (value a)) (startOffset a) (endOffset a)]> (m_attributes token))
       (m_currentAttribute token) token)).

Definition eraseValueOfAttribute (i : nat) (token : t) : option t := updateAttributeAt i (fun _ => []) token.

Definition appendToAttributeValueAt (i : nat) (str : list Z) (token : t) : option t :=
  assert_ (negb (bool_decide (str = []))) (updateAttributeAt i (fun v => v ++ str) token).

Definition attributes (token : t) : option (list Attribute) :=
  assert_ (is_type [StartTag; EndTag] token) (Some (m_attributes token)).

(** [appendToCharacter] of a Latin-1 character does not note its bits. *)
Definition appendToCharacter8 (character : Z) (token : t) : option t :=
  assert_ (is_type [Uninitialized; Character] token)
    (Some (set_data (m_data token ++ [character]) (m_data8BitCheck token) (set_type Character token))).

Definition appendToCharacter (character : Z) (token : t) : option t :=
  assert_ (is_type [Uninitialized; Character] token) (Some (appendData character (set_type Character token))).

(** [appendToCharacter] of a vector of Latin-1 characters. *)
Definition appendToCharacterVector (chars : list Z) (token : t) : option t :=
  assert_ (is_type [Uninitialized; Character] token)
    (Some (set_data (m_data token ++ chars) (m_data8BitCheck token) (set_type Character token))).

Definition beginComment (token : t) : option t :=
  assert_ (is_type [Uninitialized] token) (Some (set_type Comment token)).

Definition appendToComment (character : Z) (token : t) : option t :=
  assert_ (negb (character =? 0) && is_type [Comment] token) (Some (appendData character token)).

(** [nameMatches] and [findAttribute]: the first attribute of the name. *)
Definition nameMatches (attribute : Attribute) (str : list Z) : bool := bool_decide (name attribute = str).

Definition findAttribute (attributes : list Attribute) (str : list Z) : option Attribute :=
  List.find (fun a => nameMatches a str) attributes.

End HTMLToken.
