(* ===== verification/HTMLTokenizer.v ===== *)
(** * HTMLTokenizer: the HTML tokenization state machine

    Translated from src/Source/WebCore/html/parser/HTMLTokenizer.cpp and .h,
    InputStreamPreprocessor.h and xml/parser/MarkupTokenizerInlines.h.  The
    function [processToken] of the source is one switch whose cases jump to one
    another: here each case is a function from the tokenizer, the current
    character and the source to an [outcome], which is a return, a jump to
    another case, or a failed assertion; [run] follows the jumps.  The
    tokenizer reads any [InputStream]; the entity table is a parameter. *)

From S2P Require Import Prelude ASCIICType SegmentedString HTMLEntitySearch HTMLEntityParser HTMLToken.

Definition kEndOfFileMarker : Z := 0.

Record HTMLParserOptions := mkOptions {
  scriptEnabled : bool;
  pluginsEnabled : bool;
  usePreHTML5ParserQuirks : bool
}.

Module HTMLTokenizer.

Inductive State :=
  | DataState
  | CharacterReferenceInDataState
  | RCDATAState
  | CharacterReferenceInRCDATAState
  | RAWTEXTState
  | ScriptDataState
  | PLAINTEXTState
  | TagOpenState
  | EndTagOpenState
  | TagNameState
  | RCDATALessThanSignState
  | RCDATAEndTagOpenState
  | RCDATAEndTagNameState
  | RAWTEXTLessThanSignState
  | RAWTEXTEndTagOpenState
  | RAWTEXTEndTagNameState
  | ScriptDataLessThanSignState
  | ScriptDataEndTagOpenState
  | ScriptDataEndTagNameState
  | ScriptDataEscapeStartState
  | ScriptDataEscapeStartDashState
  | ScriptDataEscapedState
  | ScriptDataEscapedDashState
  | ScriptDataEscapedDashDashState
  | ScriptDataEscapedLessThanSignState
  | ScriptDataEscapedEndTagOpenState
  | ScriptDataEscapedEndTagNameState
  | ScriptDataDoubleEscapeStartState
  | ScriptDataDoubleEscapedState
  | ScriptDataDoubleEscapedDashState
  | ScriptDataDoubleEscapedDashDashState
  | ScriptDataDoubleEscapedLessThanSignState
  | ScriptDataDoubleEscapeEndState
  | BeforeAttributeNameState
  | AttributeNameState
  | AfterAttributeNameState
  | BeforeAttributeValueState
  | AttributeValueDoubleQuotedState
  | AttributeValueSingleQuotedState
  | AttributeValueUnquotedState
  | CharacterReferenceInAttributeValueState
  | AfterAttributeValueQuotedState
  | SelfClosingStartTagState
  | BogusCommentState
  | ContinueBogusCommentState
  | MarkupDeclarationOpenState
  | CommentStartState
  | CommentStartDashState
  | CommentState
  | CommentEndDashState
  | CommentEndState
  | CommentEndBangState
  | DOCTYPEState
  | BeforeDOCTYPENameState
  | DOCTYPENameState
  | AfterDOCTYPENameState
  | AfterDOCTYPEPublicKeywordState
  | BeforeDOCTYPEPublicIdentifierState
  | DOCTYPEPublicIdentifierDoubleQuotedState
  | DOCTYPEPublicIdentifierSingleQuotedState
  | AfterDOCTYPEPublicIdentifierState
  | BetweenDOCTYPEPublicAndSystemIdentifiersState
  | AfterDOCTYPESystemKeywordState
  | BeforeDOCTYPESystemIdentifierState
  | DOCTYPESystemIdentifierDoubleQuotedState
  | DOCTYPESystemIdentifierSingleQuotedState
  | AfterDOCTYPESystemIdentifierState
  | BogusDOCTYPEState
  | CDATASectionState
  | CDATASectionRightSquareBracketState
  | CDATASectionDoubleRightSquareBracketState.

#[global] Instance State_eq_dec : EqDecision State.
Proof. solve_decision. Defined.

(** The members of the class; [m_nextInputCharacter] and [m_skipNextNewLine]
    are those of [m_preprocessor]. *)
Record t := mk {
  m_state : State;
  m_forceNullCharacterReplacement : bool;
  m_shouldAllowCDATA : bool;
  m_token : HTMLToken.t;
  m_additionalAllowedCharacter : Z;
  m_nextInputCharacter : Z;
  m_skipNextNewLine : bool;
  m_appropriateEndTagName : list Z;
  m_temporaryBuffer : list Z;
  m_bufferedEndTagName : list Z;
  m_options : HTMLParserOptions
}.

Definition init (options : HTMLParserOptions) : t :=
  mk DataState false false HTMLToken.init 0 0 false [] [] [] options.

(** ** Assignments to members *)

Definition set_state (st : State) (T : t) : t :=
  mk st (m_forceNullCharacterReplacement T) (m_shouldAllowCDATA T) (m_token T) (m_additionalAllowedCharacter T)
    (m_nextInputCharacter T) (m_skipNextNewLine T) (m_appropriateEndTagName T) (m_temporaryBuffer T)
    (m_bufferedEndTagName T) (m_options T).

Definition set_token (token : HTMLToken.t) (T : t) : t :=
  mk (m_state T) (m_forceNullCharacterReplacement T) (m_shouldAllowCDATA T) token (m_additionalAllowedCharacter T)
    (m_nextInputCharacter T) (m_skipNextNewLine T) (m_appropriateEndTagName T) (m_temporaryBuffer T)
    (m_bufferedEndTagName T) (m_options T).

Definition set_additional (c : Z) (T : t) : t :=
  mk (m_state T) (m_forceNullCharacterReplacement T) (m_shouldAllowCDATA T) (m_token T) c
    (m_nextInputCharacter T) (m_skipNextNewLine T) (m_appropriateEndTagName T) (m_temporaryBuffer T)
    (m_bufferedEndTagName T) (m_options T).

Definition set_input (c : Z) (skip : bool) (T : t) : t :=
  mk (m_state T) (m_forceNullCharacterReplacement T) (m_shouldAllowCDATA T) (m_token T) (m_additionalAllowedCharacter T)
    c skip (m_appropriateEndTagName T) (m_temporaryBuffer T) (m_bufferedEndTagName T) (m_options T).

Definition set_buffers (appropriate temporary buffered : list Z) (T : t) : t :=
  mk (m_state T) (m_forceNullCharacterReplacement T) (m_shouldAllowCDATA T) (m_token T) (m_additionalAllowedCharacter T)
    (m_nextInputCharacter T) (m_skipNextNewLine T) appropriate temporary buffered (m_options T).

Definition set_appropriate (l : list Z) (T : t) : t := set_buffers l (m_temporaryBuffer T) (m_bufferedEndTagName T) T.
Definition set_temporary (l : list Z) (T : t) : t := set_buffers (m_appropriateEndTagName T) l (m_bufferedEndTagName T) T.
Definition set_buffered (l : list Z) (T : t) : t := set_buffers (m_appropriateEndTagName T) (m_temporaryBuffer T) l T.

(** ** Predicates of the header *)

Definition isNullCharacterSkippingState (st : State) : bool :=
  match st with DataState | RCDATAState | RAWTEXTState => true | _ => false end.

Definition inEndTagBufferingState (T : t) : bool :=
  match m_state T with
  | RCDATAEndTagOpenState | RCDATAEndTagNameState | RAWTEXTEndTagOpenState | RAWTEXTEndTagNameState
  | ScriptDataEndTagOpenState | ScriptDataEndTagNameState
  | ScriptDataEscapedEndTagOpenState | ScriptDataEscapedEndTagNameState => true
  | _ => false
  end.

Definition isTokenizerWhitespace (character : Z) : bool :=
  (character =? chr " ") || (character =? 10) || (character =? 9) || (character =? 12).

Definition haveBufferedCharacterToken (T : t) : bool := HTMLToken.is_type [HTMLToken.Character] (m_token T).

Definition isInDataState (T : t) : bool := bool_decide (m_state T = DataState).

Definition numberOfBufferedCharacters (T : t) : Z :=
  match m_temporaryBuffer T with [] => 0 | l => Z.of_nat (List.length l) + 2 end.

Definition bufferedCharacters (T : t) : list Z := chrs "</" ++ m_temporaryBuffer T.

Definition setForceNullCharacterReplacement (value : bool) (T : t) : t :=
  mk (m_state T) value (m_shouldAllowCDATA T) (m_token T) (m_additionalAllowedCharacter T)
    (m_nextInputCharacter T) (m_skipNextNewLine T) (m_appropriateEndTagName T) (m_temporaryBuffer T)
    (m_bufferedEndTagName T) (m_options T).

Definition setShouldAllowCDATA (value : bool) (T : t) : t :=
  mk (m_state T) (m_forceNullCharacterReplacement T) value (m_token T) (m_additionalAllowedCharacter T)
    (m_nextInputCharacter T) (m_skipNextNewLine T) (m_appropriateEndTagName T) (m_temporaryBuffer T)
    (m_bufferedEndTagName T) (m_options T).

(** [updateStateFor], with the names of the tags it knows. *)
Definition updateStateFor (tagName : list Z) (T : t) : t :=
  let tagIs str := bool_decide (tagName = str) in
  if tagIs (chrs "textarea") || tagIs (chrs "title") then set_state RCDATAState T
  else if tagIs (chrs "plaintext") then set_state PLAINTEXTState T
  else if tagIs (chrs "script") then set_state ScriptDataState T
  else if tagIs (chrs "style") || tagIs (chrs "iframe") || tagIs (chrs "xmp")
          || (tagIs (chrs "noembed") && pluginsEnabled (m_options T)) || tagIs (chrs "noframes")
          || (tagIs (chrs "noscript") && scriptEnabled (m_options T)) then set_state RAWTEXTState T
  else T.

(** ** Buffers *)

Definition convertASCIIAlphaToLower (character : Z) : Z := toASCIILowerUnchecked character.

(** [vectorEqualsString] compares a vector with a C string. *)
Fixpoint vectorEqualsString (vector str : list Z) : bool :=
  match vector, str with
  | [], [] => true
  | a :: vector, b :: str => if a =? b then vectorEqualsString vector str else false
  | _, _ => false
  end.

Definition temporaryBufferIs (expected : list Z) (T : t) : bool := vectorEqualsString (m_temporaryBuffer T) expected.

Fixpoint sameCharacters (a b : list Z) : bool :=
  match a, b with
  | x :: a, y :: b => if negb (x =? y) then false else sameCharacters a b
  | _, _ => true
  end.

Definition isAppropriateEndTag (T : t) : bool :=
  if negb (List.length (m_bufferedEndTagName T) =? List.length (m_appropriateEndTagName T))%nat then false
  else sameCharacters (m_bufferedEndTagName T) (m_appropriateEndTagName T).

Definition appendToTemporaryBuffer (character : Z) (T : t) : option t :=
  HTMLToken.assert_ (isASCII character) (Some (set_temporary (m_temporaryBuffer T ++ [character]) T)).

Definition appendToPossibleEndTag (character : Z) (T : t) : option t :=
  HTMLToken.assert_ (isASCII character) (Some (set_buffered (m_bufferedEndTagName T ++ [character]) T)).

(** ** Operations on the token *)

Definition onToken (f : HTMLToken.t -> option HTMLToken.t) (T : t) : option t :=
  token ← f (m_token T); Some (set_token token T).

Definition bufferASCIICharacter (character : Z) (T : t) : option t :=
  HTMLToken.assert_ (negb (character =? kEndOfFileMarker) && isASCII character)
    (onToken (HTMLToken.appendToCharacter8 character) T).

Definition bufferCharacter (character : Z) (T : t) : option t :=
  HTMLToken.assert_ (negb (character =? kEndOfFileMarker)) (onToken (HTMLToken.appendToCharacter character) T).

Definition saveEndTagNameIfNeeded (T : t) : option t :=
  HTMLToken.assert_ (negb (HTMLToken.is_type [HTMLToken.Uninitialized] (m_token T)))
    (if HTMLToken.is_type [HTMLToken.StartTag] (m_token T)
     then name ← HTMLToken.getName (m_token T); Some (set_appropriate name T)
     else Some T).

Definition flushBufferedEndTag (T : t) : option t :=
  T ← onToken (HTMLToken.beginEndTagWith (m_bufferedEndTagName T)) T;
  Some (set_buffers [] [] [] T).

(** Appending the code units of a decoded reference one by one. *)
Fixpoint bufferCharacters (decoded : list Z) (T : t) : option t :=
  match decoded with
  | [] => Some T
  | c :: decoded => T ← bufferCharacter c T; bufferCharacters decoded T
  end.

Fixpoint appendToAttributeValues (decoded : list Z) (T : t) : option t :=
  match decoded with
  | [] => Some T
  | c :: decoded => T ← onToken (HTMLToken.appendToAttributeValue c) T; appendToAttributeValues decoded T
  end.

Section Source.

Context {S : Type} `{InputStream S}.

(** ** InputStreamPreprocessor *)

Definition isAtEndOfFile (source : S) : bool := isClosed source && (sourceLength source =? 1).

(** [inl]: the function returned false; [inr]: it goes on. *)
Definition skipNewLine (T : t) (source : S) : (t * S) + (t * S) :=
  if (m_nextInputCharacter T =? 10) && m_skipNextNewLine T then
    let T := set_input (m_nextInputCharacter T) false T in
    let source := advancePastNewline source in
    if isEmpty source then inl (T, source)
    else inr (set_input (currentCharacter source) false T, source)
  else inr (T, source).

Fixpoint processNextInputCharacter (fuel : nat) (skipNullCharacters : bool) (T : t) (source : S)
  : option (bool * t * S) :=
  match skipNewLine T source with
  | inl (T, source) => Some (false, T, source)
  | inr (T, source) =>
      if m_nextInputCharacter T =? 13 then Some (true, set_input 10 true T, source)
      else
        let T := set_input (m_nextInputCharacter T) false T in
        if negb (m_nextInputCharacter T =? 0) || isAtEndOfFile source then Some (true, T, source)
        else if skipNullCharacters && negb (m_forceNullCharacterReplacement T) then
          source ← HTMLEntityParser.advancePastNonNewlineAsserted source;
          if isEmpty source then Some (false, T, source)
          else
            match fuel with
            | O => None
            | Datatypes.S fuel =>
                processNextInputCharacter fuel skipNullCharacters (set_input (currentCharacter source) false T) source
            end
        else Some (true, set_input replacementCharacter false T, source)
  end.

(** [None] is a failed assertion; the boolean is the result. *)
Definition peek (skipNullCharacters : bool) (T : t) (source : S) : option (bool * t * S) :=
  if isEmpty source then Some (false, T, source)
  else
    let T := set_input (currentCharacter source) (m_skipNextNewLine T) T in
    let specialCharacterMask := Z.lor 10 (Z.lor 13 0) in
    if negb (Z.land (m_nextInputCharacter T) (Z.lnot specialCharacterMask) =? 0)
    then Some (true, set_input (m_nextInputCharacter T) false T, source)
    else processNextInputCharacter (Z.to_nat (sourceLength source)) skipNullCharacters T source.

(** ** Outcomes and the macros of MarkupTokenizerInlines.h *)

Inductive outcome :=
  | Return (result : bool) (T : t) (source : S)
  | Goto (st : State) (character : Z) (T : t) (source : S)
  | AssertionFailure.

Definition bindOutcome {A} (o : option A) (k : A -> outcome) : outcome :=
  match o with Some a => k a | None => AssertionFailure end.

Notation "'let!' x := o 'in' k" := (bindOutcome o (fun x => k)) (at level 200, x name, o at level 100, k at level 200).

Definition RETURN_IN (currentState : State) (result : bool) (T : t) (source : S) : outcome :=
  Return result (set_state currentState T) source.

Definition RECONSUME_IN (newState : State) (character : Z) (T : t) (source : S) : outcome :=
  Goto newState character T source.

(** What the three advancing macros share. *)
Definition SWITCH_TO (newState : State) (T : t) (source : S) : outcome :=
  let! p := peek (isNullCharacterSkippingState newState) T source in
  let '(peeked, T, source) := p in
  if negb peeked then Return (haveBufferedCharacterToken T) (set_state newState T) source
  else Goto newState (m_nextInputCharacter T) T source.

Definition ADVANCE_TO (newState : State) (T : t) (source : S) : outcome := SWITCH_TO newState T (advance source).

Definition ADVANCE_PAST_NON_NEWLINE_TO (newState : State) (T : t) (source : S) : outcome :=
  let! source := HTMLEntityParser.advancePastNonNewlineAsserted source in
  SWITCH_TO newState T source.

(** ** Emitting tokens *)

Definition emitAndResumeInDataState (T : t) (source : S) : outcome :=
  let! T := saveEndTagNameIfNeeded T in
  let! source := HTMLEntityParser.advancePastNonNewlineAsserted source in
  Return true (set_state DataState T) source.

Definition emitAndReconsumeInDataState (T : t) (source : S) : outcome :=
  let! T := saveEndTagNameIfNeeded T in
  Return true (set_state DataState T) source.

Definition emitEndOfFile (T : t) (source : S) : outcome :=
  let T := set_state DataState T in
  if haveBufferedCharacterToken T then Return true T source
  else
    let! T := onToken (fun token => HTMLToken.makeEndOfFile (HTMLToken.clear token)) T in
    Return true T (advance source).

Definition commitToPartialEndTag (source : S) (character : Z) (st : State) (T : t) : option (bool * t * S) :=
  HTMLToken.assert_ (currentCharacter source =? character)
    (T ← appendToTemporaryBuffer character T;
     let source := advance source in
     if haveBufferedCharacterToken T then Some (true, set_state st T, source)
     else T ← flushBufferedEndTag T; Some (false, T, source)).

Definition commitToCompleteEndTag (T : t) (source : S) : outcome :=
  if negb (currentCharacter source =? chr ">") then AssertionFailure
  else
    let! T := appendToTemporaryBuffer (chr ">") T in
    let! source := HTMLEntityParser.advancePastNonNewlineAsserted source in
    let T := set_state DataState T in
    if haveBufferedCharacterToken T then Return true T source
    else
      let! T := flushBufferedEndTag T in
      Return true T source.

End Source.

Arguments outcome : clear implicits.

End HTMLTokenizer.
