(* ===== verification/HTMLTokenizerStates.v ===== *)
(** * The states of the HTML tokenizer

    One definition per BEGIN_STATE ... END_STATE block of
    src/Source/WebCore/html/parser/HTMLTokenizer.cpp, in the order of the
    source, then [processToken].  [parseError] does nothing in the source and is
    left out; a block of the source that ends in ASSERT_NOT_REACHED is a chain
    of tests that all return. *)

From S2P Require Import Prelude ASCIICType SegmentedString HTMLEntitySearch HTMLEntityParser HTMLToken HTMLTokenizer.

Module HTMLTokenizerStates.

Import HTMLTokenizer.

Notation "'let!' x := o 'in' k" := (bindOutcome o (fun x => k)) (at level 200, x name, o at level 100, k at level 200).

Section States.

Context {S : Type} `{InputStream S}.
Context (table : HTMLEntityTable).

Implicit Types (T : t) (character : Z) (source : S).

(** [processEntity]: the boolean is the result. *)
Definition processEntity T source : option (bool * t * S) :=
  r ← HTMLEntityParser.consumeHTMLEntity table source 0;
  let source := HTMLEntityParser.source r in
  if HTMLEntityParser.notEnoughCharacters r then Some (false, T, source)
  else
    T ← (if negb (HTMLEntityParser.success r) then bufferASCIICharacter (chr "&") T
         else bufferCharacters (HTMLEntityParser.decodedEntity r) T);
    Some (true, T, source).

Definition onDataState T character source : outcome S :=
  if character =? chr "&" then ADVANCE_PAST_NON_NEWLINE_TO CharacterReferenceInDataState T source
  else if character =? chr "<" then
    if haveBufferedCharacterToken T then RETURN_IN DataState true T source
    else ADVANCE_PAST_NON_NEWLINE_TO TagOpenState T source
  else if character =? kEndOfFileMarker then emitEndOfFile T source
  else
    let! T := bufferCharacter character T in
    ADVANCE_TO DataState T source.

(** The two states that decode a reference into text. *)
Definition onCharacterReference (currentState returnState : State) T source : outcome S :=
  let! p := processEntity T source in
  let '(processed, T, source) := p in
  if negb processed then RETURN_IN currentState (haveBufferedCharacterToken T) T source
  else SWITCH_TO returnState T source.

Definition onCharacterReferenceInDataState T character source : outcome S :=
  onCharacterReference CharacterReferenceInDataState DataState T source.

Definition onRCDATAState T character source : outcome S :=
  if character =? chr "&" then ADVANCE_PAST_NON_NEWLINE_TO CharacterReferenceInRCDATAState T source
  else if character =? chr "<" then ADVANCE_PAST_NON_NEWLINE_TO RCDATALessThanSignState T source
  else if character =? kEndOfFileMarker then RECONSUME_IN DataState character T source
  else
    let! T := bufferCharacter character T in
    ADVANCE_TO RCDATAState T source.

Definition onCharacterReferenceInRCDATAState T character source : outcome S :=
  onCharacterReference CharacterReferenceInRCDATAState RCDATAState T source.

Definition onRAWTEXTState T character source : outcome S :=
  if character =? chr "<" then ADVANCE_PAST_NON_NEWLINE_TO RAWTEXTLessThanSignState T source
  else if character =? kEndOfFileMarker then RECONSUME_IN DataState character T source
  else
    let! T := bufferCharacter character T in
    ADVANCE_TO RAWTEXTState T source.

Definition onScriptDataState T character source : outcome S :=
  if character =? chr "<" then ADVANCE_PAST_NON_NEWLINE_TO ScriptDataLessThanSignState T source
  else if character =? kEndOfFileMarker then RECONSUME_IN DataState character T source
  else
    let! T := bufferCharacter character T in
    ADVANCE_TO ScriptDataState T source.

Definition onPLAINTEXTState T character source : outcome S :=
  if character =? kEndOfFileMarker then RECONSUME_IN DataState character T source
  else
    let! T := bufferCharacter character T in
    ADVANCE_TO PLAINTEXTState T source.

Definition onTagOpenState T character source : outcome S :=
  if character =? chr "!" then ADVANCE_PAST_NON_NEWLINE_TO MarkupDeclarationOpenState T source
  else if character =? chr "/" then ADVANCE_PAST_NON_NEWLINE_TO EndTagOpenState T source
  else if isASCIIAlpha character then
    let! T := onToken (HTMLToken.beginStartTag (convertASCIIAlphaToLower character)) T in
    ADVANCE_PAST_NON_NEWLINE_TO TagNameState T source
  else if character =? chr "?" then RECONSUME_IN BogusCommentState character T source
  else
    let! T := bufferASCIICharacter (chr "<") T in
    RECONSUME_IN DataState character T source.

Definition onEndTagOpenState T character source : outcome S :=
  if isASCIIAlpha character then
    let! T := onToken (HTMLToken.beginEndTag (convertASCIIAlphaToLower character)) T in
    let T := set_appropriate [] T in
    ADVANCE_PAST_NON_NEWLINE_TO TagNameState T source
  else if character =? chr ">" then ADVANCE_PAST_NON_NEWLINE_TO DataState T source
  else if character =? kEndOfFileMarker then
    let! T := bufferASCIICharacter (chr "<") T in
    let! T := bufferASCIICharacter (chr "/") T in
    RECONSUME_IN DataState character T source
  else RECONSUME_IN BogusCommentState character T source.

Definition onTagNameState T character source : outcome S :=
  if isTokenizerWhitespace character then ADVANCE_TO BeforeAttributeNameState T source
  else if character =? chr "/" then ADVANCE_PAST_NON_NEWLINE_TO SelfClosingStartTagState T source
  else if character =? chr ">" then emitAndResumeInDataState T source
  else if usePreHTML5ParserQuirks (m_options T) && (character =? chr "<") then emitAndReconsumeInDataState T source
  else if character =? kEndOfFileMarker then RECONSUME_IN DataState character T source
  else
    let! T := onToken (HTMLToken.appendToName (toASCIILower character)) T in
    ADVANCE_PAST_NON_NEWLINE_TO TagNameState T source.

(** What the less-than-sign states do with a slash. *)
Definition beginEndTagBuffering (endTagOpenState : State) T source : outcome S :=
  let T := set_temporary [] T in
  match m_bufferedEndTagName T with
  | [] => ADVANCE_PAST_NON_NEWLINE_TO endTagOpenState T source
  | _ => AssertionFailure
  end.

(** The end-tag-open states of the four kinds of raw text. *)
Definition onEndTagOpen (endTagNameState textState : State) T character source : outcome S :=
  if isASCIIAlpha character then
    let! T := appendToTemporaryBuffer character T in
    let! T := appendToPossibleEndTag (convertASCIIAlphaToLower character) T in
    ADVANCE_PAST_NON_NEWLINE_TO endTagNameState T source
  else
    let! T := bufferASCIICharacter (chr "<") T in
    let! T := bufferASCIICharacter (chr "/") T in
    RECONSUME_IN textState character T source.

(** What they do when the buffered characters were text after all. *)
Definition abandonEndTag (textState : State) T character source : outcome S :=
  let! T := bufferASCIICharacter (chr "<") T in
  let! T := bufferASCIICharacter (chr "/") T in
  let! T := onToken (HTMLToken.appendToCharacterVector (m_temporaryBuffer T)) T in
  let T := set_temporary [] (set_buffered [] T) in
  RECONSUME_IN textState character T source.

(** A commit to an end tag that goes on in [st]. *)
Definition commitOrSwitch (st : State) T character source : outcome S :=
  let! p := commitToPartialEndTag source character st T in
  let '(committed, T, source) := p in
  if (committed : bool) then Return true T source else SWITCH_TO st T source.

(** The end-tag-name states of the four kinds of raw text. *)
Definition onEndTagName (endTagNameState textState : State) T character source : outcome S :=
  if isASCIIAlpha character then
    let! T := appendToTemporaryBuffer character T in
    let! T := appendToPossibleEndTag (convertASCIIAlphaToLower character) T in
    ADVANCE_PAST_NON_NEWLINE_TO endTagNameState T source
  else if isTokenizerWhitespace character then
    if isAppropriateEndTag T then commitOrSwitch BeforeAttributeNameState T character source
    else abandonEndTag textState T character source
  else if character =? chr "/" then
    if isAppropriateEndTag T then commitOrSwitch SelfClosingStartTagState T (chr "/") source
    else abandonEndTag textState T character source
  else if character =? chr ">" then
    if isAppropriateEndTag T then commitToCompleteEndTag T source
    else abandonEndTag textState T character source
  else abandonEndTag textState T character source.

Definition onRCDATALessThanSignState T character source : outcome S :=
  if character =? chr "/" then beginEndTagBuffering RCDATAEndTagOpenState T source
  else
    let! T := bufferASCIICharacter (chr "<") T in
    RECONSUME_IN RCDATAState character T source.

Definition onRCDATAEndTagOpenState T character source : outcome S :=
  onEndTagOpen RCDATAEndTagNameState RCDATAState T character source.

Definition onRCDATAEndTagNameState T character source : outcome S :=
  onEndTagName RCDATAEndTagNameState RCDATAState T character source.

Definition onRAWTEXTLessThanSignState T character source : outcome S :=
  if character =? chr "/" then beginEndTagBuffering RAWTEXTEndTagOpenState T source
  else
    let! T := bufferASCIICharacter (chr "<") T in
    RECONSUME_IN RAWTEXTState character T source.

Definition onRAWTEXTEndTagOpenState T character source : outcome S :=
  onEndTagOpen RAWTEXTEndTagNameState RAWTEXTState T character source.

Definition onRAWTEXTEndTagNameState T character source : outcome S :=
  onEndTagName RAWTEXTEndTagNameState RAWTEXTState T character source.

Definition onScriptDataLessThanSignState T character source : outcome S :=
  if character =? chr "/" then beginEndTagBuffering ScriptDataEndTagOpenState T source
  else if character =? chr "!" then
    let! T := bufferASCIICharacter (chr "<") T in
    let! T := bufferASCIICharacter (chr "!") T in
    ADVANCE_PAST_NON_NEWLINE_TO ScriptDataEscapeStartState T source
  else
    let! T := bufferASCIICharacter (chr "<") T in
    RECONSUME_IN ScriptDataState character T source.

Definition onScriptDataEndTagOpenState T character source : outcome S :=
  onEndTagOpen ScriptDataEndTagNameState ScriptDataState T character source.

Definition onScriptDataEndTagNameState T character source : outcome S :=
  onEndTagName ScriptDataEndTagNameState ScriptDataState T character source.

Definition onScriptDataEscapeStartState T character source : outcome S :=
  if character =? chr "-" then
    let! T := bufferASCIICharacter (chr "-") T in
    ADVANCE_PAST_NON_NEWLINE_TO ScriptDataEscapeStartDashState T source
  else RECONSUME_IN ScriptDataState character T source.

Definition onScriptDataEscapeStartDashState T character source : outcome S :=
  if character =? chr "-" then
    let! T := bufferASCIICharacter (chr "-") T in
    ADVANCE_PAST_NON_NEWLINE_TO ScriptDataEscapedDashDashState T source
  else RECONSUME_IN ScriptDataState character T source.

Definition onScriptDataEscapedState T character source : outcome S :=
  if character =? chr "-" then
    let! T := bufferASCIICharacter (chr "-") T in
    ADVANCE_PAST_NON_NEWLINE_TO ScriptDataEscapedDashState T source
  else if character =? chr "<" then ADVANCE_PAST_NON_NEWLINE_TO ScriptDataEscapedLessThanSignState T source
  else if character =? kEndOfFileMarker then RECONSUME_IN DataState character T source
  else
    let! T := bufferCharacter character T in
    ADVANCE_TO ScriptDataEscapedState T source.

Definition onScriptDataEscapedDashState T character source : outcome S :=
  if character =? chr "-" then
    let! T := bufferASCIICharacter (chr "-") T in
    ADVANCE_PAST_NON_NEWLINE_TO ScriptDataEscapedDashDashState T source
  else if character =? chr "<" then ADVANCE_PAST_NON_NEWLINE_TO ScriptDataEscapedLessThanSignState T source
  else if character =? kEndOfFileMarker then RECONSUME_IN DataState character T source
  else
    let! T := bufferCharacter character T in
    ADVANCE_TO ScriptDataEscapedState T source.

Definition onScriptDataEscapedDashDashState T character source : outcome S :=
  if character =? chr "-" then
    let! T := bufferASCIICharacter (chr "-") T in
    ADVANCE_PAST_NON_NEWLINE_TO ScriptDataEscapedDashDashState T source
  else if character =? chr "<" then ADVANCE_PAST_NON_NEWLINE_TO ScriptDataEscapedLessThanSignState T source
  else if character =? chr ">" then
    let! T := bufferASCIICharacter (chr ">") T in
    ADVANCE_PAST_NON_NEWLINE_TO ScriptDataState T source
  else if character =? kEndOfFileMarker then RECONSUME_IN DataState character T source
  else
    let! T := bufferCharacter character T in
    ADVANCE_TO ScriptDataEscapedState T source.

Definition onScriptDataEscapedLessThanSignState T character source : outcome S :=
  if character =? chr "/" then beginEndTagBuffering ScriptDataEscapedEndTagOpenState T source
  else if isASCIIAlpha character then
    let! T := bufferASCIICharacter (chr "<") T in
    let! T := bufferASCIICharacter character T in
    let T := set_temporary [] T in
    let! T := appendToTemporaryBuffer (convertASCIIAlphaToLower character) T in
    ADVANCE_PAST_NON_NEWLINE_TO ScriptDataDoubleEscapeStartState T source
  else
    let! T := bufferASCIICharacter (chr "<") T in
    RECONSUME_IN ScriptDataEscapedState character T source.

Definition onScriptDataEscapedEndTagOpenState T character source : outcome S :=
  onEndTagOpen ScriptDataEscapedEndTagNameState ScriptDataEscapedState T character source.

Definition onScriptDataEscapedEndTagNameState T character source : outcome S :=
  onEndTagName ScriptDataEscapedEndTagNameState ScriptDataEscapedState T character source.

Definition onScriptDataDoubleEscapeStartState T character source : outcome S :=
  if isTokenizerWhitespace character || (character =? chr "/") || (character =? chr ">") then
    let! T := bufferASCIICharacter character T in
    if temporaryBufferIs (chrs "script") T then ADVANCE_TO ScriptDataDoubleEscapedState T source
    else ADVANCE_TO ScriptDataEscapedState T source
  else if isASCIIAlpha character then
    let! T := bufferASCIICharacter character T in
    let! T := appendToTemporaryBuffer (convertASCIIAlphaToLower character) T in
    ADVANCE_PAST_NON_NEWLINE_TO ScriptDataDoubleEscapeStartState T source
  else RECONSUME_IN ScriptDataEscapedState character T source.

Definition onScriptDataDoubleEscapedState T character source : outcome S :=
  if character =? chr "-" then
    let! T := bufferASCIICharacter (chr "-") T in
    ADVANCE_PAST_NON_NEWLINE_TO ScriptDataDoubleEscapedDashState T source
  else if character =? chr "<" then
    let! T := bufferASCIICharacter (chr "<") T in
    ADVANCE_PAST_NON_NEWLINE_TO ScriptDataDoubleEscapedLessThanSignState T source
  else if character =? kEndOfFileMarker then RECONSUME_IN DataState character T source
  else
    let! T := bufferCharacter character T in
    ADVANCE_TO ScriptDataDoubleEscapedState T source.

Definition onScriptDataDoubleEscapedDashState T character source : outcome S :=
  if character =? chr "-" then
    let! T := bufferASCIICharacter (chr "-") T in
    ADVANCE_PAST_NON_NEWLINE_TO ScriptDataDoubleEscapedDashDashState T source
  else if character =? chr "<" then
    let! T := bufferASCIICharacter (chr "<") T in
    ADVANCE_PAST_NON_NEWLINE_TO ScriptDataDoubleEscapedLessThanSignState T source
  else if character =? kEndOfFileMarker then RECONSUME_IN DataState character T source
  else
    let! T := bufferCharacter character T in
    ADVANCE_TO ScriptDataDoubleEscapedState T source.

Definition onScriptDataDoubleEscapedDashDashState T character source : outcome S :=
  if character =? chr "-" then
    let! T := bufferASCIICharacter (chr "-") T in
    ADVANCE_PAST_NON_NEWLINE_TO ScriptDataDoubleEscapedDashDashState T source
  else if character =? chr "<" then
    let! T := bufferASCIICharacter (chr "<") T in
    ADVANCE_PAST_NON_NEWLINE_TO ScriptDataDoubleEscapedLessThanSignState T source
  else if character =? chr ">" then
    let! T := bufferASCIICharacter (chr ">") T in
    ADVANCE_PAST_NON_NEWLINE_TO ScriptDataState T source
  else if character =? kEndOfFileMarker then RECONSUME_IN DataState character T source
  else
    let! T := bufferCharacter character T in
    ADVANCE_TO ScriptDataDoubleEscapedState T source.

Definition onScriptDataDoubleEscapedLessThanSignState T character source : outcome S :=
  if character =? chr "/" then
    let! T := bufferASCIICharacter (chr "/") T in
    let T := set_temporary [] T in
    ADVANCE_PAST_NON_NEWLINE_TO ScriptDataDoubleEscapeEndState T source
  else RECONSUME_IN ScriptDataDoubleEscapedState character T source.

Definition onScriptDataDoubleEscapeEndState T character source : outcome S :=
  if isTokenizerWhitespace character || (character =? chr "/") || (character =? chr ">") then
    let! T := bufferASCIICharacter character T in
    if temporaryBufferIs (chrs "script") T then ADVANCE_TO ScriptDataEscapedState T source
    else ADVANCE_TO ScriptDataDoubleEscapedState T source
  else if isASCIIAlpha character then
    let! T := bufferASCIICharacter character T in
    let! T := appendToTemporaryBuffer (convertASCIIAlphaToLower character) T in
    ADVANCE_PAST_NON_NEWLINE_TO ScriptDataDoubleEscapeEndState T source
  else RECONSUME_IN ScriptDataDoubleEscapedState character T source.

Definition onBeforeAttributeNameState T character source : outcome S :=
  if isTokenizerWhitespace character then ADVANCE_TO BeforeAttributeNameState T source
  else if character =? chr "/" then ADVANCE_PAST_NON_NEWLINE_TO SelfClosingStartTagState T source
  else if character =? chr ">" then emitAndResumeInDataState T source
  else if usePreHTML5ParserQuirks (m_options T) && (character =? chr "<") then emitAndReconsumeInDataState T source
  else if character =? kEndOfFileMarker then RECONSUME_IN DataState character T source
  else
    let! T := onToken (HTMLToken.beginAttribute (numberOfCharactersConsumed source)) T in
    let! T := onToken (HTMLToken.appendToAttributeName (toASCIILower character)) T in
    ADVANCE_PAST_NON_NEWLINE_TO AttributeNameState T source.

Definition onAttributeNameState T character source : outcome S :=
  if isTokenizerWhitespace character then ADVANCE_TO AfterAttributeNameState T source
  else if character =? chr "/" then ADVANCE_PAST_NON_NEWLINE_TO SelfClosingStartTagState T source
  else if character =? chr "=" then ADVANCE_PAST_NON_NEWLINE_TO BeforeAttributeValueState T source
  else if character =? chr ">" then emitAndResumeInDataState T source
  else if usePreHTML5ParserQuirks (m_options T) && (character =? chr "<") then emitAndReconsumeInDataState T source
  else if character =? kEndOfFileMarker then RECONSUME_IN DataState character T source
  else
    let! T := onToken (HTMLToken.appendToAttributeName (toASCIILower character)) T in
    ADVANCE_PAST_NON_NEWLINE_TO AttributeNameState T source.

Definition onAfterAttributeNameState T character source : outcome S :=
  if isTokenizerWhitespace character then ADVANCE_TO AfterAttributeNameState T source
  else if character =? chr "/" then ADVANCE_PAST_NON_NEWLINE_TO SelfClosingStartTagState T source
  else if character =? chr "=" then ADVANCE_PAST_NON_NEWLINE_TO BeforeAttributeValueState T source
  else if character =? chr ">" then emitAndResumeInDataState T source
  else if usePreHTML5ParserQuirks (m_options T) && (character =? chr "<") then emitAndReconsumeInDataState T source
  else if character =? kEndOfFileMarker then RECONSUME_IN DataState character T source
  else
    let! T := onToken (HTMLToken.beginAttribute (numberOfCharactersConsumed source)) T in
    let! T := onToken (HTMLToken.appendToAttributeName (toASCIILower character)) T in
    ADVANCE_PAST_NON_NEWLINE_TO AttributeNameState T source.

Definition onBeforeAttributeValueState T character source : outcome S :=
  if isTokenizerWhitespace character then ADVANCE_TO BeforeAttributeValueState T source
  else if character =? 34 then ADVANCE_PAST_NON_NEWLINE_TO AttributeValueDoubleQuotedState T source
  else if character =? chr "&" then RECONSUME_IN AttributeValueUnquotedState character T source
  else if character =? 39 then ADVANCE_PAST_NON_NEWLINE_TO AttributeValueSingleQuotedState T source
  else if character =? chr ">" then emitAndResumeInDataState T source
  else if character =? kEndOfFileMarker then RECONSUME_IN DataState character T source
  else
    let! T := onToken (HTMLToken.appendToAttributeValue character) T in
    ADVANCE_PAST_NON_NEWLINE_TO AttributeValueUnquotedState T source.

(** The two quoted states, for the quote character [quote]. *)
Definition onAttributeValueQuoted (quote : Z) (currentState : State) T character source : outcome S :=
  if character =? quote then
    let! T := onToken (HTMLToken.endAttribute (numberOfCharactersConsumed source)) T in
    ADVANCE_PAST_NON_NEWLINE_TO AfterAttributeValueQuotedState T source
  else if character =? chr "&" then
    let T := set_additional quote T in
    ADVANCE_PAST_NON_NEWLINE_TO CharacterReferenceInAttributeValueState T source
  else if character =? kEndOfFileMarker then
    let! T := onToken (HTMLToken.endAttribute (numberOfCharactersConsumed source)) T in
    RECONSUME_IN DataState character T source
  else
    let! T := onToken (HTMLToken.appendToAttributeValue character) T in
    ADVANCE_TO currentState T source.

Definition onAttributeValueDoubleQuotedState T character source : outcome S :=
  onAttributeValueQuoted 34 AttributeValueDoubleQuotedState T character source.

Definition onAttributeValueSingleQuotedState T character source : outcome S :=
  onAttributeValueQuoted 39 AttributeValueSingleQuotedState T character source.

Definition onAttributeValueUnquotedState T character source : outcome S :=
  if isTokenizerWhitespace character then
    let! T := onToken (HTMLToken.endAttribute (numberOfCharactersConsumed source)) T in
    ADVANCE_TO BeforeAttributeNameState T source
  else if character =? chr "&" then
    let T := set_additional (chr ">") T in
    ADVANCE_PAST_NON_NEWLINE_TO CharacterReferenceInAttributeValueState T source
  else if character =? chr ">" then
    let! T := onToken (HTMLToken.endAttribute (numberOfCharactersConsumed source)) T in
    emitAndResumeInDataState T source
  else if character =? kEndOfFileMarker then
    let! T := onToken (HTMLToken.endAttribute (numberOfCharactersConsumed source)) T in
    RECONSUME_IN DataState character T source
  else
    let! T := onToken (HTMLToken.appendToAttributeValue character) T in
    ADVANCE_PAST_NON_NEWLINE_TO AttributeValueUnquotedState T source.

Definition onCharacterReferenceInAttributeValueState T character source : outcome S :=
  let! r := HTMLEntityParser.consumeHTMLEntity table source (m_additionalAllowedCharacter T) in
  let source := HTMLEntityParser.source r in
  if HTMLEntityParser.notEnoughCharacters r
  then RETURN_IN CharacterReferenceInAttributeValueState (haveBufferedCharacterToken T) T source
  else
    let! T := (if negb (HTMLEntityParser.success r) then onToken (HTMLToken.appendToAttributeValue (chr "&")) T
               else appendToAttributeValues (HTMLEntityParser.decodedEntity r) T) in
    if m_additionalAllowedCharacter T =? 34 then SWITCH_TO AttributeValueDoubleQuotedState T source
    else if m_additionalAllowedCharacter T =? 39 then SWITCH_TO AttributeValueSingleQuotedState T source
    else if negb (m_additionalAllowedCharacter T =? chr ">") then AssertionFailure
    else SWITCH_TO AttributeValueUnquotedState T source.

Definition onAfterAttributeValueQuotedState T character source : outcome S :=
  if isTokenizerWhitespace character then ADVANCE_TO BeforeAttributeNameState T source
  else if character =? chr "/" then ADVANCE_PAST_NON_NEWLINE_TO SelfClosingStartTagState T source
  else if character =? chr ">" then emitAndResumeInDataState T source
  else if usePreHTML5ParserQuirks (m_options T) && (character =? chr "<") then emitAndReconsumeInDataState T source
  else if character =? kEndOfFileMarker then RECONSUME_IN DataState character T source
  else RECONSUME_IN BeforeAttributeNameState character T source.

Definition onSelfClosingStartTagState T character source : outcome S :=
  if character =? chr ">" then
    let! T := onToken HTMLToken.setSelfClosing T in
    emitAndResumeInDataState T source
  else if character =? kEndOfFileMarker then RECONSUME_IN DataState character T source
  else RECONSUME_IN BeforeAttributeNameState character T source.

Definition onBogusCommentState T character source : outcome S :=
  let! T := onToken HTMLToken.beginComment T in
  RECONSUME_IN ContinueBogusCommentState character T source.

Definition onContinueBogusCommentState T character source : outcome S :=
  if character =? chr ">" then emitAndResumeInDataState T source
  else if character =? kEndOfFileMarker then emitAndReconsumeInDataState T source
  else
    let! T := onToken (HTMLToken.appendToComment character) T in
    ADVANCE_TO ContinueBogusCommentState T source.

(** Looking for a literal in [currentState]: the three answers. *)
Definition lookFor (currentState : State) (result : AdvancePastResult * S) (matched : S -> outcome S)
    (otherwise : S -> outcome S) T : outcome S :=
  let '(result, source) := result in
  match result with
  | DidMatch => matched source
  | NotEnoughCharacters => RETURN_IN currentState (haveBufferedCharacterToken T) T source
  | DidNotMatch => otherwise source
  end.

Definition onMarkupDeclarationOpenState T character source : outcome S :=
  let otherwise source := RECONSUME_IN BogusCommentState character T source in
  if character =? chr "-" then
    lookFor MarkupDeclarationOpenState (advancePast false (chrs "--") source)
      (fun source => let! T := onToken HTMLToken.beginComment T in SWITCH_TO CommentStartState T source) otherwise T
  else if isASCIIAlphaCaselessEqual character (chr "d") then
    lookFor MarkupDeclarationOpenState (advancePast true (chrs "doctype") source)
      (SWITCH_TO DOCTYPEState T) otherwise T
  else if (character =? chr "[") && m_shouldAllowCDATA T then
    lookFor MarkupDeclarationOpenState (advancePast false (chrs "[CDATA[") source)
      (SWITCH_TO CDATASectionState T) otherwise T
  else otherwise source.

Definition onCommentStartState T character source : outcome S :=
  if character =? chr "-" then ADVANCE_PAST_NON_NEWLINE_TO CommentStartDashState T source
  else if character =? chr ">" then emitAndResumeInDataState T source
  else if character =? kEndOfFileMarker then emitAndReconsumeInDataState T source
  else
    let! T := onToken (HTMLToken.appendToComment character) T in
    ADVANCE_TO CommentState T source.

Definition onCommentStartDashState T character source : outcome S :=
  if character =? chr "-" then ADVANCE_PAST_NON_NEWLINE_TO CommentEndState T source
  else if character =? chr ">" then emitAndResumeInDataState T source
  else if character =? kEndOfFileMarker then emitAndReconsumeInDataState T source
  else
    let! T := onToken (HTMLToken.appendToComment (chr "-")) T in
    let! T := onToken (HTMLToken.appendToComment character) T in
    ADVANCE_TO CommentState T source.

Definition onCommentState T character source : outcome S :=
  if character =? chr "-" then ADVANCE_PAST_NON_NEWLINE_TO CommentEndDashState T source
  else if character =? kEndOfFileMarker then emitAndReconsumeInDataState T source
  else
    let! T := onToken (HTMLToken.appendToComment character) T in
    ADVANCE_TO CommentState T source.

Definition onCommentEndDashState T character source : outcome S :=
  if character =? chr "-" then ADVANCE_PAST_NON_NEWLINE_TO CommentEndState T source
  else if character =? kEndOfFileMarker then emitAndReconsumeInDataState T source
  else
    let! T := onToken (HTMLToken.appendToComment (chr "-")) T in
    let! T := onToken (HTMLToken.appendToComment character) T in
    ADVANCE_TO CommentState T source.

Definition onCommentEndState T character source : outcome S :=
  if character =? chr ">" then emitAndResumeInDataState T source
  else if character =? chr "!" then ADVANCE_PAST_NON_NEWLINE_TO CommentEndBangState T source
  else if character =? chr "-" then
    let! T := onToken (HTMLToken.appendToComment (chr "-")) T in
    ADVANCE_PAST_NON_NEWLINE_TO CommentEndState T source
  else if character =? kEndOfFileMarker then emitAndReconsumeInDataState T source
  else
    let! T := onToken (HTMLToken.appendToComment (chr "-")) T in
    let! T := onToken (HTMLToken.appendToComment (chr "-")) T in
    let! T := onToken (HTMLToken.appendToComment character) T in
    ADVANCE_TO CommentState T source.

Definition onCommentEndBangState T character source : outcome S :=
  if character =? chr "-" then
    let! T := onToken (HTMLToken.appendToComment (chr "-")) T in
    let! T := onToken (HTMLToken.appendToComment (chr "-")) T in
    let! T := onToken (HTMLToken.appendToComment (chr "!")) T in
    ADVANCE_PAST_NON_NEWLINE_TO CommentEndDashState T source
  else if character =? chr ">" then emitAndResumeInDataState T source
  else if character =? kEndOfFileMarker then emitAndReconsumeInDataState T source
  else
    let! T := onToken (HTMLToken.appendToComment (chr "-")) T in
    let! T := onToken (HTMLToken.appendToComment (chr "-")) T in
    let! T := onToken (HTMLToken.appendToComment (chr "!")) T in
    let! T := onToken (HTMLToken.appendToComment character) T in
    ADVANCE_TO CommentState T source.

(** Marking the doctype as forcing quirks, and then going on. *)
Definition quirksThen (k : t -> S -> outcome S) T source : outcome S :=
  let! T := onToken HTMLToken.setForceQuirks T in
  k T source.

Definition onDOCTYPEState T character source : outcome S :=
  if isTokenizerWhitespace character then ADVANCE_TO BeforeDOCTYPENameState T source
  else if character =? kEndOfFileMarker then
    let! T := onToken HTMLToken.beginDOCTYPE T in
    quirksThen emitAndReconsumeInDataState T source
  else RECONSUME_IN BeforeDOCTYPENameState character T source.

Definition onBeforeDOCTYPENameState T character source : outcome S :=
  if isTokenizerWhitespace character then ADVANCE_TO BeforeDOCTYPENameState T source
  else if character =? chr ">" then
    let! T := onToken HTMLToken.beginDOCTYPE T in
    quirksThen emitAndResumeInDataState T source
  else if character =? kEndOfFileMarker then
    let! T := onToken HTMLToken.beginDOCTYPE T in
    quirksThen emitAndReconsumeInDataState T source
  else
    let! T := onToken (HTMLToken.beginDOCTYPEWith (toASCIILower character)) T in
    ADVANCE_PAST_NON_NEWLINE_TO DOCTYPENameState T source.

Definition onDOCTYPENameState T character source : outcome S :=
  if isTokenizerWhitespace character then ADVANCE_TO AfterDOCTYPENameState T source
  else if character =? chr ">" then emitAndResumeInDataState T source
  else if character =? kEndOfFileMarker then quirksThen emitAndReconsumeInDataState T source
  else
    let! T := onToken (HTMLToken.appendToName (toASCIILower character)) T in
    ADVANCE_PAST_NON_NEWLINE_TO DOCTYPENameState T source.

Definition onAfterDOCTYPENameState T character source : outcome S :=
  let otherwise source := quirksThen (ADVANCE_PAST_NON_NEWLINE_TO BogusDOCTYPEState) T source in
  if isTokenizerWhitespace character then ADVANCE_TO AfterDOCTYPENameState T source
  else if character =? chr ">" then emitAndResumeInDataState T source
  else if character =? kEndOfFileMarker then quirksThen emitAndReconsumeInDataState T source
  else if isASCIIAlphaCaselessEqual character (chr "p") then
    lookFor AfterDOCTYPENameState (advancePast true (chrs "public") source)
      (SWITCH_TO AfterDOCTYPEPublicKeywordState T) otherwise T
  else if isASCIIAlphaCaselessEqual character (chr "s") then
    lookFor AfterDOCTYPENameState (advancePast true (chrs "system") source)
      (SWITCH_TO AfterDOCTYPESystemKeywordState T) otherwise T
  else otherwise source.

(** The states before a public identifier; [whitespaceState] is where they go
    on after whitespace. *)
Definition beforePublicIdentifier (whitespaceState : State) T character source : outcome S :=
  if isTokenizerWhitespace character then ADVANCE_TO whitespaceState T source
  else if character =? 34 then
    let! T := onToken HTMLToken.setPublicIdentifierToEmptyString T in
    ADVANCE_PAST_NON_NEWLINE_TO DOCTYPEPublicIdentifierDoubleQuotedState T source
  else if character =? 39 then
    let! T := onToken HTMLToken.setPublicIdentifierToEmptyString T in
    ADVANCE_PAST_NON_NEWLINE_TO DOCTYPEPublicIdentifierSingleQuotedState T source
  else if character =? chr ">" then quirksThen emitAndResumeInDataState T source
  else if character =? kEndOfFileMarker then quirksThen emitAndReconsumeInDataState T source
  else quirksThen (ADVANCE_PAST_NON_NEWLINE_TO BogusDOCTYPEState) T source.

Definition onAfterDOCTYPEPublicKeywordState T character source : outcome S :=
  beforePublicIdentifier BeforeDOCTYPEPublicIdentifierState T character source.

Definition onBeforeDOCTYPEPublicIdentifierState T character source : outcome S :=
  beforePublicIdentifier BeforeDOCTYPEPublicIdentifierState T character source.

(** The quoted identifier states: [append] appends to the identifier,
    [afterState] follows the quote. *)
Definition quotedIdentifier (quote : Z) (append : Z -> HTMLToken.t -> option HTMLToken.t)
    (currentState afterState : State) T character source : outcome S :=
  if character =? quote then ADVANCE_PAST_NON_NEWLINE_TO afterState T source
  else if character =? chr ">" then quirksThen emitAndResumeInDataState T source
  else if character =? kEndOfFileMarker then quirksThen emitAndReconsumeInDataState T source
  else
    let! T := onToken (append character) T in
    ADVANCE_TO currentState T source.

Definition onDOCTYPEPublicIdentifierDoubleQuotedState T character source : outcome S :=
  quotedIdentifier 34 HTMLToken.appendToPublicIdentifier
    DOCTYPEPublicIdentifierDoubleQuotedState AfterDOCTYPEPublicIdentifierState T character source.

Definition onDOCTYPEPublicIdentifierSingleQuotedState T character source : outcome S :=
  quotedIdentifier 39 HTMLToken.appendToPublicIdentifier
    DOCTYPEPublicIdentifierSingleQuotedState AfterDOCTYPEPublicIdentifierState T character source.

(** The two states between the identifiers. *)
Definition betweenIdentifiers T character source : outcome S :=
  if isTokenizerWhitespace character then ADVANCE_TO BetweenDOCTYPEPublicAndSystemIdentifiersState T source
  else if character =? chr ">" then emitAndResumeInDataState T source
  else if character =? 34 then
    let! T := onToken HTMLToken.setSystemIdentifierToEmptyString T in
    ADVANCE_PAST_NON_NEWLINE_TO DOCTYPESystemIdentifierDoubleQuotedState T source
  else if character =? 39 then
    let! T := onToken HTMLToken.setSystemIdentifierToEmptyString T in
    ADVANCE_PAST_NON_NEWLINE_TO DOCTYPESystemIdentifierSingleQuotedState T source
  else if character =? kEndOfFileMarker then quirksThen emitAndReconsumeInDataState T source
  else quirksThen (ADVANCE_PAST_NON_NEWLINE_TO BogusDOCTYPEState) T source.

Definition onAfterDOCTYPEPublicIdentifierState T character source : outcome S :=
  betweenIdentifiers T character source.

Definition onBetweenDOCTYPEPublicAndSystemIdentifiersState T character source : outcome S :=
  betweenIdentifiers T character source.

(** The two states before a system identifier. *)
Definition beforeSystemIdentifier T character source : outcome S :=
  if isTokenizerWhitespace character then ADVANCE_TO BeforeDOCTYPESystemIdentifierState T source
  else if character =? 34 then
    let! T := onToken HTMLToken.setSystemIdentifierToEmptyString T in
    ADVANCE_PAST_NON_NEWLINE_TO DOCTYPESystemIdentifierDoubleQuotedState T source
  else if character =? 39 then
    let! T := onToken HTMLToken.setSystemIdentifierToEmptyString T in
    ADVANCE_PAST_NON_NEWLINE_TO DOCTYPESystemIdentifierSingleQuotedState T source
  else if character =? chr ">" then quirksThen emitAndResumeInDataState T source
  else if character =? kEndOfFileMarker then quirksThen emitAndReconsumeInDataState T source
  else quirksThen (ADVANCE_PAST_NON_NEWLINE_TO BogusDOCTYPEState) T source.

Definition onAfterDOCTYPESystemKeywordState T character source : outcome S :=
  beforeSystemIdentifier T character source.

Definition onBeforeDOCTYPESystemIdentifierState T character source : outcome S :=
  beforeSystemIdentifier T character source.

Definition onDOCTYPESystemIdentifierDoubleQuotedState T character source : outcome S :=
  quotedIdentifier 34 HTMLToken.appendToSystemIdentifier
    DOCTYPESystemIdentifierDoubleQuotedState AfterDOCTYPESystemIdentifierState T character source.

Definition onDOCTYPESystemIdentifierSingleQuotedState T character source : outcome S :=
  quotedIdentifier 39 HTMLToken.appendToSystemIdentifier
    DOCTYPESystemIdentifierSingleQuotedState AfterDOCTYPESystemIdentifierState T character source.

Definition onAfterDOCTYPESystemIdentifierState T character source : outcome S :=
  if isTokenizerWhitespace character then ADVANCE_TO AfterDOCTYPESystemIdentifierState T source
  else if character =? chr ">" then emitAndResumeInDataState T source
  else if character =? kEndOfFileMarker then quirksThen emitAndReconsumeInDataState T source
  else ADVANCE_PAST_NON_NEWLINE_TO BogusDOCTYPEState T source.

Definition onBogusDOCTYPEState T character source : outcome S :=
  if character =? chr ">" then emitAndResumeInDataState T source
  else if character =? kEndOfFileMarker then emitAndReconsumeInDataState T source
  else ADVANCE_TO BogusDOCTYPEState T source.

Definition onCDATASectionState T character source : outcome S :=
  if character =? chr "]" then ADVANCE_PAST_NON_NEWLINE_TO CDATASectionRightSquareBracketState T source
  else if character =? kEndOfFileMarker then RECONSUME_IN DataState character T source
  else
    let! T := bufferCharacter character T in
    ADVANCE_TO CDATASectionState T source.

Definition onCDATASectionRightSquareBracketState T character source : outcome S :=
  if character =? chr "]" then ADVANCE_PAST_NON_NEWLINE_TO CDATASectionDoubleRightSquareBracketState T source
  else
    let! T := bufferASCIICharacter (chr "]") T in
    RECONSUME_IN CDATASectionState character T source.

Definition onCDATASectionDoubleRightSquareBracketState T character source : outcome S :=
  if character =? chr ">" then ADVANCE_PAST_NON_NEWLINE_TO DataState T source
  else
    let! T := bufferASCIICharacter (chr "]") T in
    let! T := bufferASCIICharacter (chr "]") T in
    RECONSUME_IN CDATASectionState character T source.

(** The switch of [processToken]. *)
Definition step (st : State) T character source : outcome S :=
  match st with
  | DataState => onDataState T character source
  | CharacterReferenceInDataState => onCharacterReferenceInDataState T character source
  | RCDATAState => onRCDATAState T character source
  | CharacterReferenceInRCDATAState => onCharacterReferenceInRCDATAState T character source
  | RAWTEXTState => onRAWTEXTState T character source
  | ScriptDataState => onScriptDataState T character source
  | PLAINTEXTState => onPLAINTEXTState T character source
  | TagOpenState => onTagOpenState T character source
  | EndTagOpenState => onEndTagOpenState T character source
  | TagNameState => onTagNameState T character source
  | RCDATALessThanSignState => onRCDATALessThanSignState T character source
  | RCDATAEndTagOpenState => onRCDATAEndTagOpenState T character source
  | RCDATAEndTagNameState => onRCDATAEndTagNameState T character source
  | RAWTEXTLessThanSignState => onRAWTEXTLessThanSignState T character source
  | RAWTEXTEndTagOpenState => onRAWTEXTEndTagOpenState T character source
  | RAWTEXTEndTagNameState => onRAWTEXTEndTagNameState T character source
  | ScriptDataLessThanSignState => onScriptDataLessThanSignState T character source
  | ScriptDataEndTagOpenState => onScriptDataEndTagOpenState T character source
  | ScriptDataEndTagNameState => onScriptDataEndTagNameState T character source
  | ScriptDataEscapeStartState => onScriptDataEscapeStartState T character source
  | ScriptDataEscapeStartDashState => onScriptDataEscapeStartDashState T character source
  | ScriptDataEscapedState => onScriptDataEscapedState T character source
  | ScriptDataEscapedDashState => onScriptDataEscapedDashState T character source
  | ScriptDataEscapedDashDashState => onScriptDataEscapedDashDashState T character source
  | ScriptDataEscapedLessThanSignState => onScriptDataEscapedLessThanSignState T character source
  | ScriptDataEscapedEndTagOpenState => onScriptDataEscapedEndTagOpenState T character source
  | ScriptDataEscapedEndTagNameState => onScriptDataEscapedEndTagNameState T character source
  | ScriptDataDoubleEscapeStartState => onScriptDataDoubleEscapeStartState T character source
  | ScriptDataDoubleEscapedState => onScriptDataDoubleEscapedState T character source
  | ScriptDataDoubleEscapedDashState => onScriptDataDoubleEscapedDashState T character source
  | ScriptDataDoubleEscapedDashDashState => onScriptDataDoubleEscapedDashDashState T character source
  | ScriptDataDoubleEscapedLessThanSignState => onScriptDataDoubleEscapedLessThanSignState T character source
  | ScriptDataDoubleEscapeEndState => onScriptDataDoubleEscapeEndState T character source
  | BeforeAttributeNameState => onBeforeAttributeNameState T character source
  | AttributeNameState => onAttributeNameState T character source
  | AfterAttributeNameState => onAfterAttributeNameState T character source
  | BeforeAttributeValueState => onBeforeAttributeValueState T character source
  | AttributeValueDoubleQuotedState => onAttributeValueDoubleQuotedState T character source
  | AttributeValueSingleQuotedState => onAttributeValueSingleQuotedState T character source
  | AttributeValueUnquotedState => onAttributeValueUnquotedState T character source
  | CharacterReferenceInAttributeValueState => onCharacterReferenceInAttributeValueState T character source
  | AfterAttributeValueQuotedState => onAfterAttributeValueQuotedState T character source
  | SelfClosingStartTagState => onSelfClosingStartTagState T character source
  | BogusCommentState => onBogusCommentState T character source
  | ContinueBogusCommentState => onContinueBogusCommentState T character source
  | MarkupDeclarationOpenState => onMarkupDeclarationOpenState T character source
  | CommentStartState => onCommentStartState T character source
  | CommentStartDashState => onCommentStartDashState T character source
  | CommentState => onCommentState T character source
  | CommentEndDashState => onCommentEndDashState T character source
  | CommentEndState => onCommentEndState T character source
  | CommentEndBangState => onCommentEndBangState T character source
  | DOCTYPEState => onDOCTYPEState T character source
  | BeforeDOCTYPENameState => onBeforeDOCTYPENameState T character source
  | DOCTYPENameState => onDOCTYPENameState T character source
  | AfterDOCTYPENameState => onAfterDOCTYPENameState T character source
  | AfterDOCTYPEPublicKeywordState => onAfterDOCTYPEPublicKeywordState T character source
  | BeforeDOCTYPEPublicIdentifierState => onBeforeDOCTYPEPublicIdentifierState T character source
  | DOCTYPEPublicIdentifierDoubleQuotedState => onDOCTYPEPublicIdentifierDoubleQuotedState T character source
  | DOCTYPEPublicIdentifierSingleQuotedState => onDOCTYPEPublicIdentifierSingleQuotedState T character source
  | AfterDOCTYPEPublicIdentifierState => onAfterDOCTYPEPublicIdentifierState T character source
  | BetweenDOCTYPEPublicAndSystemIdentifiersState => onBetweenDOCTYPEPublicAndSystemIdentifiersState T character source
  | AfterDOCTYPESystemKeywordState => onAfterDOCTYPESystemKeywordState T character source
  | BeforeDOCTYPESystemIdentifierState => onBeforeDOCTYPESystemIdentifierState T character source
  | DOCTYPESystemIdentifierDoubleQuotedState => onDOCTYPESystemIdentifierDoubleQuotedState T character source
  | DOCTYPESystemIdentifierSingleQuotedState => onDOCTYPESystemIdentifierSingleQuotedState T character source
  | AfterDOCTYPESystemIdentifierState => onAfterDOCTYPESystemIdentifierState T character source
  | BogusDOCTYPEState => onBogusDOCTYPEState T character source
  | CDATASectionState => onCDATASectionState T character source
  | CDATASectionRightSquareBracketState => onCDATASectionRightSquareBracketState T character source
  | CDATASectionDoubleRightSquareBracketState => onCDATASectionDoubleRightSquareBracketState T character source
  end.

(** Following the jumps; [None] is only the end of the fuel. *)
Fixpoint run (fuel : nat) (o : outcome S) : option (outcome S) :=
  match o with
  | Goto st character T source =>
      match fuel with
      | O => None
      | Datatypes.S fuel => run fuel (step st T character source)
      end
  | _ => Some o
  end.

(** The switch after the first peek. *)
Definition resume T source : outcome S :=
  let! p := peek (isNullCharacterSkippingState (m_state T)) T source in
  let '(peeked, T, source) := p in
  if negb peeked then Return (haveBufferedCharacterToken T) T source
  else Goto (m_state T) (m_nextInputCharacter T) T source.

Definition startToken T source : outcome S :=
  if negb (bool_decide (m_bufferedEndTagName T = [])) && negb (inEndTagBufferingState T) then
    let! T := flushBufferedEndTag T in
    if bool_decide (m_state T = DataState) then Return true T source else resume T source
  else resume T source.

Definition processToken (fuel : nat) T source : option (outcome S) := run fuel (startToken T source).

(** [nextToken] gives the caller a pointer that clears the token when it goes
    out of scope: the token, if there is one, and the tokenizer afterwards. *)
Definition clearToken T : t := set_token (HTMLToken.clear (m_token T)) T.

Definition nextToken (fuel : nat) T source : option (option HTMLToken.t * t * S) :=
  o ← processToken fuel T source;
  match o with
  | Return true T source => Some (Some (m_token T), clearToken T, source)
  | Return false T source => Some (None, T, source)
  | _ => None
  end.

(** All the tokens of a source, up to [n] of them or to the end of the file. *)
Fixpoint allTokens (n fuel : nat) T source : list HTMLToken.t :=
  match n with
  | O => []
  | Datatypes.S n =>
      match nextToken fuel T source with
      | Some (Some token, T, source) =>
          if HTMLToken.is_type [HTMLToken.EndOfFile] token then [token]
          else token :: allTokens n fuel T source
      | _ => []
      end
  end.

End States.

End HTMLTokenizerStates.
