(* ===== verification/HTMLTokenizerSafe.v ===== *)
(** * The HTML tokenizer: safety and termination

    The invariant of the tokenizer ties the state to the token being built and
    to the buffered end tag; every state keeps it, no assertion fails, and
    every jump consumes a character or goes down a ranking of the states. *)

From S2P Require Import Prelude ASCIICType SegmentedString HTMLEntitySearch HTMLEntityParser HTMLEntityCorrect HTMLToken HTMLTokenizer HTMLTokenizerStates.

Import HTMLTokenizer HTMLTokenizerStates.

(** ** The invariant *)

(** The kinds of token a state can be building. *)
Inductive Building := Text | Nothing | Tag | TagWithAttribute | BuildingComment | BuildingDoctype
  | DoctypeWithPublic | DoctypeWithSystem.

Definition building (st : State) : Building :=
  match st with
  | TagOpenState | EndTagOpenState | BogusCommentState | MarkupDeclarationOpenState
  | DOCTYPEState | BeforeDOCTYPENameState => Nothing
  | TagNameState | BeforeAttributeNameState | AfterAttributeValueQuotedState | SelfClosingStartTagState => Tag
  | AttributeNameState | AfterAttributeNameState | BeforeAttributeValueState | AttributeValueDoubleQuotedState
  | AttributeValueSingleQuotedState | AttributeValueUnquotedState
  | CharacterReferenceInAttributeValueState => TagWithAttribute
  | ContinueBogusCommentState | CommentStartState | CommentStartDashState | CommentState
  | CommentEndDashState | CommentEndState | CommentEndBangState => BuildingComment
  | DOCTYPENameState | AfterDOCTYPENameState | AfterDOCTYPEPublicKeywordState
  | BeforeDOCTYPEPublicIdentifierState | AfterDOCTYPEPublicIdentifierState
  | BetweenDOCTYPEPublicAndSystemIdentifiersState | AfterDOCTYPESystemKeywordState
  | BeforeDOCTYPESystemIdentifierState | AfterDOCTYPESystemIdentifierState | BogusDOCTYPEState => BuildingDoctype
  | DOCTYPEPublicIdentifierDoubleQuotedState | DOCTYPEPublicIdentifierSingleQuotedState => DoctypeWithPublic
  | DOCTYPESystemIdentifierDoubleQuotedState | DOCTYPESystemIdentifierSingleQuotedState => DoctypeWithSystem
  | _ => Text
  end.

(** What the token is like when it is being built so. *)
Definition TokenOk (k : Building) (token : HTMLToken.t) : Prop :=
  let ty := HTMLToken.m_type token in
  match k with
  | Text => ty = HTMLToken.Uninitialized \/ ty = HTMLToken.Character
  | Nothing => ty = HTMLToken.Uninitialized
  | Tag => ty = HTMLToken.StartTag \/ ty = HTMLToken.EndTag
  | TagWithAttribute =>
      (ty = HTMLToken.StartTag \/ ty = HTMLToken.EndTag) /\
      exists i a, HTMLToken.m_currentAttribute token = Some i /\ HTMLToken.m_attributes token !! i = Some a
  | BuildingComment => ty = HTMLToken.Comment
  | BuildingDoctype => ty = HTMLToken.DOCTYPE /\ exists d, HTMLToken.m_doctypeData token = Some d
  | DoctypeWithPublic =>
      ty = HTMLToken.DOCTYPE /\ exists d, HTMLToken.m_doctypeData token = Some d /\ hasPublicIdentifier d = true
  | DoctypeWithSystem =>
      ty = HTMLToken.DOCTYPE /\ exists d, HTMLToken.m_doctypeData token = Some d /\ hasSystemIdentifier d = true
  end.

(** The states in which the name of a possible end tag is buffered. *)
Definition endTagNameState (st : State) : bool :=
  match st with
  | RCDATAEndTagNameState | RAWTEXTEndTagNameState | ScriptDataEndTagNameState
  | ScriptDataEscapedEndTagNameState => true
  | _ => false
  end.

Definition BufferedOk (st : State) (buffered : list Z) : Prop :=
  if endTagNameState st then buffered <> [] else buffered = [].

Definition AdditionalOk (st : State) (additional : Z) : Prop :=
  match st with
  | CharacterReferenceInAttributeValueState => additional = 34 \/ additional = 39 \/ additional = 62
  | _ => True
  end.

(** The tokenizer can be in the state [st]. *)
Definition Inv (st : State) (T : t) : Prop :=
  TokenOk (building st) (m_token T) /\ BufferedOk st (m_bufferedEndTagName T) /\
  AdditionalOk st (m_additionalAllowedCharacter T).

(** Between two calls the tokenizer is in its state, or it has emitted the text
    before an end tag and is about to move the buffered name into the token. *)
Definition Pending (T : t) : Prop :=
  (m_state T = DataState \/ m_state T = BeforeAttributeNameState \/ m_state T = SelfClosingStartTagState) /\
  HTMLToken.m_type (m_token T) = HTMLToken.Uninitialized /\ m_bufferedEndTagName T <> [].

Definition Resting (T : t) : Prop := Inv (m_state T) T \/ Pending T.

(** A jump into a state: the data state accepts any token at the end of the
    file, since it drops it. *)
Definition JumpOk (st : State) (character : Z) (T : t) : Prop :=
  Inv st T \/ (st = DataState /\ character = 0 /\ m_bufferedEndTagName T = []).

(** The character the switch reads, from the characters of the source. *)
Definition CharacterOk (character : Z) (cs : list Z) (closed : bool) : Prop :=
  match cs with
  | [] => False
  | x :: cs' =>
      (character = x /\ x <> 13 /\ (x = 0 -> closed = true /\ cs' = [])) \/
      (x = 13 /\ character = 10) \/
      (x = 0 /\ character = replacementCharacter)
  end.

(** The ranking of the states: a jump that consumes nothing goes down. *)
Definition rank (st : State) : nat :=
  match st with
  | DataState | BeforeDOCTYPENameState | ContinueBogusCommentState
  | CommentStartState | CommentStartDashState | CommentState | CommentEndDashState | CommentEndState
  | CommentEndBangState | DOCTYPENameState | AfterDOCTYPENameState | AfterDOCTYPEPublicKeywordState
  | BeforeDOCTYPEPublicIdentifierState | DOCTYPEPublicIdentifierDoubleQuotedState
  | DOCTYPEPublicIdentifierSingleQuotedState | AfterDOCTYPEPublicIdentifierState
  | BetweenDOCTYPEPublicAndSystemIdentifiersState | AfterDOCTYPESystemKeywordState
  | BeforeDOCTYPESystemIdentifierState | DOCTYPESystemIdentifierDoubleQuotedState
  | DOCTYPESystemIdentifierSingleQuotedState | AfterDOCTYPESystemIdentifierState | BogusDOCTYPEState => 0
  | CharacterReferenceInDataState | RCDATAState | RAWTEXTState | ScriptDataState | PLAINTEXTState
  | ScriptDataEscapedState | ScriptDataEscapedDashState | ScriptDataEscapedDashDashState
  | ScriptDataDoubleEscapedState | ScriptDataDoubleEscapedDashState | ScriptDataDoubleEscapedDashDashState
  | BeforeAttributeNameState | AttributeNameState | AfterAttributeNameState | TagNameState
  | AttributeValueDoubleQuotedState | AttributeValueSingleQuotedState | AttributeValueUnquotedState
  | BogusCommentState | DOCTYPEState | CDATASectionState => 1
  | _ => 2
  end.

Section Safe.

Context {S : Type} `{InputStreamLaws S}.
Context (table : HTMLEntityTable) (Htable : TableOk table).

Implicit Types (cs : list Z) (b : bool) (s : S).

(** What a call leaves behind.  A start tag is emitted in the data state with
    nothing buffered, which is when the tree builder may change the state. *)
Definition ReturnedOk (result : bool) (T : t) : Prop :=
  if result then
    HTMLToken.m_type (m_token T) <> HTMLToken.Uninitialized /\ Resting (clearToken T) /\
    (HTMLToken.m_type (m_token T) = HTMLToken.StartTag -> m_state T = DataState /\ m_bufferedEndTagName T = [])
  else Resting T.

(** What a state does with at most [budget] left, reading [cs]. *)
Definition OutcomeOk (budget : nat) cs b (o : outcome S) : Prop :=
  match o with
  | Return result T s =>
      (exists cs', reads s cs' b /\ cs' `suffix_of` cs) /\ ReturnedOk result T
  | Goto st character T s =>
      exists cs', reads s cs' b /\ cs' `suffix_of` cs /\ CharacterOk character cs' b /\ JumpOk st character T /\
        (3 * List.length cs' + rank st < budget)%nat
  | AssertionFailure => False
  end.

(** ** The preprocessor *)

Lemma suffix_tail {A} (x : A) (l k : list A) : l `suffix_of` k -> l `suffix_of` (x :: k).
Proof. by apply suffix_cons_r. Qed.

Lemma specialCharacterMask_spec x :
  negb (Z.land x (Z.lnot (Z.lor 10 (Z.lor 13 0))) =? 0) = true -> x <> 0 /\ x <> 10 /\ x <> 13.
Proof. intros Hx. split_and!; intros ->; done. Qed.

(** The fields that a peek changes. *)
Lemma processNextInputCharacter_ok fuel skip T s cs b :
  reads s cs b -> cs <> [] -> (List.length cs <= fuel)%nat -> Z.of_nat (List.length cs) < 2 ^ 32 ->
  m_nextInputCharacter T = currentCharacter s ->
  exists r x y s' cs',
    processNextInputCharacter fuel skip T s = Some (r, set_input x y T, s') /\
    reads s' cs' b /\ cs' `suffix_of` cs /\ (if r then CharacterOk x cs' b else cs' = []).
Proof.
  revert T s cs. induction fuel as [|fuel IH]; intros T s cs Hr Hne Hf Hlen Hcur; [destruct cs; [done|cbn in Hf; lia]|].
  cbn [processNextInputCharacter].
  assert (Hskip : (exists y s', skipNewLine T s = inl (set_input (m_nextInputCharacter T) y T, s') /\ reads s' [] b) \/
    exists y s' x cs', skipNewLine T s = inr (set_input x y T, s') /\ reads s' (x :: cs') b /\ (x :: cs') `suffix_of` cs).
  { unfold skipNewLine. destruct cs as [|x cs]; [done|]. rewrite (reads_currentCharacter _ _ _ _ Hr) in Hcur.
    destruct ((m_nextInputCharacter T =? 10) && m_skipNextNewLine T).
    - pose proof (reads_advancePastNewline _ _ _ _ Hr) as Hr'. rewrite (reads_isEmpty _ _ _ Hr'). destruct cs as [|y cs].
      + left. by eexists _, _.
      + right. rewrite (reads_currentCharacter _ _ _ _ Hr'). eexists _, _, _, _. split; [done|]. split; [done|].
        by apply suffix_tail.
    - right. exists (m_skipNextNewLine T), s, x, cs. split; [|done]. by destruct T; cbn in *; subst. }
  destruct Hskip as [(y & s' & -> & Hr')|(y & s' & x & cs' & -> & Hr' & Hsuf)].
  { exists false, (m_nextInputCharacter T), y, s', []. split_and!; try done. apply suffix_nil. }
  cbn [m_nextInputCharacter set_input]. destruct (x =? 13) eqn:E13; zbool.
  { exists true, 10, true, s', (x :: cs'). split_and!; try done. right. by left. }
  destruct (negb (x =? 0) || isAtEndOfFile s') eqn:E0.
  { exists true, x, false, s', (x :: cs'). split_and!; try done. left. split_and!; try done. intros ->. cbn in E0.
    unfold isAtEndOfFile in E0. apply andb_true_iff in E0 as [Hcl Hl]. rewrite (reads_isClosed _ _ _ Hr') in Hcl.
    rewrite (reads_length _ _ _ Hr') in Hl by (apply suffix_length in Hsuf; lia). zbool.
    destruct cs'; [done|cbn in Hl; lia]. }
  apply orb_false_iff in E0 as [Ex E0]. zbool. subst x.
  destruct (skip && _).
  - destruct (advancePastNonNewlineAsserted_reads _ _ _ _ Hr') as (s'' & -> & Hr''); [lia|]. cbn [mbind option_bind].
    rewrite (reads_isEmpty _ _ _ Hr''). destruct cs' as [|x cs'].
    + exists false, 0, false, s'', []. split_and!; try done. apply suffix_nil.
    + destruct (IH (set_input (currentCharacter s'') false (set_input 0 false (set_input 0 y T))) s'' (x :: cs'))
        as (r & x' & y' & s3 & cs3 & -> & Hr3 & Hsuf3 & Hc); try done.
      { apply suffix_length in Hsuf. cbn in Hsuf, Hf |- *. lia. }
      { apply suffix_length in Hsuf. cbn in Hsuf |- *. lia. }
      exists r, x', y', s3, cs3. split_and!; try done. etrans; [done|]. etrans; [|done]. by apply suffix_tail.
  - exists true, replacementCharacter, false, s', (0 :: cs'). split_and!; try done. by right; right.
Qed.

Lemma peek_ok skip T s cs b :
  reads s cs b -> Z.of_nat (List.length cs) < 2 ^ 32 ->
  exists r x y s' cs',
    peek skip T s = Some (r, set_input x y T, s') /\
    reads s' cs' b /\ cs' `suffix_of` cs /\ (if r then CharacterOk x cs' b else cs' = []).
Proof.
  intros Hr Hlen. unfold peek. rewrite (reads_isEmpty _ _ _ Hr). destruct cs as [|x cs].
  { exists false, (m_nextInputCharacter T), (m_skipNextNewLine T), s, []. split_and!; try done. by destruct T. }
  rewrite (reads_currentCharacter _ _ _ _ Hr). cbn [m_nextInputCharacter set_input]. step_if.
  - apply specialCharacterMask_spec in Heqb0 as (? & ? & ?). exists true, x, false, s, (x :: cs).
    split_and!; try done. left. split_and!; try done.
  - rewrite (reads_length _ _ _ Hr) by done. rewrite Nat2Z.id.
    destruct (processNextInputCharacter_ok (List.length (x :: cs)) skip (set_input x (m_skipNextNewLine T) T) s (x :: cs) b)
      as (r & x' & y' & s' & cs' & -> & ?); try done.
    { by rewrite (reads_currentCharacter _ _ _ _ Hr). }
    by exists r, x', y', s', cs'.
Qed.

(** ** The macros *)

Lemma haveBuffered_type T : haveBufferedCharacterToken T = true <-> HTMLToken.m_type (m_token T) = HTMLToken.Character.
Proof.
  unfold haveBufferedCharacterToken, HTMLToken.is_type. cbn [existsb]. rewrite orb_false_r. apply bool_decide_eq_true.
Qed.

(** A text token can be taken away in any state that has one. *)
Lemma Inv_clear st T : Inv st T -> haveBufferedCharacterToken T = true -> Inv st (clearToken T).
Proof.
  intros (Ht & Hb & Ha) Hty%haveBuffered_type. split; [|done]. unfold TokenOk in *. rewrite Hty in Ht.
  destruct (building st); cbn in *; naive_solver.
Qed.

Lemma return_buffered st T s cs cs0 b budget :
  reads s cs b -> cs `suffix_of` cs0 -> Inv st T ->
  OutcomeOk budget cs0 b (Return (haveBufferedCharacterToken T) (set_state st T) s).
Proof.
  intros Hr Hsuf Hinv. split; [by exists cs|]. destruct (haveBufferedCharacterToken T) eqn:E; [|by left].
  split_and!; [|left; exact (Inv_clear st T Hinv E)|]; apply haveBuffered_type in E; cbn; by rewrite E.
Qed.

Lemma SWITCH_TO_ok st T s cs cs0 b budget :
  reads s cs b -> cs `suffix_of` cs0 -> Z.of_nat (List.length cs) < 2 ^ 32 -> Inv st T ->
  (3 * List.length cs + rank st < budget)%nat ->
  OutcomeOk budget cs0 b (SWITCH_TO st T s).
Proof.
  intros Hr Hsuf Hlen Hinv Hb. unfold SWITCH_TO.
  destruct (peek_ok (isNullCharacterSkippingState st) T s cs b Hr Hlen) as (r & x & y & s' & cs' & -> & Hr' & Hsuf' & Hc).
  cbn [bindOutcome]. assert (cs' `suffix_of` cs0) by (by etrans).
  destruct r; cbn [negb].
  - exists cs'. split_and!; try done; [by left|]. apply suffix_length in Hsuf'. lia.
  - exact (return_buffered st (set_input x y T) s' cs' cs0 b budget Hr' ltac:(done) Hinv).
Qed.

Lemma rank_le st : (rank st <= 2)%nat.
Proof. destruct st; cbn; lia. Qed.

Lemma ADVANCE_TO_ok st T s x cs b k :
  reads s (x :: cs) b -> Z.of_nat (List.length (x :: cs)) < 2 ^ 32 -> Inv st T ->
  OutcomeOk (3 * List.length (x :: cs) + k) (x :: cs) b (ADVANCE_TO st T s).
Proof.
  intros Hr Hlen Hinv. pose proof (rank_le st). cbn [List.length] in *.
  apply (SWITCH_TO_ok st T (advance s) cs); [by eapply reads_advance|by apply suffix_tail|lia|done|lia].
Qed.

Lemma ADVANCE_PAST_ok st T s x cs b k :
  reads s (x :: cs) b -> Z.of_nat (List.length (x :: cs)) < 2 ^ 32 -> x <> 10 -> Inv st T ->
  OutcomeOk (3 * List.length (x :: cs) + k) (x :: cs) b (ADVANCE_PAST_NON_NEWLINE_TO st T s).
Proof.
  intros Hr Hlen Hx Hinv. pose proof (rank_le st). cbn [List.length] in *. unfold ADVANCE_PAST_NON_NEWLINE_TO.
  destruct (advancePastNonNewlineAsserted_reads _ _ _ _ Hr Hx) as (s' & -> & Hr'). cbn [bindOutcome].
  apply (SWITCH_TO_ok st T s' cs); [done|by apply suffix_tail|lia|done|lia].
Qed.

Lemma RECONSUME_ok st c T s x cs b k :
  reads s (x :: cs) b -> CharacterOk c (x :: cs) b -> JumpOk st c T -> (rank st < k)%nat ->
  OutcomeOk (3 * List.length (x :: cs) + k) (x :: cs) b (RECONSUME_IN st c T s).
Proof. intros Hr Hc Hj Hk. exists (x :: cs). split_and!; try done. lia. Qed.

(** ** Emitting tokens *)

(** A token that can be emitted. *)
Definition Emittable (T : t) : Prop :=
  HTMLToken.m_type (m_token T) <> HTMLToken.Uninitialized /\ m_bufferedEndTagName T = [].

Lemma saveEndTagName_ok T :
  Emittable T -> exists T', saveEndTagNameIfNeeded T = Some T' /\ Emittable T' /\ m_token T' = m_token T.
Proof.
  intros [Hty Hb]. unfold saveEndTagNameIfNeeded, HTMLToken.getName, HTMLToken.is_type. cbn [existsb].
  rewrite (bool_decide_eq_false_2 (HTMLToken.m_type (m_token T) = HTMLToken.Uninitialized)) by done. cbn.
  case_bool_decide as E; cbn; eexists; by split_and!.
Qed.

Lemma Resting_emitted T : Emittable T -> Resting (clearToken (set_state DataState T)).
Proof. intros [_ Hb]. left. split_and!; [by left|done|done]. Qed.

Lemma emitAndReconsume_ok T s cs b budget :
  reads s cs b -> Emittable T -> OutcomeOk budget cs b (emitAndReconsumeInDataState T s).
Proof.
  intros Hr He. unfold emitAndReconsumeInDataState. destruct (saveEndTagName_ok T He) as (T' & -> & He' & Htok).
  cbn [bindOutcome]. split; [by exists cs|]. split_and!; [|by apply Resting_emitted|]; by destruct He'.
Qed.

Lemma emitAndResume_ok T s x cs b budget :
  reads s (x :: cs) b -> x <> 10 -> Emittable T -> OutcomeOk budget (x :: cs) b (emitAndResumeInDataState T s).
Proof.
  intros Hr Hx He. unfold emitAndResumeInDataState. destruct (saveEndTagName_ok T He) as (T' & -> & He' & Htok).
  cbn [bindOutcome]. destruct (advancePastNonNewlineAsserted_reads _ _ _ _ Hr Hx) as (s' & -> & Hr'). cbn [bindOutcome].
  split; [exists cs; split; [done|by apply suffix_tail]|]. split_and!; [|by apply Resting_emitted|]; by destruct He'.
Qed.

Lemma emitEndOfFile_ok T s x cs b budget :
  reads s (x :: cs) b -> m_bufferedEndTagName T = [] -> OutcomeOk budget (x :: cs) b (emitEndOfFile T s).
Proof.
  intros Hr Hb. unfold emitEndOfFile. change (haveBufferedCharacterToken (set_state DataState T)) with (haveBufferedCharacterToken T).
  destruct (haveBufferedCharacterToken T) eqn:E.
  - apply haveBuffered_type in E. split; [by exists (x :: cs)|]. split_and!; cbn; rewrite ?E; try done.
    left. by split_and!; [left|..].
  - cbn. split; [exists cs; split; [by eapply reads_advance|by apply suffix_tail]|]. split_and!; try done.
    left. by split_and!; [left|..].
Qed.

(** ** Operations on the token *)

Ltac token_op :=
  unfold TokenOk, HTMLToken.assert_, HTMLToken.is_type; intros;
  repeat match goal with
  | H : _ /\ _ |- _ => destruct H
  | H : exists _, _ |- _ => destruct H
  | H : _ \/ _ |- _ => destruct H
  | H : HTMLToken.m_type _ = _ |- _ => rewrite H
  | H : HTMLToken.m_currentAttribute _ = Some _ |- _ => rewrite H
  | H : HTMLToken.m_attributes _ !! _ = Some _ |- _ => rewrite H
  | H : HTMLToken.m_doctypeData _ = Some _ |- _ => rewrite H
  | H : ?c <> 0 |- _ => rewrite (proj2 (Z.eqb_neq c 0) H); clear H
  end.

Lemma beginStartTag_ok c token :
  TokenOk Nothing token -> c <> 0 -> exists token', HTMLToken.beginStartTag c token = Some token' /\ TokenOk Tag token'.
Proof. unfold HTMLToken.beginStartTag. token_op. cbn. eexists. split; [done|]. by left. Qed.

Lemma beginEndTag_ok c token :
  TokenOk Nothing token -> exists token', HTMLToken.beginEndTag c token = Some token' /\ TokenOk Tag token'.
Proof. unfold HTMLToken.beginEndTag. token_op. cbn. eexists. split; [done|]. by right. Qed.

Lemma beginEndTagWith_ok cs token :
  TokenOk Nothing token -> exists token', HTMLToken.beginEndTagWith cs token = Some token' /\ TokenOk Tag token'.
Proof. unfold HTMLToken.beginEndTagWith. token_op. cbn. eexists. split; [done|]. by right. Qed.

Lemma appendToName_ok c token :
  TokenOk Tag token -> c <> 0 -> exists token', HTMLToken.appendToName c token = Some token' /\ TokenOk Tag token'.
Proof. unfold HTMLToken.appendToName. token_op; cbn; eexists; (split; [done|]); auto. Qed.

Lemma appendToName_doctype_ok c token :
  TokenOk BuildingDoctype token -> c <> 0 ->
  exists token', HTMLToken.appendToName c token = Some token' /\ TokenOk BuildingDoctype token'.
Proof. unfold HTMLToken.appendToName. token_op; cbn; eexists; (split; [done|]); eauto. Qed.

Lemma beginAttribute_ok offset token :
  TokenOk Tag token -> exists token', HTMLToken.beginAttribute offset token = Some token' /\ TokenOk TagWithAttribute token'.
Proof.
  unfold HTMLToken.beginAttribute.
  token_op; cbn; eexists; (split; [done|]); (split; [auto|]); eexists _, _;
    (split; [done|]); apply (list_lookup_middle (HTMLToken.m_attributes token) []); done.
Qed.

Lemma updateAttribute_ok f token :
  TokenOk TagWithAttribute token ->
  exists i attributes a, HTMLToken.m_currentAttribute token = Some i /\
    HTMLToken.updateAttribute f token = Some attributes /\ attributes !! i = Some a.
Proof.
  intros (_ & i & a & Hi & Ha). unfold HTMLToken.updateAttribute. rewrite Hi. cbn [mbind option_bind]. rewrite Ha.
  cbn [mbind option_bind]. eexists i, _, (f a). split_and!; try done.
  apply list_lookup_insert_eq. by eapply lookup_lt_Some.
Qed.

Lemma tag_is_type types token :
  TokenOk Tag token -> types = [HTMLToken.StartTag; HTMLToken.EndTag] -> HTMLToken.is_type types token = true.
Proof. unfold HTMLToken.is_type. intros [-> | ->] ->; done. Qed.

Lemma attribute_tag token : TokenOk TagWithAttribute token -> TokenOk Tag token.
Proof. by intros []. Qed.

Lemma appendToAttributeName_ok c token :
  TokenOk TagWithAttribute token -> c <> 0 ->
  exists token', HTMLToken.appendToAttributeName c token = Some token' /\ TokenOk TagWithAttribute token'.
Proof.
  intros Ht Hc. unfold HTMLToken.appendToAttributeName. rewrite (proj2 (Z.eqb_neq c 0) Hc).
  rewrite tag_is_type by (done || by apply attribute_tag). cbn [negb andb HTMLToken.assert_].
  edestruct updateAttribute_ok as (i & atts & a & Hi & -> & Ha); [done|]. cbn [mbind option_bind].
  eexists. split; [done|]. split; [exact (attribute_tag _ Ht)|]. exists i, a. split; [exact Hi|exact Ha].
Qed.

Lemma appendToAttributeValue_ok c token :
  TokenOk TagWithAttribute token -> c <> 0 ->
  exists token', HTMLToken.appendToAttributeValue c token = Some token' /\ TokenOk TagWithAttribute token'.
Proof.
  intros Ht Hc. unfold HTMLToken.appendToAttributeValue. rewrite (proj2 (Z.eqb_neq c 0) Hc).
  rewrite tag_is_type by (done || by apply attribute_tag). cbn [negb andb HTMLToken.assert_].
  edestruct updateAttribute_ok as (i & atts & a & Hi & -> & Ha); [done|]. cbn [mbind option_bind].
  eexists. split; [done|]. split; [exact (attribute_tag _ Ht)|]. exists i, a. split; [exact Hi|exact Ha].
Qed.

Lemma endAttribute_ok offset token :
  TokenOk TagWithAttribute token ->
  exists token', HTMLToken.endAttribute offset token = Some token' /\ TokenOk Tag token'.
Proof.
  intros Ht. unfold HTMLToken.endAttribute.
  edestruct updateAttribute_ok as (i & atts & a & Hi & -> & Ha); [done|]. cbn [mbind option_bind].
  eexists. split; [done|]. exact (attribute_tag _ Ht).
Qed.

Lemma setSelfClosing_ok token :
  TokenOk Tag token -> exists token', HTMLToken.setSelfClosing token = Some token' /\ TokenOk Tag token'.
Proof.
  intros Ht. unfold HTMLToken.setSelfClosing. rewrite tag_is_type by done. eexists. split; [done|exact Ht].
Qed.

Lemma beginComment_ok token :
  TokenOk Nothing token -> exists token', HTMLToken.beginComment token = Some token' /\ TokenOk BuildingComment token'.
Proof. unfold HTMLToken.beginComment. token_op. cbn. by eexists. Qed.

Lemma appendToComment_ok c token :
  TokenOk BuildingComment token -> c <> 0 ->
  exists token', HTMLToken.appendToComment c token = Some token' /\ TokenOk BuildingComment token'.
Proof. unfold HTMLToken.appendToComment. token_op. cbn. by eexists. Qed.

Lemma beginDOCTYPE_ok token :
  TokenOk Nothing token -> exists token', HTMLToken.beginDOCTYPE token = Some token' /\ TokenOk BuildingDoctype token'.
Proof. unfold HTMLToken.beginDOCTYPE. token_op. cbn. eexists. split; [done|]. split; [done|]. by eexists. Qed.

Lemma beginDOCTYPEWith_ok c token :
  TokenOk Nothing token -> c <> 0 ->
  exists token', HTMLToken.beginDOCTYPEWith c token = Some token' /\ TokenOk BuildingDoctype token'.
Proof.
  unfold HTMLToken.beginDOCTYPEWith, HTMLToken.beginDOCTYPE. token_op. cbn.
  eexists. split; [done|]. split; [done|]. by eexists.
Qed.

Lemma setForceQuirks_ok token :
  TokenOk BuildingDoctype token ->
  exists token', HTMLToken.setForceQuirks token = Some token' /\ TokenOk BuildingDoctype token'.
Proof.
  unfold HTMLToken.setForceQuirks, HTMLToken.updateDoctype. token_op. cbn. eexists. split; [done|]. split; [done|]. by eexists.
Qed.

Lemma setPublicIdentifier_ok token :
  TokenOk BuildingDoctype token ->
  exists token', HTMLToken.setPublicIdentifierToEmptyString token = Some token' /\ TokenOk DoctypeWithPublic token'.
Proof.
  unfold HTMLToken.setPublicIdentifierToEmptyString, HTMLToken.updateDoctype. token_op. cbn.
  eexists. split; [done|]. split; [done|]. by eexists.
Qed.

Lemma setSystemIdentifier_ok token :
  TokenOk BuildingDoctype token ->
  exists token', HTMLToken.setSystemIdentifierToEmptyString token = Some token' /\ TokenOk DoctypeWithSystem token'.
Proof.
  unfold HTMLToken.setSystemIdentifierToEmptyString, HTMLToken.updateDoctype. token_op. cbn.
  eexists. split; [done|]. split; [done|]. by eexists.
Qed.

Lemma appendToPublicIdentifier_ok c token :
  TokenOk DoctypeWithPublic token -> c <> 0 ->
  exists token', HTMLToken.appendToPublicIdentifier c token = Some token' /\ TokenOk DoctypeWithPublic token'.
Proof.
  unfold HTMLToken.appendToPublicIdentifier, HTMLToken.updateDoctype. token_op. cbn.
  match goal with H : hasPublicIdentifier _ = true |- _ => rewrite H end. cbn.
  eexists. split; [done|]. split; [done|]. by eexists.
Qed.

Lemma appendToSystemIdentifier_ok c token :
  TokenOk DoctypeWithSystem token -> c <> 0 ->
  exists token', HTMLToken.appendToSystemIdentifier c token = Some token' /\ TokenOk DoctypeWithSystem token'.
Proof.
  unfold HTMLToken.appendToSystemIdentifier, HTMLToken.updateDoctype. token_op. cbn.
  match goal with H : hasSystemIdentifier _ = true |- _ => rewrite H end. cbn.
  eexists. split; [done|]. split; [done|]. by eexists.
Qed.

Lemma appendToCharacter8_ok c token :
  TokenOk Text token -> exists token', HTMLToken.appendToCharacter8 c token = Some token' /\ TokenOk Text token'.
Proof. unfold HTMLToken.appendToCharacter8. token_op; cbn; eexists; (split; [done|]); by right. Qed.

Lemma appendToCharacter_ok c token :
  TokenOk Text token -> exists token', HTMLToken.appendToCharacter c token = Some token' /\ TokenOk Text token'.
Proof. unfold HTMLToken.appendToCharacter. token_op; cbn; eexists; (split; [done|]); by right. Qed.

Lemma appendToCharacterVector_ok cs token :
  TokenOk Text token -> exists token', HTMLToken.appendToCharacterVector cs token = Some token' /\ TokenOk Text token'.
Proof. unfold HTMLToken.appendToCharacterVector. token_op; cbn; eexists; (split; [done|]); by right. Qed.

Lemma nothing_text token : TokenOk Nothing token -> TokenOk Text token.
Proof. by left. Qed.

Lemma public_doctype token : TokenOk DoctypeWithPublic token -> TokenOk BuildingDoctype token.
Proof. intros (? & d & ? & _). split; [done|by exists d]. Qed.

Lemma system_doctype token : TokenOk DoctypeWithSystem token -> TokenOk BuildingDoctype token.
Proof. intros (? & d & ? & _). split; [done|by exists d]. Qed.

End Safe.
