(* ===== verification/HTMLTokenizerSteps.v ===== *)
(** * The HTML tokenizer: every state keeps the invariant

    [step_ok] is proved state by state with one tactic that follows the tests of
    a state and applies the lemmas of HTMLTokenizerSafe to the macro or token
    operation at the end of each path. *)

From S2P Require Import Prelude ASCIICType SegmentedString HTMLEntitySearch HTMLEntityParser HTMLEntityCorrect HTMLToken HTMLTokenizer HTMLTokenizerStates HTMLTokenizerSafe.

Import HTMLTokenizer HTMLTokenizerStates.

Create HintDb handlers.
#[local] Hint Unfold onDataState onCharacterReferenceInDataState onRCDATAState onCharacterReferenceInRCDATAState onRAWTEXTState onScriptDataState onPLAINTEXTState onTagOpenState onEndTagOpenState onTagNameState onRCDATALessThanSignState onRCDATAEndTagOpenState onRCDATAEndTagNameState onRAWTEXTLessThanSignState onRAWTEXTEndTagOpenState onRAWTEXTEndTagNameState onScriptDataLessThanSignState onScriptDataEndTagOpenState onScriptDataEndTagNameState onScriptDataEscapeStartState onScriptDataEscapeStartDashState onScriptDataEscapedState onScriptDataEscapedDashState onScriptDataEscapedDashDashState onScriptDataEscapedLessThanSignState onScriptDataEscapedEndTagOpenState onScriptDataEscapedEndTagNameState onScriptDataDoubleEscapeStartState onScriptDataDoubleEscapedState onScriptDataDoubleEscapedDashState onScriptDataDoubleEscapedDashDashState onScriptDataDoubleEscapedLessThanSignState onScriptDataDoubleEscapeEndState onBeforeAttributeNameState onAttributeNameState onAfterAttributeNameState onBeforeAttributeValueState onAttributeValueDoubleQuotedState onAttributeValueSingleQuotedState onAttributeValueUnquotedState onCharacterReferenceInAttributeValueState onAfterAttributeValueQuotedState onSelfClosingStartTagState onBogusCommentState onContinueBogusCommentState onMarkupDeclarationOpenState onCommentStartState onCommentStartDashState onCommentState onCommentEndDashState onCommentEndState onCommentEndBangState onDOCTYPEState onBeforeDOCTYPENameState onDOCTYPENameState onAfterDOCTYPENameState onAfterDOCTYPEPublicKeywordState onBeforeDOCTYPEPublicIdentifierState onDOCTYPEPublicIdentifierDoubleQuotedState onDOCTYPEPublicIdentifierSingleQuotedState onAfterDOCTYPEPublicIdentifierState onBetweenDOCTYPEPublicAndSystemIdentifiersState onAfterDOCTYPESystemKeywordState onBeforeDOCTYPESystemIdentifierState onDOCTYPESystemIdentifierDoubleQuotedState onDOCTYPESystemIdentifierSingleQuotedState onAfterDOCTYPESystemIdentifierState onBogusDOCTYPEState onCDATASectionState onCDATASectionRightSquareBracketState onCDATASectionDoubleRightSquareBracketState
  onEndTagOpen onAttributeValueQuoted beforePublicIdentifier quotedIdentifier betweenIdentifiers
  beforeSystemIdentifier : handlers.

Section Steps.

Context {S : Type} `{InputStreamLaws S}.
Context (table : HTMLEntityTable) (Htable : TableOk table).

Implicit Types (T : t) (cs : list Z) (b : bool) (s : S).

(** ** Operations that can fail, followed by the rest of a state *)

Lemma bind_token (f : HTMLToken.t -> option HTMLToken.t) (P : HTMLToken.t -> Prop) T budget cs b (k : t -> outcome S) :
  (exists token, f (m_token T) = Some token /\ P token) ->
  (forall token, P token -> OutcomeOk budget cs b (k (set_token token T))) ->
  OutcomeOk budget cs b (bindOutcome (onToken f T) k).
Proof. intros (token & Hf & HP) Hk. unfold onToken. rewrite Hf. cbn. by apply Hk. Qed.

Lemma bind_bufferASCII c T budget cs b (k : t -> outcome S) :
  TokenOk Text (m_token T) -> 0 < c < 128 ->
  (forall token, TokenOk Text token -> OutcomeOk budget cs b (k (set_token token T))) ->
  OutcomeOk budget cs b (bindOutcome (bufferASCIICharacter c T) k).
Proof.
  intros Ht Hc Hk. unfold bufferASCIICharacter, kEndOfFileMarker.
  rewrite (proj2 (Z.eqb_neq c 0)), isASCII_spec, (proj2 (Z.ltb_lt c 128)) by lia. cbn [negb andb HTMLToken.assert_].
  eapply bind_token; [by apply appendToCharacter8_ok|done].
Qed.

Lemma bind_buffer c T budget cs b (k : t -> outcome S) :
  TokenOk Text (m_token T) -> c <> 0 ->
  (forall token, TokenOk Text token -> OutcomeOk budget cs b (k (set_token token T))) ->
  OutcomeOk budget cs b (bindOutcome (bufferCharacter c T) k).
Proof.
  intros Ht Hc Hk. unfold bufferCharacter, kEndOfFileMarker.
  rewrite (proj2 (Z.eqb_neq c 0)) by lia. cbn [negb HTMLToken.assert_].
  eapply bind_token; [by apply appendToCharacter_ok|done].
Qed.

Lemma bind_temporary c T budget cs b (k : t -> outcome S) :
  0 < c < 128 ->
  OutcomeOk budget cs b (k (set_temporary (m_temporaryBuffer T ++ [c]) T)) ->
  OutcomeOk budget cs b (bindOutcome (appendToTemporaryBuffer c T) k).
Proof. intros Hc Hk. unfold appendToTemporaryBuffer. rewrite isASCII_spec, (proj2 (Z.ltb_lt c 128)) by lia. done. Qed.

Lemma bind_possibleEndTag c T budget cs b (k : t -> outcome S) :
  0 < c < 128 ->
  OutcomeOk budget cs b (k (set_buffered (m_bufferedEndTagName T ++ [c]) T)) ->
  OutcomeOk budget cs b (bindOutcome (appendToPossibleEndTag c T) k).
Proof. intros Hc Hk. unfold appendToPossibleEndTag. rewrite isASCII_spec, (proj2 (Z.ltb_lt c 128)) by lia. done. Qed.

Lemma emittable_kind k token :
  TokenOk k token -> k <> Text -> k <> Nothing -> HTMLToken.m_type token <> HTMLToken.Uninitialized.
Proof. intros Ht ?? Hu. unfold TokenOk in Ht. rewrite Hu in Ht. destruct k; naive_solver. Qed.

(** ** Characters *)

Lemma CharacterOk_newline c x cs b : CharacterOk c (x :: cs) b -> c <> 10 -> x <> 10.
Proof. cbn. unfold replacementCharacter. lia. Qed.

Lemma whitespace_newline c : isTokenizerWhitespace c = false -> c <> 10.
Proof. unfold isTokenizerWhitespace. rewrite !orb_false_iff, !Z.eqb_neq. lia. Qed.

Lemma delimiter_range c : isTokenizerWhitespace c || (c =? 47) || (c =? 62) = true -> 0 < c < 128.
Proof. unfold isTokenizerWhitespace. rewrite !orb_true_iff, !Z.eqb_eq. lia. Qed.

Lemma alpha_newline c : isASCIIAlpha c = true -> c <> 10.
Proof. intros Ha%isASCIIAlpha_spec. lia. Qed.

Lemma toASCIILower_nonzero c : c <> 0 -> toASCIILower c <> 0.
Proof. intros Hc. rewrite toASCIILower_spec. unfold isASCIIUpper. step_if; zbool; lia. Qed.

Lemma convertASCIIAlphaToLower_range c : isASCIIAlpha c = true -> 0 < convertASCIIAlphaToLower c < 128.
Proof. intros Ha%isASCIIAlpha_lower. unfold convertASCIIAlphaToLower. lia. Qed.

Lemma isASCIIAlpha_range c : isASCIIAlpha c = true -> 0 < c < 128.
Proof. intros Ha%isASCIIAlpha_spec. lia. Qed.

End Steps.

(** ** The tactic *)

Ltac character_fact :=
  unfold kEndOfFileMarker in *;
  match goal with
  | H : isTokenizerWhitespace ?c = false |- ?c <> 10 => exact (whitespace_newline c H)
  | H : isASCIIAlpha ?c = true |- ?c <> 10 => exact (alpha_newline c H)
  | |- toASCIILower _ <> 0 => apply toASCIILower_nonzero; character_fact
  | H : isASCIIAlpha ?c = true |- 0 < ?c < 128 => exact (isASCIIAlpha_range c H)
  | H : isASCIIAlpha ?c = true |- 0 < convertASCIIAlphaToLower ?c < 128 => exact (convertASCIIAlphaToLower_range c H)
  | H : isASCIIAlpha ?c = true |- convertASCIIAlphaToLower ?c <> 0 =>
      let F := fresh in pose proof (convertASCIIAlphaToLower_range c H) as F; lia
  | H : isTokenizerWhitespace ?c || (?c =? 47) || (?c =? 62) = true |- 0 < ?c < 128 =>
      exact (delimiter_range c H)
  | |- _ => zbool; lia
  end.

Create HintDb tokens.
#[global] Hint Resolve attribute_tag nothing_text public_doctype system_doctype : tokens.

(** The members of the tokenizer after assignments. *)
Ltac members :=
  cbn [building BufferedOk endTagNameState AdditionalOk m_token m_bufferedEndTagName m_additionalAllowedCharacter
       m_temporaryBuffer set_token set_buffers set_temporary set_buffered set_appropriate set_additional set_state].

Ltac token_kind := members; eauto with tokens.

(** The lemma of the operation that a state does on the token. *)
Ltac token_operation :=
  members;
  first
  [ eapply beginStartTag_ok | eapply beginEndTag_ok | eapply appendToName_ok; [solve [token_kind]|]
  | eapply appendToName_doctype_ok | eapply beginAttribute_ok
  | eapply appendToAttributeName_ok | eapply appendToAttributeValue_ok | eapply endAttribute_ok | eapply setSelfClosing_ok
  | eapply beginComment_ok | eapply appendToComment_ok | eapply beginDOCTYPE_ok | eapply beginDOCTYPEWith_ok
  | eapply setForceQuirks_ok | eapply setPublicIdentifier_ok | eapply setSystemIdentifier_ok
  | eapply appendToPublicIdentifier_ok | eapply appendToSystemIdentifier_ok | eapply appendToCharacterVector_ok ];
  solve [token_kind | character_fact].

Ltac emittable :=
  split; members; [eapply emittable_kind; [eassumption|done|done] | done].

Ltac inv_ok := split_and!; members; solve [token_kind | done | auto | by destruct (m_bufferedEndTagName _)].

Ltac jump_ok := first [left; inv_ok | right; split_and!; members; zbool; done].

Ltac follow :=
  first
  [ match goal with |- OutcomeOk _ _ _ (if ?c then _ else _) => destruct c eqn:? end
  | apply ADVANCE_TO_ok; [done|done|inv_ok]
  | apply ADVANCE_PAST_ok; [done|done|eapply CharacterOk_newline; [done|character_fact]|inv_ok]
  | apply RECONSUME_ok; [done|done|jump_ok|cbn; lia]
  | apply emitAndResume_ok; [done|eapply CharacterOk_newline; [done|character_fact]|emittable]
  | apply emitAndReconsume_ok; [done|emittable]
  | apply bind_bufferASCII; [solve [token_kind]|character_fact|intros ? ?]
  | apply bind_buffer; [solve [token_kind]|character_fact|intros ? ?]
  | apply bind_temporary; [character_fact|]
  | apply bind_possibleEndTag; [character_fact|]
  | eapply bind_token; [solve [token_operation]|intros ? ?]
  | progress unfold quirksThen
  | progress cbn zeta ].

Section StepOk.

Context {S : Type} `{InputStreamLaws S}.
Context (table : HTMLEntityTable) (Htable : TableOk table).

Implicit Types (T : t) (cs : list Z) (b : bool) (s : S).

(** The states whose tests and operations the tactic follows to their end; the
    others have their own lemmas. *)
Definition special (st : State) : bool :=
  match st with
  | DataState | CharacterReferenceInDataState | CharacterReferenceInRCDATAState
  | CharacterReferenceInAttributeValueState
  | RCDATAEndTagNameState | RAWTEXTEndTagNameState | ScriptDataEndTagNameState | ScriptDataEscapedEndTagNameState
  | RCDATALessThanSignState | RAWTEXTLessThanSignState | ScriptDataLessThanSignState
  | ScriptDataEscapedLessThanSignState | MarkupDeclarationOpenState | AfterDOCTYPENameState => true
  | _ => false
  end.

Lemma step_plain st T c s x cs b :
  special st = false ->
  Inv st T -> reads s (x :: cs) b -> CharacterOk c (x :: cs) b -> Z.of_nat (List.length (x :: cs)) < 2 ^ 32 ->
  OutcomeOk (3 * List.length (x :: cs) + rank st) (x :: cs) b (step table st T c s).
Proof.
  intros Hsp (Ht & Hb & Ha) Hr Hc Hlen.
  destruct st; try discriminate Hsp; clear Hsp;
    cbn [building] in Ht; cbn [BufferedOk endTagNameState] in Hb; cbn [step]; autounfold with handlers;
    repeat follow.
Qed.

(** ** The data state, and the states that may begin an end tag *)

Lemma step_data T c s x cs b :
  JumpOk DataState c T -> reads s (x :: cs) b -> CharacterOk c (x :: cs) b -> Z.of_nat (List.length (x :: cs)) < 2 ^ 32 ->
  OutcomeOk (3 * List.length (x :: cs) + rank DataState) (x :: cs) b (onDataState T c s).
Proof.
  intros Hj Hr Hc Hlen. unfold onDataState.
  destruct (c =? kEndOfFileMarker) eqn:E0.
  { unfold kEndOfFileMarker in E0. zbool. subst c. cbn. apply emitEndOfFile_ok; [done|].
    destruct Hj as [(_ & Hb & _)|(_ & _ & Hb)]; exact Hb. }
  destruct Hj as [(Ht & Hb & Ha)|(_ & -> & _)]; [|done]. cbn [building] in Ht. cbn [BufferedOk endTagNameState] in Hb.
  destruct (c =? 38) eqn:?; [by follow|]. destruct (c =? 60) eqn:?; [|by repeat follow].
  destruct (haveBufferedCharacterToken T) eqn:Ehave.
  - pose proof (return_buffered DataState T s (x :: cs) (x :: cs) b (3 * List.length (x :: cs) + rank DataState)) as Hret.
    rewrite Ehave in Hret. apply Hret; [done|done|]. by split_and!.
  - apply ADVANCE_PAST_ok; [done|done|eapply CharacterOk_newline; [done|character_fact]|].
    split_and!; members; [|done|done]. destruct Ht as [Ht|Ht]; [done|]. apply haveBuffered_type in Ht. congruence.
Qed.

Lemma beginEndTagBuffering_ok st T c s x cs b k :
  building st = Text -> endTagNameState st = false -> AdditionalOk st (m_additionalAllowedCharacter T) ->
  TokenOk Text (m_token T) -> m_bufferedEndTagName T = [] ->
  reads s (x :: cs) b -> CharacterOk c (x :: cs) b -> c <> 10 -> Z.of_nat (List.length (x :: cs)) < 2 ^ 32 ->
  OutcomeOk (3 * List.length (x :: cs) + k) (x :: cs) b (beginEndTagBuffering st T s).
Proof.
  intros Hbuild Hst Ha Ht Hb Hr Hc Hc10 Hlen. unfold beginEndTagBuffering. members. rewrite Hb.
  apply ADVANCE_PAST_ok; [done|done|by eapply CharacterOk_newline|].
  split_and!; members; [by rewrite Hbuild|by unfold BufferedOk; rewrite Hst|done].
Qed.

Lemma step_lessThanSign st T c s x cs b :
  In st [RCDATALessThanSignState; RAWTEXTLessThanSignState; ScriptDataLessThanSignState; ScriptDataEscapedLessThanSignState] ->
  Inv st T -> reads s (x :: cs) b -> CharacterOk c (x :: cs) b -> Z.of_nat (List.length (x :: cs)) < 2 ^ 32 ->
  OutcomeOk (3 * List.length (x :: cs) + rank st) (x :: cs) b (step table st T c s).
Proof.
  intros Hin (Ht & Hb & Ha) Hr Hc Hlen.
  repeat destruct Hin as [<-|Hin]; [| | | |done]; cbn [building] in Ht; cbn [BufferedOk endTagNameState] in Hb; cbn [step];
    autounfold with handlers;
    (destruct (c =? 47) eqn:?; [apply (beginEndTagBuffering_ok _ _ c); try done; character_fact|]); repeat follow.
Qed.

(** ** End tags in raw text *)

Lemma flushBufferedEndTag_ok T :
  TokenOk Nothing (m_token T) ->
  exists token, flushBufferedEndTag T = Some (set_buffers [] [] [] (set_token token T)) /\ TokenOk Tag token.
Proof.
  intros Ht. unfold flushBufferedEndTag, onToken.
  destruct (beginEndTagWith_ok (m_bufferedEndTagName T) (m_token T) Ht) as (token & -> & Htag).
  cbn [mbind option_bind]. by exists token.
Qed.

Lemma text_or_nothing T :
  TokenOk Text (m_token T) -> haveBufferedCharacterToken T = false -> TokenOk Nothing (m_token T).
Proof. intros [Ht|Ht] Hh; [done|]. apply haveBuffered_type in Ht. congruence. Qed.

(** A character that is not a carriage return is the source's own. *)
Lemma CharacterOk_current c x cs b :
  CharacterOk c (x :: cs) b -> 13 ∉ x :: cs -> c <> replacementCharacter -> c = x.
Proof. intros [[-> _]|[[-> _]|[_ ->]]] H13 Hc; [done| |done]. destruct H13. by left. Qed.

(** Emitting the text before an end tag whose name is buffered. *)
Lemma Pending_return st T s cs cs0 b budget :
  st = DataState \/ st = BeforeAttributeNameState \/ st = SelfClosingStartTagState ->
  reads s cs b -> cs `suffix_of` cs0 -> haveBufferedCharacterToken T = true -> m_bufferedEndTagName T <> [] ->
  OutcomeOk budget cs0 b (Return true (set_state st T) s).
Proof.
  intros Hst Hr Hsuf Hh%haveBuffered_type Hb. split; [by exists cs|]. split_and!; cbn; rewrite ?Hh; try done. right. by split_and!.
Qed.

Lemma commitOrSwitch_ok st T c s x cs b k :
  st = BeforeAttributeNameState \/ st = SelfClosingStartTagState ->
  TokenOk Text (m_token T) -> m_bufferedEndTagName T <> [] ->
  reads s (x :: cs) b -> Z.of_nat (List.length (x :: cs)) < 2 ^ 32 -> c = x -> 0 < c < 128 ->
  OutcomeOk (3 * List.length (x :: cs) + k) (x :: cs) b (commitOrSwitch st T c s).
Proof.
  intros Hst Ht Hb Hr Hlen -> Hx. pose proof (reads_advance _ _ _ _ Hr) as Hr'.
  unfold commitOrSwitch, commitToPartialEndTag.
  rewrite (reads_currentCharacter _ _ _ _ Hr), Z.eqb_refl. cbn [HTMLToken.assert_].
  unfold appendToTemporaryBuffer. rewrite isASCII_spec, (proj2 (Z.ltb_lt x 128)) by lia. cbn [HTMLToken.assert_ mbind option_bind].
  set (T' := set_temporary _ T). assert (Hh : haveBufferedCharacterToken T' = haveBufferedCharacterToken T) by done.
  destruct (haveBufferedCharacterToken T') eqn:E; cbn [bindOutcome].
  - apply (Pending_return st T' (advance s) cs); try done; [tauto|by apply suffix_tail].
  - destruct (flushBufferedEndTag_ok T') as (token & -> & Htag); [apply text_or_nothing; [exact Ht|exact E]|].
    cbn [mbind option_bind bindOutcome]. cbn [List.length] in *. pose proof (rank_le st).
    apply (SWITCH_TO_ok st _ (advance s) cs); [done|by apply suffix_tail|lia| |lia].
    by destruct Hst as [-> | ->]; split_and!.
Qed.

Lemma commitToCompleteEndTag_ok T s x cs b k :
  TokenOk Text (m_token T) -> m_bufferedEndTagName T <> [] -> reads s (x :: cs) b -> x = 62 ->
  OutcomeOk (3 * List.length (x :: cs) + k) (x :: cs) b (commitToCompleteEndTag T s).
Proof.
  intros Ht Hb Hr ->. unfold commitToCompleteEndTag. rewrite (reads_currentCharacter _ _ _ _ Hr), Z.eqb_refl. cbn [negb].
  unfold appendToTemporaryBuffer. rewrite isASCII_spec by lia. cbn [Z.ltb Z.compare HTMLToken.assert_ bindOutcome].
  change (62 <? 128) with true. cbn [HTMLToken.assert_ bindOutcome].
  destruct (advancePastNonNewlineAsserted_reads _ _ _ _ Hr) as (s' & -> & Hr'); [lia|]. cbn [bindOutcome]. cbn zeta.
  set (T' := set_state DataState _). assert (Hh : haveBufferedCharacterToken T' = haveBufferedCharacterToken T) by done.
  assert (Hsuf : cs `suffix_of` (62 :: cs)) by (by apply suffix_tail).
  destruct (haveBufferedCharacterToken T') eqn:E.
  - apply (Pending_return DataState T' s' cs); auto.
  - destruct (flushBufferedEndTag_ok T') as (token & -> & Htag); [apply text_or_nothing; [exact Ht|exact E]|].
    cbn [bindOutcome]. split; [by exists cs|].
    split_and!; [by eapply (emittable_kind Tag)|left; by split_and!; [left|..]|done].
Qed.

Lemma abandonEndTag_ok textState T c s x cs b k :
  building textState = Text -> endTagNameState textState = false -> AdditionalOk textState (m_additionalAllowedCharacter T) ->
  (rank textState < k)%nat ->
  TokenOk Text (m_token T) -> reads s (x :: cs) b -> CharacterOk c (x :: cs) b ->
  OutcomeOk (3 * List.length (x :: cs) + k) (x :: cs) b (abandonEndTag textState T c s).
Proof.
  intros Hbuild Hend Ha Hk Ht Hr Hc. unfold abandonEndTag. do 3 follow. cbn zeta.
  apply RECONSUME_ok; [done|done| |done]. left.
  split_and!; members; [by rewrite Hbuild|by unfold BufferedOk; rewrite Hend|done].
Qed.

Lemma whitespace_range c : isTokenizerWhitespace c = true -> 0 < c < 128 /\ c <> replacementCharacter.
Proof. unfold isTokenizerWhitespace, replacementCharacter. rewrite !orb_true_iff, !Z.eqb_eq. lia. Qed.

Lemma onEndTagName_ok nameState textState T c s x cs b :
  endTagNameState nameState = true -> building nameState = Text ->
  building textState = Text -> endTagNameState textState = false -> AdditionalOk textState (m_additionalAllowedCharacter T) ->
  (rank textState < 2)%nat ->
  Inv nameState T -> reads s (x :: cs) b -> CharacterOk c (x :: cs) b -> 13 ∉ x :: cs ->
  Z.of_nat (List.length (x :: cs)) < 2 ^ 32 ->
  OutcomeOk (3 * List.length (x :: cs) + 2) (x :: cs) b (onEndTagName nameState textState T c s).
Proof.
  intros Hend Hbuild Htext Hendt Hat Hrank (Ht & Hb & Ha) Hr Hc H13 Hlen. unfold onEndTagName.
  rewrite Hbuild in Ht. unfold BufferedOk in Hb. rewrite Hend in Hb.
  pose proof (CharacterOk_current c x cs b Hc H13) as Hcur.
  repeat match goal with |- OutcomeOk _ _ _ (if ?g then _ else _) => destruct g eqn:? end;
    try (by apply abandonEndTag_ok).
  - do 2 follow. apply ADVANCE_PAST_ok; [done|done|eapply CharacterOk_newline; [done|character_fact]|].
    split_and!; members; [by rewrite Hbuild| |by destruct nameState].
    unfold BufferedOk. rewrite Hend. by destruct (m_bufferedEndTagName T).
  - destruct (whitespace_range c) as [? ?]; [done|]. apply commitOrSwitch_ok; auto.
  - zbool. subst c. apply commitOrSwitch_ok; auto; try lia; by apply Hcur.
  - zbool. subst c. apply commitToCompleteEndTag_ok; auto. symmetry. by apply Hcur.
Qed.

Lemma step_endTagName st T c s x cs b :
  endTagNameState st = true -> Inv st T -> reads s (x :: cs) b -> CharacterOk c (x :: cs) b -> 13 ∉ x :: cs ->
  Z.of_nat (List.length (x :: cs)) < 2 ^ 32 ->
  OutcomeOk (3 * List.length (x :: cs) + rank st) (x :: cs) b (step table st T c s).
Proof.
  intros Hst Hinv Hr Hc H13 Hlen. destruct st; try discriminate Hst; cbn [step rank]; autounfold with handlers;
    apply onEndTagName_ok; try done; cbn; lia.
Qed.

(** ** Character references *)

Lemma bufferCharacters_ok decoded T :
  TokenOk Text (m_token T) -> Forall codeUnit decoded ->
  exists token, bufferCharacters decoded T = Some (set_token token T) /\ TokenOk Text token.
Proof.
  intros Ht Hd. revert T Ht. induction Hd as [|c decoded Hc Hd IH]; intros T Ht; cbn [bufferCharacters].
  { exists (m_token T). split; [by destruct T|done]. }
  unfold bufferCharacter, kEndOfFileMarker, onToken. rewrite (proj2 (Z.eqb_neq c 0)) by (unfold codeUnit in Hc; lia).
  destruct (appendToCharacter_ok c (m_token T) Ht) as (token & -> & Ht'). cbn [negb HTMLToken.assert_ mbind option_bind].
  destruct (IH (set_token token T) Ht') as (token' & -> & ?). by exists token'.
Qed.

Lemma appendToAttributeValues_ok decoded T :
  TokenOk TagWithAttribute (m_token T) -> Forall codeUnit decoded ->
  exists token, appendToAttributeValues decoded T = Some (set_token token T) /\ TokenOk TagWithAttribute token.
Proof.
  intros Ht Hd. revert T Ht. induction Hd as [|c decoded Hc Hd IH]; intros T Ht; cbn [appendToAttributeValues].
  { exists (m_token T). split; [by destruct T|done]. }
  unfold onToken. destruct (appendToAttributeValue_ok c (m_token T) Ht) as (token & -> & Ht'); [unfold codeUnit in Hc; lia|].
  cbn [mbind option_bind]. destruct (IH (set_token token T) Ht') as (token' & -> & ?). by exists token'.
Qed.

Lemma processEntity_ok T s x cs b :
  TokenOk Text (m_token T) -> reads s (x :: cs) b -> Z.of_nat (List.length (x :: cs)) < 2 ^ 32 ->
  exists processed token s' cs',
    processEntity table T s = Some (processed, set_token token T, s') /\ TokenOk Text token /\
    reads s' cs' b /\ cs' `suffix_of` (x :: cs) /\ (processed = false -> token = m_token T).
Proof.
  intros Ht Hr Hlen. unfold processEntity.
  destruct (consumeHTMLEntity_total table Htable s 0 x cs b eq_refl Hr Hlen) as (r & -> & Hout). cbn [mbind option_bind].
  destruct Hout as [(ne & Hs & Hne & Hd & Hr')|(decoded & pre & rest & Hcs & _ & (Hs & Hne & Hd & Hr') & _ & HF)];
    rewrite Hne, Hs.
  - destruct ne.
    + exists false, (m_token T), (HTMLEntityParser.source r), (x :: cs). split_and!; try done. by destruct T.
    + cbn [negb]. destruct (appendToCharacter8_ok 38 (m_token T) Ht) as (token & Happ & Ht').
      exists true, token, (HTMLEntityParser.source r), (x :: cs). split_and!; try done.
      unfold bufferASCIICharacter, onToken. rewrite Happ. done.
  - cbn [negb]. rewrite Hd. destruct (bufferCharacters_ok decoded T Ht HF) as (token & -> & Ht').
    exists true, token, (HTMLEntityParser.source r), rest. split_and!; try done. rewrite Hcs. by exists pre.
Qed.

Lemma step_reference st T c s x cs b :
  st = CharacterReferenceInDataState \/ st = CharacterReferenceInRCDATAState ->
  Inv st T -> reads s (x :: cs) b -> Z.of_nat (List.length (x :: cs)) < 2 ^ 32 ->
  OutcomeOk (3 * List.length (x :: cs) + rank st) (x :: cs) b (step table st T c s).
Proof.
  intros Hst (Ht & Hb & Ha) Hr Hlen.
  assert (TokenOk Text (m_token T) /\ m_bufferedEndTagName T = []) as [Ht' Hb'] by (by destruct Hst as [-> | ->]).
  destruct (processEntity_ok T s x cs b Ht' Hr Hlen) as (processed & token & s' & cs' & Hrun & Htok & Hr' & Hsuf & Hsame).
  assert (Hlen' : (List.length cs' <= List.length (x :: cs))%nat) by (by apply suffix_length).
  destruct Hst as [-> | ->]; cbn [step]; autounfold with handlers; unfold onCharacterReference; rewrite Hrun; cbn [bindOutcome];
    (destruct processed; cbn [negb];
     [ apply (SWITCH_TO_ok _ _ s' cs'); [done|done|lia| |cbn [rank]; lia]; by split_and!
     | apply (return_buffered _ (set_token token T) s' cs'); [done|done|]; by split_and! ]).
Qed.

Lemma step_attributeReference T c s x cs b :
  Inv CharacterReferenceInAttributeValueState T -> reads s (x :: cs) b -> Z.of_nat (List.length (x :: cs)) < 2 ^ 32 ->
  OutcomeOk (3 * List.length (x :: cs) + rank CharacterReferenceInAttributeValueState) (x :: cs) b
    (onCharacterReferenceInAttributeValueState table T c s).
Proof.
  intros (Ht & Hb & Ha) Hr Hlen. cbn [building] in Ht. cbn [AdditionalOk] in Ha. cbn [BufferedOk endTagNameState] in Hb.
  unfold onCharacterReferenceInAttributeValueState.
  destruct (consumeHTMLEntity_total table Htable s (m_additionalAllowedCharacter T) x cs b) as (r & -> & Hout); [|done|done|].
  { by destruct Ha as [-> | [-> | ->]]. }
  cbn [bindOutcome].
  assert (Hfinish : forall token s' cs', TokenOk TagWithAttribute token -> reads s' cs' b -> cs' `suffix_of` (x :: cs) ->
    OutcomeOk (3 * List.length (x :: cs) + 2) (x :: cs) b
      (let T := set_token token T in
       if m_additionalAllowedCharacter T =? 34 then SWITCH_TO AttributeValueDoubleQuotedState T s'
       else if m_additionalAllowedCharacter T =? 39 then SWITCH_TO AttributeValueSingleQuotedState T s'
       else if negb (m_additionalAllowedCharacter T =? 62) then AssertionFailure
       else SWITCH_TO AttributeValueUnquotedState T s')).
  { intros token s' cs' Ht' Hr' Hsuf. pose proof (suffix_length _ _ Hsuf) as Hl. cbn zeta. members.
    destruct Ha as [-> | [-> | ->]]; cbn [Z.eqb Pos.eqb negb];
      apply (SWITCH_TO_ok _ _ s' cs'); try done; try lia; try (by split_and!); cbn [rank]; lia. }
  destruct Hout as [(ne & Hs & Hne & Hd & Hr')|(decoded & pre & rest & Hcs & _ & (Hs & Hne & Hd & Hr') & _ & HF)];
    rewrite Hne, Hs.
  - destruct ne; cbn [negb].
    + apply (return_buffered _ T _ (x :: cs)); [done|done|]. by split_and!.
    + unfold onToken. destruct (appendToAttributeValue_ok 38 (m_token T) Ht) as (token & -> & Ht'); [lia|].
      cbn [mbind option_bind bindOutcome]. by apply (Hfinish token _ (x :: cs)).
  - cbn [negb]. rewrite Hd. destruct (appendToAttributeValues_ok decoded T Ht HF) as (token & -> & Ht').
    cbn [bindOutcome]. apply (Hfinish token _ rest); [done|done|]. rewrite Hcs. by exists pre.
Qed.

(** ** Look-ahead *)

Lemma lookFor_ok current ignoreCase literal matched otherwise T s x cs b k :
  Inv current T -> reads s (x :: cs) b -> Z.of_nat (List.length (x :: cs)) < 2 ^ 32 -> literal <> [] ->
  (forall s' cs', reads s' cs' b -> (List.length cs' <= List.length cs)%nat -> cs' `suffix_of` (x :: cs) ->
     OutcomeOk (3 * List.length (x :: cs) + k) (x :: cs) b (matched s')) ->
  (forall s', reads s' (x :: cs) b -> OutcomeOk (3 * List.length (x :: cs) + k) (x :: cs) b (otherwise s')) ->
  OutcomeOk (3 * List.length (x :: cs) + k) (x :: cs) b
    (lookFor current (advancePast ignoreCase literal s) matched otherwise T).
Proof.
  intros Hinv Hr Hlen Hne Hm Ho. unfold lookFor.
  destruct (reads_advancePast s ignoreCase literal (x :: cs) b Hr Hlen) as (s' & -> & Hr').
  rewrite Z.leb_antisym in Hr'. destruct (_ <? _); cbn [negb andb] in Hr'.
  - by apply (return_buffered current T s' (x :: cs)).
  - destruct (prefixMatches ignoreCase literal (x :: cs)); [|by apply Ho].
    destruct literal as [|l literal]; [done|]. cbn [List.length drop] in Hr'.
    apply (Hm s' _ Hr'); [rewrite length_drop; lia|].
    exists (x :: take (List.length literal) cs). cbn. by rewrite take_drop.
Qed.

Lemma step_markupDeclaration T c s x cs b :
  Inv MarkupDeclarationOpenState T -> reads s (x :: cs) b -> CharacterOk c (x :: cs) b ->
  Z.of_nat (List.length (x :: cs)) < 2 ^ 32 ->
  OutcomeOk (3 * List.length (x :: cs) + rank MarkupDeclarationOpenState) (x :: cs) b (onMarkupDeclarationOpenState T c s).
Proof.
  intros Hinv Hr Hc Hlen. pose proof Hinv as (Ht & Hb & Ha). cbn [building] in Ht. cbn [BufferedOk endTagNameState] in Hb.
  unfold onMarkupDeclarationOpenState. cbn zeta.
  assert (Hswitch : forall st T' s' cs', Inv st T' -> reads s' cs' b -> (List.length cs' <= List.length cs)%nat ->
    cs' `suffix_of` (x :: cs) ->
    OutcomeOk (3 * List.length (x :: cs) + rank MarkupDeclarationOpenState) (x :: cs) b (SWITCH_TO st T' s')).
  { intros st T' s' cs' Hi Hr' Hl Hsuf. pose proof (rank_le st). cbn [List.length] in *.
    apply (SWITCH_TO_ok st T' s' cs'); try done; lia. }
  repeat step_if;
    try (apply lookFor_ok; [done|done|done|done| |intros s' Hr'; by follow]; intros s' cs' Hr' Hl Hsuf).
  - eapply bind_token; [by apply beginComment_ok|intros token Htok]. by apply (Hswitch _ _ s' cs').
  - by apply (Hswitch _ _ s' cs').
  - apply (Hswitch _ _ s' cs'); try done. split_and!; members; token_kind.
  - by follow.
Qed.

Lemma step_afterDOCTYPEName T c s x cs b :
  Inv AfterDOCTYPENameState T -> reads s (x :: cs) b -> CharacterOk c (x :: cs) b ->
  Z.of_nat (List.length (x :: cs)) < 2 ^ 32 ->
  OutcomeOk (3 * List.length (x :: cs) + rank AfterDOCTYPENameState) (x :: cs) b (onAfterDOCTYPENameState T c s).
Proof.
  intros Hinv Hr Hc Hlen. pose proof Hinv as (Ht & Hb & Ha). cbn [building] in Ht. cbn [BufferedOk endTagNameState] in Hb.
  unfold onAfterDOCTYPENameState. cbn zeta.
  assert (Hswitch : forall st T' s' cs', Inv st T' -> reads s' cs' b -> (List.length cs' <= List.length cs)%nat ->
    cs' `suffix_of` (x :: cs) ->
    OutcomeOk (3 * List.length (x :: cs) + rank AfterDOCTYPENameState) (x :: cs) b (SWITCH_TO st T' s')).
  { intros st T' s' cs' Hi Hr' Hl Hsuf. pose proof (rank_le st). cbn [List.length] in *.
    apply (SWITCH_TO_ok st T' s' cs'); try done; lia. }
  do 3 (step_if; [by repeat follow|]).
  repeat step_if;
    try (apply lookFor_ok; [done|done|done|done|intros s' cs' Hr' Hl Hsuf; by apply (Hswitch _ _ s' cs')|intros s' Hr'; by repeat follow]).
  by repeat follow.
Qed.

(** ** Every state *)

Lemma step_ok st T c s x cs b :
  JumpOk st c T -> reads s (x :: cs) b -> CharacterOk c (x :: cs) b -> 13 ∉ x :: cs ->
  Z.of_nat (List.length (x :: cs)) < 2 ^ 32 ->
  OutcomeOk (3 * List.length (x :: cs) + rank st) (x :: cs) b (step table st T c s).
Proof.
  intros Hj Hr Hc H13 Hlen. destruct (decide (st = DataState)) as [->|Hne]; [by apply step_data|].
  destruct Hj as [Hinv|[? _]]; [|done]. destruct (special st) eqn:Esp; [|by apply step_plain].
  destruct (endTagNameState st) eqn:Eend; [by apply step_endTagName|].
  destruct st; try discriminate Esp; try discriminate Eend; try done.
  all: first [ by apply step_reference; auto | by apply step_attributeReference | by apply step_lessThanSign; cbn; auto 10
             | by apply step_markupDeclaration | by apply step_afterDOCTYPEName ].
Qed.

(** ** Whole calls *)

(** The end of a call: a return with the tokenizer at rest. *)
Definition ReturnOk cs b (o : outcome S) : Prop :=
  match o with
  | Return result T s =>
      (exists cs', reads s cs' b /\ cs' `suffix_of` cs) /\ ReturnedOk result T
  | _ => False
  end.

Lemma OutcomeOk_return budget cs b o :
  OutcomeOk budget cs b o -> (forall st c T s, o <> Goto st c T s) -> ReturnOk cs b o.
Proof. destruct o; cbn; [done| |done]. intros _ Hn. by destruct (Hn st character T source). Qed.

Lemma ReturnOk_suffix cs cs' b o : cs' `suffix_of` cs -> ReturnOk cs' b o -> ReturnOk cs b o.
Proof.
  intros Hsuf. destruct o; cbn; [|done|done]. intros [(cs'' & Hr & Hs) Hrest]. split; [|done].
  exists cs''. split; [done|by etrans].
Qed.

Lemma run_ok budget fuel cs b o :
  OutcomeOk budget cs b o -> 13 ∉ cs -> Z.of_nat (List.length cs) < 2 ^ 32 -> (budget <= fuel)%nat ->
  exists o', run table fuel o = Some o' /\ ReturnOk cs b o'.
Proof.
  revert fuel cs o. induction budget as [budget IH] using lt_wf_ind. intros fuel cs o Ho H13 Hlen Hf.
  destruct o as [result T s|st c T s|]; [by destruct fuel; eexists| |done].
  destruct Ho as (cs' & Hr & Hsuf & Hc & Hj & Hb). destruct fuel as [|fuel]; [lia|]. cbn [run].
  assert (Hlen' : Z.of_nat (List.length cs') < 2 ^ 32) by (apply suffix_length in Hsuf; lia).
  assert (H13' : 13 ∉ cs') by (intros Hin; apply H13; destruct Hsuf as [k ->]; set_solver).
  destruct cs' as [|x cs']; [done|].
  pose proof (step_ok st T c s x cs' b Hj Hr Hc H13' Hlen') as Hstep.
  destruct (IH _ Hb fuel (x :: cs') (step table st T c s) Hstep H13' Hlen') as (o' & -> & Ho'); [lia|].
  exists o'. split; [done|]. by eapply ReturnOk_suffix.
Qed.

Lemma resume_ok T s cs b :
  Inv (m_state T) T -> reads s cs b -> Z.of_nat (List.length cs) < 2 ^ 32 ->
  OutcomeOk (3 * List.length cs + 3) cs b (resume T s).
Proof.
  intros Hinv Hr Hlen. unfold resume.
  destruct (peek_ok (isNullCharacterSkippingState (m_state T)) T s cs b Hr Hlen) as (r & x & y & s' & cs' & -> & Hr' & Hsuf & Hc).
  cbn [bindOutcome]. destruct r; cbn [negb].
  - exists cs'. split_and!; try done; [by left|]. apply suffix_length in Hsuf. pose proof (rank_le (m_state T)). cbn. lia.
  - exact (return_buffered (m_state T) (set_input x y T) s' cs' cs b _ Hr' Hsuf Hinv).
Qed.

Lemma endTagBuffering_pending T : Pending T -> inEndTagBufferingState T = false.
Proof. intros [[H'|[H'|H']] _]; unfold inEndTagBufferingState; by rewrite H'. Qed.

Lemma startToken_ok T s cs b :
  Resting T -> reads s cs b -> Z.of_nat (List.length cs) < 2 ^ 32 ->
  OutcomeOk (3 * List.length cs + 3) cs b (startToken T s).
Proof.
  intros Hrest Hr Hlen. unfold startToken. destruct Hrest as [Hinv|Hpend].
  - destruct Hinv as (Ht & Hb & Ha). unfold BufferedOk in Hb.
    destruct (bool_decide (m_bufferedEndTagName T = [])) eqn:E; [by apply resume_ok|].
    apply bool_decide_eq_false in E. destruct (endTagNameState (m_state T)) eqn:Es; [|done].
    assert (inEndTagBufferingState T = true) as -> by (unfold inEndTagBufferingState; by destruct (m_state T)).
    apply resume_ok; try done. split_and!; try done. unfold BufferedOk. by rewrite Es.
  - rewrite (endTagBuffering_pending T Hpend). destruct Hpend as (Hst & Hty & Hb).
    rewrite bool_decide_eq_false_2 by done. cbn [negb andb].
    destruct (flushBufferedEndTag_ok T Hty) as (token & -> & Htag). cbn [bindOutcome].
    change (m_state (set_buffers [] [] [] (set_token token T))) with (m_state T).
    destruct Hst as [Hst|Hst].
    + rewrite bool_decide_eq_true_2 by done. split; [by exists cs|]. split_and!; [by eapply (emittable_kind Tag)| |done].
      left. change (m_state (clearToken _)) with (m_state T). rewrite Hst. by split_and!; [left|..].
    + rewrite bool_decide_eq_false_2 by (destruct Hst; congruence).
      apply resume_ok; try done. change (m_state (set_buffers _ _ _ _)) with (m_state T).
      by destruct Hst as [-> | ->]; split_and!.
Qed.

End StepOk.
