(* ===== verification/HTMLTokenizerCorrect.v ===== *)
(** * The HTML tokenizer: the properties of whole calls *)

From S2P Require Import Prelude ASCIICType SegmentedString HTMLEntitySearch HTMLEntityParser HTMLEntityCorrect HTMLToken HTMLTokenizer HTMLTokenizerStates HTMLTokenizerSafe HTMLTokenizerSteps.

Import HTMLTokenizer HTMLTokenizerStates.

(** ** The tokenizers a parser can reach

    A new tokenizer; the tokenizer after a call on any source without carriage
    returns; and, when a call gave a start tag, the tokenizer switched to a
    text state by the tree builder. *)

Definition textState (st : State) : Prop :=
  st = DataState \/ st = RCDATAState \/ st = RAWTEXTState \/ st = ScriptDataState \/ st = PLAINTEXTState.

Inductive Reachable {S : Type} `{InputStreamLaws S} (table : HTMLEntityTable) : t -> Prop :=
  | reach_init options st : textState st -> Reachable table (set_state st (init options))
  | reach_call fuel T (s : S) cs b token T' s' :
      Reachable table T -> reads s cs b -> 13 ∉ cs -> Z.of_nat (List.length cs) < 2 ^ 32 ->
      nextToken table fuel T s = Some (token, T', s') -> Reachable table T'
  | reach_switch fuel T (s : S) cs b token T' s' st :
      Reachable table T -> reads s cs b -> 13 ∉ cs -> Z.of_nat (List.length cs) < 2 ^ 32 ->
      nextToken table fuel T s = Some (Some token, T', s') -> HTMLToken.m_type token = HTMLToken.StartTag ->
      textState st -> Reachable table (set_state st T')
  | reach_flags T force cdata :
      Reachable table T -> Reachable table (setForceNullCharacterReplacement force (setShouldAllowCDATA cdata T)).

Section Calls.

Context {S : Type} `{InputStreamLaws S}.
Context (table : HTMLEntityTable) (Htable : TableOk table).

Lemma processToken_returns T (s : S) cs b fuel :
  Resting T -> reads s cs b -> 13 ∉ cs -> Z.of_nat (List.length cs) < 2 ^ 32 -> (3 * List.length cs + 3 <= fuel)%nat ->
  exists o, processToken table fuel T s = Some o /\ ReturnOk cs b o.
Proof.
  intros Hrest Hr H13 Hlen Hf. unfold processToken.
  apply (run_ok table Htable (3 * List.length cs + 3)); try done. by apply startToken_ok.
Qed.

(** More fuel changes nothing. *)
Lemma run_fuel fuel fuel' (o o' : outcome S) :
  run table fuel o = Some o' -> (fuel <= fuel')%nat -> run table fuel' o = Some o'.
Proof.
  revert fuel' o. induction fuel as [|fuel IH]; intros fuel' o Hrun Hle.
  - destruct o; try done; by destruct fuel'.
  - destruct o; try (by destruct fuel'). destruct fuel' as [|fuel']; [lia|]. cbn in Hrun |- *. apply IH; [done|lia].
Qed.

Lemma nextToken_ok fuel T (s : S) cs b token T' s' :
  Resting T -> reads s cs b -> 13 ∉ cs -> Z.of_nat (List.length cs) < 2 ^ 32 ->
  nextToken table fuel T s = Some (token, T', s') ->
  Resting T' /\ (forall tok, token = Some tok -> HTMLToken.m_type tok = HTMLToken.StartTag ->
    m_state T' = DataState /\ m_bufferedEndTagName T' = []).
Proof.
  intros Hrest Hr H13 Hlen Hnext. unfold nextToken in Hnext.
  destruct (processToken table fuel T s) as [o|] eqn:Ho; [|done]. cbn [mbind option_bind] in Hnext.
  destruct (processToken_returns T s cs b (Nat.max fuel (3 * List.length cs + 3)) Hrest Hr H13 Hlen) as (o' & Ho' & Hret); [lia|].
  unfold processToken in Ho, Ho'. rewrite (run_fuel _ (Nat.max fuel (3 * List.length cs + 3)) _ _ Ho) in Ho' by lia.
  injection Ho' as <-. destruct o as [[] T1 s1| |]; try done; destruct Hret as [_ Hret]; injection Hnext as <- <- <-.
  - destruct Hret as (_ & Hrest' & Hstart). split; [done|]. intros tok [= <-] Hty. by apply Hstart.
  - split; [exact Hret|]. by intros.
Qed.

Lemma Resting_switch T st :
  m_state T = DataState -> m_bufferedEndTagName T = [] -> Resting T -> textState st -> Resting (set_state st T).
Proof.
  intros Hst Hb [(Ht & _ & _)|(_ & _ & Hp)] Hts; [|done]. left. rewrite Hst in Ht.
  unfold Inv. change (m_state (set_state st T)) with st.
  by destruct Hts as [-> | [-> | [-> | [-> | ->]]]]; split_and!.
Qed.

Lemma Reachable_Resting T : Reachable (S := S) table T -> Resting T.
Proof.
  induction 1 as [options st Hst|fuel T s cs b token T' s' _ IH Hr H13 Hlen Hn|fuel T s cs b token T' s' st _ IH Hr H13 Hlen Hn Hty Hst|T force cdata _ IH].
  - apply Resting_switch; try done. left. by split_and!; [left|..].
  - by eapply nextToken_ok.
  - destruct (nextToken_ok _ _ _ _ _ _ _ _ IH Hr H13 Hlen Hn) as [Hrest Hstart]. destruct (Hstart token) as [? ?]; try done.
    by apply Resting_switch.
  - exact IH.
Qed.

End Calls.


Definition defaultOptions : HTMLParserOptions := mkOptions true true false.

(** A source with the marker the parser appends at the end of the file. *)
Definition wholeFile (str : list Z) : SegmentedString.t :=
  SegmentedString.close (SegmentedString.SegmentedString_of true (str ++ [kEndOfFileMarker])).

Lemma wholeFile_reads str : reads (wholeFile str) (str ++ [0]) true.
Proof.
  unfold reads, wholeFile. cbn [wf view SegmentedString_laws].
  destruct (SegmentedString.SegmentedString_of_view true (str ++ [kEndOfFileMarker])) as [Hw Hv]. split; [exact Hw|].
  change (Stream.close (SegmentedString.toStream (SegmentedString.SegmentedString_of true (str ++ [kEndOfFileMarker])))
          = Stream.mk (str ++ [0]) true). by rewrite Hv.
Qed.


(** With a carriage return after the name of an appropriate end tag the
    assertion of [commitToPartialEndTag] that the source's character is the
    tokenizer's fails, since the preprocessor turned the carriage return into a
    newline: the restriction of the safety theorem to input without carriage
    returns is needed. *)
Theorem carriage_return_assertion :
  processToken sampleTable 100
    (set_appropriate (chrs "title") (set_state RCDATAState (init defaultOptions)))
    (wholeFile (chrs "</title" ++ [13] ++ chrs ">"))
  = Some AssertionFailure.
Proof. vm_compute. reflexivity. Qed.

