(* ===== verification/HTMLTokenizerText.v ===== *)
(** * The HTML tokenizer: the input preprocessor and text *)

From S2P Require Import Prelude ASCIICType SegmentedString HTMLEntitySearch HTMLEntityParser HTMLEntityCorrect HTMLToken HTMLTokenizer HTMLTokenizerStates HTMLTokenizerSafe HTMLTokenizerSteps HTMLTokenizerCorrect.

Import HTMLTokenizer HTMLTokenizerStates.

(** ** The next input character

    The preprocessing of the input stream: a carriage return is a newline, a
    newline after a carriage return ([skip]) is nothing, a zero character is
    dropped or replaced unless it marks the end of the file.  The character,
    whether a newline that follows is to be skipped, and the characters left,
    which begin with the one read. *)
Fixpoint nextInput (dropNull closed skip : bool) (cs : list Z) : option (Z * bool * list Z) :=
  match cs with
  | [] => None
  | c :: cs' =>
      if (c =? 10) && skip then nextInput dropNull closed false cs'
      else if c =? 13 then Some (10, true, cs)
      else if negb (c =? 0) then Some (c, false, cs)
      else if closed && bool_decide (cs' = []) then Some (0, false, cs)
      else if dropNull then nextInput dropNull closed false cs'
      else Some (replacementCharacter, false, cs)
  end.

(** The characters of a text. *)
Fixpoint normalize (force skip : bool) (cs : list Z) : list Z :=
  match cs with
  | [] => []
  | c :: cs =>
      if (c =? 10) && skip then normalize force false cs
      else if c =? 13 then 10 :: normalize force true cs
      else if negb (c =? 0) then c :: normalize force false cs
      else if force then replacementCharacter :: normalize force false cs
      else normalize force false cs
  end.

Section Text.

Context {S : Type} `{InputStreamLaws S}.
Context (table : HTMLEntityTable).

Implicit Types (T : t) (s : S) (cs : list Z) (b : bool).

(** The result of a peek, from the characters of the source. *)
Definition PeekOk (r : option (Z * bool * list Z)) b T (p : option (bool * t * S)) : Prop :=
  match r with
  | None => exists x y s', p = Some (false, set_input x y T, s') /\ reads s' [] b
  | Some (c, k, cs') => exists s', p = Some (true, set_input c k T, s') /\ reads s' cs' b
  end.

Lemma PeekOk_input r b T x y p : PeekOk r b (set_input x y T) p -> PeekOk r b T p.
Proof. done. Qed.

Lemma isAtEndOfFile_reads s x cs b :
  reads s (x :: cs) b -> Z.of_nat (List.length (x :: cs)) < 2 ^ 32 ->
  isAtEndOfFile s = b && bool_decide (cs = []).
Proof.
  intros Hr Hlen. unfold isAtEndOfFile. rewrite (reads_isClosed _ _ _ Hr), (reads_length _ _ _ Hr Hlen).
  f_equal. case_bool_decide as E; [by subst|]. apply Z.eqb_neq. destruct cs; [done|cbn; lia].
Qed.

(** The code after a newline that may be skipped, as [processNextInputCharacter]
    goes on with it. *)
Lemma processNext_unskipped fuel skip T s x cs b :
  reads s (x :: cs) b -> Z.of_nat (List.length (x :: cs)) < 2 ^ 32 -> (List.length (x :: cs) <= fuel)%nat ->
  m_nextInputCharacter T = x -> (x =? 10) && m_skipNextNewLine T = false ->
  (forall T s cs, m_nextInputCharacter T = currentCharacter s -> cs <> [] -> reads s cs b ->
     Z.of_nat (List.length cs) < 2 ^ 32 -> (List.length cs <= fuel - 1)%nat ->
     PeekOk (nextInput (skip && negb (m_forceNullCharacterReplacement T)) b (m_skipNextNewLine T) cs) b T
       (processNextInputCharacter (fuel - 1) skip T s)) ->
  PeekOk (nextInput (skip && negb (m_forceNullCharacterReplacement T)) b (m_skipNextNewLine T) (x :: cs)) b T
    (processNextInputCharacter fuel skip T s).
Proof.
  intros Hr Hlen Hf Hx Hskip IH. cbn [nextInput]. rewrite Hskip.
  destruct fuel as [|fuel]; [cbn in Hf; lia|]. cbn [processNextInputCharacter].
  assert (skipNewLine T s = inr (T, s)) as -> by (unfold skipNewLine; by rewrite Hx, Hskip).
  rewrite Hx. destruct (x =? 13) eqn:E13; [by exists s|].
  cbn [m_nextInputCharacter set_input m_forceNullCharacterReplacement].
  rewrite (isAtEndOfFile_reads _ _ _ _ Hr Hlen). destruct (negb (x =? 0)) eqn:E0; cbn [orb]; [by exists s|].
  zbool. subst x. rewrite E0 in Hr |- *. destruct (b && bool_decide (cs = [])) eqn:Eeof; [by exists s|].
  destruct (skip && negb (m_forceNullCharacterReplacement T)) eqn:Edrop; [|by exists s].
  destruct (advancePastNonNewlineAsserted_reads _ _ _ _ Hr) as (s' & -> & Hr'); [lia|]. cbn [mbind option_bind].
  rewrite (reads_isEmpty _ _ _ Hr'). destruct cs as [|y cs].
  - cbn [nextInput]. eexists _, _, s'. split; [|done]. done.
  - assert (Hlen' : Z.of_nat (List.length (y :: cs)) < 2 ^ 32) by (cbn in Hlen |- *; lia).
    replace fuel with (Datatypes.S fuel - 1)%nat by lia.
    apply (PeekOk_input _ _ _ (currentCharacter s') false).
    specialize (IH (set_input (currentCharacter s') false (set_input 0 false T)) s' (y :: cs)).
    cbn [m_forceNullCharacterReplacement set_input m_skipNextNewLine] in IH. rewrite Edrop in IH.
    apply IH; try done. cbn in Hf |- *. lia.
Qed.

Lemma processNext_spec fuel skip T s cs b :
  reads s cs b -> cs <> [] -> Z.of_nat (List.length cs) < 2 ^ 32 -> (List.length cs <= fuel)%nat ->
  m_nextInputCharacter T = currentCharacter s ->
  PeekOk (nextInput (skip && negb (m_forceNullCharacterReplacement T)) b (m_skipNextNewLine T) cs) b T
    (processNextInputCharacter fuel skip T s).
Proof.
  revert T s cs. induction fuel as [|fuel IH]; intros T s cs Hr Hne Hlen Hf Hcur; (destruct cs as [|x cs]; [done|]); [cbn in Hf; lia|].
  rewrite (reads_currentCharacter _ _ _ _ Hr) in Hcur.
  assert (IH' : forall T s cs, m_nextInputCharacter T = currentCharacter s -> cs <> [] -> reads s cs b ->
     Z.of_nat (List.length cs) < 2 ^ 32 -> (List.length cs <= Datatypes.S fuel - 1)%nat ->
     PeekOk (nextInput (skip && negb (m_forceNullCharacterReplacement T)) b (m_skipNextNewLine T) cs) b T
       (processNextInputCharacter (Datatypes.S fuel - 1) skip T s)).
  { intros T' s' cs' ? ? ? ? ?. rewrite Nat.sub_succ, Nat.sub_0_r in *. by apply IH. }
  destruct ((x =? 10) && m_skipNextNewLine T) eqn:E; [|by apply processNext_unskipped].
  cbn [nextInput]. rewrite E.
  pose proof (reads_advancePastNewline _ _ _ _ Hr) as Hr'. destruct cs as [|y cs].
  - cbn [nextInput processNextInputCharacter]. unfold skipNewLine. rewrite Hcur, E, (reads_isEmpty _ _ _ Hr').
    eexists _, _, _. split; [done|done].
  - (* the skipped newline: what follows is the same as reading on without the flag *)
    set (T' := set_input y false T).
    assert (Hsame : processNextInputCharacter (Datatypes.S fuel) skip T s
                  = processNextInputCharacter (Datatypes.S fuel) skip T' (advancePastNewline s)).
    { cbn [processNextInputCharacter]. unfold skipNewLine at 1. rewrite Hcur, E, (reads_isEmpty _ _ _ Hr').
      rewrite (reads_currentCharacter _ _ _ _ Hr'). unfold skipNewLine. cbn [m_nextInputCharacter m_skipNextNewLine T' set_input].
      by rewrite andb_false_r. }
    rewrite Hsame. apply (PeekOk_input _ _ _ y false).
    apply (processNext_unskipped _ _ T' _ y cs); try done; [cbn in Hlen |- *; lia|cbn in Hf |- *; lia|].
    cbn. by rewrite andb_false_r.
Qed.

Lemma peek_spec skip T s cs b :
  reads s cs b -> Z.of_nat (List.length cs) < 2 ^ 32 ->
  PeekOk (nextInput (skip && negb (m_forceNullCharacterReplacement T)) b (m_skipNextNewLine T) cs) b T (peek skip T s).
Proof.
  intros Hr Hlen. unfold peek. rewrite (reads_isEmpty _ _ _ Hr). destruct cs as [|x cs].
  { exists (m_nextInputCharacter T), (m_skipNextNewLine T), s. split; [by destruct T|done]. }
  rewrite (reads_currentCharacter _ _ _ _ Hr). cbn [m_nextInputCharacter set_input]. step_if.
  - apply specialCharacterMask_spec in Heqb0 as (H1 & H2 & H3). cbn [nextInput].
    rewrite (proj2 (Z.eqb_neq x 10)), (proj2 (Z.eqb_neq x 13)), (proj2 (Z.eqb_neq x 0)) by done. by exists s.
  - rewrite (reads_length _ _ _ Hr) by done. rewrite Nat2Z.id.
    apply (PeekOk_input _ _ _ x (m_skipNextNewLine T)).
    apply (processNext_spec _ skip (set_input x (m_skipNextNewLine T) T)); try done.
    by rewrite (reads_currentCharacter _ _ _ _ Hr).
Qed.

(** ** Runs

    [leads o o']: the jumps of [o] come to [o']. *)
Definition leads (o o' : outcome S) : Prop := exists n, forall fuel, run table (n + fuel) o = run table fuel o'.

Lemma leads_refl o : leads o o.
Proof. by exists 0%nat. Qed.

Lemma leads_trans o1 o2 o3 : leads o1 o2 -> leads o2 o3 -> leads o1 o3.
Proof.
  intros [n Hn] [m Hm]. exists (n + m)%nat. intros fuel. by rewrite <- Nat.add_assoc, Hn, Hm.
Qed.

Lemma leads_goto st c T s : leads (Goto st c T s) (step table st T c s).
Proof. by exists 1%nat. Qed.

(** [processes T s result T' s']: a call with enough fuel returns so. *)
Definition processes T s (result : bool) T' s' : Prop :=
  exists n, forall fuel, (n <= fuel)%nat -> processToken table fuel T s = Some (Return result T' s').

Lemma leads_processes T s result T' s' :
  leads (startToken T s) (Return result T' s') -> processes T s result T' s'.
Proof.
  intros [n Hn]. exists n. intros fuel Hf. unfold processToken.
  replace fuel with (n + (fuel - n))%nat by lia. rewrite Hn. by destruct (fuel - n)%nat.
Qed.

Lemma processNext_state fuel skip T s r T' s' :
  processNextInputCharacter fuel skip T s = Some (r, T', s') -> m_state T' = m_state T.
Proof.
  revert s T. induction fuel as [|fuel IH]; intros s T; cbn [processNextInputCharacter]; unfold skipNewLine;
    (destruct (_ && m_skipNextNewLine T); [destruct (isEmpty _); [by intros [= _ <- _]|]|]);
    cbn [m_nextInputCharacter set_input]; (destruct (_ =? 13); [by intros [= _ <- _]|]);
    (destruct (negb (_ =? 0) || _); [by intros [= _ <- _]|]); (destruct (skip && negb _); [|by intros [= _ <- _]]);
    (destruct (HTMLEntityParser.advancePastNonNewlineAsserted _) as [s1|]; [|done]); cbn [mbind option_bind];
    (destruct (isEmpty s1); [by intros [= _ <- _]|]); try done; intros E; by apply IH in E.
Qed.

Lemma peek_state skip T s r T' s' : peek skip T s = Some (r, T', s') -> m_state T' = m_state T.
Proof.
  unfold peek. destruct (isEmpty s); [by intros [= _ <- _]|]. cbn zeta. destruct (negb _); [by intros [= _ <- _]|].
  intros E. by apply processNext_state in E.
Qed.

(** A call that has no buffered end tag reads on in its state. *)
Lemma startToken_SWITCH_TO T s : m_bufferedEndTagName T = [] -> startToken T s = SWITCH_TO (m_state T) T s.
Proof.
  intros Hb. unfold startToken. rewrite Hb, bool_decide_eq_true_2 by done. cbn [negb andb].
  unfold resume, SWITCH_TO. destruct (peek _ T s) as [[[r T'] s']|] eqn:E; [|done]. cbn [bindOutcome].
  rewrite <- (peek_state _ _ _ _ _ _ E). by destruct r, T'.
Qed.

(** A switch, from the characters of the source. *)
Lemma SWITCH_TO_reads st T s cs b c k cs' :
  reads s cs b -> Z.of_nat (List.length cs) < 2 ^ 32 ->
  nextInput (isNullCharacterSkippingState st && negb (m_forceNullCharacterReplacement T)) b (m_skipNextNewLine T) cs
    = Some (c, k, cs') ->
  exists s', SWITCH_TO st T s = Goto st c (set_input c k T) s' /\ reads s' cs' b.
Proof.
  intros Hr Hlen Hn. pose proof (peek_spec (isNullCharacterSkippingState st) T s cs b Hr Hlen) as Hp.
  rewrite Hn in Hp. destruct Hp as (s' & Hp & Hr'). exists s'. split; [|done]. unfold SWITCH_TO. by rewrite Hp.
Qed.

(** ** Text in the data state *)

Lemma normalize_next force b skip text rest :
  Forall (fun c => c <> 38 /\ c <> 60) text ->
  (nextInput (negb force) b skip (text ++ 60 :: rest) = Some (60, false, 60 :: rest) /\ normalize force skip text = []) \/
  exists c k x text', nextInput (negb force) b skip (text ++ 60 :: rest) = Some (c, k, x :: text' ++ 60 :: rest) /\
    (List.length text' < List.length text)%nat /\ Forall (fun c => c <> 38 /\ c <> 60) text' /\
    c <> 0 /\ c <> 38 /\ c <> 60 /\ normalize force skip text = c :: normalize force k text'.
Proof.
  revert skip. induction text as [|x text IH]; intros skip Hall; [by left|].
  apply Forall_cons in Hall as [Hx Hall]. cbn [nextInput normalize app].
  assert (Hrec : forall skip',
    (nextInput (negb force) b skip' (text ++ 60 :: rest) = Some (60, false, 60 :: rest) /\ normalize force skip' text = []) \/
    exists c k y text', nextInput (negb force) b skip' (text ++ 60 :: rest) = Some (c, k, y :: text' ++ 60 :: rest) /\
      (List.length text' < List.length (x :: text))%nat /\ Forall (fun c => c <> 38 /\ c <> 60) text' /\
      c <> 0 /\ c <> 38 /\ c <> 60 /\ normalize force skip' text = c :: normalize force k text').
  { intros skip'. destruct (IH skip' Hall) as [?|(c & k & y & text' & ? & ? & ?)]; [by left|right].
    exists c, k, y, text'. cbn [List.length]. split_and!; try tauto. lia. }
  destruct ((x =? 10) && skip); [by apply Hrec|].
  destruct (x =? 13) eqn:E13; zbool.
  { right. exists 10, true, x, text. cbn [List.length]. split_and!; try done; lia. }
  destruct (x =? 0) eqn:E0; zbool; cbn [negb].
  - rewrite (bool_decide_eq_false_2 (text ++ 60 :: rest = [])) by (by destruct text). rewrite andb_false_r.
    destruct force; cbn [negb]; [|by apply Hrec].
    right. exists replacementCharacter, false, x, text. cbn [List.length]. unfold replacementCharacter. split_and!; try done; lia.
  - right. exists x, false, x, text. cbn [List.length]. split_and!; try done; try lia; tauto.
Qed.

(** The token while text is read. *)
Definition TextToken (data : list Z) T : Prop :=
  HTMLToken.m_data (m_token T) = data /\
  ((HTMLToken.m_type (m_token T) = HTMLToken.Uninitialized /\ data = []) \/
   (HTMLToken.m_type (m_token T) = HTMLToken.Character /\ data <> [])).

Lemma bufferCharacter_text c data T :
  TextToken data T -> c <> 0 ->
  exists token, bufferCharacter c T = Some (set_token token T) /\ TextToken (data ++ [c]) (set_token token T).
Proof.
  intros (Hd & Hty) Hc. unfold bufferCharacter, kEndOfFileMarker, onToken. rewrite (proj2 (Z.eqb_neq c 0)) by done.
  unfold HTMLToken.appendToCharacter, HTMLToken.is_type. cbn [negb HTMLToken.assert_].
  assert (existsb (fun ty => bool_decide (HTMLToken.m_type (m_token T) = ty)) [HTMLToken.Uninitialized; HTMLToken.Character] = true) as ->.
  { by destruct Hty as [[-> _]|[-> _]]. }
  cbn [HTMLToken.assert_ mbind option_bind]. eexists. split; [done|]. split; cbn; [by rewrite Hd|].
  right. split; [done|]. by destruct data.
Qed.

Lemma data_text n T s text rest b data :
  (List.length text <= n)%nat ->
  reads s (text ++ 60 :: rest) b -> Z.of_nat (List.length (text ++ 60 :: rest)) < 2 ^ 32 ->
  Forall (fun c => c <> 38 /\ c <> 60) text -> TextToken data T ->
  data ++ normalize (m_forceNullCharacterReplacement T) (m_skipNextNewLine T) text <> [] ->
  exists T' s', leads (SWITCH_TO DataState T s) (Return true T' s') /\
    TextToken (data ++ normalize (m_forceNullCharacterReplacement T) (m_skipNextNewLine T) text) T' /\
    m_state T' = DataState /\ m_bufferedEndTagName T' = m_bufferedEndTagName T /\ reads s' (60 :: rest) b.
Proof.
  revert T s text data. induction n as [n IH] using lt_wf_ind. intros T s text data Hn Hr Hlen Hall Htok Hne.
  destruct (normalize_next (m_forceNullCharacterReplacement T) b (m_skipNextNewLine T) text rest Hall)
    as [[Hnext Hnorm]|(c & k & x & text' & Hnext & Hl & Hall' & Hc0 & Hc38 & Hc60 & Hnorm)].
  - destruct (SWITCH_TO_reads DataState T s _ b 60 false _ Hr Hlen Hnext) as (s' & -> & Hr').
    rewrite Hnorm, app_nil_r in *.
    exists (set_state DataState (set_input 60 false T)), s'. split_and!; try done.
    eapply leads_trans; [apply leads_goto|]. cbn [step]. unfold onDataState. cbn [Z.eqb Pos.eqb].
    assert (haveBufferedCharacterToken (set_input 60 false T) = true) as ->; [|apply leads_refl].
    apply haveBuffered_type. by destruct Htok as (? & [[? ?]|[? ?]]).
  - destruct (SWITCH_TO_reads DataState T s _ b c k _ Hr Hlen Hnext) as (s' & -> & Hr').
    destruct (bufferCharacter_text c data (set_input c k T)) as (token & Hbuf & Htok'); [done|done|].
    destruct (IH (List.length text') ltac:(lia) (set_token token (set_input c k T)) (advance s') text' (data ++ [c]))
      as (T' & s'' & Hlead & Htok'' & ?); try done.
    { by eapply reads_advance. }
    { rewrite length_app in *. cbn [List.length] in *. lia. }
    { by destruct data. }
    exists T', s''. rewrite Hnorm. cbn [m_forceNullCharacterReplacement m_skipNextNewLine set_token set_input] in Htok''.
    rewrite <- app_assoc in Htok''. split_and!; try tauto.
    eapply leads_trans; [apply leads_goto|]. cbn [step]. unfold onDataState, kEndOfFileMarker.
    rewrite (proj2 (Z.eqb_neq c 38)), (proj2 (Z.eqb_neq c 60)), (proj2 (Z.eqb_neq c 0)) by done.
    rewrite Hbuf. exact Hlead.
Qed.

End Text.

(** ** The properties *)

(** The input preprocessor, on any source: peeking gives the next input
    character of the specification (carriage returns become newlines, a newline
    after one is dropped across calls, zero characters are dropped or replaced
    unless one marks the end of the file), leaves the source at that character,
    and answers false exactly when no input character is left. *)
Theorem peek_correct {S : Type} `{InputStreamLaws S} (skipNull : bool) (T : t) (s : S) (cs : list Z) (b : bool) :
  reads s cs b -> Z.of_nat (List.length cs) < 2 ^ 32 ->
  match nextInput (skipNull && negb (m_forceNullCharacterReplacement T)) b (m_skipNextNewLine T) cs with
  | Some (c, skip, cs') => exists s', peek skipNull T s = Some (true, set_input c skip T, s') /\ reads s' cs' b
  | None => exists c skip s', peek skipNull T s = Some (false, set_input c skip T, s') /\ reads s' [] b
  end.
Proof. intros Hr Hlen. pose proof (peek_spec skipNull T s cs b Hr Hlen) as Hp. by repeat case_match. Qed.

Lemma peek_correct_witness :
  exists s', peek true (set_input 10 true (init defaultOptions)) (wholeFile [10; 0; 13; 10; 97])
             = Some (true, set_input 10 true (init defaultOptions), s') /\ reads s' [13; 10; 97; 0] true.
Proof.
  destruct (peek_correct true (set_input 10 true (init defaultOptions)) (wholeFile [10; 0; 13; 10; 97])
              [10; 0; 13; 10; 97; 0] true) as (s' & Hp & Hr).
  - apply (wholeFile_reads [10; 0; 13; 10; 97]).
  - reflexivity.
  - exists s'. split; [exact Hp|exact Hr].
Defined.

(** C13: Text up to a tag: in the data state, characters other than an ampersand
    and a less-than sign are emitted as one character token that holds them
    with their newlines normalised and their zero characters dropped (or
    replaced, when the tree builder asks for it), and the source is left at the
    less-than sign, with the tokenizer in the data state. *)
Theorem text_token {S : Type} `{InputStreamLaws S} (table : HTMLEntityTable) (T : t) (s : S)
    (text rest : list Z) (b : bool) :
  m_state T = DataState -> m_bufferedEndTagName T = [] -> HTMLToken.m_type (m_token T) = HTMLToken.Uninitialized ->
  HTMLToken.m_data (m_token T) = [] ->
  reads s (text ++ 60 :: rest) b -> Z.of_nat (List.length (text ++ 60 :: rest)) < 2 ^ 32 ->
  Forall (fun c => c <> 38 /\ c <> 60) text ->
  normalize (m_forceNullCharacterReplacement T) (m_skipNextNewLine T) text <> [] ->
  exists T' s', processes table T s true T' s' /\
    HTMLToken.m_type (m_token T') = HTMLToken.Character /\
    HTMLToken.m_data (m_token T') = normalize (m_forceNullCharacterReplacement T) (m_skipNextNewLine T) text /\
    m_state T' = DataState /\ reads s' (60 :: rest) b.
Proof.
  intros Hst Hb Hty Hd Hr Hlen Hall Hne.
  destruct (data_text table (List.length text) T s text rest b []) as (T' & s' & Hlead & (Hd' & Hty') & Hst' & _ & Hr'); try done.
  { split; [done|by left]. }
  exists T', s'. split_and!; try done.
  - apply leads_processes. by rewrite startToken_SWITCH_TO, Hst.
  - by destruct Hty' as [[_ ?]|[? _]].
Qed.

Lemma text_token_witness :
  exists T' s', processes sampleTable (init defaultOptions) (wholeFile (chrs "a" ++ [13; 10; 0; 98] ++ chrs "<p>")) true T' s' /\
    HTMLToken.m_data (m_token T') = [97; 10; 98].
Proof.
  destruct (text_token sampleTable (init defaultOptions) (wholeFile (chrs "a" ++ [13; 10; 0; 98] ++ chrs "<p>"))
              [97; 13; 10; 0; 98] (chrs "p>" ++ [0]) true) as (T' & s' & Hp & _ & Hd & _).
  - reflexivity.
  - reflexivity.
  - reflexivity.
  - reflexivity.
  - apply (wholeFile_reads (chrs "a" ++ [13; 10; 0; 98] ++ chrs "<p>")).
  - reflexivity.
  - repeat constructor; lia.
  - discriminate.
  - exists T', s'. split; [exact Hp|]. rewrite Hd. reflexivity.
Defined.
