(* ===== verification/HTMLTokenizerTags.v ===== *)
(** * The HTML tokenizer: start tags are read back

    A start tag written in the plain way, with its attribute values in double
    quotes and the characters that cannot stand in them as numeric references,
    is read back as the token it was written from. *)

From S2P Require Import Prelude ASCIICType SegmentedString HTMLEntitySearch HTMLEntityParser HTMLEntityCorrect HTMLToken HTMLTokenizer HTMLTokenizerStates HTMLTokenizerSafe HTMLTokenizerSteps HTMLTokenizerCorrect HTMLTokenizerText.

Import HTMLTokenizer HTMLTokenizerStates.

(** ** Writing a start tag *)

Definition escapeCharacter (c : Z) : list Z :=
  if c =? 38 then chrs "&#38;" else if c =? 34 then chrs "&#34;" else if c =? 13 then chrs "&#13;" else [c].

Definition escapeValue (value : list Z) : list Z := concat (map escapeCharacter value).

Definition printAttribute (a : list Z * list Z) : list Z :=
  32 :: fst a ++ [61; 34] ++ escapeValue (snd a) ++ [34].

Definition printStartTag (name : list Z) (attributes : list (list Z * list Z)) (selfClosing : bool) : list Z :=
  60 :: name ++ concat (map printAttribute attributes) ++ (if selfClosing then [47] else []) ++ [62].

(** Characters a tag name can go on with, and an attribute name. *)
Definition tagNameCharacter (c : Z) : bool :=
  negb (isTokenizerWhitespace c || (c =? 47) || (c =? 62) || (c =? 60) || (c =? 0) || (c =? 13)).

Definition attributeNameCharacter (c : Z) : bool := tagNameCharacter c && negb (c =? 61).

Definition TagNameOk (name : list Z) : Prop :=
  exists c cs, name = c :: cs /\ isASCIIAlpha c = true /\ Forall (fun c => tagNameCharacter c = true) cs.

Definition AttributeOk (a : list Z * list Z) : Prop :=
  fst a <> [] /\ Forall (fun c => attributeNameCharacter c = true) (fst a) /\ Forall (fun c => c <> 0) (snd a).

(** ** The tokenizer while it reads a start tag *)

Definition attributeView (a : HTMLToken.Attribute) : list Z * list Z := (HTMLToken.name a, HTMLToken.value a).

(** The tag read so far; [current] says that the last attribute is current. *)
Record TagView (name : list Z) (attributes : list (list Z * list Z)) (current : bool) (T : t) : Prop := {
  tv_type : HTMLToken.m_type (m_token T) = HTMLToken.StartTag;
  tv_data : HTMLToken.m_data (m_token T) = name;
  tv_attributes : map attributeView (HTMLToken.m_attributes (m_token T)) = attributes;
  tv_current : current = true -> HTMLToken.m_currentAttribute (m_token T) = Some (List.length attributes - 1)%nat;
  tv_selfClosing : HTMLToken.m_selfClosing (m_token T) = false;
  tv_skip : m_skipNextNewLine T = false;
  tv_buffered : m_bufferedEndTagName T = []
}.

Section Tags.

Context {S : Type} `{InputStreamLaws S}.
Context (table : HTMLEntityTable) (Htable : TableOk table).

Implicit Types (T : t) (s : S) (cs : list Z) (b : bool).

(** Reading on to a character that the preprocessor leaves alone. *)
Definition plain (x : Z) : Prop := x <> 0 /\ x <> 13.

Lemma SWITCH_TO_plain st T s x cs b :
  reads s (x :: cs) b -> Z.of_nat (List.length (x :: cs)) < 2 ^ 32 -> plain x -> m_skipNextNewLine T = false ->
  exists s', SWITCH_TO st T s = Goto st x (set_input x false T) s' /\ reads s' (x :: cs) b.
Proof.
  intros Hr Hlen [Hx0 Hx13] Hskip. apply (SWITCH_TO_reads _ _ _ (x :: cs)); [done|done|].
  cbn [nextInput]. rewrite Hskip, andb_false_r, (proj2 (Z.eqb_neq x 13)), (proj2 (Z.eqb_neq x 0)) by done. done.
Qed.

Lemma ADVANCE_TO_plain st T s c x cs b :
  reads s (c :: x :: cs) b -> Z.of_nat (List.length (c :: x :: cs)) < 2 ^ 32 -> plain x -> m_skipNextNewLine T = false ->
  exists s', ADVANCE_TO st T s = Goto st x (set_input x false T) s' /\ reads s' (x :: cs) b.
Proof.
  intros Hr Hlen Hx Hskip. apply SWITCH_TO_plain; try done; [by eapply reads_advance|cbn in *; lia].
Qed.

Lemma ADVANCE_PAST_plain st T s c x cs b :
  reads s (c :: x :: cs) b -> Z.of_nat (List.length (c :: x :: cs)) < 2 ^ 32 -> c <> 10 -> plain x -> m_skipNextNewLine T = false ->
  exists s', ADVANCE_PAST_NON_NEWLINE_TO st T s = Goto st x (set_input x false T) s' /\ reads s' (x :: cs) b.
Proof.
  intros Hr Hlen Hc Hx Hskip. unfold ADVANCE_PAST_NON_NEWLINE_TO.
  destruct (advancePastNonNewlineAsserted_reads _ _ _ _ Hr Hc) as (s' & -> & Hr'). cbn [bindOutcome].
  apply SWITCH_TO_plain; try done. cbn in *. lia.
Qed.

(** [reaches name attributes current st cs o]: the run goes on in the state
    [st] at the characters [cs], with the tag read so far. *)
Definition reaches (name : list Z) (attributes : list (list Z * list Z)) (current : bool) (st : State)
    cs b (o : outcome S) : Prop :=
  exists x cs' T s, cs = x :: cs' /\ leads table o (Goto st x T s) /\ TagView name attributes current T /\ reads s cs b.


Lemma TagView_input name attributes current T x :
  TagView name attributes current T -> TagView name attributes current (set_input x false T).
Proof. intros []. by split. Qed.

Lemma reaches_advance st T s c x cs b name attributes current :
  reads s (c :: x :: cs) b -> Z.of_nat (List.length (c :: x :: cs)) < 2 ^ 32 -> plain x ->
  TagView name attributes current T ->
  reaches name attributes current st (x :: cs) b (ADVANCE_TO st T s).
Proof.
  intros Hr Hlen Hx Htv. destruct (ADVANCE_TO_plain st T s c x cs b Hr Hlen Hx) as (s' & -> & Hr'); [apply Htv|].
  exists x, cs, (set_input x false T), s'. split_and!; try done; [apply leads_refl|by apply TagView_input].
Qed.

Lemma reaches_advancePast st T s c x cs b name attributes current :
  reads s (c :: x :: cs) b -> Z.of_nat (List.length (c :: x :: cs)) < 2 ^ 32 -> c <> 10 -> plain x ->
  TagView name attributes current T ->
  reaches name attributes current st (x :: cs) b (ADVANCE_PAST_NON_NEWLINE_TO st T s).
Proof.
  intros Hr Hlen Hc Hx Htv. destruct (ADVANCE_PAST_plain st T s c x cs b Hr Hlen Hc Hx) as (s' & -> & Hr'); [apply Htv|].
  exists x, cs, (set_input x false T), s'. split_and!; try done; [apply leads_refl|by apply TagView_input].
Qed.

(** Going on from where a run has come to. *)
Lemma reaches_then name attributes current st cs b o name' attributes' current' st' cs'' :
  reaches name attributes current st cs b o ->
  (forall x cs' T s, cs = x :: cs' -> TagView name attributes current T -> reads s cs b ->
     reaches name' attributes' current' st' cs'' b (step table st T x s)) ->
  reaches name' attributes' current' st' cs'' b o.
Proof.
  intros (x & cs' & T & s & Hcs & Hlead & Htv & Hr) Hstep.
  destruct (Hstep x cs' T s Hcs Htv Hr) as (x2 & cs2 & T2 & s2 & Hcs2 & Hlead2 & Htv2 & Hr2).
  exists x2, cs2, T2, s2. split_and!; try done.
  eapply leads_trans; [done|]. eapply leads_trans; [apply leads_goto|done].
Qed.

(** ** The operations on the token *)

Lemma appendToName_view c name attributes current T :
  TagView name attributes current T -> c <> 0 ->
  exists T', onToken (HTMLToken.appendToName c) T = Some T' /\ TagView (name ++ [c]) attributes current T'.
Proof.
  intros [Hty Hd Ha Hc Hs Hk Hb] Hc0. unfold onToken, HTMLToken.appendToName, HTMLToken.is_type. rewrite Hty.
  rewrite (proj2 (Z.eqb_neq c 0)) by done. cbn. eexists. split; [done|]. split; cbn; try done. by rewrite Hd.
Qed.

Lemma beginAttribute_view offset name attributes current T :
  TagView name attributes current T ->
  exists T', onToken (HTMLToken.beginAttribute offset) T = Some T' /\ TagView name (attributes ++ [([], [])]) true T'.
Proof.
  intros [Hty Hd Ha Hc Hs Hk Hb]. unfold onToken, HTMLToken.beginAttribute, HTMLToken.is_type. rewrite Hty. cbn.
  eexists. split; [done|]. split; cbn; try done.
  - by rewrite map_app, Ha.
  - intros _. rewrite length_app, <- Ha, length_map. cbn. f_equal. lia.
Qed.

Lemma updateAttribute_view (f : HTMLToken.Attribute -> HTMLToken.Attribute) (g : list Z * list Z -> list Z * list Z)
    name attributes a T :
  (forall a, attributeView (f a) = g (attributeView a)) ->
  TagView name (attributes ++ [a]) true T ->
  exists l, HTMLToken.updateAttribute f (m_token T) = Some l /\ map attributeView l = attributes ++ [g a].
Proof.
  intros Hfg [Hty Hd Ha Hc Hs Hk Hb]. unfold HTMLToken.updateAttribute. rewrite (Hc eq_refl). cbn [mbind option_bind].
  apply map_eq_app in Ha as (l1 & l2 & -> & Hl1 & Hl2). destruct l2 as [|a' [|]]; try done. injection Hl2 as Ha'.
  rewrite length_app. cbn [List.length]. replace (List.length attributes + 1 - 1)%nat with (List.length l1 + 0)%nat
    by (rewrite <- Hl1, length_map; lia).
  rewrite lookup_app_r by lia. replace (List.length l1 + 0 - List.length l1)%nat with 0%nat by lia. cbn [lookup list_lookup mbind option_bind].
  eexists. split; [done|]. rewrite insert_app_r. cbn. by rewrite map_app, Hl1, <- Ha', <- Hfg.
Qed.

Lemma appendToAttributeName_view c name attributes n v T :
  TagView name (attributes ++ [(n, v)]) true T -> c <> 0 ->
  exists T', onToken (HTMLToken.appendToAttributeName c) T = Some T' /\ TagView name (attributes ++ [(n ++ [c], v)]) true T'.
Proof.
  intros Htv Hc0. pose proof Htv as [Hty Hd Ha Hc Hs Hk Hb]. unfold onToken, HTMLToken.appendToAttributeName, HTMLToken.is_type.
  rewrite Hty, (proj2 (Z.eqb_neq c 0)) by done. cbn [negb andb existsb bool_decide HTMLToken.assert_].
  edestruct (updateAttribute_view (fun a => HTMLToken.mkAttribute (HTMLToken.name a ++ [c]) (HTMLToken.value a)
    (HTMLToken.startOffset a) (HTMLToken.endOffset a)) (fun a => (fst a ++ [c], snd a))) as (l & Hl & Hv); [done|exact Htv|].
  cbn. rewrite Hl. cbn. eexists. split; [done|]. split; cbn; try done.
  intros _. rewrite (Hc eq_refl), !length_app. done.
Qed.

Lemma appendToAttributeValue_view c name attributes n v T :
  TagView name (attributes ++ [(n, v)]) true T -> c <> 0 ->
  exists token, HTMLToken.appendToAttributeValue c (m_token T) = Some token /\
    TagView name (attributes ++ [(n, v ++ [c])]) true (set_token token T).
Proof.
  intros Htv Hc0. pose proof Htv as [Hty Hd Ha Hc Hs Hk Hb]. unfold HTMLToken.appendToAttributeValue, HTMLToken.is_type.
  rewrite Hty, (proj2 (Z.eqb_neq c 0)) by done. cbn [negb andb existsb bool_decide HTMLToken.assert_].
  edestruct (updateAttribute_view (fun a => HTMLToken.mkAttribute (HTMLToken.name a) (HTMLToken.value a ++ [c])
    (HTMLToken.startOffset a) (HTMLToken.endOffset a)) (fun a => (fst a, snd a ++ [c]))) as (l & Hl & Hv); [done|exact Htv|].
  cbn. rewrite Hl. cbn. eexists. split; [done|]. split; cbn; try done.
  intros _. rewrite (Hc eq_refl), !length_app. done.
Qed.

Lemma endAttribute_view offset name attributes a T :
  TagView name (attributes ++ [a]) true T ->
  exists T', onToken (HTMLToken.endAttribute offset) T = Some T' /\ TagView name (attributes ++ [a]) false T'.
Proof.
  intros Htv. pose proof Htv as [Hty Hd Ha Hc Hs Hk Hb]. unfold onToken, HTMLToken.endAttribute.
  edestruct (updateAttribute_view (fun a => HTMLToken.mkAttribute (HTMLToken.name a) (HTMLToken.value a)
    (HTMLToken.startOffset a) (u32 (offset - HTMLToken.m_attributeBaseOffset (m_token T)))) (fun a => a)) as (l & Hl & Hv); [done|exact Htv|].
  rewrite Hl. cbn. eexists. split; [done|]. by split.
Qed.

(** ** The states *)

Lemma tagNameCharacter_false c :
  tagNameCharacter c = true ->
  isTokenizerWhitespace c = false /\ (c =? 47) = false /\ (c =? 62) = false /\ (c =? 60) = false /\
  (c =? 0) = false /\ (c =? 13) = false.
Proof. unfold tagNameCharacter. intros Hc%negb_true_iff. rewrite !orb_false_iff in Hc. tauto. Qed.

Lemma tagNameCharacter_plain c : tagNameCharacter c = true -> plain c /\ c <> 10.
Proof.
  intros (Hw & _ & _ & _ & H0' & H13')%tagNameCharacter_false. apply whitespace_newline in Hw. zbool. by split.
Qed.

Lemma alpha_plain c : isASCIIAlpha c = true -> plain c /\ c <> 10.
Proof. intros Ha%isASCIIAlpha_spec. unfold plain. lia. Qed.

Definition fits cs : Prop := Z.of_nat (List.length cs) < 2 ^ 32.

Lemma fits_tail x cs : fits (x :: cs) -> fits cs.
Proof. unfold fits. cbn. lia. Qed.

Lemma fits_app cs cs' : fits (cs ++ cs') -> fits cs'.
Proof. unfold fits. rewrite length_app. lia. Qed.

(** The first character of a list of name characters followed by a plain one. *)
Lemma head_plain (p : Z -> bool) name x rest :
  (forall c, p c = true -> plain c) -> Forall (fun c => p c = true) name -> plain x ->
  exists y ys, name ++ x :: rest = y :: ys /\ plain y.
Proof. intros Hp Hall Hx. destruct Hall as [|c name Hc Hall]; eexists _, _; (split; [done|]); auto. Qed.

Lemma tagName_loop name0 name attributes current x rest b o :
  reaches name0 attributes current TagNameState (name ++ x :: rest) b o -> fits (name ++ x :: rest) ->
  Forall (fun c => tagNameCharacter c = true) name -> plain x ->
  reaches (name0 ++ map toASCIILower name) attributes current TagNameState (x :: rest) b o.
Proof.
  intros Ho Hf Hall Hx. revert name0 o Ho Hf.
  induction Hall as [|c name Hc Hall IH]; intros name0 o Ho Hf; [by rewrite app_nil_r|].
  cbn [map app] in *. rewrite (cons_middle (toASCIILower c) name0), app_assoc. apply IH; [|by apply fits_tail in Hf].
  eapply reaches_then; [exact Ho|]. intros y cs' T s [= <- <-] Htv Hr. cbn [step]. unfold onTagNameState, kEndOfFileMarker.
  destruct (tagNameCharacter_false c Hc) as (-> & -> & -> & -> & E0 & _). rewrite andb_false_r, E0. zbool.
  destruct (appendToName_view (toASCIILower c) name0 attributes current T Htv) as (T' & -> & Htv').
  { by apply toASCIILower_nonzero. }
  cbn [bindOutcome]. destruct (head_plain tagNameCharacter name x rest) as (z & zs & Hz & Hpz); try done.
  { intros d Hd. by apply tagNameCharacter_plain. }
  rewrite Hz in *. by eapply reaches_advancePast; [done|done|apply tagNameCharacter_plain|..].
Qed.

Lemma attributeName_loop name attributes n n' v x rest b o :
  reaches name (attributes ++ [(n, v)]) true AttributeNameState (n' ++ x :: rest) b o -> fits (n' ++ x :: rest) ->
  Forall (fun c => attributeNameCharacter c = true) n' -> plain x ->
  reaches name (attributes ++ [(n ++ map toASCIILower n', v)]) true AttributeNameState (x :: rest) b o.
Proof.
  intros Ho Hf Hall Hx. revert n o Ho Hf.
  induction Hall as [|c n' Hc Hall IH]; intros n o Ho Hf; [by rewrite app_nil_r|].
  cbn [map app] in *. rewrite (cons_middle (toASCIILower c) n), app_assoc. apply IH; [|by apply fits_tail in Hf].
  eapply reaches_then; [exact Ho|]. intros y cs' T s [= <- <-] Htv Hr. cbn [step]. unfold onAttributeNameState, kEndOfFileMarker.
  apply andb_true_iff in Hc as [Hc H61%negb_true_iff].
  destruct (tagNameCharacter_false c Hc) as (-> & -> & -> & -> & E0 & _). rewrite H61, andb_false_r, E0. zbool.
  destruct (appendToAttributeName_view (toASCIILower c) name attributes n v T Htv) as (T' & -> & Htv').
  { by apply toASCIILower_nonzero. }
  cbn [bindOutcome]. destruct (head_plain attributeNameCharacter n' x rest) as (z & zs & Hz & Hpz); try done.
  { intros d [Hd _]%andb_true_iff. by apply tagNameCharacter_plain. }
  rewrite Hz in *. by eapply reaches_advancePast; [done|done|apply tagNameCharacter_plain|..].
Qed.

(** A space, the first character of a name, and the equals sign and quote. *)
Lemma attributeName_begin name attributes current st c x rest b o :
  st = TagNameState \/ st = AfterAttributeValueQuotedState ->
  reaches name attributes current st (32 :: c :: x :: rest) b o -> fits (32 :: c :: x :: rest) ->
  attributeNameCharacter c = true -> plain x ->
  reaches name (attributes ++ [([toASCIILower c], [])]) true AttributeNameState (x :: rest) b o.
Proof.
  intros Hst Ho Hf Hc Hx. apply andb_true_iff in Hc as [Hc _]. destruct (tagNameCharacter_plain c Hc) as [Hp H10].
  eapply reaches_then with (st := BeforeAttributeNameState) (cs := c :: x :: rest).
  - eapply reaches_then; [exact Ho|]. intros y cs' T s [= <- <-] Htv Hr.
    destruct Hst as [-> | ->]; cbn [step]; unfold onTagNameState, onAfterAttributeValueQuotedState; cbn [isTokenizerWhitespace];
      (by eapply reaches_advance).
  - intros y cs' T s [= <- <-] Htv Hr. apply fits_tail in Hf. cbn [step]. unfold onBeforeAttributeNameState, kEndOfFileMarker.
    destruct (tagNameCharacter_false c Hc) as (-> & -> & -> & -> & E0 & _). rewrite andb_false_r, E0. zbool.
    destruct (beginAttribute_view (numberOfCharactersConsumed s) name attributes current T Htv) as (T' & -> & Htv').
    cbn [bindOutcome].
    destruct (appendToAttributeName_view (toASCIILower c) name attributes [] [] T' Htv') as (T'' & -> & Htv'').
    { by apply toASCIILower_nonzero. }
    cbn [bindOutcome app]. by eapply reaches_advancePast.
Qed.

Lemma attributeValue_begin name attributes x rest b o :
  reaches name attributes true AttributeNameState (61 :: 34 :: x :: rest) b o -> fits (61 :: 34 :: x :: rest) -> plain x ->
  reaches name attributes true AttributeValueDoubleQuotedState (x :: rest) b o.
Proof.
  intros Ho Hf Hx. eapply reaches_then with (st := BeforeAttributeValueState) (cs := 34 :: x :: rest).
  - eapply reaches_then; [exact Ho|]. intros y cs' T s [= <- <-] Htv Hr. cbn [step]. unfold onAttributeNameState.
    change (isTokenizerWhitespace 61) with false. cbn [Z.eqb Pos.eqb].
    eapply reaches_advancePast; try done; lia.
  - intros y cs' T s [= <- <-] Htv Hr. cbn [step]. unfold onBeforeAttributeValueState.
    change (isTokenizerWhitespace 34) with false. cbn [Z.eqb Pos.eqb]. apply fits_tail in Hf.
    eapply reaches_advancePast; try done; lia.
Qed.

(** ** Attribute values *)

Lemma TagView_additional name attributes current c T :
  TagView name attributes current T -> TagView name attributes current (set_additional c T).
Proof. intros []. by split. Qed.

(** A numeric reference inside a double-quoted value. *)
Lemma reference_step name attributes n v c ds x rest b o :
  reaches name (attributes ++ [(n, v)]) true AttributeValueDoubleQuotedState (38 :: 35 :: ds ++ 59 :: x :: rest) b o ->
  fits (38 :: 35 :: ds ++ 59 :: x :: rest) -> ds <> [] -> Forall (fun d => isDigitOf HTMLEntityParser.Decimal d = true) ds ->
  referencedCharacter (numberOf HTMLEntityParser.Decimal 0 ds) = [c] -> c <> 0 -> plain x ->
  reaches name (attributes ++ [(n, v ++ [c])]) true AttributeValueDoubleQuotedState (x :: rest) b o.
Proof.
  intros Ho Hf Hds Hdig Href Hc Hx.
  destruct Ho as (y & cs' & T & s & [= <- <-] & Hlead & Htv & Hr).
  destruct (ADVANCE_PAST_plain CharacterReferenceInAttributeValueState (set_additional 34 T) s 38 35 (ds ++ 59 :: x :: rest) b)
    as (s1 & Hadv & Hr1); try done; [apply Htv|].
  apply fits_tail in Hf.
  destruct (numericReference_spec table HTMLEntityParser.Decimal [35] s1 34 ds (59 :: x :: rest) b) as (r & Hrun & Hdec); try done.
  cbn [Z.eqb Pos.eqb] in Hdec. destruct Hdec as (Hsucc & Hne & Hd & Hr2). rewrite Href in Hd.
  set (T1 := set_input 35 false (set_additional 34 T)) in *.
  assert (Htv1 : TagView name (attributes ++ [(n, v)]) true T1) by (by apply TagView_input, TagView_additional).
  destruct (appendToAttributeValue_view c name attributes n v T1 Htv1 Hc) as (token & Happ & Htv2).
  assert (Hf2 : fits (x :: rest)) by (apply fits_tail, fits_app, fits_tail in Hf; done).
  destruct (SWITCH_TO_plain AttributeValueDoubleQuotedState (set_token token T1) (HTMLEntityParser.source r) x rest b)
    as (s3 & Hsw & Hr3); try done.
  exists x, rest, (set_input x false (set_token token T1)), s3. split_and!; try done; [|by apply TagView_input].
  eapply leads_trans; [exact Hlead|]. eapply leads_trans; [apply leads_goto|]. cbn [step].
  unfold onAttributeValueDoubleQuotedState, onAttributeValueQuoted. cbn [Z.eqb Pos.eqb]. cbn zeta. rewrite Hadv.
  eapply leads_trans; [apply leads_goto|]. cbn [step]. unfold onCharacterReferenceInAttributeValueState.
  change (m_additionalAllowedCharacter T1) with 34. rewrite Hrun. cbn [bindOutcome]. rewrite Hne, Hsucc, Hd. cbn [negb].
  cbn [appendToAttributeValues]. unfold onToken. rewrite Happ. cbn [mbind option_bind bindOutcome].
  change (m_additionalAllowedCharacter (set_token token T1)) with 34. cbn [Z.eqb Pos.eqb]. rewrite Hsw. apply leads_refl.
Qed.

Lemma value_step name attributes n v c x rest b o :
  reaches name (attributes ++ [(n, v)]) true AttributeValueDoubleQuotedState (escapeCharacter c ++ x :: rest) b o ->
  fits (escapeCharacter c ++ x :: rest) -> c <> 0 -> plain x ->
  reaches name (attributes ++ [(n, v ++ [c])]) true AttributeValueDoubleQuotedState (x :: rest) b o.
Proof.
  intros Ho Hf Hc Hx. unfold escapeCharacter in *.
  destruct (c =? 38) eqn:E38.
  { zbool. subst. apply (reference_step name attributes n v 38 [51; 56]); try done. by repeat constructor. }
  destruct (c =? 34) eqn:E34.
  { zbool. subst. apply (reference_step name attributes n v 34 [51; 52]); try done. by repeat constructor. }
  destruct (c =? 13) eqn:E13.
  { zbool. subst. apply (reference_step name attributes n v 13 [49; 51]); try done. by repeat constructor. }
  eapply reaches_then; [exact Ho|]. intros y cs' T s [= <- <-] Htv Hr. cbn [step].
  unfold onAttributeValueDoubleQuotedState, onAttributeValueQuoted, kEndOfFileMarker.
  rewrite E34, E38, (proj2 (Z.eqb_neq c 0)) by done.
  destruct (appendToAttributeValue_view c name attributes n v T Htv Hc) as (token & Happ & Htv').
  unfold onToken. rewrite Happ. cbn [mbind option_bind bindOutcome]. by eapply reaches_advance.
Qed.

Lemma escapeCharacter_head c : c <> 0 -> exists y ys, escapeCharacter c = y :: ys /\ plain y.
Proof.
  intros Hc. unfold escapeCharacter, plain.
  repeat (match goal with |- context [if ?g then _ else _] => destruct g eqn:? end);
    eexists _, _; (split; [done|]); zbool; lia.
Qed.

Lemma value_loop name attributes n v0 v x rest b o :
  reaches name (attributes ++ [(n, v0)]) true AttributeValueDoubleQuotedState (escapeValue v ++ x :: rest) b o ->
  fits (escapeValue v ++ x :: rest) -> Forall (fun c => c <> 0) v -> plain x ->
  reaches name (attributes ++ [(n, v0 ++ v)]) true AttributeValueDoubleQuotedState (x :: rest) b o.
Proof.
  intros Ho Hf Hall Hx. revert v0 o Ho Hf. induction Hall as [|c v Hc Hall IH]; intros v0 o Ho Hf; [by rewrite app_nil_r|].
  unfold escapeValue in *. cbn [map concat] in *. rewrite <- app_assoc in Ho, Hf.
  rewrite (cons_middle c v0), app_assoc. apply IH; [|by apply fits_app in Hf].
  assert (exists y ys, concat (map escapeCharacter v) ++ x :: rest = y :: ys /\ plain y) as (y & ys & Hy & Hpy).
  { destruct Hall as [|d v Hd Hall]; [by eexists _, _|]. cbn [map concat].
    destruct (escapeCharacter_head d Hd) as (y & ys & -> & ?). by eexists _, _. }
  rewrite Hy in *. by apply value_step.
Qed.

(** A whole attribute, up to the character after its closing quote. *)
Lemma attribute_read name attributes current st a x rest b o :
  st = TagNameState \/ st = AfterAttributeValueQuotedState ->
  reaches name attributes current st (printAttribute a ++ x :: rest) b o -> fits (printAttribute a ++ x :: rest) ->
  AttributeOk a -> plain x ->
  reaches name (attributes ++ [(map toASCIILower (fst a), snd a)]) false AfterAttributeValueQuotedState (x :: rest) b o.
Proof.
  destruct a as [n v]. intros Hst Ho Hf (Hne & Hn & Hv) Hx. unfold printAttribute in *. cbn [fst snd] in *.
  destruct n as [|c n]; [done|]. apply Forall_cons in Hn as [Hc Hn]. cbn [app] in *. rewrite <- !app_assoc in *. cbn [app] in *.
  rewrite <- app_assoc in *. cbn [app] in *.
  destruct (head_plain attributeNameCharacter n 61 (34 :: escapeValue v ++ 34 :: x :: rest)) as (y & ys & Hy & Hpy); try done.
  { intros d [Hd _]%andb_true_iff. by apply tagNameCharacter_plain. }
  rewrite Hy in *. pose proof (attributeName_begin name attributes current st c y ys b o Hst Ho Hf Hc Hpy) as H1.
  rewrite <- Hy in *. apply fits_tail, fits_tail in Hf.
  apply attributeName_loop in H1; try done. cbn [app] in H1. apply fits_app in Hf.
  assert (exists z zs, escapeValue v ++ 34 :: x :: rest = z :: zs /\ plain z) as (z & zs & Hz & Hpz).
  { unfold escapeValue. destruct Hv as [|d v Hd Hv]; [by eexists _, _|]. cbn [map concat].
    destruct (escapeCharacter_head d Hd) as (z & zs & -> & ?). by eexists _, _. }
  rewrite Hz in *. apply attributeValue_begin in H1; try done. rewrite <- Hz in *. apply fits_tail, fits_tail in Hf.
  apply value_loop in H1; try done. apply fits_app in Hf. cbn [map app] in *.
  eapply reaches_then; [exact H1|]. intros ? ? T s [= <- <-] Htv Hr. cbn [step].
  unfold onAttributeValueDoubleQuotedState, onAttributeValueQuoted. cbn [Z.eqb Pos.eqb].
  destruct (endAttribute_view (numberOfCharactersConsumed s) name attributes _ T Htv) as (T' & -> & Htv'). cbn [bindOutcome].
  eapply reaches_advancePast; try done; lia.
Qed.



Lemma attributes_read name attributes0 current st attributes x rest b o :
  st = TagNameState \/ st = AfterAttributeValueQuotedState ->
  reaches name attributes0 current st (concat (map printAttribute attributes) ++ x :: rest) b o ->
  fits (concat (map printAttribute attributes) ++ x :: rest) -> Forall AttributeOk attributes -> plain x ->
  exists st' current', (st' = TagNameState \/ st' = AfterAttributeValueQuotedState) /\
    reaches name (attributes0 ++ map (fun a => (map toASCIILower (fst a), snd a)) attributes) current' st' (x :: rest) b o.
Proof.
  intros Hst Ho Hf Hall Hx. revert attributes0 current st Hst Ho Hf.
  induction Hall as [|a attributes Ha Hall IH]; intros attributes0 current st Hst Ho Hf.
  { exists st, current. cbn [map]. by rewrite app_nil_r. }
  cbn [map concat] in *. rewrite <- app_assoc in Ho, Hf.
  assert (exists y ys, concat (map printAttribute attributes) ++ x :: rest = y :: ys /\ plain y) as (y & ys & Hy & Hpy).
  { destruct attributes as [|a' attributes]; [by eexists _, _|]. by eexists _, _. }
  rewrite Hy in *. apply attribute_read in Ho; try done. rewrite <- Hy in *. apply fits_app in Hf.
  destruct (IH _ false AfterAttributeValueQuotedState (or_intror eq_refl) Ho Hf) as (st' & current' & Hst' & Ho').
  exists st', current'. split; [done|]. rewrite <- app_assoc in Ho'. exact Ho'.
Qed.

(** ** The two ends of the tag *)

(** What is emitted. *)
Definition Emitted (name : list Z) (attributes : list (list Z * list Z)) (selfClosing : bool) (T : t) : Prop :=
  HTMLToken.m_type (m_token T) = HTMLToken.StartTag /\ HTMLToken.m_data (m_token T) = name /\
  map attributeView (HTMLToken.m_attributes (m_token T)) = attributes /\
  HTMLToken.m_selfClosing (m_token T) = selfClosing /\
  m_state T = DataState /\ m_appropriateEndTagName T = name /\ m_bufferedEndTagName T = [].

Lemma emit_view T s rest b name attributes selfClosing :
  HTMLToken.m_type (m_token T) = HTMLToken.StartTag -> HTMLToken.m_data (m_token T) = name ->
  map attributeView (HTMLToken.m_attributes (m_token T)) = attributes ->
  HTMLToken.m_selfClosing (m_token T) = selfClosing -> m_bufferedEndTagName T = [] ->
  reads s (62 :: rest) b ->
  exists T' s', emitAndResumeInDataState T s = Return true T' s' /\ Emitted name attributes selfClosing T' /\ reads s' rest b.
Proof.
  intros Hty Hd Ha Hs Hb Hr. unfold emitAndResumeInDataState, saveEndTagNameIfNeeded, HTMLToken.is_type, HTMLToken.getName, HTMLToken.is_type.
  rewrite Hty. cbn. destruct (advancePastNonNewlineAsserted_reads _ _ _ _ Hr) as (s' & -> & Hr'); [lia|]. cbn [bindOutcome].
  eexists _, s'. split; [done|]. split; [|done]. by split_and!.
Qed.

Lemma tag_end st T s name attributes current selfClosing rest b :
  st = TagNameState \/ st = AfterAttributeValueQuotedState ->
  TagView name attributes current T -> fits ((if selfClosing : bool then [47] else []) ++ 62 :: rest) ->
  reads s ((if selfClosing : bool then [47] else []) ++ 62 :: rest) b ->
  exists T' s', leads table (step table st T (if selfClosing then 47 else 62) s) (Return true T' s') /\
    Emitted name attributes selfClosing T' /\ reads s' rest b.
Proof.
  intros Hst [Hty Hd Ha Hc Hs Hk Hb] Hf Hr. destruct selfClosing; cbn [app] in *.
  - destruct (ADVANCE_PAST_plain SelfClosingStartTagState T s 47 62 rest b Hr Hf) as (s1 & Hadv & Hr1); try done.
    set (T1 := set_input 62 false T) in *.
    assert (Hset : onToken HTMLToken.setSelfClosing T1 =
      Some (set_token (HTMLToken.set_tag true (HTMLToken.m_attributes (m_token T)) (HTMLToken.m_currentAttribute (m_token T)) (m_token T)) T1)).
    { unfold onToken, HTMLToken.setSelfClosing, HTMLToken.is_type. cbn. by rewrite Hty. }
    edestruct (emit_view (set_token (HTMLToken.set_tag true (HTMLToken.m_attributes (m_token T))
      (HTMLToken.m_currentAttribute (m_token T)) (m_token T)) T1) s1 rest b) as (T' & s' & Hemit & Hem & Hr'); try done.
    exists T', s'. split; [|by split]. destruct Hst as [-> | ->]; cbn [step];
      unfold onTagNameState, onAfterAttributeValueQuotedState; change (isTokenizerWhitespace 47) with false; cbn [Z.eqb Pos.eqb];
      rewrite Hadv; (eapply leads_trans; [apply leads_goto|]); cbn [step]; unfold onSelfClosingStartTagState; cbn [Z.eqb Pos.eqb];
      rewrite Hset; cbn [bindOutcome]; rewrite Hemit; apply leads_refl.
  - destruct (emit_view T s rest b name attributes false) as (T' & s' & Hemit & Hem & Hr'); try done.
    exists T', s'. split; [|by split]. destruct Hst as [-> | ->]; cbn [step];
      unfold onTagNameState, onAfterAttributeValueQuotedState; change (isTokenizerWhitespace 62) with false; cbn [Z.eqb Pos.eqb];
      rewrite Hemit; apply leads_refl.
Qed.

Lemma alpha_lower c : isASCIIAlpha c = true -> convertASCIIAlphaToLower c = toASCIILower c.
Proof.
  intros Ha%isASCIIAlpha_spec. unfold convertASCIIAlphaToLower. rewrite toASCIILower_spec. unfold isASCIIUpper.
  pose proof (Z.div_mod c 64 ltac:(lia)). pose proof (Z.mod_pos_bound c 64 ltac:(lia)).
  destruct (toASCIILowerUnchecked_cases c) as [[? ->]|[? ->]]; destruct (Z.leb_spec 65 c), (Z.leb_spec c 90); cbn; try lia.
Qed.

(** From the data state to the tag name. *)
Lemma tag_begin T s c cs b :
  HTMLToken.m_type (m_token T) = HTMLToken.Uninitialized -> HTMLToken.m_data (m_token T) = [] -> m_bufferedEndTagName T = [] ->
  isASCIIAlpha c = true -> (exists y ys, cs = y :: ys /\ plain y) ->
  reads s (60 :: c :: cs) b -> fits (60 :: c :: cs) ->
  reaches [toASCIILower c] [] false TagNameState cs b (SWITCH_TO DataState T s).
Proof.
  intros Hty Hd Hb Hc (y & ys & -> & Hy) Hr Hf.
  destruct (SWITCH_TO_reads DataState T s _ b 60 false _ Hr Hf eq_refl) as (s1 & Hsw & Hr1).
  destruct (alpha_plain c Hc) as [Hpc Hc10].
  destruct (ADVANCE_PAST_plain TagOpenState (set_input 60 false T) s1 60 c (y :: ys) b Hr1 Hf) as (s2 & Hadv & Hr2); try done.
  apply fits_tail in Hf. set (T2 := set_input c false (set_input 60 false T)) in *.
  assert (Hbeg : exists token, onToken (HTMLToken.beginStartTag (convertASCIIAlphaToLower c)) T2 = Some (set_token token T2) /\
    TagView [toASCIILower c] [] false (set_token token T2)).
  { unfold onToken, HTMLToken.beginStartTag, HTMLToken.is_type. cbn [m_token T2 set_input]. rewrite Hty, alpha_lower by done.
    rewrite (proj2 (Z.eqb_neq (toASCIILower c) 0)) by (apply toASCIILower_nonzero; apply Hpc).
    cbn. eexists. split; [done|]. split; cbn; try done. by rewrite Hd. }
  destruct Hbeg as (token & Hbeg & Htv).
  destruct (reaches_advancePast TagNameState (set_token token T2) s2 c y ys b _ _ _ Hr2 Hf Hc10 Hy Htv)
    as (y' & ys' & T3 & s3 & Hys & Hlead & Htv3 & Hr3).
  exists y', ys', T3, s3. split_and!; try done. rewrite Hsw.
  eapply leads_trans; [apply leads_goto|]. cbn [step]. unfold onDataState. cbn [Z.eqb Pos.eqb].
  assert (haveBufferedCharacterToken (set_input 60 false T) = false) as ->.
  { unfold haveBufferedCharacterToken, HTMLToken.is_type. cbn. by rewrite Hty. }
  rewrite Hadv. eapply leads_trans; [apply leads_goto|]. cbn [step]. unfold onTagOpenState.
  apply isASCIIAlpha_spec in Hc as Hrange. rewrite (proj2 (Z.eqb_neq c 33)), (proj2 (Z.eqb_neq c 47)), Hc by lia.
  rewrite Hbeg. exact Hlead.
Qed.

End Tags.

(** C14: A start tag is read back: any tag name that begins with a letter and any
    list of attributes, written with double-quoted values in which ampersands,
    quotes and carriage returns are numeric references, is emitted as one start
    tag token with the name and the attribute names in lower case, the
    attribute values exactly as they were, and the self-closing flag; the
    source is left after the tag, the tokenizer in the data state with the name
    saved as the appropriate end tag name. *)
Theorem startTag_roundtrip {S : Type} `{InputStreamLaws S} (table : HTMLEntityTable) (T : t) (s : S)
    (name : list Z) (attributes : list (list Z * list Z)) (selfClosing : bool) (rest : list Z) (b : bool) :
  m_state T = DataState -> m_bufferedEndTagName T = [] -> HTMLToken.m_type (m_token T) = HTMLToken.Uninitialized ->
  HTMLToken.m_data (m_token T) = [] ->
  TagNameOk name -> Forall AttributeOk attributes ->
  reads s (printStartTag name attributes selfClosing ++ rest) b -> fits (printStartTag name attributes selfClosing ++ rest) ->
  exists T' s', processes table T s true T' s' /\
    Emitted (map toASCIILower name) (map (fun a => (map toASCIILower (fst a), snd a)) attributes) selfClosing T' /\
    reads s' rest b.
Proof.
  intros Hst Hb Hty Hd (c & cs & -> & Hc & Hcs) Hatts Hr Hf. unfold printStartTag in *.
  cbn [app] in *. rewrite <- !app_assoc in *. cbn [app] in *.
  set (x := if selfClosing then 47 else 62). set (tail := if selfClosing then 62 :: rest else rest).
  assert (Hend : (if selfClosing then [47] else []) ++ 62 :: rest = x :: tail) by (by destruct selfClosing).
  assert (Hx : plain x) by (unfold plain, x; destruct selfClosing; lia). rewrite Hend in *.
  assert (Hmid : exists y ys, concat (map printAttribute attributes) ++ x :: tail = y :: ys /\ plain y).
  { destruct attributes; by eexists _, _. }
  destruct Hmid as (y & ys & Hy & Hpy).
  assert (Hhead : exists z zs, cs ++ y :: ys = z :: zs /\ plain z).
  { apply (head_plain tagNameCharacter); try done. intros d Hdd. by apply tagNameCharacter_plain. }
  rewrite Hy in *. pose proof (tag_begin table T s c _ b Hty Hd Hb Hc Hhead Hr Hf) as Ho.
  apply fits_tail, fits_tail in Hf. apply tagName_loop in Ho; try done. apply fits_app in Hf. rewrite <- Hy in *.
  destruct (attributes_read table _ _ _ _ attributes x tail b _ (or_introl eq_refl) Ho Hf Hatts Hx) as (st & current & Hst' & Ho').
  destruct Ho' as (x' & tail' & T1 & s1 & [= <- <-] & Hlead & Htv & Hr1). apply fits_app in Hf. rewrite <- Hend in Hr1, Hf.
  destruct (tag_end table st T1 s1 _ _ current selfClosing rest b Hst' Htv Hf Hr1) as (T' & s' & Hlead' & Hem & Hr').
  exists T', s'. split_and!; try done. apply leads_processes. rewrite startToken_SWITCH_TO, Hst by done.
  eapply leads_trans; [exact Hlead|]. eapply leads_trans; [apply leads_goto|exact Hlead'].
Qed.

Lemma startTag_roundtrip_witness :
  exists T' s',
    processes sampleTable (init defaultOptions) (wholeFile (printStartTag (chrs "IMG") [(chrs "Alt", [34; 38; 13; 10; 60])] true))
      true T' s' /\
    Emitted (chrs "img") [(chrs "alt", [34; 38; 13; 10; 60])] true T'.
Proof.
  destruct (startTag_roundtrip sampleTable (init defaultOptions)
              (wholeFile (printStartTag (chrs "IMG") [(chrs "Alt", [34; 38; 13; 10; 60])] true))
              (chrs "IMG") [(chrs "Alt", [34; 38; 13; 10; 60])] true [0] true) as (T' & s' & Hp & He & _).
  - reflexivity.
  - reflexivity.
  - reflexivity.
  - reflexivity.
  - exists (chr "I"), (chrs "MG"). split; [reflexivity|]. split; [reflexivity|]. repeat constructor.
  - repeat constructor; discriminate.
  - apply wholeFile_reads.
  - reflexivity.
  - exists T', s'. split; [exact Hp|exact He].
Defined.
