(* ===== verification/Double.v ===== *)
(** * Double: the [double] arithmetic of the date code

    The date code computes with [double] values that hold integers, divides
    them and takes the floor.  A finite [double] is [m * 2^e]; an operation
    rounds its exact result to 53 bits, to nearest, ties to even.  The values
    of the date code neither overflow the exponent range nor become
    subnormal, so the exponent is not bounded here. *)

From S2P Require Import Prelude.

(** A [double]: not a number, an infinity, or [m * 2^e]. *)
Inductive double := NaN | Infinity (negative : bool) | Finite (m e : Z).

Definition isfinite (x : double) : bool := match x with Finite _ _ => true | _ => false end.

(** [n / d] rounded to the nearest integer, ties to even. *)
Definition rne (n d : Z) : Z :=
  let q := n / d in
  let r := n mod d in
  if 2 * r <? d then q else if d <? 2 * r then q + 1 else if Z.even q then q else q + 1.

(** The fraction [n / d] scaled by [2^-e]. *)
Definition scale (n d e : Z) : Z * Z := if 0 <=? e then (n, d * 2 ^ e) else (n * 2 ^ (- e), d).

(** The exponent at which the mantissa of [n / d] has 53 bits. *)
Definition exponent (n d : Z) : Z :=
  let e := Z.log2 (Z.abs n) - Z.log2 d - 53 in
  let (a, b) := scale (Z.abs n) d e in
  if 2 ^ 53 * b <=? a then e + 1 else e.

(** The [double] nearest to [n / d]. *)
Definition divide (n d : Z) : Z * Z :=
  if n =? 0 then (0, 0) else
  let e := exponent n d in
  let (a, b) := scale n d e in (rne a b, e).

(** [floor] of a finite [double], an integer. *)
Definition floor (x : Z * Z) : Z :=
  let (m, e) := x in if 0 <=? e then m * 2 ^ e else m / 2 ^ (- e).

(** [floor(n / d)] on [double]s that hold integers, [d] positive. *)
Definition floorDivide (n d : Z) : Z := floor (divide n d).

(** The [double] nearest to an integer: what an addition, subtraction or
    multiplication of integers returns. *)
Definition fl (n : Z) : Z := floorDivide n 1.

Declare Scope double_scope.
Delimit Scope double_scope with double.
Notation "x ⊕ y" := (fl (x + y)) (at level 50, left associativity) : double_scope.
Notation "x ⊖ y" := (fl (x - y)) (at level 50, left associativity) : double_scope.
Notation "x ⊗ y" := (fl (x * y)) (at level 40, left associativity) : double_scope.

(** [round]: to the nearest integer, halves away from zero. *)
Definition round (m e : Z) : Z :=
  if 0 <=? e then m * 2 ^ e
  else Z.sgn m * ((2 * Z.abs m + 2 ^ (- e)) / (2 * 2 ^ (- e))).

(** [fmod]: exact, with the sign of the dividend. *)
Definition fmod (n d : Z) : Z := Z.rem n d.

(** The conversion of a [double] to [int] is undefined outside the range of [int]. *)
Definition static_cast_int (z : Z) : option Z :=
  if (INT_MIN <=? z) && (z <=? INT_MAX) then Some z else None.

(** ** Operations on integers of at most 53 bits are exact *)

Lemma rne_error n d : 0 < d -> Z.abs (2 * (rne n d * d - n)) <= d.
Proof.
  intros Hd. unfold rne. pose proof (Z.div_mod n d ltac:(lia)). pose proof (Z.mod_pos_bound n d Hd).
  repeat step_if; zbool; lia.
Qed.

(** A quotient of an integer of at most 53 bits has a non-positive exponent,
    and its mantissa has 53 bits. *)
Lemma exponent_spec n d :
  n <> 0 -> Z.abs n < 2 ^ 53 -> 0 < d ->
  exponent n d <= 0 /\ 2 ^ 52 * d <= Z.abs n * 2 ^ (- exponent n d).
Proof.
  intros Hn Hsmall Hd. pose proof (Z.log2_spec (Z.abs n) ltac:(lia)) as Hk. pose proof (Z.log2_spec d Hd) as Hl.
  pose proof (Z.log2_nonneg (Z.abs n)) as Hk0. pose proof (Z.log2_nonneg d) as Hl0.
  unfold exponent. revert Hk Hl Hk0 Hl0. generalize (Z.log2 (Z.abs n)) (Z.log2 d). intros k l Hk Hl Hk0 Hl0.
  assert (k < 53) by (apply (Z.pow_lt_mono_r_iff 2); lia).
  unfold scale. rewrite (proj2 (Z.leb_gt 0 (k - l - 53))) by lia. step_if; zbool; (split; [lia|]).
  - replace (- (k - l - 53)) with (Z.succ (- (k - l - 53 + 1))) in Heqb by lia.
    rewrite Z.pow_succ_r in Heqb by lia. lia.
  - replace (- (k - l - 53)) with (l + (53 - k)) by lia. rewrite Z.pow_add_r by lia.
    assert (2 ^ k * 2 ^ (53 - k) = 2 ^ 53) by (rewrite <- Z.pow_add_r by lia; f_equal; lia).
    assert (0 < 2 ^ (53 - k)) by (apply Z.pow_pos_nonneg; lia).
    rewrite Z.pow_succ_r in Hl by lia.
    transitivity (2 ^ k * (2 ^ l * 2 ^ (53 - k))); [|apply Z.mul_le_mono_nonneg_r; [lia|tauto]].
    rewrite (Z.mul_comm (2 ^ l)), Z.mul_assoc, H0. lia.
Qed.

Lemma rne_floor n d p :
  0 < d -> 0 < p -> d < 2 * p -> rne (n * p) d / p = n / d.
Proof.
  intros Hd Hp Hdp. pose proof (rne_error (n * p) d Hd) as He. revert He.
  generalize (rne (n * p) d). intros m He.
  pose proof (Z.div_mod n d ltac:(lia)) as Hn. pose proof (Z.mod_pos_bound n d Hd) as Hr.
  revert Hn Hr. generalize (n / d) (n mod d). intros q r -> Hr.
  enough (q * p <= m < (q + 1) * p) by (symmetry; apply (Z.div_unique_pos m p q (m - p * q)); lia).
  assert (exists D, m = q * p + D) as [D ->] by (exists (m - q * p); lia).
  replace ((q * p + D) * d - (d * q + r) * p) with (d * D - r * p) in He by lia.
  assert (0 <= r * p) by nia. assert (p <= (d - r) * p) by nia.
  split.
  - enough (0 <= D) by lia. apply Z.nlt_ge. intros HD. assert (d * D <= - d) by nia. lia.
  - enough (D < p) by lia. apply Z.nle_gt. intros HD. assert (d * p <= d * D) by nia. lia.
Qed.

(** Dividing integers of at most 53 bits and taking the floor is integer
    division: the rounding never crosses an integer. *)
Lemma floorDivide_exact n d : Z.abs n < 2 ^ 53 -> 0 < d -> floorDivide n d = n / d.
Proof.
  intros Hn Hd. unfold floorDivide, divide. step_if; zbool; [by subst|].
  pose proof (exponent_spec n d Heqb Hn Hd) as [He Hm]. revert He Hm. generalize (exponent n d). intros e He Hm.
  assert (0 < 2 ^ (- e)) by (apply Z.pow_pos_nonneg; lia).
  assert (scale n d e = (n * 2 ^ (- e), d)) as ->.
  { unfold scale. step_if; [|done]. zbool. assert (e = 0) as -> by lia. cbn. by rewrite !Z.mul_1_r. }
  assert (floor (rne (n * 2 ^ (- e)) d, e) = rne (n * 2 ^ (- e)) d / 2 ^ (- e)) as ->.
  { unfold floor. step_if; [|done]. zbool. assert (e = 0) as -> by lia. cbn. by rewrite Z.mul_1_r, Z.div_1_r. }
  apply rne_floor; [done..|]. assert (2 ^ 52 * d < 2 ^ 53 * 2 ^ (- e)) by nia. lia.
Qed.

Lemma fl_exact n : Z.abs n < 2 ^ 53 -> fl n = n.
Proof. intros H. unfold fl. by rewrite floorDivide_exact, Z.div_1_r by lia. Qed.

Lemma static_cast_int_Some z : is_i32 z -> static_cast_int z = Some z.
Proof. unfold is_i32, static_cast_int. intros. by rewrite (proj2 (andb_true_iff _ _)) by (rewrite !Z.leb_le; lia). Qed.

Lemma static_cast_int_inv z y : static_cast_int z = Some y -> y = z /\ is_i32 z.
Proof. unfold is_i32, static_cast_int. step_if; [|done]. intros [= <-]. zbool. lia. Qed.

Create Rewrite HintDb double.
#[export] Hint Rewrite fl_exact floorDivide_exact using lia : double.
