(* ===== verification/DateMath.v ===== *)
(** * DateMath: the proleptic Gregorian calendar

    Translated from src/Source/WTF/wtf/DateMath.cpp and DateMath.h: the
    functions between a time in milliseconds since 1970 and a date.  A
    [double] argument is the integer it holds; every operation on doubles
    rounds ([Double]).  [None] is a failed assertion or a conversion to [int]
    outside the range of [int]. *)

From S2P Require Import Prelude Double.

#[local] Open Scope double_scope.

Module DateMath.

Definition hoursPerDay : Z := 24.
Definition minutesPerHour : Z := 60.
Definition secondsPerMinute : Z := 60.
Definition msPerSecond : Z := 1000.
Definition secondsPerHour : Z := secondsPerMinute * minutesPerHour.
Definition secondsPerDay : Z := secondsPerHour * hoursPerDay.
Definition msPerMinute : Z := msPerSecond * secondsPerMinute.
Definition msPerHour : Z := msPerSecond * secondsPerHour.
Definition msPerDay : Z := msPerSecond * secondsPerDay.

(** [msPerDay * 365.2425], an integer in double arithmetic too. *)
Definition msPerAverageYear : Z := 31556952000.

Definition firstDayOfMonth (leapYear : bool) : list Z :=
  if leapYear then [0; 31; 60; 91; 121; 152; 182; 213; 244; 274; 305; 335]
  else [0; 31; 59; 90; 120; 151; 181; 212; 243; 273; 304; 334].

Definition isLeapYear (year : Z) : bool :=
  if negb (Z.rem year 4 =? 0) then false
  else if Z.rem year 400 =? 0 then true
  else if Z.rem year 100 =? 0 then false
  else true.

Definition daysInYear (year : Z) : Z := 365 + Z.b2z (isLeapYear year).

Definition daysFrom1970ToYear (year : Z) : Z :=
  let leapDaysBefore1971By4Rule := Z.quot 1970 4 in
  let excludedLeapDaysBefore1971By100Rule := Z.quot 1970 100 in
  let leapDaysBefore1971By400Rule := Z.quot 1970 400 in
  let yearMinusOne := i32 (year - 1) in
  let yearsToAddBy4Rule := floorDivide yearMinusOne 4 ⊖ leapDaysBefore1971By4Rule in
  let yearsToExcludeBy100Rule := floorDivide yearMinusOne 100 ⊖ excludedLeapDaysBefore1971By100Rule in
  let yearsToAddBy400Rule := floorDivide yearMinusOne 400 ⊖ leapDaysBefore1971By400Rule in
  365 ⊗ (year ⊖ 1970) ⊕ yearsToAddBy4Rule ⊖ yearsToExcludeBy100Rule ⊕ yearsToAddBy400Rule.

Definition msToDays (ms : Z) : Z := floorDivide ms msPerDay.

Definition msToYear (ms : Z) : option Z :=
  approxYear ← static_cast_int (floorDivide ms msPerAverageYear ⊕ 1970);
  let msFromApproxYearTo1970 := msPerDay ⊗ daysFrom1970ToYear approxYear in
  Some (if ms <? msFromApproxYearTo1970 then approxYear - 1
        else if msFromApproxYearTo1970 ⊕ (msPerDay ⊗ daysInYear approxYear) <=? ms then approxYear + 1
        else approxYear).

(** [dayInYear(double ms, int year)]. *)
Definition dayInYearOfMs (ms year : Z) : option Z :=
  static_cast_int (msToDays ms ⊖ daysFrom1970ToYear year).

Definition msToMilliseconds (ms : Z) : Z :=
  let result := fmod ms msPerDay in
  if result <? 0 then result ⊕ msPerDay else result.

Definition msToMinutes (ms : Z) : option Z :=
  let result := fmod (floorDivide ms msPerMinute) minutesPerHour in
  static_cast_int (if result <? 0 then result ⊕ minutesPerHour else result).

Definition msToHours (ms : Z) : option Z :=
  let result := fmod (floorDivide ms msPerHour) hoursPerDay in
  static_cast_int (if result <? 0 then result ⊕ hoursPerDay else result).

Definition monthFromDayInYear (dayInYear : Z) (leapYear : bool) : Z :=
  let d := dayInYear in
  let step := 31 in
  if d <? step then 0 else
  let step := step + (if leapYear then 29 else 28) in
  if d <? step then 1 else
  let step := step + 31 in if d <? step then 2 else
  let step := step + 30 in if d <? step then 3 else
  let step := step + 31 in if d <? step then 4 else
  let step := step + 30 in if d <? step then 5 else
  let step := step + 31 in if d <? step then 6 else
  let step := step + 31 in if d <? step then 7 else
  let step := step + 30 in if d <? step then 8 else
  let step := step + 31 in if d <? step then 9 else
  let step := step + 30 in if d <? step then 10 else
  11.

(** The new [startDayOfThisMonth] and [startDayOfNextMonth], and the answer. *)
Definition checkMonth (dayInYear startDayOfNextMonth daysInThisMonth : Z) : Z * Z * bool :=
  let startDayOfThisMonth := startDayOfNextMonth in
  let startDayOfNextMonth := startDayOfNextMonth + daysInThisMonth in
  (startDayOfThisMonth, startDayOfNextMonth, dayInYear <=? startDayOfNextMonth).

Definition dayInMonthFromDayInYear (dayInYear : Z) (leapYear : bool) : Z :=
  let d := dayInYear in
  let next := 30 in
  if d <=? next then d + 1 else
  let daysInFeb := if leapYear then 29 else 28 in
  let '(step, next, ok) := checkMonth d next daysInFeb in if ok then d - step else
  let '(step, next, ok) := checkMonth d next 31 in if ok then d - step else
  let '(step, next, ok) := checkMonth d next 30 in if ok then d - step else
  let '(step, next, ok) := checkMonth d next 31 in if ok then d - step else
  let '(step, next, ok) := checkMonth d next 30 in if ok then d - step else
  let '(step, next, ok) := checkMonth d next 31 in if ok then d - step else
  let '(step, next, ok) := checkMonth d next 31 in if ok then d - step else
  let '(step, next, ok) := checkMonth d next 30 in if ok then d - step else
  let '(step, next, ok) := checkMonth d next 31 in if ok then d - step else
  let '(step, next, ok) := checkMonth d next 30 in if ok then d - step else
  let step := next in
  d - step.

(** [dayInYear(int year, int month, int day)]; [None] is a read outside the
    table. *)
Definition dayInYear (year month day : Z) : option Z :=
  first ← (if month <? 0 then None else firstDayOfMonth (isLeapYear year) !! Z.to_nat month);
  Some (first + day - 1).

Definition dateToDaysFrom1970 (year month day : Z) : option Z :=
  let year := i32 (year + Z.quot month 12) in
  let month := Z.rem month 12 in
  let (month, year) := if month <? 0 then (month + 12, i32 (year - 1)) else (month, year) in
  let yearday := daysFrom1970ToYear year in
  guard (((1970 <=? year) && (0 <=? yearday)) || ((year <? 1970) && (yearday <? 0)));;
  d ← dayInYear year month day;
  Some (yearday ⊕ d).

Definition maximumYearForDST : Z := 2037.

(** [minYear] is the value of the local static, [minimumYearForDST()] at the
    first call; [currentTime] the clock then. *)
Definition minimumYearForDST (currentTime : Z) : option Z :=
  year ← msToYear currentTime;
  Some (Z.min year (maximumYearForDST - 27)).

Definition equivalentYearForDST (minYear year : Z) : Z :=
  let maxYear := maximumYearForDST in
  let move difference :=
    let quotient := Z.quot difference 28 in
    let product := quotient * 28 in
    i32 (year + product) in
  if maxYear <? year then move (i32 (minYear - year))
  else if year <? minYear then move (i32 (maxYear - year))
  else year.

End DateMath.
