(* ===== verification/DateMathCorrect.v ===== *)
(** * DateMathCorrect: the functions of DateMath agree with the calendar

    The reference calendar is [nextDay]: the day after a date.  The day number
    of the code counts the steps of it, and the functions from milliseconds
    to a date invert the day number. *)

From S2P Require Import Prelude Double DateMath.
Import DateMath.

#[local] Ltac Zify.zify_post_hook ::= Z.div_mod_to_equations.

(** ** The reference calendar *)

Definition leap (y : Z) : bool :=
  ((y mod 4 =? 0) && negb (y mod 100 =? 0)) || (y mod 400 =? 0).

Definition monthLength (y m : Z) : Z :=
  match m with
  | 1 => if leap y then 29 else 28
  | 3 | 5 | 8 | 10 => 30
  | _ => 31
  end.

Definition validDate (y m d : Z) : bool :=
  (0 <=? m) && (m <=? 11) && (1 <=? d) && (d <=? monthLength y m).

Definition nextDay (date : Z * Z * Z) : Z * Z * Z :=
  let '(y, m, d) := date in
  if d <? monthLength y m then (y, m, d + 1)
  else if m <? 11 then (y, m + 1, 1)
  else (y + 1, 0, 1).

(** The days from 1970-01-01 to January 1st of a year, and from January 1st
    to the first of a month. *)
Definition yearStart (y : Z) : Z :=
  365 * (y - 1970) + ((y - 1) / 4 - 492) - ((y - 1) / 100 - 19) + ((y - 1) / 400 - 4).

Definition monthStart (y m : Z) : Z :=
  match m with
  | 0 => 0 | 1 => 31 | 2 => 59 | 3 => 90 | 4 => 120 | 5 => 151 | 6 => 181 | 7 => 212 | 8 => 243
  | 9 => 273 | 10 => 304 | _ => 334
  end + (if leap y && (1 <? m) then 1 else 0).

Definition dayNumber (y m d : Z) : Z := yearStart y + monthStart y m + d - 1.

(** [by_month m] proves a goal for each of the twelve months and both kinds of
    years. *)
Lemma month_cases m :
  0 <= m <= 11 ->
  m = 0 \/ m = 1 \/ m = 2 \/ m = 3 \/ m = 4 \/ m = 5 \/ m = 6 \/ m = 7 \/ m = 8 \/ m = 9 \/ m = 10 \/ m = 11.
Proof. lia. Qed.

Ltac by_month m tac :=
  let H := fresh in
  assert (0 <= m <= 11) as H by lia; apply month_cases in H;
  repeat destruct H as [H|H]; subst m; tac.

Lemma leap_isLeapYear y : isLeapYear y = leap y.
Proof.
  unfold isLeapYear, leap.
  assert (forall k, 0 < k -> (Z.rem y k =? 0) = (y mod k =? 0)) as Hr.
  { intros k Hk. apply eq_true_iff_eq. rewrite !Z.eqb_eq, Z.rem_divide, Z.mod_divide by lia. done. }
  rewrite !Hr by lia. destruct (Z.eqb_spec (y mod 4) 0), (Z.eqb_spec (y mod 100) 0), (Z.eqb_spec (y mod 400) 0);
    cbn; lia.
Qed.

Lemma yearStart_next y : yearStart (y + 1) = yearStart y + 365 + Z.b2z (leap y).
Proof.
  unfold yearStart, leap.
  destruct (Z.eqb_spec (y mod 4) 0), (Z.eqb_spec (y mod 100) 0), (Z.eqb_spec (y mod 400) 0); cbn; lia.
Qed.

Lemma yearStart_mono y z : y < z -> yearStart y + 365 <= yearStart z.
Proof. unfold yearStart. lia. Qed.

Lemma yearStart_bounds y : -2 ^ 31 <= y <= 2 ^ 31 -> - 2 ^ 41 < yearStart y < 2 ^ 41.
Proof. unfold yearStart. lia. Qed.

Lemma monthStart_next y m : 0 <= m <= 10 -> monthStart y (m + 1) = monthStart y m + monthLength y m.
Proof.
  intros Hm. by_month m ltac:(try lia; unfold monthStart, monthLength; cbn; destruct (leap y); done).
Qed.

Lemma monthStart_last y : monthStart y 11 + monthLength y 11 = 365 + Z.b2z (leap y).
Proof. unfold monthStart, monthLength. cbn. by destruct (leap y). Qed.

Lemma monthStart_range y m : 0 <= m <= 11 -> 0 <= monthStart y m /\ 28 <= monthLength y m <= 31 /\ monthStart y m + monthLength y m <= 366.
Proof.
  intros Hm. by_month m ltac:(unfold monthStart, monthLength; cbn; destruct (leap y); cbn; lia).
Qed.

Lemma validDate_spec y m d :
  validDate y m d = true <-> 0 <= m <= 11 /\ 1 <= d <= monthLength y m.
Proof. unfold validDate. rewrite !andb_true_iff, !Z.leb_le. lia. Qed.

(** The day number counts the steps of [nextDay]. *)
Lemma dayNumber_next y m d :
  validDate y m d = true ->
  let '(y', m', d') := nextDay (y, m, d) in
  validDate y' m' d' = true /\ dayNumber y' m' d' = dayNumber y m d + 1.
Proof.
  rewrite validDate_spec. intros [Hm Hd]. unfold nextDay, dayNumber. repeat step_if; zbool; rewrite validDate_spec.
  - lia.
  - pose proof (monthStart_next y m ltac:(lia)). pose proof (monthStart_range y (m + 1) ltac:(lia)). lia.
  - assert (m = 11) as -> by lia. pose proof (monthStart_last y). rewrite yearStart_next.
    pose proof (monthStart_range (y + 1) 0 ltac:(lia)).
    replace (monthStart (y + 1) 0) with 0 by (unfold monthStart; cbn; by rewrite andb_false_r). lia.
Qed.

(** ** The functions of DateMath *)

Lemma daysFrom1970ToYear_spec y : INT_MIN < y <= INT_MAX -> daysFrom1970ToYear y = yearStart y.
Proof.
  unfold INT_MIN, INT_MAX. intros Hy. unfold daysFrom1970ToYear.
  change (Z.quot 1970 4) with 492. change (Z.quot 1970 100) with 19. change (Z.quot 1970 400) with 4.
  rewrite i32_id by (unfold is_i32, INT_MIN, INT_MAX; lia).
  rewrite !floorDivide_exact by lia.
  rewrite (fl_exact ((y - 1) / 4 - 492)), (fl_exact ((y - 1) / 100 - 19)), (fl_exact ((y - 1) / 400 - 4)),
    (fl_exact (y - 1970)), (fl_exact (365 * (y - 1970))), 
    (fl_exact (365 * (y - 1970) + _)), (fl_exact (365 * (y - 1970) + _ - _)), fl_exact by lia.
  done.
Qed.

Lemma firstDayOfMonth_spec y m :
  0 <= m <= 11 -> firstDayOfMonth (isLeapYear y) !! Z.to_nat m = Some (monthStart y m).
Proof.
  intros Hm. rewrite leap_isLeapYear.
  by_month m ltac:(unfold monthStart; destruct (leap y); reflexivity).
Qed.

Lemma dateToDaysFrom1970_spec y m d :
  INT_MIN < y <= INT_MAX -> 0 <= m <= 11 -> 1 <= d <= 31 ->
  dateToDaysFrom1970 y m d = Some (dayNumber y m d).
Proof.
  intros Hy Hm Hd. unfold dateToDaysFrom1970. rewrite Z.quot_small, Z.rem_small by lia. rewrite Z.add_0_r.
  rewrite (i32_id y) by (unfold is_i32; lia). rewrite (proj2 (Z.ltb_ge m 0)) by lia.
  rewrite daysFrom1970ToYear_spec by done. unfold dayInYear. rewrite (proj2 (Z.ltb_ge m 0)) by lia.
  rewrite firstDayOfMonth_spec by lia. cbn [mbind option_bind].
  unfold INT_MIN, INT_MAX in Hy. pose proof (yearStart_bounds y ltac:(lia)) as Hb.
  pose proof (monthStart_range y m Hm). rewrite option_guard_True.
  - cbn [mbind option_bind]. rewrite fl_exact by lia. unfold dayNumber. f_equal. lia.
  - apply Is_true_eq_left. unfold yearStart in *. destruct (Z.ltb_spec y 1970).
    + apply orb_true_iff. right. rewrite andb_true_l. apply Z.ltb_lt. lia.
    + apply orb_true_iff. left. rewrite (proj2 (Z.leb_le 1970 y)) by lia. apply Z.leb_le. lia.
Qed.

(** ** From milliseconds to dates *)

(** The times for which every intermediate value is exact: a little beyond the
    range of ECMAScript times, [8.64 * 10^15]. *)
Definition representableTime (ms : Z) : Prop := - 9 * 10 ^ 15 <= ms <= 9 * 10 ^ 15.

Lemma msToDays_spec ms : representableTime ms -> msToDays ms = ms / msPerDay.
Proof. unfold representableTime, msToDays. intros. apply floorDivide_exact; [lia|done]. Qed.

(** The estimate of [msToYear] is off by at most one year. *)
Lemma approxYear_off ms :
  let y := ms / msPerAverageYear + 1970 in
  yearStart (y - 1) * msPerDay <= ms < yearStart (y + 2) * msPerDay.
Proof.
  cbn zeta. change msPerDay with 86400000. unfold msPerAverageYear, yearStart. lia.
Qed.

Lemma msToYear_spec ms :
  representableTime ms ->
  exists y, msToYear ms = Some y /\ yearStart y <= ms / msPerDay < yearStart (y + 1) /\ - 300000 <= y <= 300000.
Proof.
  unfold representableTime. intros Hms. unfold msToYear. rewrite floorDivide_exact by (unfold msPerAverageYear; lia).
  pose proof (approxYear_off ms) as Ha. cbn zeta in Ha.
  set (y := ms / msPerAverageYear + 1970) in *.
  assert (- 290000 <= y <= 290000) as Hy by (unfold y, msPerAverageYear; lia).
  rewrite fl_exact by lia. rewrite static_cast_int_Some by (unfold is_i32, INT_MIN, INT_MAX; lia).
  cbn [mbind option_bind]. unfold daysInYear.
  rewrite daysFrom1970ToYear_spec, leap_isLeapYear by (unfold INT_MIN, INT_MAX; lia).
  pose proof (yearStart_next y) as Hn. pose proof (yearStart_next (y - 1)) as Hp.
  pose proof (yearStart_next (y + 1)) as Hnn. replace (y - 1 + 1) with y in Hp by lia.
  replace (y + 1 + 1) with (y + 2) in Hnn by lia.
  assert (- 10 ^ 8 * 11 <= yearStart y <= 10 ^ 8 * 11) as Hb by (unfold yearStart; lia).
  change msPerDay with 86400000 in *. clearbody y.
  assert (Z.b2z (leap y) = 0 \/ Z.b2z (leap y) = 1) by (destruct (leap y); cbn; lia).
  assert (Z.b2z (leap (y + 1)) = 0 \/ Z.b2z (leap (y + 1)) = 1) by (destruct (leap (y + 1)); cbn; lia).
  assert (Z.b2z (leap (y - 1)) = 0 \/ Z.b2z (leap (y - 1)) = 1) by (destruct (leap (y - 1)); cbn; lia).
  rewrite (fl_exact (86400000 * (365 + _))), (fl_exact (86400000 * yearStart y)), fl_exact by lia.
  eexists; split; [reflexivity|]. repeat step_if; zbool.
  - replace (y - 1 + 1) with y by lia. lia.
  - replace (y + 1 + 1) with (y + 2) by lia. lia.
  - lia.
Qed.

Lemma dayInYearOfMs_spec ms y :
  representableTime ms -> - 300000 <= y <= 300000 -> dayInYearOfMs ms y = Some (ms / msPerDay - yearStart y).
Proof.
  unfold representableTime. intros Hms Hy. unfold dayInYearOfMs. rewrite msToDays_spec by done.
  rewrite daysFrom1970ToYear_spec by (unfold INT_MIN, INT_MAX; lia).
  assert (- 10 ^ 9 < ms / msPerDay - yearStart y < 10 ^ 9) by (change msPerDay with 86400000; unfold yearStart; lia).
  rewrite fl_exact by lia. apply static_cast_int_Some. unfold is_i32, INT_MIN, INT_MAX. lia.
Qed.

(** Month and day of the month from the day of the year. *)
Lemma monthFromDayInYear_spec y d :
  0 <= d < 365 + Z.b2z (leap y) ->
  let m := monthFromDayInYear d (leap y) in
  let md := dayInMonthFromDayInYear d (leap y) in
  validDate y m md = true /\ monthStart y m + md - 1 = d.
Proof.
  intros Hd. cbn zeta. rewrite validDate_spec. unfold monthFromDayInYear, dayInMonthFromDayInYear, checkMonth.
  destruct (leap y) eqn:El; cbn in Hd; repeat step_if; zbool; try lia; unfold monthStart, monthLength; rewrite ?El; cbn; lia.
Qed.

Lemma monthFromDayInYear_inverse y m d :
  validDate y m d = true ->
  monthFromDayInYear (monthStart y m + d - 1) (leap y) = m /\
  dayInMonthFromDayInYear (monthStart y m + d - 1) (leap y) = d.
Proof.
  rewrite validDate_spec. intros [Hm Hd]. unfold monthFromDayInYear, dayInMonthFromDayInYear, checkMonth.
  unfold monthStart, monthLength in *. destruct (leap y);
    by_month m ltac:(cbn in *; split; repeat step_if; zbool; lia).
Qed.

Lemma dayNumber_year y m d :
  validDate y m d = true -> yearStart y <= dayNumber y m d < yearStart (y + 1).
Proof.
  rewrite validDate_spec. intros [Hm Hd]. unfold dayNumber. rewrite yearStart_next.
  pose proof (monthStart_last y). pose proof (monthStart_range y m Hm).
  assert (monthStart y m + monthLength y m <= 365 + Z.b2z (leap y)); [|lia].
  by_month m ltac:(unfold monthStart, monthLength; destruct (leap y); cbn; lia).
Qed.

Lemma yearStart_inj x y z : yearStart y <= x < yearStart (y + 1) -> yearStart z <= x < yearStart (z + 1) -> y = z.
Proof.
  intros Hy Hz. destruct (Z.lt_trichotomy y z) as [H|[H|H]]; [|done|].
  - destruct (decide (y + 1 = z)) as [<-|]; [lia|]. pose proof (yearStart_mono (y + 1) z ltac:(lia)). lia.
  - destruct (decide (z + 1 = y)) as [<-|]; [lia|]. pose proof (yearStart_mono (z + 1) y ltac:(lia)). lia.
Qed.

(** The code's way from a time to a date, as one function. *)
Definition dateOfMs (ms : Z) : option (Z * Z * Z) :=
  y ← msToYear ms;
  yearDay ← dayInYearOfMs ms y;
  Some (y, monthFromDayInYear yearDay (isLeapYear y), dayInMonthFromDayInYear yearDay (isLeapYear y)).

Lemma dateOfMs_spec ms :
  representableTime ms ->
  exists y m d, dateOfMs ms = Some (y, m, d) /\ validDate y m d = true /\ - 300000 <= y <= 300000 /\
    dayNumber y m d = ms / msPerDay.
Proof.
  intros Hms. destruct (msToYear_spec ms Hms) as (y & Hy & Hr & Hb). rewrite yearStart_next in Hr.
  unfold dateOfMs. rewrite Hy. cbn [mbind option_bind]. rewrite dayInYearOfMs_spec by done. cbn [mbind option_bind].
  rewrite leap_isLeapYear. pose proof (monthFromDayInYear_spec y (ms / msPerDay - yearStart y) ltac:(lia)) as [Hv Hd].
  do 3 eexists. split; [reflexivity|]. split; [done|]. split; [done|]. unfold dayNumber. lia.
Qed.

Lemma dateOfMs_dayNumber y m d t :
  validDate y m d = true -> 0 <= t < msPerDay -> representableTime (dayNumber y m d * msPerDay + t) ->
  dateOfMs (dayNumber y m d * msPerDay + t) = Some (y, m, d).
Proof.
  intros Hv Ht Hms. set (ms := _ + t) in *.
  assert (ms / msPerDay = dayNumber y m d) as Hd.
  { unfold ms. rewrite Z.add_comm, Z.div_add, Z.div_small by (done || lia). lia. }
  destruct (msToYear_spec ms Hms) as (y' & Hy & Hr & Hb). rewrite Hd in Hr.
  pose proof (yearStart_inj _ _ _ Hr (dayNumber_year y m d Hv)) as ->.
  unfold dateOfMs. rewrite Hy. cbn [mbind option_bind]. rewrite dayInYearOfMs_spec by done. cbn [mbind option_bind].
  rewrite Hd, leap_isLeapYear. replace (dayNumber y m d - yearStart y) with (monthStart y m + d - 1)
    by (unfold dayNumber; lia). destruct (monthFromDayInYear_inverse y m d Hv) as [-> ->]. done.
Qed.

(** [dateToDaysFrom1970] counts days: it is 0 on 1970-01-01, and on the day
    after any valid date it is one more than on that date; its assertion holds
    and its arithmetic is exact. *)
Theorem dateToDaysFrom1970_counts y m d :
  validDate y m d = true -> INT_MIN < y < INT_MAX ->
  let '(y', m', d') := nextDay (y, m, d) in
  dateToDaysFrom1970 1970 0 1 = Some 0 /\
  exists n, dateToDaysFrom1970 y m d = Some n /\ dateToDaysFrom1970 y' m' d' = Some (n + 1).
Proof.
  intros Hv Hy. pose proof (dayNumber_next y m d Hv) as Hn.
  assert (forall y m d, validDate y m d = true -> INT_MIN < y <= INT_MAX ->
            dateToDaysFrom1970 y m d = Some (dayNumber y m d)) as Hspec.
  { intros y0 m0 d0 [Hm Hd]%validDate_spec Hy0. pose proof (monthStart_range y0 m0 Hm).
    apply dateToDaysFrom1970_spec; lia. }
  assert (INT_MIN < (nextDay (y, m, d)).1.1 <= INT_MAX) as Hy' by (unfold nextDay; repeat step_if; cbn; lia).
  destruct (nextDay (y, m, d)) as [[y' m'] d']. destruct Hn as [Hv' Hn]. split; [by vm_compute|].
  exists (dayNumber y m d). rewrite !Hspec, Hn by (done || cbn in Hy'; lia). done.
Qed.

Lemma dateToDaysFrom1970_counts_witness :
  exists n, dateToDaysFrom1970 2000 1 29 = Some n /\ dateToDaysFrom1970 2000 2 1 = Some (n + 1).
Proof. refine (proj2 (dateToDaysFrom1970_counts 2000 1 29 _ _)); vm_compute; done. Defined.

(** C19: The functions from a time to a date invert [dateToDaysFrom1970]: for a
    time within the exact range they give a valid date whose day number is
    the day of the time, and no other valid date has this day number. *)
Theorem dateOfMs_inverts ms :
  representableTime ms ->
  exists y m d, dateOfMs ms = Some (y, m, d) /\ validDate y m d = true /\
    dateToDaysFrom1970 y m d = Some (ms / msPerDay) /\
    forall y' m' d', validDate y' m' d' = true -> INT_MIN < y' <= INT_MAX ->
      dateToDaysFrom1970 y' m' d' = Some (ms / msPerDay) -> (y', m', d') = (y, m, d).
Proof.
  intros Hms. destruct (dateOfMs_spec ms Hms) as (y & m & d & He & Hv & Hy & Hd).
  exists y, m, d. split_and!; [done|done| |].
  - apply validDate_spec in Hv as [Hm Hmd]. pose proof (monthStart_range y m Hm).
    rewrite dateToDaysFrom1970_spec, Hd by (unfold INT_MIN, INT_MAX; lia). done.
  - intros y' m' d' Hv' Hy' Hd'. pose proof Hv' as [Hm' Hmd']%validDate_spec. pose proof (monthStart_range y' m' Hm').
    rewrite dateToDaysFrom1970_spec in Hd' by (unfold INT_MIN, INT_MAX in *; lia). injection Hd' as Hd'.
    assert (dayNumber y' m' d' * msPerDay + ms mod msPerDay = ms) as Hsum
      by (rewrite Hd'; pose proof (Z.div_mod ms msPerDay ltac:(done)); lia).
    pose proof (dateOfMs_dayNumber y' m' d' (ms mod msPerDay) Hv' (Z.mod_pos_bound ms msPerDay ltac:(done))
                  ltac:(by rewrite Hsum)) as Hinv.
    rewrite Hsum, He in Hinv. by injection Hinv as <- <- <-.
Qed.

Lemma dateOfMs_inverts_witness : exists y m d, dateOfMs (-1) = Some (y, m, d) /\ (y, m, d) = (1969, 11, 31).
Proof.
  destruct (dateOfMs_inverts (-1) ltac:(unfold representableTime; lia)) as (y & m & d & He & _).
  exists y, m, d. split; [exact He|]. vm_compute in He. congruence.
Defined.

#[local] Ltac Zify.zify_post_hook ::= Z.to_euclidean_division_equations.

(** [equivalentYearForDST] returns a year of the range it promises, a
    multiple of 28 years away; for years from 1901 to 2099 the two years have
    the same length and begin on the same day of the week. *)
Theorem equivalentYearForDST_correct minYear year :
  1901 <= minYear <= 2010 -> - 300000 <= year <= 300000 ->
  let z := equivalentYearForDST minYear year in
  minYear <= z <= maximumYearForDST /\ (z - year) mod 28 = 0 /\
  (1901 <= year <= 2099 -> isLeapYear z = isLeapYear year /\ (yearStart z - yearStart year) mod 7 = 0).
Proof.
  intros Hm Hy. cbn zeta. unfold equivalentYearForDST, maximumYearForDST.
  rewrite (i32_id (minYear - year)), (i32_id (2037 - year)) by (unfold is_i32, INT_MIN, INT_MAX; lia).
  rewrite !i32_id by (unfold is_i32, INT_MIN, INT_MAX; lia). rewrite !leap_isLeapYear.
  assert (forall k, 1901 <= year <= 2099 -> 1901 <= year + k * 28 <= 2099 ->
            leap (year + k * 28) = leap year /\ (yearStart (year + k * 28) - yearStart year) mod 7 = 0) as Hc.
  { intros k H1 H2. split; [|unfold yearStart; lia]. unfold leap.
    apply eq_true_iff_eq. rewrite !orb_true_iff, !andb_true_iff, !negb_true_iff, !Z.eqb_eq, !Z.eqb_neq. lia. }
  repeat step_if; zbool.
  - pose proof (Hc (Z.quot (minYear - year) 28)). split_and!; [lia|lia|lia|]. intros. apply H; lia.
  - pose proof (Hc (Z.quot (2037 - year) 28)). split_and!; [lia|lia|lia|]. intros. apply H; lia.
  - split_and!; [lia|lia|lia|]. intros. split; [done|]. by rewrite Z.sub_diag.
Qed.

Lemma equivalentYearForDST_correct_witness :
  equivalentYearForDST 2010 2050 = 2022 /\ (yearStart 2022 - yearStart 2050) mod 7 = 0.
Proof.
  split; [reflexivity|].
  exact (proj2 (proj2 (proj2 (equivalentYearForDST_correct 2010 2050 ltac:(lia) ltac:(lia))) ltac:(lia))).
Defined.

(** In 1900 and 2100, which the comment of the function does not exclude, the
    equivalent year has another length. *)
Lemma equivalentYearForDST_century :
  isLeapYear (equivalentYearForDST 2010 1900) <> isLeapYear 1900 /\
  isLeapYear (equivalentYearForDST 2010 2100) <> isLeapYear 2100.
Proof. by vm_compute. Qed.
