(* ===== verification/DateComponents.v ===== *)
(** * DateComponents: parsing, printing and arithmetic of form dates

    Translated from src/Source/WebCore/platform/DateComponents.cpp and
    DateComponents.h.  A method that returns [bool] and changes the object is a
    computation of the monad [M]: it may fault (a failed assertion, a read
    outside a buffer, an undefined conversion), return false with the object
    as it is then, or go on with a value.  An [out] parameter is the value of
    the computation.  Signed [int] arithmetic is exact: the values stay far
    from the limits of [int]. *)

From S2P Require Import Prelude ASCIICType Double DateMath.

#[local] Open Scope double_scope.

Module DateComponents.

Inductive DateType := Invalid | Date | DateTime | DateTimeLocal | Month | Time | Week.

Inductive SecondFormat := None_ | Second | Millisecond.

Record DateComponents := mkDateComponents {
  m_millisecond : Z;
  m_second : Z;
  m_minute : Z;
  m_hour : Z;
  m_monthDay : Z;
  m_month : Z;
  m_year : Z;
  m_week : Z;
  m_type : DateType
}.

Definition emptyDateComponents : DateComponents := mkDateComponents 0 0 0 0 0 0 0 0 Invalid.

Definition set_time (hour minute second millisecond : Z) (t : DateComponents) : DateComponents :=
  mkDateComponents millisecond second minute hour (m_monthDay t) (m_month t) (m_year t) (m_week t) (m_type t).
Definition set_monthDay (v : Z) (t : DateComponents) : DateComponents :=
  mkDateComponents (m_millisecond t) (m_second t) (m_minute t) (m_hour t) v (m_month t) (m_year t) (m_week t) (m_type t).
Definition set_month (v : Z) (t : DateComponents) : DateComponents :=
  mkDateComponents (m_millisecond t) (m_second t) (m_minute t) (m_hour t) (m_monthDay t) v (m_year t) (m_week t) (m_type t).
Definition set_year (v : Z) (t : DateComponents) : DateComponents :=
  mkDateComponents (m_millisecond t) (m_second t) (m_minute t) (m_hour t) (m_monthDay t) (m_month t) v (m_week t) (m_type t).
Definition set_week (v : Z) (t : DateComponents) : DateComponents :=
  mkDateComponents (m_millisecond t) (m_second t) (m_minute t) (m_hour t) (m_monthDay t) (m_month t) (m_year t) v (m_type t).
Definition set_type (v : DateType) (t : DateComponents) : DateComponents :=
  mkDateComponents (m_millisecond t) (m_second t) (m_minute t) (m_hour t) (m_monthDay t) (m_month t) (m_year t) (m_week t) v.
Definition set_hour (v : Z) (t : DateComponents) : DateComponents :=
  set_time v (m_minute t) (m_second t) (m_millisecond t) t.
Definition set_minute (v : Z) (t : DateComponents) : DateComponents :=
  set_time (m_hour t) v (m_second t) (m_millisecond t) t.

(** ** The monad of the methods *)

Definition M (A : Type) : Type := DateComponents -> option (DateComponents * option A).

#[global] Instance M_ret : MRet M := fun A a t => Some (t, Some a).
#[global] Instance M_bind : MBind M := fun A B k m t =>
  match m t with
  | Some (t, Some a) => k a t
  | Some (t, None) => Some (t, None)
  | None => None
  end.

(** [return false]. *)
Definition returnFalse {A} : M A := fun t => Some (t, None).
(** [if (!b) return false;] and [ASSERT(b)]. *)
Definition require (b : bool) : M () := if b then mret () else returnFalse.
Definition ASSERT (b : bool) : M () := fun t => if b then Some (t, Some ()) else None.
(** A computation that may fault but does not use the object. *)
Definition lift {A} (o : option A) : M A := fun t => a ← o; Some (t, Some a).
(** A function that answers false with [None]. *)
Definition check {A} (o : option A) : M A := match o with Some a => mret a | None => returnFalse end.
Definition this : M DateComponents := fun t => Some (t, Some t).
Definition assign (f : DateComponents -> DateComponents) : M () := fun t => Some (f t, Some ()).
(** [src[index]]. *)
Definition at_ (src : list Z) (index : Z) : option Z := if index <? 0 then None else src !! Z.to_nat index.

(** ** The calendar of the file *)

Definition minimumYear : Z := 1.
Definition maximumYear : Z := 275760.
Definition minimumWeekNumber : Z := 1.
Definition maximumWeekNumber : Z := 53.
Definition maximumMonthInMaximumYear : Z := 8.
Definition maximumDayInMaximumMonth : Z := 13.
Definition maximumWeekInMaximumYear : Z := 37.

Definition Wednesday : Z := 3.
Definition Thursday : Z := 4.

Definition daysInMonth : list Z := [31; 28; 31; 30; 31; 30; 31; 31; 30; 31; 30; 31].

Definition isLeapYear (year : Z) : bool :=
  if negb (Z.rem year 4 =? 0) then false
  else if Z.rem year 400 =? 0 then true
  else if Z.rem year 100 =? 0 then false
  else true.

Definition maxDayOfMonth (year month : Z) : option Z :=
  if negb (month =? 1) then at_ daysInMonth month
  else Some (if isLeapYear year then 29 else 28).

Definition dayOfWeek (year month day : Z) : Z :=
  let shiftedMonth := month + 2 in
  let '(shiftedMonth, year) := if shiftedMonth <=? 3 then (shiftedMonth + 12, year - 1) else (shiftedMonth, year) in
  let highYear := Z.quot year 100 in
  let lowYear := Z.rem year 100 in
  Z.rem (day + Z.quot (13 * shiftedMonth) 5 + lowYear + Z.quot lowYear 4 + Z.quot highYear 4 + 5 * highYear + 6) 7.

Definition maxWeekNumberInYear (t : DateComponents) : Z :=
  let day := dayOfWeek (m_year t) 0 1 in
  if (day =? Thursday) || ((day =? Wednesday) && isLeapYear (m_year t)) then maximumWeekNumber
  else maximumWeekNumber - 1.

Definition withinHTMLDateLimits_month (year month : Z) : bool :=
  if year <? minimumYear then false
  else if year <? maximumYear then true
  else month <=? maximumMonthInMaximumYear.

Definition withinHTMLDateLimits_date (year month monthDay : Z) : bool :=
  if year <? minimumYear then false
  else if year <? maximumYear then true
  else if month <? maximumMonthInMaximumYear then true
  else monthDay <=? maximumDayInMaximumMonth.

Definition withinHTMLDateLimits (year month monthDay hour minute second millisecond : Z) : bool :=
  if year <? minimumYear then false
  else if year <? maximumYear then true
  else if month <? maximumMonthInMaximumYear then true
  else if monthDay <? maximumDayInMaximumMonth then true
  else if maximumDayInMaximumMonth <? monthDay then false
  else (hour =? 0) && (minute =? 0) && (second =? 0) && (millisecond =? 0).

(** The last test of several methods, on the fields of the object. *)
Definition withinLimits (t : DateComponents) : bool :=
  withinHTMLDateLimits (m_year t) (m_month t) (m_monthDay t) (m_hour t) (m_minute t) (m_second t) (m_millisecond t).

(** ** Numbers *)

Fixpoint countDigits_loop (fuel : nat) (src : list Z) (length start index : Z) : option Z :=
  match fuel with
  | O => None
  | S fuel =>
      if index <? length then
        c ← at_ src index;
        if negb (isASCIIDigit c) then Some (index - start)
        else countDigits_loop fuel src length start (index + 1)
      else Some (index - start)
  end.

Definition countDigits (src : list Z) (length start : Z) : option Z :=
  countDigits_loop (S (Z.to_nat (length - start))) src length start start.

Fixpoint toInt_loop (n : nat) (src : list Z) (current value : Z) : option (option Z) :=
  match n with
  | O => Some (Some value)
  | S n =>
      c ← at_ src current;
      if negb (isASCIIDigit c) then Some None
      else
        let digit := c - chr "0" in
        if Z.quot (INT_MAX - digit) 10 <? value then Some None
        else toInt_loop n src (current + 1) (value * 10 + digit)
  end.

(** [None]: a read outside the buffer; [Some None]: false. *)
Definition toInt (src : list Z) (length parseStart parseLength : Z) : option (option Z) :=
  if (length <? u32 (parseStart + parseLength)) || (parseLength <=? 0) then Some None
  else toInt_loop (Z.to_nat parseLength) src parseStart 0.

(** [toInt(..., v) || v < low || v > high] as a condition of [return false]. *)
Definition toIntWithin (src : list Z) (length start digits low high : Z) : M Z :=
  r ← lift (toInt src length start digits);
  v ← check r;
  _ ← require ((low <=? v) && (v <=? high));
  mret v.

(** [index >= length || src[index] != c] as a condition of [return false]. *)
Definition expect (src : list Z) (length index c : Z) : M () :=
  _ ← require (index <? length);
  x ← lift (at_ src index);
  require (x =? c).

(** ** Adding days and minutes *)

(** The loop of [addDay] that counts up. *)
Fixpoint addDay_forward (dayDiff : nat) (year month day maxDay : Z) : option (Z * Z * Z) :=
  match dayDiff with
  | O => Some (year, month, day)
  | S dayDiff =>
      let day := day + 1 in
      if maxDay <? day then
        let day := 1 in
        let month := month + 1 in
        let '(month, year) := if 12 <=? month then (0, year + 1) else (month, year) in
        maxDay ← maxDayOfMonth year month;
        addDay_forward dayDiff year month day maxDay
      else addDay_forward dayDiff year month day maxDay
  end.

(** The loop that counts down. *)
Fixpoint addDay_backward (dayDiff : nat) (year month day : Z) : option (Z * Z * Z) :=
  match dayDiff with
  | O => Some (year, month, day)
  | S dayDiff =>
      let day := day - 1 in
      if day <? 1 then
        let month := month - 1 in
        let '(month, year) := if month <? 0 then (11, year - 1) else (month, year) in
        day ← maxDayOfMonth year month;
        addDay_backward dayDiff year month day
      else addDay_backward dayDiff year month day
  end.

Definition addDay (dayDiff : Z) : M () :=
  t ← this;
  _ ← ASSERT (negb (m_monthDay t =? 0));
  let day := m_monthDay t + dayDiff in
  maxDay ← lift (maxDayOfMonth (m_year t) (m_month t));
  if maxDay <? day then
    '(year, month, day) ← lift (addDay_forward (Z.to_nat dayDiff) (m_year t) (m_month t) (m_monthDay t) maxDay);
    _ ← require (withinHTMLDateLimits_date year month day);
    assign (fun t => set_monthDay day (set_month month (set_year year t)))
  else if day <? 1 then
    '(year, month, day) ← lift (addDay_backward (Z.to_nat (- dayDiff)) (m_year t) (m_month t) (m_monthDay t));
    _ ← require (withinHTMLDateLimits_date year month day);
    assign (fun t => set_monthDay day (set_month month (set_year year t)))
  else
    _ ← require (withinHTMLDateLimits_date (m_year t) (m_month t) day);
    assign (set_monthDay day).

Definition addMinute (minute : Z) : M () :=
  t ← this;
  _ ← ASSERT (withinHTMLDateLimits_date (m_year t) (m_month t) (m_monthDay t));
  let minute := minute + m_minute t in
  let within hour minute :=
    withinHTMLDateLimits (m_year t) (m_month t) (m_monthDay t) hour minute (m_second t) (m_millisecond t) in
  if (0 <=? minute) && (minute <=? 59) then
    _ ← require (within (m_hour t) minute);
    assign (set_minute minute)
  else
    let '(minute, carry) :=
      if 59 <? minute then (Z.rem minute 60, Z.quot minute 60)
      else let carry := Z.quot (59 - minute) 60 in (minute + carry * 60, - carry) in
    _ ← ASSERT ((0 <=? minute) && (minute <=? 59));
    let hour := m_hour t + carry in
    if (0 <=? hour) && (hour <=? 23) then
      _ ← require (within hour minute);
      assign (fun t => set_hour hour (set_minute minute t))
    else
      let '(hour, carry) :=
        if 23 <? hour then (Z.rem hour 24, Z.quot hour 24)
        else let carry := Z.quot (23 - hour) 24 in (hour + carry * 24, - carry) in
      _ ← ASSERT ((0 <=? hour) && (hour <=? 23));
      _ ← addDay carry;
      t ← this;
      _ ← require (withinHTMLDateLimits (m_year t) (m_month t) (m_monthDay t) hour minute
                     (m_second t) (m_millisecond t));
      assign (fun t => set_hour hour (set_minute minute t)).

(** ** Parsing *)

Definition parseYear (src : list Z) (length start : Z) : M Z :=
  digitsLength ← lift (countDigits src length start);
  _ ← require (4 <=? digitsLength);
  r ← lift (toInt src length start digitsLength);
  year ← check r;
  _ ← require ((minimumYear <=? year) && (year <=? maximumYear));
  _ ← assign (set_year year);
  mret (start + digitsLength).

Definition parseTimeZone (src : list Z) (length start : Z) : M Z :=
  _ ← require (start <? length);
  let index := start in
  c ← lift (at_ src index);
  if c =? chr "Z" then mret (index + 1)
  else
    minus ← (if c =? chr "+" then mret false else if c =? chr "-" then mret true else returnFalse);
    let index := index + 1 in
    hour ← toIntWithin src length index 2 0 23;
    let index := index + 2 in
    _ ← expect src length index (chr ":");
    let index := index + 1 in
    minute ← toIntWithin src length index 2 0 59;
    let index := index + 2 in
    let '(hour, minute) := if (minus : bool) then (- hour, - minute) else (hour, minute) in
    _ ← addMinute (- (hour * 60 + minute));
    mret index.

Definition parseMonth (src : list Z) (length start : Z) : M Z :=
  index ← parseYear src length start;
  _ ← expect src length index (chr "-");
  let index := index + 1 in
  month ← toIntWithin src length index 2 1 12;
  let month := month - 1 in
  t ← this;
  _ ← require (withinHTMLDateLimits_month (m_year t) month);
  _ ← assign (fun t => set_type Month (set_month month t));
  mret (index + 2).

Definition parseDate (src : list Z) (length start : Z) : M Z :=
  index ← parseMonth src length start;
  _ ← require (u32 (index + 2) <? length);
  c ← lift (at_ src index);
  _ ← require (c =? chr "-");
  let index := index + 1 in
  t ← this;
  r ← lift (toInt src length index 2);
  day ← check r;
  _ ← require (1 <=? day);
  maxDay ← lift (maxDayOfMonth (m_year t) (m_month t));
  _ ← require (day <=? maxDay);
  _ ← require (withinHTMLDateLimits_date (m_year t) (m_month t) day);
  _ ← assign (fun t => set_type Date (set_monthDay day t));
  mret (index + 2).

Definition parseWeek (src : list Z) (length start : Z) : M Z :=
  index ← parseYear src length start;
  _ ← require (u32 (index + 3) <? length);
  c ← lift (at_ src index);
  _ ← require (c =? chr "-");
  let index := index + 1 in
  c ← lift (at_ src index);
  _ ← require (c =? chr "W");
  let index := index + 1 in
  t ← this;
  week ← toIntWithin src length index 2 minimumWeekNumber (maxWeekNumberInYear t);
  _ ← require (negb ((m_year t =? maximumYear) && (maximumWeekInMaximumYear <? week)));
  _ ← assign (fun t => set_type Week (set_week week t));
  mret (index + 2).

(** The optional fraction after the seconds: the milliseconds and the index. *)
Definition parseFraction (src : list Z) (length index : Z) : option (Z * Z) :=
  if negb (index <? length) then Some (0, index) else
  c ← at_ src index;
  if negb (c =? chr ".") then Some (0, index) else
  digitsLength ← countDigits src length (index + 1);
  if negb (0 <? digitsLength) then Some (0, index) else
  let index := index + 1 in
  millisecond ← (if digitsLength =? 1 then v ← mjoin (toInt src length index 1); Some (v * 100)
                 else if digitsLength =? 2 then v ← mjoin (toInt src length index 2); Some (v * 10)
                 else mjoin (toInt src length index 3));
  Some (millisecond, index + digitsLength).

(** The optional seconds: the seconds, the milliseconds and the index.  A
    two-digit number above 59 is left in the seconds. *)
Definition parseSeconds (src : list Z) (length index : Z) : option (Z * Z * Z) :=
  if negb (u32 (index + 2) <? length) then Some (0, 0, index) else
  c ← at_ src index;
  if negb (c =? chr ":") then Some (0, 0, index) else
  r ← toInt src length (index + 1) 2;
  match r with
  | None => Some (0, 0, index)
  | Some second =>
      if (0 <=? second) && (second <=? 59) then
        '(millisecond, index) ← parseFraction src length (index + 3);
        Some (second, millisecond, index)
      else Some (second, 0, index)
  end.

Definition parseTime (src : list Z) (length start : Z) : M Z :=
  hour ← toIntWithin src length start 2 0 23;
  let index := start + 2 in
  _ ← expect src length index (chr ":");
  let index := index + 1 in
  minute ← toIntWithin src length index 2 0 59;
  let index := index + 2 in
  '(second, millisecond, index) ← lift (parseSeconds src length index);
  _ ← assign (fun t => set_type Time (set_time hour minute second millisecond t));
  mret index.

Definition parseDateTimeLocal (src : list Z) (length start : Z) : M Z :=
  index ← parseDate src length start;
  _ ← expect src length index (chr "T");
  let index := index + 1 in
  end_ ← parseTime src length index;
  t ← this;
  _ ← require (withinLimits t);
  _ ← assign (set_type DateTimeLocal);
  mret end_.

Definition parseDateTime (src : list Z) (length start : Z) : M Z :=
  index ← parseDate src length start;
  _ ← expect src length index (chr "T");
  let index := index + 1 in
  index ← parseTime src length index;
  end_ ← parseTimeZone src length index;
  t ← this;
  _ ← require (withinLimits t);
  _ ← assign (set_type DateTime);
  mret end_.

(** ** From numbers *)

Import DateMath.

Definition positiveFmod (value divider : Z) : Z :=
  let remainder := fmod value divider in
  if remainder <? 0 then remainder ⊕ divider else remainder.

Definition setMillisecondsSinceMidnightInternal (msInDay : Z) : M () :=
  _ ← ASSERT ((0 <=? msInDay) && (msInDay <? msPerDay));
  millisecond ← lift (static_cast_int (fmod msInDay msPerSecond));
  let value := floorDivide msInDay msPerSecond in
  second ← lift (static_cast_int (fmod value secondsPerMinute));
  let value := floorDivide value secondsPerMinute in
  minute ← lift (static_cast_int (fmod value minutesPerHour));
  hour ← lift (static_cast_int (floorDivide value minutesPerHour));
  assign (set_time hour minute second millisecond).

Definition setMillisecondsSinceEpochForDateInternal (ms : Z) : M () :=
  year ← lift (msToYear ms);
  _ ← assign (set_year year);
  yearDay ← lift (dayInYearOfMs ms year);
  assign (fun t => set_monthDay (dayInMonthFromDayInYear yearDay (isLeapYear year))
                     (set_month (monthFromDayInYear yearDay (isLeapYear year)) t)).

Definition setMillisecondsSinceEpochForDate (ms : double) : M () :=
  _ ← assign (set_type Invalid);
  match ms with
  | Finite m e =>
      _ ← setMillisecondsSinceEpochForDateInternal (round m e);
      t ← this;
      _ ← require (withinHTMLDateLimits_date (m_year t) (m_month t) (m_monthDay t));
      assign (set_type Date)
  | _ => returnFalse
  end.

Definition setMillisecondsSinceEpochForDateTime (ms : double) : M () :=
  _ ← assign (set_type Invalid);
  match ms with
  | Finite m e =>
      let ms := round m e in
      _ ← setMillisecondsSinceMidnightInternal (positiveFmod ms msPerDay);
      _ ← setMillisecondsSinceEpochForDateInternal ms;
      t ← this;
      _ ← require (withinLimits t);
      assign (set_type DateTime)
  | _ => returnFalse
  end.

Definition setMillisecondsSinceEpochForDateTimeLocal (ms : double) : M () :=
  _ ← setMillisecondsSinceEpochForDateTime ms;
  assign (set_type DateTimeLocal).

Definition setMillisecondsSinceEpochForMonth (ms : double) : M () :=
  _ ← assign (set_type Invalid);
  match ms with
  | Finite m e =>
      _ ← setMillisecondsSinceEpochForDateInternal (round m e);
      t ← this;
      _ ← require (withinHTMLDateLimits_month (m_year t) (m_month t));
      assign (set_type Month)
  | _ => returnFalse
  end.

Definition setMillisecondsSinceMidnight (ms : double) : M () :=
  _ ← assign (set_type Invalid);
  match ms with
  | Finite m e =>
      _ ← setMillisecondsSinceMidnightInternal (positiveFmod (round m e) msPerDay);
      assign (set_type Time)
  | _ => returnFalse
  end.

(** The quotient by 12 is an integer whenever the year is in range. *)
Definition setMonthsSinceEpoch (months : double) : M () :=
  match months with
  | Finite m e =>
      let months := round m e in
      let doubleMonth := positiveFmod months 12 in
      let doubleYear := 1970 ⊕ floorDivide (months ⊖ doubleMonth) 12 in
      _ ← require (negb ((doubleYear <? minimumYear) || (maximumYear <? doubleYear)));
      year ← lift (static_cast_int doubleYear);
      month ← lift (static_cast_int doubleMonth);
      _ ← require (withinHTMLDateLimits_month year month);
      assign (fun t => set_type Month (set_month month (set_year year t)))
  | _ => returnFalse
  end.

Definition offsetTo1stWeekStart (year : Z) : Z :=
  let offsetTo1stWeekStart := 1 - dayOfWeek year 0 1 in
  if offsetTo1stWeekStart <=? -4 then offsetTo1stWeekStart + 7 else offsetTo1stWeekStart.

Definition setMillisecondsSinceEpochForWeek (ms : double) : M () :=
  _ ← assign (set_type Invalid);
  match ms with
  | Finite m e =>
      let ms := round m e in
      year ← lift (msToYear ms);
      _ ← assign (set_year year);
      _ ← require (negb ((year <? minimumYear) || (maximumYear <? year)));
      yearDay ← lift (dayInYearOfMs ms year);
      let offset := offsetTo1stWeekStart year in
      _ ← (if yearDay <? offset then
             _ ← assign (set_year (year - 1));
             _ ← require (negb (year - 1 <=? minimumYear));
             assign (fun t => set_week (maxWeekNumberInYear t) t)
           else
             let week := Z.quot (yearDay - offset) 7 + 1 in
             _ ← assign (set_week week);
             t ← this;
             _ ← (if maxWeekNumberInYear t <? week then assign (fun t => set_week 1 (set_year (year + 1) t))
                  else mret ());
             t ← this;
             require (negb ((maximumYear <? m_year t)
                            || ((m_year t =? maximumYear) && (maximumWeekInMaximumYear <? m_week t)))));
      assign (set_type Week)
  | _ => returnFalse
  end.

(** ** To numbers; [None] is a failed assertion *)

Definition isTimeType (type : DateType) : bool :=
  match type with Time | DateTime | DateTimeLocal => true | _ => false end.

Definition millisecondsSinceEpochForTime (t : DateComponents) : option Z :=
  guard (isTimeType (m_type t));;
  Some (((m_hour t ⊗ minutesPerHour ⊕ m_minute t) ⊗ secondsPerMinute ⊕ m_second t) ⊗ msPerSecond
        ⊕ m_millisecond t).

Definition millisecondsSinceEpoch (t : DateComponents) : option Z :=
  match m_type t with
  | Date => days ← dateToDaysFrom1970 (m_year t) (m_month t) (m_monthDay t); Some (days ⊗ msPerDay)
  | DateTime | DateTimeLocal =>
      days ← dateToDaysFrom1970 (m_year t) (m_month t) (m_monthDay t);
      time ← millisecondsSinceEpochForTime t;
      Some (days ⊗ msPerDay ⊕ time)
  | Month => days ← dateToDaysFrom1970 (m_year t) (m_month t) 1; Some (days ⊗ msPerDay)
  | Time => millisecondsSinceEpochForTime t
  | Week =>
      days ← dateToDaysFrom1970 (m_year t) 0 1;
      Some ((days ⊕ offsetTo1stWeekStart (m_year t) ⊕ (m_week t - 1) * 7) ⊗ msPerDay)
  | Invalid => None
  end.

Definition monthsSinceEpoch (t : DateComponents) : option Z :=
  match m_type t with Month => Some ((m_year t - 1970) * 12 + m_month t) | _ => None end.

(** ** Printing *)

(** The decimal digits of a non-negative number. *)
Fixpoint decimal_loop (fuel : nat) (n : Z) (digits : list Z) : list Z :=
  match fuel with
  | O => digits
  | S fuel =>
      let digits := chr "0" + n mod 10 :: digits in
      if n <? 10 then digits else decimal_loop fuel (n / 10) digits
  end.

Definition decimal (n : Z) : list Z := decimal_loop (S (Z.to_nat (Z.log2 n))) n [].

(** The conversion [%0<width>d] of [String::format]. *)
Definition format0 (width : nat) (n : Z) : list Z :=
  if n <? 0 then
    chr "-" :: replicate (width - 1 - length (decimal (- n))) (chr "0") ++ decimal (- n)
  else replicate (width - length (decimal n)) (chr "0") ++ decimal n.

Definition toStringForTime (format : SecondFormat) (t : DateComponents) : option (list Z) :=
  guard (isTimeType (m_type t));;
  let effectiveFormat :=
    if negb (m_millisecond t =? 0) then Millisecond
    else match format with
         | None_ => if negb (m_second t =? 0) then Second else None_
         | _ => format
         end in
  Some match effectiveFormat with
       | None_ => format0 2 (m_hour t) ++ chrs ":" ++ format0 2 (m_minute t)
       | Second => format0 2 (m_hour t) ++ chrs ":" ++ format0 2 (m_minute t) ++ chrs ":" ++ format0 2 (m_second t)
       | Millisecond =>
           format0 2 (m_hour t) ++ chrs ":" ++ format0 2 (m_minute t) ++ chrs ":" ++ format0 2 (m_second t)
           ++ chrs "." ++ format0 3 (m_millisecond t)
       end.

Definition toString (format : SecondFormat) (t : DateComponents) : option (list Z) :=
  let date := format0 4 (m_year t) ++ chrs "-" ++ format0 2 (m_month t + 1) ++ chrs "-" ++ format0 2 (m_monthDay t) in
  match m_type t with
  | Date => Some date
  | DateTime => time ← toStringForTime format t; Some (date ++ chrs "T" ++ time ++ chrs "Z")
  | DateTimeLocal => time ← toStringForTime format t; Some (date ++ chrs "T" ++ time)
  | Month => Some (format0 4 (m_year t) ++ chrs "-" ++ format0 2 (m_month t + 1))
  | Time => toStringForTime format t
  | Week => Some (format0 4 (m_year t) ++ chrs "-W" ++ format0 2 (m_week t))
  | Invalid => None
  end.

End DateComponents.

#[global] Instance DateType_eq_dec : EqDecision DateComponents.DateType.
Proof. solve_decision. Defined.
