(* ===== verification/DateComponentsAdd.v ===== *)
(** * DateComponentsAdd: the limits, [addDay] and [addMinute]

    The tests of the limits against the range of day numbers, and what adding
    a time zone offset does. *)

From S2P Require Import Prelude Double DateMath DateMathCorrect DateComponents.

(** * The calendar functions of DateComponents *)

Import DateComponents.

#[local] Ltac Zify.zify_post_hook ::= Z.to_euclidean_division_equations.

Lemma isLeapYear_leap y : isLeapYear y = leap y.
Proof. exact (leap_isLeapYear y). Qed.

Lemma maxDayOfMonth_spec y m : 0 <= m <= 11 -> maxDayOfMonth y m = Some (monthLength y m).
Proof.
  intros Hm. unfold maxDayOfMonth. rewrite isLeapYear_leap.
  by_month m ltac:(reflexivity || (unfold monthLength; by destruct (leap y))).
Qed.

(** From March on, the days of a year are counted from the next year's start. *)
Lemma dayNumber_from_next y m d :
  2 <= m <= 11 -> dayNumber y m d = yearStart (y + 1) - 365 + monthStart 1 m + d - 1.
Proof.
  intros Hm. unfold dayNumber. rewrite yearStart_next.
  assert (monthStart y m = monthStart 1 m + Z.b2z (leap y)); [|lia].
  unfold monthStart. change (leap 1) with false.
  by_month m ltac:(try lia; destruct (leap y); reflexivity).
Qed.

Lemma dayOfWeek_spec y m d :
  1 <= y -> 0 <= m <= 11 -> 1 <= d -> dayOfWeek y m d = (dayNumber y m d + 4) mod 7.
Proof.
  intros Hy Hm Hd. unfold dayOfWeek. destruct (Z.leb_spec (m + 2) 3).
  - assert (m = 0 \/ m = 1) as [-> | ->] by lia; unfold dayNumber, yearStart, monthStart;
      rewrite ?andb_false_r; cbn [Z.ltb Z.compare]; rewrite ?andb_false_r.
    all: set (q := Z.quot _ 5); vm_compute in q; subst q; lia.
  - rewrite dayNumber_from_next by lia. unfold yearStart. replace (y + 1 - 1) with y by lia.
    by_month m ltac:(try lia; set (q := Z.quot _ 5); vm_compute in q; subst q;
                     unfold monthStart; change (leap 1) with false; cbn [andb]; lia).
Qed.

(** ** Weeks *)

(** The Monday the first week of a year begins with. *)
Definition weekStart (y : Z) : Z := yearStart y + offsetTo1stWeekStart y.

Lemma january1 y : dayNumber y 0 1 = yearStart y.
Proof. unfold dayNumber, monthStart. cbn [Z.ltb Z.compare]. rewrite andb_false_r. lia. Qed.

Lemma weekStart_spec y : 1 <= y -> (weekStart y + 4) mod 7 = 1 /\ -3 <= weekStart y - yearStart y <= 3.
Proof.
  intros Hy. unfold weekStart, offsetTo1stWeekStart. rewrite dayOfWeek_spec, january1 by lia.
  step_if; zbool; lia.
Qed.

Lemma maxWeekNumberInYear_spec t :
  1 <= m_year t -> weekStart (m_year t + 1) = weekStart (m_year t) + 7 * maxWeekNumberInYear t.
Proof.
  intros Hy. unfold weekStart, offsetTo1stWeekStart, maxWeekNumberInYear. rewrite isLeapYear_leap.
  rewrite !dayOfWeek_spec, !january1, yearStart_next by lia.
  unfold Thursday, Wednesday, maximumWeekNumber. destruct (leap (m_year t)); cbn [Z.b2z];
    rewrite ?andb_true_r, ?andb_false_r, ?orb_false_r;
    repeat step_if; rewrite ?orb_true_iff, ?orb_false_iff in *; zbool; lia.
Qed.

Lemma maxWeekNumberInYear_range t : 52 <= maxWeekNumberInYear t <= 53.
Proof. unfold maxWeekNumberInYear, maximumWeekNumber. step_if; lia. Qed.

(** C20: The week functions follow ISO 8601: week 1 of a year begins on the
    Monday nearest to January 1st (the week that has January 4th), and the
    number of weeks [maxWeekNumberInYear] gives is the number of weeks from
    there to week 1 of the next year. *)
Theorem weeks_follow_ISO8601 t :
  1 <= m_year t ->
  let start := yearStart (m_year t) + offsetTo1stWeekStart (m_year t) in
  let next := yearStart (m_year t + 1) + offsetTo1stWeekStart (m_year t + 1) in
  (start + 4) mod 7 = 1 /\ start <= dayNumber (m_year t) 0 4 < start + 7 /\
  next = start + 7 * maxWeekNumberInYear t /\ 52 <= maxWeekNumberInYear t <= 53.
Proof.
  intros Hy. cbn zeta. fold (weekStart (m_year t)). fold (weekStart (m_year t + 1)).
  pose proof (weekStart_spec (m_year t) Hy) as [H1 H2].
  assert (dayNumber (m_year t) 0 4 = yearStart (m_year t) + 3) as ->
    by (pose proof (january1 (m_year t)); unfold dayNumber in *; lia).
  split_and!; [done|lia|lia|by apply maxWeekNumberInYear_spec|apply maxWeekNumberInYear_range..].
Qed.

Lemma weeks_follow_ISO8601_witness :
  maxWeekNumberInYear (set_year 2015 emptyDateComponents) = 53 /\
  (yearStart 2015 + offsetTo1stWeekStart 2015 + 4) mod 7 = 1.
Proof.
  split; [reflexivity|]. exact (proj1 (weeks_follow_ISO8601 (set_year 2015 emptyDateComponents) ltac:(cbn; lia))).
Defined.

(** ** The loops of [addDay] *)

Lemma addDay_forward_spec n y m d :
  validDate y m d = true ->
  exists y' m' d', addDay_forward n y m d (monthLength y m) = Some (y', m', d') /\
    validDate y' m' d' = true /\ dayNumber y' m' d' = dayNumber y m d + Z.of_nat n.
Proof.
  revert y m d. induction n as [|n IH]; intros y m d Hv; cbn [addDay_forward].
  { exists y, m, d. split_and!; [done|done|lia]. }
  pose proof (dayNumber_next y m d Hv) as Hn. unfold nextDay in Hn. apply validDate_spec in Hv as [Hm Hd].
  destruct (Z.ltb_spec (monthLength y m) (d + 1)) as [Hl|Hl].
  - rewrite (proj2 (Z.ltb_ge d _)) in Hn by lia. destruct (Z.leb_spec 12 (m + 1)).
    + rewrite (proj2 (Z.ltb_ge m 11)) in Hn by lia. destruct Hn as [Hv' Hn].
      rewrite maxDayOfMonth_spec by lia. cbn [mbind option_bind].
      destruct (IH _ _ _ Hv') as (y' & m' & d' & -> & ? & ?). exists y', m', d'. split_and!; [done|done|lia].
    + rewrite (proj2 (Z.ltb_lt m 11)) in Hn by lia. destruct Hn as [Hv' Hn].
      rewrite maxDayOfMonth_spec by lia. cbn [mbind option_bind].
      destruct (IH _ _ _ Hv') as (y' & m' & d' & -> & ? & ?). exists y', m', d'. split_and!; [done|done|lia].
  - rewrite (proj2 (Z.ltb_lt d _)) in Hn by lia. destruct Hn as [Hv' Hn].
    destruct (IH _ _ _ Hv') as (y' & m' & d' & -> & ? & ?). exists y', m', d'. split_and!; [done|done|lia].
Qed.

(** The day before a valid date. *)
Lemma dayNumber_previous y m d :
  validDate y m d = true ->
  let '(y', m', d') :=
    if d - 1 <? 1 then if m - 1 <? 0 then (y - 1, 11, monthLength (y - 1) 11) else (y, m - 1, monthLength y (m - 1))
    else (y, m, d - 1) in
  validDate y' m' d' = true /\ dayNumber y' m' d' = dayNumber y m d - 1.
Proof.
  intros [Hm Hd]%validDate_spec. repeat step_if; zbool; rewrite validDate_spec; unfold dayNumber.
  - pose proof (monthStart_last (y - 1)). pose proof (monthStart_range (y - 1) 11 ltac:(lia)).
    pose proof (january1 y). unfold dayNumber in *. pose proof (yearStart_next (y - 1)) as Hn.
    replace (y - 1 + 1) with y in Hn by lia. assert (m = 0) as -> by lia. lia.
  - pose proof (monthStart_next y (m - 1) ltac:(lia)) as Hn. replace (m - 1 + 1) with m in Hn by lia.
    pose proof (monthStart_range y (m - 1) ltac:(lia)). lia.
  - lia.
Qed.

Lemma addDay_backward_spec n y m d :
  validDate y m d = true ->
  exists y' m' d', addDay_backward n y m d = Some (y', m', d') /\
    validDate y' m' d' = true /\ dayNumber y' m' d' = dayNumber y m d - Z.of_nat n.
Proof.
  revert y m d. induction n as [|n IH]; intros y m d Hv; cbn [addDay_backward].
  { exists y, m, d. split_and!; [done|done|lia]. }
  pose proof (dayNumber_previous y m d Hv) as Hn. apply validDate_spec in Hv as [Hm Hd].
  destruct (d - 1 <? 1); [destruct (m - 1 <? 0) eqn:E|]; zbool; destruct Hn as [Hv' Hn].
  1,2: rewrite maxDayOfMonth_spec by lia; cbn [mbind option_bind].
  all: destruct (IH _ _ _ Hv') as (y' & m' & d' & -> & ? & ?); exists y', m', d'; split_and!; [done|done|lia].
Qed.

(** * The limits, [addDay] and [addMinute] *)

Import DateMath DateComponents.

#[local] Ltac Zify.zify_post_hook ::= Z.to_euclidean_division_equations.

(** ** Running a method *)

Section Bind.
Context {A B : Type} (k : A -> M B) (t : DateComponents).

Lemma bind_lift a : (lift (Some a) ≫= k) t = k a t.
Proof. done. Qed.
Lemma bind_check a : (check (Some a) ≫= k) t = k a t.
Proof. done. Qed.
Lemma bind_check_None : (check None ≫= k) t = Some (t, None).
Proof. done. Qed.
Lemma bind_ret a : (mret a ≫= k) t = k a t.
Proof. done. Qed.
End Bind.

Lemma bind_this {B} (k : _ -> M B) t : (this ≫= k) t = k t t.
Proof. done. Qed.
Lemma bind_assign {B} f (k : _ -> M B) t : (assign f ≫= k) t = k () (f t).
Proof. done. Qed.
Lemma bind_require {B} b (k : _ -> M B) t : (require b ≫= k) t = if b then k () t else Some (t, None).
Proof. by destruct b. Qed.
Lemma bind_ASSERT {B} b (k : _ -> M B) t : (ASSERT b ≫= k) t = if b then k () t else None.
Proof. by destruct b. Qed.

Create Rewrite HintDb dc.
#[export] Hint Rewrite @bind_lift @bind_check @bind_check_None @bind_ret @bind_this @bind_assign @bind_require
  @bind_ASSERT : dc.

(** ** Ranges *)

Definition firstDay : Z := -719162. (* 0001-01-01 *)
Definition lastDay : Z := 10 ^ 8. (* 275760-09-13 *)

Lemma firstDay_ok : firstDay = dayNumber 1 0 1.
Proof. reflexivity. Qed.
Lemma lastDay_ok : lastDay = dayNumber maximumYear maximumMonthInMaximumYear maximumDayInMaximumMonth.
Proof. reflexivity. Qed.

(** The months of a year come one after the other. *)
Lemma monthStart_mono y m m' : 0 <= m -> m' <= 11 -> m < m' -> monthStart y m + monthLength y m <= monthStart y m'.
Proof.
  intros H0 H1 H. assert (0 <= m <= 10) as Hm by lia. clear H0.
  remember (Z.to_nat (m' - m - 1)) as n eqn:En. assert (m' = m + 1 + Z.of_nat n) as -> by lia. clear En H.
  induction n as [|n IH].
  - rewrite Z.add_0_r, monthStart_next by lia. lia.
  - replace (m + 1 + Z.of_nat (S n)) with (m + 1 + Z.of_nat n + 1) by lia. rewrite (monthStart_next y (_ + _)) by lia.
    pose proof (monthStart_range y (m + 1 + Z.of_nat n)). lia.
Qed.

Lemma yearStart_le y z : y <= z -> yearStart y <= yearStart z.
Proof. intros H. destruct (decide (y = z)) as [->|]; [lia|]. pose proof (yearStart_mono y z). lia. Qed.

(** A date up to the day after the last one is in September of the last year or
    earlier. *)
Lemma dayNumber_last_month y m d :
  validDate y m d = true -> dayNumber y m d <= lastDay + 1 ->
  y <= maximumYear /\ (y = maximumYear -> m <= maximumMonthInMaximumYear).
Proof.
  intros Hv Hd. pose proof (dayNumber_year y m d Hv). pose proof Hv as [Hm Hmd]%validDate_spec.
  split.
  - apply Z.nlt_ge. intros Hy. pose proof (yearStart_le (maximumYear + 1) y ltac:(lia)) as H1.
    change (yearStart (maximumYear + 1)) with 100000110 in H1. unfold lastDay in *. lia.
  - intros ->. apply Z.nlt_ge. intros H1. pose proof (monthStart_mono maximumYear 8 m ltac:(lia) ltac:(lia) H1) as H2.
    unfold dayNumber, lastDay in *. change (yearStart maximumYear) with 99999744 in *.
    change (monthStart maximumYear 8 + monthLength maximumYear 8) with 274 in *. lia.
Qed.

Lemma within_date_spec y m d :
  validDate y m d = true -> y <= maximumYear -> (y = maximumYear -> m <= maximumMonthInMaximumYear) ->
  withinHTMLDateLimits_date y m d = bool_decide (firstDay <= dayNumber y m d <= lastDay).
Proof.
  intros Hv Hy Hmax. pose proof (dayNumber_year y m d Hv) as Hr. pose proof Hv as [Hm Hmd]%validDate_spec.
  unfold withinHTMLDateLimits_date, maximumDayInMaximumMonth. unfold minimumYear. repeat step_if; zbool; symmetry.
  - apply bool_decide_eq_false_2. pose proof (yearStart_le (y + 1) 1 ltac:(lia)).
    change (yearStart 1) with firstDay in *. lia.
  - apply bool_decide_eq_true_2. pose proof (yearStart_le 1 y ltac:(lia)). pose proof (yearStart_le (y + 1) maximumYear ltac:(lia)).
    change (yearStart 1) with firstDay in *. change (yearStart maximumYear) with 99999744 in *. unfold lastDay. lia.
  - apply bool_decide_eq_true_2. assert (y = maximumYear) as -> by lia.
    pose proof (monthStart_mono maximumYear m 8 ltac:(lia) ltac:(lia) Heqb1) as H.
    unfold dayNumber in *. change (yearStart maximumYear) with 99999744 in *.
    change (monthStart maximumYear 8) with 244 in *. unfold firstDay, lastDay. lia.
  - assert (y = maximumYear) as -> by lia. specialize (Hmax eq_refl).
    assert (m = 8) as -> by (unfold maximumMonthInMaximumYear in *; lia). unfold dayNumber in *.
    change (yearStart maximumYear) with 99999744 in *. change (monthStart maximumYear 8) with 244 in *.
    unfold firstDay, lastDay. destruct (Z.leb_spec d 13); [rewrite bool_decide_eq_true_2|rewrite bool_decide_eq_false_2]; done || lia.
Qed.

Definition validTime (hour minute second millisecond : Z) : bool :=
  (0 <=? hour) && (hour <=? 23) && (0 <=? minute) && (minute <=? 59) && (0 <=? second) && (second <=? 59)
  && (0 <=? millisecond) && (millisecond <=? 999).

Lemma validTime_spec h mi s ms :
  validTime h mi s ms = true <-> 0 <= h <= 23 /\ 0 <= mi <= 59 /\ 0 <= s <= 59 /\ 0 <= ms <= 999.
Proof. unfold validTime. rewrite !andb_true_iff, !Z.leb_le. lia. Qed.

(** The milliseconds since midnight, and since 1970. *)
Definition timeOfDay (h mi s ms : Z) : Z := ((h * 60 + mi) * 60 + s) * 1000 + ms.

Definition dateMs (t : DateComponents) : Z := dayNumber (m_year t) (m_month t) (m_monthDay t) * msPerDay.
Definition timeMs (t : DateComponents) : Z := timeOfDay (m_hour t) (m_minute t) (m_second t) (m_millisecond t).
Definition dateTimeMs (t : DateComponents) : Z := dateMs t + timeMs t.

Definition firstMs : Z := firstDay * msPerDay.
Definition lastMs : Z := lastDay * msPerDay.

Lemma timeOfDay_range h mi s ms : validTime h mi s ms = true -> 0 <= timeOfDay h mi s ms < msPerDay.
Proof. rewrite validTime_spec. unfold timeOfDay. change msPerDay with 86400000. lia. Qed.

Lemma timeOfDay_zero h mi s ms :
  validTime h mi s ms = true ->
  (h =? 0) && (mi =? 0) && (s =? 0) && (ms =? 0) = bool_decide (timeOfDay h mi s ms <= 0).
Proof.
  rewrite validTime_spec. intros H. unfold timeOfDay. apply eq_true_iff_eq.
  rewrite bool_decide_eq_true, !andb_true_iff, !Z.eqb_eq. lia.
Qed.

(** The test with the time is the test of the date, and midnight on the last
    day. *)
Lemma within_split y m d h mi s ms :
  withinHTMLDateLimits y m d h mi s ms =
  withinHTMLDateLimits_date y m d &&
  (((y <? maximumYear) || (m <? maximumMonthInMaximumYear) || (d <? maximumDayInMaximumMonth))
   || ((h =? 0) && (mi =? 0) && (s =? 0) && (ms =? 0))).
Proof.
  unfold withinHTMLDateLimits, withinHTMLDateLimits_date, maximumDayInMaximumMonth.
  destruct (y <? minimumYear), (y <? maximumYear), (m <? maximumMonthInMaximumYear); try done.
  destruct (Z.ltb_spec d 13), (Z.ltb_spec 13 d), (Z.leb_spec d 13); done || lia.
Qed.

Lemma before_last_day y m d :
  validDate y m d = true -> dayNumber y m d <= lastDay ->
  (y <? maximumYear) || (m <? maximumMonthInMaximumYear) || (d <? maximumDayInMaximumMonth)
  = bool_decide (dayNumber y m d < lastDay).
Proof.
  intros Hv Hd. destruct (dayNumber_last_month y m d Hv ltac:(lia)) as [Hy Hmax].
  pose proof (dayNumber_year y m d Hv) as Hr. pose proof Hv as [Hm Hmd]%validDate_spec.
  unfold lastDay, maximumMonthInMaximumYear, maximumDayInMaximumMonth in *.
  destruct (Z.ltb_spec y maximumYear).
  { pose proof (yearStart_le (y + 1) maximumYear ltac:(lia)) as H1. change (yearStart maximumYear) with 99999744 in *.
    symmetry. apply bool_decide_eq_true_2. lia. }
  assert (y = maximumYear) as -> by lia. specialize (Hmax eq_refl). unfold dayNumber in *.
  change (yearStart maximumYear) with 99999744 in *. destruct (Z.ltb_spec m 8) as [H8|H8].
  - pose proof (monthStart_mono maximumYear m 8 ltac:(lia) ltac:(lia) H8) as H1.
    change (monthStart maximumYear 8) with 244 in *. symmetry. apply bool_decide_eq_true_2. lia.
  - assert (m = 8) as -> by lia. change (monthStart maximumYear 8) with 244 in *. cbn [orb].
    apply eq_true_iff_eq. rewrite Z.ltb_lt, bool_decide_eq_true. lia.
Qed.

Lemma within_spec y m d h mi s ms :
  validDate y m d = true -> validTime h mi s ms = true -> dayNumber y m d <= lastDay + 1 ->
  withinHTMLDateLimits y m d h mi s ms =
  bool_decide (firstMs <= dayNumber y m d * msPerDay + timeOfDay h mi s ms <= lastMs).
Proof.
  intros Hv Ht Hr. destruct (dayNumber_last_month y m d Hv Hr) as [Hy Hmax].
  rewrite within_split, (within_date_spec y m d Hv Hy Hmax), (timeOfDay_zero h mi s ms Ht).
  pose proof (timeOfDay_range h mi s ms Ht) as Htr. unfold firstMs, lastMs. change msPerDay with 86400000 in *.
  destruct (decide (firstDay <= dayNumber y m d <= lastDay)) as [Hin|Hout].
  - rewrite (before_last_day y m d Hv) by lia. apply eq_true_iff_eq.
    rewrite andb_true_iff, orb_true_iff, !bool_decide_eq_true. lia.
  - rewrite (bool_decide_eq_false_2 (firstDay <= _ <= _)) by done. symmetry. apply bool_decide_eq_false_2. lia.
Qed.

(** ** Adding *)

(** The date of an object, with another day. *)
Definition withDate (y m d : Z) (t : DateComponents) : DateComponents := set_monthDay d (set_month m (set_year y t)).

Definition validDateOf (t : DateComponents) : bool := validDate (m_year t) (m_month t) (m_monthDay t).
Definition validTimeOf (t : DateComponents) : bool := validTime (m_hour t) (m_minute t) (m_second t) (m_millisecond t).
Definition dayOf (t : DateComponents) : Z := dayNumber (m_year t) (m_month t) (m_monthDay t).

(** Adding one day more or less gives the date with the next day number, or
    fails at the limits. *)
Lemma addDay_spec c t :
  -1 <= c <= 1 -> validDateOf t = true -> firstDay <= dayOf t <= lastDay ->
  exists y m d, validDate y m d = true /\ dayNumber y m d = dayOf t + c /\
    addDay c t = Some (if bool_decide (firstDay <= dayOf t + c <= lastDay) then (withDate y m d t, Some ())
                       else (t, None)).
Proof.
  unfold dayOf, validDateOf. intros Hc Hv Hr. pose proof Hv as [Hm Hmd]%validDate_spec.
  set (y0 := m_year t) in *. set (m0 := m_month t) in *. set (d0 := m_monthDay t) in *.
  assert (forall y m d, validDate y m d = true -> dayNumber y m d = dayNumber y0 m0 d0 + c ->
            withinHTMLDateLimits_date y m d = bool_decide (firstDay <= dayNumber y0 m0 d0 + c <= lastDay)) as Hw.
  { intros y m d Hv' Hd'. destruct (dayNumber_last_month y m d Hv' ltac:(lia)) as [Hy Hmax].
    by rewrite (within_date_spec y m d Hv' Hy Hmax), Hd'. }
  unfold addDay. autorewrite with dc. fold y0 m0 d0. rewrite maxDayOfMonth_spec by done. autorewrite with dc.
  rewrite (proj2 (Z.eqb_neq d0 0)) by lia. cbn [negb].
  destruct (Z.ltb_spec (monthLength y0 m0) (d0 + c)); [|destruct (Z.ltb_spec (d0 + c) 1)].
  - destruct (addDay_forward_spec (Z.to_nat c) y0 m0 d0 Hv) as (y & m & d & He & Hv' & Hd).
    exists y, m, d. split_and!; [done|lia|]. rewrite He. autorewrite with dc. rewrite (Hw y m d) by (done || lia).
    by case_bool_decide.
  - destruct (addDay_backward_spec (Z.to_nat (- c)) y0 m0 d0 Hv) as (y & m & d & He & Hv' & Hd).
    exists y, m, d. split_and!; [done|lia|]. rewrite He. autorewrite with dc. rewrite (Hw y m d) by (done || lia).
    by case_bool_decide.
  - assert (validDate y0 m0 (d0 + c) = true) as Hv' by (apply validDate_spec; lia).
    assert (dayNumber y0 m0 (d0 + c) = dayNumber y0 m0 d0 + c) as Hd by (unfold dayNumber; lia).
    exists y0, m0, (d0 + c). split_and!; [done|done|]. autorewrite with dc. rewrite (Hw _ _ _ Hv' Hd).
    case_bool_decide; [|done]. unfold assign, withDate. by destruct t.
Qed.

(** What [addMinute] promises for a shift of [n] minutes. *)
Definition Shifted (n : Z) (t : DateComponents) (r : option (DateComponents * option ())) : Prop :=
  let ms := dateTimeMs t + n * msPerMinute in
  exists t', r = Some (t', if bool_decide (firstMs <= ms <= lastMs) then Some () else None) /\
    (firstMs <= ms <= lastMs ->
     validDateOf t' = true /\ validTimeOf t' = true /\ dateTimeMs t' = ms /\
     m_second t' = m_second t /\ m_millisecond t' = m_millisecond t /\ m_type t' = m_type t).

(** The end of every branch: the test of the limits with the new date, hour
    and minute, and the assignments. *)
Lemma shifted_end n t t1 h mi f :
  validTimeOf t = true -> 0 <= h <= 23 -> 0 <= mi <= 59 -> validDateOf t1 = true -> dayOf t1 <= lastDay + 1 ->
  t1 = withDate (m_year t1) (m_month t1) (m_monthDay t1) t ->
  f t1 = set_hour h (set_minute mi t1) ->
  dayOf t1 * 1440 + h * 60 + mi = dayOf t * 1440 + m_hour t * 60 + m_minute t + n ->
  Shifted n t ((_ ← require (withinHTMLDateLimits (m_year t1) (m_month t1) (m_monthDay t1) h mi (m_second t)
                               (m_millisecond t)); assign f) t1).
Proof.
  unfold validTimeOf, validDateOf, dayOf, Shifted. intros Ht Hh Hmi Hv Hday Hsame Hf Hsum. rewrite bind_require.
  pose proof Ht as (Hh0 & Hmi0 & Hs & Hms)%validTime_spec.
  assert (validTime h mi (m_second t) (m_millisecond t) = true) as Ht' by (by apply validTime_spec).
  rewrite within_spec by done.
  assert (dayNumber (m_year t1) (m_month t1) (m_monthDay t1) * msPerDay
            + timeOfDay h mi (m_second t) (m_millisecond t) = dateTimeMs t + n * msPerMinute) as Heq.
  { unfold dateTimeMs, dateMs, timeMs, timeOfDay. change msPerDay with (1440 * 60000). change msPerMinute with 60000. lia. }
  rewrite Heq. case_bool_decide as Hin; [|by exists t1].
  exists (f t1). split; [done|]. intros _. rewrite Hf. rewrite Hsame in *. split_and!; try done.
Qed.

Lemma addMinute_spec n t :
  -1440 < n < 1440 -> validDateOf t = true -> validTimeOf t = true -> firstDay <= dayOf t <= lastDay ->
  Shifted n t (addMinute n t).
Proof.
  intros Hn Hv Ht Hr. unfold addMinute. autorewrite with dc.
  pose proof Ht as (Hh & Hmi & Hs & Hms)%validTime_spec.
  assert (t = withDate (m_year t) (m_month t) (m_monthDay t) t) as Heta by (by destruct t).
  destruct (dayNumber_last_month _ _ _ Hv ltac:(unfold dayOf in Hr; lia)) as [Hy Hmax].
  rewrite (within_date_spec _ _ _ Hv Hy Hmax), bool_decide_eq_true_2 by done.
  destruct ((0 <=? n + m_minute t) && (n + m_minute t <=? 59)) eqn:E1; zbool.
  { apply (shifted_end n t t (m_hour t)); done || lia || by destruct t. }
  set (p := if 59 <? n + m_minute t then _ else _).
  assert (exists mi c, p = (mi, c) /\ c * 60 + mi = n + m_minute t /\ 0 <= mi <= 59 /\ -24 <= c <= 24) as (mi & c & -> & Hc & Hmi' & Hcr).
  { rewrite andb_false_iff, !Z.leb_gt in E1. unfold p.
    destruct (Z.ltb_spec 59 (n + m_minute t)); eexists _, _; (split; [reflexivity|lia]). }
  autorewrite with dc. rewrite (proj2 (andb_true_iff (0 <=? mi) _)) by (rewrite !Z.leb_le; lia).
  destruct ((0 <=? m_hour t + c) && (m_hour t + c <=? 23)) eqn:E2; zbool.
  { apply (shifted_end n t t (m_hour t + c) mi); done || lia || by destruct t. }
  set (q := if 23 <? m_hour t + c then _ else _).
  assert (exists h k, q = (h, k) /\ k * 24 + h = m_hour t + c /\ 0 <= h <= 23 /\ -1 <= k <= 1) as (h & k & -> & Hk & Hh' & Hkr).
  { rewrite andb_false_iff, !Z.leb_gt in E2. unfold q.
    destruct (Z.ltb_spec 23 (m_hour t + c)); eexists _, _; (split; [reflexivity|lia]). }
  autorewrite with dc. rewrite (proj2 (andb_true_iff (0 <=? h) _)) by (rewrite !Z.leb_le; lia).
  destruct (addDay_spec k t Hkr Hv Hr) as (y & m & d & Hv' & Hd' & Hadd).
  unfold mbind at 1, M_bind. rewrite Hadd. case_bool_decide as Hin.
  - apply (shifted_end n t (withDate y m d t) h mi); [done..| | |done|]; cbn; unfold dayOf in *; cbn; try done; lia.
  - exists t. unfold dateTimeMs, dateMs. fold (dayOf t).
    pose proof (timeOfDay_range h mi (m_second t) (m_millisecond t) ltac:(by apply validTime_spec)).
    assert (~ firstMs <= dayOf t * msPerDay + timeMs t + n * msPerMinute <= lastMs) as Hout; [|by rewrite bool_decide_eq_false_2].
    unfold timeMs, timeOfDay, firstMs, lastMs in *. change msPerDay with 86400000 in *. change msPerMinute with 60000. lia.
Qed.
