(* ===== verification/DateComponentsParse.v ===== *)
(** * DateComponentsParse: the parsers are safe and give valid components

    A weakest precondition for the methods ([wp]: the method does not fault,
    and if it goes on its value and the object satisfy the postcondition), and
    the specification of every parser in it. *)

From S2P Require Import Prelude ASCIICType Double DateMath DateMathCorrect DateComponents DateComponentsAdd.
Import DateMath DateComponents.

(** ** Valid components *)

Definition validMonth (y m : Z) : bool :=
  (minimumYear <=? y) && (y <=? maximumYear) && (0 <=? m) && (m <=? 11)
  && ((y <? maximumYear) || (m <=? maximumMonthInMaximumYear)).

Definition validWeek (t : DateComponents) : bool :=
  (minimumYear <=? m_year t) && (m_year t <=? maximumYear) && (1 <=? m_week t) && (m_week t <=? maxWeekNumberInYear t)
  && ((m_year t <? maximumYear) || (m_week t <=? maximumWeekInMaximumYear)).

(** What each type promises of its fields. *)
Definition valid (t : DateComponents) : bool :=
  match m_type t with
  | Date => validDateOf t && (firstDay <=? dayOf t) && (dayOf t <=? lastDay)
  | DateTime | DateTimeLocal =>
      validDateOf t && validTimeOf t && (firstMs <=? dateTimeMs t) && (dateTimeMs t <=? lastMs)
  | Month => validMonth (m_year t) (m_month t)
  | Time => validTimeOf t
  | Week => validWeek t
  | Invalid => false
  end.

Lemma validMonth_spec y m :
  validMonth y m = true <->
  minimumYear <= y <= maximumYear /\ 0 <= m <= 11 /\ (y = maximumYear -> m <= maximumMonthInMaximumYear).
Proof.
  unfold validMonth. rewrite !andb_true_iff, orb_true_iff, !Z.leb_le, !Z.ltb_lt. lia.
Qed.

(** ** Weakest preconditions *)

Definition wp {A} (m : M A) (t : DateComponents) (Q : A -> DateComponents -> Prop) : Prop :=
  match m t with
  | None => False
  | Some (t', None) => True
  | Some (t', Some a) => Q a t'
  end.

Lemma wp_bind {A B} (m : M A) (k : A -> M B) t Q :
  wp m t (fun a t' => wp (k a) t' Q) -> wp (m ≫= k) t Q.
Proof. unfold wp, mbind, M_bind. destruct (m t) as [[t' [a|]]|]; done. Qed.

Lemma wp_mono {A} (m : M A) t (P Q : A -> DateComponents -> Prop) :
  wp m t P -> (forall a t', P a t' -> Q a t') -> wp m t Q.
Proof. unfold wp. destruct (m t) as [[t' [a|]]|]; auto. Qed.

Lemma wp_ret {A} (a : A) t (Q : A -> DateComponents -> Prop) : Q a t -> wp (mret a) t Q.
Proof. done. Qed.
Lemma wp_require b t (Q : () -> DateComponents -> Prop) : (b = true -> Q () t) -> wp (require b) t Q.
Proof. unfold wp. destruct b; cbn; auto. Qed.
Lemma wp_this t (Q : _ -> DateComponents -> Prop) : Q t t -> wp this t Q.
Proof. done. Qed.
Lemma wp_assign f t (Q : () -> DateComponents -> Prop) : Q () (f t) -> wp (assign f) t Q.
Proof. done. Qed.
Lemma wp_lift {A} (o : option A) a t (Q : A -> DateComponents -> Prop) : o = Some a -> Q a t -> wp (lift o) t Q.
Proof. intros ->. done. Qed.
Lemma wp_check {A} (o : option A) t (Q : A -> DateComponents -> Prop) :
  (forall a, o = Some a -> Q a t) -> wp (check o) t Q.
Proof. destruct o; cbn; auto. Qed.

(** One step through the text of a method. *)
Ltac wp_step :=
  match goal with
  | |- wp (mbind _ _) _ _ => apply wp_bind
  | |- wp (require _) _ _ => apply wp_require; intros ?
  | |- wp this _ _ => apply wp_this
  | |- wp (assign _) _ _ => apply wp_assign
  | |- wp (mret _) _ _ => apply wp_ret
  | |- wp (check _) _ _ => apply wp_check; intros ? ?
  end.

Lemma within_date_of_ms t :
  validTimeOf t = true -> firstMs <= dateTimeMs t <= lastMs -> firstDay <= dayOf t <= lastDay.
Proof.
  intros Ht. pose proof (timeOfDay_range _ _ _ _ Ht). unfold dateTimeMs, dateMs, timeMs, firstMs, lastMs.
  fold (dayOf t). change msPerDay with 86400000 in *. lia.
Qed.

Lemma wp_addMinute n t Q :
  -1440 < n < 1440 -> validDateOf t = true -> validTimeOf t = true -> firstDay <= dayOf t <= lastDay ->
  (forall t', validDateOf t' = true -> validTimeOf t' = true -> dateTimeMs t' = dateTimeMs t + n * msPerMinute ->
     firstMs <= dateTimeMs t' <= lastMs -> Q () t') ->
  wp (addMinute n) t Q.
Proof.
  intros Hn Hv Ht Hr HQ. destruct (addMinute_spec n t Hn Hv Ht Hr) as (t' & He & Hin). unfold wp. rewrite He.
  case_bool_decide as Hb; [|done]. destruct (Hin Hb) as (? & ? & Heq & _). apply HQ; [done..|by rewrite Heq].
Qed.

(** ** Reading numbers *)

Section Parse.

Context (src : list Z).
Let L : Z := Z.of_nat (length src).
Hypothesis Hlen : L + 4 < 2 ^ 32.

Lemma at_in_range i : 0 <= i < L -> exists c, at_ src i = Some c.
Proof using Type.
  intros Hi. unfold at_. rewrite (proj2 (Z.ltb_ge i 0)) by lia. apply lookup_lt_is_Some_2. unfold L in Hi. lia.
Qed.

(** [n] digits from [i] on. *)
Definition digitsAt (i n : Z) : Prop :=
  forall j, i <= j < i + n -> exists c, at_ src j = Some c /\ isASCIIDigit c = true.

Lemma countDigits_loop_spec fuel start i :
  0 <= start <= i -> i <= L -> (Z.to_nat (L - i) < fuel)%nat -> digitsAt start (i - start) ->
  exists n, countDigits_loop fuel src L start i = Some n /\ i - start <= n <= L - start /\ digitsAt start n /\
    (start + n < L -> exists c, at_ src (start + n) = Some c /\ isASCIIDigit c = false).
Proof using Type.
  revert i. induction fuel as [|fuel IH]; intros i Hs Hi Hf Hd; [lia|]. cbn [countDigits_loop].
  destruct (Z.ltb_spec i L).
  - destruct (at_in_range i ltac:(lia)) as [c Hc]. rewrite Hc. cbn [mbind option_bind].
    destruct (isASCIIDigit c) eqn:E; cbn [negb].
    + destruct (IH (i + 1)) as (n & He & Hn & Hd' & Hend); [lia|lia|lia| |].
      { intros j Hj. destruct (decide (j = i)) as [->|]; [by exists c|]. apply Hd. lia. }
      exists n. split_and!; [done|lia|lia|done|done].
    + exists (i - start). split_and!; [done|lia|lia|done|]. intros _. exists c.
      by replace (start + (i - start)) with i by lia.
  - exists (i - start). split_and!; [done|lia|lia|done|]. lia.
Qed.

Lemma countDigits_spec start :
  0 <= start <= L ->
  exists n, countDigits src L start = Some n /\ 0 <= n <= L - start /\ digitsAt start n /\
    (start + n < L -> exists c, at_ src (start + n) = Some c /\ isASCIIDigit c = false).
Proof using Type.
  intros Hs. destruct (countDigits_loop_spec (S (Z.to_nat (L - start))) start start) as (n & ? & ? & ? & ?);
    [lia|lia|lia| |].
  { intros j Hj. lia. }
  exists n. split_and!; [done|lia|lia|done|done].
Qed.

Lemma toInt_loop_spec n current value :
  0 <= current -> current + Z.of_nat n <= L -> 0 <= value <= INT_MAX ->
  exists r, toInt_loop n src current value = Some r /\
    (forall v, r = Some v -> value * 10 ^ Z.of_nat n <= v <= INT_MAX /\ v < (value + 1) * 10 ^ Z.of_nat n).
Proof using Type.
  revert current value. induction n as [|n IH]; intros current value Hc Hn Hv; cbn [toInt_loop].
  { exists (Some value). split; [done|]. intros v [= <-]. lia. }
  destruct (at_in_range current ltac:(lia)) as [c Hat]. rewrite Hat. cbn [mbind option_bind].
  destruct (isASCIIDigit c) eqn:Ed; cbn [negb]; [|by exists None].
  unfold isASCIIDigit in Ed. zbool. step_if; [by exists None|]. zbool.
  rewrite Z.quot_div_nonneg in Heqb by (unfold INT_MAX; lia).
  pose proof (Z.mul_div_le (INT_MAX - (c - 48)) 10 ltac:(lia)).
  destruct (IH (current + 1) (value * 10 + (c - 48))) as (r & He & Hr); [lia|lia|lia|].
  exists r. split; [done|]. intros v Hrv. specialize (Hr v Hrv). rewrite Nat2Z.inj_succ, Z.pow_succ_r by lia.
  pose proof (Z.pow_pos_nonneg 10 (Z.of_nat n) ltac:(lia) ltac:(lia)). nia.
Qed.

Lemma toInt_spec start n :
  0 <= start -> 0 <= n -> start + n < 2 ^ 32 ->
  exists r, toInt src L start n = Some r /\ (forall v, r = Some v -> start + n <= L /\ 0 <= v <= INT_MAX /\ v < 10 ^ n).
Proof using Type.
  intros Hs Hn Hw. unfold toInt. rewrite u32_id by lia. step_if; [by exists None|].
  apply orb_false_iff in Heqb as [H1 H2]. zbool.
  destruct (toInt_loop_spec (Z.to_nat n) start 0) as (r & He & Hr); [lia|lia|unfold INT_MAX; lia|].
  exists r. split; [done|]. intros v Hv. specialize (Hr v Hv). rewrite Z2Nat.id in Hr by lia. lia.
Qed.

Lemma wp_toInt start n t Q :
  0 <= start -> 0 <= n -> start + n < 2 ^ 32 ->
  (forall r, (forall v, r = Some v -> start + n <= L /\ 0 <= v < 10 ^ n) -> Q r t) -> wp (lift (toInt src L start n)) t Q.
Proof using Type.
  intros Hs Hn Hw HQ. destruct (toInt_spec start n Hs Hn Hw) as (r & He & Hr). apply (wp_lift _ r); [done|].
  apply HQ. intros v Hv. specialize (Hr v Hv). lia.
Qed.

Lemma wp_at i t (Q : Z -> DateComponents -> Prop) :
  0 <= i < L -> (forall c, at_ src i = Some c -> Q c t) -> wp (lift (at_ src i)) t Q.
Proof using Type. intros Hi HQ. destruct (at_in_range i Hi) as [c Hc]. apply (wp_lift _ c); auto. Qed.

Lemma wp_toIntWithin start n low high t Q :
  0 <= start -> 0 <= n -> start + n < 2 ^ 32 ->
  (forall v, start + n <= L -> low <= v <= high -> Q v t) -> wp (toIntWithin src L start n low high) t Q.
Proof using Type.
  intros Hs Hn Hw HQ. unfold toIntWithin. wp_step. apply wp_toInt; [done..|]. intros r Hr.
  do 4 wp_step. zbool. destruct (Hr a ltac:(done)). apply HQ; lia.
Qed.

Lemma wp_expect i c t (Q : () -> DateComponents -> Prop) :
  0 <= i -> (i < L -> at_ src i = Some c -> Q () t) -> wp (expect src L i c) t Q.
Proof using Type.
  intros Hi HQ. unfold expect. do 2 wp_step. zbool. wp_step. apply wp_at; [lia|]. intros x Hx. wp_step. zbool.
  subst. auto.
Qed.

(** ** The parsers *)

Lemma parseYear_wp start t :
  0 <= start <= L ->
  wp (parseYear src L start) t (fun e t' => start <= e <= L /\
    exists y, minimumYear <= y <= maximumYear /\ t' = set_year y t).
Proof using Hlen.
  intros Hs. unfold parseYear. wp_step. destruct (countDigits_spec start Hs) as (n & Hc & Hn & _).
  apply (wp_lift _ n); [done|]. do 2 wp_step. wp_step. apply wp_toInt; [lia..|]. intros r Hr.
  repeat wp_step. zbool. split; [lia|]. by exists a.
Qed.

Lemma parseMonth_wp start t :
  0 <= start <= L ->
  wp (parseMonth src L start) t (fun e t' => start <= e <= L /\
    exists y m, validMonth y m = true /\ t' = set_type Month (set_month m (set_year y t))).
Proof using Hlen.
  intros Hs. unfold parseMonth. wp_step. apply (wp_mono _ _ _ _ (parseYear_wp start t Hs)).
  intros i t' (Hi & y & Hy & ->). wp_step. apply wp_expect; [lia|]. intros Hi' _.
  wp_step. apply wp_toIntWithin; [lia..|]. intros m Hm Hmr. repeat wp_step. cbn in H.
  split; [lia|]. exists y, (m - 1). split; [|done]. unfold validMonth.
  unfold withinHTMLDateLimits_month in H. rewrite !andb_true_iff, orb_true_iff, !Z.leb_le, !Z.ltb_lt.
  destruct (Z.ltb_spec y minimumYear); [done|]. destruct (Z.ltb_spec y maximumYear); zbool; lia.
Qed.

Lemma parseDate_wp start t :
  0 <= start <= L ->
  wp (parseDate src L start) t (fun e t' => start <= e <= L /\
    exists y m d, validDate y m d = true /\ firstDay <= dayNumber y m d <= lastDay /\
      t' = set_type Date (withDate y m d t)).
Proof using Hlen.
  intros Hs. unfold parseDate. wp_step. apply (wp_mono _ _ _ _ (parseMonth_wp start t Hs)).
  intros i t' (Hi & y & m & (Hy & Hm & Hmax)%validMonth_spec & ->). do 2 wp_step. rewrite u32_id in H by lia. zbool.
  wp_step. apply wp_at; [lia|]. intros c _. repeat wp_step. apply wp_toInt; [lia..|]. intros r Hr.
  repeat wp_step. cbn [m_year m_month set_type set_month set_year].
  apply (wp_lift _ (monthLength y m)); [by apply maxDayOfMonth_spec|]. repeat wp_step. zbool.
  destruct (Hr a ltac:(done)) as [He _]. split; [lia|].
  assert (validDate y m a = true) as Hv by (apply validDate_spec; lia).
  exists y, m, a. split; [done|]. split; [|done].
  match goal with H : withinHTMLDateLimits_date _ _ _ = true |- _ => rewrite within_date_spec in H by (done || lia);
    by apply bool_decide_eq_true in H end.
Qed.

Lemma parseWeek_wp start t :
  0 <= start <= L ->
  wp (parseWeek src L start) t (fun e t' => start <= e <= L /\ m_type t' = Week /\ validWeek t' = true).
Proof using Hlen.
  intros Hs. unfold parseWeek. wp_step. apply (wp_mono _ _ _ _ (parseYear_wp start t Hs)).
  intros i t' (Hi & y & Hy & ->). do 2 wp_step. rewrite u32_id in H by lia. zbool.
  wp_step. apply wp_at; [lia|]. intros c _. do 3 wp_step. apply wp_at; [lia|]. intros c' _. repeat wp_step.
  apply wp_toIntWithin; [lia..|]. intros w Hw Hwr. repeat wp_step. split; [lia|]. split; [done|].
  unfold validWeek. cbn [m_year m_week set_type set_week set_year]. zbool. apply andb_false_iff in H2.
  change (maxWeekNumberInYear _) with (maxWeekNumberInYear (set_year y t)).
  rewrite !andb_true_iff, orb_true_iff, !Z.leb_le, !Z.ltb_lt. unfold minimumWeekNumber in *.
  cbn [m_year set_year] in H2. destruct H2; zbool; lia.
Qed.

Lemma toInt_loop_digits n current value :
  0 <= current -> digitsAt current (Z.of_nat n) -> 0 <= value -> (value + 1) * 10 ^ Z.of_nat n <= INT_MAX + 1 ->
  exists v, toInt_loop n src current value = Some (Some v) /\
    value * 10 ^ Z.of_nat n <= v < (value + 1) * 10 ^ Z.of_nat n.
Proof using Type.
  revert current value. induction n as [|n IH]; intros current value Hc Hd Hv Hmax; cbn [toInt_loop].
  { exists value. split; [done|]. lia. }
  destruct (Hd current ltac:(lia)) as (c & Hat & Hdig). rewrite Hat. cbn [mbind option_bind]. rewrite Hdig. cbn [negb].
  rewrite Nat2Z.inj_succ, Z.pow_succ_r in * by lia. unfold isASCIIDigit in Hdig. zbool.
  pose proof (Z.pow_pos_nonneg 10 (Z.of_nat n) ltac:(lia) ltac:(lia)) as Hp.
  assert (value * 10 + 10 <= INT_MAX + 1) as Hsmall by nia.
  rewrite (proj2 (Z.ltb_ge (Z.quot _ 10) value)); [|rewrite Z.quot_div_nonneg by lia; apply Z.div_le_lower_bound; lia].
  destruct (IH (current + 1) (value * 10 + (c - 48))) as (v & He & Hr); [lia| |lia|nia|].
  { intros j Hj. apply Hd. lia. }
  exists v. split; [done|]. nia.
Qed.

Lemma toInt_digits start n :
  0 <= start -> digitsAt start n -> 1 <= n <= 9 -> start + n <= L ->
  exists v, toInt src L start n = Some (Some v) /\ 0 <= v < 10 ^ n.
Proof using Hlen.
  intros Hs Hd Hn Hl. unfold toInt. rewrite u32_id by lia. rewrite (proj2 (Z.ltb_ge L _)) by lia.
  rewrite (proj2 (Z.leb_gt n 0)) by lia. cbn [orb].
  pose proof (Z.pow_le_mono_r 10 n 9 ltac:(lia) ltac:(lia)).
  destruct (toInt_loop_digits (Z.to_nat n) start 0) as (v & He & Hv); rewrite ?Z2Nat.id by lia; [done|done|done| |].
  { unfold INT_MAX. lia. }
  rewrite Z2Nat.id in Hv by lia. exists v. split; [done|]. lia.
Qed.

Lemma parseFraction_spec i :
  0 <= i <= L ->
  exists ms e, parseFraction src L i = Some (ms, e) /\ i <= e <= L /\ 0 <= ms <= 999.
Proof using Hlen.
  intros Hi. unfold parseFraction. destruct (Z.ltb_spec i L); cbn [negb]; [|exists 0, i; split_and!; done || lia].
  destruct (at_in_range i ltac:(lia)) as [c Hc]. rewrite Hc. cbn [mbind option_bind].
  step_if; [exists 0, i; split_and!; done || lia|]. destruct (countDigits_spec (i + 1) ltac:(lia)) as (n & Hn & Hnr & Hd & _).
  rewrite Hn. cbn [mbind option_bind]. step_if; zbool; [exists 0, i; split_and!; done || lia|].
  assert (forall k, 1 <= k -> k <= n -> k <= 3 -> exists v, toInt src L (i + 1) k = Some (Some v) /\ 0 <= v < 10 ^ k) as Hk.
  { intros k Hk1 Hk2 Hk3. apply toInt_digits; [lia| |lia|lia]. intros j Hj. apply Hd. lia. }
  repeat step_if; zbool; (destruct (Hk (Z.min n 3)) as (v & He & Hv); [lia..|]).
  1: replace (Z.min n 3) with 1 in * by lia. 2: replace (Z.min n 3) with 2 in * by lia.
  3: replace (Z.min n 3) with 3 in * by lia.
  all: rewrite He; cbn [mbind option_bind mjoin option_join]; do 2 eexists; (split; [reflexivity|]); lia.
Qed.

Lemma parseSeconds_spec i :
  0 <= i <= L ->
  exists s ms e, parseSeconds src L i = Some (s, ms, e) /\ i <= e <= L /\ 0 <= ms <= 999 /\ 0 <= s /\
    (s <= 59 \/ (e < L /\ at_ src e = Some (chr ":"))).
Proof using Hlen.
  intros Hi. unfold parseSeconds. rewrite u32_id by lia.
  destruct (Z.ltb_spec (i + 2) L); cbn [negb]; [|exists 0, 0, i; split_and!; [done|lia..|by left]].
  destruct (at_in_range i ltac:(lia)) as [c Hc]. rewrite Hc. cbn [mbind option_bind].
  destruct (Z.eqb_spec c 58) as [->|]; cbn [negb]; [|exists 0, 0, i; split_and!; [done|lia..|by left]].
  destruct (toInt_spec (i + 1) 2 ltac:(lia) ltac:(lia) ltac:(lia)) as (r & Hr & Hv). rewrite Hr. cbn [mbind option_bind].
  destruct r as [s|]; [|exists 0, 0, i; split_and!; [done|lia..|by left]].
  destruct (Hv s eq_refl) as (Hl & Hs & _). step_if; zbool.
  - destruct (parseFraction_spec (i + 3) ltac:(lia)) as (ms & e & -> & He & Hms). cbn [mbind option_bind].
    exists s, ms, e. split_and!; [done|lia..|by left].
  - exists s, 0, i. split_and!; [done|lia..|]. right. by split; [lia|].
Qed.

(** A time; its seconds are in range unless the parser stopped before them. *)
Definition ParsedTime (e h mi s ms : Z) : Prop :=
  0 <= h <= 23 /\ 0 <= mi <= 59 /\ 0 <= ms <= 999 /\ 0 <= s /\ (s <= 59 \/ (e < L /\ at_ src e = Some (chr ":"))).

Lemma parseTime_wp start t :
  0 <= start <= L ->
  wp (parseTime src L start) t (fun e t' => start <= e <= L /\
    exists h mi s ms, ParsedTime e h mi s ms /\ t' = set_type Time (set_time h mi s ms t)).
Proof using Hlen.
  intros Hs. unfold parseTime. wp_step. apply wp_toIntWithin; [lia..|]. intros h Hh Hhr.
  wp_step. apply wp_expect; [lia|]. intros Hi _. wp_step. apply wp_toIntWithin; [lia..|]. intros mi Hmi Hmir.
  wp_step. destruct (parseSeconds_spec (start + 2 + 1 + 2) ltac:(lia)) as (s & ms & e & He & Hel & Hms & Hsr & Hs59).
  apply (wp_lift _ (s, ms, e)); [done|]. repeat wp_step. split; [lia|]. exists h, mi, s, ms. by split.
Qed.

Lemma ParsedTime_valid e h mi s ms :
  ParsedTime e h mi s ms -> (forall c, at_ src e = Some c -> e < L -> c <> chr ":") -> validTime h mi s ms = true.
Proof using Type.
  intros (Hh & Hmi & Hms & Hs & H59) Hc. apply validTime_spec. split_and!; try lia.
  destruct H59 as [?|[He Hat]]; [done|]. by destruct (Hc _ Hat He).
Qed.

(** After the time zone, the object holds the time without its offset. *)
Lemma parseTimeZone_wp start t :
  0 <= start <= L -> validDateOf t = true -> firstDay <= dayOf t <= lastDay ->
  (forall c, at_ src start = Some c -> c <> chr ":" -> validTimeOf t = true) ->
  wp (parseTimeZone src L start) t (fun e t' => start < e <= L /\ validDateOf t' = true /\ validTimeOf t' = true /\
    (t' = t \/ firstMs <= dateTimeMs t' <= lastMs)).
Proof using Hlen.
  intros Hs Hv Hr Ht. unfold parseTimeZone. do 2 wp_step. zbool. wp_step. apply wp_at; [lia|]. intros c Hc.
  destruct (Z.eqb_spec c 90) as [->|_].
  { wp_step. split_and!; [lia..|done|by apply (Ht _ Hc)|by left]. }
  wp_step. assert (validTimeOf t = true \/ c <> 43 /\ c <> 45) as Ht'.
  { destruct (decide (c = 58)); [right; lia|]. left. by apply (Ht c). }
  set (sign := if c =? 43 then _ else _).
  assert (forall Q, (validTimeOf t = true -> forall b, Q b t) -> wp sign t Q) as Hsign.
  { intros Q HQ. unfold sign. destruct (Z.eqb_spec c 43); [|destruct (Z.eqb_spec c 45)]; try done; apply HQ; intuition. }
  apply Hsign. clear sign Hsign Ht'. intros Ht' minus. wp_step. apply wp_toIntWithin; [lia..|]. intros h Hh Hhr.
  wp_step. apply wp_expect; [lia|]. intros Hi _. wp_step. apply wp_toIntWithin; [lia..|]. intros mi Hmi Hmir.
  set (p := if minus then _ else _).
  assert (exists h' mi', p = (h', mi') /\ -1440 < - (h' * 60 + mi') < 1440) as (h' & mi' & -> & Hoff).
  { unfold p. destruct minus; eexists _, _; (split; [reflexivity|lia]). }
  wp_step. apply wp_addMinute; [done..|]. intros t' Hv' Ht'' Hms Hrange. wp_step. split_and!; [lia..|done|done|by right].
Qed.

Lemma parseDateTimeLocal_wp start t :
  0 <= start <= L ->
  wp (parseDateTimeLocal src L start) t (fun e t' => start <= e <= L /\ m_type t' = DateTimeLocal /\
    (e = L -> valid t' = true)).
Proof using Hlen.
  intros Hs. unfold parseDateTimeLocal. wp_step. apply (wp_mono _ _ _ _ (parseDate_wp start t Hs)).
  intros i t1 (Hi & y & m & d & Hv & Hd & ->). wp_step. apply wp_expect; [lia|]. intros Hi' _.
  wp_step. apply (wp_mono _ _ _ _ (parseTime_wp (i + 1) _ ltac:(lia))).
  intros e t2 (He & h & mi & s & ms & Ht & ->). repeat wp_step. split; [lia|]. split; [done|]. intros ->.
  pose proof (ParsedTime_valid _ _ _ _ _ Ht ltac:(lia)) as Hvt.
  unfold withinLimits in H. cbn in H. rewrite within_spec in H by (done || lia). apply bool_decide_eq_true in H.
  unfold valid, validDateOf, validTimeOf, dateTimeMs, dateMs, timeMs. cbn. rewrite Hv, Hvt. cbn [andb].
  rewrite andb_true_iff, !Z.leb_le. done.
Qed.

Lemma parseDateTime_wp start t :
  0 <= start <= L ->
  wp (parseDateTime src L start) t (fun e t' => start <= e <= L /\ m_type t' = DateTime /\ valid t' = true).
Proof using Hlen.
  intros Hs. unfold parseDateTime. wp_step. apply (wp_mono _ _ _ _ (parseDate_wp start t Hs)).
  intros i t1 (Hi & y & m & d & Hv & Hd & ->). wp_step. apply wp_expect; [lia|]. intros Hi' _.
  wp_step. apply (wp_mono _ _ _ _ (parseTime_wp (i + 1) _ ltac:(lia))).
  intros e t2 (He & h & mi & s & ms & Ht & ->). wp_step.
  eapply wp_mono; [apply (parseTimeZone_wp e); [lia|done|done|]|].
  { intros c Hc Hne. apply (ParsedTime_valid _ _ _ _ _ Ht). intros c'. rewrite Hc. congruence. }
  intros e' t' (He' & Hv' & Ht' & Hrange). repeat wp_step. split; [lia|]. split; [done|].
  assert (dayOf t' <= lastDay + 1) as Hlast.
  { destruct Hrange as [->|Hrange]; [unfold dayOf; cbn; lia|]. pose proof (within_date_of_ms t' Ht' Hrange). lia. }
  unfold withinLimits in H. rewrite within_spec in H by done. apply bool_decide_eq_true in H.
  unfold valid. cbn [m_type set_type]. unfold validDateOf, validTimeOf, dateTimeMs, dateMs, timeMs in *. cbn.
  rewrite Hv', Ht'. cbn [andb]. rewrite andb_true_iff, !Z.leb_le. done.
Qed.

End Parse.
