(* ===== verification/DateComponentsPrint.v ===== *)
(** * DateComponentsPrint: what is printed is parsed back

    Decimal printing against [toInt] and [countDigits], and the parsers on the
    texts that [toString] writes. *)

From S2P Require Import Prelude ASCIICType Double DateMath DateMathCorrect DateComponents DateComponentsAdd DateComponentsParse.
Import DateMath DateComponents.

(** ** Decimal numbers *)

Definition numberOf (ds : list Z) : Z := fold_left (fun v c => v * 10 + (c - chr "0")) ds 0.

Definition allDigits (ds : list Z) : Prop := Forall (fun c => isASCIIDigit c = true) ds.

Lemma isASCIIDigit_spec c : isASCIIDigit c = true <-> 48 <= c <= 57.
Proof. unfold isASCIIDigit. rewrite andb_true_iff, !Z.leb_le. done. Qed.

Lemma numberOf_snoc ds c : numberOf (ds ++ [c]) = numberOf ds * 10 + (c - 48).
Proof. unfold numberOf. by rewrite fold_left_app. Qed.

Lemma numberOf_app ds ds' :
  numberOf (ds ++ ds') = numberOf ds * 10 ^ Z.of_nat (length ds') + numberOf ds'.
Proof.
  induction ds' as [|c ds' IH] using rev_ind; [rewrite app_nil_r; cbn; lia|].
  rewrite app_assoc, !numberOf_snoc, IH, length_app, Nat2Z.inj_add, Z.pow_add_r by lia. cbn. lia.
Qed.

Lemma numberOf_range ds : allDigits ds -> 0 <= numberOf ds < 10 ^ Z.of_nat (length ds).
Proof.
  induction ds as [|c ds IH] using rev_ind; [done|]. intros [Hds [Hc _]%Forall_cons]%Forall_app.
  apply isASCIIDigit_spec in Hc. rewrite numberOf_snoc, length_app, Nat2Z.inj_add, Z.pow_add_r by lia.
  specialize (IH Hds). cbn. lia.
Qed.

Lemma decimal_loop_spec fuel n acc :
  0 <= n < 2 ^ Z.of_nat fuel -> (0 < fuel)%nat ->
  exists ds, decimal_loop fuel n acc = ds ++ acc /\ allDigits ds /\ numberOf ds = n /\ ds <> [] /\
    (forall k, 0 < k -> n < 10 ^ k -> Z.of_nat (length ds) <= k).
Proof.
  revert n acc. induction fuel as [|fuel IH]; intros n acc Hn Hf; [lia|]. cbn [decimal_loop].
  pose proof (Z.mod_pos_bound n 10 ltac:(lia)). pose proof (Z.div_mod n 10 ltac:(lia)).
  assert (isASCIIDigit (48 + n mod 10) = true) as Hd by (apply isASCIIDigit_spec; lia).
  destruct (Z.ltb_spec n 10).
  - exists [48 + n mod 10]. split_and!; [done|by repeat constructor| |done|cbn; lia].
    unfold numberOf. cbn -[Z.modulo]. rewrite Z.mod_small by lia. lia.
  - rewrite Nat2Z.inj_succ, Z.pow_succ_r in Hn by lia.
    assert (0 < fuel)%nat by (destruct fuel; [cbn in Hn; lia|lia]).
    destruct (IH (n / 10) (48 + n mod 10 :: acc)) as (ds & -> & Hds & Hv & Hne & Hlen); [|done|].
    { split; [apply Z.div_pos; lia|]. apply Z.div_lt_upper_bound; lia. }
    exists (ds ++ [48 + n mod 10]). split_and!.
    + by rewrite <- app_assoc.
    + apply Forall_app. by repeat constructor.
    + rewrite numberOf_snoc, Hv. lia.
    + by destruct ds.
    + intros k Hk Hlt. rewrite length_app, Nat2Z.inj_add. destruct (decide (k = 1)) as [->|]; [lia|].
      enough (Z.of_nat (length ds) <= k - 1) by (cbn; lia). apply Hlen; [lia|].
      apply Z.div_lt_upper_bound; [lia|]. rewrite <- Z.pow_succ_r by lia. by replace (Z.succ (k - 1)) with k by lia.
Qed.

Lemma decimal_spec n :
  0 <= n ->
  allDigits (decimal n) /\ numberOf (decimal n) = n /\ decimal n <> [] /\
  (forall k, 0 < k -> n < 10 ^ k -> Z.of_nat (length (decimal n)) <= k).
Proof.
  intros Hn. unfold decimal. edestruct (decimal_loop_spec (S (Z.to_nat (Z.log2 n))) n []) as (ds & -> & H); [|lia|].
  - rewrite Nat2Z.inj_succ, Z2Nat.id by apply Z.log2_nonneg. split; [done|].
    destruct (decide (n = 0)) as [->|]; [done|]. apply Z.log2_spec. lia.
  - by rewrite app_nil_r.
Qed.

Lemma numberOf_zeros n ds : numberOf (replicate n 48 ++ ds) = numberOf ds.
Proof.
  rewrite numberOf_app. assert (numberOf (replicate n 48) = 0) as ->; [|lia].
  induction n as [|n IH]; [done|]. change (replicate (S n) 48) with ([48] ++ replicate n 48). rewrite numberOf_app, IH.
  done.
Qed.

(** A printed number is at least as long as its width, all digits, and has its
    value; below [10^width] it has exactly its width. *)
Lemma format0_spec w n :
  0 <= n -> (0 < w)%nat ->
  allDigits (format0 w n) /\ numberOf (format0 w n) = n /\ (w <= length (format0 w n))%nat /\
  (forall k, Z.of_nat w <= k -> n < 10 ^ k -> Z.of_nat (length (format0 w n)) <= k).
Proof.
  intros Hn Hw. destruct (decimal_spec n Hn) as (Hd & Hv & Hne & Hlen).
  unfold format0. rewrite (proj2 (Z.ltb_ge n 0)) by lia. rewrite numberOf_zeros, length_app, length_replicate.
  split_and!.
  - apply Forall_app. split; [|done]. by apply Forall_replicate.
  - done.
  - lia.
  - intros k Hk Hlt. specialize (Hlen k ltac:(lia) Hlt). lia.
Qed.

(** ** Parsing a known text *)

Section Reads.

Context (src : list Z).
Let L : Z := Z.of_nat (length src).
Hypothesis Hlen : L + 4 < 2 ^ 32.

(** The text from index [i] on is [s]. *)
Definition suffixAt (i : Z) (s : list Z) : Prop :=
  exists pre, src = pre ++ s /\ i = Z.of_nat (length pre).

Lemma suffixAt_bounds i s : suffixAt i s -> 0 <= i /\ i + Z.of_nat (length s) = L.
Proof using Type. intros (pre & E & ->). unfold L. rewrite E, length_app. lia. Qed.

Lemma suffixAt_app i ds s : suffixAt i (ds ++ s) -> suffixAt (i + Z.of_nat (length ds)) s.
Proof using Type.
  intros (pre & E & ->). exists (pre ++ ds). rewrite <- app_assoc, length_app, Nat2Z.inj_add. done.
Qed.

Lemma suffixAt_cons i c s : suffixAt i (c :: s) -> suffixAt (i + 1) s.
Proof using Type. intros H. apply (suffixAt_app i [c]). done. Qed.

Lemma at_suffix i c s : suffixAt i (c :: s) -> at_ src i = Some c.
Proof using Type.
  intros (pre & E & ->). unfold at_. rewrite (proj2 (Z.ltb_ge _ 0)) by lia. rewrite Nat2Z.id, E.
  by rewrite lookup_app_r, Nat.sub_diag by lia.
Qed.

Lemma toInt_loop_reads i ds done_ s :
  suffixAt i (ds ++ s) -> allDigits (done_ ++ ds) -> numberOf (done_ ++ ds) <= INT_MAX ->
  toInt_loop (length ds) src i (numberOf done_) = Some (Some (numberOf (done_ ++ ds))).
Proof using Type.
  revert i done_. induction ds as [|c ds IH]; intros i done_ Hs Hd Hv; cbn [toInt_loop length].
  { by rewrite app_nil_r. }
  rewrite (at_suffix i c (ds ++ s)) by done. cbn [mbind option_bind].
  pose proof Hd as [Hd1 [Hc Hd2]%Forall_cons]%Forall_app. rewrite Hc. cbn [negb].
  apply isASCIIDigit_spec in Hc. rewrite cons_middle, app_assoc in Hd, Hv |- *.
  pose proof (numberOf_range (done_ ++ [c]) ltac:(by apply Forall_app in Hd as [? _])) as Hr1.
  pose proof (numberOf_range ds Hd2) as Hr2. pose proof (numberOf_range done_ Hd1) as Hr3.
  rewrite numberOf_app in Hv. pose proof (Z.pow_pos_nonneg 10 (Z.of_nat (length ds)) ltac:(lia) ltac:(lia)).
  assert (numberOf (done_ ++ [c]) <= INT_MAX) as Hsmall by nia. rewrite numberOf_snoc in Hsmall.
  rewrite (proj2 (Z.ltb_ge (Z.quot _ 10) (numberOf done_)))
    by (rewrite Z.quot_div_nonneg by lia; apply Z.div_le_lower_bound; lia).
  rewrite <- numberOf_snoc. apply IH; [by apply suffixAt_cons in Hs|done|by rewrite numberOf_app].
Qed.

Lemma toInt_reads i ds s :
  suffixAt i (ds ++ s) -> allDigits ds -> ds <> [] -> numberOf ds <= INT_MAX ->
  toInt src L i (Z.of_nat (length ds)) = Some (Some (numberOf ds)).
Proof using Hlen.
  intros Hs Hd Hne Hv. pose proof (suffixAt_bounds _ _ Hs) as [H0 H1]. rewrite length_app in H1.
  unfold toInt. rewrite u32_id by lia. rewrite (proj2 (Z.ltb_ge L _)) by lia.
  rewrite (proj2 (Z.leb_gt _ 0)) by (destruct ds; cbn; [done|lia]). cbn [orb]. rewrite Nat2Z.id.
  by apply (toInt_loop_reads i ds [] s).
Qed.

(** The text [s] does not begin with a digit. *)
Definition noDigit (s : list Z) : Prop := match s with c :: _ => isASCIIDigit c = false | [] => True end.

Lemma countDigits_loop_reads fuel start i ds s :
  suffixAt i (ds ++ s) -> allDigits ds -> noDigit s -> (length ds < fuel)%nat ->
  countDigits_loop fuel src L start i = Some (i + Z.of_nat (length ds) - start).
Proof using Type.
  revert i fuel. induction ds as [|c ds IH]; intros i fuel Hs Hd Hn Hf; (destruct fuel as [|fuel]; [cbn in Hf; lia|]);
    cbn [countDigits_loop]; pose proof (suffixAt_bounds _ _ Hs) as [H0 H1].
  - rewrite Z.add_0_r. destruct s as [|c s]; [cbn in H1; rewrite (proj2 (Z.ltb_ge i L)) by lia; done|].
    cbn in H1. rewrite (proj2 (Z.ltb_lt i L)), (at_suffix i c s) by (done || lia). cbn [mbind option_bind].
    cbn in Hn. by rewrite Hn.
  - cbn in H1. rewrite (proj2 (Z.ltb_lt i L)), (at_suffix i c (ds ++ s)) by (done || lia). cbn [mbind option_bind].
    apply Forall_cons in Hd as [Hc Hd]. rewrite Hc. cbn [negb]. cbn in Hf.
    rewrite (IH (i + 1)) by (by apply suffixAt_cons in Hs) || lia || done. f_equal. cbn. lia.
Qed.

Lemma countDigits_reads i ds s :
  suffixAt i (ds ++ s) -> allDigits ds -> noDigit s -> countDigits src L i = Some (Z.of_nat (length ds)).
Proof using Type.
  intros Hs Hd Hn. pose proof (suffixAt_bounds _ _ Hs) as [H0 H1]. rewrite length_app in H1. unfold countDigits.
  rewrite (countDigits_loop_reads _ i i ds s) by (done || lia). f_equal. lia.
Qed.

(** A number printed with a fixed width. *)
Lemma toInt_format0 i w n s :
  suffixAt i (format0 w n ++ s) -> 0 <= n < 10 ^ Z.of_nat w -> (0 < w <= 9)%nat ->
  toInt src L i (Z.of_nat w) = Some (Some n) /\ suffixAt (i + Z.of_nat w) s.
Proof using Hlen.
  intros Hs Hn Hw. destruct (format0_spec w n ltac:(lia) ltac:(lia)) as (Hd & Hv & Hl & Hk).
  assert (length (format0 w n) = w) as El by (specialize (Hk (Z.of_nat w)); lia).
  pose proof (toInt_reads i (format0 w n) s Hs Hd) as Ht. rewrite El, Hv in Ht. split.
  - apply Ht; [intros E; rewrite E in El; cbn in El; lia|].
    pose proof (Z.pow_le_mono_r 10 (Z.of_nat w) 9 ltac:(lia) ltac:(lia)). unfold INT_MAX. lia.
  - apply suffixAt_app in Hs. by rewrite El in Hs.
Qed.

Lemma toIntWithin_format0 {B} i w n low high s (k : Z -> M B) t :
  suffixAt i (format0 w n ++ s) -> 0 <= n < 10 ^ Z.of_nat w -> (0 < w <= 9)%nat -> low <= n <= high ->
  (toIntWithin src L i (Z.of_nat w) low high ≫= k) t = k n t.
Proof using Hlen.
  intros Hs Hn Hw Hr. destruct (toInt_format0 i w n s Hs Hn Hw) as [Ht _].
  unfold mbind at 1, M_bind, toIntWithin. rewrite Ht. autorewrite with dc.
  rewrite (proj2 (andb_true_iff _ _)) by (rewrite !Z.leb_le; lia). done.
Qed.

Lemma expect_reads {B} i c s (k : () -> M B) t :
  suffixAt i (c :: s) -> (expect src L i c ≫= k) t = k () t.
Proof using Type.
  intros Hs. pose proof (suffixAt_bounds _ _ Hs) as [H0 H1]. cbn in H1.
  unfold mbind at 1, M_bind, expect. autorewrite with dc. rewrite (proj2 (Z.ltb_lt i L)) by lia.
  rewrite (at_suffix i c s Hs). autorewrite with dc. unfold require. by rewrite Z.eqb_refl.
Qed.

Lemma bind_eq {A B} (m : M A) (k : A -> M B) t t' a : m t = Some (t', Some a) -> (m ≫= k) t = k a t'.
Proof using Type. intros H. unfold mbind, M_bind. by rewrite H. Qed.

(** ** The parsers on printed texts *)

Lemma parseYear_reads i y s t :
  suffixAt i (format0 4 y ++ s) -> noDigit s -> minimumYear <= y <= maximumYear ->
  exists j, parseYear src L i t = Some (set_year y t, Some j) /\ suffixAt j s.
Proof using Hlen.
  unfold minimumYear, maximumYear. intros Hs Hn Hy.
  destruct (format0_spec 4 y ltac:(lia) ltac:(lia)) as (Hd & Hv & Hl & _).
  exists (i + Z.of_nat (length (format0 4 y))). split; [|by apply suffixAt_app].
  unfold parseYear. rewrite (countDigits_reads i _ s Hs Hd Hn). autorewrite with dc.
  rewrite (proj2 (Z.leb_le 4 _)) by lia. rewrite (toInt_reads i _ s Hs Hd); [|by intros E; rewrite E in Hl; cbn in Hl; lia|unfold INT_MAX; lia].
  autorewrite with dc. rewrite Hv. rewrite (proj2 (andb_true_iff _ _)); [done|].
  unfold minimumYear, maximumYear. rewrite !Z.leb_le. lia.
Qed.

Lemma parseMonth_reads i y m s t :
  suffixAt i (format0 4 y ++ chr "-" :: format0 2 (m + 1) ++ s) -> validMonth y m = true ->
  exists j, parseMonth src L i t = Some (set_type Month (set_month m (set_year y t)), Some j) /\ suffixAt j s.
Proof using Hlen.
  intros Hs (Hy & Hm & Hmax)%validMonth_spec. unfold parseMonth.
  destruct (parseYear_reads i y _ t Hs ltac:(done) Hy) as (j & Hp & Hj). rewrite (bind_eq _ _ _ _ _ Hp).
  rewrite (expect_reads j _ _ _ _ Hj). apply suffixAt_cons in Hj.
  rewrite (toIntWithin_format0 (j + 1) 2 (m + 1) 1 12 s) by (done || lia). autorewrite with dc.
  cbn [m_year set_year]. replace (m + 1 - 1) with m by lia. exists (j + 1 + 2). split.
  - unfold withinHTMLDateLimits_month. rewrite (proj2 (Z.ltb_ge y _)) by lia.
    destruct (Z.ltb_spec y maximumYear); [done|]. by rewrite (proj2 (Z.leb_le m _)) by lia.
  - by destruct (toInt_format0 (j + 1) 2 (m + 1) s Hj ltac:(lia) ltac:(lia)).
Qed.

Lemma parseDate_reads i y m d s t :
  suffixAt i (format0 4 y ++ chr "-" :: format0 2 (m + 1) ++ chr "-" :: format0 2 d ++ s) ->
  validDate y m d = true -> firstDay <= dayNumber y m d <= lastDay ->
  exists j, parseDate src L i t = Some (set_type Date (withDate y m d t), Some j) /\ suffixAt j s.
Proof using Hlen.
  intros Hs Hv Hr. pose proof Hv as [Hm Hd]%validDate_spec. pose proof (monthStart_range y m Hm) as (_ & Hml & _).
  destruct (dayNumber_last_month y m d Hv ltac:(lia)) as [Hy Hmax].
  assert (minimumYear <= y).
  { apply Z.nlt_ge. intros H. pose proof (yearStart_le (y + 1) 1 ltac:(unfold minimumYear in H; lia)).
    pose proof (dayNumber_year y m d Hv). change (yearStart 1) with firstDay in *. lia. }
  unfold parseDate. destruct (parseMonth_reads i y m _ t Hs ltac:(by apply validMonth_spec)) as (j & Hp & Hj).
  rewrite (bind_eq _ _ _ _ _ Hp). autorewrite with dc. pose proof (suffixAt_bounds _ _ Hj) as [H0 H1].
  pose proof (suffixAt_cons _ _ _ Hj) as Hj'.
  destruct (toInt_format0 (j + 1) 2 d s Hj' ltac:(lia) ltac:(lia)) as [Ht Hend].
  pose proof (suffixAt_bounds _ _ Hend) as [_ H2]. rewrite u32_id by lia.
  rewrite (proj2 (Z.ltb_lt (j + 2) L)) by lia. rewrite (at_suffix _ _ _ Hj). autorewrite with dc. cbn [Z.eqb Pos.eqb].
  change (Z.of_nat 2) with 2 in *. rewrite Ht. autorewrite with dc. cbn [m_year m_month set_type set_month set_year].
  rewrite maxDayOfMonth_spec by done. autorewrite with dc. rewrite (proj2 (Z.leb_le 1 d)), (proj2 (Z.leb_le d _)) by lia.
  rewrite within_date_spec, bool_decide_eq_true_2 by done. by exists (j + 1 + 2).
Qed.

Lemma parseWeek_reads i y w s t :
  suffixAt i (format0 4 y ++ chr "-" :: chr "W" :: format0 2 w ++ s) ->
  validWeek (set_week w (set_year y t)) = true ->
  exists j, parseWeek src L i t = Some (set_type Week (set_week w (set_year y t)), Some j) /\ suffixAt j s.
Proof using Hlen.
  intros Hs Hv. unfold validWeek in Hv. rewrite !andb_true_iff, orb_true_iff, !Z.leb_le, Z.ltb_lt in Hv.
  cbn [m_year m_week set_week set_year] in Hv. destruct Hv as ((((Hy1 & Hy2) & Hw1) & Hw2) & Hmax).
  change (maxWeekNumberInYear _) with (maxWeekNumberInYear (set_year y t)) in Hw2.
  pose proof (maxWeekNumberInYear_range (set_year y t)) as Hwr. unfold parseWeek.
  destruct (parseYear_reads i y _ t Hs ltac:(done) ltac:(done)) as (j & Hp & Hj). rewrite (bind_eq _ _ _ _ _ Hp).
  autorewrite with dc. pose proof (suffixAt_cons _ _ _ Hj) as Hj1. pose proof (suffixAt_cons _ _ _ Hj1) as Hj2.
  destruct (toInt_format0 (j + 1 + 1) 2 w s Hj2 ltac:(lia) ltac:(lia)) as [Ht Hend].
  pose proof (suffixAt_bounds _ _ Hend) as [_ H2]. pose proof (suffixAt_bounds _ _ Hj) as [H0 H1]. rewrite u32_id by lia.
  rewrite (proj2 (Z.ltb_lt (j + 3) L)) by lia. rewrite (at_suffix _ _ _ Hj), (at_suffix _ _ _ Hj1).
  autorewrite with dc. cbn [Z.eqb Pos.eqb]. rewrite (toIntWithin_format0 (j + 1 + 1) 2 w _ _ s) by (done || lia).
  autorewrite with dc. cbn [m_year set_year].
  replace (negb _) with true; [by exists (j + 1 + 1 + 2)|]. symmetry. apply negb_true_iff, andb_false_iff.
  rewrite Z.eqb_neq, Z.ltb_ge. lia.
Qed.

(** What follows a time: nothing, or a time zone. *)
Definition quiet (tail : list Z) : Prop :=
  match tail with [] => True | c :: _ => c = chr "Z" \/ c = chr "+" \/ c = chr "-" end.

Lemma quiet_noDigit tail : quiet tail -> noDigit tail.
Proof using Type. destruct tail as [|c tail]; [done|]. by intros [-> | [-> | ->]]. Qed.

Lemma parseFraction_quiet i tail :
  suffixAt i tail -> quiet tail -> parseFraction src L i = Some (0, i).
Proof using Type.
  intros Hs Hq. pose proof (suffixAt_bounds _ _ Hs) as [H0 H1]. unfold parseFraction.
  destruct tail as [|c tail]; cbn [length] in H1.
  - by rewrite (proj2 (Z.ltb_ge i L)) by lia.
  - rewrite (proj2 (Z.ltb_lt i L)) by lia. cbn [negb]. rewrite (at_suffix _ _ _ Hs). by destruct Hq as [-> | [-> | ->]].
Qed.

Lemma parseFraction_reads i ms tail :
  suffixAt i (chr "." :: format0 3 ms ++ tail) -> quiet tail -> 0 <= ms <= 999 ->
  exists j, parseFraction src L i = Some (ms, j) /\ suffixAt j tail.
Proof using Hlen.
  intros Hs Hq Hms. pose proof (suffixAt_bounds _ _ Hs) as [H0 H1]. cbn [length] in H1.
  destruct (format0_spec 3 ms ltac:(lia) ltac:(lia)) as (Hd & Hv & Hl & Hk).
  assert (length (format0 3 ms) = 3%nat) as El by (specialize (Hk 3 ltac:(lia) ltac:(lia)); lia).
  pose proof (suffixAt_cons _ _ _ Hs) as Hs'.
  unfold parseFraction. rewrite (proj2 (Z.ltb_lt i L)) by lia. cbn [negb]. rewrite (at_suffix _ _ _ Hs).
  cbn [mbind option_bind Z.eqb Pos.eqb negb]. rewrite (countDigits_reads (i + 1) _ tail Hs' Hd)
    by (by apply quiet_noDigit). cbn [mbind option_bind]. rewrite El. change (Z.of_nat 3) with 3.
  cbn [Z.ltb Z.compare Z.eqb Pos.eqb negb Pos.compare Pos.compare_cont].
  destruct (toInt_format0 (i + 1) 3 ms tail Hs' ltac:(lia) ltac:(lia)) as [Ht Hend]. change (Z.of_nat 3) with 3 in *.
  rewrite Ht. by exists (i + 1 + 3).
Qed.

(** The part of a time after the minutes. *)
Definition secondsText (format : SecondFormat) (s ms : Z) : list Z :=
  if negb (ms =? 0) then chr ":" :: format0 2 s ++ chr "." :: format0 3 ms
  else match format with
       | None_ => if negb (s =? 0) then chr ":" :: format0 2 s else []
       | Second => chr ":" :: format0 2 s
       | Millisecond => chr ":" :: format0 2 s ++ chr "." :: format0 3 ms
       end.

Lemma parseSeconds_colon i s rest :
  suffixAt i (chr ":" :: format0 2 s ++ rest) -> 0 <= s <= 59 ->
  suffixAt (i + 3) rest /\
  parseSeconds src L i = ('(millisecond, index) ← parseFraction src L (i + 3); Some (s, millisecond, index)).
Proof using Hlen.
  intros Hs Hr. pose proof (suffixAt_cons _ _ _ Hs) as Hs'. pose proof (suffixAt_bounds _ _ Hs) as [H0 _].
  destruct (toInt_format0 (i + 1) 2 s rest Hs' ltac:(lia) ltac:(lia)) as [Ht Hend].
  pose proof (suffixAt_bounds _ _ Hend) as [_ H2]. change (Z.of_nat 2) with 2 in *.
  replace (i + 1 + 2) with (i + 3) in * by lia. split; [done|].
  unfold parseSeconds. rewrite u32_id by lia. rewrite (proj2 (Z.ltb_lt (i + 2) L)) by lia. cbn [negb].
  rewrite (at_suffix _ _ _ Hs). cbn [mbind option_bind Z.eqb Pos.eqb negb]. rewrite Ht. cbn [mbind option_bind].
  by rewrite (proj2 (andb_true_iff _ _)) by (rewrite !Z.leb_le; lia).
Qed.

Lemma parseSeconds_reads i format s ms tail :
  suffixAt i (secondsText format s ms ++ tail) -> quiet tail -> 0 <= s <= 59 -> 0 <= ms <= 999 ->
  exists j, parseSeconds src L i = Some (s, ms, j) /\ suffixAt j tail.
Proof using Hlen.
  intros Hs Hq Hsr Hms.
  assert (suffixAt i (chr ":" :: (format0 2 s ++ chr "." :: format0 3 ms) ++ tail) ->
          exists j, parseSeconds src L i = Some (s, ms, j) /\ suffixAt j tail) as Hfull.
  { rewrite <- app_assoc. intros Hs'. destruct (parseSeconds_colon i s _ Hs' Hsr) as [Hs3 ->].
    destruct (parseFraction_reads (i + 3) ms tail Hs3 Hq Hms) as (j & -> & Hj). by exists j. }
  assert (suffixAt i (chr ":" :: format0 2 s ++ tail) -> ms = 0 ->
          exists j, parseSeconds src L i = Some (s, ms, j) /\ suffixAt j tail) as Hhalf.
  { intros Hs' ->. destruct (parseSeconds_colon i s _ Hs' Hsr) as [Hs3 ->].
    rewrite (parseFraction_quiet _ _ Hs3 Hq). by exists (i + 3). }
  unfold secondsText in Hs. destruct (Z.eqb_spec ms 0) as [->|]; cbn [negb] in Hs; [|by apply Hfull].
  destruct format; [|by apply Hhalf|by apply Hfull].
  destruct (Z.eqb_spec s 0) as [->|]; cbn [negb] in Hs; [|by apply Hhalf].
  exists i. split; [|done]. unfold parseSeconds. pose proof (suffixAt_bounds _ _ Hs) as [H0 H1].
  destruct (Z.ltb_spec (u32 (i + 2)) L); cbn [negb]; [|done]. destruct tail as [|c tail].
  - cbn in H1. rewrite u32_id in H by lia. lia.
  - rewrite (at_suffix _ _ _ Hs). by destruct Hq as [-> | [-> | ->]].
Qed.

Lemma parseTime_reads i h mi s ms format tail t :
  suffixAt i (format0 2 h ++ chr ":" :: format0 2 mi ++ secondsText format s ms ++ tail) -> quiet tail ->
  validTime h mi s ms = true ->
  exists j, parseTime src L i t = Some (set_type Time (set_time h mi s ms t), Some j) /\ suffixAt j tail.
Proof using Hlen.
  intros Hs Hq (Hh & Hmi & Hsr & Hms)%validTime_spec. unfold parseTime.
  rewrite (toIntWithin_format0 i 2 h 0 23 _ _ _ Hs) by lia.
  destruct (toInt_format0 i 2 h _ Hs ltac:(lia) ltac:(lia)) as [_ Hs1]. change (Z.of_nat 2) with 2 in *.
  rewrite (expect_reads _ _ _ _ _ Hs1). apply suffixAt_cons in Hs1.
  rewrite (toIntWithin_format0 _ 2 mi 0 59 _ _ _ Hs1) by lia.
  destruct (toInt_format0 _ 2 mi _ Hs1 ltac:(lia) ltac:(lia)) as [_ Hs2]. change (Z.of_nat 2) with 2 in *.
  destruct (parseSeconds_reads _ format s ms tail Hs2 Hq Hsr Hms) as (j & -> & Hj). autorewrite with dc.
  by exists j.
Qed.

End Reads.
