(* ===== verification/DateComponentsMs.v ===== *)
(** * DateComponentsMs: components to and from milliseconds

    [millisecondsSinceEpoch] of valid components, and the
    [setMillisecondsSince...] methods on the numbers it gives. *)

From S2P Require Import Prelude Double DateMath DateMathCorrect DateComponents DateComponentsAdd DateComponentsParse.
Import DateMath DateComponents.

#[local] Ltac Zify.zify_post_hook ::= Z.to_euclidean_division_equations.

(** ** The fields that a type uses *)

Definition components (t : DateComponents) : list Z :=
  match m_type t with
  | Date => [m_year t; m_month t; m_monthDay t]
  | DateTime | DateTimeLocal =>
      [m_year t; m_month t; m_monthDay t; m_hour t; m_minute t; m_second t; m_millisecond t]
  | Month => [m_year t; m_month t]
  | Time => [m_hour t; m_minute t; m_second t; m_millisecond t]
  | Week => [m_year t; m_week t]
  | Invalid => []
  end.

(** Two objects that hold the same value. *)
Definition sameValue (t t' : DateComponents) : Prop := m_type t = m_type t' /\ components t = components t'.

(** ** Valid components, as propositions *)

Lemma valid_Date t :
  m_type t = Date -> valid t = true -> validDateOf t = true /\ firstDay <= dayOf t <= lastDay.
Proof. unfold valid. intros ->. rewrite !andb_true_iff, !Z.leb_le. tauto. Qed.

Lemma valid_DateTime t :
  m_type t = DateTime \/ m_type t = DateTimeLocal -> valid t = true ->
  validDateOf t = true /\ validTimeOf t = true /\ firstMs <= dateTimeMs t <= lastMs /\ firstDay <= dayOf t <= lastDay.
Proof.
  intros Hty Hv. assert (validDateOf t = true /\ validTimeOf t = true /\ firstMs <= dateTimeMs t <= lastMs) as (H1 & H2 & H3).
  { revert Hv. unfold valid. destruct Hty as [-> | ->]; rewrite !andb_true_iff, !Z.leb_le; tauto. }
  pose proof (within_date_of_ms t H2 H3). tauto.
Qed.

Lemma valid_Week t :
  m_type t = Week -> valid t = true ->
  minimumYear <= m_year t <= maximumYear /\ 1 <= m_week t <= maxWeekNumberInYear t /\
  (m_year t = maximumYear -> m_week t <= maximumWeekInMaximumYear).
Proof.
  unfold valid, validWeek. intros ->. rewrite !andb_true_iff, orb_true_iff, !Z.leb_le, Z.ltb_lt. lia.
Qed.

(** ** Reading the numbers *)

Lemma validDate_year t :
  validDateOf t = true -> firstDay <= dayOf t <= lastDay -> minimumYear <= m_year t <= maximumYear.
Proof.
  unfold validDateOf, dayOf. intros Hv Hr. destruct (dayNumber_last_month _ _ _ Hv ltac:(lia)) as [Hy _].
  split; [|done]. apply Z.nlt_ge. intros H. pose proof (yearStart_le (m_year t + 1) 1 ltac:(unfold minimumYear in H; lia)).
  pose proof (dayNumber_year _ _ _ Hv). change (yearStart 1) with firstDay in *. lia.
Qed.

Lemma dateToDays_valid t :
  validDateOf t = true -> firstDay <= dayOf t <= lastDay ->
  dateToDaysFrom1970 (m_year t) (m_month t) (m_monthDay t) = Some (dayOf t).
Proof.
  intros Hv Hr. pose proof (validDate_year t Hv Hr) as Hy. unfold minimumYear, maximumYear in Hy.
  pose proof Hv as [Hm Hd]%validDate_spec. pose proof (monthStart_range (m_year t) (m_month t) Hm).
  apply dateToDaysFrom1970_spec; unfold INT_MIN, INT_MAX; lia.
Qed.

Lemma timeForMs_valid t :
  isTimeType (m_type t) = true -> validTimeOf t = true -> millisecondsSinceEpochForTime t = Some (timeMs t).
Proof.
  intros Hty (Hh & Hmi & Hs & Hms)%validTime_spec. unfold millisecondsSinceEpochForTime. rewrite Hty. cbn [guard].
  unfold minutesPerHour, secondsPerMinute, msPerSecond.
  rewrite (fl_exact (m_hour t * 60)) by lia. rewrite (fl_exact (m_hour t * 60 + _)) by lia.
  rewrite (fl_exact ((m_hour t * 60 + m_minute t) * 60)) by lia. rewrite (fl_exact (_ * 60 + m_second t)) by lia.
  rewrite (fl_exact (_ * 1000)) by lia. by rewrite fl_exact by lia.
Qed.

(** The number of a value: what [millisecondsSinceEpoch] means. *)
Definition msOf (t : DateComponents) : Z :=
  match m_type t with
  | Date => dateMs t
  | DateTime | DateTimeLocal => dateTimeMs t
  | Month => dayNumber (m_year t) (m_month t) 1 * msPerDay
  | Time => timeMs t
  | Week => (weekStart (m_year t) + (m_week t - 1) * 7) * msPerDay
  | Invalid => 0
  end.

Lemma weekStart_bounds y : minimumYear <= y <= maximumYear + 1 -> firstDay - 3 <= weekStart y <= lastDay + 113.
Proof.
  unfold minimumYear. intros Hy. pose proof (weekStart_spec y ltac:(lia)) as [_ H].
  pose proof (yearStart_le 1 y ltac:(lia)). pose proof (yearStart_le y (maximumYear + 1) ltac:(lia)).
  change (yearStart 1) with firstDay in *. change (yearStart (maximumYear + 1)) with 100000110 in *. unfold lastDay. lia.
Qed.

Lemma weekDay_bounds t :
  m_type t = Week -> valid t = true ->
  firstDay - 3 <= weekStart (m_year t) + (m_week t - 1) * 7 <= lastDay + 106 /\
  (m_week t - 1) * 7 <= weekStart (m_year t + 1) - weekStart (m_year t) - 7.
Proof.
  intros Hty Hv. destruct (valid_Week t Hty Hv) as (Hy & Hw & _). unfold minimumYear in Hy.
  pose proof (maxWeekNumberInYear_spec t ltac:(lia)). pose proof (weekStart_bounds (m_year t) ltac:(unfold minimumYear; lia)).
  pose proof (weekStart_bounds (m_year t + 1) ltac:(unfold minimumYear; lia)). lia.
Qed.

Lemma dateTimeMs_valid t :
  isTimeType (m_type t) = true -> validDateOf t = true -> validTimeOf t = true -> firstDay <= dayOf t <= lastDay ->
  (days ← dateToDaysFrom1970 (m_year t) (m_month t) (m_monthDay t);
   time ← millisecondsSinceEpochForTime t; Some (fl (fl (days * msPerDay) + time))) = Some (dateTimeMs t).
Proof.
  intros Hty Hd Ht Hr. rewrite (dateToDays_valid t Hd Hr), (timeForMs_valid t Hty Ht). cbn [mbind option_bind].
  pose proof (timeOfDay_range _ _ _ _ Ht) as Htr. unfold firstDay, lastDay in Hr. unfold dateTimeMs, dateMs, timeMs.
  fold (dayOf t). change msPerDay with 86400000 in *. by rewrite (fl_exact (dayOf t * _)), fl_exact by lia.
Qed.

Lemma millisecondsSinceEpoch_spec t : valid t = true -> millisecondsSinceEpoch t = Some (msOf t).
Proof.
  intros Hv. unfold millisecondsSinceEpoch, msOf. destruct (m_type t) eqn:Hty.
  - unfold valid in Hv. by rewrite Hty in Hv.
  - destruct (valid_Date t Hty Hv) as [Hd Hr]. rewrite (dateToDays_valid t Hd Hr). cbn [mbind option_bind].
    rewrite fl_exact by (change msPerDay with 86400000; unfold firstDay, lastDay in Hr; lia). done.
  - destruct (valid_DateTime t (or_introl Hty) Hv) as (Hd & Ht & _ & Hr). apply dateTimeMs_valid; try done. by rewrite Hty.
  - destruct (valid_DateTime t (or_intror Hty) Hv) as (Hd & Ht & _ & Hr). apply dateTimeMs_valid; try done. by rewrite Hty.
  - unfold valid in Hv. rewrite Hty in Hv. apply validMonth_spec in Hv as (Hy & Hm & Hmax).
    unfold minimumYear, maximumYear in Hy. rewrite dateToDaysFrom1970_spec by (unfold INT_MIN, INT_MAX; lia).
    cbn [mbind option_bind]. pose proof (monthStart_range (m_year t) (m_month t) Hm).
    pose proof (yearStart_le 1 (m_year t) ltac:(lia)) as H1. pose proof (yearStart_le (m_year t) maximumYear ltac:(unfold maximumYear; lia)) as H2.
    change (yearStart 1) with (-719162) in H1. change (yearStart maximumYear) with 99999744 in H2.
    rewrite fl_exact; [done|]. unfold dayNumber. change msPerDay with 86400000. lia.
  - apply timeForMs_valid; [by rewrite Hty|]. unfold valid in Hv. by rewrite Hty in Hv.
  - destruct (valid_Week t Hty Hv) as (Hy & Hw & _). unfold minimumYear, maximumYear in Hy.
    rewrite dateToDaysFrom1970_spec, january1 by (unfold INT_MIN, INT_MAX; lia). cbn [mbind option_bind].
    destruct (weekDay_bounds t Hty Hv) as [Hb _]. pose proof (weekStart_bounds (m_year t) ltac:(unfold minimumYear, maximumYear; lia)) as Hws.
    pose proof (weekStart_spec (m_year t) ltac:(lia)) as [_ H3].
    unfold firstDay, lastDay in *. fold (weekStart (m_year t)) in *. change msPerDay with 86400000.
    rewrite (fl_exact (weekStart _)) by lia.
    rewrite (fl_exact (weekStart _ + _)) by lia. by rewrite fl_exact by lia.
Qed.

(** ** Setting from the numbers *)

Lemma bind_run {A B} (m : M A) (k : A -> M B) t t' a : m t = Some (t', Some a) -> (m ≫= k) t = k a t'.
Proof. intros H. unfold mbind, M_bind. by rewrite H. Qed.

Lemma round_integer n : round n 0 = n.
Proof. unfold round. cbn [Z.leb Z.compare]. lia. Qed.

Lemma positiveFmod_spec n d : representableTime n -> 0 < d < 10 ^ 9 -> positiveFmod n d = n mod d.
Proof.
  unfold representableTime. intros Hn Hd. unfold positiveFmod, fmod.
  pose proof (Z.rem_bound_abs n d ltac:(lia)).
  pose proof (Z.quot_rem n d ltac:(lia)) as Hq. destruct (Z.ltb_spec (Z.rem n d) 0).
  - rewrite fl_exact by lia. apply (Z.mod_unique_pos n d (Z.quot n d - 1)); lia.
  - apply (Z.mod_unique_pos n d (Z.quot n d)); lia.
Qed.

Lemma setDateInternal_spec ms t :
  representableTime ms ->
  exists y m d, dateOfMs ms = Some (y, m, d) /\
    setMillisecondsSinceEpochForDateInternal ms t = Some (withDate y m d t, Some ()).
Proof.
  intros Hms. destruct (msToYear_spec ms Hms) as (y & Hy & _ & Hb). pose proof (dayInYearOfMs_spec ms y Hms Hb) as Hd.
  unfold dateOfMs, setMillisecondsSinceEpochForDateInternal. rewrite Hy. autorewrite with dc.
  cbn [mbind option_bind]. rewrite Hd. autorewrite with dc. cbn [mbind option_bind]. do 3 eexists. split; reflexivity.
Qed.

Lemma setDateInternal_valid t0 t :
  validDateOf t = true -> firstDay <= dayOf t <= lastDay -> forall r, 0 <= r < msPerDay ->
  setMillisecondsSinceEpochForDateInternal (dayOf t * msPerDay + r) t0
  = Some (withDate (m_year t) (m_month t) (m_monthDay t) t0, Some ()).
Proof.
  unfold dayOf. intros Hv Hr r Hrr.
  assert (representableTime (dayNumber (m_year t) (m_month t) (m_monthDay t) * msPerDay + r)) as Hms.
  { unfold representableTime, firstDay, lastDay in *. change msPerDay with 86400000 in *. lia. }
  destruct (setDateInternal_spec _ t0 Hms) as (y & m & d & He & ->).
  rewrite (dateOfMs_dayNumber _ _ _ r Hv Hrr Hms) in He. by injection He as <- <- <-.
Qed.

Lemma setMidnightInternal_valid t0 h mi s ms :
  validTime h mi s ms = true ->
  setMillisecondsSinceMidnightInternal (timeOfDay h mi s ms) t0 = Some (set_time h mi s ms t0, Some ()).
Proof.
  intros Ht. pose proof (timeOfDay_range _ _ _ _ Ht) as Hr. apply validTime_spec in Ht as (Hh & Hmi & Hs & Hms).
  unfold setMillisecondsSinceMidnightInternal. set (n := timeOfDay h mi s ms) in *.
  rewrite bind_ASSERT, (proj2 (andb_true_iff _ _)) by (rewrite Z.leb_le, Z.ltb_lt; lia). change msPerDay with 86400000 in Hr.
  unfold msPerSecond, secondsPerMinute, minutesPerHour, fmod. rewrite (floorDivide_exact n) by lia.
  rewrite (floorDivide_exact (n / 1000)) by lia. rewrite floorDivide_exact by lia.
  assert (Z.rem n 1000 = ms /\ Z.rem (n / 1000) 60 = s /\ Z.rem (n / 1000 / 60) 60 = mi /\ n / 1000 / 60 / 60 = h) as (-> & -> & -> & ->).
  { unfold n, timeOfDay. split_and!; lia. }
  rewrite !static_cast_int_Some by (unfold is_i32, INT_MIN, INT_MAX; lia). by autorewrite with dc.
Qed.

Lemma setDateTime_valid t0 t :
  validDateOf t = true -> validTimeOf t = true -> firstMs <= dateTimeMs t <= lastMs ->
  setMillisecondsSinceEpochForDateTime (Finite (dateTimeMs t) 0) t0
  = Some (set_type DateTime (withDate (m_year t) (m_month t) (m_monthDay t)
            (set_time (m_hour t) (m_minute t) (m_second t) (m_millisecond t) (set_type Invalid t0))), Some ()).
Proof.
  intros Hv Ht Hms. pose proof (within_date_of_ms t Ht Hms) as Hr. pose proof (timeOfDay_range _ _ _ _ Ht) as Htr.
  unfold setMillisecondsSinceEpochForDateTime. autorewrite with dc. rewrite round_integer.
  assert (representableTime (dateTimeMs t)) as Hrep by (unfold representableTime, firstMs, lastMs, firstDay, lastDay in *; change msPerDay with 86400000 in *; lia).
  rewrite positiveFmod_spec by (done || by vm_compute).
  assert (dateTimeMs t mod msPerDay = timeMs t) as ->.
  { unfold dateTimeMs, dateMs. rewrite Z.add_comm, Z.mod_add by done. by apply Z.mod_small. }
  rewrite (bind_run _ _ _ _ _ (setMidnightInternal_valid _ _ _ _ _ Ht)).
  rewrite (bind_run _ _ _ _ _ (setDateInternal_valid _ t Hv Hr (timeMs t) Htr)). autorewrite with dc.
  unfold withinLimits. cbn [m_year m_month m_monthDay m_hour m_minute m_second m_millisecond set_time withDate set_monthDay set_month set_year].
  rewrite within_spec by (done || unfold dayOf in Hr; lia). by rewrite bool_decide_eq_true_2.
Qed.

(** ** Weeks *)

(** The Monday of a week lies in the week's year, or, for the first week, in
    the last days of the year before. *)
Lemma week_year t y :
  m_type t = Week -> valid t = true ->
  let D := weekStart (m_year t) + (m_week t - 1) * 7 in
  yearStart y <= D < yearStart (y + 1) ->
  y = m_year t \/ (y = m_year t - 1 /\ m_week t = 1 /\ minimumYear < m_year t).
Proof.
  intros Hty Hv D Hin. destruct (valid_Week t Hty Hv) as (Hy & Hw & _). unfold minimumYear in *.
  destruct (weekDay_bounds t Hty Hv) as [Hb Hlast]. fold D in Hb.
  pose proof (weekStart_spec (m_year t) ltac:(lia)) as [_ H1]. pose proof (weekStart_spec (m_year t + 1) ltac:(lia)) as [_ H2].
  destruct (decide (yearStart (m_year t) <= D)).
  - left. apply (yearStart_inj D); [done|]. lia.
  - right. pose proof (yearStart_mono (m_year t - 1) (m_year t) ltac:(lia)).
    assert (y = m_year t - 1) as Hy' by (apply (yearStart_inj D); [done|]; replace (m_year t - 1 + 1) with (m_year t) by lia; lia).
    split_and!; [done|lia|]. destruct (decide (m_year t = 1)) as [E|]; [|lia].
    unfold D in *. rewrite E in *. change (weekStart 1) with (yearStart 1) in *. lia.
Qed.

Lemma maxWeek_year t t' : m_year t = m_year t' -> maxWeekNumberInYear t = maxWeekNumberInYear t'.
Proof. unfold maxWeekNumberInYear. by intros ->. Qed.

(** The year and week that [setMillisecondsSinceEpochForWeek] finds for the
    Monday of a valid week. *)
Lemma setWeek_valid t0 t :
  m_type t = Week -> valid t = true ->
  exists t', setMillisecondsSinceEpochForWeek (Finite (msOf t) 0) t0 = Some (t', Some ()) /\ sameValue t' t.
Proof.
  intros Hty Hv. destruct (valid_Week t Hty Hv) as (Hy & Hw & Hmax). destruct (weekDay_bounds t Hty Hv) as [Hb Hlast].
  unfold msOf. rewrite Hty. pose proof (week_year t) as Hyear. cbn zeta in Hyear.
  set (D := weekStart (m_year t) + (m_week t - 1) * 7) in *.
  assert (representableTime (D * msPerDay)) as Hrep by (unfold representableTime, firstDay, lastDay in *; change msPerDay with 86400000; lia).
  assert (D * msPerDay / msPerDay = D) as HD by (by apply Z.div_mul).
  destruct (msToYear_spec _ Hrep) as (y & Hyr & Hin & Hyb). pose proof (dayInYearOfMs_spec _ y Hrep Hyb) as Hdy.
  rewrite HD in Hin, Hdy. specialize (Hyear y Hty Hv Hin). unfold minimumYear in Hy.
  unfold setMillisecondsSinceEpochForWeek. autorewrite with dc. rewrite round_integer, Hyr. autorewrite with dc.
  rewrite Hdy. autorewrite with dc. unfold minimumYear in *.
  rewrite (proj2 (negb_true_iff _)) by (apply orb_false_iff; rewrite !Z.ltb_ge; lia).
  destruct Hyear as [-> | (-> & Hw1 & Hmin)].
  - rewrite (proj2 (Z.ltb_ge (D - _) _)) by (unfold D, weekStart; lia).
    replace (Z.quot _ 7 + 1) with (m_week t) by (unfold D, weekStart; lia).
    eexists. split; [etransitivity; [apply bind_run; autorewrite with dc|reflexivity]|].
    + rewrite (maxWeek_year _ t) by done. rewrite (proj2 (Z.ltb_ge _ (m_week t))) by lia. autorewrite with dc.
      cbn [m_year m_week set_week set_year set_type].
      unfold require. rewrite (proj2 (negb_true_iff _)); [done|]. apply orb_false_iff. split; [apply Z.ltb_ge; lia|].
      apply andb_false_iff. rewrite Z.eqb_neq, Z.ltb_ge. lia.
    + unfold sameValue, components. rewrite Hty. done.
  - pose proof (maxWeekNumberInYear_spec (set_year (m_year t - 1) t)) as Hprev. cbn [m_year set_year] in Hprev.
    replace (m_year t - 1 + 1) with (m_year t) in * by lia. specialize (Hprev ltac:(lia)).
    pose proof (maxWeekNumberInYear_range (set_year (m_year t - 1) t)).
    assert (D = weekStart (m_year t)) as -> by (unfold D; lia).
    rewrite (proj2 (Z.ltb_ge (weekStart _ - _) _)) by (unfold weekStart in *; lia).
    replace (Z.quot _ 7 + 1) with (maxWeekNumberInYear (set_year (m_year t - 1) t) + 1) by (unfold weekStart in *; lia).
    eexists. split; [etransitivity; [apply bind_run; autorewrite with dc|reflexivity]|].
    + rewrite (maxWeek_year _ (set_year (m_year t - 1) t)) by done.
      rewrite (proj2 (Z.ltb_lt (maxWeekNumberInYear _) _)) by lia. autorewrite with dc.
      cbn [m_year m_week set_week set_year set_type]. replace (m_year t - 1 + 1) with (m_year t) by lia.
      unfold require. rewrite (proj2 (negb_true_iff _)); [done|]. apply orb_false_iff. split; [apply Z.ltb_ge; lia|].
      apply andb_false_iff. right. done.
    + unfold sameValue, components. rewrite Hty, Hw1. cbn. done.
Qed.

(** ** The other types *)

Lemma setDate_valid t0 t :
  m_type t = Date -> valid t = true ->
  exists t', setMillisecondsSinceEpochForDate (Finite (msOf t) 0) t0 = Some (t', Some ()) /\ sameValue t' t.
Proof.
  intros Hty Hv. destruct (valid_Date t Hty Hv) as [Hd Hr]. unfold msOf. rewrite Hty.
  destruct (dayNumber_last_month _ _ _ Hd ltac:(unfold dayOf in Hr; lia)) as [Hy Hmax].
  unfold setMillisecondsSinceEpochForDate. autorewrite with dc. rewrite round_integer.
  unfold dateMs. fold (dayOf t). rewrite <- (Z.add_0_r (dayOf t * msPerDay)).
  rewrite (bind_run _ _ _ _ _ (setDateInternal_valid _ t Hd Hr 0 ltac:(done))). autorewrite with dc.
  cbn [m_year m_month m_monthDay withDate set_monthDay set_month set_year set_type].
  rewrite within_date_spec, bool_decide_eq_true_2 by done. eexists. split; [reflexivity|].
  unfold sameValue, components. by rewrite Hty.
Qed.

Lemma setDateTime_sameValue t0 t :
  m_type t = DateTime -> valid t = true ->
  exists t', setMillisecondsSinceEpochForDateTime (Finite (msOf t) 0) t0 = Some (t', Some ()) /\ sameValue t' t.
Proof.
  intros Hty Hv. destruct (valid_DateTime t (or_introl Hty) Hv) as (Hd & Ht & Hms & _). unfold msOf. rewrite Hty.
  eexists. split; [by apply setDateTime_valid|]. unfold sameValue, components. by rewrite Hty.
Qed.

Lemma setDateTimeLocal_sameValue t0 t :
  m_type t = DateTimeLocal -> valid t = true ->
  exists t', setMillisecondsSinceEpochForDateTimeLocal (Finite (msOf t) 0) t0 = Some (t', Some ()) /\ sameValue t' t.
Proof.
  intros Hty Hv. destruct (valid_DateTime t (or_intror Hty) Hv) as (Hd & Ht & Hms & _). unfold msOf. rewrite Hty.
  unfold setMillisecondsSinceEpochForDateTimeLocal.
  rewrite (bind_run _ _ _ _ _ (setDateTime_valid t0 t Hd Ht Hms)). eexists. split; [reflexivity|].
  unfold sameValue, components. by rewrite Hty.
Qed.

Lemma setTime_valid t0 t :
  m_type t = Time -> valid t = true ->
  exists t', setMillisecondsSinceMidnight (Finite (msOf t) 0) t0 = Some (t', Some ()) /\ sameValue t' t.
Proof.
  intros Hty Hv. unfold valid in Hv. rewrite Hty in Hv. unfold msOf. rewrite Hty.
  pose proof (timeOfDay_range _ _ _ _ Hv) as Hr. fold (timeMs t) in Hr.
  unfold setMillisecondsSinceMidnight. autorewrite with dc. rewrite round_integer.
  change msPerDay with 86400000 in *. rewrite positiveFmod_spec by (unfold representableTime; lia).
  rewrite Z.mod_small by done. unfold timeMs. rewrite (bind_run _ _ _ _ _ (setMidnightInternal_valid _ _ _ _ _ Hv)).
  eexists. split; [reflexivity|]. unfold sameValue, components. by rewrite Hty.
Qed.

Lemma within_month_valid y m : validMonth y m = true -> withinHTMLDateLimits_month y m = true.
Proof.
  intros (Hy & Hm & Hmax)%validMonth_spec. unfold withinHTMLDateLimits_month. rewrite (proj2 (Z.ltb_ge y _)) by lia.
  destruct (Z.ltb_spec y maximumYear); [done|]. apply Z.leb_le. lia.
Qed.

Lemma setMonth_valid t0 t :
  m_type t = Month -> valid t = true ->
  exists t', setMillisecondsSinceEpochForMonth (Finite (msOf t) 0) t0 = Some (t', Some ()) /\ sameValue t' t.
Proof.
  intros Hty Hv. unfold valid in Hv. rewrite Hty in Hv. unfold msOf. rewrite Hty.
  pose proof Hv as (Hy & Hm & Hmax)%validMonth_spec. set (y := m_year t) in *. set (m := m_month t) in *.
  assert (validDateOf (withDate y m 1 t) = true) as Hd.
  { apply validDate_spec. cbn. pose proof (monthStart_range y m Hm). lia. }
  assert (firstDay <= dayOf (withDate y m 1 t) <= lastDay) as Hr.
  { pose proof (within_date_spec y m 1 Hd ltac:(lia) Hmax) as Hw. unfold withinHTMLDateLimits_date in Hw.
    rewrite (proj2 (Z.ltb_ge y minimumYear)) in Hw by lia. symmetry in Hw. repeat case_match; by apply bool_decide_eq_true in Hw. }
  unfold setMillisecondsSinceEpochForMonth. autorewrite with dc. rewrite round_integer.
  change (dayNumber y m 1) with (dayOf (withDate y m 1 t)). rewrite <- (Z.add_0_r (_ * msPerDay)).
  rewrite (bind_run _ _ _ _ _ (setDateInternal_valid _ _ Hd Hr 0 ltac:(done))). autorewrite with dc.
  cbn [m_year m_month m_monthDay withDate set_monthDay set_month set_year set_type].
  rewrite within_month_valid by done. eexists. split; [reflexivity|].
  unfold sameValue, components. rewrite Hty. done.
Qed.

Lemma setMonths_valid t0 t :
  m_type t = Month -> valid t = true ->
  exists n t', monthsSinceEpoch t = Some n /\ setMonthsSinceEpoch (Finite n 0) t0 = Some (t', Some ()) /\ sameValue t' t.
Proof.
  intros Hty Hv. unfold valid in Hv. rewrite Hty in Hv. unfold monthsSinceEpoch. rewrite Hty.
  pose proof Hv as (Hy & Hm & Hmax)%validMonth_spec. set (y := m_year t) in *. set (m := m_month t) in *.
  assert (1 <= y <= 275760) as Hy' by (unfold minimumYear, maximumYear in Hy; lia).
  exists ((y - 1970) * 12 + m). unfold setMonthsSinceEpoch. rewrite round_integer.
  rewrite positiveFmod_spec by (done || unfold representableTime; lia).
  replace (((y - 1970) * 12 + m) mod 12) with m by lia.
  rewrite (fl_exact (_ - m)) by lia. rewrite floorDivide_exact by lia.
  replace (((y - 1970) * 12 + m - m) / 12) with (y - 1970) by lia. rewrite fl_exact by lia.
  replace (1970 + (y - 1970)) with y by lia. autorewrite with dc.
  rewrite (proj2 (negb_true_iff _)) by (apply orb_false_iff; rewrite !Z.ltb_ge; lia).
  rewrite !static_cast_int_Some by (unfold is_i32, INT_MIN, INT_MAX; lia). autorewrite with dc.
  rewrite within_month_valid by done. eexists. split; [reflexivity|]. split; [reflexivity|].
  unfold sameValue, components. rewrite Hty. done.
Qed.
