(* ===== verification/DateInputTypes.v ===== *)
(** * DateInputTypes: the date and time input elements

    Translated from src/Source/WebCore/html/BaseDateAndTimeInputType.cpp and
    its subclasses.  The virtual functions of the base class are the class
    [DateInputType]; what the base class relies on is [DateInputTypeLaws]; the
    six subclasses are its instances.  The value of the element is an
    argument; a [Decimal] that is a whole number is a [Z]; a step in
    milliseconds is an integer.  [None] is a fault. *)

From S2P Require Import Prelude Double DateMath DateMathCorrect DateComponents DateComponentsAdd DateComponentsParse DateComponentsPrint DateComponentsMs.
Import DateMath DateComponents.

(** The virtual functions that differ between the subclasses. *)
Class DateInputType := {
  dateType : DateType;
  parseToDateComponentsInternal : list Z -> Z -> M ();
  setMillisecondToDateComponents : double -> M ();
  (** The number [parseToNumber] takes from the components. *)
  componentsToNumber : DateComponents -> option Z;
  (** How [serializeWithMilliseconds] sets the components. *)
  setMillisecondsForDate : double -> M ()
}.

Module BaseDateAndTimeInputType.

Section Base.

Context `{DateInputType}.

Definition msecPerMinute : Z := 60 * 1000.
Definition msecPerSecond : Z := 1000.

(** [Some None]: the source does not parse. *)
Definition parseToDateComponents (source : list Z) : option (option DateComponents) :=
  match source with
  | [] => Some None
  | _ =>
      match parseToDateComponentsInternal source (Z.of_nat (length source)) emptyDateComponents with
      | Some (date, Some _) => Some (Some date)
      | Some (_, None) => Some None
      | None => None
      end
  end.

Definition typeMismatchFor (value : list Z) : option bool :=
  match value with
  | [] => Some false
  | _ => r ← parseToDateComponents value; Some (match r with Some _ => false | None => true end)
  end.

Definition sanitizeValue (proposedValue : list Z) : option (list Z) :=
  mismatch ← typeMismatchFor proposedValue;
  Some (if (mismatch : bool) then [] else proposedValue).

Definition parseToNumber (source : list Z) (defaultValue : Z) : option Z :=
  r ← parseToDateComponents source;
  match r with
  | None => Some defaultValue
  | Some date => componentsToNumber date
  end.

(** [step] is the allowed value step, if there is one. *)
Definition serializeWithComponents (step : option Z) (date : DateComponents) : option (list Z) :=
  match step with
  | None => toString None_ date
  | Some step =>
      if Z.rem step msecPerMinute =? 0 then toString None_ date
      else if Z.rem step msecPerSecond =? 0 then toString Second date
      else toString Millisecond date
  end.

Definition serializeFrom (set : double -> M ()) (step : option Z) (value : double) : option (list Z) :=
  match value with
  | Finite _ _ =>
      match set value emptyDateComponents with
      | None => None
      | Some (_, None) => Some []
      | Some (date, Some _) => serializeWithComponents step date
      end
  | _ => Some []
  end.

Definition serialize : option Z -> double -> option (list Z) := serializeFrom setMillisecondToDateComponents.

Definition serializeWithMilliseconds : option Z -> double -> option (list Z) := serializeFrom setMillisecondsForDate.

(** [valueAsDate]: [Some None] is not a number. *)
Definition valueAsDate (value : list Z) : option (option Z) :=
  r ← parseToDateComponents value;
  match r with
  | None => Some None
  | Some date => ms ← millisecondsSinceEpoch date; Some (Some ms)
  end.

Definition valueMissing (required : bool) (value : list Z) : bool :=
  required && match value with [] => true | _ => false end.

End Base.

End BaseDateAndTimeInputType.

(** ** The subclasses *)

Module DateInputTypes.

(** [out->parse...(characters, length, 0, end) && end == length]. *)
Definition parseAll (parse : list Z -> Z -> Z -> M Z) (characters : list Z) (length : Z) : M () :=
  end_ ← parse characters length 0;
  require (end_ =? length).

(** A subclass from its type, parser and setters. *)
Definition subclass (type : DateType) (parse : list Z -> Z -> Z -> M Z) (set : double -> M ()) : DateInputType := {|
  dateType := type;
  parseToDateComponentsInternal := parseAll parse;
  setMillisecondToDateComponents := set;
  componentsToNumber := millisecondsSinceEpoch;
  setMillisecondsForDate := set
|}.

Definition dateInputType : DateInputType := subclass Date parseDate setMillisecondsSinceEpochForDate.
Definition dateTimeInputType : DateInputType := subclass DateTime parseDateTime setMillisecondsSinceEpochForDateTime.
Definition dateTimeLocalInputType : DateInputType :=
  subclass DateTimeLocal parseDateTimeLocal setMillisecondsSinceEpochForDateTimeLocal.
Definition timeInputType : DateInputType := subclass Time parseTime setMillisecondsSinceMidnight.
Definition weekInputType : DateInputType := subclass Week parseWeek setMillisecondsSinceEpochForWeek.

(** [MonthInputType] overrides [parseToNumber] and [serializeWithMilliseconds]. *)
Definition monthInputType : DateInputType := {|
  dateType := Month;
  parseToDateComponentsInternal := parseAll parseMonth;
  setMillisecondToDateComponents := setMonthsSinceEpoch;
  componentsToNumber := monthsSinceEpoch;
  setMillisecondsForDate := setMillisecondsSinceEpochForMonth
|}.

(** The input element of a type; there is none for [Invalid]. *)
Definition inputType (type : DateType) : option DateInputType :=
  match type with
  | Date => Some dateInputType
  | DateTime => Some dateTimeInputType
  | DateTimeLocal => Some dateTimeLocalInputType
  | Month => Some monthInputType
  | Time => Some timeInputType
  | Week => Some weekInputType
  | Invalid => None
  end.

End DateInputTypes.

(** ** What the base class relies on *)

(** Texts whose length fits the [unsigned] arithmetic of the parsers. *)
Definition shortText (s : list Z) : Prop := Z.of_nat (length s) + 4 < 2 ^ 32.

Class DateInputTypeLaws (I : DateInputType) : Prop := {
  (** Parsing does not fault and accepts only valid values of the type. *)
  parse_valid s t : shortText s ->
    exists t' r, parseToDateComponentsInternal s (Z.of_nat (length s)) t = Some (t', r) /\
      (r = Some () -> m_type t' = dateType /\ valid t' = true);
  (** A printed value parses to the value. *)
  parse_printed format t t0 : valid t = true -> m_type t = dateType ->
    exists s, toString format t = Some s /\ s <> [] /\ shortText s /\
      exists t', parseToDateComponentsInternal s (Z.of_nat (length s)) t0 = Some (t', Some ()) /\ sameValue t' t;
  (** The number of a value sets the value. *)
  set_number t t0 : valid t = true -> m_type t = dateType ->
    exists n t', componentsToNumber t = Some n /\
      setMillisecondToDateComponents (Finite n 0) t0 = Some (t', Some ()) /\ sameValue t' t;
  (** The time of a value sets the value. *)
  set_milliseconds t t0 : valid t = true -> m_type t = dateType ->
    exists ms t', millisecondsSinceEpoch t = Some ms /\
      setMillisecondsForDate (Finite ms 0) t0 = Some (t', Some ()) /\ sameValue t' t
}.
