(* ===== verification/DateInputTypesProperties.v ===== *)
(** * DateInputTypesProperties: what the date and time inputs promise

    The properties of the base class for every input type, the meaning of a
    time zone, and the limits that [setMillisecondsSinceEpochForDate] does not
    enforce. *)

From S2P Require Import Prelude ASCIICType Double DateMath DateMathCorrect DateComponents DateComponentsAdd DateComponentsParse DateComponentsPrint DateComponentsMs DateInputTypes.

(** * The six input types keep the laws of the base class *)

Import DateMath DateComponents DateInputTypes BaseDateAndTimeInputType.

(** ** The printed texts *)

Lemma toStringForTime_text format t :
  isTimeType (m_type t) = true ->
  toStringForTime format t =
  Some (format0 2 (m_hour t) ++ chr ":" :: format0 2 (m_minute t) ++ secondsText format (m_second t) (m_millisecond t)).
Proof.
  intros Hty. unfold toStringForTime. rewrite Hty. cbn [guard mbind option_bind]. unfold secondsText.
  destruct (m_millisecond t =? 0), format, (m_second t =? 0); cbn [negb];
    rewrite ?app_nil_r; cbn [app]; reflexivity.
Qed.

(** The length of a printed number. *)
Lemma format0_length w n k :
  0 <= n < 10 ^ k -> (0 < w)%nat -> Z.of_nat w <= k -> Z.of_nat (length (format0 w n)) <= k.
Proof. intros Hn Hw Hk. destruct (format0_spec w n) as (_ & _ & _ & H); [lia..|]. apply H; lia. Qed.

Lemma secondsText_length format s ms :
  0 <= s <= 59 -> 0 <= ms <= 999 -> Z.of_nat (length (secondsText format s ms)) <= 7.
Proof.
  intros Hs Hms. pose proof (format0_length 2 s 2 ltac:(lia) ltac:(lia) ltac:(lia)).
  pose proof (format0_length 3 ms 3 ltac:(lia) ltac:(lia) ltac:(lia)).
  unfold secondsText. destruct (ms =? 0), format, (s =? 0); cbn [negb length]; rewrite ?length_app; cbn [length]; lia.
Qed.

Lemma format0_nonempty w n s : 0 <= n -> (0 < w)%nat -> format0 w n ++ s <> [].
Proof.
  intros Hn Hw E. destruct (format0_spec w n Hn Hw) as (_ & _ & Hl & _).
  apply app_nil in E as [E _]. rewrite E in Hl. cbn in Hl. lia.
Qed.

(** A parser that reads back a printed text, on the whole of it. *)
Lemma parseAll_reads parse s t0 t' :
  (exists j, parse s (Z.of_nat (length s)) 0 t0 = Some (t', Some j) /\ suffixAt s j []) ->
  parseAll parse s (Z.of_nat (length s)) t0 = Some (t', Some ()).
Proof.
  intros (j & Hp & Hj). unfold parseAll. rewrite (bind_run _ _ _ _ _ Hp).
  pose proof (suffixAt_bounds s _ _ Hj) as [_ H]. cbn in H. unfold require.
  by rewrite (proj2 (Z.eqb_eq j _)) by lia.
Qed.

Lemma suffixAt_all s : suffixAt s 0 s.
Proof. by exists []. Qed.

Lemma suffixAt_whole s s' : s = s' -> suffixAt s 0 s'.
Proof. intros <-. apply suffixAt_all. Qed.

Section Printed.

Context (format : SecondFormat) (t t0 : DateComponents).

(** The statement of [parse_printed] for a parser. *)
Definition Printed (parse : list Z -> Z -> Z -> M Z) : Prop :=
  exists s, toString format t = Some s /\ s <> [] /\ shortText s /\
    exists t', parseAll parse s (Z.of_nat (length s)) t0 = Some (t', Some ()) /\ sameValue t' t.

Lemma printed_intro parse s t' :
  toString format t = Some s -> s <> [] -> Z.of_nat (length s) <= 40 -> sameValue t' t ->
  (shortText s -> exists j, parse s (Z.of_nat (length s)) 0 t0 = Some (t', Some j) /\ suffixAt s j []) ->
  Printed parse.
Proof using Type.
  intros Hs Hne Hl Hsame Hp. exists s. split; [done|]. split; [done|].
  assert (shortText s) as Hshort by (unfold shortText; lia). split; [done|].
  exists t'. split; [|done]. apply parseAll_reads. by apply Hp.
Qed.

(** The bounds of the fields of a valid date, and the text of the date. *)
Lemma date_fields :
  validDateOf t = true -> firstDay <= dayOf t <= lastDay ->
  (1 <= m_year t <= 275760 /\ 0 <= m_month t <= 11 /\ 1 <= m_monthDay t <= 31) /\
  Z.of_nat (length (format0 4 (m_year t))) <= 6 /\ Z.of_nat (length (format0 2 (m_month t + 1))) <= 2 /\
  Z.of_nat (length (format0 2 (m_monthDay t))) <= 2.
Proof using Type.
  intros Hd Hr. pose proof (validDate_year t Hd Hr) as Hy. unfold minimumYear, maximumYear in Hy.
  pose proof Hd as [Hm Hmd]%validDate_spec. pose proof (monthStart_range (m_year t) (m_month t) Hm) as (_ & Hml & _).
  split; [lia|]. split_and!; apply format0_length; lia.
Qed.

Lemma printed_Date : m_type t = Date -> valid t = true -> Printed parseDate.
Proof using Type.
  intros Hty Hv. destruct (valid_Date t Hty Hv) as [Hd Hr]. destruct (date_fields Hd Hr) as [Hf Hl].
  eapply printed_intro; [unfold toString; rewrite Hty; reflexivity|apply format0_nonempty; lia| | |].
  - rewrite !length_app. cbn [length]. lia.
  - instantiate (1 := set_type Date (withDate (m_year t) (m_month t) (m_monthDay t) t0)).
    unfold sameValue, components. by rewrite Hty.
  - intros Hs. apply parseDate_reads; [done| |done..]. apply suffixAt_whole. by rewrite app_nil_r.
Qed.

Lemma printed_Month : m_type t = Month -> valid t = true -> Printed parseMonth.
Proof using Type.
  intros Hty Hv. unfold valid in Hv. rewrite Hty in Hv. pose proof Hv as (Hy & Hm & _)%validMonth_spec.
  unfold minimumYear, maximumYear in Hy.
  pose proof (format0_length 4 (m_year t) 6 ltac:(lia) ltac:(lia) ltac:(lia)).
  pose proof (format0_length 2 (m_month t + 1) 2 ltac:(lia) ltac:(lia) ltac:(lia)).
  eapply printed_intro; [unfold toString; rewrite Hty; reflexivity|apply format0_nonempty; lia| | |].
  - rewrite !length_app. cbn [length]. lia.
  - instantiate (1 := set_type Month (set_month (m_month t) (set_year (m_year t) t0))).
    unfold sameValue, components. by rewrite Hty.
  - intros Hs. apply parseMonth_reads; [done| |done]. apply suffixAt_whole. by rewrite app_nil_r.
Qed.

Lemma printed_Week : m_type t = Week -> valid t = true -> Printed parseWeek.
Proof using Type.
  intros Hty Hv. destruct (valid_Week t Hty Hv) as (Hy & Hw & _). unfold minimumYear, maximumYear in Hy.
  pose proof (maxWeekNumberInYear_range t).
  pose proof (format0_length 4 (m_year t) 6 ltac:(lia) ltac:(lia) ltac:(lia)).
  pose proof (format0_length 2 (m_week t) 2 ltac:(lia) ltac:(lia) ltac:(lia)).
  eapply printed_intro; [unfold toString; rewrite Hty; reflexivity|apply format0_nonempty; lia| | |].
  - rewrite !length_app. cbn [length]. lia.
  - instantiate (1 := set_type Week (set_week (m_week t) (set_year (m_year t) t0))).
    unfold sameValue, components. by rewrite Hty.
  - intros Hs. apply parseWeek_reads; [done| |]; [apply suffixAt_whole; by rewrite app_nil_r|].
    unfold valid in Hv. rewrite Hty in Hv. exact Hv.
Qed.

Lemma printed_Time : m_type t = Time -> valid t = true -> Printed parseTime.
Proof using Type.
  intros Hty Hv. unfold valid in Hv. rewrite Hty in Hv. pose proof Hv as (Hh & Hmi & Hs & Hms)%validTime_spec.
  pose proof (format0_length 2 (m_hour t) 2 ltac:(lia) ltac:(lia) ltac:(lia)).
  pose proof (format0_length 2 (m_minute t) 2 ltac:(lia) ltac:(lia) ltac:(lia)).
  pose proof (secondsText_length format (m_second t) (m_millisecond t) Hs Hms).
  eapply printed_intro; [unfold toString; rewrite Hty; apply toStringForTime_text; by rewrite Hty|apply format0_nonempty; lia| | |].
  - rewrite !length_app. cbn [length]. rewrite length_app. lia.
  - instantiate (1 := set_type Time (set_time (m_hour t) (m_minute t) (m_second t) (m_millisecond t) t0)).
    unfold sameValue, components. by rewrite Hty.
  - intros Hshort. apply (parseTime_reads _ Hshort 0 _ _ _ _ format); [|exact I|done].
    apply suffixAt_whole. by rewrite app_nil_r.
Qed.

(** The text of a date and time before the time zone. *)
Definition dateTimeText : list Z :=
  format0 4 (m_year t) ++ chr "-" :: format0 2 (m_month t + 1) ++ chr "-" :: format0 2 (m_monthDay t) ++ chr "T" ::
  format0 2 (m_hour t) ++ chr ":" :: format0 2 (m_minute t) ++ secondsText format (m_second t) (m_millisecond t).

Lemma dateTimeText_app tail :
  dateTimeText ++ tail =
  format0 4 (m_year t) ++ chr "-" :: format0 2 (m_month t + 1) ++ chr "-" :: format0 2 (m_monthDay t) ++ chr "T" ::
  format0 2 (m_hour t) ++ chr ":" :: format0 2 (m_minute t) ++ secondsText format (m_second t) (m_millisecond t) ++ tail.
Proof using Type. unfold dateTimeText. by repeat (rewrite <- app_assoc; cbn [app]). Qed.

Lemma toString_dateTime tail :
  isTimeType (m_type t) = true ->
  (time ← toStringForTime format t;
   Some ((format0 4 (m_year t) ++ [chr "-"] ++ format0 2 (m_month t + 1) ++ [chr "-"] ++ format0 2 (m_monthDay t))
         ++ [chr "T"] ++ time ++ tail)) = Some (dateTimeText ++ tail).
Proof using Type.
  intros Hty. rewrite toStringForTime_text by done. cbn [mbind option_bind]. rewrite dateTimeText_app.
  by repeat (rewrite <- app_assoc; cbn [app]).
Qed.

(** The bounds of the text, and its date and time parsed. *)
Lemma dateTime_parse tail :
  validDateOf t = true -> validTimeOf t = true -> firstDay <= dayOf t <= lastDay -> quiet tail -> (length tail <= 6)%nat ->
  dateTimeText ++ tail <> [] /\ Z.of_nat (length (dateTimeText ++ tail)) <= 40 /\
  let s := dateTimeText ++ tail in
  let L := Z.of_nat (length s) in
  shortText s ->
  exists i j, parseDate s L 0 t0 = Some (set_type Date (withDate (m_year t) (m_month t) (m_monthDay t) t0), Some i) /\
    (forall (k : () -> M Z) u, (expect s L i (chr "T") ≫= k) u = k () u) /\
    (forall u, parseTime s L (i + 1) u =
       Some (set_type Time (set_time (m_hour t) (m_minute t) (m_second t) (m_millisecond t) u), Some j)) /\
    suffixAt s j tail.
Proof using Type.
  intros Hd Ht Hr Hq Htl. destruct (date_fields Hd Hr) as [Hf Hl]. pose proof Ht as (Hh & Hmi & Hs & Hms)%validTime_spec.
  pose proof (format0_length 2 (m_hour t) 2 ltac:(lia) ltac:(lia) ltac:(lia)).
  pose proof (format0_length 2 (m_minute t) 2 ltac:(lia) ltac:(lia) ltac:(lia)).
  pose proof (secondsText_length format (m_second t) (m_millisecond t) Hs Hms).
  rewrite dateTimeText_app. split; [apply format0_nonempty; lia|].
  split; [repeat (rewrite ?length_app; cbn [length]); lia|]. cbn zeta. intros Hshort.
  match goal with |- exists i j, parseDate ?x _ _ _ = _ /\ _ => pose proof (suffixAt_all x) as Hall; set (s := x) in * end.
  destruct (parseDate_reads s Hshort 0 _ _ _ _ t0 Hall Hd Hr) as (i & Hp & Hi).
  pose proof (suffixAt_cons s _ _ _ Hi) as Hi1.
  destruct (parseTime_reads s Hshort (i + 1) _ _ _ _ format tail t0 Hi1 Hq Ht) as (j & _ & Hj).
  exists i, j. split; [done|]. split; [intros k u; by apply (expect_reads s i _ _ k u Hi)|]. split; [|done].
  intros u. destruct (parseTime_reads s Hshort (i + 1) _ _ _ _ format tail u Hi1 Hq Ht) as (j' & Hp' & Hj').
  rewrite Hp'. pose proof (suffixAt_bounds s _ _ Hj) as [_ E1]. pose proof (suffixAt_bounds s _ _ Hj') as [_ E2].
  do 3 f_equal. lia.
Qed.

(** The object after the date and the time. *)
Definition parsedDateTime (type : DateType) : DateComponents :=
  set_type type (set_time (m_hour t) (m_minute t) (m_second t) (m_millisecond t)
    (set_type Date (withDate (m_year t) (m_month t) (m_monthDay t) t0))).

Lemma parsedDateTime_within :
  validDateOf t = true -> validTimeOf t = true -> firstMs <= dateTimeMs t <= lastMs -> firstDay <= dayOf t <= lastDay ->
  withinLimits (parsedDateTime Time) = true.
Proof using Type.
  intros Hd Ht Hms Hr. unfold withinLimits, parsedDateTime.
  cbn [m_year m_month m_monthDay m_hour m_minute m_second m_millisecond set_time withDate set_monthDay set_month set_year set_type].
  rewrite within_spec by (done || unfold dayOf in Hr; lia). by rewrite bool_decide_eq_true_2.
Qed.

Lemma printed_DateTimeLocal : m_type t = DateTimeLocal -> valid t = true -> Printed parseDateTimeLocal.
Proof using Type.
  intros Hty Hv. destruct (valid_DateTime t (or_intror Hty) Hv) as (Hd & Ht & Hms & Hr).
  destruct (dateTime_parse [] Hd Ht Hr I ltac:(cbn; lia)) as (Hne & Hlen & Hp).
  eapply (printed_intro parseDateTimeLocal (dateTimeText ++ []) (parsedDateTime DateTimeLocal)); [|done|done| |].
  - unfold toString. rewrite Hty. rewrite <- (toString_dateTime []) by (by rewrite Hty).
    destruct (toStringForTime format t); [|done]. cbn [mbind option_bind]. by rewrite app_nil_r.
  - unfold sameValue, components. by rewrite Hty.
  - intros Hs. destruct (Hp Hs) as (i & j & H1 & H2 & H3 & H4). exists j. split; [|done].
    unfold parseDateTimeLocal. rewrite (bind_run _ _ _ _ _ H1), H2, (bind_run _ _ _ _ _ (H3 _)). autorewrite with dc.
    fold (parsedDateTime Time). by rewrite parsedDateTime_within.
Qed.

Lemma printed_DateTime : m_type t = DateTime -> valid t = true -> Printed parseDateTime.
Proof using Type.
  intros Hty Hv. destruct (valid_DateTime t (or_introl Hty) Hv) as (Hd & Ht & Hms & Hr).
  destruct (dateTime_parse [chr "Z"] Hd Ht Hr ltac:(by left) ltac:(cbn; lia)) as (Hne & Hlen & Hp).
  eapply (printed_intro parseDateTime (dateTimeText ++ [chr "Z"]) (parsedDateTime DateTime)); [|done|done| |].
  - unfold toString. rewrite Hty. apply toString_dateTime. by rewrite Hty.
  - unfold sameValue, components. by rewrite Hty.
  - intros Hs. destruct (Hp Hs) as (i & j & H1 & H2 & H3 & H4). exists (j + 1).
    split; [|by apply suffixAt_cons in H4].
    unfold parseDateTime. rewrite (bind_run _ _ _ _ _ H1), H2, (bind_run _ _ _ _ _ (H3 _)).
    pose proof (suffixAt_bounds _ _ _ H4) as [_ Hj]. cbn [length] in Hj.
    rewrite (bind_run _ _ _ (parsedDateTime Time) (j + 1)).
    + autorewrite with dc. by rewrite parsedDateTime_within.
    + unfold parseTimeZone. autorewrite with dc. rewrite (proj2 (Z.ltb_lt j _)) by lia.
      by rewrite (at_suffix _ _ _ _ H4).
Qed.

End Printed.

(** ** The laws *)

(** The specification of a parser of type [type] in [wp]. *)
Definition ParsesTo (type : DateType) (parse : list Z -> Z -> Z -> M Z) : Prop :=
  forall s t, shortText s ->
    wp (parse s (Z.of_nat (length s)) 0) t
       (fun e t' => m_type t' = type /\ (e = Z.of_nat (length s) -> valid t' = true)).

Lemma parsesTo_valid type parse s t :
  ParsesTo type parse -> shortText s ->
  exists t' r, parseAll parse s (Z.of_nat (length s)) t = Some (t', r) /\ (r = Some () -> m_type t' = type /\ valid t' = true).
Proof.
  intros Hp Hs. specialize (Hp s t Hs). unfold wp in Hp. unfold parseAll, mbind, M_bind.
  destruct (parse s _ 0 t) as [[t' [e|]]|]; [|by exists t', None|done]. destruct Hp as [Hty Hv]. unfold require.
  destruct (Z.eqb_spec e (Z.of_nat (length s))); [exists t', (Some ())|exists t', None]; (split; [done|]); auto. done.
Qed.

Ltac parses_to lem :=
  intros s t Hs; eapply wp_mono; [apply (lem s Hs 0 t); lia|]; cbn beta.

Lemma parsesTo_Date : ParsesTo Date parseDate.
Proof.
  parses_to parseDate_wp. intros e t' (_ & y & m & d & Hv & Hd & ->). split; [done|]. intros _.
  unfold valid, validDateOf, dayOf. cbn. rewrite Hv. cbn [andb]. rewrite andb_true_iff, !Z.leb_le. done.
Qed.
Lemma parsesTo_Month : ParsesTo Month parseMonth.
Proof. parses_to parseMonth_wp. intros e t' (_ & y & m & Hv & ->). by split. Qed.
Lemma parsesTo_Week : ParsesTo Week parseWeek.
Proof. parses_to parseWeek_wp. intros e t' (_ & Hty & Hv). split; [done|]. unfold valid. by rewrite Hty. Qed.
Lemma parsesTo_Time : ParsesTo Time parseTime.
Proof.
  parses_to parseTime_wp. intros e t' (_ & h & mi & sec & ms & Ht & ->). split; [done|]. intros ->.
  apply (ParsedTime_valid s _ _ _ _ _ Ht). lia.
Qed.
Lemma parsesTo_DateTimeLocal : ParsesTo DateTimeLocal parseDateTimeLocal.
Proof. parses_to parseDateTimeLocal_wp. intros e t' (_ & Hty & Hv). by split. Qed.
Lemma parsesTo_DateTime : ParsesTo DateTime parseDateTime.
Proof. parses_to parseDateTime_wp. intros e t' (_ & Hty & Hv). by split. Qed.

(** What a setter must do with the number of a value. *)
Definition SetsFrom (type : DateType) (set : double -> M ()) : Prop :=
  forall t t0, m_type t = type -> valid t = true ->
    exists t', set (Finite (msOf t) 0) t0 = Some (t', Some ()) /\ sameValue t' t.

Lemma subclass_laws type parse set :
  ParsesTo type parse ->
  (forall format t t0, m_type t = type -> valid t = true -> Printed format t t0 parse) ->
  SetsFrom type set -> DateInputTypeLaws (subclass type parse set).
Proof.
  intros Hparse Hprint Hset.
  assert (forall t t0, valid t = true -> m_type t = type -> exists ms t', millisecondsSinceEpoch t = Some ms /\
            set (Finite ms 0) t0 = Some (t', Some ()) /\ sameValue t' t) as Hnum.
  { intros t t0 Hv Hty. destruct (Hset t t0 Hty Hv) as (t' & He & Hs). exists (msOf t), t'.
    split; [by apply millisecondsSinceEpoch_spec|done]. }
  split; cbn [dateType parseToDateComponentsInternal subclass componentsToNumber setMillisecondToDateComponents setMillisecondsForDate].
  - intros s t Hs. by apply parsesTo_valid.
  - intros format t t0 Hv Hty. by apply Hprint.
  - exact Hnum.
  - exact Hnum.
Qed.

#[export] Instance dateInputType_laws : DateInputTypeLaws dateInputType.
Proof. apply subclass_laws; [exact parsesTo_Date|intros; by apply printed_Date|intros t t0; apply setDate_valid]. Qed.
#[export] Instance dateTimeInputType_laws : DateInputTypeLaws dateTimeInputType.
Proof. apply subclass_laws; [exact parsesTo_DateTime|intros; by apply printed_DateTime|intros t t0; apply setDateTime_sameValue]. Qed.
#[export] Instance dateTimeLocalInputType_laws : DateInputTypeLaws dateTimeLocalInputType.
Proof.
  apply subclass_laws; [exact parsesTo_DateTimeLocal|intros; by apply printed_DateTimeLocal|intros t t0; apply setDateTimeLocal_sameValue].
Qed.
#[export] Instance timeInputType_laws : DateInputTypeLaws timeInputType.
Proof. apply subclass_laws; [exact parsesTo_Time|intros; by apply printed_Time|intros t t0; apply setTime_valid]. Qed.
#[export] Instance weekInputType_laws : DateInputTypeLaws weekInputType.
Proof. apply subclass_laws; [exact parsesTo_Week|intros; by apply printed_Week|intros t t0; apply setWeek_valid]. Qed.
#[export] Instance monthInputType_laws : DateInputTypeLaws monthInputType.
Proof.
  split; cbn [dateType parseToDateComponentsInternal monthInputType componentsToNumber setMillisecondToDateComponents setMillisecondsForDate].
  - intros s t Hs. apply parsesTo_valid; [exact parsesTo_Month|done].
  - intros format t t0 Hv Hty. by apply printed_Month.
  - intros t t0 Hv Hty. by apply setMonths_valid.
  - intros t t0 Hv Hty. destruct (setMonth_valid t0 t Hty Hv) as (t' & He & Hs). exists (msOf t), t'.
    split; [by apply millisecondsSinceEpoch_spec|done].
Qed.

Lemma inputType_laws type I : inputType type = Some I -> DateInputTypeLaws I /\ @dateType I = type.
Proof. destruct type; intros [= <-]; split; (exact _ || reflexivity). Qed.

(** * What the date and time inputs promise *)

Import DateMath DateComponents DateInputTypes BaseDateAndTimeInputType.

(** ** Objects with the same value *)

Lemma sameValue_fields t t' :
  sameValue t t' ->
  m_type t = m_type t' /\
  match m_type t' with
  | Date => m_year t = m_year t' /\ m_month t = m_month t' /\ m_monthDay t = m_monthDay t'
  | DateTime | DateTimeLocal =>
      m_year t = m_year t' /\ m_month t = m_month t' /\ m_monthDay t = m_monthDay t' /\ m_hour t = m_hour t' /\
      m_minute t = m_minute t' /\ m_second t = m_second t' /\ m_millisecond t = m_millisecond t'
  | Month => m_year t = m_year t' /\ m_month t = m_month t'
  | Time => m_hour t = m_hour t' /\ m_minute t = m_minute t' /\ m_second t = m_second t' /\ m_millisecond t = m_millisecond t'
  | Week => m_year t = m_year t' /\ m_week t = m_week t'
  | Invalid => True
  end.
Proof.
  intros [Hty Hc]. split; [done|]. unfold components in Hc. rewrite Hty in Hc.
  destruct (m_type t'); [done|injection Hc; tauto..].
Qed.

(** The operations that read the value see no difference. *)
Lemma sameValue_toString format t t' : sameValue t t' -> toString format t = toString format t'.
Proof.
  intros [Hty Hf]%sameValue_fields. unfold toString, toStringForTime. rewrite Hty.
  destruct (m_type t'); [done|by destruct_and! Hf; repeat match goal with H : _ = _ |- _ => rewrite H; clear H end..].
Qed.

Lemma sameValue_milliseconds t t' : sameValue t t' -> millisecondsSinceEpoch t = millisecondsSinceEpoch t'.
Proof.
  intros [Hty Hf]%sameValue_fields. unfold millisecondsSinceEpoch, millisecondsSinceEpochForTime. rewrite Hty.
  destruct (m_type t'); [done|by destruct_and! Hf; repeat match goal with H : _ = _ |- _ => rewrite H; clear H end..].
Qed.

Lemma sameValue_months t t' : sameValue t t' -> monthsSinceEpoch t = monthsSinceEpoch t'.
Proof.
  intros [Hty Hf]%sameValue_fields. unfold monthsSinceEpoch. rewrite Hty.
  destruct (m_type t'); try done. by destruct Hf as [-> ->].
Qed.

(** ** The base class *)

Section Base.

Context (I : DateInputType) `{!DateInputTypeLaws I}.

Lemma parseToDateComponents_spec s :
  shortText s ->
  exists r, parseToDateComponents s = Some r /\ (forall t, r = Some t -> m_type t = dateType /\ valid t = true).
Proof using All.
  intros Hs. unfold parseToDateComponents. destruct s as [|c s]; [by exists None|].
  destruct (parse_valid (c :: s) emptyDateComponents Hs) as (t' & r & -> & Hr).
  destruct r as [[]|]; [exists (Some t')|exists None]; (split; [done|]); intros t [= <-]. auto.
Qed.

Lemma serializeWithComponents_format step t : exists format, serializeWithComponents step t = toString format t.
Proof using Type. unfold serializeWithComponents. destruct step; repeat case_match; eauto. Qed.

Lemma serialize_parse step t :
  valid t = true -> m_type t = dateType ->
  exists s t', serializeWithComponents step t = Some s /\ parseToDateComponents s = Some (Some t') /\ sameValue t' t.
Proof using All.
  intros Hv Hty. destruct (serializeWithComponents_format step t) as [format ->].
  destruct (parse_printed format t emptyDateComponents Hv Hty) as (s & Hs & Hne & _ & t' & Hp & Hsame).
  exists s, t'. split; [done|]. split; [|done]. unfold parseToDateComponents. rewrite Hp. by destruct s.
Qed.

Lemma serializeWithComponents_sameValue step t t' :
  sameValue t t' -> serializeWithComponents step t = serializeWithComponents step t'.
Proof using Type.
  intros Hs. unfold serializeWithComponents. destruct step; repeat case_match; by apply sameValue_toString.
Qed.

End Base.

(** The numbers that the input types read are the same for the same value. *)
Lemma componentsToNumber_sameValue type I t t' :
  inputType type = Some I -> sameValue t t' -> componentsToNumber t = componentsToNumber t'.
Proof.
  intros HI Hs. destruct type; [discriminate HI|injection HI as <-..]; first [by apply sameValue_milliseconds|by apply sameValue_months].
Qed.



(** C16: Printing and parsing: the text that an input type serialises valid
    components to, with any step, parses to components with the same value. *)
Theorem serializeWithComponents_roundtrip type I step t :
  inputType type = Some I -> m_type t = type -> valid t = true ->
  exists s t', serializeWithComponents step t = Some s /\ parseToDateComponents s = Some (Some t') /\
    m_type t' = type /\ components t' = components t.
Proof.
  intros HI Ht Hv. destruct (inputType_laws type I HI) as [Hlaws Hty]. rewrite <- Hty in Ht.
  destruct (serialize_parse I step t Hv Ht) as (s & t' & H1 & H2 & H3 & H4). exists s, t'.
  split_and!; [done|done|congruence|done].
Qed.

Lemma serializeWithComponents_roundtrip_witness :
  exists s t', serializeWithComponents (Some 1000) (mkDateComponents 0 0 30 12 0 0 0 0 Time) = Some s /\
    @parseToDateComponents timeInputType s = Some (Some t') /\ s = chrs "12:30:00".
Proof.
  destruct (serializeWithComponents_roundtrip Time timeInputType (Some 1000) (mkDateComponents 0 0 30 12 0 0 0 0 Time)
              eq_refl eq_refl eq_refl) as (s & t' & H1 & H2 & _).
  exists s, t'. split_and!; [exact H1|exact H2|]. vm_compute in H1. congruence.
Defined.



(** ** Time zones *)

Lemma parseTimeZone_reads s i (minus : bool) h mi u :
  shortText s -> suffixAt s i ((if minus then chr "-" else chr "+") :: format0 2 h ++ chr ":" :: format0 2 mi) ->
  0 <= h <= 23 -> 0 <= mi <= 59 ->
  let offset := if minus then - (h * 60 + mi) else h * 60 + mi in
  parseTimeZone s (Z.of_nat (length s)) i u = (addMinute (- offset) ≫= fun _ => mret (Z.of_nat (length s))) u.
Proof.
  intros Hs Hi Hh Hmi offset. pose proof (suffixAt_bounds s _ _ Hi) as [H0 H1]. cbn [length] in H1.
  pose proof (suffixAt_cons s _ _ _ Hi) as Hi1. unfold parseTimeZone. rewrite bind_require, (proj2 (Z.ltb_lt i _)) by lia.
  rewrite (at_suffix s _ _ _ Hi), bind_lift.
  replace (_ =? 90) with false by (by destruct minus). 
  rewrite (bind_run _ _ u u minus) by (by destruct minus).
  rewrite (toIntWithin_format0 s Hs (i + 1) 2 h 0 23 _ _ _ Hi1) by lia.
  destruct (toInt_format0 s Hs (i + 1) 2 h _ Hi1 ltac:(lia) ltac:(lia)) as [_ Hi2]. change (Z.of_nat 2) with 2 in *.
  rewrite (expect_reads s _ _ _ _ _ Hi2). apply suffixAt_cons in Hi2. rewrite <- (app_nil_r (format0 2 mi)) in Hi2.
  rewrite (toIntWithin_format0 s Hs _ 2 mi 0 59 _ _ _ Hi2) by lia.
  destruct (toInt_format0 s Hs _ 2 mi _ Hi2 ltac:(lia) ltac:(lia)) as [_ Hi3]. change (Z.of_nat 2) with 2 in *.
  pose proof (suffixAt_bounds s _ _ Hi3) as [_ Hend]. cbn [length] in Hend. rewrite Z.add_0_r in Hend. rewrite Hend.
  unfold offset. destruct minus; [|done]. by replace (- h * 60 + - mi) with (- (h * 60 + mi)) by lia.
Qed.

(** C18: Time zones: the text of a local date and time followed by an offset
    [+hh:mm] or [-hh:mm] parses to the same instant in UTC, the local time less
    the offset, when that lies between 0001-01-01T00:00Z and
    275760-09-13T00:00Z, and is refused otherwise. *)
Theorem parseDateTime_offset format t t0 (minus : bool) h mi :
  validDateOf t = true -> validTimeOf t = true -> firstDay <= dayOf t <= lastDay -> 0 <= h <= 23 -> 0 <= mi <= 59 ->
  let offset := if minus then - (h * 60 + mi) else h * 60 + mi in
  let s := dateTimeText format t ++ (if minus then chr "-" else chr "+") :: format0 2 h ++ chr ":" :: format0 2 mi in
  let utc := dateTimeMs t - offset * msPerMinute in
  exists t', parseDateTime s (Z.of_nat (length s)) 0 t0
             = Some (t', if bool_decide (firstMs <= utc <= lastMs) then Some (Z.of_nat (length s)) else None) /\
    (firstMs <= utc <= lastMs -> m_type t' = DateTime /\ valid t' = true /\ millisecondsSinceEpoch t' = Some utc).
Proof.
  intros Hd Ht Hr Hh Hmi offset s utc.
  pose proof (format0_length 2 h 2 ltac:(lia) ltac:(lia) ltac:(lia)). pose proof (format0_length 2 mi 2 ltac:(lia) ltac:(lia) ltac:(lia)).
  set (tail := (if minus then chr "-" else chr "+") :: format0 2 h ++ chr ":" :: format0 2 mi) in *.
  destruct (dateTime_parse format t t0 tail Hd Ht Hr) as (_ & Hlen & Hp).
  { unfold tail. cbn. destruct minus; auto. }
  { unfold tail. cbn [length]. rewrite length_app. cbn [length]. lia. }
  fold s in Hlen, Hp. assert (shortText s) as Hs by (unfold shortText; lia). cbn zeta in Hp.
  destruct (Hp Hs) as (i & j & H1 & H2 & H3 & H4). unfold parseDateTime.
  rewrite (bind_run _ _ _ _ _ H1), H2, (bind_run _ _ _ _ _ (H3 _)). fold (parsedDateTime t t0 Time).
  set (u := parsedDateTime t t0 Time).
  unfold mbind at 1, M_bind. rewrite (parseTimeZone_reads s j minus h mi u Hs H4 Hh Hmi). fold offset.
  destruct (addMinute_spec (- offset) u) as (t' & He & Hin); [unfold offset; destruct minus; lia|done..|].
  change (dateTimeMs u) with (dateTimeMs t) in *. replace (dateTimeMs t + - offset * msPerMinute) with utc in * by (unfold utc; lia).
  unfold mbind at 1, M_bind. rewrite He. case_bool_decide as Hb; [|by exists t'].
  destruct (Hin Hb) as (Hv' & Ht' & Hms' & _). cbn [mret M_ret]. autorewrite with dc.
  pose proof (within_date_of_ms t' Ht' ltac:(lia)) as Hr'.
  assert (withinLimits t' = true) as ->.
  { unfold withinLimits. rewrite within_spec by (done || unfold dayOf in Hr'; lia).
    apply bool_decide_eq_true_2. change (firstMs <= dateTimeMs t' <= lastMs). lia. }
  exists (set_type DateTime t'). split; [done|]. intros _. split; [done|].
  assert (valid (set_type DateTime t') = true) as Hv.
  { unfold valid. cbn [m_type set_type]. change (validDateOf (set_type DateTime t')) with (validDateOf t').
    change (validTimeOf (set_type DateTime t')) with (validTimeOf t'). change (dateTimeMs (set_type DateTime t')) with (dateTimeMs t').
    rewrite Hv', Ht', Hms'. cbn [andb]. by rewrite andb_true_iff, !Z.leb_le. }
  split; [done|]. rewrite millisecondsSinceEpoch_spec by done. change (msOf (set_type DateTime t')) with (dateTimeMs t'). congruence.
Qed.

Lemma parseDateTime_offset_witness :
  let t := mkDateComponents 0 0 30 0 1 0 2011 0 Invalid in
  exists t', parseDateTime (chrs "2011-01-01T00:30+01:00") 22 0 emptyDateComponents = Some (t', Some 22) /\
    millisecondsSinceEpoch t' = Some (dateTimeMs t - 60 * msPerMinute).
Proof.
  intros t.
  destruct (parseDateTime_offset None_ t emptyDateComponents false 1 0 eq_refl eq_refl ltac:(vm_compute; split; discriminate)
              ltac:(lia) ltac:(lia)) as (t' & He & Hv).
  exists t'. split; [exact He|]. apply Hv. vm_compute. split; discriminate.
Defined.

(** ** Limits *)

(** The limits are not enforced beyond the last year: the test for the
    largest date compares the month and the day without the year, so the time
    of any representable date after year 275760 in January to August is
    accepted, with components that are not valid. *)
Theorem setMillisecondsSinceEpochForDate_beyond_limit t t0 :
  validDateOf t = true -> maximumYear < m_year t -> m_month t < maximumMonthInMaximumYear ->
  representableTime (dateMs t) ->
  exists t', setMillisecondsSinceEpochForDate (Finite (dateMs t) 0) t0 = Some (t', Some ()) /\
    m_type t' = Date /\ m_year t' = m_year t /\ valid t' = false.
Proof.
  intros Hd Hy Hm Hrep. unfold setMillisecondsSinceEpochForDate. autorewrite with dc. rewrite round_integer.
  destruct (setDateInternal_spec _ (set_type Invalid t0) Hrep) as (y & m & d & He & Hset).
  unfold dateMs in He. rewrite <- (Z.add_0_r (_ * msPerDay)) in He. unfold dateMs in Hrep.
  rewrite dateOfMs_dayNumber in He by (done || by rewrite Z.add_0_r). injection He as <- <- <-.
  rewrite (bind_run _ _ _ _ _ Hset). autorewrite with dc.
  cbn [m_year m_month m_monthDay withDate set_monthDay set_month set_year set_type].
  unfold withinHTMLDateLimits_date. unfold minimumYear, maximumYear in *. rewrite (proj2 (Z.ltb_ge (m_year t) 1)), (proj2 (Z.ltb_ge (m_year t) _)),
    (proj2 (Z.ltb_lt (m_month t) _)) by lia.
  eexists. split; [reflexivity|]. split; [done|]. split; [done|]. unfold valid, dayOf. cbn.
  apply andb_false_iff. right. apply Z.leb_gt. pose proof (dayNumber_year _ _ _ Hd) as Hyear.
  pose proof (yearStart_le 275761 (m_year t) ltac:(lia)) as Hle. change (yearStart 275761) with 100000110 in Hle.
  unfold lastDay. lia.
Qed.

Lemma setMillisecondsSinceEpochForDate_beyond_limit_witness :
  exists t', setMillisecondsSinceEpochForDate (Finite 8999999942400000 0) emptyDateComponents = Some (t', Some ()) /\
    m_year t' = 287168 /\ valid t' = false.
Proof.
  destruct (setMillisecondsSinceEpochForDate_beyond_limit (mkDateComponents 0 0 0 0 24 7 287168 0 Date) emptyDateComponents
              eq_refl eq_refl eq_refl ltac:(vm_compute; split; discriminate)) as (t' & He & _ & Hy & Hv).
  exists t'. split; [exact He|]. split; [exact Hy|exact Hv].
Defined.

(** The seconds of a time that the parser refuses stay in the object: of
    "12:34:75" the parser takes "12:34" and keeps the 75. *)
Lemma parseTime_keeps_seconds :
  exists t, parseTime (chrs "12:34:75") 8 0 emptyDateComponents = Some (t, Some 5) /\ m_second t = 75.
Proof. eexists. split; [by vm_compute|done]. Qed.
