(* ===== verification/WebBackForwardList.v ===== *)
(** * WebBackForwardList: the session history of a page

    Translated from src/Source/WebKit/UIProcess/WebBackForwardList.cpp.  An
    operation that changes the list takes the list and returns it with the
    calls it made on the page, in order; [None] is a failed assertion, a read
    outside the vector or a call on a null page.  The answers of the page's
    client, [shouldKeepCurrentBackForwardListItemInList], are an argument. *)

From S2P Require Import Prelude.

Module WebBackForwardList.

(** The state of an item that is saved with a session; the page state is
    opaque here. *)
Record BackForwardListItemState := mkItemState {
  identifier : Z;
  pageState : Z
}.

(** An item is an object: [address] tells items apart. *)
Record WebBackForwardListItem := mkItem {
  address : Z;
  itemState : BackForwardListItemState
}.

Definition itemID (item : WebBackForwardListItem) : Z := identifier (itemState item).

Record BackForwardListState := mkListState {
  items : list BackForwardListItemState;
  currentIndex : option Z
}.

Record WebBackForwardList := mkList {
  m_page : bool; (* not null *)
  m_entries : list WebBackForwardListItem;
  m_hasCurrentIndex : bool;
  m_currentIndex : Z;
  m_capacity : Z
}.

(** The calls on the page that others observe. *)
Inductive PageCall :=
  | recordAutomaticNavigationSnapshot
  | shouldKeepCurrentBackForwardListItemInList (item : WebBackForwardListItem)
  | backForwardRemovedItem (itemID : Z)
  | didChangeBackForwardList (added : option WebBackForwardListItem) (removed : list WebBackForwardListItem)
  | logBackNavigationDelta (delta : Z).

#[global] Instance BackForwardListItemState_eq_dec : EqDecision BackForwardListItemState.
Proof. solve_decision. Defined.
#[global] Instance WebBackForwardListItem_eq_dec : EqDecision WebBackForwardListItem.
Proof. solve_decision. Defined.

Definition DefaultCapacity : Z := 100.

(** The next identifier and the counter after it; identifiers made here are
    even. *)
Definition generateWebBackForwardItemID (uniqueHistoryItemID : Z) : Z := uniqueHistoryItemID + 2.

Definition create : WebBackForwardList := mkList true [] false 0 DefaultCapacity.

Definition size (t : WebBackForwardList) : Z := Z.of_nat (length (m_entries t)).

(** The assertion at the head of most operations. *)
Definition ASSERT_index (t : WebBackForwardList) : bool :=
  negb (m_hasCurrentIndex t) || (m_currentIndex t <? size t).

(** [m_entries[i]]. *)
Definition entry (t : WebBackForwardList) (i : Z) : option WebBackForwardListItem :=
  if i <? 0 then None else m_entries t !! Z.to_nat i.

Definition didRemoveItem (item : WebBackForwardListItem) : PageCall := backForwardRemovedItem (itemID item).

Definition pageClosed (t : WebBackForwardList) : option (WebBackForwardList * list PageCall) :=
  guard (m_page t);;
  Some (mkList false [] false (m_currentIndex t) (m_capacity t), didRemoveItem <$> m_entries t).

(** The loop that tosses the forward list: the entries that stay, those tossed
    in the order they are, and the calls. *)
Fixpoint tossForward (fuel : nat) (entries : list WebBackForwardListItem) (targetSize : Z)
    (removed : list WebBackForwardListItem) : list WebBackForwardListItem * list WebBackForwardListItem :=
  match fuel with
  | O => (entries, removed)
  | S fuel =>
      if targetSize <? Z.of_nat (length entries) then
        match last entries with
        | Some item => tossForward fuel (removelast entries) targetSize (removed ++ [item])
        | None => (entries, removed)
        end
      else (entries, removed)
  end.

(** The vector, the index and what was removed and called, in the course of
    [addItem]. *)
Record Adding := mkAdding {
  entries : list WebBackForwardListItem;
  hasIndex : bool;
  index : Z;
  removedItems : list WebBackForwardListItem;
  calls : list PageCall
}.

(** The first part of [addItem]: toss everything in the forward list, and the
    first item if the list is getting too big. *)
Definition makeRoom (t : WebBackForwardList) : option Adding :=
  if m_hasCurrentIndex t then
    let targetSize := m_currentIndex t + 1 in
    let '(entries, removed) := tossForward (length (m_entries t)) (m_entries t) targetSize [] in
    let calls := recordAutomaticNavigationSnapshot :: (didRemoveItem <$> removed) in
    if (Z.of_nat (length entries) =? m_capacity t) && (negb (m_currentIndex t =? 0) || (m_capacity t =? 1)) then
      match entries with
      | [] => None
      | first :: entries =>
          let calls := calls ++ [didRemoveItem first] in
          let removed := removed ++ [first] in
          match entries with
          | [] => Some (mkAdding entries false (m_currentIndex t) removed calls)
          | _ => Some (mkAdding entries true (m_currentIndex t - 1) removed calls)
          end
      end
    else Some (mkAdding entries true (m_currentIndex t) removed calls)
  else
    guard (bool_decide (m_entries t = []));;
    Some (mkAdding [] false (m_currentIndex t) [] []).

Section Client.

(** The client's answer, for the item it is asked about. *)
Context (shouldKeep : WebBackForwardListItem -> bool).

(** The second part: insert the item, or put it in the place of the current
    one. *)
Definition placeItem (newItem : WebBackForwardListItem) (a : Adding) : option Adding :=
  if negb (hasIndex a) then
    guard (bool_decide (entries a = []));;
    Some (mkAdding [newItem] true 0 (removedItems a) (calls a))
  else
    current ← (if index a <? 0 then None else entries a !! Z.to_nat (index a));
    let calls := calls a ++ [shouldKeepCurrentBackForwardListItemInList current] in
    if shouldKeep current then
      let index := index a + 1 in
      guard (bool_decide (index <= Z.of_nat (length (entries a))));;
      Some (mkAdding (take (Z.to_nat index) (entries a) ++ newItem :: drop (Z.to_nat index) (entries a))
              true index (removedItems a) calls)
    else
      Some (mkAdding (<[Z.to_nat (index a) := newItem]> (entries a)) true (index a) (removedItems a ++ [current]) calls).

Definition addItem (newItem : option WebBackForwardListItem) (t : WebBackForwardList)
    : option (WebBackForwardList * list PageCall) :=
  guard (ASSERT_index t);;
  match newItem with
  | None => Some (t, [])
  | Some newItem =>
      if (m_capacity t =? 0) || negb (m_page t) then Some (t, []) else
      a ← makeRoom t;
      a ← placeItem newItem a;
      Some (mkList true (entries a) (hasIndex a) (index a) (m_capacity t),
            calls a ++ [didChangeBackForwardList (Some newItem) (removedItems a)])
  end.

(** [m_entries.find(item)]. *)
Fixpoint find (entries : list WebBackForwardListItem) (item : WebBackForwardListItem) : option Z :=
  match entries with
  | [] => None
  | e :: entries => if address e =? address item then Some 0 else i ← find entries item; Some (i + 1)
  end.

Definition goToItem (item : option WebBackForwardListItem) (t : WebBackForwardList)
    : option (WebBackForwardList * list PageCall) :=
  guard (ASSERT_index t);;
  match item with
  | None => Some (t, [])
  | Some item =>
      if (size t =? 0) || negb (m_page t) || negb (m_hasCurrentIndex t) then Some (t, []) else
      match find (m_entries t) item with
      | None => Some (t, [])
      | Some targetIndex =>
          let calls := if targetIndex <? m_currentIndex t then [logBackNavigationDelta (size t - targetIndex - 1)] else [] in
          currentItem ← entry t (m_currentIndex t);
          let different := negb (address currentItem =? address item) in
          let calls := calls ++ (if different then [recordAutomaticNavigationSnapshot;
                                                    shouldKeepCurrentBackForwardListItemInList currentItem] else []) in
          if different && negb (shouldKeep currentItem) then
            let entries := take (Z.to_nat (m_currentIndex t)) (m_entries t) ++ drop (S (Z.to_nat (m_currentIndex t))) (m_entries t) in
            targetIndex ← find entries item;
            Some (mkList true entries true targetIndex (m_capacity t), calls ++ [didChangeBackForwardList None [currentItem]])
          else
            Some (mkList true (m_entries t) true targetIndex (m_capacity t), calls ++ [didChangeBackForwardList None []])
      end
  end.

End Client.

(** ** Queries *)

Definition currentItem (t : WebBackForwardList) : option (option WebBackForwardListItem) :=
  guard (ASSERT_index t);;
  if m_page t && m_hasCurrentIndex t then item ← entry t (m_currentIndex t); Some (Some item) else Some None.

Definition backItem (t : WebBackForwardList) : option (option WebBackForwardListItem) :=
  guard (ASSERT_index t);;
  if m_page t && m_hasCurrentIndex t && negb (m_currentIndex t =? 0)
  then item ← entry t (m_currentIndex t - 1); Some (Some item) else Some None.

Definition forwardItem (t : WebBackForwardList) : option (option WebBackForwardListItem) :=
  guard (ASSERT_index t);;
  if m_page t && m_hasCurrentIndex t && negb (size t =? 0) && (m_currentIndex t <? size t - 1)
  then item ← entry t (m_currentIndex t + 1); Some (Some item) else Some None.

Definition backListCount (t : WebBackForwardList) : option Z :=
  guard (ASSERT_index t);;
  Some (if m_page t && m_hasCurrentIndex t then i32 (m_currentIndex t) else 0).

Definition forwardListCount (t : WebBackForwardList) : option Z :=
  guard (ASSERT_index t);;
  Some (if m_page t && m_hasCurrentIndex t then i32 (size t - u32 (m_currentIndex t + 1)) else 0).

Definition itemAtIndex (index : Z) (t : WebBackForwardList) : option (option WebBackForwardListItem) :=
  guard (ASSERT_index t);;
  if negb (m_hasCurrentIndex t) || negb (m_page t) then Some None else
  back ← backListCount t;
  if index <? - back then Some None else
  forward ← forwardListCount t;
  if forward <? index then Some None else
  item ← entry t (u32 (index + m_currentIndex t));
  Some (Some item).

(** The entries from index [i] on, [n] of them. *)
Fixpoint collect (n : nat) (t : WebBackForwardList) (i : Z) : option (list WebBackForwardListItem) :=
  match n with
  | O => Some []
  | S n => item ← entry t i; rest ← collect n t (i + 1); Some (item :: rest)
  end.

Definition backListAsAPIArrayWithLimit (limit : Z) (t : WebBackForwardList) : option (list WebBackForwardListItem) :=
  guard (ASSERT_index t);;
  if negb (m_page t) || negb (m_hasCurrentIndex t) then Some [] else
  count ← backListCount t;
  let backListSize := u32 count in
  let size := Z.min backListSize limit in
  if size =? 0 then Some [] else
  guard (bool_decide (size <= backListSize));;
  collect (Z.to_nat size) t (backListSize - size).

Definition forwardListAsAPIArrayWithLimit (limit : Z) (t : WebBackForwardList) : option (list WebBackForwardListItem) :=
  guard (ASSERT_index t);;
  if negb (m_page t) || negb (m_hasCurrentIndex t) then Some [] else
  count ← forwardListCount t;
  let size' := Z.min (u32 count) limit in
  if size' =? 0 then Some [] else
  let last := u32 (m_currentIndex t + size') in
  guard (bool_decide (last < size t));;
  collect (Z.to_nat (last - m_currentIndex t)) t (m_currentIndex t + 1).

Definition backList (t : WebBackForwardList) : option (list WebBackForwardListItem) :=
  count ← backListCount t; backListAsAPIArrayWithLimit (u32 count) t.

Definition forwardList (t : WebBackForwardList) : option (list WebBackForwardListItem) :=
  count ← forwardListCount t; forwardListAsAPIArrayWithLimit (u32 count) t.

(** ** Clearing *)

Definition removeAllItems (t : WebBackForwardList) : option (WebBackForwardList * list PageCall) :=
  guard (ASSERT_index t);;
  guard (m_page t);;
  Some (mkList true [] false (m_currentIndex t) (m_capacity t),
        (didRemoveItem <$> m_entries t) ++ [didChangeBackForwardList None (m_entries t)]).

Definition clear (t : WebBackForwardList) : option (WebBackForwardList * list PageCall) :=
  guard (ASSERT_index t);;
  if negb (m_page t) || (size t <=? 1) then Some (t, []) else
  current ← currentItem t;
  match current with
  | None =>
      guard (negb (m_hasCurrentIndex t));;
      Some (mkList true [] false (m_currentIndex t) (m_capacity t),
            (didRemoveItem <$> m_entries t) ++ [didChangeBackForwardList None (m_entries t)])
  | Some currentItem =>
      let others := filter (fun item => address item <> address currentItem) (m_entries t) in
      let removedItems := take (Z.to_nat (m_currentIndex t)) (m_entries t) ++ drop (S (Z.to_nat (m_currentIndex t))) (m_entries t) in
      Some (mkList true [currentItem] true 0 (m_capacity t),
            (didRemoveItem <$> others) ++ [didChangeBackForwardList None removedItems])
  end.

(** ** Saving and restoring *)

(** The loop over the entries, [i] their index. *)
Fixpoint listState_loop (keep : WebBackForwardListItem -> bool) (entries : list WebBackForwardListItem) (i : Z)
    (state : BackForwardListState) : BackForwardListState :=
  match entries with
  | [] => state
  | entry :: entries =>
      let state :=
        if keep entry then mkListState (items state ++ [itemState entry]) (currentIndex state)
        else mkListState (items state)
               match currentIndex state with
               | Some c => Some (if (i <=? c) && negb (c =? 0) then c - 1 else c)
               | None => None
               end in
      listState_loop keep entries (i + 1) state
  end.

(** Without a filter, [keep] is always true. *)
Definition backForwardListState (keep : WebBackForwardListItem -> bool) (t : WebBackForwardList)
    : option BackForwardListState :=
  guard (ASSERT_index t);;
  let state := listState_loop keep (m_entries t) 0
                 (mkListState [] (if m_hasCurrentIndex t then Some (m_currentIndex t) else None)) in
  match items state with
  | [] => Some (mkListState [] None)
  | _ =>
      c ← currentIndex state;
      Some (if Z.of_nat (length (items state)) <=? c
            then mkListState (items state) (Some (Z.of_nat (length (items state)) - 1))
            else state)
  end.

(** The items made of the saved states, with fresh identifiers; [allocate]
    gives the address of the object with an identifier. *)
Fixpoint restoreItems (allocate : Z -> Z) (uniqueHistoryItemID : Z) (states : list BackForwardListItemState)
    : list WebBackForwardListItem * Z :=
  match states with
  | [] => ([], uniqueHistoryItemID)
  | s :: states =>
      let id := generateWebBackForwardItemID uniqueHistoryItemID in
      let (rest, last) := restoreItems allocate id states in
      (mkItem (allocate id) (mkItemState id (pageState s)) :: rest, last)
  end.

(** The list and the counter of identifiers afterwards. *)
Definition restoreFromState (allocate : Z -> Z) (uniqueHistoryItemID : Z) (state : BackForwardListState)
    (t : WebBackForwardList) : option (WebBackForwardList * Z) :=
  guard (m_page t || bool_decide (items state = []));;
  let '(entries, last) := restoreItems allocate uniqueHistoryItemID (items state) in
  Some (mkList (m_page t) entries (bool_decide (is_Some (currentIndex state))) (default 0 (currentIndex state)) (m_capacity t), last).

Definition itemStates (t : WebBackForwardList) : list BackForwardListItemState := itemState <$> m_entries t.

End WebBackForwardList.
