(* ===== verification/WebBackForwardListProperties.v ===== *)
(** * WebBackForwardListProperties: the properties of the session history

    Reachable lists are safe, the operations refine those on the zipper, the
    queries read the zipper, and saving and restoring keep the history; the
    current index of a filtered state can point to the wrong item. *)

From stdpp Require Import relations.
From S2P Require Import Prelude WebBackForwardList.

(** * The list as a zipper *)

Import WebBackForwardList.

(** ** The abstract history *)

Record History := mkHistory {
  back : list WebBackForwardListItem;
  current : WebBackForwardListItem;
  forward : list WebBackForwardListItem
}.

Definition allItems (h : History) : list WebBackForwardListItem := back h ++ current h :: forward h.

(** Adding an item drops the items ahead, and the oldest item when the list is
    full; the current item stays behind the new one if the client keeps it. *)
Definition push (keep : bool) (capacity : Z) (item : WebBackForwardListItem) (h : History) : History :=
  if capacity =? 1 then mkHistory [] item []
  else
    let b := if Z.of_nat (length (back h)) + 1 =? capacity then tail (back h) else back h in
    mkHistory (if keep then b ++ [current h] else b) item [].

(** What [push] drops. *)
Definition pushDropped (keep : bool) (capacity : Z) (h : History) : list WebBackForwardListItem :=
  reverse (forward h)
  ++ (if Z.of_nat (length (back h)) + 1 =? capacity then take 1 (back h ++ [current h]) else [])
  ++ (if (capacity =? 1) || keep then [] else [current h]).

(** The history a list represents. *)
Definition Represents (t : WebBackForwardList) (h : History) : Prop :=
  m_page t = true /\ m_hasCurrentIndex t = true /\ m_entries t = allItems h /\
  m_currentIndex t = Z.of_nat (length (back h)).

(** The invariant of the list: an index points into the entries, without an
    index or without a page there are no entries, and the list is not longer
    than its capacity. *)
Record Inv (t : WebBackForwardList) : Prop := {
  inv_history : (exists h, Represents t h) \/ (m_hasCurrentIndex t = false /\ m_entries t = []);
  inv_capacity : size t <= m_capacity t;
  inv_bound : 1 <= m_capacity t < 2 ^ 31
}.

Lemma Represents_size t h : Represents t h -> size t = Z.of_nat (length (back h)) + 1 + Z.of_nat (length (forward h)).
Proof. intros (_ & _ & E & _). unfold size. rewrite E. unfold allItems. rewrite length_app. cbn. lia. Qed.

Lemma Represents_ASSERT t h : Represents t h -> ASSERT_index t = true.
Proof.
  intros Hr. pose proof (Represents_size t h Hr) as Hs. destruct Hr as (_ & _ & _ & Hi).
  unfold ASSERT_index. apply orb_true_iff. right. apply Z.ltb_lt. lia.
Qed.

Lemma Inv_ASSERT t : Inv t -> ASSERT_index t = true.
Proof.
  intros [[[h Hr]|[Hh _]] _ _]; [by apply (Represents_ASSERT t h)|]. unfold ASSERT_index. by rewrite Hh.
Qed.

Lemma guard_true {A} (b : bool) (k : option A) : b = true -> (guard b;; k) = k.
Proof. by intros ->. Qed.

(** The entry at a position of the history. *)
Lemma entry_history t h i :
  Represents t h -> 0 <= i -> entry t i = allItems h !! Z.to_nat i.
Proof. intros (_ & _ & E & _) Hi. unfold entry. rewrite (proj2 (Z.ltb_ge i 0)) by done. by rewrite E. Qed.

Lemma allItems_current h : allItems h !! length (back h) = Some (current h).
Proof. unfold allItems. rewrite lookup_app_r, Nat.sub_diag by lia. done. Qed.

Lemma remove_current h :
  take (length (back h)) (allItems h) ++ drop (S (length (back h))) (allItems h) = back h ++ forward h.
Proof.
  unfold allItems. rewrite take_app_length. f_equal. replace (S (length (back h))) with (length (back h) + 1)%nat by lia.
  by rewrite drop_app_add.
Qed.

(** ** Adding *)

Lemma removelast_snoc {A} (l : list A) x : removelast (l ++ [x]) = l.
Proof. by rewrite removelast_last. Qed.

Lemma tossForward_spec fuel kept tossed removed :
  (length tossed <= fuel)%nat ->
  tossForward fuel (kept ++ tossed) (Z.of_nat (length kept)) removed = (kept, removed ++ reverse tossed).
Proof.
  revert tossed removed. induction fuel as [|fuel IH]; intros tossed removed Hf; cbn [tossForward].
  { destruct tossed; [|cbn in Hf; lia]. by rewrite !app_nil_r. }
  destruct tossed as [|x tossed _] using rev_ind.
  - rewrite !app_nil_r. by rewrite (proj2 (Z.ltb_ge _ _)) by lia.
  - rewrite length_app, (proj2 (Z.ltb_lt _ _)) by (rewrite length_app; cbn; lia).
    rewrite app_assoc, last_snoc, removelast_snoc, IH by (rewrite length_app in Hf; cbn in Hf; lia).
    by rewrite reverse_app, <- app_assoc.
Qed.

(** The item that goes when the list is full. *)
Definition tossedFirst (t : WebBackForwardList) (h : History) : list WebBackForwardListItem :=
  if Z.of_nat (length (back h)) + 1 =? m_capacity t then take 1 (back h ++ [current h]) else [].

(** The calls on the page when an item is added to a history. *)
Definition addCalls (keep : bool) (t : WebBackForwardList) (item : WebBackForwardListItem) (h : History) : list PageCall :=
  recordAutomaticNavigationSnapshot :: (didRemoveItem <$> reverse (forward h) ++ tossedFirst t h)
  ++ (if m_capacity t =? 1 then [] else [shouldKeepCurrentBackForwardListItemInList (current h)])
  ++ [didChangeBackForwardList (Some item) (pushDropped keep (m_capacity t) h)].

(** The list when the forward items and perhaps the first one are tossed. *)
Lemma makeRoom_history t h :
  Represents t h -> size t <= m_capacity t -> 1 <= m_capacity t ->
  let calls := recordAutomaticNavigationSnapshot :: (didRemoveItem <$> reverse (forward h) ++ tossedFirst t h) in
  let removed := reverse (forward h) ++ tossedFirst t h in
  if m_capacity t =? 1 then exists i, makeRoom t = Some (mkAdding [] false i removed calls)
  else let b := if Z.of_nat (length (back h)) + 1 =? m_capacity t then tail (back h) else back h in
       makeRoom t = Some (mkAdding (b ++ [current h]) true (Z.of_nat (length b)) removed calls).
Proof.
  intros Hr Hcap Hb. pose proof (Represents_size t h Hr) as Hs. destruct Hr as (Hp & Hh & He & Hi). cbn zeta.
  unfold makeRoom. rewrite Hh.
  assert (m_currentIndex t + 1 = Z.of_nat (length (back h ++ [current h]))) as Hts by (rewrite length_app, Hi; cbn; lia).
  assert (tossForward (length (m_entries t)) (m_entries t) (m_currentIndex t + 1) []
          = (back h ++ [current h], reverse (forward h))) as ->.
  { rewrite Hts, He. unfold allItems. rewrite (cons_middle (current h)), app_assoc.
    rewrite tossForward_spec by (rewrite !length_app; cbn; lia). done. }
  rewrite <- Hts, Hi.
  unfold tossedFirst.
  destruct (Z.eqb_spec (Z.of_nat (length (back h)) + 1) (m_capacity t)) as [Hfull|Hfull]; cbn [andb].
  - destruct (back h) as [|x b] eqn:Eb; cbn [length] in *.
    + rewrite (proj2 (Z.eqb_eq (m_capacity t) 1)) by lia. cbn. exists 0. by rewrite fmap_app.
    + rewrite (proj2 (Z.eqb_neq (m_capacity t) 1)) by lia. rewrite (proj2 (Z.eqb_neq (Z.of_nat (S (length b))) 0)) by lia.
      cbn [negb orb app take tail]. rewrite fmap_app.
      replace (Z.of_nat (S (length b)) - 1) with (Z.of_nat (length b)) by lia. by destruct b.
  - rewrite (proj2 (Z.eqb_neq (m_capacity t) 1)) by lia. by rewrite app_nil_r.
Qed.

Lemma addItem_history shouldKeep item t h :
  Represents t h -> size t <= m_capacity t -> 1 <= m_capacity t ->
  let keep := shouldKeep (current h) in
  exists t', addItem shouldKeep (Some item) t = Some (t', addCalls keep t item h) /\
    Represents t' (push keep (m_capacity t) item h) /\ m_capacity t' = m_capacity t.
Proof.
  intros Hr Hcap Hb keep. pose proof (makeRoom_history t h Hr Hcap Hb) as Hroom. cbn zeta in Hroom. unfold addItem.
  rewrite guard_true by (by apply (Represents_ASSERT t h)). destruct Hr as (Hp & Hh & He & Hi).
  rewrite Hp, (proj2 (Z.eqb_neq (m_capacity t) 0)) by lia. cbn [orb negb]. unfold addCalls, pushDropped, push.
  fold (tossedFirst t h). destruct (Z.eqb_spec (m_capacity t) 1) as [E1|E1].
  { destruct Hroom as [i ->]. cbn [mbind option_bind]. unfold placeItem. cbn [hasIndex negb entries].
    rewrite guard_true by (by apply bool_decide_eq_true_2). eexists. split; [cbn; by rewrite app_nil_r|].
    split; [|done]. split_and!; done. }
  rewrite Hroom. clear Hroom. set (b := if _ =? _ then tail (back h) else back h). cbn [mbind option_bind].
  unfold placeItem. cbn [hasIndex negb entries index removedItems calls].
  rewrite (proj2 (Z.ltb_ge (Z.of_nat (length b)) 0)), Nat2Z.id, lookup_app_r, Nat.sub_diag by lia. cbn [lookup list_lookup mbind option_bind orb].
  fold keep. destruct keep.
  - rewrite guard_true by (apply bool_decide_eq_true_2; rewrite length_app; cbn; lia). cbn [mbind option_bind].
    rewrite firstn_all2, skipn_all2 by (rewrite length_app; cbn; lia). cbn [entries hasIndex index removedItems calls].
    eexists. split; [rewrite app_nil_r; cbn; by rewrite <- (app_assoc (_ <$> _))|]. split; [|done]. split_and!; try done. cbn.
    rewrite length_app. cbn. lia.
  - rewrite insert_app_r_alt, Nat.sub_diag by lia. cbn.
    eexists. split; [by rewrite <- (app_assoc (_ <$> _)), <- (app_assoc (reverse _))|]. split; [|done]. split_and!; done.
Qed.

Lemma addItem_empty shouldKeep item t :
  m_page t = true -> m_hasCurrentIndex t = false -> m_entries t = [] -> 1 <= m_capacity t ->
  exists t', addItem shouldKeep (Some item) t = Some (t', [didChangeBackForwardList (Some item) []]) /\
    Represents t' (mkHistory [] item []) /\ m_capacity t' = m_capacity t.
Proof.
  intros Hp Hh He Hb. unfold addItem, ASSERT_index, makeRoom. rewrite Hh, Hp, He. cbn [negb orb].
  rewrite guard_true by done. rewrite (proj2 (Z.eqb_neq (m_capacity t) 0)) by lia. cbn. eexists. split; [done|].
  split; [|done]. split_and!; done.
Qed.

(** Everything that was in the list and the new item is in the new list or
    dropped. *)
Lemma push_permutation keep capacity item h :
  Z.of_nat (length (allItems h)) <= capacity ->
  Permutation (allItems h ++ [item]) (allItems (push keep capacity item h) ++ pushDropped keep capacity h).
Proof.
  destruct h as [b c f]. unfold allItems, push, pushDropped. cbn [back current forward]. rewrite length_app. cbn [length].
  intros Hcap. rewrite (Permutation_app_comm (reverse f)), reverse_Permutation.
  destruct (Z.eqb_spec capacity 1) as [->|]; cbn [orb].
  { destruct b; [|cbn in *; lia]. cbn. rewrite !app_nil_r. destruct f; [|cbn in *; lia].
    by apply Permutation_swap. }
  destruct (Z.eqb_spec (Z.of_nat (length b) + 1) capacity) as [Hfull|]; destruct keep; cbn [back current forward];
    try (destruct b as [|x b]; [cbn in Hfull; lia|]); cbn; rewrite <- ?app_assoc; cbn; solve_Permutation.
Qed.

(** ** Going to an item *)

Lemma find_Some l item i :
  find l item = Some i ->
  exists a x b, l = a ++ x :: b /\ i = Z.of_nat (length a) /\ address x = address item /\
    Forall (fun e => address e <> address item) a.
Proof.
  revert i. induction l as [|e l IH]; intros i; cbn [find]; [done|].
  destruct (Z.eqb_spec (address e) (address item)) as [He|He].
  - intros [= <-]. by exists [], e, l.
  - destruct (find l item) as [j|]; [|done]. intros [= <-].
    destruct (IH j eq_refl) as (a & x & b & -> & -> & Hx & Ha). exists (e :: a), x, b.
    split_and!; [done|cbn; lia|done|by constructor].
Qed.

Lemma find_Some_iff_In l item : is_Some (find l item) <-> Exists (fun e => address e = address item) l.
Proof.
  induction l as [|e l IH]; cbn [find].
  { split; [by intros [? [=]]|by intros ?%Exists_nil]. }
  rewrite Exists_cons. destruct (Z.eqb_spec (address e) (address item)) as [He|He]; [split; eauto|].
  destruct (find l item) as [j|]; cbn [mbind option_bind]; rewrite <- IH; [split; eauto|].
  split; [by intros [? [=]]|by intros [?|[? [=]]]].
Qed.

(** What [goToItem] does to a history: nothing when the item is not in it;
    else the item becomes current, and the item that was current stays unless
    it is another one that the client does not keep. *)
Definition WentTo (keep : bool) (item : WebBackForwardListItem) (h h' : History) : Prop :=
  address (current h') = address item /\ Forall (fun e => address e <> address item) (back h') /\
  allItems h' = if (address (current h) =? address item) || keep then allItems h else back h ++ forward h.

Definition wentToDropped (keep : bool) (item : WebBackForwardListItem) (h : History) : list WebBackForwardListItem :=
  if (address (current h) =? address item) || keep then [] else [current h].

Lemma history_at (l : list WebBackForwardListItem) item i :
  find l item = Some i ->
  exists h', allItems h' = l /\ i = Z.of_nat (length (back h')) /\ address (current h') = address item /\
    Forall (fun e => address e <> address item) (back h').
Proof.
  intros (a & x & b & -> & -> & Hx & Ha)%find_Some. by exists (mkHistory a x b).
Qed.

Lemma goToItem_history shouldKeep item t h :
  Represents t h -> Exists (fun e => address e = address item) (allItems h) ->
  let keep := shouldKeep (current h) in
  exists t' h' calls, goToItem shouldKeep (Some item) t = Some (t', calls) /\
    Represents t' h' /\ m_capacity t' = m_capacity t /\ WentTo keep item h h' /\
    last calls = Some (didChangeBackForwardList None (wentToDropped keep item h)).
Proof.
  intros Hr Hin keep. pose proof (Represents_size t h Hr) as Hs. unfold goToItem.
  rewrite guard_true by (by apply (Represents_ASSERT t h)).
  pose proof (entry_history t h (m_currentIndex t) Hr) as Hentry. destruct Hr as (Hp & Hh & He & Hi).
  rewrite Hentry, Hi, Nat2Z.id, allItems_current by lia.
  rewrite (proj2 (Z.eqb_neq (size t) 0)), Hp, Hh, He by lia. cbn [orb negb].
  pose proof Hin as [i Hf]%find_Some_iff_In. rewrite Hf. cbn [mbind option_bind].
  unfold WentTo, wentToDropped. fold keep.
  destruct (Z.eqb_spec (address (current h)) (address item)) as [Heq|Hne]; cbn [negb andb orb];
    [|destruct keep; cbn [negb andb]].
  1,2: destruct (history_at _ _ _ Hf) as (h' & Hall & -> & Hc & Hb); exists (mkList true (allItems h) true (Z.of_nat (length (back h'))) (m_capacity t)), h';
       eexists; split; [reflexivity|]; split; [by split_and!|]; split; [done|]; split; [done|]; by rewrite last_snoc.
  rewrite remove_current.
  assert (is_Some (find (back h ++ forward h) item)) as [j Hj].
  { apply find_Some_iff_In. unfold allItems in Hin. rewrite Exists_app, Exists_cons in Hin. rewrite Exists_app. tauto. }
  rewrite Hj. cbn [mbind option_bind]. destruct (history_at _ _ _ Hj) as (h' & Hall & -> & Hc & Hb).
  exists (mkList true (back h ++ forward h) true (Z.of_nat (length (back h'))) (m_capacity t)), h'. eexists. split; [reflexivity|].
  split; [by split_and!|]. split; [done|]. split; [done|]. by rewrite last_snoc.
Qed.

Lemma goToItem_absent shouldKeep item t h :
  Represents t h -> ~ Exists (fun e => address e = address item) (allItems h) ->
  goToItem shouldKeep (Some item) t = Some (t, []).
Proof.
  intros Hr Hin. unfold goToItem. rewrite guard_true by (by apply (Represents_ASSERT t h)). step_if; [done|].
  destruct Hr as (Hp & Hh & He & Hi). rewrite He. destruct (find (allItems h) item) eqn:E; [|done].
  exfalso. apply Hin, find_Some_iff_In. eauto.
Qed.

(** * The properties of the session history *)

Import WebBackForwardList.

(** ** The invariant is kept *)

Lemma push_length keep capacity item h :
  Z.of_nat (length (allItems h)) <= capacity -> 1 <= capacity ->
  Z.of_nat (length (allItems (push keep capacity item h))) <= capacity.
Proof.
  destruct h as [b c f]. unfold allItems, push. cbn [back current forward]. rewrite length_app. cbn [length]. intros H1 H2.
  destruct (Z.eqb_spec capacity 1); [cbn; lia|].
  assert (length (tail b) = length b - 1)%nat as Ht by (destruct b; cbn; lia).
  destruct (Z.eqb_spec (Z.of_nat (length b) + 1) capacity); destruct keep; cbn [back current forward];
    repeat (rewrite length_app || rewrite Ht || cbn [length]); lia.
Qed.

Lemma Inv_of_history t h :
  Represents t h -> Z.of_nat (length (allItems h)) <= m_capacity t -> 1 <= m_capacity t < 2 ^ 31 -> Inv t.
Proof.
  intros Hr Hl Hc. split; [left; eauto| |done]. unfold size. destruct Hr as (_ & _ & -> & _). done.
Qed.

Lemma Inv_empty page i capacity : 1 <= capacity < 2 ^ 31 -> Inv (mkList page [] false i capacity).
Proof. intros H. split; [by right|unfold size; cbn [m_entries m_capacity length]; lia|done]. Qed.

Lemma addItem_total shouldKeep item t :
  Inv t -> exists t' calls, addItem shouldKeep item t = Some (t', calls) /\ Inv t'.
Proof.
  intros Hinv. pose proof (Inv_ASSERT t Hinv) as Ha. destruct item as [item|]; [|exists t, []; unfold addItem; by rewrite guard_true].
  destruct (m_page t) eqn:Hp; [|exists t, []; unfold addItem; rewrite guard_true, Hp, orb_true_r by done; done].
  destruct Hinv as [[[h Hr]|[Hh He]] Hcap Hb].
  - destruct (addItem_history shouldKeep item t h Hr Hcap ltac:(lia)) as (t' & -> & Hr' & Hc). eexists _, _. split; [done|].
    apply (Inv_of_history _ _ Hr'); rewrite Hc; [|done]. apply push_length; [|lia].
    unfold size in Hcap. by destruct Hr as (_ & _ & <- & _).
  - destruct (addItem_empty shouldKeep item t Hp Hh He ltac:(lia)) as (t' & -> & Hr' & Hc). eexists _, _. split; [done|].
    apply (Inv_of_history _ _ Hr'); rewrite Hc; [cbn; lia|done].
Qed.

Lemma goToItem_total shouldKeep item t :
  Inv t -> exists t' calls, goToItem shouldKeep item t = Some (t', calls) /\ Inv t'.
Proof.
  intros Hinv. pose proof (Inv_ASSERT t Hinv) as Ha. destruct item as [item|]; [|exists t, []; unfold goToItem; by rewrite guard_true].
  pose proof Hinv as [[[h Hr]|[Hh He]] Hcap Hb].
  - destruct (decide (Exists (fun e => address e = address item) (allItems h))) as [Hin|Hout].
    + destruct (goToItem_history shouldKeep item t h Hr Hin) as (t' & h' & calls & -> & Hr' & Hc & Hw & _).
      eexists _, _. split; [done|]. apply (Inv_of_history _ _ Hr'); rewrite Hc; [|done].
      unfold size in Hcap. destruct Hr as (_ & _ & E & _). rewrite E in Hcap. destruct Hw as (_ & _ & ->).
      step_if; [done|]. unfold allItems in Hcap. rewrite length_app in *. cbn in Hcap. lia.
    + exists t, []. by rewrite (goToItem_absent shouldKeep item t h Hr Hout).
  - exists t, []. split; [|done]. unfold goToItem, size. by rewrite guard_true, He by done.
Qed.

Lemma clear_total t : Inv t -> exists t' calls, clear t = Some (t', calls) /\ Inv t'.
Proof.
  intros Hinv. pose proof (Inv_ASSERT t Hinv) as Ha. unfold clear. rewrite guard_true by done.
  step_if; [by exists t, []|]. apply orb_false_iff in Heqb as [Hp Hs]. zbool.
  destruct Hinv as [[[h Hr]|[Hh He]] Hcap Hb]; [|unfold size in Hs; rewrite He in Hs; cbn in Hs; lia].
  unfold currentItem. rewrite (guard_true (ASSERT_index t)), Hp by done. pose proof (entry_history t h (m_currentIndex t) Hr) as He.
  destruct Hr as (_ & Hh & E & Hi). rewrite Hh. cbn [andb]. rewrite He, Hi, Nat2Z.id, allItems_current by lia.
  cbn [mbind option_bind]. eexists _, _. split; [reflexivity|].
  apply (Inv_of_history _ (mkHistory [] (current h) [])); [by split_and!|cbn; lia|done].
Qed.

Lemma removeAllItems_total t : Inv t -> m_page t = true -> exists t' calls, removeAllItems t = Some (t', calls) /\ Inv t'.
Proof.
  intros Hinv Hp. unfold removeAllItems. rewrite !guard_true by (done || by apply Inv_ASSERT).
  eexists _, _. split; [done|]. apply Inv_empty, Hinv.
Qed.

Lemma pageClosed_total t : Inv t -> m_page t = true -> exists t' calls, pageClosed t = Some (t', calls) /\ Inv t'.
Proof.
  intros Hinv Hp. unfold pageClosed. rewrite guard_true by done. eexists _, _. split; [done|]. apply Inv_empty, Hinv.
Qed.

(** A saved state that a list of the capacity can be restored from. *)
Definition wellFormed (capacity : Z) (state : BackForwardListState) : Prop :=
  Z.of_nat (length (items state)) <= capacity /\
  match currentIndex state with
  | Some c => 0 <= c < Z.of_nat (length (items state))
  | None => items state = []
  end.

Lemma restoreItems_length allocate uid states :
  length (restoreItems allocate uid states).1 = length states.
Proof.
  revert uid. induction states as [|s states IH]; intros uid; [done|]. cbn [restoreItems].
  specialize (IH (generateWebBackForwardItemID uid)). destruct (restoreItems _ _ states). cbn in *. lia.
Qed.

(** Any index into a list is a history of it. *)
Lemma Represents_index es c capacity :
  0 <= c < Z.of_nat (length es) -> exists h, Represents (mkList true es true c capacity) h.
Proof.
  intros Hc. destruct (lookup_lt_is_Some_2 es (Z.to_nat c) ltac:(lia)) as [x Hx].
  exists (mkHistory (take (Z.to_nat c) es) x (drop (S (Z.to_nat c)) es)). split_and!; [done|done| |].
  - cbn. unfold allItems. cbn. by rewrite take_drop_middle.
  - cbn. rewrite length_take. lia.
Qed.

Lemma restoreFromState_total allocate uid state t :
  Inv t -> m_page t = true -> wellFormed (m_capacity t) state ->
  exists t' uid', restoreFromState allocate uid state t = Some (t', uid') /\ Inv t'.
Proof.
  intros Hinv Hp [Hlen Hc]. unfold restoreFromState. rewrite guard_true by (by rewrite Hp).
  pose proof (restoreItems_length allocate uid (items state)) as Hl.
  destruct (restoreItems allocate uid (items state)) as [es last]. cbn in Hl. eexists _, _. split; [done|].
  destruct Hinv as [_ _ Hb]. destruct (currentIndex state) as [c|]; cbn [from_option id].
  - rewrite bool_decide_eq_true_2 by eauto. rewrite Hp. split; [left; apply Represents_index; lia|unfold size; cbn [m_entries m_capacity]; lia|done].
  - rewrite Hc in Hl. destruct es; [|done]. rewrite bool_decide_eq_false_2 by (by intros [? [=]]). by apply Inv_empty.
Qed.

(** ** Reachable lists *)

Inductive Step : WebBackForwardList -> WebBackForwardList -> Prop :=
  | step_addItem shouldKeep item t t' calls : addItem shouldKeep item t = Some (t', calls) -> Step t t'
  | step_goToItem shouldKeep item t t' calls : goToItem shouldKeep item t = Some (t', calls) -> Step t t'
  | step_removeAllItems t t' calls : removeAllItems t = Some (t', calls) -> Step t t'
  | step_clear t t' calls : clear t = Some (t', calls) -> Step t t'
  | step_pageClosed t t' calls : pageClosed t = Some (t', calls) -> Step t t'
  | step_restore allocate uid state t t' uid' :
      wellFormed (m_capacity t) state -> m_page t = true ->
      restoreFromState allocate uid state t = Some (t', uid') -> Step t t'.

Definition Reachable : WebBackForwardList -> Prop := rtc Step create.

Lemma Inv_step t t' : Inv t -> Step t t' -> Inv t'.
Proof.
  intros Hinv Hs. destruct Hs as [keep item t t' calls H|keep item t t' calls H|t t' calls H|t t' calls H|t t' calls H|al uid st t t' uid' Hwf Hp H].
  - destruct (addItem_total keep item t Hinv) as (? & ? & E & ?). congruence.
  - destruct (goToItem_total keep item t Hinv) as (? & ? & E & ?). congruence.
  - assert (m_page t = true) as Hp by (unfold removeAllItems in H; destruct (ASSERT_index t), (m_page t); done).
    destruct (removeAllItems_total t Hinv Hp) as (? & ? & E & ?). congruence.
  - destruct (clear_total t Hinv) as (? & ? & E & ?). congruence.
  - assert (m_page t = true) as Hp by (unfold pageClosed in H; destruct (m_page t); done).
    destruct (pageClosed_total t Hinv Hp) as (? & ? & E & ?). congruence.
  - destruct (restoreFromState_total al uid st t Hinv Hp Hwf) as (? & ? & E & ?). congruence.
Qed.

Lemma Inv_create : Inv create.
Proof. apply Inv_empty. unfold DefaultCapacity. lia. Qed.

Lemma Reachable_Inv t : Reachable t -> Inv t.
Proof.
  intros Hr. assert (forall a b, rtc Step a b -> Inv a -> Inv b) as H.
  { intros a b Hab. induction Hab; [done|]. intros Ha. by apply IHHab, (Inv_step x). }
  apply (H create t Hr), Inv_create.
Qed.

(** ** Queries *)

Section Queries.

Context (t : WebBackForwardList) (h : History).
Hypothesis Hr : Represents t h.
Hypothesis Hsize : size t < 2 ^ 31.

Lemma page_and_index : m_page t && m_hasCurrentIndex t = true.
Proof using Hr. clear Hsize. by destruct Hr as (-> & -> & _). Qed.

Lemma backListCount_spec : backListCount t = Some (Z.of_nat (length (back h))).
Proof using Hr Hsize.
  pose proof (Represents_size t h Hr) as Hs. unfold backListCount.
  rewrite guard_true by (by apply (Represents_ASSERT t h)). rewrite page_and_index. destruct Hr as (_ & _ & _ & ->).
  by rewrite i32_id by (unfold is_i32, INT_MIN, INT_MAX; lia).
Qed.

Lemma forwardListCount_spec : forwardListCount t = Some (Z.of_nat (length (forward h))).
Proof using Hr Hsize.
  pose proof (Represents_size t h Hr) as Hs. unfold forwardListCount.
  rewrite guard_true by (by apply (Represents_ASSERT t h)). rewrite page_and_index. destruct Hr as (_ & _ & _ & ->).
  rewrite u32_id by lia. rewrite i32_id by (unfold is_i32, INT_MIN, INT_MAX; lia). f_equal. lia.
Qed.

Lemma collect_spec n i :
  0 <= i -> i + Z.of_nat n <= size t -> collect n t i = Some (take n (drop (Z.to_nat i) (allItems h))).
Proof using Hr.
  clear Hsize. revert i. induction n as [|n IH]; intros i Hi Hn; [done|]. cbn [collect].
  rewrite (entry_history t h i Hr Hi). assert (size t = Z.of_nat (length (allItems h))) as Hs
    by (unfold size; by destruct Hr as (_ & _ & -> & _)).
  destruct (lookup_lt_is_Some_2 (allItems h) (Z.to_nat i) ltac:(lia)) as [x Hx]. rewrite Hx. cbn [mbind option_bind].
  rewrite IH by lia. cbn [mbind option_bind]. rewrite (drop_S _ _ _ Hx). cbn [take].
  by replace (Z.to_nat (i + 1)) with (S (Z.to_nat i)) by lia.
Qed.

Lemma currentItem_spec : currentItem t = Some (Some (current h)).
Proof using Hr.
  clear Hsize. unfold currentItem. rewrite guard_true by (by apply (Represents_ASSERT t h)). rewrite page_and_index.
  pose proof (entry_history t h (m_currentIndex t) Hr) as He. destruct Hr as (_ & _ & _ & Hi).
  by rewrite He, Hi, Nat2Z.id, allItems_current by lia.
Qed.

Lemma backItem_spec : backItem t = Some (last (back h)).
Proof using Hr.
  clear Hsize. unfold backItem. rewrite guard_true by (by apply (Represents_ASSERT t h)). rewrite page_and_index.
  pose proof (entry_history t h (m_currentIndex t - 1) Hr) as He. destruct Hr as (_ & _ & _ & Hi). cbn [andb].
  destruct (Z.eqb_spec (m_currentIndex t) 0) as [H0|H0]; cbn [negb].
  - by destruct (back h); [|cbn in Hi; lia].
  - rewrite He by lia. unfold allItems. rewrite lookup_app_l by lia. rewrite last_lookup.
    replace (Z.to_nat (m_currentIndex t - 1)) with (Nat.pred (length (back h))) by lia.
    destruct (lookup_lt_is_Some_2 (back h) (Nat.pred (length (back h))) ltac:(lia)) as [x ->]. done.
Qed.

Lemma forwardItem_spec : forwardItem t = Some (head (forward h)).
Proof using Hr.
  clear Hsize. pose proof (Represents_size t h Hr) as Hs. unfold forwardItem.
  rewrite guard_true by (by apply (Represents_ASSERT t h)). rewrite page_and_index.
  pose proof (entry_history t h (m_currentIndex t + 1) Hr) as He. destruct Hr as (_ & _ & _ & Hi). cbn [andb].
  rewrite (proj2 (Z.eqb_neq (size t) 0)) by lia. cbn [negb andb].
  destruct (forward h) as [|x f] eqn:Ef; cbn [length] in Hs.
  - by rewrite (proj2 (Z.ltb_ge (m_currentIndex t) _)) by lia.
  - rewrite (proj2 (Z.ltb_lt (m_currentIndex t) _)), He by lia. unfold allItems. rewrite Ef.
    rewrite lookup_app_r by lia. by replace (Z.to_nat (m_currentIndex t + 1) - length (back h))%nat with 1%nat by lia.
Qed.

(** [i] steps from the current item, for any [int]. *)
Lemma itemAtIndex_spec i :
  is_i32 i ->
  itemAtIndex i t =
  Some (if Z.of_nat (length (back h)) + i <? 0 then None else allItems h !! Z.to_nat (Z.of_nat (length (back h)) + i)).
Proof using Hr Hsize.
  intros Hi32. pose proof (Represents_size t h Hr) as Hs. unfold itemAtIndex.
  rewrite guard_true by (by apply (Represents_ASSERT t h)). rewrite backListCount_spec, forwardListCount_spec.
  assert (m_hasCurrentIndex t = true /\ m_page t = true) as [-> ->] by (by destruct Hr as (? & ? & _)). cbn [negb orb mbind option_bind].
  destruct (Z.ltb_spec i (- Z.of_nat (length (back h)))).
  { by rewrite (proj2 (Z.ltb_lt (_ + i) 0)) by lia. }
  rewrite (proj2 (Z.ltb_ge (_ + i) 0)) by lia.
  assert (length (allItems h) = length (back h) + S (length (forward h)))%nat as Hl by (unfold allItems; by rewrite length_app).
  destruct (Z.ltb_spec (Z.of_nat (length (forward h))) i).
  { f_equal. symmetry. apply lookup_ge_None_2. lia. }
  pose proof (entry_history t h (u32 (i + m_currentIndex t)) Hr) as He.
  assert (m_currentIndex t = Z.of_nat (length (back h))) as Hidx by (by destruct Hr as (_ & _ & _ & ?)).
  rewrite Hidx in *. rewrite u32_id in * by lia. rewrite He by lia. rewrite Z.add_comm.
  destruct (lookup_lt_is_Some_2 (allItems h) (Z.to_nat (Z.of_nat (length (back h)) + i)) ltac:(lia)) as [x ->]. done.
Qed.

Lemma backListWithLimit_spec limit :
  0 <= limit < 2 ^ 32 ->
  backListAsAPIArrayWithLimit limit t = Some (drop (length (back h) - Z.to_nat limit) (back h)).
Proof using Hr Hsize.
  intros Hlim. pose proof (Represents_size t h Hr) as Hs. unfold backListAsAPIArrayWithLimit.
  rewrite guard_true by (by apply (Represents_ASSERT t h)). rewrite backListCount_spec.
  assert (m_hasCurrentIndex t = true /\ m_page t = true) as [-> ->] by (by destruct Hr as (? & ? & _)). cbn [negb orb mbind option_bind].
  rewrite u32_id by lia. destruct (Z.eqb_spec (Z.min (Z.of_nat (length (back h))) limit) 0).
  { f_equal. symmetry. apply drop_ge. lia. }
  rewrite guard_true by (apply bool_decide_eq_true_2; lia). rewrite collect_spec by lia. f_equal.
  unfold allItems. rewrite drop_app_le by lia.
  replace (Z.to_nat (Z.of_nat (length (back h)) - Z.min (Z.of_nat (length (back h))) limit)) with (length (back h) - Z.to_nat limit)%nat by lia.
  rewrite take_app_le by (rewrite length_drop; lia). apply take_ge. rewrite length_drop. lia.
Qed.

Lemma forwardListWithLimit_spec limit :
  0 <= limit < 2 ^ 32 -> forwardListAsAPIArrayWithLimit limit t = Some (take (Z.to_nat limit) (forward h)).
Proof using Hr Hsize.
  intros Hlim. pose proof (Represents_size t h Hr) as Hs. unfold forwardListAsAPIArrayWithLimit.
  rewrite guard_true by (by apply (Represents_ASSERT t h)). rewrite forwardListCount_spec.
  assert (m_hasCurrentIndex t = true /\ m_page t = true) as [-> ->] by (by destruct Hr as (? & ? & _)). cbn [negb orb mbind option_bind].
  assert (m_currentIndex t = Z.of_nat (length (back h))) as -> by (by destruct Hr as (_ & _ & _ & ?)).
  rewrite (u32_id (Z.of_nat (length (forward h)))) by lia.
  destruct (Z.eqb_spec (Z.min (Z.of_nat (length (forward h))) limit) 0).
  { f_equal. symmetry. destruct (forward h) as [|x f]; [by destruct (Z.to_nat limit)|].
    cbn [length] in *. by replace (Z.to_nat limit) with 0%nat by lia. }
  rewrite u32_id by lia. rewrite guard_true by (apply bool_decide_eq_true_2; lia). rewrite collect_spec by lia. f_equal.
  unfold allItems. replace (Z.to_nat (Z.of_nat (length (back h)) + 1)) with (length (back h) + 1)%nat by lia.
  rewrite drop_app_add. cbn [drop].
  replace (Z.to_nat (_ - _)) with (Nat.min (length (forward h)) (Z.to_nat limit)) by lia.
  destruct (Nat.le_ge_cases (Z.to_nat limit) (length (forward h))) as [Hle|Hge].
  - by rewrite Nat.min_r by done.
  - rewrite Nat.min_l by done. rewrite (take_ge (forward h) (Z.to_nat limit)) by done. by apply take_ge.
Qed.

End Queries.

(** ** The properties *)

Lemma queries_total t :
  Inv t -> is_Some (currentItem t) /\ is_Some (backItem t) /\ is_Some (forwardItem t) /\
    (forall i, is_i32 i -> is_Some (itemAtIndex i t)).
Proof.
  intros Hinv. pose proof (Inv_ASSERT t Hinv) as Ha. destruct Hinv as [[[h Hr]|[Hno He]] Hcap Hb].
  - rewrite (currentItem_spec t h Hr), (backItem_spec t h Hr), (forwardItem_spec t h Hr). split_and!; [by eauto..|].
    intros i Hi. rewrite (itemAtIndex_spec t h Hr) by (done || lia). eauto.
  - split_and!; [unfold currentItem|unfold backItem|unfold forwardItem|intros i _; unfold itemAtIndex];
      rewrite guard_true, Hno, ?andb_false_r by done; cbn [andb negb orb]; eauto.
Qed.

Lemma lists_total t limit :
  Inv t -> 0 <= limit < 2 ^ 32 ->
  is_Some (backListAsAPIArrayWithLimit limit t) /\ is_Some (forwardListAsAPIArrayWithLimit limit t).
Proof.
  intros Hinv Hl. pose proof (Inv_ASSERT t Hinv) as Ha. destruct Hinv as [[[h Hr]|[Hno He]] Hcap Hb].
  - rewrite (backListWithLimit_spec t h Hr), (forwardListWithLimit_spec t h Hr) by (done || lia). eauto.
  - unfold backListAsAPIArrayWithLimit, forwardListAsAPIArrayWithLimit. rewrite !guard_true, Hno, !orb_true_r by done. eauto.
Qed.


(** A list with three items, the middle one current. *)
Definition sampleItem (n : Z) : WebBackForwardListItem := mkItem n (mkItemState (2 * n) n).
Definition sampleList (n : nat) (c : Z) : WebBackForwardList :=
  mkList true (sampleItem <$> seqZ 1 (Z.of_nat n)) true c DefaultCapacity.

Lemma sampleList_reachable : Reachable (mkList true (sampleItem <$> [1; 2]) true 1 DefaultCapacity).
Proof.
  apply (rtc_l _ _ (mkList true [sampleItem 1] true 0 DefaultCapacity)).
  { apply (step_addItem (fun _ => true) (Some (sampleItem 1)) _ _ [didChangeBackForwardList (Some (sampleItem 1)) []]).
    vm_compute. reflexivity. }
  apply (rtc_once _ _). eapply (step_addItem (fun _ => true) (Some (sampleItem 2))). vm_compute. reflexivity.
Defined.


(** C22: Adding an item refines [push] on the history: the items ahead go, the
    oldest item goes when the list is full, the current item stays behind the
    new one exactly when the client keeps it; the page is told of the new
    item and of the items that left the list, which with those in it are the
    old items and the new one. *)
Theorem addItem_refines shouldKeep item t h :
  Represents t h -> Inv t ->
  exists t' calls removed, addItem shouldKeep (Some item) t = Some (t', calls) /\
    Represents t' (push (shouldKeep (current h)) (m_capacity t) item h) /\
    last calls = Some (didChangeBackForwardList (Some item) removed) /\
    Permutation (m_entries t ++ [item]) (m_entries t' ++ removed).
Proof.
  intros Hr [_ Hcap Hb]. destruct (addItem_history shouldKeep item t h Hr Hcap ltac:(lia)) as (t' & He & Hr' & _).
  eexists t', _, _. split; [exact He|]. split; [done|]. unfold addCalls.
  split; [by rewrite app_comm_cons, app_assoc, last_snoc|].
  unfold size in Hcap. destruct Hr as (_ & _ & E & _), Hr' as (_ & _ & E' & _). rewrite E, E' in *. by apply push_permutation.
Qed.

Lemma addItem_refines_witness :
  exists t' calls removed, addItem (fun _ => false) (Some (sampleItem 9)) (sampleList 3 1) = Some (t', calls) /\
    Represents t' (mkHistory [sampleItem 1] (sampleItem 9) []) /\
    last calls = Some (didChangeBackForwardList (Some (sampleItem 9)) removed) /\
    Permutation (m_entries (sampleList 3 1) ++ [sampleItem 9]) (m_entries t' ++ removed).
Proof.
  apply (addItem_refines (fun _ => false) (sampleItem 9) (sampleList 3 1) (mkHistory [sampleItem 1] (sampleItem 2) [sampleItem 3])).
  - vm_compute. done.
  - split; [left; exists (mkHistory [sampleItem 1] (sampleItem 2) [sampleItem 3]); vm_compute; done|vm_compute; discriminate|].
    vm_compute. split; [discriminate|done].
Defined.

(** C23: Going to an item of the list makes it (its first occurrence) current;
    the other items stay in order, except that another current item is
    dropped when the client does not keep it, which the page is told. *)
Theorem goToItem_refines shouldKeep item t h :
  Represents t h -> Exists (fun e => address e = address item) (allItems h) ->
  let stays := (address (current h) =? address item) || shouldKeep (current h) in
  exists t' h' calls, goToItem shouldKeep (Some item) t = Some (t', calls) /\ Represents t' h' /\
    address (current h') = address item /\ Forall (fun e => address e <> address item) (back h') /\
    allItems h' = (if stays then allItems h else back h ++ forward h) /\
    last calls = Some (didChangeBackForwardList None (if stays then [] else [current h])).
Proof.
  intros Hr Hin. destruct (goToItem_history shouldKeep item t h Hr Hin) as (t' & h' & calls & He & Hr' & _ & (H1 & H2 & H3) & H4).
  exists t', h', calls. done.
Qed.

Lemma goToItem_refines_witness :
  exists t' h' calls, goToItem (fun _ => false) (Some (sampleItem 3)) (sampleList 3 0) = Some (t', calls) /\ Represents t' h' /\
    allItems h' = [sampleItem 2; sampleItem 3] /\ address (current h') = 3.
Proof.
  destruct (goToItem_refines (fun _ => false) (sampleItem 3) (sampleList 3 0) (mkHistory [] (sampleItem 1) [sampleItem 2; sampleItem 3]))
    as (t' & h' & calls & H1 & H2 & H3 & _ & H5 & _).
  - vm_compute. done.
  - right. right. left. reflexivity.
  - exists t', h', calls. split; [exact H1|]. split; [exact H2|]. split; [exact H5|exact H3].
Defined.

(** The queries read the history: the current item, the nearest items
    behind and ahead, the item any number of steps away (none outside the
    list, for every [int]), and the items behind and ahead up to a limit,
    nearest ones kept. *)
Theorem queries_correct t h i limit :
  Represents t h -> Inv t -> is_i32 i -> 0 <= limit < 2 ^ 32 ->
  currentItem t = Some (Some (current h)) /\ backItem t = Some (last (back h)) /\ forwardItem t = Some (head (forward h)) /\
  itemAtIndex i t =
    Some (if Z.of_nat (length (back h)) + i <? 0 then None else allItems h !! Z.to_nat (Z.of_nat (length (back h)) + i)) /\
  backListAsAPIArrayWithLimit limit t = Some (drop (length (back h) - Z.to_nat limit) (back h)) /\
  forwardListAsAPIArrayWithLimit limit t = Some (take (Z.to_nat limit) (forward h)).
Proof.
  intros Hr [_ Hcap Hb] Hi Hl. split_and!.
  - exact (currentItem_spec t h Hr).
  - exact (backItem_spec t h Hr).
  - exact (forwardItem_spec t h Hr).
  - apply itemAtIndex_spec; [done|lia|done].
  - apply backListWithLimit_spec; [done|lia|done].
  - apply forwardListWithLimit_spec; [done|lia|done].
Qed.

Lemma queries_correct_witness : itemAtIndex (-1) (sampleList 3 1) = Some (Some (sampleItem 1)).
Proof.
  assert (Represents (sampleList 3 1) (mkHistory [sampleItem 1] (sampleItem 2) [sampleItem 3])) as Hr by (vm_compute; done).
  assert (Inv (sampleList 3 1)) as Hinv.
  { split; [left; exists (mkHistory [sampleItem 1] (sampleItem 2) [sampleItem 3]); exact Hr|vm_compute; discriminate|].
    vm_compute. split; [discriminate|done]. }
  destruct (queries_correct (sampleList 3 1) (mkHistory [sampleItem 1] (sampleItem 2) [sampleItem 3]) (-1) 1 Hr Hinv
              ltac:(unfold is_i32; vm_compute; split; discriminate) ltac:(lia)) as (_ & _ & _ & H & _).
  exact H.
Defined.

(** ** Saving and restoring *)

Lemma listState_all entries i state :
  listState_loop (fun _ => true) entries i state = mkListState (items state ++ (itemState <$> entries)) (currentIndex state).
Proof.
  revert i state. induction entries as [|e entries IH]; intros i state; cbn [listState_loop].
  - rewrite app_nil_r. by destruct state.
  - rewrite IH. cbn. by rewrite <- app_assoc.
Qed.

(** Restored items keep their page states and get the identifiers after
    [uid]. *)
Lemma restoreItems_spec allocate uid states :
  let (es, last) := restoreItems allocate uid states in
  (pageState ∘ itemState) <$> es = pageState <$> states /\ itemID <$> es = (fun n => uid + 2 * (1 + n)) <$> seqZ 0 (Z.of_nat (length states)) /\
  last = uid + 2 * Z.of_nat (length states).
Proof.
  revert uid. induction states as [|s states IH]; intros uid; cbn [restoreItems]; [cbn; split_and!; [done|done|lia]|].
  specialize (IH (generateWebBackForwardItemID uid)). destruct (restoreItems _ _ states) as [es last].
  unfold generateWebBackForwardItemID in *. destruct IH as (H1 & H2 & H3). split_and!.
  - cbn. f_equal. exact H1.
  - cbn [length]. rewrite Nat2Z.inj_succ, seqZ_cons by lia. rewrite !fmap_cons. f_equal.
    replace (Z.pred (Z.succ (Z.of_nat (length states)))) with (Z.of_nat (length states)) by lia.
    rewrite H2.
    change (Z.succ 0) with (1 + 0). rewrite <- (fmap_add_seqZ 1 0), <- list_fmap_compose.
    apply list_fmap_ext. intros n x _. cbn. lia.
  - cbn [length]. lia.
Qed.

Lemma backForwardListState_all t h :
  Represents t h ->
  backForwardListState (fun _ => true) t = Some (mkListState (itemState <$> allItems h) (Some (m_currentIndex t))).
Proof.
  intros Hr. unfold backForwardListState. rewrite guard_true by (by apply (Represents_ASSERT t h)).
  destruct Hr as (Hp & Hh & He & Hi). rewrite Hh, He, listState_all. cbn [items currentIndex app mbind option_bind].
  destruct (itemState <$> allItems h) as [|s l] eqn:E.
  { apply (f_equal length) in E. rewrite length_fmap in E. unfold allItems in E. rewrite length_app in E. cbn in E. lia. }
  rewrite <- E. rewrite (proj2 (Z.leb_gt _ _)); [done|].
  rewrite length_fmap, Hi. unfold allItems. rewrite length_app. cbn. lia.
Qed.

(** C24: Saving and restoring: the state of a list without a filter, restored
    into a list with a page, gives the same page states in the same order
    with the same current position, and new identifiers: the even numbers
    after the last one handed out. *)
Theorem save_restore allocate uid t h t0 :
  Represents t h -> m_page t0 = true ->
  exists state t' uid', backForwardListState (fun _ => true) t = Some state /\
    restoreFromState allocate uid state t0 = Some (t', uid') /\
    m_hasCurrentIndex t' = true /\ m_currentIndex t' = m_currentIndex t /\
    (pageState <$> itemStates t') = (pageState <$> itemStates t) /\
    itemID <$> m_entries t' = (fun n => uid + 2 * (1 + n)) <$> seqZ 0 (size t) /\ uid' = uid + 2 * size t.
Proof.
  intros Hr Hp. rewrite (backForwardListState_all t h Hr). unfold restoreFromState.
  exists (mkListState (itemState <$> allItems h) (Some (m_currentIndex t))).
  pose proof (restoreItems_spec allocate uid (itemState <$> allItems h)) as Hspec. cbn [items currentIndex].
  destruct (restoreItems allocate uid (itemState <$> allItems h)) as [es last]. rewrite length_fmap in Hspec.
  destruct Hspec as (H1 & H2 & H3). eexists _, _. split; [reflexivity|]. rewrite guard_true by (by rewrite Hp).
  split; [reflexivity|]. cbn [m_hasCurrentIndex m_currentIndex m_entries itemStates].
  destruct Hr as (_ & _ & E & _). unfold itemStates, size. cbn [m_entries]. rewrite E.
  split_and!; [by apply bool_decide_eq_true_2; eauto|done| |done|done]. by rewrite <- list_fmap_compose, H1.
Qed.

Lemma save_restore_witness :
  exists state t' uid', backForwardListState (fun _ => true) (sampleList 3 1) = Some state /\
    restoreFromState (fun n => n) 100 state create = Some (t', uid') /\
    (itemID <$> m_entries t') = [102; 104; 106] /\ m_currentIndex t' = 1.
Proof.
  destruct (save_restore (fun n => n) 100 (sampleList 3 1) (mkHistory [sampleItem 1] (sampleItem 2) [sampleItem 3]) create)
    as (state & t' & uid' & H1 & H2 & _ & H4 & _ & H6 & _); [vm_compute; done|reflexivity|].
  exists state, t', uid'. split; [exact H1|]. split; [exact H2|]. split; [exact H6|exact H4].
Defined.


(** ** The capacity after restoring *)

(** A restored list may be longer than its capacity, and then adding items
    does not bring it back: the test for a full list is an equality. *)
Lemma addItem_beyond_capacity item t h :
  Represents t h -> forward h = [] -> m_capacity t < size t -> 1 <= m_capacity t ->
  exists t' calls, addItem (fun _ => true) (Some item) t = Some (t', calls) /\ size t' = size t + 1.
Proof.
  intros Hr Hf Hc Hb. pose proof (Represents_size t h Hr) as Hs. rewrite Hf in Hs. cbn in Hs. unfold addItem.
  rewrite guard_true by (by apply (Represents_ASSERT t h)). destruct Hr as (Hp & Hh & He & Hi).
  rewrite Hp, (proj2 (Z.eqb_neq (m_capacity t) 0)) by lia. cbn [orb negb]. unfold makeRoom. rewrite Hh.
  assert (tossForward (length (m_entries t)) (m_entries t) (m_currentIndex t + 1) [] = (m_entries t, [])) as ->.
  { pose proof (tossForward_spec (length (m_entries t)) (m_entries t) [] [] ltac:(cbn; lia)) as H.
    rewrite app_nil_r in H. replace (m_currentIndex t + 1) with (Z.of_nat (length (m_entries t))) by (unfold size in Hs; lia). exact H. }
  fold (size t). rewrite (proj2 (Z.eqb_neq (size t) (m_capacity t))) by lia. cbn [andb mbind option_bind].
  unfold placeItem. cbn [hasIndex negb entries index removedItems calls].
  rewrite (proj2 (Z.ltb_ge (m_currentIndex t) 0)) by lia. rewrite Hi, Nat2Z.id, He, allItems_current. cbn [mbind option_bind].
  rewrite <- He. rewrite guard_true by (apply bool_decide_eq_true_2; unfold size in Hs; lia). cbn [mbind option_bind].
  eexists _, _. split; [reflexivity|]. unfold size in *. cbn [m_entries entries].
  rewrite length_app. cbn [length]. rewrite length_take, length_drop. lia.
Qed.
