(* ===== verification/Base64.v ===== *)
(** * Base64: encoding and decoding

    Translated from src/Source/WTF/wtf/text/Base64.cpp.  The output vector is
    a list of its size; [put] and [get] fault outside it.  The class of white
    space above ASCII comes from ICU and is an argument. *)

From S2P Require Import Prelude ASCIICType.

Module Base64.

Inductive Base64EncodePolicy := Base64DoNotInsertLFs | Base64InsertLFs | Base64URLPolicy.

(** The options are bits. *)
Definition Base64Default : Z := 0.
Definition Base64ValidatePadding : Z := Z.shiftl 1 0.
Definition Base64IgnoreSpacesAndNewLines : Z := Z.shiftl 1 1.

Definition nonAlphabet : Z := -1.

Definition base64EncMap : list Z :=
  chrs "ABCDEFGHIJKLMNOPQRSTUVWXYZabcdefghijklmnopqrstuvwxyz0123456789+/".

Definition base64URLEncMap : list Z :=
  chrs "ABCDEFGHIJKLMNOPQRSTUVWXYZabcdefghijklmnopqrstuvwxyz0123456789-_".

Definition base64DecMap : list Z :=
  [ -1; -1; -1; -1; -1; -1; -1; -1; -1; -1; -1; -1; -1; -1; -1; -1;
    -1; -1; -1; -1; -1; -1; -1; -1; -1; -1; -1; -1; -1; -1; -1; -1;
    -1; -1; -1; -1; -1; -1; -1; -1; -1; -1; -1; 62; -1; -1; -1; 63;
    52; 53; 54; 55; 56; 57; 58; 59; 60; 61; -1; -1; -1; -1; -1; -1;
    -1; 0; 1; 2; 3; 4; 5; 6; 7; 8; 9; 10; 11; 12; 13; 14;
    15; 16; 17; 18; 19; 20; 21; 22; 23; 24; 25; -1; -1; -1; -1; -1;
    -1; 26; 27; 28; 29; 30; 31; 32; 33; 34; 35; 36; 37; 38; 39; 40;
    41; 42; 43; 44; 45; 46; 47; 48; 49; 50; 51; -1; -1; -1; -1; -1 ].

Definition base64URLDecMap : list Z :=
  [ -1; -1; -1; -1; -1; -1; -1; -1; -1; -1; -1; -1; -1; -1; -1; -1;
    -1; -1; -1; -1; -1; -1; -1; -1; -1; -1; -1; -1; -1; -1; -1; -1;
    -1; -1; -1; -1; -1; -1; -1; -1; -1; -1; -1; -1; -1; 62; -1; -1;
    52; 53; 54; 55; 56; 57; 58; 59; 60; 61; -1; -1; -1; -1; -1; -1;
    -1; 0; 1; 2; 3; 4; 5; 6; 7; 8; 9; 10; 11; 12; 13; 14;
    15; 16; 17; 18; 19; 20; 21; 22; 23; 24; 25; -1; -1; -1; -1; 63;
    -1; 26; 27; 28; 29; 30; 31; 32; 33; 34; 35; 36; 37; 38; 39; 40;
    41; 42; 43; 44; 45; 46; 47; 48; 49; 50; 51; -1; -1; -1; -1; -1 ].

(** [v[i]] and [v[i] = x]. *)
Definition get (v : list Z) (i : Z) : option Z := if i <? 0 then None else v !! Z.to_nat i.
Definition put (v : list Z) (i x : Z) : option (list Z) :=
  if (0 <=? i) && (i <? Z.of_nat (length v)) then Some (<[Z.to_nat i := x]> v) else None.

(** [out[didx++] = x]. *)
Definition emit (s : list Z * Z) (x : Z) : option (list Z * Z) :=
  let (out, didx) := s in out ← put out didx x; Some (out, didx + 1).

(** ** Encoding *)

Section Encode.

Context (data : list Z) (encodeMap : list Z) (insertLFs : bool).

(** [if (...) out[didx++] = '\n'] *)
Definition emitLF (count : Z) (s : list Z * Z) : option (list Z * Z) :=
  if insertLFs && negb (count =? 0) && (Z.rem count 76 =? 0) then emit s 10 else Some s.

(** The loop over three bytes at a time. *)
Fixpoint encodeLoop (fuel : nat) (len sidx count : Z) (s : list Z * Z) : option (Z * Z * (list Z * Z)) :=
  match fuel with
  | O => None
  | S fuel =>
      if sidx <? len - 2 then
        s ← emitLF count s;
        let count := if insertLFs then i32 (count + 4) else count in
        d0 ← get data sidx;
        d1 ← get data (sidx + 1);
        d2 ← get data (sidx + 2);
        c0 ← get encodeMap (Z.land (Z.shiftr d0 2) 63);
        s ← emit s c0;
        c1 ← get encodeMap (Z.lor (Z.land (Z.shiftr d1 4) 15) (Z.land (Z.shiftl d0 4) 63));
        s ← emit s c1;
        c2 ← get encodeMap (Z.lor (Z.land (Z.shiftr d2 6) 3) (Z.land (Z.shiftl d1 2) 63));
        s ← emit s c2;
        c3 ← get encodeMap (Z.land d2 63);
        s ← emit s c3;
        encodeLoop fuel len (sidx + 3) count s
      else Some (sidx, count, s)
  end.

(** The one or two bytes that are left. *)
Definition encodeTail (len sidx count : Z) (s : list Z * Z) : option (list Z * Z) :=
  if sidx <? len then
    s ← (if insertLFs && (0 <? count) && (Z.rem count 76 =? 0) then emit s 10 else Some s);
    d0 ← get data sidx;
    c0 ← get encodeMap (Z.land (Z.shiftr d0 2) 63);
    s ← emit s c0;
    if sidx <? len - 1 then
      d1 ← get data (sidx + 1);
      c1 ← get encodeMap (Z.lor (Z.land (Z.shiftr d1 4) 15) (Z.land (Z.shiftl d0 4) 63));
      s ← emit s c1;
      c2 ← get encodeMap (Z.land (Z.shiftl d1 2) 63);
      emit s c2
    else
      c1 ← get encodeMap (Z.land (Z.shiftl d0 4) 63);
      emit s c1
  else Some s.

End Encode.

(** The padding loop. *)
Fixpoint pad (fuel : nat) (out : list Z) (didx : Z) : option (list Z) :=
  match fuel with
  | O => None
  | S fuel =>
      if didx <? Z.of_nat (length out) then
        out ← put out didx (chr "=");
        pad fuel out (didx + 1)
      else Some out
  end.

Definition UINT_MAX : Z := 2 ^ 32 - 1.

Definition maxInputBufferSize : Z := UINT_MAX / 77 * 76 / 4 * 3 - 2.

Definition base64EncodeInternal (data : list Z) (policy : Base64EncodePolicy) (encodeMap : list Z) : option (list Z) :=
  let len := Z.of_nat (length data) in
  if len =? 0 then Some [] else
  if maxInputBufferSize <? len then Some [] else
  let outLength := u32 (u32 (u32 (len + 2) / 3) * 4) in
  let insertLFs := match policy with Base64InsertLFs => 76 <? outLength | _ => false end in
  let outLength := if insertLFs then u32 (outLength + (outLength - 1) / 76) else outLength in
  let out := replicate (Z.to_nat outLength) 0 in
  '(sidx, count, s) ← (if 1 <? len then encodeLoop data encodeMap insertLFs (S (length data)) len 0 0 (out, 0)
                       else Some (0, 0, (out, 0)));
  '(out, didx) ← encodeTail data encodeMap insertLFs len sidx count s;
  match policy with
  | Base64URLPolicy => Some (take (Z.to_nat didx) out)
  | _ => pad (S (length out)) out didx
  end.

Definition base64Encode (data : list Z) (policy : Base64EncodePolicy) : option (list Z) :=
  base64EncodeInternal data policy base64EncMap.

Definition base64URLEncode (data : list Z) : option (list Z) :=
  base64EncodeInternal data Base64URLPolicy base64URLEncMap.

(** ** Decoding *)

Section Decode.

(** [u_charDirection(c) == U_WHITE_SPACE_NEUTRAL], from ICU. *)
Context (isWhiteSpaceNeutral : Z -> bool).

Definition isSpaceOrNewline (c : Z) : bool := if c <=? 127 then isASCIISpace c else isWhiteSpaceNeutral c.

Definition hasOption (options option_ : Z) : bool := negb (Z.land options option_ =? 0).

(** The first loop: the digits written to [out], how many, how many equals
    signs, and whether there was an error. *)
Fixpoint readDigits (data : list Z) (decodeMap : list Z) (options : Z) (out : list Z) (outLength equalsSignCount : Z)
    : option (list Z * Z * Z * bool) :=
  match data with
  | [] => Some (out, outLength, equalsSignCount, false)
  | ch :: data =>
      if ch =? chr "=" then
        let equalsSignCount := equalsSignCount + 1 in
        if hasOption options Base64ValidatePadding && (2 <? equalsSignCount) then Some (out, outLength, equalsSignCount, true)
        else readDigits data decodeMap options out outLength equalsSignCount
      else
        decodedCharacter ← (if ch <? 128 then get decodeMap ch else Some nonAlphabet);
        if negb (decodedCharacter =? nonAlphabet) then
          if negb (equalsSignCount =? 0) then Some (out, outLength, equalsSignCount, true)
          else
            out ← put out outLength decodedCharacter;
            readDigits data decodeMap options out (outLength + 1) equalsSignCount
        else if negb (hasOption options Base64IgnoreSpacesAndNewLines) || negb (isSpaceOrNewline ch)
        then Some (out, outLength, equalsSignCount, true)
        else readDigits data decodeMap options out outLength equalsSignCount
  end.

(** The three assignments, in place: each reads [out] as the ones before left
    it. *)
Definition assign0 (out : list Z) (didx sidx : Z) : option (list Z) :=
  a ← get out sidx; b ← get out (sidx + 1);
  put out didx (Z.lor (Z.land (Z.shiftl a 2) 255) (Z.land (Z.shiftr b 4) 3)).
Definition assign1 (out : list Z) (didx sidx : Z) : option (list Z) :=
  b ← get out (sidx + 1); c ← get out (sidx + 2);
  put out didx (Z.lor (Z.land (Z.shiftl b 4) 255) (Z.land (Z.shiftr c 2) 15)).
Definition assign2 (out : list Z) (didx sidx : Z) : option (list Z) :=
  c ← get out (sidx + 2); d ← get out (sidx + 3);
  put out didx (Z.lor (Z.land (Z.shiftl c 6) 255) (Z.land d 63)).

Fixpoint decodeLoop (fuel : nat) (outLength : Z) (out : list Z) (didx sidx : Z) : option (list Z * Z * Z) :=
  match fuel with
  | O => None
  | S fuel =>
      if didx <? outLength - 2 then
        out ← assign0 out didx sidx;
        out ← assign1 out (didx + 1) sidx;
        out ← assign2 out (didx + 2) sidx;
        decodeLoop fuel outLength out (didx + 3) (sidx + 4)
      else Some (out, didx, sidx)
  end.

(** The answer and the vector afterwards. *)
Definition base64DecodeInternal (data : list Z) (options : Z) (decodeMap : list Z) : option (bool * list Z) :=
  let length := Z.of_nat (length data) in
  if length =? 0 then Some (true, []) else
  '(out, outLength, equalsSignCount, hadError) ← readDigits data decodeMap options (replicate (Z.to_nat length) 0) 0 0;
  let out := take (Z.to_nat outLength) out in
  if (hadError : bool) then Some (false, out) else
  if outLength =? 0 then Some (equalsSignCount =? 0, out) else
  if hasOption options Base64ValidatePadding && negb (equalsSignCount =? 0)
     && negb (u32 (outLength + equalsSignCount) mod 4 =? 0) then Some (false, out) else
  if outLength mod 4 =? 1 then Some (false, out) else
  let outLength := outLength - u32 (outLength + 3) / 4 in
  if outLength =? 0 then Some (false, out) else
  '(out, didx, sidx) ← (if 1 <? outLength then decodeLoop (S (Z.to_nat outLength)) outLength out 0 0 else Some (out, 0, 0));
  out ← (if didx <? outLength then assign0 out didx sidx else Some out);
  let didx := didx + 1 in
  out ← (if didx <? outLength then assign1 out didx sidx else Some out);
  Some (true, take (Z.to_nat outLength) out).

Definition base64Decode (data : list Z) (options : Z) : option (bool * list Z) :=
  base64DecodeInternal data options base64DecMap.

Definition base64URLDecode (data : list Z) : option (bool * list Z) :=
  base64DecodeInternal data Base64Default base64URLDecMap.

End Decode.

End Base64.
