(* ===== verification/Base64Encode.v ===== *)
(** * Base64Encode: what the encoder writes

    The reference is RFC 4648 by arithmetic: three bytes are four digits of
    six bits; lines of 76 characters for RFC 2045. *)

From S2P Require Import Prelude Base64.
Import Base64.

#[local] Ltac Zify.zify_post_hook ::= Z.div_mod_to_equations.

(** ** Statements about all bytes, decided by computation *)

Lemma forall_range (n : Z) (P : Z -> bool) :
  forallb P (seqZ 0 n) = true -> forall a, 0 <= a < n -> P a = true.
Proof.
  intros H a Ha. rewrite forallb_forall in H. apply H, list_elem_of_In, elem_of_seqZ. lia.
Qed.

Lemma forall_range2 (n m : Z) (P : Z -> Z -> bool) :
  forallb (fun a => forallb (P a) (seqZ 0 m)) (seqZ 0 n) = true ->
  forall a b, 0 <= a < n -> 0 <= b < m -> P a b = true.
Proof. intros H a b Ha Hb. apply (forall_range m), Hb. by apply (forall_range n (fun a => forallb (P a) (seqZ 0 m))). Qed.

Definition isByte (b : Z) : Prop := 0 <= b < 256.
Definition isDigit6 (d : Z) : Prop := 0 <= d < 64.

(** The digits of the encoder in arithmetic. *)
Lemma digit0 a : isByte a -> Z.land (Z.shiftr a 2) 63 = a / 4.
Proof.
  intros Ha. apply Z.eqb_eq. revert a Ha. unfold isByte.
  apply (forall_range 256 (fun a => Z.land (Z.shiftr a 2) 63 =? a / 4)). by vm_compute.
Qed.

Lemma digit1 a b : isByte a -> isByte b ->
  Z.lor (Z.land (Z.shiftr b 4) 15) (Z.land (Z.shiftl a 4) 63) = a mod 4 * 16 + b / 16.
Proof.
  intros Ha Hb. apply Z.eqb_eq. revert a b Ha Hb. unfold isByte.
  apply (forall_range2 256 256 (fun a b => Z.lor (Z.land (Z.shiftr b 4) 15) (Z.land (Z.shiftl a 4) 63) =? a mod 4 * 16 + b / 16)).
  by vm_compute.
Qed.

Lemma digit2 b c : isByte b -> isByte c ->
  Z.lor (Z.land (Z.shiftr c 6) 3) (Z.land (Z.shiftl b 2) 63) = b mod 16 * 4 + c / 64.
Proof.
  intros Hb Hc. apply Z.eqb_eq. revert b c Hb Hc. unfold isByte.
  apply (forall_range2 256 256 (fun b c => Z.lor (Z.land (Z.shiftr c 6) 3) (Z.land (Z.shiftl b 2) 63) =? b mod 16 * 4 + c / 64)).
  by vm_compute.
Qed.

Lemma digit3 c : isByte c -> Z.land c 63 = c mod 64.
Proof. intros _. change 63 with (Z.ones 6). by rewrite Z.land_ones. Qed.

Lemma digit1_last a : isByte a -> Z.land (Z.shiftl a 4) 63 = a mod 4 * 16.
Proof.
  intros Ha. pose proof (digit1 a 0 Ha ltac:(unfold isByte; lia)) as H. cbn in H. rewrite Z.add_0_r in H. exact H.
Qed.

Lemma digit2_last b : isByte b -> Z.land (Z.shiftl b 2) 63 = b mod 16 * 4.
Proof.
  intros Hb. pose proof (digit2 b 0 Hb ltac:(unfold isByte; lia)) as H. cbn in H. rewrite Z.add_0_r in H. exact H.
Qed.

(** ** The reference encoder *)

Fixpoint digitsOf (data : list Z) : list Z :=
  match data with
  | a :: b :: c :: rest => a / 4 :: a mod 4 * 16 + b / 16 :: b mod 16 * 4 + c / 64 :: c mod 64 :: digitsOf rest
  | [a; b] => [a / 4; a mod 4 * 16 + b / 16; b mod 16 * 4]
  | [a] => [a / 4; a mod 4 * 16]
  | [] => []
  end.

(** Induction over groups of three bytes. *)
Lemma groups_ind (P : list Z -> Prop) :
  P [] -> (forall a, P [a]) -> (forall a b, P [a; b]) ->
  (forall a b c rest, P rest -> P (a :: b :: c :: rest)) -> forall data, P data.
Proof.
  intros H0 H1 H2 H3 data. remember (length data) as n eqn:En. revert data En.
  induction n as [n IH] using lt_wf_ind. intros [|a [|b [|c rest]]] En; auto.
  apply H3. apply (IH (length rest)); [cbn in En; lia|done].
Qed.

Definition padding (n : Z) : list Z := replicate (Z.to_nat ((- n) mod 4)) (chr "=").

(** The characters of the digits, padded to a multiple of four. *)
Definition charsOf (map : list Z) (ds : list Z) : list Z := (fun d => nth (Z.to_nat d) map 0) <$> ds.

Definition padded (map : list Z) (data : list Z) : list Z :=
  charsOf map (digitsOf data) ++ padding (Z.of_nat (length (digitsOf data))).

(** A newline before every character that would be the 77th of its line;
    [col] characters are on the line. *)
Fixpoint wrapFrom (col : Z) (l : list Z) : list Z :=
  match l with
  | [] => []
  | x :: l => if col =? 76 then 10 :: x :: wrapFrom 1 l else x :: wrapFrom (col + 1) l
  end.

Definition encodeSpec (policy : Base64EncodePolicy) (map : list Z) (data : list Z) : list Z :=
  match policy with
  | Base64DoNotInsertLFs => padded map data
  | Base64InsertLFs => wrapFrom 0 (padded map data)
  | Base64URLPolicy => charsOf map (digitsOf data)
  end.

Lemma digitsOf_length data : Z.of_nat (length (digitsOf data)) = (4 * Z.of_nat (length data) + 2) / 3.
Proof.
  induction data as [| | |a b c rest IH] using groups_ind; try reflexivity. cbn [digitsOf length]. lia.
Qed.

Lemma digitsOf_range data : Forall isByte data -> Forall isDigit6 (digitsOf data).
Proof.
  unfold isByte, isDigit6. induction data as [|a|a b|a b c rest IH] using groups_ind; cbn [digitsOf]; intros H;
    repeat (apply Forall_cons in H as [? H]); repeat constructor; try lia; auto.
Qed.

(** ** What the loops write *)

(** The line break the code writes before a group, when [count] characters
    are written. *)
Definition lf (insertLFs : bool) (count : Z) : list Z :=
  if insertLFs && negb (count =? 0) && (Z.rem count 76 =? 0) then [10] else [].

Fixpoint written (map : list Z) (insertLFs : bool) (count : Z) (data : list Z) : list Z :=
  match data with
  | a :: b :: c :: rest =>
      lf insertLFs count
      ++ charsOf map [a / 4; a mod 4 * 16 + b / 16; b mod 16 * 4 + c / 64; c mod 64]
      ++ written map insertLFs (if insertLFs then count + 4 else count) rest
  | [] => []
  | data => lf insertLFs count ++ charsOf map (digitsOf data)
  end.

Lemma emit_app w x r v : emit (w ++ x :: r, Z.of_nat (length w)) v = Some ((w ++ [v]) ++ r, Z.of_nat (length (w ++ [v]))).
Proof.
  unfold emit, put. rewrite length_app. cbn [length].
  rewrite (proj2 (andb_true_iff _ _)) by (rewrite Z.leb_le, Z.ltb_lt; lia). cbn [mbind option_bind].
  rewrite Nat2Z.id, insert_app_r_alt, Nat.sub_diag by lia. cbn. rewrite <- app_assoc, length_app. cbn.
  do 3 f_equal. lia.
Qed.

(** Writing one more character: [w] is written, [r] is room. *)
Lemma emit_one w r v :
  (0 < length r)%nat ->
  emit (w ++ r, Z.of_nat (length w)) v = Some ((w ++ [v]) ++ drop 1 r, Z.of_nat (length (w ++ [v]))).
Proof. destruct r as [|x r]; [cbn; lia|]. intros _. rewrite emit_app. done. Qed.

Lemma get_app l x r i : i = Z.of_nat (length l) -> get (l ++ x :: r) i = Some x.
Proof.
  intros ->. unfold get. rewrite (proj2 (Z.ltb_ge _ 0)), Nat2Z.id, lookup_app_r, Nat.sub_diag by lia. done.
Qed.

Section Writes.

Context (map : list Z) (insertLFs : bool).
Hypothesis Hmap : length map = 64%nat.

Lemma get_map d : isDigit6 d -> get map d = Some (nth (Z.to_nat d) map 0).
Proof using Hmap.
  unfold isDigit6. intros Hd. unfold get. rewrite (proj2 (Z.ltb_ge d 0)) by lia.
  destruct (lookup_lt_is_Some_2 map (Z.to_nat d) ltac:(lia)) as [x Hx]. rewrite Hx. f_equal.
  by rewrite (nth_lookup_Some map (Z.to_nat d) 0 x Hx).
Qed.

(** [emit] of the character of a digit. *)
Lemma emit_digit {B} d w r (k : list Z * Z -> option B) :
  isDigit6 d -> (0 < length r)%nat ->
  (c ← get map d; s ← emit (w ++ r, Z.of_nat (length w)) c; k s)
  = k ((w ++ charsOf map [d]) ++ drop 1 r, Z.of_nat (length (w ++ charsOf map [d]))).
Proof using Hmap. intros Hd Hr. rewrite get_map by done. cbn [mbind option_bind]. by rewrite emit_one. Qed.

Lemma emit_digit_last d w r :
  isDigit6 d -> (0 < length r)%nat ->
  (c ← get map d; emit (w ++ r, Z.of_nat (length w)) c)
  = Some ((w ++ charsOf map [d]) ++ drop 1 r, Z.of_nat (length (w ++ charsOf map [d]))).
Proof using Hmap. intros Hd Hr. rewrite get_map by done. cbn [mbind option_bind]. by rewrite emit_one. Qed.

Lemma emitLF_spec count w r :
  (length (lf insertLFs count) <= length r)%nat ->
  emitLF insertLFs count (w ++ r, Z.of_nat (length w))
  = Some ((w ++ lf insertLFs count) ++ drop (length (lf insertLFs count)) r, Z.of_nat (length (w ++ lf insertLFs count))).
Proof using Type.
  unfold emitLF, lf. step_if; cbn [length]; intros Hr; [by rewrite emit_one|]. by rewrite app_nil_r.
Qed.

End Writes.

(** The loop and the tail together write [written]. *)
Definition encodeRest (data map : list Z) (insertLFs : bool) (fuel : nat) (sidx count : Z) (s : list Z * Z) : option (list Z * Z) :=
  '(sidx, count, s) ← encodeLoop data map insertLFs fuel (Z.of_nat (length data)) sidx count s;
  encodeTail data map insertLFs (Z.of_nat (length data)) sidx count s.

Lemma tailLF_spec insertLFs count w r :
  0 <= count -> (length (lf insertLFs count) <= length r)%nat ->
  (if insertLFs && (0 <? count) && (Z.rem count 76 =? 0) then emit (w ++ r, Z.of_nat (length w)) 10
   else Some (w ++ r, Z.of_nat (length w)))
  = Some ((w ++ lf insertLFs count) ++ drop (length (lf insertLFs count)) r, Z.of_nat (length (w ++ lf insertLFs count))).
Proof.
  intros Hc Hr. rewrite <- (emitLF_spec insertLFs count w r Hr). unfold emitLF.
  replace (0 <? count) with (negb (count =? 0)); [done|].
  destruct (Z.eqb_spec count 0), (Z.ltb_spec 0 count); done || lia.
Qed.

(** Room for the characters written so far is taken from the front. *)
Lemma drop_room (r : list Z) n m : drop n (drop m r) = drop (m + n) r.
Proof. by rewrite drop_drop. Qed.

Lemma bytes_div a b c : isByte a -> isByte b -> isByte c ->
  isDigit6 (a / 4) /\ isDigit6 (a mod 4 * 16 + b / 16) /\ isDigit6 (b mod 16 * 4 + c / 64) /\ isDigit6 (c mod 64) /\
  isDigit6 (a mod 4 * 16) /\ isDigit6 (b mod 16 * 4).
Proof. unfold isByte, isDigit6. lia. Qed.

Lemma charsOf_cons map d ds : charsOf map (d :: ds) = charsOf map [d] ++ charsOf map ds.
Proof. done. Qed.

(** Two states of the output that differ in how the room is counted. *)
Ltac same_output :=
  rewrite ?drop_room, <- ?app_assoc; cbn [length charsOf fmap list_fmap app];
  try apply (f_equal Some); apply (f_equal2 pair);
  [ repeat match goal with
    | |- ?x ++ _ = ?x ++ _ => apply (f_equal (app x))
    | |- ?x :: _ = ?x :: _ => apply (f_equal (cons x))
    | |- drop _ ?r = drop _ ?r => apply (f_equal (fun n => drop n r))
    end
  | apply (f_equal Z.of_nat) ];
  repeat (rewrite length_app || cbn [length app]); try lia.

(** The loop stops at the last one or two bytes. *)
Lemma encodeLoop_stop data map insertLFs fuel len sidx count s :
  len - 2 <= sidx -> encodeLoop data map insertLFs (S fuel) len sidx count s = Some (sidx, count, s).
Proof. intros H. cbn [encodeLoop]. by rewrite (proj2 (Z.ltb_ge _ _)) by lia. Qed.

Lemma encodeTail_none data map insertLFs len sidx count s :
  len <= sidx -> encodeTail data map insertLFs len sidx count s = Some s.
Proof. intros H. unfold encodeTail. by rewrite (proj2 (Z.ltb_ge _ _)) by lia. Qed.

Section Rest.

Context (data map : list Z) (insertLFs : bool).
Hypothesis Hmap : length map = 64%nat.
Let len := Z.of_nat (length data).

(** The tail with one byte, and with two. *)
Lemma encodeTail_one done_ a w r count :
  data = done_ ++ [a] -> isByte a -> 0 <= count ->
  (length (written map insertLFs count [a]) <= length r)%nat ->
  encodeTail data map insertLFs len (Z.of_nat (length done_)) count (w ++ r, Z.of_nat (length w))
  = Some ((w ++ written map insertLFs count [a]) ++ drop (length (written map insertLFs count [a])) r,
          Z.of_nat (length (w ++ written map insertLFs count [a]))).
Proof using Hmap.
  intros Hdata Ha Hc Hr. destruct (bytes_div a 0 0 Ha ltac:(unfold isByte; lia) ltac:(unfold isByte; lia)) as (H0 & _ & _ & _ & H1 & _).
  cbn [written digitsOf] in *. unfold charsOf in Hr. rewrite length_app, length_fmap in Hr. cbn [length] in Hr.
  assert (len = Z.of_nat (length done_) + 1) as Hl by (unfold len; rewrite Hdata, length_app; cbn; lia).
  unfold encodeTail. rewrite (proj2 (Z.ltb_lt _ _)), (proj2 (Z.ltb_ge _ (_ - 1))) by lia.
  rewrite tailLF_spec by (done || lia). cbn [mbind option_bind].
  rewrite Hdata, (get_app done_ a []) by done. cbn [mbind option_bind]. rewrite digit0, digit1_last by done.
  rewrite (emit_digit map Hmap) by (done || rewrite length_drop; lia).
  rewrite (emit_digit_last map Hmap) by (done || rewrite !length_drop; lia).
  same_output.
Qed.

Lemma encodeTail_two done_ a b w r count :
  data = done_ ++ [a; b] -> isByte a -> isByte b -> 0 <= count ->
  (length (written map insertLFs count [a; b]) <= length r)%nat ->
  encodeTail data map insertLFs len (Z.of_nat (length done_)) count (w ++ r, Z.of_nat (length w))
  = Some ((w ++ written map insertLFs count [a; b]) ++ drop (length (written map insertLFs count [a; b])) r,
          Z.of_nat (length (w ++ written map insertLFs count [a; b]))).
Proof using Hmap.
  intros Hdata Ha Hb Hc Hr. destruct (bytes_div a b 0 Ha Hb ltac:(unfold isByte; lia)) as (H0 & H1 & _ & _ & _ & H2).
  cbn [written digitsOf] in *. unfold charsOf in Hr. rewrite length_app, length_fmap in Hr. cbn [length] in Hr.
  assert (len = Z.of_nat (length done_) + 2) as Hl by (unfold len; rewrite Hdata, length_app; cbn; lia).
  unfold encodeTail. rewrite (proj2 (Z.ltb_lt _ len)), (proj2 (Z.ltb_lt _ (len - 1))) by lia.
  rewrite tailLF_spec by (done || lia). cbn [mbind option_bind].
  rewrite Hdata, (get_app done_ a [b] (Z.of_nat (length done_))) by done. cbn [mbind option_bind].
  rewrite (cons_middle a), app_assoc, (get_app (done_ ++ [a]) b []) by (rewrite length_app; cbn; lia). cbn [mbind option_bind].
  rewrite digit0, digit1, digit2_last by done.
  rewrite (emit_digit map Hmap) by (done || rewrite length_drop; lia).
  rewrite (emit_digit map Hmap) by (done || rewrite !length_drop; lia).
  rewrite (emit_digit_last map Hmap) by (done || rewrite !length_drop; lia).
  same_output.
Qed.

(** One round of the loop. *)
Lemma encodeLoop_step fuel done_ a b c rest w r count :
  data = done_ ++ a :: b :: c :: rest -> isByte a -> isByte b -> isByte c ->
  (length (lf insertLFs count) + 4 <= length r)%nat ->
  let w' := w ++ lf insertLFs count ++ charsOf map [a / 4; a mod 4 * 16 + b / 16; b mod 16 * 4 + c / 64; c mod 64] in
  encodeLoop data map insertLFs (S fuel) len (Z.of_nat (length done_)) count (w ++ r, Z.of_nat (length w))
  = encodeLoop data map insertLFs fuel len (Z.of_nat (length (done_ ++ [a; b; c])))
      (if insertLFs then i32 (count + 4) else count) (w' ++ drop (length (lf insertLFs count) + 4) r, Z.of_nat (length w')).
Proof using Hmap.
  intros Hdata Ha Hb Hc Hr. destruct (bytes_div a b c Ha Hb Hc) as (H0 & H1 & H2 & H3 & _). cbn zeta. cbn [encodeLoop].
  assert (Z.of_nat (length done_) + 2 < len) as Hl by (unfold len; rewrite Hdata, length_app; cbn; lia).
  rewrite (proj2 (Z.ltb_lt _ _)) by lia. rewrite emitLF_spec by lia. cbn [mbind option_bind].
  assert (get data (Z.of_nat (length done_)) = Some a) as -> by (rewrite Hdata; by apply get_app).
  assert (get data (Z.of_nat (length done_) + 1) = Some b) as ->.
  { rewrite Hdata, (cons_middle a), app_assoc. apply get_app. rewrite length_app. cbn. lia. }
  assert (get data (Z.of_nat (length done_) + 2) = Some c) as ->.
  { rewrite Hdata, (cons_middle a), app_assoc, (cons_middle b), app_assoc. apply get_app. rewrite !length_app. cbn. lia. }
  cbn [mbind option_bind]. rewrite digit0, digit1, digit2, digit3 by done.
  do 4 (rewrite (emit_digit map Hmap) by (done || rewrite ?length_drop; lia)).
  rewrite ?drop_room, <- ?app_assoc. f_equal. rewrite length_app. cbn. lia.
Qed.

Lemma encodeRest_spec rest : forall fuel done_ w r count,
  data = done_ ++ rest -> Forall isByte rest -> (length rest < fuel)%nat ->
  0 <= count -> (insertLFs = true -> count + 2 * Z.of_nat (length rest) < 2 ^ 31) ->
  (length (written map insertLFs count rest) <= length r)%nat ->
  encodeRest data map insertLFs fuel (Z.of_nat (length done_)) count (w ++ r, Z.of_nat (length w))
  = Some ((w ++ written map insertLFs count rest) ++ drop (length (written map insertLFs count rest)) r,
          Z.of_nat (length (w ++ written map insertLFs count rest))).
Proof using Hmap.
  induction rest as [|a|a b|a b c rest IH] using groups_ind; intros [|fuel] done_ w r count Hdata Hbytes Hfuel Hc Hcount Hr;
    try (cbn [length] in Hfuel; lia); repeat (apply Forall_cons in Hbytes as [? Hbytes]).
  1-3: assert (len = Z.of_nat (length done_) + Z.of_nat (length data - length done_)) as Hl
         by (unfold len; rewrite Hdata, length_app; lia);
       rewrite Hdata, length_app in Hl; cbn [length] in Hl;
       unfold encodeRest; fold len; rewrite encodeLoop_stop by lia; cbn [mbind option_bind].
  - rewrite encodeTail_none by lia. cbn [written length drop]. by rewrite app_nil_r.
  - by apply encodeTail_one.
  - by apply encodeTail_two.
  - cbn [written] in *. rewrite !length_app in Hr. cbn [length charsOf fmap list_fmap] in Hr. unfold encodeRest. fold len.
    rewrite (encodeLoop_step fuel done_ a b c rest) by (done || lia).
    replace (if insertLFs then i32 (count + 4) else count) with (if insertLFs then count + 4 else count).
    2: { destruct insertLFs; [|done]. symmetry. apply i32_id. unfold is_i32, INT_MIN, INT_MAX.
         specialize (Hcount eq_refl). cbn [length] in Hcount. lia. }
    unfold encodeRest in IH. fold len in IH. rewrite IH.
    + same_output.
    + by rewrite Hdata, <- app_assoc.
    + done.
    + cbn [length] in Hfuel. lia.
    + destruct insertLFs; lia.
    + intros E. specialize (Hcount E). rewrite E. cbn [length] in Hcount. lia.
    + rewrite length_drop. lia.
Qed.

End Rest.

(** ** The written characters are the reference's *)

Lemma written_plain map count data : written map false count data = charsOf map (digitsOf data).
Proof.
  revert count. induction data as [|a|a b|a b c rest IH] using groups_ind; intros count; try done.
  cbn [written digitsOf lf andb app]. rewrite IH. done.
Qed.

(** How many characters are on the line after [count] of them. *)
Definition column (count : Z) : Z := if count =? 0 then 0 else (count - 1) mod 76 + 1.

Lemma lf_column count : 0 <= count -> lf true count = if column count =? 76 then [10] else [].
Proof.
  intros Hc. unfold lf, column. rewrite Z.rem_mod_nonneg by lia. cbn [andb].
  destruct (Z.eqb_spec count 0) as [->|]; [done|]. cbn [negb andb].
  destruct (Z.eqb_spec (count mod 76) 0), (Z.eqb_spec ((count - 1) mod 76 + 1) 76); done || lia.
Qed.

Lemma column_next count :
  0 <= count -> count mod 4 = 0 -> column (count + 4) = if column count =? 76 then 4 else column count + 4.
Proof.
  intros Hc H4. unfold column. rewrite (proj2 (Z.eqb_neq (count + 4) 0)) by lia.
  destruct (Z.eqb_spec count 0) as [->|]; [done|]. destruct (Z.eqb_spec ((count - 1) mod 76 + 1) 76); lia.
Qed.

Lemma column_four count : 0 <= count -> count mod 4 = 0 -> column count mod 4 = 0 /\ 0 <= column count <= 76.
Proof. intros Hc H4. unfold column. destruct (Z.eqb_spec count 0); lia. Qed.

(** A group of four is never broken. *)
Lemma wrapFrom_four col x0 x1 x2 x3 l :
  col mod 4 = 0 -> 0 <= col <= 76 ->
  wrapFrom col (x0 :: x1 :: x2 :: x3 :: l)
  = (if col =? 76 then [10] else []) ++ [x0; x1; x2; x3] ++ wrapFrom (if col =? 76 then 4 else col + 4) l.
Proof.
  intros H4 Hcol. cbn [wrapFrom]. destruct (Z.eqb_spec col 76); [done|].
  rewrite !(proj2 (Z.eqb_neq _ 76)) by lia. cbn [app]. do 5 f_equal. lia.
Qed.

Lemma padding_four n : padding (4 + n) = padding n.
Proof. unfold padding. do 2 f_equal. lia. Qed.

Lemma padded_four map a b c rest :
  padded map (a :: b :: c :: rest)
  = charsOf map [a / 4; a mod 4 * 16 + b / 16; b mod 16 * 4 + c / 64; c mod 64] ++ padded map rest.
Proof.
  unfold padded. cbn [digitsOf length]. rewrite !Nat2Z.inj_succ.
  replace (Z.succ _) with (4 + Z.of_nat (length (digitsOf rest))) by lia. by rewrite padding_four.
Qed.

Lemma written_wrapped map data count :
  0 <= count -> count mod 4 = 0 ->
  written map true count data ++ padding (Z.of_nat (length (digitsOf data))) = wrapFrom (column count) (padded map data).
Proof.
  revert count. induction data as [|a|a b|a b c rest IH] using groups_ind; intros count Hc H4;
    [done| | |]; destruct (column_four count Hc H4) as [Hcol Hrange].
  1-2: cbn [written]; rewrite lf_column, <- app_assoc by done; unfold padded, charsOf;
       cbn [digitsOf length fmap list_fmap padding app];
       change (padding _) with [chr "="; chr "="] || change (padding _) with [chr "="];
       cbn [app]; rewrite wrapFrom_four by done; done.
  rewrite padded_four. cbn [written]. rewrite lf_column, <- !app_assoc by done. cbn [digitsOf length].
  rewrite !Nat2Z.inj_succ. replace (Z.succ _) with (4 + Z.of_nat (length (digitsOf rest))) by lia.
  rewrite padding_four, IH, column_next by lia. unfold charsOf at 2. cbn [fmap list_fmap app].
  rewrite wrapFrom_four by done. done.
Qed.

(** ** Lengths *)

Lemma padded_length map data : Z.of_nat (length (padded map data)) = (Z.of_nat (length data) + 2) / 3 * 4.
Proof.
  unfold padded, padding, charsOf. rewrite length_app, length_fmap, length_replicate, Nat2Z.inj_add, digitsOf_length. lia.
Qed.

Lemma wrapFrom_length l : forall col,
  0 <= col <= 76 -> l <> [] -> Z.of_nat (length (wrapFrom col l)) = Z.of_nat (length l) + (col + Z.of_nat (length l) - 1) / 76.
Proof.
  induction l as [|x l IH]; [done|]. intros col Hcol _. cbn [wrapFrom].
  destruct (decide (l = [])) as [->|Hl].
  - destruct (Z.eqb_spec col 76); cbn [wrapFrom length]; lia.
  - destruct (Z.eqb_spec col 76); cbn [length]; rewrite !Nat2Z.inj_succ, IH by (done || lia); lia.
Qed.

Lemma wrapFrom_short l : forall col, col + Z.of_nat (length l) <= 76 -> wrapFrom col l = l.
Proof.
  induction l as [|x l IH]; [done|]. intros col H. cbn [wrapFrom length] in *.
  rewrite (proj2 (Z.eqb_neq col 76)), IH by lia. done.
Qed.

Lemma pad_spec r : forall fuel w,
  (length r < fuel)%nat -> pad fuel (w ++ r) (Z.of_nat (length w)) = Some (w ++ replicate (length r) (chr "=")).
Proof.
  induction r as [|x r IH]; intros [|fuel] w Hf; try (cbn in Hf; lia); cbn [pad]; rewrite length_app; cbn [length replicate].
  - by rewrite (proj2 (Z.ltb_ge _ _)) by lia.
  - rewrite (proj2 (Z.ltb_lt _ _)) by lia. pose proof (emit_app w x r (chr "=")) as He. unfold emit in He.
    destruct (put (w ++ x :: r) (Z.of_nat (length w)) (chr "=")) as [out|]; [|done]. cbn [mbind option_bind] in *.
    injection He as -> ->. rewrite IH by (cbn in Hf; lia). by rewrite <- app_assoc.
Qed.

(** ** The encoder *)

Definition stages (data map : list Z) (insertLFs : bool) (outLength : Z) : option (list Z * Z) :=
  encodeRest data map insertLFs (S (length data)) 0 0 (replicate (Z.to_nat outLength) 0, 0).

Lemma base64EncodeInternal_stages data policy map :
  0 < Z.of_nat (length data) <= maxInputBufferSize ->
  let outLength := Z.of_nat (length (padded map data)) in
  let insertLFs := match policy with Base64InsertLFs => 76 <? outLength | _ => false end in
  base64EncodeInternal data policy map
  = '(out, didx) ← stages data map insertLFs (if insertLFs then outLength + (outLength - 1) / 76 else outLength);
    match policy with
    | Base64URLPolicy => Some (take (Z.to_nat didx) out)
    | _ => pad (S (length out)) out didx
    end.
Proof.
  intros Hlen. cbn zeta. unfold base64EncodeInternal. pose proof (padded_length map data) as HL.
  change maxInputBufferSize with 3179391370 in *. rewrite (proj2 (Z.eqb_neq _ 0)), (proj2 (Z.ltb_ge _ _)) by lia.
  assert (u32 (u32 (u32 (Z.of_nat (length data) + 2) / 3) * 4) = Z.of_nat (length (padded map data))) as ->
    by (rewrite HL; unfold u32; rewrite !Z.mod_small; lia).
  unfold stages, encodeRest. set (insertLFs := match policy with Base64InsertLFs => _ | _ => _ end).
  assert ((if insertLFs then u32 (Z.of_nat (length (padded map data)) + (Z.of_nat (length (padded map data)) - 1) / 76)
           else Z.of_nat (length (padded map data)))
          = if insertLFs then Z.of_nat (length (padded map data)) + (Z.of_nat (length (padded map data)) - 1) / 76
            else Z.of_nat (length (padded map data))) as ->.
  { destruct insertLFs; [|done]. unfold u32. apply Z.mod_small. lia. }
  destruct (Z.ltb_spec 1 (Z.of_nat (length data))).
  - by destruct (encodeLoop _ _ _ _ _ _ _ _) as [[[] ?]|].
  - rewrite encodeLoop_stop by lia. done.
Qed.

(** Enough room gives the written characters and the room that is left. *)
Lemma stages_spec data map insertLFs outLength :
  length map = 64%nat -> Forall isByte data ->
  (insertLFs = true -> 2 * Z.of_nat (length data) < 2 ^ 31) ->
  Z.of_nat (length (written map insertLFs 0 data)) <= outLength ->
  stages data map insertLFs outLength
  = Some (written map insertLFs 0 data ++ replicate (Z.to_nat outLength - length (written map insertLFs 0 data)) 0,
          Z.of_nat (length (written map insertLFs 0 data))).
Proof.
  intros Hmap Hb Hc Hl. unfold stages.
  pose proof (encodeRest_spec data map insertLFs Hmap data (S (length data)) [] [] (replicate (Z.to_nat outLength) 0) 0) as H.
  cbn [length app] in H. rewrite drop_replicate in H. apply H; try done; [lia|]. rewrite length_replicate. lia.
Qed.

Lemma encode_pads data map insertLFs outLength full :
  length map = 64%nat -> Forall isByte data ->
  (insertLFs = true -> 2 * Z.of_nat (length data) < 2 ^ 31) ->
  full = written map insertLFs 0 data ++ padding (Z.of_nat (length (digitsOf data))) ->
  Z.of_nat (length full) = outLength ->
  ('(out, didx) ← stages data map insertLFs outLength; pad (S (length out)) out didx) = Some full.
Proof.
  intros Hmap Hb Hc -> Hl. rewrite length_app in Hl. rewrite stages_spec by (done || lia). cbn [mbind option_bind].
  rewrite pad_spec by (rewrite length_app; lia). rewrite length_replicate. unfold padding in *.
  rewrite length_replicate in Hl. do 3 f_equal. lia.
Qed.
