(* ===== verification/Base64Decode.v ===== *)
(** * Base64Decode: what the decoder accepts and returns

    The reference reads the text without the characters it ignores as digits
    of the alphabet followed by equals signs. *)

From S2P Require Import Prelude ASCIICType Base64 Base64Encode.
Import Base64.

#[local] Ltac Zify.zify_post_hook ::= Z.div_mod_to_equations.

(** ** The reference decoder *)

Fixpoint decodeDigits (ds : list Z) : list Z :=
  match ds with
  | a :: b :: c :: d :: rest => a * 4 + b / 16 :: b mod 16 * 16 + c / 4 :: c mod 4 * 64 + d :: decodeDigits rest
  | [a; b; c] => [a * 4 + b / 16; b mod 16 * 16 + c / 4]
  | [a; b] => [a * 4 + b / 16]
  | _ => []
  end.

(** The value of a character of the alphabet. *)
Definition digitValue (decodeMap : list Z) (c : Z) : Z := if c <? 128 then nth (Z.to_nat c) decodeMap (-1) else -1.

Section Spec.

Context (isWhiteSpaceNeutral : Z -> bool) (decodeMap : list Z) (options : Z).

Definition ignored (c : Z) : bool :=
  negb (c =? chr "=") && (digitValue decodeMap c =? -1) && hasOption options Base64IgnoreSpacesAndNewLines
  && isSpaceOrNewline isWhiteSpaceNeutral c.

(** The digits before the first equals sign, and what follows. *)
Fixpoint splitEquals (text : list Z) : list Z * list Z :=
  match text with
  | [] => ([], [])
  | c :: text => if c =? chr "=" then ([], c :: text) else let (ds, es) := splitEquals text in (c :: ds, es)
  end.

Definition decodeSpec (text : list Z) : option (list Z) :=
  let '(ds, es) := splitEquals (List.filter (fun c => negb (ignored c)) text) in
  let n := Z.of_nat (length ds) in
  let k := Z.of_nat (length es) in
  if forallb (fun c => negb (digitValue decodeMap c =? -1)) ds
     && forallb (fun c => c =? chr "=") es
     && (negb (hasOption options Base64ValidatePadding) || (k <=? 2) && ((k =? 0) || ((n + k) mod 4 =? 0)))
     && negb (n mod 4 =? 1)
     && (negb (n =? 0) || (k =? 0))
  then Some (decodeDigits (digitValue decodeMap <$> ds)) else None.

End Spec.

(** ** The digits the first loop reads *)

Lemma decoded_value decodeMap ch :
  length decodeMap = 128%nat -> 0 <= ch -> (if ch <? 128 then get decodeMap ch else Some nonAlphabet) = Some (digitValue decodeMap ch).
Proof.
  intros Hmap H. unfold digitValue. destruct (Z.ltb_spec ch 128); [|done]. unfold get.
  rewrite (proj2 (Z.ltb_ge ch 0)) by lia.
  destruct (lookup_lt_is_Some_2 decodeMap (Z.to_nat ch) ltac:(lia)) as [x Hx]. rewrite Hx. f_equal.
  by rewrite (nth_lookup_Some _ _ _ _ Hx).
Qed.

Lemma splitEquals_app text ds es :
  splitEquals text = (ds, es) -> text = ds ++ es /\ Forall (fun c => c <> chr "=") ds.
Proof.
  revert ds es. induction text as [|c text IH]; cbn [splitEquals]; intros ds es E; [by injection E as <- <-|].
  destruct (Z.eqb_spec c (chr "=")); [by injection E as <- <-|].
  destruct (splitEquals text) as [ds' es']. injection E as <- <-. destruct (IH _ _ eq_refl) as [-> H]. eauto.
Qed.

Section ScanSpec.

Context (decodeMap : list Z) (options : Z).

(** [scan] from the specification's split. *)
Definition scanSpec (text : list Z) (equals : Z) : option (list Z * Z) :=
  let '(ds, es) := splitEquals text in
  let k := Z.of_nat (length es) in
  if forallb (fun c => negb (digitValue decodeMap c =? -1)) ds && forallb (fun c => c =? chr "=") es
     && ((equals =? 0) || (Z.of_nat (length ds) =? 0))
     && (negb (hasOption options Base64ValidatePadding) || (k =? 0) || (equals + k <=? 2))
  then Some (digitValue decodeMap <$> ds, equals + k) else None.

Lemma scanSpec_equals text equals :
  0 <= equals ->
  scanSpec (chr "=" :: text) equals
  = if hasOption options Base64ValidatePadding && (2 <? equals + 1) then None else scanSpec text (equals + 1).
Proof.
  intros He. unfold scanSpec. cbn [splitEquals]. rewrite Z.eqb_refl. destruct (splitEquals text) as [ds es] eqn:Es.
  destruct (splitEquals_app text ds es Es) as [-> Hds]. cbn [forallb length]. rewrite Z.eqb_refl, forallb_app, length_app.
  rewrite (proj2 (Z.eqb_neq (equals + 1) 0)) by lia. cbn [andb orb].
  destruct ds as [|d ds].
  - cbn [forallb length app fmap list_fmap]. destruct (forallb _ es); cbn [andb]; [|by step_if].
    replace (equals + 1 + Z.of_nat (length es)) with (equals + Z.of_nat (S (length es))) by lia.
    destruct (hasOption options Base64ValidatePadding); cbn [negb andb orb]; [|by rewrite !orb_true_r].
    change (0 + length es)%nat with (length es). change (Z.of_nat 0 =? 0) with true. rewrite orb_true_r. cbn [andb].
    rewrite (proj2 (Z.eqb_neq (Z.of_nat (S (length es))) 0)) by lia.
    destruct (Z.eqb_spec (Z.of_nat (length es)) 0), (Z.ltb_spec 2 (equals + 1)),
      (Z.leb_spec (equals + Z.of_nat (S (length es))) 2); cbn [orb]; done || lia.
  - apply Forall_cons in Hds as [Hd _]. cbn [forallb]. rewrite (proj2 (Z.eqb_neq _ _) Hd). cbn [andb].
    cbn [length]. rewrite (proj2 (Z.eqb_neq (Z.of_nat (S (length ds))) 0)) by lia. rewrite !andb_false_r. by step_if.
Qed.

End ScanSpec.

Section Scan.

Context (isWhiteSpaceNeutral : Z -> bool) (decodeMap : list Z) (options : Z).

(** The first loop without its vector. *)
Fixpoint scan (data : list Z) (equals : Z) : option (list Z * Z) :=
  match data with
  | [] => Some ([], equals)
  | c :: data =>
      if c =? chr "=" then
        if hasOption options Base64ValidatePadding && (2 <? equals + 1) then None else scan data (equals + 1)
      else if negb (digitValue decodeMap c =? -1) then
        if negb (equals =? 0) then None
        else match scan data equals with
             | Some (ds, k) => Some (digitValue decodeMap c :: ds, k)
             | None => None
             end
      else if ignored isWhiteSpaceNeutral decodeMap options c then scan data equals else None
  end.

(** The loop writes the digits of [scan] after those already in the vector;
    with room for every character no write is out of range. *)
Lemma readDigits_spec data : forall w r equals,
  length decodeMap = 128%nat -> Forall (fun c => 0 <= c) data -> (length data <= length r)%nat ->
  match scan data equals with
  | Some (ds, k) =>
      readDigits isWhiteSpaceNeutral data decodeMap options (w ++ r) (Z.of_nat (length w)) equals
      = Some ((w ++ ds) ++ drop (length ds) r, Z.of_nat (length (w ++ ds)), k, false)
  | None =>
      exists out n k, readDigits isWhiteSpaceNeutral data decodeMap options (w ++ r) (Z.of_nat (length w)) equals
                      = Some (out, n, k, true)
  end.
Proof.
  induction data as [|c data IH]; intros w r equals Hmap Hd Hr; cbn [scan readDigits].
  - by rewrite app_nil_r.
  - apply Forall_cons in Hd as [Hc Hd]. cbn [length] in Hr. destruct (c =? chr "=") eqn:Ee.
    + destruct (_ && _); [eauto|]. apply IH; [done..|lia].
    + rewrite decoded_value by done. cbn [mbind option_bind]. unfold nonAlphabet, ignored. rewrite Ee. cbn [negb andb].
      destruct (digitValue decodeMap c =? -1); cbn [negb andb].
      * destruct (hasOption options Base64IgnoreSpacesAndNewLines), (isSpaceOrNewline isWhiteSpaceNeutral c);
          cbn [negb andb orb]; [apply IH; [done..|lia] | eauto..].
      * destruct (equals =? 0); cbn [negb]; [|eauto]. destruct r as [|x r]; [cbn in Hr; lia|].
        pose proof (emit_app w x r (digitValue decodeMap c)) as He. unfold emit in He.
        destruct (put _ _ _) as [out|]; [|done]. cbn [mbind option_bind] in *. injection He as -> ->.
        specialize (IH (w ++ [digitValue decodeMap c]) r equals Hmap Hd ltac:(cbn in Hr; lia)).
        destruct (scan data equals) as [[ds k]|]; [|done]. rewrite IH. by rewrite <- !app_assoc.
Qed.

Lemma scan_spec data : forall equals,
  0 <= equals ->
  scan data equals = scanSpec decodeMap options (List.filter (fun c => negb (ignored isWhiteSpaceNeutral decodeMap options c)) data) equals.
Proof.
  induction data as [|c data IH]; intros equals He; cbn [scan List.filter].
  - unfold scanSpec. cbn. by rewrite !orb_true_r, Z.add_0_r.
  - destruct (Z.eqb_spec c (chr "=")) as [->|Hc].
    + unfold ignored at 1. rewrite Z.eqb_refl. cbn [negb andb]. rewrite scanSpec_equals by done.
      by rewrite IH by lia.
    + destruct (digitValue decodeMap c =? -1) eqn:Ed; cbn [negb].
      * destruct (ignored _ _ _ c) eqn:Ei; cbn [negb]; [by apply IH|].
        unfold scanSpec. cbn [splitEquals]. rewrite (proj2 (Z.eqb_neq _ _) Hc). destruct (splitEquals _) as [ds es].
        cbn [forallb]. by rewrite Ed.
      * unfold ignored at 1. rewrite Ed, andb_false_r. cbn [negb andb]. rewrite IH by done. unfold scanSpec.
        cbn [splitEquals]. rewrite (proj2 (Z.eqb_neq _ _) Hc). destruct (splitEquals _) as [ds es].
        cbn [forallb length]. rewrite Ed. cbn [negb andb].
        rewrite (proj2 (Z.eqb_neq (Z.of_nat (S (length ds))) 0)) by lia.
        destruct (equals =? 0); cbn [negb orb]; [|by rewrite andb_false_r]. by step_if.
Qed.

End Scan.

(** ** The conversion in place *)

Lemma byte0 a b : isDigit6 a -> isDigit6 b -> Z.lor (Z.land (Z.shiftl a 2) 255) (Z.land (Z.shiftr b 4) 3) = a * 4 + b / 16.
Proof.
  intros Ha Hb. apply Z.eqb_eq. revert a b Ha Hb.
  apply (forall_range2 64 64 (fun a b => Z.lor (Z.land (Z.shiftl a 2) 255) (Z.land (Z.shiftr b 4) 3) =? a * 4 + b / 16)).
  by vm_compute.
Qed.

Lemma byte1 b c : isDigit6 b -> isDigit6 c ->
  Z.lor (Z.land (Z.shiftl b 4) 255) (Z.land (Z.shiftr c 2) 15) = b mod 16 * 16 + c / 4.
Proof.
  intros Hb Hc. apply Z.eqb_eq. revert b c Hb Hc.
  apply (forall_range2 64 64 (fun b c => Z.lor (Z.land (Z.shiftl b 4) 255) (Z.land (Z.shiftr c 2) 15) =? b mod 16 * 16 + c / 4)).
  by vm_compute.
Qed.

Lemma byte2 c d : isDigit6 c -> isDigit6 d -> Z.lor (Z.land (Z.shiftl c 6) 255) (Z.land d 63) = c mod 4 * 64 + d.
Proof.
  intros Hc Hd. apply Z.eqb_eq. revert c d Hc Hd.
  apply (forall_range2 64 64 (fun c d => Z.lor (Z.land (Z.shiftl c 6) 255) (Z.land d 63) =? c mod 4 * 64 + d)).
  by vm_compute.
Qed.

(** The vector holds [bytes] at the front and still the digits [ds] from
    position [from]. *)
Record Holds (ds bytes : list Z) (from : nat) (out : list Z) : Prop := {
  holds_length : length out = length ds;
  holds_bytes : take (length bytes) out = bytes;
  holds_digits : forall i, (from <= i)%nat -> out !! i = ds !! i }.

Lemma get_digit ds bytes from out i z d :
  Holds ds bytes from out -> (from <= i)%nat -> z = Z.of_nat i -> ds !! i = Some d -> get out z = Some d.
Proof.
  intros H Hi -> Hd. unfold get. rewrite (proj2 (Z.ltb_ge _ 0)), Nat2Z.id by lia. by rewrite (holds_digits _ _ _ _ H).
Qed.

(** The next byte overwrites a digit that is not needed any more. *)
Lemma put_byte ds bytes from out x :
  Holds ds bytes from out -> (length bytes <= from)%nat -> (length bytes < length ds)%nat ->
  exists out', put out (Z.of_nat (length bytes)) x = Some out' /\ Holds ds (bytes ++ [x]) (S from) out'.
Proof.
  intros [Hl Hb Hd] Hf Hn. unfold put. rewrite (proj2 (andb_true_iff _ _)) by (rewrite Z.leb_le, Z.ltb_lt; lia).
  eexists. split; [done|]. rewrite Nat2Z.id. constructor.
  - by rewrite length_insert.
  - rewrite length_app. cbn. rewrite Nat.add_1_r. rewrite (take_S_r _ _ x).
    + by rewrite take_insert_ge, Hb by lia.
    + apply list_lookup_insert_eq. lia.
  - intros i Hi. rewrite list_lookup_insert_ne by lia. apply Hd. lia.
Qed.

(** The three assignments of a round that starts at digit [i]. *)
Section Assign.

Context (ds bytes out : list Z) (i : nat).
Hypothesis Hds : Forall isDigit6 ds.
Hypothesis Hroom : (length bytes < length ds)%nat.

Lemma assign0_spec a b :
  Holds ds bytes i out -> (length bytes <= i)%nat -> ds !! i = Some a -> ds !! (S i) = Some b ->
  exists out', assign0 out (Z.of_nat (length bytes)) (Z.of_nat i) = Some out' /\ Holds ds (bytes ++ [a * 4 + b / 16]) (S i) out'.
Proof using Hds Hroom.
  intros H Hi Ha Hb. unfold assign0.
  rewrite (get_digit _ _ _ _ i (Z.of_nat i) a H), (get_digit _ _ _ _ (S i) (Z.of_nat i + 1) b H) by (done || lia). cbn [mbind option_bind].
  rewrite byte0 by (eapply Forall_lookup_1; eauto). by apply put_byte.
Qed.

Lemma assign1_spec b c :
  Holds ds bytes (S i) out -> (length bytes <= S i)%nat -> ds !! (S i) = Some b -> ds !! (S (S i)) = Some c ->
  exists out', assign1 out (Z.of_nat (length bytes)) (Z.of_nat i) = Some out'
    /\ Holds ds (bytes ++ [b mod 16 * 16 + c / 4]) (S (S i)) out'.
Proof using Hds Hroom.
  intros H Hi Hb Hc. unfold assign1.
  rewrite (get_digit _ _ _ _ (S i) (Z.of_nat i + 1) b H), (get_digit _ _ _ _ (S (S i)) (Z.of_nat i + 2) c H) by (done || lia). cbn [mbind option_bind].
  rewrite byte1 by (eapply Forall_lookup_1; eauto). by apply put_byte.
Qed.

Lemma assign2_spec c d :
  Holds ds bytes (S (S i)) out -> (length bytes <= S (S i))%nat -> ds !! (S (S i)) = Some c -> ds !! (S (S (S i))) = Some d ->
  exists out', assign2 out (Z.of_nat (length bytes)) (Z.of_nat i) = Some out'
    /\ Holds ds (bytes ++ [c mod 4 * 64 + d]) (S (S (S i))) out'.
Proof using Hds Hroom.
  intros H Hi Hc Hd. unfold assign2.
  rewrite (get_digit _ _ _ _ (S (S i)) (Z.of_nat i + 2) c H), (get_digit _ _ _ _ (S (S (S i))) (Z.of_nat i + 3) d H) by (done || lia). cbn [mbind option_bind].
  rewrite byte2 by (eapply Forall_lookup_1; eauto). by apply put_byte.
Qed.

End Assign.

(** The loop, the two assignments after it and the last shrink. *)
Definition decodeRest (fuel : nat) (outLength : Z) (out : list Z) (didx sidx : Z) : option (list Z) :=
  '(out, didx, sidx) ← decodeLoop fuel outLength out didx sidx;
  out ← (if didx <? outLength then assign0 out didx sidx else Some out);
  out ← (if didx + 1 <? outLength then assign1 out (didx + 1) sidx else Some out);
  Some (take (Z.to_nat outLength) out).

Lemma fours_ind (P : list Z -> Prop) :
  P [] -> (forall a, P [a]) -> (forall a b, P [a; b]) -> (forall a b c, P [a; b; c]) ->
  (forall a b c d rest, P rest -> P (a :: b :: c :: d :: rest)) -> forall ds, P ds.
Proof.
  intros H0 H1 H2 H3 H4 ds. remember (length ds) as n eqn:En. revert ds En.
  induction n as [n IH] using lt_wf_ind. intros [|a [|b [|c [|d rest]]]] En; auto.
  apply H4. apply (IH (length rest)); [cbn in En; lia|done].
Qed.

(** The number of bytes of [n] digits. *)
Definition bytesOf (n : Z) : Z := n - (n + 3) / 4.

Lemma length_snoc (l : list Z) x : Z.of_nat (length (l ++ [x])) = Z.of_nat (length l) + 1.
Proof. rewrite length_app. cbn [length]. lia. Qed.

Lemma lookup_at ds (l k : list Z) (j n : nat) (x : Z) :
  ds = l ++ k -> n = (length l + j)%nat -> k !! j = Some x -> ds !! n = Some x.
Proof. intros -> -> <-. rewrite lookup_app_r by lia. f_equal. lia. Qed.

Lemma decodeLoop_step fuel ds done_ a b c d rest bytes out :
  Forall isDigit6 ds -> ds = done_ ++ a :: b :: c :: d :: rest -> (length bytes <= length done_)%nat ->
  Z.of_nat (length bytes) + 3 <= bytesOf (Z.of_nat (length ds)) ->
  Holds ds bytes (length done_) out ->
  exists out',
    decodeLoop (S fuel) (bytesOf (Z.of_nat (length ds))) out (Z.of_nat (length bytes)) (Z.of_nat (length done_))
    = decodeLoop fuel (bytesOf (Z.of_nat (length ds))) out'
        (Z.of_nat (length (bytes ++ decodeDigits [a; b; c; d]))) (Z.of_nat (length (done_ ++ [a; b; c; d])))
    /\ Holds ds (bytes ++ decodeDigits [a; b; c; d]) (length (done_ ++ [a; b; c; d])) out'.
Proof.
  intros Hds Hd Hle Hl H. cbn [decodeLoop]. rewrite (proj2 (Z.ltb_lt _ _)) by lia.
  assert (bytesOf (Z.of_nat (length ds)) <= Z.of_nat (length ds)) as Hn by (unfold bytesOf; lia).
  assert (ds !! (length done_) = Some a) as E0 by (apply (lookup_at ds done_ _ 0 _ _ Hd); [lia|done]).
  assert (ds !! (S (length done_)) = Some b) as E1 by (apply (lookup_at ds done_ _ 1 _ _ Hd); [lia|done]).
  assert (ds !! (S (S (length done_))) = Some c) as E2 by (apply (lookup_at ds done_ _ 2 _ _ Hd); [lia|done]).
  assert (ds !! (S (S (S (length done_)))) = Some d) as E3 by (apply (lookup_at ds done_ _ 3 _ _ Hd); [lia|done]).
  destruct (assign0_spec ds bytes out (length done_) Hds ltac:(lia) a b H Hle E0 E1) as (out1 & -> & H1).
  cbn [mbind option_bind].
  destruct (assign1_spec ds (bytes ++ [a * 4 + b / 16]) out1 (length done_) Hds ltac:(rewrite length_app; cbn [length]; lia) b c H1
              ltac:(rewrite length_app; cbn [length]; lia) E1 E2) as (out2 & E & H2).
  rewrite length_snoc in E. rewrite E. cbn [mbind option_bind]. clear E.
  destruct (assign2_spec ds ((bytes ++ [a * 4 + b / 16]) ++ [b mod 16 * 16 + c / 4]) out2 (length done_) Hds ltac:(rewrite !length_app; cbn [length]; lia) c d H2
              ltac:(rewrite !length_app; cbn [length]; lia) E2 E3) as (out3 & E & H3).
  rewrite !length_snoc, <- Z.add_assoc in E. change (1 + 1) with 2 in E. rewrite E. cbn [mbind option_bind]. clear E.
  exists out3. rewrite !length_app, !Nat2Z.inj_add. split; [done|]. destruct H3 as [Hl3 Hb3 Hd3].
  rewrite <- !app_assoc in Hb3. constructor; [done|exact Hb3|]. intros i Hi. apply Hd3. cbn in Hi. lia.
Qed.

Lemma decodeRest_spec ds rest : forall fuel done_ bytes out,
  Forall isDigit6 ds -> ds = done_ ++ rest -> 4 * Z.of_nat (length bytes) = 3 * Z.of_nat (length done_) ->
  (length rest < 4 * fuel)%nat -> Z.of_nat (length rest) mod 4 <> 1 -> Holds ds bytes (length done_) out ->
  decodeRest fuel (bytesOf (Z.of_nat (length ds))) out (Z.of_nat (length bytes)) (Z.of_nat (length done_))
  = Some (bytes ++ decodeDigits rest).
Proof.
  induction rest as [|a|a b|a b c|a b c d rest IH] using fours_ind; intros [|fuel] done_ bytes out Hds Hd Hlen Hfuel Hmod H;
    try (cbn [length] in Hfuel; lia); [| done | | |];
    pose proof (f_equal length Hd) as HN; rewrite length_app in HN; cbn [length] in HN.
  - unfold decodeRest. cbn [decodeLoop]. unfold bytesOf. rewrite !(proj2 (Z.ltb_ge _ _)) by lia. cbn [mbind option_bind].
    rewrite !(proj2 (Z.ltb_ge _ _)) by lia. cbn [mbind option_bind decodeDigits]. rewrite app_nil_r.
    f_equal. destruct H as [_ Hb _]. transitivity (take (length bytes) out); [f_equal; lia|done].
  - unfold decodeRest. cbn [decodeLoop]. unfold bytesOf. rewrite (proj2 (Z.ltb_ge _ _)) by lia. cbn [mbind option_bind].
    rewrite (proj2 (Z.ltb_lt (Z.of_nat (length bytes)) _)), (proj2 (Z.ltb_ge (Z.of_nat (length bytes) + 1) _)) by lia.
    assert (ds !! (length done_) = Some a) as E0 by (apply (lookup_at ds done_ _ 0 _ _ Hd); [lia|done]).
    assert (ds !! (S (length done_)) = Some b) as E1 by (apply (lookup_at ds done_ _ 1 _ _ Hd); [lia|done]).
    destruct (assign0_spec ds bytes out (length done_) Hds ltac:(lia) a b H ltac:(lia) E0 E1) as (out1 & -> & [_ Hb _]).
    cbn [mbind option_bind decodeDigits]. rewrite <- Hb at 1. rewrite length_app. cbn [length]. do 2 f_equal. lia.
  - unfold decodeRest. cbn [decodeLoop]. unfold bytesOf. rewrite (proj2 (Z.ltb_ge _ _)) by lia. cbn [mbind option_bind].
    rewrite !(proj2 (Z.ltb_lt _ _)) by lia.
    assert (ds !! (length done_) = Some a) as E0 by (apply (lookup_at ds done_ _ 0 _ _ Hd); [lia|done]).
    assert (ds !! (S (length done_)) = Some b) as E1 by (apply (lookup_at ds done_ _ 1 _ _ Hd); [lia|done]).
    assert (ds !! (S (S (length done_))) = Some c) as E2 by (apply (lookup_at ds done_ _ 2 _ _ Hd); [lia|done]).
    destruct (assign0_spec ds bytes out (length done_) Hds ltac:(lia) a b H ltac:(lia) E0 E1) as (out1 & -> & H1).
    cbn [mbind option_bind].
    destruct (assign1_spec ds (bytes ++ [a * 4 + b / 16]) out1 (length done_) Hds ltac:(rewrite length_app; cbn [length]; lia) b c H1
              ltac:(rewrite length_app; cbn [length]; lia) E1 E2) as (out2 & E & [_ Hb _]).
    rewrite length_snoc in E. rewrite E.
    cbn [mbind option_bind decodeDigits]. rewrite <- app_assoc in Hb. cbn [app] in Hb. rewrite <- Hb. rewrite length_app.
    cbn [length]. do 2 f_equal. lia.
  - unfold decodeRest.
    destruct (decodeLoop_step fuel ds done_ a b c d rest bytes out Hds Hd ltac:(lia) ltac:(unfold bytesOf; lia) H)
      as (out' & -> & H').
    unfold decodeRest in IH. rewrite (IH fuel (done_ ++ [a; b; c; d])); try done.
    + by rewrite <- app_assoc.
    + by rewrite <- app_assoc.
    + rewrite !length_app. cbn. lia.
    + cbn [length] in Hfuel. lia.
    + cbn [length] in Hmod. lia.
Qed.

(** All the digits, with the bounds the code gives its loop. *)
Lemma decodeAll ds :
  Forall isDigit6 ds -> Z.of_nat (length ds) mod 4 <> 1 ->
  let n := bytesOf (Z.of_nat (length ds)) in
  ('(out, didx, sidx) ← (if 1 <? n then decodeLoop (S (Z.to_nat n)) n ds 0 0 else Some (ds, 0, 0));
   out ← (if didx <? n then assign0 out didx sidx else Some out);
   out ← (if didx + 1 <? n then assign1 out (didx + 1) sidx else Some out);
   Some (true, take (Z.to_nat n) out)) = Some (true, decodeDigits ds).
Proof.
  intros Hds Hmod. cbn zeta. set (n := bytesOf _).
  assert ((if 1 <? n then decodeLoop (S (Z.to_nat n)) n ds 0 0 else Some (ds, 0, 0)) = decodeLoop (S (Z.to_nat n)) n ds 0 0) as ->.
  { destruct (Z.ltb_spec 1 n); [done|]. cbn [decodeLoop]. by rewrite (proj2 (Z.ltb_ge _ _)) by lia. }
  pose proof (decodeRest_spec ds ds (S (Z.to_nat n)) [] [] ds Hds eq_refl eq_refl
                ltac:(unfold n, bytesOf; lia) Hmod ltac:(by constructor)) as H.
  unfold decodeRest in H. fold n in H. cbn [length app Z.of_nat] in H.
  destruct (decodeLoop _ _ _ _ _) as [[[out didx] sidx]|]; [|done]. cbn [mbind option_bind] in *.
  destruct (if didx <? n then _ else _) as [out1|]; [|done]. cbn [mbind option_bind] in *.
  destruct (if didx + 1 <? n then _ else _) as [out2|]; [|done]. cbn [mbind option_bind] in *. congruence.
Qed.
