(* ===== verification/Base64Correct.v ===== *)
(** * Base64Correct: the encoder and the decoder against their references, and
      the round trip *)

From S2P Require Import Prelude ASCIICType Base64 Base64Encode Base64Decode.
Import Base64.

#[local] Ltac Zify.zify_post_hook ::= Z.div_mod_to_equations.

(** ** The decoder is its reference *)

(** The characters of a decoding table. *)
Definition isDecodeMap (m : list Z) : Prop := length m = 128%nat /\ Forall (fun v => -1 <= v < 64) m.

Lemma decodedDigit_range m c : isDecodeMap m -> digitValue m c <> -1 -> isDigit6 (digitValue m c).
Proof.
  intros [Hl Hr] H. unfold digitValue, isDigit6 in *. destruct (c <? 128); [|done].
  destruct (nth_in_or_default (Z.to_nat c) m (-1)) as [Hin|E]; [|done].
  rewrite Forall_forall in Hr. specialize (Hr _ (proj2 (list_elem_of_In _ _) Hin)). lia.
Qed.

Lemma decodeDigits_nil ds : Z.of_nat (length ds) mod 4 <> 1 -> decodeDigits ds = [] -> ds = [].
Proof. destruct ds as [|a [|b [|c [|d ds]]]]; done. Qed.

Section Decode.

Context (isWhiteSpaceNeutral : Z -> bool) (decodeMap : list Z) (options : Z).
Hypothesis Hmap : isDecodeMap decodeMap.

(** What is done with the digits and the count of equals signs. *)
Lemma base64DecodeInternal_scan data :
  Forall (fun c => 0 <= c) data -> Z.of_nat (length data) + 3 < 2 ^ 32 ->
  match scan isWhiteSpaceNeutral decodeMap options data 0 with
  | Some (ds, k) =>
      Forall isDigit6 ds -> (Z.of_nat (length ds) + k <= Z.of_nat (length data)) -> 0 <= k ->
      let n := Z.of_nat (length ds) in
      if (negb (hasOption options Base64ValidatePadding) || (k =? 0) || ((n + k) mod 4 =? 0))
         && negb (n mod 4 =? 1) && (negb (n =? 0) || (k =? 0))
      then base64DecodeInternal isWhiteSpaceNeutral data options decodeMap = Some (true, decodeDigits ds)
      else exists out, base64DecodeInternal isWhiteSpaceNeutral data options decodeMap = Some (false, out)
  | None => exists out, base64DecodeInternal isWhiteSpaceNeutral data options decodeMap = Some (false, out)
  end.
Proof using Hmap.
  intros Hd Hlen. destruct data as [|c data]; [by cbn; intros; rewrite !orb_true_r|].
  set (data' := c :: data) in *. assert (0 < Z.of_nat (length data')) as Hpos by (unfold data'; cbn; lia).
  pose proof (readDigits_spec isWhiteSpaceNeutral decodeMap options data' [] (replicate (length data') 0) 0
                (proj1 Hmap) Hd ltac:(by rewrite length_replicate)) as H.
  unfold base64DecodeInternal. rewrite (proj2 (Z.eqb_neq _ 0)), Nat2Z.id by lia.
  destruct (scan _ _ _ data' 0) as [[ds k]|]; cbn [app length Z.of_nat] in H.
  2: { destruct H as (out & n & k & H). change (Z.of_nat 0) with 0 in H. rewrite H. cbn [mbind option_bind]. eauto. }
  change (Z.of_nat 0) with 0 in H. rewrite H. cbn [mbind option_bind]. rewrite Nat2Z.id, take_app_length. clear H.
  intros Hds Hk Hk0. cbn zeta. unfold u32. rewrite !(Z.mod_small _ (2 ^ 32)) by lia.
  destruct (Z.eqb_spec (Z.of_nat (length ds)) 0) as [E|Hn].
  - destruct ds; [|cbn in E; lia]. cbn. destruct (k =? 0); rewrite ?orb_true_r, ?andb_false_r; [done|eauto].
  - cbn [negb orb]. rewrite andb_true_r.
    replace (hasOption options Base64ValidatePadding && negb (k =? 0) && negb ((Z.of_nat (length ds) + k) mod 4 =? 0))
      with (negb (negb (hasOption options Base64ValidatePadding) || (k =? 0) || ((Z.of_nat (length ds) + k) mod 4 =? 0)))
      by (by rewrite !negb_orb, negb_involutive).
    destruct (_ || _ || _); cbn [negb andb]; [|eauto].
    destruct (Z.eqb_spec (Z.of_nat (length ds) mod 4) 1); cbn [negb]; [eauto|].
    rewrite (proj2 (Z.eqb_neq _ 0)) by lia. by apply decodeAll.
Qed.

Lemma base64DecodeInternal_spec data :
  Forall (fun c => 0 <= c) data -> Z.of_nat (length data) + 3 < 2 ^ 32 ->
  match decodeSpec isWhiteSpaceNeutral decodeMap options data with
  | Some bytes => base64DecodeInternal isWhiteSpaceNeutral data options decodeMap = Some (true, bytes)
  | None => exists out, base64DecodeInternal isWhiteSpaceNeutral data options decodeMap = Some (false, out)
  end.
Proof using Hmap.
  intros Hd Hlen. pose proof (base64DecodeInternal_scan data Hd Hlen) as H. rewrite scan_spec in H by lia.
  unfold decodeSpec, scanSpec in *. destruct (splitEquals _) as [ds es] eqn:Es.
  assert (length ds + length es <= length data)%nat as Hle.
  { rewrite <- length_app, <- (proj1 (splitEquals_app _ _ _ Es)). apply List.filter_length_le. }
  rewrite Z.eqb_refl in H. cbn [orb] in H. rewrite andb_true_r in H.
  destruct (forallb _ ds) eqn:Ed, (forallb _ es); cbn [andb] in *; [|done..].
  assert (Forall isDigit6 (digitValue decodeMap <$> ds)) as Hds.
  { rewrite Forall_fmap, Forall_forall. intros c Hc. rewrite forallb_forall in Ed.
    specialize (Ed c (proj1 (list_elem_of_In _ _) Hc)). apply negb_true_iff, Z.eqb_neq in Ed. by apply decodedDigit_range. }
  rewrite Z.add_0_l in H. set (n := Z.of_nat (length ds)) in *. set (k := Z.of_nat (length es)) in *.
  revert H.
  destruct (hasOption options Base64ValidatePadding), (Z.eqb_spec k 0), (Z.leb_spec k 2); cbn [negb orb andb]; intros Hres;
    try done; try lia; specialize (Hres Hds); rewrite length_fmap in Hres; specialize (Hres ltac:(lia) ltac:(lia));
    fold n in Hres; revert Hres; destruct (Z.eqb_spec k 0), (n mod 4 =? 1), (n =? 0), ((n + k) mod 4 =? 0); done || lia.
Qed.

End Decode.

(** ** The references are inverse to each other *)

Lemma decodeDigits_digitsOf data : Forall isByte data -> decodeDigits (digitsOf data) = data.
Proof.
  unfold isByte. induction data as [|a|a b|a b c rest IH] using groups_ind; cbn [digitsOf decodeDigits]; intros H;
    repeat (apply Forall_cons in H as [? H]); try done; rewrite ?IH by done; repeat f_equal; lia.
Qed.

Lemma digitsOf_mod data : Z.of_nat (length (digitsOf data)) mod 4 <> 1.
Proof. rewrite digitsOf_length. lia. Qed.

(** The tables of an alphabet. *)
Record Alphabet (enc dec : list Z) : Prop := {
  enc_length : length enc = 64%nat;
  dec_map : isDecodeMap dec;
  dec_enc : forall d, isDigit6 d -> digitValue dec (nth (Z.to_nat d) enc 0) = d;
  enc_equals : forall d, isDigit6 d -> nth (Z.to_nat d) enc 0 <> chr "=";
  enc_nonneg : forall d, isDigit6 d -> 0 <= nth (Z.to_nat d) enc 0 }.

Definition checkAlphabet (enc dec : list Z) : bool :=
  (length enc =? 64)%nat && (length dec =? 128)%nat && forallb (fun v => (-1 <=? v) && (v <? 64)) dec
  && forallb (fun d => (digitValue dec (nth (Z.to_nat d) enc 0) =? d) && negb (nth (Z.to_nat d) enc 0 =? chr "=")
                       && (0 <=? nth (Z.to_nat d) enc 0)) (seqZ 0 64).

Lemma checkAlphabet_sound enc dec : checkAlphabet enc dec = true -> Alphabet enc dec.
Proof.
  unfold checkAlphabet. rewrite !andb_true_iff. intros [[[H1 H2] H3] H4].
  pose proof (forall_range 64 _ H4) as H5. cbn beta in H5. constructor.
  - by apply Nat.eqb_eq.
  - split; [by apply Nat.eqb_eq|]. rewrite Forall_forall. intros v Hv. rewrite forallb_forall in H3.
    specialize (H3 v (proj1 (list_elem_of_In _ _) Hv)). lia.
  - intros d Hd. specialize (H5 d Hd). lia.
  - intros d Hd. specialize (H5 d Hd). lia.
  - intros d Hd. specialize (H5 d Hd). lia.
Qed.

Lemma base64_alphabet : Alphabet base64EncMap base64DecMap.
Proof. apply checkAlphabet_sound. by vm_compute. Qed.

Lemma base64URL_alphabet : Alphabet base64URLEncMap base64URLDecMap.
Proof. apply checkAlphabet_sound. by vm_compute. Qed.

Section Alphabet.

Context (isWhiteSpaceNeutral : Z -> bool) (enc dec : list Z) (options : Z).
Hypothesis Halpha : Alphabet enc dec.

Lemma splitEquals_chars ds k :
  Forall isDigit6 ds -> splitEquals (charsOf enc ds ++ replicate k (chr "=")) = (charsOf enc ds, replicate k (chr "=")).
Proof using Halpha.
  induction ds as [|d ds IH]; intros H.
  - by destruct k.
  - apply Forall_cons in H as [Hd H]. cbn [charsOf fmap list_fmap app splitEquals].
    rewrite (proj2 (Z.eqb_neq _ _) (enc_equals _ _ Halpha d Hd)). unfold charsOf in IH. by rewrite (IH H).
Qed.

Lemma significant_chars ds k :
  Forall isDigit6 ds ->
  Forall (fun c => ignored isWhiteSpaceNeutral dec options c = false) (charsOf enc ds ++ replicate k (chr "=")).
Proof using Halpha.
  intros H. apply Forall_app. split.
  - unfold charsOf. rewrite Forall_fmap. apply (Forall_impl _ _ _ H). intros d Hd. unfold compose, ignored.
    rewrite (dec_enc _ _ Halpha d Hd), (proj2 (Z.eqb_neq d (-1))) by (unfold isDigit6 in Hd; lia).
    by rewrite andb_false_r.
  - apply Forall_replicate. unfold ignored. by rewrite Z.eqb_refl.
Qed.

Lemma filter_significant l :
  Forall (fun c => ignored isWhiteSpaceNeutral dec options c = false) l ->
  List.filter (fun c => negb (ignored isWhiteSpaceNeutral dec options c)) l = l.
Proof using Type.
  induction l as [|c l IH]; intros H; [done|]. apply Forall_cons in H as [Hc H]. cbn [List.filter]. by rewrite Hc, IH.
Qed.

(** Line breaks go when they are ignored. *)
Lemma filter_wrapFrom l : forall col,
  ignored isWhiteSpaceNeutral dec options 10 = true ->
  List.filter (fun c => negb (ignored isWhiteSpaceNeutral dec options c)) (wrapFrom col l)
  = List.filter (fun c => negb (ignored isWhiteSpaceNeutral dec options c)) l.
Proof using Type.
  induction l as [|c l IH]; intros col H; [done|]. cbn [wrapFrom].
  destruct (col =? 76); cbn [List.filter]; rewrite ?H; cbn [negb]; by rewrite IH.
Qed.

(** What the decoder makes of the digits and padding of [data]. *)
Lemma decodeSpec_chars text data k :
  Forall isByte data ->
  List.filter (fun c => negb (ignored isWhiteSpaceNeutral dec options c)) text
    = charsOf enc (digitsOf data) ++ replicate k (chr "=") ->
  (k = 0%nat \/ (k <= 2)%nat /\ (Z.of_nat (length (digitsOf data)) + Z.of_nat k) mod 4 = 0 /\ data <> []) ->
  decodeSpec isWhiteSpaceNeutral dec options text = Some data.
Proof using Halpha.
  intros Hb Hf Hk. pose proof (digitsOf_range data Hb) as Hd. unfold decodeSpec. rewrite Hf, splitEquals_chars by done.
  assert (length (charsOf enc (digitsOf data)) = length (digitsOf data)) as Hl by (unfold charsOf; by rewrite length_fmap).
  rewrite Hl, length_replicate.
  assert (digitValue dec <$> charsOf enc (digitsOf data) = digitsOf data) as Hv.
  { unfold charsOf. rewrite <- list_fmap_compose. transitivity (id <$> digitsOf data); [|by rewrite list_fmap_id].
    apply list_fmap_ext. intros i d Hi. apply (dec_enc _ _ Halpha). by eapply Forall_lookup_1. }
  assert (forallb (fun c => negb (digitValue dec c =? -1)) (charsOf enc (digitsOf data)) = true) as ->.
  { rewrite forallb_forall. intros c Hc. apply list_elem_of_In, list_elem_of_fmap in Hc as (d & -> & Hin).
    rewrite Forall_forall in Hd. specialize (Hd d Hin). rewrite (dec_enc _ _ Halpha d Hd). unfold isDigit6 in Hd. lia. }
  assert (forallb (fun c => c =? chr "=") (replicate k (chr "=")) = true) as ->
    by (rewrite forallb_forall; intros c Hc; apply list_elem_of_In, elem_of_replicate in Hc as [-> _]; apply Z.eqb_refl).
  rewrite Hv, decodeDigits_digitsOf by done. cbn [andb].
  pose proof (digitsOf_mod data) as Hm. rewrite (proj2 (Z.eqb_neq _ 1) Hm). cbn [negb andb].
  destruct Hk as [->|(Hk & H4 & Hne)].
  - cbn. rewrite !orb_true_r. done.
  - rewrite H4, (proj2 (Z.leb_le _ 2)) by lia. cbn. rewrite !orb_true_r. cbn.
    rewrite (proj2 (Z.eqb_neq (Z.of_nat (length (digitsOf data))) 0)); [done|].
    rewrite digitsOf_length. destruct data; [done|]. cbn [length]. lia.
Qed.

End Alphabet.

(** ** Encoder, decoder and round trip *)

Lemma base64EncodeInternal_spec data policy map :
  length map = 64%nat -> Forall isByte data -> Z.of_nat (length data) <= maxInputBufferSize ->
  (policy = Base64InsertLFs -> Z.of_nat (length data) < 2 ^ 30) ->
  base64EncodeInternal data policy map = Some (encodeSpec policy map data).
Proof.
  intros Hmap Hb Hlen Hlf. destruct (decide (data = [])) as [->|Hne]; [by destruct policy|].
  assert (0 < Z.of_nat (length data)) as Hpos by (destruct data; [done|cbn; lia]).
  rewrite base64EncodeInternal_stages by lia. pose proof (padded_length map data) as HL.
  destruct policy; cbn [encodeSpec].
  - apply encode_pads; try done. by rewrite written_plain.
  - destruct (Z.ltb_spec 76 (Z.of_nat (length (padded map data)))).
    + apply encode_pads; try done.
      * intros _. specialize (Hlf eq_refl). lia.
      * symmetry. by apply (written_wrapped map data 0).
      * rewrite wrapFrom_length by (lia || (intros E; rewrite E in *; cbn in *; lia)). f_equal.
    + rewrite wrapFrom_short by lia. apply encode_pads; try done. by rewrite written_plain.
  - rewrite stages_spec; try done.
    + cbn [mbind option_bind]. by rewrite Nat2Z.id, take_app_length, written_plain.
    + rewrite written_plain. unfold padded. rewrite length_app. lia.
Qed.

(** C26: Base64 encoding writes inside the vector it has sized, whatever the
    bytes, and the result is the reference of RFC 4648: four characters for
    every three bytes, padded with equals signs (no padding in the URL
    variant), and with a line break after every 76 characters for the RFC 2045
    policy.  Line breaks need an input below 2^30 bytes, where the counter of
    characters is an int. *)
Theorem base64Encode_correct (data : list Z) (policy : Base64EncodePolicy) :
  Forall isByte data -> Z.of_nat (length data) <= maxInputBufferSize ->
  (policy = Base64InsertLFs -> Z.of_nat (length data) < 2 ^ 30) ->
  base64Encode data policy = Some (encodeSpec policy base64EncMap data)
  /\ base64URLEncode data = Some (encodeSpec Base64URLPolicy base64URLEncMap data).
Proof. intros Hb Hlen Hlf. split; by apply base64EncodeInternal_spec. Qed.

Lemma base64Encode_correct_witness :
  base64Encode (chrs "Man is") Base64InsertLFs = Some (chrs "TWFuIGlz")
  /\ base64URLEncode (chrs "Man is") = Some (chrs "TWFuIGlz").
Proof. apply (base64Encode_correct (chrs "Man is") Base64InsertLFs); [|done|done]. unfold isByte. repeat constructor; lia. Defined.

(** C27: Base64 decoding never indexes outside its vector, although it
    converts the digits to bytes in place, and answers true exactly when,
    without the ignored spaces, the text is digits of the alphabet followed by
    equals signs with a possible number of digits (and correct padding when it
    is validated); the vector then holds the bytes of the digits. *)
Theorem base64Decode_correct (isWhiteSpaceNeutral : Z -> bool) (text : list Z) (options : Z) :
  Forall (fun c => 0 <= c) text -> Z.of_nat (length text) + 3 < 2 ^ 32 ->
  match decodeSpec isWhiteSpaceNeutral base64DecMap options text with
  | Some bytes => base64Decode isWhiteSpaceNeutral text options = Some (true, bytes)
  | None => exists out, base64Decode isWhiteSpaceNeutral text options = Some (false, out)
  end.
Proof. intros Ht Hl. apply base64DecodeInternal_spec; try done. apply base64_alphabet. Qed.

Lemma base64Decode_correct_witness :
  base64Decode (fun _ => false) (chrs "TWE=") Base64ValidatePadding = Some (true, chrs "Ma")
  /\ exists out, base64Decode (fun _ => false) (chrs "TWE==") Base64ValidatePadding = Some (false, out).
Proof.
  split.
  - apply (base64Decode_correct (fun _ => false) (chrs "TWE=") Base64ValidatePadding); [|done]. by repeat constructor.
  - apply (base64Decode_correct (fun _ => false) (chrs "TWE==") Base64ValidatePadding); [|done]. by repeat constructor.
Defined.

Lemma encodeSpec_nonneg enc dec policy data :
  Alphabet enc dec -> Forall isByte data -> Forall (fun c => 0 <= c) (encodeSpec policy enc data).
Proof.
  intros Ha Hb. assert (Forall (fun c => 0 <= c) (charsOf enc (digitsOf data))) as Hc.
  { unfold charsOf. rewrite Forall_fmap. apply (Forall_impl _ _ _ (digitsOf_range data Hb)). apply (enc_nonneg _ _ Ha). }
  assert (Forall (fun c => 0 <= c) (padded enc data)) as Hp by (apply Forall_app; split; [done|]; by apply Forall_replicate).
  assert (forall l col, Forall (fun c => 0 <= c) l -> Forall (fun c => 0 <= c) (wrapFrom col l)) as Hw.
  { induction l as [|x l IH]; intros col H; [done|]. apply Forall_cons in H as [Hx H]. cbn [wrapFrom].
    destruct (col =? 76); repeat constructor; auto; lia. }
  destruct policy; cbn [encodeSpec]; auto.
Qed.

Lemma padding_fits data : data <> [] ->
  (Z.to_nat ((- Z.of_nat (length (digitsOf data))) mod 4) <= 2)%nat
  /\ (Z.of_nat (length (digitsOf data)) + Z.of_nat (Z.to_nat ((- Z.of_nat (length (digitsOf data))) mod 4))) mod 4 = 0.
Proof. intros H. rewrite digitsOf_length. destruct data; [done|]. cbn [length]. lia. Qed.

(** Decoding any of the encoded texts. *)
Lemma decodeSpec_encodeSpec isWhiteSpaceNeutral enc dec options policy data :
  Alphabet enc dec -> Forall isByte data ->
  (policy = Base64InsertLFs -> ignored isWhiteSpaceNeutral dec options 10 = true) ->
  decodeSpec isWhiteSpaceNeutral dec options (encodeSpec policy enc data) = Some data.
Proof.
  intros Ha Hb Hlf. pose proof (digitsOf_range data Hb) as Hd. destruct (decide (data = [])) as [->|Hne].
  { destruct policy; unfold decodeSpec; by destruct (hasOption options Base64ValidatePadding). }
  pose proof (padding_fits data Hne) as [Hp1 Hp2]. destruct policy; cbn [encodeSpec].
  - eapply (decodeSpec_chars isWhiteSpaceNeutral enc dec options Ha); [done| |right; done].
    apply filter_significant. by eapply significant_chars.
  - eapply (decodeSpec_chars isWhiteSpaceNeutral enc dec options Ha); [done| |right; done].
    rewrite filter_wrapFrom by auto. apply filter_significant. by eapply significant_chars.
  - apply (decodeSpec_chars isWhiteSpaceNeutral enc dec options Ha _ data 0); [done| |by left].
    cbn [replicate]. rewrite app_nil_r. apply filter_significant.
    pose proof (significant_chars isWhiteSpaceNeutral enc dec options Ha (digitsOf data) 0 Hd) as H.
    cbn [replicate] in H. by rewrite app_nil_r in H.
Qed.

Lemma encodeSpec_length policy map data :
  Z.of_nat (length (encodeSpec policy map data)) <= 2 * (Z.of_nat (length data) + 2).
Proof.
  pose proof (padded_length map data) as HL. destruct policy; cbn [encodeSpec]; [lia| |].
  - destruct (padded map data) as [|x l] eqn:E; [cbn; lia|]. rewrite wrapFrom_length by (done || lia). rewrite <- E in *. lia.
  - unfold charsOf. rewrite length_fmap, digitsOf_length. lia.
Qed.

(** C28: Round trip.  Up to 2^30 bytes, decoding what the encoder returns
    gives the bytes back: the plain policy under every choice of options, the
    policy with line breaks when the decoder ignores spaces, and the URL
    variant with its own decoder. *)
Theorem base64_roundtrip (isWhiteSpaceNeutral : Z -> bool) (data : list Z) :
  Forall isByte data -> Z.of_nat (length data) < 2 ^ 30 ->
  (forall options, base64Encode data Base64DoNotInsertLFs ≫= (fun text => base64Decode isWhiteSpaceNeutral text options)
                   = Some (true, data))
  /\ (forall options, hasOption options Base64IgnoreSpacesAndNewLines = true ->
        base64Encode data Base64InsertLFs ≫= (fun text => base64Decode isWhiteSpaceNeutral text options) = Some (true, data))
  /\ base64URLEncode data ≫= base64URLDecode isWhiteSpaceNeutral = Some (true, data).
Proof.
  intros Hb Hlen. unfold base64Encode, base64URLEncode.
  assert (Z.of_nat (length data) <= maxInputBufferSize) as Hmax by (change maxInputBufferSize with 3179391370; lia).
  rewrite !base64EncodeInternal_spec by done. cbn [mbind option_bind]. unfold base64Decode, base64URLDecode.
  assert (forall enc dec options policy, Alphabet enc dec ->
    (policy = Base64InsertLFs -> ignored isWhiteSpaceNeutral dec options 10 = true) ->
    base64DecodeInternal isWhiteSpaceNeutral (encodeSpec policy enc data) options dec = Some (true, data)) as H.
  { intros enc dec options policy Ha Hlf. pose proof (encodeSpec_length policy enc data) as Hl.
    pose proof (base64DecodeInternal_spec isWhiteSpaceNeutral dec options (dec_map _ _ Ha) (encodeSpec policy enc data)
                  (encodeSpec_nonneg _ _ _ _ Ha Hb) ltac:(lia)) as Hs.
    by rewrite (decodeSpec_encodeSpec isWhiteSpaceNeutral enc dec options policy data Ha Hb Hlf) in Hs. }
  split_and!.
  - intros options. by apply H; [apply base64_alphabet|].
  - intros options Ho. apply H; [apply base64_alphabet|]. intros _. unfold ignored. by rewrite Ho.
  - by apply H; [apply base64URL_alphabet|].
Qed.

Lemma base64_roundtrip_witness :
  base64Encode [0; 255; 16; 131] Base64DoNotInsertLFs ≫= (fun text => base64Decode (fun _ => false) text Base64Default)
  = Some (true, [0; 255; 16; 131]).
Proof. apply (base64_roundtrip (fun _ => false) [0; 255; 16; 131]); [|done]. unfold isByte. repeat constructor; lia. Defined.
