(* ===== verification/DFA.v ===== *)
(** * DFA: the automata of content blockers

    Translated from src/Source/WebCore/contentextensions/DFA.h, DFA.cpp,
    DFANode.h and DFANode.cpp.  A node names slices of the arrays of its
    automaton; [None] is an index out of range or a failed assertion.
    Characters are the values of a [char]. *)

From stdpp Require Import gmap.
From S2P Require Import Prelude.

Module DFA.

Record CharRange := mkCharRange { first : Z; last : Z }.

Definition CharRange_size (r : CharRange) : Z := last r - first r + 1.

Record DFANode := mkNode {
  m_actionsStart : Z;
  m_transitionsStart : Z;
  m_actionsLength : Z;
  m_transitionsLength : Z;
  m_flags : Z
}.

Definition IsKilled : Z := 1.

Record DFA := mkDFA {
  nodes : list DFANode;
  dfa_actions : list Z;
  transitionRanges : list CharRange;
  transitionDestinations : list Z;
  root : Z
}.

(** [vector[i]]. *)
Definition at_ {A} (l : list A) (i : Z) : option A := if i <? 0 then None else l !! Z.to_nat i.

(** The indices [start], ..., [start + length - 1]; the bound is an
    [unsigned]. *)
Definition slice (start length : Z) : list Z := seqZ start (u32 (start + length) - start).

Definition isKilled (node : DFANode) : bool := negb (Z.land (m_flags node) IsKilled =? 0).

Definition actions (node : DFANode) (dfa : DFA) : option (list Z) :=
  mapM (at_ (dfa_actions dfa)) (slice (m_actionsStart node) (m_actionsLength node)).

(** The ranges of a node with their targets, in the order of the iterator. *)
Definition transitions (node : DFANode) (dfa : DFA) : option (list (CharRange * Z)) :=
  mapM (fun i => range ← at_ (transitionRanges dfa) i; target ← at_ (transitionDestinations dfa) i; Some (range, target))
    (slice (m_transitionsStart node) (m_transitionsLength node)).

Fixpoint containsTransition_loop (c : Z) (ts : list (CharRange * Z)) : bool :=
  match ts with
  | [] => false
  | (range, _) :: ts => if (first range <=? c) && (c <=? last range) then true else containsTransition_loop c ts
  end.

Definition containsTransition (c : Z) (node : DFANode) (dfa : DFA) : option bool :=
  guard (m_transitionsLength node <= 128);;
  ts ← transitions node dfa;
  Some (containsTransition_loop c ts).

(** The loop of [canUseFallbackTransition]. *)
Fixpoint fallbackLoop (ts : list (CharRange * Z)) (lastSeenCharacter : Z) : option bool :=
  match ts with
  | [] => Some false
  | (range, _) :: ts =>
      guard (lastSeenCharacter < first range);;
      if negb (first range =? lastSeenCharacter + 1) then Some false
      else if last range =? 127 then Some true
      else fallbackLoop ts (last range)
  end.

Definition canUseFallbackTransition (node : DFANode) (dfa : DFA) : option bool :=
  ts ← transitions node dfa;
  match ts with
  | [] => Some false
  | (range, _) :: rest =>
      if first range =? 0 then
        if last range =? 127 then Some true else fallbackLoop rest (last range)
      else fallbackLoop ts 0
  end.

(** The loop of [bestFallbackTarget]: how many characters go to each
    target. *)
Fixpoint bestLoop (ts : list (CharRange * Z)) (histogram : gmap Z Z) (bestTarget bestTargetScore : Z) : Z :=
  match ts with
  | [] => bestTarget
  | (range, target) :: ts =>
      let rangeSize := u32 (CharRange_size range) in
      let value := match histogram !! target with Some v => u32 (v + rangeSize) | None => rangeSize end in
      let histogram := <[target := value]> histogram in
      if bestTargetScore <? value then bestLoop ts histogram target value
      else bestLoop ts histogram bestTarget bestTargetScore
  end.

Definition bestFallbackTarget (node : DFANode) (dfa : DFA) : option Z :=
  canUse ← canUseFallbackTransition node dfa;
  guard (canUse = true);;
  ts ← transitions node dfa;
  let ts := match ts with
            | (range, target) :: rest => if (first range =? 0) && (last range =? 0) then rest else ts
            | [] => ts
            end in
  match ts with
  | [] => None
  | (range, target) :: ts =>
      let score := if first range =? 0 then u32 (u32 (CharRange_size range) - 1) else u32 (CharRange_size range) in
      Some (bestLoop ts {[ target := score ]} target score)
  end.

(** The setters of a node that has none yet. *)
Definition setActions (start length : Z) (node : DFANode) : option DFANode :=
  guard (m_actionsStart node = 0);;
  guard (m_actionsLength node = 0);;
  Some (mkNode start (m_transitionsStart node) length (m_transitionsLength node) (m_flags node)).

Definition setTransitions (start length : Z) (node : DFANode) : option DFANode :=
  guard (m_transitionsStart node = 0);;
  guard (m_transitionsLength node = 0);;
  Some (mkNode (m_actionsStart node) start (m_actionsLength node) (length mod 2 ^ 8) (m_flags node)).

Definition hasActions (node : DFANode) : bool := negb (m_actionsLength node =? 0).

(** [vector[i] = x] at each of the indices. *)
Fixpoint setAt {A} (indices : list Z) (x : A) (l : list A) : option (list A) :=
  match indices with
  | [] => Some l
  | i :: indices => guard (0 <= i < Z.of_nat (length l));; setAt indices x (<[Z.to_nat i := x]> l)
  end.

(** [kill] of the node with the index: its slices are overwritten. *)
Definition kill (i : Z) (dfa : DFA) : option DFA :=
  node ← at_ (nodes dfa) i;
  guard (m_flags node <> IsKilled);;
  let transitions := slice (m_transitionsStart node) (m_transitionsLength node) in
  ranges ← setAt transitions (mkCharRange (-1) (-1)) (transitionRanges dfa);
  destinations ← setAt transitions (2 ^ 32 - 1) (transitionDestinations dfa);
  actions ← setAt (slice (m_actionsStart node) (m_actionsLength node)) (2 ^ 64 - 1) (dfa_actions dfa);
  Some (mkDFA (<[Z.to_nat i := mkNode 0 0 0 0 IsKilled]> (nodes dfa)) actions ranges destinations (root dfa)).

(** The nodes that are not killed. *)
Definition graphSize (dfa : DFA) : Z := u32 (Z.of_nat (length (filter (fun node => isKilled node = false) (nodes dfa)))).

(** [DFA::empty]: one node. *)
Definition empty : DFA := mkDFA [mkNode 0 0 0 0 0] [] [] [] 0.

End DFA.
