(* ===== verification/DFABytecode.v ===== *)
(** * DFABytecode: the instructions of the content-blocker machine

    Translated from src/Source/WebCore/contentextensions/DFABytecode.h and the
    action flags of src/Source/WebCore/loader/ResourceLoadInfo.h.  Bytecode is
    a list of bytes; integers are little-endian. *)

From S2P Require Import Prelude.

Module DFABytecode.

Inductive DFABytecodeInstruction :=
| CheckValueCaseInsensitive | CheckValueCaseSensitive
| JumpTableCaseInsensitive | JumpTableCaseSensitive
| CheckValueRangeCaseInsensitive | CheckValueRangeCaseSensitive
| AppendAction | AppendActionWithIfCondition
| TestFlagsAndAppendAction | TestFlagsAndAppendActionWithIfCondition
| Terminate | Jump.

Definition opcode (i : DFABytecodeInstruction) : Z :=
  match i with
  | CheckValueCaseInsensitive => 0 | CheckValueCaseSensitive => 1
  | JumpTableCaseInsensitive => 2 | JumpTableCaseSensitive => 3
  | CheckValueRangeCaseInsensitive => 4 | CheckValueRangeCaseSensitive => 5
  | AppendAction => 6 | AppendActionWithIfCondition => 7
  | TestFlagsAndAppendAction => 8 | TestFlagsAndAppendActionWithIfCondition => 9
  | Terminate => 10 | Jump => 11
  end.

Definition DFABytecodeInstructionMask : Z := 15.
Definition DFABytecodeJumpSizeMask : Z := 240.

Inductive DFABytecodeJumpSize := Int8 | Int16 | Int24 | Int32.

Definition jumpSizeCode (s : DFABytecodeJumpSize) : Z :=
  match s with Int8 => 16 | Int16 => 32 | Int24 => 48 | Int32 => 64 end.

Definition Int24Max : Z := Z.shiftl 1 23 - 1.
Definition Int24Min : Z := - Z.shiftl 1 23.

Definition smallestPossibleJumpSize (longestPossibleJump : Z) : DFABytecodeJumpSize :=
  if (longestPossibleJump <=? 127) && (-128 <=? longestPossibleJump) then Int8
  else if (longestPossibleJump <=? 32767) && (-32768 <=? longestPossibleJump) then Int16
  else if (longestPossibleJump <=? Int24Max) && (Int24Min <=? longestPossibleJump) then Int24
  else Int32.

(** Sizes in bytes: [sizeof(DFABytecodeInstruction)] is 1. *)
Definition sizeof_instruction : Z := 1.

(** [None] for the instructions of variable size. *)
Definition instructionSizeWithArguments (i : DFABytecodeInstruction) : option Z :=
  match i with
  | AppendAction | AppendActionWithIfCondition => Some (sizeof_instruction + 4)
  | TestFlagsAndAppendAction | TestFlagsAndAppendActionWithIfCondition => Some (sizeof_instruction + 2 + 4)
  | Terminate => Some sizeof_instruction
  | _ => None
  end.

(** The flags in the high bits of an action. *)
Definition ActionFlagMask : Z := 0x0000FFFF00000000.
Definition IfConditionFlag : Z := 0x0001000000000000.
Definition ResourceTypeMask : Z := 0x03FF.
Definition LoadTypeMask : Z := 0x0C00.

(** The [n] bytes of an integer. *)
Fixpoint bytesLE (n : nat) (v : Z) : list Z :=
  match n with O => [] | S n => v mod 256 :: bytesLE n (v / 256) end.

Fixpoint valueLE (l : list Z) : Z :=
  match l with [] => 0 | b :: l => b + 256 * valueLE l end.

(** The value of [n] bytes as a signed integer. *)
Definition signed (n : nat) (v : Z) : Z := if v <? 2 ^ (8 * Z.of_nat n - 1) then v else v - 2 ^ (8 * Z.of_nat n).

End DFABytecode.
