(* ===== verification/DFABytecodeCompiler.v ===== *)
(** * DFABytecodeCompiler: from an automaton to bytecode

    Translated from src/Source/WebCore/contentextensions/DFABytecodeCompiler.cpp
    and its header.  The compiler's members are a record; an emitting function
    takes and returns it, [None] being a failed assertion (of either kind) or
    an index out of range. *)

From S2P Require Import Prelude ASCIICType DFA DFABytecode.
Import DFABytecode.

Module DFABytecodeCompiler.

Record Range := mkRange {
  range_min : Z;
  range_max : Z;
  range_destination : Z;
  range_caseSensitive : bool
}.

Record JumpTable := mkJumpTable {
  table_min : Z;
  table_max : Z;
  table_caseSensitive : bool;
  table_destinations : list Z
}.

Record Transitions := mkTransitions {
  jumpTables : list JumpTable;
  ranges : list Range;
  useFallbackTransition : bool;
  fallbackTransitionTarget : Z
}.

Record LinkRecord := mkLinkRecord {
  jumpSize : DFABytecodeJumpSize;
  longestPossibleJump_ : Z;
  instructionLocation : Z;
  jumpLocation : Z;
  destinationNodeIndex : Z
}.

(** [std::numeric_limits<uint32_t>::max()] *)
Definition noDestination : Z := 2 ^ 32 - 1.

(** ** Transitions of a node *)

Definition at_ {A} := @DFA.at_ A.

(** [vector[i] = x]. *)
Definition set_ (l : list Z) (i x : Z) : option (list Z) :=
  if (0 <=? i) && (i <? Z.of_nat (length l)) then Some (<[Z.to_nat i := x]> l) else None.

Fixpoint setAll (l : list Z) (indices : list Z) (x : Z) : option (list Z) :=
  match indices with
  | [] => Some l
  | i :: indices => l ← set_ l i x; setAll l indices x
  end.

(** The destinations of the characters that do not use the fallback. *)
Fixpoint fillDestinations (ts : list (DFA.CharRange * Z)) (fallback : option Z) (destinations : list Z) : option (list Z) :=
  match ts with
  | [] => Some destinations
  | (range, target) :: ts =>
      if bool_decide (fallback = Some target) then fillDestinations ts fallback destinations
      else
        destinations ← setAll destinations (seqZ (DFA.first range) (DFA.last range - DFA.first range + 1)) target;
        fillDestinations ts fallback destinations
  end.

(** Whether the lower-case letters of a range go elsewhere. *)
Fixpoint caseLoop (destinations : list Z) (rangeMin : Z) (indices : list Z) : option bool :=
  match indices with
  | [] => Some false
  | i :: indices =>
      d ← at_ destinations rangeMin;
      d' ← at_ destinations (toASCIILower i);
      if negb (d =? d') then Some true else caseLoop destinations rangeMin indices
  end.

Fixpoint clearLoop (destinations : list Z) (rangeMin : Z) (indices : list Z) : option (list Z) :=
  match indices with
  | [] => Some destinations
  | i :: indices =>
      d ← at_ destinations rangeMin;
      d' ← at_ destinations (toASCIILower i);
      guard (d = d');;
      destinations ← set_ destinations (toASCIILower i) noDestination;
      clearLoop destinations rangeMin indices
  end.

(** The end of a range at [rangeMax]. *)
Definition commitRange (destinations : list Z) (rangeMin rangeMax : Z) (out : list Range) : option (list Z * list Range) :=
  let letters := seqZ rangeMin (rangeMax - rangeMin + 1) in
  caseSensitive ← (if (chr "A" <=? rangeMin) && (rangeMax <=? chr "Z") then caseLoop destinations rangeMin letters else Some true);
  if negb caseSensitive then
    destinations ← clearLoop destinations rangeMin letters;
    d ← at_ destinations rangeMin;
    Some (destinations, out ++ [mkRange (toASCIILower rangeMin) (toASCIILower rangeMax) d caseSensitive])
  else
    d ← at_ destinations rangeMin;
    Some (destinations, out ++ [mkRange rangeMin rangeMax d caseSensitive]).

(** The body of the loop over the characters; [rangeMin] is [None] when
    [hasRangeMin] is false. *)
Definition rangeStep (s : list Z * list Range * option Z) (i : Z) : option (list Z * list Range * option Z) :=
  let '(destinations, out, rangeMin) := s in
  d ← at_ destinations i;
  match rangeMin with
  | Some rangeMin =>
      m ← at_ destinations rangeMin;
      if negb (d =? m) then
        '(destinations, out) ← commitRange destinations rangeMin (i - 1) out;
        d ← at_ destinations i;
        Some (destinations, out, if d =? noDestination then None else Some i)
      else Some (destinations, out, Some rangeMin)
  | None => Some (destinations, out, if d =? noDestination then None else Some i)
  end.

Fixpoint rangeLoop (s : list Z * list Range * option Z) (indices : list Z) : option (list Z * list Range * option Z) :=
  match indices with
  | [] => Some s
  | i :: indices => s ← rangeStep s i; rangeLoop s indices
  end.

Definition collectRanges (destinations : list Z) : option (list Range) :=
  '(destinations, out, rangeMin) ← rangeLoop (destinations, [], None) (seqZ 0 128);
  match rangeMin with
  | Some rangeMin => d ← at_ destinations rangeMin; Some (out ++ [mkRange rangeMin 127 d true])
  | None => Some out
  end.

(** The table of the ranges [firstRange] to [lastRange], and the other
    ranges.  The last two guards are those of the destructor. *)
Definition extractJumpTable (rs : list Range) (firstRange lastRange : nat) : option (JumpTable * list Range) :=
  guard (firstRange < lastRange)%nat;;
  guard (lastRange < length rs)%nat;;
  f ← rs !! firstRange;
  l ← rs !! lastRange;
  let size := (lastRange - firstRange + 1)%nat in
  let taken := take size (drop firstRange rs) in
  guard (Forall (fun range => range_caseSensitive range = range_caseSensitive l /\ range_min range = range_max range
                              /\ range_min f <= range_min range <= range_max l) taken);;
  guard (range_min f + Z.of_nat size = range_max l + 1);;
  Some (mkJumpTable (range_min f) (range_max l) (range_caseSensitive l) (range_destination <$> taken),
        take firstRange rs ++ drop (firstRange + size) rs).

Fixpoint tablesLoop (fuel : nat) (rs : list Range) (tables : list JumpTable) (rangePosition : nat) (base : option nat)
    : option (list Range * list JumpTable * option nat) :=
  match fuel with
  | O => None
  | S fuel =>
      if (rangePosition <? length rs)%nat then
        range ← rs !! rangePosition;
        match base with
        | Some baseRangePosition =>
            baseRange ← rs !! baseRangePosition;
            previous ← rs !! (rangePosition - 1)%nat;
            if negb (range_min range =? range_max range)
               || negb (eqb (range_caseSensitive baseRange) (range_caseSensitive range))
               || negb (range_max previous + 1 =? range_min range)
            then
              if (1 <? rangePosition - baseRangePosition)%nat then
                '(table, rs) ← extractJumpTable rs baseRangePosition (rangePosition - 1);
                tablesLoop fuel rs (tables ++ [table]) (baseRangePosition + 1) None
              else tablesLoop fuel rs tables (rangePosition + 1) None
            else tablesLoop fuel rs tables (rangePosition + 1) base
        | None =>
            tablesLoop fuel rs tables (rangePosition + 1)
              (if range_min range =? range_max range then Some rangePosition else None)
        end
      else Some (rs, tables, base)
  end.

Definition extractTables (rs : list Range) : option (list Range * list JumpTable) :=
  '(rs, tables, base) ← tablesLoop (S (length rs)) rs [] 0 None;
  match base with
  | Some baseRangePosition =>
      if (1 <? length rs - baseRangePosition)%nat then
        '(table, rs) ← extractJumpTable rs baseRangePosition (length rs - 1);
        Some (rs, tables ++ [table])
      else Some (rs, tables)
  | None => Some (rs, tables)
  end.

Definition transitions (dfa : DFA.DFA) (node : DFA.DFANode) : option Transitions :=
  useFallback ← DFA.canUseFallbackTransition node dfa;
  fallback ← (if useFallback : bool then Some <$> DFA.bestFallbackTarget node dfa else Some None);
  ts ← DFA.transitions node dfa;
  destinations ← fillDestinations ts fallback (replicate 128 noDestination);
  rs ← collectRanges destinations;
  '(rs, tables) ← extractTables rs;
  Some (mkTransitions tables rs useFallback (default noDestination fallback)).

(** ** Worst-case sizes, in [unsigned] *)

Definition hasFlags (action : Z) : bool := negb (Z.land action ActionFlagMask =? 0).
Definition hasIfCondition (action : Z) : bool := negb (Z.land action IfConditionFlag =? 0).

Definition appendActionBytecodeSize (action : Z) : Z :=
  if hasFlags action then sizeof_instruction + 2 + 4 else sizeof_instruction + 4.

Definition checkForJumpTableMaxBytecodeSize (t : JumpTable) : Z :=
  (sizeof_instruction + 2) + (table_max t - table_min t + 1) * 4.

Definition checkForRangeMaxBytecodeSize (r : Range) : Z :=
  if range_min r =? range_max r then sizeof_instruction + 1 + 4 else sizeof_instruction + 2 + 4.

(** [for (x : l) size += f(x);] *)
Definition sumFrom {A} (f : A -> Z) (size : Z) (l : list A) : Z := foldl (fun size x => u32 (size + f x)) size l.

Definition transitionsMaxBytecodeSize (t : Transitions) : Z :=
  let size := sumFrom checkForJumpTableMaxBytecodeSize 0 (jumpTables t) in
  let size := sumFrom checkForRangeMaxBytecodeSize size (ranges t) in
  if useFallbackTransition t then u32 (size + (sizeof_instruction + 4)) else u32 (size + sizeof_instruction).

Definition nodeTransitionsMaxBytecodeSize (dfa : DFA.DFA) (node : DFA.DFANode) : option Z :=
  transitionsMaxBytecodeSize <$> transitions dfa node.

Definition compiledNodeMaxBytecodeSize (dfa : DFA.DFA) (index : Z) : option Z :=
  node ← at_ (DFA.nodes dfa) index;
  if DFA.isKilled node then Some 0
  else
    actions ← DFA.actions node dfa;
    let size := sumFrom appendActionBytecodeSize 0 actions in
    transitionsSize ← nodeTransitionsMaxBytecodeSize dfa node;
    Some (u32 (size + transitionsSize)).

(** ** Emitting *)

Record t := mk {
  m_bytecode : list Z;
  m_maxNodeStartOffsets : list Z;
  m_nodeStartOffsets : list Z;
  m_linkRecords : list LinkRecord
}.

Definition size (s : t) : Z := Z.of_nat (length (m_bytecode s)).

(** [append<IntType>] for a type of [n] bytes. *)
Definition append (n : nat) (value : Z) (s : t) : t :=
  mk (m_bytecode s ++ bytesLE n value) (m_maxNodeStartOffsets s) (m_nodeStartOffsets s) (m_linkRecords s).

Definition appendRecord (r : LinkRecord) (s : t) : t :=
  mk (m_bytecode s) (m_maxNodeStartOffsets s) (m_nodeStartOffsets s) (m_linkRecords s ++ [r]).

Definition setNodeStartOffset (index : Z) (s : t) : option t :=
  offsets ← set_ (m_nodeStartOffsets s) index (u32 (size s));
  Some (mk (m_bytecode s) (m_maxNodeStartOffsets s) offsets (m_linkRecords s)).

Definition appendZeroes (js : DFABytecodeJumpSize) (s : t) : t :=
  match js with
  | Int8 => append 1 0 s
  | Int16 => append 2 0 s
  | Int24 => append 1 0 (append 2 0 s)
  | Int32 => append 4 0 s
  end.

Definition emitAppendAction (action : Z) (s : t) : t :=
  if hasFlags action then
    let s := append 1 (opcode (if hasIfCondition action then TestFlagsAndAppendActionWithIfCondition
                               else TestFlagsAndAppendAction)) s in
    let s := append 2 (Z.shiftr action 32) s in
    append 4 action s
  else
    let s := append 1 (opcode (if hasIfCondition action then AppendActionWithIfCondition else AppendAction)) s in
    append 4 action s.

Definition longestPossibleJump (instructionLocation sourceNodeIndex destinationNodeIndex : Z) (s : t) : option Z :=
  destinationStart ← at_ (m_nodeStartOffsets s) destinationNodeIndex;
  if destinationStart =? noDestination then
    sourceStart ← at_ (m_nodeStartOffsets s) sourceNodeIndex;
    sourceMax ← at_ (m_maxNodeStartOffsets s) sourceNodeIndex;
    destinationMax ← at_ (m_maxNodeStartOffsets s) destinationNodeIndex;
    guard (sourceStart <= instructionLocation);;
    guard (sourceMax < destinationMax);;
    guard (sourceStart <> noDestination);;
    Some (i32 (destinationMax - sourceMax - (sourceStart - instructionLocation)))
  else
    guard (destinationStart <= instructionLocation);;
    Some (i32 (destinationStart - instructionLocation)).

(** [static_cast<uint8_t>(instruction) | jumpSize] *)
Definition opcodeWithJump (i : DFABytecodeInstruction) (js : DFABytecodeJumpSize) : Z := Z.lor (opcode i) (jumpSizeCode js).

Definition emitJump (sourceNodeIndex destinationNodeIndex : Z) (s : t) : option t :=
  let instructionLocation := u32 (size s) in
  let jumpLocation := u32 (instructionLocation + 1) in
  longest ← longestPossibleJump instructionLocation sourceNodeIndex destinationNodeIndex s;
  let js := smallestPossibleJumpSize longest in
  let s := append 1 (opcodeWithJump Jump js) s in
  let s := appendRecord (mkLinkRecord js longest instructionLocation jumpLocation destinationNodeIndex) s in
  Some (appendZeroes js s).

Definition emitCheckValue (value sourceNodeIndex destinationNodeIndex : Z) (caseSensitive : bool) (s : t) : option t :=
  let instructionLocation := u32 (size s) in
  let jumpLocation := u32 (instructionLocation + 2) in
  longest ← longestPossibleJump instructionLocation sourceNodeIndex destinationNodeIndex s;
  let js := smallestPossibleJumpSize longest in
  let s := append 1 (opcodeWithJump (if caseSensitive then CheckValueCaseSensitive else CheckValueCaseInsensitive) js) s in
  let s := append 1 value s in
  let s := appendRecord (mkLinkRecord js longest instructionLocation jumpLocation destinationNodeIndex) s in
  Some (appendZeroes js s).

Definition emitCheckValueRange (lowValue highValue sourceNodeIndex destinationNodeIndex : Z) (caseSensitive : bool) (s : t)
    : option t :=
  guard (lowValue < highValue);;
  let instructionLocation := u32 (size s) in
  let jumpLocation := u32 (instructionLocation + 3) in
  longest ← longestPossibleJump instructionLocation sourceNodeIndex destinationNodeIndex s;
  let js := smallestPossibleJumpSize longest in
  let s := append 1 (opcodeWithJump (if caseSensitive then CheckValueRangeCaseSensitive else CheckValueRangeCaseInsensitive) js) s in
  let s := append 1 lowValue s in
  let s := append 1 highValue s in
  let s := appendRecord (mkLinkRecord js longest instructionLocation jumpLocation destinationNodeIndex) s in
  Some (appendZeroes js s).

Definition emitTerminate (s : t) : t := append 1 (opcode Terminate) s.

(** [std::max] on jump sizes. *)
Definition maxJumpSize (a b : DFABytecodeJumpSize) : DFABytecodeJumpSize := if jumpSizeCode a <? jumpSizeCode b then b else a.

Fixpoint tableJumpSize (instructionLocation nodeIndex : Z) (destinations : list Z) (js : DFABytecodeJumpSize) (s : t)
    : option DFABytecodeJumpSize :=
  match destinations with
  | [] => Some js
  | d :: destinations =>
      longest ← longestPossibleJump instructionLocation nodeIndex d s;
      tableJumpSize instructionLocation nodeIndex destinations (maxJumpSize js (smallestPossibleJumpSize longest)) s
  end.

Fixpoint emitTableTargets (instructionLocation nodeIndex : Z) (js : DFABytecodeJumpSize) (destinations : list Z) (s : t) : option t :=
  match destinations with
  | [] => Some s
  | d :: destinations =>
      longest ← longestPossibleJump instructionLocation nodeIndex d s;
      let jumpLocation := u32 (size s) in
      let s := appendRecord (mkLinkRecord js longest instructionLocation jumpLocation d) s in
      emitTableTargets instructionLocation nodeIndex js destinations (appendZeroes js s)
  end.

Definition compileJumpTable (nodeIndex : Z) (table : JumpTable) (s : t) : option t :=
  let startSize := size s in
  guard (table_max table < 128);;
  guard (table_min table <= table_max table);;
  let instructionLocation := u32 (size s) in
  js ← tableJumpSize instructionLocation nodeIndex (table_destinations table) Int8 s;
  let s := append 1 (opcodeWithJump (if table_caseSensitive table then JumpTableCaseSensitive else JumpTableCaseInsensitive) js) s in
  let s := append 1 (table_min table) s in
  let s := append 1 (table_max table) s in
  s ← emitTableTargets instructionLocation nodeIndex js (table_destinations table) s;
  guard (size s - startSize <= checkForJumpTableMaxBytecodeSize table);;
  Some s.

Definition compileCheckForRange (nodeIndex : Z) (range : Range) (s : t) : option t :=
  let startSize := size s in
  guard (range_max range < 128);;
  guard (range_min range <= range_max range);;
  s ← (if range_min range =? range_max range
       then emitCheckValue (range_min range) nodeIndex (range_destination range) (range_caseSensitive range) s
       else emitCheckValueRange (range_min range) (range_max range) nodeIndex (range_destination range) (range_caseSensitive range) s);
  guard (size s - startSize <= checkForRangeMaxBytecodeSize range);;
  Some s.

(** [for (x : l) f(x);] *)
Fixpoint forEach {A} (f : A -> t -> option t) (l : list A) (s : t) : option t :=
  match l with
  | [] => Some s
  | x :: l => s ← f x s; forEach f l s
  end.

Section Compile.

Context (dfa : DFA.DFA).

Definition compileNodeTransitions (nodeIndex : Z) (s : t) : option t :=
  node ← at_ (DFA.nodes dfa) nodeIndex;
  let startSize := size s in
  nodeTransitions ← transitions dfa node;
  s ← forEach (compileJumpTable nodeIndex) (jumpTables nodeTransitions) s;
  s ← forEach (compileCheckForRange nodeIndex) (ranges nodeTransitions) s;
  s ← (if useFallbackTransition nodeTransitions then emitJump nodeIndex (fallbackTransitionTarget nodeTransitions) s
       else Some (emitTerminate s));
  maxSize ← nodeTransitionsMaxBytecodeSize dfa node;
  guard (size s - startSize <= maxSize);;
  Some s.

Definition compileNode (index : Z) (isRoot : bool) (s : t) : option t :=
  let startSize := size s in
  node ← at_ (DFA.nodes dfa) index;
  if DFA.isKilled node then
    start ← at_ (m_nodeStartOffsets s) index;
    guard (start = noDestination);;
    Some s
  else
    s ← (if isRoot then Some s else setNodeStartOffset index s);
    actions ← DFA.actions node dfa;
    s ← forEach (fun action s => Some (emitAppendAction action s)) actions s;
    s ← (if isRoot then setNodeStartOffset index s else Some s);
    s ← compileNodeTransitions index s;
    maxSize ← compiledNodeMaxBytecodeSize dfa index;
    guard (size s - startSize <= maxSize);;
    Some s.

(** The indices of the nodes but the root. *)
Definition otherNodes : list Z :=
  List.filter (fun i => negb (i =? DFA.root dfa)) (seqZ 0 (Z.of_nat (length (DFA.nodes dfa)))).

(** The loop that fills [m_maxNodeStartOffsets]. *)
Fixpoint maxOffsetsLoop (indices : list Z) (offsets : list Z) (nextIndex : Z) : option (list Z) :=
  match indices with
  | [] => Some offsets
  | i :: indices =>
      offsets ← set_ offsets i nextIndex;
      nodeSize ← compiledNodeMaxBytecodeSize dfa i;
      maxOffsetsLoop indices offsets (u32 (nextIndex + nodeSize))
  end.

Definition maxNodeStartOffsets : option (list Z) :=
  rootNode ← at_ (DFA.nodes dfa) (DFA.root dfa);
  rootActions ← DFA.actions rootNode dfa;
  let rootActionsSize := sumFrom appendActionBytecodeSize 0 rootActions in
  offsets ← set_ (replicate (length (DFA.nodes dfa)) 0) (DFA.root dfa) (u32 (4 + rootActionsSize));
  rootSize ← compiledNodeMaxBytecodeSize dfa (DFA.root dfa);
  maxOffsetsLoop otherNodes offsets (u32 (4 + rootSize)).

(** ** Linking *)

(** [setBits<IntType>] for a type of [n] bytes. *)
Definition setBits (n : nat) (index value : Z) (bytecode : list Z) : option (list Z) :=
  guard (index + Z.of_nat n <= Z.of_nat (length bytecode));;
  guard (take n (drop (Z.to_nat index) bytecode) = replicate n 0);;
  Some (take (Z.to_nat index) bytecode ++ bytesLE n value ++ drop (Z.to_nat index + n) bytecode).

Definition linkJump (r : LinkRecord) (distance : Z) (bytecode : list Z) : option (list Z) :=
  match jumpSize r with
  | Int8 =>
      guard (-128 <= distance <= 127);;
      setBits 1 (jumpLocation r) distance bytecode
  | Int16 =>
      guard (-32768 <= distance <= 32767);;
      setBits 2 (jumpLocation r) distance bytecode
  | Int24 =>
      guard (Int24Min <= distance <= Int24Max);;
      bytecode ← setBits 2 (jumpLocation r) distance bytecode;
      setBits 1 (u32 (jumpLocation r + 2)) (Z.shiftr distance 16) bytecode
  | Int32 => setBits 4 (jumpLocation r) distance bytecode
  end.

Fixpoint link (offsets : list Z) (records : list LinkRecord) (bytecode : list Z) : option (list Z) :=
  match records with
  | [] => Some bytecode
  | r :: records =>
      destination ← at_ offsets (destinationNodeIndex r);
      guard (destination < INT_MAX);;
      let distance := i32 (destination - instructionLocation r) in
      guard (Z.abs distance <= Z.abs (longestPossibleJump_ r));;
      bytecode ← linkJump r distance bytecode;
      link offsets records bytecode
  end.

(** The bytecode of the automaton, after what the vector already holds. *)
Definition compile (bytecode : list Z) : option (list Z) :=
  let startLocation := u32 (Z.of_nat (length bytecode)) in
  maxOffsets ← maxNodeStartOffsets;
  let s := mk (bytecode ++ bytesLE 4 0) maxOffsets (replicate (length (DFA.nodes dfa)) noDestination) [] in
  s ← compileNode (DFA.root dfa) true s;
  s ← forEach (fun i => compileNode i false) otherNodes s;
  guard (Forall (fun '(start, max) => start = noDestination \/ start <= max) (zip (m_nodeStartOffsets s) (m_maxNodeStartOffsets s)));;
  bytecode ← link (m_nodeStartOffsets s) (m_linkRecords s) (m_bytecode s);
  setBits 4 startLocation (Z.of_nat (length bytecode) - startLocation) bytecode.

End Compile.

End DFABytecodeCompiler.
