(* ===== verification/DFABytecodeInterpreter.v ===== *)
(** * DFABytecodeInterpreter: running the bytecode on a URL

    Translated from src/Source/WebCore/contentextensions/DFABytecodeInterpreter.cpp
    and its header.  Every read of the bytecode and of the URL is checked;
    [None] is a failed assertion, invalid bytecode or a read out of range.  A
    URL is the characters of its [CString]; reading at its length gives the
    terminating zero.  The set of actions is a finite set. *)

From stdpp Require Import gmap.
From S2P Require Import Prelude ASCIICType DFABytecode.
Import DFABytecode.

Module DFABytecodeInterpreter.

Notation Actions := (gset Z).

Section Interpreter.

Context (m_bytecode : list Z).

Definition m_bytecodeLength : Z := Z.of_nat (length m_bytecode).

(** [getBits<IntType>] for an unsigned type of [n] bytes. *)
Definition getBits (n : nat) (index : Z) : option Z :=
  guard (0 <= index /\ index + Z.of_nat n <= m_bytecodeLength);;
  Some (valueLE (take n (drop (Z.to_nat index) m_bytecode))).

Definition getSignedBits (n : nat) (index : Z) : option Z := signed n <$> getBits n index.

(** [None] for a byte that is no instruction: the default branch. *)
Definition decodeInstruction (code : Z) : option DFABytecodeInstruction :=
  match code with
  | 0 => Some CheckValueCaseInsensitive | 1 => Some CheckValueCaseSensitive
  | 2 => Some JumpTableCaseInsensitive | 3 => Some JumpTableCaseSensitive
  | 4 => Some CheckValueRangeCaseInsensitive | 5 => Some CheckValueRangeCaseSensitive
  | 6 => Some AppendAction | 7 => Some AppendActionWithIfCondition
  | 8 => Some TestFlagsAndAppendAction | 9 => Some TestFlagsAndAppendActionWithIfCondition
  | 10 => Some Terminate | 11 => Some Jump
  | _ => None
  end.

Definition getInstruction (index : Z) : option DFABytecodeInstruction :=
  b ← getBits 1 index; decodeInstruction (Z.land b DFABytecodeInstructionMask).

Definition jumpSizeInBytes (js : DFABytecodeJumpSize) : nat :=
  match js with Int8 => 1 | Int16 => 2 | Int24 => 2 + 1 | Int32 => 4 end%nat.

Definition getJumpSize (index : Z) : option DFABytecodeJumpSize :=
  b ← getBits 1 index;
  match Z.land b DFABytecodeJumpSizeMask with
  | 16 => Some Int8 | 32 => Some Int16 | 48 => Some Int24 | 64 => Some Int32
  | _ => None
  end.

Definition getJumpDistance (index : Z) (js : DFABytecodeJumpSize) : option Z :=
  match js with
  | Int8 => getSignedBits 1 index
  | Int16 => getSignedBits 2 index
  | Int24 =>
      low ← getBits 2 index;
      high ← getSignedBits 1 (index + 2);
      Some (Z.lor low (Z.shiftl high 16))
  | Int32 => getSignedBits 4 index
  end.

Section Conditions.

(** [m_topURLActions], a null pointer being [None]. *)
Context (m_topURLActions : option Actions).

Definition matchesCondition (actionAndFlags : Z) (conditionActions : Actions) : bool :=
  eqb (negb (Z.land actionAndFlags IfConditionFlag =? 0)) (bool_decide (actionAndFlags ∈ conditionActions)).

(** [if (!m_topURLActions || matchesCondition(...)) actions.add(...)] *)
Definition addAction (action : Z) (actions : Actions) : Actions :=
  match m_topURLActions with
  | None => {[ action ]} ∪ actions
  | Some conditionActions => if matchesCondition action conditionActions then {[ action ]} ∪ actions else actions
  end.

Definition interpretAppendAction (programCounter : Z) (actions : Actions) (ifCondition : bool) : option (Z * Actions) :=
  bits ← getBits 4 (programCounter + sizeof_instruction);
  let action := Z.lor (if ifCondition then IfConditionFlag else 0) bits in
  size ← instructionSizeWithArguments AppendAction;
  Some (u32 (programCounter + size), addAction action actions).

Definition interpretTestFlagsAndAppendAction (programCounter flags : Z) (actions : Actions) (ifCondition : bool)
    : option (Z * Actions) :=
  flagsToCheck ← getBits 2 (programCounter + sizeof_instruction);
  let loadTypeFlags := Z.land flagsToCheck LoadTypeMask in
  let resourceTypeFlags := Z.land flagsToCheck ResourceTypeMask in
  let loadTypeMatches := if negb (loadTypeFlags =? 0) then negb (Z.land loadTypeFlags flags =? 0) else true in
  let resourceTypeMatches := if negb (resourceTypeFlags =? 0) then negb (Z.land resourceTypeFlags flags =? 0) else true in
  actions ← (if loadTypeMatches && resourceTypeMatches then
               bits ← getBits 4 (programCounter + sizeof_instruction + 2);
               let actionAndFlags := Z.lor (Z.lor (if ifCondition then IfConditionFlag else 0) (Z.shiftl flagsToCheck 32)) bits in
               Some (addAction actionAndFlags actions)
             else Some actions);
  size ← instructionSizeWithArguments TestFlagsAndAppendAction;
  Some (u32 (programCounter + size), actions).

(** ** One automaton *)

Record State := mkState {
  programCounter : Z;
  actions : Actions;
  urlIndex : Z;
  urlIndexIsAfterEndOfString : bool
}.

Inductive outcome :=
| Continue (s : State)
| NextDFA (actions : Actions).

Context (url : list Z) (flags : Z).

(** [url[urlIndex]]. *)
Definition urlAt (i : Z) : option Z :=
  if i =? Z.of_nat (length url) then Some 0 else if i <? 0 then None else url !! Z.to_nat i.

(** Taking the jump at [jumpLocation] for [character]. *)
Definition takeEdge (character jumpLocation : Z) (js : DFABytecodeJumpSize) (s : State) : option State :=
  distance ← getJumpDistance jumpLocation js;
  Some (mkState (u32 (programCounter s + distance)) (actions s) (u32 (urlIndex s + 1))
          (if character =? 0 then true else urlIndexIsAfterEndOfString s)).

Definition skipTo (pc : Z) (s : State) : State := mkState (u32 pc) (actions s) (urlIndex s) (urlIndexIsAfterEndOfString s).

Definition readCharacter (caseSensitive : bool) (s : State) : option Z :=
  c ← urlAt (urlIndex s); Some (if caseSensitive then c else toASCIILower c).

Definition interpretCheckValue (caseSensitive : bool) (s : State) : option State :=
  character ← readCharacter caseSensitive s;
  js ← getJumpSize (programCounter s);
  value ← getBits 1 (programCounter s + sizeof_instruction);
  if character =? value then takeEdge character (programCounter s + sizeof_instruction + 1) js s
  else Some (skipTo (programCounter s + sizeof_instruction + 1 + Z.of_nat (jumpSizeInBytes js)) s).

Definition interpretCheckValueRange (caseSensitive : bool) (s : State) : option State :=
  character ← readCharacter caseSensitive s;
  js ← getJumpSize (programCounter s);
  low ← getBits 1 (programCounter s + sizeof_instruction);
  high ← getBits 1 (programCounter s + sizeof_instruction + 1);
  if (low <=? character) && (character <=? high) then takeEdge character (programCounter s + sizeof_instruction + 2) js s
  else Some (skipTo (programCounter s + sizeof_instruction + 2 + Z.of_nat (jumpSizeInBytes js)) s).

Definition interpetJumpTable (caseSensitive : bool) (s : State) : option State :=
  js ← getJumpSize (programCounter s);
  character ← readCharacter caseSensitive s;
  firstCharacter ← getBits 1 (programCounter s + sizeof_instruction);
  lastCharacter ← getBits 1 (programCounter s + sizeof_instruction + 1);
  if (firstCharacter <=? character) && (character <=? lastCharacter) then
    let startOffset := programCounter s + sizeof_instruction + 2 in
    takeEdge character (startOffset + (character - firstCharacter) * Z.of_nat (jumpSizeInBytes js)) js s
  else
    Some (skipTo (programCounter s + sizeof_instruction + 2
                  + Z.of_nat (jumpSizeInBytes js) * (lastCharacter - firstCharacter + 1)) s).

Definition interpretJump (s : State) : option State :=
  js ← getJumpSize (programCounter s);
  distance ← getJumpDistance (programCounter s + sizeof_instruction) js;
  Some (mkState (u32 (programCounter s + distance)) (actions s) (u32 (urlIndex s + 1)) (urlIndexIsAfterEndOfString s)).

(** The guard [if (urlIndexIsAfterEndOfString) goto nextDFA]. *)
Definition unlessAfterEnd (k : option State) (s : State) : option outcome :=
  if urlIndexIsAfterEndOfString s then Some (NextDFA (actions s)) else Continue <$> k.

Definition withActions (r : option (Z * Actions)) (s : State) : option outcome :=
  '(pc, actions) ← r; Some (Continue (mkState pc actions (urlIndex s) (urlIndexIsAfterEndOfString s))).

(** The switch. *)
Definition dispatch (s : State) : option outcome :=
  guard (programCounter s <= m_bytecodeLength);;
  instruction ← getInstruction (programCounter s);
  match instruction with
  | Terminate => Some (NextDFA (actions s))
  | CheckValueCaseSensitive => unlessAfterEnd (interpretCheckValue true s) s
  | CheckValueCaseInsensitive => unlessAfterEnd (interpretCheckValue false s) s
  | JumpTableCaseInsensitive => unlessAfterEnd (interpetJumpTable false s) s
  | JumpTableCaseSensitive => unlessAfterEnd (interpetJumpTable true s) s
  | CheckValueRangeCaseSensitive => unlessAfterEnd (interpretCheckValueRange true s) s
  | CheckValueRangeCaseInsensitive => unlessAfterEnd (interpretCheckValueRange false s) s
  | Jump =>
      c ← urlAt (urlIndex s);
      if (c =? 0) || urlIndexIsAfterEndOfString s then Some (NextDFA (actions s)) else Continue <$> interpretJump s
  | AppendAction => withActions (interpretAppendAction (programCounter s) (actions s) false) s
  | AppendActionWithIfCondition => withActions (interpretAppendAction (programCounter s) (actions s) true) s
  | TestFlagsAndAppendAction => withActions (interpretTestFlagsAndAppendAction (programCounter s) flags (actions s) false) s
  | TestFlagsAndAppendActionWithIfCondition => withActions (interpretTestFlagsAndAppendAction (programCounter s) flags (actions s) true) s
  end.

(** The assertion at the end of the body of the loop. *)
Definition indexOk (s : State) : bool :=
  (urlIndex s <=? Z.of_nat (length url)) || (urlIndexIsAfterEndOfString s && (urlIndex s <=? Z.of_nat (length url) + 1)).

Fixpoint runDFA (fuel : nat) (s : State) : option Actions :=
  match fuel with
  | O => None
  | S fuel =>
      o ← dispatch s;
      match o with
      | NextDFA actions => Some actions
      | Continue s => guard (indexOk s = true);; runDFA fuel s
      end
  end.

(** Each edge needs at most one instruction per byte. *)
Definition runFuel : nat := (length url + 3) * S (length m_bytecode).

(** ** All automata *)

(** The loop over the actions of the first root. *)
Fixpoint skipRootActions (fuel : nat) (dfaBytecodeLength pc : Z) (actions : Actions) : option (Z * Actions) :=
  match fuel with
  | O => None
  | S fuel =>
      if pc <? dfaBytecodeLength then
        instruction ← getInstruction pc;
        match instruction with
        | AppendAction | AppendActionWithIfCondition =>
            size ← instructionSizeWithArguments instruction;
            skipRootActions fuel dfaBytecodeLength (u32 (pc + size)) actions
        | TestFlagsAndAppendAction =>
            '(pc, actions) ← interpretTestFlagsAndAppendAction pc flags actions false;
            skipRootActions fuel dfaBytecodeLength pc actions
        | TestFlagsAndAppendActionWithIfCondition =>
            '(pc, actions) ← interpretTestFlagsAndAppendAction pc flags actions true;
            skipRootActions fuel dfaBytecodeLength pc actions
        | _ => Some (pc, actions)
        end
      else Some (pc, actions)
  end.

Definition isAction (i : DFABytecodeInstruction) : bool :=
  match i with
  | AppendAction | AppendActionWithIfCondition | TestFlagsAndAppendAction | TestFlagsAndAppendActionWithIfCondition => true
  | _ => false
  end.

(** One round of the outer loop: the actions, or the answer of the early
    return. *)
Definition interpretDFA (dfaStart dfaBytecodeLength : Z) (acc : Actions) : option (Actions + Actions) :=
  let pc := u32 (dfaStart + 4) in
  if dfaStart =? 0 then
    '(pc, acc) ← skipRootActions (S (length m_bytecode)) dfaBytecodeLength pc acc;
    if m_bytecodeLength <=? pc then Some (inr acc)
    else inl <$> runDFA runFuel (mkState pc acc 0 false)
  else
    instruction ← getInstruction pc;
    guard (isAction instruction = false);;
    inl <$> runDFA runFuel (mkState pc acc 0 false).

Fixpoint interpretLoop (fuel : nat) (dfaStart : Z) (acc : Actions) : option Actions :=
  match fuel with
  | O => None
  | S fuel =>
      if dfaStart <? m_bytecodeLength then
        dfaBytecodeLength ← getBits 4 dfaStart;
        r ← interpretDFA dfaStart dfaBytecodeLength acc;
        match r with
        | inr acc => Some acc
        | inl acc =>
            guard (dfaBytecodeLength <> 0);;
            interpretLoop fuel (u32 (dfaStart + dfaBytecodeLength)) acc
        end
      else Some acc
  end.

(** [interpret] with [m_topURLActions] as it stands. *)
Definition interpretWith : option Actions := interpretLoop (S (length m_bytecode)) 0 ∅.

(** The loop of [actionsMatchingEverything]. *)
Fixpoint matchingLoop (fuel : nat) (dfaBytecodeLength pc : Z) (actions : Actions) : option Actions :=
  match fuel with
  | O => None
  | S fuel =>
      if pc <? dfaBytecodeLength then
        instruction ← getInstruction pc;
        match instruction with
        | AppendAction =>
            '(pc, actions) ← interpretAppendAction pc actions false;
            matchingLoop fuel dfaBytecodeLength pc actions
        | AppendActionWithIfCondition =>
            '(pc, actions) ← interpretAppendAction pc actions true;
            matchingLoop fuel dfaBytecodeLength pc actions
        | TestFlagsAndAppendAction | TestFlagsAndAppendActionWithIfCondition =>
            size ← instructionSizeWithArguments instruction;
            matchingLoop fuel dfaBytecodeLength (u32 (pc + size)) actions
        | _ => Some actions
        end
      else Some actions
  end.

Definition actionsMatchingEverything : option Actions :=
  dfaBytecodeLength ← getBits 4 0;
  matchingLoop (S (length m_bytecode)) dfaBytecodeLength 4 ∅.

End Conditions.

Definition interpret (url : list Z) (flags : Z) : option Actions := interpretWith None url flags.

Definition interpretWithConditions (url : list Z) (flags : Z) (topURLActions : Actions) : option Actions :=
  interpretWith (Some topURLActions) url flags.

End Interpreter.

End DFABytecodeInterpreter.
