(* ===== verification/DFATransitions.v ===== *)
(** * DFATransitions: the ranges and jump tables of a node cover its transitions *)

From stdpp Require Import gmap sorting.
From S2P Require Import Prelude ASCIICType DFA DFABytecode DFABytecodeCompiler.
Import DFABytecodeCompiler.

(** ** The transition function of a node *)

Definition inRange (r : DFA.CharRange) (c : Z) : bool := (DFA.first r <=? c) && (c <=? DFA.last r).

Fixpoint goes (ts : list (DFA.CharRange * Z)) (c : Z) : option Z :=
  match ts with
  | [] => None
  | (r, target) :: ts => if inRange r c then Some target else goes ts c
  end.

Definition okTransition (t : DFA.CharRange * Z) : Prop :=
  0 <= DFA.first t.1 <= DFA.last t.1 /\ DFA.last t.1 <= 127 /\ 0 <= t.2 < noDestination.

(** Increasing ranges of ASCII characters. *)
Definition okTransitions (ts : list (DFA.CharRange * Z)) : Prop :=
  Forall okTransition ts /\ StronglySorted (fun t t' => DFA.last t.1 < DFA.first t'.1) ts.

Lemma okTransitions_cons t ts :
  okTransitions (t :: ts) -> okTransition t /\ okTransitions ts /\ Forall (fun t' => DFA.last t.1 < DFA.first t'.1) ts.
Proof. intros [H1 H2]. apply Forall_cons in H1 as [H0 H1]. inversion H2; subst. by split_and!. Qed.

Lemma goes_after ts x c :
  Forall okTransition ts -> Forall (fun t' => x < DFA.first t'.1) ts -> c <= x -> goes ts c = None.
Proof.
  induction ts as [|[r t] ts IH]; intros Hok Hx Hc; [done|]. cbn [goes].
  apply Forall_cons in Hok as [Ho Hok]. apply Forall_cons in Hx as [Hr Hx]. cbn in Ho, Hr. unfold inRange.
  rewrite (proj2 (Z.leb_gt _ _)) by lia. cbn [andb]. auto.
Qed.

Lemma goes_target ts c d : goes ts c = Some d -> exists r, (r, d) ∈ ts /\ inRange r c = true.
Proof.
  induction ts as [|[r t] ts IH]; [done|]. cbn [goes]. destruct (inRange r c) eqn:E.
  - intros [= ->]. exists r. split; [left|done].
  - intros H. destruct (IH H) as (r' & Hr' & E'). exists r'. split; [by right|done].
Qed.

(** ** Arrays of destinations as functions *)

Definition dst (l : list Z) (c : Z) : Z := nth (Z.to_nat c) l noDestination.

#[global] Arguments dst : simpl never.

Definition isChar (c : Z) : Prop := 0 <= c < 128.

Lemma at_dst l c : length l = 128%nat -> isChar c -> at_ l c = Some (dst l c).
Proof.
  unfold isChar. intros Hl Hc. unfold at_, DFA.at_, dst. rewrite (proj2 (Z.ltb_ge c 0)) by lia.
  destruct (lookup_lt_is_Some_2 l (Z.to_nat c) ltac:(lia)) as [x Hx]. rewrite Hx.
  by rewrite (nth_lookup_Some _ _ _ _ Hx).
Qed.

Lemma set_dst l c x : length l = 128%nat -> isChar c ->
  exists l', set_ l c x = Some l' /\ length l' = 128%nat
    /\ forall c', isChar c' -> dst l' c' = if c' =? c then x else dst l c'.
Proof.
  unfold isChar. intros Hl Hc. unfold set_. rewrite (proj2 (andb_true_iff _ _)) by (rewrite Z.leb_le, Z.ltb_lt; lia).
  eexists. split; [done|]. split; [by rewrite length_insert|]. intros c' Hc'. unfold dst. rewrite !nth_lookup.
  destruct (Z.eqb_spec c' c) as [->|Hne].
  - by rewrite list_lookup_insert_eq by lia.
  - by rewrite list_lookup_insert_ne by lia.
Qed.

Lemma setAll_dst indices x : forall l, length l = 128%nat -> Forall isChar indices ->
  exists l', setAll l indices x = Some l' /\ length l' = 128%nat
    /\ forall c, isChar c -> dst l' c = if bool_decide (c ∈ indices) then x else dst l c.
Proof.
  induction indices as [|i indices IH]; intros l Hl Hi.
  - exists l. split; [done|]. split; [done|]. intros c Hc. by rewrite bool_decide_false by apply not_elem_of_nil.
  - apply Forall_cons in Hi as [Hi His]. cbn [setAll]. destruct (set_dst l i x Hl Hi) as (l1 & -> & Hl1 & H1).
    cbn [mbind option_bind]. destruct (IH l1 Hl1 His) as (l2 & -> & Hl2 & H2). exists l2. split; [done|]. split; [done|].
    intros c Hc. rewrite H2, H1 by done. repeat case_bool_decide; destruct (Z.eqb_spec c i); set_solver.
Qed.

Lemma range_chars r : 0 <= DFA.first r <= DFA.last r -> DFA.last r <= 127 ->
  Forall isChar (seqZ (DFA.first r) (DFA.last r - DFA.first r + 1)).
Proof. intros H1 H2. rewrite Forall_forall. intros c Hc. apply elem_of_seqZ in Hc. unfold isChar. lia. Qed.

(** The destinations that are filled in: the targets but the fallback's. *)
Definition filled (ts : list (DFA.CharRange * Z)) (fallback : option Z) (c : Z) : Z :=
  match goes ts c with
  | Some target => if bool_decide (fallback = Some target) then noDestination else target
  | None => noDestination
  end.

Lemma fillDestinations_spec ts fallback : forall l,
  okTransitions ts -> length l = 128%nat ->
  exists l', fillDestinations ts fallback l = Some l' /\ length l' = 128%nat
    /\ forall c, isChar c -> dst l' c = if filled ts fallback c =? noDestination then dst l c else filled ts fallback c.
Proof.
  induction ts as [|[r t] ts IH]; intros l Hok Hl.
  - exists l. by split_and!.
  - apply okTransitions_cons in Hok as ((H1 & H2 & H3) & Hok & Hlt). cbn in H1, H2, H3, Hlt. cbn [fillDestinations].
    assert (forall c, inRange r c = true -> goes ts c = None) as Hdis.
    { intros c Hc. unfold inRange in Hc. zbool. eapply goes_after; [apply Hok|done|lia]. }
    case_bool_decide as Hf.
    + destruct (IH l Hok Hl) as (l' & -> & Hl' & H'). exists l'. split; [done|]. split; [done|]. intros c Hc.
      rewrite H' by done. unfold filled. cbn [goes]. destruct (inRange r c) eqn:E; [|done].
      rewrite (Hdis c E). rewrite bool_decide_true by done. done.
    + destruct (setAll_dst (seqZ (DFA.first r) (DFA.last r - DFA.first r + 1)) t l Hl (range_chars r H1 H2)) as (l1 & -> & Hl1 & E1).
      cbn [mbind option_bind]. destruct (IH l1 Hok Hl1) as (l' & -> & Hl' & H'). exists l'. split; [done|]. split; [done|].
      intros c Hc. rewrite H', E1 by done. unfold filled. cbn [goes].
      assert (bool_decide (c ∈ seqZ (DFA.first r) (DFA.last r - DFA.first r + 1)) = inRange r c) as ->.
      { unfold inRange. case_bool_decide as Hin; rewrite elem_of_seqZ in Hin; symmetry;
          [apply andb_true_iff|apply andb_false_iff]; lia. }
      destruct (inRange r c) eqn:E; [|done]. rewrite (Hdis c E), bool_decide_false by done. cbn.
      by rewrite (proj2 (Z.eqb_neq t noDestination)) by lia.
Qed.

(** ** Fallback *)

Lemma fallbackLoop_spec ts : forall x,
  okTransitions ts -> Forall (fun t' => x < DFA.first t'.1) ts ->
  exists b, DFA.fallbackLoop ts x = Some b /\ (b = true -> forall c, x < c <= 127 -> goes ts c <> None).
Proof.
  induction ts as [|[r t] ts IH]; intros x Hok Hx; [by exists false|].
  apply okTransitions_cons in Hok as ((H1 & H2 & H3) & Hok & Hlt). apply Forall_cons in Hx as [Hr Hx].
  cbn in H1, H2, H3, Hlt, Hr. cbn [DFA.fallbackLoop goes]. rewrite option_guard_True by done. cbn [mbind option_bind].
  destruct (Z.eqb_spec (DFA.first r) (x + 1)); cbn [negb]; [|by exists false].
  destruct (Z.eqb_spec (DFA.last r) 127).
  - exists true. split; [done|]. intros _ c Hc. unfold inRange. rewrite (proj2 (andb_true_iff _ _)); [done|]. lia.
  - destruct (IH (DFA.last r) Hok Hlt) as (b & -> & Hb). exists b. split; [done|]. intros Et c Hc.
    destruct (inRange r c) eqn:E; [done|]. apply Hb; [done|]. unfold inRange in E. lia.
Qed.

Lemma canUseFallbackTransition_spec dfa node ts :
  DFA.transitions node dfa = Some ts -> okTransitions ts ->
  exists b, DFA.canUseFallbackTransition node dfa = Some b /\ (b = true -> forall c, 1 <= c <= 127 -> goes ts c <> None).
Proof.
  intros Hts Hok. unfold DFA.canUseFallbackTransition. rewrite Hts. cbn [mbind option_bind].
  destruct ts as [|[r t] ts]; [by exists false|].
  destruct (Z.eqb_spec (DFA.first r) 0) as [E|E].
  - apply okTransitions_cons in Hok as ((H1 & H2 & H3) & Hok & Hlt). cbn in H1, H2, H3, Hlt. destruct (Z.eqb_spec (DFA.last r) 127).
    + exists true. split; [done|]. intros _ c Hc. cbn [goes]. unfold inRange. rewrite (proj2 (andb_true_iff _ _)); [done|]. lia.
    + destruct (fallbackLoop_spec ts (DFA.last r) Hok Hlt) as (b & -> & Hb). exists b. split; [done|]. intros Et c Hc.
      cbn [goes]. destruct (inRange r c) eqn:Ei; [done|]. apply Hb; [done|]. unfold inRange in Ei. lia.
  - destruct (fallbackLoop_spec ((r, t) :: ts) 0 Hok) as (b & -> & Hb).
    + apply okTransitions_cons in Hok as ((H1 & H2 & H3) & Hok & Hlt). cbn in H1, H2, H3, Hlt.
      apply Forall_cons. cbn. split; [lia|]. eapply Forall_impl; [exact Hlt|]. cbn. intros; lia.
    + exists b. split; [done|]. intros Et c Hc. apply Hb; [done|lia].
Qed.

Lemma bestLoop_target ts : forall h best score, DFA.bestLoop ts h best score = best \/ exists r, (r, DFA.bestLoop ts h best score) ∈ ts.
Proof.
  induction ts as [|[r t] ts IH]; intros h best score; [by left|]. cbn [DFA.bestLoop].
  match goal with |- context [if ?b then ?x else ?y] => destruct b end.
  - destruct (IH (<[t := match h !! t with Some v => u32 (v + u32 (DFA.CharRange_size r)) | None => u32 (DFA.CharRange_size r) end]> h) t
      (match h !! t with Some v => u32 (v + u32 (DFA.CharRange_size r)) | None => u32 (DFA.CharRange_size r) end)) as [->|[r' H]];
      right; [exists r; left|exists r'; by right].
  - destruct (IH (<[t := match h !! t with Some v => u32 (v + u32 (DFA.CharRange_size r)) | None => u32 (DFA.CharRange_size r) end]> h) best score)
      as [->|[r' H]]; [by left|right; exists r'; by right].
Qed.

Lemma bestFallbackTarget_spec dfa node ts :
  DFA.transitions node dfa = Some ts -> okTransitions ts -> DFA.canUseFallbackTransition node dfa = Some true ->
  exists target, DFA.bestFallbackTarget node dfa = Some target /\ exists r, (r, target) ∈ ts.
Proof.
  intros Hts Hok Hcan. destruct (canUseFallbackTransition_spec dfa node ts Hts Hok) as (b & E & Hb).
  rewrite Hcan in E. injection E as <-. specialize (Hb eq_refl 1 ltac:(lia)).
  unfold DFA.bestFallbackTarget. rewrite Hcan, Hts. cbn [mbind option_bind]. rewrite option_guard_True by done.
  cbn [mbind option_bind]. destruct ts as [|[r t] ts]; [done|].
  destruct ((DFA.first r =? 0) && (DFA.last r =? 0)) eqn:E0.
  - cbn [goes] in Hb. unfold inRange in Hb. zbool. rewrite (proj2 (andb_false_iff _ _)) in Hb by (rewrite !Z.leb_gt; lia).
    destruct ts as [|[r' t'] ts]; [done|]. eexists. split; [done|].
    match goal with |- exists r, (r, ?x) ∈ _ => assert (x = t' \/ exists r, (r, x) ∈ ts) as [->|[r1 H1]] by apply bestLoop_target end.
    + exists r'. set_solver.
    + exists r1. set_solver.
  - eexists. split; [done|].
    match goal with |- exists r, (r, ?x) ∈ _ => assert (x = t \/ exists r, (r, x) ∈ ts) as [->|[r1 H1]] by apply bestLoop_target end.
    + exists r. set_solver.
    + exists r1. set_solver.
Qed.

(** ** The ranges *)

(** The character an instruction compares. *)
Definition folded (caseSensitive : bool) (c : Z) : Z := if caseSensitive then c else toASCIILower c.

Definition matches (r : Range) (c : Z) : Prop := range_min r <= folded (range_caseSensitive r) c <= range_max r.

Definition okRange (f : Z -> Z) (r : Range) : Prop :=
  0 <= range_min r <= range_max r /\ range_max r < 128 /\ range_destination r <> noDestination
  /\ exists c, isChar c /\ range_destination r = f c.

(** The characters that the ranges of [out] take care of: those before [p]
    and those that were cleared. *)
Definition covered (f : Z -> Z) (l : list Z) (p c : Z) : Prop := c < p \/ dst l c <> f c.

Record Covers (f : Z -> Z) (l : list Z) (p : Z) (out : list Range) : Prop := {
  covers_ok : Forall (okRange f) out;
  covers_sound : forall r c, r ∈ out -> isChar c -> matches r c -> covered f l p c /\ range_destination r = f c;
  covers_complete : forall c, isChar c -> covered f l p c -> f c <> noDestination -> exists r, r ∈ out /\ matches r c }.

Definition start (m : option Z) (i : Z) : Z := match m with Some m => m | None => i end.

(** The invariant of the loop over the characters, before character [i]. *)
Record RangeInv (f : Z -> Z) (i : Z) (s : list Z * list Range * option Z) : Prop := {
  inv_length : length s.1.1 = 128%nat;
  inv_upper : forall c, 0 <= c < 97 -> dst s.1.1 c = f c;
  inv_array : forall c, isChar c -> dst s.1.1 c = f c \/ dst s.1.1 c = noDestination;
  inv_start : 0 <= start s.2 i <= i;
  inv_run : forall m, s.2 = Some m -> m < i /\ forall c, m <= c < i -> dst s.1.1 c = dst s.1.1 m /\ dst s.1.1 m <> noDestination;
  inv_covers : Covers f s.1.1 (start s.2 i) s.1.2 }.

Lemma caseLoop_spec l m indices :
  length l = 128%nat -> isChar m -> Forall (fun i => isChar (toASCIILower i)) indices ->
  exists b, caseLoop l m indices = Some b /\ (b = false -> Forall (fun i => dst l (toASCIILower i) = dst l m) indices).
Proof.
  intros Hl Hm Hi. induction indices as [|i indices IH]; [by exists false|]. apply Forall_cons in Hi as [Hi His].
  cbn [caseLoop]. rewrite !at_dst by done. cbn [mbind option_bind].
  destruct (Z.eqb_spec (dst l m) (dst l (toASCIILower i))); cbn [negb]; [|by exists true].
  destruct (IH His) as (b & -> & Hb). exists b. split; [done|]. intros E. constructor; auto.
Qed.

Lemma clearLoop_spec m indices : forall l,
  length l = 128%nat -> isChar m -> m < 97 -> NoDup indices -> Forall (fun i => 65 <= i <= 90) indices ->
  Forall (fun i => dst l (i + 32) = dst l m) indices ->
  exists l', clearLoop l m indices = Some l' /\ length l' = 128%nat
    /\ forall c, isChar c -> dst l' c = if bool_decide (c - 32 ∈ indices) then noDestination else dst l c.
Proof.
  induction indices as [|i indices IH]; intros l Hl Hm Hm97 Hnd Hi He.
  - exists l. split; [done|]. split; [done|]. intros c Hc. by rewrite bool_decide_false by apply not_elem_of_nil.
  - apply Forall_cons in Hi as [Hi His]. apply Forall_cons in He as [He Hes]. apply NoDup_cons in Hnd as [Hni Hnd].
    assert (toASCIILower i = i + 32) as Hlow by (rewrite toASCIILower_spec; unfold isASCIIUpper; rewrite (proj2 (andb_true_iff _ _)); lia).
    cbn [clearLoop]. rewrite Hlow, !at_dst by (done || unfold isChar; lia). cbn [mbind option_bind].
    rewrite option_guard_True by done. cbn [mbind option_bind].
    destruct (set_dst l (i + 32) noDestination Hl ltac:(unfold isChar; lia)) as (l1 & -> & Hl1 & H1). cbn [mbind option_bind].
    destruct (IH l1 Hl1 Hm Hm97 Hnd His) as (l2 & -> & Hl2 & H2).
    + rewrite Forall_forall in Hes, His |- *. intros j Hj. specialize (His j Hj).
      rewrite (H1 (j + 32)), (H1 m) by (done || unfold isChar; lia).
      rewrite (proj2 (Z.eqb_neq m (i + 32))) by lia. destruct (Z.eqb_spec (j + 32) (i + 32)); [|by apply Hes].
      assert (j = i) as -> by lia. done.
    + exists l2. split; [done|]. split; [done|]. intros c Hc. rewrite H2, H1 by done.
      repeat case_bool_decide; destruct (Z.eqb_spec c (i + 32)) as [->|]; try done.
      * exfalso. apply H0. replace (i + 32 - 32) with i by lia. left.
      * exfalso. set_solver.
      * exfalso. apply elem_of_cons in H0 as [?|?]; [lia|done].
      * exfalso. apply H0. replace (i + 32 - 32) with i by lia. left.
Qed.

Lemma lower_upper i : 65 <= i <= 90 -> toASCIILower i = i + 32.
Proof. intros H. rewrite toASCIILower_spec. unfold isASCIIUpper. rewrite (proj2 (andb_true_iff _ _)); lia. Qed.

Lemma lower_letter c a b : isChar c -> 97 <= a -> b <= 122 ->
  (a <= toASCIILower c <= b <-> a <= c <= b \/ a - 32 <= c <= b - 32).
Proof.
  intros Hc Ha Hb. unfold isChar in Hc. rewrite toASCIILower_spec. unfold isASCIIUpper.
  destruct ((65 <=? c) && (c <=? 90)) eqn:E; [zbool; lia|]. apply andb_false_iff in E. rewrite !Z.leb_gt in E. lia.
Qed.

(** Appending a range: new characters are covered, with its destination. *)
Lemma Covers_app f l l' p p' out r :
  Covers f l p out -> okRange f r ->
  (forall c, isChar c -> covered f l p c -> covered f l' p' c) ->
  (forall c, isChar c -> matches r c -> covered f l' p' c /\ range_destination r = f c) ->
  (forall c, isChar c -> covered f l' p' c -> f c <> noDestination -> covered f l p c \/ matches r c) ->
  Covers f l' p' (out ++ [r]).
Proof.
  intros [Hok Hs Hc] Hr Hmono Hnew Hall. constructor.
  - apply Forall_app_2; [done|]. by apply Forall_singleton.
  - intros r' c Hr' Hch Hm. apply elem_of_app in Hr' as [Hr'|Hr']; [|by apply list_elem_of_singleton in Hr' as ->; auto].
    destruct (Hs r' c Hr' Hch Hm). auto.
  - intros c Hch Hcov Hf. destruct (Hall c Hch Hcov Hf) as [H|H].
    + destruct (Hc c Hch H Hf) as (r' & ? & ?). exists r'. split; [apply elem_of_app; by left|done].
    + exists r. split; [apply elem_of_app; right; left|done].
Qed.

Lemma Covers_mono f l p p' out :
  Covers f l p out -> (forall c, isChar c -> f c <> noDestination -> covered f l p c <-> covered f l p' c) -> Covers f l p' out.
Proof.
  intros [Hok Hs Hc] Hiff. constructor; [done| |].
  - intros r c Hr Hch Hm. destruct (Hs r c Hr Hch Hm) as [H1 H2]. split; [|done]. apply Hiff; [done| |done].
    rewrite <- H2. rewrite Forall_forall in Hok. by destruct (Hok r Hr) as (_ & _ & ? & _).
  - intros c Hch Hcov Hf. apply Hc; [done| |done]. by apply Hiff.
Qed.

(** A run [m .. i-1] with one destination, not cleared. *)
Lemma commitRange_spec f l m i out :
  length l = 128%nat -> (forall c, 0 <= c < 97 -> dst l c = f c) ->
  (forall c, isChar c -> dst l c = f c \/ dst l c = noDestination) ->
  0 <= m < i -> i <= 128 ->
  (forall c, m <= c < i -> dst l c = dst l m /\ dst l m <> noDestination) -> Covers f l m out ->
  exists l' out', commitRange l m (i - 1) out = Some (l', out') /\ length l' = 128%nat
    /\ (forall c, 0 <= c < 97 -> dst l' c = f c)
    /\ (forall c, isChar c -> dst l' c = f c \/ dst l' c = noDestination)
    /\ Covers f l' i out'.
Proof.
  intros Hl Hup Harr Hm Hi Hrun Hcov. unfold commitRange. replace (i - 1 - m + 1) with (i - m) by lia.
  assert (forall c, m <= c < i -> f c = dst l m) as Hf.
  { intros c Hc. destruct (Hrun c Hc) as [E Hne]. destruct (Harr c ltac:(unfold isChar; lia)); congruence. }
  assert (isChar m) as Hmc by (unfold isChar; lia). destruct (Hrun m ltac:(lia)) as [_ Hne].
  set (run := seqZ m (i - m)).
  assert (exists b, (if (chr "A" <=? m) && (i - 1 <=? chr "Z") then caseLoop l m run else Some true) = Some b
    /\ (b = false -> 65 <= m /\ i - 1 <= 90 /\ Forall (fun j => dst l (j + 32) = dst l m) run)) as (b & -> & Hb).
  { destruct ((chr "A" <=? m) && (i - 1 <=? chr "Z")) eqn:E; [|by exists true]. zbool.
    destruct (caseLoop_spec l m run Hl Hmc) as (b & Eb & Hb).
    { rewrite Forall_forall. intros j Hj. apply elem_of_seqZ in Hj. rewrite lower_upper by lia. unfold isChar. lia. }
    exists b. split; [done|]. intros ->. split; [done|]. split; [done|]. specialize (Hb eq_refl).
    rewrite Forall_forall in Hb |- *. intros j Hj. rewrite <- (lower_upper j); [by apply Hb|].
    apply elem_of_seqZ in Hj. lia. }
  cbn [mbind option_bind]. destruct b; cbn [negb].
  - rewrite at_dst by done. cbn [mbind option_bind]. eexists l, _. split; [done|]. split; [done|]. split; [done|].
    split; [done|]. eapply Covers_app; [exact Hcov| | | |].
    + split; cbn; [lia|]. split; [lia|]. split; [done|]. exists m. split; [done|]. by rewrite Hf by lia.
    + unfold covered. intros c Hc [?|?]; [left; lia|by right].
    + unfold matches, covered. cbn. intros c Hc Hmc'. split; [left; lia|]. by rewrite Hf by lia.
    + unfold covered, matches. cbn. intros c Hc [?|?] _; [|by left; right].
      destruct (decide (c < m)); [left; by left|right; lia].
  - destruct (Hb eq_refl) as (H65 & H90 & Heq).
    destruct (clearLoop_spec m run l Hl Hmc ltac:(lia)) as (l' & -> & Hl' & Hd); [apply NoDup_seqZ| |done|].
    { rewrite Forall_forall. intros j Hj. apply elem_of_seqZ in Hj. lia. }
    assert (forall c, isChar c -> dst l' c = if bool_decide (m + 32 <= c < i + 32) then noDestination else dst l c) as Hd'.
    { intros c Hc. rewrite Hd by done.
      rewrite (bool_decide_ext (c - 32 ∈ run) (m + 32 <= c < i + 32)); [done|]. unfold run. rewrite elem_of_seqZ. lia. }
    cbn [mbind option_bind]. rewrite at_dst by done. cbn [mbind option_bind].
    rewrite Hd', bool_decide_false by (done || lia). rewrite !lower_upper by lia.
    assert (forall c, m + 32 <= c < i + 32 -> f c = dst l m) as Hlow.
    { intros c Hc. rewrite Forall_forall in Heq. specialize (Heq (c - 32)). rewrite Z.sub_add in Heq.
      specialize (Heq ltac:(apply elem_of_seqZ; lia)). destruct (Harr c ltac:(unfold isChar; lia)); congruence. }
    eexists l', _. split; [done|]. split; [done|]. split.
    { intros c Hc. rewrite Hd', bool_decide_false by (unfold isChar; lia). auto. }
    split.
    { intros c Hc. rewrite Hd' by done. case_bool_decide; auto. }
    eapply Covers_app; [exact Hcov| | | |].
    + split; cbn; [lia|]. split; [lia|]. split; [done|]. exists m. split; [done|]. by rewrite Hf by lia.
    + unfold covered. intros c Hc [?|H]; [left; lia|]. right. rewrite Hd' by done. case_bool_decide as Hin; [|done].
      rewrite Hlow by done. congruence.
    + unfold matches, covered. cbn. intros c Hc Hmt. apply (lower_letter c) in Hmt; [|done|lia|lia].
      destruct Hmt as [Hmt|Hmt].
      * split; [|by rewrite Hlow by lia]. right. rewrite Hd', bool_decide_true, Hlow by (done || lia). congruence.
      * split; [left; lia|]. by rewrite Hf by lia.
    + unfold covered, matches. cbn. intros c Hc Hcv _. rewrite (lower_letter c) by (done || lia).
      rewrite Hd' in Hcv by done. case_bool_decide; [right; lia|].
      destruct Hcv as [?|?]; [|by left; right]. destruct (decide (c < m)); [left; by left|right; lia].
Qed.

(** The state after a character whose range starts or not. *)
Lemma RangeInv_next f i l out :
  length l = 128%nat -> (forall c, 0 <= c < 97 -> dst l c = f c) ->
  (forall c, isChar c -> dst l c = f c \/ dst l c = noDestination) -> isChar i -> Covers f l i out ->
  RangeInv f (i + 1) (l, out, if dst l i =? noDestination then None else Some i).
Proof.
  unfold isChar. intros Hl Hup Harr Hi Hcov. destruct (Z.eqb_spec (dst l i) noDestination) as [E|E]; constructor; cbn; try done; try lia.
  - eapply Covers_mono; [exact Hcov|]. unfold covered. intros c Hc Hf. split; intros [?|?]; try (by right); try (left; lia).
    destruct (decide (c = i)) as [->|]; [right; congruence|left; lia].
  - intros m [= <-]. split; [lia|]. intros c Hc. assert (c = i) as -> by lia. done.
Qed.

Lemma rangeStep_spec f i s : isChar i -> RangeInv f i s -> exists s', rangeStep s i = Some s' /\ RangeInv f (i + 1) s'.
Proof.
  destruct s as [[l out] m]. intros Hi [Hl Hup Harr Hst Hrun Hcov]. cbn in *. unfold rangeStep.
  rewrite at_dst by done. cbn [mbind option_bind]. destruct m as [m|]; cbn in *.
  2: { eexists. split; [done|]. by apply RangeInv_next. }
  destruct (Hrun m eq_refl) as [Hmi Hr]. unfold isChar in Hi. rewrite at_dst by (done || unfold isChar; lia).
  cbn [mbind option_bind]. destruct (Z.eqb_spec (dst l i) (dst l m)) as [E|E]; cbn [negb].
  - eexists. split; [done|]. constructor; cbn; try done; [lia|]. intros m' [= <-]. split; [lia|]. intros c Hc.
    destruct (decide (c = i)) as [->|]; [|apply Hr; lia]. split; [done|]. apply (Hr m); lia.
  - destruct (commitRange_spec f l m i out Hl Hup Harr ltac:(lia) ltac:(lia) Hr Hcov) as (l' & out' & -> & Hl' & Hup' & Harr' & Hcov').
    cbn [mbind option_bind]. rewrite at_dst by (done || unfold isChar; lia). cbn [mbind option_bind].
    eexists. split; [done|]. by apply RangeInv_next.
Qed.

Lemma rangeLoop_spec f n : forall i s,
  0 <= i -> i + Z.of_nat n <= 128 -> RangeInv f i s ->
  exists s', rangeLoop s (seqZ i (Z.of_nat n)) = Some s' /\ RangeInv f (i + Z.of_nat n) s'.
Proof.
  induction n as [|n IH]; intros i s Hi Hn Hinv.
  - exists s. cbn. by rewrite Z.add_0_r.
  - rewrite Nat2Z.inj_succ, seqZ_cons by lia. cbn [rangeLoop].
    destruct (rangeStep_spec f i s ltac:(unfold isChar; lia) Hinv) as (s1 & -> & H1). cbn [mbind option_bind].
    replace (Z.pred (Z.succ (Z.of_nat n))) with (Z.of_nat n) by lia.
    destruct (IH (i + 1) s1 ltac:(lia) ltac:(lia) H1) as (s2 & E & H2).
    exists s2. split; [exact E|].
    by replace (i + Z.succ (Z.of_nat n)) with (i + 1 + Z.of_nat n) by lia.
Qed.

(** The ranges take care of every character. *)
Record RangesOf (f : Z -> Z) (rs : list Range) : Prop := {
  ranges_ok : Forall (okRange f) rs;
  ranges_sound : forall r c, r ∈ rs -> isChar c -> matches r c -> range_destination r = f c;
  ranges_complete : forall c, isChar c -> f c <> noDestination -> exists r, r ∈ rs /\ matches r c }.

Lemma RangesOf_Covers f l out : Covers f l 128 out -> RangesOf f out.
Proof.
  intros [Hok Hs Hc]. constructor; [done| |].
  - intros r c Hr Hch Hm. by apply (Hs r c).
  - intros c Hch. apply Hc; [done|]. left. unfold isChar in Hch. lia.
Qed.

Lemma collectRanges_spec l :
  length l = 128%nat -> exists rs, collectRanges l = Some rs /\ RangesOf (dst l) rs.
Proof.
  intros Hl. unfold collectRanges. set (f := dst l).
  assert (RangeInv f 0 (l, [], None)) as H0.
  { constructor; cbn; try done; auto. constructor; [done|set_solver|]. unfold covered, isChar. intros c Hc [?|?]; [lia|done]. }
  clearbody f. destruct (rangeLoop_spec f 128 0 _ ltac:(lia) ltac:(lia) H0) as (s' & E & [Hl' Hup Harr Hst Hrun Hcov]).
  change (Z.of_nat 128) with 128 in E. rewrite E. destruct s' as [[l' out] m]. cbn [mbind option_bind]. cbn in *.
  destruct m as [m|]; cbn in *.
  2: { exists out. split; [done|]. by eapply RangesOf_Covers. }
  destruct (Hrun m eq_refl) as [Hm Hr]. rewrite at_dst by (done || unfold isChar; lia). cbn [mbind option_bind].
  eexists. split; [done|]. destruct (Hr m ltac:(lia)) as [_ Hne].
  assert (forall c, m <= c < 128 -> f c = dst l' m) as Hf.
  { intros c Hc. destruct (Hr c Hc) as [E' _]. rewrite <- E'. destruct (Harr c ltac:(unfold isChar; lia)) as [?|?]; congruence. }
  apply (RangesOf_Covers f l'). eapply Covers_app; [exact Hcov| | | |].
  - split; cbn; [lia|]. split; [lia|]. split; [done|]. exists m. split; [unfold isChar; lia|]. by rewrite Hf by lia.
  - unfold covered. intros c Hc [?|?]; [left; lia|by right].
  - unfold matches, covered. cbn. intros c Hc Hmt. split; [left; lia|]. by rewrite Hf by lia.
  - unfold covered, matches, isChar. cbn. intros c Hc _ _. destruct (decide (c < m)); [left; by left|right; lia].
Qed.

(** ** The jump tables *)

Definition tableTarget (t : JumpTable) (c : Z) : option Z :=
  let c := folded (table_caseSensitive t) c in
  if (table_min t <=? c) && (c <=? table_max t) then table_destinations t !! Z.to_nat (c - table_min t) else None.

Definition hits (tables : list JumpTable) (rs : list Range) (c d : Z) : Prop :=
  (exists t, t ∈ tables /\ tableTarget t c = Some d) \/ (exists r, r ∈ rs /\ matches r c /\ range_destination r = d).

Definition okTable (f : Z -> Z) (t : JumpTable) : Prop :=
  0 <= table_min t <= table_max t /\ table_max t < 128
  /\ Z.of_nat (length (table_destinations t)) = table_max t - table_min t + 1
  /\ Forall (fun d => d <> noDestination /\ exists c, isChar c /\ d = f c) (table_destinations t).

(** The ranges [b], ..., [e - 1] are consecutive single characters. *)
Definition Run (rs : list Range) (b e : nat) (base : Range) : Prop :=
  rs !! b = Some base /\
  forall k, (b <= k < e)%nat -> exists r, rs !! k = Some r /\ range_min r = range_max r
    /\ range_caseSensitive r = range_caseSensitive base /\ range_min r = range_min base + Z.of_nat (k - b).

Lemma lookup_taken {A} (rs : list A) b n k : (k < n)%nat -> take n (drop b rs) !! k = rs !! (b + k)%nat.
Proof. intros H. by rewrite lookup_take_lt, lookup_drop by done. Qed.

Lemma taken_split {A} (rs : list A) b n : rs = take b rs ++ take n (drop b rs) ++ drop (b + n) rs.
Proof. rewrite <- drop_drop, take_drop, take_drop. done. Qed.

Lemma extractJumpTable_spec f rs b e base :
  Run rs b (S e) base -> (b < e < length rs)%nat -> Forall (okRange f) rs ->
  exists t rs1 rs2 rs', extractJumpTable rs b e = Some (t, rs1 ++ rs2) /\ rs = rs1 ++ rs' ++ rs2 /\ length rs1 = b
    /\ length rs' = (e - b + 1)%nat /\ okTable f t
    /\ (forall c d, tableTarget t c = Some d <-> exists r, r ∈ rs' /\ matches r c /\ range_destination r = d).
Proof.
  intros [Hb Hrun] Hbe Hok. unfold extractJumpTable. rewrite !option_guard_True by lia. cbn [mbind option_bind]. rewrite Hb.
  destruct (Hrun e ltac:(lia)) as (last & Hlast & El & Cl & Ml). rewrite Hlast. cbn [mbind option_bind].
  set (taken := take (e - b + 1) (drop b rs)).
  assert (length taken = (e - b + 1)%nat) as Hlen by (unfold taken; rewrite length_take, length_drop; lia).
  assert (forall k, (k < e - b + 1)%nat -> exists r, taken !! k = Some r /\ range_min r = range_max r
    /\ range_caseSensitive r = range_caseSensitive base /\ range_min r = range_min base + Z.of_nat k) as Ht.
  { intros k Hk. destruct (Hrun (b + k)%nat ltac:(lia)) as (r & E1 & E2 & E3 & E4). exists r.
    unfold taken. rewrite lookup_taken by lia. split_and!; try done. rewrite E4. f_equal. lia. }
  assert (Forall (okRange f) taken) as Hokt by (apply Forall_take, Forall_drop, Hok).
  rewrite option_guard_True.
  2: { rewrite Forall_lookup. intros k r Hk. assert (k < e - b + 1)%nat as Hlt by (rewrite <- Hlen; by eapply lookup_lt_Some).
       destruct (Ht k Hlt) as (r' & E1 & E2 & E3 & E4). rewrite Hk in E1. injection E1 as <-. split; [congruence|]. lia. }
  cbn [mbind option_bind]. rewrite option_guard_True by lia. cbn [mbind option_bind].
  eexists _, (take b rs), (drop (b + (e - b + 1)) rs), taken. split; [done|]. split; [apply taken_split|].
  split; [rewrite length_take; lia|]. split; [done|].
  assert (range_min last = range_min base + Z.of_nat (e - b)) as Elast by done.
  assert (okRange f base) as (B1 & B2 & _) by (rewrite Forall_lookup in Hok; by apply (Hok b)).
  assert (okRange f last) as (L1 & L2 & _) by (rewrite Forall_lookup in Hok; by apply (Hok e)).
  split.
  - split; cbn; [lia|]. split; [lia|]. split; [rewrite length_fmap, Hlen; lia|].
    rewrite Forall_fmap. eapply Forall_impl; [exact Hokt|]. intros r (_ & _ & H1 & c & Hc & H2). unfold compose. eauto.
  - intros c d. unfold tableTarget, matches. cbn. rewrite Cl.
    split.
    + destruct (_ && _) eqn:Ein; [|done]. zbool. rewrite list_lookup_fmap. intros Hd.
      apply fmap_Some in Hd as (r & Hk & ->). exists r. split; [by eapply list_elem_of_lookup_2|]. split; [|done].
      assert (Z.to_nat (folded (range_caseSensitive base) c - range_min base) < e - b + 1)%nat as Hlt by (rewrite <- Hlen; by eapply lookup_lt_Some).
      destruct (Ht _ Hlt) as (r' & E1 & E2 & E3 & E4). rewrite Hk in E1. injection E1 as <-. rewrite E3. lia.
    + intros (r & Hr & Hm & <-). apply list_elem_of_lookup_1 in Hr as [k Hk].
      assert (k < e - b + 1)%nat as Hlt by (rewrite <- Hlen; by eapply lookup_lt_Some).
      destruct (Ht k Hlt) as (r' & E1 & E2 & E3 & E4). rewrite Hk in E1. injection E1 as <-. rewrite E3 in Hm.
      rewrite (proj2 (andb_true_iff _ _)) by lia. rewrite list_lookup_fmap.
      replace (Z.to_nat (folded (range_caseSensitive base) c - range_min base)) with k by lia. by rewrite Hk.
Qed.

(** What does not change while tables are extracted. *)
Record TablesInv (f : Z -> Z) (rs0 : list Range) (tables : list JumpTable) (rs : list Range) : Prop := {
  tinv_ranges : Forall (okRange f) rs;
  tinv_tables : Forall (okTable f) tables;
  tinv_hits : forall c d, hits tables rs c d <-> hits [] rs0 c d }.

Lemma TablesInv_extract f rs0 tables rs b e base :
  TablesInv f rs0 tables rs -> Run rs b (S e) base -> (b < e < length rs)%nat ->
  exists t rs', extractJumpTable rs b e = Some (t, rs') /\ TablesInv f rs0 (tables ++ [t]) rs'
    /\ (length rs' + (e - b + 1) = length rs)%nat.
Proof.
  intros [Hok Hokt Hh] Hrun Hbe.
  destruct (extractJumpTable_spec f rs b e base Hrun Hbe Hok) as (t & rs1 & rs2 & rs' & -> & E & Hl1 & Hl' & Ht & Hsem).
  exists t, (rs1 ++ rs2). split; [done|]. split; [|rewrite E, !length_app; lia].
  rewrite E, !Forall_app in Hok. destruct Hok as (H1 & H2 & H3). constructor.
  - by apply Forall_app.
  - apply Forall_app. split; [done|]. by apply Forall_singleton.
  - intros c d. rewrite <- Hh. unfold hits. rewrite E. setoid_rewrite elem_of_app. split.
    + intros [(t' & [?|Ht'] & Hd)|(r & [?|?] & ?)]; [left; by eauto| |right; exists r; set_solver..].
      apply list_elem_of_singleton in Ht' as ->. apply Hsem in Hd as (r & ? & ?). right. exists r. set_solver.
    + intros [(t' & ? & Hd)|(r & [?|[?|?]%elem_of_app] & Hm)]; [left; exists t'; set_solver|right; exists r; set_solver| |].
      * left. exists t. split; [right; left|]. apply Hsem. eauto.
      * right. exists r. set_solver.
Qed.

Lemma tablesLoop_spec f rs0 : forall fuel rs tables pos base,
  (length rs < pos + fuel)%nat -> TablesInv f rs0 tables rs -> (pos <= length rs)%nat ->
  (forall b, base = Some b -> (b < pos)%nat /\ exists r, Run rs b pos r) ->
  exists rs' tables' base', tablesLoop fuel rs tables pos base = Some (rs', tables', base') /\ TablesInv f rs0 tables' rs'
    /\ (forall b, base' = Some b -> (b < length rs')%nat /\ exists r, Run rs' b (length rs') r).
Proof.
  induction fuel as [|fuel IH]; intros rs tables pos base Hfuel Hinv Hpos Hbase; [lia|]. cbn [tablesLoop].
  destruct (Nat.ltb_spec pos (length rs)) as [Hlt|Hge].
  2: { assert (pos = length rs) as -> by lia. eauto 10. }
  destruct (lookup_lt_is_Some_2 rs pos Hlt) as [range Hrange]. rewrite Hrange. cbn [mbind option_bind].
  destruct base as [b|].
  - destruct (Hbase b eq_refl) as (Hb & r & Hrun). destruct Hrun as [Hrb Hrun]. rewrite Hrb. cbn [mbind option_bind].
    destruct (Hrun (pos - 1)%nat ltac:(lia)) as (prev & Hprev & P1 & P2 & P3). rewrite Hprev. cbn [mbind option_bind].
    destruct (_ || _ || _) eqn:Econd.
    + destruct (Nat.ltb_spec 1 (pos - b)).
      * destruct (TablesInv_extract f rs0 tables rs b (pos - 1) r Hinv) as (t & rs' & -> & Hinv' & Hlen); [|lia|].
        { split; [done|]. intros k Hk. apply Hrun. lia. }
        cbn [mbind option_bind]. apply IH; [lia|done|lia|done].
      * apply IH; [lia|done|lia|done].
    + apply orb_false_iff in Econd as [[E1 E2]%orb_false_iff E3]. apply negb_false_iff in E1, E2, E3. apply eqb_prop in E2. zbool.
      apply IH; [lia|done|lia|]. intros b' [= <-]. split; [lia|]. exists r. split; [done|]. intros k Hk.
      destruct (decide (k = pos)) as [->|]; [|apply Hrun; lia]. exists range. split_and!; try done. lia.
  - apply IH; [lia|done|lia|]. intros b' Hb'. destruct (Z.eqb_spec (range_min range) (range_max range)) as [E|]; [|done].
    injection Hb' as <-. split; [lia|]. exists range. split; [done|]. intros k Hk. assert (k = pos) as -> by lia.
    exists range. split_and!; try done. rewrite Nat.sub_diag. lia.
Qed.

Lemma extractTables_spec f rs0 : Forall (okRange f) rs0 ->
  exists rs tables, extractTables rs0 = Some (rs, tables) /\ TablesInv f rs0 tables rs.
Proof.
  intros Hok. assert (TablesInv f rs0 [] rs0) as Hinv by (constructor; [done|by constructor|done]). unfold extractTables.
  destruct (tablesLoop_spec f rs0 (S (length rs0)) rs0 [] 0 None ltac:(lia) Hinv ltac:(lia)) as (rs & tables & base & -> & Hinv' & Hb); [done|].
  cbn [mbind option_bind]. destruct base as [b|]; [|by eauto]. destruct (Hb b eq_refl) as (Hlt & r & Hrun).
  destruct (Nat.ltb_spec 1 (length rs - b)); [|by eauto].
  destruct (TablesInv_extract f rs0 tables rs b (length rs - 1) r Hinv') as (t & rs' & -> & Hinv'' & _); [|lia|].
  - replace (S (length rs - 1)) with (length rs) by lia. done.
  - cbn [mbind option_bind]. eauto.
Qed.

(** ** The transitions of a node *)

Definition fallbackOf (T : Transitions) : option Z :=
  if useFallbackTransition T then Some (fallbackTransitionTarget T) else None.

Record TransitionsOk (ts : list (DFA.CharRange * Z)) (T : Transitions) : Prop := {
  tok_fallback : useFallbackTransition T = true ->
    (forall c, 1 <= c <= 127 -> goes ts c <> None) /\ exists r, (r, fallbackTransitionTarget T) ∈ ts;
  tok_tables : Forall (okTable (filled ts (fallbackOf T))) (jumpTables T);
  tok_ranges : Forall (okRange (filled ts (fallbackOf T))) (ranges T);
  tok_hits : forall c d, isChar c -> hits (jumpTables T) (ranges T) c d <-> filled ts (fallbackOf T) c = d /\ d <> noDestination }.

(** Tables and ranges with the same destinations. *)
Lemma okRange_ext f g r : (forall c, isChar c -> f c = g c) -> okRange f r -> okRange g r.
Proof. intros E (H1 & H2 & H3 & c & Hc & H4). split_and!; try done; try lia. exists c. by rewrite <- E. Qed.

Lemma RangesOf_ext f g rs : (forall c, isChar c -> f c = g c) -> RangesOf f rs -> RangesOf g rs.
Proof.
  intros E [H1 H2 H3]. constructor.
  - eapply Forall_impl; [exact H1|]. intros r. by apply okRange_ext.
  - intros r c Hr Hc Hm. rewrite <- E by done. by apply H2.
  - intros c Hc Hf. apply H3; [done|]. by rewrite E.
Qed.

Lemma transitions_spec dfa node ts :
  DFA.transitions node dfa = Some ts -> okTransitions ts ->
  exists T, transitions dfa node = Some T /\ TransitionsOk ts T.
Proof.
  intros Hts Hok. unfold transitions.
  destruct (canUseFallbackTransition_spec dfa node ts Hts Hok) as (b & Hb & Hall). rewrite Hb. cbn [mbind option_bind].
  assert (exists fb, (if b then Some <$> DFA.bestFallbackTarget node dfa else Some None) = Some fb
    /\ (b = true -> exists d r, fb = Some d /\ (r, d) ∈ ts) /\ (b = false -> fb = None)) as (fb & -> & Hfb & Hnf).
  { destruct b; [|by exists None]. destruct (bestFallbackTarget_spec dfa node ts Hts Hok Hb) as (d & -> & r & Hr).
    exists (Some d). split; [done|]. split; [|done]. eauto. }
  cbn [mbind option_bind]. rewrite Hts. cbn [mbind option_bind].
  destruct (fillDestinations_spec ts fb (replicate 128 noDestination) Hok (length_replicate _ _)) as (l & -> & Hl & Hd).
  cbn [mbind option_bind]. destruct (collectRanges_spec l Hl) as (rs0 & -> & Hrs). cbn [mbind option_bind].
  assert (forall c, isChar c -> dst l c = filled ts fb c) as Hdst.
  { intros c Hc. rewrite Hd by done. destruct (Z.eqb_spec (filled ts fb c) noDestination) as [->|]; [|done].
    unfold dst. rewrite nth_lookup. by destruct (_ !! _) eqn:E; [apply lookup_replicate_1 in E as [-> _]|]. }
  apply (RangesOf_ext _ _ _ Hdst) in Hrs. destruct Hrs as [R1 R2 R3].
  destruct (extractTables_spec (filled ts fb) rs0 R1) as (rs & tables & -> & [I1 I2 I3]). cbn [mbind option_bind].
  eexists. split; [done|].
  assert (fallbackOf (mkTransitions tables rs b (default noDestination fb)) = fb) as Ef.
  { unfold fallbackOf. cbn. destruct b; [|by rewrite Hnf]. destruct (Hfb eq_refl) as (d & r & -> & _). done. }
  constructor; rewrite ?Ef; cbn; try done.
  - intros ->. split; [by apply Hall|]. destruct (Hfb eq_refl) as (d & r & -> & Hr). cbn. eauto.
  - intros c d Hc. rewrite I3. unfold hits. split.
    + intros [(? & ?%not_elem_of_nil & _)|(r & Hr & Hm & <-)]; [done|]. split; [symmetry; by apply R2|].
      rewrite Forall_forall in R1. by destruct (R1 r Hr) as (_ & _ & ? & _).
    + intros [<- Hne]. right. destruct (R3 c Hc Hne) as (r & Hr & Hm). exists r. split; [done|]. split; [done|]. by apply R2.
Qed.

(** What the node does on a character: its transition, except that an end of
    the URL that would take the fallback is lost. *)
Definition stepOf (ts : list (DFA.CharRange * Z)) (fallback : option Z) (c : Z) : option Z :=
  match goes ts c with
  | Some d => if bool_decide (fallback = Some d) && (c =? 0) then None else Some d
  | None => None
  end.

(** ** The slices of the nodes *)

(** The bounds of a slice do not wrap. *)
Definition okSlice (start length : Z) : Prop := 0 <= start /\ 0 <= length /\ start + length < 2 ^ 32.

Definition actionSlice (node : DFA.DFANode) : list Z := DFA.slice (DFA.m_actionsStart node) (DFA.m_actionsLength node).
Definition transitionSlice (node : DFA.DFANode) : list Z := DFA.slice (DFA.m_transitionsStart node) (DFA.m_transitionsLength node).

Lemma slice_seqZ start length : okSlice start length -> DFA.slice start length = seqZ start length.
Proof. intros (H1 & H2 & H3). unfold DFA.slice. rewrite u32_id by lia. f_equal. lia. Qed.

Lemma elem_slice start length x : okSlice start length -> x ∈ DFA.slice start length <-> start <= x < start + length.
Proof. intros H. rewrite slice_seqZ by done. apply elem_of_seqZ. Qed.

(** No two nodes share an entry of an array; [n] is where the transitions that
    are in use end. *)
Record Slices (d : DFA.DFA) (n : nat) : Prop := {
  sl_actions : forall i node, DFA.nodes d !! i = Some node -> okSlice (DFA.m_actionsStart node) (DFA.m_actionsLength node) /\ DFA.m_actionsStart node + DFA.m_actionsLength node <= Z.of_nat (length (DFA.dfa_actions d));
  sl_transitions : forall i node, DFA.nodes d !! i = Some node -> okSlice (DFA.m_transitionsStart node) (DFA.m_transitionsLength node) /\ DFA.m_transitionsStart node + DFA.m_transitionsLength node <= Z.of_nat n;
  sl_disjoint : forall i j node node' x, DFA.nodes d !! i = Some node -> DFA.nodes d !! j = Some node' -> i <> j ->
    ~ (x ∈ transitionSlice node /\ x ∈ transitionSlice node') /\ ~ (x ∈ actionSlice node /\ x ∈ actionSlice node') }.

Lemma Slices_arrays d n d' : DFA.nodes d' = DFA.nodes d -> DFA.dfa_actions d' = DFA.dfa_actions d -> Slices d n -> Slices d' n.
Proof. intros E1 E2 [H1 H2 H3]. split; rewrite E1; [rewrite E2|..]; done. Qed.

(** A node is appended with its actions. *)
Lemma Slices_new d n d' acts : DFA.nodes d' = DFA.nodes d ++ [DFA.mkNode (Z.of_nat (length (DFA.dfa_actions d))) 0 (Z.of_nat (length acts)) 0 0] -> DFA.dfa_actions d' = DFA.dfa_actions d ++ acts ->
  Z.of_nat (length (DFA.dfa_actions d) + length acts) < 2 ^ 32 -> Slices d n -> Slices d' n.
Proof.
  intros E1 E2 Hfit [H1 H2 H3]. set (node := DFA.mkNode _ _ _ _ _) in E1.
  assert (okSlice (DFA.m_actionsStart node) (DFA.m_actionsLength node) /\ okSlice (DFA.m_transitionsStart node) (DFA.m_transitionsLength node)) as [Ha Ht] by (unfold okSlice; cbn; lia).
  assert (forall x, x ∉ transitionSlice node) as Hnone by (intros x; unfold transitionSlice; rewrite elem_slice by done; cbn; lia).
  assert (forall i node' x, DFA.nodes d !! i = Some node' -> ~ (x ∈ actionSlice node' /\ x ∈ actionSlice node)) as Hnew.
  { intros i node' x Hi. destruct (H1 i node' Hi) as [Ho Hle]. unfold actionSlice. rewrite !elem_slice by done. cbn. lia. }
  split; rewrite E1; [rewrite E2, length_app|..].
  - intros i node' [Hi|[_ Hi]]%lookup_app_Some; [destruct (H1 i node' Hi); split; [done|lia]|]. apply list_lookup_singleton_Some in Hi as [_ <-]. split; [done|]. cbn. lia.
  - intros i node' [Hi|[_ Hi]]%lookup_app_Some; [by apply (H2 i)|]. apply list_lookup_singleton_Some in Hi as [_ <-]. split; [done|]. cbn. lia.
  - intros i j node1 node2 x [Hi|[Hi' Hi]]%lookup_app_Some [Hj|[Hj' Hj]]%lookup_app_Some Hne; [by apply (H3 i j)|..].
    + apply list_lookup_singleton_Some in Hj as [_ <-]. split; [intros [_ Hx]; by apply Hnone in Hx|by eapply Hnew].
    + apply list_lookup_singleton_Some in Hi as [_ <-]. split; [intros [Hx _]; by apply Hnone in Hx|]. intros [Hx Hx']. by eapply (Hnew j).
    + apply list_lookup_singleton_Some in Hi as [Hi _], Hj as [Hj _]. lia.
Qed.

(** A node gets the transitions that were appended. *)
Lemma Slices_finish d n d' k node l : DFA.nodes d !! k = Some node ->
  DFA.nodes d' = <[k := DFA.mkNode (DFA.m_actionsStart node) (Z.of_nat n) (DFA.m_actionsLength node) (Z.of_nat l) (DFA.m_flags node)]> (DFA.nodes d) -> DFA.dfa_actions d' = DFA.dfa_actions d ->
  Z.of_nat (n + l) < 2 ^ 32 -> Slices d n -> Slices d' (n + l).
Proof.
  intros Hk E1 E2 Hfit [H1 H2 H3]. set (node' := DFA.mkNode _ _ _ _ _) in E1. pose proof (lookup_lt_Some _ _ _ Hk) as Hlt.
  assert (okSlice (DFA.m_transitionsStart node') (DFA.m_transitionsLength node')) as Ht by (unfold okSlice; cbn; lia).
  assert (forall i node1 x, i <> k -> DFA.nodes d !! i = Some node1 -> ~ (x ∈ transitionSlice node1 /\ x ∈ transitionSlice node') /\ ~ (x ∈ actionSlice node1 /\ x ∈ actionSlice node')) as Hone.
  { intros i node1 x Hik Hi. split; [|by apply (H3 i k node1 node x)]. destruct (H2 i node1 Hi) as [Ho Hle]. unfold transitionSlice. rewrite !elem_slice by done. cbn. lia. }
  split; rewrite E1; [rewrite E2|..].
  - intros i node1. rewrite list_lookup_insert_Some. intros [(<- & <- & _)|[_ Hi]]; [by apply (H1 k node)|by apply (H1 i)].
  - intros i node1. rewrite list_lookup_insert_Some. intros [(<- & <- & _)|[_ Hi]]; [split; [done|cbn; lia]|]. destruct (H2 i node1 Hi). split; [done|lia].
  - intros i j node1 node2 x. rewrite !list_lookup_insert_Some. intros [(<- & <- & _)|[Hi' Hi]] [(<- & <- & _)|[Hj' Hj]] Hne; [done| | |by apply (H3 i j)].
    + destruct (Hone j node2 x ltac:(congruence) Hj). tauto.
    + by apply (Hone i).
Qed.

Lemma Slices_empty root : Slices (DFA.mkDFA [] [] [] [] root) 0.
Proof. by split. Qed.
