(* ===== verification/DFAEmit.v ===== *)
(** * DFAEmit: what the emitting functions append *)

From stdpp Require Import gmap.
From S2P Require Import Prelude ASCIICType DFA DFABytecode DFABytecodeCompiler DFABytecodeInterpreter DFATransitions.

(** * Bytecode as a list of symbolic instructions *)

Import DFABytecode DFABytecodeCompiler.

#[local] Ltac Zify.zify_post_hook ::= Z.div_mod_to_equations.

(** ** Instructions *)

Inductive Instr :=
| IAction (action : Z)
| ITable (table : JumpTable) (js : DFABytecodeJumpSize)
| IRange (range : Range) (js : DFABytecodeJumpSize)
| IJump (destination : Z) (js : DFABytecodeJumpSize)
| ITerminate.

Definition jumpBytesSize (js : DFABytecodeJumpSize) : Z := Z.of_nat (DFABytecodeInterpreter.jumpSizeInBytes js).

Definition instrSize (i : Instr) : Z :=
  match i with
  | IAction action => appendActionBytecodeSize action
  | ITable table js => 3 + Z.of_nat (length (table_destinations table)) * jumpBytesSize js
  | IRange range js => (if range_min range =? range_max range then 2 else 3) + jumpBytesSize js
  | IJump _ js => 1 + jumpBytesSize js
  | ITerminate => 1
  end.

Definition codeSize (code : list Instr) : Z := foldr (fun i n => instrSize i + n) 0 code.

Lemma codeSize_app c1 c2 : codeSize (c1 ++ c2) = codeSize c1 + codeSize c2.
Proof. unfold codeSize. induction c1 as [|i c1 IH]; cbn [app foldr]; [done|]. rewrite IH. lia. Qed.

Lemma codeSize_cons i c : codeSize (i :: c) = instrSize i + codeSize c.
Proof. done. Qed.

Lemma jumpBytesSize_range js : 1 <= jumpBytesSize js <= 4.
Proof. destruct js; unfold jumpBytesSize; cbn [DFABytecodeInterpreter.jumpSizeInBytes]; lia. Qed.

Lemma instrSize_pos i : 1 <= instrSize i.
Proof.
  destruct i as [a|t js|r js|d js|]; cbn [instrSize]; try pose proof (jumpBytesSize_range js); try lia.
  - unfold appendActionBytecodeSize, sizeof_instruction. step_if; lia.
  - step_if; lia.
Qed.

Lemma codeSize_nonneg c : 0 <= codeSize c.
Proof. induction c as [|i c IH]; [done|]. rewrite codeSize_cons. pose proof (instrSize_pos i). lia. Qed.

Lemma length_codeSize c : Z.of_nat (length c) <= codeSize c.
Proof. induction c as [|j c IH]; [done|]. rewrite codeSize_cons. cbn [length]. pose proof (instrSize_pos j). lia. Qed.

(** ** Bytes *)

Lemma bytesLE_length n v : length (bytesLE n v) = n.
Proof. revert v. induction n as [|n IH]; intros v; [done|]. cbn. by rewrite IH. Qed.

Definition jumpBytes (js : DFABytecodeJumpSize) (distance : Z) : list Z :=
  match js with
  | Int8 => bytesLE 1 distance
  | Int16 => bytesLE 2 distance
  | Int24 => bytesLE 2 distance ++ bytesLE 1 (Z.shiftr distance 16)
  | Int32 => bytesLE 4 distance
  end.

Lemma jumpBytes_length js v : Z.of_nat (length (jumpBytes js v)) = jumpBytesSize js.
Proof. by destruct js. Qed.

Definition actionBytes (action : Z) : list Z :=
  if hasFlags action then
    bytesLE 1 (opcode (if hasIfCondition action then TestFlagsAndAppendActionWithIfCondition else TestFlagsAndAppendAction))
    ++ bytesLE 2 (Z.shiftr action 32) ++ bytesLE 4 action
  else
    bytesLE 1 (opcode (if hasIfCondition action then AppendActionWithIfCondition else AppendAction)) ++ bytesLE 4 action.

Definition tableOpcode (t : JumpTable) : DFABytecodeInstruction :=
  if table_caseSensitive t then JumpTableCaseSensitive else JumpTableCaseInsensitive.

Definition rangeOpcode (r : Range) : DFABytecodeInstruction :=
  if range_min r =? range_max r
  then if range_caseSensitive r then CheckValueCaseSensitive else CheckValueCaseInsensitive
  else if range_caseSensitive r then CheckValueRangeCaseSensitive else CheckValueRangeCaseInsensitive.

Definition rangeBytes (r : Range) : list Z :=
  if range_min r =? range_max r then bytesLE 1 (range_min r) else bytesLE 1 (range_min r) ++ bytesLE 1 (range_max r).

(** The bytes of an instruction whose jump to [d] has the distance [f d]. *)
Definition encode (f : Z -> Z) (i : Instr) : list Z :=
  match i with
  | IAction action => actionBytes action
  | ITable t js =>
      bytesLE 1 (opcodeWithJump (tableOpcode t) js) ++ bytesLE 1 (table_min t) ++ bytesLE 1 (table_max t)
      ++ concat ((fun d => jumpBytes js (f d)) <$> table_destinations t)
  | IRange r js => bytesLE 1 (opcodeWithJump (rangeOpcode r) js) ++ rangeBytes r ++ jumpBytes js (f (range_destination r))
  | IJump d js => bytesLE 1 (opcodeWithJump Jump js) ++ jumpBytes js (f d)
  | ITerminate => bytesLE 1 (opcode Terminate)
  end.

Lemma concat_jumps_length js (f : Z -> Z) ds :
  Z.of_nat (length (concat ((fun d => jumpBytes js (f d)) <$> ds))) = Z.of_nat (length ds) * jumpBytesSize js.
Proof.
  induction ds as [|d ds IH]; [done|]. rewrite fmap_cons. cbn [concat length].
  rewrite length_app, Nat2Z.inj_add, IH, jumpBytes_length. lia.
Qed.

Lemma encode_length f i : Z.of_nat (length (encode f i)) = instrSize i.
Proof.
  destruct i as [a|t js|r js|d js|]; cbn [encode instrSize].
  - unfold actionBytes, appendActionBytecodeSize. step_if; rewrite ?length_app, !bytesLE_length; done.
  - rewrite !length_app, !bytesLE_length, !Nat2Z.inj_add, concat_jumps_length. lia.
  - rewrite !length_app, bytesLE_length, !Nat2Z.inj_add, jumpBytes_length. unfold rangeBytes.
    step_if; rewrite ?length_app, !bytesLE_length; lia.
  - rewrite length_app, bytesLE_length, Nat2Z.inj_add, jumpBytes_length. lia.
  - done.
Qed.

(** A list of instructions from location [loc]; [f loc d] is the distance
    from the instruction at [loc] to node [d]. *)
Fixpoint encodeAll (f : Z -> Z -> Z) (loc : Z) (code : list Instr) : list Z :=
  match code with
  | [] => []
  | i :: code => encode (f loc) i ++ encodeAll f (loc + instrSize i) code
  end.

Lemma encodeAll_app f loc c1 c2 : encodeAll f loc (c1 ++ c2) = encodeAll f loc c1 ++ encodeAll f (loc + codeSize c1) c2.
Proof.
  revert loc. induction c1 as [|i c1 IH]; intros loc; cbn [app encodeAll].
  - cbn. by rewrite Z.add_0_r.
  - rewrite IH, <- app_assoc, codeSize_cons. do 3 f_equal. lia.
Qed.

Lemma encodeAll_length f loc code : Z.of_nat (length (encodeAll f loc code)) = codeSize code.
Proof.
  revert loc. induction code as [|i code IH]; intros loc; [done|]. cbn [encodeAll].
  rewrite length_app, Nat2Z.inj_add, encode_length, IH, codeSize_cons. lia.
Qed.

Definition zeroDistance (loc d : Z) : Z := 0.

(** ** Holes: where the distances go *)

Record Hole := mkHole { hole_js : DFABytecodeJumpSize; hole_location : Z; hole_jump : Z; hole_destination : Z }.

Definition holeOf (r : LinkRecord) : Hole := mkHole (jumpSize r) (instructionLocation r) (jumpLocation r) (destinationNodeIndex r).

Fixpoint tableHoles (js : DFABytecodeJumpSize) (loc jump : Z) (ds : list Z) : list Hole :=
  match ds with
  | [] => []
  | d :: ds => mkHole js loc jump d :: tableHoles js loc (jump + jumpBytesSize js) ds
  end.

Definition holes (loc : Z) (i : Instr) : list Hole :=
  match i with
  | ITable t js => tableHoles js loc (loc + 3) (table_destinations t)
  | IRange r js => [mkHole js loc (loc + (if range_min r =? range_max r then 2 else 3)) (range_destination r)]
  | IJump d js => [mkHole js loc (loc + 1) d]
  | _ => []
  end.

Fixpoint holesAll (loc : Z) (code : list Instr) : list Hole :=
  match code with
  | [] => []
  | i :: code => holes loc i ++ holesAll (loc + instrSize i) code
  end.

Lemma holesAll_app loc c1 c2 : holesAll loc (c1 ++ c2) = holesAll loc c1 ++ holesAll (loc + codeSize c1) c2.
Proof.
  revert loc. induction c1 as [|i c1 IH]; intros loc; cbn [app holesAll].
  - cbn. by rewrite Z.add_0_r.
  - rewrite IH, <- app_assoc, codeSize_cons. do 3 f_equal. lia.
Qed.

(** ** Linking fills the holes *)

Definition lowest (js : DFABytecodeJumpSize) : Z := match js with Int8 => -128 | Int16 => -32768 | Int24 => - 2 ^ 23 | Int32 => - 2 ^ 31 end.
Definition highest (js : DFABytecodeJumpSize) : Z := match js with Int8 => 127 | Int16 => 32767 | Int24 => 2 ^ 23 - 1 | Int32 => 2 ^ 31 - 1 end.

(** A record whose jump can be linked with the final offsets. *)
Definition linkable (offsets : list Z) (r : LinkRecord) : Prop :=
  exists destination, at_ offsets (destinationNodeIndex r) = Some destination
    /\ 0 <= destination < INT_MAX /\ 0 <= instructionLocation r < INT_MAX
    /\ Z.abs (destination - instructionLocation r) <= Z.abs (longestPossibleJump_ r)
    /\ lowest (jumpSize r) <= destination - instructionLocation r <= highest (jumpSize r).

Definition distanceTo (offsets : list Z) (loc d : Z) : Z := default 0 (at_ offsets d) - loc.

Lemma setBits_app n pre post v index :
  index = Z.of_nat (length pre) ->
  setBits n index v (pre ++ replicate n 0 ++ post) = Some (pre ++ bytesLE n v ++ post).
Proof.
  intros ->. unfold setBits. rewrite !length_app, length_replicate, Nat2Z.id. rewrite option_guard_True by lia.
  cbn [mbind option_bind]. rewrite drop_app_length, take_app_length' by (by rewrite length_replicate).
  rewrite option_guard_True by done. cbn [mbind option_bind].
  rewrite take_app_length, drop_app_add, drop_app_length' by (by rewrite length_replicate). done.
Qed.

Definition zeroBytes (js : DFABytecodeJumpSize) : list Z := jumpBytes js 0.

Lemma linkJump_app r pre post v :
  jumpLocation r = Z.of_nat (length pre) -> Z.of_nat (length pre) + 4 < 2 ^ 32 ->
  lowest (jumpSize r) <= v <= highest (jumpSize r) ->
  linkJump r v (pre ++ zeroBytes (jumpSize r) ++ post) = Some (pre ++ jumpBytes (jumpSize r) v ++ post).
Proof.
  intros Hj Hlt Hv. unfold linkJump. destruct (jumpSize r); cbn [lowest highest] in Hv.
  - rewrite option_guard_True by lia. cbn [mbind option_bind]. by apply (setBits_app 1).
  - rewrite option_guard_True by lia. cbn [mbind option_bind]. by apply (setBits_app 2).
  - rewrite option_guard_True by (change Int24Min with (- 2 ^ 23); change Int24Max with (2 ^ 23 - 1); lia). cbn [mbind option_bind].
    change (zeroBytes Int24) with (replicate 2 0 ++ replicate 1 0). rewrite <- app_assoc, (setBits_app 2) by done.
    cbn [mbind option_bind jumpBytes]. rewrite (app_assoc pre), (setBits_app 1).
    + by rewrite <- !app_assoc.
    + rewrite u32_id by lia. rewrite length_app, bytesLE_length. lia.
  - by apply (setBits_app 4).
Qed.

Lemma link_one offsets r records pre post :
  linkable offsets r -> jumpLocation r = Z.of_nat (length pre) -> Z.of_nat (length pre) + 4 < 2 ^ 32 ->
  link offsets (r :: records) (pre ++ zeroBytes (jumpSize r) ++ post)
  = link offsets records (pre ++ jumpBytes (jumpSize r) (distanceTo offsets (instructionLocation r) (destinationNodeIndex r)) ++ post).
Proof.
  intros (dest & Ed & Hd & Hi & Habs & Hfit) Hj Hlt. cbn [link]. rewrite Ed. cbn [mbind option_bind].
  rewrite option_guard_True by lia. cbn [mbind option_bind].
  rewrite i32_id by (unfold is_i32, INT_MIN, INT_MAX in *; lia). rewrite option_guard_True by done. cbn [mbind option_bind].
  rewrite linkJump_app by done. cbn [mbind option_bind]. unfold distanceTo. by rewrite Ed.
Qed.

Lemma link_table offsets js loc ds : forall recs records pre post,
  holeOf <$> recs = tableHoles js loc (Z.of_nat (length pre)) ds -> Forall (linkable offsets) recs ->
  Z.of_nat (length pre) + Z.of_nat (length ds) * jumpBytesSize js + 4 < 2 ^ 32 ->
  link offsets (recs ++ records) (pre ++ concat ((fun _ => zeroBytes js) <$> ds) ++ post)
  = link offsets records (pre ++ concat ((fun d => jumpBytes js (distanceTo offsets loc d)) <$> ds) ++ post).
Proof.
  pose proof (jumpBytesSize_range js) as Hjs.
  induction ds as [|d ds IH]; intros recs records pre post Hh Hl Hlt; cbn [tableHoles] in Hh.
  - by apply fmap_nil_inv in Hh as ->.
  - destruct recs as [|r recs]; [done|]. rewrite fmap_cons in Hh. injection Hh as Ejs Eloc Ej Ed Hh.
    apply Forall_cons in Hl as [Hr Hl]. cbn [length] in Hlt. rewrite !fmap_cons. cbn [concat]. rewrite <- !app_assoc. cbn [app].
    subst js loc d. rewrite link_one by (done || lia). rewrite (app_assoc pre).
    rewrite IH; [by rewrite <- app_assoc| |done|].
    + rewrite Hh. f_equal. rewrite length_app, Nat2Z.inj_add, jumpBytes_length. lia.
    + rewrite length_app, Nat2Z.inj_add, jumpBytes_length. lia.
Qed.

Lemma link_single offsets js loc jump d recs records pre post :
  holeOf <$> recs = [mkHole js loc jump d] -> Forall (linkable offsets) recs ->
  jump = Z.of_nat (length pre) -> Z.of_nat (length pre) + 4 < 2 ^ 32 ->
  link offsets (recs ++ records) (pre ++ zeroBytes js ++ post)
  = link offsets records (pre ++ jumpBytes js (distanceTo offsets loc d) ++ post).
Proof.
  intros Hh Hl Hj Hlt. destruct recs as [|r [|? recs]]; [done| |done]. injection Hh as Ejs Eloc Ej Ed.
  apply Forall_cons in Hl as [Hr _]. cbn [app]. subst js loc d. apply link_one; [done|congruence|done].
Qed.

Lemma link_instr offsets loc i recs records pre post :
  holeOf <$> recs = holes loc i -> Forall (linkable offsets) recs ->
  loc = Z.of_nat (length pre) -> loc + instrSize i + 4 < 2 ^ 32 ->
  link offsets (recs ++ records) (pre ++ encode (fun _ => 0) i ++ post)
  = link offsets records (pre ++ encode (distanceTo offsets loc) i ++ post).
Proof.
  intros Hh Hl Hloc Hlt. destruct i as [a|t js|r js|d js|]; cbn [holes encode instrSize] in *.
  - by apply fmap_nil_inv in Hh as ->.
  - rewrite <- !app_assoc. rewrite !(app_assoc pre), !(app_assoc (pre ++ _)), !(app_assoc ((pre ++ _) ++ _)).
    apply link_table; [|done|]; rewrite !length_app, !bytesLE_length, !Nat2Z.inj_add; [|lia].
    rewrite Hh. f_equal. lia.
  - pose proof (jumpBytesSize_range js) as Hjs. rewrite <- !app_assoc. rewrite !(app_assoc pre), !(app_assoc (pre ++ _)).
    eapply link_single; [exact Hh|done| |]; unfold rangeBytes in *; destruct (range_min r =? range_max r);
      repeat rewrite ?length_app, ?bytesLE_length, ?Nat2Z.inj_add; lia.
  - pose proof (jumpBytesSize_range js) as Hjs. rewrite <- !app_assoc, !(app_assoc pre).
    eapply link_single; [exact Hh|done| |]; rewrite length_app, bytesLE_length, Nat2Z.inj_add; lia.
  - by apply fmap_nil_inv in Hh as ->.
Qed.

Lemma link_code offsets code : forall loc recs records pre post,
  holeOf <$> recs = holesAll loc code -> Forall (linkable offsets) recs ->
  loc = Z.of_nat (length pre) -> loc + codeSize code + 4 < 2 ^ 32 ->
  link offsets (recs ++ records) (pre ++ encodeAll zeroDistance loc code ++ post)
  = link offsets records (pre ++ encodeAll (distanceTo offsets) loc code ++ post).
Proof.
  induction code as [|i code IH]; intros loc recs records pre post Hh Hl Hloc Hlt; cbn [holesAll] in Hh.
  - by apply fmap_nil_inv in Hh as ->.
  - apply fmap_app_inv in Hh as (recs1 & recs2 & E1 & E2 & ->). apply Forall_app in Hl as [Hl1 Hl2].
    rewrite codeSize_cons in Hlt. pose proof (codeSize_nonneg code) as Hnn.
    cbn [encodeAll]. rewrite <- !app_assoc. change (zeroDistance loc) with (fun _ : Z => 0).
    rewrite (link_instr offsets loc i) by (done || lia). rewrite (app_assoc pre).
    rewrite (IH (loc + instrSize i)); [by rewrite <- app_assoc|done|done| |lia].
    rewrite length_app, Nat2Z.inj_add, encode_length. lia.
Qed.

(** * What the emitting functions append *)

Import DFABytecode DFABytecodeCompiler.

#[local] Ltac Zify.zify_post_hook ::= Z.div_mod_to_equations.

(** ** Code and its largest form *)

Definition erase (i : Instr) : Instr :=
  match i with
  | ITable t _ => ITable t Int32
  | IRange r _ => IRange r Int32
  | IJump d _ => IJump d Int32
  | i => i
  end.

Lemma erase_size i : instrSize i <= instrSize (erase i).
Proof.
  destruct i as [a|t js|r js|d js|]; cbn [erase instrSize]; try pose proof (jumpBytesSize_range js);
    change (jumpBytesSize Int32) with 4; try lia. nia.
Qed.

Lemma erase_codeSize code : codeSize code <= codeSize (erase <$> code).
Proof. induction code as [|i code IH]; [done|]. rewrite fmap_cons, !codeSize_cons. pose proof (erase_size i). lia. Qed.

(** The largest code of the transitions of a node. *)
Definition transitionsCode (T : Transitions) : list Instr :=
  ((fun t => ITable t Int32) <$> jumpTables T) ++ ((fun r => IRange r Int32) <$> ranges T)
  ++ [if useFallbackTransition T then IJump (fallbackTransitionTarget T) Int32 else ITerminate].

Definition nodeCode (acts : list Z) (T : Transitions) : list Instr := (IAction <$> acts) ++ transitionsCode T.

Lemma sumFrom_spec {A} (f : A -> Z) l : forall n,
  0 <= n -> Forall (fun x => 0 <= f x) l -> n + foldr (fun x m => f x + m) 0 l < 2 ^ 32 ->
  sumFrom f n l = n + foldr (fun x m => f x + m) 0 l.
Proof.
  induction l as [|x l IH]; intros n Hn Hl Hlt; cbn [foldr] in *; [unfold sumFrom; cbn; lia|].
  apply Forall_cons in Hl as [Hx Hl].
  assert (0 <= foldr (fun x m => f x + m) 0 l) by (clear -Hl; induction l; cbn; [lia|]; apply Forall_cons in Hl as [? Hl]; specialize (IHl Hl); lia).
  unfold sumFrom in *. cbn [foldl]. rewrite u32_id by lia. rewrite IH by (done || lia). lia.
Qed.

Lemma codeSize_fmap {A} (g : A -> Instr) (f : A -> Z) l :
  Forall (fun x => instrSize (g x) = f x) l -> codeSize (g <$> l) = foldr (fun x m => f x + m) 0 l.
Proof.
  induction l as [|x l IH]; intros H; [done|]. apply Forall_cons in H as [Hx H]. rewrite fmap_cons, codeSize_cons, Hx, IH by done. done.
Qed.

Lemma actionsSize acts : codeSize (IAction <$> acts) < 2 ^ 32 -> sumFrom appendActionBytecodeSize 0 acts = codeSize (IAction <$> acts).
Proof.
  rewrite (codeSize_fmap _ appendActionBytecodeSize) by (apply Forall_forall; done). intros H.
  rewrite sumFrom_spec; [lia|lia| |lia]. apply Forall_forall. intros a _. unfold appendActionBytecodeSize, sizeof_instruction. step_if; lia.
Qed.

Lemma tableSize_max f t : okTable f t -> instrSize (ITable t Int32) = checkForJumpTableMaxBytecodeSize t.
Proof. intros (H1 & H2 & H3 & _). cbn [instrSize]. unfold checkForJumpTableMaxBytecodeSize, sizeof_instruction. change (jumpBytesSize Int32) with 4. lia. Qed.

Lemma rangeSize_max r : instrSize (IRange r Int32) = checkForRangeMaxBytecodeSize r.
Proof. cbn [instrSize]. unfold checkForRangeMaxBytecodeSize, sizeof_instruction. change (jumpBytesSize Int32) with 4. step_if; lia. Qed.

Lemma transitionsMaxBytecodeSize_spec ts T :
  TransitionsOk ts T -> codeSize (transitionsCode T) < 2 ^ 32 -> transitionsMaxBytecodeSize T = codeSize (transitionsCode T).
Proof.
  intros HT. unfold transitionsCode, transitionsMaxBytecodeSize. rewrite !codeSize_app.
  rewrite (codeSize_fmap _ checkForJumpTableMaxBytecodeSize)
    by (eapply Forall_impl; [apply (tok_tables _ _ HT)|]; intros t; by apply tableSize_max).
  rewrite (codeSize_fmap _ checkForRangeMaxBytecodeSize) by (apply Forall_forall; intros r _; apply rangeSize_max).
  set (A := foldr _ 0 (jumpTables T)). set (B := foldr _ 0 (ranges T)).
  assert (Forall (fun t => 0 <= checkForJumpTableMaxBytecodeSize t) (jumpTables T)) as HA.
  { eapply Forall_impl; [apply (tok_tables _ _ HT)|]. intros t (H1 & H2 & H3 & _). unfold checkForJumpTableMaxBytecodeSize, sizeof_instruction. lia. }
  assert (Forall (fun r => 0 <= checkForRangeMaxBytecodeSize r) (ranges T)) as HB.
  { apply Forall_forall. intros r _. unfold checkForRangeMaxBytecodeSize, sizeof_instruction. step_if; lia. }
  assert (forall {X} (f : X -> Z) l, Forall (fun x => 0 <= f x) l -> 0 <= foldr (fun x m => f x + m) 0 l) as Hnn.
  { intros X f l. induction l as [|x l IH]; intros H; cbn; [lia|]. apply Forall_cons in H as [? H]. specialize (IH H). lia. }
  pose proof (Hnn _ _ _ HA) as HA'. pose proof (Hnn _ _ _ HB) as HB'. fold A in HA'. fold B in HB'.
  destruct (useFallbackTransition T); cbn [codeSize foldr instrSize]; change (jumpBytesSize Int32) with 4; intros Hlt;
    rewrite (sumFrom_spec checkForJumpTableMaxBytecodeSize _ 0) by (done || lia); fold A;
    rewrite (sumFrom_spec checkForRangeMaxBytecodeSize) by (done || (fold B; lia)); fold B;
    unfold sizeof_instruction; rewrite u32_id by lia; lia.
Qed.

(** ** Jump sizes *)

Lemma smallest_fits v : is_i32 v -> lowest (smallestPossibleJumpSize v) <= v <= highest (smallestPossibleJumpSize v).
Proof.
  unfold is_i32, INT_MIN, INT_MAX. intros H. unfold smallestPossibleJumpSize.
  change Int24Min with (- 2 ^ 23). change Int24Max with (2 ^ 23 - 1).
  repeat step_if; zbool; cbn [lowest highest]; lia.
Qed.

Lemma fits_mono js js' v :
  jumpSizeCode js <= jumpSizeCode js' -> lowest js <= v <= highest js -> lowest js' <= v <= highest js'.
Proof. destruct js, js'; cbn [jumpSizeCode lowest highest]; lia. Qed.

(** Distances from zero to one that fits. *)
Lemma fits_between js v w : lowest js <= w <= highest js -> (0 <= v <= w \/ w <= v <= 0) -> lowest js <= v <= highest js.
Proof. destruct js; cbn [lowest highest]; lia. Qed.

Lemma maxJumpSize_spec a b :
  jumpSizeCode a <= jumpSizeCode (maxJumpSize a b) /\ jumpSizeCode b <= jumpSizeCode (maxJumpSize a b).
Proof. unfold maxJumpSize. step_if; zbool; lia. Qed.

(** ** Emission *)

(** A record as the code for node [src] makes it. *)
Definition recordOf (s : t) (src : Z) (r : LinkRecord) : Prop :=
  longestPossibleJump (instructionLocation r) src (destinationNodeIndex r) s = Some (longestPossibleJump_ r)
  /\ jumpSizeCode (smallestPossibleJumpSize (longestPossibleJump_ r)) <= jumpSizeCode (jumpSize r).

Definition sameArrays (s s' : t) : Prop :=
  m_maxNodeStartOffsets s' = m_maxNodeStartOffsets s /\ m_nodeStartOffsets s' = m_nodeStartOffsets s.

Lemma longest_arrays s s' loc src d : sameArrays s s' -> longestPossibleJump loc src d s' = longestPossibleJump loc src d s.
Proof. intros [E1 E2]. unfold longestPossibleJump. by rewrite E1, E2. Qed.

Record Emits (src : Z) (code : list Instr) (s s' : t) : Prop := {
  emits_bytes : m_bytecode s' = m_bytecode s ++ encodeAll zeroDistance (size s) code;
  emits_records : exists recs, m_linkRecords s' = m_linkRecords s ++ recs /\ holeOf <$> recs = holesAll (size s) code
    /\ Forall (recordOf s src) recs;
  emits_arrays : sameArrays s s' }.

Lemma Emits_size src code s s' : Emits src code s s' -> size s' = size s + codeSize code.
Proof. intros [E _ _]. unfold size. rewrite E, length_app, Nat2Z.inj_add, encodeAll_length. done. Qed.

Lemma Emits_nil src s : Emits src [] s s.
Proof. constructor; [by rewrite app_nil_r|exists []; by rewrite app_nil_r|done]. Qed.

Lemma Emits_app src c1 c2 s s1 s2 : Emits src c1 s s1 -> Emits src c2 s1 s2 -> Emits src (c1 ++ c2) s s2.
Proof.
  intros H1 H2. pose proof (Emits_size _ _ _ _ H1) as Hsz. destruct H1 as [B1 (r1 & R1 & L1 & P1) [A1 A1']], H2 as [B2 (r2 & R2 & L2 & P2) [A2 A2']].
  constructor.
  - rewrite B2, B1, <- app_assoc, encodeAll_app, Hsz. done.
  - exists (r1 ++ r2). split; [by rewrite R2, R1, app_assoc|]. split; [by rewrite fmap_app, L1, L2, holesAll_app, Hsz|].
    apply Forall_app. split; [done|]. eapply Forall_impl; [exact P2|]. intros r [E1 E2]. split; [|done].
    by rewrite <- E1, (longest_arrays s s1).
  - split; congruence.
Qed.

Lemma size_append n v s : size (append n v s) = size s + Z.of_nat n.
Proof. unfold size, append. cbn. rewrite length_app, bytesLE_length. lia. Qed.

Lemma appendZeroes_bytes js s : m_bytecode (appendZeroes js s) = m_bytecode s ++ zeroBytes js
  /\ m_linkRecords (appendZeroes js s) = m_linkRecords s /\ sameArrays s (appendZeroes js s).
Proof. destruct js; cbn; rewrite <- ?app_assoc; done. Qed.

Lemma emitAppendAction_Emits src a s : Emits src [IAction a] s (emitAppendAction a s).
Proof.
  unfold emitAppendAction. constructor.
  - cbn [encodeAll encode]. unfold actionBytes. step_if; cbn [append m_bytecode]; by rewrite <- ?app_assoc, ?app_nil_r.
  - exists []. rewrite app_nil_r. split; [by step_if|done].
  - by step_if.
Qed.

(** A jump of the code for [src] that can be measured. *)
Definition Ready (s : t) (src d : Z) : Prop :=
  exists startSource startDestination,
    at_ (m_nodeStartOffsets s) src = Some startSource /\ startSource <= size s /\ startSource <> noDestination
    /\ at_ (m_nodeStartOffsets s) d = Some startDestination
    /\ (startDestination <> noDestination -> startDestination <= startSource)
    /\ (startDestination = noDestination -> exists maxSource maxDestination,
          at_ (m_maxNodeStartOffsets s) src = Some maxSource /\ at_ (m_maxNodeStartOffsets s) d = Some maxDestination
          /\ maxSource < maxDestination).

Lemma Ready_longest s src d loc : Ready s src d -> size s <= loc -> exists longest, longestPossibleJump loc src d s = Some longest.
Proof.
  intros (ss & sd & E1 & Hle & Hne & E2 & Hknown & Hun) Hloc. unfold longestPossibleJump. rewrite E2. cbn [mbind option_bind].
  destruct (Z.eqb_spec sd noDestination) as [E|E].
  - destruct (Hun E) as (ms & md & E3 & E4 & Hlt). rewrite E1, E3, E4. cbn [mbind option_bind].
    rewrite !option_guard_True by (done || lia). cbn [mbind option_bind]. eauto.
  - specialize (Hknown E). rewrite option_guard_True by lia. cbn [mbind option_bind]. eauto.
Qed.

Lemma Ready_Emits src code s s' d : Emits src code s s' -> Ready s src d -> Ready s' src d.
Proof.
  intros H (ss & sd & E1 & Hle & Hne & E2 & Hknown & Hun). pose proof (Emits_size _ _ _ _ H) as Hsz. pose proof (codeSize_nonneg code).
  destruct H as [_ _ [A1 A2]]. exists ss, sd. rewrite A1, A2. split_and!; try done. lia.
Qed.

(** An instruction with one jump: the bytes [hd], a record and zeros. *)
Lemma Emits_jump src i hd js longest jump d s s1 :
  jump = size s + Z.of_nat (length hd) ->
  encode (fun _ => 0) i = hd ++ zeroBytes js -> holes (size s) i = [mkHole js (size s) jump d] ->
  longestPossibleJump (size s) src d s = Some longest -> jumpSizeCode (smallestPossibleJumpSize longest) <= jumpSizeCode js ->
  m_bytecode s1 = m_bytecode s ++ hd -> m_linkRecords s1 = m_linkRecords s -> sameArrays s s1 ->
  Emits src [i] s (appendZeroes js (appendRecord (mkLinkRecord js longest (size s) jump d) s1)).
Proof.
  intros Hj Henc Hh Hlong Hjs Hb Hr [A1 A2].
  destruct (appendZeroes_bytes js (appendRecord (mkLinkRecord js longest (size s) jump d) s1)) as (B & R & [A3 A4]).
  constructor.
  - rewrite B. cbn [appendRecord m_bytecode encodeAll]. rewrite Hb, app_nil_r. change (zeroDistance (size s)) with (fun _ : Z => 0).
    by rewrite Henc, <- app_assoc.
  - eexists [_]. rewrite R. cbn [appendRecord m_linkRecords]. rewrite Hr. split; [done|]. cbn [holesAll]. rewrite Hh. split; [done|].
    apply Forall_singleton. by split.
  - split; [rewrite A3|rewrite A4]; done.
Qed.

(** Room for the code in 32 bits. *)
Definition Fits (s : t) (n : Z) : Prop := size s + n + 4 < 2 ^ 31.

Lemma Fits_weaken s n m : Fits s n -> m <= n -> Fits s m.
Proof. unfold Fits. lia. Qed.

Lemma size_nonneg s : 0 <= size s.
Proof. unfold size. lia. Qed.

Lemma u32_size s n : Fits s n -> 0 <= n -> u32 (size s) = size s.
Proof. unfold Fits. intros. apply u32_id. pose proof (size_nonneg s). lia. Qed.

Lemma emitJump_Emits src d s :
  Ready s src d -> Fits s 0 -> exists js s', emitJump src d s = Some s' /\ Emits src [IJump d js] s s'.
Proof.
  intros Hr Hf. unfold emitJump. rewrite (u32_size s 0) by (done || lia). unfold Fits in Hf. pose proof (size_nonneg s).
  rewrite u32_id by lia. destruct (Ready_longest s src d (size s) Hr ltac:(lia)) as [longest E]. rewrite E. cbn [mbind option_bind].
  exists (smallestPossibleJumpSize longest). eexists. split; [done|].
  by apply (Emits_jump src _ (bytesLE 1 (opcodeWithJump Jump (smallestPossibleJumpSize longest)))).
Qed.

Lemma compileCheckForRange_Emits f src r s :
  okRange f r -> Ready s src (range_destination r) -> Fits s 0 ->
  exists js s', compileCheckForRange src r s = Some s' /\ Emits src [IRange r js] s s'.
Proof.
  intros (H1 & H2 & _) Hr Hf. unfold compileCheckForRange. rewrite !option_guard_True by lia. cbn [mbind option_bind].
  destruct (Ready_longest s src (range_destination r) (size s) Hr ltac:(lia)) as [longest E].
  pose proof (u32_size s 0 Hf ltac:(lia)) as Hu. unfold Fits in Hf. pose proof (size_nonneg s).
  set (js := smallestPossibleJumpSize longest).
  assert (exists s', (if range_min r =? range_max r
    then emitCheckValue (range_min r) src (range_destination r) (range_caseSensitive r) s
    else emitCheckValueRange (range_min r) (range_max r) src (range_destination r) (range_caseSensitive r) s) = Some s'
    /\ Emits src [IRange r js] s s') as (s' & Es & He).
  { destruct (range_min r =? range_max r) eqn:Er.
    - unfold emitCheckValue. rewrite Hu, u32_id, E by lia. cbn [mbind option_bind]. eexists. split; [done|].
      apply (Emits_jump src _ (bytesLE 1 (opcodeWithJump (rangeOpcode r) js) ++ rangeBytes r)); try done.
      + unfold rangeBytes. by rewrite Er.
      + cbn [holes]. by rewrite Er.
      + unfold rangeBytes, rangeOpcode. rewrite Er. cbn [append m_bytecode]. by rewrite <- app_assoc.
    - apply Z.eqb_neq in Er as Hne. unfold emitCheckValueRange. rewrite option_guard_True by lia. cbn [mbind option_bind].
      rewrite Hu, u32_id, E by lia. cbn [mbind option_bind]. eexists. split; [done|].
      apply (Emits_jump src _ (bytesLE 1 (opcodeWithJump (rangeOpcode r) js) ++ rangeBytes r)); try done.
      + unfold rangeBytes. by rewrite Er.
      + cbn [holes]. by rewrite Er.
      + unfold rangeBytes, rangeOpcode. rewrite Er. cbn [append m_bytecode]. by rewrite <- !app_assoc. }
  rewrite Es. cbn [mbind option_bind]. exists js, s'. split; [|done]. rewrite option_guard_True; [done|].
  rewrite (Emits_size _ _ _ _ He). rewrite codeSize_cons. cbn [codeSize foldr].
  pose proof (erase_size (IRange r js)) as Hs. cbn [erase] in Hs. rewrite rangeSize_max in Hs. lia.
Qed.

(** ** Jump tables *)

Lemma tableJumpSize_spec loc src ds s : forall js0,
  Forall (fun d => exists longest, longestPossibleJump loc src d s = Some longest) ds ->
  exists js, tableJumpSize loc src ds js0 s = Some js /\ jumpSizeCode js0 <= jumpSizeCode js
    /\ Forall (fun d => forall longest, longestPossibleJump loc src d s = Some longest ->
                 jumpSizeCode (smallestPossibleJumpSize longest) <= jumpSizeCode js) ds.
Proof.
  induction ds as [|d ds IH]; intros js0 Hl; [exists js0; by split|]. apply Forall_cons in Hl as [[longest E] Hl].
  cbn [tableJumpSize]. rewrite E. cbn [mbind option_bind].
  destruct (IH (maxJumpSize js0 (smallestPossibleJumpSize longest)) Hl) as (js & -> & Hle & Hall).
  destruct (maxJumpSize_spec js0 (smallestPossibleJumpSize longest)). exists js. split; [done|]. split; [lia|].
  constructor; [|done]. intros longest' E'. rewrite E in E'. injection E' as <-. lia.
Qed.

Lemma emitTableTargets_spec loc src js ds : forall s,
  Forall (fun d => exists longest, longestPossibleJump loc src d s = Some longest
                     /\ jumpSizeCode (smallestPossibleJumpSize longest) <= jumpSizeCode js) ds ->
  size s + Z.of_nat (length ds) * jumpBytesSize js < 2 ^ 32 ->
  exists s' recs, emitTableTargets loc src js ds s = Some s'
    /\ m_bytecode s' = m_bytecode s ++ concat ((fun _ => zeroBytes js) <$> ds)
    /\ m_linkRecords s' = m_linkRecords s ++ recs /\ holeOf <$> recs = tableHoles js loc (size s) ds
    /\ Forall (recordOf s src) recs /\ sameArrays s s'.
Proof.
  pose proof (jumpBytesSize_range js) as Hjs.
  induction ds as [|d ds IH]; intros s Hl Hlt; [exists s, []; by rewrite !app_nil_r|]. apply Forall_cons in Hl as [(longest & E & Hle) Hl].
  cbn [emitTableTargets]. rewrite E. cbn [mbind option_bind length] in *. rewrite u32_id by (pose proof (size_nonneg s); nia).
  set (s1 := appendZeroes js _).
  destruct (appendZeroes_bytes js (appendRecord (mkLinkRecord js longest loc (size s) d) s)) as (B & R & A).
  fold s1 in B, R, A. assert (sameArrays s s1) as A' by (destruct A; by split).
  assert (size s1 = size s + jumpBytesSize js) as Hs1.
  { unfold size. rewrite B. cbn [appendRecord m_bytecode]. rewrite length_app, Nat2Z.inj_add. unfold zeroBytes. by rewrite jumpBytes_length. }
  destruct (IH s1) as (s' & recs & -> & B' & R' & H' & P' & A'').
  - eapply Forall_impl; [exact Hl|]. intros d'. by rewrite (longest_arrays s s1).
  - nia.
  - exists s'. eexists (_ :: recs). split; [done|]. split_and!.
    + rewrite B', B. cbn [appendRecord m_bytecode]. by rewrite <- app_assoc, fmap_cons.
    + rewrite R', R. cbn [appendRecord m_linkRecords]. by rewrite <- app_assoc.
    + rewrite fmap_cons, H', Hs1. done.
    + constructor; [by split|]. eapply Forall_impl; [exact P'|]. intros r [P1 P2]. split; [|done]. by rewrite <- P1, (longest_arrays s s1).
    + destruct A', A''. split; congruence.
Qed.

Lemma compileJumpTable_Emits f src t s :
  okTable f t -> Forall (Ready s src) (table_destinations t) -> Fits s (instrSize (ITable t Int32)) ->
  exists js s', compileJumpTable src t s = Some s' /\ Emits src [ITable t js] s s'.
Proof.
  intros Hok Hr Hf. pose proof Hok as (H1 & H2 & H3 & _). unfold compileJumpTable. rewrite !option_guard_True by lia. cbn [mbind option_bind].
  rewrite (u32_size s _ Hf) by (pose proof (instrSize_pos (ITable t Int32)); lia). unfold Fits in Hf. pose proof (size_nonneg s) as Hnn.
  assert (Forall (fun d => exists longest, longestPossibleJump (size s) src d s = Some longest) (table_destinations t)) as Hl.
  { eapply Forall_impl; [exact Hr|]. intros d Hd. apply (Ready_longest s src d); [done|lia]. }
  destruct (tableJumpSize_spec (size s) src (table_destinations t) s Int8 Hl) as (js & -> & _ & Hjs). cbn [mbind option_bind].
  pose proof (erase_size (ITable t js)) as Hsz. cbn [erase] in Hsz.
  set (s1 := append 1 (table_max t) _).
  assert (sameArrays s s1) as A1 by done. assert (size s1 = size s + 3) as Hs1 by (unfold s1; rewrite !size_append; lia).
  destruct (emitTableTargets_spec (size s) src js (table_destinations t) s1) as (s' & recs & -> & B & R & Hh & P & A).
  { rewrite Forall_forall in Hl, Hjs |- *. intros d Hd. destruct (Hl d Hd) as [longest E]. exists longest.
    rewrite (longest_arrays s s1) by done. split; [done|]. by apply (Hjs d Hd). }
  { cbn [instrSize] in Hsz, Hf. lia. }
  cbn [mbind option_bind]. exists js, s'.
  assert (Emits src [ITable t js] s s') as He.
  { constructor.
    - rewrite B. unfold s1. cbn [append m_bytecode encodeAll encode]. rewrite app_nil_r, <- !app_assoc. done.
    - exists recs. split; [by rewrite R|]. split; [|eapply Forall_impl; [exact P|]; intros r [P1 P2]; split; [|done]].
      + rewrite Hh, Hs1. cbn [holesAll holes]. by rewrite app_nil_r.
      + by rewrite <- P1, (longest_arrays s s1).
    - destruct A. by split. }
  split; [|done]. rewrite option_guard_True; [done|]. rewrite (Emits_size _ _ _ _ He). rewrite codeSize_cons. cbn [codeSize foldr].
  rewrite <- (tableSize_max f t Hok). lia.
Qed.

(** ** The code of a node *)

Lemma forEach_Emits {A} (F : A -> t -> option t) (g : A -> DFABytecodeJumpSize -> Instr) src l :
  (forall x js, erase (g x js) = g x Int32) -> forall s,
  (forall x s1 code, x ∈ l -> Emits src code s s1 -> Fits s1 (instrSize (g x Int32)) ->
     exists js s2, F x s1 = Some s2 /\ Emits src [g x js] s1 s2) ->
  Fits s (codeSize ((fun x => g x Int32) <$> l)) ->
  exists code s', forEach F l s = Some s' /\ Emits src code s s' /\ erase <$> code = (fun x => g x Int32) <$> l.
Proof.
  intros Hg. induction l as [|x l IH]; intros s HF Hfit; [exists [], s; split; [done|]; split; [apply Emits_nil|done]|].
  rewrite fmap_cons, codeSize_cons in Hfit. pose proof (codeSize_nonneg ((fun x => g x Int32) <$> l)) as Hnn. cbn [forEach].
  destruct (HF x s [] ltac:(left) (Emits_nil src s) ltac:(unfold Fits in *; lia)) as (js & s1 & -> & H1). cbn [mbind option_bind].
  pose proof (Emits_size _ _ _ _ H1) as Hs1. pose proof (erase_size (g x js)) as He. rewrite Hg in He.
  rewrite codeSize_cons in Hs1. change (codeSize []) with 0 in Hs1.
  destruct (IH s1) as (code & s' & -> & H2 & E2).
  - intros y s2 code Hy H2 Hf. apply (HF y s2 ([g x js] ++ code)); [by right|by eapply Emits_app|done].
  - unfold Fits in *. lia.
  - exists ([g x js] ++ code), s'. split; [done|]. split; [by eapply Emits_app|]. cbn [app]. by rewrite !fmap_cons, Hg, E2.
Qed.

Lemma filled_target ts fb c d : filled ts fb c = d -> d <> noDestination -> exists r, (r, d) ∈ ts.
Proof.
  unfold filled. destruct (goes ts c) as [d'|] eqn:E; [|done]. case_bool_decide; [done|]. intros -> _.
  destruct (goes_target ts c d E) as (r & Hr & _). eauto.
Qed.

Lemma compileNodeTransitions_Emits dfa src node ts T s :
  at_ (DFA.nodes dfa) src = Some node -> transitions dfa node = Some T -> TransitionsOk ts T ->
  (forall r d, (r, d) ∈ ts -> Ready s src d) -> Fits s (codeSize (transitionsCode T)) ->
  exists code s', compileNodeTransitions dfa src s = Some s' /\ Emits src code s s' /\ erase <$> code = transitionsCode T.
Proof.
  intros Hnode HT Hok Hready Hfit. unfold compileNodeTransitions, nodeTransitionsMaxBytecodeSize. rewrite Hnode. cbn [mbind option_bind].
  rewrite HT. cbn [mbind option_bind fmap option_fmap option_map].
  assert (forall c d, filled ts (fallbackOf T) c = d -> d <> noDestination -> Ready s src d) as Hd.
  { intros c d E Hne. destruct (filled_target _ _ _ _ E Hne) as [r Hr]. by eapply Hready. }
  rewrite (transitionsMaxBytecodeSize_spec ts T Hok) by (unfold Fits in Hfit; pose proof (size_nonneg s); lia).
  unfold transitionsCode in *. rewrite !codeSize_app in Hfit. set (last := if useFallbackTransition T then _ else _) in *.
  pose proof (codeSize_nonneg ((fun t => ITable t Int32) <$> jumpTables T)) as N1.
  pose proof (codeSize_nonneg ((fun r => IRange r Int32) <$> ranges T)) as N2. pose proof (instrSize_pos last) as N3.
  rewrite codeSize_cons in Hfit. change (codeSize []) with 0 in Hfit.
  destruct (forEach_Emits (compileJumpTable src) ITable src (jumpTables T) ltac:(done) s) as (c1 & s1 & -> & H1 & E1).
  { intros t s1 code Ht H1 Hf1. pose proof (tok_tables _ _ Hok) as HT1. rewrite Forall_forall in HT1. specialize (HT1 t Ht).
    apply (compileJumpTable_Emits _ src t s1 HT1); [|done]. destruct HT1 as (_ & _ & _ & Hds).
    eapply Forall_impl; [exact Hds|]. intros d (Hne & c & _ & E). eapply Ready_Emits; [exact H1|]. by eapply Hd. }
  { unfold Fits in *. lia. }
  cbn [mbind option_bind]. pose proof (Emits_size _ _ _ _ H1) as S1. pose proof (erase_codeSize c1) as Z1. rewrite E1 in Z1.
  destruct (forEach_Emits (compileCheckForRange src) IRange src (ranges T) ltac:(done) s1) as (c2 & s2 & -> & H2 & E2).
  { intros r s2 code Hr H2 Hf2. pose proof (tok_ranges _ _ Hok) as HT2. rewrite Forall_forall in HT2. specialize (HT2 r Hr).
    apply (compileCheckForRange_Emits _ src r s2 HT2).
    - destruct HT2 as (_ & _ & Hne & c & _ & E). eapply Ready_Emits; [exact H2|]. eapply Ready_Emits; [exact H1|]. by eapply Hd.
    - eapply Fits_weaken; [exact Hf2|]. pose proof (instrSize_pos (IRange r Int32)). lia. }
  { unfold Fits in *. lia. }
  cbn [mbind option_bind]. pose proof (Emits_size _ _ _ _ H2) as S2. pose proof (erase_codeSize c2) as Z2. rewrite E2 in Z2.
  pose proof (Emits_app _ _ _ _ _ _ H1 H2) as H12.
  assert (exists i s3, (if useFallbackTransition T then emitJump src (fallbackTransitionTarget T) s2 else Some (emitTerminate s2)) = Some s3
    /\ Emits src [i] s2 s3 /\ erase i = last) as (i & s3 & -> & H3 & E3).
  { unfold last. destruct (useFallbackTransition T) eqn:Eu.
    - destruct (tok_fallback _ _ Hok Eu) as (_ & r & Hr).
      destruct (emitJump_Emits src (fallbackTransitionTarget T) s2) as (js & s3 & -> & H3).
      + eapply Ready_Emits; [exact H12|]. by eapply Hready.
      + unfold Fits in *. lia.
      + by exists (IJump (fallbackTransitionTarget T) js), s3.
    - exists ITerminate, (emitTerminate s2). split; [done|]. split; [|done].
      constructor; [by cbn [encodeAll encode]; rewrite app_nil_r|exists []; by rewrite app_nil_r|done]. }
  cbn [mbind option_bind]. exists ((c1 ++ c2) ++ [i]), s3.
  pose proof (Emits_app _ _ _ _ _ _ H12 H3) as H. rewrite <- app_assoc in *.
  assert (erase <$> (c1 ++ c2 ++ [i]) = ((fun t => ITable t Int32) <$> jumpTables T) ++ ((fun r => IRange r Int32) <$> ranges T) ++ [last]) as E
    by (rewrite !fmap_app, E1, E2; cbn; by rewrite E3).
  rewrite option_guard_True; [by split_and!|]. rewrite (Emits_size _ _ _ _ H), <- E.
  pose proof (erase_codeSize (c1 ++ c2 ++ [i])). lia.
Qed.

(** ** A whole node *)

Definition withStart (index v : Z) (s : t) : t :=
  mk (m_bytecode s) (m_maxNodeStartOffsets s) (<[Z.to_nat index := v]> (m_nodeStartOffsets s)) (m_linkRecords s).

Lemma setNodeStartOffset_spec index s :
  0 <= index < Z.of_nat (length (m_nodeStartOffsets s)) -> Fits s 0 ->
  setNodeStartOffset index s = Some (withStart index (size s) s).
Proof.
  intros Hi Hf. unfold setNodeStartOffset, set_. rewrite (u32_size s 0) by (done || lia).
  rewrite (proj2 (andb_true_iff _ _)) by (rewrite Z.leb_le, Z.ltb_lt; lia). done.
Qed.

Lemma actions_Emits src acts : forall s,
  exists s', forEach (fun action s => Some (emitAppendAction action s)) acts s = Some s' /\ Emits src (IAction <$> acts) s s'.
Proof.
  induction acts as [|a acts IH]; intros s; [exists s; split; [done|apply Emits_nil]|]. cbn [forEach mbind option_bind].
  destruct (IH (emitAppendAction a s)) as (s' & -> & H). exists s'. split; [done|]. rewrite fmap_cons.
  apply (Emits_app src [IAction a] _ s (emitAppendAction a s) s'); [apply emitAppendAction_Emits|done].
Qed.
