(* ===== verification/DFACompile.v ===== *)
(** * DFACompile: compiling an automaton succeeds, and what it lays out *)

From stdpp Require Import gmap.
From S2P Require Import Prelude ASCIICType DFA DFABytecode DFABytecodeCompiler DFABytecodeInterpreter DFATransitions DFAEmit.
Import DFABytecode DFABytecodeCompiler.

#[local] Ltac Zify.zify_post_hook ::= Z.div_mod_to_equations.

(** ** Well-formed automata *)

(** The location in 32 bits, 16 flags and the condition bit. *)
Definition okAction (a : Z) : Prop := 0 <= a < 2 ^ 49.

Definition alive (dfa : DFA.DFA) (i : Z) : Prop := exists node, at_ (DFA.nodes dfa) i = Some node /\ DFA.isKilled node = false.

(** The largest size of the code of a node; nothing for a killed node. *)
Definition nodeMax (dfa : DFA.DFA) (i : Z) : Z :=
  default 0 (node ← at_ (DFA.nodes dfa) i;
             if DFA.isKilled node then None
             else acts ← DFA.actions node dfa; T ← transitions dfa node; Some (codeSize (nodeCode acts T))).

Definition sumMax (dfa : DFA.DFA) (l : list Z) : Z := foldr (fun i n => nodeMax dfa i + n) 0 l.

(** The order in which nodes are compiled. *)
Definition compileOrder (dfa : DFA.DFA) : list Z := DFA.root dfa :: otherNodes dfa.

Record okDFA (dfa : DFA.DFA) : Prop := {
  ok_root : alive dfa (DFA.root dfa);
  ok_node : forall i node, at_ (DFA.nodes dfa) i = Some node -> DFA.isKilled node = false ->
    exists acts ts, DFA.actions node dfa = Some acts /\ DFA.transitions node dfa = Some ts /\ okTransitions ts
      /\ Forall okAction acts /\ forall r d, (r, d) ∈ ts -> alive dfa d;
  ok_size : sumMax dfa (compileOrder dfa) + 8 < 2 ^ 30 }.

(** A node that is compiled, with its parts. *)
Record Node (dfa : DFA.DFA) (i : Z) (acts : list Z) (ts : list (DFA.CharRange * Z)) (T : Transitions) : Prop := {
  node_at : exists node, at_ (DFA.nodes dfa) i = Some node /\ DFA.isKilled node = false
    /\ DFA.actions node dfa = Some acts /\ DFA.transitions node dfa = Some ts /\ transitions dfa node = Some T;
  node_transitions : okTransitions ts;
  node_ok : TransitionsOk ts T;
  node_actions : Forall okAction acts;
  node_targets : forall r d, (r, d) ∈ ts -> alive dfa d }.

Lemma alive_Node dfa i : okDFA dfa -> alive dfa i -> exists acts ts T, Node dfa i acts ts T.
Proof.
  intros Hok (node & E & Ek). destruct (ok_node _ Hok i node E Ek) as (acts & ts & Ea & Et & H1 & H2 & H3).
  destruct (transitions_spec dfa node ts Et H1) as (T & ET & HT). exists acts, ts, T. constructor; try done. eauto 10.
Qed.

Lemma Node_alive dfa i acts ts T : Node dfa i acts ts T -> alive dfa i.
Proof. intros HN. destruct (node_at _ _ _ _ _ HN) as (node & ? & ? & _). by exists node. Qed.

Lemma Node_unique dfa i acts ts T acts' ts' T' :
  Node dfa i acts ts T -> Node dfa i acts' ts' T' -> acts' = acts /\ ts' = ts /\ T' = T.
Proof.
  intros HN HN'. destruct (node_at _ _ _ _ _ HN) as (n & E & _ & Ea & Et & ET), (node_at _ _ _ _ _ HN') as (n' & E' & _ & Ea' & Et' & ET').
  split_and!; congruence.
Qed.

Lemma nodeMax_Node dfa i acts ts T : Node dfa i acts ts T -> nodeMax dfa i = codeSize (nodeCode acts T).
Proof. intros [(node & E & Ek & Ea & Et & ET) _ _ _ _]. unfold nodeMax. by rewrite E; cbn; rewrite Ek, Ea; cbn; rewrite ET. Qed.

Lemma nodeMax_nonneg dfa i : 0 <= nodeMax dfa i.
Proof.
  unfold nodeMax. destruct (at_ _ i) as [node|]; cbn; [|lia]. destruct (DFA.isKilled node); cbn; [lia|].
  destruct (DFA.actions node dfa); cbn; [|lia]. destruct (transitions dfa node); cbn; [|lia]. apply codeSize_nonneg.
Qed.

Lemma sumMax_nonneg dfa l : 0 <= sumMax dfa l.
Proof. induction l as [|i l IH]; cbn; [lia|]. pose proof (nodeMax_nonneg dfa i). fold (sumMax dfa l). lia. Qed.

Lemma sumMax_app dfa l k : sumMax dfa (l ++ k) = sumMax dfa l + sumMax dfa k.
Proof. unfold sumMax. induction l as [|i l IH]; cbn [app foldr]; [done|]. rewrite IH. lia. Qed.

Lemma sumMax_cons dfa i l : sumMax dfa (i :: l) = nodeMax dfa i + sumMax dfa l.
Proof. done. Qed.

(** The nodes, each once. *)
Lemma alive_range dfa i : alive dfa i -> 0 <= i < Z.of_nat (length (DFA.nodes dfa)).
Proof.
  intros (node & E & _). unfold at_, DFA.at_ in E. destruct (Z.ltb_spec i 0); [done|]. apply lookup_lt_Some in E. lia.
Qed.

Lemma elem_of_otherNodes dfa i : i ∈ otherNodes dfa <-> i <> DFA.root dfa /\ 0 <= i < Z.of_nat (length (DFA.nodes dfa)).
Proof.
  unfold otherNodes. rewrite list_elem_of_In, filter_In, <- list_elem_of_In, elem_of_seqZ, negb_true_iff, Z.eqb_neq. split; intros; lia.
Qed.

Lemma NoDup_order dfa : NoDup (compileOrder dfa).
Proof.
  unfold compileOrder. apply NoDup_cons. split; [rewrite elem_of_otherNodes; naive_solver|].
  unfold otherNodes. apply NoDup_ListNoDup, List.NoDup_filter, NoDup_ListNoDup, NoDup_seqZ.
Qed.

Lemma alive_order dfa i : alive dfa i -> i ∈ compileOrder dfa.
Proof.
  intros H. apply alive_range in H. unfold compileOrder. destruct (decide (i = DFA.root dfa)) as [->|]; [left|right].
  by apply elem_of_otherNodes.
Qed.

(** The compiler's measure of a node is its largest size. *)
Lemma compiledNodeMaxBytecodeSize_spec dfa i :
  okDFA dfa -> 0 <= i < Z.of_nat (length (DFA.nodes dfa)) -> nodeMax dfa i < 2 ^ 32 ->
  compiledNodeMaxBytecodeSize dfa i = Some (nodeMax dfa i).
Proof.
  intros Hok Hi Hlt. unfold compiledNodeMaxBytecodeSize.
  destruct (lookup_lt_is_Some_2 (DFA.nodes dfa) (Z.to_nat i) ltac:(lia)) as [node En].
  assert (at_ (DFA.nodes dfa) i = Some node) as E by (unfold at_, DFA.at_; by rewrite (proj2 (Z.ltb_ge i 0)) by lia).
  rewrite E. cbn [mbind option_bind]. destruct (DFA.isKilled node) eqn:Ek.
  - unfold nodeMax. rewrite E. cbn [mbind option_bind]. by rewrite Ek.
  - destruct (alive_Node dfa i Hok) as (acts & ts & T & HN); [by exists node|]. rewrite (nodeMax_Node _ _ _ _ _ HN) in *.
    destruct HN as [(node' & E' & _ & Ea & _ & ET) _ HT _ _]. rewrite E in E'. injection E' as <-. rewrite Ea. cbn [mbind option_bind].
    unfold nodeTransitionsMaxBytecodeSize. rewrite ET. cbn [mbind option_bind fmap option_fmap option_map].
    unfold nodeCode in *. rewrite codeSize_app in *. pose proof (codeSize_nonneg (IAction <$> acts)). pose proof (codeSize_nonneg (transitionsCode T)).
    rewrite actionsSize, (transitionsMaxBytecodeSize_spec ts T HT), u32_id by lia. done.
Qed.

(** ** Worst-case offsets *)

Lemma at_insert {A} (l : list A) i j x :
  0 <= i < Z.of_nat (length l) -> at_ (<[Z.to_nat i := x]> l) j = if j =? i then Some x else at_ l j.
Proof.
  intros Hi. unfold at_, DFA.at_. destruct (Z.eqb_spec j i) as [->|Hne].
  - rewrite (proj2 (Z.ltb_ge i 0)) by lia. by rewrite list_lookup_insert_eq by lia.
  - destruct (Z.ltb_spec j 0); [done|]. by rewrite list_lookup_insert_ne by lia.
Qed.

Lemma set_insert l i x : 0 <= i < Z.of_nat (length l) -> set_ l i x = Some (<[Z.to_nat i := x]> l).
Proof. intros Hi. unfold set_. by rewrite (proj2 (andb_true_iff _ _)) by (rewrite Z.leb_le, Z.ltb_lt; lia). Qed.

Lemma maxOffsetsLoop_spec dfa is_ : okDFA dfa -> forall offsets next,
  NoDup is_ -> Forall (fun i => 0 <= i < Z.of_nat (length (DFA.nodes dfa))) is_ -> length offsets = length (DFA.nodes dfa) ->
  0 <= next -> next + sumMax dfa is_ < 2 ^ 32 ->
  exists offsets', maxOffsetsLoop dfa is_ offsets next = Some offsets' /\ length offsets' = length (DFA.nodes dfa)
    /\ (forall j, j ∉ is_ -> at_ offsets' j = at_ offsets j)
    /\ (forall P i R, is_ = P ++ i :: R -> at_ offsets' i = Some (next + sumMax dfa P)).
Proof.
  intros Hok. induction is_ as [|i is_ IH]; intros offsets next Hnd Hr Hl Hn Hlt.
  - exists offsets. split_and!; try done. intros P i R H. by destruct P.
  - apply NoDup_cons in Hnd as [Hni Hnd]. apply Forall_cons in Hr as [Hi Hr]. rewrite sumMax_cons in Hlt.
    pose proof (nodeMax_nonneg dfa i). pose proof (sumMax_nonneg dfa is_). cbn [maxOffsetsLoop].
    rewrite set_insert by lia. cbn [mbind option_bind]. rewrite compiledNodeMaxBytecodeSize_spec by (done || lia). cbn [mbind option_bind].
    rewrite u32_id by lia.
    destruct (IH (<[Z.to_nat i := next]> offsets) (next + nodeMax dfa i)) as (offsets' & -> & Hl' & Ho & HP);
      [done|done|by rewrite length_insert|lia|lia|].
    exists offsets'. split; [done|]. split; [done|]. split.
    + intros j Hj. rewrite Ho by set_solver. rewrite at_insert by lia. destruct (Z.eqb_spec j i); [set_solver|done].
    + intros P j R HPR. destruct P as [|p P]; cbn [app] in HPR; injection HPR as <- HPR.
      * rewrite Ho by done. rewrite at_insert, Z.eqb_refl by lia. cbn. by rewrite Z.add_0_r.
      * rewrite (HP P j R HPR), sumMax_cons. f_equal. lia.
Qed.

(** Where the code of a node starts, after the actions for the root. *)
Definition startShift (dfa : DFA.DFA) (i : Z) (acts : list Z) : Z := if i =? DFA.root dfa then codeSize (IAction <$> acts) else 0.

Lemma maxNodeStartOffsets_spec dfa : okDFA dfa ->
  exists maxs, maxNodeStartOffsets dfa = Some maxs /\ length maxs = length (DFA.nodes dfa)
    /\ forall P i R acts ts T, compileOrder dfa = P ++ i :: R -> Node dfa i acts ts T ->
         at_ maxs i = Some (4 + sumMax dfa P + startShift dfa i acts).
Proof.
  intros Hok. pose proof (ok_size _ Hok) as Hsz. unfold compileOrder in Hsz. rewrite sumMax_cons in Hsz.
  destruct (alive_Node dfa _ Hok (ok_root _ Hok)) as (acts & ts & T & HN). pose proof (alive_range _ _ (ok_root _ Hok)) as Hroot.
  pose proof (nodeMax_nonneg dfa (DFA.root dfa)). pose proof (sumMax_nonneg dfa (otherNodes dfa)).
  pose proof (nodeMax_Node _ _ _ _ _ HN) as Hmax. unfold nodeCode in Hmax. rewrite codeSize_app in Hmax.
  pose proof (codeSize_nonneg (IAction <$> acts)). pose proof (codeSize_nonneg (transitionsCode T)).
  unfold maxNodeStartOffsets. destruct (node_at _ _ _ _ _ HN) as (node & E & _ & Ea & _). rewrite E. cbn [mbind option_bind]. rewrite Ea.
  cbn [mbind option_bind]. rewrite actionsSize by lia. rewrite u32_id by lia. rewrite set_insert by (rewrite length_replicate; lia).
  cbn [mbind option_bind]. rewrite compiledNodeMaxBytecodeSize_spec by (done || lia). cbn [mbind option_bind]. rewrite u32_id by lia.
  pose proof (NoDup_order dfa) as Hnd. unfold compileOrder in Hnd. apply NoDup_cons in Hnd as [Hni Hnd].
  destruct (maxOffsetsLoop_spec dfa (otherNodes dfa) Hok (<[Z.to_nat (DFA.root dfa) := 4 + codeSize (IAction <$> acts)]> (replicate (length (DFA.nodes dfa)) 0))
              (4 + nodeMax dfa (DFA.root dfa))) as (maxs & -> & Hl & Ho & HP); [done| |by rewrite length_insert, length_replicate|lia|lia|].
  { apply Forall_forall. intros i Hi. by apply elem_of_otherNodes in Hi as [_ ?]. }
  exists maxs. split; [done|]. split; [done|]. intros P i R acts' ts' T' HPR HN'. unfold compileOrder in HPR.
  destruct P as [|p P]; cbn [app] in HPR; injection HPR as E0 HPR; [subst i|subst p].
  - assert (acts' = acts) as ->. { destruct (node_at _ _ _ _ _ HN') as (node' & E' & _ & Ea' & _). congruence. }
    rewrite Ho by done. rewrite at_insert, Z.eqb_refl by (rewrite length_replicate; lia). unfold startShift. rewrite Z.eqb_refl. done.
  - rewrite (HP P i R HPR), sumMax_cons. unfold startShift. rewrite (proj2 (Z.eqb_neq i (DFA.root dfa))); [f_equal; lia|].
    intros ->. apply Hni. rewrite HPR. set_solver.
Qed.

(** ** One node *)

(** A target of node [i] when its code is about to be emitted. *)
Definition TargetOk (s : t) (i d : Z) : Prop :=
  d = i \/ (exists sd, at_ (m_nodeStartOffsets s) d = Some sd /\ sd <> noDestination /\ sd <= size s)
  \/ (at_ (m_nodeStartOffsets s) d = Some noDestination
      /\ exists ms md, at_ (m_maxNodeStartOffsets s) i = Some ms /\ at_ (m_maxNodeStartOffsets s) d = Some md /\ ms < md).

Lemma TargetOk_Ready s x i d ss :
  TargetOk s i d -> 0 <= i < Z.of_nat (length (m_nodeStartOffsets s)) ->
  m_nodeStartOffsets x = <[Z.to_nat i := ss]> (m_nodeStartOffsets s) -> m_maxNodeStartOffsets x = m_maxNodeStartOffsets s ->
  size s <= ss <= size x -> ss < noDestination -> Ready x i d.
Proof.
  intros Ht Hi Es Em Hss Hno. unfold Ready. rewrite Es, Em, !at_insert, Z.eqb_refl by done.
  destruct (Z.eqb_spec d i) as [->|Hne].
  { exists ss, ss. split_and!; try done; lia. }
  destruct Ht as [->|[(sd & E & Hsd & Hle)|(E & ms & md & E1 & E2 & Hlt)]]; [done| |].
  - exists ss, sd. split_and!; try done; try lia.
  - exists ss, noDestination. split_and!; try done; try lia. eauto.
Qed.

Record Compiled (i ss : Z) (code : list Instr) (s s' : t) : Prop := {
  compiled_bytes : m_bytecode s' = m_bytecode s ++ encodeAll zeroDistance (size s) code;
  compiled_max : m_maxNodeStartOffsets s' = m_maxNodeStartOffsets s;
  compiled_start : m_nodeStartOffsets s' = <[Z.to_nat i := ss]> (m_nodeStartOffsets s);
  compiled_records : exists recs, m_linkRecords s' = m_linkRecords s ++ recs /\ holeOf <$> recs = holesAll (size s) code
    /\ Forall (recordOf s' i) recs }.

Lemma recordOf_arrays s s' i r : sameArrays s s' -> recordOf s i r -> recordOf s' i r.
Proof. intros A [E1 E2]. split; [|done]. by rewrite (longest_arrays s s'). Qed.

Lemma holesAll_actions loc acts : holesAll loc (IAction <$> acts) = [].
Proof. revert loc. induction acts as [|a acts IH]; intros loc; [done|]. rewrite fmap_cons. cbn [holesAll holes app]. apply IH. Qed.

Lemma compileNode_spec dfa i acts ts T s :
  okDFA dfa -> Node dfa i acts ts T -> length (m_nodeStartOffsets s) = length (DFA.nodes dfa) ->
  Fits s (nodeMax dfa i) -> nodeMax dfa i < 2 ^ 32 -> (forall r d, (r, d) ∈ ts -> TargetOk s i d) ->
  exists code s', compileNode dfa i (i =? DFA.root dfa) s = Some s' /\ erase <$> code = nodeCode acts T
    /\ Compiled i (size s + startShift dfa i acts) code s s'.
Proof.
  intros Hok HN Hl Hfit Hlt Htar. pose proof (nodeMax_Node _ _ _ _ _ HN) as Hmax. unfold nodeCode in Hmax. rewrite codeSize_app in Hmax.
  destruct (node_at _ _ _ _ _ HN) as (node & E & Ek & Ea & Et & ET).
  assert (0 <= i < Z.of_nat (length (DFA.nodes dfa))) as Hi by (apply (alive_range dfa); by exists node).
  pose proof (codeSize_nonneg (IAction <$> acts)) as N1. pose proof (codeSize_nonneg (transitionsCode T)) as N2.
  pose proof (size_nonneg s) as N3. unfold Fits in Hfit. unfold compileNode. rewrite E. cbn [mbind option_bind]. rewrite Ek.
  rewrite (compiledNodeMaxBytecodeSize_spec dfa i) by done. unfold startShift.
  destruct (i =? DFA.root dfa) eqn:Er.
  - cbn [mbind option_bind]. rewrite Ea. cbn [mbind option_bind]. destruct (actions_Emits i acts s) as (s1 & -> & H1).
    cbn [mbind option_bind]. pose proof (Emits_size _ _ _ _ H1) as S1. pose proof (emits_arrays _ _ _ _ H1) as [A1 A2].
    rewrite setNodeStartOffset_spec by (rewrite ?A2; unfold Fits; lia). cbn [mbind option_bind]. set (s2 := withStart i (size s1) s1).
    destruct (compileNodeTransitions_Emits dfa i node ts T s2 E ET (node_ok _ _ _ _ _ HN)) as (code & s3 & -> & H3 & E3).
    + intros r d Hr. eapply (TargetOk_Ready s s2 i d (size s1) (Htar r d Hr)); [lia|by cbn; rewrite A2|by cbn; rewrite A1| |].
      * change (size s2) with (size s1). lia.
      * unfold noDestination. lia.
    + unfold Fits. change (size s2) with (size s1). lia.
    + cbn [mbind option_bind]. exists ((IAction <$> acts) ++ code), s3. pose proof (Emits_size _ _ _ _ H3) as S3.
      change (size s2) with (size s1) in S3. pose proof (erase_codeSize code) as Z3. rewrite E3 in Z3.
      rewrite option_guard_True by lia. split; [done|]. split.
      { rewrite fmap_app, E3. unfold nodeCode. f_equal. rewrite <- list_fmap_compose. by apply list_fmap_ext. }
      destruct H1 as [B1 (r1 & R1 & Hh1 & P1) _], H3 as [B3 (r3 & R3 & Hh3 & P3) [A3 A4]].
      rewrite holesAll_actions in Hh1. apply fmap_nil_inv in Hh1 as ->. rewrite app_nil_r in R1. constructor.
      * rewrite B3, encodeAll_app. change (m_bytecode s2) with (m_bytecode s1). change (size s2) with (size s1). by rewrite B1, S1, <- app_assoc.
      * by rewrite A3.
      * rewrite A4. cbn. by rewrite A2, S1.
      * exists r3. rewrite R3. cbn. rewrite R1. split; [done|]. rewrite holesAll_app, holesAll_actions. cbn [app]. rewrite <- S1. split; [done|].
        eapply Forall_impl; [exact P3|]. intros r. by apply recordOf_arrays.
  - rewrite setNodeStartOffset_spec by (unfold Fits; lia). cbn [mbind option_bind]. rewrite Ea. cbn [mbind option_bind].
    set (s1 := withStart i (size s) s). destruct (actions_Emits i acts s1) as (s2 & -> & H2). cbn [mbind option_bind].
    pose proof (Emits_size _ _ _ _ H2) as S2. pose proof (emits_arrays _ _ _ _ H2) as [A1 A2]. change (size s1) with (size s) in S2.
    destruct (compileNodeTransitions_Emits dfa i node ts T s2 E ET (node_ok _ _ _ _ _ HN)) as (code & s3 & -> & H3 & E3).
    + intros r d Hr. eapply (TargetOk_Ready s s2 i d (size s) (Htar r d Hr)); [lia|by rewrite A2|by rewrite A1|lia|unfold noDestination; lia].
    + unfold Fits. lia.
    + cbn [mbind option_bind]. exists ((IAction <$> acts) ++ code), s3. pose proof (Emits_size _ _ _ _ H3) as S3.
      pose proof (erase_codeSize code) as Z3. rewrite E3 in Z3. rewrite option_guard_True by lia. split; [done|]. split.
      { rewrite fmap_app, E3. unfold nodeCode. f_equal. rewrite <- list_fmap_compose. by apply list_fmap_ext. }
      pose proof (Emits_app _ _ _ _ _ _ H2 H3) as [B (r & R & Hh & P) [A3 A4]]. change (size s1) with (size s) in *. constructor.
      * done.
      * by rewrite A3.
      * rewrite A4. by rewrite Z.add_0_r.
      * exists r. split; [done|]. split; [done|]. eapply Forall_impl; [exact P|]. intros r'. by apply recordOf_arrays.
Qed.

(** ** Destinations *)

Definition dests (i : Instr) : list Z :=
  match i with ITable t _ => table_destinations t | IRange r _ => [range_destination r] | IJump d _ => [d] | _ => [] end.

Lemma tableHoles_In js loc jump ds h : h ∈ tableHoles js loc jump ds -> hole_destination h ∈ ds /\ hole_location h = loc.
Proof. revert jump. induction ds as [|d ds IH]; intros jump H; [set_solver|]. apply elem_of_cons in H as [->|H]; [split; [left|done]|]. destruct (IH _ H). split; [by right|done]. Qed.

Lemma holes_In loc i h : h ∈ holes loc i -> hole_destination h ∈ dests i /\ hole_location h = loc.
Proof.
  destruct i; cbn [holes dests]; intros H; try (by apply not_elem_of_nil in H).
  - by eapply tableHoles_In.
  - apply list_elem_of_singleton in H as ->. split; [left|done].
  - apply list_elem_of_singleton in H as ->. split; [left|done].
Qed.

Lemma holesAll_In code h : forall loc, h ∈ holesAll loc code ->
  (exists i, i ∈ code /\ hole_destination h ∈ dests i) /\ loc <= hole_location h < loc + codeSize code.
Proof.
  induction code as [|i code IH]; intros loc H; [by apply not_elem_of_nil in H|]. cbn [holesAll] in H.
  rewrite codeSize_cons. pose proof (instrSize_pos i). pose proof (codeSize_nonneg code). apply elem_of_app in H as [H|H].
  - apply holes_In in H as [H ->]. split; [exists i; split; [left|done]|lia].
  - apply IH in H as [(j & ? & ?) ?]. split; [exists j; split; [by right|done]|lia].
Qed.

Lemma dests_erase i : dests (erase i) = dests i.
Proof. by destruct i. Qed.

Lemma nodeCode_dests dfa i acts ts T j d : Node dfa i acts ts T -> j ∈ nodeCode acts T -> d ∈ dests j -> alive dfa d.
Proof.
  intros HN Hj Hd. pose proof (node_ok _ _ _ _ _ HN) as Hok.
  assert (forall c d, filled ts (fallbackOf T) c = d -> d <> noDestination -> alive dfa d) as Hf.
  { intros c d' E Hne. destruct (filled_target _ _ _ _ E Hne) as [r Hr]. by eapply (node_targets _ _ _ _ _ HN). }
  unfold nodeCode, transitionsCode in Hj. apply elem_of_app in Hj as [Hj|Hj].
  { apply list_elem_of_fmap in Hj as (a & -> & _). by apply not_elem_of_nil in Hd. }
  apply elem_of_app in Hj as [Hj|Hj]; [|apply elem_of_app in Hj as [Hj|Hj]].
  - apply list_elem_of_fmap in Hj as (t & -> & Ht). pose proof (tok_tables _ _ Hok) as H. rewrite Forall_forall in H.
    destruct (H t Ht) as (_ & _ & _ & Hds). rewrite Forall_forall in Hds. destruct (Hds d Hd) as (Hne & c & _ & E). by eapply Hf.
  - apply list_elem_of_fmap in Hj as (r & -> & Hr). pose proof (tok_ranges _ _ Hok) as H. rewrite Forall_forall in H.
    destruct (H r Hr) as (_ & _ & Hne & c & _ & E). apply list_elem_of_singleton in Hd as ->. by eapply Hf.
  - apply list_elem_of_singleton in Hj as ->. destruct (useFallbackTransition T) eqn:Eu; [|by apply not_elem_of_nil in Hd].
    apply list_elem_of_singleton in Hd as ->. destruct (tok_fallback _ _ Hok Eu) as (_ & r & Hr). by eapply (node_targets _ _ _ _ _ HN).
Qed.

(** ** The invariant of compilation *)

Record RecOk (dfa : DFA.DFA) (maxs : list Z) (s : t) (cur : Z) (r : LinkRecord) : Prop := {
  rec_alive : alive dfa (destinationNodeIndex r);
  rec_location : 0 <= instructionLocation r < size s;
  rec_known : forall st, at_ (m_nodeStartOffsets s) (destinationNodeIndex r) = Some st -> st <> noDestination ->
    Z.abs (st - instructionLocation r) <= Z.abs (longestPossibleJump_ r)
    /\ lowest (jumpSize r) <= st - instructionLocation r <= highest (jumpSize r);
  rec_unknown : at_ (m_nodeStartOffsets s) (destinationNodeIndex r) = Some noDestination ->
    exists md slack, at_ maxs (destinationNodeIndex r) = Some md /\ slack <= cur
      /\ md - instructionLocation r - slack <= longestPossibleJump_ r
      /\ lowest (jumpSize r) <= longestPossibleJump_ r <= highest (jumpSize r) }.

(** Node [i] is laid out in [code] and starts at [st]. *)
Definition Placed (dfa : DFA.DFA) (code : list Instr) (i st : Z) (acts : list Z) (T : Transitions) : Prop :=
  exists c1 nc c2, code = c1 ++ nc ++ c2 /\ erase <$> nc = nodeCode acts T /\ st = 4 + codeSize c1 + startShift dfa i acts.

Record Inv (dfa : DFA.DFA) (maxs : list Z) (P : list Z) (code : list Instr) (s : t) : Prop := {
  inv_max : m_maxNodeStartOffsets s = maxs;
  inv_len : length (m_nodeStartOffsets s) = length (DFA.nodes dfa);
  inv_bytes : m_bytecode s = bytesLE 4 0 ++ encodeAll zeroDistance 4 code;
  inv_cur : size s <= 4 + sumMax dfa P;
  inv_done : forall i acts ts T, i ∈ P -> Node dfa i acts ts T ->
    exists st m, at_ (m_nodeStartOffsets s) i = Some st /\ at_ maxs i = Some m /\ 4 <= st <= size s
      /\ 0 <= m - st <= 4 + sumMax dfa P - size s /\ Placed dfa code i st acts T;
  inv_todo : forall i, 0 <= i < Z.of_nat (length (DFA.nodes dfa)) -> i ∉ P \/ ~ alive dfa i -> at_ (m_nodeStartOffsets s) i = Some noDestination;
  inv_holes : holeOf <$> m_linkRecords s = holesAll 4 code;
  inv_records : Forall (RecOk dfa maxs s (4 + sumMax dfa P - size s)) (m_linkRecords s) }.

Lemma inv_size dfa maxs P code s : Inv dfa maxs P code s -> size s = 4 + codeSize code.
Proof. intros H. unfold size. rewrite (inv_bytes _ _ _ _ _ H), length_app, Nat2Z.inj_add, encodeAll_length, bytesLE_length. lia. Qed.

Lemma alive_dec dfa i : {alive dfa i} + {~ alive dfa i}.
Proof.
  destruct (at_ (DFA.nodes dfa) i) as [node|] eqn:E.
  - destruct (DFA.isKilled node) eqn:Ek; [right|left; by exists node]. intros (node' & E' & Ek'). congruence.
  - right. intros (node' & E' & _). congruence.
Qed.

Lemma Placed_app dfa code code' i st acts T : Placed dfa code i st acts T -> Placed dfa (code ++ code') i st acts T.
Proof. intros (c1 & nc & c2 & -> & E1 & E2). exists c1, nc, (c2 ++ code'). by rewrite <- !app_assoc. Qed.

Lemma startShift_bounds dfa i acts ts T : Node dfa i acts ts T -> 0 <= startShift dfa i acts < nodeMax dfa i.
Proof.
  intros HN. rewrite (nodeMax_Node _ _ _ _ _ HN). unfold nodeCode, startShift. rewrite codeSize_app.
  pose proof (codeSize_nonneg (IAction <$> acts)). unfold transitionsCode. rewrite !codeSize_app, codeSize_cons.
  pose proof (codeSize_nonneg ((fun t => ITable t Int32) <$> jumpTables T)). pose proof (codeSize_nonneg ((fun r => IRange r Int32) <$> ranges T)).
  pose proof (instrSize_pos (if useFallbackTransition T then IJump (fallbackTransitionTarget T) Int32 else ITerminate)).
  change (codeSize []) with 0. step_if; lia.
Qed.

Section Steps.

Context (dfa : DFA.DFA) (maxs : list Z).
Hypothesis Hok : okDFA dfa.
Hypothesis Hmaxs : forall P i R acts ts T, compileOrder dfa = P ++ i :: R -> Node dfa i acts ts T ->
  at_ maxs i = Some (4 + sumMax dfa P + startShift dfa i acts).

Lemma maxs_bound d : alive dfa d -> exists md, at_ maxs d = Some md /\ 4 <= md <= 4 + sumMax dfa (compileOrder dfa).
Proof.
  intros Ha. destruct (alive_Node dfa d Hok Ha) as (acts & ts & T & HN).
  destruct (list_elem_of_split _ _ (alive_order dfa d Ha)) as (P & R & E). exists (4 + sumMax dfa P + startShift dfa d acts).
  split; [by eapply Hmaxs|]. pose proof (startShift_bounds _ _ _ _ _ HN). rewrite E, sumMax_app, sumMax_cons.
  pose proof (sumMax_nonneg dfa P). pose proof (sumMax_nonneg dfa R). lia.
Qed.

Section Step.

Context (P R : list Z) (i : Z) (acts : list Z) (ts : list (DFA.CharRange * Z)) (T : Transitions) (code : list Instr) (s : t).
Hypothesis Horder : compileOrder dfa = P ++ i :: R.
Hypothesis HN : Node dfa i acts ts T.
Hypothesis HI : Inv dfa maxs P code s.

Let cur := 4 + sumMax dfa P - size s.
Let ss := size s + startShift dfa i acts.

Lemma order_fresh : i ∉ P /\ i ∉ R.
Proof.
  pose proof (NoDup_order dfa) as H. rewrite Horder in H. apply NoDup_app in H as (_ & H1 & H2).
  apply NoDup_cons in H2 as [H2 _]. split; [|done]. intros Hin. apply (H1 i Hin). left.
Qed.

Lemma order_size : size s + nodeMax dfa i + 4 < 2 ^ 30.
Proof.
  pose proof (ok_size _ Hok) as H. rewrite Horder, sumMax_app, sumMax_cons in H. pose proof (sumMax_nonneg dfa R).
  pose proof (inv_cur _ _ _ _ _ HI). lia.
Qed.

Lemma target_ok r d : (r, d) ∈ ts -> TargetOk s i d.
Proof.
  intros Hr. pose proof (node_targets _ _ _ _ _ HN r d Hr) as Ha. destruct (alive_Node dfa d Hok Ha) as (a' & ts' & T' & HN').
  destruct (decide (d = i)) as [->|Hne]; [by left|right]. destruct order_fresh as [HiP HiR].
  pose proof (alive_order dfa d Ha) as Hin. rewrite Horder in Hin. apply elem_of_app in Hin as [Hin|Hin].
  - left. destruct (inv_done _ _ _ _ _ HI d _ _ _ Hin HN') as (st & m & E & _ & Hst & _).
    exists st. split; [done|]. pose proof order_size. pose proof (nodeMax_nonneg dfa i). unfold noDestination. split; lia.
  - apply elem_of_cons in Hin as [?|Hin]; [done|]. right.
    assert (d ∉ P) as HdP.
    { intros HdP. pose proof (NoDup_order dfa) as H. rewrite Horder in H. apply NoDup_app in H as (_ & H1 & _). apply (H1 d HdP). by right. }
    split; [apply (inv_todo _ _ _ _ _ HI); [by apply alive_range|by left]|].
    destruct (list_elem_of_split _ _ Hin) as (R1 & R2 & ER).
    exists (4 + sumMax dfa P + startShift dfa i acts), (4 + sumMax dfa (P ++ i :: R1) + startShift dfa d a').
    rewrite (inv_max _ _ _ _ _ HI). split; [by eapply Hmaxs|]. split.
    + eapply Hmaxs; [|done]. rewrite Horder, ER, <- app_assoc. done.
    + rewrite sumMax_app, sumMax_cons. pose proof (startShift_bounds _ _ _ _ _ HN). pose proof (startShift_bounds _ _ _ _ _ HN').
      pose proof (sumMax_nonneg dfa R1). lia.
Qed.

Context (code' : list Instr) (s' : t).
Hypothesis HC : Compiled i ss code' s s'.
Hypothesis Hcode : erase <$> code' = nodeCode acts T.

Let cur' := 4 + sumMax dfa (P ++ [i]) - size s'.

Lemma step_size : size s' = size s + codeSize code' /\ codeSize code' <= nodeMax dfa i /\ cur <= cur'.
Proof.
  assert (size s' = size s + codeSize code') as E by (unfold size; rewrite (compiled_bytes _ _ _ _ _ HC), length_app, Nat2Z.inj_add, encodeAll_length; done).
  pose proof (erase_codeSize code') as H. rewrite Hcode, <- (nodeMax_Node _ _ _ _ _ HN) in H. unfold cur, cur'.
  rewrite sumMax_app, sumMax_cons. change (sumMax dfa []) with 0. lia.
Qed.

Lemma actions_prefix l acts0 X : erase <$> l = (IAction <$> acts0) ++ X -> exists l', l = (IAction <$> acts0) ++ l' /\ erase <$> l' = X.
Proof.
  revert l. induction acts0 as [|a acts0 IH]; intros l E; [by exists l|]. destruct l as [|j l]; [done|]. rewrite !fmap_cons in E. cbn [app] in E.
  injection E as Ej E. destruct (IH l E) as (l' & -> & El). exists l'. split; [|done]. rewrite fmap_cons. by destruct j; inversion Ej.
Qed.

Lemma step_start : size s <= ss <= size s'.
Proof.
  destruct step_size as (E & _ & _). unfold ss. pose proof (startShift_bounds _ _ _ _ _ HN). split; [lia|]. rewrite E.
  destruct (actions_prefix code' acts (transitionsCode T) Hcode) as (l' & -> & _). rewrite codeSize_app. pose proof (codeSize_nonneg l').
  unfold startShift. pose proof (codeSize_nonneg (IAction <$> acts)). step_if; lia.
Qed.

Lemma starts_at d : 0 <= i < Z.of_nat (length (m_nodeStartOffsets s)) ->
  at_ (m_nodeStartOffsets s') d = if d =? i then Some ss else at_ (m_nodeStartOffsets s) d.
Proof. intros Hi. rewrite (compiled_start _ _ _ _ _ HC). by apply at_insert. Qed.

Lemma i_range : 0 <= i < Z.of_nat (length (m_nodeStartOffsets s)).
Proof.
  rewrite (inv_len _ _ _ _ _ HI). destruct (node_at _ _ _ _ _ HN) as (node & E & Ek & _). apply (alive_range dfa). by exists node.
Qed.

(** A record made before: its target may be the node just compiled. *)
Lemma record_old r : RecOk dfa maxs s cur r -> RecOk dfa maxs s' cur' r.
Proof.
  intros [Ha Hloc Hk Hu]. destruct step_size as (Es & _ & Hcur). pose proof (codeSize_nonneg code') as Hnn. constructor; [done|lia| |].
  - intros st. rewrite starts_at by apply i_range. destruct (Z.eqb_spec (destinationNodeIndex r) i) as [E|E]; [|by apply Hk].
    intros [= <-] _. destruct Hu as (md & slack & Emd & Hsl & Hlong & Hfit).
    { rewrite E. apply (inv_todo _ _ _ _ _ HI); [rewrite <- (inv_len _ _ _ _ _ HI); apply i_range|left; apply order_fresh]. }
    rewrite E in Emd. rewrite (Hmaxs P i R acts ts T Horder HN) in Emd. injection Emd as <-.
    pose proof (startShift_bounds _ _ _ _ _ HN). unfold ss, cur in *. split; [lia|]. eapply fits_between; [exact Hfit|]. left. lia.
  - rewrite starts_at by apply i_range. destruct (Z.eqb_spec (destinationNodeIndex r) i) as [E|E].
    + intros [= E']. pose proof step_start. pose proof (size_nonneg s). exfalso. unfold ss in *. pose proof order_size. 
      pose proof (startShift_bounds _ _ _ _ _ HN). unfold noDestination in E'. lia.
    + intros E'. destruct (Hu E') as (md & slack & ? & ? & ? & ?). exists md, slack. split_and!; try done; lia.
Qed.

(** A record of the node just compiled. *)
Lemma record_new r :
  recordOf s' i r -> alive dfa (destinationNodeIndex r) -> size s <= instructionLocation r < size s' -> RecOk dfa maxs s' cur' r.
Proof.
  intros [Hlong Hjs] Ha Hloc. pose proof (size_nonneg s) as Hnn. destruct step_size as (Es & Hsz & Hcur). pose proof order_size as Hos.
  pose proof step_start as Hss. pose proof (ok_size _ Hok) as Htotal. destruct (maxs_bound _ Ha) as (md & Emd & Hmd).
  unfold longestPossibleJump in Hlong. constructor; [done|lia| |].
  - intros st Est Hne. rewrite Est in Hlong. cbn [mbind option_bind] in Hlong. rewrite (proj2 (Z.eqb_neq _ _) Hne) in Hlong.
    destruct (decide (st <= instructionLocation r)) as [Hle|Hle].
    2: { rewrite option_guard_False in Hlong by done. done. }
    rewrite option_guard_True in Hlong by done. injection Hlong as Hlong.
    assert (0 <= st) as Hst.
    { rewrite starts_at in Est by apply i_range. destruct (Z.eqb_spec (destinationNodeIndex r) i); [injection Est as <-; lia|].
      destruct (alive_Node dfa _ Hok Ha) as (a' & ts' & T' & HN').
      destruct (decide (destinationNodeIndex r ∈ P)) as [Hin|Hin].
      - destruct (inv_done _ _ _ _ _ HI _ _ _ _ Hin HN') as (st' & m & E & _ & ? & _). assert (st' = st) by congruence. lia.
      - rewrite (inv_todo _ _ _ _ _ HI) in Est; [congruence|by apply alive_range|by left]. }
    assert (is_i32 (st - instructionLocation r)) as Hi32 by (unfold is_i32, INT_MIN, INT_MAX; lia).
    rewrite i32_id in Hlong by done. rewrite <- Hlong in *. split; [lia|]. eapply fits_mono; [exact Hjs|]. by apply smallest_fits.
  - intros Est. rewrite Est in Hlong. cbn [mbind option_bind] in Hlong. rewrite Z.eqb_refl in Hlong.
    rewrite starts_at, Z.eqb_refl in Hlong by apply i_range. cbn [mbind option_bind] in Hlong.
    rewrite (compiled_max _ _ _ _ _ HC), (inv_max _ _ _ _ _ HI), (Hmaxs P i R acts ts T Horder HN), Emd in Hlong. cbn [mbind option_bind] in Hlong.
    destruct (decide (ss <= instructionLocation r)) as [Hle|Hle];
      [rewrite option_guard_True in Hlong by done|rewrite (option_guard_False (ss <= instructionLocation r)) in Hlong by done; done].
    cbn [mbind option_bind] in Hlong. set (ms := 4 + sumMax dfa P + startShift dfa i acts) in *.
    destruct (decide (ms < md)) as [Hlt|Hlt];
      [rewrite option_guard_True in Hlong by done|rewrite (option_guard_False (ms < md)) in Hlong by done; done].
    cbn [mbind option_bind] in Hlong. rewrite option_guard_True in Hlong by (unfold noDestination; lia).
    injection Hlong as Hlong. pose proof (startShift_bounds _ _ _ _ _ HN) as Hsh. pose proof (sumMax_nonneg dfa P).
    assert (is_i32 (md - ms - (ss - instructionLocation r))) as Hi32 by (unfold is_i32, INT_MIN, INT_MAX; lia).
    rewrite i32_id in Hlong by done. exists md, cur. split; [done|]. split; [done|].
    rewrite <- Hlong in *. split; [unfold ms, ss, cur in *; lia|]. eapply fits_mono; [exact Hjs|]. by apply smallest_fits.
Qed.

Lemma step_records : Forall (RecOk dfa maxs s' cur') (m_linkRecords s').
Proof.
  destruct (compiled_records _ _ _ _ _ HC) as (recs & -> & Hh & Hrec). apply Forall_app. split.
  - eapply Forall_impl; [apply (inv_records _ _ _ _ _ HI)|]. apply record_old.
  - rewrite Forall_forall in Hrec |- *. intros r Hr. apply record_new; [by apply Hrec| |].
    + assert (holeOf r ∈ holesAll (size s) code') as Hin by (rewrite <- Hh; by apply list_elem_of_fmap_2).
      apply holesAll_In in Hin as [(j & Hj & Hd) _]. cbn in Hd. eapply nodeCode_dests; [exact HN| |rewrite dests_erase; exact Hd].
      rewrite <- Hcode. by apply list_elem_of_fmap_2.
    + assert (holeOf r ∈ holesAll (size s) code') as Hin by (rewrite <- Hh; by apply list_elem_of_fmap_2).
      apply holesAll_In in Hin as [_ Hl]. cbn in Hl. destruct step_size as (-> & _ & _). lia.
Qed.

Lemma Inv_alive : Inv dfa maxs (P ++ [i]) (code ++ code') s'.
Proof.
  destruct step_size as (Es & Hsz & Hcur). pose proof step_start as Hss. pose proof order_fresh as [HiP HiR]. pose proof i_range as Hi.
  pose proof (inv_size _ _ _ _ _ HI) as Esz. constructor.
  - by rewrite (compiled_max _ _ _ _ _ HC), (inv_max _ _ _ _ _ HI).
  - by rewrite (compiled_start _ _ _ _ _ HC), length_insert, (inv_len _ _ _ _ _ HI).
  - by rewrite (compiled_bytes _ _ _ _ _ HC), (inv_bytes _ _ _ _ _ HI), encodeAll_app, <- app_assoc, Esz.
  - pose proof (inv_cur _ _ _ _ _ HI). unfold cur, cur' in Hcur. lia.
  - intros j a' ts' T' Hj HN'. apply elem_of_app in Hj as [Hj|Hj].
    + destruct (inv_done _ _ _ _ _ HI j a' ts' T' Hj HN') as (st & m & E1 & E2 & H1 & H2 & H3).
      exists st, m. rewrite starts_at by done. rewrite (proj2 (Z.eqb_neq j i)) by (intros ->; done).
      pose proof (codeSize_nonneg code') as Hnn. split; [done|]. split; [done|]. split; [lia|].
      split; [unfold cur, cur' in Hcur; lia|by apply Placed_app].
    + apply list_elem_of_singleton in Hj as ->. exists ss, (4 + sumMax dfa P + startShift dfa i acts).
      rewrite starts_at, Z.eqb_refl by done.
      destruct (Node_unique _ _ _ _ _ _ _ _ HN HN') as (-> & _ & ->).
      split; [done|]. split; [by eapply Hmaxs|]. pose proof (inv_cur _ _ _ _ _ HI) as Hc. pose proof (codeSize_nonneg code).
      split; [lia|]. split; [unfold cur, cur', ss in *; lia|]. exists code, code', []. rewrite app_nil_r. split; [done|]. split; [done|]. unfold ss. lia.
  - intros j Hj Hor. rewrite starts_at by done. destruct (Z.eqb_spec j i) as [->|Hne].
    + exfalso. destruct Hor as [Hor|Hor]; [set_solver|]. apply Hor. destruct (node_at _ _ _ _ _ HN) as (n & E & Ek & _). by exists n.
    + apply (inv_todo _ _ _ _ _ HI); [done|]. destruct Hor; [left; set_solver|by right].
  - destruct (compiled_records _ _ _ _ _ HC) as (recs & -> & Hh & _). by rewrite fmap_app, (inv_holes _ _ _ _ _ HI), Hh, holesAll_app, Esz.
  - apply step_records.
Qed.

End Step.

Lemma Inv_killed P R i code s :
  compileOrder dfa = P ++ i :: R -> ~ alive dfa i -> 0 <= i < Z.of_nat (length (DFA.nodes dfa)) -> Inv dfa maxs P code s -> forall b,
  compileNode dfa i b s = Some s /\ Inv dfa maxs (P ++ [i]) code s.
Proof.
  intros Horder Hna Hi HI b. unfold compileNode.
  destruct (lookup_lt_is_Some_2 (DFA.nodes dfa) (Z.to_nat i) ltac:(lia)) as [node En].
  assert (at_ (DFA.nodes dfa) i = Some node) as E by (unfold at_, DFA.at_; by rewrite (proj2 (Z.ltb_ge i 0)) by lia).
  rewrite E. cbn [mbind option_bind]. destruct (DFA.isKilled node) eqn:Ek; [|exfalso; apply Hna; by exists node].
  rewrite (inv_todo _ _ _ _ _ HI i Hi) by (by right). cbn [mbind option_bind]. rewrite option_guard_True by done. split; [done|].
  assert (nodeMax dfa i = 0) as Em by (unfold nodeMax; rewrite E; cbn [mbind option_bind]; by rewrite Ek).
  assert (sumMax dfa (P ++ [i]) = sumMax dfa P) as Esum by (rewrite sumMax_app, sumMax_cons, Em; cbn; lia).
  destruct HI as [I1 I2 I3 I4 I5 I6 I7 I8]. constructor; rewrite ?Esum; try done.
  - intros j a ts T Hj HN. apply elem_of_app in Hj as [Hj|Hj]; [by eapply I5|]. apply list_elem_of_singleton in Hj as ->.
    exfalso. apply Hna. destruct (node_at _ _ _ _ _ HN) as (n & ? & ? & _). by exists n.
  - intros j Hj Hor. apply I6; [done|]. destruct Hor as [Hor|Hor]; [left; set_solver|by right].
Qed.

Lemma layout_step P R i code s :
  compileOrder dfa = P ++ i :: R -> 0 <= i < Z.of_nat (length (DFA.nodes dfa)) -> Inv dfa maxs P code s ->
  exists ext s', compileNode dfa i (i =? DFA.root dfa) s = Some s' /\ Inv dfa maxs (P ++ [i]) (code ++ ext) s'
    /\ (forall acts ts T, Node dfa i acts ts T -> erase <$> ext = nodeCode acts T)
    /\ forall j, j <> i -> at_ (m_nodeStartOffsets s') j = at_ (m_nodeStartOffsets s) j.
Proof.
  intros Horder Hi HI. destruct (alive_dec dfa i) as [Ha|Hna].
  - destruct (alive_Node dfa i Hok Ha) as (acts & ts & T & HN). assert (size s + nodeMax dfa i + 4 < 2 ^ 30) as Hos by (eapply order_size; eassumption).
    destruct (compileNode_spec dfa i acts ts T s Hok HN (inv_len _ _ _ _ _ HI)) as (code' & s' & -> & Hcode & HC).
    + unfold Fits. lia.
    + pose proof (size_nonneg s). lia.
    + intros r d Hr. by eapply target_ok.
    + exists code', s'. split; [done|]. split; [by eapply Inv_alive|]. split.
      * intros acts' ts' T' HN'. by destruct (Node_unique _ _ _ _ _ _ _ _ HN HN') as (-> & _ & ->).
      * intros j Hj. rewrite (compiled_start _ _ _ _ _ HC), at_insert by (rewrite (inv_len _ _ _ _ _ HI); lia).
        by rewrite (proj2 (Z.eqb_neq _ _) Hj).
  - destruct (Inv_killed P R i code s Horder Hna Hi HI (i =? DFA.root dfa)) as [E H].
    exists [], s. rewrite app_nil_r. split; [done|]. split; [done|]. split; [|done].
    intros acts ts T HN. exfalso. apply Hna. by eapply Node_alive.
Qed.

End Steps.

(** ** The whole automaton *)

Lemma forEach_Inv dfa maxs : okDFA dfa ->
  (forall P i R acts ts T, compileOrder dfa = P ++ i :: R -> Node dfa i acts ts T ->
     at_ maxs i = Some (4 + sumMax dfa P + startShift dfa i acts)) ->
  forall R P code s, compileOrder dfa = P ++ R -> Forall (fun i => 0 <= i < Z.of_nat (length (DFA.nodes dfa)) /\ i <> DFA.root dfa) R ->
  Inv dfa maxs P code s ->
  exists ext s', forEach (fun i => compileNode dfa i false) R s = Some s' /\ Inv dfa maxs (compileOrder dfa) (code ++ ext) s'
    /\ forall j, j ∉ R -> at_ (m_nodeStartOffsets s') j = at_ (m_nodeStartOffsets s) j.
Proof.
  intros Hok Hmaxs. induction R as [|i R IH]; intros P code s Horder HR HI.
  - rewrite app_nil_r in Horder. subst P. exists [], s. by rewrite app_nil_r.
  - apply Forall_cons in HR as [[Hi Hne] HR]. cbn [forEach].
    destruct (layout_step dfa maxs Hok Hmaxs P R i code s Horder Hi HI) as (ext & s1 & E & HI1 & _ & Hst1).
    rewrite (proj2 (Z.eqb_neq _ _) Hne) in E. rewrite E. cbn [mbind option_bind].
    destruct (IH (P ++ [i]) (code ++ ext) s1) as (ext' & s' & -> & HI' & Hst'); [by rewrite <- app_assoc|done|done|].
    exists (ext ++ ext'), s'. rewrite app_assoc. split; [done|]. split; [done|]. intros j Hj. rewrite Hst', Hst1 by set_solver. done.
Qed.

Lemma layout_init dfa maxs : length maxs = length (DFA.nodes dfa) ->
  Inv dfa maxs [] [] (mk ([] ++ bytesLE 4 0) maxs (replicate (length (DFA.nodes dfa)) noDestination) []).
Proof.
  intros Hl. constructor; cbn [m_maxNodeStartOffsets m_nodeStartOffsets m_bytecode m_linkRecords app]; try done.
  - by rewrite length_replicate.
  - intros i acts ts T Hi. by apply not_elem_of_nil in Hi.
  - intros i Hi _. unfold at_, DFA.at_. rewrite (proj2 (Z.ltb_ge i 0)) by lia. apply lookup_replicate_2. lia.
Qed.

(** The distances are known in the end. *)
Lemma Inv_linkable dfa maxs code s : okDFA dfa -> Inv dfa maxs (compileOrder dfa) code s -> Forall (linkable (m_nodeStartOffsets s)) (m_linkRecords s).
Proof.
  intros Hok HI. pose proof (ok_size _ Hok) as Hsz. pose proof (inv_cur _ _ _ _ _ HI) as Hc.
  eapply Forall_impl; [apply (inv_records _ _ _ _ _ HI)|]. intros r [Ha Hloc Hk _].
  destruct (alive_Node dfa _ Hok Ha) as (acts & ts & T & HN).
  destruct (inv_done _ _ _ _ _ HI _ _ _ _ (alive_order dfa _ Ha) HN) as (st & m & E & _ & Hst & _).
  exists st. destruct (Hk st E ltac:(unfold noDestination; lia)). unfold INT_MAX. split_and!; try done; lia.
Qed.

Lemma Inv_offsets dfa maxs code s : okDFA dfa -> length maxs = length (DFA.nodes dfa) -> Inv dfa maxs (compileOrder dfa) code s ->
  Forall (fun '(start, max) => start = noDestination \/ start <= max) (zip (m_nodeStartOffsets s) (m_maxNodeStartOffsets s)).
Proof.
  intros Hok Hl HI. rewrite Forall_lookup. intros k [st m] Hk. apply lookup_zip_Some in Hk as [E1 E2].
  assert (k < length (DFA.nodes dfa))%nat as Hlt by (rewrite <- (inv_len _ _ _ _ _ HI); by eapply lookup_lt_Some).
  assert (at_ (m_nodeStartOffsets s) (Z.of_nat k) = Some st) as E1' by (unfold at_, DFA.at_; rewrite (proj2 (Z.ltb_ge _ 0)), Nat2Z.id by lia; done).
  destruct (alive_dec dfa (Z.of_nat k)) as [Ha|Ha].
  - destruct (alive_Node dfa _ Hok Ha) as (acts & ts & T & HN).
    destruct (inv_done _ _ _ _ _ HI _ _ _ _ (alive_order dfa _ Ha) HN) as (st' & m' & E & Em & _ & Hm & _). right.
    rewrite (inv_max _ _ _ _ _ HI) in E2. unfold at_, DFA.at_ in Em. rewrite (proj2 (Z.ltb_ge _ 0)), Nat2Z.id in Em by lia. assert (st' = st) by congruence.
    assert (m' = m) by congruence. lia.
  - left. rewrite (inv_todo _ _ _ _ _ HI (Z.of_nat k)) in E1' by (lia || by right). congruence.
Qed.

(** What the compiler makes: the instructions of the nodes, the root first,
    with the distances to the offsets of the nodes. *)
Record Layout (dfa : DFA.DFA) (code : list Instr) (starts : list Z) : Prop := {
  layout_size : 4 + codeSize code < 2 ^ 30;
  layout_max : codeSize code <= sumMax dfa (compileOrder dfa);
  layout_node : forall i acts ts T, Node dfa i acts ts T ->
    exists st, at_ starts i = Some st /\ 4 <= st <= 4 + codeSize code /\ Placed dfa code i st acts T;
  layout_root : forall acts ts T, Node dfa (DFA.root dfa) acts ts T ->
    exists nc rest, code = nc ++ rest /\ erase <$> nc = nodeCode acts T
      /\ at_ starts (DFA.root dfa) = Some (4 + codeSize (IAction <$> acts));
  layout_fits : Forall (fun h => lowest (hole_js h) <= distanceTo starts (hole_location h) (hole_destination h) <= highest (hole_js h))
    (holesAll 4 code) }.

Theorem compile_layout dfa : okDFA dfa ->
  exists code starts, compile dfa [] = Some (bytesLE 4 (4 + codeSize code) ++ encodeAll (distanceTo starts) 4 code) /\ Layout dfa code starts.
Proof.
  intros Hok. destruct (maxNodeStartOffsets_spec dfa Hok) as (maxs & Emax & Hlm & Hmaxs). unfold compile. rewrite Emax. cbn [mbind option_bind].
  pose proof (layout_init dfa maxs Hlm) as H0. pose proof (alive_range _ _ (ok_root _ Hok)) as Hroot.
  destruct (layout_step dfa maxs Hok Hmaxs [] (otherNodes dfa) (DFA.root dfa) [] _ eq_refl Hroot H0) as (ext1 & s1 & E1 & HI1 & Hc1 & _).
  rewrite Z.eqb_refl in E1. cbn [app length] in *. rewrite E1. cbn [mbind option_bind].
  destruct (forEach_Inv dfa maxs Hok Hmaxs (otherNodes dfa) [DFA.root dfa] ext1 s1 eq_refl) as (ext2 & s2 & -> & HI2 & Hst2); [|done|].
  { apply Forall_forall. intros i Hi. apply elem_of_otherNodes in Hi. naive_solver. }
  cbn [mbind option_bind]. rewrite option_guard_True by (by eapply Inv_offsets). cbn [mbind option_bind].
  pose proof (Inv_linkable dfa maxs _ s2 Hok HI2) as Hl. pose proof (inv_size _ _ _ _ _ HI2) as Hs. pose proof (inv_cur _ _ _ _ _ HI2) as Hc.
  pose proof (ok_size _ Hok) as Hsz. set (code := ext1 ++ ext2) in *.
  pose proof (link_code (m_nodeStartOffsets s2) code 4 (m_linkRecords s2) [] (bytesLE 4 0) [] (inv_holes _ _ _ _ _ HI2) Hl eq_refl ltac:(lia)) as Hlink.
  rewrite !app_nil_r in Hlink. rewrite (inv_bytes _ _ _ _ _ HI2), Hlink. cbn [link mbind option_bind].
  exists code, (m_nodeStartOffsets s2). split.
  - change (u32 (Z.of_nat 0)) with 0. change (bytesLE 4 0 ++ encodeAll (distanceTo (m_nodeStartOffsets s2)) 4 code)
      with ([] ++ replicate 4 0 ++ encodeAll (distanceTo (m_nodeStartOffsets s2)) 4 code).
    rewrite (setBits_app 4) by done. cbn [app]. do 3 f_equal. rewrite length_app, Nat2Z.inj_add, length_replicate, encodeAll_length. lia.
  - constructor.
    + lia.
    + lia.
    + intros i acts ts T HN. destruct (inv_done _ _ _ _ _ HI2 i acts ts T (alive_order _ _ (Node_alive _ _ _ _ _ HN)) HN) as (st & m & E & _ & Hst & _ & Hp).
      exists st. split; [done|]. split; [lia|done].
    + intros acts ts T HN. exists ext1, ext2. split; [done|]. split; [by apply (Hc1 acts ts T)|].
      rewrite Hst2 by (rewrite elem_of_otherNodes; naive_solver).
      destruct (inv_done _ _ _ _ _ HI1 (DFA.root dfa) acts ts T ltac:(left) HN) as (st & m & E & _ & _ & _ & (c1 & nc & c2 & Ec & En & ->)).
      rewrite E. destruct c1 as [|j c1]; [cbn; unfold startShift; by rewrite Z.eqb_refl|].
      exfalso. apply (f_equal length) in En. rewrite <- (Hc1 acts ts T HN) in En. rewrite Ec, !length_fmap, !length_app in En. cbn in En. lia.
    + rewrite <- (inv_holes _ _ _ _ _ HI2), Forall_fmap. eapply Forall_impl; [exact Hl|]. intros r (dest & Ed & _ & _ & _ & Hf).
      unfold compose. cbn. unfold distanceTo. by rewrite Ed.
Qed.
