(* ===== verification/DFARun.v ===== *)
(** * DFARun: the interpreter on laid-out code *)

From stdpp Require Import gmap.
From S2P Require Import Prelude ASCIICType DFA DFABytecode DFABytecodeCompiler DFABytecodeInterpreter DFATransitions DFAEmit DFACompile.
Import DFABytecode DFABytecodeCompiler DFABytecodeInterpreter.

#[local] Ltac Zify.zify_post_hook ::= Z.div_mod_to_equations.

(** ** Reading integers back *)

Lemma valueLE_bytesLE n : forall v, valueLE (bytesLE n v) = v mod 2 ^ (8 * Z.of_nat n).
Proof.
  induction n as [|n IH]; intros v; cbn [bytesLE valueLE]; [by rewrite Z.mod_1_r|].
  rewrite IH. replace (8 * Z.of_nat (S n)) with (8 + 8 * Z.of_nat n) by lia. rewrite Z.pow_add_r by lia.
  change (2 ^ 8) with 256. rewrite (Z.rem_mul_r v 256) by lia. lia.
Qed.

Lemma getBits_at B n v pre post index :
  B = pre ++ bytesLE n v ++ post -> index = Z.of_nat (length pre) -> getBits B n index = Some (v mod 2 ^ (8 * Z.of_nat n)).
Proof.
  intros -> ->. unfold getBits, m_bytecodeLength. rewrite !length_app, bytesLE_length, option_guard_True by lia. cbn [mbind option_bind].
  rewrite Nat2Z.id, drop_app_length, take_app_length' by (by rewrite bytesLE_length). by rewrite valueLE_bytesLE.
Qed.

Lemma getByte_at B v pre post index :
  B = pre ++ bytesLE 1 v ++ post -> index = Z.of_nat (length pre) -> 0 <= v < 256 -> getBits B 1 index = Some v.
Proof. intros H1 H2 H3. rewrite (getBits_at B 1 v pre post index H1 H2). f_equal. apply Z.mod_small. cbn. lia. Qed.

Lemma signed_mod n v : - 2 ^ (8 * Z.of_nat (S n) - 1) <= v < 2 ^ (8 * Z.of_nat (S n) - 1) -> signed (S n) (v mod 2 ^ (8 * Z.of_nat (S n))) = v.
Proof.
  intros Hv. unfold signed. replace (8 * Z.of_nat (S n)) with (1 + (8 * Z.of_nat (S n) - 1)) by lia. rewrite Z.pow_add_r by lia.
  replace (1 + (8 * Z.of_nat (S n) - 1) - 1) with (8 * Z.of_nat (S n) - 1) by lia. set (h := 2 ^ (8 * Z.of_nat (S n) - 1)) in *.
  assert (0 < h) by (apply Z.pow_pos_nonneg; lia). change (2 ^ 1) with 2.
  destruct (decide (0 <= v)).
  - rewrite Z.mod_small by lia. rewrite (proj2 (Z.ltb_lt _ _)) by lia. done.
  - assert (v mod (2 * h) = v + 2 * h) as -> by (rewrite <- (Z.mod_small (v + 2 * h) (2 * h)) by lia; by rewrite <- Z.add_mod_idemp_r, Z.mod_same, Z.add_0_r by lia).
    rewrite (proj2 (Z.ltb_ge _ _)) by lia. lia.
Qed.

Lemma getSignedBits_at B n v pre post index :
  B = pre ++ bytesLE (S n) v ++ post -> index = Z.of_nat (length pre) ->
  - 2 ^ (8 * Z.of_nat (S n) - 1) <= v < 2 ^ (8 * Z.of_nat (S n) - 1) -> getSignedBits B (S n) index = Some v.
Proof. intros H1 H2 H3. unfold getSignedBits. rewrite (getBits_at B (S n) v pre post index H1 H2). cbn [fmap option_fmap option_map]. by rewrite signed_mod. Qed.

Lemma lor_shift low high k : 0 <= k -> 0 <= low < 2 ^ k -> Z.lor low (Z.shiftl high k) = low + high * 2 ^ k.
Proof.
  intros Hk Hl. rewrite <- Z.shiftl_mul_pow2 by done. symmetry. rewrite Z.add_nocarry_lxor, Z.lxor_lor; try done.
  all: apply Z.bits_inj'; intros n Hn; rewrite Z.land_spec, Z.bits_0; destruct (decide (n < k));
    [rewrite Z.shiftl_spec_low, andb_false_r by done; done|].
  all: rewrite <- (Z.mod_small low (2 ^ k)) by done; rewrite Z.mod_pow2_bits_high by lia; done.
Qed.

Lemma getJumpDistance_at B js v pre post index :
  B = pre ++ jumpBytes js v ++ post -> index = Z.of_nat (length pre) -> lowest js <= v <= highest js -> getJumpDistance B index js = Some v.
Proof.
  intros HB Hi Hv. destruct js; cbn [jumpBytes lowest highest getJumpDistance] in *.
  - apply (getSignedBits_at B 0 v pre post); [done|done|]. change (8 * Z.of_nat 1 - 1) with 7. change (2 ^ 7) with 128. lia.
  - apply (getSignedBits_at B 1 v pre post); [done|done|]. change (8 * Z.of_nat 2 - 1) with 15. change (2 ^ 15) with 32768. lia.
  - rewrite <- app_assoc in HB. rewrite (getBits_at B 2 v pre _ index HB Hi). cbn [mbind option_bind].
    rewrite app_assoc in HB. rewrite (getSignedBits_at B 0 (Z.shiftr v 16) _ post (index + 2) HB).
    + cbn [mbind option_bind]. change (2 ^ (8 * Z.of_nat 2)) with (2 ^ 16). rewrite lor_shift by lia. rewrite Z.shiftr_div_pow2 by lia. f_equal. lia.
    + rewrite length_app, bytesLE_length. lia.
    + rewrite Z.shiftr_div_pow2 by lia. change (8 * Z.of_nat 1 - 1) with 7. change (2 ^ 7) with 128. lia.
  - apply (getSignedBits_at B 3 v pre post); [done|done|]. change (8 * Z.of_nat 4 - 1) with 31. lia.
Qed.

Lemma opcode_range op : 0 <= opcode op < 256.
Proof. destruct op; cbn; lia. Qed.

Lemma opcodeWithJump_range op js : 0 <= opcodeWithJump op js < 256.
Proof. destruct op, js; by vm_compute. Qed.

Lemma getInstruction_at B op pre post index :
  B = pre ++ bytesLE 1 (opcode op) ++ post -> index = Z.of_nat (length pre) -> getInstruction B index = Some op.
Proof.
  intros H1 H2. unfold getInstruction. rewrite (getByte_at B (opcode op) pre post index H1 H2) by apply opcode_range. cbn [mbind option_bind]. by destruct op.
Qed.

Lemma getInstructionJump_at B op js pre post index :
  B = pre ++ bytesLE 1 (opcodeWithJump op js) ++ post -> index = Z.of_nat (length pre) ->
  getInstruction B index = Some op /\ getJumpSize B index = Some js.
Proof.
  intros H1 H2. unfold getInstruction, getJumpSize.
  rewrite (getByte_at B (opcodeWithJump op js) pre post index H1 H2) by apply opcodeWithJump_range. cbn [mbind option_bind]. by destruct op, js.
Qed.

(** ** Actions *)

Lemma hasFlags_spec a : 0 <= a -> hasFlags a = negb ((a / 2 ^ 32) mod 2 ^ 16 =? 0).
Proof.
  intros Ha. unfold hasFlags. change ActionFlagMask with (Z.shiftl (Z.ones 16) 32).
  assert (Z.land a (Z.shiftl (Z.ones 16) 32) = Z.shiftl ((a / 2 ^ 32) mod 2 ^ 16) 32) as ->.
  { rewrite <- Z.land_ones by lia. rewrite <- Z.shiftr_div_pow2 by lia. apply Z.bits_inj'. intros n Hn.
    rewrite Z.land_spec. destruct (decide (n < 32)).
    - rewrite !Z.shiftl_spec_low by lia. apply andb_false_r.
    - rewrite !Z.shiftl_spec by lia. rewrite Z.land_spec, Z.shiftr_spec by lia. by replace (n - 32 + 32) with n by lia. }
  rewrite Z.shiftl_mul_pow2 by lia. f_equal.
  destruct (Z.eqb_spec ((a / 2 ^ 32) mod 2 ^ 16 * 2 ^ 32) 0), (Z.eqb_spec ((a / 2 ^ 32) mod 2 ^ 16) 0); done || lia.
Qed.

Lemma hasIfCondition_spec a : okAction a -> hasIfCondition a = (2 ^ 48 <=? a).
Proof.
  intros Ha. unfold okAction in Ha. unfold hasIfCondition. change IfConditionFlag with (2 ^ 48).
  assert (Z.land a (2 ^ 48) = if 2 ^ 48 <=? a then 2 ^ 48 else 0) as ->.
  { assert (Z.testbit a 48 = (2 ^ 48 <=? a)) as Hb.
    { rewrite Z.testbit_eqb by lia. destruct (Z.leb_spec (2 ^ 48) a); [apply Z.eqb_eq|apply Z.eqb_neq].
      - assert (a / 2 ^ 48 = 1) as -> by lia. done.
      - assert (a / 2 ^ 48 = 0) as -> by lia. done. }
    rewrite <- Hb. apply Z.bits_inj'. intros n Hn. rewrite Z.land_spec, Z.pow2_bits_eqb by lia.
    destruct (Z.eqb_spec 48 n) as [<-|Hne].
    - destruct (Z.testbit a 48); [by rewrite Z.pow2_bits_eqb by lia|done].
    - rewrite andb_false_r. destruct (Z.testbit a 48); [|by rewrite Z.bits_0]. rewrite Z.pow2_bits_eqb by lia. symmetry. by apply Z.eqb_neq. }
  by destruct (2 ^ 48 <=? a).
Qed.

(** The action is put together again. *)
Lemma action_parts a : okAction a ->
  Z.lor (Z.lor (if hasIfCondition a then IfConditionFlag else 0) (Z.shiftl ((a / 2 ^ 32) mod 2 ^ 16) 32)) (a mod 2 ^ 32) = a
  /\ (hasFlags a = false -> Z.lor (if hasIfCondition a then IfConditionFlag else 0) (a mod 2 ^ 32) = a).
Proof.
  intros Ha. rewrite hasIfCondition_spec, hasFlags_spec by (done || unfold okAction in Ha; lia). unfold okAction in Ha.
  assert (forall f, 0 <= f < 2 ^ 16 -> Z.lor (Z.lor (if 2 ^ 48 <=? a then IfConditionFlag else 0) (Z.shiftl f 32)) (a mod 2 ^ 32)
            = a mod 2 ^ 32 + (f + (if 2 ^ 48 <=? a then 1 else 0) * 2 ^ 16) * 2 ^ 32) as H.
  { intros f Hf. assert ((if 2 ^ 48 <=? a then IfConditionFlag else 0) = Z.shiftl (if 2 ^ 48 <=? a then 1 else 0) 48) as -> by (by destruct (2 ^ 48 <=? a)).
    change 48 with (16 + 32) at 2. rewrite <- (Z.shiftl_shiftl _ 16 32) by lia. rewrite <- Z.shiftl_lor, (Z.lor_comm _ f), lor_shift by lia.
    rewrite Z.lor_comm, lor_shift by lia. done. }
  split.
  - rewrite H by lia. destruct (Z.leb_spec (2 ^ 48) a); lia.
  - intros Hnf. apply negb_false_iff, Z.eqb_eq in Hnf. specialize (H 0 ltac:(lia)). rewrite Z.shiftl_0_l, Z.lor_0_r in H. rewrite H.
    destruct (Z.leb_spec (2 ^ 48) a); lia.
Qed.

(** ** Reading an instruction *)

Definition At (B : list Z) (pc : Z) (bytes : list Z) : Prop := exists pre post, B = pre ++ bytes ++ post /\ pc = Z.of_nat (length pre).

Lemma At_app B pc b1 b2 : At B pc (b1 ++ b2) -> At B pc b1 /\ At B (pc + Z.of_nat (length b1)) b2.
Proof.
  intros (pre & post & -> & ->). split.
  - exists pre, (b2 ++ post). by rewrite <- app_assoc.
  - exists (pre ++ b1), post. rewrite <- !app_assoc, length_app. split; [done|lia].
Qed.

Lemma At_bound B pc b : At B pc b -> 0 <= pc /\ pc + Z.of_nat (length b) <= m_bytecodeLength B.
Proof. intros (pre & post & -> & ->). unfold m_bytecodeLength. rewrite !length_app. lia. Qed.

Lemma At_bits B n v pc : At B pc (bytesLE n v) -> getBits B n pc = Some (v mod 2 ^ (8 * Z.of_nat n)).
Proof. intros (pre & post & E & ->). by eapply getBits_at. Qed.

Lemma At_byte B v pc : At B pc (bytesLE 1 v) -> 0 <= v < 256 -> getBits B 1 pc = Some v.
Proof. intros (pre & post & E & ->). by eapply getByte_at. Qed.

Lemma At_instruction B op pc : At B pc (bytesLE 1 (opcode op)) -> getInstruction B pc = Some op.
Proof. intros (pre & post & E & ->). by eapply getInstruction_at. Qed.

Lemma At_jumpInstruction B op js pc : At B pc (bytesLE 1 (opcodeWithJump op js)) -> getInstruction B pc = Some op /\ getJumpSize B pc = Some js.
Proof. intros (pre & post & E & ->). by eapply getInstructionJump_at. Qed.

Lemma At_distance B js v pc : At B pc (jumpBytes js v) -> lowest js <= v <= highest js -> getJumpDistance B pc js = Some v.
Proof. intros (pre & post & E & ->). by eapply getJumpDistance_at. Qed.

(** ** What an action adds *)

Definition actionFlags (a : Z) : Z := (a / 2 ^ 32) mod 2 ^ 16.

Definition typeMatches (mask flags a : Z) : bool :=
  if Z.land (actionFlags a) mask =? 0 then true else negb (Z.land (Z.land (actionFlags a) mask) flags =? 0).

(** The load and resource types of the rule include those of the load. *)
Definition flagsMatch (flags a : Z) : bool := typeMatches LoadTypeMask flags a && typeMatches ResourceTypeMask flags a.

Definition applyAction (top : option Actions) (flags : Z) (acc : Actions) (a : Z) : Actions :=
  if flagsMatch flags a then addAction top a acc else acc.

Lemma flagsMatch_none flags a : 0 <= a -> hasFlags a = false -> flagsMatch flags a = true.
Proof.
  intros Ha H. rewrite hasFlags_spec in H by done. apply negb_false_iff, Z.eqb_eq in H. unfold flagsMatch, typeMatches, actionFlags. by rewrite H.
Qed.

Section Dispatch.

Context (B : list Z) (top : option Actions) (url : list Z) (flags : Z).
Hypothesis HB : Z.of_nat (length B) < 2 ^ 31.

Lemma appendAction_at pc a acc :
  At B pc (actionBytes a) -> okAction a -> hasFlags a = false ->
  getInstruction B pc = Some (if hasIfCondition a then AppendActionWithIfCondition else AppendAction)
  /\ interpretAppendAction B top pc acc (hasIfCondition a) = Some (pc + appendActionBytecodeSize a, addAction top a acc).
Proof using HB.
  intros Hat Ha Hf. unfold actionBytes, appendActionBytecodeSize in *. rewrite Hf in *. pose proof (At_bound _ _ _ Hat) as Hb.
  apply At_app in Hat as [H1 H2]. rewrite length_app, !bytesLE_length in Hb. unfold m_bytecodeLength in Hb. split; [by apply At_instruction|].
  unfold interpretAppendAction. rewrite bytesLE_length in H2. rewrite (At_bits B 4 a (pc + sizeof_instruction) H2).
  cbn [mbind option_bind instructionSizeWithArguments]. change (2 ^ (8 * Z.of_nat 4)) with (2 ^ 32).
  rewrite (proj2 (action_parts a Ha) Hf). unfold sizeof_instruction in *. by rewrite u32_id by lia.
Qed.

Lemma testFlags_at pc a acc :
  At B pc (actionBytes a) -> okAction a -> hasFlags a = true ->
  getInstruction B pc = Some (if hasIfCondition a then TestFlagsAndAppendActionWithIfCondition else TestFlagsAndAppendAction)
  /\ interpretTestFlagsAndAppendAction B top pc flags acc (hasIfCondition a) = Some (pc + appendActionBytecodeSize a, applyAction top flags acc a).
Proof using HB.
  intros Hat Ha Hf. unfold actionBytes, appendActionBytecodeSize in *. rewrite Hf in *. pose proof (At_bound _ _ _ Hat) as Hb.
  apply At_app in Hat as [H1 H2]. apply At_app in H2 as [H2 H3]. rewrite !bytesLE_length in H2, H3. rewrite !length_app, !bytesLE_length in Hb.
  unfold m_bytecodeLength in Hb. split; [by apply At_instruction|].
  unfold interpretTestFlagsAndAppendAction. change (Z.of_nat 1) with sizeof_instruction in H2. rewrite (At_bits B 2 _ _ H2). cbn [mbind option_bind].
  change (2 ^ (8 * Z.of_nat 2)) with (2 ^ 16). rewrite Z.shiftr_div_pow2 by lia. fold (actionFlags a). unfold applyAction, flagsMatch, typeMatches.
  rewrite !if_negb.
  assert (getBits B 4 (pc + sizeof_instruction + 2) = Some (a mod 2 ^ 32)) as -> by exact (At_bits B 4 _ _ H3).
  destruct (_ && _); cbn [mbind option_bind instructionSizeWithArguments].
  - unfold actionFlags. rewrite (proj1 (action_parts a Ha)). unfold sizeof_instruction in *. by rewrite u32_id by lia.
  - unfold sizeof_instruction in *. by rewrite u32_id by lia.
Qed.

Lemma dispatch_action s a :
  At B (programCounter s) (actionBytes a) -> okAction a ->
  dispatch B top url flags s
  = Some (Continue (mkState (programCounter s + appendActionBytecodeSize a) (applyAction top flags (actions s) a)
                      (urlIndex s) (urlIndexIsAfterEndOfString s))).
Proof using HB.
  intros Hat Ha. unfold dispatch. pose proof (At_bound _ _ _ Hat) as Hb. rewrite option_guard_True by lia. cbn [mbind option_bind].
  destruct (hasFlags a) eqn:Hf.
  - destruct (testFlags_at _ a (actions s) Hat Ha Hf) as [-> E]. cbn [mbind option_bind]. destruct (hasIfCondition a); rewrite E; done.
  - destruct (appendAction_at _ a (actions s) Hat Ha Hf) as [-> E]. unfold applyAction. rewrite flagsMatch_none by (done || unfold okAction in Ha; lia).
    cbn [mbind option_bind]. destruct (hasIfCondition a); rewrite E; done.
Qed.

End Dispatch.

(** ** Branches *)

Definition matchesb (r : Range) (c : Z) : bool :=
  (range_min r <=? folded (range_caseSensitive r) c) && (folded (range_caseSensitive r) c <=? range_max r).

Lemma matchesb_spec r c : matchesb r c = true <-> matches r c.
Proof. unfold matchesb, matches. rewrite andb_true_iff, !Z.leb_le. done. Qed.

Lemma folded_char cs c : isChar c -> isChar (folded cs c) /\ (folded cs c = 0 <-> c = 0).
Proof.
  unfold folded, isChar. destruct cs; [lia|]. rewrite toASCIILower_spec. unfold isASCIIUpper. destruct ((65 <=? c) && (c <=? 90)) eqn:E; [zbool; lia|lia].
Qed.

Section Branch.

Context (B : list Z) (top : option Actions) (url : list Z) (flags : Z) (base : Z) (starts : list Z).
Hypothesis HB : Z.of_nat (length B) < 2 ^ 31.
Hypothesis Hurl : Z.of_nat (length url) + 2 < 2 ^ 32.

(** The state after the edge to node [d] on [c]. *)
Definition edge (d c : Z) (s : State) : State :=
  mkState (base + default 0 (at_ starts d)) (actions s) (urlIndex s + 1) (if c =? 0 then true else urlIndexIsAfterEndOfString s).

Definition skip (n : Z) (s : State) : State := mkState (programCounter s + n) (actions s) (urlIndex s) (urlIndexIsAfterEndOfString s).

(** Node [d] can be jumped to from [loc] with this size. *)
Definition reachable (loc d : Z) (js : DFABytecodeJumpSize) : Prop :=
  lowest js <= distanceTo starts loc d <= highest js /\ 0 <= base + default 0 (at_ starts d) < 2 ^ 31.

Lemma urlAt_index s c : urlAt url (urlIndex s) = Some c -> 0 <= urlIndex s <= Z.of_nat (length url).
Proof.
  unfold urlAt. destruct (Z.eqb_spec (urlIndex s) (Z.of_nat (length url))); [lia|]. destruct (Z.ltb_spec (urlIndex s) 0); [done|].
  intros E. apply lookup_lt_Some in E. lia.
Qed.

Lemma takeEdge_at s loc d js c c' jump :
  urlAt url (urlIndex s) = Some c -> programCounter s = base + loc -> At B jump (jumpBytes js (distanceTo starts loc d)) -> reachable loc d js ->
  (c' = 0 <-> c = 0) -> takeEdge B c' jump js s = Some (edge d c s).
Proof.
  intros Hc Hpc Hat [Hfit Hst] Hz. unfold takeEdge. rewrite (At_distance _ _ _ _ Hat Hfit). cbn [mbind option_bind]. pose proof (urlAt_index s c Hc).
  unfold distanceTo, edge. rewrite Hpc. replace (base + loc + (default 0 (at_ starts d) - loc)) with (base + default 0 (at_ starts d)) by lia.
  rewrite !u32_id by lia. do 2 f_equal. destruct (Z.eqb_spec c' 0), (Z.eqb_spec c 0); done || lia.
Qed.

Lemma readCharacter_at cs s c : urlAt url (urlIndex s) = Some c -> readCharacter url cs s = Some (folded cs c).
Proof. intros E. unfold readCharacter. rewrite E. by destruct cs. Qed.

Lemma dispatch_range f s loc r js c :
  At B (programCounter s) (encode (distanceTo starts loc) (IRange r js)) -> okRange f r -> programCounter s = base + loc ->
  urlIndexIsAfterEndOfString s = false -> urlAt url (urlIndex s) = Some c -> isChar c -> reachable loc (range_destination r) js ->
  dispatch B top url flags s = Some (Continue (if matchesb r c then edge (range_destination r) c s else skip (instrSize (IRange r js)) s)).
Proof.
  intros Hat (H1 & H2 & _) Hpc Haf Hc Hch Hre. pose proof (At_bound _ _ _ Hat) as Hb. rewrite encode_length in Hb. unfold m_bytecodeLength in Hb.
  cbn [encode] in Hat. apply At_app in Hat as [Ho Hat]. rewrite bytesLE_length in Hat. apply At_app in Hat as [Hr Hj].
  destruct (At_jumpInstruction _ _ _ _ Ho) as [Ei Ej]. destruct (folded_char (range_caseSensitive r) c Hch) as [Hfc Hfz].
  pose proof (jumpBytesSize_range js) as Hjs. unfold dispatch. rewrite option_guard_True by (unfold m_bytecodeLength; pose proof (instrSize_pos (IRange r js)); lia). cbn [mbind option_bind]. rewrite Ei.
  cbn [mbind option_bind]. unfold rangeOpcode, rangeBytes, matchesb, unlessAfterEnd in *. rewrite Haf. unfold isChar in *. cbn [instrSize] in *.
  revert Hb Hr Hj. destruct (Z.eqb_spec (range_min r) (range_max r)) as [Em|Em]; intros Hb Hr Hj.
  - assert (interpretCheckValue B url (range_caseSensitive r) s
            = Some (if (range_min r <=? folded (range_caseSensitive r) c) && (folded (range_caseSensitive r) c <=? range_max r)
                    then edge (range_destination r) c s else skip (2 + jumpBytesSize js) s)) as E.
    { unfold interpretCheckValue. rewrite (readCharacter_at _ s c Hc), Ej. cbn [mbind option_bind].
      rewrite (At_byte B (range_min r) (programCounter s + sizeof_instruction)) by (done || lia). cbn [mbind option_bind].
      destruct (Z.eqb_spec (folded (range_caseSensitive r) c) (range_min r)) as [E|E].
      - rewrite (proj2 (andb_true_iff _ _)) by lia. eapply takeEdge_at; try done.
      - rewrite (proj2 (andb_false_iff _ _)) by lia. unfold skipTo, skip, sizeof_instruction, jumpBytesSize in *. rewrite u32_id by lia. do 2 f_equal. lia. }
    destruct (range_caseSensitive r); rewrite E; done.
  - assert (interpretCheckValueRange B url (range_caseSensitive r) s
            = Some (if (range_min r <=? folded (range_caseSensitive r) c) && (folded (range_caseSensitive r) c <=? range_max r)
                    then edge (range_destination r) c s else skip (3 + jumpBytesSize js) s)) as E.
    { unfold interpretCheckValueRange. rewrite (readCharacter_at _ s c Hc), Ej. cbn [mbind option_bind]. apply At_app in Hr as [Hr1 Hr2].
      rewrite bytesLE_length in Hr2. unfold sizeof_instruction in *.
      rewrite (At_byte B (range_min r) (programCounter s + 1)) by (done || lia). cbn [mbind option_bind].
      rewrite (At_byte B (range_max r) (programCounter s + 1 + 1)) by (done || lia). cbn [mbind option_bind].
      destruct (_ && _) eqn:Ein.
      - by eapply takeEdge_at.
      - unfold skipTo, skip, jumpBytesSize in *. rewrite u32_id by lia. do 2 f_equal. lia. }
    destruct (range_caseSensitive r); rewrite E; done.
Qed.

Lemma At_concat {A} pc (g : A -> list Z) n l k x :
  At B pc (concat (g <$> l)) -> Forall (fun x => Z.of_nat (length (g x)) = n) l -> l !! k = Some x -> At B (pc + Z.of_nat k * n) (g x).
Proof.
  revert pc k. induction l as [|y l IH]; intros pc k Hat Hl Hk; [done|]. apply Forall_cons in Hl as [Hy Hl]. rewrite fmap_cons in Hat. cbn [concat] in Hat.
  apply At_app in Hat as [H1 H2]. destruct k as [|k]; cbn in Hk.
  - injection Hk as ->. by rewrite Z.mul_0_l, Z.add_0_r.
  - specialize (IH _ k H2 Hl Hk). rewrite Hy in IH. by replace (pc + Z.of_nat (S k) * n) with (pc + n + Z.of_nat k * n) by lia.
Qed.

Lemma dispatch_table f s loc t js c :
  At B (programCounter s) (encode (distanceTo starts loc) (ITable t js)) -> okTable f t -> programCounter s = base + loc ->
  urlIndexIsAfterEndOfString s = false -> urlAt url (urlIndex s) = Some c -> isChar c ->
  Forall (fun d => reachable loc d js) (table_destinations t) ->
  dispatch B top url flags s
  = Some (Continue (match tableTarget t c with Some d => edge d c s | None => skip (instrSize (ITable t js)) s end)).
Proof.
  intros Hat (H1 & H2 & H3 & _) Hpc Haf Hc Hch Hre. pose proof (At_bound _ _ _ Hat) as Hb. rewrite encode_length in Hb. unfold m_bytecodeLength in Hb.
  cbn [encode] in Hat. apply At_app in Hat as [Ho Hat]. apply At_app in Hat as [Hmin Hat]. apply At_app in Hat as [Hmax Hj]. rewrite !bytesLE_length in *.
  destruct (At_jumpInstruction _ _ _ _ Ho) as [Ei Ej]. destruct (folded_char (table_caseSensitive t) c Hch) as [Hfc Hfz].
  pose proof (jumpBytesSize_range js) as Hjs. unfold dispatch. rewrite option_guard_True by (unfold m_bytecodeLength; pose proof (instrSize_pos (ITable t js)); lia). cbn [mbind option_bind].
  rewrite Ei. cbn [mbind option_bind]. unfold tableOpcode, unlessAfterEnd in *. rewrite Haf. unfold isChar in *. cbn [instrSize] in *.
  assert (interpetJumpTable B url (table_caseSensitive t) s
          = Some (match tableTarget t c with Some d => edge d c s
                  | None => skip (3 + Z.of_nat (length (table_destinations t)) * jumpBytesSize js) s end)) as E.
  { unfold interpetJumpTable. rewrite Ej. cbn [mbind option_bind]. rewrite (readCharacter_at _ s c Hc). cbn [mbind option_bind]. unfold sizeof_instruction in *.
    rewrite (At_byte B (table_min t) (programCounter s + 1)) by (done || lia). cbn [mbind option_bind].
    rewrite (At_byte B (table_max t) (programCounter s + 1 + 1)) by (done || lia). cbn [mbind option_bind]. unfold tableTarget. cbn zeta.
    destruct (_ && _) eqn:Ein.
    - zbool. destruct (lookup_lt_is_Some_2 (table_destinations t) (Z.to_nat (folded (table_caseSensitive t) c - table_min t)) ltac:(lia)) as [d Hd]. rewrite Hd.
      eapply takeEdge_at; try done; [|rewrite Forall_lookup in Hre; by eapply Hre].
      eapply (At_concat _ _ (jumpBytesSize js)) in Hj; [| |exact Hd].
      + cbn beta in Hj. replace (programCounter s + 1 + 2 + _) with (programCounter s + Z.of_nat 1 + Z.of_nat 1 + Z.of_nat 1
            + Z.of_nat (Z.to_nat (folded (table_caseSensitive t) c - table_min t)) * jumpBytesSize js); [done|].
        rewrite Z2Nat.id by lia. unfold jumpBytesSize. lia.
      + apply Forall_forall. intros d' _. apply jumpBytes_length.
    - unfold skipTo, skip, jumpBytesSize in *. rewrite <- H3. rewrite u32_id by lia. do 2 f_equal. lia. }
  destruct (table_caseSensitive t); rewrite E; done.
Qed.

Lemma dispatch_jump s loc d js c :
  At B (programCounter s) (encode (distanceTo starts loc) (IJump d js)) -> programCounter s = base + loc ->
  urlIndexIsAfterEndOfString s = false -> urlAt url (urlIndex s) = Some c -> reachable loc d js ->
  dispatch B top url flags s = Some (if c =? 0 then NextDFA (actions s) else Continue (edge d c s)).
Proof.
  intros Hat Hpc Haf Hc Hre. pose proof (At_bound _ _ _ Hat) as Hb. cbn [encode] in Hat. apply At_app in Hat as [Ho Hj]. rewrite bytesLE_length in Hj.
  destruct (At_jumpInstruction _ _ _ _ Ho) as [Ei Ej]. unfold dispatch. rewrite option_guard_True by lia. cbn [mbind option_bind]. rewrite Ei.
  cbn [mbind option_bind]. rewrite Haf, Hc. cbn [mbind option_bind]. rewrite orb_false_r. destruct (Z.eqb_spec c 0) as [E|E]; [done|].
  pose proof (takeEdge_at s loc d js c c (programCounter s + 1) Hc Hpc Hj Hre ltac:(done)) as Ht. unfold takeEdge in Ht.
  unfold interpretJump. rewrite Ej. cbn [mbind option_bind]. unfold sizeof_instruction. destruct (getJumpDistance B (programCounter s + 1) js) as [v|]; [|done].
  cbn [mbind option_bind] in *. injection Ht as E1 E2. rewrite E1, E2. unfold edge. by rewrite (proj2 (Z.eqb_neq c 0) E).
Qed.

Lemma dispatch_terminate s : At B (programCounter s) (encode (fun _ => 0) ITerminate) -> dispatch B top url flags s = Some (NextDFA (actions s)).
Proof.
  intros Hat. pose proof (At_bound _ _ _ Hat) as Hb. cbn [encode] in Hat. unfold dispatch. rewrite option_guard_True by lia. cbn [mbind option_bind].
  by rewrite (At_instruction _ _ _ Hat).
Qed.

(** After the end of the URL any branching instruction ends the run. *)
Lemma dispatch_after s loc i :
  At B (programCounter s) (encode (distanceTo starts loc) i) -> (forall a, i <> IAction a) -> (forall d js, i <> IJump d js) ->
  urlIndexIsAfterEndOfString s = true -> dispatch B top url flags s = Some (NextDFA (actions s)).
Proof.
  intros Hat Hi Hj Haf. pose proof (At_bound _ _ _ Hat) as Hb. unfold dispatch. rewrite option_guard_True by lia. cbn [mbind option_bind].
  destruct i as [a|t js|r js|d js|]; cbn [encode] in Hat; [by destruct (Hi a)| | |by destruct (Hj d js)|by rewrite (At_instruction _ _ _ Hat)];
    apply At_app in Hat as [Ho _]; destruct (At_jumpInstruction _ _ _ _ Ho) as [-> _]; cbn [mbind option_bind]; unfold unlessAfterEnd, tableOpcode, rangeOpcode.
  - rewrite Haf. by destruct (table_caseSensitive t).
  - rewrite Haf. by destruct (range_min r =? range_max r), (range_caseSensitive r).
Qed.

End Branch.
