(* ===== verification/DFASimulation.v ===== *)
(** * DFASimulation: running laid-out code follows the automaton *)

From stdpp Require Import gmap.
From S2P Require Import Prelude ASCIICType DFA DFABytecode DFABytecodeCompiler DFABytecodeInterpreter DFATransitions DFAEmit DFACompile DFARun.
Import DFABytecode DFABytecodeCompiler DFABytecodeInterpreter.

#[local] Ltac Zify.zify_post_hook ::= Z.div_mod_to_equations.

(** ** Where code branches to *)

Fixpoint branch (code : list Instr) (c : Z) : option Z :=
  match code with
  | [] => None
  | IAction _ :: code => branch code c
  | ITable t _ :: code => match tableTarget t c with Some d => Some d | None => branch code c end
  | IRange r _ :: code => if matchesb r c then Some (range_destination r) else branch code c
  | IJump d _ :: _ => if c =? 0 then None else Some d
  | ITerminate :: _ => None
  end.

Lemma branch_erase code c : branch (erase <$> code) c = branch code c.
Proof.
  induction code as [|i code IH]; [done|]. rewrite fmap_cons. destruct i; cbn [erase branch]; rewrite ?IH; done.
Qed.

Lemma branch_hits tables rs last c x :
  (forall d, hits tables rs c d -> d = x) -> x <> noDestination \/ (forall d, ~ hits tables rs c d) ->
  (x <> noDestination -> hits tables rs c x) ->
  branch (((fun t => ITable t Int32) <$> tables) ++ ((fun r => IRange r Int32) <$> rs) ++ last) c
  = if x =? noDestination then branch last c else Some x.
Proof.
  revert rs. induction tables as [|t tables IH]; intros rs Hs Hn Hx.
  - cbn [fmap list_fmap app]. induction rs as [|r rs IHr]; cbn [fmap list_fmap app branch].
    + destruct (Z.eqb_spec x noDestination); [done|]. destruct (Hx n) as [(? & ?%not_elem_of_nil & _)|(? & ?%not_elem_of_nil & _)]; done.
    + destruct (matchesb r c) eqn:E.
      * assert (range_destination r = x) as Er.
        { apply Hs. right. exists r. split; [left|]. by apply matchesb_spec in E. }
        destruct Hn as [Hn|Hn]; [by rewrite (proj2 (Z.eqb_neq _ _) Hn), Er|].
        exfalso. apply (Hn x). right. exists r. split; [left|]. by apply matchesb_spec in E.
      * apply IHr.
        -- intros d [(t & ?%not_elem_of_nil & _)|(r' & Hr' & H)]; [done|]. apply Hs. right. exists r'. split; [by right|done].
        -- destruct Hn as [Hn|Hn]; [by left|right]. intros d [(t & ?%not_elem_of_nil & _)|(r' & Hr' & H)]; [done|]. apply (Hn d). right. exists r'. split; [by right|done].
        -- intros Hne. destruct (Hx Hne) as [(t & ?%not_elem_of_nil & _)|(r' & Hr' & Hm & Hd)]; [done|]. right. exists r'.
           apply elem_of_cons in Hr' as [->|Hr']; [|done]. apply matchesb_spec in Hm. congruence.
  - rewrite fmap_cons. cbn [app branch]. destruct (tableTarget t c) as [d|] eqn:E.
    + assert (hits (t :: tables) rs c d) as Hh by (left; exists t; split; [left|done]).
      assert (d = x) as -> by auto. destruct Hn as [Hn|Hn]; [by rewrite (proj2 (Z.eqb_neq _ _) Hn)|]. by destruct (Hn x).
    + assert (forall d, hits tables rs c d <-> hits (t :: tables) rs c d) as Hh.
      { intros d. unfold hits. split.
        - intros [(t' & Ht' & H)|H]; [left; exists t'; split; [by right|done]|by right].
        - intros [(t' & Ht' & H)|H]; [|by right]. apply elem_of_cons in Ht' as [->|Ht']; [congruence|]. left. eauto. }
      apply IH.
      * intros d Hd. by apply Hs, Hh.
      * destruct Hn as [Hn|Hn]; [by left|right]. intros d Hd. by apply (Hn d), Hh.
      * intros Hne. by apply Hh, Hx.
Qed.

Lemma branch_transitions ts T c : okTransitions ts -> TransitionsOk ts T -> isChar c -> branch (transitionsCode T) c = stepOf ts (fallbackOf T) c.
Proof.
  intros Hts HT Hc. unfold transitionsCode. rewrite (branch_hits _ _ _ _ (filled ts (fallbackOf T) c)).
  - unfold filled, stepOf, fallbackOf. destruct (goes ts c) as [d|] eqn:E.
    + assert (d <> noDestination) as Hd.
      { destruct (goes_target ts c d E) as (r & Hr & _). destruct Hts as [Hok _]. rewrite Forall_forall in Hok. destruct (Hok _ Hr) as (_ & _ & H). cbn in H. lia. }
      case_bool_decide as Ef; cbn [andb]; [|by rewrite (proj2 (Z.eqb_neq _ _) Hd)].
      rewrite Z.eqb_refl. destruct (useFallbackTransition T); [|done]. injection Ef as ->. cbn [branch]. by destruct (c =? 0).
    + rewrite Z.eqb_refl. destruct (useFallbackTransition T) eqn:Eu; [|done]. cbn [branch]. destruct (Z.eqb_spec c 0); [done|].
      destruct (tok_fallback _ _ HT Eu) as [Hall _]. destruct (Hall c ltac:(unfold isChar in Hc; lia)). done.
  - intros d Hd. by apply (tok_hits _ _ HT c d Hc) in Hd as [<- _].
  - destruct (decide (filled ts (fallbackOf T) c = noDestination)) as [E|E]; [right|by left].
    intros d Hd. apply (tok_hits _ _ HT c d Hc) in Hd as [<- Hne]. done.
  - intros Hne. by apply (tok_hits _ _ HT c _ Hc).
Qed.

Lemma branch_actions acts code c : branch ((IAction <$> acts) ++ code) c = branch code c.
Proof. induction acts as [|a acts IH]; [done|]. rewrite fmap_cons. done. Qed.

(** ** Running *)

Section Run.

Context (B : list Z) (top : option Actions) (url : list Z) (flags : Z) (base : Z) (starts : list Z).
Hypothesis HB : Z.of_nat (length B) < 2 ^ 31.
Hypothesis Hlen : Z.of_nat (length url) + 2 < 2 ^ 32.
Hypothesis Hurl : Forall (fun c => 1 <= c <= 127) url.

Definition okInstr (loc : Z) (i : Instr) : Prop :=
  match i with
  | IAction a => okAction a
  | ITable t js => (exists f, okTable f t) /\ Forall (fun d => reachable base starts loc d js) (table_destinations t)
  | IRange r js => (exists f, okRange f r) /\ reachable base starts loc (range_destination r) js
  | IJump d js => reachable base starts loc d js
  | ITerminate => True
  end.

Fixpoint okCode (loc : Z) (code : list Instr) : Prop :=
  match code with [] => True | i :: code => okInstr loc i /\ okCode (loc + instrSize i) code end.

(** No actions, and a last instruction that ends or jumps. *)
Fixpoint closed (code : list Instr) : Prop :=
  match code with
  | [] => False
  | IAction _ :: _ => False
  | [IJump _ _] | [ITerminate] => True
  | (ITable _ _ | IRange _ _) :: code => closed code
  | _ => False
  end.

Lemma urlAt_zero i c : urlAt url i = Some c -> isChar c /\ (c = 0 <-> i = Z.of_nat (length url)) /\ 0 <= i <= Z.of_nat (length url).
Proof.
  unfold urlAt, isChar. destruct (Z.eqb_spec i (Z.of_nat (length url))); [intros [= <-]; lia|]. destruct (Z.ltb_spec i 0); [done|].
  intros E. rewrite Forall_lookup in Hurl. specialize (Hurl _ _ E). apply lookup_lt_Some in E. lia.
Qed.

Lemma edge_indexOk d s c : urlAt url (urlIndex s) = Some c -> indexOk url (edge base starts d c s) = true.
Proof.
  intros Hc. apply urlAt_zero in Hc as (_ & Hz & Hi). unfold indexOk, edge. cbn. destruct (Z.eqb_spec c 0); lia.
Qed.

Lemma skip_indexOk n s c : urlAt url (urlIndex s) = Some c -> indexOk url (skip n s) = true.
Proof. intros Hc. apply urlAt_zero in Hc as (_ & Hz & Hi). unfold indexOk, skip. cbn. lia. Qed.

Lemma run_branch code : forall loc s c,
  At B (programCounter s) (encodeAll (distanceTo starts) loc code) -> programCounter s = base + loc -> closed code -> okCode loc code ->
  urlIndexIsAfterEndOfString s = false -> urlAt url (urlIndex s) = Some c ->
  exists k, (k <= length code)%nat /\ forall fuel,
    runDFA B top url flags (k + fuel) s
    = match branch code c with Some d => runDFA B top url flags fuel (edge base starts d c s) | None => Some (actions s) end.
Proof.
  induction code as [|i code IH]; intros loc s c Hat Hpc Hcl Hok Haf Hc; [done|]. cbn [encodeAll] in Hat. apply At_app in Hat as [Hi Hrest].
  rewrite encode_length in Hrest. destruct Hok as [Hoi Hok]. pose proof (urlAt_zero _ _ Hc) as (Hch & _ & _).
  assert (forall n, (edge base starts n c (skip (instrSize i) s) = edge base starts n c s)) as Hedge by done.
  assert (closed code -> exists k, (k <= length code)%nat /\ forall fuel, runDFA B top url flags (k + fuel) (skip (instrSize i) s)
    = match branch code c with Some d => runDFA B top url flags fuel (edge base starts d c s) | None => Some (actions s) end) as Hnext.
  { intros Hcl'. apply (IH (loc + instrSize i) (skip (instrSize i) s) c); try done. cbn. lia. }
  destruct i as [a|t js|r js|d js|]; cbn [closed okInstr branch] in *; [done| | | |].
  - destruct Hoi as [[f Hf] Hre]. pose proof (dispatch_table B top url flags base starts HB Hlen f s loc t js c Hi Hf Hpc Haf Hc Hch Hre) as Hd.
    destruct (tableTarget t c) as [d|].
    + exists 1%nat. split; [cbn; lia|]. intros fuel. cbn [Nat.add runDFA]. rewrite Hd. cbn [mbind option_bind].
      by rewrite option_guard_True by (by apply edge_indexOk).
    + destruct (Hnext Hcl) as (k & Hk & Hrun). exists (S k). split; [cbn; lia|]. intros fuel. cbn [Nat.add runDFA]. rewrite Hd. cbn [mbind option_bind].
      rewrite option_guard_True by (by eapply skip_indexOk). cbn [mbind option_bind]. apply Hrun.
  - destruct Hoi as [[f Hf] Hre]. pose proof (dispatch_range B top url flags base starts HB Hlen f s loc r js c Hi Hf Hpc Haf Hc Hch Hre) as Hd.
    destruct (matchesb r c).
    + exists 1%nat. split; [cbn; lia|]. intros fuel. cbn [Nat.add runDFA]. rewrite Hd. cbn [mbind option_bind].
      by rewrite option_guard_True by (by apply edge_indexOk).
    + destruct (Hnext Hcl) as (k & Hk & Hrun). exists (S k). split; [cbn; lia|]. intros fuel. cbn [Nat.add runDFA]. rewrite Hd. cbn [mbind option_bind].
      rewrite option_guard_True by (by eapply skip_indexOk). cbn [mbind option_bind]. apply Hrun.
  - pose proof (dispatch_jump B top url flags base starts Hlen s loc d js c Hi Hpc Haf Hc Hoi) as Hd.
    exists 1%nat. split; [cbn; lia|]. intros fuel. cbn [Nat.add runDFA]. rewrite Hd. destruct (c =? 0); cbn [mbind option_bind]; [done|].
    by rewrite option_guard_True by (by apply edge_indexOk).
  - exists 1%nat. split; [cbn; lia|]. intros fuel. cbn [Nat.add runDFA]. by rewrite dispatch_terminate.
Qed.

Lemma run_after code loc s fuel :
  At B (programCounter s) (encodeAll (distanceTo starts) loc code) -> closed code ->
  (forall d js, IJump d js ∉ code) -> urlIndexIsAfterEndOfString s = true -> runDFA B top url flags (S fuel) s = Some (actions s).
Proof.
  intros Hat Hcl Hnj Haf. destruct code as [|i code]; [done|]. cbn [encodeAll] in Hat. apply At_app in Hat as [Hi _]. cbn [runDFA].
  rewrite (dispatch_after B top url flags starts s loc i Hi); [done| | |done]; [by intros a ->|]. intros d js ->. apply (Hnj d js). left.
Qed.

Lemma run_actions acts rest : forall loc s,
  At B (programCounter s) (encodeAll (distanceTo starts) loc ((IAction <$> acts) ++ rest)) -> Forall okAction acts -> indexOk url s = true ->
  forall fuel, runDFA B top url flags (length acts + fuel) s
  = runDFA B top url flags fuel (mkState (programCounter s + codeSize (IAction <$> acts)) (foldl (applyAction top flags) (actions s) acts)
                                    (urlIndex s) (urlIndexIsAfterEndOfString s)).
Proof.
  induction acts as [|a acts IH]; intros loc s Hat Hok Hi fuel; [cbn; rewrite Z.add_0_r; by destruct s|].
  rewrite fmap_cons in Hat. cbn [app encodeAll] in Hat. apply At_app in Hat as [Ha Hat]. rewrite encode_length in Hat. apply Forall_cons in Hok as [Hoa Hok].
  cbn [encode] in Ha. cbn [length Nat.add runDFA]. rewrite (dispatch_action B top url flags HB s a Ha Hoa). cbn [mbind option_bind].
  rewrite option_guard_True by done. cbn [mbind option_bind]. rewrite (IH (loc + instrSize (IAction a))); [|done|done|done].
  f_equal. cbn [foldl programCounter]. rewrite fmap_cons, codeSize_cons. cbn [instrSize]. f_equal. lia.
Qed.

End Run.

(** ** The automaton as a machine on URLs *)

Definition delta (dfa : DFA.DFA) (n c : Z) : option Z :=
  node ← at_ (DFA.nodes dfa) n; ts ← DFA.transitions node dfa; goes ts c.

Definition actionsOf (dfa : DFA.DFA) (n : Z) : list Z := default [] (node ← at_ (DFA.nodes dfa) n; DFA.actions node dfa).

(** Entering a node adds its actions; coming back to the root adds nothing. *)
Definition enter (dfa : DFA.DFA) (top : option Actions) (flags n : Z) (acc : Actions) : Actions :=
  if n =? DFA.root dfa then acc else foldl (applyAction top flags) acc (actionsOf dfa n).

(** From node [n] on the rest of the URL and its end. *)
Fixpoint collect (dfa : DFA.DFA) (top : option Actions) (flags n : Z) (url : list Z) (acc : Actions) : Actions :=
  match url with
  | [] => match delta dfa n 0 with Some m => enter dfa top flags m acc | None => acc end
  | c :: url => match delta dfa n c with Some m => collect dfa top flags m url (enter dfa top flags m acc) | None => acc end
  end.

(** The end of the URL: no node goes to its fallback target there, and a node
    entered there has no fallback. *)
Record endSafe (dfa : DFA.DFA) : Prop := {
  end_fallback : forall i node ts, at_ (DFA.nodes dfa) i = Some node -> DFA.isKilled node = false -> DFA.transitions node dfa = Some ts ->
    DFA.canUseFallbackTransition node dfa = Some true -> DFA.bestFallbackTarget node dfa <> goes ts 0;
  end_closed : forall i m node, alive dfa i -> delta dfa i 0 = Some m -> at_ (DFA.nodes dfa) m = Some node ->
    DFA.canUseFallbackTransition node dfa <> Some true }.

Lemma fallbackOf_target dfa node T d :
  transitions dfa node = Some T -> fallbackOf T = Some d -> DFA.canUseFallbackTransition node dfa = Some true /\ DFA.bestFallbackTarget node dfa = Some d.
Proof.
  intros HT. unfold transitions in HT. destruct (DFA.canUseFallbackTransition node dfa) as [b|]; [|done]. cbn [mbind option_bind] in HT.
  destruct b.
  - destruct (DFA.bestFallbackTarget node dfa) as [d'|]; [|done]. cbn [mbind option_bind fmap option_fmap option_map] in HT.
    destruct (DFA.transitions node dfa); [|done]. cbn [mbind option_bind] in HT. destruct (fillDestinations _ _ _); [|done]. cbn [mbind option_bind] in HT.
    destruct (collectRanges _); [|done]. cbn [mbind option_bind] in HT. destruct (extractTables _) as [[]|]; [|done]. injection HT as <-. done.
  - cbn [mbind option_bind] in HT. destruct (DFA.transitions node dfa); [|done]. cbn [mbind option_bind] in HT. destruct (fillDestinations _ _ _); [|done].
    cbn [mbind option_bind] in HT. destruct (collectRanges _); [|done]. cbn [mbind option_bind] in HT. destruct (extractTables _) as [[]|]; [|done].
    injection HT as <-. done.
Qed.

Lemma stepOf_delta dfa n acts ts T c : endSafe dfa -> Node dfa n acts ts T -> stepOf ts (fallbackOf T) c = delta dfa n c.
Proof.
  intros Hes HN. destruct (node_at _ _ _ _ _ HN) as (node & E & Ek & _ & Et & ET). unfold delta, stepOf. rewrite E. cbn [mbind option_bind]. rewrite Et.
  cbn [mbind option_bind]. destruct (goes ts c) as [d|] eqn:Eg; [|done]. case_bool_decide as Ef; [|done]. destruct (Z.eqb_spec c 0) as [->|]; [|done].
  destruct (fallbackOf_target dfa node T d ET Ef) as [H1 H2]. exfalso. apply (end_fallback _ Hes n node ts E Ek Et H1). congruence.
Qed.

Section Automaton.

Context (dfa : DFA.DFA) (code : list Instr) (starts : list Z) (B : list Z) (base : Z) (top : option Actions) (flags : Z).
Hypothesis Hok : okDFA dfa.
Hypothesis Hes : endSafe dfa.
Hypothesis HL : Layout dfa code starts.
Hypothesis HB : Z.of_nat (length B) < 2 ^ 31.
Hypothesis Hcode : At B (base + 4) (encodeAll (distanceTo starts) 4 code).
Hypothesis Hbase : 0 <= base.

Lemma At_code c1 c2 loc pc : At B pc (encodeAll (distanceTo starts) loc (c1 ++ c2)) ->
  At B pc (encodeAll (distanceTo starts) loc c1) /\ At B (pc + codeSize c1) (encodeAll (distanceTo starts) (loc + codeSize c1) c2).
Proof. rewrite encodeAll_app. intros H. apply At_app in H as [H1 H2]. by rewrite encodeAll_length in H2. Qed.

Lemma alive_start d : alive dfa d -> exists st, at_ starts d = Some st /\ 0 <= base + st < 2 ^ 31.
Proof.
  intros Ha. destruct (alive_Node dfa d Hok Ha) as (acts & ts & T & HN). destruct (layout_node _ _ _ HL d acts ts T HN) as (st & E & Hst & _).
  exists st. split; [done|]. pose proof (At_bound _ _ _ Hcode) as Hb. rewrite encodeAll_length in Hb. unfold m_bytecodeLength in Hb. lia.
Qed.

Lemma reachable_hole loc d js h :
  alive dfa d -> h ∈ holesAll 4 code -> hole_js h = js -> hole_location h = loc -> hole_destination h = d -> reachable base starts loc d js.
Proof.
  intros Ha Hh <- <- <-. split.
  - pose proof (layout_fits _ _ _ HL) as Hf. rewrite Forall_forall in Hf. by apply Hf.
  - destruct (alive_start _ Ha) as (st & -> & Hst). done.
Qed.

Lemma tableHoles_complete js loc ds d : forall jump, d ∈ ds ->
  exists h, h ∈ tableHoles js loc jump ds /\ hole_js h = js /\ hole_location h = loc /\ hole_destination h = d.
Proof.
  induction ds as [|d' ds IH]; intros jump Hd; [by apply not_elem_of_nil in Hd|]. apply elem_of_cons in Hd as [->|Hd]; cbn [tableHoles].
  - eexists. split; [left|done].
  - destruct (IH (jump + jumpBytesSize js) Hd) as (h & Hh & ?). exists h. split; [by right|done].
Qed.

Lemma okInstr_node i acts ts T loc j :
  Node dfa i acts ts T -> erase j ∈ nodeCode acts T -> (forall h, h ∈ holes loc j -> h ∈ holesAll 4 code) -> okInstr base starts loc j.
Proof.
  intros HN Hj Hh. pose proof (nodeCode_dests dfa i acts ts T (erase j)) as Hd. rewrite dests_erase in Hd.
  assert (forall d, d ∈ dests j -> alive dfa d) as Hal by (intros d; by apply Hd). clear Hd. pose proof (node_ok _ _ _ _ _ HN) as HT.
  unfold nodeCode, transitionsCode in Hj. rewrite !elem_of_app in Hj.
  destruct j as [a|t js|r js|d js|]; cbn [okInstr erase dests holes] in *.
  - assert (a ∈ acts) as Ha.
    { destruct Hj as [Hj|[Hj|[Hj|Hj]]].
      - apply list_elem_of_fmap in Hj as (a' & E & ?). by injection E as ->.
      - apply list_elem_of_fmap in Hj as (? & ? & ?). done.
      - apply list_elem_of_fmap in Hj as (? & ? & ?). done.
      - apply list_elem_of_singleton in Hj. by destruct (useFallbackTransition T). }
    pose proof (node_actions _ _ _ _ _ HN) as Hacts. rewrite Forall_forall in Hacts. auto.
  - split.
    + exists (filled ts (fallbackOf T)). assert (t ∈ jumpTables T) as Ht.
      { destruct Hj as [Hj|[Hj|[Hj|Hj]]]; try (apply list_elem_of_fmap in Hj as (? & E & ?); by inversion E; subst).
        apply list_elem_of_singleton in Hj. by destruct (useFallbackTransition T). }
      pose proof (tok_tables _ _ HT) as H. rewrite Forall_forall in H. auto.
    + apply Forall_forall. intros d Hd. destruct (tableHoles_complete js loc (table_destinations t) d (loc + 3) Hd) as (h & Hin & E1 & E2 & E3).
      eapply reachable_hole; eauto.
  - split.
    + exists (filled ts (fallbackOf T)). assert (r ∈ ranges T) as Ht.
      { destruct Hj as [Hj|[Hj|[Hj|Hj]]]; try (apply list_elem_of_fmap in Hj as (? & E & ?); by inversion E; subst).
        apply list_elem_of_singleton in Hj. by destruct (useFallbackTransition T). }
      pose proof (tok_ranges _ _ HT) as H. rewrite Forall_forall in H. auto.
    + eapply reachable_hole; [apply Hal; left|apply Hh; left|done..].
  - eapply reachable_hole; [apply Hal; left|apply Hh; left|done..].
  - done.
Qed.

Lemma okCode_node i acts ts T nc : Node dfa i acts ts T -> forall loc,
  Forall (fun j => erase j ∈ nodeCode acts T) nc -> (forall h, h ∈ holesAll loc nc -> h ∈ holesAll 4 code) -> okCode base starts loc nc.
Proof.
  intros HN. induction nc as [|j nc IH]; intros loc Hin Hh; [done|]. apply Forall_cons in Hin as [Hj Hin]. cbn [okCode holesAll] in *. split.
  - eapply okInstr_node; [done..|]. intros h H. apply Hh, elem_of_app. by left.
  - apply IH; [done|]. intros h H. apply Hh, elem_of_app. by right.
Qed.

Lemma closed_transitions T nc : erase <$> nc = transitionsCode T -> closed nc.
Proof.
  unfold transitionsCode. generalize (jumpTables T). intros tables. revert nc. induction tables as [|t tables IH]; intros nc E.
  - cbn [fmap list_fmap app] in E. revert nc E. induction (ranges T) as [|r rs IHr]; intros nc E.
    + cbn in E. destruct nc as [|j [|]]; [done| |done]. injection E as E. destruct j, (useFallbackTransition T); done.
    + destruct nc as [|j nc]; [done|]. rewrite !fmap_cons in E. cbn [app] in E. injection E as Ej E. destruct j; try done. cbn [closed]. by apply IHr.
  - destruct nc as [|j nc]; [done|]. rewrite !fmap_cons in E. cbn [app] in E. injection E as Ej E. destruct j; try done. cbn [closed]. by apply IH.
Qed.

(** The transitions of node [i] are at [loc]. *)
Record TransitionsAt (i loc : Z) (T : Transitions) (nc : list Instr) : Prop := {
  ta_code : At B (base + loc) (encodeAll (distanceTo starts) loc nc);
  ta_ok : okCode base starts loc nc;
  ta_erase : erase <$> nc = transitionsCode T }.

Lemma placed_at i acts ts T st : Node dfa i acts ts T -> Placed dfa code i st acts T ->
  exists nc, TransitionsAt i (st + (if i =? DFA.root dfa then 0 else codeSize (IAction <$> acts))) T nc
    /\ (i <> DFA.root dfa -> At B (base + st) (encodeAll (distanceTo starts) st ((IAction <$> acts) ++ nc)))
    /\ (length acts + length nc <= length B)%nat.
Proof.
  intros HN (c1 & nc & c2 & E & En & ->). unfold nodeCode in En. destruct (actions_prefix nc acts (transitionsCode T) En) as (nc' & -> & En').
  pose proof Hcode as Hat. rewrite E in Hat. apply At_code in Hat as [_ Hat]. rewrite <- app_assoc in Hat.
  pose proof (At_bound _ _ _ Hat) as Hbound. rewrite encodeAll_length, !codeSize_app in Hbound. unfold m_bytecodeLength in Hbound.
  pose proof (codeSize_nonneg c1). pose proof (codeSize_nonneg c2). pose proof (length_codeSize nc') as L1. pose proof (length_codeSize (IAction <$> acts)) as L2.
  rewrite length_fmap in L2. exists nc'. rewrite app_assoc in Hat. apply At_code in Hat as [Hat _].
  assert (4 + codeSize c1 + startShift dfa i acts + (if i =? DFA.root dfa then 0 else codeSize (IAction <$> acts)) = 4 + codeSize c1 + codeSize (IAction <$> acts)) as Eloc.
  { unfold startShift. step_if; lia. }
  rewrite Eloc. split; [|split].
  - pose proof (At_code _ _ _ _ Hat) as [_ Hat2]. constructor; [|  |done].
    + by replace (base + (4 + codeSize c1 + codeSize (IAction <$> acts))) with (base + 4 + codeSize c1 + codeSize (IAction <$> acts)) by lia.
    + eapply okCode_node; [exact HN| |].
      * rewrite Forall_forall. intros j Hj. unfold nodeCode. apply elem_of_app. right. rewrite <- En'. by apply list_elem_of_fmap_2.
      * intros h Hh. rewrite E, !holesAll_app. rewrite !elem_of_app. right. left. by right.
  - intros Hne. unfold startShift. rewrite (proj2 (Z.eqb_neq _ _) Hne), Z.add_0_r. by replace (base + (4 + codeSize c1)) with (base + 4 + codeSize c1) by lia.
  - lia.
Qed.

Context (url : list Z).
Hypothesis Hlen : Z.of_nat (length url) + 2 < 2 ^ 32.
Hypothesis Hurl : Forall (fun c => 1 <= c <= 127) url.

Lemma run_enter m acc idx after : alive dfa m -> indexOk url (mkState 0 acc idx after) = true ->
  exists acts ts T loc nc k, Node dfa m acts ts T /\ TransitionsAt m loc T nc /\ (k + length nc <= length B)%nat
    /\ forall fuel, runDFA B top url flags (k + fuel) (mkState (base + default 0 (at_ starts m)) acc idx after)
         = runDFA B top url flags fuel (mkState (base + loc) (enter dfa top flags m acc) idx after).
Proof.
  intros Ha Hidx. destruct (alive_Node dfa m Hok Ha) as (acts & ts & T & HN). destruct (layout_node _ _ _ HL m acts ts T HN) as (st & E & _ & Hp).
  destruct (placed_at m acts ts T st HN Hp) as (nc & Hta & Hact & Hle). exists acts, ts, T. rewrite E. cbn [default].
  assert (actionsOf dfa m = acts) as Eacts.
  { destruct (node_at _ _ _ _ _ HN) as (node & En & _ & Ea & _). unfold actionsOf. rewrite En. cbn [mbind option_bind]. by rewrite Ea. }
  unfold enter. rewrite Eacts. destruct (Z.eqb_spec m (DFA.root dfa)) as [Em|Em].
  - exists (st + 0), nc, 0%nat. split; [done|]. split; [done|]. split; [lia|]. intros fuel. by rewrite Z.add_0_r.
  - exists (st + codeSize (IAction <$> acts)), nc, (length acts). split; [done|]. split; [done|]. split; [done|]. intros fuel.
    rewrite (run_actions B top url flags starts HB acts nc st); [|by apply Hact|apply (node_actions _ _ _ _ _ HN)|done].
    cbn [programCounter actions urlIndex urlIndexIsAfterEndOfString]. by rewrite Z.add_assoc.
Qed.

Lemma delta_alive n c m : alive dfa n -> delta dfa n c = Some m -> alive dfa m.
Proof.
  intros Ha Hd. destruct (alive_Node dfa n Hok Ha) as (acts & ts & T & HN). destruct (node_at _ _ _ _ _ HN) as (node & E & _ & _ & Et & _).
  unfold delta in Hd. rewrite E in Hd. cbn [mbind option_bind] in Hd. rewrite Et in Hd. cbn [mbind option_bind] in Hd.
  destruct (goes_target ts c m Hd) as (r & Hr & _). by eapply (node_targets _ _ _ _ _ HN).
Qed.

(** A node entered at the end of the URL has no jump. *)
Lemma end_no_jump n m acts ts T nc : alive dfa n -> delta dfa n 0 = Some m -> Node dfa m acts ts T -> erase <$> nc = transitionsCode T ->
  forall d js, IJump d js ∉ nc.
Proof.
  intros Ha Hd HN He d js Hin. destruct (node_at _ _ _ _ _ HN) as (node & E & _ & _ & _ & ET).
  apply (list_elem_of_fmap_2 erase) in Hin. rewrite He in Hin. unfold transitionsCode in Hin. rewrite !elem_of_app in Hin.
  destruct Hin as [Hin|[Hin|Hin]]; try (apply list_elem_of_fmap in Hin as (? & ? & ?); done).
  apply list_elem_of_singleton in Hin. destruct (useFallbackTransition T) eqn:Eu; [|done].
  destruct (fallbackOf_target dfa node T (fallbackTransitionTarget T) ET) as [Hc _]; [unfold fallbackOf; by rewrite Eu|].
  by apply (end_closed _ Hes n m node).
Qed.

(** From the transitions of a node, the run collects what the automaton
    does. *)
Lemma run_collect rest : forall n acts ts T loc nc idx acc fuel,
  Node dfa n acts ts T -> TransitionsAt n loc T nc -> 0 <= idx -> drop (Z.to_nat idx) url = rest -> idx + Z.of_nat (length rest) = Z.of_nat (length url) ->
  (length nc + (length rest + 1) * S (length B) <= fuel)%nat ->
  runDFA B top url flags fuel (mkState (base + loc) acc idx false) = Some (collect dfa top flags n rest acc).
Proof.
  induction rest as [|c rest IH]; intros n acts ts T loc nc idx acc fuel HN [Hat Hokc He] Hidx Hdrop Hl Hfuel.
  - assert (urlAt url idx = Some 0) as Hc by (unfold urlAt; rewrite (proj2 (Z.eqb_eq _ _)) by (cbn in Hl; lia); done).
    destruct (run_branch B top url flags base starts HB Hlen Hurl nc loc (mkState (base + loc) acc idx false) 0 Hat eq_refl
                (closed_transitions T nc He) Hokc eq_refl Hc) as (k & Hk & Hrun).
    replace fuel with (k + (fuel - k))%nat by lia. rewrite Hrun. rewrite <- branch_erase, He, (branch_transitions ts T 0), (stepOf_delta dfa n acts ts T 0)
      by (done || apply (node_ok _ _ _ _ _ HN) || apply (node_transitions _ _ _ _ _ HN) || (unfold isChar; lia)).
    cbn [collect]. destruct (delta dfa n 0) as [m|] eqn:Ed; [|done].
    pose proof (delta_alive n 0 m (Node_alive _ _ _ _ _ HN) Ed) as Hm. unfold edge. cbn [actions urlIndex urlIndexIsAfterEndOfString Z.eqb].
    destruct (run_enter m acc (idx + 1) true Hm) as (acts' & ts' & T' & loc' & nc' & k' & HN' & [Hat' _ He'] & Hk' & Hrun').
    { unfold indexOk. cbn in Hl |- *. lia. }
    replace (fuel - k)%nat with (k' + (fuel - k - k'))%nat by (cbn [length] in Hfuel; lia). rewrite Hrun'.
    replace (fuel - k - k')%nat with (S (fuel - k - k' - 1))%nat by (cbn [length] in Hfuel; lia).
    apply (run_after B top url flags starts nc' loc'); [done|by eapply closed_transitions| |done].
    eapply end_no_jump; [exact (Node_alive _ _ _ _ _ HN)|done..].
  - assert (urlAt url idx = Some c) as Hc.
    { unfold urlAt. cbn [length] in Hl. rewrite (proj2 (Z.eqb_neq _ _)), (proj2 (Z.ltb_ge _ _)) by lia. rewrite <- (Nat.add_0_r (Z.to_nat idx)), <- lookup_drop, Hdrop. done. }
    assert (1 <= c <= 127) as Hcr.
    { rewrite Forall_lookup in Hurl. apply (Hurl (Z.to_nat idx)). rewrite <- (Nat.add_0_r (Z.to_nat idx)), <- lookup_drop, Hdrop. done. }
    destruct (run_branch B top url flags base starts HB Hlen Hurl nc loc (mkState (base + loc) acc idx false) c Hat eq_refl
                (closed_transitions T nc He) Hokc eq_refl Hc) as (k & Hk & Hrun).
    cbn [length] in Hfuel. replace fuel with (k + (fuel - k))%nat by lia. rewrite Hrun.
    rewrite <- branch_erase, He, (branch_transitions ts T c), (stepOf_delta dfa n acts ts T c)
      by (done || apply (node_ok _ _ _ _ _ HN) || apply (node_transitions _ _ _ _ _ HN) || (unfold isChar; lia)).
    cbn [collect]. destruct (delta dfa n c) as [m|] eqn:Ed; [|done].
    pose proof (delta_alive n c m (Node_alive _ _ _ _ _ HN) Ed) as Hm. unfold edge. cbn [actions urlIndex urlIndexIsAfterEndOfString].
    rewrite (proj2 (Z.eqb_neq c 0)) by lia. cbn [length] in Hl.
    destruct (run_enter m acc (idx + 1) false Hm) as (acts' & ts' & T' & loc' & nc' & k' & HN' & Hta' & Hk' & Hrun').
    { unfold indexOk. cbn [urlIndex urlIndexIsAfterEndOfString]. lia. }
    replace (fuel - k)%nat with (k' + (fuel - k - k'))%nat by lia. rewrite Hrun'.
    apply (IH m acts' ts' T' loc' nc'); try done; try lia.
    replace (Z.to_nat (idx + 1)) with (Z.to_nat idx + 1)%nat by lia. rewrite <- drop_drop, Hdrop. done.
Qed.

End Automaton.
