(* ===== verification/DFAProperties.v ===== *)
(** * DFAProperties: compiled content blockers do what their automata say *)

From stdpp Require Import gmap.
From S2P Require Import Prelude ASCIICType DFA DFABytecode DFABytecodeCompiler DFABytecodeInterpreter DFATransitions DFAEmit DFACompile DFARun DFASimulation.
Import DFABytecode DFABytecodeCompiler DFABytecodeInterpreter.

#[local] Ltac Zify.zify_post_hook ::= Z.div_mod_to_equations.

(** ** The actions of the first root *)

(** The root's actions with flags are tested when interpretation starts. *)
Definition rootActions (dfa : DFA.DFA) (top : option Actions) (flags : Z) (acc : Actions) : Actions :=
  foldl (fun acc a => if hasFlags a then applyAction top flags acc a else acc) acc (actionsOf dfa (DFA.root dfa)).

Lemma codeSize_actions_cons a acts : codeSize (IAction <$> (a :: acts)) = appendActionBytecodeSize a + codeSize (IAction <$> acts).
Proof. done. Qed.

(** The first instruction of closed code. *)
Lemma closed_instruction B f loc pc nc : At B pc (encodeAll f loc nc) -> closed nc -> exists i, getInstruction B pc = Some i /\ isAction i = false.
Proof.
  intros Hat Hcl. destruct nc as [|j nc]; [done|]. cbn [encodeAll] in Hat. apply At_app in Hat as [Hat _].
  destruct j as [a|t js|r js|d js|]; cbn [encode] in Hat; [done| | | |exists Terminate; split; [by apply At_instruction|done]];
    apply At_app in Hat as [Hat _]; apply At_jumpInstruction in Hat as [-> _]; eexists; (split; [done|]).
  - unfold tableOpcode. by destruct (table_caseSensitive t).
  - unfold rangeOpcode. by destruct (range_min r =? range_max r), (range_caseSensitive r).
  - done.
Qed.

Lemma skipRootActions_spec B top flags f n nc acts : forall loc pc acc fuel,
  Z.of_nat (length B) < 2 ^ 31 -> At B pc (encodeAll f loc ((IAction <$> acts) ++ nc)) -> closed nc -> Forall okAction acts ->
  (length acts < fuel)%nat -> pc + codeSize (IAction <$> acts) < n ->
  skipRootActions B top flags fuel n pc acc
  = Some (pc + codeSize (IAction <$> acts), foldl (fun acc a => if hasFlags a then applyAction top flags acc a else acc) acc acts).
Proof.
  induction acts as [|a acts IH]; intros loc pc acc [|fuel] HB Hat Hcl Hok Hf Hn; try (cbn in Hf; lia); cbn [skipRootActions].
  - cbn [fmap list_fmap app] in Hat. change (codeSize (IAction <$> [])) with 0 in *. rewrite (proj2 (Z.ltb_lt _ _)) by lia.
    destruct (closed_instruction B f loc pc nc Hat Hcl) as (i & -> & Hi). cbn [mbind option_bind]. rewrite Z.add_0_r. by destruct i.
  - rewrite codeSize_actions_cons in *. rewrite fmap_cons in Hat. cbn [app encodeAll] in Hat. apply At_app in Hat as [Ha Hat]. rewrite encode_length in Hat.
    apply Forall_cons in Hok as [Hoa Hok]. pose proof (codeSize_nonneg (IAction <$> acts)). cbn [encode instrSize] in Ha, Hat.
    assert (0 < appendActionBytecodeSize a) as Hpos by (unfold appendActionBytecodeSize, sizeof_instruction; step_if; lia).
    rewrite (proj2 (Z.ltb_lt _ _)) by lia. rewrite Z.add_assoc. cbn [foldl]. pose proof (At_bound _ _ _ Ha) as Hb. unfold m_bytecodeLength in Hb.
    pose proof (encode_length (fun _ => 0) (IAction a)) as Hlen. cbn [encode instrSize] in Hlen.
    destruct (hasFlags a) eqn:Ef.
    + destruct (testFlags_at B top flags HB pc a acc Ha Hoa Ef) as [-> E]. cbn [mbind option_bind].
      destruct (hasIfCondition a); rewrite E; cbn [mbind option_bind]; (eapply IH; [done|exact Hat|done|done|cbn in Hf; lia|lia]).
    + destruct (appendAction_at B top HB pc a acc Ha Hoa Ef) as [-> _]. cbn [mbind option_bind].
      assert (appendActionBytecodeSize a = sizeof_instruction + 4) as Es by (unfold appendActionBytecodeSize; by rewrite Ef).
      destruct (hasIfCondition a); cbn [instructionSizeWithArguments mbind option_bind]; rewrite <- Es, u32_id by lia;
        (eapply IH; [done|exact Hat|done|done|cbn in Hf; lia|lia]).
Qed.

(** ** One automaton of the bytecode *)

(** [B] holds the code of [dfa] at [base]. *)
Record Holds (dfa : DFA.DFA) (B : list Z) (base : Z) (code : list Instr) (starts : list Z) : Prop := {
  holds_ok : okDFA dfa;
  holds_safe : endSafe dfa;
  holds_layout : Layout dfa code starts;
  holds_bytes : At B base (bytesLE 4 (4 + codeSize code) ++ encodeAll (distanceTo starts) 4 code) }.

Section Interpret.

Context (B : list Z) (top : option Actions) (url : list Z) (flags : Z).
Hypothesis HB : Z.of_nat (length B) < 2 ^ 31.
Hypothesis Hlen : Z.of_nat (length url) + 2 < 2 ^ 32.
Hypothesis Hurl : Forall (fun c => 1 <= c <= 127) url.

Lemma Holds_code dfa base code starts : Holds dfa B base code starts -> 0 <= base /\ At B (base + 4) (encodeAll (distanceTo starts) 4 code).
Proof. intros [_ _ _ H]. pose proof (At_bound _ _ _ H). apply At_app in H as [_ H]. rewrite bytesLE_length in H. split; [lia|done]. Qed.

Lemma Holds_header dfa base code starts : Holds dfa B base code starts -> getBits B 4 base = Some (4 + codeSize code).
Proof.
  intros [_ _ HL H]. apply At_app in H as [H _]. rewrite (At_bits B 4 _ _ H). f_equal. change (2 ^ (8 * Z.of_nat 4)) with (2 ^ 32).
  pose proof (layout_size _ _ _ HL). pose proof (codeSize_nonneg code). apply Z.mod_small. lia.
Qed.

(** The root of an automaton and what follows its actions. *)
Lemma Holds_root dfa base code starts : Holds dfa B base code starts ->
  exists acts ts T nc, Node dfa (DFA.root dfa) acts ts T /\ actionsOf dfa (DFA.root dfa) = acts
    /\ At B (base + 4) (encodeAll (distanceTo starts) 4 ((IAction <$> acts) ++ nc))
    /\ TransitionsAt starts B base (DFA.root dfa) (4 + codeSize (IAction <$> acts)) T nc /\ (length acts + length nc <= length B)%nat
    /\ codeSize (IAction <$> acts) < codeSize code.
Proof.
  intros HH. pose proof (Holds_code _ _ _ _ HH) as [Hb Hc]. destruct HH as [Hok Hes HL _].
  destruct (alive_Node dfa _ Hok (ok_root _ Hok)) as (acts & ts & T & HN). exists acts, ts, T.
  destruct (layout_root _ _ _ HL acts ts T HN) as (nc & rest & E & En & Est). unfold nodeCode in En.
  destruct (actions_prefix nc acts _ En) as (nc' & -> & En').
  destruct (layout_node _ _ _ HL _ acts ts T HN) as (st & Est' & _ & Hp). rewrite Est in Est'. injection Est' as <-.
  assert (Placed dfa code (DFA.root dfa) (4 + codeSize (IAction <$> acts)) acts T) as Hp'.
  { exists [], ((IAction <$> acts) ++ nc'), rest. split; [done|]. split; [done|]. unfold startShift. rewrite Z.eqb_refl. cbn. lia. }
  pose proof Hc as Hc0. rewrite E in Hc. rewrite encodeAll_app in Hc. apply At_app in Hc as [Hc _]. exists nc'.
  split; [done|]. split.
  { destruct (node_at _ _ _ _ _ HN) as (node & En2 & _ & Ea & _). unfold actionsOf. rewrite En2. cbn [mbind option_bind]. by rewrite Ea. }
  split; [done|]. pose proof (At_bound _ _ _ Hc) as Hbd. rewrite encodeAll_length, codeSize_app in Hbd. unfold m_bytecodeLength in Hbd.
  pose proof (length_codeSize nc') as L1. pose proof (length_codeSize (IAction <$> acts)) as L2. rewrite length_fmap in L2.
  assert (0 < codeSize nc') as Hpos.
  { pose proof (closed_transitions T nc' En') as Hcl. destruct nc' as [|j nc']; [done|]. rewrite codeSize_cons. pose proof (instrSize_pos j). pose proof (codeSize_nonneg nc'). lia. }
  split; [|split; [lia|]].
  - constructor; [| |done].
    + rewrite encodeAll_app in Hc. apply At_app in Hc as [_ Hc]. rewrite encodeAll_length in Hc. by rewrite Z.add_assoc.
    + apply (okCode_node dfa code starts B base) with (i := DFA.root dfa) (acts := acts) (ts := ts) (T := T); try done.
      * rewrite Forall_forall. intros j Hj. unfold nodeCode. apply elem_of_app. right. rewrite <- En'. by apply list_elem_of_fmap_2.
      * intros h Hh. rewrite E, !holesAll_app. rewrite !elem_of_app. left. by right.
  - rewrite E, !codeSize_app. pose proof (codeSize_nonneg rest). lia.
Qed.
Lemma runRoot dfa base code starts acts ts T nc acc :
  Holds dfa B base code starts -> Node dfa (DFA.root dfa) acts ts T ->
  TransitionsAt starts B base (DFA.root dfa) (4 + codeSize (IAction <$> acts)) T nc -> (length acts + length nc <= length B)%nat ->
  runDFA B top url flags (runFuel B url) (mkState (base + (4 + codeSize (IAction <$> acts))) acc 0 false)
  = Some (collect dfa top flags (DFA.root dfa) url acc).
Proof.
  intros HH HN Hta Hle. pose proof (Holds_code _ _ _ _ HH) as [Hb Hc].
  eapply (run_collect dfa code starts B base top flags (holds_ok _ _ _ _ _ HH) (holds_safe _ _ _ _ _ HH) (holds_layout _ _ _ _ _ HH) HB Hc);
    try done. unfold runFuel. lia.
Qed.

Lemma interpretDFA_first dfa code starts acc : Holds dfa B 0 code starts ->
  interpretDFA B top url flags 0 (4 + codeSize code) acc = Some (inl (collect dfa top flags (DFA.root dfa) url (rootActions dfa top flags acc))).
Proof.
  intros HH. destruct (Holds_root _ _ _ _ HH) as (acts & ts & T & nc & HN & Ea & Hat & Hta & Hle & Hlt). unfold interpretDFA.
  pose proof (closed_transitions T nc (ta_erase _ _ _ _ _ _ _ Hta)) as Hcl. change (0 =? 0) with true. cbn iota. change (u32 (0 + 4)) with 4.
  rewrite (skipRootActions_spec B top flags (distanceTo starts) (4 + codeSize code) nc acts 4 4);
    [|done|exact Hat|done|apply (node_actions _ _ _ _ _ HN)|lia|lia].
  cbn [mbind option_bind]. pose proof (At_bound _ _ _ (ta_code _ _ _ _ _ _ _ Hta)) as Hbd. rewrite encodeAll_length in Hbd.
  assert (0 < codeSize nc) as Hpos by (destruct nc as [|j nc]; [done|]; rewrite codeSize_cons; pose proof (instrSize_pos j); pose proof (codeSize_nonneg nc); lia).
  rewrite (proj2 (Z.leb_gt _ _)) by lia. pose proof (runRoot dfa 0 code starts acts ts T nc (rootActions dfa top flags acc) HH HN Hta Hle) as Hr.
  rewrite Z.add_0_l in Hr. unfold rootActions in *. rewrite Ea in *. by rewrite Hr.
Qed.

Lemma interpretDFA_next dfa base code starts acc : Holds dfa B base code starts -> 0 < base -> actionsOf dfa (DFA.root dfa) = [] ->
  interpretDFA B top url flags base (4 + codeSize code) acc = Some (inl (collect dfa top flags (DFA.root dfa) url acc)).
Proof.
  intros HH Hpos Hno. destruct (Holds_root _ _ _ _ HH) as (acts & ts & T & nc & HN & Ea & Hat & Hta & Hle & Hlt). rewrite Ea in Hno. subst acts.
  unfold interpretDFA. rewrite (proj2 (Z.eqb_neq base 0)) by lia. pose proof (closed_transitions T nc (ta_erase _ _ _ _ _ _ _ Hta)) as Hcl.
  pose proof (At_bound _ _ _ Hat) as Hbd. unfold m_bytecodeLength in Hbd. rewrite u32_id by lia. cbn [fmap list_fmap app] in Hat.
  destruct (closed_instruction _ _ _ _ _ Hat Hcl) as (i & -> & Hi). cbn [mbind option_bind]. rewrite option_guard_True by done. cbn [mbind option_bind].
  pose proof (runRoot dfa base code starts _ ts T nc acc HH HN Hta Hle) as Hr. change (codeSize (IAction <$> [])) with 0 in Hr.
  rewrite Z.add_0_r in Hr. by rewrite Hr.
Qed.

Definition collectRest (dfas : list DFA.DFA) (acc : Actions) : Actions :=
  foldl (fun acc dfa => collect dfa top flags (DFA.root dfa) url acc) acc dfas.

(** The automata that follow the first. *)
Lemma interpretLoop_rest dfas : forall base acc fuel bs,
  Forall2 (fun dfa b => exists code starts, b = bytesLE 4 (4 + codeSize code) ++ encodeAll (distanceTo starts) 4 code
             /\ okDFA dfa /\ endSafe dfa /\ Layout dfa code starts /\ actionsOf dfa (DFA.root dfa) = []) dfas bs ->
  (exists pre, B = pre ++ concat bs /\ base = Z.of_nat (length pre)) -> 0 < base -> (length dfas < fuel)%nat ->
  interpretLoop B top url flags fuel base acc = Some (collectRest dfas acc).
Proof.
  induction dfas as [|dfa dfas IH]; intros base acc [|fuel] bs Hbs (pre & EB & Eb) Hpos Hf; try (cbn in Hf; lia); cbn [interpretLoop].
  - inversion Hbs; subst bs. cbn [concat] in EB. rewrite app_nil_r in EB. subst. unfold m_bytecodeLength. by rewrite Z.ltb_irrefl.
  - inversion Hbs as [|? b ? bs' (code & starts & -> & H1 & H2 & H3 & H4) Hbs']; subst bs. cbn [concat] in EB.
    assert (Holds dfa B base code starts) as HH by (constructor; [done..|]; exists pre, (concat bs'); done).
    pose proof (At_bound _ _ _ (holds_bytes _ _ _ _ _ HH)) as Hbd. rewrite length_app, bytesLE_length, Nat2Z.inj_add, encodeAll_length in Hbd.
    pose proof (codeSize_nonneg code). rewrite (proj2 (Z.ltb_lt _ _)) by lia. rewrite (Holds_header _ _ _ _ HH). cbn [mbind option_bind].
    rewrite (interpretDFA_next _ _ _ _ _ HH Hpos H4). cbn [mbind option_bind]. rewrite option_guard_True by lia. cbn [mbind option_bind].
    unfold m_bytecodeLength in Hbd. rewrite u32_id by lia. cbn [collectRest foldl]. apply (IH _ _ fuel bs' Hbs'); [|lia|cbn in Hf; lia].
    exists (pre ++ bytesLE 4 (4 + codeSize code) ++ encodeAll (distanceTo starts) 4 code). rewrite EB, <- !app_assoc. split; [done|].
    rewrite !length_app, bytesLE_length, !Nat2Z.inj_add, encodeAll_length. lia.
Qed.

End Interpret.

(** ** All automata *)

Definition matched (top : option Actions) (url : list Z) (flags : Z) (dfas : list DFA.DFA) : Actions :=
  match dfas with
  | [] => ∅
  | dfa :: dfas => collectRest top url flags dfas (collect dfa top flags (DFA.root dfa) url (rootActions dfa top flags ∅))
  end.

(** The worst-case size of the bytecode. *)
Definition totalMax (dfas : list DFA.DFA) : Z := foldr (fun dfa n => 4 + sumMax dfa (compileOrder dfa) + n) 0 dfas.

(** Automata as the content-extension compiler makes them: only the first
    has actions on its root. *)
Record okMachine (dfas : list DFA.DFA) : Prop := {
  machine_ok : Forall okDFA dfas;
  machine_safe : Forall endSafe dfas;
  machine_roots : Forall (fun dfa => actionsOf dfa (DFA.root dfa) = []) (tail dfas);
  machine_size : totalMax dfas < 2 ^ 31 }.

Lemma compile_all dfas : Forall okDFA dfas ->
  exists bs, mapM (fun dfa => compile dfa []) dfas = Some bs
    /\ Forall2 (fun dfa b => exists code starts, b = bytesLE 4 (4 + codeSize code) ++ encodeAll (distanceTo starts) 4 code /\ Layout dfa code starts) dfas bs
    /\ Z.of_nat (length (concat bs)) <= totalMax dfas /\ (length dfas <= length (concat bs))%nat.
Proof.
  induction dfas as [|dfa dfas IH]; intros H; [by exists []|]. apply Forall_cons in H as [Hd H]. destruct (IH H) as (bs & E & Hbs & Hl & Hn).
  destruct (compile_layout dfa Hd) as (code & starts & Ec & HL). eexists (_ :: bs). cbn [mapM]. rewrite Ec. cbn [mbind option_bind]. rewrite E.
  split; [done|]. split; [constructor; [by eauto|done]|]. cbn [concat totalMax foldr length]. fold (totalMax dfas).
  pose proof (layout_max _ _ _ HL). pose proof (encodeAll_length (distanceTo starts) 4 code) as He.
  rewrite !length_app, bytesLE_length. lia.
Qed.

Lemma interpret_machine dfas top url flags :
  okMachine dfas -> Z.of_nat (length url) + 2 < 2 ^ 32 -> Forall (fun c => 1 <= c <= 127) url ->
  exists bs, mapM (fun dfa => compile dfa []) dfas = Some bs /\ interpretWith (concat bs) top url flags = Some (matched top url flags dfas).
Proof.
  intros [H1 H2 H3 H4] Hlen Hurl. destruct (compile_all dfas H1) as (bs & E & Hbs & Hl & Hn). exists bs. split; [done|]. unfold interpretWith.
  set (B := concat bs) in *. assert (Z.of_nat (length B) < 2 ^ 31) as HB by lia.
  destruct dfas as [|dfa dfas]; [by inversion Hbs; subst|].
  inversion Hbs as [|? b ? bs' (code & starts & Eb & HL) Hbs']; subst bs. apply Forall_cons in H1 as [Hd H1]. apply Forall_cons in H2 as [He H2]. cbn [tail] in H3.
  assert (Holds dfa B 0 code starts) as HH by (constructor; [done..|]; exists [], (concat bs'); unfold B; rewrite <- Eb; done).
  pose proof (At_bound _ _ _ (holds_bytes _ _ _ _ _ HH)) as Hbd. rewrite length_app, bytesLE_length, Nat2Z.inj_add, encodeAll_length in Hbd.
  pose proof (codeSize_nonneg code). cbn [interpretLoop]. rewrite (proj2 (Z.ltb_lt _ _)) by lia. rewrite (Holds_header B url dfa 0 code starts HH). cbn [mbind option_bind].
  rewrite (interpretDFA_first B top url flags HB Hlen Hurl dfa code starts ∅ HH). cbn [mbind option_bind]. rewrite option_guard_True by lia. cbn [mbind option_bind].
  unfold m_bytecodeLength in Hbd. rewrite Z.add_0_l, u32_id by lia. cbn [matched].
  apply (interpretLoop_rest B top url flags HB Hlen Hurl dfas _ _ (length B) bs'); [| |lia|cbn [length] in Hn; lia].
  - clear -Hbs' H1 H2 H3. revert H1 H2 H3. induction Hbs' as [|d' b' ds' bs'' (c & st & Eb' & HL') Hbs' IH]; intros H1 H2 H3; [constructor|].
    apply Forall_cons in H1 as [? ?], H2 as [? ?], H3 as [? ?]. constructor; [|by apply IH]. exists c, st. done.
  - exists b. unfold B. split; [done|]. rewrite Eb, length_app, bytesLE_length, Nat2Z.inj_add, encodeAll_length. done.
Qed.

(** ** What the automata say *)

(** The node an automaton is in after reading [w] from node [n]. *)
Fixpoint walk (dfa : DFA.DFA) (n : Z) (w : list Z) : option Z :=
  match w with [] => Some n | c :: w => m ← delta dfa n c; walk dfa m w end.

(** The action is wanted for this load: its flags match, and its condition
    agrees with the actions of the top URL. *)
Definition wanted (top : option Actions) (flags a : Z) : Prop :=
  flagsMatch flags a = true /\ match top with None => True | Some conditionActions => matchesCondition a conditionActions = true end.

(** Reading a non-empty prefix of the URL and its end from [n] enters a node
    other than the root that has the action. *)
Definition meets (dfa : DFA.DFA) (n : Z) (url : list Z) (a : Z) : Prop :=
  exists c pre m, (c :: pre) `prefix_of` (url ++ [0]) /\ walk dfa n (c :: pre) = Some m /\ m <> DFA.root dfa /\ a ∈ actionsOf dfa m.

Lemma elem_applyAction top flags acc b a : a ∈ applyAction top flags acc b <-> a ∈ acc \/ (a = b /\ wanted top flags b).
Proof.
  unfold applyAction, addAction, wanted. destruct (flagsMatch flags b); [|naive_solver].
  destruct top as [cond|]; [destruct (matchesCondition b cond)|]; set_solver.
Qed.

Lemma elem_foldl_actions top flags (p : Z -> bool) acts : forall acc a,
  a ∈ foldl (fun acc b => if p b then applyAction top flags acc b else acc) acc acts <-> a ∈ acc \/ (a ∈ acts /\ p a = true /\ wanted top flags a).
Proof.
  induction acts as [|b acts IH]; intros acc a; cbn [foldl]; [set_solver|]. rewrite IH, elem_of_cons.
  destruct (p b) eqn:E; [rewrite elem_applyAction|]; naive_solver congruence.
Qed.

Lemma elem_enter dfa top flags n acc a : a ∈ enter dfa top flags n acc <-> a ∈ acc \/ (n <> DFA.root dfa /\ a ∈ actionsOf dfa n /\ wanted top flags a).
Proof.
  unfold enter. destruct (Z.eqb_spec n (DFA.root dfa)); [naive_solver|].
  rewrite (elem_foldl_actions top flags (fun _ => true) (actionsOf dfa n)). naive_solver.
Qed.

Lemma meets_step dfa n c url a : meets dfa n (c :: url) a <->
  exists m, delta dfa n c = Some m /\ ((m <> DFA.root dfa /\ a ∈ actionsOf dfa m) \/ meets dfa m url a).
Proof.
  unfold meets. split.
  - intros (c' & pre & m & Hp & Hw & Hm). cbn [app] in Hp. pose proof (prefix_cons_inv_1 _ _ _ _ Hp) as ->. apply prefix_cons_inv_2 in Hp.
    cbn [walk] in Hw. destruct (delta dfa n c) as [k|] eqn:E; [|done]. cbn [mbind option_bind] in Hw. exists k. split; [done|].
    destruct pre as [|d pre]; [injection Hw as ->; by left|right]. by exists d, pre, m.
  - intros (k & E & [Hk|(d & pre & m & Hp & Hw & Hm)]).
    + exists c, [], k. split; [cbn; apply prefix_cons, prefix_nil|]. cbn [walk]. by rewrite E.
    + exists c, (d :: pre), m. split; [cbn [app]; by apply prefix_cons|]. cbn [walk]. by rewrite E.
Qed.

Lemma meets_end dfa n a : meets dfa n [] a <-> exists m, delta dfa n 0 = Some m /\ m <> DFA.root dfa /\ a ∈ actionsOf dfa m.
Proof.
  unfold meets. split.
  - intros (c' & pre & m & Hp & Hw & Hm). cbn [app] in Hp. pose proof (prefix_cons_inv_1 _ _ _ _ Hp) as ->. apply prefix_cons_inv_2, prefix_nil_inv in Hp as ->.
    cbn [walk] in Hw. destruct (delta dfa n 0); [|done]. injection Hw as ->. eauto.
  - intros (m & E & Hm). exists 0, [], m. split; [done|]. cbn [walk]. by rewrite E.
Qed.

Lemma elem_collect dfa top flags url : forall n acc a,
  a ∈ collect dfa top flags n url acc <-> a ∈ acc \/ (wanted top flags a /\ meets dfa n url a).
Proof.
  induction url as [|c url IH]; intros n acc a; cbn [collect].
  - rewrite meets_end. destruct (delta dfa n 0) as [m|]; [rewrite elem_enter|]; naive_solver.
  - rewrite meets_step. destruct (delta dfa n c) as [m|]; [rewrite IH, elem_enter|]; naive_solver.
Qed.

Lemma elem_collectRest top url flags dfas : forall acc a,
  a ∈ collectRest top url flags dfas acc <-> a ∈ acc \/ (wanted top flags a /\ exists dfa, dfa ∈ dfas /\ meets dfa (DFA.root dfa) url a).
Proof.
  unfold collectRest. induction dfas as [|dfa dfas IH]; intros acc a; cbn [foldl].
  - split; [by left|]. intros [H|(_ & ? & []%not_elem_of_nil & _)]; done.
  - rewrite IH, elem_collect. setoid_rewrite elem_of_cons. naive_solver.
Qed.

Lemma elem_matched top url flags dfas a :
  a ∈ matched top url flags dfas <-> wanted top flags a
    /\ ((exists dfa, dfa ∈ dfas /\ meets dfa (DFA.root dfa) url a)
        \/ (exists dfa, head dfas = Some dfa /\ hasFlags a = true /\ a ∈ actionsOf dfa (DFA.root dfa))).
Proof.
  unfold matched. destruct dfas as [|dfa dfas].
  - split; [set_solver|]. intros (_ & [(? & []%not_elem_of_nil & _)|(? & ? & _)]); done.
  - rewrite elem_collectRest, elem_collect. unfold rootActions. rewrite elem_foldl_actions. setoid_rewrite elem_of_cons. cbn [head]. set_solver.
Qed.

(** ** The actions that match everything *)

Lemma matchingLoop_spec B f n nc acts : forall loc pc acc fuel,
  Z.of_nat (length B) < 2 ^ 31 -> At B pc (encodeAll f loc ((IAction <$> acts) ++ nc)) -> closed nc -> Forall okAction acts ->
  (length acts < fuel)%nat -> pc + codeSize (IAction <$> acts) < n ->
  matchingLoop B None fuel n pc acc = Some (foldl (fun acc a => if negb (hasFlags a) then applyAction None 0 acc a else acc) acc acts).
Proof.
  induction acts as [|a acts IH]; intros loc pc acc [|fuel] HB Hat Hcl Hok Hf Hn; try (cbn in Hf; lia); cbn [matchingLoop].
  - cbn [fmap list_fmap app] in Hat. change (codeSize (IAction <$> [])) with 0 in *. rewrite (proj2 (Z.ltb_lt _ _)) by lia.
    destruct (closed_instruction B f loc pc nc Hat Hcl) as (i & -> & Hi). cbn [mbind option_bind foldl]. by destruct i.
  - rewrite codeSize_actions_cons in *. rewrite fmap_cons in Hat. cbn [app encodeAll] in Hat. apply At_app in Hat as [Ha Hat]. rewrite encode_length in Hat.
    apply Forall_cons in Hok as [Hoa Hok]. pose proof (codeSize_nonneg (IAction <$> acts)). cbn [encode instrSize] in Ha, Hat.
    assert (0 < appendActionBytecodeSize a) as Hpos by (unfold appendActionBytecodeSize, sizeof_instruction; step_if; lia).
    rewrite (proj2 (Z.ltb_lt _ _)) by lia. cbn [foldl]. pose proof (At_bound _ _ _ Ha) as Hb. unfold m_bytecodeLength in Hb.
    pose proof (encode_length (fun _ => 0) (IAction a)) as Hlen. cbn [encode instrSize] in Hlen.
    destruct (hasFlags a) eqn:Ef.
    + destruct (testFlags_at B None 0 HB pc a acc Ha Hoa Ef) as [-> _]. cbn [mbind option_bind negb].
      assert (appendActionBytecodeSize a = sizeof_instruction + 2 + 4) as Es by (unfold appendActionBytecodeSize; by rewrite Ef).
      destruct (hasIfCondition a); cbn [instructionSizeWithArguments mbind option_bind]; rewrite <- Es, u32_id by lia;
        (eapply IH; [done|exact Hat|done|done|cbn in Hf; lia|lia]).
    + destruct (appendAction_at B None HB pc a acc Ha Hoa Ef) as [-> E]. cbn [mbind option_bind negb].
      assert (flagsMatch 0 a = true) as Hm by (apply flagsMatch_none; [unfold okAction in Hoa; lia|done]). unfold applyAction at 2. rewrite Hm.
      destruct (hasIfCondition a); rewrite E; cbn [mbind option_bind]; (eapply IH; [done|exact Hat|done|done|cbn in Hf; lia|lia]).
Qed.

Lemma matchingEverything_machine dfa dfas :
  okMachine (dfa :: dfas) ->
  exists bs, mapM (fun dfa => compile dfa []) (dfa :: dfas) = Some bs
    /\ actionsMatchingEverything (concat bs) None
       = Some (foldl (fun acc a => if negb (hasFlags a) then applyAction None 0 acc a else acc) ∅ (actionsOf dfa (DFA.root dfa))).
Proof.
  intros [H1 H2 _ H4]. destruct (compile_all _ H1) as (bs & E & Hbs & Hl & Hn). exists bs. split; [done|]. unfold actionsMatchingEverything.
  set (B := concat bs) in *. assert (Z.of_nat (length B) < 2 ^ 31) as HB by lia.
  inversion Hbs as [|? b ? bs' (code & starts & Eb & HL) Hbs']; subst bs. apply Forall_cons in H1 as [Hd _], H2 as [He _].
  assert (Holds dfa B 0 code starts) as HH by (constructor; [done..|]; exists [], (concat bs'); unfold B; rewrite <- Eb; done).
  rewrite (Holds_header B [] dfa 0 code starts HH). cbn [mbind option_bind].
  edestruct Holds_root as (acts & ts & T & nc & HN & Ea & Hat & Hta & Hle & Hlt); [..|exact HH|]; try done; try exact [].
  rewrite Ea. eapply (matchingLoop_spec B _ (4 + codeSize code) nc acts 4 4); [done|exact Hat| | |lia|lia].
  - exact (closed_transitions T nc (ta_erase _ _ _ _ _ _ _ Hta)).
  - apply (node_actions _ _ _ _ _ HN).
Qed.

Lemma actionsOf_ok dfa n a : okDFA dfa -> alive dfa n -> a ∈ actionsOf dfa n -> okAction a.
Proof.
  intros Hok (node & E & Ek) Ha. destruct (ok_node _ Hok n node E Ek) as (acts & ts & Ea & _ & _ & Hacts & _). unfold actionsOf in Ha.
  rewrite E in Ha. cbn [mbind option_bind] in Ha. rewrite Ea in Ha. rewrite Forall_forall in Hacts. by apply Hacts.
Qed.

(** ** Checking automata by evaluation *)

Definition aliveb (dfa : DFA.DFA) (i : Z) : bool :=
  match at_ (DFA.nodes dfa) i with Some node => negb (DFA.isKilled node) | None => false end.

Fixpoint okTransitionsb (x : Z) (ts : list (DFA.CharRange * Z)) : bool :=
  match ts with
  | [] => true
  | (r, target) :: ts =>
      (x <? DFA.first r) && (DFA.first r <=? DFA.last r) && (DFA.last r <=? 127) && (0 <=? target) && (target <? noDestination)
      && okTransitionsb (DFA.last r) ts
  end.

Definition okNodeb (dfa : DFA.DFA) (node : DFA.DFANode) : bool :=
  DFA.isKilled node
  || match DFA.actions node dfa, DFA.transitions node dfa with
     | Some acts, Some ts =>
         okTransitionsb (-1) ts && forallb (fun a => (0 <=? a) && (a <? 2 ^ 49)) acts && forallb (fun t => aliveb dfa t.2) ts
     | _, _ => false
     end.

Definition hasFallback (dfa : DFA.DFA) (node : DFA.DFANode) : bool :=
  match DFA.canUseFallbackTransition node dfa with Some b => b | None => false end.

Definition endSafeb (dfa : DFA.DFA) (node : DFA.DFANode) : bool :=
  DFA.isKilled node
  || match DFA.transitions node dfa with
     | Some ts =>
         negb (hasFallback dfa node && bool_decide (DFA.bestFallbackTarget node dfa = goes ts 0))
         && match goes ts 0 with
            | Some m => match at_ (DFA.nodes dfa) m with Some target => negb (hasFallback dfa target) | None => true end
            | None => true
            end
     | None => true
     end.

Definition okDFAb (dfa : DFA.DFA) : bool :=
  aliveb dfa (DFA.root dfa) && forallb (okNodeb dfa) (DFA.nodes dfa) && (sumMax dfa (compileOrder dfa) + 8 <? 2 ^ 30).

Lemma aliveb_spec dfa i : aliveb dfa i = true -> alive dfa i.
Proof. unfold aliveb, alive. destruct (at_ (DFA.nodes dfa) i) as [node|]; [|done]. intros H%negb_true_iff. eauto. Qed.

Lemma okTransitionsb_spec ts : forall x, -1 <= x -> okTransitionsb x ts = true -> okTransitions ts /\ Forall (fun t => x < DFA.first t.1) ts.
Proof.
  induction ts as [|[r target] ts IH]; intros x Hx; cbn [okTransitionsb]; [by repeat constructor|].
  rewrite !andb_true_iff, !Z.ltb_lt, !Z.leb_le. intros (((((H1 & H2) & H3) & H4) & H5) & H6).
  destruct (IH (DFA.last r) ltac:(lia) H6) as [[H7 H8] H9]. split; [split|]; constructor; try done.
  - split_and!; cbn; lia.
  - eapply Forall_impl; [exact H9|]. cbn. lia.
Qed.

Lemma at_In (dfa : DFA.DFA) i node : at_ (DFA.nodes dfa) i = Some node -> In node (DFA.nodes dfa).
Proof. unfold at_, DFA.at_. destruct (i <? 0); [done|]. intros E. apply list_elem_of_In. by eapply list_elem_of_lookup_2. Qed.

Lemma okDFAb_spec dfa : okDFAb dfa = true -> okDFA dfa.
Proof.
  unfold okDFAb. rewrite !andb_true_iff, Z.ltb_lt, forallb_forall. intros [[Hr Hn] Hs].
  split; [by apply aliveb_spec| |done]. intros i node E Ek. specialize (Hn node (at_In dfa i node E)). unfold okNodeb in Hn. rewrite Ek in Hn. cbn [orb] in Hn.
  destruct (DFA.actions node dfa) as [acts|]; [|done]. destruct (DFA.transitions node dfa) as [ts|]; [|done]. exists acts, ts.
  rewrite !andb_true_iff, !forallb_forall in Hn. destruct Hn as [[H1 H2] H3]. split_and!; try done.
  - by apply (okTransitionsb_spec ts (-1)).
  - apply Forall_forall. intros a Ha. specialize (H2 a (proj1 (list_elem_of_In _ _) Ha)). unfold okAction. lia.
  - intros r d Hd. apply aliveb_spec. exact (H3 (r, d) (proj1 (list_elem_of_In _ _) Hd)).
Qed.

Lemma endSafeb_spec dfa : forallb (endSafeb dfa) (DFA.nodes dfa) = true -> endSafe dfa.
Proof.
  rewrite forallb_forall. intros Hn. split.
  - intros i node ts E Ek Et Ec Eb. specialize (Hn node (at_In dfa i node E)). unfold endSafeb, hasFallback in Hn.
    rewrite Ek, Et, Ec in Hn. cbn [orb andb] in Hn. apply andb_true_iff in Hn as [Hn _]. apply negb_true_iff in Hn. by apply bool_decide_eq_false_1 in Hn.
  - intros i m node (n & E & Ek) Hd Em Ec. specialize (Hn n (at_In dfa i n E)). unfold endSafeb in Hn. rewrite Ek in Hn. cbn [orb] in Hn.
    unfold delta in Hd. rewrite E in Hd. cbn [mbind option_bind] in Hd. destruct (DFA.transitions n dfa) as [ts|]; [|done].
    cbn [mbind option_bind] in Hd. rewrite Hd, Em in Hn. unfold hasFallback at 2 in Hn. rewrite Ec in Hn. by rewrite andb_false_r in Hn.
Qed.

Definition okMachineb (dfas : list DFA.DFA) : bool :=
  forallb okDFAb dfas && forallb (fun dfa => forallb (endSafeb dfa) (DFA.nodes dfa)) dfas
  && forallb (fun dfa => bool_decide (actionsOf dfa (DFA.root dfa) = [])) (tail dfas) && (totalMax dfas <? 2 ^ 31).

Lemma okMachineb_spec dfas : okMachineb dfas = true -> okMachine dfas.
Proof.
  unfold okMachineb. rewrite !andb_true_iff, !forallb_forall, Z.ltb_lt. intros [[[H1 H0] H2] H3]. constructor; [..|done]; apply Forall_forall.
  - intros dfa Hd. by apply okDFAb_spec, H1, list_elem_of_In.
  - intros dfa Hd. by apply endSafeb_spec, H0, list_elem_of_In.
  - intros dfa Hd. by apply (bool_decide_eq_true_1 _), (H2 dfa), list_elem_of_In.
Qed.

(** ** Properties *)

(** An automaton that reads [a], [b] or [c], then loops on any character and
    ends in node 2. *)
Definition exampleDFA : DFA.DFA :=
  DFA.mkDFA [DFA.mkNode 0 0 2 1 0; DFA.mkNode 2 1 1 2 0; DFA.mkNode 3 3 1 0 0]
    [2 ^ 32 + 5; 6; 7; 8] [DFA.mkCharRange 97 99; DFA.mkCharRange 0 0; DFA.mkCharRange 1 127] [1; 2; 1] 0.

(** An automaton without actions on its root. *)
Definition tailDFA : DFA.DFA := DFA.mkDFA [DFA.mkNode 0 0 0 1 0; DFA.mkNode 0 1 1 0 0] [9] [DFA.mkCharRange 120 120] [1] 0.

(** C29: Compiling well-formed automata and running the bytecode on an ASCII URL
    terminates without reading outside the bytecode or the URL and without
    failing an assertion, and the actions are exactly those the automata
    prescribe: an action whose flags and condition match the load, and that
    belongs to a node other than the root entered on a non-empty prefix of the
    URL and its terminating zero, or (with flags) to the root of the first
    automaton. *)
Theorem interpret_compile dfas top url flags :
  okMachine dfas -> Z.of_nat (length url) + 2 < 2 ^ 32 -> Forall (fun c => 1 <= c <= 127) url ->
  exists bs found, mapM (fun dfa => compile dfa []) dfas = Some bs /\ interpretWith (concat bs) top url flags = Some found
    /\ forall a, a ∈ found <-> wanted top flags a
         /\ ((exists dfa, dfa ∈ dfas /\ meets dfa (DFA.root dfa) url a)
             \/ (exists dfa, head dfas = Some dfa /\ hasFlags a = true /\ a ∈ actionsOf dfa (DFA.root dfa))).
Proof.
  intros Hm Hlen Hurl. destruct (interpret_machine dfas top url flags Hm Hlen Hurl) as (bs & E1 & E2).
  exists bs, (matched top url flags dfas). split; [done|]. split; [done|]. intros a. apply elem_matched.
Qed.

Lemma interpret_compile_witness :
  exists bs found, mapM (fun dfa => compile dfa []) [exampleDFA; tailDFA] = Some bs /\ interpretWith (concat bs) None [98; 120] 1 = Some found
    /\ forall a, a ∈ found <-> wanted None 1 a
         /\ ((exists dfa, dfa ∈ [exampleDFA; tailDFA] /\ meets dfa (DFA.root dfa) [98; 120] a)
             \/ (exists dfa, head [exampleDFA; tailDFA] = Some dfa /\ hasFlags a = true /\ a ∈ actionsOf dfa (DFA.root dfa))).
Proof.
  destruct (interpret_compile [exampleDFA; tailDFA] None [98; 120] 1) as (bs & found & H).
  - apply okMachineb_spec. vm_compute. reflexivity.
  - reflexivity.
  - repeat constructor; discriminate.
  - exists bs, found. exact H.
Defined.

(** The same automaton with the compiled bytes and the actions of two loads. *)
Lemma example_interpret :
  match compile exampleDFA [] with
  | Some B => interpret B [98; 120] 1 = Some {[ 2 ^ 32 + 5; 7; 8 ]} /\ interpret B [98] 2 = Some {[ 7; 8 ]} /\ interpret B [100] 2 = Some ∅
  | None => False
  end.
Proof. vm_compute. split_and!; reflexivity. Qed.

(** [actionsMatchingEverything] returns exactly the actions without flags
    on the root of the first automaton, those that [interpret] leaves out
    because they apply to every URL. *)
Theorem actionsMatchingEverything_correct dfa dfas :
  okMachine (dfa :: dfas) ->
  exists bs found, mapM (fun dfa => compile dfa []) (dfa :: dfas) = Some bs /\ actionsMatchingEverything (concat bs) None = Some found
    /\ forall a, a ∈ found <-> hasFlags a = false /\ a ∈ actionsOf dfa (DFA.root dfa).
Proof.
  intros Hm. destruct (matchingEverything_machine dfa dfas Hm) as (bs & E1 & E2). eexists bs, _. split; [done|]. split; [exact E2|].
  intros a. rewrite elem_foldl_actions, negb_true_iff. split; [set_solver|]. intros [Hf Ha]. right. split; [done|]. split; [done|]. split; [|done].
  pose proof (machine_ok _ Hm) as Hall. apply Forall_cons in Hall as [Hok _].
  pose proof (actionsOf_ok _ _ _ Hok (ok_root _ Hok) Ha) as [H0 _]. by apply flagsMatch_none.
Qed.

Lemma actionsMatchingEverything_correct_witness :
  exists bs found, mapM (fun dfa => compile dfa []) [exampleDFA; tailDFA] = Some bs /\ actionsMatchingEverything (concat bs) None = Some found
    /\ forall a, a ∈ found <-> hasFlags a = false /\ a ∈ actionsOf exampleDFA (DFA.root exampleDFA).
Proof. apply actionsMatchingEverything_correct. apply okMachineb_spec. vm_compute. reflexivity. Defined.

(** An automaton for [a] and then any character or the end of the URL. *)
Definition anyDFA : DFA.DFA :=
  DFA.mkDFA [DFA.mkNode 0 0 0 1 0; DFA.mkNode 0 1 0 2 0; DFA.mkNode 0 0 1 0 0]
    [7] [DFA.mkCharRange 97 97; DFA.mkCharRange 0 0; DFA.mkCharRange 1 127] [1; 2; 2] 0.

(** Where every character and the end of the URL lead to one node, the
    compiler emits a single [Jump], which the interpreter does not take at the
    end: the URL [a] enters node 2 of this automaton on its terminating zero,
    but its action is not found, while it is found for the URL [ab]. *)
Theorem end_transition_lost :
  okDFA anyDFA /\ meets anyDFA (DFA.root anyDFA) [97] 7
  /\ exists B, compile anyDFA [] = Some B /\ interpret B [97] 0 = Some ∅ /\ interpret B [97; 98] 0 = Some {[ 7 ]}.
Proof.
  split; [by apply okDFAb_spec|]. split.
  - exists 97, [0], 2. split; [done|]. split; [by vm_compute|]. split; [done|]. vm_compute. left.
  - eexists. split; [vm_compute; reflexivity|]. by vm_compute.
Qed.

(** An automaton whose end node has a fallback. *)
Definition endJumpDFA : DFA.DFA :=
  DFA.mkDFA [DFA.mkNode 0 0 0 1 0; DFA.mkNode 0 1 0 1 0] [] [DFA.mkCharRange 0 0; DFA.mkCharRange 1 127] [1; 1] 0.

(** [Jump] reads the character before it tests whether the URL has ended: at
    the node entered on the terminating zero, it reads past the URL. *)
Lemma end_jump_reads_past :
  okDFA endJumpDFA /\ exists B, compile endJumpDFA [] = Some B
    /\ dispatch B None [] 0 (mkState 8 ∅ 1 true) = None /\ getInstruction B 8 = Some Jump /\ interpret B [] 0 = None.
Proof. split; [by apply okDFAb_spec|]. eexists. split; [vm_compute; reflexivity|]. by vm_compute. Qed.
