(* ===== verification/ContentExtensionRule.v ===== *)
(** * ContentExtensionRule: rules of content blockers and their actions as bytes

    Translated from src/Source/WebCore/contentextensions/ContentExtensionRule.h,
    ContentExtensionRule.cpp, ContentExtensionSerialize.h and, for the strings
    that are put together, src/Source/WTF/wtf/text/StringBuilder.h and
    StringBuilder.cpp.  A string is its code units with the width they are
    stored in; a null string is [None].  [None] as a result is a failed
    assertion or a read out of range. *)

From stdpp Require Import gmap.
From S2P Require Import Prelude DFABytecode.
Import DFABytecode.

Module ContentExtensionRule.

Record WTFString := mkString { is8Bit : bool; characters : list Z }.

#[global] Instance WTFString_eq_dec : EqDecision WTFString.
Proof. solve_decision. Defined.

(** [String::length], an [unsigned]. *)
Definition String_length (s : WTFString) : Z := Z.of_nat (length (characters s)).

(** ** Building strings

    A builder is the string it holds: [m_is8Bit] and the characters.  No
    buffer is reserved, so that there is one only when it is not empty. *)

Definition newBuilder : WTFString := mkString true [].

(** [append(const LChar*, unsigned)] *)
Definition append8 (l : list Z) (b : WTFString) : WTFString := mkString (is8Bit b) (characters b ++ l).

(** [append(const UChar*, unsigned)]: a single character of one byte keeps a
    narrow builder narrow. *)
Definition append16 (l : list Z) (b : WTFString) : WTFString :=
  match l with
  | [] => b
  | [c] => if is8Bit b && (Z.land c (Z.lnot 255) =? 0) then append8 [c] b else mkString false (characters b ++ [c])
  | _ => mkString false (characters b ++ l)
  end.

(** [append(const String&)] *)
Definition appendString (s b : WTFString) : WTFString :=
  if String_length s =? 0 then b
  else if String_length b =? 0 then s
  else if is8Bit s then append8 (characters s) b
  else append16 (characters s) b.

(** [append(char)] *)
Definition appendChar (c : Z) (b : WTFString) : WTFString := append8 [c] b.

(** ** Actions and rules *)

Inductive ActionType :=
| BlockLoad | BlockCookies | CSSDisplayNoneSelector | CSSDisplayNoneStyleSheet | IgnorePreviousRules | MakeHTTPS | InvalidAction.

#[global] Instance ActionType_eq_dec : EqDecision ActionType.
Proof. solve_decision. Defined.

Definition actionTypeByte (t : ActionType) : Z :=
  match t with
  | BlockLoad => 0 | BlockCookies => 1 | CSSDisplayNoneSelector => 2 | CSSDisplayNoneStyleSheet => 3
  | IgnorePreviousRules => 4 | MakeHTTPS => 5 | InvalidAction => 6
  end.

(** [static_cast<ActionType>]; a byte that is no type is one the switches do
    not accept. *)
Definition byteActionType (b : Z) : ActionType :=
  match b with
  | 0 => BlockLoad | 1 => BlockCookies | 2 => CSSDisplayNoneSelector | 3 => CSSDisplayNoneStyleSheet
  | 4 => IgnorePreviousRules | 5 => MakeHTTPS | _ => InvalidAction
  end.

Record Action := mkAction {
  m_extensionIdentifier : option WTFString;
  m_type : ActionType;
  m_actionID : Z;
  m_stringArgument : option WTFString
}.

(** The constructors, with their assertions. *)
Definition Action_of (type : ActionType) (actionID : Z) : option Action :=
  guard (type <> CSSDisplayNoneSelector /\ type <> CSSDisplayNoneStyleSheet);; Some (mkAction None type actionID None).

Definition Action_ofString (type : ActionType) (stringArgument : WTFString) (actionID : Z) : option Action :=
  guard (type = CSSDisplayNoneSelector \/ type = CSSDisplayNoneStyleSheet);; Some (mkAction None type actionID (Some stringArgument)).

(** The argument; a null string has no characters and counts as narrow. *)
Definition argument (a : Action) : WTFString := default (mkString true []) (m_stringArgument a).

Definition setExtensionIdentifier (identifier : WTFString) (a : Action) : Action :=
  mkAction (Some identifier) (m_type a) (m_actionID a) (m_stringArgument a).

Inductive ConditionType := NoCondition | IfDomain | UnlessDomain | IfTopURL | UnlessTopURL.

#[global] Instance ConditionType_eq_dec : EqDecision ConditionType.
Proof. solve_decision. Defined.

Record Trigger := mkTrigger {
  urlFilter : list Z;
  urlFilterIsCaseSensitive : bool;
  topURLConditionIsCaseSensitive : bool;
  flags : Z;
  conditions : list (list Z);
  conditionType : ConditionType
}.

(** [operator==]; strings are compared by their characters. *)
Definition Trigger_eqb (a b : Trigger) : bool :=
  bool_decide (urlFilter a = urlFilter b) && eqb (urlFilterIsCaseSensitive a) (urlFilterIsCaseSensitive b)
  && (flags a =? flags b) && bool_decide (conditions a = conditions b) && bool_decide (conditionType a = conditionType b).

Record Rule := mkRule { trigger : Trigger; action : Action }.

(** ** Reading actions *)

Section Deserialize.

Context (actions : list Z).

Definition actionsLength : Z := Z.of_nat (length actions).

(** [actions[i]] *)
Definition byteAt (i : Z) : option Z := if i <? 0 then None else actions !! Z.to_nat i.

(** [n] bytes from [i]. *)
Definition bytesAt (i : Z) (n : nat) : option (list Z) :=
  guard (0 <= i /\ i + Z.of_nat n <= actionsLength);; Some (take n (drop (Z.to_nat i) actions)).

Fixpoint pairs (l : list Z) : list Z :=
  match l with
  | a :: b :: l => a + 256 * b :: pairs l
  | _ => []
  end.

Definition headerLength : Z := 1 + 4 + 1.

(** The length and the width of the selector at [location]. *)
Definition selectorHeader (location : Z) : option (Z * Z * bool) :=
  let stringStartIndex := u32 (location + headerLength) in
  guard (stringStartIndex <= actionsLength);;
  l ← bytesAt (location + 1) 4;
  w ← byteAt (location + 1 + 4);
  Some (stringStartIndex, valueLE l, negb (w =? 0)).

Definition deserialize (location : Z) : option Action :=
  guard (location < actionsLength);;
  b ← byteAt location;
  match byteActionType b with
  | BlockCookies => Action_of BlockCookies location
  | BlockLoad => Action_of BlockLoad location
  | IgnorePreviousRules => Action_of IgnorePreviousRules location
  | MakeHTTPS => Action_of MakeHTTPS location
  | CSSDisplayNoneSelector =>
      '(stringStartIndex, selectorLength, wideCharacters) ← selectorHeader location;
      if wideCharacters : bool then
        guard (stringStartIndex + selectorLength * 2 <= actionsLength);;
        l ← bytesAt stringStartIndex (Z.to_nat (selectorLength * 2));
        Action_ofString CSSDisplayNoneSelector (mkString false (pairs l)) location
      else
        guard (stringStartIndex + selectorLength <= actionsLength);;
        l ← bytesAt stringStartIndex (Z.to_nat selectorLength);
        Action_ofString CSSDisplayNoneSelector (mkString true l) location
  | CSSDisplayNoneStyleSheet | InvalidAction => None
  end.

Definition deserializeType (location : Z) : option ActionType :=
  guard (location < actionsLength);;
  b ← byteAt location;
  match byteActionType b with
  | CSSDisplayNoneStyleSheet | InvalidAction => None
  | t => Some t
  end.

Definition serializedLength (location : Z) : option Z :=
  guard (location < actionsLength);;
  b ← byteAt location;
  match byteActionType b with
  | BlockCookies | BlockLoad | IgnorePreviousRules | MakeHTTPS => Some 1
  | CSSDisplayNoneSelector =>
      '(_, selectorLength, wideCharacters) ← selectorHeader location;
      Some (u32 (headerLength + selectorLength * (if wideCharacters : bool then 2 else 1)))
  | CSSDisplayNoneStyleSheet | InvalidAction => None
  end.

End Deserialize.

End ContentExtensionRule.
