(* ===== verification/ContentExtensionCompiler.v ===== *)
(** * ContentExtensionCompiler: the actions of a rule list as bytes

    Translated from src/Source/WebCore/contentextensions/ContentExtensionCompiler.cpp:
    [serializeActions] and what it calls.  The order in which a hash table is
    walked is an argument. *)

From stdpp Require Import gmap.
From S2P Require Import Prelude DFA DFABytecode DFABytecodeCompiler ContentExtensionRule.
Import DFABytecode ContentExtensionRule.

Module ContentExtensionCompiler.

(** [for (i < selectorLength) *reinterpret_cast<UChar*>(...) = selector[i];] *)
Definition wideBytes (l : list Z) : list Z := concat (bytesLE 2 <$> l).

(** What is appended: the type, the length, the width and the characters. *)
Definition serializeSelector (actions : list Z) (selector : WTFString) : list Z :=
  let actions := actions ++ [actionTypeByte CSSDisplayNoneSelector] in
  let selectorLength := String_length selector in
  let actions := actions ++ bytesLE 4 selectorLength in
  let wideCharacters := negb (is8Bit selector) in
  let actions := actions ++ [if wideCharacters then 1 else 0] in
  if wideCharacters then actions ++ wideBytes (characters selector) else actions ++ characters selector.

Record PendingDisplayNoneActions := mkPending {
  selectors : list WTFString;
  clientLocations : list Z
}.

(** In the order of insertion; each trigger once. *)
Definition PendingMap := list (Trigger * PendingDisplayNoneActions).

(** [add(trigger, PendingDisplayNoneActions())] and the two appends. *)
Fixpoint addPending (t : Trigger) (selector : WTFString) (clientLocation : Z) (map : PendingMap) : PendingMap :=
  match map with
  | [] => [(t, mkPending [selector] [clientLocation])]
  | (t', p) :: map =>
      if Trigger_eqb t' t then (t', mkPending (selectors p ++ [selector]) (clientLocations p ++ [clientLocation])) :: map
      else (t', p) :: addPending t selector clientLocation map
  end.

Fixpoint combineSelectors (i : nat) (l : list WTFString) (combinedSelectors : WTFString) : WTFString :=
  match l with
  | [] => combinedSelectors
  | s :: l =>
      let combinedSelectors := match i with O => combinedSelectors | S _ => appendChar (chr ",") combinedSelectors end in
      combineSelectors (S i) l (appendString s combinedSelectors)
  end.

(** [vector[i] = x] for each index. *)
Fixpoint setLocations (locations : list Z) (indices : list Z) (x : Z) : option (list Z) :=
  match indices with
  | [] => Some locations
  | i :: indices => locations ← DFABytecodeCompiler.set_ locations i x; setLocations locations indices x
  end.

Fixpoint resolveSlots (slots : PendingMap) (actions : list Z) (actionLocations : list Z) : option (list Z * list Z) :=
  match slots with
  | [] => Some (actions, actionLocations)
  | (_, pendingActions) :: slots =>
      let combinedSelectors := combineSelectors 0 (selectors pendingActions) newBuilder in
      let actionLocation := u32 (Z.of_nat (length actions)) in
      let actions := serializeSelector actions combinedSelectors in
      actionLocations ← setLocations actionLocations (clientLocations pendingActions) actionLocation;
      resolveSlots slots actions actionLocations
  end.

Record Serializer := mkSerializer {
  actions : list Z;
  actionLocations : list Z;
  blockLoadActionsMap : gmap Z Z;
  blockCookiesActionsMap : gmap Z Z;
  cssDisplayNoneActionsMap : PendingMap;
  ignorePreviousRuleActionsMap : gmap Z Z;
  makeHTTPSActionsMap : gmap Z Z
}.

Definition newSerializer : Serializer := mkSerializer [] [] ∅ ∅ [] ∅ ∅.

(** [std::numeric_limits<unsigned>::max()] *)
Definition noLocation : Z := 2 ^ 32 - 1.

Section Serialize.

Context (hashOrder : PendingMap -> PendingMap).

Definition resolvePendingDisplayNoneActions (s : Serializer) : option Serializer :=
  '(actions, actionLocations) ← resolveSlots (hashOrder (cssDisplayNoneActionsMap s)) (actions s) (actionLocations s);
  Some (mkSerializer actions actionLocations (blockLoadActionsMap s) (blockCookiesActionsMap s) []
          (ignorePreviousRuleActionsMap s) (makeHTTPSActionsMap s)).

Definition clearForIgnore (s : Serializer) : Serializer :=
  mkSerializer (actions s) (actionLocations s) ∅ ∅ [] (ignorePreviousRuleActionsMap s) ∅.

Definition clearIgnore (s : Serializer) : Serializer :=
  mkSerializer (actions s) (actionLocations s) (blockLoadActionsMap s) (blockCookiesActionsMap s) (cssDisplayNoneActionsMap s)
    ∅ (makeHTTPSActionsMap s).

(** The bytes, the map and the location for the flags. *)
Definition findOrMakeActionLocation (actionType : ActionType) (flags : Z) (map : gmap Z Z) (actions : list Z) : list Z * gmap Z Z * Z :=
  match map !! flags with
  | None =>
      let actionLocation := u32 (Z.of_nat (length actions)) in
      (actions ++ [actionTypeByte actionType], <[flags := actionLocation]> map, actionLocation)
  | Some actionLocation => (actions, map, actionLocation)
  end.

(** A rule with conditions is just pushed. *)
Definition pushRule (rule : Rule) (s : Serializer) : Serializer :=
  let locations := actionLocations s ++ [u32 (Z.of_nat (length (actions s)))] in
  let bytes := if bool_decide (m_type (action rule) = CSSDisplayNoneSelector)
               then serializeSelector (actions s) (argument (action rule))
               else actions s ++ [actionTypeByte (m_type (action rule))] in
  mkSerializer bytes locations (blockLoadActionsMap s) (blockCookiesActionsMap s) (cssDisplayNoneActionsMap s)
    (ignorePreviousRuleActionsMap s) (makeHTTPSActionsMap s).

(** A rule without conditions. *)
Definition combineRule (rule : Rule) (s : Serializer) : option Serializer :=
  let '(mkSerializer bytes locations blockLoad blockCookies css ignore makeHTTPS) := s in
  let flags := flags (trigger rule) in
  match m_type (action rule) with
  | CSSDisplayNoneStyleSheet | InvalidAction => None
  | CSSDisplayNoneSelector =>
      let css := addPending (trigger rule) (argument (action rule)) (Z.of_nat (length locations)) css in
      Some (mkSerializer bytes (locations ++ [noLocation]) blockLoad blockCookies css ignore makeHTTPS)
  | IgnorePreviousRules =>
      let '(bytes, ignore, location) := findOrMakeActionLocation IgnorePreviousRules flags ignore bytes in
      Some (mkSerializer bytes (locations ++ [location]) blockLoad blockCookies css ignore makeHTTPS)
  | BlockLoad =>
      let '(bytes, blockLoad, location) := findOrMakeActionLocation BlockLoad flags blockLoad bytes in
      Some (mkSerializer bytes (locations ++ [location]) blockLoad blockCookies css ignore makeHTTPS)
  | BlockCookies =>
      let '(bytes, blockCookies, location) := findOrMakeActionLocation BlockCookies flags blockCookies bytes in
      Some (mkSerializer bytes (locations ++ [location]) blockLoad blockCookies css ignore makeHTTPS)
  | MakeHTTPS =>
      let '(bytes, makeHTTPS, location) := findOrMakeActionLocation MakeHTTPS flags makeHTTPS bytes in
      Some (mkSerializer bytes (locations ++ [location]) blockLoad blockCookies css ignore makeHTTPS)
  end.

(** The body of the loop over the rules. *)
Definition serializeRule (rule : Rule) (s : Serializer) : option Serializer :=
  s ← (if bool_decide (m_type (action rule) = IgnorePreviousRules) then clearForIgnore <$> resolvePendingDisplayNoneActions s
       else Some (clearIgnore s));
  match conditions (trigger rule) with
  | _ :: _ => Some (pushRule rule s)
  | [] => combineRule rule s
  end.

Fixpoint serializeRules (rules : list Rule) (s : Serializer) : option Serializer :=
  match rules with
  | [] => Some s
  | rule :: rules => s ← serializeRule rule s; serializeRules rules s
  end.

(** The locations of the actions of the rules, and the actions. *)
Definition serializeActions (ruleList : list Rule) : option (list Z * list Z) :=
  s ← serializeRules ruleList newSerializer;
  s ← resolvePendingDisplayNoneActions s;
  Some (actionLocations s, actions s).

End Serialize.

End ContentExtensionCompiler.
