(* ===== verification/ContentExtensionSerialize.v ===== *)
(** * ContentExtensionSerialize: the bytes that rules are serialized to, and reading them back *)

From stdpp Require Import gmap.
From stdpp Require Import gmap sorting.
From S2P Require Import Prelude DFABytecode DFABytecodeCompiler DFAEmit DFARun ContentExtensionRule ContentExtensionCompiler.

(** * Reading serialized actions back *)

Import DFABytecode ContentExtensionRule ContentExtensionCompiler.

#[local] Ltac Zify.zify_post_hook ::= Z.div_mod_to_equations.

(** ** Entries *)

Inductive Entry := EType (t : ActionType) | ESelector (s : WTFString).

Definition entryBytes (e : Entry) : list Z :=
  match e with EType t => [actionTypeByte t] | ESelector s => serializeSelector [] s end.

(** Characters that fit the width of the string. *)
Definition okChars (s : WTFString) : Prop := Forall (fun c => 0 <= c < (if is8Bit s then 256 else 65536)) (characters s).

Definition okEntry (e : Entry) : Prop :=
  match e with
  | EType t => t <> CSSDisplayNoneSelector /\ t <> CSSDisplayNoneStyleSheet /\ t <> InvalidAction
  | ESelector s => okChars s
  end.

Definition entryType (e : Entry) : ActionType := match e with EType t => t | ESelector _ => CSSDisplayNoneSelector end.

Definition entryAction (e : Entry) (location : Z) : Action :=
  mkAction None (entryType e) location (match e with EType _ => None | ESelector s => Some s end).

(** The entry [e] starts at [l]. *)
Definition entryAt (A : list Z) (l : Z) (e : Entry) : Prop := exists pre post, A = pre ++ entryBytes e ++ post /\ l = Z.of_nat (length pre).

Lemma entryAt_app A B l e : entryAt A l e -> entryAt (A ++ B) l e.
Proof. intros (pre & post & -> & ->). exists pre, (post ++ B). by rewrite <- !app_assoc. Qed.

Lemma entryAt_end A e : entryAt (A ++ entryBytes e) (Z.of_nat (length A)) e.
Proof. exists A, []. by rewrite app_nil_r. Qed.

(** ** Sequences of entries *)

Definition isEntries (A : list Z) : Prop := exists E, A = concat (entryBytes <$> E) /\ Forall okEntry E.

(** The entry [e] starts at [l], after whole entries and before others. *)
Definition entryFrom (A : list Z) (l : Z) (e : Entry) : Prop :=
  exists pre post, A = pre ++ entryBytes e ++ post /\ l = Z.of_nat (length pre) /\ isEntries pre /\ isEntries post.

Lemma isEntries_nil : isEntries [].
Proof. by exists []. Qed.

Lemma isEntries_one e : okEntry e -> isEntries (entryBytes e).
Proof. intros H. exists [e]. cbn [fmap list_fmap concat]. rewrite app_nil_r. split; [done|by apply Forall_singleton]. Qed.

Lemma isEntries_app A B : isEntries A -> isEntries B -> isEntries (A ++ B).
Proof. intros (E & -> & HE) (F & -> & HF). exists (E ++ F). rewrite fmap_app, concat_app. split; [done|by apply Forall_app]. Qed.

Lemma entryFrom_at A l e : entryFrom A l e -> entryAt A l e.
Proof. intros (pre & post & E & El & _). by exists pre, post. Qed.

Lemma entryFrom_app A B l e : isEntries B -> entryFrom A l e -> entryFrom (A ++ B) l e.
Proof. intros HB (pre & post & -> & -> & H1 & H2). exists pre, (post ++ B). rewrite <- !app_assoc. split_and!; try done. by apply isEntries_app. Qed.

Lemma entryFrom_end A e : isEntries A -> entryFrom (A ++ entryBytes e) (Z.of_nat (length A)) e.
Proof. intros HA. exists A, []. rewrite app_nil_r. split_and!; try done. apply isEntries_nil. Qed.

#[export] Hint Resolve isEntries_nil isEntries_one isEntries_app entryFrom_app entryFrom_end : wk.

Lemma serializeSelector_app A s : serializeSelector A s = A ++ entryBytes (ESelector s).
Proof. cbn [entryBytes]. unfold serializeSelector. destruct (negb (is8Bit s)); by rewrite <- !app_assoc. Qed.

Lemma wideBytes_length l : length (wideBytes l) = (2 * length l)%nat.
Proof. unfold wideBytes. induction l as [|c l IH]; [done|]. rewrite fmap_cons. cbn [concat length]. rewrite length_app, bytesLE_length, IH. lia. Qed.

Definition unitSize (s : WTFString) : Z := if is8Bit s then 1 else 2.

Lemma entryBytes_selector s :
  entryBytes (ESelector s) = [2] ++ bytesLE 4 (String_length s) ++ [if is8Bit s then 0 else 1]
                             ++ (if is8Bit s then characters s else wideBytes (characters s)).
Proof. cbn [entryBytes]. unfold serializeSelector. by destruct (is8Bit s); cbn [negb]; rewrite <- ?app_assoc. Qed.

Lemma entryBytes_length e :
  Z.of_nat (length (entryBytes e)) = match e with EType _ => 1 | ESelector s => headerLength + String_length s * unitSize s end.
Proof.
  destruct e as [t|s]; [done|]. rewrite entryBytes_selector, !length_app, bytesLE_length. unfold headerLength, String_length, unitSize. cbn [length].
  destruct (is8Bit s); rewrite ?wideBytes_length; lia.
Qed.

Lemma entryBytes_pos e : 0 < Z.of_nat (length (entryBytes e)).
Proof. rewrite entryBytes_length. destruct e; [lia|]. unfold headerLength, String_length, unitSize. destruct (is8Bit s); lia. Qed.

Lemma entryAt_bound A l e : entryAt A l e -> 0 <= l /\ l + Z.of_nat (length (entryBytes e)) <= Z.of_nat (length A).
Proof. intros (pre & post & -> & ->). rewrite !length_app. lia. Qed.

(** ** Reading *)

Lemma byteAt_mid pre b post i : i = Z.of_nat (length pre) -> byteAt (pre ++ b :: post) i = Some b.
Proof. intros ->. unfold byteAt. rewrite (proj2 (Z.ltb_ge _ _)) by lia. by rewrite Nat2Z.id, lookup_app_r, Nat.sub_diag by lia. Qed.

Lemma bytesAt_mid pre b post i n : i = Z.of_nat (length pre) -> n = length b -> bytesAt (pre ++ b ++ post) i n = Some b.
Proof.
  intros -> ->. unfold bytesAt, actionsLength. rewrite option_guard_True by (rewrite !length_app; lia). cbn [mbind option_bind].
  by rewrite Nat2Z.id, drop_app_length, take_app_length.
Qed.

Lemma entryAt_type A l e : entryAt A l e -> byteAt A l = Some (actionTypeByte (entryType e)).
Proof.
  intros (pre & post & -> & ->). destruct e as [t|s]; cbn [entryType]; [by apply byteAt_mid|].
  rewrite entryBytes_selector. cbn [app]. by apply byteAt_mid.
Qed.

Lemma byteActionType_byte t : byteActionType (actionTypeByte t) = t.
Proof. by destruct t. Qed.

Lemma entryAt_same_type A l e e' : entryAt A l e -> entryAt A l e' -> entryType e = entryType e'.
Proof. intros H H'. apply entryAt_type in H, H'. rewrite H in H'. injection H' as E. by rewrite <- (byteActionType_byte (entryType e)), E, byteActionType_byte. Qed.

Lemma pairs_wideBytes l : Forall (fun c => 0 <= c < 65536) l -> pairs (wideBytes l) = l.
Proof.
  unfold wideBytes. induction l as [|c l IH]; intros H; [done|]. apply Forall_cons in H as [Hc H]. rewrite fmap_cons. cbn [concat].
  change (bytesLE 2 c) with [c mod 256; (c / 256) mod 256]. cbn [app pairs].
  rewrite IH by done. f_equal. lia.
Qed.

Section Read.

Context (A : list Z) (l : Z).
Hypothesis HA : Z.of_nat (length A) < 2 ^ 32.

Lemma selectorHeader_entry s : entryAt A l (ESelector s) -> selectorHeader A l = Some (l + headerLength, String_length s, negb (is8Bit s)).
Proof using HA.
  intros H. pose proof (entryAt_bound _ _ _ H) as [Hl Hb]. rewrite entryBytes_length in Hb. destruct H as (pre & post & E & ->).
  assert (0 <= String_length s * unitSize s /\ String_length s <= String_length s * unitSize s) as [Hn Hm] by (unfold String_length, unitSize; destruct (is8Bit s); lia).
  unfold selectorHeader, actionsLength. rewrite u32_id by (unfold headerLength in *; lia). rewrite option_guard_True by lia. cbn [mbind option_bind].
  rewrite entryBytes_selector in E.
  assert (bytesAt A (Z.of_nat (length pre) + 1) 4 = Some (bytesLE 4 (String_length s))) as ->.
  { rewrite E, <- !app_assoc. rewrite app_assoc. apply bytesAt_mid; [rewrite length_app; cbn; lia|by rewrite bytesLE_length]. }
  cbn [mbind option_bind].
  assert (byteAt A (Z.of_nat (length pre) + 1 + 4) = Some (if is8Bit s then 0 else 1)) as ->.
  { rewrite E, <- !app_assoc. rewrite (app_assoc [2]), (app_assoc pre). cbn [app]. apply byteAt_mid. rewrite length_app. cbn [length app]. rewrite bytesLE_length. lia. }
  cbn [mbind option_bind]. rewrite valueLE_bytesLE. change (2 ^ (8 * Z.of_nat 4)) with (2 ^ 32).
  rewrite Z.mod_small by (unfold headerLength, String_length in *; lia). by destruct (is8Bit s).
Qed.

Lemma selectorBytes_entry s : entryAt A l (ESelector s) ->
  bytesAt A (l + headerLength) (Z.to_nat (String_length s * unitSize s)) = Some (if is8Bit s then characters s else wideBytes (characters s)).
Proof.
  intros (pre & post & E & ->). rewrite entryBytes_selector in E. rewrite E, <- !app_assoc.
  rewrite (app_assoc (bytesLE 4 _)), (app_assoc [2]), (app_assoc pre). apply bytesAt_mid.
  - rewrite !length_app, bytesLE_length. unfold headerLength. cbn [length]. lia.
  - unfold String_length, unitSize. destruct (is8Bit s); rewrite ?wideBytes_length; lia.
Qed.

(** What was serialized is read back, with its location as identifier. *)
Lemma deserialize_entry e : entryAt A l e -> okEntry e -> deserialize A l = Some (entryAction e l).
Proof using HA.
  intros H Hok. pose proof (entryAt_bound _ _ _ H) as [Hl Hb]. pose proof (entryBytes_pos e). unfold deserialize, actionsLength.
  rewrite option_guard_True by lia. cbn [mbind option_bind]. rewrite (entryAt_type _ _ _ H). cbn [mbind option_bind]. rewrite byteActionType_byte.
  destruct e as [t|s]; cbn [entryType].
  - destruct Hok as (H1 & H2 & H3). by destruct t.
  - rewrite (selectorHeader_entry s H). cbn [mbind option_bind]. rewrite entryBytes_length in Hb. pose proof (selectorBytes_entry s H) as Hs. unfold okEntry, okChars in Hok.
    unfold unitSize in *. destruct (is8Bit s) eqn:Ei; cbn [negb].
    + rewrite Z.mul_1_r in *. rewrite option_guard_True by lia. cbn [mbind option_bind]. rewrite Hs. cbn [mbind option_bind].
      unfold Action_ofString. rewrite option_guard_True by (by left). unfold entryAction. cbn [entryType mbind option_bind]. destruct s. cbn in *. by subst.
    + rewrite option_guard_True by lia. cbn [mbind option_bind]. rewrite Hs. cbn [mbind option_bind]. rewrite pairs_wideBytes by done.
      unfold Action_ofString. rewrite option_guard_True by (by left). unfold entryAction. cbn [entryType mbind option_bind]. destruct s. cbn in *. by subst.
Qed.

Lemma deserializeType_entry e : entryAt A l e -> okEntry e -> deserializeType A l = Some (entryType e).
Proof using Type.
  intros H Hok. pose proof (entryAt_bound _ _ _ H) as [Hl Hb]. pose proof (entryBytes_pos e). unfold deserializeType, actionsLength.
  rewrite option_guard_True by lia. cbn [mbind option_bind]. rewrite (entryAt_type _ _ _ H). cbn [mbind option_bind]. rewrite byteActionType_byte.
  destruct e as [t|s]; [|done]. destruct Hok as (H1 & H2 & H3). by destruct t.
Qed.

Lemma serializedLength_entry e : entryAt A l e -> okEntry e -> serializedLength A l = Some (Z.of_nat (length (entryBytes e))).
Proof using HA.
  intros H Hok. pose proof (entryAt_bound _ _ _ H) as [Hl Hb]. pose proof (entryBytes_pos e). unfold serializedLength, actionsLength.
  rewrite option_guard_True by lia. cbn [mbind option_bind]. rewrite (entryAt_type _ _ _ H). cbn [mbind option_bind]. rewrite byteActionType_byte.
  destruct e as [t|s]; cbn [entryType].
  - destruct Hok as (H1 & H2 & H3). by destruct t.
  - rewrite (selectorHeader_entry s H). cbn [mbind option_bind]. rewrite entryBytes_length in *. unfold unitSize in *.
    destruct (is8Bit s); cbn [negb]; rewrite u32_id by lia; done.
Qed.

End Read.

(** ** Combining selectors *)

Definition joinSelectors (l : list WTFString) : list Z :=
  match l with [] => [] | s :: l => characters s ++ concat ((fun s => chr "," :: characters s) <$> l) end.

Lemma appendString_characters s b : characters (appendString s b) = characters b ++ characters s.
Proof.
  unfold appendString, String_length. destruct s as [w l], b as [w' l']; cbn [characters is8Bit].
  destruct l as [|c l]; cbn [length]; [cbn; by rewrite app_nil_r|]. rewrite (proj2 (Z.eqb_neq _ _)) by lia.
  destruct l' as [|c' l']; cbn [length]; [done|]. rewrite (proj2 (Z.eqb_neq _ _)) by lia.
  destruct w; [done|]. destruct l as [|d l]; cbn [append16 append8 characters is8Bit]; [by step_if|done].
Qed.

Lemma okChars_widen w l : okChars (mkString true l) -> okChars (mkString w l).
Proof. unfold okChars. cbn. destruct w; [done|]. intros H. eapply Forall_impl; [exact H|]. cbn. lia. Qed.

Lemma okChars_app w l l' : okChars (mkString w l) -> okChars (mkString w l') -> okChars (mkString w (l ++ l')).
Proof. unfold okChars. cbn. intros. by apply Forall_app. Qed.

Lemma narrow_character c : 0 <= c < 65536 -> Z.land c (Z.lnot 255) = 0 -> c < 256.
Proof.
  intros Hc H. assert (c = Z.land c 255) as E.
  { apply Z.bits_inj'. intros n Hn. rewrite Z.land_spec. assert (Z.testbit (Z.land c (Z.lnot 255)) n = false) as Hb by (rewrite H; apply Z.bits_0).
    rewrite Z.land_spec, Z.lnot_spec in Hb by lia. by destruct (Z.testbit c n), (Z.testbit 255 n). }
  rewrite E. change 255 with (Z.ones 8). rewrite Z.land_ones by lia. lia.
Qed.

Lemma appendString_ok s b : okChars s -> okChars b -> okChars (appendString s b).
Proof.
  unfold appendString, String_length. destruct s as [w l], b as [w' l']; cbn [characters is8Bit]. intros Hs Hb.
  step_if; [done|]. step_if; [done|]. destruct w.
  - apply okChars_app; [done|by apply okChars_widen].
  - destruct w'; [|by destruct l as [|c [|d l]]; cbn [append16 append8 is8Bit characters andb]; [|apply okChars_app..]].
    pose proof (okChars_widen false l' Hb). destruct l as [|c [|d l]]; cbn [append16 append8 is8Bit characters andb]; [done| |by apply okChars_app].
    destruct (Z.eqb_spec (Z.land c (Z.lnot 255)) 0) as [E|E]; [|by apply okChars_app]. apply okChars_app; [done|]. unfold okChars in *. cbn in *. apply Forall_cons in Hs as [Hc _].
    constructor; [|done]. pose proof (narrow_character c Hc E). lia.
Qed.

Lemma appendChar_ok c b : 0 <= c < 256 -> okChars b -> okChars (appendChar c b).
Proof.
  destruct b as [w l]. intros Hc Hb. apply okChars_app; [done|]. apply okChars_widen. unfold okChars. cbn. by apply Forall_singleton.
Qed.

Lemma combineSelectors_rest l : forall i b,
  characters (combineSelectors (S i) l b) = characters b ++ concat ((fun s => chr "," :: characters s) <$> l).
Proof.
  induction l as [|s l IH]; intros i b; [cbn; by rewrite app_nil_r|]. cbn [combineSelectors]. rewrite IH, appendString_characters.
  unfold appendChar, append8. cbn [characters]. rewrite fmap_cons. cbn [concat app]. by rewrite <- !app_assoc.
Qed.

Lemma combineSelectors_characters l : characters (combineSelectors 0 l newBuilder) = joinSelectors l.
Proof. destruct l as [|s l]; [done|]. cbn [combineSelectors joinSelectors]. by rewrite combineSelectors_rest, appendString_characters. Qed.

Lemma combineSelectors_ok l : forall i b, Forall okChars l -> okChars b -> okChars (combineSelectors i l b).
Proof.
  induction l as [|s l IH]; intros i b Hl Hb; [done|]. apply Forall_cons in Hl as [Hs Hl]. cbn [combineSelectors]. apply IH; [done|].
  apply appendString_ok; [done|]. destruct i; [done|]. apply appendChar_ok; [lia|done].
Qed.

(** * The invariant of serializing a rule list *)

Import DFABytecode ContentExtensionRule ContentExtensionCompiler.

(** ** Rules that share a location *)

Definition isIgnore (r : Rule) : bool := bool_decide (m_type (action r) = IgnorePreviousRules).
Definition arg (r : Rule) : WTFString := argument (action r).

(** The indices of the rules at location [l], in order. *)
Definition sharedIdx (locs : list Z) (l : Z) : list nat := filter (fun i => locs !! i = Some l) (seq 0 (length locs)).
Definition shared (P : list Rule) (locs : list Z) (l : Z) : list Rule := omap (fun i => P !! i) (sharedIdx locs l).

Lemma elem_sharedIdx locs l i : i ∈ sharedIdx locs l <-> locs !! i = Some l.
Proof.
  unfold sharedIdx. rewrite list_elem_of_filter, elem_of_seq. split; [by intros [? _]|]. intros H. split; [done|]. apply lookup_lt_Some in H. lia.
Qed.

Lemma StronglySorted_filter (Q : nat -> Prop) `{forall i, Decision (Q i)} l : StronglySorted lt l -> StronglySorted lt (filter Q l).
Proof.
  induction 1 as [|i l Hl IH Hi]; [constructor|]. rewrite filter_cons. destruct (decide (Q i)); [|done]. constructor; [done|].
  rewrite Forall_forall in Hi |- *. intros j Hj. apply list_elem_of_filter in Hj as [_ Hj]. by apply Hi.
Qed.

Lemma StronglySorted_seq n : forall i, StronglySorted lt (seq i n).
Proof.
  induction n as [|n IH]; intros i; cbn [seq]; constructor; [done|]. rewrite Forall_forall. intros j Hj. apply elem_of_seq in Hj. lia.
Qed.

Lemma sharedIdx_sorted locs l : StronglySorted lt (sharedIdx locs l).
Proof. apply StronglySorted_filter, StronglySorted_seq. Qed.

Lemma sorted_NoDup l : StronglySorted lt l -> NoDup l.
Proof.
  induction 1 as [|i l Hl IH Hi]; constructor; [|done]. rewrite Forall_forall in Hi. intros Hin. specialize (Hi i Hin). lia.
Qed.

(** Increasing lists with the same elements are equal. *)
Lemma sorted_eq l1 l2 : StronglySorted lt l1 -> StronglySorted lt l2 -> (forall i, i ∈ l1 <-> i ∈ l2) -> l1 = l2.
Proof.
  intros H1 H2 H. assert (AntiSymm eq lt) by (intros x y; lia). apply (StronglySorted_unique lt); [done..|]. apply NoDup_Permutation; [by apply sorted_NoDup..|done].
Qed.

Lemma sharedIdx_ext locs locs' l : (forall i, locs !! i = Some l <-> locs' !! i = Some l) -> sharedIdx locs l = sharedIdx locs' l.
Proof. intros H. apply sorted_eq; [apply sharedIdx_sorted..|]. intros i. by rewrite !elem_sharedIdx. Qed.

Lemma shared_grow P r locs l x : length locs = length P -> x <> l -> shared (P ++ [r]) (locs ++ [x]) l = shared P locs l.
Proof.
  intros Hl Hx. unfold shared. assert (sharedIdx (locs ++ [x]) l = sharedIdx locs l) as E.
  { apply sharedIdx_ext. intros i. rewrite lookup_app. destruct (locs !! i) eqn:E; [done|].
    apply lookup_ge_None in E. split; [|done]. intros H. apply list_lookup_singleton_Some in H as [_ ?]. done. }
  rewrite E. assert (Forall (fun i => i < length P)%nat (sharedIdx locs l)) as Hall.
  { apply Forall_forall. intros i Hi. apply elem_sharedIdx, lookup_lt_Some in Hi. lia. }
  clear E. induction Hall as [|i is_ Hi _ IH]; [done|]. cbn [omap list_omap]. rewrite lookup_app_l by done. destruct (P !! i); cbn; by rewrite IH.
Qed.

(** Triggers are compared by the members [operator==] names. *)
Definition Trigger_key (t : Trigger) := (urlFilter t, urlFilterIsCaseSensitive t, flags t, conditions t, conditionType t).

Lemma Trigger_eqb_key a b : Trigger_eqb a b = true <-> Trigger_key a = Trigger_key b.
Proof.
  unfold Trigger_eqb, Trigger_key. rewrite !andb_true_iff, !bool_decide_eq_true, eqb_true_iff, Z.eqb_eq. split.
  - intros ((((-> & ->) & ->) & ->) & ->). done.
  - intros E. by injection E.
Qed.

(** ** Sizes *)

Definition ruleCost (r : Rule) : Z := 8 + 2 * String_length (arg r).
Definition rulesCost (P : list Rule) : Z := foldr (fun r n => ruleCost r + n) 0 P.
Definition selectorsCost (l : list WTFString) : Z := foldr (fun s n => 2 * (String_length s + 1) + n) 0 l.
Definition pendingCost (css : PendingMap) : Z := foldr (fun slot n => 6 + selectorsCost (selectors slot.2) + n) 0 css.

Lemma rulesCost_snoc P r : rulesCost (P ++ [r]) = rulesCost P + ruleCost r.
Proof. induction P as [|r' P IH]; [cbn; lia|]. cbn [app rulesCost foldr]. fold (rulesCost (P ++ [r])). fold (rulesCost P). lia. Qed.

Lemma rulesCost_nonneg P : 0 <= rulesCost P.
Proof. induction P as [|r P IH]; [done|]. cbn [rulesCost foldr]. fold (rulesCost P). unfold ruleCost, String_length. lia. Qed.

Lemma selectorsCost_snoc l s : selectorsCost (l ++ [s]) = selectorsCost l + 2 * (String_length s + 1).
Proof. induction l as [|s' l IH]; [cbn; lia|]. cbn [app selectorsCost foldr]. fold (selectorsCost (l ++ [s])). fold (selectorsCost l). lia. Qed.

Lemma selectorsCost_nonneg l : 0 <= selectorsCost l.
Proof. induction l as [|s l IH]; [done|]. cbn [selectorsCost foldr]. fold (selectorsCost l). unfold String_length. lia. Qed.

Lemma pendingCost_cons slot css : pendingCost (slot :: css) = 6 + selectorsCost (selectors slot.2) + pendingCost css.
Proof. done. Qed.

Lemma pendingCost_nonneg css : 0 <= pendingCost css.
Proof. induction css as [|slot css IH]; [done|]. rewrite pendingCost_cons. pose proof (selectorsCost_nonneg (selectors slot.2)). lia. Qed.

Lemma pendingCost_perm css css' : css ≡ₚ css' -> pendingCost css = pendingCost css'.
Proof. induction 1; [done| | |congruence]; rewrite !pendingCost_cons; lia. Qed.

Lemma pendingCost_add t s n css : pendingCost (addPending t s n css) <= pendingCost css + 8 + 2 * String_length s.
Proof.
  induction css as [|[t' p] css IH]; cbn [addPending]; [cbn; lia|]. destruct (Trigger_eqb t' t); rewrite !pendingCost_cons; cbn [snd selectors].
  - rewrite selectorsCost_snoc. lia.
  - lia.
Qed.

Lemma joinSelectors_cost l : 2 * Z.of_nat (length (joinSelectors l)) <= selectorsCost l.
Proof.
  assert (forall l, 2 * Z.of_nat (length (concat ((fun s => chr "," :: characters s) <$> l))) = selectorsCost l) as H.
  { clear l. induction l as [|s l IH]; [done|]. rewrite fmap_cons. cbn [concat length selectorsCost foldr app]. fold (selectorsCost l).
    rewrite length_app. unfold String_length. lia. }
  destruct l as [|s l]; [done|]. cbn [joinSelectors]. rewrite length_app. specialize (H l). cbn [selectorsCost foldr]. fold (selectorsCost l).
  unfold String_length. lia.
Qed.

(** ** The invariant *)

(** The entry at the location of a rule is its action; a selector holds those
    of all rules at that location, which have the same trigger. *)
Definition ruleAt (P : list Rule) (locs A : list Z) (r : Rule) (l : Z) : Prop :=
  match m_type (action r) with
  | CSSDisplayNoneSelector =>
      exists str, entryFrom A l (ESelector str) /\ okChars str /\ characters str = joinSelectors (arg <$> shared P locs l)
        /\ Forall (fun r' => Trigger_eqb (trigger r) (trigger r') = true) (shared P locs l)
  | t => entryFrom A l (EType t)
  end.

(** Rule [i] waits for its selector to be combined under the trigger [t]. *)
Definition waiting (P : list Rule) (t : Trigger) (i : nat) (s : WTFString) : Prop :=
  exists r, P !! i = Some r /\ m_type (action r) = CSSDisplayNoneSelector /\ arg r = s /\ Trigger_eqb t (trigger r) = true.

Definition slotOk (P : list Rule) (slot : Trigger * PendingDisplayNoneActions) : Prop :=
  exists idx, clientLocations slot.2 = Z.of_nat <$> idx /\ StronglySorted lt idx /\ Forall2 (waiting P slot.1) idx (selectors slot.2).

Definition pendingIdx (css : PendingMap) : list Z := foldr (fun slot l => clientLocations slot.2 ++ l) [] css.

Lemma pendingIdx_cons slot css : pendingIdx (slot :: css) = clientLocations slot.2 ++ pendingIdx css.
Proof. done. Qed.

Lemma pendingIdx_perm css css' : css ≡ₚ css' -> pendingIdx css ≡ₚ pendingIdx css'.
Proof.
  induction 1 as [|slot css css' _ IH|slot slot' css|css css' css'' _ IH _ IH']; [done| | |by etrans]; rewrite !pendingIdx_cons; [by rewrite IH|].
  rewrite !app_assoc. by rewrite (Permutation_app_comm (clientLocations slot'.2)).
Qed.

Definition okRule (r : Rule) : Prop :=
  okChars (arg r) /\ m_type (action r) <> CSSDisplayNoneStyleSheet /\ m_type (action r) <> InvalidAction.

Record Inv (P : list Rule) (A locs : list Z) (M : ActionType -> gmap Z Z) (css : PendingMap) : Prop := {
  inv_rules : Forall okRule P;
  inv_length : length locs = length P;
  inv_entries : isEntries A;
  inv_size : Z.of_nat (length A) + pendingCost css <= rulesCost P;
  inv_bound : rulesCost P < noLocation;
  inv_at : forall i r l, P !! i = Some r -> locs !! i = Some l -> l <> noLocation -> 0 <= l < Z.of_nat (length A) /\ ruleAt P locs A r l;
  inv_pending : forall i, locs !! i = Some noLocation <-> Z.of_nat i ∈ pendingIdx css;
  inv_slots : Forall (slotOk P) css;
  inv_nodup : NoDup (pendingIdx css);
  inv_order : forall i k r r' l l', P !! i = Some r -> P !! k = Some r' -> isIgnore r = false -> isIgnore r' = true ->
    locs !! i = Some l -> locs !! k = Some l' -> ((i < k)%nat -> l < l') /\ ((k < i)%nat -> l' < l);
  inv_map : forall t f l, M t !! f = Some l -> entryFrom A l (EType t) /\ t <> CSSDisplayNoneSelector /\
    if bool_decide (t = IgnorePreviousRules) then css = [] /\ forall i r l', P !! i = Some r -> isIgnore r = false -> locs !! i = Some l' -> l' < l
    else forall k r l', P !! k = Some r -> isIgnore r = true -> locs !! k = Some l' -> l' < l }.

Lemma serializer_init M : (forall t, M t = ∅) -> Inv [] [] [] M [].
Proof.
  intros HM. constructor; try done.
  - apply isEntries_nil.
  - intros i. split; [done|]. intros H%not_elem_of_nil. done.
  - constructor.
  - intros t f l. by rewrite HM.
Qed.

Lemma Inv_maps P A locs M M' css : Inv P A locs M css -> (forall t f l, M' t !! f = Some l -> M t !! f = Some l) -> Inv P A locs M' css.
Proof. intros HI H. destruct HI as [? ? ? ? ? ? ? ? ? ? Hm]. constructor; try done. intros t f l Hl. exact (Hm t f l (H t f l Hl)). Qed.

(** A rule that waits is a selector, and later than every ignoring rule. *)
Lemma slotOk_waiting P slot z : slotOk P slot -> z ∈ clientLocations slot.2 -> exists i s, z = Z.of_nat i /\ waiting P slot.1 i s.
Proof.
  intros (idx & -> & _ & Hw) Hz. apply list_elem_of_fmap in Hz as (i & -> & Hi). apply list_elem_of_lookup in Hi as [k Hk].
  destruct (Forall2_lookup_l _ _ _ _ _ Hw Hk) as (s & _ & Hs). by exists i, s.
Qed.

Lemma pending_waiting P css z : Forall (slotOk P) css -> z ∈ pendingIdx css -> exists i t s, z = Z.of_nat i /\ waiting P t i s.
Proof.
  induction 1 as [|slot css Hs _ IH]; [by intros ?%not_elem_of_nil|]. rewrite pendingIdx_cons, elem_of_app. intros [Hz|Hz]; [|auto].
  destruct (slotOk_waiting _ _ _ Hs Hz) as (i & s & ? & ?). eauto.
Qed.

Section Facts.

Context (P : list Rule) (A locs : list Z) (M : ActionType -> gmap Z Z) (css : PendingMap).
Hypothesis HI : Inv P A locs M css.

Lemma inv_lt : Z.of_nat (length A) < noLocation.
Proof using HI. pose proof (inv_size _ _ _ _ _ HI). pose proof (inv_bound _ _ _ _ _ HI). pose proof (pendingCost_nonneg css). lia. Qed.

Lemma pending_selector i r : P !! i = Some r -> locs !! i = Some noLocation -> m_type (action r) = CSSDisplayNoneSelector.
Proof using HI.
  intros Hr Hl. apply (inv_pending _ _ _ _ _ HI) in Hl. apply (pending_waiting P css _ (inv_slots _ _ _ _ _ HI)) in Hl as (j & t & s & E & r' & Hr' & Ht & _).
  apply Nat2Z.inj in E as <-. congruence.
Qed.

Lemma inv_loc i r l : P !! i = Some r -> locs !! i = Some l -> (l = noLocation /\ m_type (action r) = CSSDisplayNoneSelector) \/ 0 <= l < Z.of_nat (length A).
Proof using HI.
  intros Hr Hl. destruct (decide (l = noLocation)) as [->|Hn]; [left; split; [done|by eapply pending_selector]|right].
  by apply (inv_at _ _ _ _ _ HI i r l).
Qed.

Lemma inv_loc_ignore i r l : P !! i = Some r -> isIgnore r = true -> locs !! i = Some l -> 0 <= l < Z.of_nat (length A).
Proof using HI.
  intros Hr Hi Hl. destruct (inv_loc i r l Hr Hl) as [[_ E]|]; [|done]. unfold isIgnore in Hi. rewrite E in Hi. by rewrite bool_decide_eq_false_2 in Hi.
Qed.

Lemma inv_loc_settled i r l : css = [] -> P !! i = Some r -> locs !! i = Some l -> 0 <= l < Z.of_nat (length A).
Proof using HI.
  intros Hcss Hr Hl. destruct (inv_loc i r l Hr Hl) as [[-> _]|]; [|done].
  apply (inv_pending _ _ _ _ _ HI) in Hl. rewrite Hcss in Hl. by apply not_elem_of_nil in Hl.
Qed.

End Facts.

(** ** Growing the list of rules *)

Lemma lookup_snoc_cases {X} (l : list X) x i y : (l ++ [x]) !! i = Some y -> (l !! i = Some y /\ (i < length l)%nat) \/ (i = length l /\ y = x).
Proof.
  intros H. apply lookup_snoc_Some in H as [[? ?]|[? ?]]; [by left|by right].
Qed.

Lemma lookup_snoc_last {X} (l : list X) x : (l ++ [x]) !! length l = Some x.
Proof. by rewrite lookup_app_r, Nat.sub_diag by lia. Qed.

Lemma ruleAt_grow P locs A B r r' l x :
  isEntries B -> length locs = length P -> ruleAt P locs A r l -> (m_type (action r) = CSSDisplayNoneSelector -> x <> l) -> ruleAt (P ++ [r']) (locs ++ [x]) (A ++ B) r l.
Proof.
  intros HB Hl. unfold ruleAt. destruct (m_type (action r)); try (intros; by apply entryFrom_app).
  intros (str & H1 & H2 & H3 & H4) Hx. specialize (Hx eq_refl). exists str. rewrite (shared_grow P r' locs l x Hl Hx).
  split; [by apply entryFrom_app|done].
Qed.

Lemma waiting_grow P r t i s : waiting P t i s -> waiting (P ++ [r]) t i s.
Proof. intros (r' & H & ?). exists r'. by rewrite (lookup_app_l_Some _ _ _ _ H). Qed.

Lemma slotOk_grow P r slot : slotOk P slot -> slotOk (P ++ [r]) slot.
Proof. intros (idx & H1 & H2 & H3). exists idx. split; [done|]. split; [done|]. eapply Forall2_impl; [done|]. intros. by apply waiting_grow. Qed.

(** The bytes of a new rule that is not combined with others. *)
Definition ruleEntry (r : Rule) : Entry :=
  if bool_decide (m_type (action r) = CSSDisplayNoneSelector) then ESelector (arg r) else EType (m_type (action r)).

Lemma ruleEntry_ok r : okRule r -> okEntry (ruleEntry r) /\ Z.of_nat (length (entryBytes (ruleEntry r))) <= ruleCost r.
Proof.
  intros (H1 & H2 & H3). rewrite entryBytes_length. unfold ruleEntry, ruleCost, unitSize, headerLength. case_bool_decide; cbn [okEntry].
  - split; [done|]. unfold String_length. destruct (is8Bit (arg r)); lia.
  - split; [done|]. unfold String_length. lia.
Qed.

Lemma shared_new P r locs x : length locs = length P -> x ∉ locs -> shared (P ++ [r]) (locs ++ [x]) x = [r].
Proof.
  intros Hl Hx. unfold shared. assert (sharedIdx (locs ++ [x]) x = [length locs]) as ->.
  { apply sorted_eq; [apply sharedIdx_sorted|repeat constructor|]. intros i. rewrite elem_sharedIdx, list_elem_of_singleton. split.
    - intros H. apply lookup_snoc_cases in H as [[H _]|[-> _]]; [|done]. apply list_elem_of_lookup_2 in H. done.
    - intros ->. apply lookup_snoc_last. }
  cbn [omap list_omap]. rewrite Hl. by rewrite lookup_snoc_last.
Qed.

(** ** Pending selectors *)

Lemma pendingIdx_add t s n css : pendingIdx (addPending t s n css) ≡ₚ n :: pendingIdx css.
Proof.
  induction css as [|[t' p] css IH]; [done|]. cbn [addPending]. destruct (Trigger_eqb t' t); rewrite !pendingIdx_cons; cbn [snd clientLocations].
  - rewrite <- app_assoc. cbn [app]. by rewrite Permutation_middle.
  - rewrite IH. by rewrite Permutation_middle.
Qed.

Lemma StronglySorted_snoc l n : StronglySorted lt l -> Forall (fun i => i < n)%nat l -> StronglySorted lt (l ++ [n]).
Proof.
  induction 1 as [|i l Hl IH Hi]; intros Hn; cbn [app]; [by repeat constructor|]. apply Forall_cons in Hn as [Hin Hn].
  constructor; [by apply IH|]. apply Forall_app. split; [done|by apply Forall_singleton].
Qed.

Lemma slots_add P r css :
  m_type (action r) = CSSDisplayNoneSelector -> Forall (slotOk P) css ->
  Forall (slotOk (P ++ [r])) (addPending (trigger r) (arg r) (Z.of_nat (length P)) css).
Proof.
  intros Ht. assert (forall t, Trigger_eqb t (trigger r) = true -> waiting (P ++ [r]) t (length P) (arg r)) as Hnew.
  { intros t E. exists r. by rewrite lookup_snoc_last. }
  induction 1 as [|[t' p] css Hs Hcss IH]; cbn [addPending].
  - apply Forall_singleton. exists [length P]. split; [done|]. split; [repeat constructor|]. constructor; [|constructor]. apply Hnew. by apply Trigger_eqb_key.
  - destruct (Trigger_eqb t' (trigger r)) eqn:E; constructor; [|by eapply Forall_impl; [exact Hcss|intros; by apply slotOk_grow]|by apply slotOk_grow|done].
    destruct Hs as (idx & Hc & Hsort & Hw). cbn [fst snd] in *. exists (idx ++ [length P]). cbn [fst snd selectors clientLocations]. rewrite Hc, fmap_app.
    split; [done|]. split.
    + apply StronglySorted_snoc; [done|]. apply Forall_forall. intros i Hi. apply list_elem_of_lookup in Hi as [k Hk].
      destruct (Forall2_lookup_l _ _ _ _ _ Hw Hk) as (s & _ & r' & Hr' & _). by eapply lookup_lt_Some.
    + apply Forall2_app; [|constructor; [by apply Hnew|constructor]]. eapply Forall2_impl; [done|]. intros. by apply waiting_grow.
Qed.

(** ** The steps *)

Section Step.

Context (P : list Rule) (A locs : list Z) (M : ActionType -> gmap Z Z) (css : PendingMap) (r : Rule).
Hypothesis HI : Inv P A locs M css.
Hypothesis Hr : okRule r.
Hypothesis Hcost : rulesCost (P ++ [r]) < noLocation.

(** What has been cleared before the rule. *)
Hypothesis Hclear : if isIgnore r then css = [] /\ forall t, t <> IgnorePreviousRules -> M t = ∅ else M IgnorePreviousRules = ∅.

Lemma new_rule_order l : (isIgnore r = true -> forall i r' l', P !! i = Some r' -> isIgnore r' = false -> locs !! i = Some l' -> l' < l) ->
  (isIgnore r = false -> forall k r' l', P !! k = Some r' -> isIgnore r' = true -> locs !! k = Some l' -> l' < l) ->
  forall i k r1 r2 l1 l2, (P ++ [r]) !! i = Some r1 -> (P ++ [r]) !! k = Some r2 -> isIgnore r1 = false -> isIgnore r2 = true ->
    (locs ++ [l]) !! i = Some l1 -> (locs ++ [l]) !! k = Some l2 -> ((i < k)%nat -> l1 < l2) /\ ((k < i)%nat -> l2 < l1).
Proof using HI.
  intros Hig Hno i k r1 r2 l1 l2 H1 H2 E1 E2 L1 L2. pose proof (inv_length _ _ _ _ _ HI) as Hlen.
  apply lookup_snoc_cases in H1 as [[H1 B1]|[-> ->]], H2 as [[H2 B2]|[-> ->]]; apply lookup_snoc_cases in L1 as [[L1 B3]|[? ->]], L2 as [[L2 B4]|[? ->]];
    try lia; try congruence.
  - by eapply (inv_order _ _ _ _ _ HI).
  - split; [|lia]. intros _. by eapply Hig.
  - split; [lia|]. intros _. by eapply Hno.
Qed.

Lemma new_rule_below i r' l : P !! i = Some r' -> locs !! i = Some l -> (isIgnore r = true \/ isIgnore r' = true) -> l < Z.of_nat (length A).
Proof using HI Hclear.
  intros H L [E|E].
  - rewrite E in Hclear. destruct Hclear as [Hc _]. pose proof (inv_loc_settled _ _ _ _ _ HI i r' l Hc H L). lia.
  - pose proof (inv_loc_ignore _ _ _ _ _ HI i r' l H E L). lia.
Qed.

Lemma fresh_location : Z.of_nat (length A) ∉ locs.
Proof using HI.
  intros Hin. apply list_elem_of_lookup in Hin as [i Hi]. pose proof (inv_lt _ _ _ _ _ HI).
  destruct (lookup_lt_is_Some_2 P i) as [r' Hr']; [rewrite <- (inv_length _ _ _ _ _ HI); by eapply lookup_lt_Some|].
  destruct (inv_loc _ _ _ _ _ HI i r' _ Hr' Hi) as [[? _]|]; lia.
Qed.

(** What the maps hold stays right. *)
Lemma old_map t f l x B : isEntries B -> M t !! f = Some l -> entryFrom (A ++ B) l (EType t) /\ t <> CSSDisplayNoneSelector /\
  if bool_decide (t = IgnorePreviousRules)
  then css = [] /\ forall i r' l', (P ++ [r]) !! i = Some r' -> isIgnore r' = false -> (locs ++ [x]) !! i = Some l' -> l' < l
  else forall k r' l', (P ++ [r]) !! k = Some r' -> isIgnore r' = true -> (locs ++ [x]) !! k = Some l' -> l' < l.
Proof using HI Hclear.
  intros HB Hold. destruct (inv_map _ _ _ _ _ HI t f l Hold) as (H1 & H2 & H3). split; [by apply entryFrom_app|]. split; [done|].
  pose proof (inv_length _ _ _ _ _ HI) as Hlen. case_bool_decide as Et.
  - destruct H3 as [H3 H4]. split; [done|]. intros i r' l' H E L. subst t. destruct (isIgnore r) eqn:Ei; [|by rewrite Hclear in Hold].
    apply lookup_snoc_cases in H as [[H B1]|[-> ->]]; apply lookup_snoc_cases in L as [[L B2]|[? ->]]; try lia; [by eapply H4|congruence].
  - intros k r' l' H E L. destruct (isIgnore r) eqn:Ei; [destruct Hclear as [_ Hc]; by rewrite Hc in Hold|].
    apply lookup_snoc_cases in H as [[H B1]|[-> ->]]; apply lookup_snoc_cases in L as [[L B2]|[? ->]]; try lia; [by eapply H3|congruence].
Qed.

(** A rule with an entry of its own, the map of its type possibly keeping the
    location. *)
Lemma Inv_push M' :
  (forall t f l, M' t !! f = Some l -> M t !! f = Some l \/ (l = Z.of_nat (length A) /\ ruleEntry r = EType t)) ->
  Inv (P ++ [r]) (A ++ entryBytes (ruleEntry r)) (locs ++ [Z.of_nat (length A)]) M' css.
Proof using HI Hr Hcost Hclear.
  intros HM. destruct (ruleEntry_ok r Hr) as [Hok Hsz]. pose proof (inv_lt _ _ _ _ _ HI) as Hlt. pose proof (inv_length _ _ _ _ _ HI) as Hlen.
  pose proof (entryBytes_pos (ruleEntry r)) as Hpos. pose proof fresh_location as Hfresh. constructor.
  - apply Forall_app. split; [apply (inv_rules _ _ _ _ _ HI)|by apply Forall_singleton].
  - rewrite !length_app. cbn. lia.
  - apply isEntries_app; [apply (inv_entries _ _ _ _ _ HI)|by apply isEntries_one].
  - rewrite length_app, rulesCost_snoc. pose proof (inv_size _ _ _ _ _ HI). lia.
  - done.
  - intros i r' l H L Hn. rewrite length_app. apply lookup_snoc_cases in H as [[H B1]|[-> ->]]; apply lookup_snoc_cases in L as [[L B2]|[? ->]]; try lia.
    + destruct (inv_at _ _ _ _ _ HI i r' l H L Hn) as [Hb Ha]. split; [lia|]. apply ruleAt_grow; [auto with wk|done|done|]. lia.
    + split; [lia|]. unfold ruleAt. pose proof (entryFrom_end A (ruleEntry r) (inv_entries _ _ _ _ _ HI)) as He. pose proof (shared_new P r locs _ Hlen Hfresh) as Hs.
      destruct Hr as (Hc & Hss & Hinv). revert He. unfold ruleEntry. case_bool_decide as Et.
      * intros He. rewrite Et. exists (arg r). rewrite Hs. split; [done|]. split; [done|]. split; [cbn; by rewrite app_nil_r|].
        apply Forall_singleton. by apply Trigger_eqb_key.
      * by destruct (m_type (action r)).
  - intros i. rewrite <- (inv_pending _ _ _ _ _ HI). split.
    + intros H. apply lookup_snoc_cases in H as [[H _]|[_ ?]]; [done|lia].
    + intros H. by apply lookup_app_l_Some.
  - eapply Forall_impl; [apply (inv_slots _ _ _ _ _ HI)|]. intros. by apply slotOk_grow.
  - apply (inv_nodup _ _ _ _ _ HI).
  - apply new_rule_order; intros E i r' l' H E' L; eapply new_rule_below; eauto.
  - intros t f l Hl. destruct (HM t f l Hl) as [Hold|[-> Ent]].
    + destruct (old_map t f l (Z.of_nat (length A)) (entryBytes (ruleEntry r)) (isEntries_one _ Hok) Hold) as (H1 & H2 & H3). split; [done|]. split; [done|]. by case_bool_decide.
    + rewrite <- Ent. split; [apply entryFrom_end, (inv_entries _ _ _ _ _ HI)|]. unfold ruleEntry in Ent. case_bool_decide as Ec; [done|]. injection Ent as Ent. split; [congruence|].
      case_bool_decide as Et.
      * assert (isIgnore r = true) as Ei by (unfold isIgnore; apply bool_decide_eq_true_2; congruence). pose proof Hclear as Hc. rewrite Ei in Hc.
        split; [apply Hc|]. intros i r' l' H E L. apply lookup_snoc_cases in H as [[H B1]|[-> ->]]; [|congruence].
        apply lookup_snoc_cases in L as [[L B2]|[? ->]]; [|lia]. eapply new_rule_below; eauto.
      * intros k r' l' H E L. apply lookup_snoc_cases in H as [[H B1]|[-> ->]].
        -- apply lookup_snoc_cases in L as [[L B2]|[? ->]]; [|lia]. eapply new_rule_below; eauto.
        -- unfold isIgnore in E. apply bool_decide_eq_true in E. congruence.
Qed.

(** A rule that shares the location of an earlier one of its type. *)
Lemma Inv_reuse f l : M (m_type (action r)) !! f = Some l -> Inv (P ++ [r]) A (locs ++ [l]) M css.
Proof using HI Hr Hcost Hclear.
  intros Hm. destruct (inv_map _ _ _ _ _ HI _ f l Hm) as (H1 & H2 & H3). pose proof (entryAt_bound _ _ _ (entryFrom_at _ _ _ H1)) as Hb. cbn [entryBytes length] in Hb.
  pose proof (inv_lt _ _ _ _ _ HI) as Hlt. pose proof (inv_length _ _ _ _ _ HI) as Hlen. constructor.
  - apply Forall_app. split; [apply (inv_rules _ _ _ _ _ HI)|by apply Forall_singleton].
  - rewrite !length_app. cbn. lia.
  - apply (inv_entries _ _ _ _ _ HI).
  - rewrite rulesCost_snoc. pose proof (inv_size _ _ _ _ _ HI). unfold ruleCost, String_length. lia.
  - done.
  - intros i r' l' H L Hn. rewrite <- (app_nil_r A). apply lookup_snoc_cases in H as [[H B1]|[-> ->]]; apply lookup_snoc_cases in L as [[L B2]|[? ->]]; try lia.
    + destruct (inv_at _ _ _ _ _ HI i r' l' H L Hn) as [Hb' Ha]. rewrite app_nil_r at 1. split; [done|]. apply ruleAt_grow; [auto with wk|done|done|].
      intros Et ->. unfold ruleAt in Ha. rewrite Et in Ha. destruct Ha as (str & Ha & _). pose proof (entryAt_same_type _ _ _ _ (entryFrom_at _ _ _ H1) (entryFrom_at _ _ _ Ha)). done.
    + rewrite app_nil_r. split; [lia|]. unfold ruleAt. destruct Hr as (_ & Hss & Hinv). by destruct (m_type (action r)).
  - intros i. rewrite <- (inv_pending _ _ _ _ _ HI). split.
    + intros H. apply lookup_snoc_cases in H as [[H _]|[_ ?]]; [done|lia].
    + intros H. by apply lookup_app_l_Some.
  - eapply Forall_impl; [apply (inv_slots _ _ _ _ _ HI)|]. intros. by apply slotOk_grow.
  - apply (inv_nodup _ _ _ _ _ HI).
  - unfold isIgnore in *. apply new_rule_order; intros E; [|]; unfold isIgnore in E; rewrite E in H3; [by destruct H3|done].
  - intros t f' l' Hl. rewrite <- (app_nil_r A). apply (old_map t f'); [auto with wk|done].
Qed.

(** A selector that waits to be combined. *)
Lemma Inv_wait : m_type (action r) = CSSDisplayNoneSelector ->
  Inv (P ++ [r]) A (locs ++ [noLocation]) M (addPending (trigger r) (arg r) (Z.of_nat (length locs)) css).
Proof using HI Hr Hcost Hclear.
  intros Ht. pose proof (inv_lt _ _ _ _ _ HI) as Hlt. pose proof (inv_length _ _ _ _ _ HI) as Hlen.
  assert (isIgnore r = false) as Ei by (unfold isIgnore; by rewrite Ht).
  pose proof (pendingIdx_add (trigger r) (arg r) (Z.of_nat (length locs)) css) as Hperm. constructor.
  - apply Forall_app. split; [apply (inv_rules _ _ _ _ _ HI)|by apply Forall_singleton].
  - rewrite !length_app. cbn. lia.
  - apply (inv_entries _ _ _ _ _ HI).
  - rewrite rulesCost_snoc. pose proof (inv_size _ _ _ _ _ HI). pose proof (pendingCost_add (trigger r) (arg r) (Z.of_nat (length locs)) css).
    unfold ruleCost. lia.
  - done.
  - intros i r' l' H L Hn. rewrite <- (app_nil_r A). apply lookup_snoc_cases in H as [[H B1]|[-> ->]]; apply lookup_snoc_cases in L as [[L B2]|[? ->]]; try lia.
    + destruct (inv_at _ _ _ _ _ HI i r' l' H L Hn) as [Hb' Ha]. rewrite app_nil_r at 1. split; [done|]. apply ruleAt_grow; [auto with wk|done|done|]. lia.
  - intros i. rewrite Hperm, elem_of_cons, <- (inv_pending _ _ _ _ _ HI). split.
    + intros H. apply lookup_snoc_cases in H as [[H _]|[-> _]]; [by right|by left].
    + intros [H|H]; [|by apply lookup_app_l_Some]. apply Nat2Z.inj in H as ->. apply lookup_snoc_last.
  - rewrite Hlen. apply slots_add; [done|apply (inv_slots _ _ _ _ _ HI)].
  - rewrite Hperm. constructor; [|apply (inv_nodup _ _ _ _ _ HI)]. rewrite <- (inv_pending _ _ _ _ _ HI). intros H. apply lookup_lt_Some in H. lia.
  - apply new_rule_order; [congruence|]. intros _ k r' l' H E L. pose proof (inv_loc_ignore _ _ _ _ _ HI k r' l' H E L). lia.
  - intros t f' l' Hl. rewrite <- (app_nil_r A). destruct (old_map t f' l' noLocation [] isEntries_nil Hl) as (H1 & H2 & H3). split; [done|]. split; [done|].
    case_bool_decide as Et; [|done]. subst t. rewrite Ei in Hclear. by rewrite Hclear in Hl.
Qed.

End Step.

(** * What the serialized actions of a rule list are *)

Import DFABytecode ContentExtensionRule ContentExtensionCompiler.

(** ** Resolving pending selectors *)

Lemma setLocations_spec idx x : forall locs, Forall (fun i => i < length locs)%nat idx ->
  exists locs', setLocations locs (Z.of_nat <$> idx) x = Some locs' /\ length locs' = length locs
    /\ forall i, locs' !! i = if bool_decide (i ∈ idx) then Some x else locs !! i.
Proof.
  induction idx as [|k idx IH]; intros locs H; [by exists locs|]. apply Forall_cons in H as [Hk H]. rewrite fmap_cons. cbn [setLocations].
  unfold DFABytecodeCompiler.set_. rewrite (proj2 (andb_true_iff _ _)) by (split; lia). cbn [mbind option_bind]. rewrite Nat2Z.id.
  destruct (IH (<[k := x]> locs)) as (locs' & E & Hl & Hi); [by rewrite length_insert|]. exists locs'. split; [done|]. rewrite length_insert in Hl. split; [done|].
  intros i. rewrite Hi. destruct (decide (i ∈ idx)) as [Hin|Hin].
  - rewrite !bool_decide_eq_true_2 by (by try right). done.
  - rewrite (bool_decide_eq_false_2 (i ∈ idx)) by done. destruct (decide (i = k)) as [->|Hne].
    + rewrite list_lookup_insert_eq, bool_decide_eq_true_2 by (done || left). done.
    + rewrite list_lookup_insert_ne, bool_decide_eq_false_2 by (done || set_solver). done.
Qed.

Lemma omap_waiting P t idx sels : Forall2 (waiting P t) idx sels ->
  arg <$> omap (fun i => P !! i) idx = sels /\ Forall (fun r => Trigger_eqb t (trigger r) = true) (omap (fun i => P !! i) idx).
Proof.
  induction 1 as [|i s idx sels (r & Hr & _ & Hs & Ht) _ [IH1 IH2]]; [done|]. cbn [omap list_omap]. rewrite Hr. rewrite fmap_cons. split.
  - by rewrite Hs; f_equal.
  - by constructor.
Qed.

Section Resolve.

Context (P : list Rule) (A locs : list Z) (M : ActionType -> gmap Z Z) (t : Trigger) (p : PendingDisplayNoneActions) (css : PendingMap).
Hypothesis HI : Inv P A locs M ((t, p) :: css).

Definition combined : WTFString := combineSelectors 0 (selectors p) newBuilder.

Lemma combined_ok : okChars combined.
Proof using HI.
  unfold combined. apply combineSelectors_ok; [|by constructor]. pose proof (inv_slots _ _ _ _ _ HI) as Hs. apply Forall_cons in Hs as [(idx & _ & _ & Hw) _].
  apply Forall_forall. intros s Hin. apply list_elem_of_lookup in Hin as [k Hk]. destruct (Forall2_lookup_r _ _ _ _ _ Hw Hk) as (i & _ & r & Hr & _ & <- & _).
  pose proof (inv_rules _ _ _ _ _ HI) as Hall. rewrite Forall_lookup in Hall. apply (Hall i r Hr).
Qed.

Lemma combined_size : Z.of_nat (length (entryBytes (ESelector combined))) <= 6 + selectorsCost (selectors p).
Proof.
  rewrite entryBytes_length. unfold headerLength, unitSize, String_length, combined. rewrite combineSelectors_characters.
  pose proof (joinSelectors_cost (selectors p)). step_if; lia.
Qed.

Lemma resolve_slot : exists locs', setLocations locs (clientLocations p) (Z.of_nat (length A)) = Some locs'
  /\ Inv P (A ++ entryBytes (ESelector combined)) locs' M css.
Proof using HI.
  pose proof (inv_slots _ _ _ _ _ HI) as Hslots. apply Forall_cons in Hslots as [(idx & Hc & Hsort & Hw) Hslots]. cbn [fst snd] in *.
  pose proof (inv_length _ _ _ _ _ HI) as Hlen. pose proof (inv_lt _ _ _ _ _ HI) as Hlt. pose proof (inv_pending _ _ _ _ _ HI) as Hpend.
  rewrite pendingIdx_cons in Hpend. cbn [snd] in Hpend. pose proof (inv_nodup _ _ _ _ _ HI) as Hnd. rewrite pendingIdx_cons, NoDup_app in Hnd. cbn [snd] in Hnd.
  assert (forall i, i ∈ idx -> locs !! i = Some noLocation) as Hidx.
  { intros i Hi. apply Hpend, elem_of_app. left. rewrite Hc. by apply list_elem_of_fmap_2. }
  assert (forall i, i ∈ idx -> exists r, P !! i = Some r /\ m_type (action r) = CSSDisplayNoneSelector) as Hrule.
  { intros i Hi. apply list_elem_of_lookup in Hi as [k Hk]. destruct (Forall2_lookup_l _ _ _ _ _ Hw Hk) as (s & _ & r & Hr & Ht & _). eauto. }
  destruct (setLocations_spec idx (Z.of_nat (length A)) locs) as (locs' & E & Hlen' & Hlook).
  { apply Forall_forall. intros i Hi. by eapply lookup_lt_Some, Hidx. }
  rewrite Hc. exists locs'. split; [done|]. pose proof combined_size as Hsz. pose proof combined_ok as Hcok. pose proof (entryBytes_pos (ESelector combined)) as Hpos.
  assert (forall i r l, P !! i = Some r -> isIgnore r = true -> locs' !! i = Some l -> locs !! i = Some l) as Hig.
  { intros i r l Hr Hi Hl. rewrite Hlook in Hl. case_bool_decide as Hin; [|done]. destruct (Hrule i Hin) as (r' & Hr' & Ht).
    unfold isIgnore in Hi. replace r' with r in Ht by congruence. rewrite Ht in Hi. by rewrite bool_decide_eq_false_2 in Hi. }
  assert (forall l, l <> Z.of_nat (length A) -> l <> noLocation -> sharedIdx locs' l = sharedIdx locs l) as Hsh.
  { intros l H1 H2. apply sharedIdx_ext. intros i. rewrite Hlook. case_bool_decide as Hin; [|done]. rewrite (Hidx i Hin). split; intros [=]; congruence. }
  constructor.
  - apply (inv_rules _ _ _ _ _ HI).
  - congruence.
  - apply isEntries_app; [apply (inv_entries _ _ _ _ _ HI)|by apply isEntries_one].
  - rewrite length_app. pose proof (inv_size _ _ _ _ _ HI) as Hs. rewrite pendingCost_cons in Hs. cbn [snd] in Hs. lia.
  - apply (inv_bound _ _ _ _ _ HI).
  - intros i r l Hr Hl Hn. rewrite length_app. rewrite Hlook in Hl. case_bool_decide as Hin.
    + injection Hl as <-. split; [lia|]. destruct (Hrule i Hin) as (r' & Hr' & Ht). replace r' with r in * by congruence. unfold ruleAt. rewrite Ht.
      assert (sharedIdx locs' (Z.of_nat (length A)) = idx) as Hsi.
      { apply sorted_eq; [apply sharedIdx_sorted|done|]. intros j. rewrite elem_sharedIdx, Hlook. case_bool_decide as Hj; [done|]. split; [|done].
        intros Hj'. exfalso. destruct (lookup_lt_is_Some_2 P j) as [rj Hrj]; [rewrite <- Hlen; by eapply lookup_lt_Some|].
        destruct (inv_loc _ _ _ _ _ HI j rj _ Hrj Hj') as [[? _]|]; lia. }
      destruct (omap_waiting P t idx (selectors p) Hw) as [W1 W2]. exists combined. unfold shared. rewrite Hsi, W1. split; [apply entryFrom_end, (inv_entries _ _ _ _ _ HI)|].
      split; [done|]. split; [apply combineSelectors_characters|].
      assert (Trigger_eqb t (trigger r) = true) as Htr.
      { apply list_elem_of_lookup in Hin as [k Hk]. destruct (Forall2_lookup_l _ _ _ _ _ Hw Hk) as (s & _ & r2 & Hr2 & _ & _ & Hr3). congruence. }
      eapply Forall_impl; [exact W2|]. intros r2. cbn. rewrite !Trigger_eqb_key in *. congruence.
    + destruct (inv_at _ _ _ _ _ HI i r l Hr Hl Hn) as [Hb Ha]. split; [lia|]. revert Ha. unfold ruleAt.
      destruct (m_type (action r)); try (intros; by apply entryFrom_app; [apply isEntries_one|]). intros (str & H1 & H2). exists str. unfold shared. rewrite Hsh by lia.
      split; [by apply entryFrom_app; [apply isEntries_one|]|done].
  - intros i. rewrite Hlook. case_bool_decide as Hin.
    + split; [intros [=]; lia|]. intros Hp. exfalso. destruct Hnd as (_ & Hdis & _). apply (Hdis (Z.of_nat i)); [|done]. rewrite Hc. by apply list_elem_of_fmap_2.
    + rewrite Hpend, elem_of_app, Hc. split; [|by right]. intros [H|H]; [|done]. apply list_elem_of_fmap in H as (j & Ej & Hj). apply Nat2Z.inj in Ej as ->. done.
  - done.
  - apply Hnd.
  - intros i k r r' l l' Hr Hr' Ei Ek Hl Hl'. pose proof (Hig k r' l' Hr' Ek Hl') as Hk. pose proof (inv_loc_ignore _ _ _ _ _ HI k r' l' Hr' Ek Hk) as Hkb.
    rewrite Hlook in Hl. case_bool_decide as Hin; [|by eapply (inv_order _ _ _ _ _ HI)]. injection Hl as <-.
    destruct (inv_order _ _ _ _ _ HI i k r r' noLocation l' Hr Hr' Ei Ek (Hidx i Hin) Hk) as [H1 H2]. split; [|lia]. intros H. specialize (H1 H). lia.
  - intros ty f l Hm. destruct (inv_map _ _ _ _ _ HI ty f l Hm) as (H1 & H2 & H3). split; [by apply entryFrom_app; [apply isEntries_one|]|]. split; [done|].
    case_bool_decide as Ety; [by destruct H3|]. intros k r l' Hr Ek Hl. apply (H3 k r l' Hr Ek). by eapply Hig.
Qed.

End Resolve.

Lemma Inv_perm P A locs M css css' : css ≡ₚ css' -> Inv P A locs M css -> Inv P A locs M css'.
Proof.
  intros Hp [H1 H2 H3 H4 H5 H6 H7 H8 H9 H10 H11]. pose proof (pendingIdx_perm _ _ Hp) as Hi. constructor; try done.
  - by rewrite <- (pendingCost_perm _ _ Hp).
  - intros i. by rewrite <- Hi.
  - by rewrite <- Hp.
  - by rewrite <- Hi.
  - intros t f l Hm. destruct (H11 t f l Hm) as (? & ? & H12). split; [done|]. split; [done|]. case_bool_decide; [|done].
    destruct H12 as [-> H12]. split; [by apply Permutation_nil_l in Hp|done].
Qed.

Lemma resolveSlots_Inv P M css : forall A locs, Inv P A locs M css -> exists A' locs', resolveSlots css A locs = Some (A', locs') /\ Inv P A' locs' M [].
Proof.
  induction css as [|[t p] css IH]; intros A locs HI; cbn [resolveSlots]; [by exists A, locs|].
  destruct (resolve_slot P A locs M t p css HI) as (locs' & E & HI'). pose proof (inv_lt _ _ _ _ _ HI) as Hlt. unfold noLocation in Hlt.
  rewrite u32_id by lia. rewrite E. cbn [mbind option_bind]. rewrite serializeSelector_app. by apply IH.
Qed.

(** ** The loop over the rules *)

Definition mapOf (s : Serializer) (t : ActionType) : gmap Z Z :=
  match t with
  | BlockLoad => blockLoadActionsMap s
  | BlockCookies => blockCookiesActionsMap s
  | IgnorePreviousRules => ignorePreviousRuleActionsMap s
  | MakeHTTPS => makeHTTPSActionsMap s
  | _ => ∅
  end.

Definition SInv (P : list Rule) (s : Serializer) : Prop := Inv P (actions s) (actionLocations s) (mapOf s) (cssDisplayNoneActionsMap s).

Section Loop.

Context (hashOrder : PendingMap -> PendingMap).
Hypothesis Horder : forall m, hashOrder m ≡ₚ m.

Lemma resolvePending_SInv P s : SInv P s ->
  exists s', resolvePendingDisplayNoneActions hashOrder s = Some s' /\ SInv P s' /\ cssDisplayNoneActionsMap s' = [] /\ forall t, mapOf s' t = mapOf s t.
Proof using Horder.
  intros HI. apply (Inv_perm _ _ _ _ _ (hashOrder (cssDisplayNoneActionsMap s))) in HI; [|by rewrite Horder].
  destruct (resolveSlots_Inv _ _ _ _ _ HI) as (A' & locs' & E & HI'). unfold resolvePendingDisplayNoneActions. rewrite E. cbn [mbind option_bind].
  eexists. split; [done|]. split; [|split; [done|by intros []]]. eapply Inv_maps; [exact HI'|]. by intros [].
Qed.

(** What holds of the state before a rule is added. *)
Definition cleared (r : Rule) (s : Serializer) : Prop :=
  if isIgnore r then cssDisplayNoneActionsMap s = [] /\ forall t, t <> IgnorePreviousRules -> mapOf s t = ∅ else mapOf s IgnorePreviousRules = ∅.

Lemma prepare_SInv P r s : SInv P s ->
  exists s', (if bool_decide (m_type (action r) = IgnorePreviousRules) then clearForIgnore <$> resolvePendingDisplayNoneActions hashOrder s
              else Some (clearIgnore s)) = Some s' /\ SInv P s' /\ cleared r s'.
Proof using Horder.
  intros HI. unfold cleared, isIgnore. case_bool_decide as Et.
  - destruct (resolvePending_SInv P s HI) as (s1 & -> & HI1 & Hcss & _). cbn [fmap option_fmap option_map]. eexists. split; [done|]. split.
    + unfold SInv, clearForIgnore in *. rewrite Hcss in HI1. eapply Inv_maps; [exact HI1|]. intros t f l. destruct t; cbn; rewrite ?lookup_empty; done.
    + split; [done|]. intros []; done.
  - eexists. split; [done|]. split; [|done]. eapply Inv_maps; [exact HI|]. intros t f l. destruct t; cbn; rewrite ?lookup_empty; done.
Qed.

Lemma u32_location P s : SInv P s -> u32 (Z.of_nat (length (actions s))) = Z.of_nat (length (actions s)).
Proof. intros HI. pose proof (inv_lt _ _ _ _ _ HI) as H. unfold noLocation in H. apply u32_id. lia. Qed.

Lemma pushRule_SInv P r s : SInv P s -> okRule r -> rulesCost (P ++ [r]) < noLocation -> cleared r s -> SInv (P ++ [r]) (pushRule r s).
Proof.
  intros HI Hr Hc Hcl. unfold pushRule, SInv. cbn [actions actionLocations cssDisplayNoneActionsMap]. rewrite (u32_location P s HI).
  replace (if bool_decide (m_type (action r) = CSSDisplayNoneSelector) then serializeSelector (actions s) (argument (action r))
           else actions s ++ [actionTypeByte (m_type (action r))]) with (actions s ++ entryBytes (ruleEntry r)).
  - apply (Inv_push P (actions s) (actionLocations s) (mapOf s)); try done. intros t f l Hm. left. by destruct t.
  - unfold ruleEntry. case_bool_decide; [by rewrite serializeSelector_app|done].
Qed.

(** The four types that are combined by their flags. *)
Lemma findOrMake_SInv P r s bytes map location :
  SInv P s -> okRule r -> rulesCost (P ++ [r]) < noLocation -> cleared r s -> m_type (action r) <> CSSDisplayNoneSelector ->
  findOrMakeActionLocation (m_type (action r)) (flags (trigger r)) (mapOf s (m_type (action r))) (actions s) = (bytes, map, location) ->
  forall s', actions s' = bytes -> actionLocations s' = actionLocations s ++ [location] -> cssDisplayNoneActionsMap s' = cssDisplayNoneActionsMap s ->
    (forall t, mapOf s' t = if bool_decide (t = m_type (action r)) then map else mapOf s t) -> SInv (P ++ [r]) s'.
Proof.
  intros HI Hr Hc Hcl Ht E s' E1 E2 E3 E4. unfold SInv. rewrite E1, E2, E3. unfold findOrMakeActionLocation in E.
  destruct (mapOf s (m_type (action r)) !! flags (trigger r)) as [l|] eqn:El; injection E as <- <- <-.
  - eapply Inv_maps; [eapply (Inv_reuse P (actions s) (actionLocations s) (mapOf s)); done|]. intros t f l'. rewrite E4. by case_bool_decide; subst.
  - rewrite (u32_location P s HI). assert (ruleEntry r = EType (m_type (action r))) as Ee by (unfold ruleEntry; by rewrite bool_decide_eq_false_2).
    change ([actionTypeByte (m_type (action r))]) with (entryBytes (EType (m_type (action r)))). rewrite <- Ee.
    apply (Inv_push P (actions s) (actionLocations s) (mapOf s)); try done. intros t f l Hm. rewrite E4 in Hm. case_bool_decide as Et; [|by left]. subst t.
    apply lookup_insert_Some in Hm as [[_ <-]|[_ Hm]]; [right|by left]. split; [apply (u32_location P s HI)|done].
Qed.

Lemma combineRule_SInv P r s : SInv P s -> okRule r -> rulesCost (P ++ [r]) < noLocation -> cleared r s ->
  exists s', combineRule r s = Some s' /\ SInv (P ++ [r]) s'.
Proof.
  intros HI Hr Hc Hcl. pose proof Hr as (_ & Hss & Hinv). destruct s as [bytes locs bl bc css ig mh] eqn:Es. unfold combineRule. rewrite <- Es in *.
  destruct (m_type (action r)) eqn:Et; try done.
  3: { eexists. split; [done|]. subst s. eapply Inv_maps; [by apply (Inv_wait P bytes locs (mapOf (mkSerializer bytes locs bl bc css ig mh)))|]. by intros []. }
  all: match goal with |- context [findOrMakeActionLocation ?t ?f ?m ?b] => destruct (findOrMakeActionLocation t f m b) as [[bytes' map'] location] eqn:E end.
  all: eexists; split; [done|].
  all: eapply (findOrMake_SInv P r s bytes' map' location); [done|done|done|done|by rewrite Et|rewrite Et; subst s; exact E|..].
  all: try (subst s; done). all: intros t; rewrite Et; subst s; by destruct t.
Qed.

Lemma serializeRule_SInv P r s : SInv P s -> okRule r -> rulesCost (P ++ [r]) < noLocation ->
  exists s', serializeRule hashOrder r s = Some s' /\ SInv (P ++ [r]) s'.
Proof using Horder.
  intros HI Hr Hc. unfold serializeRule. destruct (prepare_SInv P r s HI) as (s1 & -> & HI1 & Hcl). cbn [mbind option_bind].
  destruct (conditions (trigger r)); [by apply combineRule_SInv|]. eexists. split; [done|]. by apply pushRule_SInv.
Qed.

Lemma serializeRules_SInv rules : forall P s, SInv P s -> Forall okRule rules -> rulesCost (P ++ rules) < noLocation ->
  exists s', serializeRules hashOrder rules s = Some s' /\ SInv (P ++ rules) s'.
Proof using Horder.
  induction rules as [|r rules IH]; intros P s HI Hok Hc; cbn [serializeRules]; [exists s; by rewrite app_nil_r|].
  apply Forall_cons in Hok as [Hr Hok].
  assert (forall l l', rulesCost l <= rulesCost (l ++ l')) as Hmono.
  { clear. intros l l'. induction l as [|r l IH]; [apply rulesCost_nonneg|]. cbn [app rulesCost foldr]. fold (rulesCost (l ++ l')). fold (rulesCost l). lia. }
  replace (P ++ r :: rules) with ((P ++ [r]) ++ rules) in * by (by rewrite <- app_assoc).
  destruct (serializeRule_SInv P r s HI Hr) as (s1 & -> & HI1); [specialize (Hmono (P ++ [r]) rules); lia|]. cbn [mbind option_bind]. by apply IH.
Qed.

(** Rules whose selectors fit their width and whose total size is below
    [2^32 - 1]. *)
Record okRules (rules : list Rule) : Prop := { rules_ok : Forall okRule rules; rules_size : rulesCost rules < noLocation }.

Lemma serializeActions_Inv rules : okRules rules ->
  exists locs A M, serializeActions hashOrder rules = Some (locs, A) /\ Inv rules A locs M [].
Proof using Horder.
  intros [Hok Hc]. unfold serializeActions.
  destruct (serializeRules_SInv rules [] newSerializer) as (s & -> & HI); [by apply serializer_init; intros []|done|done|]. cbn [mbind option_bind].
  destruct (resolvePending_SInv _ s HI) as (s' & -> & HI' & Hcss & _). cbn [mbind option_bind]. unfold SInv in HI'. rewrite Hcss in HI'. eauto.
Qed.

End Loop.
