(* ===== verification/ContentExtension.v ===== *)
(** * ContentExtension: a compiled content blocker and the backend that asks it

    Translated from src/Source/WebCore/contentextensions/ContentExtension.cpp,
    ContentExtension.h, CompiledContentExtension.h, ContentExtensionsBackend.cpp
    and src/Source/WebCore/loader/ResourceLoadInfo.cpp.  The URL class, the
    parser of style sheets, the test of security origins and the order in which
    hash tables are walked are arguments.  [None] is a failed assertion. *)

From stdpp Require Import gmap sorting.
From S2P Require Import Prelude DFABytecode DFABytecodeInterpreter ContentExtensionRule.
Import DFABytecode DFABytecodeInterpreter ContentExtensionRule.

Module ContentExtension.

(** What is used of URLs; [string] and [host] are the bytes of the UTF-8
    strings. *)
Class URLClass (URL : Type) := {
  URL_eq_dec :: EqDecision URL;
  nullURL : URL;
  URL_string : URL -> list Z;
  URL_host : URL -> list Z;
  protocolIs : URL -> list Z -> bool;
  portIsDefault : URL -> bool;
  isThirdParty : URL -> URL -> bool }.

Record CompiledContentExtension := mkCompiled {
  filtersWithoutConditionsBytecode : list Z;
  filtersWithConditionsBytecode : list Z;
  topURLFiltersBytecode : list Z;
  compiledActions : list Z;
  conditionsApplyOnlyToDomain : bool
}.

Section Extension.

Context {URL : Type} {URLops : URLClass URL}.

(** [StyleSheetContents::parseString], and the order of a [HashSet]. *)
Context (parseString : WTFString -> bool) (setOrder : Actions -> list Z).

Record t := mk {
  m_identifier : WTFString;
  m_compiledExtension : CompiledContentExtension;
  m_globalDisplayNoneStyleSheet : option WTFString;
  m_cachedTopURL : URL;
  m_cachedTopURLActions : Actions;
  m_cachedUniversalConditionedActions : list Z;
  m_universalActionsWithoutConditions : list Z;
  m_universalActionsWithConditions : list Z
}.

(** ** Creation *)

(** [std::numeric_limits<uint32_t>::max()] *)
Definition noIgnore : Z := 2 ^ 32 - 1.

Fixpoint ignoreLoop (fuel : nat) (actions : list Z) (currentActionIndex : Z) : option Z :=
  match fuel with
  | O => None
  | S fuel =>
      if currentActionIndex <? actionsLength actions then
        type ← deserializeType actions currentActionIndex;
        if bool_decide (type = IgnorePreviousRules) then Some currentActionIndex
        else
          n ← serializedLength actions currentActionIndex;
          ignoreLoop fuel actions (u32 (currentActionIndex + n))
      else Some noIgnore
  end.

Definition findFirstIgnorePreviousRules (actions : list Z) : option Z := ignoreLoop (S (length actions)) actions 0.

(** The lambda. *)
Definition inGlobalDisplayNoneStyleSheet (actions : list Z) (firstIgnorePreviousRules location : Z) : option bool :=
  if location <? firstIgnorePreviousRules then
    type ← deserializeType actions location;
    Some (bool_decide (type = CSSDisplayNoneSelector))
  else Some false.

Fixpoint globalSelectors (actions : list Z) (firstIgnore : Z) (locations : list Z) (css : WTFString) : option WTFString :=
  match locations with
  | [] => Some css
  | location :: locations =>
      inGlobal ← inGlobalDisplayNoneStyleSheet actions firstIgnore location;
      if inGlobal : bool then
        let css := if negb (String_length css =? 0) then appendChar (chr ",") css else css in
        action ← deserialize actions location;
        guard (m_type action = CSSDisplayNoneSelector);;
        globalSelectors actions firstIgnore locations (appendString (argument action) css)
      else globalSelectors actions firstIgnore locations css
  end.

(** [removeAllMatching] *)
Fixpoint removeGlobal (actions : list Z) (firstIgnore : Z) (locations : list Z) : option (list Z) :=
  match locations with
  | [] => Some []
  | location :: locations =>
      inGlobal ← inGlobalDisplayNoneStyleSheet actions firstIgnore location;
      rest ← removeGlobal actions firstIgnore locations;
      Some (if inGlobal : bool then rest else location :: rest)
  end.

Definition displayNoneCSSRule : WTFString := mkString true chrs "display:none !important;".

Definition compileGlobalDisplayNoneStyleSheet (actions : list Z) (universal : list Z) : option (option WTFString * list Z) :=
  firstIgnore ← findFirstIgnorePreviousRules actions;
  css ← globalSelectors actions firstIgnore universal newBuilder;
  if String_length css =? 0 then Some (None, universal)
  else
    let css := appendChar (chr "}") (appendString displayNoneCSSRule (appendChar (chr "{") css)) in
    universal ← removeGlobal actions firstIgnore universal;
    Some (if parseString css then Some css else None, universal).

Definition create (identifier : WTFString) (compiled : CompiledContentExtension) : option t :=
  withoutConditions ← actionsMatchingEverything (filtersWithoutConditionsBytecode compiled) None;
  withConditions ← actionsMatchingEverything (filtersWithConditionsBytecode compiled) None;
  guard (Forall (fun action => u32 action = action) (setOrder withoutConditions));;
  guard (Forall (fun action => Z.land action (Z.lnot IfConditionFlag) = u32 action) (setOrder withConditions));;
  '(sheet, universal) ← compileGlobalDisplayNoneStyleSheet (compiledActions compiled) (u32 <$> setOrder withoutConditions);
  Some (mk identifier compiled sheet nullURL ∅ [] universal (setOrder withConditions)).

(** ** Conditions on the top URL *)

Definition allLoadTypesAndResourceTypes : Z := Z.lor LoadTypeMask ResourceTypeMask.

(** The actions of the top URL filters. *)
Definition computeTopURLActions (compiled : CompiledContentExtension) (topURL : URL) : option Actions :=
  let string := if conditionsApplyOnlyToDomain compiled then URL_host topURL else URL_string topURL in
  topURLActions ← interpret (topURLFiltersBytecode compiled) string allLoadTypesAndResourceTypes;
  everything ← actionsMatchingEverything (topURLFiltersBytecode compiled) None;
  Some (topURLActions ∪ everything).

Definition ifCondition (action : Z) : bool := negb (Z.land action IfConditionFlag =? 0).

Definition computeUniversal (universal : list Z) (topURLActions : Actions) : option (list Z) :=
  guard (Forall (fun action => Z.land action (Z.lnot IfConditionFlag) = u32 action) universal);;
  Some (u32 <$> List.filter (fun action => eqb (ifCondition action) (bool_decide (action ∈ topURLActions))) universal).

Definition populateConditionCacheIfNeeded (topURL : URL) (e : t) : option t :=
  if bool_decide (m_cachedTopURL e = topURL) then Some e
  else
    topURLActions ← computeTopURLActions (m_compiledExtension e) topURL;
    universal ← computeUniversal (m_universalActionsWithConditions e) topURLActions;
    Some (mk (m_identifier e) (m_compiledExtension e) (m_globalDisplayNoneStyleSheet e) topURL topURLActions universal
            (m_universalActionsWithoutConditions e) (m_universalActionsWithConditions e)).

Definition topURLActions (topURL : URL) (e : t) : option (Actions * t) :=
  e ← populateConditionCacheIfNeeded topURL e; Some (m_cachedTopURLActions e, e).

Definition universalActionsWithConditions (topURL : URL) (e : t) : option (list Z * t) :=
  e ← populateConditionCacheIfNeeded topURL e; Some (m_cachedUniversalConditionedActions e, e).

(** ** The actions for a load *)

Record ResourceLoadInfo := mkInfo { resourceURL : URL; mainDocumentURL : URL; resourceType : Z }.

Definition FirstParty : Z := 0x0400.
Definition ThirdParty : Z := 0x0800.

Definition getResourceFlags (info : ResourceLoadInfo) : option Z :=
  guard (resourceType info <> 0);;
  Some (Z.lor (resourceType info) (if isThirdParty (mainDocumentURL info) (resourceURL info) then ThirdParty else FirstParty)).

(** The loop from the last location down; whether it met
    [IgnorePreviousRules]. *)
Fixpoint reverseLoop (actions : list Z) (identifier : WTFString) (locations : list Z) (finalActions : list Action) : option (list Action * bool) :=
  match locations with
  | [] => Some (finalActions, false)
  | location :: locations =>
      action ← deserialize actions location;
      let action := setExtensionIdentifier identifier action in
      if bool_decide (m_type action = IgnorePreviousRules) then Some (finalActions, true)
      else reverseLoop actions identifier locations (finalActions ++ [action])
  end.

(** The body of the loop over the extensions. *)
Definition actionsOfExtension (urlCString : list Z) (flags : Z) (topURL : URL) (e : t) (finalActions : list Action) : option (list Action * t) :=
  let compiled := m_compiledExtension e in
  withoutConditionsActions ← interpret (filtersWithoutConditionsBytecode compiled) urlCString flags;
  '(topActions, e) ← topURLActions topURL e;
  withConditionsActions ← interpretWithConditions (filtersWithConditionsBytecode compiled) urlCString flags topActions;
  '(universalWithConditions, e) ← universalActionsWithConditions topURL e;
  let universalWithoutConditions := m_universalActionsWithoutConditions e in
  let actionLocations := (u32 <$> setOrder withoutConditionsActions) ++ (u32 <$> setOrder withConditionsActions)
                         ++ universalWithoutConditions ++ universalWithConditions in
  '(finalActions, sawIgnorePreviousRules) ←
     reverseLoop (compiledActions compiled) (m_identifier e) (reverse (merge_sort Z.le actionLocations)) finalActions;
  if sawIgnorePreviousRules : bool then Some (finalActions, e)
  else
    action ← Action_ofString CSSDisplayNoneStyleSheet (m_identifier e) (2 ^ 32 - 1);
    Some (finalActions ++ [setExtensionIdentifier (m_identifier e) action], e).

End Extension.

Arguments t : clear implicits.
Arguments ResourceLoadInfo : clear implicits.

End ContentExtension.
