(* ===== verification/ContentExtensionsBackend.v ===== *)
(** * ContentExtensionsBackend: all content blockers, and what becomes of a load

    Translated from src/Source/WebCore/contentextensions/ContentExtensionsBackend.cpp.
    The extensions are a map from the characters of their identifiers; the
    order in which the hash table is walked is an argument.  What is told to
    the document and to its loader is a list of calls. *)

From stdpp Require Import gmap.
From S2P Require Import Prelude DFABytecode DFABytecodeInterpreter ContentExtensionRule ContentExtension.
Import DFABytecode DFABytecodeInterpreter ContentExtensionRule.

Module ContentExtensionsBackend.

(** [m_contentExtensions] *)
Notation Extensions URL := (gmap (list Z) (ContentExtension.t URL)).

Record BlockedStatus := mkStatus { blockedLoad : bool; blockedCookies : bool; madeHTTPS : bool }.

(** The frame of a loader, with what is asked of it: whether it loads its main
    resource, is the main frame and has a document, and the URL of the main
    frame's document. *)
Record FrameInfo {URL : Type} := mkFrame {
  isLoadingMainResource : bool;
  isMainFrame : bool;
  hasDocument : bool;
  mainDocument : option URL
}.
Arguments FrameInfo : clear implicits.

Inductive Call {URL : Type} :=
| AddPendingSelector (identifier : WTFString) (selector : WTFString) (actionID : Z)
| AddDisplayNoneSelector (identifier : WTFString) (selector : WTFString) (actionID : Z)
| AddPendingSheet (identifier : WTFString) (sheet : WTFString)
| MaybeAddSheet (identifier : WTFString) (sheet : WTFString)
| PromotedMessage (url : URL) (newProtocol : list Z)
| PreventedMessage (mainDocumentURL url : URL).
Arguments Call : clear implicits.

Section Backend.

Context {URL : Type} {URLops : ContentExtension.URLClass URL}.
Context (parseString : WTFString -> bool) (setOrder : Actions -> list Z).

Context (keyOrder : Extensions URL -> list (list Z)).

Definition addContentExtension (identifier : WTFString) (compiled : ContentExtension.CompiledContentExtension) (b : Extensions URL) : option (Extensions URL) :=
  guard (String_length identifier <> 0);;
  e ← ContentExtension.create parseString setOrder identifier compiled;
  Some (<[characters identifier := e]> b).

Definition removeContentExtension (identifier : WTFString) (b : Extensions URL) : Extensions URL := delete (characters identifier) b.

Definition removeAllContentExtensions (b : Extensions URL) : Extensions URL := ∅.

(** The loop over the extensions, which fill their caches. *)
Fixpoint extensionsLoop (urlCString : list Z) (flags : Z) (topURL : URL) (keys : list (list Z)) (b : Extensions URL) (finalActions : list Action)
    : option (list Action * Extensions URL) :=
  match keys with
  | [] => Some (finalActions, b)
  | key :: keys =>
      e ← b !! key;
      '(finalActions, e) ← ContentExtension.actionsOfExtension setOrder urlCString flags topURL e finalActions;
      extensionsLoop urlCString flags topURL keys (<[key := e]> b) finalActions
  end.

Definition containsOnlyASCII (l : list Z) : bool := forallb (fun c => (0 <=? c) && (c <=? 127)) l.

Definition actionsForResourceLoad (info : ContentExtension.ResourceLoadInfo URL) (b : Extensions URL) : option (list Action * Extensions URL) :=
  if ContentExtension.protocolIs (ContentExtension.resourceURL info) chrs "data" then Some ([], b)
  else
    let urlString := ContentExtension.URL_string (ContentExtension.resourceURL info) in
    guard (containsOnlyASCII urlString = true);;
    flags ← ContentExtension.getResourceFlags info;
    extensionsLoop urlString flags (ContentExtension.mainDocumentURL info) (keyOrder b) b [].

Definition globalDisplayNoneStyleSheet (identifier : WTFString) (b : Extensions URL) : option WTFString :=
  e ← b !! characters identifier; ContentExtension.m_globalDisplayNoneStyleSheet e.

Definition Document : Z := 0x0001.

(** One action of the loop: the status and the calls so far. *)
Definition processAction (url : URL) (resourceType : Z) (currentDocument : bool) (b : Extensions URL) (action : Action) (s : BlockedStatus * list (Call URL))
    : option (BlockedStatus * list (Call URL)) :=
  let '(status, calls) := s in
  match m_type action with
  | BlockLoad => Some (mkStatus true (blockedCookies status) (madeHTTPS status), calls)
  | BlockCookies => Some (mkStatus (blockedLoad status) true (madeHTTPS status), calls)
  | CSSDisplayNoneSelector =>
      let identifier := default (mkString true []) (m_extensionIdentifier action) in
      let call := if resourceType =? Document then [AddPendingSelector identifier (argument action) (m_actionID action)]
                  else if currentDocument then [AddDisplayNoneSelector identifier (argument action) (m_actionID action)] else [] in
      Some (status, calls ++ call)
  | CSSDisplayNoneStyleSheet =>
      let call := match globalDisplayNoneStyleSheet (argument action) b with
                  | Some sheet => if resourceType =? Document then [AddPendingSheet (argument action) sheet]
                                  else if currentDocument then [MaybeAddSheet (argument action) sheet] else []
                  | None => []
                  end in
      Some (status, calls ++ call)
  | MakeHTTPS =>
      let promote := (ContentExtension.protocolIs url chrs "http" || ContentExtension.protocolIs url chrs "ws") && ContentExtension.portIsDefault url in
      Some (mkStatus (blockedLoad status) (blockedCookies status) (if promote then true else madeHTTPS status), calls)
  | IgnorePreviousRules | InvalidAction => None
  end.

Fixpoint processActions (url : URL) (resourceType : Z) (currentDocument : bool) (b : Extensions URL) (actions : list Action) (s : BlockedStatus * list (Call URL))
    : option (BlockedStatus * list (Call URL)) :=
  match actions with
  | [] => Some s
  | action :: actions => s ← processAction url resourceType currentDocument b action s; processActions url resourceType currentDocument b actions s
  end.

Definition mainDocumentURLOf (url : URL) (resourceType : Z) (frame : option (FrameInfo URL)) : URL :=
  match frame with
  | None => ContentExtension.nullURL
  | Some f =>
      if isLoadingMainResource f && isMainFrame f && (resourceType =? Document) then url
      else match mainDocument f with Some u => u | None => ContentExtension.nullURL end
  end.

Definition processContentExtensionRulesForLoad (url : URL) (resourceType : Z) (frame : option (FrameInfo URL)) (b : Extensions URL)
    : option (BlockedStatus * list (Call URL) * Extensions URL) :=
  if bool_decide (b = ∅) then Some (mkStatus false false false, [], b)
  else
    let currentDocument := match frame with Some f => hasDocument f | None => false end in
    let mainDocumentURL := mainDocumentURLOf url resourceType frame in
    '(actions, b) ← actionsForResourceLoad (ContentExtension.mkInfo url mainDocumentURL resourceType) b;
    '(status, calls) ← processActions url resourceType currentDocument b actions (mkStatus false false false, []);
    messages ←
      (if currentDocument : bool then
         promoted ← (if madeHTTPS status then
                       guard (ContentExtension.protocolIs url chrs "http" || ContentExtension.protocolIs url chrs "ws" = true);;
                       Some [PromotedMessage url (if ContentExtension.protocolIs url chrs "http" then chrs "https" else chrs "wss")]
                     else Some []);
         Some (promoted ++ if blockedLoad status then [PreventedMessage mainDocumentURL url] else [])
       else Some []);
    Some (status, calls ++ messages, b).

End Backend.

End ContentExtensionsBackend.
