(* ===== verification/ContentExtensionCorrect.v ===== *)
(** * ContentExtensionCorrect: from automata and rules to the actions of a load *)

From stdpp Require Import gmap sorting.
From S2P Require Import Prelude ASCIICType DFA DFABytecode DFABytecodeCompiler DFABytecodeInterpreter DFATransitions DFACompile DFARun DFASimulation DFAProperties ContentExtensionRule ContentExtensionCompiler ContentExtensionSerialize ContentExtension.

(** * Which rules are applied *)

Import DFABytecode ContentExtensionRule ContentExtensionCompiler.

(** ** Reading the actions of rules *)

(** What is read at the location of rule [r]. *)
Definition readsRule (rules : list Rule) (locs : list Z) (r : Rule) (l : Z) (a : Action) : Prop :=
  m_extensionIdentifier a = None /\ m_type a = m_type (action r) /\ m_actionID a = l /\
  if bool_decide (m_type (action r) = CSSDisplayNoneSelector) then
    exists str, m_stringArgument a = Some str /\ characters str = joinSelectors (arg <$> shared rules locs l)
      /\ Forall (fun r' => Trigger_eqb (trigger r) (trigger r') = true) (shared rules locs l)
  else m_stringArgument a = None.

Section Rules.

Context (rules : list Rule) (A locs : list Z) (M : ActionType -> gmap Z Z).
Hypothesis HI : Inv rules A locs M [].

Lemma rule_okType i r : rules !! i = Some r -> m_type (action r) <> CSSDisplayNoneSelector -> okEntry (EType (m_type (action r))).
Proof using HI.
  intros Hr Ht. pose proof (inv_rules _ _ _ _ _ HI) as Hall. rewrite Forall_lookup in Hall. destruct (Hall i r Hr) as (_ & ? & ?). done.
Qed.

Lemma rule_read i r l : rules !! i = Some r -> locs !! i = Some l -> exists a, deserialize A l = Some a /\ readsRule rules locs r l a.
Proof using HI.
  intros Hr Hl. pose proof (inv_lt _ _ _ _ _ HI) as Hlt. unfold noLocation in Hlt. pose proof (inv_loc_settled _ _ _ _ _ HI i r l eq_refl Hr Hl) as Hb.
  destruct (inv_at _ _ _ _ _ HI i r l Hr Hl) as [_ Ha]; [unfold noLocation; lia|]. unfold readsRule. case_bool_decide as Et.
  - unfold ruleAt in Ha. rewrite Et in Ha. destruct Ha as (str & H1 & H2 & H3 & H4). exists (entryAction (ESelector str) l).
    split; [apply deserialize_entry; [lia|by apply entryFrom_at|done]|]. rewrite Et. split_and!; try done. by exists str.
  - assert (entryAt A l (EType (m_type (action r)))) as He by (apply entryFrom_at; unfold ruleAt in Ha; by destruct (m_type (action r))).
    exists (entryAction (EType (m_type (action r))) l). split; [|done]. apply deserialize_entry; [lia|done|by eapply rule_okType].
Qed.

(** Whether the action at a location ignores previous rules. *)
Definition ignoresAt (l : Z) : bool :=
  match deserialize A l with Some a => bool_decide (m_type a = IgnorePreviousRules) | None => false end.

Lemma ignoresAt_rule i r l : rules !! i = Some r -> locs !! i = Some l -> ignoresAt l = isIgnore r.
Proof using HI. intros Hr Hl. destruct (rule_read i r l Hr Hl) as (a & E & _ & Et & _). unfold ignoresAt, isIgnore. by rewrite E, Et. Qed.

(** ** The loop *)

Fixpoint kept (D : list Z) : list Z := match D with [] => [] | l :: D => if ignoresAt l then [] else l :: kept D end.

Lemma kept_spec D : StronglySorted Z.ge D ->
  forall l, l ∈ kept D <-> l ∈ D /\ ignoresAt l = false /\ forall l', l' ∈ D -> ignoresAt l' = true -> l' < l.
Proof using Type.
  induction 1 as [|h D HD IH Hh]; intros l; cbn [kept].
  - split; [by intros ?%not_elem_of_nil|by intros [?%not_elem_of_nil _]].
  - rewrite Forall_forall in Hh. destruct (ignoresAt h) eqn:Eh.
    + split; [by intros ?%not_elem_of_nil|]. intros (Hin & Hl & Hall). exfalso. specialize (Hall h ltac:(left) Eh).
      apply elem_of_cons in Hin as [->|Hin]; [lia|]. specialize (Hh l Hin). lia.
    + rewrite elem_of_cons, IH, elem_of_cons. split.
      * intros [->|(H1 & H2 & H3)].
        -- split; [by left|]. split; [done|]. intros l' Hl' Hi. apply elem_of_cons in Hl' as [->|Hl']; [congruence|]. specialize (Hh l' Hl').
           destruct (decide (l' = h)) as [->|]; [congruence|lia].
        -- split; [by right|]. split; [done|]. intros l' Hl' Hi. apply elem_of_cons in Hl' as [->|Hl']; [congruence|auto].
      * intros ([->|H1] & H2 & H3); [by left|right]. split; [done|]. split; [done|]. intros l' Hl'. apply H3. by right.
Qed.

Lemma reverseLoop_kept identifier D : forall acc, (forall l, l ∈ D -> is_Some (deserialize A l)) ->
  exists out, ContentExtension.reverseLoop A identifier D acc = Some (acc ++ out, existsb ignoresAt D)
    /\ Forall2 (fun l a => exists a', deserialize A l = Some a' /\ a = setExtensionIdentifier identifier a') (kept D) out.
Proof using Type.
  induction D as [|l D IH]; intros acc Hs; cbn [ContentExtension.reverseLoop]; [exists []; rewrite app_nil_r; by split|].
  destruct (Hs l ltac:(left)) as [a E]. rewrite E. cbn [mbind option_bind setExtensionIdentifier m_type kept existsb].
  assert (ignoresAt l = bool_decide (m_type a = IgnorePreviousRules)) as -> by (unfold ignoresAt; by rewrite E).
  case_bool_decide as Et; [exists []; rewrite app_nil_r; by split|]. cbn [orb].
  destruct (IH (acc ++ [setExtensionIdentifier identifier a])) as (out & -> & H); [intros l' Hl'; apply Hs; by right|].
  exists (setExtensionIdentifier identifier a :: out). rewrite <- app_assoc. split; [done|]. constructor; [by exists a|done].
Qed.

Lemma sorted_reverse (L : list Z) : StronglySorted Z.ge (reverse (merge_sort Z.le L)).
Proof.
  assert (StronglySorted Z.le (merge_sort Z.le L)) as H by (apply StronglySorted_merge_sort; apply _).
  induction H as [|x l Hl IH Hx]; [constructor|]. rewrite reverse_cons. clear L. revert IH. rewrite Forall_forall in Hx.
  assert (forall y, y ∈ reverse l -> x <= y) as Hr by (intros y Hy; apply Hx; by rewrite elem_of_reverse in Hy). clear Hx Hl.
  induction (reverse l) as [|y r IH]; intros Hs; cbn [app]; [by repeat constructor|]. inversion Hs as [|? ? Hs' Hy]; subst.
  constructor; [apply IH; [intros z Hz; apply Hr; by right|done]|]. apply Forall_app. split; [done|]. apply Forall_singleton.
  specialize (Hr y ltac:(left)). lia.
Qed.

(** Rule [i] is among the locations, and no later ignoring rule is. *)
Definition inForce (L : list Z) (i : nat) : Prop :=
  exists r l, rules !! i = Some r /\ locs !! i = Some l /\ l ∈ L /\ isIgnore r = false
    /\ forall k r' l', rules !! k = Some r' -> locs !! k = Some l' -> l' ∈ L -> isIgnore r' = true -> (k < i)%nat.

Lemma kept_inForce L l : (forall l, l ∈ L -> exists i, locs !! i = Some l) ->
  l ∈ kept (reverse (merge_sort Z.le L)) <-> exists i, inForce L i /\ locs !! i = Some l.
Proof using HI.
  intros HL. rewrite kept_spec by apply sorted_reverse.
  assert (forall l, l ∈ reverse (merge_sort Z.le L) <-> l ∈ L) as Hin by (intros x; rewrite elem_of_reverse; by rewrite merge_sort_Permutation).
  assert (forall i l, locs !! i = Some l -> exists r, rules !! i = Some r) as Hrule.
  { intros i x H. apply lookup_lt_is_Some_2. rewrite <- (inv_length _ _ _ _ _ HI). by eapply lookup_lt_Some. }
  split.
  - intros (H1 & H2 & H3). apply Hin in H1. destruct (HL l H1) as [i Hi]. destruct (Hrule i l Hi) as [r Hr]. exists i. split; [|done].
    rewrite (ignoresAt_rule i r l Hr Hi) in H2. exists r, l. split_and!; try done. intros k r' l' Hk Hl' Hin' Hig.
    assert (l' < l) as Hlt by (apply H3; [by apply Hin|by rewrite (ignoresAt_rule k r' l' Hk Hl')]).
    destruct (inv_order _ _ _ _ _ HI i k r r' l l' Hr Hk H2 Hig Hi Hl') as [O1 _]. destruct (decide (k < i)%nat); [done|].
    destruct (decide (i = k)) as [->|]; [congruence|]. specialize (O1 ltac:(lia)). lia.
  - intros (i & (r & l' & Hr & Hl' & Hin' & Hig & Hall) & Hi). assert (l' = l) as -> by congruence. split; [by apply Hin|].
    split; [by rewrite (ignoresAt_rule i r l Hr Hi)|]. intros x Hx Hxi. apply Hin in Hx. destruct (HL x Hx) as [k Hk]. destruct (Hrule k x Hk) as [r' Hr'].
    rewrite (ignoresAt_rule k r' x Hr' Hk) in Hxi. destruct (inv_order _ _ _ _ _ HI i k r r' l x Hr Hr' Hig Hxi Hi Hk) as [_ O2]. apply O2. by eapply Hall.
Qed.

(** The actions found for a load: those of the rules in force, and whether an
    ignoring rule was met. *)
Lemma reverseLoop_inForce L identifier acc : (forall l, l ∈ L -> exists i, locs !! i = Some l) ->
  exists out saw, ContentExtension.reverseLoop A identifier (reverse (merge_sort Z.le L)) acc = Some (acc ++ out, saw)
    /\ (saw = true <-> exists k r l, rules !! k = Some r /\ locs !! k = Some l /\ l ∈ L /\ isIgnore r = true)
    /\ forall a, a ∈ out <-> exists i r l a', inForce L i /\ rules !! i = Some r /\ locs !! i = Some l /\ deserialize A l = Some a' /\ readsRule rules locs r l a'
         /\ a = setExtensionIdentifier identifier a'.
Proof using HI.
  intros HL. set (D := reverse (merge_sort Z.le L)).
  assert (forall l, l ∈ D <-> l ∈ L) as Hin by (intros x; unfold D; rewrite elem_of_reverse; by rewrite merge_sort_Permutation).
  assert (forall i l, locs !! i = Some l -> exists r, rules !! i = Some r) as Hrule.
  { intros i x H. apply lookup_lt_is_Some_2. rewrite <- (inv_length _ _ _ _ _ HI). by eapply lookup_lt_Some. }
  destruct (reverseLoop_kept identifier D acc) as (out & E & Hout).
  { intros l Hl. apply Hin, HL in Hl as [i Hi]. destruct (Hrule i l Hi) as [r Hr]. destruct (rule_read i r l Hr Hi) as (a & -> & _). eauto. }
  exists out, (existsb ignoresAt D). split; [done|]. split.
  - rewrite existsb_exists. split.
    + intros (l & Hl & Hig). apply list_elem_of_In, Hin in Hl. destruct (HL l Hl) as [k Hk]. destruct (Hrule k l Hk) as [r Hr].
      exists k, r, l. by rewrite <- (ignoresAt_rule k r l Hr Hk).
    + intros (k & r & l & Hr & Hl & Hin' & Hig). exists l. split; [by apply list_elem_of_In, Hin|]. by rewrite (ignoresAt_rule k r l Hr Hl).
  - intros a. split.
    + intros Ha. apply list_elem_of_lookup in Ha as [n Hn]. destruct (Forall2_lookup_r _ _ _ _ _ Hout Hn) as (l & Hl & a' & E' & ->).
      apply list_elem_of_lookup_2, (kept_inForce L l HL) in Hl as (i & Hf & Hi). destruct (Hrule i l Hi) as [r Hr].
      destruct (rule_read i r l Hr Hi) as (a2 & E2 & Hread). assert (a2 = a') as -> by congruence. exists i, r, l, a'. done.
    + intros (i & r & l & a' & Hf & Hr & Hl & E' & _ & ->). assert (l ∈ kept D) as Hk by (apply (kept_inForce L l HL); eauto).
      apply list_elem_of_lookup in Hk as [n Hn]. destruct (Forall2_lookup_l _ _ _ _ _ Hout Hn) as (a & Ha & a2 & E2 & ->).
      assert (a2 = a') as -> by congruence. by eapply list_elem_of_lookup_2.
Qed.

End Rules.

(** * The selectors that apply to every page *)

Import DFABytecode ContentExtensionRule ContentExtensionCompiler.

(** ** The first ignoring rule *)

Section First.

Context (A : list Z).
Hypothesis HA : Z.of_nat (length A) < 2 ^ 32 - 1.

Lemma ignoreLoop_step pre e post fuel : A = pre ++ entryBytes e ++ post -> okEntry e ->
  ContentExtension.ignoreLoop (S fuel) A (Z.of_nat (length pre))
  = if bool_decide (entryType e = IgnorePreviousRules) then Some (Z.of_nat (length pre))
    else ContentExtension.ignoreLoop fuel A (Z.of_nat (length (pre ++ entryBytes e))).
Proof using HA.
  intros E Hok. assert (entryAt A (Z.of_nat (length pre)) e) as He by (exists pre, post; done). pose proof (entryAt_bound _ _ _ He) as [_ Hb].
  pose proof (entryBytes_pos e) as Hp. cbn [ContentExtension.ignoreLoop]. unfold actionsLength. rewrite (proj2 (Z.ltb_lt _ _)) by lia.
  rewrite (deserializeType_entry A _ e He Hok). cbn [mbind option_bind]. case_bool_decide; [done|].
  rewrite (serializedLength_entry A _ ltac:(lia) e He Hok). cbn [mbind option_bind]. rewrite u32_id by lia. by rewrite length_app, Nat2Z.inj_add.
Qed.

Lemma ignoreLoop_total E : forall pre fuel, A = pre ++ concat (entryBytes <$> E) -> Forall okEntry E -> (length E < fuel)%nat ->
  exists f, ContentExtension.ignoreLoop fuel A (Z.of_nat (length pre)) = Some f.
Proof using HA.
  induction E as [|e E IH]; intros pre [|fuel] EA Hok Hf; try (cbn in Hf; lia).
  - cbn in EA. rewrite app_nil_r in EA. subst A. cbn [ContentExtension.ignoreLoop]. unfold actionsLength. rewrite Z.ltb_irrefl. eauto.
  - apply Forall_cons in Hok as [He Hok]. rewrite fmap_cons in EA. cbn [concat] in EA. rewrite (ignoreLoop_step pre e _ fuel EA He).
    case_bool_decide; [eauto|]. apply (IH _ fuel); [by rewrite <- app_assoc|done|cbn in Hf; lia].
Qed.

Lemma ignoreLoop_first E : forall pre post fuel f, A = pre ++ concat (entryBytes <$> E) ++ entryBytes (EType IgnorePreviousRules) ++ post -> Forall okEntry E ->
  ContentExtension.ignoreLoop fuel A (Z.of_nat (length pre)) = Some f -> f <= Z.of_nat (length (pre ++ concat (entryBytes <$> E))).
Proof using HA.
  induction E as [|e E IH]; intros pre post [|fuel] f EA Hok Hl; try done.
  - cbn [fmap list_fmap concat app] in EA. rewrite (ignoreLoop_step pre (EType IgnorePreviousRules) post fuel EA) in Hl by done.
    cbn [entryType] in Hl. rewrite bool_decide_eq_true_2 in Hl by done. injection Hl as <-. cbn. rewrite app_nil_r. lia.
  - apply Forall_cons in Hok as [He Hok]. rewrite fmap_cons in EA |- *. cbn [concat] in EA |- *. rewrite <- app_assoc in EA. rewrite (ignoreLoop_step pre e _ fuel EA He) in Hl.
    case_bool_decide.
    + injection Hl as <-. rewrite length_app. lia.
    + rewrite app_assoc in EA. pose proof (IH (pre ++ entryBytes e) post fuel f EA Hok Hl) as H'. by rewrite <- app_assoc in H'.
Qed.

Lemma entries_count E : (length E <= length (concat (entryBytes <$> E)))%nat.
Proof.
  induction E as [|e E IH]; [done|]. rewrite fmap_cons. cbn [concat length]. rewrite length_app. pose proof (entryBytes_pos e). lia.
Qed.

Lemma findFirstIgnore_spec : isEntries A ->
  exists f, ContentExtension.findFirstIgnorePreviousRules A = Some f /\ forall l, entryFrom A l (EType IgnorePreviousRules) -> f <= l.
Proof using HA.
  intros (E & EA & Hok). unfold ContentExtension.findFirstIgnorePreviousRules.
  destruct (ignoreLoop_total E [] (S (length A)) EA Hok) as [f Hf]; [rewrite EA; pose proof (entries_count E); lia|]. change (Z.of_nat (length [])) with 0 in Hf.
  exists f. split; [done|]. intros l (pre & post & EA' & -> & (E1 & -> & H1) & _). by apply (ignoreLoop_first E1 [] post (S (length A)) f).
Qed.

End First.

(** ** The sheet *)

Section Sheet.

Context (rules : list Rule) (A locs : list Z) (M : ActionType -> gmap Z Z).
Hypothesis HI : Inv rules A locs M [].

Lemma actions_bound : Z.of_nat (length A) < 2 ^ 32 - 1.
Proof using HI. exact (inv_lt _ _ _ _ _ HI). Qed.

(** Every ignoring rule is after a location below the first one. *)
Lemma below_first f i r l : ContentExtension.findFirstIgnorePreviousRules A = Some f -> rules !! i = Some r -> locs !! i = Some l -> l < f ->
  isIgnore r = false -> forall k r', rules !! k = Some r' -> isIgnore r' = true -> (i < k)%nat.
Proof using HI.
  intros Ef Hr Hl Hlt Hn k r' Hr' Hig. destruct (findFirstIgnore_spec A actions_bound (inv_entries _ _ _ _ _ HI)) as (f' & Ef' & Hf).
  assert (f' = f) as -> by congruence. destruct (lookup_lt_is_Some_2 locs k) as [l' Hl'].
  { rewrite (inv_length _ _ _ _ _ HI). by eapply lookup_lt_Some. }
  pose proof (inv_loc_ignore _ _ _ _ _ HI k r' l' Hr' Hig Hl') as Hb. pose proof actions_bound as Hbound.
  destruct (inv_at _ _ _ _ _ HI k r' l' Hr' Hl') as [_ Ha]; [unfold noLocation; lia|].
  assert (m_type (action r') = IgnorePreviousRules) as Et by (unfold isIgnore in Hig; by apply bool_decide_eq_true in Hig).
  unfold ruleAt in Ha. rewrite Et in Ha. specialize (Hf l' Ha). destruct (inv_order _ _ _ _ _ HI i k r r' l l' Hr Hr' Hn Hig Hl Hl') as [_ H2].
  destruct (decide (i < k)%nat); [done|]. destruct (decide (i = k)) as [->|]; [congruence|]. specialize (H2 ltac:(lia)). lia.
Qed.

(** Whether the action at [l] is in the sheet. *)
Definition global (f l : Z) : bool := (l <? f) && match deserialize A l with Some a => bool_decide (m_type a = CSSDisplayNoneSelector) | None => false end.

Lemma inGlobal_rule f i r l : rules !! i = Some r -> locs !! i = Some l ->
  ContentExtension.inGlobalDisplayNoneStyleSheet A f l = Some (global f l)
  /\ global f l = (l <? f) && bool_decide (m_type (action r) = CSSDisplayNoneSelector).
Proof using HI.
  intros Hr Hl. pose proof actions_bound as Hbound. destruct (rule_read rules A locs M HI i r l Hr Hl) as (a & E & _ & Et & _). unfold global. rewrite E, Et.
  split; [|done]. unfold ContentExtension.inGlobalDisplayNoneStyleSheet. destruct (l <? f); [|done]. cbn [andb].
  destruct (inv_at _ _ _ _ _ HI i r l Hr Hl) as [_ Ha]; [pose proof (inv_loc_settled _ _ _ _ _ HI i r l eq_refl Hr Hl); unfold noLocation; lia|].
  unfold ruleAt in Ha. pose proof (rule_okType rules A locs M HI i r Hr) as Hok. destruct (m_type (action r)) eqn:Er.
  3: { destruct Ha as (str & H1 & H2 & _). by rewrite (deserializeType_entry A l (ESelector str) (entryFrom_at _ _ _ H1)). }
  all: rewrite (deserializeType_entry A l _ (entryFrom_at _ _ _ Ha)) by (by apply Hok); done.
Qed.

Lemma removeGlobal_spec f L : (forall l, l ∈ L -> exists i, locs !! i = Some l) ->
  ContentExtension.removeGlobal A f L = Some (List.filter (fun l => negb (global f l)) L).
Proof using HI.
  induction L as [|l L IH]; intros HL; [done|]. cbn [ContentExtension.removeGlobal]. destruct (HL l ltac:(left)) as [i Hi].
  destruct (lookup_lt_is_Some_2 rules i) as [r Hr]; [rewrite <- (inv_length _ _ _ _ _ HI); by eapply lookup_lt_Some|].
  destruct (inGlobal_rule f i r l Hr Hi) as [-> _]. cbn [mbind option_bind]. rewrite IH by (intros l' Hl'; apply HL; by right). cbn [mbind option_bind List.filter].
  by destruct (global f l).
Qed.

Lemma globalSelectors_total f L : forall css, (forall l, l ∈ L -> exists i, locs !! i = Some l) -> exists css', ContentExtension.globalSelectors A f L css = Some css'.
Proof using HI.
  induction L as [|l L IH]; intros css HL; cbn [ContentExtension.globalSelectors]; [eauto|]. destruct (HL l ltac:(left)) as [i Hi].
  destruct (lookup_lt_is_Some_2 rules i) as [r Hr]; [rewrite <- (inv_length _ _ _ _ _ HI); by eapply lookup_lt_Some|].
  destruct (inGlobal_rule f i r l Hr Hi) as [-> Eg]. cbn [mbind option_bind]. destruct (global f l); [|apply IH; intros l' Hl'; apply HL; by right].
  destruct (rule_read rules A locs M HI i r l Hr Hi) as (a & -> & _ & Et & _). cbn [mbind option_bind].
  symmetry in Eg. apply andb_true_iff in Eg as [_ Eg]. apply bool_decide_eq_true in Eg.
  rewrite option_guard_True by congruence. cbn [mbind option_bind]. apply IH. intros l' Hl'. apply HL. by right.
Qed.

(** The selectors of the sheet, joined. *)
Lemma globalSelectors_join f L : forall css css', (forall l, l ∈ L -> exists i, locs !! i = Some l) ->
  Forall (fun r => m_type (action r) = CSSDisplayNoneSelector -> characters (arg r) <> []) rules -> ContentExtension.globalSelectors A f L css = Some css' ->
  exists strs, Forall2 (fun l s => exists a, deserialize A l = Some a /\ m_stringArgument a = Some s) (List.filter (global f) L) strs
    /\ characters css' = match characters css with
                         | [] => joinSelectors strs
                         | _ => characters css ++ concat ((fun s => chr "," :: characters s) <$> strs)
                         end.
Proof using HI.
  induction L as [|l L IH]; intros css css' HL Hne E; cbn [ContentExtension.globalSelectors] in E.
  - injection E as <-. exists []. split; [constructor|]. destruct (characters css); [done|]. cbn. by rewrite app_nil_r.
  - destruct (HL l ltac:(left)) as [i Hi]. destruct (lookup_lt_is_Some_2 rules i) as [r Hr]; [rewrite <- (inv_length _ _ _ _ _ HI); by eapply lookup_lt_Some|].
    destruct (inGlobal_rule f i r l Hr Hi) as [Eg Er]. rewrite Eg in E. cbn [mbind option_bind List.filter] in E |- *.
    assert (forall l', l' ∈ L -> exists i, locs !! i = Some l') as HL' by (intros l' Hl'; apply HL; by right).
    destruct (global f l); [|by apply (IH css css' HL' Hne E)]. symmetry in Er. apply andb_true_iff in Er as [_ Er]. apply bool_decide_eq_true in Er.
    destruct (rule_read rules A locs M HI i r l Hr Hi) as (a & Ea & _ & Et & _ & Hs). rewrite bool_decide_eq_true_2 in Hs by done. destruct Hs as (str & Hs & Hc & _).
    rewrite Ea in E. cbn [mbind option_bind] in E. rewrite option_guard_True in E by congruence. cbn [mbind option_bind] in E. unfold argument in E. rewrite Hs in E. cbn [default] in E.
    destruct (IH _ css' HL' Hne E) as (strs & H1 & H2). exists (str :: strs). split; [constructor; [by exists a|done]|]. rewrite H2, appendString_characters.
    assert (characters str <> []) as Hstr.
    { rewrite Hc. assert (exists r' rest, shared rules locs l = r' :: rest /\ r' ∈ rules /\ m_type (action r') = CSSDisplayNoneSelector) as (r' & rest & -> & Hin & Hcss).
      { unfold shared. assert (i ∈ sharedIdx locs l) as Hin by (by apply elem_sharedIdx). destruct (sharedIdx locs l) as [|j js] eqn:Ej; [by apply not_elem_of_nil in Hin|].
        assert (j ∈ sharedIdx locs l) as Hj by (rewrite Ej; left). apply elem_sharedIdx in Hj.
        destruct (lookup_lt_is_Some_2 rules j) as [r' Hr']; [rewrite <- (inv_length _ _ _ _ _ HI); by eapply lookup_lt_Some|].
        destruct (rule_read rules A locs M HI j r' l Hr' Hj) as (a2 & Ea2 & _ & Et2 & _). assert (a2 = a) as -> by congruence.
        cbn [omap list_omap]. rewrite Hr'. exists r', (omap (fun i => rules !! i) js). split; [done|]. split; [by eapply list_elem_of_lookup_2|congruence]. }
      rewrite fmap_cons. cbn [joinSelectors]. rewrite Forall_forall in Hne. specialize (Hne r' Hin Hcss). intros H. apply app_eq_nil in H as [H _]. done. }
    unfold String_length. destruct (characters css) as [|c cs] eqn:Ec.
    + change (negb (Z.of_nat (length []) =? 0)) with false. cbn iota. unfold id. rewrite Ec. cbn [app joinSelectors]. by destruct (characters str).
    + rewrite (proj2 (Z.eqb_neq _ _)) by (cbn; lia). unfold id. cbn [negb appendChar append8 characters]. rewrite Ec. cbn [app].
      rewrite fmap_cons. cbn [concat app]. by rewrite <- !app_assoc.
Qed.

End Sheet.

(** * From automata and rules to the actions of a load *)

Import DFABytecode DFABytecodeCompiler DFABytecodeInterpreter ContentExtensionRule ContentExtensionCompiler.

(** ** What automata prescribe *)

(** Reading the URL enters a node with the action, the root counting from the
    start. *)
Definition visits (D : list DFA.DFA) (url : list Z) (a : Z) : Prop :=
  exists dfa, dfa ∈ D /\ (meets dfa (DFA.root dfa) url a \/ a ∈ actionsOf dfa (DFA.root dfa)).

Definition rootAction (D : list DFA.DFA) (a : Z) : Prop := exists dfa, dfa ∈ D /\ a ∈ actionsOf dfa (DFA.root dfa).

Definition asciiURL (url : list Z) : Prop := Z.of_nat (length url) + 2 < 2 ^ 32 /\ Forall (fun c => 1 <= c <= 127) url.

(** The bytecode of a list of automata. *)
Record Machine (D : list DFA.DFA) (B : list Z) : Prop := {
  machine_wf : okMachine D;
  machine_nonempty : D <> [];
  machine_code : exists bs, mapM (fun dfa => compile dfa []) D = Some bs /\ B = concat bs }.

Lemma rootAction_head D a : okMachine D -> rootAction D a <-> exists dfa, head D = Some dfa /\ a ∈ actionsOf dfa (DFA.root dfa).
Proof.
  intros Hm. unfold rootAction. destruct D as [|d D]; cbn [head].
  - split; [by intros (? & ?%not_elem_of_nil & _)|by intros (? & ? & _)].
  - pose proof (machine_roots _ Hm) as Ht. cbn [tail] in Ht. rewrite Forall_forall in Ht. split.
    + intros (dfa & Hd & Ha). apply elem_of_cons in Hd as [->|Hd]; [by exists d|]. rewrite (Ht dfa Hd) in Ha. by apply not_elem_of_nil in Ha.
    + intros (dfa & [= <-] & Ha). exists d. split; [left|done].
Qed.

Lemma Machine_interpret D B top url flags : Machine D B -> asciiURL url ->
  exists found, interpretWith B top url flags = Some found
    /\ forall a, a ∈ found <-> wanted top flags a /\ ((exists dfa, dfa ∈ D /\ meets dfa (DFA.root dfa) url a) \/ (hasFlags a = true /\ rootAction D a)).
Proof.
  intros [Hm _ (bs & E & ->)] [Hl Hu]. destruct (interpret_machine D top url flags Hm Hl Hu) as (bs' & E' & Hi). assert (bs' = bs) as -> by congruence.
  eexists. split; [exact Hi|]. intros a. rewrite elem_matched, (rootAction_head D a Hm). naive_solver.
Qed.

Lemma Machine_everything D B : Machine D B ->
  exists found, actionsMatchingEverything B None = Some found /\ forall a, a ∈ found <-> hasFlags a = false /\ rootAction D a.
Proof.
  intros [Hm Hne (bs & E & ->)]. destruct D as [|dfa D]; [done|]. destruct (matchingEverything_machine dfa D Hm) as (bs' & E' & Hi).
  assert (bs' = bs) as -> by congruence. eexists. split; [exact Hi|]. intros a. rewrite elem_foldl_actions, negb_true_iff, (rootAction_head _ a Hm). cbn [head].
  pose proof (machine_ok _ Hm) as Hall. apply Forall_cons in Hall as [Hok _]. split.
  - intros [?|(Ha & Hf & _)]; [set_solver|]. split; [done|]. by exists dfa.
  - intros (Hf & d & [= <-] & Ha). right. split; [done|]. split; [done|]. split; [|done]. apply flagsMatch_none; [|done].
    by destruct (actionsOf_ok _ _ _ Hok (ok_root _ Hok) Ha).
Qed.

Lemma rootAction_ok D a : okMachine D -> rootAction D a -> okAction a.
Proof.
  intros Hm (dfa & Hd & Ha). pose proof (machine_ok _ Hm) as Hall. rewrite Forall_forall in Hall. specialize (Hall dfa Hd).
  exact (actionsOf_ok _ _ _ Hall (ok_root _ Hall) Ha).
Qed.

(** ** The bits of actions *)

Lemma action_split a : okAction a -> hasFlags a = false -> a = a mod 2 ^ 32 + (if hasIfCondition a then 2 ^ 48 else 0).
Proof.
  intros Ha Hf. pose proof (hasIfCondition_spec a Ha) as Hc. unfold okAction in Ha. rewrite hasFlags_spec in Hf by lia. apply negb_false_iff, Z.eqb_eq in Hf.
  rewrite Hc. destruct (Z.leb_spec (2 ^ 48) a); Z.div_mod_to_equations; lia.
Qed.

Lemma universal_without a : okAction a -> hasFlags a = false -> hasIfCondition a = false -> u32 a = a.
Proof. intros Ha Hf Hc. pose proof (action_split a Ha Hf) as H. rewrite Hc in H. unfold u32. lia. Qed.

Lemma land_lnot_bit48 x : 0 <= x < 2 ^ 32 -> Z.land x (Z.lnot (2 ^ 48)) = x /\ Z.land (x + 2 ^ 48) (Z.lnot (2 ^ 48)) = x.
Proof.
  intros Hx. assert (forall n, 48 <= n -> Z.testbit x n = false) as Hhigh.
  { intros n Hn. rewrite <- (Z.mod_small x (2 ^ 48)) by lia. apply Z.mod_pow2_bits_high. lia. }
  assert (x + 2 ^ 48 = Z.lor x (2 ^ 48)) as ->.
  { rewrite Z.add_nocarry_lxor, Z.lxor_lor; try done; apply Z.bits_inj'; intros n Hn; rewrite Z.land_spec, Z.pow2_bits_eqb, Z.bits_0 by lia;
      destruct (Z.eqb_spec 48 n) as [<-|]; rewrite ?Hhigh, ?andb_false_r by lia; done. }
  split; apply Z.bits_inj'; intros n Hn; rewrite ?Z.land_spec, ?Z.lor_spec, ?Z.lnot_spec, ?Z.pow2_bits_eqb by lia;
    (destruct (Z.eqb_spec 48 n) as [<-|]; [by rewrite (Hhigh 48) by lia|by destruct (Z.testbit x n)]).
Qed.

Lemma universal_with a : okAction a -> hasFlags a = false -> Z.land a (Z.lnot IfConditionFlag) = u32 a.
Proof.
  intros Ha Hf. pose proof (action_split a Ha Hf) as H. change IfConditionFlag with (2 ^ 48). pose proof (u32_range a) as Hr. unfold u32 in *.
  destruct (land_lnot_bit48 (a mod 2 ^ 32) Hr) as [L1 L2]. rewrite H at 1. destruct (hasIfCondition a); [done|]. by rewrite Z.add_0_r.
Qed.

(** ** A content blocker *)

(** Some node of the automata has the action. *)
Definition mentions (D : list DFA.DFA) (a : Z) : Prop := exists dfa n, dfa ∈ D /\ a ∈ actionsOf dfa n.

(** The parts a rule list is compiled to: automata without and with
    conditions and for top URLs, and the serialized actions their actions
    refer to. *)
Record Compiled (D1 D2 D3 : list DFA.DFA) (rules : list Rule) (locs : list Z) (c : ContentExtension.CompiledContentExtension) : Prop := {
  compiled_without : Machine D1 (ContentExtension.filtersWithoutConditionsBytecode c);
  compiled_with : Machine D2 (ContentExtension.filtersWithConditionsBytecode c);
  compiled_top : Machine D3 (ContentExtension.topURLFiltersBytecode c);
  compiled_rules : exists M, Inv rules (ContentExtension.compiledActions c) locs M [];
  compiled_ref1 : forall a, mentions D1 a -> hasIfCondition a = false /\ exists i, locs !! i = Some (u32 a);
  compiled_ref2 : forall a, mentions D2 a -> exists i, locs !! i = Some (u32 a) }.

Lemma mapM_at_elem (l : list Z) idx acts a : mapM (DFA.at_ l) idx = Some acts -> a ∈ acts -> a ∈ l.
Proof.
  revert acts. induction idx as [|i idx IH]; intros acts E Ha; cbn [mapM] in E.
  - injection E as <-. by apply not_elem_of_nil in Ha.
  - destruct (DFA.at_ l i) as [x|] eqn:Ex; [|done]. cbn [mbind option_bind] in E. destruct (mapM (DFA.at_ l) idx) as [xs|]; [|done]. injection E as <-.
    apply elem_of_cons in Ha as [->|Ha]; [|by apply (IH xs)]. unfold DFA.at_ in Ex. destruct (i <? 0); [done|]. by eapply list_elem_of_lookup_2.
Qed.

(** The actions of nodes are those of their automata. *)
Lemma mentions_actions D a : mentions D a -> exists dfa, dfa ∈ D /\ a ∈ DFA.dfa_actions dfa.
Proof.
  intros (dfa & n & Hd & Ha). exists dfa. split; [done|]. unfold actionsOf in Ha. destruct (at_ (DFA.nodes dfa) n) as [node|]; cbn [mbind option_bind] in Ha; [|by apply not_elem_of_nil in Ha].
  destruct (DFA.actions node dfa) as [acts|] eqn:E; cbn in Ha; [|by apply not_elem_of_nil in Ha]. unfold DFA.actions in E. by apply (mapM_at_elem _ _ _ _ E).
Qed.

Lemma Machine_check D B : okMachineb D = true -> D <> [] -> (fun bs => concat bs) <$> mapM (fun dfa => compile dfa []) D = Some B -> Machine D B.
Proof.
  intros H1 H2 H3. split; [by apply okMachineb_spec|done|]. destruct (mapM _ D) as [bs|]; [|done]. injection H3 as <-. by exists bs.
Qed.

Lemma rootAction_mentions D a : rootAction D a -> mentions D a.
Proof. intros (dfa & Hd & Ha). by exists dfa, (DFA.root dfa). Qed.

Lemma visits_mentions D url a : visits D url a -> mentions D a.
Proof.
  intros (dfa & Hd & [(c & pre & m & _ & _ & _ & Ha)|Ha]); [by exists dfa, m|by exists dfa, (DFA.root dfa)].
Qed.

Section Blocker.

Context {URL : Type} {URLops : ContentExtension.URLClass URL} (parseString : WTFString -> bool) (setOrder : Actions -> list Z).
Hypothesis HsetOrder : forall s, setOrder s ≡ₚ elements s.

Lemma elem_setOrder s a : a ∈ setOrder s <-> a ∈ s.
Proof using HsetOrder. by rewrite HsetOrder, elem_of_elements. Qed.

Context (D1 D2 D3 : list DFA.DFA) (rules : list Rule) (locs : list Z) (c : ContentExtension.CompiledContentExtension).
Hypothesis HC : Compiled D1 D2 D3 rules locs c.

Notation A := (ContentExtension.compiledActions c).

(** What the cache holds for its URL. *)
Definition cacheOk (e : ContentExtension.t URL) : Prop :=
  ContentExtension.m_cachedTopURL e = ContentExtension.nullURL
  \/ (ContentExtension.computeTopURLActions c (ContentExtension.m_cachedTopURL e) = Some (ContentExtension.m_cachedTopURLActions e)
      /\ ContentExtension.computeUniversal (ContentExtension.m_universalActionsWithConditions e) (ContentExtension.m_cachedTopURLActions e)
         = Some (ContentExtension.m_cachedUniversalConditionedActions e)).

(** [removed] tells whether there is a sheet; it holds the universal
    selectors below the first ignoring rule [f]. *)
Record Ready (f : Z) (removed : bool) (e : ContentExtension.t URL) : Prop := {
  ready_compiled : ContentExtension.m_compiledExtension e = c;
  ready_first : ContentExtension.findFirstIgnorePreviousRules A = Some f;
  ready_with : forall a, a ∈ ContentExtension.m_universalActionsWithConditions e <-> hasFlags a = false /\ rootAction D2 a;
  ready_without : forall l, l ∈ ContentExtension.m_universalActionsWithoutConditions e
    <-> exists a, l = u32 a /\ hasFlags a = false /\ rootAction D1 a /\ removed && global A f l = false;
  ready_cache : cacheOk e }.

Lemma create_ready identifier : exists e f css, ContentExtension.create parseString setOrder identifier c = Some e
  /\ Ready f (negb (String_length css =? 0)) e /\ ContentExtension.m_identifier e = identifier
  /\ (exists universal, ContentExtension.globalSelectors A f universal newBuilder = Some css
        /\ forall l, l ∈ universal <-> exists a, l = u32 a /\ hasFlags a = false /\ rootAction D1 a)
  /\ (forall sheet, ContentExtension.m_globalDisplayNoneStyleSheet e = Some sheet ->
        characters sheet = characters css ++ chrs "{display:none !important;}" /\ String_length css <> 0).
Proof using HsetOrder HC.
  destruct (compiled_rules _ _ _ _ _ _ HC) as [M HI]. destruct (Machine_everything _ _ (compiled_without _ _ _ _ _ _ HC)) as (S1 & E1 & H1).
  destruct (Machine_everything _ _ (compiled_with _ _ _ _ _ _ HC)) as (S2 & E2 & H2). unfold ContentExtension.create. rewrite E1, E2. cbn [mbind option_bind].
  pose proof (machine_wf _ _ (compiled_without _ _ _ _ _ _ HC)) as M1. pose proof (machine_wf _ _ (compiled_with _ _ _ _ _ _ HC)) as M2.
  rewrite option_guard_True.
  2: { apply Forall_forall. intros a Ha. apply elem_setOrder, H1 in Ha as [Hf Hr]. apply universal_without; [by apply (rootAction_ok D1)|done|].
       by apply (compiled_ref1 _ _ _ _ _ _ HC), rootAction_mentions. }
  cbn [mbind option_bind]. rewrite option_guard_True.
  2: { apply Forall_forall. intros a Ha. apply elem_setOrder, H2 in Ha as [Hf Hr]. apply universal_with; [by apply (rootAction_ok D2)|done]. }
  cbn [mbind option_bind]. destruct (findFirstIgnore_spec A (actions_bound _ _ _ _ HI) (inv_entries _ _ _ _ _ HI)) as (f & Ef & _).
  assert (forall l, l ∈ u32 <$> setOrder S1 <-> exists a, l = u32 a /\ hasFlags a = false /\ rootAction D1 a) as HU.
  { intros l. rewrite list_elem_of_fmap. split; intros (a & -> & Ha); exists a; (split; [done|]).
    - apply elem_setOrder in Ha. by apply H1.
    - apply elem_setOrder. by apply H1. }
  assert (forall l, l ∈ u32 <$> setOrder S1 -> exists i, locs !! i = Some l) as HL.
  { intros l Hl. apply HU in Hl as (a & -> & _ & Hr). by apply (compiled_ref1 _ _ _ _ _ _ HC), rootAction_mentions. }
  unfold ContentExtension.compileGlobalDisplayNoneStyleSheet. rewrite Ef. cbn [mbind option_bind].
  destruct (globalSelectors_total rules A locs M HI f _ newBuilder HL) as [css Ecss]. rewrite Ecss. cbn [mbind option_bind].
  assert (forall a, a ∈ setOrder S2 <-> hasFlags a = false /\ rootAction D2 a) as HU2 by (intros a; by rewrite elem_setOrder, H2).
  destruct (Z.eqb_spec (String_length css) 0) as [Ez|Ez]; cbn [mbind option_bind].
  - eexists _, f, css. split; [done|]. rewrite Ez. split_and!; try done.
    + constructor; [done|done|done| |by left]. intros l. cbn [ContentExtension.m_universalActionsWithoutConditions Z.eqb negb andb]. rewrite HU. naive_solver.
    + exists (u32 <$> setOrder S1). done.
  - rewrite (removeGlobal_spec rules A locs M HI f _ HL). cbn [mbind option_bind]. eexists _, f, css. split; [done|]. rewrite (proj2 (Z.eqb_neq _ _) Ez). split_and!; try done.
    + constructor; [done|done|done| |by left]. intros l. cbn [ContentExtension.m_universalActionsWithoutConditions negb andb].
      rewrite list_elem_of_In, filter_In, <- list_elem_of_In, HU, negb_true_iff. naive_solver.
    + exists (u32 <$> setOrder S1). done.
    + cbn [ContentExtension.m_globalDisplayNoneStyleSheet]. intros sheet. destruct (parseString _); [|done]. intros [= <-]. split; [|done].
      unfold appendChar, append8. cbn [characters]. rewrite appendString_characters. cbn [characters]. by rewrite <- !app_assoc.
Qed.

(** ** The top URL *)

Definition topString (topURL : URL) : list Z :=
  if ContentExtension.conditionsApplyOnlyToDomain c then ContentExtension.URL_host topURL else ContentExtension.URL_string topURL.

Lemma computeTopURLActions_spec topURL : asciiURL (topString topURL) ->
  exists T, ContentExtension.computeTopURLActions c topURL = Some T
    /\ forall a, a ∈ T <-> wanted None ContentExtension.allLoadTypesAndResourceTypes a /\ visits D3 (topString topURL) a.
Proof using HC.
  intros Hu. pose proof (compiled_top _ _ _ _ _ _ HC) as Hm. unfold ContentExtension.computeTopURLActions, interpret. fold (topString topURL).
  destruct (Machine_interpret D3 _ None _ ContentExtension.allLoadTypesAndResourceTypes Hm Hu) as (T1 & -> & H1). cbn [mbind option_bind].
  destruct (Machine_everything D3 _ Hm) as (T2 & -> & H2). cbn [mbind option_bind]. exists (T1 ∪ T2). split; [done|]. intros a.
  rewrite elem_of_union, H1, H2. unfold visits. split.
  - intros [(Hw & [(dfa & Hd & Ha)|[_ (dfa & Hd & Ha)]])|(Hf & Hr)]; [split; [done|]; exists dfa; auto..|].
    pose proof (rootAction_ok _ _ (machine_wf _ _ Hm) Hr) as [H0 _]. destruct Hr as (dfa & Hd & Ha). split; [|exists dfa; auto].
    split; [|done]. by apply flagsMatch_none.
  - intros (Hw & dfa & Hd & [Ha|Ha]); [left; split; [done|left; by exists dfa]|]. destruct (hasFlags a) eqn:Ef.
    + left. split; [done|]. right. split; [done|]. by exists dfa.
    + right. split; [done|]. by exists dfa.
Qed.

Lemma populate_ready f removed topURL e : Ready f removed e -> topURL <> ContentExtension.nullURL -> asciiURL (topString topURL) ->
  exists e', ContentExtension.populateConditionCacheIfNeeded topURL e = Some e' /\ Ready f removed e'
    /\ ContentExtension.m_identifier e' = ContentExtension.m_identifier e /\ ContentExtension.m_cachedTopURL e' = topURL
    /\ ContentExtension.computeTopURLActions c topURL = Some (ContentExtension.m_cachedTopURLActions e')
    /\ ContentExtension.computeUniversal (ContentExtension.m_universalActionsWithConditions e') (ContentExtension.m_cachedTopURLActions e')
       = Some (ContentExtension.m_cachedUniversalConditionedActions e').
Proof using HC.
  intros HR Hn Hu. unfold ContentExtension.populateConditionCacheIfNeeded. case_bool_decide as Ec.
  - exists e. destruct (ready_cache _ _ _ HR) as [H|[H1 H2]]; [congruence|]. rewrite Ec in H1. by split_and!.
  - rewrite (ready_compiled _ _ _ HR). destruct (computeTopURLActions_spec topURL Hu) as (T & ET & _). rewrite ET. cbn [mbind option_bind].
    assert (ContentExtension.computeUniversal (ContentExtension.m_universalActionsWithConditions e) T
            = Some (u32 <$> List.filter (fun action => eqb (ContentExtension.ifCondition action) (bool_decide (action ∈ T)))
                      (ContentExtension.m_universalActionsWithConditions e))) as EU.
    { unfold ContentExtension.computeUniversal. rewrite option_guard_True; [done|]. apply Forall_forall. intros a Ha. apply (ready_with _ _ _ HR) in Ha as [Hf Hr].
      apply universal_with; [|done]. by apply (rootAction_ok D2), Hr; apply (machine_wf _ _ (compiled_with _ _ _ _ _ _ HC)). }
    rewrite EU. cbn [mbind option_bind]. eexists. split; [done|]. split; [|by split_and!].
    destruct HR as [R1 R2 R3 R4 R5]. constructor; try done. right. by split.
Qed.

(** ** A load *)

(** The locations found for a load. *)
Definition located (f : Z) (removed : bool) (url : list Z) (flags : Z) (T : Actions) (l : Z) : Prop :=
  (exists a, l = u32 a /\ wanted None flags a
     /\ ((exists dfa, dfa ∈ D1 /\ meets dfa (DFA.root dfa) url a) \/ (rootAction D1 a /\ (hasFlags a = true \/ removed && global A f l = false))))
  \/ (exists a, l = u32 a /\ wanted (Some T) flags a /\ visits D2 url a).

Lemma located_rule f removed url flags T l : located f removed url flags T l -> exists i, locs !! i = Some l.
Proof using HC.
  intros [(a & -> & _ & H)|(a & -> & _ & H)].
  - apply (compiled_ref1 _ _ _ _ _ _ HC). destruct H as [(dfa & Hd & Ha)|[H _]]; [|by apply rootAction_mentions].
    apply (visits_mentions D1 url). exists dfa. auto.
  - apply (compiled_ref2 _ _ _ _ _ _ HC). by eapply visits_mentions.
Qed.

Lemma flagless_wanted top flags a : okAction a -> hasFlags a = false ->
  wanted top flags a <-> match top with None => True | Some T => matchesCondition a T = true end.
Proof. intros [H0 _] Hf. unfold wanted. rewrite flagsMatch_none by done. naive_solver. Qed.

Lemma universal_located T U l : (forall a, a ∈ U <-> hasFlags a = false /\ rootAction D2 a) ->
  l ∈ u32 <$> List.filter (fun action => eqb (ContentExtension.ifCondition action) (bool_decide (action ∈ T))) U
  <-> exists a, l = u32 a /\ hasFlags a = false /\ rootAction D2 a /\ matchesCondition a T = true.
Proof.
  intros HU. rewrite list_elem_of_fmap. setoid_rewrite list_elem_of_In. setoid_rewrite filter_In. setoid_rewrite <- list_elem_of_In. setoid_rewrite HU.
  unfold matchesCondition, ContentExtension.ifCondition. naive_solver.
Qed.

Lemma locations_located f removed url flags T F1 F2 e l :
  Ready f removed e ->
  (forall a, a ∈ F1 <-> wanted None flags a /\ ((exists dfa, dfa ∈ D1 /\ meets dfa (DFA.root dfa) url a) \/ (hasFlags a = true /\ rootAction D1 a))) ->
  (forall a, a ∈ F2 <-> wanted (Some T) flags a /\ ((exists dfa, dfa ∈ D2 /\ meets dfa (DFA.root dfa) url a) \/ (hasFlags a = true /\ rootAction D2 a))) ->
  l ∈ (u32 <$> setOrder F1) ++ (u32 <$> setOrder F2) ++ ContentExtension.m_universalActionsWithoutConditions e
      ++ (u32 <$> List.filter (fun action => eqb (ContentExtension.ifCondition action) (bool_decide (action ∈ T))) (ContentExtension.m_universalActionsWithConditions e))
  <-> located f removed url flags T l.
Proof using HsetOrder HC.
  intros HR H1 H2. pose proof (machine_wf _ _ (compiled_without _ _ _ _ _ _ HC)) as M1. pose proof (machine_wf _ _ (compiled_with _ _ _ _ _ _ HC)) as M2.
  rewrite !elem_of_app, (universal_located T _ l (ready_with _ _ _ HR)), (ready_without _ _ _ HR), !list_elem_of_fmap.
  setoid_rewrite elem_setOrder. setoid_rewrite H1. setoid_rewrite H2. unfold located, visits. split.
  - intros [(a & -> & Hw & H)|[(a & -> & Hw & H)|[(a & -> & Hf & Hr & Hg)|(a & -> & Hf & Hr & Hc)]]].
    + left. exists a. split; [done|]. split; [done|]. destruct H as [H|[H H']]; [by left|right]. auto.
    + right. exists a. split; [done|]. split; [done|]. destruct H as [(dfa & Hd & H)|[_ (dfa & Hd & H)]]; exists dfa; auto.
    + left. exists a. split; [done|]. split; [by apply (flagless_wanted None flags a (rootAction_ok _ _ M1 Hr) Hf)|]. right. auto.
    + right. exists a. split; [done|]. split; [by apply (flagless_wanted (Some T) flags a (rootAction_ok _ _ M2 Hr) Hf)|].
      destruct Hr as (dfa & Hd & H). exists dfa. auto.
  - intros [(a & -> & Hw & [H|[Hr [Hf|Hg]]])|(a & -> & Hw & dfa & Hd & H)].
    + left. exists a. auto.
    + left. exists a. auto.
    + destruct (hasFlags a) eqn:Hf; [left; exists a; auto|]. right. right. left. exists a. auto.
    + destruct H as [H|H]; [right; left; exists a; split; [done|]; split; [done|]; left; by exists dfa|].
      assert (rootAction D2 a) as Hr by (by exists dfa). destruct (hasFlags a) eqn:Hf; [right; left; exists a; auto|].
      right. right. right. exists a. split; [done|]. split; [done|]. split; [done|].
      exact (proj1 (flagless_wanted (Some T) flags a (rootAction_ok _ _ M2 Hr) Hf) Hw).
Qed.

Lemma actionsOfExtension_ready f removed url flags topURL e acc :
  Ready f removed e -> asciiURL url -> topURL <> ContentExtension.nullURL -> asciiURL (topString topURL) ->
  exists T L out saw e', ContentExtension.computeTopURLActions c topURL = Some T /\ (forall l, l ∈ L <-> located f removed url flags T l)
    /\ ContentExtension.actionsOfExtension setOrder url flags topURL e acc
       = Some ((acc ++ out) ++ (if saw : bool then [] else [mkAction (Some (ContentExtension.m_identifier e)) CSSDisplayNoneStyleSheet (2 ^ 32 - 1)
                                                           (Some (ContentExtension.m_identifier e))]), e')
    /\ Ready f removed e' /\ ContentExtension.m_identifier e' = ContentExtension.m_identifier e
    /\ (saw = true <-> exists k r l, rules !! k = Some r /\ locs !! k = Some l /\ l ∈ L /\ isIgnore r = true)
    /\ forall a, a ∈ out <-> exists i r l a', inForce rules locs L i /\ rules !! i = Some r /\ locs !! i = Some l /\ deserialize A l = Some a'
         /\ readsRule rules locs r l a' /\ a = setExtensionIdentifier (ContentExtension.m_identifier e) a'.
Proof using HsetOrder HC.
  intros HR Hu Hn Ht. destruct (compiled_rules _ _ _ _ _ _ HC) as [M HI]. unfold ContentExtension.actionsOfExtension. rewrite (ready_compiled _ _ _ HR). unfold interpret, interpretWithConditions.
  destruct (Machine_interpret D1 _ None url flags (compiled_without _ _ _ _ _ _ HC) Hu) as (F1 & -> & H1). cbn [mbind option_bind].
  destruct (populate_ready f removed topURL e HR Hn Ht) as (e1 & E1 & HR1 & I1 & C1 & T1 & U1). unfold ContentExtension.topURLActions. rewrite E1. cbn [mbind option_bind].
  set (T := ContentExtension.m_cachedTopURLActions e1) in *.
  destruct (Machine_interpret D2 _ (Some T) url flags (compiled_with _ _ _ _ _ _ HC) Hu) as (F2 & -> & H2). cbn [mbind option_bind].
  unfold ContentExtension.universalActionsWithConditions, ContentExtension.populateConditionCacheIfNeeded. rewrite bool_decide_eq_true_2 by done. cbn [mbind option_bind].
  unfold ContentExtension.computeUniversal in U1. destruct (decide (Forall (fun action => Z.land action (Z.lnot IfConditionFlag) = u32 action) (ContentExtension.m_universalActionsWithConditions e1))) as [Hg|Hg];
    [rewrite option_guard_True in U1 by done|rewrite option_guard_False in U1 by done; done]. cbn [mbind option_bind] in U1. injection U1 as U1. rewrite <- U1.
  match goal with |- context [merge_sort Z.le ?l] => set (L := l) end.
  assert (forall l, l ∈ L <-> located f removed url flags T l) as HL by (intros l; by apply locations_located).
  destruct (reverseLoop_inForce rules A locs M HI L (ContentExtension.m_identifier e1) acc) as (out & saw & -> & Hsaw & Hout).
  { intros l Hl. by eapply located_rule, HL. }
  cbn [mbind option_bind]. exists T, L, out, saw, e1. split; [done|]. split; [done|]. rewrite <- I1. destruct saw; cbn [mbind option_bind].
  - rewrite app_nil_r. by split_and!.
  - unfold Action_ofString. rewrite option_guard_True by (by right). cbn [mbind option_bind setExtensionIdentifier m_type m_actionID m_stringArgument]. by split_and!.
Qed.

End Blocker.
