(* ===== verification/ContentExtensionProperties.v ===== *)
(** * ContentExtensionProperties: what a content blocker does to a load *)

From stdpp Require Import gmap sorting.
From S2P Require Import Prelude ASCIICType DFA DFABytecode DFABytecodeCompiler DFABytecodeInterpreter DFATransitions DFACompile DFARun DFASimulation DFAProperties ContentExtensionRule ContentExtensionCompiler ContentExtensionSerialize ContentExtension ContentExtensionCorrect.
Import DFABytecode DFABytecodeCompiler DFABytecodeInterpreter ContentExtensionRule ContentExtensionCompiler.

(** ** Serialized actions *)

(** C31: Serializing a rule list gives each rule a location from which its action
    is read back: its type, the location as identifier, and for a selector the
    selectors of all rules at that location, which have equal triggers, joined
    by commas; and a rule is at a lower (higher) location than each ignoring
    rule that follows (precedes) it, in whatever order the table of pending
    selectors is walked. *)
Theorem serializeActions_correct hashOrder rules :
  (forall m, hashOrder m ≡ₚ m) -> okRules rules ->
  exists locs A, serializeActions hashOrder rules = Some (locs, A) /\ length locs = length rules
    /\ (forall i r l, rules !! i = Some r -> locs !! i = Some l -> exists a, deserialize A l = Some a /\ readsRule rules locs r l a)
    /\ (forall i k r r' l l', rules !! i = Some r -> rules !! k = Some r' -> isIgnore r = false -> isIgnore r' = true ->
          locs !! i = Some l -> locs !! k = Some l' -> ((i < k)%nat -> l < l') /\ ((k < i)%nat -> l' < l)).
Proof.
  intros Ho Hr. destruct (serializeActions_Inv hashOrder Ho rules Hr) as (locs & A & M & E & HI). exists locs, A. split; [done|].
  split; [apply (inv_length _ _ _ _ _ HI)|]. split; [intros i r l; apply (rule_read rules A locs M HI)|apply (inv_order _ _ _ _ _ HI)].
Qed.

(** Rules for the witnesses: two selectors with one trigger, a block, an
    ignoring rule, and a conditioned block. *)
Definition exampleRule (filter : list Z) (flags : Z) (conditions : list (list Z)) (type : ActionType) (selector : option WTFString) : Rule :=
  mkRule (mkTrigger filter false false flags conditions (match conditions with [] => NoCondition | _ => IfDomain end)) (mkAction None type 0 selector).

Definition exampleRules : list Rule :=
  [exampleRule chrs "a" 0 [] CSSDisplayNoneSelector (Some (mkString true chrs "p"));
   exampleRule chrs "b" 1 [] BlockLoad None;
   exampleRule chrs "a" 0 [] CSSDisplayNoneSelector (Some (mkString false [8364]));
   exampleRule chrs "x" 0 [] IgnorePreviousRules None;
   exampleRule chrs "b" 0 [chrs "c.org"] BlockCookies None].

#[global] Instance asciiURL_dec url : Decision (asciiURL url).
Proof. unfold asciiURL. apply _. Defined.

#[global] Instance okRule_dec r : Decision (okRule r).
Proof. unfold okRule, okChars. apply _. Defined.

Lemma exampleRules_ok : okRules exampleRules.
Proof. split; [|vm_compute; reflexivity]. apply (bool_decide_unpack _). vm_compute. exact I. Qed.

Lemma example_serialized : serializeActions id exampleRules = Some ([1; 0; 1; 13; 14], [0; 2; 3; 0; 0; 0; 1; 112; 0; 44; 0; 172; 32; 4; 1]).
Proof. by vm_compute. Qed.

Lemma serializeActions_correct_witness :
  exists locs A, serializeActions id exampleRules = Some (locs, A) /\ length locs = length exampleRules
    /\ (forall i r l, exampleRules !! i = Some r -> locs !! i = Some l -> exists a, deserialize A l = Some a /\ readsRule exampleRules locs r l a)
    /\ (forall i k r r' l l', exampleRules !! i = Some r -> exampleRules !! k = Some r' -> isIgnore r = false -> isIgnore r' = true ->
          locs !! i = Some l -> locs !! k = Some l' -> ((i < k)%nat -> l < l') /\ ((k < i)%nat -> l' < l)).
Proof. apply serializeActions_correct; [reflexivity|exact exampleRules_ok]. Defined.

(** ** Loads *)

Section Loads.

Context {URL : Type} {URLops : ContentExtension.URLClass URL} (setOrder : Actions -> list Z) (c : ContentExtension.CompiledContentExtension).

(** The URL of a load and of its page: ASCII, and with a page. *)
Definition okLoad (url : list Z) (topURL : URL) : Prop := asciiURL url /\ topURL <> ContentExtension.nullURL /\ asciiURL (topString c topURL).

(** The states of an extension after some loads. *)
Inductive loaded (e0 : ContentExtension.t URL) : ContentExtension.t URL -> Prop :=
| loaded_start : loaded e0 e0
| loaded_load e url flags topURL acc result e' : loaded e0 e -> okLoad url topURL ->
    ContentExtension.actionsOfExtension setOrder url flags topURL e acc = Some (result, e') -> loaded e0 e'.

(** The action of rule [i] as it is reported. *)
Definition reports (rules : list Rule) (locs : list Z) (identifier : WTFString) (i : nat) (a : Action) : Prop :=
  exists r l a', rules !! i = Some r /\ locs !! i = Some l /\ deserialize (ContentExtension.compiledActions c) l = Some a'
    /\ readsRule rules locs r l a' /\ a = setExtensionIdentifier identifier a'.

(** Rule [i] matches, and no later ignoring rule does. *)
Definition applied (rules : list Rule) (locs : list Z) (matched : Z -> Prop) (i : nat) : Prop :=
  exists r l, rules !! i = Some r /\ locs !! i = Some l /\ matched l /\ isIgnore r = false
    /\ forall k r' l', rules !! k = Some r' -> locs !! k = Some l' -> matched l' -> isIgnore r' = true -> (k < i)%nat.

Lemma applied_inForce rules locs matched L i : (forall l, l ∈ L <-> matched l) -> inForce rules locs L i <-> applied rules locs matched i.
Proof.
  intros HL. unfold inForce, applied. split; intros (r & l & H1 & H2 & H3 & H4 & H5); exists r, l; (split_and!; [done|done|by apply HL|done|]);
    intros k r' l' Hk Hl' Hm; apply (H5 k r' l' Hk Hl'); by apply HL.
Qed.

End Loads.

Section Loaded.

Context {URL : Type} {URLops : ContentExtension.URLClass URL} (parseString : WTFString -> bool) (setOrder : Actions -> list Z).
Hypothesis HsetOrder : forall s, setOrder s ≡ₚ elements s.
Context (D1 D2 D3 : list DFA.DFA) (rules : list Rule) (locs : list Z) (c : ContentExtension.CompiledContentExtension).
Hypothesis HC : Compiled D1 D2 D3 rules locs c.

Lemma loaded_ready identifier e0 e : ContentExtension.create parseString setOrder identifier c = Some e0 -> loaded setOrder c e0 e ->
  exists f css, Ready D1 D2 c f (negb (String_length css =? 0)) e /\ ContentExtension.m_identifier e = identifier.
Proof using HsetOrder HC.
  intros Ec Hl. induction Hl as [|e url flags topURL acc result e' Hl IH (Hu & Hn & Ht) E].
  - destruct (create_ready (URL := URL) parseString setOrder HsetOrder D1 D2 D3 rules locs c HC identifier) as (e & f & css & E & HR & Hid & _).
    assert (e = e0) as -> by congruence. eauto.
  - destruct IH as (f & css & HR & Hid).
    destruct (actionsOfExtension_ready setOrder HsetOrder D1 D2 D3 rules locs c HC f _ url flags topURL e acc HR Hu Hn Ht) as (T & L & out & saw & e2 & _ & _ & E2 & HR2 & Hid2 & _).
    assert (e2 = e') as -> by congruence. exists f, css. split; [done|congruence].
Qed.

End Loaded.

(** An extension for the witnesses: the selectors of [exampleRules] apply to
    every URL, [b] blocks documents, and [b] with the top URL [c] blocks
    cookies. *)
#[global] Instance exampleURL : ContentExtension.URLClass (list Z) := {|
  ContentExtension.nullURL := [];
  ContentExtension.URL_string := fun u => u;
  ContentExtension.URL_host := fun u => u;
  ContentExtension.protocolIs := fun u p => bool_decide ((p ++ [58]) `prefix_of` u);
  ContentExtension.portIsDefault := fun _ => true;
  ContentExtension.isThirdParty := fun _ _ => false |}.

(** One character leads from the root to a node with an action. *)
Definition characterDFA (rootActions : list Z) (character a : Z) : DFA.DFA :=
  DFA.mkDFA [DFA.mkNode 0 0 (Z.of_nat (length rootActions)) 1 0; DFA.mkNode (Z.of_nat (length rootActions)) 1 1 0 0]
    (rootActions ++ [a]) [DFA.mkCharRange character character] [1] 0.

Definition exampleWithout : list DFA.DFA := [characterDFA [1] (chr "b") (2 ^ 32)].
Definition exampleWith : list DFA.DFA := [characterDFA [] (chr "b") (2 ^ 48 + 14)].
Definition exampleTop : list DFA.DFA := [characterDFA [] (chr "c") (2 ^ 48 + 14)].

Definition bytecodeOf (D : list DFA.DFA) : list Z := default [] ((fun bs => concat bs) <$> mapM (fun dfa => compile dfa []) D).

Definition exampleCompiled : ContentExtension.CompiledContentExtension :=
  ContentExtension.mkCompiled (bytecodeOf exampleWithout) (bytecodeOf exampleWith) (bytecodeOf exampleTop)
    [0; 2; 3; 0; 0; 0; 1; 112; 0; 44; 0; 172; 32; 4; 1] true.

Lemma exampleCompiled_ok : Compiled exampleWithout exampleWith exampleTop exampleRules [1; 0; 1; 13; 14] exampleCompiled.
Proof.
  split; try (apply Machine_check; [vm_compute; reflexivity|done|vm_compute; reflexivity]).
  - destruct (serializeActions_Inv id (fun m => reflexivity m) exampleRules exampleRules_ok) as (locs & A & M & E & HI). exists M.
    rewrite example_serialized in E. injection E as <- <-. exact HI.
  - intros a (dfa & Hd & Ha)%mentions_actions. apply list_elem_of_singleton in Hd as ->. cbn [characterDFA DFA.dfa_actions app] in Ha.
    apply elem_of_cons in Ha as [->|Ha%list_elem_of_singleton]; [|subst a]; (split; [done|]); [by exists 0%nat|by exists 1%nat].
  - intros a (dfa & Hd & Ha)%mentions_actions. apply list_elem_of_singleton in Hd as ->. cbn [characterDFA DFA.dfa_actions app] in Ha.
    apply list_elem_of_singleton in Ha as ->. by exists 4%nat.
Qed.

Definition exampleIdentifier : WTFString := mkString true chrs "blocker".

(** The first load of a document at [b] from the page [c]. *)
Lemma example_load :
  match ContentExtension.create (fun _ => true) elements exampleIdentifier exampleCompiled with
  | Some e => fst <$> ContentExtension.actionsOfExtension elements chrs "b" (0x0001 + 0x0400) (chrs "c" : list Z) e []
              = Some [mkAction (Some exampleIdentifier) BlockCookies 14 None; mkAction (Some exampleIdentifier) BlockLoad 0 None;
                      mkAction (Some exampleIdentifier) CSSDisplayNoneStyleSheet (2 ^ 32 - 1) (Some exampleIdentifier)]
              /\ ContentExtension.m_globalDisplayNoneStyleSheet e = Some (mkString false (112 :: 44 :: 8364 :: chrs "{display:none !important;}"))
  | None => False
  end.
Proof. vm_compute. by split. Qed.




