(* ===== verification/ContentExtensionsBackendCorrect.v ===== *)
(** * ContentExtensionsBackendCorrect: several content blockers and one load *)

From Stdlib Require Import Btauto.
From stdpp Require Import gmap sorting.
From S2P Require Import Prelude ASCIICType DFA DFABytecode DFABytecodeCompiler DFABytecodeInterpreter DFATransitions DFACompile DFARun DFASimulation DFAProperties ContentExtensionRule ContentExtensionCompiler ContentExtensionSerialize ContentExtension ContentExtensionsBackend ContentExtensionCorrect ContentExtensionProperties.
Import DFABytecode DFABytecodeCompiler DFABytecodeInterpreter ContentExtensionRule ContentExtensionCompiler.
Import ContentExtensionsBackend.

(** ** Actions are added to those found before *)

Lemma reverseLoop_acc A identifier D : forall acc,
  ContentExtension.reverseLoop A identifier D acc = (fun p => (acc ++ p.1, p.2)) <$> ContentExtension.reverseLoop A identifier D [].
Proof.
  induction D as [|l D IH]; intros acc; cbn [ContentExtension.reverseLoop]; [by rewrite <- (app_nil_r acc) at 1|].
  destruct (deserialize A l) as [a|]; [|done]. cbn [mbind option_bind]. case_bool_decide; [by rewrite <- (app_nil_r acc) at 1|].
  rewrite IH, (IH ([] ++ _)). destruct (ContentExtension.reverseLoop A identifier D []) as [[o s]|]; [|done]. cbn. by rewrite <- app_assoc.
Qed.

Section Acc.

Context {URL : Type} {URLops : ContentExtension.URLClass URL} (setOrder : Actions -> list Z).

Lemma actionsOfExtension_acc url flags topURL (e : ContentExtension.t URL) acc :
  ContentExtension.actionsOfExtension setOrder url flags topURL e acc
  = (fun p => (acc ++ p.1, p.2)) <$> ContentExtension.actionsOfExtension setOrder url flags topURL e [].
Proof.
  unfold ContentExtension.actionsOfExtension. destruct (interpret _ _ _); [|done]. cbn [mbind option_bind].
  destruct (ContentExtension.topURLActions topURL e) as [[T e1]|]; [|done]. cbn [mbind option_bind].
  destruct (interpretWithConditions _ _ _ _); [|done]. cbn [mbind option_bind].
  destruct (ContentExtension.universalActionsWithConditions topURL e1) as [[U e2]|]; [|done]. cbn [mbind option_bind]. rewrite reverseLoop_acc.
  destruct (ContentExtension.reverseLoop _ _ _ []) as [[o s]|]; [|done]. cbn. destruct s; [done|]. unfold Action_ofString. rewrite option_guard_True by (by right).
  cbn. by rewrite <- app_assoc.
Qed.

End Acc.

(** ** The status of a load *)

Definition isType (t : ActionType) (a : Action) : bool := bool_decide (m_type a = t).

Lemma isType_eq t a : isType t a = bool_decide (m_type a = t).
Proof. done. Qed.

(** Neither of the types that end processing. *)
Definition processable (a : Action) : Prop := m_type a <> IgnorePreviousRules /\ m_type a <> InvalidAction.

Section Process.

Context {URL : Type} {URLops : ContentExtension.URLClass URL}.

Definition promotable (url : URL) : bool :=
  (ContentExtension.protocolIs url chrs "http" || ContentExtension.protocolIs url chrs "ws") && ContentExtension.portIsDefault url.

Lemma status_eq a b c a' b' c' (calls : list (Call URL)) : a = a' -> b = b' -> c = c' -> Some (mkStatus a b c, calls) = Some (mkStatus a' b' c', calls).
Proof. by intros -> -> ->. Qed.

Lemma processActions_status (url : URL) (resourceType : Z) (doc : bool) (b : Extensions URL) actions : forall s calls, Forall processable actions ->
  exists calls', processActions url resourceType doc b actions (s, calls)
    = Some (mkStatus (blockedLoad s || existsb (isType BlockLoad) actions) (blockedCookies s || existsb (isType BlockCookies) actions)
              (madeHTTPS s || (promotable url && existsb (isType MakeHTTPS) actions)), calls').
Proof.
  induction actions as [|a actions IH]; intros s calls Hp; cbn [processActions existsb]; [exists calls; rewrite !orb_false_r, andb_false_r, orb_false_r; by destruct s|].
  apply Forall_cons in Hp as [[H1 H2] Hp]. unfold processAction. rewrite !isType_eq. destruct (m_type a) eqn:Et; try done.
  all: repeat match goal with
       | |- context [bool_decide (?x = ?y)] =>
           first [rewrite (bool_decide_eq_true_2 (x = y)) by reflexivity|rewrite (bool_decide_eq_false_2 (x = y)) by discriminate]
       end.
  all: cbn [mbind option_bind orb]; match goal with |- context [processActions _ _ _ _ _ (?st, ?c)] => destruct (IH st c Hp) as [calls' ->] end; exists calls'.
  all: apply status_eq; cbn [blockedLoad blockedCookies madeHTTPS]; unfold promotable; try btauto.
Qed.

End Process.

(** ** Several extensions *)

Section Backend.

Context {URL : Type} {URLops : ContentExtension.URLClass URL} (parseString : WTFString -> bool) (setOrder : Actions -> list Z).
Hypothesis HsetOrder : forall s, setOrder s ≡ₚ elements s.

(** The extension is made from automata and rules. *)
Definition Blocker (e : ContentExtension.t URL) : Prop :=
  exists D1 D2 D3 rules locs c f removed, Compiled D1 D2 D3 rules locs c /\ Ready D1 D2 c f removed e.

(** A page whose URL can be given to the interpreter, in both forms. *)
Definition okTopURL (topURL : URL) : Prop :=
  topURL <> ContentExtension.nullURL /\ asciiURL (ContentExtension.URL_string topURL) /\ asciiURL (ContentExtension.URL_host topURL).

Lemma okTopURL_string c topURL : okTopURL topURL -> asciiURL (topString c topURL).
Proof. intros (_ & H1 & H2). unfold topString. by destruct (ContentExtension.conditionsApplyOnlyToDomain c). Qed.

Lemma Blocker_create identifier c D1 D2 D3 rules locs : Compiled D1 D2 D3 rules locs c ->
  exists e, ContentExtension.create parseString setOrder identifier c = Some e /\ Blocker e.
Proof using HsetOrder.
  intros HC. destruct (create_ready (URL := URL) parseString setOrder HsetOrder D1 D2 D3 rules locs c HC identifier) as (e & f & css & E & HR & _).
  exists e. split; [done|]. by exists D1, D2, D3, rules, locs, c, f, (negb (String_length css =? 0)).
Qed.

Lemma Blocker_load e url flags topURL : Blocker e -> asciiURL url -> okTopURL topURL ->
  exists out e', ContentExtension.actionsOfExtension setOrder url flags topURL e [] = Some (out, e') /\ Blocker e' /\ Forall processable out.
Proof using HsetOrder.
  intros (D1 & D2 & D3 & rules & locs & c & f & removed & HC & HR) Hu Ht. pose proof Ht as (Hn & _).
  destruct (actionsOfExtension_ready setOrder HsetOrder D1 D2 D3 rules locs c HC f removed url flags topURL e [] HR Hu Hn (okTopURL_string c topURL Ht))
    as (T & L & out & saw & e' & _ & _ & E & HR' & _ & _ & Hout). eexists _, e'. split; [exact E|]. split; [by exists D1, D2, D3, rules, locs, c, f, removed|].
  destruct (compiled_rules _ _ _ _ _ _ HC) as [M HI]. pose proof (inv_rules _ _ _ _ _ HI) as Hrules. rewrite Forall_lookup in Hrules.
  rewrite app_nil_l. apply Forall_app. split.
  - apply Forall_forall. intros a Ha. apply Hout in Ha as (i & r & l & a' & (r2 & l2 & H1 & H2 & _ & Hig & _) & Hr & Hl & _ & (_ & Et & _) & ->).
    assert (r2 = r) as -> by congruence. unfold processable. cbn [setExtensionIdentifier m_type]. rewrite Et. destruct (Hrules i r Hr) as (_ & _ & Hinv). split; [|done].
    unfold isIgnore in Hig. by apply bool_decide_eq_false_1 in Hig.
  - destruct saw; [constructor|]. by apply Forall_singleton.
Qed.

(** One result per extension, in the order of the table. *)
Definition resultsOf (b : Extensions URL) (url : list Z) (flags : Z) (topURL : URL) (keys : list (list Z)) (outs : list (list Action)) : Prop :=
  Forall2 (fun key out => exists e e', b !! key = Some e /\ ContentExtension.actionsOfExtension setOrder url flags topURL e [] = Some (out, e')) keys outs.

Lemma extensionsLoop_results url flags topURL keys : forall b acc, NoDup keys -> (forall key, key ∈ keys -> is_Some (b !! key)) ->
  map_Forall (fun _ e => Blocker e) b -> asciiURL url -> okTopURL topURL ->
  exists outs b', extensionsLoop setOrder url flags topURL keys b acc = Some (acc ++ concat outs, b') /\ resultsOf b url flags topURL keys outs
    /\ map_Forall (fun _ e => Blocker e) b' /\ dom b' = dom b /\ Forall processable (concat outs).
Proof using HsetOrder.
  induction keys as [|key keys IH]; intros b acc Hnd Hin Hb Hu Ht; cbn [extensionsLoop].
  - exists [], b. cbn. rewrite app_nil_r. split_and!; try done. constructor.
  - inversion Hnd as [|? ? Hk Hnd']; subst. destruct (Hin key ltac:(left)) as [e He]. rewrite He. cbn [mbind option_bind]. rewrite actionsOfExtension_acc.
    destruct (Blocker_load e url flags topURL (map_Forall_lookup_1 _ _ _ _ Hb He) Hu Ht) as (out & e' & E & He' & Hp). rewrite E. cbn [fmap option_fmap option_map mbind option_bind fst snd].
    destruct (IH (<[key := e']> b) (acc ++ out) Hnd') as (outs & b' & -> & Hr & Hb' & Hd & Hp').
    + intros k Hk'. rewrite lookup_insert_ne by (intros ->; done). apply Hin. by right.
    + by apply map_Forall_insert_2.
    + done.
    + done.
    + exists (out :: outs), b'. cbn [concat]. rewrite app_assoc. split_and!; try done.
      * constructor; [by exists e, e'|]. apply Forall2_same_length_lookup. apply Forall2_same_length_lookup in Hr as [Hlen Hr]. split; [done|].
        intros n k o Hk' Ho. destruct (Hr n k o Hk' Ho) as (e2 & e3 & E2 & E3). exists e2, e3. split; [|done].
        rewrite lookup_insert_ne in E2; [done|]. intros ->. apply Hk. by eapply list_elem_of_lookup_2.
      * rewrite Hd, dom_insert_L. apply elem_of_dom_2 in He. set_solver.
      * by apply Forall_app.
Qed.

End Backend.

Lemma asciiURL_onlyASCII url : asciiURL url -> containsOnlyASCII url = true.
Proof.
  intros [_ H]. unfold containsOnlyASCII. rewrite forallb_forall. intros c Hc. rewrite Forall_forall in H. apply list_elem_of_In, H in Hc. lia.
Qed.

(** C33: What the backend makes of a load, for content blockers made from rules:
    it finds the actions of each blocker for the URL, the flags and the page,
    never meets an action it cannot process, and the load is blocked, its
    cookies are blocked or its URL promoted exactly when one of these actions
    says so (promotion only for http and ws URLs on their default port); the
    blockers stay well formed for the next load. *)
Theorem processContentExtensionRulesForLoad_correct {URL : Type} {URLops : ContentExtension.URLClass URL} (setOrder : Actions -> list Z)
    (keyOrder : Extensions URL -> list (list Z)) (url : URL) (resourceType : Z) (frame : option (FrameInfo URL)) (b : Extensions URL) :
  (forall s, setOrder s ≡ₚ elements s) -> (forall b, keyOrder b ≡ₚ (map_to_list b).*1) -> map_Forall (fun _ e => Blocker e) b ->
  resourceType <> 0 -> ContentExtension.protocolIs url chrs "data" = false -> asciiURL (ContentExtension.URL_string url) ->
  okTopURL (mainDocumentURLOf url resourceType frame) ->
  exists flags outs status calls b',
    ContentExtension.getResourceFlags (ContentExtension.mkInfo url (mainDocumentURLOf url resourceType frame) resourceType) = Some flags
    /\ resultsOf setOrder b (ContentExtension.URL_string url) flags (mainDocumentURLOf url resourceType frame) (keyOrder b) outs
    /\ processContentExtensionRulesForLoad setOrder keyOrder url resourceType frame b = Some (status, calls, b')
    /\ map_Forall (fun _ e => Blocker e) b' /\ dom b' = dom b
    /\ blockedLoad status = existsb (isType BlockLoad) (concat outs)
    /\ blockedCookies status = existsb (isType BlockCookies) (concat outs)
    /\ madeHTTPS status = promotable url && existsb (isType MakeHTTPS) (concat outs).
Proof.
  intros HsetOrder HkeyOrder Hb Htype Hdata Hu Ht. set (top := mainDocumentURLOf url resourceType frame) in *.
  assert (exists flags, ContentExtension.getResourceFlags (ContentExtension.mkInfo url top resourceType) = Some flags) as [flags Ef].
  { unfold ContentExtension.getResourceFlags. rewrite option_guard_True by done. cbn [mbind option_bind]. eauto. }
  exists flags. unfold processContentExtensionRulesForLoad. fold top. case_bool_decide as Eb.
  { subst b. exists [], (mkStatus false false false), [], ∅. split_and!; try done; [|by rewrite andb_false_r].
    specialize (HkeyOrder ∅). rewrite map_to_list_empty in HkeyOrder. apply Permutation_nil_r in HkeyOrder. rewrite HkeyOrder. constructor. }
  unfold actionsForResourceLoad. cbn [ContentExtension.resourceURL ContentExtension.mainDocumentURL]. rewrite Hdata, asciiURL_onlyASCII by done.
  rewrite (option_guard_True (true = true)) by reflexivity. cbn [mbind option_bind]. rewrite Ef. cbn [mbind option_bind].
  destruct (extensionsLoop_results setOrder HsetOrder (ContentExtension.URL_string url) flags top (keyOrder b) b []) as (outs & b' & -> & Hr & Hb' & Hd & Hp); try done.
  { rewrite HkeyOrder. apply NoDup_fst_map_to_list. }
  { intros key Hk. rewrite HkeyOrder in Hk. apply list_elem_of_fmap in Hk as ([k e] & -> & Hk). apply elem_of_map_to_list in Hk. by exists e. }
  cbn [mbind option_bind app]. destruct (processActions_status url resourceType (match frame with Some f => hasDocument f | None => false end) b' (concat outs)
    (mkStatus false false false) [] Hp) as [calls ->]. cbn [mbind option_bind blockedLoad blockedCookies madeHTTPS orb].
  assert (forall m, (promotable url && m) = true -> ContentExtension.protocolIs url chrs "http" || ContentExtension.protocolIs url chrs "ws" = true) as Hpro.
  { intros m Hm. unfold promotable in Hm. by apply andb_true_iff in Hm as [[? _]%andb_true_iff _]. }
  specialize (Hpro (existsb (isType MakeHTTPS) (concat outs))).
  destruct (match frame with Some f => hasDocument f | None => false end); cbn [mbind option_bind].
  - destruct (promotable url && existsb (isType MakeHTTPS) (concat outs)) eqn:Ep.
    + rewrite option_guard_True by (by apply Hpro). cbn [mbind option_bind]. eexists outs, _, _, b'. by split_and!.
    + cbn [mbind option_bind]. eexists outs, _, _, b'. by split_and!.
  - eexists outs, _, _, b'. by split_and!.
Qed.

(** One blocker, and a document at [b] in a frame of the page [c]. *)
Definition exampleFrame : FrameInfo (list Z) := mkFrame (list Z) false false true (Some chrs "c").

Definition exampleKeyOrder (b : Extensions (list Z)) : list (list Z) := (map_to_list b).*1.

Lemma processContentExtensionRulesForLoad_correct_witness :
  exists b : Extensions (list Z), addContentExtension (fun _ => true) elements exampleIdentifier exampleCompiled ∅ = Some b /\
  exists flags outs status calls b',
    ContentExtension.getResourceFlags (ContentExtension.mkInfo (chrs "b") (mainDocumentURLOf (chrs "b") 1 (Some exampleFrame)) 1) = Some flags
    /\ resultsOf elements b (ContentExtension.URL_string chrs "b") flags (mainDocumentURLOf (chrs "b") 1 (Some exampleFrame)) (exampleKeyOrder b) outs
    /\ processContentExtensionRulesForLoad elements exampleKeyOrder (chrs "b") 1 (Some exampleFrame) b = Some (status, calls, b')
    /\ map_Forall (fun _ e => Blocker e) b' /\ dom b' = dom b
    /\ blockedLoad status = existsb (isType BlockLoad) (concat outs)
    /\ blockedCookies status = existsb (isType BlockCookies) (concat outs)
    /\ madeHTTPS status = promotable (chrs "b") && existsb (isType MakeHTTPS) (concat outs).
Proof.
  destruct (Blocker_create (URL := list Z) (fun _ => true) elements (fun s => reflexivity _) exampleIdentifier exampleCompiled _ _ _ _ _ exampleCompiled_ok) as (e & E & HB).
  exists (<[chrs "blocker" := e]> ∅). split; [unfold addContentExtension; rewrite option_guard_True by discriminate; cbn [mbind option_bind]; by rewrite E|].
  apply (processContentExtensionRulesForLoad_correct elements exampleKeyOrder (chrs "b") 1 (Some exampleFrame)).
  - intros s. reflexivity.
  - intros b. reflexivity.
  - apply map_Forall_insert_2; [exact HB|apply map_Forall_empty].
  - discriminate.
  - reflexivity.
  - apply (bool_decide_unpack _). vm_compute. exact I.
  - split; [|split]; apply (bool_decide_unpack _); vm_compute; exact I.
Defined.
