(* ===== verification/MutableRangeList.v ===== *)
(** * MutableRangeList: sorted character ranges chained through a vector

    Translated from src/Source/WebCore/contentextensions/MutableRange.h and
    MutableRangeList.h.  The ranges are the cells of a vector, linked by the
    index of the next range; the first range is at index 0, and 0 as a next
    index is the end.  Characters are the values of a [char] that it has
    whether signed or not; a value that leaves 0 to 127 is [None], as are failed
    assertions and indices out of range.  What is copied from an iterator over
    other ranges is a list of spans; the data of a list and of the other ranges
    are parameters, with the two functions of the data converter. *)

From S2P Require Import Prelude.

Module MutableRangeList.

(** What an iterator gives: [first()], [last()] and [data()]. *)
Record Span {A : Type} := mkSpan { lo : Z; hi : Z; val : A }.
Arguments Span : clear implicits.
Arguments mkSpan {A}.

Record MutableRange {D : Type} := mkRange { data : D; nextRangeIndex : nat; first : Z; last : Z }.
Arguments MutableRange : clear implicits.
Arguments mkRange {D}.

(** Conversion to [char]. *)
Definition toChar (z : Z) : option Z := guard (0 <= z <= 127);; Some z.

(** Conversion of a size to [uint32_t]. *)
Definition toIndex (n : nat) : nat := Z.to_nat (u32 (Z.of_nat n)).

Section RangeList.

Context {D A : Type}.

(** The constructor with its assertion. *)
Definition newRange (d : D) (next : nat) (f l : Z) : option (MutableRange D) := guard (f <= l);; Some (mkRange d next f l).

Definition setFirst (f : Z) (r : MutableRange D) : MutableRange D := mkRange (data r) (nextRangeIndex r) f (last r).
Definition setData (d : D) (r : MutableRange D) : MutableRange D := mkRange d (nextRangeIndex r) (first r) (last r).
Definition setNext (n : nat) (r : MutableRange D) : MutableRange D := mkRange (data r) n (first r) (last r).

(** The vector and the index of the new range. *)
Definition appendRange (ranges : list (MutableRange D)) (lastRangeIndex : nat) (f l : Z) (d : D) : option (list (MutableRange D) * nat) :=
  let newRangeIndex := toIndex (length ranges) in
  new ← newRange d 0 f l;
  if bool_decide (newRangeIndex = 0%nat) then Some (ranges ++ [new], 0%nat)
  else
    r ← ranges !! lastRangeIndex;
    guard (nextRangeIndex r = 0%nat);;
    guard (last r < f);;
    Some (<[lastRangeIndex := setNext newRangeIndex r]> (ranges ++ [new]), newRangeIndex).

(** The vector and the two indices, which are passed by reference. *)
Definition insertBetween (ranges : list (MutableRange D)) (leftRangeIndex rightRangeIndex : nat) (f l : Z) (d : D)
    : option (list (MutableRange D) * nat * nat) :=
  rightRange ← ranges !! rightRangeIndex;
  guard (l < first rightRange);;
  if bool_decide (rightRangeIndex = 0%nat) then
    let movedRangeIndex := toIndex (length ranges) in
    moved ← newRange (data rightRange) (nextRangeIndex rightRange) (first rightRange) (last rightRange);
    new ← newRange d movedRangeIndex f l;
    Some (<[0%nat := new]> (ranges ++ [moved]), 0%nat, movedRangeIndex)
  else
    leftRange ← ranges !! leftRangeIndex;
    guard (nextRangeIndex leftRange = rightRangeIndex);;
    guard (last leftRange < f);;
    let newRangeIndex := toIndex (length ranges) in
    new ← newRange d rightRangeIndex f l;
    Some (<[leftRangeIndex := setNext newRangeIndex leftRange]> (ranges ++ [new]), newRangeIndex, rightRangeIndex).

Context (convert : A -> option D) (extendData : D -> A -> option D).

(** The state of the loop of [extend]: the vector, [lastSelfRangeIndex],
    [selfRangeIndex], the other iterator and [otherRangeOffset]. *)
Record Cursor := mkCursor {
  ranges : list (MutableRange D);
  lastSelf : nat;
  self : nat;
  others : list (Span A);
  offset : Z
}.

(** "Do we have a part on the left? Create a new range for it." *)
Definition alignStarts (c : Cursor) (other : Span A) : option Cursor :=
  active ← ranges c !! self c;
  let start := lo other + offset c in
  if first active <? start then
    f ← toChar start;
    l ← toChar (start - 1);
    '(rs, leftIndex, rightIndex) ← insertBetween (<[self c := setFirst f active]> (ranges c)) (lastSelf c) (self c) (first active) l (data active);
    Some (mkCursor rs leftIndex rightIndex (others c) (offset c))
  else if start <? first active then
    f ← toChar start;
    l ← toChar (first active - 1);
    d ← convert (val other);
    '(rs, leftIndex, rightIndex) ← insertBetween (ranges c) (lastSelf c) (self c) f l d;
    active ← rs !! rightIndex;
    guard (offset c < first active - lo other);;
    offset ← toChar (first active - lo other);
    Some (mkCursor rs leftIndex rightIndex (others c) offset)
  else Some c.

(** "Here, we know both ranges start at the same point": the cursor, and
    whether the end of the list is reached. *)
Definition mergeAligned (c : Cursor) (other : Span A) (rest : list (Span A)) : option (Cursor * bool) :=
  active ← ranges c !! self c;
  d ← extendData (data active) (val other);
  if last active =? hi other then
    Some (mkCursor (<[self c := setData d active]> (ranges c)) (self c) (nextRangeIndex active) rest 0, bool_decide (nextRangeIndex active = 0%nat))
  else if hi other <? last active then
    f ← toChar (hi other + 1);
    '(rs, leftIndex, rightIndex) ← insertBetween (<[self c := setFirst f active]> (ranges c)) (lastSelf c) (self c) (first active) (hi other) d;
    Some (mkCursor rs leftIndex rightIndex rest 0, false)
  else
    offset ← toChar (last active - lo other + 1);
    Some (mkCursor (<[self c := setData d active]> (ranges c)) (self c) (nextRangeIndex active) (others c) offset,
          bool_decide (nextRangeIndex active = 0%nat)).

(** The body of the loop. *)
Definition extendStep (c : Cursor) : option (Cursor * bool) :=
  match others c with
  | [] => None
  | other :: rest =>
      active ← ranges c !! self c;
      if last active <? lo other + offset c then
        Some (mkCursor (ranges c) (self c) (nextRangeIndex active) (others c) (offset c), bool_decide (nextRangeIndex active = 0%nat))
      else if hi other <? first active then
        f ← toChar (lo other + offset c);
        d ← convert (val other);
        '(rs, leftIndex, rightIndex) ← insertBetween (ranges c) (lastSelf c) (self c) f (hi other) d;
        Some (mkCursor rs leftIndex rightIndex rest 0, false)
      else
        c ← alignStarts c other;
        mergeAligned c other rest
  end.

(** [do ... while (!reachedSelfEnd && otherIterator != otherEnd)] *)
Fixpoint extendLoop (fuel : nat) (c : Cursor) : option Cursor :=
  match fuel with
  | O => None
  | S fuel =>
      '(c, reachedSelfEnd) ← extendStep c;
      match reachedSelfEnd, others c with
      | false, _ :: _ => extendLoop fuel c
      | _, _ => Some c
      end
  end.

(** [while (otherIterator != otherEnd)] *)
Fixpoint appendRest (rs : list (MutableRange D)) (lastSelfRangeIndex : nat) (offset : Z) (others : list (Span A)) : option (list (MutableRange D)) :=
  match others with
  | [] => Some rs
  | other :: others =>
      f ← toChar (lo other + offset);
      d ← convert (val other);
      '(rs, lastSelfRangeIndex) ← appendRange rs lastSelfRangeIndex f (hi other) d;
      appendRest rs lastSelfRangeIndex 0 others
  end.

(** The loop of [initializeFrom]; the last range keeps no next index. *)
Fixpoint initializeLoop (loopCounter : nat) (others : list (Span A)) : option (list (MutableRange D)) :=
  match others with
  | [] => Some []
  | other :: others =>
      d ← convert (val other);
      r ← newRange d (match others with [] => 0%nat | _ => S loopCounter end) (lo other) (hi other);
      rs ← initializeLoop (S loopCounter) others;
      Some (r :: rs)
  end.

Definition initializeFrom (others : list (Span A)) : option (list (MutableRange D)) := initializeLoop 0 others.

Definition extend (rs : list (MutableRange D)) (other : list (Span A)) : option (list (MutableRange D)) :=
  match other, rs with
  | [], _ => Some rs
  | _, [] => initializeFrom other
  | _, _ =>
      c ← extendLoop (length rs + length other) (mkCursor rs 0 0 other 0);
      appendRest (ranges c) (lastSelf c) (offset c) (others c)
  end.

(** [begin()] to [end()]: the ranges in the order of the iterator. *)
Fixpoint iterate (fuel : nat) (rs : list (MutableRange D)) (index : nat) : option (list (MutableRange D)) :=
  match fuel with
  | O => None
  | S fuel =>
      r ← rs !! index;
      if bool_decide (nextRangeIndex r = 0%nat) then Some [r]
      else
        rest ← iterate fuel rs (nextRangeIndex r);
        Some (r :: rest)
  end.

Definition toList (rs : list (MutableRange D)) : option (list (MutableRange D)) :=
  match rs with
  | [] => Some []
  | _ => iterate (length rs) rs 0
  end.

End RangeList.

End MutableRangeList.
