(* ===== verification/MutableRangeListCorrect.v ===== *)
(** * MutableRangeListCorrect: extending a range list merges it character by
    character

    The ranges of a list are a partial function from characters to data;
    [extend] merges another one into it, whatever the ranges and their
    overlaps. *)

From S2P Require Import Prelude MutableRangeList.

(** * A vector of linked ranges as a list with a cursor *)

Import MutableRangeList.

Section Chain.

#[local] Close Scope Z_scope.
#[local] Open Scope nat_scope.

Context {D : Type}.
Implicit Types (rs : list (MutableRange D)) (L P Q : list nat) (vs pre post : list (Span D)).

Definition view (r : MutableRange D) : Span D := mkSpan (first r) (last r) (data r).

(** The cells at the indices [L] hold [vs], each linked to the next and the
    last to [stop]. *)
Fixpoint chain rs L vs (stop : nat) : Prop :=
  match L, vs with
  | [], [] => True
  | i :: L, v :: vs => (exists r, rs !! i = Some r /\ view r = v /\ nextRangeIndex r = hd stop L) /\ chain rs L vs stop
  | _, _ => False
  end.

Lemma chain_length rs L vs stop : chain rs L vs stop -> length L = length vs.
Proof. revert vs. induction L as [|i L IH]; intros [|v vs]; cbn; try done. intros [_ H]. f_equal. by apply IH. Qed.

Lemma chain_bound rs L vs stop i : chain rs L vs stop -> i ∈ L -> i < length rs.
Proof.
  revert vs. induction L as [|j L IH]; intros [|v vs]; cbn; try done; [by intros _ []%not_elem_of_nil|].
  intros [(r & E & _) H] [->|Hi]%elem_of_cons; [by eapply lookup_lt_Some|by eapply IH].
Qed.

Lemma chain_app rs L1 vs1 L2 vs2 stop : chain rs L1 vs1 (hd stop L2) -> chain rs L2 vs2 stop -> chain rs (L1 ++ L2) (vs1 ++ vs2) stop.
Proof.
  revert vs1. induction L1 as [|i L1 IH]; intros [|v vs1]; cbn; try done. intros [(r & E & Ev & En) H] H2. split; [|by apply IH].
  exists r. split_and!; try done. rewrite En. by destruct L1.
Qed.

(** Linking the last cell of a segment elsewhere. *)
Lemma chain_snoc_inv rs L i vs stop : chain rs (L ++ [i]) vs stop ->
  exists vs' r, vs = vs' ++ [view r] /\ rs !! i = Some r /\ nextRangeIndex r = stop /\ chain rs L vs' i.
Proof.
  revert vs. induction L as [|j L IH]; intros [|v vs]; cbn; try done.
  - destruct vs; [|by intros [_ []]]. intros [(r & E & <- & En) _]. by exists [], r.
  - intros [(r & E & Ev & En) H]. destruct (IH vs H) as (vs' & r' & -> & E' & En' & H'). exists (v :: vs'), r'. split; [done|]. split; [done|]. split; [done|].
    split; [|done]. exists r. split_and!; try done. rewrite En. by destruct L.
Qed.

Lemma chain_frame rs rs' L vs stop : (forall i r, i ∈ L -> rs !! i = Some r -> rs' !! i = Some r) -> chain rs L vs stop -> chain rs' L vs stop.
Proof.
  revert vs. induction L as [|i L IH]; intros [|v vs] Hf; cbn; try done. intros [(r & E & H) Hc]. split.
  - exists r. split; [|done]. apply Hf; [left|done].
  - apply IH; [|done]. intros j r' Hj. apply Hf. by right.
Qed.

Lemma chain_insert_ne rs L vs stop i x : i ∉ L -> chain rs L vs stop -> chain (<[i := x]> rs) L vs stop.
Proof. intros Hi. apply chain_frame. intros j r Hj E. rewrite list_lookup_insert_ne; [done|]. by intros ->. Qed.

Lemma chain_append rs more L vs stop : chain rs L vs stop -> chain (rs ++ more) L vs stop.
Proof. apply chain_frame. intros j r Hj E. by apply lookup_app_l_Some. Qed.

(** The list [pre ++ post], with the cursor between [pre] and [post]. *)
Definition Rep rs (lastI selfI : nat) pre post : Prop :=
  exists P Q, chain rs P pre (hd 0 Q) /\ chain rs Q post 0 /\ NoDup (P ++ Q) /\ length (P ++ Q) = length rs /\ head (P ++ Q) = Some 0
    /\ selfI = hd 0 Q /\ (P = [] \/ exists P', P = P' ++ [lastI]).

Lemma Rep_length rs li si pre post : Rep rs li si pre post -> length rs = length pre + length post.
Proof. intros (P & Q & H1 & H2 & _ & Hl & _). rewrite <- Hl, length_app. f_equal; by eapply chain_length. Qed.

Lemma Rep_active rs li si pre v post : Rep rs li si pre (v :: post) -> exists r, rs !! si = Some r /\ view r = v.
Proof. intros (P & [|i Q] & _ & H & _ & _ & _ & -> & _); [done|]. destruct H as [(r & E & Ev & _) _]. by exists r. Qed.

Lemma Rep_set rs li si pre v post r r' :
  Rep rs li si pre (v :: post) -> rs !! si = Some r -> nextRangeIndex r' = nextRangeIndex r -> Rep (<[si := r']> rs) li si pre (view r' :: post).
Proof.
  intros (P & [|i Q] & H1 & H2 & Hnd & Hl & Hh & -> & Hli) E En; [done|]. cbn [hd] in *. destruct H2 as [(r0 & E0 & _ & En0) H2].
  assert (r0 = r) as -> by congruence. apply NoDup_app in Hnd as Hnd'. destruct Hnd' as (_ & HPQ & HQ). apply NoDup_cons in HQ as [Hi _].
  exists P, (i :: Q). cbn [hd]. split_and!; try done.
  - apply chain_insert_ne; [|done]. intros Hi'. apply (HPQ i Hi'). left.
  - cbn. split; [|by apply chain_insert_ne]. exists r'. split; [|split; [done|congruence]]. apply list_lookup_insert_eq. by eapply lookup_lt_Some.
  - by rewrite length_insert.
Qed.

Lemma Rep_advance rs li si pre v post r :
  Rep rs li si pre (v :: post) -> rs !! si = Some r -> Rep rs si (nextRangeIndex r) (pre ++ [v]) post /\ (nextRangeIndex r = 0 <-> post = []).
Proof.
  intros (P & [|i Q] & H1 & H2 & Hnd & Hl & Hh & -> & Hli) E; [done|]. cbn [hd] in *. destruct H2 as [(r0 & E0 & Ev & En) H2].
  assert (r0 = r) as -> by congruence. rewrite (cons_middle i P Q), app_assoc in *. split.
  - exists (P ++ [i]), Q. split_and!; try done; [|right; by exists P]. apply chain_app; [done|]. cbn. split; [|done]. by exists r.
  - rewrite En. destruct Q as [|j Q]; cbn [hd].
    + split; [|done]. intros _. by destruct post.
    + destruct post as [|u post]; [done|]. split; [|done]. intros ->. exfalso. apply NoDup_app in Hnd as (_ & Hnd & _). apply (Hnd 0); [|left].
      apply list_elem_of_lookup. exists 0. destruct P; cbn in Hh |- *; congruence.
Qed.

Lemma toIndex_id n : (Z.of_nat n < 2 ^ 32)%Z -> toIndex n = n.
Proof. intros H. unfold toIndex. rewrite u32_id by lia. apply Nat2Z.id. Qed.

Lemma newRange_ok (d : D) n f l : (f <= l)%Z -> newRange d n f l = Some (mkRange d n f l).
Proof. intros H. unfold newRange. by rewrite option_guard_True. Qed.

Lemma mkRange_view (r : MutableRange D) : mkRange (data r) (nextRangeIndex r) (first r) (last r) = r.
Proof. by destruct r. Qed.

Lemma fresh_index rs P pre stop : chain rs P pre stop -> length rs ∉ P.
Proof. intros H Hi. pose proof (chain_bound _ _ _ _ _ H Hi). lia. Qed.

Lemma insertBetween_rep rs li si pre v post f l d :
  Rep rs li si pre (v :: post) -> (Z.of_nat (length rs) < 2 ^ 32)%Z -> (f <= l < lo v)%Z -> (lo v <= hi v)%Z -> Forall (fun u => hi u < f)%Z pre ->
  exists rs' li' si', insertBetween rs li si f l d = Some (rs', li', si') /\ Rep rs' li' si' (pre ++ [mkSpan f l d]) (v :: post).
Proof.
  intros (P & [|i Q] & H1 & H2 & Hnd & Hl & Hh & -> & Hli) Hlen [Hfl Hlv] Hv Hpre; [done|]. cbn [hd] in *.
  pose proof (fresh_index _ _ _ _ H1) as HfP. pose proof (fresh_index _ _ _ _ H2) as HfQ. destruct H2 as [(r & E & Ev & En) H2]. subst v. cbn [lo hi view] in *.
  unfold insertBetween. rewrite E. cbn [mbind option_bind]. rewrite option_guard_True by done. rewrite (toIndex_id _ Hlen).
  pose proof Hnd as Hnd0. apply NoDup_app in Hnd as (HP & HPQ & HQ). apply NoDup_cons in HQ as [Hi HQ]. destruct P as [|p0 P0].
  - cbn in Hh. injection Hh as ->. rewrite bool_decide_eq_true_2 by done. rewrite newRange_ok by done. cbn [mbind option_bind].
    rewrite newRange_ok by done. cbn [mbind option_bind]. rewrite mkRange_view. eexists _, _, _. split; [reflexivity|].
    destruct pre; [|done]. cbn [app] in *. pose proof (lookup_lt_Some _ _ _ E) as Hlt. exists [0], (length rs :: Q). split_and!; try done.
    + cbn. split; [|done]. eexists. split; [apply list_lookup_insert_eq; rewrite length_app; lia|done].
    + cbn [chain]. split.
      * exists r. split; [|done]. rewrite list_lookup_insert_ne by lia. by rewrite lookup_app_r, Nat.sub_diag by lia.
      * by apply chain_insert_ne, chain_append.
    + cbn [app]. apply NoDup_cons. split; [|apply NoDup_cons; split; [|done]].
      * intros [E0|]%elem_of_cons; [lia|done].
      * intros ?. apply HfQ. by right.
    + cbn [app length] in *. rewrite length_insert, length_app. cbn. lia.
    + right. by exists [].
  - destruct Hli as [|[P' EP]]; [done|]. rewrite EP in *. clear EP p0 P0.
    rewrite bool_decide_eq_false_2.
    2:{ intros ->. apply (HPQ 0); [|left]. apply list_elem_of_lookup. exists 0. destruct P'; cbn in Hh |- *; congruence. }
    apply chain_snoc_inv in H1 as (pre' & rl & -> & El & Enl & H1). rewrite El. cbn [mbind option_bind]. rewrite option_guard_True by done.
    apply Forall_app in Hpre as [_ Hpre]. apply Forall_inv in Hpre. cbn in Hpre. rewrite option_guard_True by exact Hpre. rewrite newRange_ok by done.
    cbn [mbind option_bind]. eexists _, _, _. split; [reflexivity|].
    apply NoDup_app in HP as (HP & HPl & _). assert (li ∉ P') as HliP by (intros ?; apply (HPl li); [done|left]).
    assert (li ∉ i :: Q) as HliQ by (apply HPQ, elem_of_app; right; left). pose proof (lookup_lt_Some _ _ _ El) as Hlt.
    exists ((P' ++ [li]) ++ [length rs]), (i :: Q). split_and!; try done.
    + apply chain_app; [apply chain_app|].
      * by apply chain_insert_ne, chain_append.
      * cbn. split; [|done]. eexists. split; [apply list_lookup_insert_eq; rewrite length_app; lia|done].
      * cbn. split; [|done]. eexists. split; [rewrite list_lookup_insert_ne by lia; rewrite lookup_app_r, Nat.sub_diag by lia; reflexivity|done].
    + apply chain_insert_ne; [done|]. apply chain_append. cbn. split; [|done]. by exists r.
    + rewrite <- app_assoc. rewrite (Permutation_app_comm [length rs] (i :: Q)), app_assoc. apply NoDup_app. split_and!; [done| |apply NoDup_singleton].
      intros x Hx ->%list_elem_of_singleton. apply elem_of_app in Hx as [Hx|Hx]; [by apply HfP|by apply HfQ].
    + rewrite length_insert, !length_app in *. cbn in *. lia.
    + destruct P'; cbn in *; congruence.
    + right. by eexists.
Qed.

Lemma appendRange_rep rs li si pre f l d :
  Rep rs li si pre [] -> (Z.of_nat (length rs) < 2 ^ 32)%Z -> (f <= l)%Z -> Forall (fun u => hi u < f)%Z pre ->
  exists rs' li', appendRange rs li f l d = Some (rs', li') /\ Rep rs' li' 0 (pre ++ [mkSpan f l d]) [].
Proof.
  intros (P & [|i Q] & H1 & H2 & Hnd & Hl & Hh & -> & Hli) Hlen Hfl Hpre; [|done]. cbn [hd] in *. rewrite app_nil_r in *.
  pose proof (fresh_index _ _ _ _ H1) as HfP. destruct Hli as [->|[P' ->]]; [done|].
  unfold appendRange. rewrite (toIndex_id _ Hlen), newRange_ok by done. cbn [mbind option_bind].
  rewrite bool_decide_eq_false_2 by (rewrite length_app in Hl; cbn in Hl; lia). apply chain_snoc_inv in H1 as (pre' & rl & -> & El & Enl & H1). rewrite El.
  cbn [mbind option_bind]. rewrite option_guard_True by done. apply Forall_app in Hpre as [_ Hpre]. apply Forall_inv in Hpre. cbn in Hpre.
  rewrite option_guard_True by done. eexists _, _. split; [reflexivity|]. pose proof Hnd as HP. apply NoDup_app in HP as (_ & HPl & _).
  assert (li ∉ P') as HliP by (intros ?; apply (HPl li); [done|left]). pose proof (lookup_lt_Some _ _ _ El) as Hlt.
  exists ((P' ++ [li]) ++ [length rs]), []. rewrite app_nil_r. cbn [hd]. split_and!; try done.
  - apply chain_app; [apply chain_app|].
    + by apply chain_insert_ne, chain_append.
    + cbn. split; [|done]. eexists. split; [apply list_lookup_insert_eq; rewrite length_app; lia|done].
    + cbn. split; [|done]. eexists. split; [rewrite list_lookup_insert_ne by lia; rewrite lookup_app_r, Nat.sub_diag by lia; reflexivity|done].
  - apply NoDup_app. split_and!; [done| |apply NoDup_singleton]. intros x Hx ->%list_elem_of_singleton. by apply HfP.
  - rewrite length_insert, !length_app in *. cbn in *. lia.
  - destruct P'; cbn in *; congruence.
  - right. by eexists.
Qed.

Lemma iterate_chain rs L vs : chain rs L vs 0 -> 0 ∉ tail L -> forall i, head L = Some i -> forall fuel, length L <= fuel ->
  exists l, iterate fuel rs i = Some l /\ view <$> l = vs.
Proof.
  revert vs. induction L as [|j L IH]; intros [|v vs] Hc Hz i Hi [|fuel] Hf; cbn in Hf; try done; try lia. cbn in Hi. injection Hi as ->.
  destruct Hc as [(r & E & Ev & En) Hc]. cbn [iterate]. rewrite E. cbn [mbind option_bind tail] in *. destruct L as [|k L]; cbn [hd] in En.
  - rewrite bool_decide_eq_true_2 by done. exists [r]. split; [done|]. destruct vs; [|done]. cbn. by rewrite Ev.
  - rewrite bool_decide_eq_false_2 by (rewrite En; intros ->; apply Hz; left). rewrite En.
    destruct (IH vs Hc ltac:(intros H; apply Hz; by right) k eq_refl fuel) as (l & -> & <-); [cbn in *; lia|]. exists (r :: l). cbn. by rewrite Ev.
Qed.

Lemma toList_rep rs li si pre post : Rep rs li si pre post -> exists l, toList rs = Some l /\ view <$> l = pre ++ post.
Proof.
  intros (P & Q & H1 & H2 & Hnd & Hl & Hh & _ & _). pose proof (chain_app _ _ _ _ _ _ H1 H2) as Hc. unfold toList.
  destruct rs as [|r0 rs0] eqn:Ers; [destruct (P ++ Q); done|]. rewrite <- Ers in *. apply (iterate_chain rs (P ++ Q)); [done| |done|lia].
  destruct (P ++ Q); [done|]. cbn in Hh |- *. injection Hh as ->. by apply NoDup_cons in Hnd as [? _].
Qed.

(** The vector holds the list. *)
Definition Represents rs vs : Prop := (rs = [] /\ vs = []) \/ (vs <> [] /\ Rep rs 0 0 [] vs).

Lemma Represents_nil : Represents [] [].
Proof. by left. Qed.

Lemma Rep_Represents rs li si pre post : Rep rs li si pre post -> Represents rs (pre ++ post).
Proof.
  intros (P & Q & H1 & H2 & Hnd & Hl & Hh & _ & _). right. pose proof (chain_app _ _ _ _ _ _ H1 H2) as Hc. split.
  - apply chain_length in Hc. destruct (P ++ Q); [done|]. by destruct (pre ++ post).
  - exists [], (P ++ Q). split_and!; try done; [|by left]. by destruct (P ++ Q) as [|? ?]; cbn in Hh |- *; congruence.
Qed.

Lemma toList_represents rs vs : Represents rs vs -> exists l, toList rs = Some l /\ view <$> l = vs.
Proof. intros [[-> ->]|[_ H]]; [by exists []|]. by apply toList_rep in H. Qed.

End Chain.


(** * Extending a range list merges it character by character *)

Import MutableRangeList.

(** ** Ordered spans as partial functions *)

Section Spans.

Context {B : Type}.
Implicit Types (l : list (Span B)) (s : Span B).

Definition inSpan (x : Z) s : bool := (lo s <=? x) && (x <=? hi s).

Fixpoint find (x : Z) l : option B :=
  match l with [] => None | s :: l => if inSpan x s then Some (val s) else find x l end.

(** The spans come after [x], each after the one before, and end at 127. *)
Fixpoint ordered (x : Z) l : Prop :=
  match l with [] => True | s :: l => x < lo s /\ lo s <= hi s <= 127 /\ ordered (hi s) l end.

Fixpoint endOf (x : Z) l : Z := match l with [] => x | s :: l => endOf (hi s) l end.

Lemma find_app x l1 l2 : find x (l1 ++ l2) = match find x l1 with Some b => Some b | None => find x l2 end.
Proof. induction l1 as [|s l1 IH]; cbn [app find]; [done|]. by destruct (inSpan x s). Qed.

Lemma ordered_weaken y x l : y <= x -> ordered x l -> ordered y l.
Proof. destruct l; cbn; [done|]. intros ? (? & ? & ?). split_and!; try done; lia. Qed.

Lemma ordered_app x l1 l2 : ordered x (l1 ++ l2) <-> ordered x l1 /\ ordered (endOf x l1) l2.
Proof. revert x. induction l1 as [|s l1 IH]; intros x; cbn; [tauto|]. rewrite IH. tauto. Qed.

Lemma endOf_app x l1 l2 : endOf x (l1 ++ l2) = endOf (endOf x l1) l2.
Proof. revert x. induction l1 as [|s l1 IH]; intros x; cbn; [done|apply IH]. Qed.

Lemma endOf_ge x l : ordered x l -> x <= endOf x l.
Proof. revert x. induction l as [|s l IH]; intros x; cbn; [lia|]. intros (H1 & H2 & H3). specialize (IH _ H3). lia. Qed.

Lemma ordered_ends x l : ordered x l -> Forall (fun s => hi s <= endOf x l) l.
Proof.
  revert x. induction l as [|s l IH]; intros x; cbn; [constructor|]. intros (H1 & H2 & H3). constructor; [by apply endOf_ge|by apply IH].
Qed.

Lemma find_before x y l : ordered y l -> x <= y -> find x l = None.
Proof.
  revert y. induction l as [|s l IH]; intros y; cbn; [done|]. intros (H1 & H2 & H3) Hx. unfold inSpan. rewrite (proj2 (Z.leb_gt (lo s) x)) by lia.
  apply (IH (hi s)); [done|lia].
Qed.

Lemma find_after x y l : ordered y l -> endOf y l < x -> find x l = None.
Proof.
  revert y. induction l as [|s l IH]; intros y; cbn; [done|]. intros (H1 & H2 & H3) Hx. pose proof (endOf_ge _ _ H3). unfold inSpan.
  rewrite (proj2 (Z.leb_gt x (hi s))), andb_false_r by lia. by apply (IH (hi s)).
Qed.

Lemma ordered_length x l : ordered x l -> x <= 127 -> Z.of_nat (length l) <= 127 - x.
Proof.
  revert x. induction l as [|s l IH]; intros x; cbn; [lia|]. intros (H1 & H2 & H3) _. specialize (IH _ H3 ltac:(lia)). lia.
Qed.

Lemma ordered_bounds x l : ordered x l -> Forall (fun s => x < lo s /\ lo s <= hi s <= 127) l.
Proof.
  revert x. induction l as [|s l IH]; intros x; cbn; [constructor|]. intros (H1 & H2 & H3). constructor; [done|].
  eapply Forall_impl; [by apply IH|]. cbn. lia.
Qed.

Lemma find_span x l b : find x l = Some b -> exists s, s ∈ l /\ lo s <= x <= hi s /\ val s = b.
Proof.
  induction l as [|s l IH]; cbn; [done|]. unfold inSpan. destruct (Z.leb_spec (lo s) x), (Z.leb_spec x (hi s)); cbn [andb].
  1: intros [= <-]; exists s; split; [left|done].
  all: intros H'; destruct (IH H') as (s' & ? & ?); exists s'; split; [by right|done].
Qed.

Lemma find_elem x y l s : ordered y l -> s ∈ l -> lo s <= x <= hi s -> find x l = Some (val s).
Proof.
  revert y. induction l as [|s' l IH]; intros y; cbn; [by intros _ []%not_elem_of_nil|]. intros (H1 & H2 & H3) Hs Hx. unfold inSpan.
  apply elem_of_cons in Hs as [->|Hs].
  - by rewrite (proj2 (Z.leb_le (lo s') x)), (proj2 (Z.leb_le x (hi s'))) by lia.
  - pose proof (ordered_bounds _ _ H3) as Hb. rewrite Forall_forall in Hb. specialize (Hb s Hs). cbn in Hb.
    rewrite (proj2 (Z.leb_gt x (hi s'))), andb_false_r by lia. by apply (IH (hi s')).
Qed.

End Spans.

Lemma toChar_ok z : 0 <= z <= 127 -> toChar z = Some z.
Proof. intros H. unfold toChar. by rewrite option_guard_True. Qed.

(** ** The loop of [extend] *)

Section Extend.

Context {D A : Type} (convert : A -> option D) (extendData : D -> A -> option D).
Context (conv : A -> D) (ext : D -> A -> D) (okA : A -> Prop).
Hypothesis convert_ok : forall a, okA a -> convert a = Some (conv a).
Hypothesis extend_ok : forall d a, okA a -> extendData d a = Some (ext d a).

Definition merge (d : option D) (a : option A) : option D :=
  match d, a with
  | Some d, Some a => Some (ext d a)
  | Some d, None => Some d
  | None, Some a => Some (conv a)
  | None, None => None
  end.

(** What is left of the other ranges: the offset moves the first start. *)
Definition eff (off : Z) (l : list (Span A)) : list (Span A) :=
  match l with [] => [] | o :: l => mkSpan (lo o + off) (hi o) (val o) :: l end.

Definition merged (pre post : list (Span D)) (off : Z) (l : list (Span A)) (x : Z) : option D := merge (find x (pre ++ post)) (find x (eff off l)).

Record Inv (c : Cursor) (pre post : list (Span D)) : Prop := {
  inv_rep : Rep (ranges c) (lastSelf c) (self c) pre post;
  inv_self : ordered (-1) (pre ++ post);
  inv_others : ordered (endOf (-1) pre) (eff (offset c) (others c));
  inv_lo : Forall (fun o => 0 <= lo o) (others c);
  inv_offset : 0 <= offset c;
  inv_ok : Forall (fun o => okA (val o)) (others c) }.

Lemma Inv_size c pre post : Inv c pre post -> Z.of_nat (length (ranges c)) < 2 ^ 32.
Proof. intros HI. pose proof (ordered_length _ _ (inv_self _ _ _ HI) ltac:(lia)) as H. rewrite (Rep_length _ _ _ _ _ (inv_rep _ _ _ HI)), length_app in *. lia. Qed.

(** The pieces the next branch looks at. *)
Lemma Inv_parts c pre v post o rest : Inv c pre (v :: post) -> others c = o :: rest ->
  ordered (-1) pre /\ endOf (-1) pre < lo v /\ lo v <= hi v <= 127 /\ ordered (hi v) post
  /\ endOf (-1) pre < lo o + offset c /\ lo o + offset c <= hi o <= 127 /\ ordered (hi o) rest /\ 0 <= lo o /\ okA (val o)
  /\ -1 <= endOf (-1) pre /\ Forall (fun u => hi u <= endOf (-1) pre) pre.
Proof.
  intros [_ H1 H2 H3 H4 H5] E. rewrite E in *. apply ordered_app in H1 as [H1 (H6 & H7 & H8)]. destruct H2 as (H9 & H10 & H11). cbn [lo hi] in *.
  apply Forall_cons in H3 as [? _], H5 as [? _]. pose proof (endOf_ge _ _ H1). pose proof (ordered_ends _ _ H1). split_and!; done || lia.
Qed.

Ltac pointwise pre Hpre Hpost Hrest :=
  intros x; unfold merged; rewrite <- ?app_assoc; rewrite ?find_app; cbn [find app eff]; unfold inSpan; cbn [lo hi val view];
  pose proof (fun H => find_after x (-1) pre Hpre H) as Fpre; pose proof (find_before x _ _ Hpost) as Fpost; pose proof (find_before x _ _ Hrest) as Frest;
  destruct (Z.le_gt_cases x (endOf (-1) pre)); [|rewrite Fpre by lia];
  repeat match goal with |- context [?a <=? ?b] => destruct (Z.leb_spec a b); try lia end; cbn [andb];
  rewrite ?Fpost, ?Frest by lia; try done; try (destruct (find x pre); done).

Lemma alignStarts_spec c pre v post o rest :
  Inv c pre (v :: post) -> others c = o :: rest -> lo o + offset c <= hi v -> lo v <= hi o ->
  exists c' pre' v', alignStarts convert c o = Some c' /\ Inv c' pre' (v' :: post) /\ others c' = others c /\ lo v' = lo o + offset c' /\ hi v' = hi v
    /\ forall x, merged pre' (v' :: post) (offset c') (others c') x = merged pre (v :: post) (offset c) (others c) x.
Proof using convert_ok.
  intros HI E Hov Hvo. destruct (Inv_parts _ _ _ _ _ _ HI E) as (Hpre & Hv1 & Hv2 & Hpost & Ho1 & Ho2 & Hrest & Hlo & Hok & Hge & Hends).
  pose proof (Inv_size _ _ _ HI) as Hsize. destruct HI as [HR HS HO HL Hoff HA]. destruct (Rep_active _ _ _ _ _ _ HR) as (r & Er & <-). cbn [view lo hi val] in *.
  unfold alignStarts. rewrite Er. cbn [mbind option_bind]. destruct (Z.ltb_spec (first r) (lo o + offset c)) as [H1|H1].
  - rewrite !toChar_ok by lia. cbn [mbind option_bind].
    pose proof (Rep_set _ _ _ _ _ _ r (setFirst (lo o + offset c) r) HR Er eq_refl) as HR'. cbn [view setFirst first last data] in HR'.
    destruct (insertBetween_rep _ _ _ _ _ _ (first r) (lo o + offset c - 1) (data r) HR') as (rs' & li' & si' & Ei & HR2);
      [by rewrite length_insert|cbn; lia|cbn; lia|eapply Forall_impl; [exact Hends|cbn; lia]|].
    unfold view, setFirst in *. cbn [first last data nextRangeIndex] in *. rewrite Ei. cbn [mbind option_bind].
    eexists _, (pre ++ [mkSpan (first r) (lo o + offset c - 1) (data r)]), (mkSpan (lo o + offset c) (last r) (data r)). split; [reflexivity|].
    cbn [ranges lastSelf self others offset lo hi]. split_and!; try done.
    + constructor; cbn [ranges lastSelf self others offset]; try done.
      * rewrite <- app_assoc. apply ordered_app. split; [done|]. cbn. split_and!; try done; lia.
      * rewrite endOf_app. cbn [endOf hi]. rewrite E. cbn. split_and!; try done; lia.
    + rewrite E. pointwise pre Hpre Hpost Hrest.
  - destruct (Z.ltb_spec (lo o + offset c) (first r)) as [H2|H2].
    + rewrite !toChar_ok by lia. cbn [mbind option_bind]. rewrite convert_ok by done. cbn [mbind option_bind].
      destruct (insertBetween_rep _ _ _ _ _ _ (lo o + offset c) (first r - 1) (conv (val o)) HR) as (rs' & li' & si' & -> & HR2);
        [done|cbn; lia|cbn; lia|eapply Forall_impl; [exact Hends|cbn; lia]|].
      cbn [mbind option_bind]. destruct (Rep_active _ _ _ _ _ _ HR2) as (r2 & Er2 & Ev2). rewrite Er2. cbn [mbind option_bind]. unfold view in Ev2. injection Ev2 as Ef2 El2 Ed2.
      rewrite option_guard_True by lia. rewrite toChar_ok by lia. cbn [mbind option_bind].
      eexists _, (pre ++ [mkSpan (lo o + offset c) (first r - 1) (conv (val o))]), (view r). split; [reflexivity|].
      cbn [ranges lastSelf self others offset]. split_and!; [|done|cbn; lia|done|].
      * constructor; cbn [ranges lastSelf self others offset]; try done; [| |lia].
        -- rewrite <- app_assoc. apply ordered_app. split; [done|]. cbn. split_and!; try done; lia.
        -- rewrite endOf_app. cbn [endOf hi]. rewrite E. cbn. split_and!; try done; lia.
      * rewrite E, Ef2. replace (lo o + (first r - lo o)) with (first r) by lia. unfold view.
        intros x; unfold merged. cbn [eff]. replace (lo o + (first r - lo o)) with (first r) by lia. revert x.
        assert (forall x, merge (find x ((pre ++ [mkSpan (lo o + offset c) (first r - 1) (conv (val o))]) ++ mkSpan (first r) (last r) (data r) :: post))
                  (find x (mkSpan (first r) (hi o) (val o) :: rest))
                = merged pre (mkSpan (first r) (last r) (data r) :: post) (offset c) (o :: rest) x) as HM by (pointwise pre Hpre Hpost Hrest). exact HM.
    + exists c, pre, (view r). split; [done|]. split; [by constructor|]. split_and!; try done. cbn. lia.
Qed.

Lemma mergeAligned_spec c pre v post o rest :
  Inv c pre (v :: post) -> others c = o :: rest -> lo v = lo o + offset c ->
  exists c' reached pre' post', mergeAligned extendData c o rest = Some (c', reached) /\ Inv c' pre' post' /\ (reached = true <-> post' = [])
    /\ (length post' + length (others c') < length (v :: post) + length (others c))%nat
    /\ forall x, merged pre' post' (offset c') (others c') x = merged pre (v :: post) (offset c) (others c) x.
Proof using extend_ok.
  intros HI E Heq. destruct (Inv_parts _ _ _ _ _ _ HI E) as (Hpre & Hv1 & Hv2 & Hpost & Ho1 & Ho2 & Hrest & Hlo & Hok & Hge & Hends).
  pose proof (Inv_size _ _ _ HI) as Hsize. destruct HI as [HR HS HO HL Hoff HA]. destruct (Rep_active _ _ _ _ _ _ HR) as (r & Er & <-). cbn [view lo hi val] in *.
  rewrite E in HL, HA. apply Forall_cons in HL as HL', HA as HA'. destruct HL' as [_ HL'], HA' as [_ HA'].
  unfold mergeAligned. rewrite Er. cbn [mbind option_bind]. rewrite extend_ok by done. cbn [mbind option_bind].
  pose proof (Rep_set _ _ _ _ _ _ r (setData (ext (data r) (val o)) r) HR Er eq_refl) as HR1. cbn [view setData first last data] in HR1.
  assert (<[self c := setData (ext (data r) (val o)) r]> (ranges c) !! self c = Some (setData (ext (data r) (val o)) r)) as Er1.
  { apply list_lookup_insert_eq. by eapply lookup_lt_Some. }
  destruct (Rep_advance _ _ _ _ _ _ _ HR1 Er1) as [HR2 Hnext]. cbn [setData nextRangeIndex] in HR2, Hnext.
  destruct (Z.eqb_spec (last r) (hi o)) as [H1|H1]; [|destruct (Z.ltb_spec (hi o) (last r)) as [H2|H2]].
  - eexists _, _, _, post. split; [reflexivity|]. split; [|split; [|split]].
    + constructor; cbn [ranges lastSelf self others offset]; [exact HR2| | |done|done|done].
      * rewrite <- app_assoc. apply ordered_app. split; [done|]. cbn. split_and!; done || lia.
      * rewrite endOf_app. cbn. rewrite H1. destruct rest as [|o' rest]; [done|]. cbn in Hrest |- *. by rewrite Z.add_0_r.
    + rewrite bool_decide_eq_true. exact Hnext.
    + cbn. rewrite E. cbn. lia.
    + cbn [others offset]. rewrite E. unfold view, setData. cbn [first last data]. intros x. unfold merged.
      assert (eff 0 rest = rest) as -> by (destruct rest as [|[? ? ?] ?]; [done|]; cbn; by rewrite Z.add_0_r).
      rewrite H1 in *. revert x. pointwise pre Hpre Hpost Hrest.
  - rewrite toChar_ok by lia. cbn [mbind option_bind].
    pose proof (Rep_set _ _ _ _ _ _ r (setFirst (hi o + 1) r) HR Er eq_refl) as HR'. cbn [view setFirst first last data] in HR'.
    destruct (insertBetween_rep _ _ _ _ _ _ (first r) (hi o) (ext (data r) (val o)) HR') as (rs' & li' & si' & Ei & HR3);
      [by rewrite length_insert|cbn; lia|cbn; lia|eapply Forall_impl; [exact Hends|cbn; lia]|].
    unfold view, setFirst in *. cbn [first last data nextRangeIndex] in *. rewrite Ei. cbn [mbind option_bind].
    eexists _, _, (pre ++ [mkSpan (first r) (hi o) (ext (data r) (val o))]), (mkSpan (hi o + 1) (last r) (data r) :: post). split; [reflexivity|].
    split; [|split; [|split; [cbn; rewrite E; cbn; lia|]]].
    + constructor; cbn [ranges lastSelf self others offset]; [exact HR3| | |done|done|done].
      * rewrite <- app_assoc. apply ordered_app. split; [done|]. cbn. split_and!; done || lia.
      * rewrite endOf_app. cbn. destruct rest as [|o' rest]; [done|]. cbn in Hrest |- *. by rewrite Z.add_0_r.
    + done.
    + cbn [others offset]. rewrite E. intros x. unfold merged.
      assert (eff 0 rest = rest) as -> by (destruct rest as [|[? ? ?] ?]; [done|]; cbn; by rewrite Z.add_0_r).
      revert x. pointwise pre Hpre Hpost Hrest.
  - rewrite toChar_ok by lia. cbn [mbind option_bind]. eexists _, _, _, post. split; [reflexivity|]. split; [|split; [|split]].
    + constructor; cbn [ranges lastSelf self others offset]; [exact HR2| | |by rewrite E|lia|by rewrite E].
      * rewrite <- app_assoc. apply ordered_app. split; [done|]. cbn. split_and!; done || lia.
      * rewrite endOf_app, E. cbn. split_and!; done || lia.
    + rewrite bool_decide_eq_true. exact Hnext.
    + cbn. lia.
    + cbn [others offset]. rewrite E. unfold view, setData. cbn [first last data]. intros x. unfold merged. cbn [eff].
      replace (lo o + (last r - lo o + 1)) with (last r + 1) by lia. revert x. pointwise pre Hpre Hpost Hrest.
Qed.

Lemma extendStep_spec c pre v post : Inv c pre (v :: post) -> others c <> [] ->
  exists c' reached pre' post', extendStep convert extendData c = Some (c', reached) /\ Inv c' pre' post' /\ (reached = true <-> post' = [])
    /\ (length post' + length (others c') < length (v :: post) + length (others c))%nat
    /\ forall x, merged pre' post' (offset c') (others c') x = merged pre (v :: post) (offset c) (others c) x.
Proof using convert_ok extend_ok.
  intros HI Hne. unfold extendStep. destruct (others c) as [|o rest] eqn:E; [done|]. rewrite <- E.
  destruct (Inv_parts _ _ _ _ _ _ HI E) as (Hpre & Hv1 & Hv2 & Hpost & Ho1 & Ho2 & Hrest & Hlo & Hok & Hge & Hends).
  pose proof (Inv_size _ _ _ HI) as Hsize. destruct (Rep_active _ _ _ _ _ _ (inv_rep _ _ _ HI)) as (r & Er & Ev). rewrite Er. cbn [mbind option_bind].
  subst v. cbn [view lo hi] in *. destruct (Z.ltb_spec (last r) (lo o + offset c)) as [H1|H1]; [|destruct (Z.ltb_spec (hi o) (first r)) as [H2|H2]].
  - destruct HI as [HR HS HO HL Hoff HA]. destruct (Rep_advance _ _ _ _ _ _ _ HR Er) as [HR2 Hnext].
    eexists _, _, (pre ++ [view r]), post. split; [reflexivity|]. split; [|split; [by rewrite bool_decide_eq_true|split; [cbn; lia|]]].
    + constructor; cbn [ranges lastSelf self others offset]; try done; [by rewrite <- app_assoc|]. rewrite endOf_app, E. cbn. split_and!; done || lia.
    + cbn [others offset]. intros x. unfold merged. by rewrite <- app_assoc.
  - destruct HI as [HR HS HO HL Hoff HA]. rewrite toChar_ok by lia. cbn [mbind option_bind]. rewrite convert_ok by done. cbn [mbind option_bind].
    destruct (insertBetween_rep _ _ _ _ _ _ (lo o + offset c) (hi o) (conv (val o)) HR) as (rs' & li' & si' & -> & HR2);
      [done|cbn; lia|cbn; lia|eapply Forall_impl; [exact Hends|cbn; lia]|]. rewrite E in HL, HA. apply Forall_cons in HL as [_ HL], HA as [_ HA].
    cbn [mbind option_bind]. eexists _, _, (pre ++ [mkSpan (lo o + offset c) (hi o) (conv (val o))]), (view r :: post). split; [reflexivity|].
    split; [|split; [done|split; [cbn; rewrite E; cbn; lia|]]].
    + constructor; cbn [ranges lastSelf self others offset]; try done.
      * rewrite <- app_assoc. apply ordered_app. split; [done|]. cbn. split_and!; done || lia.
      * rewrite endOf_app. cbn. destruct rest as [|o' rest]; [done|]. cbn in Hrest |- *. by rewrite Z.add_0_r.
    + cbn [others offset]. rewrite E. intros x. unfold merged.
      assert (eff 0 rest = rest) as -> by (destruct rest as [|[? ? ?] ?]; [done|]; cbn; by rewrite Z.add_0_r).
      revert x. pointwise pre Hpre Hpost Hrest.
  - destruct (alignStarts_spec c pre _ post o rest HI E H1 H2) as (c1 & pre1 & v1 & -> & HI1 & E1 & Hl1 & Hh1 & HM1). cbn [mbind option_bind]. rewrite E in E1.
    destruct (mergeAligned_spec c1 pre1 v1 post o rest HI1 E1 Hl1) as (c2 & reached & pre2 & post2 & -> & HI2 & Hr & Hm & HM2).
    exists c2, reached, pre2, post2. split; [done|]. split; [done|]. split; [done|]. split; [rewrite E1 in Hm; rewrite E; cbn in *; lia|].
    intros x. by rewrite HM2, HM1.
Qed.

Lemma extendLoop_spec fuel : forall c pre v post, Inv c pre (v :: post) -> others c <> [] -> (length (v :: post) + length (others c) <= fuel)%nat ->
  exists c' pre' post', extendLoop convert extendData fuel c = Some c' /\ Inv c' pre' post' /\ (post' = [] \/ others c' = [])
    /\ forall x, merged pre' post' (offset c') (others c') x = merged pre (v :: post) (offset c) (others c) x.
Proof using convert_ok extend_ok.
  induction fuel as [|fuel IH]; intros c pre v post HI Hne Hf; [cbn in Hf; lia|]. cbn [extendLoop].
  destruct (extendStep_spec c pre v post HI Hne) as (c1 & reached & pre1 & post1 & -> & HI1 & Hr & Hm & HM). cbn [mbind option_bind].
  destruct reached; [exists c1, pre1, post1; split_and!; try done; left; by apply Hr|].
  destruct (others c1) as [|o1 rest1] eqn:E1; [exists c1, pre1, post1; split_and!; try done; [by right|]; intros x; rewrite <- HM, E1; done|].
  destruct post1 as [|v1 post1]; [by destruct Hr as [_ Hr]; specialize (Hr eq_refl)|].
  destruct (IH c1 pre1 v1 post1 HI1) as (c2 & pre2 & post2 & -> & HI2 & Hd & HM2); [by rewrite E1|rewrite E1; lia|].
  exists c2, pre2, post2. split_and!; try done. intros x. by rewrite HM2, E1, HM.
Qed.

(** What is left of the other ranges is appended. *)
Lemma appendRest_spec l : forall rs li si off pre, Rep rs li si pre [] -> ordered (-1) pre -> ordered (endOf (-1) pre) (eff off l) ->
  Forall (fun o => okA (val o)) l ->
  exists rs' vs, appendRest convert rs li off l = Some rs' /\ Represents rs' vs /\ ordered (-1) vs
    /\ forall x, find x vs = merge (find x pre) (find x (eff off l)).
Proof using convert_ok.
  induction l as [|o l IH]; intros rs li si off pre HR Hpre Hl HA; cbn [appendRest].
  - exists rs, pre. split; [done|]. split; [apply Rep_Represents in HR; by rewrite app_nil_r in HR|]. split; [done|]. intros x. cbn. by destruct (find x pre).
  - destruct Hl as (H1 & H2 & H3). cbn [lo hi] in *. apply Forall_cons in HA as [Ho HA]. pose proof (endOf_ge _ _ Hpre).
    pose proof (ordered_length _ _ Hpre ltac:(lia)) as Hlen. pose proof (Rep_length _ _ _ _ _ HR) as Hrl. cbn in Hrl.
    rewrite toChar_ok by lia. cbn [mbind option_bind]. rewrite convert_ok by done. cbn [mbind option_bind].
    destruct (appendRange_rep rs li si pre (lo o + off) (hi o) (conv (val o)) HR) as (rs1 & li1 & -> & HR1);
      [lia|lia|eapply Forall_impl; [by apply ordered_ends|cbn; lia]|]. cbn [mbind option_bind].
    assert (eff 0 l = l) as El by (destruct l as [|[? ? ?] ?]; [done|]; cbn; by rewrite Z.add_0_r).
    destruct (IH rs1 li1 0%nat 0 _ HR1) as (rs2 & vs & -> & Hv & Ho2 & HM).
    + apply ordered_app. split; [done|]. cbn. split_and!; done || lia.
    + rewrite endOf_app, El. done.
    + done.
    + exists rs2, vs. split_and!; try done. intros x. rewrite HM, El, find_app. cbn [find eff]. unfold inSpan. cbn [lo hi val].
      pose proof (find_before x _ _ H3) as Fl. pose proof (find_after x _ _ Hpre) as Fpre.
      destruct (Z.leb_spec (lo o + off) x), (Z.leb_spec x (hi o)); cbn [andb]; try (by destruct (find x pre)).
      by rewrite Fl, Fpre by lia.
Qed.

Lemma initializeLoop_spec l : forall n x, ordered x l -> Forall (fun o => okA (val o)) l -> l <> [] ->
  exists rs, initializeLoop convert n l = Some rs /\ length rs = length l
    /\ forall cells, length cells = n -> chain (cells ++ rs) (seq n (length l)) ((fun o => mkSpan (lo o) (hi o) (conv (val o))) <$> l) 0.
Proof using convert_ok.
  induction l as [|o l IH]; intros n x Ho HA Hne; [done|]. cbn [initializeLoop]. destruct Ho as (H1 & H2 & H3). apply Forall_cons in HA as [Ha HA].
  rewrite convert_ok by done. cbn [mbind option_bind]. rewrite newRange_ok by lia. cbn [mbind option_bind].
  destruct l as [|o' l].
  - cbn [initializeLoop mbind option_bind]. eexists. split; [reflexivity|]. split; [done|]. intros cells Hc. cbn. split; [|done].
    eexists. split; [by apply list_lookup_middle|done].
  - destruct (IH (S n) (hi o) H3 HA ltac:(done)) as (rs & -> & Hl & Hch). cbn [mbind option_bind]. eexists. split; [reflexivity|]. split; [cbn in *; lia|].
    intros cells Hc. specialize (Hch (cells ++ [mkRange (conv (val o)) (S n) (lo o) (hi o)])). rewrite <- app_assoc in Hch. cbn [app] in Hch.
    split; [|apply Hch; rewrite length_app; cbn; lia]. eexists. split; [by apply list_lookup_middle|done].
Qed.

Lemma find_fmap (f : A -> D) x (l : list (Span A)) : find x ((fun o => mkSpan (lo o) (hi o) (f (val o))) <$> l) = f <$> find x l.
Proof. induction l as [|o l IH]; cbn; [done|]. unfold inSpan. cbn. by destruct (_ && _). Qed.

Lemma ordered_fmap (f : A -> D) x (l : list (Span A)) : ordered x l -> ordered x ((fun o => mkSpan (lo o) (hi o) (f (val o))) <$> l).
Proof. revert x. induction l as [|o l IH]; intros x; cbn; [done|]. intros (? & ? & ?). split_and!; try done; try lia. by apply IH. Qed.

(** Extending an ordered range list by ordered ranges succeeds and gives an
    ordered list that has at each character the data of both. *)
Lemma extend_spec rs vs l : Represents rs vs -> ordered (-1) vs -> ordered (-1) l -> Forall (fun o => okA (val o)) l ->
  exists rs' vs', extend convert extendData rs l = Some rs' /\ Represents rs' vs' /\ ordered (-1) vs'
    /\ forall x, find x vs' = merge (find x vs) (find x l).
Proof using convert_ok extend_ok.
  intros HR Hvs Hl HA. unfold extend. destruct l as [|o l]; [exists rs, vs; split_and!; try done; intros x; cbn; by destruct (find x vs)|].
  destruct HR as [[-> ->]|[Hne HR]].
  - destruct (initializeLoop_spec (o :: l) 0 (-1) Hl HA ltac:(done)) as (rs' & E & Hlen & Hch). specialize (Hch [] eq_refl). cbn [app] in Hch. unfold initializeFrom.
    exists rs', ((fun o => mkSpan (lo o) (hi o) (conv (val o))) <$> (o :: l)). split; [done|]. split; [|split].
    + right. split; [done|]. exists [], (seq 0 (length (o :: l))). split_and!; try done; [apply NoDup_seq|by rewrite length_app, length_seq|by left].
    + by apply ordered_fmap.
    + intros x. rewrite find_fmap. by destruct (find x (o :: l)).
  - destruct rs as [|r0 rs0] eqn:Ers; [exfalso; apply Rep_length in HR; by destruct vs|]. rewrite <- Ers in *. destruct vs as [|v vs]; [done|].
    assert (eff 0 (o :: l) = o :: l) as El by (cbn; destruct o; cbn; by rewrite Z.add_0_r).
    destruct (extendLoop_spec (length rs + length (o :: l)) (mkCursor rs 0 0 (o :: l) 0) [] v vs) as (c & pre & post & -> & HI & Hd & HM).
    + constructor; cbn [ranges lastSelf self others offset]; try done; [by rewrite El|].
      eapply Forall_impl; [exact (ordered_bounds _ _ Hl)|]. cbn. lia.
    + done.
    + cbn [others]. rewrite (Rep_length _ _ _ _ _ HR). done.
    + cbn [mbind option_bind others offset] in *. destruct HI as [HR' HS HO _ _ HA']. destruct Hd as [->|Hno].
      * rewrite app_nil_r in HS. destruct (appendRest_spec (others c) _ _ _ (offset c) pre HR' HS HO HA') as (rs' & vs' & E & Hr & Hv & HM').
        exists rs', vs'. split_and!; try done. intros x. rewrite HM'. specialize (HM x). unfold merged in HM. rewrite app_nil_r, El in HM. exact HM.
      * rewrite Hno. cbn [appendRest]. exists (ranges c), (pre ++ post). split_and!; try done; [by eapply Rep_Represents|].
        intros x. specialize (HM x). unfold merged in HM. rewrite Hno, El in HM. etransitivity; [|exact HM]. cbn [eff]. by destruct (find x (pre ++ post)).
Qed.

End Extend.
