(* ===== verification/DFAMinimizer.v ===== *)
(** * DFAMinimizer: merging the equivalent nodes of an automaton

    Translated from src/Source/WebCore/contentextensions/DFAMinimizer.cpp:
    a partition of the nodes is refined by the transitions, and a partition of
    the transitions by the nodes they lead to.  Indices into vectors are [nat];
    [None] is an index out of range or a failed assertion.  The order of the
    hash map of final states is an argument. *)

From stdpp Require Import gmap.
From S2P Require Import Prelude DFA MutableRangeList.
Import MutableRangeList.

Module DFAMinimizer.

(** A loop that can fail. *)
Fixpoint foldlM {S B : Type} (f : S -> B -> option S) (s : S) (l : list B) : option S :=
  match l with [] => Some s | x :: l => s ← f s x; foldlM f s l end.

(** ** [iterateIntersections] *)

(** [while (index < length && firsts[index] != first) ++index]: the index and
    the list from there. *)
Fixpoint skipTo (firstCharacter : Z) (firsts : list Z) (index : nat) : nat * list Z :=
  match firsts with
  | [] => (index, [])
  | x :: rest => if x =? firstCharacter then (index, firsts) else skipTo firstCharacter rest (S index)
  end.

(** [while (index < length && firsts[index] <= last)]: the indices handled,
    the index after them and the list from there. *)
Fixpoint upTo (lastCharacter : Z) (firsts : list Z) (index : nat) : list nat * nat * list Z :=
  match firsts with
  | [] => ([], index, [])
  | x :: rest =>
      if x <=? lastCharacter then let '(handled, next, rest) := upTo lastCharacter rest (S index) in (index :: handled, next, rest)
      else ([], index, firsts)
  end.

Fixpoint intersectionLoop (firsts : list Z) (index : nat) (ts : list (DFA.CharRange * Z)) : list (nat * Z) :=
  match ts with
  | [] => []
  | (range, target) :: ts =>
      let '(index, rest) := skipTo (DFA.first range) firsts index in
      let '(handled, next, rest) := upTo (DFA.last range) (tail rest) (S index) in
      (index, target) :: ((fun i => (i, target)) <$> handled) ++ intersectionLoop rest next ts
  end.

(** The calls of the handler: the index of the singular transition and the
    target of the transition that it is a part of. *)
Definition iterateIntersections (singularTransitionsFirsts : list Z) (ts : list (DFA.CharRange * Z)) : option (list (nat * Z)) :=
  guard (singularTransitionsFirsts <> []);; Some (intersectionLoop singularTransitionsFirsts 0 ts).

(** ** [Partition] *)

#[local] Open Scope nat_scope.

Record SetDescriptor := mkSet { start : nat; size : nat; markedCount : nat }.

Definition indexAfterMarkedElements (s : SetDescriptor) : nat := start s + markedCount s.
Definition set_end (s : SetDescriptor) : nat := start s + size s.

Record Partition := mkPartition {
  m_sets : list SetDescriptor;
  m_partitionedElements : list nat;
  m_elementPositionInPartitionedNodes : list nat;
  m_elementToSetMap : list nat;
  m_setsMarkedInCurrentGeneration : list nat
}.

Definition emptyPartition : Partition := mkPartition [] [] [] [] [].

Definition initialize (n : nat) : Partition :=
  if Nat.eqb n 0 then emptyPartition else mkPartition [mkSet 0 n 0] (seq 0 n) (seq 0 n) (replicate n 0) [].

Definition reserveUninitializedCapacity (elementCount : nat) (p : Partition) : Partition :=
  mkPartition (m_sets p) (replicate elementCount 0) (replicate elementCount 0) (replicate elementCount 0) (m_setsMarkedInCurrentGeneration p).

Definition addSetUnchecked (s n : nat) (p : Partition) : Partition :=
  mkPartition (m_sets p ++ [mkSet s n 0]) (m_partitionedElements p) (m_elementPositionInPartitionedNodes p) (m_elementToSetMap p) (m_setsMarkedInCurrentGeneration p).

(** [vector[i] = x]. *)
Definition store {B : Type} (i : nat) (x : B) (l : list B) : option (list B) := guard (i < length l);; Some (<[i := x]> l).

Definition setElementUnchecked (elementIndex positionInPartition setIndex : nat) (p : Partition) : option Partition :=
  guard (setIndex < length (m_sets p));;
  elements ← store positionInPartition elementIndex (m_partitionedElements p);
  positions ← store elementIndex positionInPartition (m_elementPositionInPartitionedNodes p);
  setMap ← store elementIndex setIndex (m_elementToSetMap p);
  Some (mkPartition (m_sets p) elements positions setMap (m_setsMarkedInCurrentGeneration p)).

Definition startOffsetOfSet (setIndex : nat) (p : Partition) : option nat := start <$> m_sets p !! setIndex.

Definition markElementInCurrentGeneration (elementIndex : nat) (p : Partition) : option Partition :=
  setIndex ← m_elementToSetMap p !! elementIndex;
  setDescriptor ← m_sets p !! setIndex;
  elementPositionInPartition ← m_elementPositionInPartitionedNodes p !! elementIndex;
  guard (start setDescriptor <= elementPositionInPartition);;
  guard (elementPositionInPartition < set_end setDescriptor);;
  let firstUnmarkedElementPositionInPartition := indexAfterMarkedElements setDescriptor in
  guard (start setDescriptor <= firstUnmarkedElementPositionInPartition < set_end setDescriptor);;
  firstUnmarkedElement ← m_partitionedElements p !! firstUnmarkedElementPositionInPartition;
  elements ← store firstUnmarkedElementPositionInPartition elementIndex (m_partitionedElements p);
  elements ← store elementPositionInPartition firstUnmarkedElement elements;
  positions ← store elementIndex firstUnmarkedElementPositionInPartition (m_elementPositionInPartitionedNodes p);
  positions ← store firstUnmarkedElement elementPositionInPartition positions;
  marked ← (if Nat.eqb (markedCount setDescriptor) 0
            then guard (setIndex ∉ m_setsMarkedInCurrentGeneration p);; Some (m_setsMarkedInCurrentGeneration p ++ [setIndex])
            else Some (m_setsMarkedInCurrentGeneration p));
  Some (mkPartition (<[setIndex := mkSet (start setDescriptor) (size setDescriptor) (S (markedCount setDescriptor))]> (m_sets p)) elements positions (m_elementToSetMap p) marked).

(** One set of [refineGeneration]: the partition, and the index of the new set
    if there is one. *)
Definition refineSet (setIndex : nat) (p : Partition) : option (Partition * option nat) :=
  s ← m_sets p !! setIndex;
  if Nat.eqb (markedCount s) (size s) then
    Some (mkPartition (<[setIndex := mkSet (start s) (size s) 0]> (m_sets p)) (m_partitionedElements p) (m_elementPositionInPartitionedNodes p) (m_elementToSetMap p)
            (m_setsMarkedInCurrentGeneration p), None)
  else
    let newSetIsMarkedSet := (u32 (Z.of_nat (markedCount s) * 2) <=? Z.of_nat (size s))%Z in
    let newSet := if newSetIsMarkedSet then mkSet (start s) (markedCount s) 0 else mkSet (start s + markedCount s) (size s - markedCount s) 0 in
    let newStart := if newSetIsMarkedSet then start s + markedCount s else start s in
    let newSetIndex := length (m_sets p) in
    let sets := <[setIndex := mkSet newStart (size s - size newSet) 0]> (m_sets p) ++ [newSet] in
    elements ← mapM (fun i => m_partitionedElements p !! i) (seq (start newSet) (size newSet));
    setMap ← foldlM (fun setMap element => store element newSetIndex setMap) (m_elementToSetMap p) elements;
    Some (mkPartition sets (m_partitionedElements p) (m_elementPositionInPartitionedNodes p) setMap (m_setsMarkedInCurrentGeneration p), Some newSetIndex).

Definition clearMarked (p : Partition) : Partition :=
  mkPartition (m_sets p) (m_partitionedElements p) (m_elementPositionInPartitionedNodes p) (m_elementToSetMap p) [].

(** [refineGeneration] with a function that does something with the new sets,
    here to a state [X], and reads the partition. *)
Definition refineGeneration {X : Type} (function : Partition -> nat -> X -> option X) (p : Partition) (x : X) : option (Partition * X) :=
  '(p, x) ← foldlM (fun '(p, x) setIndex =>
                      '(p, newSet) ← refineSet setIndex p;
                      x ← (match newSet with Some newSetIndex => function p newSetIndex x | None => Some x end);
                      Some (p, x)) (p, x) (m_setsMarkedInCurrentGeneration p);
  Some (clearMarked p, x).

(** [iterateSet]: the elements, in order. *)
Definition iterateSet (setIndex : nat) (p : Partition) : option (list nat) :=
  s ← m_sets p !! setIndex;
  mapM (fun i => m_partitionedElements p !! i) (seq (start s) (size s)).

Definition setIndexOf (elementIndex : nat) (p : Partition) : option nat := m_elementToSetMap p !! elementIndex.

Definition firstElementInSet (setIndex : nat) (p : Partition) : option nat :=
  s ← m_sets p !! setIndex; m_partitionedElements p !! start s.

Definition partition_size (p : Partition) : nat := length (m_sets p).

(** ** [FullGraphPartition] *)

Record FullGraphPartition := mkFull {
  m_flattenedTransitionsStartOffsetPerNode : list nat;
  m_flattenedTransitionsSizePerNode : list nat;
  m_flattenedTransitions : list nat;
  m_nodePartition : Partition;
  m_transitionPartition : Partition;
  m_nextTransitionSetToProcess : nat
}.

(** [CounterConverter] *)
Definition convert (_ : Z) : option nat := Some 1.
Definition extendCounter (destination : nat) (_ : Z) : option nat := Some (S destination).

(** The transitions of a node as its iterator gives them. *)
Definition spansOfTransitions (ts : list (DFA.CharRange * Z)) : list (Span Z) := (fun '(range, target) => mkSpan (DFA.first range) (DFA.last range) target) <$> ts.

(** [singularTransitions], extended with the transitions of each node. *)
Definition singularTransitions (dfa : DFA.DFA) : option (list (MutableRange nat)) :=
  foldlM (fun ranges node =>
            if DFA.isKilled node then Some ranges
            else ts ← DFA.transitions node dfa; extend convert extendCounter ranges (spansOfTransitions ts)) [] (DFA.nodes dfa).

(** The sets of transitions by singular range, and [rangeIndexAccumulator]. *)
Fixpoint addSets (counts : list nat) (accumulator : nat) (p : Partition) : Partition * nat :=
  match counts with
  | [] => (p, accumulator)
  | n :: counts => addSets counts (accumulator + n) (addSetUnchecked accumulator n p)
  end.

(** A loop over the calls of the handler for each node that is not killed. *)
Definition forTransitions {X : Type} (dfa : DFA.DFA) (firsts : list Z) (handler : X -> nat -> nat * Z -> option X) (x : X) : option X :=
  foldlM (fun x '(i, node) =>
            if DFA.isKilled node then Some x
            else ts ← DFA.transitions node dfa; calls ← iterateIntersections firsts ts; foldlM (fun x call => handler x i call) x calls)
    x (zip (seq 0 (length (DFA.nodes dfa))) (DFA.nodes dfa)).

(** [++vector[i]] *)
Definition increment (i : nat) (l : list nat) : option (list nat) := n ← l !! i; store i (S n) l.

(** "Accumulate the offsets.": the start of each bucket and the sum. *)
Fixpoint accumulate (counts : list nat) (accumulator : nat) : list nat * nat :=
  match counts with
  | [] => ([], accumulator)
  | n :: counts => let '(offsets, total) := accumulate counts (accumulator + n) in (accumulator :: offsets, total)
  end.

(** The state of the loop that fills the tables: the sizes per node, the
    transitions, the transition partition and the offsets per range. *)
Definition fillTables (starts : list nat) (tables : list nat * list nat * Partition * list nat) (i : nat) (call : nat * Z)
    : option (list nat * list nat * Partition * list nat) :=
  let '(sizes, flattened, transitionPartition, transitionPerRangeOffset) := tables in
  let '(singularTransitionIndex, target) := call in
  let targetNodeIndex := Z.to_nat target in
  start ← starts !! targetNodeIndex;
  offset ← sizes !! targetNodeIndex;
  let positionInFlattenedTransitions := start + offset in
  flattened ← store positionInFlattenedTransitions i flattened;
  inRangeOffset ← transitionPerRangeOffset !! singularTransitionIndex;
  setStart ← startOffsetOfSet singularTransitionIndex transitionPartition;
  let positionInTransitionPartition := setStart + inRangeOffset in
  transitionPerRangeOffset ← store singularTransitionIndex (S inRangeOffset) transitionPerRangeOffset;
  transitionPartition ← setElementUnchecked positionInFlattenedTransitions positionInTransitionPartition singularTransitionIndex transitionPartition;
  sizes ← increment targetNodeIndex sizes;
  Some (sizes, flattened, transitionPartition, transitionPerRangeOffset).

(** The constructor. *)
Definition newFullGraphPartition (dfa : DFA.DFA) : option FullGraphPartition :=
  let nodePartition := initialize (length (DFA.nodes dfa)) in
  ranges ← singularTransitions dfa;
  singular ← toList ranges;
  let '(transitionPartition, rangeIndexAccumulator) := addSets (data <$> singular) 0 emptyPartition in
  let firsts := first <$> singular in
  counts ← forTransitions dfa firsts (fun counts _ '(_, target) => increment (Z.to_nat target) counts) (replicate (length (DFA.nodes dfa)) 0);
  let '(starts, flattenedTransitionsSize) := accumulate counts 0 in
  guard (flattenedTransitionsSize = rangeIndexAccumulator);;
  let transitionPartition := reserveUninitializedCapacity flattenedTransitionsSize transitionPartition in
  '(sizes, flattened, transitionPartition, _) ←
    forTransitions dfa firsts (fillTables starts)
      (replicate (length (DFA.nodes dfa)) 0, replicate flattenedTransitionsSize 0, transitionPartition, replicate (partition_size transitionPartition) 0);
  Some (mkFull starts sizes flattened nodePartition transitionPartition 0).

Definition markNode (nodeIndex : nat) (g : FullGraphPartition) : option FullGraphPartition :=
  nodePartition ← markElementInCurrentGeneration nodeIndex (m_nodePartition g);
  Some (mkFull (m_flattenedTransitionsStartOffsetPerNode g) (m_flattenedTransitionsSizePerNode g) (m_flattenedTransitions g) nodePartition (m_transitionPartition g)
          (m_nextTransitionSetToProcess g)).

(** The function of [refinePartitions]: the transitions to the nodes of the new
    set are split from the others. *)
Definition splitTransitions (starts sizes : list nat) (nodePartition : Partition) (smallestSetIndex : nat) (transitionPartition : Partition) : option Partition :=
  nodes ← iterateSet smallestSetIndex nodePartition;
  transitionPartition ← foldlM (fun transitionPartition nodeIndex =>
      incomingTransitionsStartForNode ← starts !! nodeIndex;
      incomingTransitionsSizeForNode ← sizes !! nodeIndex;
      foldlM (fun transitionPartition i => markElementInCurrentGeneration i transitionPartition) transitionPartition
        (seq incomingTransitionsStartForNode incomingTransitionsSizeForNode)) transitionPartition nodes;
  '(transitionPartition, _) ← refineGeneration (fun _ _ (_ : unit) => Some tt) transitionPartition tt;
  Some transitionPartition.

Definition refinePartitions (g : FullGraphPartition) : option FullGraphPartition :=
  '(nodePartition, transitionPartition) ←
    refineGeneration (splitTransitions (m_flattenedTransitionsStartOffsetPerNode g) (m_flattenedTransitionsSizePerNode g)) (m_nodePartition g) (m_transitionPartition g);
  Some (mkFull (m_flattenedTransitionsStartOffsetPerNode g) (m_flattenedTransitionsSizePerNode g) (m_flattenedTransitions g) nodePartition transitionPartition
          (m_nextTransitionSetToProcess g)).

(** One turn of the loop of [splitByUniqueTransitions]. *)
Definition splitByTransitionSet (g : FullGraphPartition) : option FullGraphPartition :=
  transitions ← iterateSet (m_nextTransitionSetToProcess g) (m_transitionPartition g);
  g ← foldlM (fun g transitionIndex => sourceNodeIndex ← m_flattenedTransitions g !! transitionIndex; markNode sourceNodeIndex g) g transitions;
  g ← refinePartitions g;
  Some (mkFull (m_flattenedTransitionsStartOffsetPerNode g) (m_flattenedTransitionsSizePerNode g) (m_flattenedTransitions g) (m_nodePartition g) (m_transitionPartition g)
          (S (m_nextTransitionSetToProcess g))).

Fixpoint splitLoop (fuel : nat) (g : FullGraphPartition) : option FullGraphPartition :=
  match fuel with
  | O => None
  | S fuel =>
      if bool_decide (m_nextTransitionSetToProcess g < partition_size (m_transitionPartition g)) then g ← splitByTransitionSet g; splitLoop fuel g
      else Some g
  end.

(** The sets of the transition partition are not empty, so there are at most as
    many as there are transitions. *)
Definition splitByUniqueTransitions (g : FullGraphPartition) : option FullGraphPartition :=
  splitLoop (S (length (m_flattenedTransitions g))) g.

Definition nodeReplacement (nodeIndex : nat) (g : FullGraphPartition) : option nat :=
  setIndex ← setIndexOf nodeIndex (m_nodePartition g); firstElementInSet setIndex (m_nodePartition g).

(** ** [minimize] *)

(** [finalStates]: the nodes with each list of actions. *)
Definition addFinalState (dfa : DFA.DFA) (finalStates : gmap (list Z) (list nat)) (state : nat * DFA.DFANode) : option (gmap (list Z) (list nat)) :=
  let '(i, node) := state in
  if DFA.hasActions node then
    key ← DFA.actions node dfa;
    Some (<[key := default [] (finalStates !! key) ++ [i]]> finalStates)
  else Some finalStates.

Section Minimize.

Context (stateOrder : gmap (list Z) (list nat) -> list (list nat)).

(** The partition of the nodes with equivalent nodes together. *)
Definition partitionNodes (dfa : DFA.DFA) : option FullGraphPartition :=
  g ← newFullGraphPartition dfa;
  finalStates ← foldlM (addFinalState dfa) ∅ (zip (seq 0 (length (DFA.nodes dfa))) (DFA.nodes dfa));
  g ← foldlM (fun g slot => g ← foldlM (fun g finalStateIndex => markNode finalStateIndex g) g slot; refinePartitions g) g (stateOrder finalStates);
  splitByUniqueTransitions g.

(** "Update all the transitions.": the replacements, and the automaton without
    the nodes that are replaced. *)
Definition relocate (g : FullGraphPartition) (state : list nat * DFA.DFA) (i : nat) : option (list nat * DFA.DFA) :=
  let '(relocationVector, dfa) := state in
  replacement ← nodeReplacement i g;
  if Nat.eqb i replacement then Some (relocationVector, dfa)
  else relocationVector ← store i replacement relocationVector; dfa ← DFA.kill (Z.of_nat i) dfa; Some (relocationVector, dfa).

(** The targets of the transitions of a node. *)
Definition retarget (relocationVector : list nat) (destinations : list Z) (node : DFA.DFANode) : option (list Z) :=
  if DFA.isKilled node then Some destinations
  else
    foldlM (fun destinations i =>
              target ← DFA.at_ destinations i;
              relocatedTarget ← relocationVector !! Z.to_nat target;
              if (target =? Z.of_nat relocatedTarget)%Z then Some destinations else store (Z.to_nat i) (Z.of_nat relocatedTarget) destinations)
      destinations (DFA.slice (DFA.m_transitionsStart node) (DFA.m_transitionsLength node)).

Definition minimize (dfa : DFA.DFA) : option DFA.DFA :=
  g ← partitionNodes dfa;
  '(relocationVector, dfa) ← foldlM (relocate g) (seq 0 (length (DFA.nodes dfa)), dfa) (seq 0 (length (DFA.nodes dfa)));
  root ← relocationVector !! Z.to_nat (DFA.root dfa);
  destinations ← foldlM (retarget relocationVector) (DFA.transitionDestinations dfa) (DFA.nodes dfa);
  Some (DFA.mkDFA (DFA.nodes dfa) (DFA.dfa_actions dfa) (DFA.transitionRanges dfa) destinations (Z.of_nat root)).

End Minimize.

End DFAMinimizer.
