(* ===== verification/DFAPartition.v ===== *)
(** * DFAPartition: refining partitions held in arrays

    The elements of a partition stand in one array so that the sets are
    segments of it, the marked elements of a set first.  Marking keeps the
    sets; refining splits the marked elements of each set from the others.  The
    loop of the minimizer refines the nodes and the transitions of a graph
    against each other: it ends with nodes together only if they have
    transitions with the same symbols to nodes that are together, and it never
    separates nodes that a bisimulation relates. *)

From stdpp Require Import gmap.
From S2P Require Import Prelude DFA MutableRangeList DFAMinimizer.
Import DFAMinimizer.

#[local] Open Scope nat_scope.

(** ** Loops *)

Lemma foldlM_app {S B : Type} (f : S -> B -> option S) s l1 l2 : foldlM f s (l1 ++ l2) = (s ← foldlM f s l1; foldlM f s l2).
Proof. revert s. induction l1 as [|x l1 IH]; intros s; cbn [app foldlM]; [done|]. destruct (f s x); cbn [mbind option_bind]; [apply IH|done]. Qed.

(** A loop that keeps an invariant over the elements that are left. *)
Lemma foldlM_inv {S B : Type} (f : S -> B -> option S) (I : list B -> S -> Prop) :
  (forall x l s, I (x :: l) s -> exists s', f s x = Some s' /\ I l s') -> forall l s, I l s -> exists s', foldlM f s l = Some s' /\ I [] s'.
Proof.
  intros Hstep. induction l as [|x l IH]; intros s H; cbn [foldlM]; [eauto|]. destruct (Hstep x l s H) as (s' & -> & H'). cbn [mbind option_bind]. by apply IH.
Qed.

Lemma store_spec {B : Type} i (x : B) l : i < length l -> store i x l = Some (<[i := x]> l).
Proof. intros H. unfold store. by rewrite option_guard_True. Qed.

Lemma mapM_lookup {B : Type} (l : list B) a n : a + n <= length l -> mapM (fun i => l !! i) (seq a n) = Some (take n (drop a l)).
Proof.
  revert a. induction n as [|n IH]; intros a H; cbn [seq mapM]; [done|]. destruct (lookup_lt_is_Some_2 l a) as [x Ex]; [lia|]. rewrite Ex, IH by lia. cbn [mbind option_bind]. by rewrite (drop_S _ _ _ Ex).
Qed.

(** ** Well-formed partitions *)

(** The set of an element. *)
Notation cls p e := (m_elementToSetMap p !! e).

Record Wf (n : nat) (p : Partition) : Prop := {
  wf_elements : length (m_partitionedElements p) = n;
  wf_positions : length (m_elementPositionInPartitionedNodes p) = n;
  wf_map : length (m_elementToSetMap p) = n;
  wf_inverse : forall e i, m_elementPositionInPartitionedNodes p !! e = Some i <-> m_partitionedElements p !! i = Some e;
  wf_sets : forall k s, m_sets p !! k = Some s -> 1 <= size s /\ markedCount s <= size s /\ start s + size s <= n;
  wf_member : forall e k, cls p e = Some k <-> exists s i, m_sets p !! k = Some s /\ m_elementPositionInPartitionedNodes p !! e = Some i /\ start s <= i < start s + size s }.

Definition isMarked (p : Partition) (e : nat) : Prop :=
  exists k s i, cls p e = Some k /\ m_sets p !! k = Some s /\ m_elementPositionInPartitionedNodes p !! e = Some i /\ i < start s + markedCount s.

(** The list of marked sets. *)
Definition Listed (p : Partition) : Prop :=
  NoDup (m_setsMarkedInCurrentGeneration p) /\ forall k, k ∈ m_setsMarkedInCurrentGeneration p <-> exists s, m_sets p !! k = Some s /\ 0 < markedCount s.

Lemma wf_position n p e : Wf n p -> e < n -> exists i, m_elementPositionInPartitionedNodes p !! e = Some i.
Proof. intros H He. apply lookup_lt_is_Some_2. by rewrite (wf_positions _ _ H). Qed.

Lemma wf_cls n p e : Wf n p -> e < n -> exists k s i, cls p e = Some k /\ m_sets p !! k = Some s /\ m_elementPositionInPartitionedNodes p !! e = Some i /\ start s <= i < start s + size s.
Proof.
  intros H He. destruct (lookup_lt_is_Some_2 (m_elementToSetMap p) e) as [k Hk]; [by rewrite (wf_map _ _ H)|]. pose proof Hk as Hk'. apply (wf_member _ _ H) in Hk as (s & i & ? & ? & ?). by exists k, s, i.
Qed.

Lemma cls_lt n p e k : Wf n p -> cls p e = Some k -> e < n /\ k < length (m_sets p).
Proof. intros H E. split; [rewrite <- (wf_map _ _ H); by eapply lookup_lt_Some|]. apply (wf_member _ _ H) in E as (s & i & E & _). by eapply lookup_lt_Some. Qed.

Lemma position_inj n p e e' i : Wf n p -> m_elementPositionInPartitionedNodes p !! e = Some i -> m_elementPositionInPartitionedNodes p !! e' = Some i -> e = e'.
Proof. intros H E1 E2. apply (wf_inverse _ _ H) in E1. apply (wf_inverse _ _ H) in E2. congruence. Qed.

(** ** Marking *)

Lemma mark_spec n p e : Wf n p -> Listed p -> e < n -> ~ isMarked p e ->
  exists p', markElementInCurrentGeneration e p = Some p' /\ Wf n p' /\ Listed p' /\ m_elementToSetMap p' = m_elementToSetMap p /\ length (m_sets p') = length (m_sets p)
    /\ forall x, isMarked p' x <-> isMarked p x \/ x = e.
Proof.
  intros H [HL1 HL2] He Hm. destruct (wf_cls n p e H He) as (k & s & i & Ek & Es & Ei & Hi). destruct (wf_sets _ _ H _ _ Es) as (Hs1 & Hs2 & Hs3).
  assert (start s + markedCount s <= i) as Hun by (destruct (decide (i < start s + markedCount s)); [destruct Hm; by exists k, s, i|lia]).
  unfold markElementInCurrentGeneration. rewrite Ek. cbn [mbind option_bind]. rewrite Es. cbn [mbind option_bind]. rewrite Ei. cbn [mbind option_bind]. unfold set_end, indexAfterMarkedElements.
  rewrite option_guard_True by lia. cbn [mbind option_bind]. rewrite option_guard_True by lia. cbn [mbind option_bind]. rewrite option_guard_True by lia. cbn [mbind option_bind]. set (fu := start s + markedCount s) in *.
  destruct (lookup_lt_is_Some_2 (m_partitionedElements p) fu) as [f Ef]; [rewrite (wf_elements _ _ H); unfold fu; lia|]. rewrite Ef. cbn [mbind option_bind].
  pose proof (proj2 (wf_inverse _ _ H f fu) Ef) as Pf. pose proof (lookup_lt_Some _ _ _ Pf) as Lf. rewrite (wf_positions _ _ H) in Lf.
  rewrite (store_spec fu e (m_partitionedElements p)) by (rewrite (wf_elements _ _ H); unfold fu; lia). cbn [mbind option_bind]. rewrite (store_spec i f) by (rewrite length_insert, (wf_elements _ _ H); lia). cbn [mbind option_bind].
  rewrite (store_spec e fu) by (rewrite (wf_positions _ _ H); lia). cbn [mbind option_bind]. rewrite (store_spec f i) by (rewrite length_insert, (wf_positions _ _ H); lia). cbn [mbind option_bind].
  set (marked := if markedCount s =? 0 then m_setsMarkedInCurrentGeneration p ++ [k] else m_setsMarkedInCurrentGeneration p).
  assert ((if markedCount s =? 0 then guard (k ∉ m_setsMarkedInCurrentGeneration p);; Some (m_setsMarkedInCurrentGeneration p ++ [k]) else Some (m_setsMarkedInCurrentGeneration p)) = Some marked) as ->.
  { unfold marked. destruct (Nat.eqb_spec (markedCount s) 0) as [E0|]; [|done]. rewrite option_guard_True; [done|]. intros (s' & Es' & Hp)%HL2. rewrite Es in Es'. injection Es' as <-. lia. }
  cbn [mbind option_bind]. eexists. split; [reflexivity|]. set (positions := <[f := i]> (<[e := fu]> (m_elementPositionInPartitionedNodes p))). set (s' := mkSet (start s) (size s) (S (markedCount s))).
  assert (forall x, positions !! x = if decide (x = f) then Some i else if decide (x = e) then Some fu else m_elementPositionInPartitionedNodes p !! x) as HP.
  { intros x. unfold positions. destruct (decide (x = f)) as [->|Hf]; [rewrite list_lookup_insert_eq; [done|rewrite length_insert, (wf_positions _ _ H); lia]|].
    rewrite list_lookup_insert_ne by done. destruct (decide (x = e)) as [->|Hx]; [rewrite list_lookup_insert_eq; [done|rewrite (wf_positions _ _ H); lia]|by rewrite list_lookup_insert_ne]. }
  assert (forall j, (<[k := s']> (m_sets p)) !! j = if decide (j = k) then Some s' else m_sets p !! j) as HS.
  { intros j. destruct (decide (j = k)) as [->|]; [apply list_lookup_insert_eq; by eapply lookup_lt_Some|by apply list_lookup_insert_ne]. }
  assert (cls p f = Some k) as Ekf by (apply (wf_member _ _ H); exists s, fu; split_and!; [done|done|unfold fu; lia|unfold fu; lia]).
  assert (forall x, x <> f -> x <> e -> forall y, m_elementPositionInPartitionedNodes p !! x = Some y -> y <> i /\ y <> fu) as Hother.
  { intros x Hxf Hxe y Ey. split; intros ->; [by apply Hxe, (position_inj n p x e i)|by apply Hxf, (position_inj n p x f fu)]. }
  split_and!; cbn [m_sets m_partitionedElements m_elementPositionInPartitionedNodes m_elementToSetMap m_setsMarkedInCurrentGeneration].
  - split; cbn [m_sets m_partitionedElements m_elementPositionInPartitionedNodes m_elementToSetMap].
    + rewrite !length_insert. apply H.
    + unfold positions. rewrite !length_insert. apply H.
    + apply H.
    + intros x y. rewrite HP. assert ((<[i := f]> (<[fu := e]> (m_partitionedElements p))) !! y = if decide (y = i) then Some f else if decide (y = fu) then Some e else m_partitionedElements p !! y) as ->.
      { destruct (decide (y = i)) as [->|Hy]; [apply list_lookup_insert_eq; rewrite length_insert, (wf_elements _ _ H); lia|]. rewrite list_lookup_insert_ne by done.
        destruct (decide (y = fu)) as [->|Hy']; [apply list_lookup_insert_eq; rewrite (wf_elements _ _ H); unfold fu; lia|by rewrite list_lookup_insert_ne]. }
      pose proof (wf_inverse _ _ H) as HI. pose proof (proj1 (HI e i) Ei) as Ee. destruct (HI x y) as [Hxy Hyx]. pose proof (HI x i). pose proof (HI x fu). pose proof (HI f y). pose proof (HI e y).
      repeat case_decide; subst; split; intros ?; try congruence; naive_solver congruence.
    + intros j t. rewrite HS. case_decide as Hj; [intros [= <-]; cbn; lia|apply H].
    + intros x j. rewrite HS, HP. rewrite (wf_member _ _ H). destruct (decide (x = f)) as [->|Hxf]; [|destruct (decide (x = e)) as [->|Hxe]].
      * rewrite <- (wf_member _ _ H), Ekf. split; [intros [= <-]; exists s', i; rewrite decide_True by done; unfold s'; cbn; split_and!; try done; lia|].
        intros (t & y & Et & [= <-] & Hy). case_decide as Hj; [by subst|]. exfalso. apply Hj. assert (cls p e = Some j) as Ej by (apply (wf_member _ _ H); by exists t, i). congruence.
      * rewrite <- (wf_member _ _ H), Ek. split; [intros [= <-]; exists s', fu; rewrite decide_True by done; unfold s', fu in *; cbn; split_and!; try done; lia|].
        intros (t & y & Et & [= <-] & Hy). case_decide as Hj; [by subst|]. exfalso. apply Hj. assert (cls p f = Some j) as Ej by (apply (wf_member _ _ H); by exists t, fu). congruence.
      * case_decide as Hj; [subst j|done]. split; intros (t & y & Et & Ey & Hy); [rewrite Es in Et; injection Et as <-; by exists s', y|injection Et as <-; by exists s, y].
  - split; unfold marked; cbn.
    + destruct (Nat.eqb_spec (markedCount s) 0) as [E0|]; [|done]. apply NoDup_app. split_and!; [done| |apply NoDup_singleton]. intros j Hj ->%list_elem_of_singleton. apply HL2 in Hj as (s0 & Es0 & Hp). rewrite Es in Es0. injection Es0 as <-. lia.
    + intros j. rewrite HS. assert (j ∈ (if markedCount s =? 0 then m_setsMarkedInCurrentGeneration p ++ [k] else m_setsMarkedInCurrentGeneration p) <-> j ∈ m_setsMarkedInCurrentGeneration p \/ j = k) as ->.
      { destruct (Nat.eqb_spec (markedCount s) 0) as [E0|E0]; [rewrite elem_of_app, list_elem_of_singleton; done|]. split; [by left|]. intros [?| ->]; [done|]. apply HL2. exists s. split; [done|lia]. }
      rewrite HL2. case_decide as Hj; [subst j; split; [intros _; exists s'; cbn; split; [done|lia]|by right]|naive_solver].
  - done.
  - by rewrite length_insert.
  - intros x. unfold isMarked. cbn [m_sets m_elementPositionInPartitionedNodes m_elementToSetMap]. setoid_rewrite HS. rewrite HP. split.
    + intros (j & t & y & Ej & Et & Ey & Hy). destruct (decide (x = f)) as [->|Hxf]; [|destruct (decide (x = e)) as [->|Hxe]; [by right|]].
      * injection Ey as <-. rewrite Ekf in Ej. injection Ej as <-. rewrite decide_True in Et by done. injection Et as <-. unfold s' in Hy. cbn in Hy. right. apply (position_inj n p f e i H); [|done]. rewrite Pf. f_equal. unfold fu. lia.
      * left. case_decide as Hj; [subst j; injection Et as <-|by exists j, t, y]. unfold s' in Hy. cbn in Hy. exists k, s, y. destruct (Hother x Hxf Hxe y Ey). split_and!; try done. unfold fu in *. lia.
    + intros [(j & t & y & Ej & Et & Ey & Hy)| ->].
      * destruct (decide (x = f)) as [->|Hxf]; [|destruct (decide (x = e)) as [->|Hxe]].
        -- exfalso. rewrite Ekf in Ej. injection Ej as <-. rewrite Es in Et. injection Et as <-. rewrite Pf in Ey. injection Ey as <-. unfold fu in Hy. lia.
        -- destruct Hm. by exists j, t, y.
        -- destruct (decide (j = k)) as [->|Hj]; [|exists j, t, y; by rewrite decide_False]. rewrite Es in Et. injection Et as <-. exists k, s', y. rewrite decide_True by done. split_and!; try done. unfold s'. cbn. lia.
      * exists k, s'. rewrite decide_True by done. destruct (decide (e = f)) as [<-|Hef].
        -- exists i. split_and!; try done. assert (i = fu) as -> by congruence. unfold s', fu. cbn. lia.
        -- exists fu. rewrite decide_True by done. split_and!; try done. unfold s', fu. cbn. lia.
Qed.

(** No element is marked, between two generations. *)
Definition Clean (p : Partition) : Prop := m_setsMarkedInCurrentGeneration p = [] /\ forall k s, m_sets p !! k = Some s -> markedCount s = 0.

Lemma clean_listed p : Clean p -> Listed p.
Proof. intros [E H]. split; rewrite E; [constructor|]. intros k. split; [by intros ?%not_elem_of_nil|]. intros (s & Hs & Hp). specialize (H k s Hs). lia. Qed.

Lemma clean_unmarked n p e : Wf n p -> Clean p -> ~ isMarked p e.
Proof.
  intros HW [_ H] (k & s & i & Ek & Es & Ei & Hi). specialize (H k s Es). apply (wf_member _ _ HW) in Ek as (s' & i' & Es' & Ei' & Hr). rewrite Es in Es'. rewrite Ei in Ei'.
  injection Es' as <-. injection Ei' as <-. lia.
Qed.

(** Marking several elements. *)
Lemma markAll_spec n l : forall p, Wf n p -> Listed p -> NoDup l -> (forall e, e ∈ l -> e < n /\ ~ isMarked p e) ->
  exists p', foldlM (fun p e => markElementInCurrentGeneration e p) p l = Some p' /\ Wf n p' /\ Listed p' /\ m_elementToSetMap p' = m_elementToSetMap p /\ length (m_sets p') = length (m_sets p)
    /\ forall x, isMarked p' x <-> isMarked p x \/ x ∈ l.
Proof.
  induction l as [|e l IH]; intros p HW HL HD Hl; cbn [foldlM]; [exists p; split_and!; try done; intros x; rewrite elem_of_nil; tauto|]. apply NoDup_cons in HD as [He HD].
  destruct (Hl e ltac:(left)) as [Hlt Hu]. destruct (mark_spec n p e HW HL Hlt Hu) as (p1 & -> & HW1 & HL1 & E1 & E2 & HM1). cbn [mbind option_bind].
  destruct (IH p1 HW1 HL1 HD) as (p2 & -> & HW2 & HL2 & E3 & E4 & HM2).
  - intros x Hx. destruct (Hl x ltac:(by right)). split; [done|]. rewrite HM1. intros [?| ->]; done.
  - exists p2. split_and!; try done; try congruence. intros x. rewrite HM2, HM1, elem_of_cons. tauto.
Qed.

(** ** The elements of a set *)

Lemma wf_elements_NoDup n p : Wf n p -> NoDup (m_partitionedElements p).
Proof. intros H. apply NoDup_alt. intros i j e E1 E2. apply (wf_inverse _ _ H) in E1. apply (wf_inverse _ _ H) in E2. congruence. Qed.

(** The elements at the positions of a segment. *)
Lemma segment_spec n p a m : Wf n p -> a + m <= n ->
  exists l, mapM (fun i => m_partitionedElements p !! i) (seq a m) = Some l /\ NoDup l /\ length l = m
    /\ forall e, e ∈ l <-> exists i, m_elementPositionInPartitionedNodes p !! e = Some i /\ a <= i < a + m.
Proof.
  intros H Hm. pose proof (wf_elements _ _ H) as Hl. rewrite mapM_lookup by lia. eexists. split; [reflexivity|]. split_and!.
  - eapply sublist_NoDup; [by eapply wf_elements_NoDup|]. etransitivity; [apply sublist_take|apply sublist_drop].
  - rewrite length_take, length_drop. lia.
  - intros e. rewrite list_elem_of_lookup. split.
    + intros [j Hj]. apply lookup_take_Some in Hj as [Hj Hjm]. rewrite lookup_drop in Hj. exists (a + j). split; [by apply (wf_inverse _ _ H)|lia].
    + intros (i & Ei & Hi). exists (i - a). rewrite lookup_take_lt by lia. rewrite lookup_drop. replace (a + (i - a)) with i by lia. by apply (wf_inverse _ _ H).
Qed.

Lemma iterateSet_spec n p k : Wf n p -> k < length (m_sets p) ->
  exists l e, iterateSet k p = Some l /\ NoDup l /\ (forall x, x ∈ l <-> cls p x = Some k) /\ firstElementInSet k p = Some e /\ cls p e = Some k.
Proof.
  intros H Hk. destruct (lookup_lt_is_Some_2 _ _ Hk) as [s Es]. destruct (wf_sets _ _ H _ _ Es) as (H1 & H2 & H3). unfold iterateSet, firstElementInSet. rewrite Es. cbn [mbind option_bind].
  destruct (segment_spec n p (start s) (size s) H H3) as (l & -> & HD & _ & Hl). destruct (lookup_lt_is_Some_2 (m_partitionedElements p) (start s)) as [e Ee]; [rewrite (wf_elements _ _ H); lia|].
  exists l, e. split_and!; try done.
  - intros x. rewrite Hl, (wf_member _ _ H). split; [intros (i & ? & ?); by exists s, i|intros (s' & i & Es' & ? & ?)]. rewrite Es in Es'. injection Es' as <-. by exists i.
  - apply (wf_member _ _ H). exists s, (start s). split_and!; try done; try lia. by apply (wf_inverse _ _ H).
Qed.

(** ** Splitting a set *)

Lemma storeAll_spec {B : Type} (v : B) l : forall m, (forall e, e ∈ l -> e < length m) ->
  exists m', foldlM (fun m e => store e v m) m l = Some m' /\ length m' = length m /\ forall e, m' !! e = if decide (e ∈ l) then Some v else m !! e.
Proof.
  induction l as [|x l IH]; intros m Hl; cbn [foldlM]; [exists m; split_and!; try done; intros e; by rewrite decide_False by apply not_elem_of_nil|].
  rewrite store_spec by (apply Hl; left). cbn [mbind option_bind]. destruct (IH (<[x := v]> m)) as (m' & -> & Hlen & Hm).
  - intros e He. rewrite length_insert. apply Hl. by right.
  - exists m'. split_and!; [done|by rewrite Hlen, length_insert|]. intros e. rewrite Hm. destruct (decide (e ∈ l)); [rewrite decide_True by (by right); done|].
    destruct (decide (e = x)) as [->|Hne]; [rewrite decide_True by left; apply list_lookup_insert_eq, Hl; left|]. rewrite decide_False by (intros [?|?]%elem_of_cons; done). by apply list_lookup_insert_ne.
Qed.

(** The set map after the elements of one half of the set [k] have moved to a
    new set. *)
Definition Split (n k j : nat) (p p' : Partition) : Prop :=
  j = length (m_sets p) /\ length (m_sets p') = S j
  /\ (forall a, cls p' a = cls p a \/ (cls p a = Some k /\ cls p' a = Some j))
  /\ (forall a b, cls p a = Some k -> cls p b = Some k -> (cls p' a = cls p' b <-> (isMarked p a <-> isMarked p b))).

Definition Same (k : nat) (p p' : Partition) : Prop :=
  m_elementToSetMap p' = m_elementToSetMap p /\ length (m_sets p') = length (m_sets p) /\ forall a, cls p a = Some k -> isMarked p a.

Lemma isMarked_set p a k s : cls p a = Some k -> m_sets p !! k = Some s ->
  (isMarked p a <-> exists i, m_elementPositionInPartitionedNodes p !! a = Some i /\ i < start s + markedCount s).
Proof. intros Ek Es. split; [intros (k' & s' & i & Ek' & Es' & ? & ?); rewrite Ek in Ek'; injection Ek' as <-; rewrite Es in Es'; injection Es' as <-; by exists i|intros (i & ? & ?); by exists k, s, i]. Qed.

Lemma refineSet_spec n p k s : Wf n p -> m_sets p !! k = Some s -> 0 < markedCount s ->
  exists p' new, refineSet k p = Some (p', new) /\ Wf n p' /\ m_setsMarkedInCurrentGeneration p' = m_setsMarkedInCurrentGeneration p
    /\ match new with Some j => Split n k j p p' | None => Same k p p' end
    /\ (forall k' s', m_sets p' !! k' = Some s' -> markedCount s' = 0 \/ (k' <> k /\ m_sets p !! k' = Some s'))
    /\ (forall k' s', k' <> k -> m_sets p !! k' = Some s' -> m_sets p' !! k' = Some s')
    /\ m_elementPositionInPartitionedNodes p' = m_elementPositionInPartitionedNodes p.
Proof.
  intros H Es Hpos. destruct (wf_sets _ _ H _ _ Es) as (H1 & H2 & H3). pose proof (lookup_lt_Some _ _ _ Es) as Hk. unfold refineSet. rewrite Es. cbn [mbind option_bind].
  destruct (Nat.eqb_spec (markedCount s) (size s)) as [Em|Em].
  - eexists _, None. split; [reflexivity|]. set (s' := mkSet (start s) (size s) 0).
    assert (forall j, (<[k := s']> (m_sets p)) !! j = if decide (j = k) then Some s' else m_sets p !! j) as HS.
    { intros j. destruct (decide (j = k)) as [->|]; [by apply list_lookup_insert_eq|by apply list_lookup_insert_ne]. }
    split_and!; cbn [m_sets m_partitionedElements m_elementPositionInPartitionedNodes m_elementToSetMap m_setsMarkedInCurrentGeneration]; try done.
    + destruct H as [G1 G2 G3 G4 G5 G6]. split; cbn [m_sets m_partitionedElements m_elementPositionInPartitionedNodes m_elementToSetMap]; try done.
      * intros j t. rewrite HS. case_decide; [intros [= <-]; cbn; lia|apply G5].
      * intros e j. rewrite G6, HS. case_decide as Hj; [subst j|done]. rewrite Es. split; intros (t & i & [= <-] & ? & ?); [by exists s', i|by exists s, i].
    + unfold Same. cbn [m_sets m_elementToSetMap]. split; [done|]. split; [by rewrite length_insert|]. intros a Ea. apply (isMarked_set p a k s Ea Es). apply (wf_member _ _ H) in Ea as (s0 & i & Es0 & Ei & Hi). rewrite Es in Es0. injection Es0 as <-. exists i. split; [done|lia].
    + intros j t. rewrite HS. case_decide; [intros [= <-]; by left|by right].
    + intros j t Hj. rewrite HS. by rewrite decide_False.
  - set (b := (_ <=? _)%Z). set (new := if b then mkSet (start s) (markedCount s) 0 else _). set (old := mkSet _ _ _).
    assert (start s <= start new /\ 1 <= size new < size s /\ start new + size new <= start s + size s /\ markedCount new = 0) as (N1 & N2 & N3 & N4) by (unfold new; destruct b; cbn; lia).
    assert (start s <= start old /\ 1 <= size old < size s /\ start old + size old <= start s + size s /\ markedCount old = 0) as (O1 & O2 & O3 & O4) by (unfold old, new; destruct b; cbn; lia).
    assert (forall i, start s <= i < start s + size s -> (start old <= i < start old + size old <-> ~ start new <= i < start new + size new)) as Hon by (unfold old, new; destruct b; cbn; lia).
    assert (forall i, start s <= i < start s + size s -> (start new <= i < start new + size new <-> if b then i < start s + markedCount s else ~ i < start s + markedCount s)) as Hb by (unfold new; destruct b; cbn; lia).
    clearbody new old b. destruct (segment_spec n p (start new) (size new) H ltac:(lia)) as (l & -> & _ & Hll & Hl). cbn [mbind option_bind].
    destruct (storeAll_spec (length (m_sets p)) l (m_elementToSetMap p)) as (m' & -> & Hlen & Hm).
    { intros e (i & Ei & _)%Hl. rewrite (wf_map _ _ H), <- (wf_positions _ _ H). by eapply lookup_lt_Some. }
    cbn [mbind option_bind]. eexists _, (Some _). split; [reflexivity|].
    assert (forall j, (<[k := old]> (m_sets p) ++ [new]) !! j = if decide (j = k) then Some old else if decide (j = length (m_sets p)) then Some new else m_sets p !! j) as HS.
    { intros j. destruct (decide (j = k)) as [->|Hj]; [rewrite lookup_app_l by (by rewrite length_insert); by apply list_lookup_insert_eq|].
      destruct (decide (j = length (m_sets p))) as [->|Hj']; [apply list_lookup_middle; by rewrite length_insert|].
      destruct (decide (j < length (m_sets p))); [rewrite lookup_app_l by (by rewrite length_insert); by apply list_lookup_insert_ne|].
      rewrite !lookup_ge_None_2; [done|lia|rewrite length_app, length_insert; cbn; lia]. }
    assert (forall e, e ∈ l -> cls p e = Some k) as Hlk by (intros e (i & Ei & Hi)%Hl; apply (wf_member _ _ H); exists s, i; split_and!; try done; lia).
    assert (forall e, cls p e = Some k -> exists i, m_elementPositionInPartitionedNodes p !! e = Some i /\ start s <= i < start s + size s /\ (e ∈ l <-> start new <= i < start new + size new)) as Hke.
    { intros e (s0 & i & Es0 & Ei & Hi)%(wf_member _ _ H). rewrite Es in Es0. injection Es0 as <-. exists i. split_and!; try done; try lia. rewrite Hl. split; [intros (i' & Ei' & ?); congruence|intros ?; by exists i]. }
    split_and!; cbn [m_sets m_partitionedElements m_elementPositionInPartitionedNodes m_elementToSetMap m_setsMarkedInCurrentGeneration]; try done.
    + pose proof H as [G1 G2 G3 G4 G5 G6]. split; cbn [m_sets m_partitionedElements m_elementPositionInPartitionedNodes m_elementToSetMap]; try done; [congruence| |].
      * intros j t. rewrite HS. repeat case_decide; [intros [= <-]; lia|intros [= <-]; lia|apply G5].
      * intros e j. rewrite Hm, HS. destruct (decide (e ∈ l)) as [He|He].
        -- pose proof (Hlk e He) as Ek. destruct (Hke e Ek) as (i & Ei & Hi & Hel). apply Hel in He as Hin. split.
           ++ intros [= <-]. exists new, i. rewrite decide_False by lia. by rewrite decide_True.
           ++ intros (t & i' & Et & Ei' & Hi'). rewrite Ei in Ei'. injection Ei' as <-. destruct (decide (j = k)) as [->|Hj]; [injection Et as <-; exfalso; by apply (Hon i Hi)|].
              case_decide as Hj'; [by subst|]. exfalso. apply Hj. assert (cls p e = Some j) as Ej by (apply G6; by exists t, i). congruence.
        -- rewrite G6. split.
           ++ intros (t & i & Et & Ei & Hi). exists (if decide (j = k) then old else t), i. destruct (decide (j = k)) as [->|Hj].
              ** split_and!; try done; apply Hon; rewrite Es in Et; injection Et as <-; try done; intros Hin; apply He, Hl; by exists i.
              ** rewrite decide_False by (apply lookup_lt_Some in Et; lia). done.
           ++ intros (t & i & Et & Ei & Hi). destruct (decide (j = k)) as [->|Hj]; [injection Et as <-; exists s, i; split_and!; try done; lia|].
              case_decide as Hj'; [|by exists t, i]. injection Et as <-. destruct He. apply Hl. by exists i.
    + unfold Split. cbn [m_sets m_elementToSetMap]. split; [done|]. split; [rewrite length_app, length_insert; cbn; lia|]. split.
      * intros a. rewrite Hm. case_decide as Ha; [right; split; [by apply Hlk|done]|by left].
      * intros a c Ea Ec. rewrite !Hm, (isMarked_set p a k s Ea Es), (isMarked_set p c k s Ec Es). destruct (Hke a Ea) as (i & Ei & Hi & Ha), (Hke c Ec) as (i' & Ei' & Hi' & Hc).
        assert (forall (e y : nat), m_elementPositionInPartitionedNodes p !! e = Some y -> ((exists z, m_elementPositionInPartitionedNodes p !! e = Some z /\ z < start s + markedCount s) <-> y < start s + markedCount s)) as Hex.
        { intros e y Ey. rewrite Ey. split; [intros (z & [= <-] & ?); done|by exists y]. }
        rewrite (Hex a i Ei), (Hex c i' Ei'). pose proof (Hb i Hi). pose proof (Hb i' Hi'). rewrite Ea, Ec.
        assert (Some (length (m_sets p)) <> Some k) by (intros [= E]; lia).
        destruct (decide (a ∈ l)), (decide (c ∈ l)), (decide (i < start s + markedCount s)), (decide (i' < start s + markedCount s)), b; split; intros ?; first [done|congruence|tauto].
    + intros j t. rewrite HS. repeat case_decide; [intros [= <-]; by left|intros [= <-]; by left|by right].
    + intros j t Hj Ht. rewrite HS. rewrite decide_False by done. rewrite decide_False by (apply lookup_lt_Some in Ht; lia). done.
Qed.

(** What one turn of [refineGeneration] does to the sets and to the marks. *)
Record Refined (n k : nat) (p p' : Partition) : Prop := {
  ref_length : length (m_sets p) <= length (m_sets p');
  ref_inherit : forall a k', cls p' a = Some k' -> cls p a = Some k' \/ length (m_sets p) <= k';
  ref_other : forall a, cls p a <> Some k -> cls p' a = cls p a;
  ref_other' : forall a k', k' <> k -> k' < length (m_sets p) -> cls p' a = Some k' -> cls p a = Some k';
  ref_iff : forall a b, a < n -> b < n -> (cls p' a = cls p' b <-> cls p a = cls p b /\ (cls p a = Some k -> (isMarked p a <-> isMarked p b)));
  ref_marked : forall a, isMarked p' a <-> isMarked p a /\ cls p a <> Some k }.

Lemma refine_marks n p p' k : Wf n p' -> m_elementPositionInPartitionedNodes p' = m_elementPositionInPartitionedNodes p ->
  (forall k' s', m_sets p' !! k' = Some s' -> markedCount s' = 0 \/ (k' <> k /\ m_sets p !! k' = Some s')) ->
  (forall k' s', k' <> k -> m_sets p !! k' = Some s' -> m_sets p' !! k' = Some s') ->
  (forall a, cls p a <> Some k -> cls p' a = cls p a) ->
  (forall a k', k' <> k -> k' < length (m_sets p) -> cls p' a = Some k' -> cls p a = Some k') ->
  forall a, isMarked p' a <-> isMarked p a /\ cls p a <> Some k.
Proof.
  intros HW Hpos H1 H2 H3 H4 a. split.
  - intros (k' & s' & i & Ek & Es & Ei & Hi). pose proof Ek as Ek'. apply (wf_member _ _ HW) in Ek' as (s0 & i0 & Es0 & Ei0 & Hr). rewrite Es in Es0. rewrite Ei in Ei0. injection Es0 as <-. injection Ei0 as <-.
    destruct (H1 k' s' Es) as [|[Hk Es']]; [lia|]. pose proof (H4 a k' Hk ltac:(by eapply lookup_lt_Some) Ek) as Ea. rewrite Hpos in Ei. split; [by exists k', s', i|congruence].
  - intros [(k' & s' & i & Ek & Es & Ei & Hi) Hne]. exists k', s', i. rewrite (H3 a Hne), Hpos. split_and!; try done. apply H2; [congruence|done].
Qed.

Lemma split_refined n k j p p' : Wf n p -> Wf n p' -> m_elementPositionInPartitionedNodes p' = m_elementPositionInPartitionedNodes p ->
  (forall k' s', m_sets p' !! k' = Some s' -> markedCount s' = 0 \/ (k' <> k /\ m_sets p !! k' = Some s')) ->
  (forall k' s', k' <> k -> m_sets p !! k' = Some s' -> m_sets p' !! k' = Some s') -> Split n k j p p' ->
  Refined n k p p' /\ forall a b, a < n -> b < n -> (cls p' a = cls p' b <-> cls p a = cls p b /\ (cls p' a = Some j <-> cls p' b = Some j)).
Proof.
  intros HW HW' Hpos H1 H2 (Hj & Hlen & Hc & Hs).
  assert (forall a, cls p a <> Some j) as Hfresh by (intros a E; apply (cls_lt n p a j HW) in E; lia).
  assert (forall a, cls p a <> Some k -> cls p' a = cls p a) as G1 by (intros a Ha; destruct (Hc a) as [|[? _]]; done).
  assert (forall a k', k' <> k -> k' < length (m_sets p) -> cls p' a = Some k' -> cls p a = Some k') as G2.
  { intros a k' Hk Hlt E. destruct (Hc a) as [<-|[_ E']]; [done|]. rewrite E in E'. injection E' as ->. lia. }
  assert (forall a b, cls p' a = cls p' b -> cls p a = cls p b) as G3.
  { intros a b E. destruct (Hc a) as [Ea|[Ea Ea']], (Hc b) as [Eb|[Eb Eb']]; try congruence; exfalso; first [apply (Hfresh a); congruence|apply (Hfresh b); congruence]. }
  split; [split|]; try done; try lia.
  - intros a k' E. destruct (Hc a) as [<-|[_ E']]; [by left|]. right. rewrite E in E'. injection E' as ->. lia.
  - intros a b _ _. split.
    + intros E. pose proof (G3 a b E) as E0. split; [done|]. intros Ea. apply Hs; congruence.
    + intros [E0 Hm]. destruct (decide (cls p a = Some k)) as [Ea|Ea]; [apply Hs; [done|congruence|by apply Hm]|]. rewrite (G1 a Ea), (G1 b); congruence.
  - by apply (refine_marks n).
  - intros a b _ _. split; [intros E; split; [by apply G3|by rewrite E]|]. intros [E0 Hm]. destruct (Hc a) as [Ea|[Ea Ea']], (Hc b) as [Eb|[Eb Eb']]; try congruence; first [apply Hm in Eb' as Ea'; congruence|apply Hm in Ea' as Eb'; congruence].
Qed.

Lemma same_refined n k p p' : Wf n p -> Wf n p' -> m_elementPositionInPartitionedNodes p' = m_elementPositionInPartitionedNodes p ->
  (forall k' s', m_sets p' !! k' = Some s' -> markedCount s' = 0 \/ (k' <> k /\ m_sets p !! k' = Some s')) ->
  (forall k' s', k' <> k -> m_sets p !! k' = Some s' -> m_sets p' !! k' = Some s') -> Same k p p' -> Refined n k p p'.
Proof.
  intros HW HW' Hpos H1 H2 (Hc & Hlen & Ha).
  split; rewrite ?Hc, ?Hlen; try done; [by left| |by apply (refine_marks n); [..|rewrite Hc|rewrite Hc]]. intros a b _ _. split; [intros E; split; [done|]|by intros [? _]]. intros Ea. split; intros _; apply Ha; congruence.
Qed.

(** ** Refining a generation *)

Section Generation.

Context {X : Type} (function : Partition -> nat -> X -> option X) (n : nat) (Q : list nat -> X -> Prop).

(** What the function given to [refineGeneration] keeps. *)
Hypothesis function_ok : forall p p' j x, Wf n p -> Wf n p' -> Q (m_elementToSetMap p) x -> j = length (m_sets p) -> j < length (m_sets p') ->
  (forall a b, a < n -> b < n -> (cls p' a = cls p' b <-> cls p a = cls p b /\ (cls p' a = Some j <-> cls p' b = Some j))) ->
  exists x', function p' j x = Some x' /\ Q (m_elementToSetMap p') x'.

Context (p0 : Partition).
Hypothesis HW0 : Wf n p0.
Hypothesis HL0 : Listed p0.

(** Before the turns for [rest]. *)
Record Turn (rest : list nat) (p : Partition) : Prop := {
  turn_wf : Wf n p;
  turn_nodup : NoDup rest;
  turn_rest : forall k, k ∈ rest <-> exists s, m_sets p !! k = Some s /\ 0 < markedCount s;
  turn_old : forall k, k ∈ rest -> k < length (m_sets p0);
  turn_cls : forall a k, k ∈ rest -> (cls p a = Some k <-> cls p0 a = Some k);
  turn_marked : forall a, isMarked p a <-> isMarked p0 a /\ exists k, k ∈ rest /\ cls p0 a = Some k;
  turn_iff : forall a b, a < n -> b < n -> (cls p a = cls p b <-> cls p0 a = cls p0 b /\ ((exists k, k ∈ rest /\ cls p0 a = Some k) \/ (isMarked p0 a <-> isMarked p0 b)));
  turn_inherit : forall a k, cls p a = Some k -> cls p0 a = Some k \/ length (m_sets p0) <= k;
  turn_length : length (m_sets p0) <= length (m_sets p) }.

Lemma marked_listed a : isMarked p0 a -> exists k, k ∈ m_setsMarkedInCurrentGeneration p0 /\ cls p0 a = Some k.
Proof using HW0 HL0.
  intros (k & s & i & Ek & Es & Ei & Hi). exists k. split; [|done]. apply HL0. exists s. split; [done|]. apply (wf_member _ _ HW0) in Ek as (s' & i' & Es' & Ei' & Hr). rewrite Es in Es'. rewrite Ei in Ei'. injection Es' as <-. injection Ei' as <-. lia.
Qed.

Lemma turn_start : Turn (m_setsMarkedInCurrentGeneration p0) p0.
Proof using HW0 HL0.
  destruct HL0 as [HD HL]. split; try done.
  - intros k (s & Es & _)%HL. by eapply lookup_lt_Some.
  - intros a. split; [intros Ha; split; [done|by apply marked_listed]|by intros [? _]].
  - intros a b _ _. split; [intros E; split; [done|]|by intros [? _]]. destruct (cls p0 a) as [k|] eqn:Ea.
    + destruct (decide (k ∈ m_setsMarkedInCurrentGeneration p0)) as [Hk|Hk]; [left; by exists k|]. right. split; intros (k' & ? & Ek')%marked_listed; congruence.
    + right. split; intros (k' & ? & Ek')%marked_listed; congruence.
  - by left.
Qed.

Lemma turn_step k rest p p' : Turn (k :: rest) p -> Wf n p' -> Refined n k p p' ->
  (forall k' s', m_sets p' !! k' = Some s' -> markedCount s' = 0 \/ (k' <> k /\ m_sets p !! k' = Some s')) ->
  (forall k' s', k' <> k -> m_sets p !! k' = Some s' -> m_sets p' !! k' = Some s') -> Turn rest p'.
Proof.
  intros [T1 T2 T3 T4 T5 T6 T7 T8 T9] HW' [R1 R2 R3 R3' R4 R5] H1 H2. apply NoDup_cons in T2 as [Hk T2]. split; try done.
  - intros k'. split.
    + intros Hk'. destruct (proj1 (T3 k') ltac:(by right)) as (s & Es & Hp). exists s. split; [|done]. apply H2; [intros ->; done|done].
    + intros (s & Es & Hp). destruct (H1 k' s Es) as [|[Hne Es']]; [lia|]. assert (k' ∈ k :: rest) as [|]%elem_of_cons by (apply T3; by exists s); done.
  - intros k' Hk'. apply T4. by right.
  - intros a k' Hk'. rewrite <- (T5 a k') by (by right). assert (k' <> k) as Hne by (intros ->; done). split.
    + apply R3'; [done|]. specialize (T4 k' ltac:(by right)). lia.
    + intros E. rewrite R3; congruence.
  - intros a. rewrite R5, T6. split.
    + intros [[Ha (k' & Hk' & E)] Hne]. split; [done|]. exists k'. apply elem_of_cons in Hk' as [->|]; [|done]. exfalso. apply Hne, T5; [left|done].
    + intros [Ha (k' & Hk' & E)]. split; [split; [done|exists k'; split; [by right|done]]|]. rewrite T5 by left. intros E'. rewrite E in E'. injection E' as ->. done.
  - intros a b Ha Hb. rewrite R4, T7 by done. assert (forall x, cls p x = Some k -> (isMarked p x <-> isMarked p0 x)) as HM.
    { intros x Ex. rewrite T6. split; [by intros [? _]|]. intros ?. split; [done|]. exists k. split; [left|]. apply T5; [left|done]. }
    split.
    + intros [[E Ho] Hm]. split; [done|]. destruct Ho as [(k' & Hk' & Ek')|]; [|by right]. apply elem_of_cons in Hk' as [->|]; [|left; by exists k'].
      right. assert (cls p a = Some k) as Ea by (apply T5; [left|done]). assert (cls p b = Some k) as Eb by (apply T5; [left|congruence]). rewrite <- (HM a Ea), <- (HM b Eb). by apply Hm.
    + intros [E Ho]. split; [split; [done|]|].
      * destruct Ho as [(k' & Hk' & Ek')|]; [left; exists k'; split; [by right|done]|by right].
      * intros Ea. assert (cls p0 a = Some k) as Ea0 by (apply T5; [left|done]). assert (cls p b = Some k) as Eb by (apply T5; [left|congruence]). rewrite (HM a Ea), (HM b Eb).
        destruct Ho as [(k' & Hk' & Ek')|]; [|done]. rewrite Ea0 in Ek'. injection Ek' as ->. done.
  - intros a k' E. destruct (R2 a k' E) as [E'|]; [by apply T8|right; lia].
  - lia.
Qed.

Lemma refineGeneration_spec x0 : Q (m_elementToSetMap p0) x0 ->
  exists p' x', refineGeneration function p0 x0 = Some (p', x') /\ Wf n p' /\ Clean p' /\ Q (m_elementToSetMap p') x'
    /\ (forall a b, a < n -> b < n -> (cls p' a = cls p' b <-> cls p0 a = cls p0 b /\ (isMarked p0 a <-> isMarked p0 b)))
    /\ (forall a k, cls p' a = Some k -> cls p0 a = Some k \/ length (m_sets p0) <= k) /\ length (m_sets p0) <= length (m_sets p').
Proof using function_ok HW0 HL0.
  intros HQ. unfold refineGeneration.
  edestruct (foldlM_inv (fun '(p, x) setIndex => '(p, newSet) ← refineSet setIndex p; x ← (match newSet with Some newSetIndex => function p newSetIndex x | None => Some x end); Some (p, x))
    (fun rest '(p, x) => Turn rest p /\ Q (m_elementToSetMap p) x)) as ([p' x'] & -> & HT & HQ').
  - intros k rest [p x] [HT HQx]. destruct (proj1 (turn_rest _ _ HT k) ltac:(left)) as (s & Es & Hp). pose proof (turn_wf _ _ HT) as HW.
    destruct (refineSet_spec n p k s HW Es Hp) as (p' & new & -> & HW' & _ & HN & H1 & H2 & Hpos). cbn [mbind option_bind]. destruct new as [j|].
    + destruct (split_refined n k j p p' HW HW' Hpos H1 H2 HN) as [HR Hiff]. destruct HN as (Hj & Hlen & _). destruct (function_ok p p' j x HW HW' HQx Hj ltac:(lia) Hiff) as (x' & -> & HQx'). cbn [mbind option_bind].
      exists (p', x'). split; [done|]. split; [by eapply turn_step|done].
    + pose proof (same_refined n k p p' HW HW' Hpos H1 H2 HN) as HR. destruct HN as (Hc & _). cbn [mbind option_bind]. exists (p', x). split; [done|]. split; [by eapply turn_step|by rewrite Hc].
  - split; [apply turn_start|exact HQ].
  - cbn [mbind option_bind]. exists (clearMarked p'), x'. split; [done|]. pose proof HT as [T1 T2 T3 T4 T5 T6 T7 T8 T9].
    assert (forall k, k ∉ @nil nat) as Hnil by (intros k; apply not_elem_of_nil). unfold clearMarked. cbn [m_sets m_elementToSetMap]. split_and!; try done.
    + destruct T1. by split.
    + split; [done|]. cbn [m_sets]. intros k s Es. destruct (decide (markedCount s = 0)); [done|]. exfalso. apply (Hnil k), T3. exists s. split; [done|lia].
    + intros a b Ha Hb. rewrite T7 by done. split; [intros [? [(k & Hk & _)|?]]; [by apply Hnil in Hk|done]|]. intros [? ?]. split; [done|by right].
Qed.

End Generation.

(** ** Nodes and transitions *)

Lemma foldlM_bind {S B C : Type} (f : S -> C -> option S) (g : B -> option (list C)) (h : B -> list C) l : (forall x, x ∈ l -> g x = Some (h x)) ->
  forall s, foldlM (fun s x => cs ← g x; foldlM f s cs) s l = foldlM f s (concat (h <$> l)).
Proof.
  induction l as [|x l IH]; intros Hl s; [done|]. cbn [foldlM fmap list_fmap concat]. rewrite foldlM_app, (Hl x) by left. cbn [mbind option_bind].
  destruct (foldlM f s (h x)) as [s'|]; cbn [mbind option_bind]; [|done]. apply IH. intros y Hy. apply Hl. by right.
Qed.

Lemma foldlM_ext {S B : Type} (f g : S -> B -> option S) l : (forall x s, x ∈ l -> f s x = g s x) -> forall s, foldlM f s l = foldlM g s l.
Proof.
  induction l as [|x l IH]; intros H s; cbn [foldlM]; [done|]. rewrite (H x s) by left. destruct (g s x) as [s'|]; cbn [mbind option_bind]; [|done]. apply IH. intros y s1 Hy. apply H. by right.
Qed.

(** There are at most as many sets as elements. *)
Lemma sets_bound n p : Wf n p -> length (m_sets p) <= n.
Proof.
  intros H. assert (forall k s, m_sets p !! k = Some s -> exists e, m_elementPositionInPartitionedNodes p !! e = Some (start s) /\ cls p e = Some k) as Hf.
  { intros k s Es. destruct (wf_sets _ _ H k s Es) as (H1 & H2 & H3). destruct (lookup_lt_is_Some_2 (m_partitionedElements p) (start s)) as [e Ee]; [rewrite (wf_elements _ _ H); lia|].
    apply (wf_inverse _ _ H) in Ee. exists e. split; [done|]. apply (wf_member _ _ H). exists s, (start s). split_and!; try done; lia. }
  assert (start <$> m_sets p ⊆+ seq 0 n) as Hsub.
  - apply NoDup_submseteq.
    + apply NoDup_alt. intros i j x Hi Hj. apply list_lookup_fmap_Some in Hi as (s1 & Hx & Es1). apply list_lookup_fmap_Some in Hj as (s2 & Hx' & Es2).
      destruct (Hf i s1 Es1) as (e1 & P1 & C1), (Hf j s2 Es2) as (e2 & P2 & C2). assert (e1 = e2) as <- by (apply (position_inj n p e1 e2 x H); congruence). congruence.
    + intros x (s & -> & Hs)%list_elem_of_fmap. apply list_elem_of_lookup in Hs as [k Es]. destruct (wf_sets _ _ H k s Es) as (H1 & H2 & H3). apply elem_of_seq. lia.
  - apply submseteq_length in Hsub. by rewrite length_fmap, length_seq in Hsub.
Qed.

Section Graph.

Context (n m : nat) (starts sizes flat : list nat) (src tgt sym : nat -> nat).

Hypothesis src_ok : forall t, t < m -> flat !! t = Some (src t) /\ src t < n.
Hypothesis tgt_ok : forall t, t < m -> tgt t < n.
Hypothesis incoming_ok : forall v, v < n -> exists a b, starts !! v = Some a /\ sizes !! v = Some b /\ forall t, a <= t < a + b <-> t < m /\ tgt t = v.
Hypothesis deterministic : forall t t', t < m -> t' < m -> src t = src t' -> sym t = sym t' -> t = t'.

(** ** Splitting the transitions *)

Definition incoming (v : nat) : list nat := seq (default 0 (starts !! v)) (default 0 (sizes !! v)).

Lemma elem_incoming v t : v < n -> (t ∈ incoming v <-> t < m /\ tgt t = v).
Proof using incoming_ok. intros Hv. destruct (incoming_ok v Hv) as (a & b & Ea & Eb & H). unfold incoming. rewrite Ea, Eb. cbn [default id]. by rewrite elem_of_seq, H. Qed.

Lemma NoDup_incoming l : NoDup l -> (forall v, v ∈ l -> v < n) -> NoDup (concat (incoming <$> l)) /\ forall t, t ∈ concat (incoming <$> l) <-> t < m /\ tgt t ∈ l.
Proof using incoming_ok.
  induction l as [|v l IH]; intros HD Hl; cbn [fmap list_fmap concat]; [split; [constructor|]; intros t; rewrite !elem_of_nil; tauto|]. apply NoDup_cons in HD as [Hv HD].
  destruct (IH HD) as [IH1 IH2]; [intros x Hx; apply Hl; by right|]. assert (v < n) as Hvn by (apply Hl; left). split.
  - apply NoDup_app. split_and!; [apply NoDup_seq| |done]. intros t Ht [_ Ht']%IH2. apply elem_incoming in Ht as [_ <-]; done.
  - intros t. rewrite elem_of_app, IH2, elem_incoming, elem_of_cons by done. tauto.
Qed.

Lemma splitTransitions_spec np j tp : Wf n np -> Wf m tp -> Clean tp -> j < length (m_sets np) ->
  exists tp', splitTransitions starts sizes np j tp = Some tp' /\ Wf m tp' /\ Clean tp'
    /\ (forall t t', t < m -> t' < m -> (cls tp' t = cls tp' t' <-> cls tp t = cls tp t' /\ (cls np (tgt t) = Some j <-> cls np (tgt t') = Some j)))
    /\ (forall t k, cls tp' t = Some k -> cls tp t = Some k \/ length (m_sets tp) <= k) /\ length (m_sets tp) <= length (m_sets tp').
Proof using incoming_ok.
  intros HN HT HC Hj. unfold splitTransitions. destruct (iterateSet_spec n np j HN Hj) as (l & e & -> & HD & Hl & _). cbn [mbind option_bind].
  assert (forall v, v ∈ l -> v < n) as Hln by (intros v Hv%Hl; by apply (cls_lt n np v j HN)). destruct (NoDup_incoming l HD Hln) as [HD' Hin].
  rewrite (foldlM_ext _ (fun tp v => ts ← Some (incoming v); foldlM (fun tp i => markElementInCurrentGeneration i tp) tp ts)).
  2:{ intros v s Hv. destruct (incoming_ok v (Hln v Hv)) as (a & b & Ea & Eb & _). unfold incoming. by rewrite Ea, Eb. }
  rewrite (foldlM_bind _ (fun v => Some (incoming v)) incoming) by done.
  destruct (markAll_spec m (concat (incoming <$> l)) tp HT (clean_listed _ HC) HD') as (tp1 & -> & HW1 & HL1 & E1 & E2 & HM).
  { intros t [Ht _]%Hin. split; [done|by apply (clean_unmarked m)]. }
  cbn [mbind option_bind]. destruct (refineGeneration_spec (fun _ _ (_ : unit) => Some tt) m (fun _ _ => True) ltac:(by exists tt) tp1 HW1 HL1 tt I) as (tp2 & [] & -> & HW2 & HC2 & _ & Hiff & Hinh & Hlen).
  cbn [mbind option_bind]. exists tp2. rewrite E1, E2 in *. split_and!; try done. intros t t' Ht Ht'. rewrite Hiff by done. rewrite !HM, !Hin, !Hl.
  pose proof (clean_unmarked m tp t HT HC). pose proof (clean_unmarked m tp t' HT HC). tauto.
Qed.

(** ** [refinePartitions] *)

(** The transition partition [tp], from [tp0], for the set map of the nodes. *)
Record Follows (tp0 : Partition) (setMap : list nat) (tp : Partition) : Prop := {
  fo_wf : Wf m tp;
  fo_clean : Clean tp;
  fo_iff : forall t t', t < m -> t' < m -> (cls tp t = cls tp t' <-> cls tp0 t = cls tp0 t' /\ setMap !! tgt t = setMap !! tgt t');
  fo_inherit : forall t k, cls tp t = Some k -> cls tp0 t = Some k \/ length (m_sets tp0) <= k;
  fo_length : length (m_sets tp0) <= length (m_sets tp) }.

Lemma refinePartitions_spec np tp next : Wf n np -> Listed np -> Wf m tp -> Clean tp ->
  (forall t t', t < m -> t' < m -> cls tp t = cls tp t' -> cls np (tgt t) = cls np (tgt t')) ->
  exists np' tp', refinePartitions (mkFull starts sizes flat np tp next) = Some (mkFull starts sizes flat np' tp' next) /\ Wf n np' /\ Clean np'
    /\ (forall a b, a < n -> b < n -> (cls np' a = cls np' b <-> cls np a = cls np b /\ (isMarked np a <-> isMarked np b))) /\ Follows tp (m_elementToSetMap np') tp'.
Proof using tgt_ok incoming_ok.
  intros HN HL HT HC HJ. unfold refinePartitions. cbn [m_flattenedTransitionsStartOffsetPerNode m_flattenedTransitionsSizePerNode m_flattenedTransitions m_nodePartition m_transitionPartition m_nextTransitionSetToProcess].
  destruct (refineGeneration_spec (splitTransitions starts sizes) n (Follows tp)) with (p0 := np) (x0 := tp) as (np' & tp' & -> & HW' & HC' & HQ & Hiff & _ & _).
  - intros p p' j tp1 HW HW' [F1 F2 F3 F4 F5] Hj Hlt Hp. destruct (splitTransitions_spec p' j tp1 HW' F1 F2 Hlt) as (tp2 & -> & G1 & G2 & G3 & G4 & G5). exists tp2. split; [done|]. split; try done.
    + intros t t' Ht Ht'. rewrite G3, F3, Hp by first [done|by apply tgt_ok]. tauto.
    + intros t k E. destruct (G4 t k E) as [E'|]; [by apply F4|right; lia].
    + lia.
  - done.
  - done.
  - split; try done; [|by left]. intros t t' Ht Ht'. split; [intros E; split; [done|by apply HJ]|by intros [? _]].
  - cbn [mbind option_bind]. exists np', tp'. split_and!; try done.
Qed.

(** ** The invariant of the loop *)

Context (E : nat -> nat -> Prop).
Hypothesis E_sym : forall a b, E a b -> E b a.
Hypothesis E_lt : forall a b, E a b -> a < n /\ b < n.
Hypothesis E_step : forall a b t, E a b -> t < m -> src t = a -> exists t', t' < m /\ src t' = b /\ sym t' = sym t /\ E (tgt t) (tgt t').

(** Nodes that are together have both a transition in [X], or none. *)
Definition Stable (np : Partition) (X : nat -> Prop) : Prop :=
  forall a b t, a < n -> b < n -> cls np a = cls np b -> t < m -> X t -> src t = a -> exists t', t' < m /\ X t' /\ src t' = b.

(** A set of transitions that has been processed: with some of the sets still
    to be processed it is stable. *)
Record Processed (next i : nat) (np tp : Partition) (X : nat -> Prop) : Prop := {
  pr_set : forall t, cls tp t = Some i -> X t;
  pr_rest : forall t k, X t -> cls tp t = Some k -> k = i \/ next <= k;
  pr_closed : forall t t', cls tp t = cls tp t' -> X t -> X t';
  pr_sym : forall t t', X t -> X t' -> sym t = sym t';
  pr_dec : forall t, X t \/ ~ X t;
  pr_stable : Stable np X }.

Record Main (next : nat) (np tp : Partition) : Prop := {
  main_nodes : Wf n np;
  main_nodes_clean : Clean np;
  main_transitions : Wf m tp;
  main_transitions_clean : Clean tp;
  main_sym : forall t t', t < m -> t' < m -> cls tp t = cls tp t' -> sym t = sym t';
  main_target : forall t t', t < m -> t' < m -> cls tp t = cls tp t' -> cls np (tgt t) = cls np (tgt t');
  main_processed : forall i, i < next -> exists X, Processed next i np tp X;
  main_nodes_kept : forall a b, E a b -> cls np a = cls np b;
  main_transitions_kept : forall t t', t < m -> t' < m -> sym t = sym t' -> E (tgt t) (tgt t') -> cls tp t = cls tp t';
  main_next : next <= length (m_sets tp) }.

(** Marked with a set of nodes that the relation respects, and refined. *)
Lemma refine_marked next np tp l np1 : Main next np tp -> foldlM (fun p e => markElementInCurrentGeneration e p) np l = Some np1 ->
  NoDup l -> (forall v, v ∈ l -> v < n) -> (forall a b, E a b -> a ∈ l -> b ∈ l) ->
  exists np' tp', refinePartitions (mkFull starts sizes flat np1 tp next) = Some (mkFull starts sizes flat np' tp' next) /\ Main next np' tp'
    /\ (forall a b, a < n -> b < n -> (cls np' a = cls np' b <-> cls np a = cls np b /\ (a ∈ l <-> b ∈ l))) /\ Follows tp (m_elementToSetMap np') tp'.
Proof using tgt_ok incoming_ok E_sym E_lt.
  intros [M1 M2 M3 M4 M5 M6 M7 M8 M9 M10] Hmark HD Hl HE. destruct (markAll_spec n l np M1 (clean_listed _ M2) HD) as (p1 & E1 & HW1 & HL1 & Ec & _ & HM).
  { intros v Hv. split; [by apply Hl|by apply (clean_unmarked n)]. }
  rewrite E1 in Hmark. injection Hmark as ->. destruct (refinePartitions_spec np1 tp next HW1 HL1 M3 M4) as (np' & tp' & HR & HW' & HC' & Hiff & HF); [by rewrite Ec|].
  assert (forall a b, a < n -> b < n -> (cls np' a = cls np' b <-> cls np a = cls np b /\ (a ∈ l <-> b ∈ l))) as Hn.
  { intros a b Ha Hb. rewrite Hiff by done. rewrite Ec, !HM. pose proof (clean_unmarked n np a M1 M2). pose proof (clean_unmarked n np b M1 M2). tauto. }
  exists np', tp'. split_and!; try done. pose proof HF as [F1 F2 F3 F4 F5]. assert (forall a b, E a b -> cls np' a = cls np' b) as HE'.
  { intros a b Hab. destruct (E_lt a b Hab). apply Hn; [done|done|]. split; [by apply M8|]. split; intros ?; [by apply (HE a)|apply (HE b); [by apply E_sym|done]]. }
  split; try done.
  - intros t t' Ht Ht' Ht2. apply M5; [done|done|]. by apply F3.
  - intros t t' Ht Ht' Ht2. by apply F3.
  - intros i Hi. destruct (M7 i Hi) as (X & [P1 P2 P3 P4 P5 P6]). exists X. split; try done.
    + intros t Et. apply P1. destruct (F4 t i Et) as [|]; [done|lia].
    + intros t k HX Et. destruct (F4 t k Et) as [Et'|]; [by apply (P2 t)|right; lia].
    + intros t t' Et HX. destruct (decide (t < m)) as [Ht|Ht], (decide (t' < m)) as [Ht'|Ht'].
      * apply (P3 t); [by apply F3|done].
      * exfalso. destruct (wf_cls m tp' t F1 Ht) as (k & _ & _ & Ek & _). rewrite Ek in Et. symmetry in Et. apply (cls_lt m tp' t' k F1) in Et. lia.
      * exfalso. destruct (wf_cls m tp' t' F1 Ht') as (k & _ & _ & Ek & _). rewrite Ek in Et. apply (cls_lt m tp' t k F1) in Et. lia.
      * apply (P3 t); [|done]. rewrite !lookup_ge_None_2; [done|rewrite (wf_map _ _ M3); lia..].
    + intros a b t Ha Hb Eab. apply P6; [done|done|]. by apply Hn.
  - intros t t' Ht Ht' Hs Hab. apply F3; [done|done|]. split; [by apply M9|by apply HE'].
  - lia.
Qed.

(** ** One set of transitions *)

Lemma NoDup_fmap_on {B C : Type} (f : B -> C) (l : list B) : (forall x y, x ∈ l -> y ∈ l -> f x = f y -> x = y) -> NoDup l -> NoDup (f <$> l).
Proof.
  intros Hf. induction 1 as [|x l Hx HD IH]; cbn; constructor.
  - intros (y & E' & Hy)%list_elem_of_fmap. apply Hx. assert (x = y) as ->; [|done]. apply Hf; [left|by right|done].
  - apply IH. intros y z Hy Hz. apply Hf; by right.
Qed.

Lemma markSources_spec l np tp next : (forall t, t ∈ l -> t < m) ->
  foldlM (fun g transitionIndex => sourceNodeIndex ← m_flattenedTransitions g !! transitionIndex; markNode sourceNodeIndex g) (mkFull starts sizes flat np tp next) l
  = (np' ← foldlM (fun p e => markElementInCurrentGeneration e p) np (src <$> l); Some (mkFull starts sizes flat np' tp next)).
Proof using src_ok.
  revert np. induction l as [|t l IH]; intros np Hl; [done|]. cbn [foldlM fmap list_fmap m_flattenedTransitions]. destruct (src_ok t (Hl t ltac:(left))) as [-> _]. cbn [mbind option_bind].
  unfold markNode. cbn [m_nodePartition m_flattenedTransitionsStartOffsetPerNode m_flattenedTransitionsSizePerNode m_flattenedTransitions m_transitionPartition m_nextTransitionSetToProcess].
  destruct (markElementInCurrentGeneration (src t) np) as [np1|]; cbn [mbind option_bind]; [|done]. apply IH. intros x Hx. apply Hl. by right.
Qed.

Lemma splitByTransitionSet_spec next np tp : Main next np tp -> next < length (m_sets tp) ->
  exists np' tp', splitByTransitionSet (mkFull starts sizes flat np tp next) = Some (mkFull starts sizes flat np' tp' (S next)) /\ Main (S next) np' tp'
    /\ (forall a b, a < n -> b < n -> cls np' a = cls np' b -> cls np a = cls np b).
Proof using src_ok tgt_ok incoming_ok deterministic E_sym E_lt E_step.
  intros HM Hnext. pose proof HM as [M1 M2 M3 M4 M5 M6 M7 M8 M9 M10]. unfold splitByTransitionSet. cbn [m_nextTransitionSetToProcess m_transitionPartition].
  destruct (iterateSet_spec m tp next M3 Hnext) as (l & _ & -> & HD & Hl & _). cbn [mbind option_bind]. assert (forall t, t ∈ l -> t < m) as Hlm by (intros t Ht%Hl; by apply (cls_lt m tp t next M3)).
  rewrite (markSources_spec l np tp next Hlm). assert (forall t t', t ∈ l -> t' ∈ l -> sym t = sym t') as Hsym by (intros t t' Ht Ht'; apply M5; [by apply Hlm|by apply Hlm|]; rewrite Hl in Ht, Ht'; congruence).
  assert (NoDup (src <$> l)) as HDs by (apply NoDup_fmap_on; [|done]; intros t t' Ht Ht' Es; apply deterministic; auto).
  assert (forall v, v ∈ src <$> l -> v < n) as Hlt by (intros v (t & -> & Ht)%list_elem_of_fmap; by apply src_ok, Hlm).
  destruct (markAll_spec n (src <$> l) np M1 (clean_listed _ M2) HDs) as (np1 & E1 & _); [intros v Hv; split; [by apply Hlt|by apply (clean_unmarked n)]|]. rewrite E1. cbn [mbind option_bind].
  destruct (refine_marked next np tp (src <$> l) np1 HM E1 HDs Hlt) as (np' & tp' & -> & HM' & Hiff & HF).
  { intros a b Hab (t & -> & Ht)%list_elem_of_fmap. destruct (E_step _ _ t Hab (Hlm t Ht) eq_refl) as (t' & Ht' & <- & Hs & Ht2). apply list_elem_of_fmap_2. apply Hl. rewrite <- (M9 t t'); [by apply Hl|by apply Hlm|done|done|done]. }
  cbn [mbind option_bind m_flattenedTransitionsStartOffsetPerNode m_flattenedTransitionsSizePerNode m_flattenedTransitions m_nodePartition m_transitionPartition m_nextTransitionSetToProcess].
  exists np', tp'. split; [done|]. split; [|intros a b Ha Hb Eab; by apply Hiff]. clear M7 M8 M9.
  pose proof HF as [F1 F2 F3 F4 F5]. destruct HM' as [N1 N2 N3 N4 N5 N6 _ N8 N9 N10]. split; try done; [|lia].
  assert (forall a b, a < n -> b < n -> cls np' a = cls np' b -> (a ∈ src <$> l <-> b ∈ src <$> l)) as Hsrc by (intros a b Ha Hb Eab; by apply Hiff).
  intros i Hi. destruct (decide (i = next)) as [->|Hne].
  - exists (fun t => t ∈ l). split; try done.
    + intros t Et. apply Hl. destruct (F4 t next Et); [done|lia].
    + intros t k Ht Ek. destruct (F4 t k Ek) as [Ek'|]; [|right; lia]. apply Hl in Ht. left. congruence.
    + intros t t' Et Ht. pose proof (Hlm t Ht) as Htm. destruct (decide (t' < m)) as [Ht'|Ht']; [|exfalso; rewrite (lookup_ge_None_2 _ t') in Et by (rewrite (wf_map _ _ F1); lia); destruct (wf_cls m tp' t F1 Htm) as (k & _ & _ & Ek & _); congruence].
      apply F3 in Et as [Et _]; [|done|done]. apply Hl. rewrite <- Et. by apply Hl.
    + intros t. destruct (decide (t ∈ l)); [by left|by right].
    + intros a b t Ha Hb Eab Htm Ht Es. assert (b ∈ src <$> l) as (t' & -> & Ht')%list_elem_of_fmap; [|exists t'; split_and!; [by apply Hlm|done|done]]. apply (Hsrc a b Ha Hb Eab). subst a. by apply list_elem_of_fmap_2.
  - destruct (main_processed _ _ _ HM i ltac:(lia)) as (X & [P1 P2 P3 P4 P5 P6]). exists (fun t => X t /\ t ∉ l). split.
    + intros t Et. destruct (F4 t i Et) as [Et'|]; [|lia]. split; [by apply P1|]. intros Ht%Hl. congruence.
    + intros t k [HX Ht] Ek. destruct (F4 t k Ek) as [Ek'|]; [|right; lia]. destruct (P2 t k HX Ek') as [|Hk]; [by left|]. right. destruct (decide (k = next)) as [->|]; [|lia]. destruct Ht. by apply Hl.
    + intros t t' Et [HX Ht]. destruct (decide (t < m)) as [Htm|Htm], (decide (t' < m)) as [Htm'|Htm'].
      * apply F3 in Et as [Et _]; [|done|done]. split; [by apply (P3 t)|]. intros Ht'%Hl. apply Ht, Hl. congruence.
      * exfalso. rewrite (lookup_ge_None_2 _ t') in Et by (rewrite (wf_map _ _ F1); lia). destruct (wf_cls m tp' t F1 Htm) as (k & _ & _ & Ek & _). congruence.
      * exfalso. rewrite (lookup_ge_None_2 _ t) in Et by (rewrite (wf_map _ _ F1); lia). destruct (wf_cls m tp' t' F1 Htm') as (k & _ & _ & Ek & _). congruence.
      * split; [apply (P3 t); [rewrite !lookup_ge_None_2; [done|rewrite (wf_map _ _ M3); lia..]|done]|]. intros Ht'. by apply Htm', Hlm.
    + intros t t' [HX _] [HX' _]. by apply P4.
    + intros t. destruct (P5 t) as [HX|HX]; [|right; tauto]. destruct (decide (t ∈ l)); [right; tauto|left; tauto].
    + intros a b t Ha Hb Eab Htm [HX Ht] Es. destruct (P6 a b t Ha Hb ltac:(by apply Hiff) Htm HX Es) as (t' & Htm' & HX' & Es'). exists t'. split; [done|]. split; [|done]. split; [done|]. intros Ht'.
      assert (a ∈ src <$> l) as (t2 & Es2 & Ht2)%list_elem_of_fmap by (apply (Hsrc a b Ha Hb Eab); subst b; by apply list_elem_of_fmap_2).
      apply Ht. rewrite (deterministic t t2 Htm (Hlm t2 Ht2)); [done|congruence|]. rewrite (P4 t t' HX HX'). by apply Hsym.
Qed.

(** ** The loop *)

(** Nodes that are together agree on their transitions. *)
Definition Coarse (np : Partition) : Prop :=
  Wf n np /\ (forall a b, E a b -> cls np a = cls np b)
  /\ forall a b t, a < n -> b < n -> cls np a = cls np b -> t < m -> src t = a -> exists t', t' < m /\ src t' = b /\ sym t' = sym t /\ cls np (tgt t') = cls np (tgt t).

Lemma main_coarse next np tp : Main next np tp -> length (m_sets tp) <= next -> Coarse np.
Proof.
  intros HM Hle. destruct HM as [M1 M2 M3 M4 M5 M6 M7 M8 M9 M10]. split; [done|]. split; [done|]. intros a b t Ha Hb Eab Ht Es. destruct (wf_cls m tp t M3 Ht) as (i & _ & _ & Ei & _).
  destruct (cls_lt m tp t i M3 Ei) as [_ Hi]. destruct (M7 i ltac:(lia)) as (X & [P1 P2 P3 P4 P5 P6]). destruct (P6 a b t Ha Hb Eab Ht (P1 t Ei) Es) as (t' & Ht' & HX & Es').
  destruct (wf_cls m tp t' M3 Ht') as (k & _ & _ & Ek & _). destruct (cls_lt m tp t' k M3 Ek) as [_ Hk]. assert (k = i) as -> by (destruct (P2 t' k HX Ek); [done|lia]).
  exists t'. split_and!; try done; [apply M5|apply M6]; try done; congruence.
Qed.

Lemma splitLoop_spec fuel : forall next np tp, Main next np tp -> m - next < fuel ->
  exists np' tp' next', splitLoop fuel (mkFull starts sizes flat np tp next) = Some (mkFull starts sizes flat np' tp' next') /\ Coarse np'
    /\ (forall a b, a < n -> b < n -> cls np' a = cls np' b -> cls np a = cls np b).
Proof using src_ok tgt_ok incoming_ok deterministic E_sym E_lt E_step.
  induction fuel as [|fuel IH]; intros next np tp HM Hf; [lia|]. cbn [splitLoop m_nextTransitionSetToProcess m_transitionPartition]. unfold partition_size. case_bool_decide as Hlt.
  - destruct (splitByTransitionSet_spec next np tp HM Hlt) as (np1 & tp1 & -> & HM1 & Hr). cbn [mbind option_bind]. pose proof (sets_bound m tp (main_transitions _ _ _ HM)) as Hb.
    destruct (IH (S next) np1 tp1 HM1 ltac:(lia)) as (np2 & tp2 & next2 & -> & HC & Hr2). exists np2, tp2, next2. split_and!; try done. intros a b Ha Hb' Eab. by apply Hr, Hr2.
  - exists np, tp, next. split_and!; try done. eapply main_coarse; [done|lia].
Qed.

End Graph.
