(* ===== verification/DFASingular.v ===== *)
(** * DFASingular: the symbols of an automaton, and its transitions by symbol

    The ranges of all nodes cut the characters into singular ranges, inside
    which every node goes to one node or nowhere.  The tables of the minimizer
    list each singular range of each node once, by target and by range. *)

From stdpp Require Import gmap.
From S2P Require Import Prelude DFA DFATransitions MutableRangeList MutableRangeListCorrect DFAMinimizer DFAPartition.
Import MutableRangeList DFAMinimizer.

#[local] Open Scope Z_scope.

(** ** Range lists do not look at their data *)

Section Map.

Context {D D' A A' : Type} (h : D -> D') (g : A -> A').
Context (convert : A -> option D) (extendData : D -> A -> option D) (convert' : A' -> option D') (extendData' : D' -> A' -> option D').
Hypothesis convert_map : forall a, convert' (g a) = h <$> convert a.
Hypothesis extend_map : forall d a, extendData' (h d) (g a) = h <$> extendData d a.

Definition mapRange (r : MutableRange D) : MutableRange D' := mkRange (h (data r)) (nextRangeIndex r) (first r) (last r).
#[local] Notation mapRanges := (fmap (M := list) mapRange).
Definition mapSpan (s : Span A) : Span A' := mkSpan (lo s) (hi s) (g (val s)).
Definition mapCursor (c : Cursor) : @Cursor D' A' := mkCursor (mapRange <$> ranges c) (lastSelf c) (self c) (mapSpan <$> others c) (offset c).

Lemma newRange_map d n f l : newRange (h d) n f l = mapRange <$> newRange d n f l.
Proof. unfold newRange, guard. by case_decide. Qed.

Lemma appendRange_map rs li f l d : appendRange (mapRanges rs) li f l (h d) = (fun '(rs, i) => (mapRanges rs, i)) <$> appendRange rs li f l d.
Proof.
  unfold appendRange. rewrite newRange_map, length_fmap. destruct (newRange d 0 f l) as [new|]; [|done]. cbn [mbind option_bind fmap option_fmap option_map]. case_bool_decide.
  - cbn. by rewrite fmap_app.
  - rewrite list_lookup_fmap. destruct (rs !! li) as [r|]; [|done]. cbn [mbind option_bind fmap option_fmap option_map mapRange nextRangeIndex last]. unfold guard. repeat case_decide; try done.
    cbn. by rewrite list_fmap_insert, fmap_app.
Qed.

Lemma insertBetween_map rs li ri f l d :
  insertBetween (mapRanges rs) li ri f l (h d) = (fun '(rs, a, b) => (mapRanges rs, a, b)) <$> insertBetween rs li ri f l d.
Proof.
  unfold insertBetween. rewrite (list_lookup_fmap mapRange rs ri). destruct (rs !! ri) as [r|]; [|done]. cbn [mbind option_bind fmap option_fmap option_map mapRange data nextRangeIndex first last].
  destruct (decide (l < first r)) as [Hl|Hl]; [rewrite !option_guard_True by done|by rewrite !option_guard_False by done]. cbn [mbind option_bind]. rewrite !length_fmap, !newRange_map. case_bool_decide.
  - destruct (newRange (data r) _ _ _) as [moved|]; [|done]. cbn [mbind option_bind fmap option_fmap option_map]. destruct (newRange d _ _ _) as [new|]; [|done]. cbn. by rewrite list_fmap_insert, fmap_app.
  - rewrite list_lookup_fmap. destruct (rs !! li) as [r'|]; [|done]. cbn [mbind option_bind fmap option_fmap option_map mapRange data nextRangeIndex first last]. unfold guard. repeat case_decide; try done.
    cbn [mbind option_bind]. destruct (newRange d _ _ _) as [new|]; [|done]. cbn. by rewrite list_fmap_insert, fmap_app.
Qed.

Lemma alignStarts_map c other : alignStarts convert' (mapCursor c) (mapSpan other) = mapCursor <$> alignStarts convert c other.
Proof using convert_map.
  unfold alignStarts. cbn [mapCursor ranges self lastSelf others offset mapSpan lo hi val]. rewrite list_lookup_fmap. destruct (ranges c !! self c) as [r|]; [|done]. cbn [mbind option_bind fmap option_fmap option_map mapRange data nextRangeIndex first last].
  destruct (first r <? lo other + offset c); [|destruct (lo other + offset c <? first r); [|done]].
  - destruct (toChar (lo other + offset c)) as [f|]; [|done]. cbn [mbind option_bind]. destruct (toChar _) as [l|]; [|done]. cbn [mbind option_bind].
    change (setFirst f (mapRange r)) with (mapRange (setFirst f r)). change (setFirst f {| data := h (data r); nextRangeIndex := nextRangeIndex r; first := first r; last := last r |}) with (mapRange (setFirst f r)).
    rewrite <- list_fmap_insert, insertBetween_map. destruct (insertBetween _ _ _ _ _ _) as [[[rs a] b]|]; done.
  - destruct (toChar (lo other + offset c)) as [f|]; [|done]. cbn [mbind option_bind]. destruct (toChar (first r - 1)) as [l|]; [|done]. cbn [mbind option_bind]. rewrite convert_map. destruct (convert (val other)) as [d|]; [|done]. cbn [mbind option_bind fmap option_fmap option_map].
    rewrite insertBetween_map. destruct (insertBetween _ _ _ _ _ _) as [[[rs a] b]|]; [|done]. cbn [mbind option_bind fmap option_fmap option_map]. rewrite list_lookup_fmap. destruct (rs !! b) as [r'|]; [|done]. cbn [mbind option_bind fmap option_fmap option_map mapRange first].
    unfold guard. case_decide; [|done]. cbn [mbind option_bind]. by destruct (toChar _).
Qed.

Lemma mergeAligned_map c other rest : mergeAligned extendData' (mapCursor c) (mapSpan other) (mapSpan <$> rest) = (fun '(c, b) => (mapCursor c, b)) <$> mergeAligned extendData c other rest.
Proof using extend_map.
  unfold mergeAligned. cbn [mapCursor ranges self lastSelf others offset mapSpan lo hi val]. rewrite list_lookup_fmap. destruct (ranges c !! self c) as [r|]; [|done]. cbn [mbind option_bind fmap option_fmap option_map mapRange data nextRangeIndex first last].
  rewrite extend_map. destruct (extendData (data r) (val other)) as [d|]; [|done]. cbn [mbind option_bind fmap option_fmap option_map].
  change {| data := h (data r); nextRangeIndex := nextRangeIndex r; first := first r; last := last r |} with (mapRange r). change (setData (h d) (mapRange r)) with (mapRange (setData d r)). rewrite <- list_fmap_insert.
  destruct (last r =? hi other); [done|]. destruct (hi other <? last r).
  - destruct (toChar _) as [f|]; [|done]. cbn [mbind option_bind]. change (setFirst f (mapRange r)) with (mapRange (setFirst f r)). rewrite <- list_fmap_insert, insertBetween_map. destruct (insertBetween _ _ _ _ _ _) as [[[rs a] b]|]; done.
  - by destruct (toChar _).
Qed.

Lemma extendStep_map c : extendStep convert' extendData' (mapCursor c) = (fun '(c, b) => (mapCursor c, b)) <$> extendStep convert extendData c.
Proof using convert_map extend_map.
  destruct c as [rs li si [|other rest] off]; [done|]. unfold extendStep. change (others (mapCursor _)) with (mapSpan other :: (mapSpan <$> rest)). cbv iota beta.
  change (ranges (mapCursor _)) with (mapRanges rs). cbn [ranges self others offset lastSelf mapCursor mapSpan lo hi val]. rewrite (list_lookup_fmap mapRange rs si). destruct (rs !! si) as [r|] eqn:Er; [|done]. cbn [mbind option_bind fmap option_fmap option_map mapRange data nextRangeIndex first last].
  destruct (last r <? lo other + off); [done|]. destruct (hi other <? first r).
  - destruct (toChar _) as [f|]; [|done]. cbn [mbind option_bind mapSpan val lo hi]. rewrite convert_map. destruct (convert (val other)) as [d|]; [|done]. cbn [mbind option_bind fmap option_fmap option_map].
    change (list_fmap _ _ mapRange rs) with (mapRanges rs). rewrite insertBetween_map. destruct (insertBetween _ _ _ _ _ _) as [[[rs' a] b]|]; done.
  - match goal with |- context [alignStarts convert' ?c ?o] => change (alignStarts convert' c o) with (alignStarts convert' (mapCursor (mkCursor rs li si (other :: rest) off)) (mapSpan other)) end. rewrite alignStarts_map.
    destruct (alignStarts convert _ other) as [c'|]; [|done]. cbn [mbind option_bind fmap option_fmap option_map]. apply mergeAligned_map.
Qed.

Lemma extendLoop_map fuel : forall c, extendLoop convert' extendData' fuel (mapCursor c) = mapCursor <$> extendLoop convert extendData fuel c.
Proof using convert_map extend_map.
  induction fuel as [|fuel IH]; intros c; [done|]. cbn [extendLoop]. rewrite extendStep_map. destruct (extendStep convert extendData c) as [[c' b]|]; [|done]. cbn [mbind option_bind fmap option_fmap option_map].
  change (others (mapCursor c')) with (mapSpan <$> others c'). destruct b; [done|]. destruct (others c'); [done|]. apply IH.
Qed.

Lemma appendRest_map l : forall rs li off, appendRest convert' (mapRanges rs) li off (mapSpan <$> l) = mapRanges <$> appendRest convert rs li off l.
Proof using convert_map.
  induction l as [|o l IH]; intros rs li off; [done|]. cbn [appendRest fmap list_fmap mapSpan lo hi val]. destruct (toChar _) as [f|]; [|done]. cbn [mbind option_bind]. rewrite convert_map. destruct (convert (val o)) as [d|]; [|done].
  cbn [mbind option_bind fmap option_fmap option_map]. change (list_fmap _ _ mapRange rs) with (mapRanges rs). rewrite appendRange_map. destruct (appendRange rs li f (hi o) d) as [[rs' i]|]; [|done]. cbn [mbind option_bind fmap option_fmap option_map]. apply IH.
Qed.

Lemma initializeLoop_map l : forall i, initializeLoop convert' i (mapSpan <$> l) = mapRanges <$> initializeLoop convert i l.
Proof using convert_map.
  induction l as [|o l IH]; intros i; [done|]. rewrite fmap_cons. cbn [initializeLoop]. change (val (mapSpan o)) with (g (val o)). rewrite convert_map. destruct (convert (val o)) as [d|]; [|done].
  cbn [mbind option_bind fmap option_fmap option_map]. change (list_fmap _ _ mapSpan l) with (mapSpan <$> l). rewrite newRange_map. change (lo (mapSpan o)) with (lo o). change (hi (mapSpan o)) with (hi o).
  assert ((match mapSpan <$> l with [] => 0%nat | _ => S i end) = match l with [] => 0%nat | _ => S i end) as -> by (by destruct l). destruct (newRange d _ (lo o) (hi o)) as [r|]; [|done]. cbn [mbind option_bind fmap option_fmap option_map].
  change (list_fmap _ _ mapSpan l) with (mapSpan <$> l). rewrite IH. by destruct (initializeLoop convert (S i) l).
Qed.

Lemma extend_mapped rs l : extend convert' extendData' (mapRanges rs) (mapSpan <$> l) = mapRanges <$> extend convert extendData rs l.
Proof using convert_map extend_map.
  unfold extend. destruct l as [|o l]; [done|]. destruct rs as [|r rs]; [apply initializeLoop_map|]. cbn [fmap list_fmap]. cbv iota.
  pose proof (extendLoop_map (length (r :: rs) + length (o :: l)) (mkCursor (r :: rs) 0 0 (o :: l) 0)) as HL. unfold mapCursor at 1 in HL. cbn [ranges self others offset lastSelf] in HL.
  rewrite <- (length_fmap mapRange (r :: rs)), <- (length_fmap mapSpan (o :: l)) in HL at 1. cbn [fmap list_fmap] in HL. rewrite HL.
  destruct (extendLoop convert extendData _ _) as [c|]; [|done]. cbn [mbind option_bind fmap option_fmap option_map]. apply appendRest_map.
Qed.

Lemma iterate_map fuel : forall rs i, iterate fuel (mapRanges rs) i = mapRanges <$> iterate fuel rs i.
Proof.
  induction fuel as [|fuel IH]; intros rs i; [done|]. cbn [iterate]. rewrite list_lookup_fmap. destruct (rs !! i) as [r|]; [|done]. cbn [mbind option_bind fmap option_fmap option_map mapRange nextRangeIndex]. case_bool_decide; [done|].
  change (list_fmap _ _ mapRange rs) with (mapRanges rs). rewrite IH. by destruct (iterate fuel rs (nextRangeIndex r)).
Qed.

Lemma toList_map rs : toList (mapRanges rs) = mapRanges <$> toList rs.
Proof. unfold toList. destruct rs as [|r rs]; [done|]. rewrite <- (length_fmap mapRange (r :: rs)). apply (iterate_map (length (mapRanges (r :: rs))) (r :: rs)). Qed.

End Map.

(** ** The singular ranges *)

Notation Transitions := (list (DFA.CharRange * Z)).

(** The spans of a node, with the node and the span as data. *)
Definition tag (i : nat) (s : Span Z) : Span (nat * Span Z) := mkSpan (lo s) (hi s) (i, s).
Definition tagged (node : nat * Transitions) : list (Span (nat * Span Z)) := tag node.1 <$> spansOfTransitions node.2.

(** The spans that a character is in, one for each node that has one. *)
Definition cover (nodes : list (nat * Transitions)) (x : Z) : list (nat * Span Z) := omap (fun node => find x (tagged node)) nodes.

Lemma ordered_spans ts x : okTransitions ts -> Forall (fun t => x < DFA.first t.1) ts -> ordered x (spansOfTransitions ts).
Proof.
  revert x. induction ts as [|[r b] ts IH]; intros x H Hx; [done|]. apply okTransitions_cons in H as ((H1 & H2 & _) & H & Hlt). apply Forall_cons in Hx as [Hr Hx]. cbn in *. split_and!; try lia. by apply IH.
Qed.

Lemma spansOfTransitions_ordered ts : okTransitions ts -> ordered (-1) (spansOfTransitions ts).
Proof. intros H. apply ordered_spans; [done|]. destruct H as [H _]. eapply Forall_impl; [exact H|]. intros t (? & _). lia. Qed.

Lemma find_goes ts c : find c (spansOfTransitions ts) = goes ts c.
Proof. induction ts as [|[r b] ts IH]; [done|]. change (spansOfTransitions ((r, b) :: ts)) with (mkSpan (DFA.first r) (DFA.last r) b :: spansOfTransitions ts). cbn [find goes]. by rewrite IH. Qed.

Lemma ordered_tag i x (l : list (Span Z)) : ordered x l -> ordered x (tag i <$> l).
Proof. revert x. induction l as [|s l IH]; intros x; cbn; [done|]. intros (? & ? & ?). split_and!; try done; try lia. by apply IH. Qed.

Lemma find_tag i x (l : list (Span Z)) : find x (tag i <$> l) = None <-> find x l = None.
Proof. induction l as [|s l IH]; cbn; [done|]. unfold inSpan. cbn. by destruct (_ && _). Qed.

Lemma find_tag_Some i x (l : list (Span Z)) p : find x (tag i <$> l) = Some p -> p.1 = i /\ p.2 ∈ l /\ lo p.2 <= x <= hi p.2 /\ find x l = Some (val p.2).
Proof.
  induction l as [|s l IH]; cbn; [done|]. unfold inSpan. cbn. destruct (Z.leb_spec (lo s) x), (Z.leb_spec x (hi s)); cbn [andb].
  1: intros [= <-]; cbn [fst snd]; split_and!; try done; by left.
  all: intros E; destruct (IH E) as (? & ? & [? ?] & ?); split_and!; try done; by right.
Qed.

Definition noCover (l : list (nat * Span Z)) : option (list (nat * Span Z)) := match l with [] => None | _ => Some l end.

(** The run of the range list that collects the spans. *)
Lemma cover_spec nodes : Forall (fun node => okTransitions node.2) nodes -> forall prefix rs vs, Represents rs vs -> ordered (-1) vs -> (forall x, find x vs = noCover (cover prefix x)) ->
  exists rs' vs', foldlM (fun rs node => extend (fun a => Some [a]) (fun d a => Some (d ++ [a])) rs (tagged node)) rs nodes = Some rs'
    /\ Represents rs' vs' /\ ordered (-1) vs' /\ forall x, find x vs' = noCover (cover (prefix ++ nodes) x).
Proof.
  induction 1 as [|node nodes Hn Hnodes IH]; intros prefix rs vs HR Ho Hf; [exists rs, vs; by rewrite app_nil_r|]. cbn [foldlM].
  destruct (extend_spec (fun a => Some [a]) (fun d a => Some (d ++ [a])) (fun a => [a]) (fun d a => d ++ [a]) (fun _ => True) ltac:(done) ltac:(done) rs vs (tagged node) HR Ho) as (rs1 & vs1 & -> & HR1 & Ho1 & Hf1).
  - by apply ordered_tag, spansOfTransitions_ordered.
  - apply Forall_true. done.
  - cbn [mbind option_bind]. destruct (IH (prefix ++ [node]) rs1 vs1 HR1 Ho1) as (rs2 & vs2 & E & HR2 & Ho2 & Hf2).
    + intros x. rewrite Hf1, Hf. unfold cover. rewrite omap_app. cbn [omap list_omap]. destruct (find x (tagged node)) as [p|]; cbn [merge]; [|rewrite app_nil_r; by destruct (noCover _)].
      destruct (omap _ prefix) as [|q l]; done.
    + exists rs2, vs2. split_and!; try done. by rewrite <- app_assoc in Hf2.
Qed.

Lemma tagged_val node : mapSpan (fun p : nat * Span Z => val p.2) <$> tagged node = spansOfTransitions node.2.
Proof. unfold tagged. rewrite <- list_fmap_compose. etransitivity; [|apply list_fmap_id]. apply list_fmap_ext. by intros _ [l h v] _. Qed.

(** The counters count the spans. *)
Lemma counters_spec nodes : forall rs,
  foldlM (fun rs node => extend convert extendCounter rs (spansOfTransitions node.2)) (mapRange (length (A := nat * Span Z)) <$> rs) nodes
  = fmap (M := list) (mapRange (length (A := nat * Span Z))) <$> foldlM (fun rs node => extend (fun a => Some [a]) (fun d a => Some (d ++ [a])) rs (tagged node)) rs nodes.
Proof.
  induction nodes as [|node nodes IH]; intros rs; [done|]. cbn [foldlM]. rewrite <- (tagged_val node).
  rewrite (extend_mapped length _ (fun a => Some [a]) (fun d a => Some (d ++ [a])) convert extendCounter).
  - destruct (extend _ _ rs (tagged node)) as [rs1|]; [|done]. cbn [mbind option_bind fmap option_fmap option_map]. apply IH.
  - done.
  - intros d a. unfold extendCounter. cbn. by rewrite length_app, Nat.add_1_r.
Qed.

(** The transitions of the nodes of an automaton without killed nodes. *)
Definition NodeTransitions (dfa : DFA.DFA) (tss : list Transitions) : Prop :=
  Forall2 (fun node ts => DFA.isKilled node = false /\ DFA.transitions node dfa = Some ts /\ okTransitions ts) (DFA.nodes dfa) tss.

Definition numbered (tss : list Transitions) : list (nat * Transitions) := zip (seq 0 (length tss)) tss.

Lemma foldlM_nodes {X : Type} dfa (f : X -> nat -> Transitions -> option X) nodes tss : forall k x,
  Forall2 (fun node ts => DFA.isKilled node = false /\ DFA.transitions node dfa = Some ts /\ okTransitions ts) nodes tss ->
  foldlM (fun x '(i, node) => if DFA.isKilled node then Some x else ts ← DFA.transitions node dfa; f x i ts) x (zip (seq k (length nodes)) nodes)
  = foldlM (fun x node => f x node.1 node.2) x (zip (seq k (length tss)) tss).
Proof.
  intros k x H. revert k x. induction H as [|node ts nodes tss (Ek & Et & _) H IH]; intros k x; [done|]. cbn [length seq zip zip_with foldlM fst snd]. rewrite Ek, Et. cbn [mbind option_bind].
  destruct (f x k ts) as [x'|]; cbn [mbind option_bind]; [|done]. apply IH.
Qed.

Lemma zip_fst_forget {X B : Type} (f : X -> B -> option X) (l : list B) : forall k x, foldlM f x l = foldlM (fun x node => f x node.2) x (zip (seq k (length l)) l).
Proof. induction l as [|b l IH]; intros k x; [done|]. cbn [length seq zip zip_with foldlM snd]. destruct (f x b) as [x'|]; cbn [mbind option_bind]; [|done]. apply IH. Qed.

Lemma singular_spec dfa tss : NodeTransitions dfa tss ->
  exists ranges singular vs, singularTransitions dfa = Some ranges /\ toList ranges = Some singular /\ first <$> singular = lo <$> vs /\ data <$> singular = (fun v => length (val v)) <$> vs
    /\ ordered (-1) vs /\ forall x, find x vs = noCover (cover (numbered tss) x).
Proof.
  intros H. destruct (cover_spec (numbered tss)) with (prefix := @nil (nat * Transitions)) (rs := @nil (MutableRange (list (nat * Span Z)))) (vs := @nil (Span (list (nat * Span Z)))) as (rs & vs & E & HR & Ho & Hf).
  - apply Forall_forall. intros [i ts] Hin. apply elem_of_zip_r in Hin. cbn. apply list_elem_of_lookup in Hin as [j Hj]. destruct (Forall2_lookup_r _ _ _ _ _ H Hj) as (node & _ & _ & _ & ?). done.
  - by left.
  - done.
  - done.
  - destruct (toList_represents rs vs HR) as (l & El & Ev). pose proof (counters_spec (numbered tss) []) as Hc. rewrite E in Hc. cbn [fmap list_fmap option_fmap option_map] in Hc.
    exists (mapRange length <$> rs), (mapRange length <$> l), vs. split_and!; try done.
    + unfold singularTransitions. rewrite (zip_fst_forget _ (DFA.nodes dfa) 0). etransitivity; [|exact Hc]. etransitivity; [|exact (foldlM_nodes dfa (fun x _ ts => extend convert extendCounter x (spansOfTransitions ts)) _ _ 0 [] H)].
      apply foldlM_ext. by intros [i node] s _.
    + rewrite toList_map, El. done.
    + rewrite <- Ev, <- !list_fmap_compose. by apply list_fmap_ext.
    + rewrite <- Ev, <- !list_fmap_compose. by apply list_fmap_ext.
Qed.

(** ** The singular ranges of a node *)

Section Intersections.

Context {D : Type}.
Implicit Types (V : list (Span D)).

Lemma skipTo_spec a V : forall x idx, ordered x V -> (exists v, v ∈ V /\ lo v = a) ->
  exists V1 v V2, V = V1 ++ v :: V2 /\ lo v = a /\ Forall (fun v => lo v < a) V1 /\ Forall (fun v => a < lo v) V2
    /\ skipTo a (lo <$> V) idx = ((idx + length V1)%nat, lo <$> v :: V2).
Proof.
  induction V as [|v V IH]; intros x idx Ho Hex; [by destruct Hex as (? & ?%not_elem_of_nil & _)|]. destruct Ho as (H1 & H2 & H3). pose proof (ordered_bounds _ _ H3) as Hb. rewrite Forall_forall in Hb. cbn [fmap list_fmap skipTo].
  destruct (Z.eqb_spec (lo v) a) as [E|E].
  - exists [], v, V. split_and!; try done; [|by rewrite Nat.add_0_r]. apply Forall_forall. intros w Hw. specialize (Hb w Hw). cbn in Hb. lia.
  - destruct Hex as (w & [->|Hw]%elem_of_cons & Ew); [done|]. destruct (IH (hi v) (S idx) H3) as (V1 & u & V2 & -> & Eu & Hl & Hr & Es); [by exists w|].
    exists (v :: V1), u, V2. split_and!; try done; [constructor; [|done]; specialize (Hb w Hw); cbn in Hb; lia|]. cbn [length]. rewrite Nat.add_succ_r. exact Es.
Qed.

Lemma upTo_spec b V : forall x idx, ordered x V ->
  exists H V3, V = H ++ V3 /\ Forall (fun v => lo v <= b) H /\ Forall (fun v => b < lo v) V3 /\ upTo b (lo <$> V) idx = (seq idx (length H), (idx + length H)%nat, lo <$> V3).
Proof.
  induction V as [|v V IH]; intros x idx Ho; [exists [], []; split_and!; try done; cbn; by rewrite Nat.add_0_r|]. destruct Ho as (H1 & H2 & H3). cbn [fmap list_fmap upTo].
  destruct (Z.leb_spec (lo v) b) as [Hle|Hgt].
  - destruct (IH (hi v) (S idx) H3) as (H & V3 & -> & HH & HV & Eu). change (list_fmap _ _ lo (H ++ V3)) with (lo <$> (H ++ V3)). rewrite Eu. exists (v :: H), V3. split_and!; try done; [by constructor|]. cbn [length seq]. by rewrite Nat.add_succ_r.
  - exists [], (v :: V). split_and!; try done; [|cbn; by rewrite Nat.add_0_r]. constructor; [done|]. eapply Forall_impl; [exact (ordered_bounds _ _ H3)|]. cbn. lia.
Qed.

(** Each transition is made of ranges of [V]. *)
Definition Aligned V (ts : Transitions) : Prop :=
  forall r b y, (r, b) ∈ ts -> DFA.first r <= y <= DFA.last r -> exists v, v ∈ V /\ lo v <= y <= hi v /\ DFA.first r <= lo v /\ hi v <= DFA.last r.

Lemma ordered_suffix x V1 v V2 : ordered x (V1 ++ v :: V2) -> ordered (hi v) V2.
Proof. intros (_ & H)%ordered_app. by destruct H as (_ & _ & H). Qed.

Lemma goes_none ts c : okTransitions ts -> Forall (fun t => c < DFA.first t.1) ts -> goes ts c = None.
Proof. intros [H _] Hc. by apply (goes_after ts c). Qed.

Lemma intersectionLoop_spec ts : forall V idx x, okTransitions ts -> ordered x V -> Aligned V ts ->
  NoDup (intersectionLoop (lo <$> V) idx ts).*1
  /\ forall k b, (k, b) ∈ intersectionLoop (lo <$> V) idx ts <-> exists j v, k = (idx + j)%nat /\ V !! j = Some v /\ goes ts (lo v) = Some b.
Proof.
  induction ts as [|[r t] ts IH]; intros V idx x Hts HV HA.
  - split; [constructor|]. intros k b. split; [by intros ?%not_elem_of_nil|by intros (? & ? & _ & _ & ?)].
  - apply okTransitions_cons in Hts as ((B1 & B2 & _) & Hts & Hlt). cbn [fst] in *. destruct (HA r t (DFA.first r) ltac:(left) ltac:(lia)) as (v0 & Hv0 & Hv1 & Hv2 & Hv3).
    destruct (skipTo_spec (DFA.first r) V x idx HV) as (V1 & v & V2 & -> & Ev & Hl & Hr & Es); [exists v0; split; [done|lia]|]. cbn [intersectionLoop]. rewrite Es.
    pose proof (ordered_suffix _ _ _ _ HV) as HV2. rewrite fmap_cons. cbn [tail]. destruct (upTo_spec (DFA.last r) V2 (hi v) (S (idx + length V1)) HV2) as (H & V3 & -> & HH & HV3 & ->).
    apply ordered_app in HV2 as [HVH HV3o]. set (n3 := (S (idx + length V1) + length H)%nat).
    assert (Aligned V3 ts) as HA3.
    { intros r' b' y Hin Hy. rewrite Forall_forall in Hlt. pose proof (Hlt _ Hin) as Hlt'. cbn in Hlt'. destruct (HA r' b' y ltac:(by right) Hy) as (w & Hw & W1 & W2 & W3). exists w. split_and!; try done; try lia.
      rewrite elem_of_app, elem_of_cons, elem_of_app in Hw. rewrite Forall_forall in Hl, HH. destruct Hw as [Hw|[->|[Hw|Hw]]]; [specialize (Hl w Hw); cbn in Hl; lia|lia|specialize (HH w Hw); cbn in HH; lia|done]. }
    destruct (IH V3 n3 _ Hts HV3o HA3) as [IH1 IH2].
    assert (forall k b, (k, b) ∈ (idx + length V1, t)%nat :: ((fun i => (i, t)) <$> seq (S (idx + length V1)) (length H)) ++ intersectionLoop (lo <$> V3) n3 ts
      <-> (exists i, (i <= length H)%nat /\ k = (idx + length V1 + i)%nat /\ b = t) \/ exists j w, k = (n3 + j)%nat /\ V3 !! j = Some w /\ goes ts (lo w) = Some b) as Hmem.
    { intros k b. rewrite elem_of_cons, elem_of_app, IH2, list_elem_of_fmap. setoid_rewrite elem_of_seq. split.
      - intros [[= -> ->]|[(i & [= -> ->] & Hi)|Hex]]; [left; exists 0%nat; split_and!; [lia|lia|done]|left; exists (i - (idx + length V1))%nat; split_and!; [lia|lia|done]|by right].
      - intros [(i & Hi & -> & ->)|Hex]; [|right; by right]. destruct i as [|i]; [left; f_equal; lia|]. right. left. exists (idx + length V1 + S i)%nat. split; [done|lia]. }
    split.
    + cbn [fmap list_fmap fst]. change (list_fmap _ _ fst) with (fmap (M := list) (@fst nat Z)). rewrite fmap_app, <- list_fmap_compose. rewrite (list_fmap_ext (fst ∘ (fun i => (i, t))) id) by done. rewrite list_fmap_id.
      assert (forall k, k ∈ (intersectionLoop (lo <$> V3) n3 ts).*1 -> (n3 <= k)%nat) as Hge by (intros k ([k' b] & -> & (j & _ & -> & _)%IH2)%list_elem_of_fmap; cbn; lia).
      apply NoDup_cons. split; [|apply NoDup_app; split_and!; [apply NoDup_seq| |done]].
      * rewrite elem_of_app, elem_of_seq. intros [?|?%Hge]; unfold n3 in *; lia.
      * intros k Hk%elem_of_seq Hk'%Hge. unfold n3 in *. lia.
    + intros k b. rewrite Hmem. cbn [goes]. unfold inRange. split.
      * intros [(i & Hi & -> & ->)|(j & w & -> & Hj & Hg)].
        -- destruct (lookup_lt_is_Some_2 (v :: H) i) as [w Hw]; [cbn; lia|]. exists (length V1 + i)%nat, w. split; [lia|]. split; [rewrite lookup_app_r by lia; replace (length V1 + i - length V1)%nat with i by lia; rewrite app_comm_cons; by apply lookup_app_l_Some|].
           assert (DFA.first r <= lo w <= DFA.last r) as [W1 W2].
           { apply list_elem_of_lookup_2 in Hw. apply elem_of_cons in Hw as [->|Hw]; [lia|]. rewrite Forall_forall in HH, Hr. specialize (HH w Hw). specialize (Hr w ltac:(apply elem_of_app; by left)). cbn in *. lia. }
           by rewrite (proj2 (Z.leb_le _ _) W1), (proj2 (Z.leb_le _ _) W2).
        -- exists (length V1 + S (length H + j))%nat, w. split; [unfold n3; lia|]. split; [rewrite lookup_app_r by lia; replace (length V1 + S (length H + j) - length V1)%nat with (S (length H + j)) by lia; change ((v :: H ++ V3) !! S (length H + j)) with ((H ++ V3) !! (length H + j)%nat); by rewrite lookup_app_r, Nat.add_sub' by lia|].
           apply list_elem_of_lookup_2 in Hj. rewrite Forall_forall in HV3. specialize (HV3 w Hj). cbn in HV3. by rewrite (proj2 (Z.leb_gt (lo w) (DFA.last r))), andb_false_r by lia.
      * intros (j & w & -> & Hj & Hg). destruct (decide (j < length V1)%nat) as [Hj1|Hj1].
        -- exfalso. rewrite lookup_app_l in Hj by done. apply list_elem_of_lookup_2 in Hj. rewrite Forall_forall in Hl. specialize (Hl w Hj). cbn in Hl. rewrite (proj2 (Z.leb_gt (DFA.first r) (lo w))) in Hg by lia. cbn [andb] in Hg.
           rewrite goes_none in Hg; [done|done|]. eapply Forall_impl; [exact Hlt|]. cbn. lia.
        -- rewrite lookup_app_r in Hj by lia. rewrite app_comm_cons in Hj. destruct (decide (j - length V1 < S (length H))%nat) as [Hj2|Hj2].
           ++ left. exists (j - length V1)%nat. split_and!; [lia|lia|]. rewrite lookup_app_l in Hj by (cbn; lia). apply list_elem_of_lookup_2 in Hj. apply elem_of_cons in Hj.
              assert (DFA.first r <= lo w <= DFA.last r) as [W1 W2] by (destruct Hj as [->|Hw]; [lia|]; rewrite Forall_forall in HH, Hr; specialize (HH w Hw); specialize (Hr w ltac:(apply elem_of_app; by left)); cbn in *; lia).
              rewrite (proj2 (Z.leb_le _ _) W1), (proj2 (Z.leb_le _ _) W2) in Hg. by injection Hg.
           ++ right. rewrite lookup_app_r in Hj by (cbn; lia). cbn [length] in Hj. exists (j - length V1 - S (length H))%nat, w. split; [unfold n3; lia|]. split; [done|]. apply list_elem_of_lookup_2 in Hj. rewrite Forall_forall in HV3. specialize (HV3 w Hj). cbn in HV3.
              by rewrite (proj2 (Z.leb_gt (lo w) (DFA.last r))), andb_false_r in Hg by lia.
Qed.

End Intersections.

(** ** Inside a singular range *)

Section Cover.

Context (tss : list Transitions) (vs : list (Span (list (nat * Span Z)))).
Hypothesis tss_ok : Forall okTransitions tss.
Hypothesis vs_ordered : ordered (-1) vs.
Hypothesis vs_cover : forall x, find x vs = noCover (cover (numbered tss) x).

Lemma elem_numbered i ts : (i, ts) ∈ numbered tss <-> tss !! i = Some ts.
Proof.
  unfold numbered. rewrite list_elem_of_lookup. split.
  - intros [j Hj]. rewrite lookup_zip_with_Some in Hj. destruct Hj as (i' & ts' & [= -> ->] & Hi & Hj). apply lookup_seq in Hi as [-> _]. done.
  - intros Hi. exists i. rewrite lookup_zip_with_Some. exists i, ts. split_and!; try done. rewrite lookup_seq_lt; [done|by eapply lookup_lt_Some].
Qed.

Lemma elem_cover x i s : (i, s) ∈ cover (numbered tss) x <-> exists ts, tss !! i = Some ts /\ find x (tag i <$> spansOfTransitions ts) = Some (i, s).
Proof.
  unfold cover. rewrite list_elem_of_omap. split.
  - intros ([i' ts] & Hin%elem_numbered & E). destruct (find_tag_Some _ _ _ _ E) as (Ei & _). cbn in Ei. subst i'. by exists ts.
  - intros (ts & Hi & E). exists (i, ts). split; [by apply elem_numbered|done].
Qed.

(** Every character of a singular range is in the same spans. *)
Lemma cover_range k v x : vs !! k = Some v -> lo v <= x <= hi v -> cover (numbered tss) x = val v.
Proof using vs_ordered vs_cover.
  intros Hk Hx. pose proof (find_elem x (-1) vs v vs_ordered (list_elem_of_lookup_2 _ _ _ Hk) Hx) as E. rewrite vs_cover in E. unfold noCover in E. destruct (cover (numbered tss) x); congruence.
Qed.

Lemma span_bounds k v : vs !! k = Some v -> 0 <= lo v <= hi v.
Proof using vs_ordered. intros Hk. pose proof (ordered_bounds _ _ vs_ordered) as Hb. rewrite Forall_forall in Hb. specialize (Hb v (list_elem_of_lookup_2 _ _ _ Hk)). cbn in Hb. lia. Qed.

Lemma goes_range k v i ts x : vs !! k = Some v -> tss !! i = Some ts -> lo v <= x <= hi v -> goes ts x = goes ts (lo v).
Proof using vs_ordered vs_cover.
  intros Hk Hi Hx. pose proof (span_bounds k v Hk) as Hb. pose proof (cover_range k v x Hk Hx) as E1. pose proof (cover_range k v (lo v) Hk ltac:(lia)) as E2.
  assert (forall y z, cover (numbered tss) y = val v -> cover (numbered tss) z = val v -> forall b, goes ts y = Some b -> goes ts z = Some b) as Himp.
  { intros y z Ey Ez b Hb'. rewrite <- find_goes in Hb'. destruct (find y (tag i <$> spansOfTransitions ts)) as [[i' s]|] eqn:Ef; [|by apply find_tag in Ef; congruence].
    destruct (find_tag_Some _ _ _ _ Ef) as (Ei & _ & _ & Ef'). cbn in Ei, Ef'. subst i'. assert ((i, s) ∈ cover (numbered tss) z) as (ts' & Hi' & Ef2)%elem_cover by (rewrite Ez, <- Ey; apply elem_cover; by exists ts).
    rewrite Hi in Hi'. injection Hi' as <-. destruct (find_tag_Some _ _ _ _ Ef2) as (_ & _ & _ & Ef3). cbn in Ef3. rewrite <- find_goes. congruence. }
  destruct (goes ts x) as [b|] eqn:Ex; [symmetry; by apply (Himp x)|]. destruct (goes ts (lo v)) as [b|] eqn:Ev; [|done]. apply (Himp (lo v) x) in Ev; congruence.
Qed.

(** Every character that a node has a transition for is in a singular range. *)
Lemma goes_singular i ts x b : tss !! i = Some ts -> goes ts x = Some b -> exists k v, vs !! k = Some v /\ lo v <= x <= hi v.
Proof using vs_cover.
  intros Hi Hg. rewrite <- find_goes in Hg. destruct (find x (tag i <$> spansOfTransitions ts)) as [[i' s]|] eqn:Ef; [|by apply find_tag in Ef; congruence].
  destruct (find_tag_Some _ _ _ _ Ef) as (Ei & _). cbn in Ei. subst i'. assert ((i, s) ∈ cover (numbered tss) x) as Hin by (apply elem_cover; by exists ts).
  destruct (find x vs) as [d|] eqn:Ed; [|rewrite vs_cover in Ed; destruct (cover (numbered tss) x); [by apply not_elem_of_nil in Hin|done]].
  destruct (find_span _ _ _ Ed) as (v & Hv & Hx & _). apply list_elem_of_lookup in Hv as [k Hk]. by exists k, v.
Qed.

Lemma aligned_node i ts : tss !! i = Some ts -> Aligned vs ts.
Proof using All.
  intros Hi r b y Hin Hy. pose proof (Forall_lookup_1 _ _ _ _ tss_ok Hi) as Hok. pose proof (spansOfTransitions_ordered ts Hok) as Ho. set (s := mkSpan (DFA.first r) (DFA.last r) b).
  assert (s ∈ spansOfTransitions ts) as Hs by (unfold spansOfTransitions; apply list_elem_of_fmap; exists (r, b); done). assert (find y (tag i <$> spansOfTransitions ts) = Some (i, s)) as Ef.
  { apply (find_elem y (-1) _ (tag i s)); [by apply ordered_tag|by apply list_elem_of_fmap_2|done]. }
  assert ((i, s) ∈ cover (numbered tss) y) as Hc by (apply elem_cover; by exists ts).
  destruct (goes_singular i ts y b Hi) as (k & v & Hk & Hv); [rewrite <- find_goes; exact (find_elem y (-1) _ s Ho Hs Hy)|]. pose proof (span_bounds k v Hk) as Hb.
  exists v. split; [by eapply list_elem_of_lookup_2|]. split; [done|]. rewrite (cover_range k v y Hk Hv) in Hc.
  assert (forall z, lo v <= z <= hi v -> DFA.first r <= z <= DFA.last r) as Hz.
  { intros z Hz. rewrite <- (cover_range k v z Hk Hz) in Hc. apply elem_cover in Hc as (ts' & _ & Ez). by destruct (find_tag_Some _ _ _ _ Ez) as (_ & _ & ? & _). }
  pose proof (Hz (lo v) ltac:(lia)). pose proof (Hz (hi v) ltac:(lia)). lia.
Qed.

End Cover.

(** ** Buckets *)

#[local] Open Scope nat_scope.

(** An array given by a function. *)
Definition tab {B : Type} (n : nat) (f : nat -> B) : list B := f <$> seq 0 n.

Lemma lookup_tab {B : Type} n (f : nat -> B) i : i < n -> tab n f !! i = Some (f i).
Proof. intros H. unfold tab. rewrite list_lookup_fmap, lookup_seq_lt by done. done. Qed.

Lemma lookup_tab_Some {B : Type} n (f : nat -> B) i x : tab n f !! i = Some x <-> i < n /\ x = f i.
Proof.
  split; [|by intros [? ->]; apply lookup_tab]. intros H. assert (i < n) as Hi by (apply lookup_lt_Some in H; unfold tab in H; rewrite length_fmap, length_seq in H; done). rewrite lookup_tab in H by done. by injection H.
Qed.

Lemma length_tab {B : Type} n (f : nat -> B) : length (tab n f) = n.
Proof. unfold tab. by rewrite length_fmap, length_seq. Qed.

Lemma store_tab {B : Type} n (f g : nat -> B) i x : i < n -> g i = x -> (forall j, j <> i -> g j = f j) -> store i x (tab n f) = Some (tab n g).
Proof.
  intros Hi Hx Hj. rewrite store_spec by (by rewrite length_tab). f_equal. apply list_eq. intros j. destruct (decide (j < n)) as [Hlt|Hge].
  - rewrite lookup_tab by done. destruct (decide (j = i)) as [->|Hne]; [rewrite list_lookup_insert_eq by (by rewrite length_tab); by subst|]. rewrite list_lookup_insert_ne by done. by rewrite lookup_tab, Hj.
  - rewrite !lookup_ge_None_2; [done|by rewrite length_tab; lia|by rewrite length_insert, length_tab; lia].
Qed.

Lemma tab_ext {B : Type} n (f g : nat -> B) : (forall i, f i = g i) -> tab n f = tab n g.
Proof. intros H. by apply list_fmap_ext. Qed.

Lemma replicate_tab {B : Type} n (x : B) : replicate n x = tab n (fun _ => x).
Proof. unfold tab. rewrite <- (length_seq n 0) at 1. symmetry. apply (const_fmap (fun _ : nat => x)). done. Qed.

(** How many keys are [v], and how many are below. *)
Definition cnt (v : nat) (keys : list nat) : nat := length (filter (fun k => k = v) keys).
Definition below (v : nat) (keys : list nat) : nat := length (filter (fun k => k < v) keys).

Lemma cnt_app v l1 l2 : cnt v (l1 ++ l2) = cnt v l1 + cnt v l2.
Proof. unfold cnt. by rewrite filter_app, length_app. Qed.

Lemma cnt_cons v k l : cnt v (k :: l) = (if decide (k = v) then 1 else 0) + cnt v l.
Proof. unfold cnt. rewrite filter_cons. by case_decide. Qed.

Lemma cnt_snoc v k l : cnt v (l ++ [k]) = (if decide (k = v) then 1 else 0) + cnt v l.
Proof. rewrite cnt_app, cnt_cons. unfold cnt at 2. cbn. lia. Qed.

Lemma cnt_notin v l : v ∉ l -> cnt v l = 0.
Proof. intros H. induction l as [|k l IH]; [done|]. rewrite cnt_cons, IH by (intros ?; apply H; by right). rewrite decide_False; [done|]. intros ->. apply H. left. Qed.

Lemma cnt_NoDup v l : NoDup l -> v ∈ l -> cnt v l = 1.
Proof.
  induction 1 as [|k l Hk HD IH]; intros Hv; [by apply not_elem_of_nil in Hv|]. rewrite cnt_cons. case_decide as Ek; [subst k; by rewrite cnt_notin|]. apply elem_of_cons in Hv as [->|Hv]; [done|]. by rewrite IH.
Qed.

Lemma below_S v l : below (S v) l = below v l + cnt v l.
Proof. unfold below, cnt. induction l as [|k l IH]; [done|]. rewrite !filter_cons. repeat case_decide; cbn [length]; lia. Qed.

Lemma below_0 l : below 0 l = 0.
Proof. unfold below. induction l as [|k l IH]; [done|]. rewrite filter_cons. case_decide; [lia|done]. Qed.

Lemma below_mono v w l : v <= w -> below v l <= below w l.
Proof. intros H. unfold below. induction l as [|k l IH]; [done|]. rewrite !filter_cons. repeat case_decide; cbn [length]; lia. Qed.

Lemma below_length v l : below v l <= length l.
Proof. apply length_filter. Qed.

Lemma below_all v l : Forall (fun k => k < v) l -> below v l = length l.
Proof. induction 1 as [|k l Hk Hl IH]; [done|]. unfold below in *. rewrite filter_cons. rewrite decide_True by done. cbn. by rewrite IH. Qed.

(** Where a stable sort by key puts the element [e] with the key [v]. *)
Definition place (keys : list nat) (e v : nat) : nat := below v keys + cnt v (take e keys).

Lemma place_bounds keys e v : keys !! e = Some v -> below v keys <= place keys e v < below (S v) keys.
Proof.
  intros H. rewrite below_S. unfold place. split; [lia|]. apply Nat.add_lt_mono_l. rewrite <- (take_drop_middle keys e v H) at 2. rewrite cnt_app, cnt_cons, decide_True by done. lia.
Qed.

Lemma place_lt keys e v : keys !! e = Some v -> place keys e v < length keys.
Proof. intros H. pose proof (place_bounds keys e v H). pose proof (below_length (S v) keys). lia. Qed.

Lemma place_inj keys e e' v v' : keys !! e = Some v -> keys !! e' = Some v' -> place keys e v = place keys e' v' -> e = e'.
Proof.
  intros H H' E. pose proof (place_bounds keys e v H). pose proof (place_bounds keys e' v' H'). assert (v = v') as <-.
  { destruct (decide (v < v')) as [Hlt|]; [pose proof (below_mono (S v) v' keys Hlt); lia|]. destruct (decide (v' < v)) as [Hlt|]; [pose proof (below_mono (S v') v keys Hlt); lia|lia]. }
  assert (forall a b, keys !! a = Some v -> a < b -> cnt v (take a keys) < cnt v (take b keys)) as Hmono.
  { intros a b Ha Hab. assert (take (S a) keys `prefix_of` take b keys) as [l ->] by (exists (drop (S a) (take b keys)); replace (take (S a) keys) with (take (S a) (take b keys)) by (rewrite take_take; f_equal; lia); by rewrite take_drop). rewrite (take_S_r _ _ _ Ha), cnt_app, cnt_snoc, decide_True by done. lia. }
  unfold place in E. destruct (decide (e < e')) as [Hlt|]; [specialize (Hmono e e' H Hlt); lia|]. destruct (decide (e' < e)) as [Hlt|]; [specialize (Hmono e' e H' Hlt); lia|lia].
Qed.

(** Every position is taken. *)
Lemma place_surj keys t : t < length keys -> exists e v, keys !! e = Some v /\ place keys e v = t.
Proof.
  intros Ht. set (l := (fun e => place keys e (default 0 (keys !! e))) <$> seq 0 (length keys)). assert (l ≡ₚ seq 0 (length keys)) as HP.
  - assert (forall e, e ∈ seq 0 (length keys) -> exists v, keys !! e = Some v) as Hk by (intros e He%elem_of_seq; apply lookup_lt_is_Some_2; lia). apply submseteq_length_Permutation; [|unfold l; rewrite length_fmap; done].
    apply NoDup_submseteq.
    + apply NoDup_fmap_on; [|apply NoDup_seq]. intros x y Hx Hy E. destruct (Hk x Hx) as [v Ev], (Hk y Hy) as [w Ew]. rewrite Ev, Ew in E. by apply (place_inj keys x y v w).
    + intros x (e & -> & He)%list_elem_of_fmap. destruct (Hk e He) as [v Ev]. rewrite Ev. cbn [default id]. apply elem_of_seq. pose proof (place_lt keys e v Ev). lia.
  - assert (t ∈ l) as (e & -> & He)%list_elem_of_fmap by (rewrite HP; apply elem_of_seq; lia). apply elem_of_seq in He. destruct (lookup_lt_is_Some_2 keys e ltac:(lia)) as [v Ev]. exists e, v. by rewrite Ev.
Qed.

Lemma place_key keys e v w : keys !! e = Some v -> below w keys <= place keys e v < below w keys + cnt w keys <-> keys !! e = Some v /\ v = w.
Proof.
  intros H. rewrite <- below_S. pose proof (place_bounds keys e v H). split; [|intros [_ ->]; done]. intros Hw. split; [done|].
  destruct (decide (v < w)) as [Hlt|]; [pose proof (below_mono (S v) w keys Hlt); lia|]. destruct (decide (w < v)) as [Hlt|]; [pose proof (below_mono (S w) v keys Hlt); lia|lia].
Qed.

Lemma accumulate_spec keys n : forall a, accumulate ((fun v => cnt v keys) <$> seq a n) (below a keys) = ((fun v => below v keys) <$> seq a n, below (a + n) keys).
Proof. induction n as [|n IH]; intros a; cbn [seq fmap list_fmap accumulate]; [by rewrite Nat.add_0_r|]. rewrite <- below_S. change (list_fmap _ _ (fun v => cnt v keys)) with (fmap (M := list) (fun v => cnt v keys)). rewrite IH. by rewrite Nat.add_succ_r. Qed.

Lemma addSets_spec keys n : forall a p, addSets ((fun v => cnt v keys) <$> seq a n) (below a keys) p
  = (mkPartition (m_sets p ++ ((fun v => mkSet (below v keys) (cnt v keys) 0) <$> seq a n)) (m_partitionedElements p) (m_elementPositionInPartitionedNodes p) (m_elementToSetMap p) (m_setsMarkedInCurrentGeneration p), below (a + n) keys).
Proof.
  induction n as [|n IH]; intros a p; cbn [seq fmap list_fmap addSets]; [rewrite Nat.add_0_r, app_nil_r; by destruct p|]. rewrite <- below_S. change (list_fmap _ _ (fun v => cnt v keys)) with (fmap (M := list) (fun v => cnt v keys)). rewrite IH.
  unfold addSetUnchecked. cbn [m_sets m_partitionedElements m_elementPositionInPartitionedNodes m_elementToSetMap m_setsMarkedInCurrentGeneration]. by rewrite Nat.add_succ_r, <- app_assoc.
Qed.

Lemma increment_spec n v done : v < n -> increment v (tab n (fun w => cnt w done)) = Some (tab n (fun w => cnt w (done ++ [v]))).
Proof.
  intros Hv. unfold increment. rewrite lookup_tab by lia. cbn [mbind option_bind]. apply store_tab; [done| |]; [rewrite cnt_snoc, decide_True by done; lia|]. intros j Hj. rewrite cnt_snoc, decide_False by done. lia.
Qed.

(** ** Filling the tables *)

Section Tables.

(** The transitions in the order of the loop: the source, the singular range
    and the target. *)
Context (N K : nat) (evs : list (nat * (nat * Z))).

Definition targetKeys : list nat := (fun ev => Z.to_nat ev.2.2) <$> evs.
Definition symbolKeys : list nat := (fun ev => ev.2.1) <$> evs.

Hypothesis evs_ok : Forall (fun ev => ev.1 < N /\ ev.2.1 < K /\ Z.to_nat ev.2.2 < N) evs.

Definition startsOf : list nat := tab N (fun v => below v targetKeys).
Definition setsOf : list SetDescriptor := tab K (fun k => mkSet (below k symbolKeys) (cnt k symbolKeys) 0).

Lemma target_key e i k b : evs !! e = Some (i, (k, b)) -> targetKeys !! e = Some (Z.to_nat b).
Proof. intros H. unfold targetKeys. by rewrite list_lookup_fmap, H. Qed.

Lemma symbol_key e i k b : evs !! e = Some (i, (k, b)) -> symbolKeys !! e = Some k.
Proof. intros H. unfold symbolKeys. by rewrite list_lookup_fmap, H. Qed.

Lemma length_targetKeys : length targetKeys = length evs.
Proof. apply length_fmap. Qed.

Lemma length_symbolKeys : length symbolKeys = length evs.
Proof. apply length_fmap. Qed.

(** The tables after the first [e] transitions. *)
Record Filled (e : nat) (tables : list nat * list nat * Partition * list nat) : Prop := {
  fi_sizes : tables.1.1.1 = tab N (fun v => cnt v (take e targetKeys));
  fi_offsets : tables.2 = tab K (fun k => cnt k (take e symbolKeys));
  fi_flat : length tables.1.1.2 = length evs;
  fi_sets : m_sets tables.1.2 = setsOf;
  fi_marked : m_setsMarkedInCurrentGeneration tables.1.2 = [];
  fi_elements : length (m_partitionedElements tables.1.2) = length evs;
  fi_positions : length (m_elementPositionInPartitionedNodes tables.1.2) = length evs;
  fi_map : length (m_elementToSetMap tables.1.2) = length evs;
  fi_entries : forall e' i k b, e' < e -> evs !! e' = Some (i, (k, b)) ->
    let t := place targetKeys e' (Z.to_nat b) in let j := place symbolKeys e' k in
    tables.1.1.2 !! t = Some i /\ m_partitionedElements tables.1.2 !! j = Some t /\ m_elementPositionInPartitionedNodes tables.1.2 !! t = Some j /\ m_elementToSetMap tables.1.2 !! t = Some k }.

Lemma fill_step e i k b tables : evs !! e = Some (i, (k, b)) -> Filled e tables -> exists tables', fillTables startsOf tables i (k, b) = Some tables' /\ Filled (S e) tables'.
Proof using evs_ok.
  intros He [F1 F2 F3 F4 F5 F6 F7 F8 F9]. destruct tables as [[[sizes flat] tp] offs]. cbn [fst snd] in *. subst sizes offs. pose proof (Forall_lookup_1 _ _ _ _ evs_ok He) as (Hi & Hk & Hb). cbn in Hi, Hk, Hb.
  pose proof (target_key e i k b He) as Ht. pose proof (symbol_key e i k b He) as Hs. set (v := Z.to_nat b) in *. set (t := place targetKeys e v). set (j := place symbolKeys e k).
  assert (t < length evs) as Htm by (rewrite <- length_targetKeys; by apply place_lt). assert (j < length evs) as Hjm by (rewrite <- length_symbolKeys; by apply place_lt).
  unfold fillTables. fold v. unfold startsOf. rewrite !lookup_tab by done. cbn [mbind option_bind]. change (below v targetKeys + cnt v (take e targetKeys)) with t.
  rewrite (store_spec t i) by lia. cbn [mbind option_bind]. unfold startOffsetOfSet. rewrite F4. unfold setsOf at 1. rewrite lookup_tab by done. cbn [mbind option_bind fmap option_fmap option_map start].
  change (below k symbolKeys + cnt k (take e symbolKeys)) with j. rewrite (store_tab K _ (fun k => cnt k (take (S e) symbolKeys))) by first [done|rewrite (take_S_r _ _ _ Hs), cnt_snoc, decide_True by done; lia|intros w Hw; rewrite (take_S_r _ _ _ Hs), cnt_snoc, decide_False by done; lia]. cbn [mbind option_bind].
  unfold setElementUnchecked. rewrite option_guard_True by (rewrite F4; unfold setsOf; by rewrite length_tab). cbn [mbind option_bind]. rewrite (store_spec j) by lia. cbn [mbind option_bind]. rewrite (store_spec t j) by lia. cbn [mbind option_bind].
  rewrite (store_spec t k) by lia. cbn [mbind option_bind]. rewrite increment_spec by done. cbn [mbind option_bind]. rewrite <- (take_S_r _ _ _ Ht). eexists. split; [reflexivity|].
  split; cbn [fst snd m_sets m_partitionedElements m_elementPositionInPartitionedNodes m_elementToSetMap m_setsMarkedInCurrentGeneration]; rewrite ?length_insert; try done.
  intros e' i' k' b' He' Hev. destruct (decide (e' = e)) as [->|Hne].
  - rewrite He in Hev. injection Hev as <- <- <-. fold v t j. cbv zeta. rewrite !list_lookup_insert_eq by lia. done.
  - destruct (F9 e' i' k' b' ltac:(lia) Hev) as (G1 & G2 & G3 & G4). cbv zeta. pose proof (target_key e' i' k' b' Hev) as Ht'. pose proof (symbol_key e' i' k' b' Hev) as Hs'.
    assert (t <> place targetKeys e' (Z.to_nat b')) as N1 by (intros E; apply Hne, (place_inj targetKeys e' e (Z.to_nat b') v); [done|done|by symmetry]). assert (j <> place symbolKeys e' k') as N2 by (intros E; apply Hne, (place_inj symbolKeys e' e k' k); [done|done|by symmetry]).
    rewrite !list_lookup_insert_ne by done. done.
Qed.

Lemma fill_loop tables : Filled 0 tables -> exists tables', foldlM (fun x ev => fillTables startsOf x ev.1 ev.2) tables evs = Some tables' /\ Filled (length evs) tables'.
Proof using evs_ok.
  intros H0. assert (forall pre rest tables, evs = pre ++ rest -> Filled (length pre) tables -> exists tables', foldlM (fun x ev => fillTables startsOf x ev.1 ev.2) tables rest = Some tables' /\ Filled (length evs) tables') as Hind.
  - intros pre rest. revert pre. induction rest as [|[i [k b]] rest IH]; intros pre tab1 E HF; [exists tab1; rewrite E, app_nil_r; done|]. cbn [foldlM fst snd].
    destruct (fill_step (length pre) i k b tab1) as (tab2 & -> & HF2); [rewrite E; by apply list_lookup_middle|done|]. cbn [mbind option_bind]. apply (IH (pre ++ [(i, (k, b))])); [by rewrite <- app_assoc|]. by rewrite length_app, Nat.add_1_r.
  - by apply (Hind []).
Qed.

(** The transition at a position of the flattened table. *)
Definition eventAt (t : nat) : nat * (nat * Z) := default (0, (0, 0%Z)) ('(_, e) ← list_find (fun e => place targetKeys e (targetKeys !!! e) = t) (seq 0 (length evs)); evs !! e).
Definition srcOf (t : nat) : nat := (eventAt t).1.
Definition symOf (t : nat) : nat := (eventAt t).2.1.
Definition tgtOf (t : nat) : nat := Z.to_nat (eventAt t).2.2.

Lemma eventAt_place e i k b : evs !! e = Some (i, (k, b)) -> eventAt (place targetKeys e (Z.to_nat b)) = (i, (k, b)).
Proof.
  intros He. pose proof (target_key e i k b He) as Ht. assert (e < length evs) as Hlt by (by eapply lookup_lt_Some). unfold eventAt.
  destruct (list_find_elem_of (fun e' => place targetKeys e' (targetKeys !!! e') = place targetKeys e (Z.to_nat b)) (seq 0 (length evs)) e) as [[x e'] E].
  - apply elem_of_seq. lia.
  - by rewrite (list_lookup_total_correct _ _ _ Ht).
  - rewrite E. apply list_find_Some in E as (Hx & Hp & _). apply lookup_seq in Hx as [-> Hx]. destruct (lookup_lt_is_Some_2 targetKeys x ltac:(rewrite length_targetKeys; lia)) as [v Hv]. cbn in Hp. rewrite (list_lookup_total_correct _ _ _ Hv) in Hp.
    assert (x = e) as -> by (by apply (place_inj targetKeys x e v (Z.to_nat b))). cbn [mbind option_bind Nat.add]. by rewrite He.
Qed.

Lemma position_event t : t < length evs -> exists e i k b, evs !! e = Some (i, (k, b)) /\ t = place targetKeys e (Z.to_nat b) /\ srcOf t = i /\ symOf t = k /\ tgtOf t = Z.to_nat b.
Proof.
  intros Ht. destruct (place_surj targetKeys t) as (e & v & Hv & <-); [by rewrite length_targetKeys|]. destruct (lookup_lt_is_Some_2 evs e) as [[i [k b]] He]; [rewrite <- length_targetKeys; by eapply lookup_lt_Some|].
  pose proof (target_key e i k b He) as Ht'. rewrite Hv in Ht'. injection Ht' as ->. exists e, i, k, b. unfold srcOf, symOf, tgtOf. by rewrite (eventAt_place e i k b He).
Qed.

Section Done.

Context (sizes flat offs : list nat) (tp : Partition).
Hypothesis HF : Filled (length evs) (sizes, flat, tp, offs).
Hypothesis symbols_used : forall k, k < K -> 1 <= cnt k symbolKeys.
Hypothesis one_each : forall e e' i k b b', evs !! e = Some (i, (k, b)) -> evs !! e' = Some (i, (k, b')) -> e = e'.

Lemma src_spec t : t < length evs -> flat !! t = Some (srcOf t) /\ srcOf t < N.
Proof using evs_ok HF.
  intros Ht. destruct (position_event t Ht) as (e & i & k & b & He & -> & -> & _ & _). pose proof (Forall_lookup_1 _ _ _ _ evs_ok He) as (Hi & _). cbn in Hi. destruct (fi_entries _ _ HF e i k b ltac:(by eapply lookup_lt_Some) He) as (H & _). done.
Qed.

Lemma tgt_spec t : t < length evs -> tgtOf t < N.
Proof using evs_ok. intros Ht. destruct (position_event t Ht) as (e & i & k & b & He & -> & _ & _ & ->). by pose proof (Forall_lookup_1 _ _ _ _ evs_ok He) as (_ & _ & Hb). Qed.

Lemma incoming_spec v : v < N -> exists a b, startsOf !! v = Some a /\ sizes !! v = Some b /\ forall t, a <= t < a + b <-> t < length evs /\ tgtOf t = v.
Proof using HF.
  intros Hv. exists (below v targetKeys), (cnt v targetKeys). split; [exact (lookup_tab N (fun v => below v targetKeys) v Hv)|]. pose proof (fi_sizes _ _ HF) as E. cbn in E. rewrite E, lookup_tab, firstn_all2 by first [done|rewrite length_targetKeys; lia]. split; [done|]. intros t. split.
  - intros Ht. assert (t < length evs) as Htm by (rewrite <- length_targetKeys; pose proof (below_length (S v) targetKeys) as Hb; rewrite below_S in Hb; lia). split; [done|].
    destruct (position_event t Htm) as (e & i & k & b & He & -> & _ & _ & ->). by apply (place_key targetKeys e _ v (target_key e i k b He)).
  - intros [Htm Hv']. destruct (position_event t Htm) as (e & i & k & b & He & -> & _ & _ & Hb). apply (place_key targetKeys e _ v (target_key e i k b He)). split; [by eapply target_key|congruence].
Qed.

Lemma deterministic_spec t t' : t < length evs -> t' < length evs -> srcOf t = srcOf t' -> symOf t = symOf t' -> t = t'.
Proof using one_each.
  intros Ht Ht' Es Ey. destruct (position_event t Ht) as (e & i & k & b & He & -> & E1 & E2 & _), (position_event t' Ht') as (e' & i' & k' & b' & He' & -> & E1' & E2' & _).
  rewrite E1, E1' in Es. rewrite E2, E2' in Ey. subst i' k'. assert (e = e') as <- by (by eapply one_each). rewrite He in He'. by injection He' as ->.
Qed.

Lemma partition_spec : Wf (length evs) tp /\ Clean tp /\ length (m_sets tp) = K /\ forall t, t < length evs -> cls tp t = Some (symOf t).
Proof using evs_ok HF symbols_used.
  pose proof HF as [_ _ _ F4 F5 F6 F7 F8 F9]. cbn [fst snd] in *.
  assert (forall t, t < length evs -> cls tp t = Some (symOf t)) as Hcls by (intros t Ht; destruct (position_event t Ht) as (e & i & k & b & He & -> & _ & -> & _); destruct (F9 e i k b ltac:(by eapply lookup_lt_Some) He) as (_ & _ & _ & ?); done).
  assert (forall t, t < length evs -> exists e i k b, evs !! e = Some (i, (k, b)) /\ symOf t = k /\ t = place targetKeys e (Z.to_nat b) /\ m_elementPositionInPartitionedNodes tp !! t = Some (place symbolKeys e k) /\ m_partitionedElements tp !! place symbolKeys e k = Some t) as Hev.
  { intros t Ht. destruct (position_event t Ht) as (e & i & k & b & He & -> & _ & Hk & _). destruct (F9 e i k b ltac:(by eapply lookup_lt_Some) He) as (_ & ? & ? & _). exists e, i, k, b. done. }
  split_and!; [split| | |done]; try done.
  - intros t j. split.
    + intros Hj. assert (t < length evs) as Ht by (rewrite <- F7; by eapply lookup_lt_Some). destruct (Hev t Ht) as (e & i & k & b & _ & _ & _ & Hp & He). congruence.
    + intros Hj. assert (j < length symbolKeys) as Hjm by (rewrite length_symbolKeys, <- F6; by eapply lookup_lt_Some). destruct (place_surj symbolKeys j Hjm) as (e & k & Hk & <-).
      destruct (lookup_lt_is_Some_2 evs e) as [[i [k' b]] He]; [rewrite <- length_symbolKeys; by eapply lookup_lt_Some|]. pose proof (symbol_key e i k' b He) as Hk'. rewrite Hk in Hk'. injection Hk' as <-. destruct (F9 e i k b ltac:(by eapply lookup_lt_Some) He) as (_ & G2 & G3 & _). congruence.
  - intros k s. rewrite F4. unfold setsOf. intros [Hk ->]%lookup_tab_Some. cbn. specialize (symbols_used k Hk). pose proof (below_length (S k) symbolKeys) as Hb. rewrite below_S, length_symbolKeys in Hb. lia.
  - intros t k. rewrite F4. split.
    + intros Hk. assert (t < length evs) as Ht by (rewrite <- F8; by eapply lookup_lt_Some). rewrite Hcls in Hk by done. injection Hk as <-. destruct (Hev t Ht) as (e & i & k & b & He & -> & _ & Hp & _).
      exists (mkSet (below k symbolKeys) (cnt k symbolKeys) 0), (place symbolKeys e k). split; [apply (lookup_tab K (fun k => mkSet (below k symbolKeys) (cnt k symbolKeys) 0)); by pose proof (Forall_lookup_1 _ _ _ _ evs_ok He) as (_ & ? & _)|]. split; [done|]. cbn [start size]. apply (place_key symbolKeys e k k (symbol_key e i k b He)). split; [by eapply symbol_key|done].
    + intros (s & j & Hs & Hj & Hr). apply lookup_tab_Some in Hs as [Hk ->]. cbn [start size] in Hr. assert (t < length evs) as Ht by (rewrite <- F7; by eapply lookup_lt_Some). rewrite Hcls by done. destruct (Hev t Ht) as (e & i & k' & b & He & -> & _ & Hp & _).
      rewrite Hp in Hj. injection Hj as <-. apply (place_key symbolKeys e k' k (symbol_key e i k' b He)) in Hr as [_ ->]. done.
  - split; [done|]. intros k s. rewrite F4. by intros [_ ->]%lookup_tab_Some.
  - rewrite F4. apply length_tab.
Qed.

End Done.

End Tables.
