(* ===== verification/DFAMinimizerCorrect.v ===== *)
(** * DFAMinimizerCorrect: the minimized automaton

    The tables of the minimizer are those of the automaton, so the refinement
    ends with the nodes that no word tells apart together; the automaton on
    their representatives gives the same actions, and no two of its nodes do
    the same. *)

From stdpp Require Import gmap.
From S2P Require Import Prelude DFA DFATransitions DFACompile DFASimulation DFAProperties MutableRangeList MutableRangeListCorrect DFAMinimizer DFAPartition DFASingular.
Import MutableRangeList DFAMinimizer.

#[local] Open Scope nat_scope.

(** ** The tables of an automaton *)

Section Constructor.

Context (dfa : DFA.DFA) (tss : list Transitions).
Hypothesis tss_nodes : NodeTransitions dfa tss.
Hypothesis tss_targets : forall i ts r b, tss !! i = Some ts -> (r, b) ∈ ts -> (0 <= b < Z.of_nat (length (DFA.nodes dfa)))%Z.
Hypothesis tss_some : exists i ts, tss !! i = Some ts /\ ts <> [].

Let N := length (DFA.nodes dfa).

Lemma length_tss : length tss = N.
Proof using tss_nodes. symmetry. by eapply Forall2_length. Qed.

Lemma tss_okTransitions : Forall okTransitions tss.
Proof using tss_nodes. apply Forall_lookup_2. intros i ts Hi. by destruct (Forall2_lookup_r _ _ _ _ _ tss_nodes Hi) as (node & _ & _ & _ & ?). Qed.

(** The calls of the handler. *)
Definition events (firsts : list Z) : list (nat * (nat * Z)) := concat ((fun node => (fun call => (node.1, call)) <$> intersectionLoop firsts 0 node.2) <$> numbered tss).

Lemma forTransitions_spec {X : Type} firsts (handler : X -> nat -> nat * Z -> option X) x : firsts <> [] ->
  forTransitions dfa firsts handler x = foldlM (fun x ev => handler x ev.1 ev.2) x (events firsts).
Proof using tss_nodes.
  intros Hne. unfold forTransitions. etransitivity; [exact (foldlM_nodes dfa (fun x i ts => calls ← iterateIntersections firsts ts; foldlM (fun x call => handler x i call) x calls) _ _ 0 x tss_nodes)|].
  unfold events. rewrite <- (foldlM_bind (fun x ev => handler x ev.1 ev.2) (fun node => Some ((fun call => (node.1, call)) <$> intersectionLoop firsts 0 node.2))) by done.
  apply foldlM_ext. intros [i ts] s _. unfold iterateIntersections. rewrite option_guard_True by done. cbn [mbind option_bind fst snd]. generalize (intersectionLoop firsts 0 ts) as l. intros l. revert s.
  induction l as [|c l IH]; intros s; [done|]. cbn [foldlM fmap list_fmap fst snd]. destruct (handler s i c) as [s'|]; cbn [mbind option_bind]; [|done]. apply IH.
Qed.

Context (vs : list (Span (list (nat * Span Z)))).
Hypothesis vs_ordered : ordered (-1) vs.
Hypothesis vs_cover : forall x, find x vs = noCover (cover (numbered tss) x).

Let evs := events (lo <$> vs).

Lemma calls_spec i ts : tss !! i = Some ts ->
  NoDup (intersectionLoop (lo <$> vs) 0 ts).*1
  /\ forall k b, (k, b) ∈ intersectionLoop (lo <$> vs) 0 ts <-> exists v, vs !! k = Some v /\ goes ts (lo v) = Some b.
Proof using tss_nodes vs_ordered vs_cover.
  intros Hi. destruct (intersectionLoop_spec ts vs 0 (-1)) as [H1 H2]; [by eapply Forall_lookup_1; [apply tss_okTransitions|]|done|by eapply aligned_node; [apply tss_okTransitions|..]|]. split; [done|].
  intros k b. rewrite H2. split; [intros (j & v & -> & ? & ?); by exists v|intros (v & ? & ?); by exists k, v].
Qed.

Lemma elem_events i k b : (i, (k, b)) ∈ evs <-> exists ts v, tss !! i = Some ts /\ vs !! k = Some v /\ goes ts (lo v) = Some b.
Proof using tss_nodes vs_ordered vs_cover.
  unfold evs, events. rewrite list_elem_of_In, in_concat. setoid_rewrite <- list_elem_of_In. split.
  - intros (l & ([i' ts] & -> & Hn%elem_numbered)%list_elem_of_fmap & (c & [= <- <-] & Hc)%list_elem_of_fmap). cbn in Hc. apply (calls_spec i ts Hn) in Hc as (v & ? & ?). by exists ts, v.
  - intros (ts & v & Hi & Hk & Hg). eexists. split; [apply list_elem_of_fmap; exists (i, ts); split; [reflexivity|by apply elem_numbered]|]. apply list_elem_of_fmap. exists (k, b). split; [done|]. apply (calls_spec i ts Hi). by exists v.
Qed.

(** A node has at most one transition for a singular range. *)
Lemma NoDup_events : NoDup ((fun ev => (ev.1, ev.2.1)) <$> evs).
Proof using tss_nodes vs_ordered vs_cover.
  unfold evs, events. assert (forall l, NoDup l.*1 -> (forall i ts, (i, ts) ∈ l -> tss !! i = Some ts) ->
    NoDup ((fun ev : nat * (nat * Z) => (ev.1, ev.2.1)) <$> concat ((fun node : nat * Transitions => (fun call => (node.1, call)) <$> intersectionLoop (lo <$> vs) 0 node.2) <$> l))
    /\ forall i k, (i, k) ∈ (fun ev : nat * (nat * Z) => (ev.1, ev.2.1)) <$> concat ((fun node : nat * Transitions => (fun call => (node.1, call)) <$> intersectionLoop (lo <$> vs) 0 node.2) <$> l) -> i ∈ l.*1) as H.
  - induction l as [|[i ts] l IH]; intros HD Hl; [split; [constructor|by intros i k ?%not_elem_of_nil]|]. cbn [fmap list_fmap fst snd] in HD. apply NoDup_cons in HD as [Hi HD]. destruct (IH HD) as [IH1 IH2]; [intros i' ts' Hin; apply Hl; by right|].
    cbn [fmap list_fmap concat fst snd]. change (list_fmap _ _ (fun node : nat * Transitions => (fun call => (node.1, call)) <$> intersectionLoop (lo <$> vs) 0 node.2) l) with ((fun node : nat * Transitions => (fun call => (node.1, call)) <$> intersectionLoop (lo <$> vs) 0 node.2) <$> l).
    change (list_fmap _ _ (fun ev : nat * (nat * Z) => (ev.1, ev.2.1))) with (fmap (M := list) (fun ev : nat * (nat * Z) => (ev.1, ev.2.1))). rewrite fmap_app, <- list_fmap_compose. destruct (calls_spec i ts (Hl i ts ltac:(left))) as [HC _]. split.
    + apply NoDup_app. split_and!; [| |done].
      * rewrite (list_fmap_ext _ ((pair i) ∘ fst)) by (by intros _ [k b] _). rewrite list_fmap_compose. apply NoDup_fmap; [|done]. by intros k k' [=].
      * intros [i' k] (c & [= -> ->] & _)%list_elem_of_fmap Hin%IH2. by apply Hi.
    + intros i' k [(c & [= -> ->] & _)%list_elem_of_fmap|Hin%IH2]%elem_of_app; [left|by right].
  - apply H; [|intros i ts Hin; by apply elem_numbered]. unfold numbered. rewrite fst_zip by (rewrite length_seq; done). apply NoDup_seq.
Qed.

Lemma events_ok : Forall (fun ev => ev.1 < N /\ ev.2.1 < length vs /\ Z.to_nat ev.2.2 < N) evs.
Proof using tss_nodes tss_targets vs_ordered vs_cover.
  apply Forall_forall. intros [i [k b]] (ts & v & Hi & Hk & Hg)%elem_events. cbn. split_and!; [rewrite <- length_tss; by eapply lookup_lt_Some|by eapply lookup_lt_Some|]. destruct (goes_target ts _ b Hg) as (r & Hr & _). pose proof (tss_targets i ts r b Hi Hr). unfold N. lia.
Qed.

Lemma events_one e e' i k b b' : evs !! e = Some (i, (k, b)) -> evs !! e' = Some (i, (k, b')) -> e = e'.
Proof using tss_nodes vs_ordered vs_cover. intros H H'. eapply (NoDup_lookup _ _ _ (i, k) NoDup_events); rewrite list_lookup_fmap; [by rewrite H|by rewrite H']. Qed.

(** The counters of the singular ranges are the numbers of transitions. *)
Lemma count_events k v : vs !! k = Some v -> cnt k (symbolKeys evs) = length (val v).
Proof using tss_nodes vs_ordered vs_cover.
  intros Hk. pose proof (span_bounds vs vs_ordered k v Hk) as Hb. rewrite <- (cover_range tss vs vs_ordered vs_cover k v (lo v) Hk ltac:(lia)). unfold symbolKeys, evs, events, cover.
  assert (forall i ts, (i, ts) ∈ numbered tss -> tss !! i = Some ts) as Hl by (intros i ts; apply elem_numbered). revert Hl. generalize (numbered tss) as l. induction l as [|[i ts] l IH]; intros Hl; [done|]. cbn [fmap list_fmap concat fst snd omap list_omap].
  change (list_fmap _ _ (fun ev : nat * (nat * Z) => ev.2.1)) with (fmap (M := list) (fun ev : nat * (nat * Z) => ev.2.1)). rewrite fmap_app, cnt_app, <- list_fmap_compose. rewrite (list_fmap_ext _ fst) by done.
  destruct (calls_spec i ts (Hl i ts ltac:(left))) as [HD Hc]. assert (cnt k (intersectionLoop (lo <$> vs) 0 ts).*1 = match find (lo v) (tagged (i, ts)) with Some _ => 1 | None => 0 end) as ->.
  - unfold tagged. cbn [fst snd]. destruct (find (lo v) (tag i <$> spansOfTransitions ts)) as [p|] eqn:Ef.
    + destruct (find_tag_Some _ _ _ _ Ef) as (_ & _ & _ & Hg). rewrite find_goes in Hg. assert (k ∈ (intersectionLoop (lo <$> vs) 0 ts).*1) as Hin by (apply list_elem_of_fmap; exists (k, val p.2); split; [done|]; apply Hc; by exists v).
      by apply cnt_NoDup.
    + apply find_tag in Ef. rewrite find_goes in Ef. apply cnt_notin. intros ([k' b] & Ek & Hin)%list_elem_of_fmap. cbn in Ek. subst k'. apply Hc in Hin as (v' & Hk' & Hg). congruence.
  - rewrite IH by (intros i' ts' Hin; apply Hl; by right). by destruct (find (lo v) (tagged (i, ts))).
Qed.

Lemma vs_nonempty : lo <$> vs <> [].
Proof using tss_nodes tss_some vs_ordered vs_cover.
  destruct tss_some as (i & ts & Hi & Hne). destruct ts as [|[r b] ts]; [done|]. pose proof (Forall_lookup_1 _ _ _ _ tss_okTransitions Hi) as Hok. apply okTransitions_cons in Hok as ((H1 & _) & _). cbn in H1.
  destruct (goes_singular tss vs vs_cover i _ (DFA.first r) b Hi) as (k & v & Hk & _); [cbn; unfold inRange; by rewrite Z.leb_refl, (proj2 (Z.leb_le _ _)) by lia|]. by destruct vs.
Qed.

Lemma counters_tab : (fun v : Span (list (nat * Span Z)) => length (val v)) <$> vs = (fun k => cnt k (symbolKeys evs)) <$> seq 0 (length vs).
Proof using tss_nodes vs_ordered vs_cover.
  apply list_eq. intros k. rewrite !list_lookup_fmap. destruct (vs !! k) as [v|] eqn:Ek.
  - rewrite lookup_seq_lt by (by eapply lookup_lt_Some). cbn. by rewrite (count_events k v Ek).
  - apply lookup_ge_None_1 in Ek. by rewrite lookup_seq_ge.
Qed.

Lemma countLoop_spec : foldlM (fun counts ev => increment (Z.to_nat ev.2.2) counts) (replicate N 0) evs = Some (tab N (fun v => cnt v (targetKeys evs))).
Proof using tss_nodes tss_targets vs_ordered vs_cover.
  assert (forall l done, Forall (fun ev => Z.to_nat ev.2.2 < N) l -> foldlM (fun counts ev => increment (Z.to_nat ev.2.2) counts) (tab N (fun v => cnt v done)) l = Some (tab N (fun v => cnt v (done ++ targetKeys l)))) as H.
  - induction l as [|ev l IH]; intros done Hl; cbn [foldlM]; [by rewrite app_nil_r|]. apply Forall_cons in Hl as [He Hl]. rewrite increment_spec by lia. cbn [mbind option_bind]. rewrite IH by done. do 2 f_equal. by rewrite <- app_assoc.
  - rewrite replicate_tab. apply (H evs []). eapply Forall_impl; [exact events_ok|]. by intros ev (_ & _ & ?).
Qed.

(** The state of the loop that fills the tables, at its start. *)
Lemma filled_start : Filled N (length vs) evs 0 (replicate N 0, replicate (length evs) 0, mkPartition (setsOf (length vs) evs) (replicate (length evs) 0) (replicate (length evs) 0) (replicate (length evs) 0) [], replicate (length vs) 0).
Proof. split; cbn [fst snd m_sets m_partitionedElements m_elementPositionInPartitionedNodes m_elementToSetMap m_setsMarkedInCurrentGeneration]; rewrite ?length_replicate, ?replicate_tab; try done. intros. lia. Qed.

Lemma newFullGraphPartition_fills ranges singular : singularTransitions dfa = Some ranges -> toList ranges = Some singular -> first <$> singular = lo <$> vs ->
  data <$> singular = (fun v : Span (list (nat * Span Z)) => length (val v)) <$> vs ->
  exists sizes flat tp offs, newFullGraphPartition dfa = Some (mkFull (startsOf N evs) sizes flat (initialize N) tp 0) /\ Filled N (length vs) evs (length evs) (sizes, flat, tp, offs).
Proof using tss_nodes tss_targets tss_some vs_ordered vs_cover.
  intros E1 E2 E3 E4. unfold newFullGraphPartition. rewrite E1. cbn [mbind option_bind]. rewrite E2. cbn [mbind option_bind]. rewrite E3, E4, counters_tab. pose proof (addSets_spec (symbolKeys evs) (length vs) 0 emptyPartition) as HA. rewrite below_0 in HA. rewrite HA. cbv iota beta.
  rewrite (forTransitions_spec (lo <$> vs) _ _ vs_nonempty). fold evs N. rewrite (foldlM_ext _ (fun counts ev => increment (Z.to_nat ev.2.2) counts)) by (by intros [i [k b]] s _). rewrite countLoop_spec. cbn [mbind option_bind].
  pose proof (accumulate_spec (targetKeys evs) N 0) as HC. rewrite below_0 in HC. unfold tab. rewrite HC. cbv iota beta. rewrite Nat.add_0_l. cbn [Nat.add].
  rewrite (below_all N), length_targetKeys by (unfold targetKeys; apply Forall_fmap; eapply Forall_impl; [exact events_ok|]; by intros ev (_ & _ & ?)).
  rewrite option_guard_True by (rewrite (below_all (length vs)), length_symbolKeys; [done|]; unfold symbolKeys; apply Forall_fmap; eapply Forall_impl; [exact events_ok|]; by intros ev (_ & ? & _)). cbn [mbind option_bind].
  rewrite (forTransitions_spec (lo <$> vs) _ _ vs_nonempty). fold evs. unfold reserveUninitializedCapacity, partition_size. cbn [m_sets m_setsMarkedInCurrentGeneration emptyPartition app]. rewrite length_fmap, length_seq.
  destruct (fill_loop N (length vs) evs events_ok _ filled_start) as ([[[sizes flat] tp] offs] & HF & HFilled). unfold startsOf, setsOf, tab in HF. rewrite HF. cbn [mbind option_bind]. by exists sizes, flat, tp, offs.
Qed.

End Constructor.

Lemma ordered_unique {D : Type} (vs : list (Span D)) k k' v v' c : ordered (-1) vs -> vs !! k = Some v -> vs !! k' = Some v' -> (lo v <= c <= hi v)%Z -> (lo v' <= c <= hi v')%Z -> k = k'.
Proof.
  generalize (-1)%Z as x. revert k k'. induction vs as [|w vs IH]; intros k k' x Ho Hk Hk' Hc Hc'; [done|]. destruct Ho as (_ & _ & Ho). pose proof (ordered_bounds _ _ Ho) as Hb. rewrite Forall_forall in Hb.
  destruct k as [|k], k' as [|k']; cbn in Hk, Hk'; try done.
  - injection Hk as ->. specialize (Hb v' (list_elem_of_lookup_2 _ _ _ Hk')). cbn in Hb. lia.
  - injection Hk' as ->. specialize (Hb v (list_elem_of_lookup_2 _ _ _ Hk)). cbn in Hb. lia.
  - f_equal. by eapply IH.
Qed.

(** The tables, with their transitions: [hasSym c k] if the character is in the
    singular range [k]. *)
Record Tables (tss : list Transitions) (N m : nat) (starts sizes flat : list nat) (tp : Partition) (src tgt sym : nat -> nat) (hasSym : Z -> nat -> Prop) : Prop := {
  tb_flat : length flat = m;
  tb_src : forall t, t < m -> flat !! t = Some (src t) /\ src t < N;
  tb_tgt : forall t, t < m -> tgt t < N;
  tb_incoming : forall v, v < N -> exists a b, starts !! v = Some a /\ sizes !! v = Some b /\ forall t, a <= t < a + b <-> t < m /\ tgt t = v;
  tb_deterministic : forall t t', t < m -> t' < m -> src t = src t' -> sym t = sym t' -> t = t';
  tb_wf : Wf m tp;
  tb_clean : Clean tp;
  tb_cls : forall t, t < m -> cls tp t = Some (sym t);
  tb_goes : forall t ts c, t < m -> tss !! src t = Some ts -> hasSym c (sym t) -> goes ts c = Some (Z.of_nat (tgt t));
  tb_transition : forall i ts c b, tss !! i = Some ts -> goes ts c = Some b -> exists t, t < m /\ src t = i /\ Z.of_nat (tgt t) = b /\ hasSym c (sym t);
  tb_symbol : forall t, t < m -> exists c, hasSym c (sym t);
  tb_unique : forall c k k', hasSym c k -> hasSym c k' -> k = k' }.

Lemma newFullGraphPartition_spec dfa tss : NodeTransitions dfa tss -> (forall i ts r b, tss !! i = Some ts -> (r, b) ∈ ts -> (0 <= b < Z.of_nat (length (DFA.nodes dfa)))%Z) ->
  (exists i ts, tss !! i = Some ts /\ ts <> []) ->
  exists starts sizes flat tp m src tgt sym hasSym, newFullGraphPartition dfa = Some (mkFull starts sizes flat (initialize (length (DFA.nodes dfa))) tp 0)
    /\ Tables tss (length (DFA.nodes dfa)) m starts sizes flat tp src tgt sym hasSym.
Proof.
  intros Hn Ht Hs. destruct (singular_spec dfa tss Hn) as (ranges & singular & vs & E1 & E2 & E3 & E4 & Ho & Hc). destruct (newFullGraphPartition_fills dfa tss Hn Ht Hs vs Ho Hc ranges singular E1 E2 E3 E4) as (sizes & flat & tp & offs & E & HF).
  set (evs := events tss (lo <$> vs)) in *. pose proof (events_ok dfa tss Hn Ht vs Ho Hc) as Hev. fold evs in Hev.
  assert (forall k, k < length vs -> 1 <= cnt k (symbolKeys evs)) as Hused.
  { intros k Hk. destruct (lookup_lt_is_Some_2 vs k Hk) as [v Ev]. unfold evs. rewrite (count_events dfa tss Hn vs Ho Hc k v Ev). pose proof (span_bounds vs Ho k v Ev). pose proof (find_elem (lo v) (-1) vs v Ho (list_elem_of_lookup_2 _ _ _ Ev) ltac:(lia)) as Ef. rewrite Hc in Ef.
    unfold noCover in Ef. destruct (cover (numbered tss) (lo v)) as [|p l]; [done|]. injection Ef as <-. cbn. lia. }
  destruct (partition_spec _ _ _ Hev _ _ _ _ HF Hused) as (HW & HC & _ & Hcls).
  assert (forall t, t < length evs -> exists i k b ts v, srcOf evs t = i /\ symOf evs t = k /\ tgtOf evs t = Z.to_nat b /\ (0 <= b)%Z /\ tss !! i = Some ts /\ vs !! k = Some v /\ goes ts (lo v) = Some b) as Hpos.
  { intros t Htm. destruct (position_event evs t Htm) as (e & i & k & b & He & _ & H1 & H2 & H3). apply list_elem_of_lookup_2, (elem_events dfa tss Hn vs Ho Hc) in He as (ts & v & Hi & Hk & Hg). destruct (goes_target ts _ b Hg) as (r & Hr & _). specialize (Ht i ts r b Hi Hr).
    exists i, k, b, ts, v. split_and!; try done. lia. }
  exists (startsOf (length (DFA.nodes dfa)) evs), sizes, flat, tp, (length evs), (srcOf evs), (tgtOf evs), (symOf evs), (fun c k => exists v, vs !! k = Some v /\ (lo v <= c <= hi v)%Z). split; [exact E|]. split; try done.
  - exact (fi_flat _ _ _ _ _ HF).
  - eapply src_spec; [exact Hev|exact HF].
  - eapply tgt_spec; exact Hev.
  - eapply incoming_spec; exact HF.
  - apply deterministic_spec. intros e e' i k b b'. exact (events_one dfa tss Hn vs Ho Hc e e' i k b b').
  - intros t ts c Htm Hts (v & Hv & Hcv). destruct (Hpos t Htm) as (i & k & b & ts' & v' & E5 & E6 & E7 & Hb & Hi & Hk & Hg). rewrite E5, Hi in Hts. injection Hts as ->. rewrite E6, Hk in Hv. injection Hv as ->. rewrite (goes_range tss vs Ho Hc k v i ts c Hk Hi Hcv), Hg, E7. f_equal. lia.
  - intros i ts c b Hi Hg. destruct (goes_singular tss vs Hc i ts c b Hi Hg) as (k & v & Hk & Hv). pose proof Hg as Hg'. rewrite (goes_range tss vs Ho Hc k v i ts c Hk Hi Hv) in Hg'.
    assert ((i, (k, b)) ∈ evs) as He by (apply (elem_events dfa tss Hn vs Ho Hc); by exists ts, v). apply list_elem_of_lookup in He as [e He]. destruct (goes_target ts _ b Hg) as (r & Hr & _). specialize (Ht i ts r b Hi Hr).
    exists (place (targetKeys evs) e (Z.to_nat b)). unfold srcOf, tgtOf, symOf. rewrite (eventAt_place evs e i k b He). cbn [fst snd]. split_and!; try done; [|lia|by exists v]. rewrite <- length_targetKeys. apply place_lt. by eapply target_key.
  - intros t Htm. destruct (Hpos t Htm) as (i & k & b & ts & v & _ & E6 & _ & _ & _ & Hk & _). exists (lo v), v. rewrite E6. split; [done|]. pose proof (span_bounds vs Ho k v Hk). lia.
  - intros c k k' (v & Hk & Hv) (v' & Hk' & Hv'). by eapply ordered_unique.
Qed.

(** ** Automata that can be minimized *)

(** No node is killed, the slices of the nodes are in their arrays and do not
    overlap, and there is a transition. *)
Record okMinimize (dfa : DFA.DFA) : Prop := {
  min_root : (0 <= DFA.root dfa < Z.of_nat (length (DFA.nodes dfa)))%Z;
  min_node : forall i node, DFA.nodes dfa !! i = Some node ->
    DFA.isKilled node = false /\ okSlice (DFA.m_actionsStart node) (DFA.m_actionsLength node) /\ okSlice (DFA.m_transitionsStart node) (DFA.m_transitionsLength node)
    /\ exists acts ts, DFA.actions node dfa = Some acts /\ DFA.transitions node dfa = Some ts /\ okTransitions ts /\ forall r d, (r, d) ∈ ts -> (0 <= d < Z.of_nat (length (DFA.nodes dfa)))%Z;
  min_some : exists i node ts, DFA.nodes dfa !! i = Some node /\ DFA.transitions node dfa = Some ts /\ ts <> [];
  min_disjoint : forall i j node node' x, DFA.nodes dfa !! i = Some node -> DFA.nodes dfa !! j = Some node' -> i <> j ->
    ~ (x ∈ transitionSlice node /\ x ∈ transitionSlice node') /\ ~ (x ∈ actionSlice node /\ x ∈ actionSlice node') }.

(** What is seen of a node: the actions after each word. *)
Definition observe (dfa : DFA.DFA) (n : Z) (w : list Z) : option (list Z) := actionsOf dfa <$> walk dfa n w.

Lemma markNodes_spec starts sizes flat tp next l : forall np,
  foldlM (fun g v => markNode v g) (mkFull starts sizes flat np tp next) l = (np' ← foldlM (fun p e => markElementInCurrentGeneration e p) np l; Some (mkFull starts sizes flat np' tp next)).
Proof.
  induction l as [|v l IH]; intros np; [done|]. cbn [foldlM]. unfold markNode at 2. cbn [m_nodePartition m_flattenedTransitionsStartOffsetPerNode m_flattenedTransitionsSizePerNode m_flattenedTransitions m_transitionPartition m_nextTransitionSetToProcess].
  destruct (markElementInCurrentGeneration v np) as [np1|]; cbn [mbind option_bind]; [|done]. apply IH.
Qed.

Lemma initialize_wf n : 0 < n -> Wf n (initialize n) /\ Clean (initialize n) /\ forall a, a < n -> cls (initialize n) a = Some 0.
Proof.
  intros Hn. unfold initialize. destruct (Nat.eqb_spec n 0); [lia|]. assert (forall a, a < n -> replicate n 0 !! a = Some 0) as Hr by (intros a Ha; by apply lookup_replicate_2). split_and!; [split| |]; cbn [m_sets m_partitionedElements m_elementPositionInPartitionedNodes m_elementToSetMap].
  - apply length_seq.
  - apply length_seq.
  - apply length_replicate.
  - intros e i. rewrite !lookup_seq. naive_solver.
  - intros k s [-> <-]%list_lookup_singleton_Some. cbn. lia.
  - intros e k. split.
    + intros [-> He]%lookup_replicate_1. exists (mkSet 0 n 0), e. split_and!; try done; cbn; try lia. by rewrite lookup_seq_lt.
    + intros (s & i & [-> <-]%list_lookup_singleton_Some & [-> He]%lookup_seq & _). by apply Hr.
  - split; [done|]. cbn. by intros k s [-> <-]%list_lookup_singleton_Some.
  - intros a Ha. by apply Hr.
Qed.

Section Minimize.

Context (stateOrder : gmap (list Z) (list nat) -> list (list nat)) (dfa : DFA.DFA).
Hypothesis stateOrder_ok : forall states, stateOrder states ≡ₚ (map_to_list states).*2.
Hypothesis Hok : okMinimize dfa.

Let N := length (DFA.nodes dfa).

Definition actsAt (i : nat) : list Z := actionsOf dfa (Z.of_nat i).

Lemma node_at_nat i : DFA.at_ (DFA.nodes dfa) (Z.of_nat i) = DFA.nodes dfa !! i.
Proof. unfold DFA.at_. rewrite (proj2 (Z.ltb_ge _ _)), Nat2Z.id by lia. done. Qed.

Lemma mapM_length_eq {A B : Type} (f : A -> option B) l k : mapM f l = Some k -> length k = length l.
Proof. intros H. apply mapM_Some in H. by apply Forall2_length in H. Qed.

Lemma actsAt_node i node : DFA.nodes dfa !! i = Some node -> DFA.actions node dfa = Some (actsAt i) /\ (DFA.hasActions node = true <-> actsAt i <> []).
Proof using Hok.
  intros Hi. destruct (min_node _ Hok i node Hi) as (_ & Hs & _ & acts & ts & Ea & _). unfold actsAt, actionsOf. unfold DFABytecodeCompiler.DFABytecodeCompiler.at_. rewrite node_at_nat, Hi. cbn [mbind option_bind]. rewrite Ea. cbn [default id]. split; [done|].
  unfold DFA.actions in Ea. apply mapM_length_eq in Ea. unfold actionSlice in *. rewrite slice_seqZ, length_seqZ in Ea by done. unfold DFA.hasActions. rewrite negb_true_iff, Z.eqb_neq. destruct Hs as (_ & Hs & _). destruct acts; cbn in Ea; split; intros; try done; lia.
Qed.

(** *** Final states *)

Definition FinalStates (k : nat) (states : gmap (list Z) (list nat)) : Prop :=
  (forall key l, states !! key = Some l -> NoDup l /\ forall i, i ∈ l <-> i < k /\ i < N /\ actsAt i <> [] /\ actsAt i = key)
  /\ forall i, i < k -> i < N -> actsAt i <> [] -> is_Some (states !! actsAt i).

Lemma addFinalState_spec k node states : DFA.nodes dfa !! k = Some node -> FinalStates k states -> exists states', addFinalState dfa states (k, node) = Some states' /\ FinalStates (S k) states'.
Proof using Hok.
  intros Hk [F1 F2]. pose proof (lookup_lt_Some _ _ _ Hk) as Hlt. fold N in Hlt. destruct (actsAt_node k node Hk) as [Ea Hh]. unfold addFinalState. destruct (DFA.hasActions node).
  - rewrite Ea. cbn [mbind option_bind]. eexists. split; [reflexivity|]. assert (actsAt k <> []) as Hne by (by apply Hh). split.
    + intros key l. rewrite lookup_insert. case_decide as E.
      * intros [= <-]. subst key. destruct (states !! actsAt k) as [l|] eqn:El; cbn [default id].
        -- destruct (F1 _ _ El) as [HD Hl]. split; [apply NoDup_app; split_and!; [done| |apply NoDup_singleton]; intros x Hx ->%list_elem_of_singleton; apply Hl in Hx; lia|]. intros i. rewrite elem_of_app, Hl, list_elem_of_singleton. split; [intros [?| ->]; [naive_solver lia|split_and!; try done; lia]|]. intros (H1 & H2 & H3 & H4). destruct (decide (i = k)); [by right|left; split_and!; try done; lia].
        -- rewrite app_nil_l. split; [apply NoDup_singleton|]. intros i. rewrite list_elem_of_singleton. split; [intros ->; split_and!; try done; lia|]. intros (H1 & H2 & H3 & H4). destruct (decide (i = k)); [done|]. destruct (F2 i ltac:(lia) H2 H3) as [l Hl]. congruence.
      * intros El. destruct (F1 _ _ El) as [HD Hl]. split; [done|]. intros i. rewrite Hl. split; [intros (? & ? & ? & ?); split_and!; try done; lia|]. intros (H1 & H2 & H3 & H4). split_and!; try done. destruct (decide (i = k)) as [->|]; [done|lia].
    + intros i H1 H2 H3. rewrite lookup_insert. case_decide; [done|]. apply F2; try done. destruct (decide (i = k)) as [->|]; [done|lia].
  - exists states. split; [done|]. assert (actsAt k = []) as E by (destruct (actsAt k); [done|]; by destruct Hh as [_ Hh]; specialize (Hh ltac:(done))). split.
    + intros key l El. destruct (F1 _ _ El) as [HD Hl]. split; [done|]. intros i. rewrite Hl. split; [intros (? & ? & ? & ?); split_and!; try done; lia|]. intros (H1 & H2 & H3 & H4). split_and!; try done. destruct (decide (i = k)) as [->|]; [done|lia].
    + intros i H1 H2 H3. apply F2; try done. destruct (decide (i = k)) as [->|]; [done|lia].
Qed.

Lemma finalStates_spec : exists states, foldlM (addFinalState dfa) ∅ (zip (seq 0 N) (DFA.nodes dfa)) = Some states /\ FinalStates N states.
Proof using Hok.
  assert (forall l k states, drop k (DFA.nodes dfa) = l -> FinalStates k states -> exists states', foldlM (addFinalState dfa) states (zip (seq k (length l)) l) = Some states' /\ FinalStates (k + length l) states') as H.
  - induction l as [|node l IH]; intros k states Hd HF; [exists states; by rewrite Nat.add_0_r|]. cbn [length seq zip zip_with foldlM]. assert (DFA.nodes dfa !! k = Some node) as Hk by (rewrite <- (Nat.add_0_r k), <- lookup_drop, Hd; done).
    destruct (addFinalState_spec k node states Hk HF) as (s1 & -> & HF1). cbn [mbind option_bind]. rewrite Nat.add_succ_r. apply (IH (S k)); [|done]. rewrite <- (Nat.add_1_r k), <- drop_drop, Hd. done.
  - apply (H (DFA.nodes dfa) 0 ∅); [done|]. split; [by intros key l ?%lookup_empty_Some|lia].
Qed.

(** *** The partition of the nodes *)

Definition transitionsAt : list Transitions := (fun node => default [] (DFA.transitions node dfa)) <$> DFA.nodes dfa.

Lemma transitionsAt_node i node : DFA.nodes dfa !! i = Some node -> exists ts, transitionsAt !! i = Some ts /\ DFA.transitions node dfa = Some ts.
Proof using Hok. intros Hi. destruct (min_node _ Hok i node Hi) as (_ & _ & _ & acts & ts & _ & Et & _). exists ts. unfold transitionsAt. rewrite list_lookup_fmap, Hi. cbn. by rewrite Et. Qed.

Lemma transitionsAt_delta i ts c : transitionsAt !! i = Some ts -> delta dfa (Z.of_nat i) c = goes ts c.
Proof using Hok.
  intros Hi. unfold transitionsAt in Hi. apply list_lookup_fmap_Some in Hi as (node & -> & Hn). destruct (min_node _ Hok i node Hn) as (_ & _ & _ & acts & ts & _ & Et & _).
  unfold delta, DFABytecodeCompiler.DFABytecodeCompiler.at_. rewrite node_at_nat, Hn. cbn [mbind option_bind]. by rewrite Et.
Qed.

Lemma transitionsAt_spec : NodeTransitions dfa transitionsAt /\ (forall i ts r b, transitionsAt !! i = Some ts -> (r, b) ∈ ts -> (0 <= b < Z.of_nat N)%Z) /\ exists i ts, transitionsAt !! i = Some ts /\ ts <> [].
Proof using Hok.
  split_and!.
  - unfold NodeTransitions, transitionsAt. apply Forall2_fmap_r, Forall_Forall2_diag, Forall_lookup_2. intros i node Hi. destruct (min_node _ Hok i node Hi) as (H1 & _ & _ & acts & ts & _ & Et & H2 & _). unfold compose. rewrite Et. split_and!; [done|done|exact H2].
  - intros i ts r b Hi Hin. unfold transitionsAt in Hi. apply list_lookup_fmap_Some in Hi as (node & -> & Hn). destruct (min_node _ Hok i node Hn) as (_ & _ & _ & acts & ts & _ & Et & _ & H2). rewrite Et in Hin. by eapply H2.
  - destruct (min_some _ Hok) as (i & node & ts & Hi & Et & Hne). destruct (transitionsAt_node i node Hi) as (ts' & Hts & Et'). exists i, ts'. split; [done|]. congruence.
Qed.

(** No word tells the nodes apart. *)
Definition Equivalent (a b : nat) : Prop := a < N /\ b < N /\ forall w, observe dfa (Z.of_nat a) w = observe dfa (Z.of_nat b) w.

Lemma equivalent_step a b c a' : Equivalent a b -> delta dfa (Z.of_nat a) c = Some (Z.of_nat a') -> exists b', delta dfa (Z.of_nat b) c = Some (Z.of_nat b') /\ Equivalent a' b'.
Proof using Hok.
  intros (Ha & Hb & Hw) Hd. destruct transitionsAt_spec as (Hn & Ht & _).
  assert (forall i c j, i < N -> delta dfa (Z.of_nat i) c = Some j -> exists j', j = Z.of_nat j' /\ j' < N) as Hrange.
  { intros i c0 j Hi Hj. destruct (lookup_lt_is_Some_2 _ _ Hi) as [node Hnode]. destruct (transitionsAt_node i node Hnode) as (ts & Hts & _). rewrite (transitionsAt_delta i ts c0 Hts) in Hj. destruct (goes_target ts c0 j Hj) as (r & Hr & _). specialize (Ht i ts r j Hts Hr). exists (Z.to_nat j). lia. }
  pose proof (Hw [c]) as H1. unfold observe in H1. cbn [walk] in H1. rewrite Hd in H1. cbn [mbind option_bind fmap option_fmap option_map] in H1. destruct (delta dfa (Z.of_nat b) c) as [m|] eqn:Em; [|done].
  destruct (Hrange b c m Hb Em) as (b' & -> & Hb'). destruct (Hrange a c _ Ha Hd) as (a0 & E0%Nat2Z.inj & Ha'). subst a0. exists b'. split; [done|]. split_and!; try done.
  intros w. specialize (Hw (c :: w)). unfold observe in *. cbn [walk] in Hw. rewrite Hd, Em in Hw. exact Hw.
Qed.

Lemma equivalent_actions a b : Equivalent a b -> actsAt a = actsAt b.
Proof. intros (_ & _ & Hw). specialize (Hw []). unfold observe in Hw. cbn in Hw. by injection Hw. Qed.

Lemma equivalent_sym a b : Equivalent a b -> Equivalent b a.
Proof. intros (Ha & Hb & Hw). split_and!; try done. Qed.

(** Nodes that are together have the same actions, and go together. *)
Definition Bisimulation (np : Partition) : Prop :=
  forall a b, a < N -> b < N -> cls np a = cls np b -> actsAt a = actsAt b
    /\ forall c a', delta dfa (Z.of_nat a) c = Some (Z.of_nat a') -> exists b', delta dfa (Z.of_nat b) c = Some (Z.of_nat b') /\ cls np a' = cls np b'.

Section Loop.

Context (m : nat) (starts sizes flat : list nat) (tp0 : Partition) (src tgt sym : nat -> nat) (hasSym : Z -> nat -> Prop).
Hypothesis HT : Tables transitionsAt N m starts sizes flat tp0 src tgt sym hasSym.

Lemma equivalent_transition a b t : Equivalent a b -> t < m -> src t = a -> exists t', t' < m /\ src t' = b /\ sym t' = sym t /\ Equivalent (tgt t) (tgt t').
Proof using Hok HT.
  intros HE Ht <-. destruct (tb_symbol _ _ _ _ _ _ _ _ _ _ _ HT t Ht) as [c Hc]. destruct (lookup_lt_is_Some_2 _ _ (proj2 (tb_src _ _ _ _ _ _ _ _ _ _ _ HT t Ht))) as [node Hn]. destruct (transitionsAt_node _ _ Hn) as (ts & Hts & _).
  pose proof (tb_goes _ _ _ _ _ _ _ _ _ _ _ HT t ts c Ht Hts Hc) as Hg. rewrite <- (transitionsAt_delta _ _ c Hts) in Hg. destruct (equivalent_step _ b c _ HE Hg) as (b' & Hg' & HE').
  destruct HE as (_ & Hb & _). destruct (lookup_lt_is_Some_2 _ _ Hb) as [node' Hn']. destruct (transitionsAt_node _ _ Hn') as (ts' & Hts' & _). rewrite (transitionsAt_delta _ _ c Hts') in Hg'.
  destruct (tb_transition _ _ _ _ _ _ _ _ _ _ _ HT b ts' c _ Hts' Hg') as (t' & Ht' & Hs' & Et%Nat2Z.inj & Hc'). exists t'. split_and!; try done; [by apply (tb_unique _ _ _ _ _ _ _ _ _ _ _ HT c)|by rewrite Et].
Qed.

Lemma main_start : 0 < N -> Main N m src tgt sym Equivalent 0 (initialize N) tp0.
Proof using HT.
  intros HN. destruct HT as [T1 T2 T3 T4 T5 T6 T7 T8 T9 T10 T11 T12]. destruct (initialize_wf N HN) as (I1 & I2 & I3). split; try done; [..|lia].
  - intros t t' Ht Ht' E. rewrite !T8 in E by done. by injection E.
  - intros t t' Ht Ht' _. by rewrite !I3 by (by apply T3).
  - intros i Hi. lia.
  - intros a b (Ha & Hb & _). by rewrite !I3.
  - intros t t' Ht Ht' Es _. rewrite !T8 by done. by f_equal.
Qed.

Lemma slots_spec slots : forall np tp, Main N m src tgt sym Equivalent 0 np tp -> Forall (fun l => NoDup l /\ (forall i, i ∈ l -> i < N) /\ forall a b, Equivalent a b -> a ∈ l -> b ∈ l) slots ->
  exists np' tp', foldlM (fun g slot => g ← foldlM (fun g finalStateIndex => markNode finalStateIndex g) g slot; refinePartitions g) (mkFull starts sizes flat np tp 0) slots = Some (mkFull starts sizes flat np' tp' 0)
    /\ Main N m src tgt sym Equivalent 0 np' tp' /\ forall a b, a < N -> b < N -> cls np' a = cls np' b -> cls np a = cls np b /\ forall l, l ∈ slots -> (a ∈ l <-> b ∈ l).
Proof using HT.
  induction slots as [|l slots IH]; intros np tp HM HS; [exists np, tp; split_and!; try done; intros a b Ha Hb E; split; [done|by intros l ?%not_elem_of_nil]|]. apply Forall_cons in HS as [(HD & Hl & HE) HS]. cbn [foldlM]. rewrite markNodes_spec.
  destruct (markAll_spec N l np (main_nodes _ _ _ _ _ _ _ _ _ HM) (clean_listed _ (main_nodes_clean _ _ _ _ _ _ _ _ _ HM)) HD) as (np1 & E1 & _).
  { intros e He. split; [by apply Hl|]. eapply clean_unmarked; [exact (main_nodes _ _ _ _ _ _ _ _ _ HM)|exact (main_nodes_clean _ _ _ _ _ _ _ _ _ HM)]. }
  rewrite E1. cbn [mbind option_bind]. destruct (refine_marked N m starts sizes flat src tgt sym (tb_tgt _ _ _ _ _ _ _ _ _ _ _ HT) (tb_incoming _ _ _ _ _ _ _ _ _ _ _ HT) Equivalent equivalent_sym) with (next := 0) (np := np) (tp := tp) (l := l) (np1 := np1) as (np2 & tp2 & -> & HM2 & Hiff & _); try done.
  - intros a b (Ha & Hb & _). done.
  - cbn [mbind option_bind]. destruct (IH np2 tp2 HM2 HS) as (np3 & tp3 & -> & HM3 & Href). exists np3, tp3. split_and!; try done. intros a b Ha Hb E. destruct (Href a b Ha Hb E) as [E2 Hl2]. apply Hiff in E2 as [E3 Hl3]; [|done|done].
    split; [done|]. intros l' [->|Hin]%elem_of_cons; [done|by apply Hl2].
Qed.

End Loop.

Lemma partitionNodes_spec : exists g, partitionNodes stateOrder dfa = Some g /\ Wf N (m_nodePartition g) /\ (forall a b, Equivalent a b -> cls (m_nodePartition g) a = cls (m_nodePartition g) b) /\ Bisimulation (m_nodePartition g).
Proof using stateOrder_ok Hok.
  destruct transitionsAt_spec as (Hn & Ht & Hs). unfold partitionNodes. destruct (newFullGraphPartition_spec dfa transitionsAt Hn Ht Hs) as (starts & sizes & flat & tp & m & src & tgt & sym & hasSym & -> & HT). cbn [mbind option_bind]. fold N in HT |- *.
  destruct finalStates_spec as (states & -> & F1 & F2). cbn [mbind option_bind]. assert (0 < N) as HN by (destruct (min_some _ Hok) as (i & node & _ & Hi & _); apply lookup_lt_Some in Hi; unfold N; lia).
  assert (forall l, l ∈ stateOrder states <-> exists key, states !! key = Some l) as Hso.
  { intros l. rewrite stateOrder_ok, list_elem_of_fmap. split; [intros ([key l'] & -> & H%elem_of_map_to_list); by exists key|intros [key H]; exists (key, l); split; [done|by apply elem_of_map_to_list]]. }
  destruct (slots_spec m starts sizes flat tp src tgt sym hasSym HT (stateOrder states) (initialize N) tp (main_start _ _ _ _ _ _ _ _ _ HT HN)) as (np1 & tp1 & -> & HM1 & Hsl).
  { apply Forall_forall. intros l [key Hk]%Hso. destruct (F1 key l Hk) as [HD Hl]. split; [done|]. split; [intros i Hi; by apply Hl|]. intros a b HE Ha. pose proof (equivalent_actions a b HE) as Eab. destruct HE as (_ & Hb & _). apply Hl in Ha as (_ & _ & H1 & H2). apply Hl. rewrite <- Eab. done. }
  cbn [mbind option_bind]. unfold splitByUniqueTransitions. cbn [m_flattenedTransitions].
  destruct (splitLoop_spec N m starts sizes flat src tgt sym (tb_src _ _ _ _ _ _ _ _ _ _ _ HT) (tb_tgt _ _ _ _ _ _ _ _ _ _ _ HT) (tb_incoming _ _ _ _ _ _ _ _ _ _ _ HT) (tb_deterministic _ _ _ _ _ _ _ _ _ _ _ HT) Equivalent equivalent_sym) with (fuel := S (length flat)) (next := 0) (np := np1) (tp := tp1)
    as (np2 & tp2 & next & -> & (HW & HE & HC) & Href).
  - intros a b (Ha & Hb & _). done.
  - intros a b t. by apply (equivalent_transition m starts sizes flat tp src tgt sym hasSym HT).
  - done.
  - rewrite (tb_flat _ _ _ _ _ _ _ _ _ _ _ HT). lia.
  - eexists. split; [reflexivity|]. cbn [m_nodePartition]. split_and!; try done. intros a b Ha Hb Eab. split.
    + destruct (Hsl a b Ha Hb (Href a b Ha Hb Eab)) as [_ Hin]. assert (forall x y, x < N -> y < N -> (forall l, l ∈ stateOrder states -> (x ∈ l <-> y ∈ l)) -> actsAt x <> [] -> actsAt x = actsAt y) as Hxy.
      { intros x y Hx Hy Hxy Hne. destruct (F2 x Hx Hx Hne) as [l El]. destruct (F1 _ _ El) as [_ Hl]. assert (y ∈ l) as (_ & _ & _ & ?)%Hl; [|done]. apply (Hxy l); [apply Hso; by eexists|]. by apply Hl. }
      destruct (decide (actsAt a = [])) as [Ea|Ea]; [|by apply Hxy]. destruct (decide (actsAt b = [])) as [Eb|Eb]; [congruence|]. symmetry. apply Hxy; try done. intros l Hl. symmetry. by apply Hin.
    + intros c a' Hd. destruct (lookup_lt_is_Some_2 _ _ Ha) as [node Hnode]. destruct (transitionsAt_node a node Hnode) as (ts & Hts & _). rewrite (transitionsAt_delta _ _ c Hts) in Hd.
      destruct (tb_transition _ _ _ _ _ _ _ _ _ _ _ HT a ts c _ Hts Hd) as (t & Htm & Hsrc & Htgt%Nat2Z.inj & Hc). destruct (HC a b t Ha Hb Eab Htm Hsrc) as (t' & Htm' & Hsrc' & Hsym & Hcls).
      destruct (lookup_lt_is_Some_2 _ _ Hb) as [node' Hnode']. destruct (transitionsAt_node b node' Hnode') as (ts' & Hts' & _). exists (tgt t'). rewrite (transitionsAt_delta _ _ c Hts'). subst a'. split; [|done].
      eapply (tb_goes _ _ _ _ _ _ _ _ _ _ _ HT); [done|by rewrite Hsrc'|by rewrite Hsym].
Qed.

End Minimize.

(** ** The representatives *)

Lemma at_lt {B : Type} (l : list B) x b : DFA.at_ l x = Some b -> (0 <= x < Z.of_nat (length l))%Z.
Proof. unfold DFA.at_. destruct (Z.ltb_spec x 0); [done|]. intros H1%lookup_lt_Some. lia. Qed.

Lemma at_updated {B : Type} (l : list B) x y v : (0 <= x < Z.of_nat (length l))%Z -> DFA.at_ (<[Z.to_nat x := v]> l) y = if decide (y = x) then Some v else DFA.at_ l y.
Proof.
  intros Hx. unfold DFA.at_. destruct (Z.ltb_spec y 0); [by rewrite decide_False by lia|]. case_decide as E; [subst; apply list_lookup_insert_eq; lia|]. apply list_lookup_insert_ne. lia.
Qed.

Lemma setAt_spec {B : Type} (v : B) indices : forall l, (forall x, x ∈ indices -> (0 <= x < Z.of_nat (length l))%Z) ->
  exists l', DFA.setAt indices v l = Some l' /\ length l' = length l /\ forall x, x ∉ indices -> DFA.at_ l' x = DFA.at_ l x.
Proof.
  induction indices as [|i indices IH]; intros l Hl; cbn [DFA.setAt]; [by exists l|]. pose proof (Hl i ltac:(left)) as Hi. rewrite option_guard_True by done. cbn [mbind option_bind].
  destruct (IH (<[Z.to_nat i := v]> l)) as (l' & -> & Hlen & Hl'); [intros x Hx; rewrite length_insert; apply Hl; by right|]. exists l'. split_and!; [done|by rewrite Hlen, length_insert|].
  intros x Hx. rewrite Hl' by (intros ?; apply Hx; by right). rewrite at_updated by done. rewrite decide_False; [done|]. intros ->. apply Hx. left.
Qed.

Lemma mapM_ext_elem {A B : Type} (f g : A -> option B) l : (forall x, x ∈ l -> f x = g x) -> mapM f l = mapM g l.
Proof. induction l as [|x l IH]; intros H; [done|]. cbn [mapM]. rewrite (H x) by left. by rewrite IH by (intros y Hy; apply H; by right). Qed.

Lemma mapM_elem_Some {A B : Type} (f : A -> option B) l k x : mapM f l = Some k -> x ∈ l -> is_Some (f x).
Proof. intros H Hx. apply mapM_Some in H. apply list_elem_of_lookup in Hx as [i Hi]. destruct (Forall2_lookup_l _ _ _ _ _ H Hi) as (y & _ & Hy). by eexists. Qed.

Section Relocate.

Context (dfa : DFA.DFA) (g : FullGraphPartition).
Hypothesis Hok : okMinimize dfa.

Let N := length (DFA.nodes dfa).

Hypothesis HW : Wf N (m_nodePartition g).

Definition rep (i : nat) : nat := default 0 (nodeReplacement i g).
Definition repZ (n : Z) : Z := Z.of_nat (rep (Z.to_nat n)).

Lemma rep_spec i : i < N -> nodeReplacement i g = Some (rep i) /\ rep i < N /\ cls (m_nodePartition g) (rep i) = cls (m_nodePartition g) i.
Proof using HW.
  intros Hi. unfold rep, nodeReplacement, setIndexOf. destruct (wf_cls N _ i HW Hi) as (k & s & _ & Ek & Es & _). rewrite Ek. cbn [mbind option_bind]. destruct (iterateSet_spec N _ k HW ltac:(by eapply lookup_lt_Some)) as (l & e & _ & _ & _ & -> & Ee). cbn [default id].
  split_and!; try done. by apply (cls_lt N _ e k HW).
Qed.

Lemma rep_cls i j : cls (m_nodePartition g) i = cls (m_nodePartition g) j -> rep i = rep j.
Proof. intros E. unfold rep, nodeReplacement, setIndexOf. by rewrite E. Qed.

Lemma rep_rep i : i < N -> rep (rep i) = rep i.
Proof using HW. intros Hi. by apply rep_cls, rep_spec. Qed.

Lemma slice_bounds i node x : DFA.nodes dfa !! i = Some node -> (x ∈ transitionSlice node -> (0 <= x < Z.of_nat (length (DFA.transitionRanges dfa)))%Z /\ (0 <= x < Z.of_nat (length (DFA.transitionDestinations dfa)))%Z) /\ (x ∈ actionSlice node -> (0 <= x < Z.of_nat (length (DFA.dfa_actions dfa)))%Z).
Proof using Hok.
  intros Hi. destruct (min_node _ Hok i node Hi) as (_ & _ & _ & acts & ts & Ea & Et & _). split; intros Hx.
  - destruct (mapM_elem_Some _ _ _ x Et Hx) as [[r b] E]. destruct (DFA.at_ (DFA.transitionRanges dfa) x) eqn:E1; [|done]. cbn [mbind option_bind] in E. destruct (DFA.at_ (DFA.transitionDestinations dfa) x) eqn:E2; [|done]. split; by eapply at_lt.
  - destruct (mapM_elem_Some _ _ _ x Ea Hx) as [b E]. by eapply at_lt.
Qed.

(** A node that is replaced before step [k]. *)
Definition gone (k j : nat) : Prop := j < k /\ rep j <> j.
#[local] Instance gone_dec k j : Decision (gone k j).
Proof. unfold gone. apply _. Defined.

Definition killedNode : DFA.DFANode := DFA.mkNode 0 0 0 0 DFA.IsKilled.

Record Relocated (k : nat) (relocationVector : list nat) (d : DFA.DFA) : Prop := {
  re_vector : relocationVector = tab N (fun i => if decide (i < k) then rep i else i);
  re_root : DFA.root d = DFA.root dfa;
  re_ranges : length (DFA.transitionRanges d) = length (DFA.transitionRanges dfa);
  re_destinations : length (DFA.transitionDestinations d) = length (DFA.transitionDestinations dfa);
  re_actions : length (DFA.dfa_actions d) = length (DFA.dfa_actions dfa);
  re_length : length (DFA.nodes d) = N;
  re_nodes : forall j, DFA.nodes d !! j = (fun node => if decide (gone k j) then killedNode else node) <$> DFA.nodes dfa !! j;
  re_kept : forall j node x, DFA.nodes dfa !! j = Some node -> ~ gone k j ->
    (x ∈ transitionSlice node -> DFA.at_ (DFA.transitionRanges d) x = DFA.at_ (DFA.transitionRanges dfa) x /\ DFA.at_ (DFA.transitionDestinations d) x = DFA.at_ (DFA.transitionDestinations dfa) x)
    /\ (x ∈ actionSlice node -> DFA.at_ (DFA.dfa_actions d) x = DFA.at_ (DFA.dfa_actions dfa) x) }.

Lemma gone_S k j : gone (S k) j <-> gone k j \/ (j = k /\ rep k <> k).
Proof. unfold gone. split; [intros [H1 H2]; destruct (decide (j = k)) as [->|]; [by right|left; split; [lia|done]]|intros [[H1 H2]|[-> H]]; split; try done; lia]. Qed.

Lemma relocate_step k v d : k < N -> Relocated k v d -> exists v' d', relocate g (v, d) k = Some (v', d') /\ Relocated (S k) v' d'.
Proof using Hok HW.
  intros Hk [R1 R2 R3 R4 R5 R6 R7 R8]. unfold relocate. destruct (rep_spec k Hk) as (-> & Hr & _). cbn [mbind option_bind]. destruct (Nat.eqb_spec k (rep k)) as [E|E].
  - exists v, d. split; [done|]. assert (forall j, gone (S k) j <-> gone k j) as Hg by (intros j; rewrite gone_S; split; [intros [?|[-> ?]]; congruence|by left]). split; try done.
    + rewrite R1. apply tab_ext. intros i. repeat case_decide; try done; try lia. assert (i = k) as -> by lia. congruence.
    + intros j. rewrite R7. destruct (DFA.nodes dfa !! j); [|done]. cbn. f_equal. pose proof (Hg j). repeat case_decide; try done; exfalso; tauto.
    + intros j node x Hj Hg'. apply (R8 j); [done|]. by rewrite <- Hg.
  - rewrite R1. rewrite (store_tab N _ (fun i => if decide (i < S k) then rep i else i)); [|done|by rewrite decide_True by lia|intros j Hj; repeat case_decide; try done; lia]. cbn [mbind option_bind].
    destruct (lookup_lt_is_Some_2 _ _ Hk) as [node Hn]. destruct (min_node _ Hok k node Hn) as (Hkl & _ & _ & _). unfold DFA.kill. assert (DFA.at_ (DFA.nodes d) (Z.of_nat k) = Some node) as ->.
    { unfold DFA.at_. rewrite (proj2 (Z.ltb_ge _ _)), Nat2Z.id by lia. rewrite R7, Hn. cbn. rewrite decide_False; [done|]. unfold gone. lia. }
    cbn [mbind option_bind]. rewrite option_guard_True by (intros Ef; unfold DFA.isKilled in Hkl; by rewrite Ef in Hkl). cbn [mbind option_bind]. fold (transitionSlice node) (actionSlice node).
    destruct (setAt_spec (DFA.mkCharRange (-1) (-1)) (transitionSlice node) (DFA.transitionRanges d)) as (rs & -> & L1 & S1); [intros x Hx; rewrite R3; by apply (slice_bounds k node x Hn)|]. cbn [mbind option_bind].
    destruct (setAt_spec (2 ^ 32 - 1)%Z (transitionSlice node) (DFA.transitionDestinations d)) as (ds & -> & L2 & S2); [intros x Hx; rewrite R4; by apply (slice_bounds k node x Hn)|]. cbn [mbind option_bind].
    destruct (setAt_spec (2 ^ 64 - 1)%Z (actionSlice node) (DFA.dfa_actions d)) as (acs & -> & L3 & S3); [intros x Hx; rewrite R5; by apply (slice_bounds k node x Hn)|]. cbn [mbind option_bind].
    eexists _, _. split; [reflexivity|]. split; cbn [DFA.root DFA.transitionRanges DFA.transitionDestinations DFA.dfa_actions DFA.nodes]; try done; try congruence.
    + by rewrite length_insert.
    + intros j. rewrite Nat2Z.id. destruct (decide (j = k)) as [->|Hj].
      * rewrite list_lookup_insert_eq by (rewrite R6; done). rewrite Hn. cbn. rewrite decide_True; [done|]. apply gone_S. by right.
      * rewrite list_lookup_insert_ne by done. rewrite R7. destruct (DFA.nodes dfa !! j); [|done]. cbn. f_equal. pose proof (gone_S k j). repeat case_decide; try done; exfalso; tauto.
    + intros j node' x Hj Hg. rewrite gone_S in Hg. destruct (R8 j node' x Hj ltac:(tauto)) as [K1 K2]. assert (j <> k) as Hne by (intros ->; apply Hg; right; split; [done|congruence]). destruct (min_disjoint _ Hok j k node' node x Hj Hn Hne) as [D1 D2]. split.
      * intros Hx. rewrite S1, S2 by tauto. by apply K1.
      * intros Hx. rewrite S3 by tauto. by apply K2.
Qed.

Lemma relocate_spec : exists d, foldlM (relocate g) (seq 0 N, dfa) (seq 0 N) = Some (tab N rep, d) /\ Relocated N (tab N rep) d.
Proof using Hok HW.
  assert (forall n k v d, k + n = N -> Relocated k v d -> exists v' d', foldlM (relocate g) (v, d) (seq k n) = Some (v', d') /\ Relocated N v' d') as H.
  - induction n as [|n IH]; intros k v d Hkn HR; [exists v, d; replace N with k by lia; done|]. cbn [seq foldlM]. destruct (relocate_step k v d ltac:(lia) HR) as (v1 & d1 & -> & HR1). cbn [mbind option_bind]. apply IH; [lia|done].
  - destruct (H N 0 (seq 0 N) dfa) as (v & d & E & HR); [done| |].
    + split; try done. * unfold tab. symmetry. etransitivity; [|apply list_fmap_id]. by apply list_fmap_ext. * intros j. destruct (DFA.nodes dfa !! j); [|done]. cbn. rewrite decide_False; [done|]. unfold gone. lia.
    + assert (v = tab N rep) as ->; [|by exists d]. rewrite (re_vector _ _ _ HR). apply list_eq. intros i. destruct (decide (i < N)) as [Hi|Hi]; [rewrite !lookup_tab, decide_True by done; done|]. rewrite !lookup_ge_None_2; [done|rewrite length_tab; lia..].
Qed.

(** *** The targets *)

Lemma retargetSlice_spec l : forall dest, NoDup l -> (forall x, x ∈ l -> exists b, DFA.at_ dest x = Some b /\ (0 <= b < Z.of_nat N)%Z) ->
  exists dest', foldlM (fun destinations i =>
              target ← DFA.at_ destinations i;
              relocatedTarget ← tab N rep !! Z.to_nat target;
              if (target =? Z.of_nat relocatedTarget)%Z then Some destinations else store (Z.to_nat i) (Z.of_nat relocatedTarget) destinations) dest l = Some dest'
    /\ length dest' = length dest /\ forall x, DFA.at_ dest' x = if decide (x ∈ l) then repZ <$> DFA.at_ dest x else DFA.at_ dest x.
Proof.
  induction l as [|i l IH]; intros dest HD Hl; cbn [foldlM]; [exists dest; split_and!; try done; intros x; by rewrite decide_False by apply not_elem_of_nil|]. apply NoDup_cons in HD as [Hi HD].
  destruct (Hl i ltac:(left)) as (b & Eb & Hb). rewrite Eb. cbn [mbind option_bind]. rewrite lookup_tab by lia. cbn [mbind option_bind]. pose proof (at_lt _ _ _ Eb) as Hin.
  assert (exists dest1, (if (b =? Z.of_nat (rep (Z.to_nat b)))%Z then Some dest else store (Z.to_nat i) (Z.of_nat (rep (Z.to_nat b))) dest) = Some dest1 /\ length dest1 = length dest /\ forall x, DFA.at_ dest1 x = if decide (x = i) then Some (repZ b) else DFA.at_ dest x) as (dest1 & -> & L1 & H1).
  { destruct (Z.eqb_spec b (Z.of_nat (rep (Z.to_nat b)))) as [E|E]; [exists dest; split_and!; try done; intros x; case_decide; [subst x; rewrite Eb; f_equal; exact E|done]|].
    rewrite store_spec by lia. eexists. split; [reflexivity|]. split; [by rewrite length_insert|]. intros x. rewrite at_updated by done. done. }
  cbn [mbind option_bind]. destruct (IH dest1 HD) as (dest2 & -> & L2 & H2).
  - intros x Hx. rewrite H1, decide_False by (intros ->; done). apply Hl. by right.
  - exists dest2. split_and!; [done|congruence|]. intros x. rewrite H2, H1. destruct (decide (x = i)) as [->|Hne].
    + rewrite decide_False by done. rewrite decide_True by left. by rewrite Eb.
    + destruct (decide (x ∈ l)); [by rewrite decide_True by (by right)|]. rewrite decide_False; [done|]. intros [?|?]%elem_of_cons; done.
Qed.

Context (d : DFA.DFA).
Hypothesis HR : Relocated N (tab N rep) d.

Record Retargeted (k : nat) (dest : list Z) : Prop := {
  rt_length : length dest = length (DFA.transitionDestinations dfa);
  rt_entries : forall j node x, DFA.nodes dfa !! j = Some node -> rep j = j -> x ∈ transitionSlice node ->
    DFA.at_ dest x = if decide (j < k) then repZ <$> DFA.at_ (DFA.transitionDestinations dfa) x else DFA.at_ (DFA.transitionDestinations dfa) x }.

Lemma NoDup_transitionSlice i node : DFA.nodes dfa !! i = Some node -> NoDup (transitionSlice node).
Proof using Hok. intros Hi. destruct (min_node _ Hok i node Hi) as (_ & _ & Hs & _). unfold transitionSlice. rewrite slice_seqZ by done. apply NoDup_seqZ. Qed.

Lemma destination_bound i node x : DFA.nodes dfa !! i = Some node -> x ∈ transitionSlice node -> exists b, DFA.at_ (DFA.transitionDestinations dfa) x = Some b /\ (0 <= b < Z.of_nat N)%Z.
Proof using Hok.
  intros Hi Hx. destruct (min_node _ Hok i node Hi) as (_ & _ & _ & acts & ts & _ & Et & _ & Hb). destruct (mapM_elem_Some _ _ _ x Et Hx) as [[r b] E].
  apply mapM_Some in Et. apply list_elem_of_lookup in Hx as [j Hj]. destruct (Forall2_lookup_l _ _ _ _ _ Et Hj) as ([r' b'] & Ht & Ey). cbn beta in Ey. rewrite E in Ey. injection Ey as <- <-.
  destruct (DFA.at_ (DFA.transitionRanges dfa) x) as [r0|]; [|done]. cbn [mbind option_bind] in E. destruct (DFA.at_ (DFA.transitionDestinations dfa) x) as [b0|]; [|done]. cbn in E. injection E as -> ->. exists b. split; [done|]. eapply Hb. by eapply list_elem_of_lookup_2.
Qed.

Lemma retarget_step k node dest : DFA.nodes dfa !! k = Some node -> Retargeted k dest ->
  exists dest', retarget (tab N rep) dest (if decide (gone N k) then killedNode else node) = Some dest' /\ Retargeted (S k) dest'.
Proof using Hok HR.
  intros Hk [T1 T2]. pose proof (lookup_lt_Some _ _ _ Hk) as Hlt. fold N in Hlt. unfold retarget. case_decide as Hg.
  - cbn [DFA.isKilled killedNode]. change (DFA.isKilled killedNode) with true. cbv iota. exists dest. split; [done|]. split; [done|]. intros j node' x Hj Hrep Hx. rewrite (T2 j node' x Hj Hrep Hx). destruct Hg as [_ Hg]. repeat case_decide; try done; exfalso; [lia|assert (j = k) as -> by lia; done].
  - destruct (min_node _ Hok k node Hk) as (-> & _). fold (transitionSlice node). assert (rep k = k) as Hrk by (destruct (decide (rep k = k)); [done|]; destruct Hg; by split).
    destruct (retargetSlice_spec (transitionSlice node) dest (NoDup_transitionSlice k node Hk)) as (dest' & E & L' & H').
    + intros x Hx. rewrite (T2 k node x Hk Hrk Hx), decide_False by lia. by eapply destination_bound.
    + exists dest'. split; [exact E|]. split; [congruence|]. intros j node' x Hj Hrep Hx. rewrite H'. destruct (decide (j = k)) as [->|Hne].
      * rewrite Hk in Hj. injection Hj as <-. rewrite decide_True, decide_True by first [done|lia]. by rewrite (T2 k node x Hk Hrk Hx), decide_False by lia.
      * rewrite decide_False by (intros Hx'; destruct (min_disjoint _ Hok j k node' node x Hj Hk Hne) as [Hdis _]; by apply Hdis). rewrite (T2 j node' x Hj Hrep Hx). repeat case_decide; try done; lia.
Qed.

Lemma retarget_spec : exists dest, foldlM (retarget (tab N rep)) (DFA.transitionDestinations d) (DFA.nodes d) = Some dest /\ Retargeted N dest.
Proof using Hok HR.
  assert (forall l k dest, drop k (DFA.nodes d) = l -> Retargeted k dest -> exists dest', foldlM (retarget (tab N rep)) dest l = Some dest' /\ Retargeted (k + length l) dest') as H.
  - induction l as [|node l IH]; intros k dest Hd HRt; [exists dest; by rewrite Nat.add_0_r|]. cbn [foldlM length]. assert (DFA.nodes d !! k = Some node) as Hk by (rewrite <- (Nat.add_0_r k), <- lookup_drop, Hd; done).
    rewrite (re_nodes _ _ _ HR) in Hk. destruct (DFA.nodes dfa !! k) as [node0|] eqn:Hk0; [|done]. cbn in Hk. injection Hk as <-. destruct (retarget_step k node0 dest Hk0 HRt) as (dest1 & -> & HRt1). cbn [mbind option_bind]. rewrite Nat.add_succ_r. apply (IH (S k)); [|done]. rewrite <- (Nat.add_1_r k), <- drop_drop, Hd. done.
  - destruct (H (DFA.nodes d) 0 (DFA.transitionDestinations d)) as (dest & E & HRt); [done| |].
    + split; [apply HR|]. intros j node x Hj Hrep Hx. rewrite decide_False by lia. apply (re_kept _ _ _ HR j node x Hj); [|done]. intros [_ ?]. done.
    + exists dest. split; [done|]. by rewrite (re_length _ _ _ HR) in HRt.
Qed.

End Relocate.

(** ** The minimized automaton *)

Definition validNode (dfa : DFA.DFA) (n : Z) : Prop := (0 <= n < Z.of_nat (length (DFA.nodes dfa)))%Z.

Definition moved (rho : Z -> Z) (ts : Transitions) : Transitions := (fun t => (t.1, rho t.2)) <$> ts.

Lemma goes_moved rho ts c : goes (moved rho ts) c = rho <$> goes ts c.
Proof. induction ts as [|[r b] ts IH]; [done|]. cbn. by destruct (inRange r c). Qed.

Lemma mapM_fmap_out {A B C : Type} (f : A -> option B) (h : B -> C) (l : list A) (k : list B) : mapM f l = Some k -> mapM (fun x => option_map h (f x)) l = Some (fmap (M := list) h k).
Proof.
  revert k. induction l as [|x l IH]; intros k; cbn [mapM]; [by intros [= <-]|]. destruct (f x) as [y|]; [|done]. cbn [mbind option_bind]. destruct (mapM f l) as [k'|]; [|done]. cbn [mbind option_bind]. intros [= <-]. cbn [option_map mbind option_bind]. by rewrite (IH k' eq_refl).
Qed.

(** The nodes of [dfa'] that are left: those of [dfa] with other targets. *)
Record Renamed (dfa dfa' : DFA.DFA) (rho : Z -> Z) : Prop := {
  rn_length : length (DFA.nodes dfa') = length (DFA.nodes dfa);
  rn_root : DFA.root dfa' = rho (DFA.root dfa);
  rn_rho : forall n, validNode dfa n -> validNode dfa (rho n) /\ rho (rho n) = rho n;
  rn_alive : forall p, alive dfa' p <-> validNode dfa p /\ rho p = p;
  rn_node : forall p node, DFA.at_ (DFA.nodes dfa') p = Some node -> DFA.isKilled node = false ->
    DFA.at_ (DFA.nodes dfa) p = Some node /\ DFA.actions node dfa' = DFA.actions node dfa
    /\ exists ts, DFA.transitions node dfa = Some ts /\ DFA.transitions node dfa' = Some (moved rho ts) }.

(** Equal after renaming are exactly the nodes that no word tells apart. *)
Record Merged (dfa : DFA.DFA) (rho : Z -> Z) : Prop := {
  mg_actions : forall n, validNode dfa n -> actionsOf dfa (rho n) = actionsOf dfa n;
  mg_step : forall n c, validNode dfa n -> rho <$> delta dfa (rho n) c = rho <$> delta dfa n c;
  mg_together : forall n n', validNode dfa n -> validNode dfa n' -> (forall w, observe dfa n w = observe dfa n' w) -> rho n = rho n' }.

Lemma renamed_actions dfa dfa' rho n : Renamed dfa dfa' rho -> validNode dfa n -> rho n = n -> actionsOf dfa' n = actionsOf dfa n /\ forall c, delta dfa' n c = rho <$> delta dfa n c.
Proof.
  intros HR Hn Hr. destruct (proj2 (rn_alive _ _ _ HR n) (conj Hn Hr)) as (node & Hat & Hk). destruct (rn_node _ _ _ HR n node Hat Hk) as (Hat0 & Ea & ts & Et & Et'). unfold actionsOf, delta, DFABytecodeCompiler.DFABytecodeCompiler.at_ in *. rewrite Hat, Hat0. cbn [mbind option_bind].
  split; [by rewrite Ea|]. intros c. rewrite Et, Et'. cbn [mbind option_bind]. apply goes_moved.
Qed.

Lemma delta_valid dfa n c m : okMinimize dfa -> delta dfa n c = Some m -> validNode dfa m.
Proof.
  intros Hok. unfold delta, DFABytecodeCompiler.DFABytecodeCompiler.at_. destruct (DFA.at_ (DFA.nodes dfa) n) as [node|] eqn:Hn; [|done]. cbn [mbind option_bind]. pose proof (at_lt _ _ _ Hn) as Hlt. unfold DFA.at_ in Hn. rewrite (proj2 (Z.ltb_ge _ _)) in Hn by lia.
  destruct (min_node _ Hok _ _ Hn) as (_ & _ & _ & acts & ts & _ & Et & _ & Hb). rewrite Et. cbn [mbind option_bind]. intros Hg. destruct (goes_target ts c m Hg) as (r & Hr & _). by eapply Hb.
Qed.

(** A word leads to the representative of the node it led to. *)
Lemma walk_renamed dfa dfa' rho w : okMinimize dfa -> Renamed dfa dfa' rho -> Merged dfa rho -> forall n, validNode dfa n -> walk dfa' (rho n) w = rho <$> walk dfa n w.
Proof.
  intros Hok HR HM. induction w as [|c w IH]; intros n Hn; [done|]. cbn [walk]. destruct (rn_rho _ _ _ HR n Hn) as [Hv Hrr]. destruct (renamed_actions dfa dfa' rho (rho n) HR Hv Hrr) as [_ ->]. rewrite (mg_step _ _ HM n c Hn).
  destruct (delta dfa n c) as [m|] eqn:Em; [|done]. cbn [mbind option_bind fmap option_fmap option_map]. apply IH. by eapply delta_valid.
Qed.

Lemma walk_valid dfa w : okMinimize dfa -> forall n m, validNode dfa n -> walk dfa n w = Some m -> validNode dfa m.
Proof.
  intros Hok. induction w as [|c w IH]; intros n m Hn; cbn [walk]; [by intros [= <-]|]. destruct (delta dfa n c) as [k|] eqn:Ek; [|done]. cbn [mbind option_bind]. apply IH. by eapply delta_valid.
Qed.

Lemma observe_renamed dfa dfa' rho n w : okMinimize dfa -> Renamed dfa dfa' rho -> Merged dfa rho -> validNode dfa n -> observe dfa' (rho n) w = observe dfa n w.
Proof.
  intros Hok HR HM Hn. unfold observe. rewrite (walk_renamed dfa dfa' rho w Hok HR HM n Hn). destruct (walk dfa n w) as [m|] eqn:Em; [|done]. cbn. pose proof (walk_valid dfa w Hok n m Hn Em) as Hm. destruct (rn_rho _ _ _ HR m Hm) as [Hv Hrr].
  destruct (renamed_actions dfa dfa' rho (rho m) HR Hv Hrr) as [-> _]. by rewrite (mg_actions _ _ HM m Hm).
Qed.

Section Result.

Context (stateOrder : gmap (list Z) (list nat) -> list (list nat)) (dfa : DFA.DFA).
Hypothesis stateOrder_ok : forall states, stateOrder states ≡ₚ (map_to_list states).*2.
Hypothesis Hok : okMinimize dfa.

Lemma merged_rep g : Wf (length (DFA.nodes dfa)) (m_nodePartition g) -> (forall a b, Equivalent dfa a b -> cls (m_nodePartition g) a = cls (m_nodePartition g) b) -> Bisimulation dfa (m_nodePartition g) -> Merged dfa (repZ g).
Proof using Hok.
  intros HW HE HB. assert (forall n, validNode dfa n -> Z.of_nat (Z.to_nat n) = n /\ Z.to_nat n < length (DFA.nodes dfa)) as Hv by (unfold validNode; lia). split.
  - intros n [En Hn]%Hv. destruct (rep_spec dfa g HW _ Hn) as (_ & Hr & Hc). destruct (HB _ _ Hr Hn Hc) as [Ha _]. unfold actsAt in Ha. rewrite En in Ha. exact Ha.
  - intros n c [En Hn]%Hv. destruct (rep_spec dfa g HW _ Hn) as (_ & Hr & Hc). destruct (HB _ _ Hr Hn Hc) as [_ Hd]. destruct (HB _ _ Hn Hr (eq_sym Hc)) as [_ Hd']. rewrite En in Hd, Hd'. fold (repZ g n) in Hd, Hd'.
    destruct (delta dfa (repZ g n) c) as [a|] eqn:Ea.
    + pose proof (delta_valid _ _ _ _ Hok Ea) as [Eaz _]%Hv. destruct (Hd c (Z.to_nat a)) as (b & Eb & Ecl); [by rewrite Eaz|]. rewrite Eb. cbn. f_equal. unfold repZ. f_equal. rewrite Nat2Z.id. by apply rep_cls.
    + destruct (delta dfa n c) as [b|] eqn:Eb; [|done]. pose proof (delta_valid _ _ _ _ Hok Eb) as [Ebz _]%Hv. destruct (Hd' c (Z.to_nat b)) as (a & Ea' & _); [by rewrite Ebz|]. congruence.
  - intros n n' [En Hn]%Hv [En' Hn']%Hv Hw. unfold repZ. f_equal. apply rep_cls, HE. split_and!; try done. by rewrite En, En'.
Qed.

Lemma minimize_spec : exists dfa' rho, minimize stateOrder dfa = Some dfa' /\ Renamed dfa dfa' rho /\ Merged dfa rho.
Proof using stateOrder_ok Hok.
  destruct (partitionNodes_spec stateOrder dfa stateOrder_ok Hok) as (g & Eg & HW & HE & HB). unfold minimize. rewrite Eg. cbn [mbind option_bind]. set (N := length (DFA.nodes dfa)) in *.
  destruct (relocate_spec dfa g Hok HW) as (d & Ed & HR). fold N in Ed, HR. rewrite Ed. cbn [mbind option_bind]. pose proof (min_root _ Hok) as Hroot. rewrite (re_root _ _ _ _ _ HR), lookup_tab by lia. cbn [mbind option_bind].
  destruct (retarget_spec dfa g Hok d HR) as (dest & Er & HT). fold N in Er. rewrite Er. cbn [mbind option_bind]. eexists _, (repZ g). split; [reflexivity|]. split; [|by apply merged_rep].
  assert (forall n, validNode dfa n -> Z.of_nat (Z.to_nat n) = n /\ Z.to_nat n < N) as Hv by (unfold validNode, N; lia).
  assert (forall p node, DFA.at_ (DFA.nodes d) p = Some node -> DFA.isKilled node = false -> rep g (Z.to_nat p) = Z.to_nat p /\ DFA.at_ (DFA.nodes dfa) p = Some node) as Hlive.
  { intros p node Hp Hk. pose proof (at_lt _ _ _ Hp) as Hlt. unfold DFA.at_ in *. rewrite (proj2 (Z.ltb_ge _ _)) in * by lia. rewrite (re_nodes _ _ _ _ _ HR) in Hp. destruct (DFA.nodes dfa !! Z.to_nat p) as [node0|] eqn:H0; [|done]. cbn in Hp. injection Hp as <-.
    case_decide as Hg; [done|]. split; [|done]. destruct (decide (rep g (Z.to_nat p) = Z.to_nat p)); [done|]. destruct Hg. split; [|done]. apply lookup_lt_Some in H0. exact H0. }
  split; cbn [DFA.nodes DFA.root]; [apply (re_length _ _ _ _ _ HR)|done| | |].
  - intros n [En Hn]%Hv. destruct (rep_spec dfa g HW _ Hn) as (_ & Hr & _). unfold validNode, repZ. fold N. rewrite Nat2Z.id. split; [lia|]. f_equal. by apply (rep_rep dfa g HW).
  - intros p. unfold alive, DFABytecodeCompiler.DFABytecodeCompiler.at_. cbn [DFA.nodes]. split.
    + intros (node & Hp & Hk). destruct (Hlive p node Hp Hk) as [Hr H0]. apply at_lt in H0. split; [exact H0|]. unfold repZ. rewrite Hr. lia.
    + intros [Hp Hr]. destruct (Hv p Hp) as [Ep Hlt]. destruct (lookup_lt_is_Some_2 _ _ Hlt) as [node Hn]. exists node. destruct (min_node _ Hok _ _ Hn) as (Hk & _). split; [|done]. unfold DFA.at_. rewrite (proj2 (Z.ltb_ge _ _)) by lia. rewrite (re_nodes _ _ _ _ _ HR), Hn. cbn. rewrite decide_False; [done|].
      intros [_ Hne]. apply Hne. unfold repZ in Hr. lia.
  - intros p node Hp Hk. destruct (Hlive p node Hp Hk) as [Hr H0]. split; [done|]. pose proof (at_lt _ _ _ H0) as Hlt. pose proof H0 as H0'. unfold DFA.at_ in H0'. rewrite (proj2 (Z.ltb_ge _ _)) in H0' by lia.
    assert (~ gone g N (Z.to_nat p)) as Hg by (intros [_ ?]; done). destruct (min_node _ Hok _ _ H0') as (_ & _ & _ & acts & ts & _ & Et & _). split.
    + unfold DFA.actions. cbn [DFA.dfa_actions]. apply mapM_ext_elem. intros x Hx. by apply (re_kept _ _ _ _ _ HR (Z.to_nat p) node x H0' Hg).
    + exists ts. split; [done|]. unfold moved. rewrite <- (mapM_fmap_out _ (fun t : DFA.CharRange * Z => (t.1, repZ g t.2)) _ _ Et). apply mapM_ext_elem. intros x Hx. cbn [DFA.transitionRanges DFA.transitionDestinations].
      destruct (re_kept _ _ _ _ _ HR (Z.to_nat p) node x H0' Hg) as [Hkept _]. destruct (Hkept Hx) as [-> _]. rewrite (rt_entries _ _ _ _ HT (Z.to_nat p) node x H0' Hr Hx). rewrite decide_True by (fold N; lia).
      destruct (DFA.at_ (DFA.transitionRanges dfa) x); [|done]. cbn [mbind option_bind]. by destruct (DFA.at_ (DFA.transitionDestinations dfa) x).
Qed.

End Result.


(** ** Checking by evaluation, and an example *)

Definition okSliceb (start length : Z) : bool := ((0 <=? start) && (0 <=? length) && (start + length <? 2 ^ 32))%Z.

Definition okMinimizeNodeb (dfa : DFA.DFA) (node : DFA.DFANode) : bool :=
  negb (DFA.isKilled node) && okSliceb (DFA.m_actionsStart node) (DFA.m_actionsLength node) && okSliceb (DFA.m_transitionsStart node) (DFA.m_transitionsLength node)
  && match DFA.actions node dfa, DFA.transitions node dfa with
     | Some _, Some ts => okTransitionsb (-1) ts && forallb (fun t => (0 <=? t.2) && (t.2 <? Z.of_nat (length (DFA.nodes dfa))))%Z ts
     | _, _ => false
     end.

Definition okMinimizeb (dfa : DFA.DFA) : bool :=
  ((0 <=? DFA.root dfa) && (DFA.root dfa <? Z.of_nat (length (DFA.nodes dfa))))%Z
  && forallb (okMinimizeNodeb dfa) (DFA.nodes dfa)
  && existsb (fun node => match DFA.transitions node dfa with Some (_ :: _) => true | _ => false end) (DFA.nodes dfa)
  && bool_decide (NoDup (concat (transitionSlice <$> DFA.nodes dfa))) && bool_decide (NoDup (concat (actionSlice <$> DFA.nodes dfa))).

Lemma NoDup_concat_disjoint {A B : Type} (f : A -> list B) (l : list A) i j a b x : NoDup (concat (f <$> l)) -> l !! i = Some a -> l !! j = Some b -> i <> j -> ~ (x ∈ f a /\ x ∈ f b).
Proof.
  revert i j. induction l as [|c l IH]; intros i j HD Hi Hj Hne [Ha Hb]; [done|]. cbn in HD. apply NoDup_app in HD as (_ & Hdis & HD).
  assert (forall k d, l !! k = Some d -> x ∈ f d -> x ∈ concat (f <$> l)) as Hin.
  { intros k d Hk Hd. apply list_elem_of_In, in_concat. exists (f d). split; [|by apply list_elem_of_In]. apply list_elem_of_In, list_elem_of_fmap_2. by eapply list_elem_of_lookup_2. }
  destruct i as [|i], j as [|j]; cbn in Hi, Hj; try done.
  - injection Hi as ->. apply (Hdis x Ha). by eapply Hin.
  - injection Hj as ->. apply (Hdis x Hb). by eapply Hin.
  - by apply (IH i j HD Hi Hj ltac:(congruence)).
Qed.

Lemma okMinimizeb_spec dfa : okMinimizeb dfa = true -> okMinimize dfa.
Proof.
  unfold okMinimizeb. rewrite !andb_true_iff, Z.leb_le, Z.ltb_lt, forallb_forall, existsb_exists, !bool_decide_eq_true. intros ((((H1 & H2) & (node & Hin & Hs)) & HD1) & HD2). split; [done| | |].
  - intros i n Hi. apply list_elem_of_lookup_2, list_elem_of_In, H2 in Hi. unfold okMinimizeNodeb, okSliceb in Hi. destruct (DFA.actions n dfa) as [acts|]; [|by rewrite andb_false_r in Hi]. destruct (DFA.transitions n dfa) as [ts|]; [|by rewrite andb_false_r in Hi].
    rewrite !andb_true_iff, negb_true_iff, !Z.leb_le, !Z.ltb_lt, forallb_forall in Hi. destruct Hi as (((K1 & K2) & K3) & K4 & K5). unfold okSlice. split_and!; try done; try lia. exists acts, ts. split_and!; try done.
    + by apply (okTransitionsb_spec ts (-1)).
    + intros r d Hd. specialize (K5 (r, d) (proj1 (list_elem_of_In _ _) Hd)). cbn in K5. lia.
  - apply list_elem_of_In, list_elem_of_lookup in Hin as [i Hi]. destruct (DFA.transitions node dfa) as [[|t ts]|] eqn:Et; try done. by exists i, node, (t :: ts).
  - intros i j n n' x Hi Hj Hne. split; by eapply NoDup_concat_disjoint.
Qed.

(** After [a] or [b], the action after a [c]; the two ways are merged. *)
Definition mergeable : DFA.DFA :=
  DFA.mkDFA [DFA.mkNode 0 0 0 2 0; DFA.mkNode 0 2 0 1 0; DFA.mkNode 0 3 0 1 0; DFA.mkNode 0 4 1 0 0; DFA.mkNode 1 4 1 0 0] [7; 7]%Z
    [DFA.mkCharRange 97 97; DFA.mkCharRange 98 98; DFA.mkCharRange 99 99; DFA.mkCharRange 99 99] [1; 2; 3; 4]%Z 0.

Definition listOrder (states : gmap (list Z) (list nat)) : list (list nat) := (map_to_list states).*2.

