(* ===== verification/DFACombiner.v ===== *)
(** * DFACombiner: joining small automata

    Translated from src/Source/WebCore/contentextensions/DFACombiner.cpp and
    DFACombiner.h.  The nodes of a merged automaton are pairs of nodes, of
    either of which there may be none; a pair is a 64-bit signature.  [None] is
    an index out of range or a failed assertion.  The orders of hash tables are
    arguments. *)

From stdpp Require Import gmap.
From S2P Require Import Prelude DFA MutableRangeList DFAMinimizer.
Import MutableRangeList.

Module DFACombiner.

Definition u64 (z : Z) : Z := z mod 2 ^ 64.

Definition invalidNodeIndex : Z := 2 ^ 32 - 1.

Inductive WhichDFA := A | B.

(** ** [TargetConverter] *)

Definition setHalfSignature (whichDFA : WhichDFA) (signature value : Z) : Z :=
  let shiftAmount := match whichDFA with A => 32 | B => 0 end in
  let mask := u64 (Z.shiftl (2 ^ 32 - 1) (32 - shiftAmount)) in
  Z.lor (Z.land signature mask) (u64 (Z.shiftl value shiftAmount)).

Definition extendTarget (whichDFA : WhichDFA) (destination target : Z) : option Z := Some (setHalfSignature whichDFA destination target).

Definition convertTarget (whichDFA : WhichDFA) (target : Z) : option Z := extendTarget whichDFA (2 ^ 64 - 1) target.

(** ** [DFAMerger] *)

Definition signatureForIndices (aIndex bIndex : Z) : Z := Z.lor (u64 (Z.shiftl aIndex 32)) bIndex.

Definition extractIndexA (signature : Z) : Z := u32 (Z.shiftr signature 32).
Definition extractIndexB (signature : Z) : Z := u32 signature.

(** The last of the unprocessed nodes is the head of the list. *)
Record DFAMerger := mkMerger {
  m_output : DFA.DFA;
  m_nodeMapping : gmap Z Z;
  m_unprocessedNodes : list Z
}.

Section Merge.

Context (actionOrder : gset Z -> list Z) (m_dfaA m_dfaB : DFA.DFA).

(** The actions of the node, added to the set. *)
Definition addActions (dfa : DFA.DFA) (index : Z) (actions : gset Z) : option (gset Z) :=
  if index =? invalidNodeIndex then Some actions
  else node ← DFA.at_ (DFA.nodes dfa) index; l ← DFA.actions node dfa; Some (actions ∪ list_to_set l).

Definition getOrCreateCombinedNode (newNodeSignature : Z) (m : DFAMerger) : option (DFAMerger * Z) :=
  match m_nodeMapping m !! newNodeSignature with
  | Some index => Some (m, index)
  | None =>
      let d := m_output m in
      let newNodeIndex := u32 (Z.of_nat (length (DFA.nodes d))) in
      actions ← addActions m_dfaA (extractIndexA newNodeSignature) ∅;
      actions ← addActions m_dfaB (extractIndexB newNodeSignature) actions;
      let actionsStart := u32 (Z.of_nat (length (DFA.dfa_actions d))) in
      let newActions := DFA.dfa_actions d ++ actionOrder actions in
      let actionsEnd := u32 (Z.of_nat (length newActions)) in
      let actionsLength := (actionsEnd - actionsStart) mod 2 ^ 16 in
      newNode ← DFA.setActions actionsStart actionsLength (DFA.mkNode 0 0 0 0 0);
      Some (mkMerger (DFA.mkDFA (DFA.nodes d ++ [newNode]) newActions (DFA.transitionRanges d) (DFA.transitionDestinations d) (DFA.root d))
              (<[newNodeSignature := newNodeIndex]> (m_nodeMapping m)) (newNodeSignature :: m_unprocessedNodes m), newNodeIndex)
  end.

(** The transitions of the node, merged into the list. *)
Definition extendTransitions (whichDFA : WhichDFA) (dfa : DFA.DFA) (index : Z) (combinedTransitions : list (MutableRange Z)) : option (list (MutableRange Z)) :=
  if index =? invalidNodeIndex then Some combinedTransitions
  else
    node ← DFA.at_ (DFA.nodes dfa) index;
    ts ← DFA.transitions node dfa;
    extend (convertTarget whichDFA) (extendTarget whichDFA) combinedTransitions (DFAMinimizer.spansOfTransitions ts).

(** The loop over the combined ranges. *)
Fixpoint addTransitions (combinedTransitions : list (MutableRange Z)) (m : DFAMerger) : option DFAMerger :=
  match combinedTransitions with
  | [] => Some m
  | range :: combinedTransitions =>
      '(m, targetNodeId) ← getOrCreateCombinedNode (data range) m;
      let d := m_output m in
      addTransitions combinedTransitions
        (mkMerger (DFA.mkDFA (DFA.nodes d) (DFA.dfa_actions d) (DFA.transitionRanges d ++ [DFA.mkCharRange (first range) (last range)])
                     (DFA.transitionDestinations d ++ [targetNodeId]) (DFA.root d))
                  (m_nodeMapping m) (m_unprocessedNodes m))
  end.

(** The body of the main loop. *)
Definition processNode (unprocessedNode : Z) (m : DFAMerger) : option DFAMerger :=
  combinedTransitions ← extendTransitions A m_dfaA (extractIndexA unprocessedNode) [];
  combinedTransitions ← extendTransitions B m_dfaB (extractIndexB unprocessedNode) combinedTransitions;
  ranges ← toList combinedTransitions;
  let transitionsStart := u32 (Z.of_nat (length (DFA.transitionRanges (m_output m)))) in
  m ← addTransitions ranges m;
  let d := m_output m in
  let transitionsEnd := u32 (Z.of_nat (length (DFA.transitionRanges d))) in
  let transitionsLength := u32 (transitionsEnd - transitionsStart) in
  let sourceNodeId := default 0 (m_nodeMapping m !! unprocessedNode) in
  dfaSourceNode ← DFA.at_ (DFA.nodes d) sourceNodeId;
  dfaSourceNode ← DFA.setTransitions transitionsStart (transitionsLength mod 2 ^ 8) dfaSourceNode;
  Some (mkMerger (DFA.mkDFA (<[Z.to_nat sourceNodeId := dfaSourceNode]> (DFA.nodes d)) (DFA.dfa_actions d) (DFA.transitionRanges d)
                    (DFA.transitionDestinations d) (DFA.root d)) (m_nodeMapping m) (m_unprocessedNodes m)).

(** [while (!m_unprocessedNodes.isEmpty())] *)
Fixpoint processNodes (fuel : nat) (m : DFAMerger) : option DFAMerger :=
  match m_unprocessedNodes m with
  | [] => Some m
  | unprocessedNode :: rest =>
      match fuel with
      | O => None
      | S fuel => m ← processNode unprocessedNode (mkMerger (m_output m) (m_nodeMapping m) rest); processNodes fuel m
      end
  end.

(** A turn takes a pair of nodes off, and each pair comes once; one more node
    on each side stands for none. *)
Definition merge : option DFA.DFA :=
  let rootSignature := signatureForIndices (DFA.root m_dfaA) (DFA.root m_dfaB) in
  '(m, _) ← getOrCreateCombinedNode rootSignature (mkMerger (DFA.mkDFA [] [] [] [] 0) ∅ []);
  m ← processNodes (S (length (DFA.nodes m_dfaA)) * S (length (DFA.nodes m_dfaB))) m;
  Some (m_output m).

End Merge.

(** ** [combineDFAs] *)

Section Combine.

Context (actionOrder : gset Z -> list Z) (stateOrder : gmap (list Z) (list nat) -> list (list nat)).

(** [addDFA] *)
Definition addDFA (m_dfas : list DFA.DFA) (dfa : DFA.DFA) : option (list DFA.DFA) :=
  dfa ← DFAMinimizer.minimize stateOrder dfa;
  Some (m_dfas ++ [dfa]).

(** The first loop, with [i] decremented: what the handler gets, and what is
    left. *)
Fixpoint takeLarge (minimumSize : Z) (i : nat) (m_dfas handled : list DFA.DFA) : option (list DFA.DFA * list DFA.DFA) :=
  match i with
  | O => Some (handled, m_dfas)
  | S i =>
      dfa ← m_dfas !! i;
      if minimumSize <? DFA.graphSize dfa then takeLarge minimumSize i (take i m_dfas ++ drop (S i) m_dfas) (handled ++ [dfa])
      else takeLarge minimumSize i m_dfas handled
  end.

(** The second loop; the last of the automata is the head of the list. *)
Fixpoint combineLoop (fuel : nat) (minimumSize : Z) (m_dfas : list DFA.DFA) : option (list DFA.DFA) :=
  match m_dfas with
  | [] => Some []
  | [dfa] => Some [dfa]
  | a :: b :: m_dfas =>
      match fuel with
      | O => None
      | S fuel =>
          c ← merge actionOrder a b;
          c ← (if (minimumSize <? DFA.graphSize c) || match m_dfas with [] => true | _ => false end then DFAMinimizer.minimize stateOrder c else Some c);
          if minimumSize <? DFA.graphSize c then handled ← combineLoop fuel minimumSize m_dfas; Some (c :: handled)
          else combineLoop fuel minimumSize (c :: m_dfas)
      end
  end.

(** The automata that the handler gets; each turn takes one away. *)
Definition combineDFAs (minimumSize : Z) (m_dfas : list DFA.DFA) : option (list DFA.DFA) :=
  '(large, small) ← takeLarge minimumSize (length m_dfas) m_dfas [];
  handled ← combineLoop (length small) minimumSize (rev small);
  Some (large ++ handled).

End Combine.

End DFACombiner.
