(* ===== verification/NFA.v ===== *)
(** * NFA: the automata that URL filters are turned into first

    Translated from src/Source/WebCore/contentextensions/ImmutableNFA.h and
    NFA.h.  A node names slices of the arrays of its automaton; an iterator
    over a slice is the list of what it gives, and [None] is an index out of
    range. *)

From S2P Require Import Prelude DFA MutableRangeList.
Import MutableRangeList.

Module NFA.

Record ImmutableRange := mkRange {
  targetStart : Z;
  targetEnd : Z;
  first : Z;
  last : Z
}.

Record ImmutableNFANode := mkNode {
  rangesStart : Z;
  rangesEnd : Z;
  epsilonTransitionTargetsStart : Z;
  epsilonTransitionTargetsEnd : Z;
  actionStart : Z;
  actionEnd : Z
}.

Record NFA := mkNFA {
  nodes : list ImmutableNFANode;
  transitions : list ImmutableRange;
  targets : list Z;
  epsilonTransitionsTargets : list Z;
  actions : list Z
}.

(** The elements at [start], ..., [stop - 1]. *)
Definition between {A} (l : list A) (start stop : Z) : option (list A) := mapM (DFA.at_ l) (seqZ start (stop - start)).

(** [IterableConstTargets]: the iterator stops when it is at the end. *)
Definition IterableConstTargets (nfa : NFA) (range : ImmutableRange) : option (list Z) :=
  guard (targetStart range <= targetEnd range);; between (targets nfa) (targetStart range) (targetEnd range).

Definition spanOf (nfa : NFA) (range : ImmutableRange) : option (Span (list Z)) :=
  data ← IterableConstTargets nfa range; Some (mkSpan (first range) (last range) data).

(** The ranges of a node with their targets. *)
Definition transitionsForNode (nfa : NFA) (nodeId : Z) : option (list (Span (list Z))) :=
  node ← DFA.at_ (nodes nfa) nodeId;
  guard (rangesStart node <= rangesEnd node);;
  ranges ← between (transitions nfa) (rangesStart node) (rangesEnd node);
  mapM (spanOf nfa) ranges.

Definition root (nfa : NFA) : option Z := guard (nodes nfa <> []);; Some 0.

End NFA.
