(* ===== verification/NFAToDFA.v ===== *)
(** * NFAToDFA: the powerset construction

    Translated from src/Source/WebCore/contentextensions/NFAToDFA.cpp.  Sets of
    nodes are [gset]s; the order in which the hash table of a set is walked is
    a function of the set, an argument.  The table of the sets seen so far is
    the list of its entries; its hash is not modelled, as it does not depend on
    the order of a set (the sum of the members).  The main loop takes fuel. *)

From stdpp Require Import gmap.
From S2P Require Import Prelude DFA MutableRangeList NFA.
Import MutableRangeList.

Module NFAToDFA.

Notation NodeIdSet := (gset Z).

(** ** Closures *)

(** The set, the nodes to process (the last one first) and the output. *)
Record Closing := mkClosing { closure : NodeIdSet; unprocessedNodes : list Z; output : list Z }.

(** The loop over the targets of a node. *)
Fixpoint addTargets (ts : list Z) (c : Closing) : Closing :=
  match ts with
  | [] => c
  | t :: ts =>
      if decide (t ∈ closure c) then addTargets ts c
      else addTargets ts (mkClosing ({[ t ]} ∪ closure c) (t :: unprocessedNodes c) (output c ++ [t]))
  end.

Definition epsilonTargets (nfa : NFA.NFA) (nodeId : Z) : option (list Z) :=
  node ← DFA.at_ (NFA.nodes nfa) nodeId;
  NFA.between (NFA.epsilonTransitionsTargets nfa) (NFA.epsilonTransitionTargetsStart node) (NFA.epsilonTransitionTargetsEnd node).

Fixpoint closureLoop (fuel : nat) (nfa : NFA.NFA) (c : Closing) : option (list Z) :=
  match fuel with
  | O => None
  | S fuel =>
      match unprocessedNodes c with
      | [] => None
      | u :: rest =>
          ts ← epsilonTargets nfa u;
          let c := addTargets ts (mkClosing (closure c) rest (output c)) in
          match unprocessedNodes c with
          | [] => Some (output c)
          | _ => closureLoop fuel nfa c
          end
      end
  end.

Definition epsilonClosureExcludingSelf (nfa : NFA.NFA) (nodeId : Z) : option (list Z) :=
  closureLoop (length (NFA.nodes nfa)) nfa (mkClosing {[ nodeId ]} [nodeId] []).

(** The closures, and the automaton without its epsilon transitions. *)
Definition resolveEpsilonClosures (nfa : NFA.NFA) : option (list (list Z) * NFA.NFA) :=
  closures ← mapM (epsilonClosureExcludingSelf nfa) (seqZ 0 (Z.of_nat (length (NFA.nodes nfa))));
  Some (closures, NFA.mkNFA (NFA.nodes nfa) (NFA.transitions nfa) (NFA.targets nfa) [] (NFA.actions nfa)).

Definition extendSetWithClosure (closures : list (list Z)) (nodeId : Z) (set : NodeIdSet) : option NodeIdSet :=
  guard (nodeId ∈ set);;
  nodeClosure ← DFA.at_ closures nodeId;
  Some (set ∪ list_to_set nodeClosure).

(** [DataConverterWithEpsilonClosure] *)
Fixpoint convertTargets (closures : list (list Z)) (iterable : list Z) (result : NodeIdSet) : option NodeIdSet :=
  match iterable with
  | [] => Some result
  | nodeId :: iterable =>
      nodeClosure ← DFA.at_ closures nodeId;
      convertTargets closures iterable ((result ∪ {[ nodeId ]}) ∪ list_to_set nodeClosure)
  end.

Definition convertData (closures : list (list Z)) (iterable : list Z) : option NodeIdSet := convertTargets closures iterable ∅.

Fixpoint extendData (closures : list (list Z)) (destination : NodeIdSet) (iterable : list Z) : option NodeIdSet :=
  match iterable with
  | [] => Some destination
  | nodeId :: iterable =>
      if decide (nodeId ∈ destination) then extendData closures destination iterable
      else
        nodeClosure ← DFA.at_ closures nodeId;
        extendData closures ((destination ∪ {[ nodeId ]}) ∪ list_to_set nodeClosure) iterable
  end.

(** ** Nodes for sets *)

(** [UniqueNodeIdSetImpl]: the members in the order of their hash table. *)
Record UniqueNodeIdSetImpl := mkImpl { m_buffer : list Z; m_dfaNodeId : Z }.

(** [operator==(const NodeIdSet&)] *)
Definition equalsSet (impl : UniqueNodeIdSetImpl) (other : NodeIdSet) : bool :=
  Nat.eqb (length (m_buffer impl)) (size other) && forallb (fun nodeId => bool_decide (nodeId ∈ other)) (m_buffer impl).

Record Builder := mkBuilder {
  dfa : DFA.DFA;
  uniqueNodeIdSetTable : list UniqueNodeIdSetImpl;
  unprocessed : list UniqueNodeIdSetImpl
}.

Section Convert.

Context (nodeOrder actionOrder : gset Z -> list Z) (nfa : NFA.NFA) (closures : list (list Z)).

(** The actions of the nodes of a set. *)
Fixpoint collectActions (nodeIds : list Z) (actions : gset Z) : option (gset Z) :=
  match nodeIds with
  | [] => Some actions
  | nodeId :: nodeIds =>
      node ← DFA.at_ (NFA.nodes nfa) nodeId;
      l ← NFA.between (NFA.actions nfa) (NFA.actionStart node) (NFA.actionEnd node);
      collectActions nodeIds (actions ∪ list_to_set l)
  end.

(** [NodeIdSetToUniqueNodeIdSetTranslator::translate]: a new node for the set. *)
Definition translate (nodeIdSet : NodeIdSet) (d : DFA.DFA) : option (DFA.DFA * UniqueNodeIdSetImpl) :=
  actions ← collectActions (nodeOrder nodeIdSet) ∅;
  let actionsStart := u32 (Z.of_nat (length (DFA.dfa_actions d))) in
  let newActions := DFA.dfa_actions d ++ actionOrder actions in
  let actionsEnd := u32 (Z.of_nat (length newActions)) in
  let actionsLength := u32 (actionsEnd - actionsStart) in
  guard (actionsLength <= 2 ^ 16 - 1);;
  newDFANode ← DFA.setActions actionsStart actionsLength (DFA.mkNode 0 0 0 0 0);
  let dfaNodeId := u32 (Z.of_nat (length (DFA.nodes d))) in
  guard (size nodeIdSet <> 0%nat);;
  Some (DFA.mkDFA (DFA.nodes d ++ [newDFANode]) newActions (DFA.transitionRanges d) (DFA.transitionDestinations d) (DFA.root d),
        mkImpl (nodeOrder nodeIdSet) dfaNodeId).

Definition getOrCreateDFANode (nfaNodeSet : NodeIdSet) (b : Builder) : option (Builder * Z) :=
  match List.find (fun impl => equalsSet impl nfaNodeSet) (uniqueNodeIdSetTable b) with
  | Some impl => Some (b, m_dfaNodeId impl)
  | None =>
      '(d, impl) ← translate nfaNodeSet (dfa b);
      Some (mkBuilder d (uniqueNodeIdSetTable b ++ [impl]) (impl :: unprocessed b), m_dfaNodeId impl)
  end.

(** [createCombinedTransition] *)
Fixpoint combineNodes (buffer : list Z) (combinedRangeList : list (MutableRange NodeIdSet)) : option (list (MutableRange NodeIdSet)) :=
  match buffer with
  | [] => Some combinedRangeList
  | nodeId :: buffer =>
      transitions ← NFA.transitionsForNode nfa nodeId;
      combinedRangeList ← extend (convertData closures) (extendData closures) combinedRangeList transitions;
      combineNodes buffer combinedRangeList
  end.

Definition createCombinedTransition (sourceNodeSet : UniqueNodeIdSetImpl) : option (list (MutableRange NodeIdSet)) :=
  combineNodes (m_buffer sourceNodeSet) [].

(** The loop over the combined ranges. *)
Fixpoint addTransitions (combinedRangeList : list (MutableRange NodeIdSet)) (b : Builder) : option Builder :=
  match combinedRangeList with
  | [] => Some b
  | range :: combinedRangeList =>
      '(b, targetNodeId) ← getOrCreateDFANode (data range) b;
      let d := dfa b in
      addTransitions combinedRangeList
        (mkBuilder (DFA.mkDFA (DFA.nodes d) (DFA.dfa_actions d) (DFA.transitionRanges d ++ [DFA.mkCharRange (first range) (last range)])
                      (DFA.transitionDestinations d ++ [targetNodeId]) (DFA.root d))
                   (uniqueNodeIdSetTable b) (unprocessed b))
  end.

(** The body of the main loop. *)
Definition processSet (impl : UniqueNodeIdSetImpl) (b : Builder) : option Builder :=
  combined ← createCombinedTransition impl;
  combinedRangeList ← toList combined;
  let transitionsStart := u32 (Z.of_nat (length (DFA.transitionRanges (dfa b)))) in
  b ← addTransitions combinedRangeList b;
  let d := dfa b in
  let transitionsEnd := u32 (Z.of_nat (length (DFA.transitionRanges d))) in
  let transitionsLength := u32 (transitionsEnd - transitionsStart) in
  dfaSourceNode ← DFA.at_ (DFA.nodes d) (m_dfaNodeId impl);
  dfaSourceNode ← DFA.setTransitions transitionsStart (transitionsLength mod 2 ^ 8) dfaSourceNode;
  Some (mkBuilder (DFA.mkDFA (<[Z.to_nat (m_dfaNodeId impl) := dfaSourceNode]> (DFA.nodes d)) (DFA.dfa_actions d) (DFA.transitionRanges d)
                     (DFA.transitionDestinations d) (DFA.root d)) (uniqueNodeIdSetTable b) (unprocessed b)).

(** [do ... while (!unprocessedNodes.isEmpty())] *)
Fixpoint processSets (fuel : nat) (b : Builder) : option Builder :=
  match fuel with
  | O => None
  | S fuel =>
      match unprocessed b with
      | [] => None
      | impl :: rest =>
          b ← processSet impl (mkBuilder (dfa b) (uniqueNodeIdSetTable b) rest);
          match unprocessed b with
          | [] => Some b
          | _ => processSets fuel b
          end
      end
  end.

End Convert.

(** [NFAToDFA::convert] *)
Definition convert (nodeOrder actionOrder : gset Z -> list Z) (fuel : nat) (nfa : NFA.NFA) : option DFA.DFA :=
  '(closures, nfa) ← resolveEpsilonClosures nfa;
  root ← NFA.root nfa;
  initialSet ← extendSetWithClosure closures root {[ root ]};
  '(d, impl) ← translate nodeOrder actionOrder nfa initialSet (DFA.mkDFA [] [] [] [] 0);
  b ← processSets nodeOrder actionOrder nfa closures fuel (mkBuilder d [impl] [impl]);
  Some (dfa b).

End NFAToDFA.
