(* ===== verification/NFAToDFAClosure.v ===== *)
(** * NFAToDFAClosure: runs of an NFA, its closures, and the invariant of the powerset construction *)

From stdpp Require Import gmap relations sorting.
From S2P Require Import Prelude DFA DFABytecode DFABytecodeCompiler DFATransitions DFAEmit DFACompile MutableRangeList MutableRangeListCorrect NFA NFAToDFA.

(** * What an NFA does, and its epsilon closures *)

Import MutableRangeList NFAToDFA.

(** ** Runs of an automaton *)

Definition valid (nfa : NFA.NFA) (i : Z) : Prop := 0 <= i < Z.of_nat (length (NFA.nodes nfa)).

(** The node [i] has an epsilon transition to [j]. *)
Definition eps (nfa : NFA.NFA) (i j : Z) : Prop := exists ts, epsilonTargets nfa i = Some ts /\ j ∈ ts.

(** The node [i] has a transition to [j] on the character [c]. *)
Definition step (nfa : NFA.NFA) (c i j : Z) : Prop := exists ss ts, NFA.transitionsForNode nfa i = Some ss /\ find c ss = Some ts /\ j ∈ ts.

(** From node [i] the automaton can read [w] and be in node [j]. *)
Inductive nfaRun (nfa : NFA.NFA) : Z -> list Z -> Z -> Prop :=
| run_done i : nfaRun nfa i [] i
| run_eps i j k w : eps nfa i j -> nfaRun nfa j w k -> nfaRun nfa i w k
| run_char i j k c w : step nfa c i j -> nfaRun nfa j w k -> nfaRun nfa i (c :: w) k.

Definition nodeActions (nfa : NFA.NFA) (i : Z) : option (list Z) :=
  node ← DFA.at_ (NFA.nodes nfa) i; NFA.between (NFA.actions nfa) (NFA.actionStart node) (NFA.actionEnd node).

(** Slices are in range, the ranges of a node are ordered and lead somewhere,
    and nodes that are named exist. *)
Record okNFA (nfa : NFA.NFA) : Prop := {
  nfa_root : NFA.nodes nfa <> [];
  nfa_eps : forall i, valid nfa i -> exists ts, epsilonTargets nfa i = Some ts /\ Forall (valid nfa) ts;
  nfa_ranges : forall i, valid nfa i -> exists ss, NFA.transitionsForNode nfa i = Some ss /\ ordered (-1) ss
    /\ Forall (fun s => val s <> [] /\ Forall (valid nfa) (val s)) ss;
  nfa_actions : forall i, valid nfa i -> exists l, nodeActions nfa i = Some l }.

Lemma run_app nfa i w1 j w2 k : nfaRun nfa i w1 j -> nfaRun nfa j w2 k -> nfaRun nfa i (w1 ++ w2) k.
Proof. induction 1; cbn; intros; [done|eapply run_eps|eapply run_char]; eauto. Qed.

Lemma run_closure nfa i j : nfaRun nfa i [] j <-> rtc (eps nfa) i j.
Proof.
  split.
  - intros H. remember [] as w eqn:E. induction H; [reflexivity|eapply rtc_l; eauto|done].
  - induction 1; [constructor|eapply run_eps; eauto].
Qed.

(** Runs end with a character and a closure. *)
Lemma run_snoc nfa i w c k : nfaRun nfa i (w ++ [c]) k <-> exists j j', nfaRun nfa i w j /\ step nfa c j j' /\ rtc (eps nfa) j' k.
Proof.
  split.
  - intros H. remember (w ++ [c]) as w' eqn:E. revert w E. induction H as [i|i j k w' He Hr IH|i j k c' w' Hs Hr IH]; intros w E.
    + by destruct w.
    + destruct (IH w E) as (a & b & H1 & H2 & H3). exists a, b. split; [eapply run_eps; eauto|done].
    + destruct w as [|c0 w]; cbn in E; injection E as -> ->.
      * exists i, j. split; [constructor|]. split; [done|]. by apply run_closure.
      * destruct (IH w eq_refl) as (a & b & H1 & H2 & H3). exists a, b. split; [eapply run_char; eauto|done].
  - intros (j & j' & H1 & H2 & H3). eapply run_app; [exact H1|]. eapply run_char; [exact H2|]. by apply run_closure.
Qed.

Lemma addTargets_spec ts : forall c, exists new,
  closure (addTargets ts c) = closure c ∪ list_to_set ts /\ unprocessedNodes (addTargets ts c) = new ++ unprocessedNodes c
  /\ (forall j, j ∈ output (addTargets ts c) <-> j ∈ output c \/ j ∈ new) /\ (forall j, j ∈ new <-> j ∈ ts /\ j ∉ closure c)
  /\ size (closure (addTargets ts c)) = (length new + size (closure c))%nat.
Proof.
  induction ts as [|t ts IH]; intros c; cbn [addTargets].
  - exists []. split_and!; [set_solver|done|set_solver|set_solver|done].
  - destruct (decide (t ∈ closure c)) as [Ht|Ht].
    + destruct (IH c) as (new & -> & -> & Ho & Hn & ->). exists new. split_and!; [set_solver|done|done| |done].
      intros j. rewrite Hn, elem_of_cons. naive_solver.
    + destruct (IH (mkClosing ({[t]} ∪ closure c) (t :: unprocessedNodes c) (output c ++ [t]))) as (new & -> & -> & Ho & Hn & ->).
      cbn [closure unprocessedNodes output] in *. exists (new ++ [t]). split_and!; [set_solver|by rewrite <- app_assoc| | |].
      * intros j. rewrite Ho. set_solver.
      * intros j. rewrite elem_of_app, Hn. destruct (decide (j = t)) as [->|]; set_solver.
      * rewrite size_union by set_solver. rewrite size_singleton, length_app. cbn. lia.
Qed.

Lemma run_split nfa i w1 w2 k : nfaRun nfa i (w1 ++ w2) k -> exists j, nfaRun nfa i w1 j /\ nfaRun nfa j w2 k.
Proof.
  intros H. remember (w1 ++ w2) as w eqn:E. revert w1 E. induction H as [i|i j k w He Hr IH|i j k c w Hs Hr IH]; intros w1 E.
  - symmetry in E. apply app_eq_nil in E as [-> ->]. exists i. split; constructor.
  - destruct (IH w1 E) as (m & H1 & H2). exists m. split; [by eapply run_eps|done].
  - destruct w1 as [|c1 w1]; [cbn in E; subst w2; exists i; split; [constructor|by eapply run_char]|]. cbn in E. injection E as -> ->.
    destruct (IH w1 eq_refl) as (m & H1 & H2). exists m. split; [by eapply run_char|done].
Qed.

Section OkNFA.

Context (nfa : NFA.NFA) (Hok : okNFA nfa).

Lemma eps_valid i j : valid nfa i -> eps nfa i j -> valid nfa j.
Proof using Hok. intros Hi (ts & E & Hj). destruct (nfa_eps _ Hok i Hi) as (ts' & E' & Hv). rewrite Forall_forall in Hv. apply Hv. congruence. Qed.

Lemma closure_valid i j : valid nfa i -> rtc (eps nfa) i j -> valid nfa j.
Proof using Hok. intros Hi H. induction H; [done|]. apply IHrtc. by eapply eps_valid. Qed.

Lemma step_valid c i j : valid nfa i -> step nfa c i j -> valid nfa j.
Proof using Hok.
  intros Hi (ss & ts & E & Hf & Hj). destruct (nfa_ranges _ Hok i Hi) as (ss' & E' & _ & Hv). assert (ss' = ss) as -> by congruence.
  apply find_span in Hf as (s & Hs & _ & <-). rewrite Forall_forall in Hv. destruct (Hv s Hs) as [_ H]. rewrite Forall_forall in H. by apply H.
Qed.

Lemma run_valid i w j : valid nfa i -> nfaRun nfa i w j -> valid nfa j.
Proof using Hok. intros Hi H. induction H; [done| |]; apply IHnfaRun; [by eapply eps_valid|by eapply step_valid]. Qed.

Lemma root_valid : valid nfa 0.
Proof using Hok. unfold valid. pose proof (nfa_root _ Hok). destruct (NFA.nodes nfa); [done|]. cbn. lia. Qed.

(** The set of all nodes. *)
Definition allNodes : gset Z := list_to_set (seqZ 0 (Z.of_nat (length (NFA.nodes nfa)))).

Lemma elem_allNodes i : i ∈ allNodes <-> valid nfa i.
Proof. unfold allNodes, valid. rewrite elem_of_list_to_set, elem_of_seqZ. lia. Qed.

Lemma size_allNodes : size allNodes = length (NFA.nodes nfa).
Proof. unfold allNodes. rewrite size_list_to_set by apply NoDup_seqZ. rewrite length_seqZ. lia. Qed.

(** ** The closure of one node *)

(** What the worklist knows. *)
Record Closed (i : Z) (c : Closing) : Prop := {
  closed_output : forall j, j ∈ closure c <-> j = i \/ j ∈ output c;
  closed_self : i ∉ output c;
  closed_reach : forall j, j ∈ closure c -> rtc (eps nfa) i j;
  closed_work : forall j, j ∈ unprocessedNodes c -> j ∈ closure c;
  closed_done : forall j k, j ∈ closure c -> j ∉ unprocessedNodes c -> eps nfa j k -> k ∈ closure c }.

Lemma Closed_bound i c : valid nfa i -> Closed i c -> (size (closure c) <= length (NFA.nodes nfa))%nat.
Proof using Hok.
  intros Hi HC. rewrite <- size_allNodes. apply subseteq_size. intros j Hj. apply elem_allNodes. eapply closure_valid; [exact Hi|]. by apply (closed_reach _ _ HC).
Qed.

Lemma Closed_step i c u rest ts : valid nfa i -> Closed i c -> unprocessedNodes c = u :: rest -> epsilonTargets nfa u = Some ts ->
  Closed i (addTargets ts (mkClosing (closure c) rest (output c)))
  /\ (length (NFA.nodes nfa) - size (closure (addTargets ts (mkClosing (closure c) rest (output c))))
      + length (unprocessedNodes (addTargets ts (mkClosing (closure c) rest (output c))))
      < length (NFA.nodes nfa) - size (closure c) + length (unprocessedNodes c))%nat.
Proof using Hok.
  intros Hi HC E Et. assert (u ∈ closure c) as Hu by (apply (closed_work _ _ HC); rewrite E; left).
  destruct (addTargets_spec ts (mkClosing (closure c) rest (output c))) as (new & Ec & Eu & Ho & Hn & Es). cbn [closure unprocessedNodes output] in *.
  assert (Closed i (addTargets ts (mkClosing (closure c) rest (output c)))) as HC'.
  { split.
    - intros j. rewrite Ec, elem_of_union, elem_of_list_to_set, Ho, (closed_output _ _ HC), Hn, (closed_output _ _ HC).
      destruct (decide (j ∈ ts)), (decide (j = i)), (decide (j ∈ output c)); naive_solver.
    - rewrite Ho, Hn. intros [H|[_ H]]; [by apply (closed_self _ _ HC)|]. apply H, (closed_output _ _ HC). by left.
    - intros j. rewrite Ec, elem_of_union, elem_of_list_to_set. intros [H|H]; [by apply (closed_reach _ _ HC)|].
      eapply rtc_r; [by apply (closed_reach _ _ HC)|]. by exists ts.
    - intros j. rewrite Eu, Ec, elem_of_app, elem_of_union, elem_of_list_to_set. intros [H|H]; [right; by apply Hn|]. left.
      apply (closed_work _ _ HC). rewrite E. by right.
    - intros j k. rewrite Ec, Eu, elem_of_app, !elem_of_union, !elem_of_list_to_set. intros Hj Hnot He.
      destruct (decide (j = u)) as [->|Hju]; [right; destruct He as (ts' & E' & Hk); congruence|]. left.
      assert (j ∈ closure c) as Hjc by (destruct (decide (j ∈ closure c)); [done|]; exfalso; apply Hnot; left; apply Hn; naive_solver).
      apply (closed_done _ _ HC j k Hjc); [|done]. rewrite E, elem_of_cons. naive_solver. }
  split; [done|]. pose proof (Closed_bound _ _ Hi HC'). rewrite Es in *. rewrite Eu, E, length_app. cbn. lia.
Qed.

Lemma closureLoop_spec fuel : forall i c, valid nfa i -> Closed i c -> unprocessedNodes c <> [] ->
  (length (NFA.nodes nfa) - size (closure c) + length (unprocessedNodes c) <= fuel)%nat ->
  exists out, closureLoop fuel nfa c = Some out /\ forall j, j ∈ out <-> rtc (eps nfa) i j /\ j <> i.
Proof using Hok.
  induction fuel as [|fuel IH]; intros i c Hi HC Hne Hf; [destruct (unprocessedNodes c); [done|cbn in Hf; lia]|]. cbn [closureLoop].
  destruct (unprocessedNodes c) as [|u rest] eqn:E; [done|]. assert (valid nfa u) as Hu.
  { eapply closure_valid; [exact Hi|]. apply (closed_reach _ _ HC), (closed_work _ _ HC). rewrite E. left. }
  destruct (nfa_eps _ Hok u Hu) as (ts & Et & _). rewrite Et. cbn [mbind option_bind].
  destruct (Closed_step i c u rest ts Hi HC E Et) as [HC' Hm]. rewrite E in Hm. set (c' := addTargets ts _) in *.
  destruct (unprocessedNodes c') as [|u' rest'] eqn:E'.
  - exists (output c'). split; [done|]. intros j. assert (forall a b, rtc (eps nfa) a b -> a ∈ closure c' -> b ∈ closure c') as Hall.
    { intros a b H. induction H as [|a b d He Hr IHr]; [done|]. intros Ha. apply IHr, (closed_done _ _ HC' a b Ha); [|done]. rewrite E'. apply not_elem_of_nil. }
    pose proof (closed_output _ _ HC' j) as Hj. split.
    + intros Ho. split; [apply (closed_reach _ _ HC'), Hj; by right|]. intros ->. by apply (closed_self _ _ HC').
    + intros [Hr Hji]. apply (Hall i j) in Hr; [|apply (closed_output _ _ HC'); by left]. apply Hj in Hr. naive_solver.
  - rewrite <- E' in *. destruct (IH i c' Hi HC') as (out & -> & Hout); [by rewrite E'|lia|]. by exists out.
Qed.

Lemma epsilonClosureExcludingSelf_spec i : valid nfa i ->
  exists out, epsilonClosureExcludingSelf nfa i = Some out /\ forall j, j ∈ out <-> rtc (eps nfa) i j /\ j <> i.
Proof using Hok.
  intros Hi. apply closureLoop_spec; [done| |done|].
  - split; cbn [closure unprocessedNodes output]; [set_solver|apply not_elem_of_nil| |set_solver|].
    + intros j ->%elem_of_singleton. reflexivity.
    + intros j k ->%elem_of_singleton H. exfalso. apply H. left.
  - cbn [closure unprocessedNodes length]. rewrite size_singleton. unfold valid in Hi. lia.
Qed.

(** ** All closures *)

(** The list of closures, by node. *)
Definition okClosures (closures : list (list Z)) : Prop :=
  length closures = length (NFA.nodes nfa)
  /\ forall i, valid nfa i -> exists out, DFA.at_ closures i = Some out /\ forall j, j ∈ out <-> rtc (eps nfa) i j /\ j <> i.

Lemma resolveEpsilonClosures_spec : exists closures,
  resolveEpsilonClosures nfa
  = Some (closures, NFA.mkNFA (NFA.nodes nfa) (NFA.transitions nfa) (NFA.targets nfa) [] (NFA.actions nfa))
  /\ okClosures closures.
Proof using Hok.
  unfold resolveEpsilonClosures.
  assert (exists closures, mapM (epsilonClosureExcludingSelf nfa) (seqZ 0 (Z.of_nat (length (NFA.nodes nfa)))) = Some closures) as [closures E].
  { apply mapM_is_Some. apply Forall_forall. intros i Hi%elem_of_seqZ.
    destruct (epsilonClosureExcludingSelf_spec i) as (out & E & _); [unfold valid; lia|]. by exists out. }
  rewrite E. cbn [mbind option_bind]. exists closures. split; [done|]. apply mapM_Some in E. pose proof (Forall2_length _ _ _ E) as Hl. rewrite length_seqZ in Hl.
  split; [lia|]. intros i Hi. destruct (epsilonClosureExcludingSelf_spec i Hi) as (out & Eo & Ho). exists out. split; [|done]. unfold valid in Hi.
  destruct (Forall2_lookup_l _ _ _ (Z.to_nat i) i E) as (out' & E1 & E2); [rewrite lookup_seqZ; lia|]. unfold DFA.at_.
  rewrite (proj2 (Z.ltb_ge i 0)) by lia. congruence.
Qed.

End OkNFA.

(** * The transitions of a set of nodes *)

Import MutableRangeList NFAToDFA.

Section Combine.

Context (nfa : NFA.NFA) (Hok : okNFA nfa) (closures : list (list Z)) (Hcl : okClosures nfa closures).

Definition closureOf (i : Z) : gset Z := {[ i ]} ∪ list_to_set (default [] (DFA.at_ closures i)).

Lemma elem_closureOf i j : valid nfa i -> j ∈ closureOf i <-> rtc (eps nfa) i j.
Proof using Hcl.
  intros Hi. destruct Hcl as [_ H]. destruct (H i Hi) as (out & E & Ho). unfold closureOf. rewrite E. cbn [default].
  rewrite elem_of_union, elem_of_singleton, elem_of_list_to_set, Ho. split.
  - intros [->|[? _]]; [reflexivity|done].
  - intros Hr. destruct (decide (j = i)); [by left|by right].
Qed.

(** The two functions of the converter, as total functions. *)
Definition convAll (l : list Z) (acc : gset Z) : gset Z := foldl (fun acc i => acc ∪ closureOf i) acc l.
Definition extAll (d : gset Z) (l : list Z) : gset Z := foldl (fun d i => if decide (i ∈ d) then d else d ∪ closureOf i) d l.

Lemma closures_at i : valid nfa i -> exists out, DFA.at_ closures i = Some out /\ closureOf i = {[ i ]} ∪ list_to_set out.
Proof using Hcl. intros Hi. destruct Hcl as [_ H]. destruct (H i Hi) as (out & E & _). exists out. unfold closureOf. by rewrite E. Qed.

Lemma convertTargets_total l : forall acc, Forall (valid nfa) l -> convertTargets closures l acc = Some (convAll l acc).
Proof using Hcl.
  induction l as [|i l IH]; intros acc H; cbn [convertTargets convAll foldl]; [done|]. apply Forall_cons in H as [Hi H].
  destruct (closures_at i Hi) as (out & -> & ->). cbn [mbind option_bind]. rewrite IH by done. unfold convAll. by rewrite <- union_assoc_L.
Qed.

Lemma extendData_total l : forall d, Forall (valid nfa) l -> extendData closures d l = Some (extAll d l).
Proof using Hcl.
  induction l as [|i l IH]; intros d H; cbn [extendData extAll foldl]; [done|]. apply Forall_cons in H as [Hi H].
  repeat case_decide; try done; [by apply IH|]. destruct (closures_at i Hi) as (out & -> & ->). cbn [mbind option_bind]. rewrite IH by done. unfold extAll.
  by rewrite <- union_assoc_L.
Qed.

Lemma elem_convAll l : forall acc j, Forall (valid nfa) l -> j ∈ convAll l acc <-> j ∈ acc \/ exists i, i ∈ l /\ rtc (eps nfa) i j.
Proof using Hcl.
  induction l as [|i l IH]; intros acc j H; cbn [convAll foldl]; [split; [by left|]; intros [?|(? & []%not_elem_of_nil & _)]; done|].
  apply Forall_cons in H as [Hi H]. fold (convAll l (acc ∪ closureOf i)). rewrite IH, elem_of_union, elem_closureOf by done. setoid_rewrite elem_of_cons. naive_solver.
Qed.

(** [extend] skips the closure of a node it has, which is right when the set
    is closed. *)
Definition closedSet (d : gset Z) : Prop := forall i j, i ∈ d -> rtc (eps nfa) i j -> j ∈ d.

Lemma elem_extAll l : forall d j, Forall (valid nfa) l -> closedSet d -> j ∈ extAll d l <-> j ∈ d \/ exists i, i ∈ l /\ rtc (eps nfa) i j.
Proof using Hcl.
  induction l as [|i l IH]; intros d j H Hd; cbn [extAll foldl]; [split; [by left|]; intros [?|(? & []%not_elem_of_nil & _)]; done|].
  apply Forall_cons in H as [Hi H]. setoid_rewrite elem_of_cons. destruct (decide (i ∈ d)) as [Hid|Hid].
  - fold (extAll d l). rewrite IH by done. naive_solver.
  - fold (extAll (d ∪ closureOf i) l). rewrite IH, elem_of_union, elem_closureOf; [naive_solver|done|done|].
    intros a b. rewrite !elem_of_union, !elem_closureOf by done. intros [Ha|Ha] Hr; [left; by eapply Hd|right; by etrans].
Qed.

(** [X] is what the nodes of [seen] go to on [x], with closures. *)
Definition image (seen : list Z) (x : Z) (j : Z) : Prop := exists i i', i ∈ seen /\ step nfa x i i' /\ rtc (eps nfa) i' j.

Definition Comb (seen : list Z) (vs : list (Span (gset Z))) : Prop :=
  ordered (-1) vs /\ forall x, match find x vs with
                               | Some X => (exists j, j ∈ X) /\ forall j, j ∈ X <-> image seen x j
                               | None => forall j, ~ image seen x j
                               end.

Lemma image_closed seen x X : (forall j, j ∈ X <-> image seen x j) -> closedSet X.
Proof. intros H i j Hi Hr. apply H in Hi as (a & b & H1 & H2 & H3). apply H. exists a, b. split_and!; try done. by etrans. Qed.

Lemma image_app seen i x j : image (seen ++ [i]) x j <-> image seen x j \/ exists i', step nfa x i i' /\ rtc (eps nfa) i' j.
Proof.
  unfold image. split.
  - intros (a & b & Ha & H). apply elem_of_app in Ha as [Ha|Ha%list_elem_of_singleton]; [left; by exists a, b|subst a; right; by exists b].
  - intros [(a & b & Ha & H)|(b & H)]; [exists a, b|exists i, b]; (split; [apply elem_of_app|done]); [by left|right; left].
Qed.

Lemma combineNodes_spec buffer : forall seen rs vs, Forall (valid nfa) buffer -> Represents rs vs -> Comb seen vs ->
  exists rs' vs', combineNodes nfa closures buffer rs = Some rs' /\ Represents rs' vs' /\ Comb (seen ++ buffer) vs'.
Proof using Hok Hcl.
  induction buffer as [|i buffer IH]; intros seen rs vs Hb HR [Ho HC]; cbn [combineNodes].
  - exists rs, vs. by rewrite app_nil_r.
  - apply Forall_cons in Hb as [Hi Hb]. destruct (nfa_ranges _ Hok i Hi) as (ss & E & Hss & Hval). rewrite E. cbn [mbind option_bind].
    destruct (extend_spec (convertData closures) (extendData closures) (fun l => convAll l ∅) extAll (Forall (valid nfa)))
      with (rs := rs) (vs := vs) (l := ss) as (rs1 & vs1 & -> & HR1 & Ho1 & HM); try done.
    { intros l Hl. by apply convertTargets_total. }
    { intros d l Hl. by apply extendData_total. }
    { eapply Forall_impl; [exact Hval|]. intros s Hs. apply Hs. }
    cbn [mbind option_bind]. rewrite (cons_middle i seen buffer), app_assoc. apply (IH (seen ++ [i]) rs1 vs1 Hb HR1). split; [done|]. intros x. rewrite HM.
    assert (forall j, (exists i', step nfa x i i' /\ rtc (eps nfa) i' j) <-> exists ts, find x ss = Some ts /\ exists i', i' ∈ ts /\ rtc (eps nfa) i' j) as Hst.
    { intros j. unfold step. split; [intros (i' & (ss' & ts & E' & Ef & Hi') & Hr)|intros (ts & Ef & i' & Hi' & Hr)]; [|by exists i'; split; [by exists ss, ts|]].
      assert (ss' = ss) as -> by congruence. eauto. }
    specialize (HC x). destruct (find x ss) as [ts|] eqn:Ef.
    + apply find_span in Ef as (s & Hs & _ & <-). rewrite Forall_forall in Hval. destruct (Hval s Hs) as [Hne Hv].
      assert (exists t, t ∈ val s) as [t Ht] by (destruct (val s) as [|t ?]; [done|exists t; left]).
      destruct (find x vs) as [X|]; cbn [MutableRangeListCorrect.merge].
      * destruct HC as [[j0 Hj0] HX]. pose proof (image_closed _ _ _ HX) as Hclosed. split; [exists j0; apply elem_extAll; [done|done|by left]|].
        intros j. rewrite elem_extAll, image_app, HX, Hst by done. naive_solver.
      * split; [exists t; apply elem_convAll; [done|right; by exists t]|]. intros j. rewrite elem_convAll, image_app, Hst by done. set_solver.
    + destruct (find x vs) as [X|]; cbn [MutableRangeListCorrect.merge].
      * destruct HC as [Hne HX]. split; [done|]. intros j. rewrite image_app, HX, Hst. naive_solver.
      * intros j. rewrite image_app, Hst. intros [H|(ts & ? & _)]; [by apply (HC j)|done].
Qed.

(** The combined ranges of a set, in order. *)
Lemma createCombinedTransition_spec impl : Forall (valid nfa) (m_buffer impl) ->
  exists rs l, createCombinedTransition nfa closures impl = Some rs /\ toList rs = Some l /\ Comb (m_buffer impl) (view <$> l).
Proof using Hok Hcl.
  intros Hb. destruct (combineNodes_spec (m_buffer impl) [] [] []) as (rs & vs & E & HR & HC); [done|apply Represents_nil| |].
  - split; [done|]. intros x j (a & b & []%not_elem_of_nil & _).
  - destruct (toList_represents rs vs HR) as (l & El & Ev). exists rs, l. rewrite Ev. done.
Qed.

End Combine.

(** * Growing a DFA node by node *)

Import NFAToDFA.

(** ** Vectors that grow *)

Lemma at_nat {A} (l : list A) k : DFA.at_ l (Z.of_nat k) = l !! k.
Proof. unfold DFA.at_. rewrite (proj2 (Z.ltb_ge _ _)) by lia. by rewrite Nat2Z.id. Qed.

Lemma at_grow {A} (l m : list A) i x : DFA.at_ l i = Some x -> DFA.at_ (l ++ m) i = Some x.
Proof. unfold DFA.at_. destruct (i <? 0); [done|]. apply lookup_app_l_Some. Qed.

Lemma at_elem {A} (l : list A) i x : DFA.at_ l i = Some x -> x ∈ l.
Proof. unfold DFA.at_. destruct (i <? 0); [done|]. apply list_elem_of_lookup_2. Qed.

Lemma mapM_mono {A B} (f g : A -> option B) l k : (forall x y, f x = Some y -> g x = Some y) -> mapM f l = Some k -> mapM g l = Some k.
Proof. rewrite !mapM_Some. intros Hfg H. eapply Forall2_impl; [exact H|]. apply Hfg. Qed.

Lemma actions_grow node d d' more acts :
  DFA.dfa_actions d' = DFA.dfa_actions d ++ more -> DFA.actions node d = Some acts -> DFA.actions node d' = Some acts.
Proof. intros E. unfold DFA.actions. apply mapM_mono. intros i x. rewrite E. apply at_grow. Qed.

Lemma transitions_grow node d d' moreR moreT ts :
  DFA.transitionRanges d' = DFA.transitionRanges d ++ moreR -> DFA.transitionDestinations d' = DFA.transitionDestinations d ++ moreT ->
  DFA.transitions node d = Some ts -> DFA.transitions node d' = Some ts.
Proof.
  intros E1 E2. unfold DFA.transitions. apply mapM_mono. intros i x. rewrite E1, E2.
  destruct (DFA.at_ (DFA.transitionRanges d) i) as [r|] eqn:Er; [|done]. cbn [mbind option_bind]. rewrite (at_grow _ moreR _ _ Er). cbn [mbind option_bind].
  destruct (DFA.at_ (DFA.transitionDestinations d) i) as [t|] eqn:Et; [|done]. by rewrite (at_grow _ moreT _ _ Et).
Qed.

(** Reading what was appended. *)
Lemma mapM_appended {A} (more : list A) : forall l, mapM (DFA.at_ (l ++ more)) (seqZ (Z.of_nat (length l)) (Z.of_nat (length more))) = Some more.
Proof.
  induction more as [|x more IH]; intros l; [done|]. cbn [length]. rewrite seqZ_cons by lia. cbn [mapM].
  rewrite at_nat, list_lookup_middle by done. cbn [mbind option_bind]. replace (Z.succ (Z.of_nat (length l))) with (Z.of_nat (length (l ++ [x]))) by (rewrite length_app; cbn; lia).
  replace (Z.pred (Z.of_nat (S (length more)))) with (Z.of_nat (length more)) by lia.
  specialize (IH (l ++ [x])). rewrite <- app_assoc in IH. cbn [app] in IH. by rewrite IH.
Qed.

Lemma mapM_appended2 {A B} (ra : list A) : forall (rb : list B) la lb, length la = length lb -> length ra = length rb ->
  mapM (fun i => r ← DFA.at_ (la ++ ra) i; t ← DFA.at_ (lb ++ rb) i; Some (r, t)) (seqZ (Z.of_nat (length la)) (Z.of_nat (length ra))) = Some (zip ra rb).
Proof.
  induction ra as [|x ra IH]; intros [|y rb] la lb Hl Hr; try done. cbn [length]. rewrite seqZ_cons by lia. cbn [mapM zip].
  rewrite !at_nat, (list_lookup_middle la) by done. cbn [mbind option_bind]. rewrite (list_lookup_middle lb) by done. cbn [mbind option_bind].
  replace (Z.succ (Z.of_nat (length la))) with (Z.of_nat (length (la ++ [x]))) by (rewrite length_app; cbn; lia).
  replace (Z.pred (Z.of_nat (S (length ra)))) with (Z.of_nat (length ra)) by lia.
  specialize (IH rb (la ++ [x]) (lb ++ [y])). rewrite <- !app_assoc in IH. cbn [app] in IH. rewrite IH; [done|rewrite !length_app; cbn; lia|cbn in Hr; lia].
Qed.

(** ** The actions of a set *)

(** A member of [l] has the action. *)
Definition actionsAt (nfa : NFA.NFA) (l : list Z) (a : Z) : Prop := exists i acts, i ∈ l /\ nodeActions nfa i = Some acts /\ a ∈ acts.

Lemma between_elem {A} (l : list A) s e r x : NFA.between l s e = Some r -> x ∈ r -> x ∈ l.
Proof.
  intros E Hx. apply mapM_Some in E. apply list_elem_of_lookup in Hx as [k Hk]. destruct (Forall2_lookup_r _ _ _ _ _ E Hk) as (i & _ & Hi). by eapply at_elem.
Qed.

Lemma actionsAt_elem nfa l a : actionsAt nfa l a -> a ∈ NFA.actions nfa.
Proof.
  intros (i & acts & _ & E & Ha). unfold nodeActions in E. destruct (DFA.at_ _ i) as [node|]; [|done]. cbn [mbind option_bind] in E. by eapply between_elem.
Qed.

Lemma collectActions_spec nfa l : okNFA nfa -> forall acc, Forall (valid nfa) l ->
  exists A, collectActions nfa l acc = Some A /\ forall a, a ∈ A <-> a ∈ acc \/ actionsAt nfa l a.
Proof.
  intros Hok. induction l as [|i l IH]; intros acc Hl; cbn [collectActions].
  - exists acc. split; [done|]. intros a. split; [by left|]. intros [?|(? & ? & []%not_elem_of_nil & _)]; done.
  - apply Forall_cons in Hl as [Hi Hl]. destruct (nfa_actions _ Hok i Hi) as (acts & E). pose proof E as E'. unfold nodeActions in E.
    destruct (DFA.at_ (NFA.nodes nfa) i) as [node|]; [|done]. cbn [mbind option_bind] in *. rewrite E. cbn [mbind option_bind].
    destruct (IH (acc ∪ list_to_set acts) Hl) as (A & EA & HA). exists A. split; [done|]. intros a. rewrite HA, elem_of_union, elem_of_list_to_set.
    unfold actionsAt. setoid_rewrite elem_of_cons. split.
    + intros [[?|?]|(j & acts' & ? & ?)]; [by left|right; by exists i, acts; split; [left|]|right; by exists j, acts'; split; [right|]].
    + intros [?|(j & acts' & [->|?] & Ej & ?)]; [by do 2 left|left; right; congruence|right; by exists j, acts'].
Qed.

(** ** A new node *)

Section Translate.

Context (nodeOrder actionOrder : gset Z -> list Z) (nfa : NFA.NFA).
Hypothesis HnodeOrder : forall s, nodeOrder s ≡ₚ elements s.
Hypothesis HactionOrder : forall s, actionOrder s ≡ₚ elements s.
Hypothesis Hok : okNFA nfa.
Hypothesis Hactions : Z.of_nat (length (NFA.actions nfa)) <= 2 ^ 16 - 1.

Lemma elem_nodeOrder s j : j ∈ nodeOrder s <-> j ∈ s.
Proof using HnodeOrder. by rewrite HnodeOrder, elem_of_elements. Qed.

Lemma translate_spec X d : (forall j, j ∈ X -> valid nfa j) -> (exists j, j ∈ X) ->
  Z.of_nat (length (DFA.nodes d)) < 2 ^ 32 -> Z.of_nat (length (DFA.dfa_actions d)) + Z.of_nat (length (NFA.actions nfa)) < 2 ^ 32 ->
  exists acts, translate nodeOrder actionOrder nfa X d
    = Some (DFA.mkDFA (DFA.nodes d ++ [DFA.mkNode (Z.of_nat (length (DFA.dfa_actions d))) 0 (Z.of_nat (length acts)) 0 0]) (DFA.dfa_actions d ++ acts)
              (DFA.transitionRanges d) (DFA.transitionDestinations d) (DFA.root d), mkImpl (nodeOrder X) (Z.of_nat (length (DFA.nodes d))))
    /\ (length acts <= length (NFA.actions nfa))%nat /\ forall a, a ∈ acts <-> actionsAt nfa (nodeOrder X) a.
Proof using HnodeOrder HactionOrder Hok Hactions.
  intros HX [j0 Hj0] Hn Ha. unfold translate. destruct (collectActions_spec nfa (nodeOrder X) Hok ∅) as (A & -> & HA).
  { apply Forall_forall. intros j Hj. by apply HX, elem_nodeOrder. }
  cbn [mbind option_bind]. exists (actionOrder A).
  assert (length (actionOrder A) <= length (NFA.actions nfa))%nat as Hlen.
  { rewrite HactionOrder. change (length (elements A)) with (size A). transitivity (size (list_to_set (NFA.actions nfa) : gset Z)).
    - apply subseteq_size. intros a Ha'. apply HA in Ha' as [?|?]; [set_solver|]. apply elem_of_list_to_set. by eapply actionsAt_elem.
    - generalize (NFA.actions nfa). intros l. clear. induction l as [|x l IH]; [done|]. cbn [list_to_set length]. rewrite size_union_alt, size_singleton.
      pose proof (subseteq_size (list_to_set l ∖ {[x]}) (list_to_set l : gset Z) ltac:(set_solver)). lia. }
  rewrite length_app, Nat2Z.inj_add. rewrite !(u32_id (Z.of_nat (length (DFA.dfa_actions d)))), (u32_id (_ + _)) by lia.
  replace (Z.of_nat (length (DFA.dfa_actions d)) + Z.of_nat (length (actionOrder A)) - Z.of_nat (length (DFA.dfa_actions d)))
    with (Z.of_nat (length (actionOrder A))) by lia.
  rewrite !(u32_id (Z.of_nat _)) by lia. rewrite option_guard_True by lia. unfold DFA.setActions. cbn [DFA.m_actionsStart DFA.m_actionsLength].
  rewrite !option_guard_True by done. cbn [mbind option_bind DFA.m_transitionsStart DFA.m_transitionsLength DFA.m_flags].
  rewrite option_guard_True. 2:{ intros H0. apply size_empty_inv in H0. set_solver. }
  split; [done|]. split; [done|]. intros a. rewrite HactionOrder, elem_of_elements, HA. set_solver.
Qed.

End Translate.

(** ** Entries of the table *)

Definition setOf (impl : UniqueNodeIdSetImpl) : gset Z := list_to_set (m_buffer impl).

Lemma equalsSet_spec impl X : NoDup (m_buffer impl) -> equalsSet impl X = true <-> setOf impl = X.
Proof.
  intros Hnd. unfold equalsSet, setOf. rewrite andb_true_iff, Nat.eqb_eq, forallb_forall. split.
  - intros [Hs Hin]. apply set_subseteq_size_eq; [|by rewrite size_list_to_set, Hs]. intros j Hj%elem_of_list_to_set%list_elem_of_In.
    by apply Hin, bool_decide_eq_true in Hj.
  - intros <-. split; [by rewrite size_list_to_set|]. intros j Hj. apply bool_decide_eq_true. by apply elem_of_list_to_set, list_elem_of_In.
Qed.

(** * The invariant of the powerset construction *)

Section Loop.

Context (nodeOrder actionOrder : gset Z -> list Z) (nfa : NFA.NFA) (closures : list (list Z)) (S : gset (gset Z)).
Hypothesis HnodeOrder : forall s, nodeOrder s ≡ₚ elements s.
Hypothesis HactionOrder : forall s, actionOrder s ≡ₚ elements s.
Hypothesis Hok : okNFA nfa.
Hypothesis Hcl : okClosures nfa closures.
(** [S] has the sets of nodes that words lead to. *)
Hypothesis HS : forall w X, (forall j, j ∈ X <-> nfaRun nfa 0 w j) -> X ∈ S.
Hypothesis Hactions : Z.of_nat (length (NFA.actions nfa)) <= 2 ^ 16 - 1.
Hypothesis Hsize : Z.of_nat (size S) * 128 < 2 ^ 32.
Hypothesis HsizeA : Z.of_nat (size S) * Z.of_nat (length (NFA.actions nfa)) < 2 ^ 32.

(** ** The invariant *)

(** An entry holds the nodes that some word leads to. *)
Record Entry (impl : UniqueNodeIdSetImpl) : Prop := {
  entry_nodup : NoDup (m_buffer impl);
  entry_reach : exists w, forall j, j ∈ m_buffer impl <-> nfaRun nfa 0 w j;
  entry_inhabited : exists j, j ∈ m_buffer impl }.

(** The transitions of a node lead to the entries for the images of its set. *)
Definition Moves (d : DFA.DFA) (table : list UniqueNodeIdSetImpl) (impl : UniqueNodeIdSetImpl) (node : DFA.DFANode) : Prop :=
  exists ts, DFA.transitions node d = Some ts /\ okTransitions ts
    /\ forall x, match goes ts x with
                 | Some m => exists impl', table !! Z.to_nat m = Some impl' /\ forall j, j ∈ m_buffer impl' <-> image nfa (m_buffer impl) x j
                 | None => forall j, ~ image nfa (m_buffer impl) x j
                 end.

(** The node of an entry; the nodes of [pend] have no transitions yet. *)
Record NodeOf (d : DFA.DFA) (table : list UniqueNodeIdSetImpl) (pend : list Z) (k : nat) (impl : UniqueNodeIdSetImpl) (node : DFA.DFANode) : Prop := {
  node_alive : DFA.m_flags node = 0;
  node_acts : exists acts, DFA.actions node d = Some acts /\ forall a, a ∈ acts <-> actionsAt nfa (m_buffer impl) a;
  node_pending : Z.of_nat k ∈ pend -> DFA.m_transitionsStart node = 0 /\ DFA.m_transitionsLength node = 0;
  node_moves : Z.of_nat k ∉ pend -> Moves d table impl node }.

Definition ids (b : Builder) : list Z := m_dfaNodeId <$> unprocessed b.

(** [p] are nodes being processed, [n] the transitions when that began. *)
Record BInv (b : Builder) (p : list Z) (n : nat) : Prop := {
  b_root : DFA.root (dfa b) = 0;
  b_length : length (DFA.nodes (dfa b)) = length (uniqueNodeIdSetTable b);
  b_arrays : length (DFA.transitionRanges (dfa b)) = length (DFA.transitionDestinations (dfa b));
  b_ids : forall k impl, uniqueNodeIdSetTable b !! k = Some impl -> m_dfaNodeId impl = Z.of_nat k;
  b_entries : Forall Entry (uniqueNodeIdSetTable b);
  b_distinct : NoDup (setOf <$> uniqueNodeIdSetTable b);
  b_first : exists impl, uniqueNodeIdSetTable b !! 0%nat = Some impl /\ forall j, j ∈ m_buffer impl <-> nfaRun nfa 0 [] j;
  b_queue : Forall (fun impl => impl ∈ uniqueNodeIdSetTable b) (unprocessed b);
  b_pending : NoDup (p ++ ids b);
  b_current : Forall (fun k => 0 <= k < Z.of_nat (length (uniqueNodeIdSetTable b))) p;
  b_actions : (length (DFA.dfa_actions (dfa b)) <= length (uniqueNodeIdSetTable b) * length (NFA.actions nfa))%nat;
  b_transitions : (n + 128 * length (p ++ ids b) <= 128 * length (uniqueNodeIdSetTable b))%nat;
  b_nodes : forall k impl, uniqueNodeIdSetTable b !! k = Some impl ->
    exists node, DFA.nodes (dfa b) !! k = Some node /\ NodeOf (dfa b) (uniqueNodeIdSetTable b) (p ++ ids b) k impl node;
  b_slices : Slices (dfa b) n }.

Lemma setOf_reach impl w : (forall j, j ∈ m_buffer impl <-> nfaRun nfa 0 w j) -> setOf impl ∈ S.
Proof. intros H. apply (HS w). intros j. unfold setOf. by rewrite elem_of_list_to_set. Qed.

(** There are no more entries than sets. *)
Lemma table_bound (table : list UniqueNodeIdSetImpl) : Forall Entry table -> NoDup (setOf <$> table) -> (length table <= size S)%nat.
Proof.
  intros HE Hnd. rewrite <- (length_fmap setOf table), <- (size_list_to_set (C := gset (gset Z)) _ Hnd). apply subseteq_size. intros X HX.
  apply elem_of_list_to_set, list_elem_of_fmap in HX as (impl & -> & Hi). rewrite Forall_forall in HE. destruct (entry_reach _ (HE impl Hi)) as (w & Hw).
  by eapply setOf_reach.
Qed.

Lemma BInv_bound b p n : BInv b p n -> (length (uniqueNodeIdSetTable b) <= size S)%nat.
Proof. intros HB. apply table_bound; [apply (b_entries _ _ _ HB)|apply (b_distinct _ _ _ HB)]. Qed.

Lemma queue_id b p n impl : BInv b p n -> impl ∈ unprocessed b -> 0 <= m_dfaNodeId impl < Z.of_nat (length (uniqueNodeIdSetTable b)).
Proof.
  intros HB Hi. pose proof (b_queue _ _ _ HB) as Hq. rewrite Forall_forall in Hq. apply Hq, list_elem_of_lookup in Hi as [k Hk].
  rewrite (b_ids _ _ _ HB k impl Hk). apply lookup_lt_Some in Hk. lia.
Qed.

(** ** A set gets a node *)

Lemma Moves_grow d d' table more impl node moreR moreT :
  DFA.transitionRanges d' = DFA.transitionRanges d ++ moreR -> DFA.transitionDestinations d' = DFA.transitionDestinations d ++ moreT ->
  Moves d table impl node -> Moves d' (table ++ more) impl node.
Proof.
  intros E1 E2 (ts & Et & Hts & Hm). exists ts. split; [by eapply transitions_grow|]. split; [done|]. intros x. specialize (Hm x).
  destruct (goes ts x) as [m|]; [|done]. destruct Hm as (impl' & Hl & H). exists impl'. split; [by apply lookup_app_l_Some|done].
Qed.

Lemma NodeOf_grow d d' table more pend pend' k impl node moreA moreR moreT :
  DFA.dfa_actions d' = DFA.dfa_actions d ++ moreA -> DFA.transitionRanges d' = DFA.transitionRanges d ++ moreR ->
  DFA.transitionDestinations d' = DFA.transitionDestinations d ++ moreT -> (Z.of_nat k ∈ pend' <-> Z.of_nat k ∈ pend) ->
  NodeOf d table pend k impl node -> NodeOf d' (table ++ more) pend' k impl node.
Proof.
  intros E1 E2 E3 Hp [H1 (acts & H2 & H3) H4 H5]. split; [done| | |].
  - exists acts. split; [by eapply actions_grow|done].
  - by rewrite Hp.
  - rewrite Hp. intros Hk. eapply Moves_grow; eauto.
Qed.

(** The table gets entries, each of which is still to be processed. *)
Definition grows (b b' : Builder) : Prop :=
  exists more, uniqueNodeIdSetTable b' = uniqueNodeIdSetTable b ++ more /\ length (unprocessed b') = (length more + length (unprocessed b))%nat.

Lemma grows_refl b : grows b b.
Proof. exists []. by rewrite app_nil_r. Qed.

Lemma grows_trans b1 b2 b3 : grows b1 b2 -> grows b2 b3 -> grows b1 b3.
Proof.
  intros (m1 & E1 & L1) (m2 & E2 & L2). exists (m1 ++ m2). split; [by rewrite E2, E1, app_assoc|]. rewrite length_app. clear - L1 L2. lia.
Qed.

Lemma getOrCreate_spec b p n X w : BInv b p n -> (forall j, j ∈ X <-> nfaRun nfa 0 w j) -> (exists j, j ∈ X) ->
  exists b' m impl, getOrCreateDFANode nodeOrder actionOrder nfa X b = Some (b', Z.of_nat m) /\ BInv b' p n
    /\ grows b b' /\ DFA.transitionRanges (dfa b') = DFA.transitionRanges (dfa b) /\ DFA.transitionDestinations (dfa b') = DFA.transitionDestinations (dfa b)
    /\ uniqueNodeIdSetTable b' !! m = Some impl /\ forall j, j ∈ m_buffer impl <-> j ∈ X.
Proof.
  intros HB HX Hne. unfold getOrCreateDFANode. pose proof (b_entries _ _ _ HB) as HE. rewrite Forall_forall in HE.
  destruct (List.find _ _) as [impl|] eqn:Ef.
  - apply List.find_some in Ef as [Hi%list_elem_of_In He]. apply equalsSet_spec in He; [|by apply entry_nodup, HE].
    pose proof Hi as Hi'. apply list_elem_of_lookup in Hi' as [k Hk]. exists b, k, impl. rewrite (b_ids _ _ _ HB k impl Hk). split_and!; try done.
    + apply grows_refl.
    + intros j. subst X. unfold setOf. by rewrite elem_of_list_to_set.
  - assert (forall j, j ∈ X -> valid nfa j) as Hv by (intros j Hj; apply HX in Hj; eapply run_valid; [done|by apply root_valid|done]).
    set (impl := mkImpl (nodeOrder X) (Z.of_nat (length (DFA.nodes (dfa b))))).
    assert (forall j, j ∈ m_buffer impl <-> j ∈ X) as Hb by (intros j; apply elem_nodeOrder; done).
    assert (Entry impl) as Hentry.
    { split; [cbn; rewrite HnodeOrder; apply NoDup_elements|exists w; intros j; by rewrite Hb|]. destruct Hne as [j Hj]. exists j. by apply Hb. }
    assert (NoDup (setOf <$> uniqueNodeIdSetTable b ++ [impl])) as Hnd.
    { rewrite fmap_app. apply NoDup_app. split_and!; [apply (b_distinct _ _ _ HB)| |apply NoDup_singleton].
      intros Y HY HY'. apply list_elem_of_fmap in HY as (impl' & -> & Hi'). apply list_elem_of_singleton in HY'.
      assert (equalsSet impl' X = true) as Heq. { apply equalsSet_spec; [by apply entry_nodup, HE|]. rewrite HY'. apply set_eq. intros j. unfold setOf. by rewrite elem_of_list_to_set. }
      apply list_elem_of_In in Hi'. rewrite (List.find_none _ _ Ef impl' Hi') in Heq. done. }
    pose proof (table_bound (uniqueNodeIdSetTable b ++ [impl])) as Hbound. rewrite length_app in Hbound. cbn [length] in Hbound.
    specialize (Hbound ltac:(apply Forall_app; split; [apply (b_entries _ _ _ HB)|by apply Forall_singleton]) Hnd).
    pose proof (b_length _ _ _ HB) as Hlen. pose proof (b_actions _ _ _ HB) as Hacts.
    destruct (translate_spec nodeOrder actionOrder nfa HnodeOrder HactionOrder Hok Hactions X (dfa b) Hv Hne) as (acts & -> & Hal & Ha); [lia|nia|].
    cbn [mbind option_bind]. fold impl. cbn [m_dfaNodeId impl]. eexists _, (length (DFA.nodes (dfa b))), impl. split; [reflexivity|].
    cbn [dfa uniqueNodeIdSetTable unprocessed DFA.transitionRanges DFA.transitionDestinations].
    assert (forall k : nat, (k < length (uniqueNodeIdSetTable b))%nat ->
              Z.of_nat k ∈ p ++ Z.of_nat (length (DFA.nodes (dfa b))) :: ids b <-> Z.of_nat k ∈ p ++ ids b) as Hpend.
    { intros k Hk. rewrite !elem_of_app, elem_of_cons. split; [intros [?|[?|?]]|]; [by left|lia|by right|tauto]. }
    split_and!; try done; [|by exists [impl]|rewrite Hlen; by rewrite list_lookup_middle].
    constructor; cbn [dfa uniqueNodeIdSetTable unprocessed DFA.transitionRanges DFA.transitionDestinations DFA.root DFA.nodes DFA.dfa_actions]; unfold ids;
      cbn [unprocessed fmap list_fmap m_dfaNodeId impl]; fold (ids b).
    + apply (b_root _ _ _ HB).
    + rewrite !length_app. cbn. lia.
    + apply (b_arrays _ _ _ HB).
    + intros k impl' [Hk|[Hk Hk']]%lookup_app_Some; [by apply (b_ids _ _ _ HB)|].
      apply list_lookup_singleton_Some in Hk' as [Hk0 <-]. cbn. lia.
    + apply Forall_app. split; [apply (b_entries _ _ _ HB)|by apply Forall_singleton].
    + done.
    + destruct (b_first _ _ _ HB) as (i0 & H0 & H0'). exists i0. split; [by apply lookup_app_l_Some|done].
    + apply Forall_cons. split; [apply elem_of_app; right; left|]. eapply Forall_impl; [apply (b_queue _ _ _ HB)|]. intros i Hi. apply elem_of_app. by left.
    + pose proof (b_pending _ _ _ HB) as Hp. rewrite <- Permutation_middle. apply NoDup_cons. split; [|done].
      rewrite elem_of_app. intros [Hp'|Hp'].
      * pose proof (b_current _ _ _ HB) as Hc. rewrite Forall_forall in Hc. specialize (Hc _ Hp'). lia.
      * apply list_elem_of_fmap in Hp' as (i & Ei & Hi). pose proof (queue_id _ _ _ _ HB Hi). lia.
    + eapply Forall_impl; [apply (b_current _ _ _ HB)|]. intros k. cbn beta. rewrite length_app. lia.
    + rewrite !length_app. cbn [length]. lia.
    + pose proof (b_transitions _ _ _ HB) as Ht. rewrite !length_app in *. cbn [length] in *. lia.
    + intros k impl' [Hk|[Hk Hk']]%lookup_app_Some.
      * destruct (b_nodes _ _ _ HB k impl' Hk) as (node & Hn & HN). exists node. split; [by apply lookup_app_l_Some|]. apply lookup_lt_Some in Hk.
        eapply (NodeOf_grow (dfa b) _ _ [impl] (p ++ ids b) _ k impl' node acts [] []); cbn [DFA.dfa_actions DFA.transitionRanges DFA.transitionDestinations];
          [done|by rewrite app_nil_r|by rewrite app_nil_r|by apply Hpend|done].
      * apply list_lookup_singleton_Some in Hk' as [Hk0 <-]. assert (k = length (DFA.nodes (dfa b))) as -> by lia.
        eexists. split; [by rewrite list_lookup_middle|]. split; cbn [DFA.m_flags DFA.m_transitionsStart DFA.m_transitionsLength]; [done| |done|].
        -- exists acts. split; [|done]. unfold DFA.actions, DFA.slice. cbn [DFA.dfa_actions DFA.m_actionsStart DFA.m_actionsLength]. rewrite u32_id by nia.
           replace (Z.of_nat (length (DFA.dfa_actions (dfa b))) + Z.of_nat (length acts) - Z.of_nat (length (DFA.dfa_actions (dfa b)))) with (Z.of_nat (length acts)) by lia.
           apply mapM_appended.
        -- intros Hk'. exfalso. apply Hk', elem_of_app. right. left.
    + eapply (Slices_new (dfa b) n _ acts); [reflexivity|reflexivity|nia|apply (b_slices _ _ _ HB)].
Qed.

(** ** The ranges of a set become transitions *)

Lemma BInv_append b p n r t : BInv b p n ->
  BInv (mkBuilder (DFA.mkDFA (DFA.nodes (dfa b)) (DFA.dfa_actions (dfa b)) (DFA.transitionRanges (dfa b) ++ [r])
                     (DFA.transitionDestinations (dfa b) ++ [t]) (DFA.root (dfa b))) (uniqueNodeIdSetTable b) (unprocessed b)) p n.
Proof.
  intros [H1 H2 H3 H4 H5 H6 H7 H8 H9 H10 H11 H12 H13 H14].
  constructor; cbn [dfa uniqueNodeIdSetTable unprocessed DFA.transitionRanges DFA.transitionDestinations DFA.root DFA.nodes DFA.dfa_actions]; try done.
  - rewrite !length_app. cbn. by rewrite H3.
  - intros k impl Hk. destruct (H13 k impl Hk) as (node & Hn & HN). exists node. split; [done|]. rewrite <- (app_nil_r (uniqueNodeIdSetTable b)).
    eapply (NodeOf_grow (dfa b) _ _ [] (p ++ ids b) _ k impl node [] [r] [t]); cbn [DFA.dfa_actions DFA.transitionRanges DFA.transitionDestinations]; try done.
    by rewrite app_nil_r.
  - by apply (Slices_arrays (dfa b)).
Qed.

(** What a range has as data. *)
Definition reachable (X : gset Z) : Prop := (exists j, j ∈ X) /\ exists w, forall j, j ∈ X <-> nfaRun nfa 0 w j.

Definition charRange {D} (r : MutableRangeList.MutableRange D) : DFA.CharRange := DFA.mkCharRange (MutableRangeList.first r) (MutableRangeList.last r).

(** The entry at [m] is the set. *)
Definition target (table : list UniqueNodeIdSetImpl) (r : MutableRangeList.MutableRange (gset Z)) (m : Z) : Prop :=
  exists k impl, m = Z.of_nat k /\ table !! k = Some impl /\ forall j, j ∈ m_buffer impl <-> j ∈ MutableRangeList.data r.

Lemma target_grow table more r m : target table r m -> target (table ++ more) r m.
Proof. intros (k & impl & -> & Hk & H). exists k, impl. split; [done|]. split; [by apply lookup_app_l_Some|done]. Qed.

Lemma addTransitions_spec l : forall b p n, BInv b p n -> Forall (fun r => reachable (MutableRangeList.data r)) l ->
  exists b' ds, addTransitions nodeOrder actionOrder nfa l b = Some b' /\ BInv b' p n /\ grows b b'
    /\ DFA.transitionRanges (dfa b') = DFA.transitionRanges (dfa b) ++ (charRange <$> l)
    /\ DFA.transitionDestinations (dfa b') = DFA.transitionDestinations (dfa b) ++ ds /\ Forall2 (target (uniqueNodeIdSetTable b')) l ds.
Proof.
  induction l as [|r l IH]; intros b p n HB Hl; cbn [addTransitions].
  - exists b, []. cbn. rewrite !app_nil_r. split_and!; try done. apply grows_refl.
  - apply Forall_cons in Hl as [[Hne [w Hw]] Hl].
    destruct (getOrCreate_spec b p n _ w HB Hw Hne) as (b1 & m & impl & E & HB1 & Hg1 & Er & Ed & Hm & Hj). rewrite E. cbn [mbind option_bind].
    pose proof (BInv_append _ _ _ (charRange r) (Z.of_nat m) HB1) as HB2.
    destruct (IH _ _ _ HB2 Hl) as (b3 & ds & E3 & HB3 & Hg3 & Er3 & Ed3 & Hds). unfold charRange in *. rewrite E3. exists b3, (Z.of_nat m :: ds).
    cbn [dfa uniqueNodeIdSetTable unprocessed DFA.transitionRanges DFA.transitionDestinations] in *.
    split; [done|]. split; [done|]. split; [by eapply grows_trans|]. split; [by rewrite Er3, Er, <- app_assoc|]. split; [by rewrite Ed3, Ed, <- app_assoc|].
    constructor; [|done]. destruct Hg3 as (more & Et & _). cbn [uniqueNodeIdSetTable] in Et. rewrite Et. apply target_grow. by exists m, impl.
Qed.

(** Transitions as they are written, and the ranges they come from. *)
Lemma goes_matches table l ds x : Forall2 (target table) l ds ->
  match find x (view <$> l), goes (zip (charRange <$> l) ds) x with
  | Some X, Some m => exists k impl, m = Z.of_nat k /\ table !! k = Some impl /\ forall j, j ∈ m_buffer impl <-> j ∈ X
  | None, None => True
  | _, _ => False
  end.
Proof.
  induction 1 as [|r m l ds Ht Hl IH]; cbn [fmap list_fmap zip find goes]; [done|].
  unfold inSpan, inRange, view, charRange. cbn [MutableRangeList.lo MutableRangeList.hi MutableRangeList.val DFA.first DFA.last].
  destruct ((MutableRangeList.first r <=? x) && (x <=? MutableRangeList.last r)); [exact Ht|exact IH].
Qed.

Lemma ordered_transitions table l : forall ds y, -1 <= y -> ordered y (view <$> l) -> Forall2 (target table) l ds -> Z.of_nat (length table) < DFABytecodeCompiler.noDestination ->
  okTransitions (zip (charRange <$> l) ds) /\ Forall (fun t => y < DFA.first t.1) (zip (charRange <$> l) ds).
Proof.
  clear. induction l as [|r l IH]; intros ds y Hy Ho Hds Hb; [by repeat constructor|]. inversion Hds as [|? m ? ds' (k & impl & -> & Hk & _) Hds']; subst.
  destruct Ho as (H1 & H2 & H3). cbn [view MutableRangeList.lo MutableRangeList.hi] in *. destruct (IH ds' (MutableRangeList.last r) ltac:(lia) H3 Hds' Hb) as [[H4 H5] H6].
  cbn [fmap list_fmap zip]. apply lookup_lt_Some in Hk. split; [split|]; constructor; try done.
  - unfold okTransition, charRange. cbn. lia.
  - eapply Forall_impl; [exact H6|]. unfold charRange. cbn. lia.
Qed.

Lemma reach_image impl w x X : (forall j, j ∈ m_buffer impl <-> nfaRun nfa 0 w j) -> (exists j, j ∈ X) -> (forall j, j ∈ X <-> image nfa (m_buffer impl) x j) -> reachable X.
Proof.
  intros Hw Hne HX. split; [done|]. exists (w ++ [x]). intros j. rewrite HX, run_snoc. unfold image. setoid_rewrite Hw. naive_solver.
Qed.

(** ** One set *)

Definition transitionCount (b : Builder) : nat := length (DFA.transitionRanges (dfa b)).

(** The combined ranges of an entry have reachable sets. *)
Lemma Comb_reachable impl l : Entry impl -> Comb nfa (m_buffer impl) (view <$> l) -> Forall (fun r => reachable (MutableRangeList.data r)) l.
Proof.
  intros [_ [w Hw] _] [Ho HC]. apply Forall_forall. intros r Hr. pose proof (ordered_bounds _ _ Ho) as Hb. rewrite Forall_forall in Hb.
  assert (view r ∈ view <$> l) as Hv by (by apply list_elem_of_fmap_2). specialize (Hb _ Hv). cbn in Hb.
  specialize (HC (MutableRangeList.first r)). rewrite (find_elem _ _ _ _ Ho Hv) in HC by (cbn; lia). destruct HC as [Hne HX]. cbn [view MutableRangeList.val] in *.
  by apply (reach_image impl w (MutableRangeList.first r)).
Qed.

Lemma BInv_pop b impl rest : BInv b [] (transitionCount b) -> unprocessed b = impl :: rest ->
  BInv (mkBuilder (dfa b) (uniqueNodeIdSetTable b) rest) [m_dfaNodeId impl] (transitionCount b).
Proof.
  intros HB E. assert (impl ∈ unprocessed b) as Hi by (rewrite E; left). pose proof (queue_id _ _ _ _ HB Hi) as Hid.
  destruct HB as [H1 H2 H3 H4 H5 H6 H7 H8 H9 H10 H11 H12 H13 H14]. unfold ids in *. rewrite E in *. cbn [fmap list_fmap app] in *.
  constructor; unfold ids; cbn [dfa uniqueNodeIdSetTable unprocessed app]; try done; [by apply Forall_cons in H8 as [_ ?]|by apply Forall_singleton].
Qed.

(** The node that was processed gets its transitions. *)
Lemma BInv_finish b k impl l ds node n :
  BInv b [Z.of_nat k] n -> uniqueNodeIdSetTable b !! k = Some impl -> DFA.nodes (dfa b) !! k = Some node ->
  NodeOf (dfa b) (uniqueNodeIdSetTable b) ([Z.of_nat k] ++ ids b) k impl node ->
  Comb nfa (m_buffer impl) (view <$> l) -> Forall2 (target (uniqueNodeIdSetTable b)) l ds ->
  (exists R T, length R = n /\ length T = n /\ DFA.transitionRanges (dfa b) = R ++ (charRange <$> l) /\ DFA.transitionDestinations (dfa b) = T ++ ds) ->
  let node' := DFA.mkNode (DFA.m_actionsStart node) (Z.of_nat n) (DFA.m_actionsLength node) (Z.of_nat (length l)) (DFA.m_flags node) in
  let b' := mkBuilder (DFA.mkDFA (<[k := node']> (DFA.nodes (dfa b))) (DFA.dfa_actions (dfa b)) (DFA.transitionRanges (dfa b))
                         (DFA.transitionDestinations (dfa b)) (DFA.root (dfa b))) (uniqueNodeIdSetTable b) (unprocessed b) in
  BInv b' [] (transitionCount b').
Proof.
  intros HB Hk Hn HN HC Hds (R & T & HR & HT & ER & ET) node' b'. pose proof (BInv_bound _ _ _ HB) as Hbound. pose proof (b_transitions _ _ _ HB) as Ht.
  destruct HC as [Ho HC]. pose proof (ordered_length _ _ Ho ltac:(lia)) as Hl. rewrite length_fmap in Hl. pose proof (Forall2_length _ _ _ Hds) as Hlds.
  rewrite length_app in Ht. cbn [length] in Ht. pose proof (b_pending _ _ _ HB) as Hnd. cbn [app] in Hnd. apply NoDup_cons in Hnd as [Hkn Hnd].
  assert (forall i m im, uniqueNodeIdSetTable b !! i = Some im -> NodeOf (dfa b) (uniqueNodeIdSetTable b) ([Z.of_nat k] ++ ids b) i im m -> i <> k ->
            NodeOf (dfa b') (uniqueNodeIdSetTable b) (ids b) i im m) as Hother.
  { intros i m im Hi HNi Hik. rewrite <- (app_nil_r (uniqueNodeIdSetTable b)).
    eapply (NodeOf_grow (dfa b) _ _ [] ([Z.of_nat k] ++ ids b) _ i im m [] [] []); cbn; try (by rewrite app_nil_r); [|done].
    rewrite elem_of_cons. split; [by right|]. intros [?|?]; [lia|done]. }
  destruct HB as [H1 H2 H3 H4 H5 H6 H7 H8 H9 H10 H11 H12 H13 H14].
  constructor; unfold transitionCount, b'; cbn [dfa uniqueNodeIdSetTable unprocessed DFA.transitionRanges DFA.transitionDestinations DFA.root DFA.nodes DFA.dfa_actions]; try done.
  - by rewrite length_insert.
  - cbn [app]. unfold ids in *. cbn [unprocessed]. rewrite ER, length_app, length_fmap. lia.
  - intros i im Hi. cbn [app]. change (ids (mkBuilder _ _ (unprocessed b))) with (ids b). destruct (decide (i = k)) as [->|Hik].
    + assert (im = impl) as -> by congruence. exists node'. split; [apply list_lookup_insert_eq; by eapply lookup_lt_Some|].
      destruct HN as [N1 (acts & N2 & N3) _ _]. split; [done|by exists acts|done|]. intros _. exists (zip (charRange <$> l) ds). split_and!.
      * unfold DFA.transitions, DFA.slice, node'. cbn [DFA.m_transitionsStart DFA.m_transitionsLength DFA.transitionRanges DFA.transitionDestinations].
        rewrite u32_id by lia. replace (Z.of_nat n + Z.of_nat (length l) - Z.of_nat n) with (Z.of_nat (length l)) by lia.
        rewrite ER, ET, <- HR, <- (length_fmap charRange l). apply mapM_appended2; [congruence|by rewrite length_fmap].
      * apply (ordered_transitions (uniqueNodeIdSetTable b) l ds (-1)); [done..|]. unfold DFABytecodeCompiler.noDestination. lia.
      * intros x. specialize (HC x). pose proof (goes_matches _ l ds x Hds) as Hg. destruct (find x (view <$> l)) as [X|], (goes _ x) as [m|]; try done.
        destruct Hg as (q & iq & -> & Hq & Hj). destruct HC as [_ HX]. exists iq. rewrite Nat2Z.id. split; [done|]. intros j. by rewrite Hj, HX.
    + destruct (H13 i im Hi) as (m & Hm & HNi). exists m. split; [by rewrite list_lookup_insert_ne|]. by apply Hother.
  - rewrite ER, length_app, length_fmap, HR. eapply (Slices_finish (dfa b) n _ k node); [done|reflexivity|reflexivity|lia|done].
Qed.

Lemma processSet_spec b impl : BInv b [m_dfaNodeId impl] (transitionCount b) -> impl ∈ uniqueNodeIdSetTable b ->
  exists b', processSet nodeOrder actionOrder nfa closures impl b = Some b' /\ BInv b' [] (transitionCount b') /\ grows b b'.
Proof.
  intros HB Hi. pose proof (b_entries _ _ _ HB) as HE. rewrite Forall_forall in HE. pose proof (HE impl Hi) as Hentry.
  assert (Forall (valid nfa) (m_buffer impl)) as Hv.
  { apply Forall_forall. intros j Hj. destruct (entry_reach _ Hentry) as [w Hw]. apply Hw in Hj. eapply run_valid; [done|by apply root_valid|done]. }
  destruct (createCombinedTransition_spec nfa Hok closures Hcl impl Hv) as (rs & l & Ers & El & HC). unfold processSet. rewrite Ers. cbn [mbind option_bind].
  rewrite El. cbn [mbind option_bind]. destruct (addTransitions_spec l b _ _ HB (Comb_reachable impl l Hentry HC)) as (b1 & ds & -> & HB1 & Hg & Er & Ed & Hds).
  cbn [mbind option_bind]. pose proof (BInv_bound _ _ _ HB1) as Hbound. pose proof (b_transitions _ _ _ HB1) as Ht. rewrite length_app in Ht. cbn [length] in Ht.
  pose proof (ordered_length _ _ (proj1 HC) ltac:(lia)) as Hl. rewrite length_fmap in Hl. pose proof (b_arrays _ _ _ HB) as Harr. unfold transitionCount in Ht.
  rewrite Er, length_app, length_fmap. rewrite !(u32_id (Z.of_nat _)) by lia.
  replace (Z.of_nat (length (DFA.transitionRanges (dfa b)) + length l) - Z.of_nat (length (DFA.transitionRanges (dfa b)))) with (Z.of_nat (length l)) by lia.
  rewrite u32_id by lia. apply list_elem_of_lookup in Hi as [k Hk]. rewrite (b_ids _ _ _ HB k impl Hk) in *.
  pose proof Hg as (more & Etab & Hlq). assert (uniqueNodeIdSetTable b1 !! k = Some impl) as Hk1 by (rewrite Etab; by apply lookup_app_l_Some).
  destruct (b_nodes _ _ _ HB1 k impl Hk1) as (node & Hn & HN). rewrite at_nat, Hn. cbn [mbind option_bind]. unfold DFA.setTransitions.
  destruct (node_pending _ _ _ _ _ _ HN ltac:(left)) as [-> ->]. rewrite !option_guard_True by done. cbn [mbind option_bind].
  rewrite Nat2Z.id, !(Z.mod_small (Z.of_nat (length l))) by lia.
  pose proof (BInv_finish b1 k impl l ds node _ HB1 Hk1 Hn HN HC Hds) as Hfin. cbn zeta in Hfin. eexists. split; [reflexivity|]. split; [|by exists more].
  rewrite Er in Hfin. apply Hfin. by exists (DFA.transitionRanges (dfa b)), (DFA.transitionDestinations (dfa b)).
Qed.

(** ** The loop *)

Lemma processSets_spec fuel : forall b, BInv b [] (transitionCount b) -> unprocessed b <> [] ->
  (size S - length (uniqueNodeIdSetTable b) + length (unprocessed b) <= fuel)%nat ->
  exists b', processSets nodeOrder actionOrder nfa closures fuel b = Some b' /\ BInv b' [] (transitionCount b') /\ unprocessed b' = [].
Proof.
  induction fuel as [|fuel IH]; intros b HB Hne Hf; [destruct (unprocessed b); [done|cbn in Hf; lia]|]. cbn [processSets].
  destruct (unprocessed b) as [|impl rest] eqn:E; [done|]. pose proof (b_queue _ _ _ HB) as Hq. rewrite E in Hq. apply Forall_cons in Hq as [Hi _].
  destruct (processSet_spec (mkBuilder (dfa b) (uniqueNodeIdSetTable b) rest) impl) as (b1 & -> & HB1 & Hg); [exact (BInv_pop b impl rest HB E)|done|].
  cbn [mbind option_bind]. destruct Hg as (more & Et & Hlq). cbn [uniqueNodeIdSetTable unprocessed] in *. pose proof (BInv_bound _ _ _ HB1) as Hb1.
  destruct (unprocessed b1) as [|i1 r1] eqn:E1; [by exists b1|]. apply IH; [done|by rewrite E1|]. rewrite E1. rewrite Et, length_app in *. cbn [length] in *. lia.
Qed.

End Loop.
