(* ===== verification/NFAToDFACorrect.v ===== *)
(** * NFAToDFACorrect: the DFA of an NFA finds what the NFA finds *)

From stdpp Require Import gmap relations.
From S2P Require Import Prelude ASCIICType DFA DFABytecode DFABytecodeCompiler DFABytecodeInterpreter DFATransitions DFACompile DFARun DFASimulation DFAProperties MutableRangeList MutableRangeListCorrect NFA NFAToDFA NFAToDFAClosure.

(** * The DFA finds what the NFA finds *)

Import NFAToDFA.

(** The nodes that some word leads to are all sets of [S], and these are few
    enough for the vectors of a DFA. *)
Record FewSets (nfa : NFA.NFA) (S : gset (gset Z)) : Prop := {
  few_sets : forall w X, (forall j, j ∈ X <-> nfaRun nfa 0 w j) -> X ∈ S;
  few_actions : Z.of_nat (length (NFA.actions nfa)) <= 2 ^ 16 - 1;
  few_transitions : Z.of_nat (size S) * 128 < 2 ^ 32;
  few_dfa_actions : Z.of_nat (size S) * Z.of_nat (length (NFA.actions nfa)) < 2 ^ 32 }.

(** After reading [w] the NFA can be in a node with the action. *)
Definition nfaFinds (nfa : NFA.NFA) (w : list Z) (a : Z) : Prop := exists k acts, nfaRun nfa 0 w k /\ nodeActions nfa k = Some acts /\ a ∈ acts.

(** ** Reading words *)

Section Walk.

Context (nfa : NFA.NFA) (b : Builder).
Hypothesis HB : BInv nfa b [] (transitionCount b).
Hypothesis Hu : unprocessed b = [].

Lemma built_node k impl : uniqueNodeIdSetTable b !! k = Some impl ->
  exists node acts, DFA.nodes (dfa b) !! k = Some node /\ DFA.m_flags node = 0
    /\ DFA.actions node (dfa b) = Some acts /\ (forall a, a ∈ acts <-> actionsAt nfa (m_buffer impl) a) /\ Moves nfa (dfa b) (uniqueNodeIdSetTable b) impl node.
Proof using HB Hu.
  intros Hk. destruct (b_nodes _ _ _ _ HB k impl Hk) as (node & Hn & [N1 (acts & N2 & N3) _ N4]). exists node, acts. split_and!; try done.
  apply N4. unfold ids. rewrite Hu. apply not_elem_of_nil.
Qed.

(** The entry of the node reached holds the nodes of the NFA. *)
Lemma walk_spec w : forall u k impl, uniqueNodeIdSetTable b !! k = Some impl -> (forall j, j ∈ m_buffer impl <-> nfaRun nfa 0 u j) ->
  match walk (dfa b) (Z.of_nat k) w with
  | Some m => exists q iq, m = Z.of_nat q /\ uniqueNodeIdSetTable b !! q = Some iq /\ forall j, j ∈ m_buffer iq <-> nfaRun nfa 0 (u ++ w) j
  | None => forall j, ~ nfaRun nfa 0 (u ++ w) j
  end.
Proof using HB Hu.
  induction w as [|c w IH]; intros u k impl Hk Hb; cbn [walk]; [exists k, impl; by rewrite app_nil_r|].
  destruct (built_node k impl Hk) as (node & acts & Hn & _ & _ & _ & ts & Et & Hts & Hm). unfold delta. unfold DFABytecodeCompiler.at_. rewrite at_nat, Hn. cbn [mbind option_bind].
  rewrite Et. cbn [mbind option_bind]. specialize (Hm c).
  assert (forall j, image nfa (m_buffer impl) c j <-> nfaRun nfa 0 (u ++ [c]) j) as Him.
  { intros j. rewrite run_snoc. unfold image. setoid_rewrite Hb. naive_solver. }
  destruct (goes ts c) as [m|] eqn:Eg; cbn [mbind option_bind].
  - destruct Hm as (iq & Hq & Hj). destruct (goes_target _ _ _ Eg) as (r & Hr & _). destruct Hts as [Hts _]. rewrite Forall_forall in Hts.
    destruct (Hts _ Hr) as (_ & _ & Hpos). cbn in Hpos. rewrite <- (Z2Nat.id m) by lia. rewrite (cons_middle c u w), app_assoc. apply (IH (u ++ [c]) (Z.to_nat m) iq Hq). intros j. by rewrite Hj, Him.
  - intros j Hj. rewrite (cons_middle c u w), app_assoc in Hj. apply run_split in Hj as (i & Hi & _). apply (Hm i). by apply Him.
Qed.

End Walk.

Section Correct.

Context (nodeOrder actionOrder : gset Z -> list Z) (nfa : NFA.NFA) (S : gset (gset Z)).
Hypothesis HnodeOrder : forall s, nodeOrder s ≡ₚ elements s.
Hypothesis HactionOrder : forall s, actionOrder s ≡ₚ elements s.
Hypothesis Hok : okNFA nfa.
Hypothesis HS : FewSets nfa S.

(** ** The initial set *)

Lemma initialSet_spec closures : okClosures nfa closures ->
  exists X, extendSetWithClosure closures 0 {[ 0 ]} = Some X /\ forall j, j ∈ X <-> nfaRun nfa 0 [] j.
Proof using Hok.
  intros Hcl. destruct (closures_at nfa closures Hcl 0 (root_valid _ Hok)) as (out & E & Ec). unfold extendSetWithClosure.
  rewrite option_guard_True by set_solver. rewrite E. cbn [mbind option_bind]. exists ({[0]} ∪ list_to_set out). split; [done|]. intros j.
  rewrite <- Ec, (elem_closureOf nfa closures Hcl) by (by apply root_valid). by rewrite run_closure.
Qed.

Lemma start_BInv X : (forall j, j ∈ X <-> nfaRun nfa 0 [] j) ->
  exists d impl, translate nodeOrder actionOrder nfa X (DFA.mkDFA [] [] [] [] 0) = Some (d, impl) /\ DFA.transitionRanges d = []
    /\ BInv nfa (mkBuilder d [impl] [impl]) [] 0.
Proof using HnodeOrder HactionOrder Hok HS.
  intros HX. assert (forall j, j ∈ X -> valid nfa j) as Hv by (intros j Hj; apply HX in Hj; eapply run_valid; [done|by apply root_valid|done]).
  assert (exists j, j ∈ X) as Hne by (exists 0; apply HX; constructor). pose proof (few_actions _ _ HS) as HA.
  destruct (translate_spec nodeOrder actionOrder nfa HnodeOrder HactionOrder Hok HA X (DFA.mkDFA [] [] [] [] 0) Hv Hne) as (acts & E & Hal & Ha); [done|cbn; lia|].
  cbn [DFA.nodes DFA.dfa_actions DFA.transitionRanges DFA.transitionDestinations DFA.root length app] in E. rewrite E. eexists _, _. split; [reflexivity|]. split; [done|].
  assert (forall j, j ∈ nodeOrder X <-> nfaRun nfa 0 [] j) as Hb by (intros j; rewrite elem_nodeOrder by done; apply HX).
  constructor; cbn [dfa uniqueNodeIdSetTable unprocessed DFA.root DFA.nodes DFA.transitionRanges DFA.transitionDestinations DFA.dfa_actions length]; try done.
  - intros k impl [-> <-]%list_lookup_singleton_Some. done.
  - apply Forall_singleton. split; cbn [m_buffer]; [rewrite HnodeOrder; apply NoDup_elements|by exists []|exists 0; apply Hb; constructor].
  - apply NoDup_singleton.
  - eexists. split; [reflexivity|]. exact Hb.
  - apply Forall_singleton. left.
  - apply NoDup_singleton.
  - lia.
  - intros k impl [-> <-]%list_lookup_singleton_Some. eexists. split; [reflexivity|]. split; cbn [DFA.m_flags DFA.m_transitionsStart DFA.m_transitionsLength m_buffer]; [done| |done|].
    + exists acts. split; [|done]. unfold DFA.actions, DFA.slice. cbn [DFA.dfa_actions DFA.m_actionsStart DFA.m_actionsLength]. rewrite u32_id by lia.
      rewrite Z.add_0_l, Z.sub_0_r. apply (mapM_appended acts []).
    + intros H. exfalso. apply H. left.
  - eapply (Slices_new (DFA.mkDFA [] [] [] [] 0) 0 _ acts); [reflexivity|reflexivity|cbn; lia|apply Slices_empty].
Qed.

(** ** The whole construction *)

Context (fuel : nat).
Hypothesis Hfuel : (size S <= fuel)%nat.

Lemma convert_BInv : exists b, convert nodeOrder actionOrder fuel nfa = Some (dfa b) /\ BInv nfa b [] (transitionCount b) /\ unprocessed b = []
  /\ (length (uniqueNodeIdSetTable b) <= size S)%nat.
Proof using HnodeOrder HactionOrder Hok HS Hfuel.
  destruct HS as [H1 H2 H3 H4]. unfold convert. destruct (resolveEpsilonClosures_spec nfa Hok) as (closures & -> & Hcl). cbn [mbind option_bind].
  unfold NFA.root. cbn [NFA.nodes]. rewrite option_guard_True by (apply nfa_root, Hok). cbn [mbind option_bind].
  destruct (initialSet_spec closures Hcl) as (X & -> & HX). cbn [mbind option_bind]. destruct (start_BInv X HX) as (d & impl & E & Er & HB).
  change (translate nodeOrder actionOrder (NFA.mkNFA (NFA.nodes nfa) (NFA.transitions nfa) (NFA.targets nfa) [] (NFA.actions nfa)))
    with (translate nodeOrder actionOrder nfa). rewrite E. cbn [mbind option_bind].
  change (processSets nodeOrder actionOrder (NFA.mkNFA (NFA.nodes nfa) (NFA.transitions nfa) (NFA.targets nfa) [] (NFA.actions nfa)))
    with (processSets nodeOrder actionOrder nfa).
  assert (transitionCount (mkBuilder d [impl] [impl]) = 0%nat) as Hz by (unfold transitionCount; cbn [dfa]; by rewrite Er).
  destruct (processSets_spec nodeOrder actionOrder nfa closures S HnodeOrder HactionOrder Hok Hcl H1 H2 H3 H4 fuel (mkBuilder d [impl] [impl])) as (b & -> & HB' & Hu).
  - by rewrite Hz.
  - done.
  - pose proof (BInv_bound nfa S H1 _ _ _ HB) as Hb1. cbn in *. lia.
  - cbn [mbind option_bind]. exists b. split_and!; try done. apply (table_bound nfa S); [done|apply (b_entries _ _ _ _ HB')|apply (b_distinct _ _ _ _ HB')].
Qed.

End Correct.

(** The set of an entry has an action when the NFA finds it. *)
Lemma actionsAt_finds nfa w l a : (forall j, j ∈ l <-> nfaRun nfa 0 w j) -> actionsAt nfa l a <-> nfaFinds nfa w a.
Proof. intros H. split; intros (i & acts & Hi & Ha); exists i, acts; (split; [by apply H|done]). Qed.

Lemma built_actionsOf nfa b k impl w : BInv nfa b [] (transitionCount b) -> unprocessed b = [] ->
  uniqueNodeIdSetTable b !! k = Some impl -> (forall j, j ∈ m_buffer impl <-> nfaRun nfa 0 w j) ->
  forall a, a ∈ actionsOf (dfa b) (Z.of_nat k) <-> nfaFinds nfa w a.
Proof.
  intros HB Hu Hk Hj a. destruct (built_node nfa b HB Hu k impl Hk) as (node & acts & Hn & _ & Ha & Hacts & _). unfold actionsOf, DFABytecodeCompiler.at_.
  rewrite at_nat, Hn. cbn [mbind option_bind]. rewrite Ha. cbn [default]. by rewrite Hacts, (actionsAt_finds nfa w).
Qed.

(** After any word the DFA is where the NFA can be. *)
Lemma built_walk nfa b w : BInv nfa b [] (transitionCount b) -> unprocessed b = [] ->
  match walk (dfa b) (DFA.root (dfa b)) w with
  | Some m => (exists k, nfaRun nfa 0 w k) /\ forall a, a ∈ actionsOf (dfa b) m <-> nfaFinds nfa w a
  | None => forall k, ~ nfaRun nfa 0 w k
  end.
Proof.
  intros HB Hu. destruct (b_first _ _ _ _ HB) as (i0 & Hi0 & Hj0). pose proof (walk_spec nfa b HB Hu w [] 0%nat i0 Hi0 Hj0) as Hw.
  rewrite (b_root _ _ _ _ HB). cbn [app] in Hw. change (Z.of_nat 0) with 0 in Hw.
  destruct (walk (dfa b) 0 w) as [m|]; [|done]. destruct Hw as (q & iq & -> & Hq & Hj). split; [|by eapply built_actionsOf].
  pose proof (b_entries _ _ _ _ HB) as HE. rewrite Forall_forall in HE. destruct (entry_inhabited _ _ (HE iq ltac:(by eapply list_elem_of_lookup_2))) as [j Hj'].
  exists j. by apply Hj.
Qed.

(** ** The DFA can be compiled *)

Lemma goes_elem ts r d : okTransitions ts -> (r, d) ∈ ts -> goes ts (DFA.first r) = Some d.
Proof.
  induction ts as [|[r' d'] ts IH]; intros Hok Hin; [by apply not_elem_of_nil in Hin|]. apply okTransitions_cons in Hok as (Ho & Hok & Hlt). cbn [goes].
  unfold inRange. apply elem_of_cons in Hin as [[= -> ->]|Hin].
  - destruct Ho as ([_ H1] & _). cbn in H1. by rewrite (proj2 (Z.leb_le _ _) H1), Z.leb_refl.
  - rewrite Forall_forall in Hlt. specialize (Hlt _ Hin). cbn in Hlt. rewrite (proj2 (Z.leb_gt (DFA.first r) (DFA.last r'))) by lia. rewrite andb_false_r. by apply IH.
Qed.

(** Where no node reads the zero that ends a URL, its fallback is never taken
    there. *)
Lemma noEnd_endSafe d : (forall i node ts, DFA.at_ (DFA.nodes d) i = Some node -> DFA.isKilled node = false -> DFA.transitions node d = Some ts -> goes ts 0 = None) -> endSafe d.
Proof.
  intros Hno. split.
  - intros i node ts E Ek Et Hc. pose proof (Hno i node ts E Ek Et) as Hz. rewrite Hz. unfold DFA.bestFallbackTarget. rewrite Hc. cbn [mbind option_bind]. rewrite option_guard_True by done.
    cbn [mbind option_bind]. rewrite Et. cbn [mbind option_bind].
    destruct ts as [|[r t] ts]; [unfold DFA.canUseFallbackTransition in Hc; by rewrite Et in Hc|]. cbn [goes] in Hz. unfold inRange in Hz.
    destruct (Z.eqb_spec (DFA.first r) 0) as [Hf|Hf]; cbn [andb]; [|done]. destruct (Z.eqb_spec (DFA.last r) 0) as [Hl|Hl]; [|done]. rewrite Hf, Hl in Hz. done.
  - intros i m node (node' & E & Ek) Hd. unfold delta in Hd. unfold DFABytecodeCompiler.at_ in *. rewrite E in Hd. cbn [mbind option_bind] in Hd.
    destruct (DFA.transitions node' d) as [ts|] eqn:Et; [|done]. cbn [mbind option_bind] in Hd. by rewrite (Hno i node' ts E Ek Et) in Hd.
Qed.

Section Built.

Context (nfa : NFA.NFA) (b : Builder).
Hypothesis HB : BInv nfa b [] (transitionCount b).
Hypothesis Hu : unprocessed b = [].

(** Every node of the DFA is the node of an entry. *)
Lemma built_entry i node : DFA.at_ (DFA.nodes (dfa b)) i = Some node ->
  exists k impl acts, i = Z.of_nat k /\ uniqueNodeIdSetTable b !! k = Some impl /\ DFA.m_flags node = 0 /\ DFA.actions node (dfa b) = Some acts
    /\ (forall a, a ∈ acts <-> actionsAt nfa (m_buffer impl) a) /\ Moves nfa (dfa b) (uniqueNodeIdSetTable b) impl node.
Proof using HB Hu.
  unfold DFA.at_. destruct (Z.ltb_spec i 0) as [|Hi]; [done|]. intros E. pose proof (lookup_lt_Some _ _ _ E) as Hlt. rewrite (b_length _ _ _ _ HB) in Hlt.
  apply lookup_lt_is_Some in Hlt as [impl Hk]. destruct (built_node nfa b HB Hu _ impl Hk) as (node' & acts & Hn & Hf & Ha & Hacts & Hm).
  assert (node' = node) as -> by congruence. exists (Z.to_nat i), impl, acts. split_and!; try done. lia.
Qed.

Lemma built_alive k impl : uniqueNodeIdSetTable b !! k = Some impl -> alive (dfa b) (Z.of_nat k).
Proof using HB Hu.
  intros Hk. destruct (built_node nfa b HB Hu k impl Hk) as (node & acts & Hn & Hf & _). exists node. unfold DFABytecodeCompiler.at_. rewrite at_nat. split; [done|].
  unfold DFA.isKilled. by rewrite Hf.
Qed.

Lemma built_okDFA : Forall okAction (NFA.actions nfa) -> sumMax (dfa b) (compileOrder (dfa b)) + 8 < 2 ^ 30 -> okDFA (dfa b).
Proof using HB Hu.
  intros HA Hs. split; [|intros i node E _|done].
  - rewrite (b_root _ _ _ _ HB). destruct (b_first _ _ _ _ HB) as (i0 & Hi0 & _). by apply (built_alive 0%nat i0).
  - destruct (built_entry i node E) as (k & impl & acts & -> & Hk & _ & Ha & Hacts & ts & Et & Hts & Hm). exists acts, ts. split_and!; try done.
    + apply Forall_forall. intros a Ha'. rewrite Forall_forall in HA. apply HA. by eapply actionsAt_elem, Hacts.
    + intros r d Hin. specialize (Hm (DFA.first r)). rewrite (goes_elem ts r d Hts Hin) in Hm. destruct Hm as (iq & Hq & _).
      destruct Hts as [Hts _]. rewrite Forall_forall in Hts. destruct (Hts _ Hin) as (_ & _ & Hd). cbn in Hd. rewrite <- (Z2Nat.id d) by lia. by eapply built_alive.
Qed.

(** Without end markers no node has a transition on the zero that ends a
    URL. *)
Hypothesis Hend : forall i j, ~ step nfa 0 i j.

Lemma built_no_end i node ts : DFA.at_ (DFA.nodes (dfa b)) i = Some node -> DFA.transitions node (dfa b) = Some ts -> goes ts 0 = None.
Proof using HB Hu Hend.
  intros E Et. destruct (built_entry i node E) as (k & impl & acts & -> & Hk & _ & _ & _ & ts' & Et' & Hts & Hm). assert (ts' = ts) as -> by congruence.
  specialize (Hm 0). destruct (goes ts 0) as [m|]; [|done]. destruct Hm as (iq & Hq & Hj). pose proof (b_entries _ _ _ _ HB) as HE. rewrite Forall_forall in HE.
  destruct (entry_inhabited _ _ (HE iq ltac:(by eapply list_elem_of_lookup_2))) as [j Hj']. apply Hj in Hj' as (i1 & i2 & _ & Hst & _). by apply Hend in Hst.
Qed.

Lemma built_endSafe : endSafe (dfa b).
Proof using HB Hu Hend. apply noEnd_endSafe. intros i node ts E _. by apply (built_no_end i node). Qed.

End Built.

(** C34: The powerset construction: given one round per reachable set of nodes,
    it returns a DFA with at most that many nodes, no vector index and no
    assertion failing on the way, and after any word the DFA is in a node
    whose actions are exactly those of the nodes the NFA can be in, or is stuck
    when the NFA is; in whatever order the hash tables are walked. *)
Theorem convert_correct nodeOrder actionOrder nfa S fuel :
  (forall s, nodeOrder s ≡ₚ elements s) -> (forall s, actionOrder s ≡ₚ elements s) -> okNFA nfa -> FewSets nfa S -> (size S <= fuel)%nat ->
  exists d, convert nodeOrder actionOrder fuel nfa = Some d /\ (length (DFA.nodes d) <= size S)%nat
    /\ forall w, match walk d (DFA.root d) w with
                 | Some m => (exists k, nfaRun nfa 0 w k) /\ forall a, a ∈ actionsOf d m <-> nfaFinds nfa w a
                 | None => forall k, ~ nfaRun nfa 0 w k
                 end.
Proof.
  intros H1 H2 Hok HS Hf. destruct (convert_BInv nodeOrder actionOrder nfa S H1 H2 Hok HS fuel Hf) as (b & E & HB & Hu & Hl). exists (dfa b).
  split; [done|]. split; [by rewrite (b_length _ _ _ _ HB)|]. intros w. by apply built_walk.
Qed.

(** From an NFA without end markers and without actions on its initial nodes to
    the load: converting it, compiling the DFA and interpreting the bytecode on
    an ASCII URL finds exactly the actions, wanted for the load, of the nodes the
    NFA can be in after some prefix of the URL. *)
Lemma interpret_convert nodeOrder actionOrder nfa S fuel top url flags :
  (forall s, nodeOrder s ≡ₚ elements s) -> (forall s, actionOrder s ≡ₚ elements s) -> okNFA nfa -> FewSets nfa S -> (size S <= fuel)%nat ->
  Forall okAction (NFA.actions nfa) -> (forall i j, ~ step nfa 0 i j) -> (forall a, ~ nfaFinds nfa [] a) ->
  (forall d, convert nodeOrder actionOrder fuel nfa = Some d -> sumMax d (compileOrder d) + 8 < 2 ^ 30) ->
  Z.of_nat (length url) + 2 < 2 ^ 32 -> Forall (fun c => 1 <= c <= 127) url ->
  exists d bytecode found, convert nodeOrder actionOrder fuel nfa = Some d /\ DFABytecodeCompiler.compile d [] = Some bytecode
    /\ DFABytecodeInterpreter.interpretWith bytecode top url flags = Some found
    /\ forall a, a ∈ found <-> wanted top flags a /\ exists prefix, prefix `prefix_of` url /\ nfaFinds nfa prefix a.
Proof.
  intros H1 H2 Hok HS Hf HA Hend Hroot Hsz Hlen Hurl. destruct (convert_BInv nodeOrder actionOrder nfa S H1 H2 Hok HS fuel Hf) as (b & E & HB & Hu & _).
  specialize (Hsz _ E). pose proof (built_okDFA nfa b HB Hu HA Hsz) as HD. pose proof (built_endSafe nfa b HB Hu Hend) as Hes.
  assert (okMachine [dfa b]) as HM. { split; [by apply Forall_singleton..|constructor|]. unfold totalMax. cbn [foldr]. lia. }
  destruct (interpret_machine [dfa b] top url flags HM Hlen Hurl) as (bs & Ec & Ei). cbn [mapM] in Ec.
  destruct (DFABytecodeCompiler.compile (dfa b) []) as [code|] eqn:Ecode; [|done]. cbn [mbind option_bind] in Ec. injection Ec as <-. cbn [concat] in Ei. rewrite app_nil_r in Ei.
  exists (dfa b), code, (matched top url flags [dfa b]). split_and!; try done. intros a. rewrite elem_matched. apply and_iff_compat_l.
  assert (forall x, x ∉ actionsOf (dfa b) (DFA.root (dfa b))) as Hno.
  { intros x Hx. pose proof (built_walk nfa b [] HB Hu) as [_ Hw]. cbn [walk] in Hw. by apply Hw, Hroot in Hx. }
  split.
  - intros [(d & ->%list_elem_of_singleton & c & pre & m & Hp & Hw & Hm & Ha)|(d & [= <-] & _ & Ha)]; [|by apply Hno in Ha].
    pose proof (built_walk nfa b (c :: pre) HB Hu) as Hb. rewrite Hw in Hb. destruct Hb as [[k Hk] Hb]. exists (c :: pre). split; [|by apply Hb].
    destruct Hp as [rest E']. destruct rest as [|x rest _] using rev_ind.
    + rewrite app_nil_r in E'. rewrite <- E' in Hk. apply run_snoc in Hk as (i & j & _ & Hst & _). by apply Hend in Hst.
    + rewrite app_assoc in E'. apply app_inj_tail in E' as [-> _]. by exists rest.
  - intros (pre & Hp & Ha). left. exists (dfa b). split; [left|]. destruct pre as [|c pre]; [by apply Hroot in Ha|].
    pose proof (built_walk nfa b (c :: pre) HB Hu) as Hb. destruct (walk (dfa b) (DFA.root (dfa b)) (c :: pre)) as [m|] eqn:Hw.
    + destruct Hb as [_ Hb]. exists c, pre, m. split; [by apply prefix_app_r|]. split; [done|]. split; [|by apply Hb]. intros ->. apply Hb, Hno in Ha. done.
    + destruct Ha as (k & acts & Hk & _). by apply Hb in Hk.
Qed.

(** * Checking NFAs by evaluation, and an example *)

Import MutableRangeList NFAToDFA.

(** ** Checks *)

Definition validb (nfa : NFA.NFA) (i : Z) : bool := (0 <=? i) && (i <? Z.of_nat (length (NFA.nodes nfa))).

Fixpoint orderedb {B} (x : Z) (l : list (Span B)) : bool :=
  match l with [] => true | s :: l => (x <? lo s) && (lo s <=? hi s) && (hi s <=? 127) && orderedb (hi s) l end.

Definition okNodeIdb (nfa : NFA.NFA) (i : Z) : bool :=
  match epsilonTargets nfa i, NFA.transitionsForNode nfa i, nodeActions nfa i with
  | Some ts, Some ss, Some _ =>
      forallb (validb nfa) ts && orderedb (-1) ss
      && forallb (fun s => match val s with [] => false | _ => true end && forallb (validb nfa) (val s)) ss
  | _, _, _ => false
  end.

Definition nodeIds (nfa : NFA.NFA) : list Z := seqZ 0 (Z.of_nat (length (NFA.nodes nfa))).

Definition okNFAb (nfa : NFA.NFA) : bool := negb (Nat.eqb (length (NFA.nodes nfa)) 0) && forallb (okNodeIdb nfa) (nodeIds nfa).

(** No transition on the zero that ends a URL. *)
Definition noEndb (nfa : NFA.NFA) : bool :=
  forallb (fun i => match NFA.transitionsForNode nfa i with Some ss => match find 0 ss with Some _ => false | None => true end | None => true end) (nodeIds nfa).

(** No actions on the nodes reached by the empty word. *)
Definition noInitialb (nfa : NFA.NFA) : bool :=
  match epsilonClosureExcludingSelf nfa 0 with
  | Some out => forallb (fun i => match nodeActions nfa i with Some [] => true | _ => false end) (0 :: out)
  | None => false
  end.

Lemma validb_spec nfa i : validb nfa i = true <-> valid nfa i.
Proof. unfold validb, valid. rewrite andb_true_iff, Z.leb_le, Z.ltb_lt. done. Qed.

Lemma forallb_valid nfa l : forallb (validb nfa) l = true -> Forall (valid nfa) l.
Proof. rewrite forallb_forall, Forall_forall. intros H i Hi. apply validb_spec, H. by apply list_elem_of_In. Qed.

Lemma orderedb_spec {B} (l : list (Span B)) : forall x, orderedb x l = true -> ordered x l.
Proof.
  induction l as [|s l IH]; intros x; cbn; [done|]. rewrite !andb_true_iff, Z.ltb_lt, !Z.leb_le. intros (((H1 & H2) & H3) & H4). split_and!; try done. by apply IH.
Qed.

Lemma elem_nodeIds nfa i : In i (nodeIds nfa) <-> valid nfa i.
Proof. unfold nodeIds, valid. rewrite <- list_elem_of_In, elem_of_seqZ. lia. Qed.

Lemma okNFAb_spec nfa : okNFAb nfa = true -> okNFA nfa.
Proof.
  unfold okNFAb. rewrite andb_true_iff, negb_true_iff, Nat.eqb_neq, forallb_forall. intros [Hne H].
  assert (forall i, valid nfa i -> okNodeIdb nfa i = true) as Hi by (intros i Hi; by apply H, elem_nodeIds). unfold okNodeIdb in Hi.
  split; [by intros E; rewrite E in Hne| | |]; intros i Hv; specialize (Hi i Hv);
    destruct (epsilonTargets nfa i) as [ts|], (NFA.transitionsForNode nfa i) as [ss|], (nodeActions nfa i) as [acts|]; try done;
    apply andb_true_iff in Hi as [[H1 H2]%andb_true_iff H3].
  - exists ts. split; [done|]. by apply forallb_valid.
  - exists ss. split; [done|]. split; [by apply orderedb_spec|]. rewrite forallb_forall in H3. apply Forall_forall. intros s Hs. apply list_elem_of_In, H3 in Hs.
    apply andb_true_iff in Hs as [Hs1 Hs2]. split; [by intros E; rewrite E in Hs1|by apply forallb_valid].
  - by exists acts.
Qed.

Lemma transitions_valid nfa i ss : NFA.transitionsForNode nfa i = Some ss -> valid nfa i.
Proof.
  unfold NFA.transitionsForNode, DFA.at_, valid. destruct (Z.ltb_spec i 0); [done|]. destruct (NFA.nodes nfa !! Z.to_nat i) as [node|] eqn:E; [|done].
  apply lookup_lt_Some in E. intros _. lia.
Qed.

Lemma noEndb_spec nfa : noEndb nfa = true -> forall i j, ~ step nfa 0 i j.
Proof.
  unfold noEndb. rewrite forallb_forall. intros H i j (ss & ts & E & Ef & _). specialize (H i). rewrite E, Ef in H.
  specialize (H ltac:(by eapply elem_nodeIds, transitions_valid)). done.
Qed.

Lemma noInitialb_spec nfa : okNFA nfa -> noInitialb nfa = true -> forall a, ~ nfaFinds nfa [] a.
Proof.
  intros Hok. unfold noInitialb. destruct (epsilonClosureExcludingSelf_spec nfa Hok 0 (root_valid _ Hok)) as (out & -> & Hout). rewrite forallb_forall.
  intros H a (k & acts & Hr & E & Ha). apply run_closure in Hr. specialize (H k). rewrite E in H.
  destruct acts; [by apply not_elem_of_nil in Ha|]. enough (false = true) by done. apply H, list_elem_of_In, elem_of_cons.
  destruct (decide (k = 0)); [by left|right]. by apply Hout.
Qed.

(** ** All sets of nodes *)

Fixpoint subsets (l : list Z) : list (gset Z) :=
  match l with [] => [∅] | x :: l => subsets l ++ ((fun X => {[ x ]} ∪ X) <$> subsets l) end.

Lemma subsets_complete l : forall X : gset Z, (forall j, j ∈ X -> j ∈ l) -> X ∈ subsets l.
Proof.
  induction l as [|x l IH]; intros X H; cbn [subsets].
  - apply list_elem_of_singleton. apply set_eq. intros j. split; [|set_solver]. by intros Hj%H%not_elem_of_nil.
  - apply elem_of_app. destruct (decide (x ∈ X)) as [Hx|Hx].
    + right. apply list_elem_of_fmap. exists (X ∖ {[x]}). split; [apply set_eq; intros j; destruct (decide (j = x)); set_solver|].
      apply IH. intros j [Hj Hne]%elem_of_difference. apply H, elem_of_cons in Hj as [->|]; [set_solver|done].
    + left. apply IH. intros j Hj. pose proof (H j Hj) as Hc. apply elem_of_cons in Hc as [->|]; done.
Qed.

(** A small NFA has few sets. *)
Lemma FewSets_subsets nfa : okNFA nfa -> Z.of_nat (length (NFA.actions nfa)) <= 2 ^ 16 - 1 ->
  Z.of_nat (size (list_to_set (subsets (nodeIds nfa)) : gset (gset Z))) * 128 < 2 ^ 32 ->
  Z.of_nat (size (list_to_set (subsets (nodeIds nfa)) : gset (gset Z))) * Z.of_nat (length (NFA.actions nfa)) < 2 ^ 32 ->
  FewSets nfa (list_to_set (subsets (nodeIds nfa))).
Proof.
  intros Hok H1 H2 H3. split; [|done..]. intros w X HX. apply elem_of_list_to_set, subsets_complete. intros j Hj. apply list_elem_of_In, elem_nodeIds.
  apply HX in Hj. eapply run_valid; [done|by apply root_valid|done].
Qed.

(** ** An example

    The filter [b]: any characters, then [b], which has an action. *)

Definition exampleNFA : NFA.NFA :=
  NFA.mkNFA [NFA.mkNode 0 1 0 1 0 0; NFA.mkNode 1 2 1 1 0 0; NFA.mkNode 2 2 1 1 0 1]
    [NFA.mkRange 0 1 1 127; NFA.mkRange 1 2 98 98] [0; 2] [1] [7].

Definition exampleSets : gset (gset Z) := list_to_set (subsets (nodeIds exampleNFA)).

Lemma exampleNFA_ok : okNFA exampleNFA.
Proof. apply okNFAb_spec. by vm_compute. Qed.

Lemma exampleSets_size : size exampleSets = 8%nat.
Proof. by vm_compute. Qed.

Lemma exampleNFA_few : FewSets exampleNFA exampleSets.
Proof. apply FewSets_subsets; [exact exampleNFA_ok|vm_compute; discriminate| |]; fold exampleSets; rewrite exampleSets_size; vm_compute; reflexivity. Qed.

Lemma convert_correct_witness :
  exists d, convert elements elements 8 exampleNFA = Some d /\ (length (DFA.nodes d) <= size exampleSets)%nat
    /\ forall w, match walk d (DFA.root d) w with
                 | Some m => (exists k, nfaRun exampleNFA 0 w k) /\ forall a, a ∈ actionsOf d m <-> nfaFinds exampleNFA w a
                 | None => forall k, ~ nfaRun exampleNFA 0 w k
                 end.
Proof.
  apply (convert_correct elements elements exampleNFA exampleSets 8).
  - intros s. reflexivity.
  - intros s. reflexivity.
  - exact exampleNFA_ok.
  - exact exampleNFA_few.
  - rewrite exampleSets_size. apply le_n.
Defined.
