(* ===== verification/DFACombinerCorrect.v ===== *)
(** * DFACombinerCorrect: merged automata find what their parts find

    The nodes of a merged automaton are the pairs of nodes that words lead to.
    However small automata are combined, the automata that the handler gets
    find together what they found. *)

From stdpp Require Import gmap sorting.
From S2P Require Import Prelude DFA DFATransitions DFABytecodeCompiler DFACompile DFARun DFASimulation DFAProperties MutableRangeList MutableRangeListCorrect NFAToDFAClosure NFAToDFACorrect DFAMinimizer DFAPartition DFASingular DFAMinimizerCorrect DFACombiner.
Import MutableRangeList DFACombiner.

#[local] Open Scope Z_scope.

(** ** Signatures *)

Definition isIndex (i : Z) : Prop := 0 <= i < invalidNodeIndex.

(** No node is the invalid index. *)
Definition indexOf (o : option Z) : Z := default invalidNodeIndex o.
Definition halfOf (i : Z) : option Z := if i =? invalidNodeIndex then None else Some i.

Definition encode (oa ob : option Z) : Z := indexOf ob + indexOf oa * 2 ^ 32.

Definition okHalf (o : option Z) : Prop := match o with None => True | Some i => isIndex i end.

Lemma indexOf_bounds o : okHalf o -> 0 <= indexOf o < 2 ^ 32.
Proof. destruct o; cbn; unfold isIndex, invalidNodeIndex; lia. Qed.

Lemma halfOf_indexOf o : okHalf o -> halfOf (indexOf o) = o.
Proof. destruct o as [i|]; cbn; unfold halfOf; [|by rewrite Z.eqb_refl]. unfold isIndex. intros H. by rewrite (proj2 (Z.eqb_neq _ _)) by lia. Qed.

Lemma extract_encode oa ob : okHalf oa -> okHalf ob -> extractIndexA (encode oa ob) = indexOf oa /\ extractIndexB (encode oa ob) = indexOf ob.
Proof.
  intros Ha%indexOf_bounds Hb%indexOf_bounds. unfold extractIndexA, extractIndexB, encode, u32. rewrite Z.shiftr_div_pow2 by lia. rewrite Z.div_add, Z.mod_add, Z.div_small by lia. rewrite !Z.mod_small by lia. done.
Qed.

Lemma encode_inj oa ob oa' ob' : okHalf oa -> okHalf ob -> okHalf oa' -> okHalf ob' -> encode oa ob = encode oa' ob' -> oa = oa' /\ ob = ob'.
Proof.
  intros Ha Hb Ha' Hb' E. destruct (extract_encode oa ob Ha Hb) as [E1 E2], (extract_encode oa' ob' Ha' Hb') as [E3 E4]. rewrite E in E1, E2. rewrite E3 in E1. rewrite E4 in E2.
  rewrite <- (halfOf_indexOf oa Ha), <- (halfOf_indexOf ob Hb), <- E1, <- E2. by rewrite !halfOf_indexOf.
Qed.

Lemma encode_bounds oa ob : okHalf oa -> okHalf ob -> 0 <= encode oa ob < 2 ^ 64.
Proof. intros Ha%indexOf_bounds Hb%indexOf_bounds. unfold encode. lia. Qed.

Lemma signature_encode a b : isIndex a -> isIndex b -> signatureForIndices a b = encode (Some a) (Some b).
Proof.
  unfold isIndex, invalidNodeIndex. intros Ha Hb. unfold signatureForIndices, u64. rewrite Z.mod_small by (rewrite Z.shiftl_mul_pow2; lia). rewrite Z.lor_comm, lor_shift by lia. done.
Qed.

Lemma setHalfA_encode oa ob v : okHalf oa -> okHalf ob -> isIndex v -> setHalfSignature A (encode oa ob) v = encode (Some v) ob.
Proof.
  intros Ha%indexOf_bounds Hb%indexOf_bounds Hv. unfold isIndex, invalidNodeIndex in Hv. unfold setHalfSignature, u64. change (32 - 32) with 0. rewrite Z.shiftl_0_r, (Z.mod_small (2 ^ 32 - 1)) by lia. change (2 ^ 32 - 1) with (Z.ones 32). rewrite Z.land_ones by lia.
  rewrite (Z.mod_small (Z.shiftl v 32)) by (rewrite Z.shiftl_mul_pow2; lia). unfold encode. rewrite Z.mod_add, Z.mod_small by lia. rewrite lor_shift by lia. done.
Qed.

Lemma land_high s : 0 <= s < 2 ^ 64 -> Z.land s (Z.shiftl (Z.ones 32) 32) = Z.shiftl (s / 2 ^ 32) 32.
Proof.
  intros Hs. rewrite <- Z.shiftr_div_pow2 by lia. apply Z.bits_inj'. intros n Hn. rewrite Z.land_spec, !Z.shiftl_spec by done. destruct (Z.ltb_spec n 32) as [Hl|Hl]; [rewrite !(Z.testbit_neg_r _ (n - 32)) by lia; apply andb_false_r|].
  rewrite Z.shiftr_spec by lia. replace (n - 32 + 32) with n by lia. destruct (Z.ltb_spec n 64) as [Hl'|Hl'].
  - rewrite Z.ones_spec_low by lia. apply andb_true_r.
  - rewrite Z.ones_spec_high, andb_false_r by lia. symmetry. destruct (decide (s = 0)) as [->|]; [apply Z.testbit_0_l|]. apply Z.bits_above_log2; [lia|]. apply Z.log2_lt_pow2; [lia|]. eapply Z.lt_le_trans; [apply Hs|]. apply Z.pow_le_mono_r; lia.
Qed.

Lemma setHalfB_encode oa ob v : okHalf oa -> okHalf ob -> isIndex v -> setHalfSignature B (encode oa ob) v = encode oa (Some v).
Proof.
  intros Ha Hb Hv. pose proof (encode_bounds oa ob Ha Hb) as He. apply indexOf_bounds in Ha, Hb. unfold isIndex, invalidNodeIndex in Hv. unfold setHalfSignature, u64. change (32 - 0) with 32. rewrite Z.shiftl_0_r, (Z.mod_small v) by lia. change (2 ^ 32 - 1) with (Z.ones 32).
  change (Z.shiftl (Z.ones 32) 32 mod 2 ^ 64) with (Z.shiftl (Z.ones 32) 32). rewrite land_high by done. unfold encode at 1. rewrite Z.div_add, Z.div_small by lia. rewrite Z.lor_comm, lor_shift by lia. done.
Qed.

Lemma convert_encode which v : isIndex v -> setHalfSignature which (2 ^ 64 - 1) v = match which with A => encode (Some v) None | B => encode None (Some v) end.
Proof. intros Hv. change (2 ^ 64 - 1) with (encode None None). destruct which; [by apply setHalfA_encode|by apply setHalfB_encode]. Qed.

(** ** Automata that can be merged *)

(** The nodes that are not killed have their parts, lead to such nodes, their
    actions are in the set and their characters are of a kind. *)
Record okInput (U : gset Z) (L : Z -> Prop) (d : DFA.DFA) : Prop := {
  in_root : alive d (DFA.root d);
  in_node : forall i node, DFA.at_ (DFA.nodes d) i = Some node -> DFA.isKilled node = false ->
    exists acts ts, DFA.actions node d = Some acts /\ DFA.transitions node d = Some ts /\ okTransitions ts /\ (forall a, a ∈ acts -> a ∈ U) /\ forall r t, (r, t) ∈ ts -> alive d t;
  in_labels : forall i c m, alive d i -> delta d i c = Some m -> L c;
  in_slice : forall i node, DFA.at_ (DFA.nodes d) i = Some node -> DFA.isKilled node = false -> okSlice (DFA.m_actionsStart node) (DFA.m_actionsLength node);
  in_size : Z.of_nat (length (DFA.nodes d)) < invalidNodeIndex }.

Lemma alive_index U L d i : okInput U L d -> alive d i -> isIndex i.
Proof. intros HI (node & H%at_lt & _). pose proof (in_size _ _ _ HI). unfold isIndex. lia. Qed.

Lemma alive_parts U L d i : okInput U L d -> alive d i -> exists node acts ts, DFA.at_ (DFA.nodes d) i = Some node /\ DFA.actions node d = Some acts /\ acts = actionsOf d i /\ (forall a, a ∈ acts -> a ∈ U)
  /\ DFA.transitions node d = Some ts /\ okTransitions ts /\ (forall c, goes ts c = delta d i c) /\ forall c t, goes ts c = Some t -> alive d t.
Proof.
  intros HI (node & Hat & Hk). destruct (in_node _ _ _ HI i node Hat Hk) as (acts & ts & Ea & Et & Hts & HU & Ht). exists node, acts, ts. unfold actionsOf, delta. unfold DFABytecodeCompiler.at_ in *. rewrite Hat. cbn [mbind option_bind]. rewrite Ea, Et. split_and!; try done.
  intros c t Hg. destruct (goes_target ts c t Hg) as (r & Hr & _). by eapply Ht.
Qed.

Section Product.

Context (U : gset Z) (L : Z -> Prop) (a b : DFA.DFA) (actionOrder : gset Z -> list Z).
Hypothesis Ha : okInput U L a.
Hypothesis Hb : okInput U L b.
Hypothesis order_ok : forall s, actionOrder s ≡ₚ elements s.

Definition okPart (d : DFA.DFA) (o : option Z) : Prop := match o with None => True | Some i => alive d i end.
Definition okPair (s : option Z * option Z) : Prop := okPart a s.1 /\ okPart b s.2.

Definition move (d : DFA.DFA) (o : option Z) (c : Z) : option Z := i ← o; delta d i c.

(** Where a pair goes; nowhere if neither part goes on. *)
Definition pairMove (s : option Z * option Z) (c : Z) : option (option Z * option Z) :=
  match move a s.1 c, move b s.2 c with None, None => None | oa, ob => Some (oa, ob) end.

Definition partActs (d : DFA.DFA) (o : option Z) (x : Z) : Prop := exists i, o = Some i /\ x ∈ actionsOf d i.
Definition pairActs (s : option Z * option Z) (x : Z) : Prop := partActs a s.1 x \/ partActs b s.2 x.

Definition sig (s : option Z * option Z) : Z := encode s.1 s.2.

Lemma okPart_half d o : okInput U L d -> okPart d o -> okHalf o.
Proof. intros HI. destruct o as [i|]; cbn; [by apply (alive_index U L)|done]. Qed.

Lemma okPair_half s : okPair s -> okHalf s.1 /\ okHalf s.2.
Proof using Ha Hb. intros [H1 H2]. split; [by apply (okPart_half a)|by apply (okPart_half b)]. Qed.

Lemma sig_inj s s' : okPair s -> okPair s' -> sig s = sig s' -> s = s'.
Proof using Ha Hb. intros [H1 H2]%okPair_half [H3 H4]%okPair_half E. destruct s, s'. apply encode_inj in E as [? ?]; try done. cbn in *. by subst. Qed.

Lemma move_ok d o c i : okInput U L d -> okPart d o -> move d o c = Some i -> alive d i.
Proof. intros HI Ho. destruct o as [j|]; [|done]. cbn. intros Hd. destruct (alive_parts U L d j HI Ho) as (_ & _ & ts & _ & _ & _ & _ & _ & _ & Hg & Hal). rewrite <- Hg in Hd. by eapply Hal. Qed.

Lemma pairMove_ok s c s' : okPair s -> pairMove s c = Some s' -> okPair s'.
Proof using Ha Hb.
  intros [H1 H2]. unfold pairMove. destruct (move a s.1 c) as [i|] eqn:E1, (move b s.2 c) as [j|] eqn:E2; intros [= <-]; split; cbn; try done; first [by eapply (move_ok a)|by eapply (move_ok b)].
Qed.

Lemma pairMove_label s c s' : okPair s -> pairMove s c = Some s' -> L c.
Proof using Ha Hb.
  intros [H1 H2]. unfold pairMove. destruct (move a s.1 c) as [i|] eqn:E1.
  - intros _. destruct s.1 as [j|]; [|done]. by apply (in_labels _ _ _ Ha j c i).
  - destruct (move b s.2 c) as [i|] eqn:E2; [|done]. intros _. destruct s.2 as [j|]; [|done]. by apply (in_labels _ _ _ Hb j c i).
Qed.

(** *** Actions and ranges of a pair *)

Lemma addActions_spec d o acc : okInput U L d -> okPart d o -> exists acts, addActions d (indexOf o) acc = Some acts /\ forall x, x ∈ acts <-> x ∈ acc \/ partActs d o x.
Proof.
  intros HI Ho. unfold addActions. destruct o as [i|]; cbn [indexOf default].
  - pose proof (alive_index U L d i HI Ho) as Hi. unfold isIndex in Hi. cbn [id]. rewrite (proj2 (Z.eqb_neq _ _)) by lia. destruct (alive_parts U L d i HI Ho) as (node & acts & ts & -> & Ea & Eacts & _). cbn [mbind option_bind]. rewrite Ea. cbn [mbind option_bind].
    eexists. split; [reflexivity|]. intros x. rewrite elem_of_union, elem_of_list_to_set, Eacts. unfold partActs. naive_solver.
  - cbn [id]. rewrite Z.eqb_refl. exists acc. split; [done|]. intros x. unfold partActs. naive_solver.
Qed.

Lemma pairActs_U s x : okPair s -> pairActs s x -> x ∈ U.
Proof using Ha Hb.
  intros [H1 H2] [(i & E & Hx)|(i & E & Hx)]; [rewrite E in H1|rewrite E in H2].
  - destruct (alive_parts U L a i Ha H1) as (node & acts & ts & _ & _ & -> & HU & _). by apply HU.
  - destruct (alive_parts U L b i Hb H2) as (node & acts & ts & _ & _ & -> & HU & _). by apply HU.
Qed.

(** The first automaton's ranges. *)
Lemma extendA_spec o : okPart a o -> exists rs vs, extendTransitions A a (indexOf o) [] = Some rs /\ Represents rs vs /\ ordered (-1) vs /\ forall x, find x vs = (fun i => encode (Some i) None) <$> move a o x.
Proof using Ha.
  intros Ho. unfold extendTransitions. destruct o as [i|]; cbn [indexOf default id].
  - pose proof (alive_index U L a i Ha Ho) as Hi. unfold isIndex in Hi. rewrite (proj2 (Z.eqb_neq _ _)) by lia. destruct (alive_parts U L a i Ha Ho) as (node & _ & ts & -> & _ & _ & _ & Et & Hts & Hg & Hal). cbn [mbind option_bind]. rewrite Et. cbn [mbind option_bind].
    destruct (extend_spec (convertTarget A) (extendTarget A) (fun v => encode (Some v) None) (fun d v => setHalfSignature A d v) isIndex) with (rs := @nil (MutableRange Z)) (vs := @nil (Span Z)) (l := DFAMinimizer.spansOfTransitions ts) as (rs & vs & E & HR & Ho' & Hf).
    + intros v Hv. unfold convertTarget, extendTarget. f_equal. by apply (convert_encode A).
    + done.
    + by left.
    + done.
    + by apply spansOfTransitions_ordered.
    + unfold DFAMinimizer.spansOfTransitions. apply Forall_fmap, Forall_forall. intros [r t] Hin. cbn. apply (alive_index U L a t Ha). apply (Hal (DFA.first r)). by apply NFAToDFACorrect.goes_elem.
    + exists rs, vs. split_and!; try done. intros x. rewrite Hf, find_goes, Hg. cbn [find merge]. cbn [move mbind option_bind]. by destruct (delta a i x).
  - rewrite Z.eqb_refl. exists [], []. split_and!; try done. by left.
Qed.

(** The ranges of both. *)
Lemma extendB_spec oa ob rs vs : okPart a oa -> okPart b ob -> Represents rs vs -> ordered (-1) vs -> (forall x, find x vs = (fun i => encode (Some i) None) <$> move a oa x) ->
  exists rs' vs', extendTransitions B b (indexOf ob) rs = Some rs' /\ Represents rs' vs' /\ ordered (-1) vs' /\ forall x, find x vs' = sig <$> pairMove (oa, ob) x.
Proof using Ha Hb.
  intros Hoa Hob HR Ho Hf. unfold extendTransitions. unfold pairMove. cbn [fst snd]. destruct ob as [i|]; cbn [indexOf default id].
  - pose proof (alive_index U L b i Hb Hob) as Hi. unfold isIndex in Hi. rewrite (proj2 (Z.eqb_neq _ _)) by lia. destruct (alive_parts U L b i Hb Hob) as (node & _ & ts & -> & _ & _ & _ & Et & Hts & Hg & Hal). cbn [mbind option_bind]. rewrite Et. cbn [mbind option_bind].
    destruct (extend_spec (convertTarget B) (extendTarget B) (fun v => encode None (Some v)) (fun d v => setHalfSignature B d v) isIndex) with (rs := rs) (vs := vs) (l := DFAMinimizer.spansOfTransitions ts) as (rs' & vs' & E & HR' & Ho' & Hf'); try done.
    + intros v Hv. unfold convertTarget, extendTarget. f_equal. by apply (convert_encode B).
    + by apply spansOfTransitions_ordered.
    + unfold DFAMinimizer.spansOfTransitions. apply Forall_fmap, Forall_forall. intros [r t] Hin. cbn. apply (alive_index U L b t Hb). apply (Hal (DFA.first r)). by apply goes_elem.
    + exists rs', vs'. split_and!; try done. intros x. rewrite Hf', Hf, find_goes, Hg. cbn [move mbind option_bind]. destruct (move a oa x) as [ia|] eqn:Ea, (delta b i x) as [ib|] eqn:Eb; cbn; try done.
      f_equal. rewrite setHalfB_encode; [done| |done|].
      * apply (alive_index U L a ia Ha). by apply (move_ok a oa x).
      * apply (alive_index U L b ib Hb). by apply (move_ok b (Some i) x).
  - rewrite Z.eqb_refl. exists rs, vs. split_and!; try done. intros x. rewrite Hf. cbn [move mbind option_bind]. by destruct (move a oa x).
Qed.

Lemma combined_spec s : okPair s -> exists rs l, (combinedTransitions ← extendTransitions A a (extractIndexA (sig s)) []; extendTransitions B b (extractIndexB (sig s)) combinedTransitions) = Some rs
  /\ toList rs = Some l /\ ordered (-1) (view <$> l) /\ forall x, find x (view <$> l) = sig <$> pairMove s x.
Proof using Ha Hb.
  intros Hs. destruct (okPair_half s Hs) as [H1 H2]. destruct s as [oa ob]. destruct Hs as [Hoa Hob]. unfold sig at 1 2. cbn [fst snd] in *. destruct (extract_encode oa ob H1 H2) as [-> ->].
  destruct (extendA_spec oa Hoa) as (rs & vs & -> & HR & Ho & Hf). cbn [mbind option_bind]. destruct (extendB_spec oa ob rs vs Hoa Hob HR Ho Hf) as (rs' & vs' & E & HR' & Ho' & Hf'). destruct (toList_represents rs' vs' HR') as (l & El & Ev). exists rs', l. rewrite Ev. done.
Qed.

(** ** The merged automaton while it is built *)

Notation Pair := (option Z * option Z)%type.

(** There are few pairs and few actions. *)
Context (P : list Pair).
Hypothesis P_pairs : forall s, okPair s -> s ∈ P.
Hypothesis P_transitions : Z.of_nat (length P) * 128 < 2 ^ 32.
Hypothesis P_actions : Z.of_nat (length P) * Z.of_nat (size U) < 2 ^ 32.
Hypothesis U_size : Z.of_nat (size U) < 2 ^ 16.

Definition Leads (d : DFA.DFA) (T : list Pair) (s : Pair) (node : DFA.DFANode) : Prop :=
  exists ts, DFA.transitions node d = Some ts /\ okTransitions ts
    /\ forall x, match goes ts x, pairMove s x with Some k, Some s' => T !! Z.to_nat k = Some s' | None, None => True | _, _ => False end.

(** The node of a pair; those of [pend] have no transitions yet. *)
Record NodeFor (d : DFA.DFA) (T : list Pair) (pend : list Z) (s : Pair) (node : DFA.DFANode) : Prop := {
  nf_flags : DFA.m_flags node = 0;
  nf_actions : exists acts, DFA.actions node d = Some acts /\ forall x, x ∈ acts <-> pairActs s x;
  nf_pending : sig s ∈ pend -> DFA.m_transitionsStart node = 0 /\ DFA.m_transitionsLength node = 0;
  nf_leads : sig s ∉ pend -> Leads d T s node }.

Record MInv (T : list Pair) (m : DFAMerger) (p : list Z) (n : nat) : Prop := {
  mi_root : DFA.root (m_output m) = 0;
  mi_length : length (DFA.nodes (m_output m)) = length T;
  mi_arrays : length (DFA.transitionRanges (m_output m)) = length (DFA.transitionDestinations (m_output m));
  mi_nodup : NoDup T;
  mi_pairs : Forall okPair T;
  mi_mapping : forall z k, m_nodeMapping m !! z = Some k <-> exists i s, k = Z.of_nat i /\ T !! i = Some s /\ z = sig s;
  mi_pending : NoDup (p ++ m_unprocessedNodes m);
  mi_queue : forall z, z ∈ p ++ m_unprocessedNodes m -> exists s, s ∈ T /\ z = sig s;
  mi_actions : (length (DFA.dfa_actions (m_output m)) <= length T * size U)%nat;
  mi_transitions : (n + 128 * length (p ++ m_unprocessedNodes m) <= 128 * length T)%nat;
  mi_nodes : forall i s, T !! i = Some s -> exists node, DFA.nodes (m_output m) !! i = Some node /\ NodeFor (m_output m) T (p ++ m_unprocessedNodes m) s node;
  mi_slices : Slices (m_output m) n }.

Lemma MInv_bound T m p n : MInv T m p n -> (length T <= length P)%nat.
Proof using P_pairs. intros H. apply submseteq_length, NoDup_submseteq; [apply H|]. intros s Hs. apply P_pairs. pose proof (mi_pairs _ _ _ _ H) as HF. rewrite Forall_forall in HF. by apply HF. Qed.

Lemma NodeFor_grow d d' T more pend pend' s node moreA moreR moreT :
  DFA.dfa_actions d' = DFA.dfa_actions d ++ moreA -> DFA.transitionRanges d' = DFA.transitionRanges d ++ moreR -> DFA.transitionDestinations d' = DFA.transitionDestinations d ++ moreT ->
  (sig s ∈ pend' <-> sig s ∈ pend) -> NodeFor d T pend s node -> NodeFor d' (T ++ more) pend' s node.
Proof.
  intros E1 E2 E3 Hp [N1 (acts & N2 & N3) N6 N7]. split; try done.
  - exists acts. split; [by eapply actions_grow|done].
  - by rewrite Hp.
  - rewrite Hp. intros Hs. destruct (N7 Hs) as (ts & Et & Hts & Hm). exists ts. split; [by eapply transitions_grow|]. split; [done|]. intros x. specialize (Hm x). destruct (goes ts x) as [k|], (pairMove s x) as [s'|]; try done. by apply lookup_app_l_Some.
Qed.

(** *** A pair gets a node *)

Lemma pairSet_spec s : okPair s -> exists acts, (actions ← addActions a (extractIndexA (sig s)) ∅; addActions b (extractIndexB (sig s)) actions) = Some acts
  /\ (forall x, x ∈ actionOrder acts <-> pairActs s x) /\ (length (actionOrder acts) <= size U)%nat.
Proof using Ha Hb order_ok.
  intros Hs. destruct (okPair_half s Hs) as [H1 H2]. unfold sig. destruct (extract_encode _ _ H1 H2) as [-> ->]. destruct (addActions_spec a s.1 ∅ Ha (proj1 Hs)) as (acts1 & -> & Hx1). cbn [mbind option_bind].
  destruct (addActions_spec b s.2 acts1 Hb (proj2 Hs)) as (acts & E & Hx). exists acts. split; [done|]. assert (forall x, x ∈ acts <-> pairActs s x) as Hacts.
  { intros x. rewrite Hx, Hx1. unfold pairActs. split; [intros [[Hx0|?]|?]; [by apply elem_of_empty in Hx0|by left|by right]|tauto]. }
  split; [intros x; rewrite order_ok, elem_of_elements; apply Hacts|]. rewrite order_ok. change (length (elements acts)) with (size acts). apply subseteq_size. intros x Hx'. by apply (pairActs_U s x Hs), Hacts.
Qed.

Lemma MInv_new T m p n s acts : MInv T m p n -> okPair s -> m_nodeMapping m !! sig s = None -> (forall x, x ∈ acts <-> pairActs s x) -> (length acts <= size U)%nat ->
  let d := m_output m in
  let node := DFA.mkNode (Z.of_nat (length (DFA.dfa_actions d))) 0 (Z.of_nat (length acts)) 0 0 in
  (length (T ++ [s]) <= length P)%nat
  /\ MInv (T ++ [s]) (mkMerger (DFA.mkDFA (DFA.nodes d ++ [node]) (DFA.dfa_actions d ++ acts) (DFA.transitionRanges d) (DFA.transitionDestinations d) (DFA.root d))
         (<[sig s := Z.of_nat (length (DFA.nodes d))]> (m_nodeMapping m)) (sig s :: m_unprocessedNodes m)) p n.
Proof using Ha Hb P_pairs P_actions U_size P_transitions.
  intros HM Hs Hnew Hacts Hlen d node. pose proof HM as [M1 M2 M3 M4 M5 M6 M7 M8 M9 M10 M11 M12]. fold d in M1, M2, M3, M9, M11, M12.
  assert (s ∉ T) as HsT. { intros [i Hi]%list_elem_of_lookup. assert (m_nodeMapping m !! sig s = Some (Z.of_nat i)) as E by (apply M6; by exists i, s). congruence. }
  assert (NoDup (T ++ [s])) as HD by (apply NoDup_app; split_and!; [done|by intros x Hx ->%list_elem_of_singleton|apply NoDup_singleton]). assert (Forall okPair (T ++ [s])) as HF by (apply Forall_app; split; [done|by apply Forall_singleton]).
  assert (length (T ++ [s]) <= length P)%nat as Hbound by (apply submseteq_length, NoDup_submseteq; [done|]; intros x Hx; apply P_pairs; rewrite Forall_forall in HF; by apply HF).
  split; [done|]. assert (sig s ∉ p ++ m_unprocessedNodes m) as Hpend. { intros Hin. destruct (M8 _ Hin) as (s' & Hs' & E). rewrite Forall_forall in M5. apply sig_inj in E; [|done|by apply M5]. by subst. }
  assert (Z.of_nat (length (DFA.dfa_actions d) + length acts) < 2 ^ 32) as Hfit by (rewrite length_app in Hbound; cbn in Hbound; nia).
  assert (okSlice (Z.of_nat (length (DFA.dfa_actions d))) (Z.of_nat (length acts))) as Hslice by (unfold okSlice; lia).
  split; cbn [m_output m_nodeMapping m_unprocessedNodes DFA.root DFA.nodes DFA.dfa_actions DFA.transitionRanges DFA.transitionDestinations]; try done.
  - rewrite !length_app. cbn. lia.
  - intros z k. rewrite lookup_insert. case_decide as E.
    + subst z. split; [intros [= <-]; exists (length T), s; rewrite M2, list_lookup_middle by done; done|]. intros (i & s' & -> & Hi & E). f_equal. apply lookup_app_Some in Hi as [Hi|[Hge Hi]].
      * exfalso. apply HsT. pose proof (Forall_lookup_1 _ _ _ _ M5 Hi) as Hs'. apply sig_inj in E; [|done|done]. subst s'. by eapply list_elem_of_lookup_2.
      * apply list_lookup_singleton_Some in Hi as [Hi _]. lia.
    + rewrite M6. split; intros (i & s' & -> & Hi & ->); exists i, s'; (split; [done|]); (split; [|done]); [by apply lookup_app_l_Some|]. apply lookup_app_Some in Hi as [Hi|[Hge Hi]]; [done|]. apply list_lookup_singleton_Some in Hi as [_ <-]. done.
  - rewrite <- Permutation_middle. by apply NoDup_cons.
  - intros z. rewrite <- Permutation_middle, elem_of_cons. intros [->|Hz]; [exists s; split; [apply elem_of_app; right; by left|done]|]. destruct (M8 z Hz) as (s' & Hs' & ->). exists s'. split; [apply elem_of_app; by left|done].
  - rewrite !length_app. cbn [length]. lia.
  - rewrite !length_app in *. cbn [length] in *. lia.
  - intros i s' [Hi|[Hge Hi]]%lookup_app_Some.
    + destruct (M11 i s' Hi) as (node' & Hn & HN). exists node'. split; [by apply lookup_app_l_Some|]. eapply (NodeFor_grow d _ T [s] (p ++ m_unprocessedNodes m) _ s' node' acts [] []); cbn; try (by rewrite ?app_nil_r).
      rewrite !elem_of_app, elem_of_cons. split; [intros [?|[E|?]]; [by left| |by right]|tauto]. exfalso. apply HsT. pose proof (Forall_lookup_1 _ _ _ _ M5 Hi) as Hs'. apply sig_inj in E; [|done|done]. subst s'. by eapply list_elem_of_lookup_2.
    + apply list_lookup_singleton_Some in Hi as [Hi <-]. exists node. split; [apply list_lookup_middle; lia|]. split; cbn [node DFA.m_flags DFA.m_actionsStart DFA.m_actionsLength DFA.m_transitionsStart DFA.m_transitionsLength DFA.dfa_actions]; try done.
      * exists acts. split; [|done]. unfold DFA.actions. cbn [DFA.dfa_actions DFA.m_actionsStart DFA.m_actionsLength]. rewrite slice_seqZ by done. apply mapM_appended.
      * intros Hout. exfalso. apply Hout, elem_of_app. right. left.
  - by eapply (Slices_new d n _ acts).
Qed.

Lemma combinedNode_spec T m p n s : MInv T m p n -> okPair s ->
  exists m' k more, getOrCreateCombinedNode actionOrder a b (sig s) m = Some (m', Z.of_nat k) /\ MInv (T ++ more) m' p n /\ (T ++ more) !! k = Some s
    /\ length (m_unprocessedNodes m') = (length more + length (m_unprocessedNodes m))%nat
    /\ DFA.transitionRanges (m_output m') = DFA.transitionRanges (m_output m) /\ DFA.transitionDestinations (m_output m') = DFA.transitionDestinations (m_output m) /\ (more = [] \/ more = [s]).
Proof using Ha Hb order_ok P_pairs P_transitions P_actions U_size.
  intros HM Hs. unfold getOrCreateCombinedNode. destruct (m_nodeMapping m !! sig s) as [k|] eqn:Ek.
  - apply (mi_mapping _ _ _ _ HM) in Ek as (i & s' & -> & Hi & E). assert (s = s') as <- by (apply sig_inj; [done| |done]; by eapply Forall_lookup_1; [apply (mi_pairs _ _ _ _ HM)|]). exists m, i, []. rewrite app_nil_r. split_and!; try done. by left.
  - destruct (pairSet_spec s Hs) as (acts & Eacts & Hacts & Hlen). destruct (MInv_new T m p n s (actionOrder acts) HM Hs Ek Hacts Hlen) as [Hbound HM']. cbn zeta in HM'. rewrite length_app in Hbound. cbn [length] in Hbound.
    pose proof (mi_length _ _ _ _ HM) as HL. pose proof (mi_actions _ _ _ _ HM) as HA. destruct (addActions a (extractIndexA (sig s)) ∅) as [acts1|]; [|done]. cbn [mbind option_bind] in Eacts |- *. rewrite Eacts. cbn [mbind option_bind].
    assert (Z.of_nat (length (DFA.dfa_actions (m_output m)) + length (actionOrder acts)) < 2 ^ 32) as Hfit by nia. rewrite length_app, !u32_id by lia.
    replace (Z.of_nat (length (DFA.dfa_actions (m_output m)) + length (actionOrder acts)) - Z.of_nat (length (DFA.dfa_actions (m_output m)))) with (Z.of_nat (length (actionOrder acts))) by lia. rewrite Z.mod_small by lia.
    unfold DFA.setActions. cbn [DFA.m_actionsStart DFA.m_actionsLength DFA.m_transitionsStart DFA.m_transitionsLength DFA.m_flags]. rewrite !option_guard_True by done. cbn [mbind option_bind].
    eexists _, (length (DFA.nodes (m_output m))), [s]. split; [reflexivity|]. split; [exact HM'|]. rewrite HL. rewrite list_lookup_middle by done. split_and!; try done. by right.
Qed.

(** *** The ranges of a pair become transitions *)

Lemma MInv_append T m p n r t : MInv T m p n ->
  MInv T (mkMerger (DFA.mkDFA (DFA.nodes (m_output m)) (DFA.dfa_actions (m_output m)) (DFA.transitionRanges (m_output m) ++ [r]) (DFA.transitionDestinations (m_output m) ++ [t]) (DFA.root (m_output m)))
            (m_nodeMapping m) (m_unprocessedNodes m)) p n.
Proof.
  intros [M1 M2 M3 M4 M5 M6 M7 M8 M9 M10 M11 M12]. split; cbn [m_output m_nodeMapping m_unprocessedNodes DFA.root DFA.nodes DFA.dfa_actions DFA.transitionRanges DFA.transitionDestinations]; try done.
  - rewrite !length_app. cbn. by rewrite M3.
  - intros i s Hi. destruct (M11 i s Hi) as (node & Hn & HN). exists node. split; [done|]. rewrite <- (app_nil_r T). eapply (NodeFor_grow (m_output m) _ T [] _ _ s node [] [r] [t]); cbn; try done. by rewrite app_nil_r.
  - by apply (Slices_arrays (m_output m)).
Qed.

Definition charRange (r : MutableRange Z) : DFA.CharRange := DFA.mkCharRange (first r) (last r).

(** The node that a range leads to. *)
Definition targetOf (T : list Pair) (r : MutableRange Z) (k : Z) : Prop := exists i s, k = Z.of_nat i /\ T !! i = Some s /\ data r = sig s.

Lemma mergeTransitions_spec l : forall T m p n, MInv T m p n -> Forall (fun r => exists s, okPair s /\ data r = sig s) l ->
  exists m' more ds, addTransitions actionOrder a b l m = Some m' /\ MInv (T ++ more) m' p n /\ length (m_unprocessedNodes m') = (length more + length (m_unprocessedNodes m))%nat
    /\ DFA.transitionRanges (m_output m') = DFA.transitionRanges (m_output m) ++ (charRange <$> l)
    /\ DFA.transitionDestinations (m_output m') = DFA.transitionDestinations (m_output m) ++ ds /\ Forall2 (targetOf (T ++ more)) l ds.
Proof using Ha Hb order_ok P_pairs P_transitions P_actions U_size.
  induction l as [|r l IH]; intros T m p n HM Hl; cbn [addTransitions].
  - exists m, [], []. cbn. rewrite !app_nil_r. done.
  - apply Forall_cons in Hl as [(s & Hs & Er) Hl]. rewrite Er. destruct (combinedNode_spec T m p n s HM Hs) as (m1 & k & more1 & E1 & HM1 & Hk & Hu1 & Er1 & Ed1 & _). rewrite E1. cbn [mbind option_bind].
    destruct (IH _ _ _ _ (MInv_append _ _ _ _ (charRange r) (Z.of_nat k) HM1) Hl) as (m2 & more2 & ds & E2 & HM2 & Hu2 & Er2 & Ed2 & Hds). unfold charRange in *. rewrite E2. rewrite <- app_assoc in *.
    exists m2, (more1 ++ more2), (Z.of_nat k :: ds). cbn [m_output m_unprocessedNodes DFA.transitionRanges DFA.transitionDestinations] in *. split_and!; try done.
    + rewrite Hu2, Hu1, length_app. lia.
    + rewrite Er2, Er1. by rewrite <- app_assoc.
    + rewrite Ed2, Ed1. by rewrite <- app_assoc.
    + constructor; [|done]. exists k, s. split_and!; try done. rewrite app_assoc. by apply lookup_app_l_Some.
Qed.

Lemma goes_targets T l ds x : Forall2 (targetOf T) l ds ->
  match find x (view <$> l), goes (zip (charRange <$> l) ds) x with
  | Some z, Some k => exists i s, k = Z.of_nat i /\ T !! i = Some s /\ z = sig s
  | None, None => True
  | _, _ => False
  end.
Proof.
  induction 1 as [|r k l ds Ht Hl IH]; cbn [fmap list_fmap zip zip_with find goes]; [done|]. unfold inSpan, inRange, view at 1, charRange at 1. cbn [lo hi val DFA.first DFA.last view charRange].
  destruct ((first r <=? x) && (x <=? last r)); [exact Ht|exact IH].
Qed.

Lemma targets_ordered T l : forall ds y, -1 <= y -> ordered y (view <$> l) -> Forall2 (targetOf T) l ds -> Z.of_nat (length T) < DFABytecodeCompiler.noDestination ->
  okTransitions (zip (charRange <$> l) ds) /\ Forall (fun t => y < DFA.first t.1) (zip (charRange <$> l) ds).
Proof.
  clear. induction l as [|r l IH]; intros ds y Hy Ho Hds Hlt; [by repeat constructor|]. inversion Hds as [|? k ? ds' (i & s & -> & Hk & _) Hds']; subst.
  destruct Ho as (H1 & H2 & H3). cbn [view lo hi] in *. destruct (IH ds' (last r) ltac:(lia) H3 Hds' Hlt) as [[H4 H5] H6].
  cbn [fmap list_fmap zip zip_with]. apply lookup_lt_Some in Hk. split; [split|]; constructor; try done.
  - unfold okTransition, charRange. cbn. lia.
  - eapply Forall_impl; [exact H6|]. unfold charRange. cbn. lia.
Qed.

(** *** One pair *)

Lemma ranges_pairs s l : okPair s -> ordered (-1) (view <$> l) -> (forall x, find x (view <$> l) = sig <$> pairMove s x) -> Forall (fun r => exists s', okPair s' /\ data r = sig s') l.
Proof using Ha Hb P.
  intros Hs Ho Hf. apply Forall_forall. intros r Hr. assert (view r ∈ view <$> l) as Hv by (by apply list_elem_of_fmap_2). pose proof (ordered_bounds _ _ Ho) as HF. rewrite Forall_forall in HF. specialize (HF _ Hv). cbn in HF.
  pose proof (find_elem (first r) (-1) _ _ Ho Hv ltac:(cbn; lia)) as E. rewrite Hf in E. destruct (pairMove s (first r)) as [s'|] eqn:Es; [|done]. cbn in E. injection E as E. exists s'. split; [by eapply pairMove_ok|done].
Qed.

(** The node that was processed gets its transitions. *)
Lemma MInv_finish T m k s l ds node n :
  MInv T m [sig s] n -> T !! k = Some s -> DFA.nodes (m_output m) !! k = Some node -> NodeFor (m_output m) T ([sig s] ++ m_unprocessedNodes m) s node ->
  ordered (-1) (view <$> l) -> (forall x, find x (view <$> l) = sig <$> pairMove s x) -> Forall2 (targetOf T) l ds ->
  (exists R D, length R = n /\ length D = n /\ DFA.transitionRanges (m_output m) = R ++ (charRange <$> l) /\ DFA.transitionDestinations (m_output m) = D ++ ds) ->
  let node' := DFA.mkNode (DFA.m_actionsStart node) (Z.of_nat n) (DFA.m_actionsLength node) (Z.of_nat (length l)) (DFA.m_flags node) in
  MInv T (mkMerger (DFA.mkDFA (<[k := node']> (DFA.nodes (m_output m))) (DFA.dfa_actions (m_output m)) (DFA.transitionRanges (m_output m)) (DFA.transitionDestinations (m_output m)) (DFA.root (m_output m)))
            (m_nodeMapping m) (m_unprocessedNodes m)) [] (n + length l).
Proof using Ha Hb P_pairs P_transitions.
  intros HM Hk Hn HN Ho Hf Hds (R & D & HR & HD & ER & ED) node'. pose proof (MInv_bound _ _ _ _ HM) as Hbound. pose proof (mi_transitions _ _ _ _ HM) as Ht. rewrite length_app in Ht. cbn [length] in Ht.
  pose proof (ordered_length _ _ Ho ltac:(lia)) as Hl. rewrite length_fmap in Hl. pose proof (Forall2_length _ _ _ Hds) as Hlds. pose proof (Forall_lookup_1 _ _ _ _ (mi_pairs _ _ _ _ HM) Hk) as Hs.
  destruct HM as [M1 M2 M3 M4 M5 M6 M7 M8 M9 M10 M11 M12]. cbn [app] in M7. apply NoDup_cons in M7 as [Hks M7].
  assert (okSlice (Z.of_nat n) (Z.of_nat (length l))) as Hslice by (unfold okSlice; lia).
  split; cbn [m_output m_nodeMapping m_unprocessedNodes DFA.root DFA.nodes DFA.dfa_actions DFA.transitionRanges DFA.transitionDestinations app]; try done.
  - by rewrite length_insert.
  - intros z Hz. apply M8. by right.
  - lia.
  - intros i s1 Hi. destruct (decide (i = k)) as [->|Hik].
    + rewrite Hk in Hi. injection Hi as <-. exists node'. split; [apply list_lookup_insert_eq; by eapply lookup_lt_Some|]. destruct HN as [N1 (acts & N2 & N3) N6 N7]. split; cbn [node' DFA.m_flags DFA.m_actionsStart DFA.m_actionsLength DFA.m_transitionsStart DFA.m_transitionsLength]; try done.
      * by exists acts.
      * intros _. exists (zip (charRange <$> l) ds). split_and!.
        -- unfold DFA.transitions. cbn [node' DFA.m_transitionsStart DFA.m_transitionsLength DFA.transitionRanges DFA.transitionDestinations]. rewrite slice_seqZ by done. rewrite ER, ED, <- HR, <- (length_fmap charRange l). apply mapM_appended2; [congruence|by rewrite length_fmap].
        -- apply (targets_ordered T l ds (-1)); [done..|]. unfold DFABytecodeCompiler.noDestination. lia.
        -- intros x. specialize (Hf x). pose proof (goes_targets T l ds x Hds) as Hg. rewrite Hf in Hg. destruct (pairMove s x) as [s'|] eqn:Es, (goes _ x) as [z|]; cbn in Hg; try done. destruct Hg as (q & sq & -> & Hq & E). rewrite Nat2Z.id.
           apply sig_inj in E; [by subst|by eapply pairMove_ok|by eapply Forall_lookup_1].
    + destruct (M11 i s1 Hi) as (node1 & Hi1 & HN1). exists node1. split; [by rewrite list_lookup_insert_ne|]. assert (NodeFor (m_output m) T (m_unprocessedNodes m) s1 node1) as HN2.
      { rewrite <- (app_nil_r T). eapply (NodeFor_grow (m_output m) _ T [] ([sig s] ++ m_unprocessedNodes m) _ s1 node1 [] [] []); try (by rewrite app_nil_r); [|done]. cbn [app]. rewrite elem_of_cons. split; [by right|]. intros [E|?]; [|done].
        exfalso. apply Hik. apply sig_inj in E; [|by eapply Forall_lookup_1|done]. subst s1. exact (NoDup_lookup T i k s M4 Hi Hk). }
      by destruct HN2.
  - eapply (Slices_finish (m_output m) n _ k node); [done|reflexivity|done|lia|done].
Qed.

Lemma processNode_spec T m s : MInv T m [sig s] (length (DFA.transitionRanges (m_output m))) -> s ∈ T ->
  exists m' more, processNode actionOrder a b (sig s) m = Some m' /\ MInv (T ++ more) m' [] (length (DFA.transitionRanges (m_output m'))) /\ length (m_unprocessedNodes m') = (length more + length (m_unprocessedNodes m))%nat.
Proof using Ha Hb order_ok P_pairs P_transitions P_actions U_size.
  intros HM Hin. pose proof (mi_pairs _ _ _ _ HM) as HF. rewrite Forall_forall in HF. pose proof (HF s Hin) as Hs. destruct (combined_spec s Hs) as (rs & l & Ers & El & Ho & Hf). unfold processNode.
  destruct (extendTransitions A a (extractIndexA (sig s)) []) as [rs1|]; [|done]. cbn [mbind option_bind] in Ers |- *. rewrite Ers. cbn [mbind option_bind]. rewrite El. cbn [mbind option_bind].
  destruct (mergeTransitions_spec l T m _ _ HM (ranges_pairs s l Hs Ho Hf)) as (m1 & more & ds & -> & HM1 & Hu & Er & Ed & Hds). cbn [mbind option_bind].
  pose proof (MInv_bound _ _ _ _ HM1) as Hbound. pose proof (mi_transitions _ _ _ _ HM1) as Ht. rewrite length_app in Ht. cbn [length] in Ht. pose proof (ordered_length _ _ Ho ltac:(lia)) as Hl. rewrite length_fmap in Hl. pose proof (mi_arrays _ _ _ _ HM) as Harr.
  set (n := length (DFA.transitionRanges (m_output m))) in *. rewrite Er, length_app, length_fmap. fold n. rewrite !(u32_id (Z.of_nat _)) by lia. replace (Z.of_nat (n + length l) - Z.of_nat n) with (Z.of_nat (length l)) by lia. rewrite u32_id by lia.
  apply list_elem_of_lookup in Hin as [k Hk]. assert ((T ++ more) !! k = Some s) as Hk1 by (by apply lookup_app_l_Some). assert (m_nodeMapping m1 !! sig s = Some (Z.of_nat k)) as Emap by (apply (mi_mapping _ _ _ _ HM1); by exists k, s). rewrite Emap. cbn [default id].
  destruct (mi_nodes _ _ _ _ HM1 k s Hk1) as (node & Hn & HN). rewrite at_nat, Hn. cbn [mbind option_bind]. unfold DFA.setTransitions. destruct (nf_pending _ _ _ _ _ HN ltac:(left)) as [-> ->]. rewrite !option_guard_True by done. cbn [mbind option_bind].
  rewrite Nat2Z.id, !(Z.mod_small (Z.of_nat (length l))) by lia. eexists _, more. split; [reflexivity|]. split; [|exact Hu]. cbn [m_output DFA.transitionRanges].
  pose proof (MInv_finish (T ++ more) m1 k s l ds node n HM1 Hk1 Hn HN Ho Hf Hds) as Hfin. cbn zeta in Hfin. rewrite length_app, length_fmap. fold n. rewrite Er in Hfin. apply Hfin. by exists (DFA.transitionRanges (m_output m)), (DFA.transitionDestinations (m_output m)).
Qed.

(** *** The loop *)

Lemma processNodes_spec fuel : forall T m, MInv T m [] (length (DFA.transitionRanges (m_output m))) -> (length P - length T + length (m_unprocessedNodes m) <= fuel)%nat ->
  exists m' more, processNodes actionOrder a b fuel m = Some m' /\ MInv (T ++ more) m' [] (length (DFA.transitionRanges (m_output m'))) /\ m_unprocessedNodes m' = [].
Proof using Ha Hb order_ok P_pairs P_transitions P_actions U_size.
  induction fuel as [|fuel IH]; intros T m HM Hfuel.
  - destruct (m_unprocessedNodes m) as [|z rest] eqn:E; [|cbn in Hfuel; lia]. cbn [processNodes]. rewrite E. exists m, []. by rewrite app_nil_r.
  - cbn [processNodes]. destruct (m_unprocessedNodes m) as [|z rest] eqn:E; [exists m, []; by rewrite app_nil_r|]. destruct (mi_queue _ _ _ _ HM z) as (s & Hs & ->); [rewrite E; left|].
    assert (MInv T (mkMerger (m_output m) (m_nodeMapping m) rest) [sig s] (length (DFA.transitionRanges (m_output m)))) as HM0 by (destruct HM; rewrite E in *; by split).
    destruct (processNode_spec T _ s HM0 Hs) as (m1 & more & -> & HM1 & Hu). cbn [mbind option_bind m_unprocessedNodes] in *. pose proof (MInv_bound _ _ _ _ HM1) as Hb1. rewrite length_app in Hb1.
    destruct (IH _ _ HM1) as (m2 & more2 & -> & HM2 & Hu2); [rewrite length_app, Hu; cbn [length] in Hfuel; lia|]. exists m2, (more ++ more2). rewrite app_assoc. done.
Qed.

(** ** The merged automaton *)

(** Node [i] is the pair [T !! i]. *)
Record ProductOf (c : DFA.DFA) (T : list Pair) : Prop := {
  pd_root : DFA.root c = 0;
  pd_start : T !! 0%nat = Some (Some (DFA.root a), Some (DFA.root b));
  pd_length : length (DFA.nodes c) = length T;
  pd_bound : (length T <= length P)%nat;
  pd_pairs : Forall okPair T;
  pd_node : forall i s, T !! i = Some s -> exists node, DFA.nodes c !! i = Some node /\ NodeFor c T [] s node;
  pd_slices : Slices c (length (DFA.transitionRanges c)) }.

Lemma roots_ok : okPair (Some (DFA.root a), Some (DFA.root b)).
Proof using Ha Hb. split; cbn; [apply (in_root _ _ _ Ha)|apply (in_root _ _ _ Hb)]. Qed.

Lemma MInv_start : MInv [] (mkMerger (DFA.mkDFA [] [] [] [] 0) ∅ []) [] 0.
Proof.
  split; cbn; try done; try (by constructor); try lia.
  - intros z k. rewrite lookup_empty. split; [done|]. intros (i & s & _ & Hi & _). done.
  - intros z Hz. by apply not_elem_of_nil in Hz.
Qed.

Lemma merge_product : (length P <= S (length (DFA.nodes a)) * S (length (DFA.nodes b)))%nat -> exists c T, merge actionOrder a b = Some c /\ ProductOf c T.
Proof using Ha Hb order_ok P_pairs P_transitions P_actions U_size.
  intros Hfuel. unfold merge. rewrite signature_encode by (first [apply (alive_index U L a _ Ha), (in_root _ _ _ Ha)|apply (alive_index U L b _ Hb), (in_root _ _ _ Hb)]). change (encode (Some (DFA.root a)) (Some (DFA.root b))) with (sig (Some (DFA.root a), Some (DFA.root b))).
  destruct (combinedNode_spec [] _ [] 0 _ MInv_start roots_ok) as (m & k & more & -> & HM & Hk & Hu & Er & _ & Hmore). cbn [mbind option_bind]. destruct Hmore as [Hm | Hm]; subst more; [done|]. cbn [app m_unprocessedNodes m_output DFA.transitionRanges length] in *.
  destruct (processNodes_spec (S (length (DFA.nodes a)) * S (length (DFA.nodes b))) [(Some (DFA.root a), Some (DFA.root b))] m) as (m' & more & -> & HM' & Hu').
  - by rewrite Er.
  - rewrite Hu. cbn [length]. pose proof (MInv_bound _ _ _ _ HM) as Hone. cbn [length] in Hone. lia.
  - cbn [mbind option_bind]. exists (m_output m'), ([(Some (DFA.root a), Some (DFA.root b))] ++ more). split; [done|]. pose proof (MInv_bound _ _ _ _ HM') as Hbound. destruct HM' as [M1 M2 M3 M4 M5 M6 M7 M8 M9 M10 M11 M12]. rewrite Hu' in M11. by split.
Qed.

Section Result.

Context (c : DFA.DFA) (T : list Pair).
Hypothesis HP : ProductOf c T.

Lemma product_parts i s : T !! i = Some s -> exists node acts ts, DFA.nodes c !! i = Some node /\ DFA.isKilled node = false /\ DFA.actions node c = Some acts /\ actionsOf c (Z.of_nat i) = acts
  /\ (forall x, x ∈ acts <-> pairActs s x) /\ DFA.transitions node c = Some ts /\ okTransitions ts /\ (forall x, delta c (Z.of_nat i) x = goes ts x)
  /\ forall x, match delta c (Z.of_nat i) x, pairMove s x with Some k, Some s' => exists j, k = Z.of_nat j /\ T !! j = Some s' | None, None => True | _, _ => False end.
Proof using HP.
  intros Hi. destruct (pd_node _ _ HP i s Hi) as (node & Hn & [N1 (acts & N2 & N3) N6 N7]). destruct N7 as (ts & Et & Hts & Hg); [apply not_elem_of_nil|]. exists node, acts, ts.
  assert (forall x, delta c (Z.of_nat i) x = goes ts x) as Hd. { intros x. unfold delta, DFABytecodeCompiler.at_. rewrite at_nat, Hn. cbn [mbind option_bind]. by rewrite Et. }
  split_and!; try done.
  - unfold DFA.isKilled. by rewrite N1.
  - unfold actionsOf, DFABytecodeCompiler.at_. rewrite at_nat, Hn. cbn [mbind option_bind]. by rewrite N2.
  - intros x. rewrite Hd. specialize (Hg x). destruct (goes ts x) as [k|] eqn:Ek, (pairMove s x); try done. exists (Z.to_nat k). split; [|done]. destruct (goes_target ts x k Ek) as (r & Hr & _). destruct Hts as [HF _]. rewrite Forall_forall in HF. apply HF in Hr. unfold okTransition in Hr. cbn in Hr. clear - Hr. lia.
Qed.

Lemma product_target i s r t node ts : T !! i = Some s -> DFA.nodes c !! i = Some node -> DFA.transitions node c = Some ts -> (r, t) ∈ ts -> exists j, t = Z.of_nat j /\ is_Some (T !! j).
Proof using HP.
  intros Hi Hn Et Hr. destruct (product_parts i s Hi) as (node' & _ & ts' & Hn' & _ & _ & _ & _ & Et' & Hts & Hd & Hm). rewrite Hn in Hn'. injection Hn' as <-. rewrite Et in Et'. injection Et' as <-. specialize (Hm (DFA.first r)). rewrite Hd, (goes_elem ts r t Hts Hr) in Hm.
  destruct (pairMove s (DFA.first r)) as [s'|]; [|done]. destruct Hm as (j & -> & Hj). by exists j.
Qed.

Lemma product_alive i : is_Some (T !! i) -> alive c (Z.of_nat i).
Proof using HP. intros [s Hs]. destruct (product_parts i s Hs) as (node & _ & _ & Hn & Hk & _). exists node. unfold DFABytecodeCompiler.at_. by rewrite at_nat. Qed.

Lemma product_lookup i node : DFA.nodes c !! i = Some node -> is_Some (T !! i).
Proof using HP. intros H%lookup_lt_Some. apply lookup_lt_is_Some_2. by rewrite <- (pd_length _ _ HP). Qed.

Lemma product_input : okInput U L c.
Proof using Ha Hb HP P_transitions.
  pose proof (pd_pairs _ _ HP) as HF. split.
  - rewrite (pd_root _ _ HP). apply (product_alive 0). rewrite (pd_start _ _ HP). by eexists.
  - intros i node Hat _. pose proof (at_lt _ _ _ Hat) as Hlt. replace i with (Z.of_nat (Z.to_nat i)) in Hat by lia. rewrite at_nat in Hat. destruct (product_lookup _ _ Hat) as [s Hs]. destruct (product_parts _ s Hs) as (node' & acts & ts & Hn & _ & Eacts & _ & Hacts & Et & Hts & _).
    rewrite Hat in Hn. injection Hn as <-. exists acts, ts. split_and!; try done.
    + intros x Hx%Hacts. eapply pairActs_U; [|exact Hx]. by eapply Forall_lookup_1.
    + intros r t Hr. destruct (product_target _ s r t node ts Hs Hat Et Hr) as (j & -> & Hj). by apply product_alive.
  - intros i x m (node & Hat & _) Hd. pose proof (at_lt _ _ _ Hat) as Hlt. unfold DFABytecodeCompiler.at_ in Hat. replace i with (Z.of_nat (Z.to_nat i)) in Hat, Hd by lia. rewrite at_nat in Hat. destruct (product_lookup _ _ Hat) as [s Hs].
    destruct (product_parts _ s Hs) as (_ & _ & _ & _ & _ & _ & _ & _ & _ & _ & _ & Hm). specialize (Hm x). rewrite Hd in Hm. destruct (pairMove s x) as [s'|] eqn:Es; [|done]. eapply (pairMove_label s); [|exact Es]. by eapply Forall_lookup_1.
  - intros i node Hat _. pose proof (at_lt _ _ _ Hat) as Hlt. replace i with (Z.of_nat (Z.to_nat i)) in Hat by lia. rewrite at_nat in Hat. by apply (sl_actions _ _ (pd_slices _ _ HP) _ _ Hat).
  - rewrite (pd_length _ _ HP). pose proof (pd_bound _ _ HP). unfold invalidNodeIndex. lia.
Qed.

Lemma product_minimize x k : delta c (DFA.root c) x = Some k -> okMinimize c.
Proof using HP.
  intros Hk. split.
  - rewrite (pd_root _ _ HP), (pd_length _ _ HP). pose proof (lookup_lt_Some _ _ _ (pd_start _ _ HP)) as Hl. clear - Hl. lia.
  - intros i node Hn. destruct (product_lookup _ _ Hn) as [s Hs]. destruct (product_parts _ s Hs) as (node' & acts & ts & Hn' & Hkill & Eacts & _ & _ & Et & Hts & _). rewrite Hn in Hn'. injection Hn' as <-.
    split_and!; [done|by apply (sl_actions _ _ (pd_slices _ _ HP) i)|by apply (sl_transitions _ _ (pd_slices _ _ HP) i)|]. exists acts, ts. split_and!; try done. intros r t Hr. destruct (product_target _ s r t node ts Hs Hn Et Hr) as (j & -> & Hj%lookup_lt_is_Some_1). rewrite (pd_length _ _ HP). clear - Hj. lia.
  - rewrite (pd_root _ _ HP) in Hk. destruct (product_parts 0 _ (pd_start _ _ HP)) as (node & acts & ts & Hn & _ & _ & _ & _ & Et & _ & Hd & _). exists 0%nat, node, ts. split_and!; try done. intros ->. change 0 with (Z.of_nat 0) in Hk. rewrite Hd in Hk. done.
  - apply (sl_disjoint _ _ (pd_slices _ _ HP)).
Qed.

(** A word leads to the pair of the nodes it leads to. *)
Definition walkPart (d : DFA.DFA) (o : option Z) (w : list Z) : option Z := i ← o; walk d i w.

Lemma product_walk w : forall i oa ob, T !! i = Some (oa, ob) -> is_Some oa \/ is_Some ob ->
  match walk c (Z.of_nat i) w with
  | Some k => exists j oa' ob', k = Z.of_nat j /\ T !! j = Some (oa', ob') /\ walkPart a oa w = oa' /\ walkPart b ob w = ob' /\ (is_Some oa' \/ is_Some ob')
  | None => walkPart a oa w = None /\ walkPart b ob w = None
  end.
Proof using HP.
  induction w as [|x w IH]; intros i oa ob Hi Hsome; cbn [walk].
  - exists i, oa, ob. split_and!; try done; [by destruct oa|by destruct ob].
  - destruct (product_parts i _ Hi) as (_ & _ & _ & _ & _ & _ & _ & _ & _ & _ & _ & Hm). specialize (Hm x). assert (forall d o, walkPart d o (x :: w) = walkPart d (move d o x) w) as Hpart by (by intros d [i'|]).
    rewrite !Hpart. unfold pairMove in Hm. cbn [fst snd] in Hm. destruct (delta c (Z.of_nat i) x) as [k|]; cbn [mbind option_bind].
    + destruct (move a oa x) as [ia|], (move b ob x) as [ib|]; try done; destruct Hm as (j & -> & Hj); apply (IH j _ _ Hj); eauto.
    + by destruct (move a oa x), (move b ob x).
Qed.

End Result.

End Product.

(** ** What merging two automata gives *)

(** The word leads to a node with the action. *)
Definition finds (d : DFA.DFA) (w : list Z) (x : Z) : Prop := exists n, walk d (DFA.root d) w = Some n /\ x ∈ actionsOf d n.

Definition hasStep (d : DFA.DFA) : Prop := exists x k, delta d (DFA.root d) x = Some k.

Definition liveSize (d : DFA.DFA) : nat := length (filter (fun node => DFA.isKilled node = false) (DFA.nodes d)).

(** The indices of the nodes that are not killed. *)
Fixpoint liveFrom (k : nat) (nodes : list DFA.DFANode) : list Z :=
  match nodes with [] => [] | node :: nodes => if DFA.isKilled node then liveFrom (S k) nodes else Z.of_nat k :: liveFrom (S k) nodes end.

Lemma length_liveFrom nodes : forall k, length (liveFrom k nodes) = length (filter (fun node => DFA.isKilled node = false) nodes).
Proof. induction nodes as [|node nodes IH]; intros k; cbn [liveFrom]; [done|]. rewrite filter_cons. destruct (DFA.isKilled node); cbn; by rewrite IH. Qed.

Lemma elem_liveFrom nodes : forall k i node, nodes !! i = Some node -> DFA.isKilled node = false -> Z.of_nat (k + i) ∈ liveFrom k nodes.
Proof.
  induction nodes as [|node0 nodes IH]; intros k [|i] node Hi Hk; cbn in Hi |- *; try done.
  - injection Hi as ->. rewrite Hk, Nat.add_0_r. left.
  - specialize (IH (S k) i node Hi Hk). replace (S k + i)%nat with (k + S i)%nat in IH by lia. destruct (DFA.isKilled node0); [done|by right].
Qed.

(** A node that is not killed, or none. *)
Definition halves (d : DFA.DFA) : list (option Z) := None :: (Some <$> liveFrom 0 (DFA.nodes d)).

Lemma elem_halves d o : okPart d o -> o ∈ halves d.
Proof.
  destruct o as [i|]; cbn; [|left]. intros (node & Hat & Hk). pose proof (at_lt _ _ _ Hat) as Hlt. right. apply list_elem_of_fmap_2. replace i with (Z.of_nat (0 + Z.to_nat i)) by lia. apply (elem_liveFrom _ 0 _ node); [|done].
  unfold DFABytecodeCompiler.at_, DFA.at_ in Hat. by rewrite (proj2 (Z.ltb_ge _ _)) in Hat by lia.
Qed.

Lemma length_halves d : length (halves d) = S (liveSize d).
Proof. cbn. by rewrite length_fmap, length_liveFrom. Qed.

Lemma liveSize_le d : (liveSize d <= length (DFA.nodes d))%nat.
Proof. apply length_filter. Qed.

Section Merge.

Context (U : gset Z) (L : Z -> Prop) (actionOrder : gset Z -> list Z) (a b : DFA.DFA).
Hypothesis order_ok : forall s, actionOrder s ≡ₚ elements s.
Hypothesis Ha : okInput U L a.
Hypothesis Hb : okInput U L b.
Hypothesis U_size : Z.of_nat (size U) < 2 ^ 16.
Hypothesis small : Z.of_nat (S (liveSize a) * S (liveSize b)) * Z.max 128 (Z.of_nat (size U)) < 2 ^ 32.

Lemma merge_parts : exists c T, merge actionOrder a b = Some c /\ ProductOf a b (list_prod (halves a) (halves b)) c T /\ okInput U L c.
Proof using order_ok Ha Hb U_size small.
  set (P := list_prod (halves a) (halves b)). assert (length P = S (liveSize a) * S (liveSize b))%nat as HL by (unfold P; by rewrite length_prod, !length_halves). pose proof (liveSize_le a). pose proof (liveSize_le b).
  assert (Z.of_nat (length P) * 128 < 2 ^ 32) as HT by nia. destruct (merge_product U L a b actionOrder Ha Hb order_ok P) as (c & T & E & HP); [|done|nia|done|nia|].
  - intros [oa ob] [H1 H2]. apply list_elem_of_In, in_prod; apply list_elem_of_In; by apply elem_halves.
  - exists c, T. split_and!; try done. exact (product_input U L a b Ha Hb P HT c T HP).
Qed.

Lemma merge_spec : exists c, merge actionOrder a b = Some c /\ okInput U L c /\ (hasStep a -> okMinimize c /\ hasStep c)
  /\ (forall w x, finds c w x <-> finds a w x \/ finds b w x) /\ forall w, walk c (DFA.root c) w = None <-> walk a (DFA.root a) w = None /\ walk b (DFA.root b) w = None.
Proof using order_ok Ha Hb U_size small.
  destruct merge_parts as (c & T & E & HP & Hin). exists c. split; [done|]. split; [done|]. pose proof (pd_root _ _ _ _ _ HP) as Hroot. pose proof (pd_start _ _ _ _ _ HP) as Hstart.
  assert (forall w, match walk c (DFA.root c) w with Some k => exists j oa ob, k = Z.of_nat j /\ T !! j = Some (oa, ob) /\ walk a (DFA.root a) w = oa /\ walk b (DFA.root b) w = ob /\ (is_Some oa \/ is_Some ob) | None => walk a (DFA.root a) w = None /\ walk b (DFA.root b) w = None end) as Hw.
  { intros w. rewrite Hroot. pose proof (product_walk _ _ _ _ _ HP w 0 _ _ Hstart ltac:(left; by eexists)) as Hw. change (Z.of_nat 0) with 0 in Hw. destruct (walk c 0 w) as [k|]; [|exact Hw]. destruct Hw as (j & oa & ob & ? & ? & ? & ? & ?). by exists j, oa, ob. }
  split; [|split].
  - intros (x & k & Hk). specialize (Hw [x]). cbn [walk] in Hw. rewrite Hk in Hw. destruct (delta c (DFA.root c) x) as [n|] eqn:En; [|by destruct Hw]. split; [by eapply product_minimize|by exists x, n].
  - intros w x. unfold finds. specialize (Hw w). destruct (walk c (DFA.root c) w) as [k|]; [|destruct Hw as [-> ->]; naive_solver]. destruct Hw as (j & oa & ob & -> & Hj & -> & -> & _).
    destruct (product_parts _ _ _ _ _ HP j _ Hj) as (_ & acts & _ & _ & _ & _ & Eacts & Hacts & _). split.
    + intros (n & [= <-] & Hx). rewrite Eacts in Hx. by apply Hacts.
    + intros Hx. exists (Z.of_nat j). split; [done|]. rewrite Eacts. by apply Hacts.
  - intros w. specialize (Hw w). destruct (walk c (DFA.root c) w) as [k|]; [|done]. split; [done|]. destruct Hw as (j & oa & ob & -> & Hj & -> & -> & Hs). intros [-> ->]. by destruct Hs as [[? ?]|[? ?]].
Qed.

End Merge.

(** ** Minimized automata can be merged again *)

Lemma finds_observe d w x : finds d w x <-> exists l, observe d (DFA.root d) w = Some l /\ x ∈ l.
Proof. unfold finds, observe. destruct (walk d (DFA.root d) w) as [n|]; cbn; naive_solver. Qed.

Lemma okTransitions_moved rho ts : okTransitions ts -> (forall r t, (r, t) ∈ ts -> 0 <= rho t < DFABytecodeCompiler.noDestination) -> okTransitions (moved rho ts).
Proof.
  intros [HF HS] Hrho. unfold moved. split.
  - apply Forall_fmap, Forall_forall. intros [r t] Hin. rewrite Forall_forall in HF. destruct (HF _ Hin) as (? & ? & _). split; [done|]. split; [done|]. by apply (Hrho r).
  - clear HF Hrho. induction HS as [|t ts HS IH HF]; cbn; constructor; [done|]. apply Forall_fmap. eapply Forall_impl; [exact HF|]. by intros [? ?] ?.
Qed.

Lemma renamed_input U L d d' rho : okInput U L d -> okMinimize d -> Renamed d d' rho -> okInput U L d'.
Proof.
  intros HI HM HR. assert (forall n, validNode d n -> alive d' (rho n)) as Hal by (intros n Hn; apply (rn_alive _ _ _ HR); by apply (rn_rho _ _ _ HR)). split.
  - rewrite (rn_root _ _ _ HR). apply Hal, (min_root _ HM).
  - intros i node Hat Hk. destruct (rn_node _ _ _ HR i node Hat Hk) as (Hat0 & Ea & ts & Et & Et'). destruct (in_node _ _ _ HI i node Hat0 Hk) as (acts & ts' & Ea0 & Et0 & Hts & HU & _). rewrite Et in Et0. injection Et0 as <-. exists acts, (moved rho ts).
    assert (forall r t, (r, t) ∈ ts -> validNode d t) as Hv. { pose proof (at_lt _ _ _ Hat0) as Hlt. unfold DFA.at_ in Hat0. rewrite (proj2 (Z.ltb_ge _ _)) in Hat0 by lia. destruct (min_node _ HM _ _ Hat0) as (_ & _ & _ & acts' & ts' & _ & Et1 & _ & Hb). rewrite Et in Et1. injection Et1 as <-. exact Hb. }
    split_and!; try done; [congruence| |].
    + apply okTransitions_moved; [done|]. intros r t Hr. destruct (rn_rho _ _ _ HR t (Hv r t Hr)) as [Hb _]. pose proof (in_size _ _ _ HI). unfold validNode, invalidNodeIndex, DFABytecodeCompiler.noDestination in *. lia.
    + intros r t ([r' t'] & [= -> ->] & Hr)%list_elem_of_fmap. by eapply Hal, Hv.
  - intros i c m [Hi Ei]%(rn_alive _ _ _ HR) Hd. destruct (renamed_actions d d' rho i HR Hi Ei) as [_ Hd']. rewrite Hd' in Hd. destruct (delta d i c) as [k|] eqn:Ek; [|done]. apply (in_labels _ _ _ HI i c k); [|done]. destruct (proj2 (rn_alive _ _ _ HR i) (conj Hi Ei)) as (node & Hat & Hk).
    exists node. split; [|done]. by apply (rn_node _ _ _ HR).
  - intros i node Hat Hk. apply (in_slice _ _ _ HI i); [|done]. by apply (rn_node _ _ _ HR).
  - rewrite (rn_length _ _ _ HR). apply (in_size _ _ _ HI).
Qed.

(** An automaton for the combiner. *)
Definition Combinable (U : gset Z) (L : Z -> Prop) (d : DFA.DFA) : Prop := okInput U L d /\ hasStep d.

Definition found (ds : list DFA.DFA) (w : list Z) (x : Z) : Prop := Exists (fun d => finds d w x) ds.

Lemma graphSize_live U L d : okInput U L d -> DFA.graphSize d = Z.of_nat (liveSize d).
Proof. intros HI. unfold DFA.graphSize. fold (liveSize d). apply u32_id. pose proof (in_size _ _ _ HI). pose proof (liveSize_le d). unfold invalidNodeIndex in *. lia. Qed.

Section Combine.

Context (U : gset Z) (L : Z -> Prop) (actionOrder : gset Z -> list Z) (stateOrder : gmap (list Z) (list nat) -> list (list nat)) (minimumSize : Z).
Hypothesis order_ok : forall s, actionOrder s ≡ₚ elements s.
Hypothesis stateOrder_ok : forall states, stateOrder states ≡ₚ (map_to_list states).*2.
Hypothesis U_size : Z.of_nat (size U) < 2 ^ 16.
Hypothesis minimum_ok : 0 <= minimumSize.
Hypothesis small : (minimumSize + 1) ^ 2 * Z.max 128 (Z.of_nat (size U)) < 2 ^ 32.

Lemma minimized_spec d : okMinimize d -> Combinable U L d -> exists d', DFAMinimizer.minimize stateOrder d = Some d' /\ Combinable U L d' /\ forall w x, finds d' w x <-> finds d w x.
Proof using stateOrder_ok.
  intros HM [HI (x & k & Hk)]. destruct (minimize_spec stateOrder d stateOrder_ok HM) as (d' & rho & E & HR & Hmg). exists d'. pose proof (min_root _ HM : validNode d (DFA.root d)) as Hroot. split; [done|]. split; [split|].
  - by eapply renamed_input.
  - exists x, (rho k). rewrite (rn_root _ _ _ HR). destruct (rn_rho _ _ _ HR _ Hroot) as [Hv Hrr]. destruct (renamed_actions d d' rho _ HR Hv Hrr) as [_ ->]. rewrite (mg_step _ _ Hmg _ x Hroot), Hk. done.
  - intros w y. rewrite !finds_observe, (rn_root _ _ _ HR), (observe_renamed d d' rho _ w HM HR Hmg Hroot). done.
Qed.

(** *** The large automata *)

Definition large (d : DFA.DFA) : Prop := minimumSize < DFA.graphSize d.

#[local] Instance large_dec d : Decision (large d) := ltac:(unfold large; apply _).

Lemma takeLarge_spec pre : forall suf handled, takeLarge minimumSize (length pre) (pre ++ suf) handled = Some (handled ++ rev (filter large pre), filter (fun d => ~ large d) pre ++ suf).
Proof.
  induction pre as [|d pre IH] using rev_ind; intros suf handled; [by rewrite app_nil_r|]. rewrite length_app, Nat.add_comm. cbn [length Nat.add takeLarge]. rewrite <- app_assoc. cbn [app].
  rewrite list_lookup_middle by done. cbn [mbind option_bind]. rewrite !filter_app, rev_app_distr, !filter_cons, !filter_nil. destruct (Z.ltb_spec minimumSize (DFA.graphSize d)) as [Hl|Hl].
  - rewrite take_app_length, drop_app_ge by lia. replace (S (length pre) - length pre)%nat with 1%nat by lia. cbn [drop]. rewrite IH. assert (large d) as Hd by done. rewrite decide_True by done. rewrite decide_False by tauto. cbn. by rewrite app_nil_r, <- !app_assoc.
  - rewrite IH. assert (~ large d) as Hn by (unfold large; lia). rewrite decide_False by done. rewrite decide_True by done. cbn. by rewrite <- app_assoc.
Qed.

Lemma elem_rev {A : Type} (l : list A) x : x ∈ rev l <-> x ∈ l.
Proof. by rewrite !list_elem_of_In, <- in_rev. Qed.

(** *** The small ones *)

Record Handled (before after : list DFA.DFA) : Prop := {
  hd_combinable : Forall (Combinable U L) after;
  hd_found : forall w x, found after w x <-> found before w x;
  hd_large : forall i d, after !! i = Some d -> (S i < length after)%nat -> large d;
  hd_length : (length after <= length before)%nat }.

Definition Small (d : DFA.DFA) : Prop := Combinable U L d /\ ~ large d.

Lemma merge_small a b : Small a -> Small b -> exists c, merge actionOrder a b = Some c /\ okMinimize c /\ Combinable U L c /\ forall w x, finds c w x <-> finds a w x \/ finds b w x.
Proof using order_ok U_size minimum_ok small.
  intros [[Ha HaS] La] [[Hb HbS] Lb]. destruct (merge_spec U L actionOrder a b order_ok Ha Hb U_size) as (c & E & HI & Hstep & Hf & _).
  - unfold large in La, Lb. rewrite (graphSize_live U L) in La, Lb by done. nia.
  - exists c. destruct (Hstep HaS). by split_and!.
Qed.

Lemma combineLoop_spec fuel : forall l, Forall Small l -> (length l <= fuel)%nat -> exists ds, combineLoop actionOrder stateOrder fuel minimumSize l = Some ds /\ Handled l ds.
Proof using order_ok stateOrder_ok U_size minimum_ok small.
  assert (forall d, Small d -> Handled [d] [d]) as Hone. { intros d [Hd _]. split; [by apply Forall_singleton|done| |done]. intros i d' Hi Hlt. cbn in Hlt. lia. }
  assert (Handled [] []) as Hnone by (by split).
  induction fuel as [|fuel IH]; intros [|a [|b l]] HF Hlen; cbn in Hlen; try lia; cbn [combineLoop]; try (exists []; split; [done|exact Hnone]); try (apply Forall_cons in HF as [HF ?%Forall_nil]; exists [a]; split; [done|exact (Hone a HF)]).
  apply Forall_cons in HF as [Sa HF]. apply Forall_cons in HF as [Sb HF]. destruct (merge_small a b Sa Sb) as (c & -> & HM & HC & Hf). cbn [mbind option_bind].
  destruct (minimized_spec c HM HC) as (c' & Ec' & HC' & Hf'). assert (exists c1, (if (minimumSize <? DFA.graphSize c) || match l with [] => true | _ => false end then DFAMinimizer.minimize stateOrder c else Some c) = Some c1 /\ Combinable U L c1 /\ forall w x, finds c1 w x <-> finds a w x \/ finds b w x) as (c1 & -> & HC1 & Hf1).
  { destruct (_ || _); [exists c'|exists c]; split_and!; try done. intros w x. by rewrite Hf', Hf. }
  cbn [mbind option_bind]. destruct (Z.ltb_spec minimumSize (DFA.graphSize c1)) as [Hl|Hl].
  - destruct (IH l HF ltac:(lia)) as (ds & -> & [H1 H2 H3 H4]). cbn [mbind option_bind]. exists (c1 :: ds). split; [done|]. split; [by constructor| | |cbn; lia].
    + intros w x. unfold found in *. rewrite !Exists_cons, H2, Hf1. tauto.
    + intros [|i] d Hi Hlt; cbn in Hi, Hlt; [by injection Hi as <-|]. apply (H3 i d Hi). lia.
  - destruct (IH (c1 :: l)) as (ds & -> & [H1 H2 H3 H4]); [|cbn; lia|].
    + constructor; [|done]. split; [done|]. unfold large. lia.
    + exists ds. split; [done|]. split; try done; [|cbn in *; lia]. intros w x. rewrite H2. unfold found. rewrite !Exists_cons, Hf1. tauto.
Qed.

Lemma combineDFAs_spec l : Forall (Combinable U L) l -> exists ds, combineDFAs actionOrder stateOrder minimumSize l = Some ds /\ Handled l ds.
Proof using order_ok stateOrder_ok U_size minimum_ok small.
  intros HF. unfold combineDFAs. pose proof (takeLarge_spec l [] []) as E. rewrite !app_nil_r in E. rewrite E. cbn [mbind option_bind app]. clear E.
  assert (forall w x, found l w x <-> found (filter large l) w x \/ found (filter (fun d => ~ large d) l) w x) as Hsplit.
  { intros w x. unfold found. rewrite !Exists_exists. setoid_rewrite list_elem_of_filter. split; [|naive_solver]. intros (d & Hd & Hx). destruct (decide (large d)); [left|right]; by exists d. }
  destruct (combineLoop_spec (length (filter (fun d => ~ large d) l)) (rev (filter (fun d => ~ large d) l))) as (ds & -> & [H1 H2 H3 H4]).
  - apply Forall_rev, Forall_forall. intros d [Hd Hin]%list_elem_of_filter. rewrite Forall_forall in HF. by split; [apply HF|].
  - by rewrite length_rev.
  - cbn [mbind option_bind]. rewrite length_rev in H4. exists (rev (filter large l) ++ ds). split; [done|]. split.
    + apply Forall_app. split; [|done]. apply Forall_rev, Forall_forall. intros d [_ Hin]%list_elem_of_filter. rewrite Forall_forall in HF. by apply HF.
    + intros w x. rewrite Hsplit. unfold found in *. rewrite Exists_app, H2. rewrite !Exists_exists. setoid_rewrite elem_rev. done.
    + intros i d [Hi|[Hge Hi]]%lookup_app_Some Hlt.
      * apply list_elem_of_lookup_2, elem_rev, list_elem_of_filter in Hi. by destruct Hi.
      * apply (H3 _ d Hi). rewrite length_app in Hlt. lia.
    + rewrite length_app, length_rev. pose proof (Permutation_length (filter_app_complement large l)) as E. rewrite length_app in E. lia.
Qed.

(** *** Adding automata *)

Lemma addDFA_spec l d : okMinimize d -> Combinable U L d -> exists d', addDFA stateOrder l d = Some (l ++ [d']) /\ Combinable U L d' /\ forall w x, finds d' w x <-> finds d w x.
Proof using stateOrder_ok.
  intros HM HC. destruct (minimized_spec d HM HC) as (d' & E & H). exists d'. unfold addDFA. rewrite E. done.
Qed.

Lemma addDFAs_spec dfas : forall l, Forall (fun d => okMinimize d /\ Combinable U L d) dfas -> Forall (Combinable U L) l ->
  exists l', DFAMinimizer.foldlM (addDFA stateOrder) l dfas = Some l' /\ Forall (Combinable U L) l' /\ length l' = (length l + length dfas)%nat /\ forall w x, found l' w x <-> found l w x \/ found dfas w x.
Proof using stateOrder_ok.
  induction dfas as [|d dfas IH]; intros l HF Hl; cbn [DFAMinimizer.foldlM].
  - exists l. split; [done|]. split; [done|]. split; [clear; cbn; lia|]. intros w x. unfold found. rewrite Exists_nil. tauto.
  - apply Forall_cons in HF as [[HM HC] HF]. destruct (addDFA_spec l d HM HC) as (d' & -> & HC' & Hf). cbn [mbind option_bind]. destruct (IH (l ++ [d']) HF) as (l' & -> & Hl' & Hlen & Hf'); [apply Forall_app; split; [done|by apply Forall_singleton]|].
    exists l'. split_and!; try done; [rewrite Hlen, length_app; clear; cbn; lia|]. intros w x. rewrite Hf'. unfold found. rewrite Exists_app, !Exists_cons, Exists_nil, Hf. tauto.
Qed.

End Combine.

(** *** What the combiner does *)

(** An automaton that can be minimized, with a transition from its root and
    actions in the set. *)
Record Prepared (U : gset Z) (d : DFA.DFA) : Prop := {
  pr_minimize : okMinimize d;
  pr_step : hasStep d;
  pr_actions : forall n x, x ∈ actionsOf d n -> x ∈ U;
  pr_size : Z.of_nat (length (DFA.nodes d)) < invalidNodeIndex }.

Lemma prepared_combinable U L d : Prepared U d -> (forall i c m, alive d i -> delta d i c = Some m -> L c) -> okMinimize d /\ Combinable U L d.
Proof.
  intros [HM Hstep HU Hsize] HL. split; [done|]. split; [|done]. assert (forall i, validNode d i -> alive d i) as Hal.
  { intros i Hi. unfold validNode in Hi. destruct (lookup_lt_is_Some_2 (DFA.nodes d) (Z.to_nat i)) as [node Hn]; [lia|]. exists node. unfold DFABytecodeCompiler.at_, DFA.at_. rewrite (proj2 (Z.ltb_ge _ _)) by lia. split; [done|]. by apply (min_node _ HM _ _ Hn). }
  split; [apply Hal, (min_root _ HM)| |done| |done].
  2:{ intros i node Hat _. pose proof (at_lt _ _ _ Hat) as Hlt. unfold DFA.at_ in Hat. rewrite (proj2 (Z.ltb_ge _ _)) in Hat by lia. by apply (min_node _ HM _ _ Hat). }
  intros i node Hat _. pose proof (at_lt _ _ _ Hat) as Hlt. pose proof Hat as Hn. unfold DFA.at_ in Hn. rewrite (proj2 (Z.ltb_ge _ _)) in Hn by lia. destruct (min_node _ HM _ _ Hn) as (_ & _ & _ & acts & ts & Ea & Et & Hts & Hb).
  exists acts, ts. split_and!; try done.
  - intros x Hx. apply (HU i). unfold actionsOf, DFABytecodeCompiler.at_. rewrite Hat. cbn [mbind option_bind]. by rewrite Ea.
  - intros r t Hr. by eapply Hal, Hb.
Qed.


(** ** An example *)

Lemma actionsOf_array d n x : x ∈ actionsOf d n -> x ∈ DFA.dfa_actions d.
Proof.
  unfold actionsOf. destruct (DFABytecodeCompiler.at_ (DFA.nodes d) n) as [node|]; cbn [mbind option_bind default]; [|by intros H%not_elem_of_nil]. destruct (DFA.actions node d) as [acts|] eqn:E; cbn [default id]; [|by intros H%not_elem_of_nil].
  intros [i Hi]%list_elem_of_lookup. apply mapM_Some in E. destruct (Forall2_lookup_r _ _ _ _ _ E Hi) as (z & _ & Hz). unfold DFA.at_ in Hz. destruct (z <? 0); [done|]. by eapply list_elem_of_lookup_2.
Qed.

(** The action [x] after the character [c], and again after each [c]. *)
Definition repeating (c x : Z) : DFA.DFA :=
  DFA.mkDFA [DFA.mkNode 0 0 0 1 0; DFA.mkNode 0 1 1 1 0] [x] [DFA.mkCharRange c c; DFA.mkCharRange c c] [1; 1] 0.

Lemma repeating_prepared U c x : okMinimizeb (repeating c x) = true -> x ∈ U -> Prepared U (repeating c x).
Proof.
  intros Hok%okMinimizeb_spec Hx. split; [done| | |done].
  - exists c, 1. transitivity (goes [(DFA.mkCharRange c c, 1)] c); [reflexivity|]. cbn [goes]. unfold inRange. cbn [DFA.first DFA.last]. by rewrite Z.leb_refl.
  - intros n y Hy%actionsOf_array. apply list_elem_of_singleton in Hy as ->. done.
Qed.

