(* ===== verification/ImmutableNFANodeBuilder.v ===== *)
(** * ImmutableNFANodeBuilder: building the nodes of an NFA

    Translated from src/Source/WebCore/contentextensions/ImmutableNFANodeBuilder.h.
    A builder is a value that is live until it is finalized: moving it passes
    the value on, and its destructor is the call of [finalize].  The orders of
    the hash sets of targets and of actions are arguments. *)

From stdpp Require Import gmap.
From S2P Require Import Prelude DFA MutableRangeList NFA.
Import MutableRangeList.

Module ImmutableNFANodeBuilder.

Record Builder := mkBuilder {
  m_ranges : list (MutableRange (gset Z));
  m_epsilonTransitionTargets : gset Z;
  m_actions : gset Z;
  m_nodeId : Z
}.

(** [ImmutableNFANode()] *)
Definition newNode : NFA.ImmutableNFANode := NFA.mkNode 0 0 0 0 0 0.

(** The constructor: a new node of the automaton. *)
Definition newBuilder (nfa : NFA.NFA) : NFA.NFA * Builder :=
  (NFA.mkNFA (NFA.nodes nfa ++ [newNode]) (NFA.transitions nfa) (NFA.targets nfa) (NFA.epsilonTransitionsTargets nfa) (NFA.actions nfa),
   mkBuilder [] ∅ ∅ (u32 (Z.of_nat (length (NFA.nodes nfa))))).

(** The converter of [addTransition]. *)
Definition convert (target : Z) : option (gset Z) := Some {[ target ]}.
Definition extendTargets (existingTargets : gset Z) (target : Z) : option (gset Z) := Some ({[ target ]} ∪ existingTargets).

(** [FakeRangeIterator]: one range. *)
Definition addTransition (first last targetNodeId : Z) (b : Builder) : option Builder :=
  ranges ← extend convert extendTargets (m_ranges b) [mkSpan first last targetNodeId];
  Some (mkBuilder ranges (m_epsilonTransitionTargets b) (m_actions b) (m_nodeId b)).

Definition addEpsilonTransition (targetNodeId : Z) (b : Builder) : Builder :=
  mkBuilder (m_ranges b) ({[ targetNodeId ]} ∪ m_epsilonTransitionTargets b) (m_actions b) (m_nodeId b).

Definition setActions (actions : list Z) (b : Builder) : Builder :=
  mkBuilder (m_ranges b) (m_epsilonTransitionTargets b) (m_actions b ∪ list_to_set actions) (m_nodeId b).

Section Finalize.

Context (targetOrder actionOrder : gset Z -> list Z).

Definition size32 {A} (l : list A) : Z := u32 (Z.of_nat (length l)).

(** [nodes[m_nodeId]] is the node that is filled in. *)
Definition sinkActions (b : Builder) (nfa : NFA.NFA) (node : NFA.ImmutableNFANode) : NFA.NFA * NFA.ImmutableNFANode :=
  let actionStart := size32 (NFA.actions nfa) in
  let actions := NFA.actions nfa ++ actionOrder (m_actions b) in
  let actionEnd := size32 actions in
  (NFA.mkNFA (NFA.nodes nfa) (NFA.transitions nfa) (NFA.targets nfa) (NFA.epsilonTransitionsTargets nfa) actions,
   NFA.mkNode (NFA.rangesStart node) (NFA.rangesEnd node) (NFA.epsilonTransitionTargetsStart node) (NFA.epsilonTransitionTargetsEnd node) actionStart actionEnd).

Definition sinkEpsilonTransitions (b : Builder) (nfa : NFA.NFA) (node : NFA.ImmutableNFANode) : NFA.NFA * NFA.ImmutableNFANode :=
  let start := size32 (NFA.epsilonTransitionsTargets nfa) in
  let targets := NFA.epsilonTransitionsTargets nfa ++ targetOrder (m_epsilonTransitionTargets b) in
  let stop := size32 targets in
  (NFA.mkNFA (NFA.nodes nfa) (NFA.transitions nfa) (NFA.targets nfa) targets (NFA.actions nfa),
   NFA.mkNode (NFA.rangesStart node) (NFA.rangesEnd node) start stop (NFA.actionStart node) (NFA.actionEnd node)).

(** The loop over the ranges: the targets and the transitions. *)
Fixpoint sinkRanges (ranges : list (MutableRange (gset Z))) (targets : list Z) (transitions : list NFA.ImmutableRange) : list Z * list NFA.ImmutableRange :=
  match ranges with
  | [] => (targets, transitions)
  | range :: ranges =>
      let targetsStart := size32 targets in
      let targets := targets ++ targetOrder (data range) in
      let targetsEnd := size32 targets in
      sinkRanges ranges targets (transitions ++ [NFA.mkRange targetsStart targetsEnd (first range) (last range)])
  end.

Definition sinkTransitions (b : Builder) (nfa : NFA.NFA) (node : NFA.ImmutableNFANode) : option (NFA.NFA * NFA.ImmutableNFANode) :=
  ranges ← toList (m_ranges b);
  let transitionsStart := size32 (NFA.transitions nfa) in
  let '(targets, transitions) := sinkRanges ranges (NFA.targets nfa) (NFA.transitions nfa) in
  let transitionsEnd := size32 transitions in
  Some (NFA.mkNFA (NFA.nodes nfa) transitions targets (NFA.epsilonTransitionsTargets nfa) (NFA.actions nfa),
        NFA.mkNode transitionsStart transitionsEnd (NFA.epsilonTransitionTargetsStart node) (NFA.epsilonTransitionTargetsEnd node)
          (NFA.actionStart node) (NFA.actionEnd node)).

Definition finalize (b : Builder) (nfa : NFA.NFA) : option NFA.NFA :=
  node ← DFA.at_ (NFA.nodes nfa) (m_nodeId b);
  let '(nfa, node) := sinkActions b nfa node in
  let '(nfa, node) := sinkEpsilonTransitions b nfa node in
  '(nfa, node) ← sinkTransitions b nfa node;
  Some (NFA.mkNFA (<[Z.to_nat (m_nodeId b) := node]> (NFA.nodes nfa)) (NFA.transitions nfa) (NFA.targets nfa) (NFA.epsilonTransitionsTargets nfa)
          (NFA.actions nfa)).

End Finalize.

End ImmutableNFANodeBuilder.
