(* ===== verification/Term.v ===== *)
(** * Term: the terms of URL filters

    Translated from src/Source/WebCore/contentextensions/Term.h, with
    [bitCount] of src/Source/WTF/wtf/StdLibExtras.h.  A term is a set of
    characters or a group of terms, with a quantifier; characters are ASCII,
    and the zero that ends a URL stands for the end-of-line assertion.  [None]
    is a failed assertion.  [generateGraph] and [generateSubgraphForAtom] call
    each other; the second is written with the first as an argument. *)

From stdpp Require Import gmap.
From S2P Require Import Prelude ASCIICType DFA MutableRangeList NFA ImmutableNFANodeBuilder.
Import ImmutableNFANodeBuilder.

Module Term.

Inductive AtomQuantifier := One | ZeroOrOne | ZeroOrMore | OneOrMore.

#[global] Instance AtomQuantifier_eq_dec : EqDecision AtomQuantifier.
Proof. solve_decision. Defined.

(** [bitCount(unsigned)] *)
Definition bitCount32 (bits : Z) : Z :=
  let bits := u32 (bits - Z.land (Z.shiftr bits 1) 0x55555555) in
  let bits := u32 (Z.land bits 0x33333333 + Z.land (Z.shiftr bits 2) 0x33333333) in
  Z.shiftr (u32 (Z.land (u32 (bits + Z.shiftr bits 4)) 0xF0F0F0F * 0x1010101)) 24.

(** [bitCount(uint64_t)] *)
Definition bitCount64 (bits : Z) : Z := bitCount32 (u32 bits) + bitCount32 (u32 (Z.shiftr bits 32)).

(** [m_characters] is two words of 64 bits. *)
Record CharacterSet := mkCharacterSet { m_inverted : bool; m_characters0 : Z; m_characters1 : Z }.

#[global] Instance CharacterSet_eq_dec : EqDecision CharacterSet.
Proof. solve_decision. Defined.

Definition emptyCharacterSet : CharacterSet := mkCharacterSet false 0 0.

Definition set (character : Z) (s : CharacterSet) : option CharacterSet :=
  guard (character < 128);;
  let bit := Z.shiftl 1 (character mod 64) in
  Some (if character / 64 =? 0 then mkCharacterSet (m_inverted s) (Z.lor (m_characters0 s) bit) (m_characters1 s)
        else mkCharacterSet (m_inverted s) (m_characters0 s) (Z.lor (m_characters1 s) bit)).

Definition get (character : Z) (s : CharacterSet) : option bool :=
  guard (character < 128);;
  Some (negb (Z.land (if character / 64 =? 0 then m_characters0 s else m_characters1 s) (Z.shiftl 1 (character mod 64)) =? 0)).

Definition invert (s : CharacterSet) : option CharacterSet :=
  guard (m_inverted s = false);; Some (mkCharacterSet true (m_characters0 s) (m_characters1 s)).

Definition bitCount (s : CharacterSet) : Z := u32 (bitCount64 (m_characters0 s) + bitCount64 (m_characters1 s)).

(** [m_termType] with the atom, and [m_quantifier]. *)
Inductive Term :=
| Empty (quantifier : AtomQuantifier)
| CharacterSetTerm (characterSet : CharacterSet) (quantifier : AtomQuantifier)
| Group (terms : list Term) (quantifier : AtomQuantifier).

Definition m_quantifier (t : Term) : AtomQuantifier := match t with Empty q | CharacterSetTerm _ q | Group _ q => q end.

Definition isValid (t : Term) : bool := match t with Empty _ => false | _ => true end.

(** ** Making terms *)

Definition addCharacter (character : Z) (isCaseSensitive : bool) (t : Term) : option Term :=
  guard (isASCII character = true);;
  match t with
  | CharacterSetTerm s q =>
      if isCaseSensitive || negb (isASCIIAlpha character) then s ← set character s; Some (CharacterSetTerm s q)
      else s ← set (toASCIIUpper character) s; s ← set (toASCIILower character) s; Some (CharacterSetTerm s q)
  | _ => None
  end.

Definition Term_character (character : Z) (isCaseSensitive : bool) : option Term :=
  addCharacter character isCaseSensitive (CharacterSetTerm emptyCharacterSet One).

Fixpoint setAll (characters : list Z) (s : CharacterSet) : option CharacterSet :=
  match characters with [] => Some s | c :: characters => s ← set c s; setAll characters s end.

Definition UniversalTransition : option Term := s ← setAll (seqZ 1 127) emptyCharacterSet; Some (CharacterSetTerm s One).

Definition Term_characterSet (isInverted : bool) : option Term :=
  s ← (if isInverted then invert emptyCharacterSet else Some emptyCharacterSet); Some (CharacterSetTerm s One).

Definition GroupTerm : Term := Group [] One.

Definition EndOfLineAssertionTerm : option Term :=
  t ← Term_characterSet false;
  match t with CharacterSetTerm s q => s ← set 0 s; Some (CharacterSetTerm s q) | _ => None end.

Definition extendGroupSubpattern (term : Term) (t : Term) : option Term :=
  match t with Group terms q => Some (Group (terms ++ [term]) q) | _ => None end.

Definition quantify (quantifier : AtomQuantifier) (t : Term) : option Term :=
  guard (m_quantifier t = One);;
  Some (match t with Empty _ => Empty quantifier | CharacterSetTerm s _ => CharacterSetTerm s quantifier | Group terms _ => Group terms quantifier end).

(** ** What is known of a term *)

Definition isEndOfLineAssertion (t : Term) : option bool :=
  match t with
  | CharacterSetTerm s _ => if bitCount s =? 1 then get 0 s else Some false
  | _ => Some false
  end.

(** The disjunction over the terms of a group, from left to right. *)
Definition anyTerm (f : Term -> option bool) : list Term -> option bool :=
  fix loop (terms : list Term) := match terms with [] => Some false | t :: terms => b ← f t; if b : bool then Some true else loop terms end.

Definition allTerms (f : Term -> option bool) : list Term -> option bool :=
  fix loop (terms : list Term) := match terms with [] => Some true | t :: terms => b ← f t; if b : bool then loop terms else Some false end.

Fixpoint matchesAtLeastOneCharacter (t : Term) : option bool :=
  guard (isValid t = true);;
  match m_quantifier t with
  | ZeroOrOne | ZeroOrMore => Some false
  | One | OneOrMore =>
      b ← isEndOfLineAssertion t;
      if b : bool then Some false
      else match t with Group terms _ => anyTerm matchesAtLeastOneCharacter terms | _ => Some true end
  end.

Fixpoint isUniversalTransition (t : Term) : option bool :=
  match t with
  | Empty _ => None
  | CharacterSetTerm s _ =>
      if m_inverted s then Some (bitCount s =? 0)
      else if bitCount s =? 127 then b ← get 0 s; Some (negb b) else Some false
  | Group [t] _ => isUniversalTransition t
  | Group _ _ => Some false
  end.

Fixpoint isKnownToMatchAnyString (t : Term) : option bool :=
  match t with
  | Empty _ => None
  | CharacterSetTerm s q => b ← isUniversalTransition t; Some (b && bool_decide (q = ZeroOrMore))
  | Group [firstTermInGroup] q =>
      b ← isKnownToMatchAnyString firstTermInGroup;
      if b : bool then Some true
      else
        u ← isUniversalTransition firstTermInGroup;
        Some (u && (bool_decide (q = ZeroOrMore)
                    || bool_decide (q = ZeroOrOne) && bool_decide (m_quantifier firstTermInGroup = OneOrMore)
                    || bool_decide (q = OneOrMore) && bool_decide (m_quantifier firstTermInGroup = ZeroOrOne)))
  | Group _ _ => Some false
  end.

Fixpoint hasFixedLength (t : Term) : option bool :=
  match t with
  | Empty _ => None
  | CharacterSetTerm _ q => Some (bool_decide (q = One))
  | Group terms q => if bool_decide (q = One) then allTerms hasFixedLength terms else Some false
  end.

(** [operator==] *)
Definition allEqual (f : Term -> Term -> bool) : list Term -> list Term -> bool :=
  fix loop (l l' : list Term) := match l, l' with [], [] => true | t :: l, t' :: l' => f t t' && loop l l' | _, _ => false end.

Fixpoint Term_eqb (t other : Term) : bool :=
  match t, other with
  | Empty q, Empty q' => bool_decide (q = q')
  | CharacterSetTerm s q, CharacterSetTerm s' q' => bool_decide (q' = q) && bool_decide (s = s')
  | Group terms q, Group terms' q' => bool_decide (q' = q) && allEqual Term_eqb terms terms'
  | _, _ => false
  end.

(** ** Generating nodes *)

(** [while (i < 128 && get(i) != want) ++i;] *)
Fixpoint scan (fuel : nat) (want : bool) (i : Z) (s : CharacterSet) : option Z :=
  match fuel with
  | O => None
  | S fuel =>
      if i <? 128 then b ← get i s; if eqb b want then Some i else scan fuel want (i + 1) s
      else Some i
  end.

(** The loop over the maximal ranges of characters in the set, or not in it. *)
Fixpoint addRanges (fuel : nat) (want : bool) (i : Z) (s : CharacterSet) (destination : Z) (source : Builder) : option Builder :=
  match fuel with
  | O => None
  | S fuel =>
      i ← scan 129 want i s;
      if i =? 128 then Some source
      else
        let start := i in
        i ← scan 129 (negb want) (i + 1) s;
        source ← addTransition start (i - 1) destination source;
        addRanges fuel want i s destination source
  end.

Section Generate.

Context (targetOrder actionOrder : gset Z -> list Z).

(** [generateGraph] with a new end node, given [generateGraph] to a
    destination. *)
Definition generateToNewEnd (generateGraph : Term -> NFA.NFA -> Builder -> Z -> option (NFA.NFA * Builder))
    (t : Term) (nfa : NFA.NFA) (source : Builder) (finalActions : list Z) : option (NFA.NFA * Builder * Builder) :=
  let '(nfa, newEnd) := newBuilder nfa in
  '(nfa, source) ← generateGraph t nfa source (m_nodeId newEnd);
  Some (nfa, source, setActions finalActions newEnd).

(** The terms of a group after the first: each goes from [lastTarget], which
    is finalized when the next one replaces it, and the last one to the
    destination. *)
Definition generateRest (generateGraph : Term -> NFA.NFA -> Builder -> Z -> option (NFA.NFA * Builder)) :
    list Term -> NFA.NFA -> Builder -> Z -> option NFA.NFA :=
  fix loop (terms : list Term) (nfa : NFA.NFA) (lastTarget : Builder) (destination : Z) :=
    match terms with
    | [] => None
    | [lastTerm] =>
        '(nfa, lastTarget) ← generateGraph lastTerm nfa lastTarget destination;
        finalize targetOrder actionOrder lastTarget nfa
    | currentTerm :: terms =>
        '(nfa, lastTarget, newNode) ← generateToNewEnd generateGraph currentTerm nfa lastTarget [];
        nfa ← finalize targetOrder actionOrder lastTarget nfa;
        loop terms nfa newNode destination
    end.

Definition generateSubgraphForAtom (generateGraph : Term -> NFA.NFA -> Builder -> Z -> option (NFA.NFA * Builder))
    (t : Term) (nfa : NFA.NFA) (source : Builder) (destination : Z) : option (NFA.NFA * Builder) :=
  match t with
  | Empty _ => None
  | CharacterSetTerm s _ =>
      source ← (if m_inverted s then addRanges 129 false 1 s destination source else addRanges 129 true 0 s destination source);
      Some (nfa, source)
  | Group [] _ => Some (nfa, addEpsilonTransition destination source)
  | Group [first] _ => generateGraph first nfa source destination
  | Group (first :: terms) _ =>
      '(nfa, source, lastTarget) ← generateToNewEnd generateGraph first nfa source [];
      nfa ← generateRest generateGraph terms nfa lastTarget destination;
      Some (nfa, source)
  end.

(** [repeatStart] and [repeatEnd]; the end is destroyed first. *)
Definition generateRepeat (atom : NFA.NFA -> Builder -> Z -> option (NFA.NFA * Builder)) (nfa : NFA.NFA) (source : Builder) (destination : Z)
    : option (NFA.NFA * Builder) :=
  let '(nfa, repeatStart) := newBuilder nfa in
  let source := addEpsilonTransition (m_nodeId repeatStart) source in
  let '(nfa, repeatEnd) := newBuilder nfa in
  '(nfa, repeatStart) ← atom nfa repeatStart (m_nodeId repeatEnd);
  let repeatEnd := addEpsilonTransition (m_nodeId repeatStart) repeatEnd in
  let repeatEnd := addEpsilonTransition destination repeatEnd in
  nfa ← finalize targetOrder actionOrder repeatEnd nfa;
  nfa ← finalize targetOrder actionOrder repeatStart nfa;
  Some (nfa, source).

Fixpoint generateGraph (t : Term) (nfa : NFA.NFA) (source : Builder) (destination : Z) : option (NFA.NFA * Builder) :=
  guard (isValid t = true);;
  match m_quantifier t with
  | One => generateSubgraphForAtom generateGraph t nfa source destination
  | ZeroOrOne =>
      '(nfa, source) ← generateSubgraphForAtom generateGraph t nfa source destination;
      Some (nfa, addEpsilonTransition destination source)
  | ZeroOrMore =>
      '(nfa, source) ← generateRepeat (generateSubgraphForAtom generateGraph t) nfa source destination;
      Some (nfa, addEpsilonTransition destination source)
  | OneOrMore => generateRepeat (generateSubgraphForAtom generateGraph t) nfa source destination
  end.

(** [generateGraph(NFA&, source, finalActions)] *)
Definition generateGraphToEnd : Term -> NFA.NFA -> Builder -> list Z -> option (NFA.NFA * Builder * Builder) := generateToNewEnd generateGraph.

End Generate.

End Term.
