(* ===== verification/TermLanguage.v ===== *)
(** * TermLanguage: the strings a term matches, and what its tests say of them *)

From S2P Require Import Prelude ASCIICType DFA MutableRangeList NFA ImmutableNFANodeBuilder Term.

(** * Counting the bits of a word, and sets of characters *)

Import Term.

(** ** Counting bits one by one *)

Fixpoint popcount (n : nat) (z : Z) : Z := match n with O => 0 | S n => Z.b2z (Z.odd z) + popcount n (Z.div2 z) end.

Lemma popcount_app n m : forall z, popcount (n + m) z = popcount n z + popcount m (Z.shiftr z (Z.of_nat n)).
Proof.
  induction n as [|n IH]; intros z; cbn [popcount Nat.add]; [by rewrite Z.shiftr_0_r|]. rewrite IH, <- Z.add_assoc, Z.div2_spec, Z.shiftr_shiftr by lia.
  by replace (1 + Z.of_nat n) with (Z.of_nat (S n)) by lia.
Qed.

Lemma popcount_eq n : forall z z', (forall i, 0 <= i < Z.of_nat n -> Z.testbit z i = Z.testbit z' i) -> popcount n z = popcount n z'.
Proof.
  induction n as [|n IH]; intros z z' H; cbn [popcount]; [done|]. rewrite <- !Z.bit0_odd, (H 0) by lia. f_equal. apply IH. intros i Hi.
  rewrite !Z.div2_spec, !Z.shiftr_spec by lia. apply H. lia.
Qed.

Lemma popcount_filter n z : popcount n z = Z.of_nat (length (filter (fun i => Z.testbit z i = true) (seqZ 0 (Z.of_nat n)))).
Proof.
  induction n as [|n IH]; [done|]. replace (S n) with (n + 1)%nat at 1 by lia. rewrite popcount_app, IH.
  rewrite seqZ_S, filter_app, length_app, Nat2Z.inj_add. f_equal. cbn [popcount]. rewrite <- Z.bit0_odd, Z.shiftr_spec by lia.
  replace (0 + Z.of_nat n) with (Z.of_nat n) by lia. rewrite filter_cons, filter_nil. destruct (Z.testbit z (Z.of_nat n)) eqn:E.
  - by rewrite decide_True by done.
  - by rewrite decide_False by done.
Qed.

(** ** Words as bytes *)

Lemma byte_split z : z = z mod 256 + 256 * (z / 256).
Proof. pose proof (Z.div_mod z 256). lia. Qed.

Lemma testbit_bytes x y i : 0 <= x < 256 -> 0 <= i -> Z.testbit (x + 256 * y) i = if i <? 8 then Z.testbit x i else Z.testbit y (i - 8).
Proof.
  intros Hx Hi. assert ((x + 256 * y) mod 2 ^ 8 = x) as Hm by (change (2 ^ 8) with 256; rewrite Z.mul_comm, Z.mod_add, Z.mod_small; lia).
  assert ((x + 256 * y) / 2 ^ 8 = y) as Hd by (change (2 ^ 8) with 256; rewrite Z.mul_comm, Z.div_add, Z.div_small; lia).
  destruct (Z.ltb_spec i 8).
  - by rewrite <- Hm at 2; rewrite Z.mod_pow2_bits_low by lia.
  - rewrite <- Hd at 2. rewrite Z.div_pow2_bits by lia. by replace (i - 8 + 8) with i by lia.
Qed.

Lemma land_below a m : 0 <= a -> 0 <= Z.land a m <= a.
Proof.
  intros Ha. split; [apply Z.land_nonneg; lia|]. apply Z.ldiff_le; [lia|]. apply Z.bits_inj'. intros i Hi.
  rewrite Z.ldiff_spec, Z.land_spec, Z.bits_0. by destruct (Z.testbit a i), (Z.testbit m i).
Qed.

Lemma land_bytes a b m n : 0 <= a < 256 -> 0 <= m < 256 -> Z.land (a + 256 * b) (m + 256 * n) = Z.land a m + 256 * Z.land b n.
Proof.
  intros Ha Hm. pose proof (land_below a m ltac:(lia)). apply Z.bits_inj'. intros i Hi. rewrite Z.land_spec, !testbit_bytes, !Z.land_spec by lia. by destruct (i <? 8).
Qed.

(** A shift by [k] brings the low bits of the next byte in, and the mask [m]
    takes them out. *)
Definition masked (k m : Z) : bool :=
  forallb (fun a => forallb (fun r => Z.land (a / 2 ^ k + 2 ^ (8 - k) * r) m =? Z.land (a / 2 ^ k) m) (seqZ 0 (2 ^ k))) (seqZ 0 256).

Lemma shift_byte k a h m n : k = 1 \/ k = 2 \/ k = 4 -> masked k m = true -> 0 <= m < 256 -> 0 <= a < 256 ->
  Z.land (Z.shiftr (a + 256 * h) k) (m + 256 * n) = Z.land (Z.shiftr a k) m + 256 * Z.land (Z.shiftr h k) n.
Proof.
  intros Hk HM Hm Ha. rewrite !Z.shiftr_div_pow2 by lia.
  assert ((a + 256 * h) / 2 ^ k = (a / 2 ^ k + 2 ^ (8 - k) * (h mod 2 ^ k)) + 256 * (h / 2 ^ k) /\ 0 <= a / 2 ^ k + 2 ^ (8 - k) * (h mod 2 ^ k) < 256
    /\ 0 <= h mod 2 ^ k < 2 ^ k) as (-> & Hr & Hh).
  { destruct Hk as [-> | [-> | ->]]; cbn; Z.to_euclidean_division_equations; lia. }
  rewrite land_bytes by done. f_equal. unfold masked in HM. rewrite forallb_forall in HM.
  specialize (HM a ltac:(apply list_elem_of_In, elem_of_seqZ; lia)). rewrite forallb_forall in HM. apply Z.eqb_eq, HM, list_elem_of_In, elem_of_seqZ. lia.
Qed.

(** The three rounds on a byte. *)
Definition round1 (a : Z) : Z := a - Z.land (Z.shiftr a 1) 0x55.
Definition round2 (a : Z) : Z := Z.land a 0x33 + Z.land (Z.shiftr a 2) 0x33.
Definition round3 (a : Z) : Z := Z.land (a + Z.shiftr a 4) 0xF.

Definition nibbles (a : Z) : bool := (0 <=? a) && (a mod 16 <=? 4) && (a / 16 <=? 4).

Lemma bytes_checked a : 0 <= a < 256 ->
  0 <= round1 a < 256 /\ 0 <= round2 (round1 a) /\ nibbles (round2 (round1 a)) = true /\ round3 (round2 (round1 a)) = popcount 8 a /\ 0 <= popcount 8 a <= 8.
Proof.
  intros Ha.
  assert (forallb (fun a => (0 <=? round1 a) && (round1 a <? 256) && (0 <=? round2 (round1 a)) && nibbles (round2 (round1 a))
    && (round3 (round2 (round1 a)) =? popcount 8 a) && (0 <=? popcount 8 a) && (popcount 8 a <=? 8)) (seqZ 0 256) = true) as H by (vm_compute; reflexivity).
  rewrite forallb_forall in H. specialize (H a ltac:(apply list_elem_of_In, elem_of_seqZ; lia)). rewrite !andb_true_iff, !Z.leb_le, Z.ltb_lt, Z.eqb_eq in H. naive_solver.
Qed.

(** Four bytes. *)
Definition word (a b c d : Z) : Z := a + 256 * (b + 256 * (c + 256 * (d + 256 * 0))).

Definition isByte (a : Z) : Prop := 0 <= a < 256.

Lemma word_of z : 0 <= z < 2 ^ 32 -> exists a b c d, isByte a /\ isByte b /\ isByte c /\ isByte d /\ z = word a b c d.
Proof.
  intros Hz. exists (z mod 256), (z / 256 mod 256), (z / 256 / 256 mod 256), (z / 256 / 256 / 256). unfold isByte, word. change (2 ^ 32) with 4294967296 in Hz.
  Z.to_euclidean_division_equations; lia.
Qed.

Lemma word_bound a b c d : isByte a -> isByte b -> isByte c -> isByte d -> 0 <= word a b c d < 2 ^ 32.
Proof. unfold isByte, word. change (2 ^ 32) with 4294967296. lia. Qed.

Lemma u32_small z : 0 <= z < 2 ^ 32 -> u32 z = z.
Proof. intros H. unfold u32. by apply Z.mod_small. Qed.

Lemma word_round1 a b c d : isByte a -> isByte b -> isByte c -> isByte d ->
  word a b c d - Z.land (Z.shiftr (word a b c d) 1) 0x55555555 = word (round1 a) (round1 b) (round1 c) (round1 d).
Proof.
  intros Ha Hb Hc Hd. change 0x55555555 with (word 0x55 0x55 0x55 0x55). unfold word.
  rewrite !shift_byte by (done || lia || (vm_compute; reflexivity)). rewrite Z.shiftr_0_l, Z.land_0_l. unfold round1. lia.
Qed.

Lemma word_round2 a b c d : isByte a -> isByte b -> isByte c -> isByte d ->
  Z.land (word a b c d) 0x33333333 + Z.land (Z.shiftr (word a b c d) 2) 0x33333333 = word (round2 a) (round2 b) (round2 c) (round2 d).
Proof.
  intros Ha Hb Hc Hd. change 0x33333333 with (word 0x33 0x33 0x33 0x33). unfold word.
  rewrite !shift_byte by (done || lia || (vm_compute; reflexivity)). rewrite !land_bytes by (done || lia). rewrite Z.shiftr_0_l, Z.land_0_l. unfold round2. lia.
Qed.

Lemma land_nibble x y : Z.land (x + 16 * y) 0xF = Z.land x 0xF.
Proof. change 0xF with (Z.ones 4). rewrite !Z.land_ones by lia. change (2 ^ 4) with 16. rewrite Z.mul_comm. by rewrite Z.mod_add by lia. Qed.

Lemma nibbles_spec a : nibbles a = true -> 0 <= a /\ a mod 16 <= 4 /\ a / 16 <= 4.
Proof. unfold nibbles. rewrite !andb_true_iff, !Z.leb_le. tauto. Qed.

Lemma nibbles_byte a : nibbles a = true -> isByte a.
Proof. intros H%nibbles_spec. unfold isByte. Z.to_euclidean_division_equations. lia. Qed.

Lemma word_round3 a b c d : nibbles a = true -> nibbles b = true -> nibbles c = true -> nibbles d = true ->
  Z.land (u32 (word a b c d + Z.shiftr (word a b c d) 4)) 0xF0F0F0F = word (round3 a) (round3 b) (round3 c) (round3 d).
Proof.
  intros Ha%nibbles_spec Hb%nibbles_spec Hc%nibbles_spec Hd%nibbles_spec. rewrite !Z.shiftr_div_pow2 by lia. change (2 ^ 4) with 16.
  assert (word a b c d + word a b c d / 16
    = word (a + a / 16 + 16 * (b mod 16)) (b + b / 16 + 16 * (c mod 16)) (c + c / 16 + 16 * (d mod 16)) (d + d / 16 + 16 * 0)) as ->.
  { unfold word. Z.to_euclidean_division_equations. lia. }
  rewrite u32_small by (apply word_bound; unfold isByte; Z.to_euclidean_division_equations; lia).
  change 0xF0F0F0F with (word 0xF 0xF 0xF 0xF). unfold word. rewrite !land_bytes by (Z.to_euclidean_division_equations; lia).
  rewrite !land_nibble. unfold round3. rewrite !Z.shiftr_div_pow2 by lia. by rewrite Z.land_0_l.
Qed.

Lemma word_sum a b c d : 0 <= a <= 8 -> 0 <= b <= 8 -> 0 <= c <= 8 -> 0 <= d <= 8 -> Z.shiftr (u32 (word a b c d * 0x1010101)) 24 = a + b + c + d.
Proof.
  intros Ha Hb Hc Hd. rewrite Z.shiftr_div_pow2 by lia. unfold u32.
  replace (word a b c d * 0x1010101) with ((a + b + c + d) * 2 ^ 24 + ((a + b + c) * 2 ^ 16 + (a + b) * 2 ^ 8 + a) + (b + c + d + 256 * (c + d) + 65536 * d) * 2 ^ 32)
    by (unfold word; lia).
  rewrite Z.mod_add, Z.mod_small by lia. symmetry. apply (Z.div_unique _ _ _ ((a + b + c) * 2 ^ 16 + (a + b) * 2 ^ 8 + a)); lia.
Qed.

Lemma popcount_word a b c d : isByte a -> isByte b -> isByte c -> isByte d ->
  popcount 32 (word a b c d) = popcount 8 a + popcount 8 b + popcount 8 c + popcount 8 d.
Proof.
  unfold isByte. intros Ha Hb Hc Hd. unfold word. change 32%nat with (8 + (8 + (8 + 8)))%nat. rewrite !popcount_app, !Z.shiftr_div_pow2 by lia. change (2 ^ Z.of_nat 8) with 256.
  assert (forall x y, 0 <= x < 256 -> popcount 8 (x + 256 * y) = popcount 8 x /\ (x + 256 * y) / 256 = y) as H.
  { intros x y Hx. split; [|Z.to_euclidean_division_equations; lia]. apply popcount_eq. intros i Hi. rewrite testbit_bytes by lia. by rewrite (proj2 (Z.ltb_lt i 8)) by lia. }
  rewrite !(fun y => proj2 (H a y Ha)), !(fun y => proj2 (H b y Hb)), (fun y => proj2 (H c y Hc)), (fun y => proj1 (H a y Ha)), (fun y => proj1 (H b y Hb)),
    (fun y => proj1 (H c y Hc)), (fun y => proj1 (H d y Hd)). lia.
Qed.

Lemma bitCount32_popcount z : 0 <= z < 2 ^ 32 -> bitCount32 z = popcount 32 z.
Proof.
  intros Hz. destruct (word_of z Hz) as (a & b & c & d & Ha & Hb & Hc & Hd & ->). rewrite popcount_word by done. unfold bitCount32.
  destruct (bytes_checked a Ha) as (A1 & A2 & A3 & A4 & A5), (bytes_checked b Hb) as (B1 & B2 & B3 & B4 & B5),
    (bytes_checked c Hc) as (C1 & C2 & C3 & C4 & C5), (bytes_checked d Hd) as (D1 & D2 & D3 & D4 & D5).
  rewrite word_round1 by done. rewrite (u32_small (word _ _ _ _)) by by apply word_bound. rewrite word_round2 by done.
  rewrite (u32_small (word _ _ _ _)) by (apply word_bound; by apply nibbles_byte).
  rewrite word_round3, A4, B4, C4, D4 by done. by rewrite word_sum by done.
Qed.

(** The parallel bit count of a 64-bit word is the number of its bits that
    are set. *)
Lemma bitCount64_popcount z : 0 <= z < 2 ^ 64 -> bitCount64 z = popcount 64 z.
Proof.
  intros Hz. unfold bitCount64. pose proof (Z.mod_pos_bound z (2 ^ 32) ltac:(lia)). change 64%nat with (32 + 32)%nat.
  rewrite popcount_app, !Z.shiftr_div_pow2 by lia. change (2 ^ Z.of_nat 32) with (2 ^ 32).
  assert (0 <= z / 2 ^ 32 < 2 ^ 32) as Hd. { split; [apply Z.div_pos; lia|]. apply Z.div_lt_upper_bound; [lia|]. change (2 ^ 32 * 2 ^ 32) with (2 ^ 64). lia. }
  rewrite (u32_small (z / 2 ^ 32)) by done. rewrite !bitCount32_popcount by done. f_equal. apply popcount_eq. intros i Hi. unfold u32.
  rewrite Z.mod_pow2_bits_low by lia. done.
Qed.

(** ** Sets of characters *)

Record okSet (s : CharacterSet) : Prop := { set_word0 : 0 <= m_characters0 s < 2 ^ 64; set_word1 : 0 <= m_characters1 s < 2 ^ 64 }.

Definition okSetb (s : CharacterSet) : bool :=
  (0 <=? m_characters0 s) && (m_characters0 s <? 2 ^ 64) && (0 <=? m_characters1 s) && (m_characters1 s <? 2 ^ 64).

Lemma okSetb_spec s : okSetb s = true <-> okSet s.
Proof. unfold okSetb. rewrite !andb_true_iff, !Z.leb_le, !Z.ltb_lt. split; [intros [[[] ] ]; by split|intros [[] []]; done]. Qed.

(** The character is listed in the set. *)
Definition has (s : CharacterSet) (c : Z) : bool := Z.testbit (if c <? 64 then m_characters0 s else m_characters1 s) (c mod 64).

Lemma has_low s c : 0 <= c < 64 -> has s c = Z.testbit (m_characters0 s) c.
Proof. intros Hc. unfold has. rewrite (proj2 (Z.ltb_lt _ _)) by lia. by rewrite Z.mod_small by lia. Qed.

Lemma has_high s c : 64 <= c < 128 -> has s c = Z.testbit (m_characters1 s) (c - 64).
Proof. intros Hc. unfold has. rewrite (proj2 (Z.ltb_ge _ _)) by lia. f_equal. Z.to_euclidean_division_equations. lia. Qed.

(** Selecting a bit with a mask. *)
Lemma mask_testbit z i : 0 <= i -> negb (Z.land z (Z.shiftl 1 i) =? 0) = Z.testbit z i.
Proof.
  intros Hi. rewrite Z.shiftl_1_l. destruct (Z.eqb_spec (Z.land z (2 ^ i)) 0) as [E|E]; cbn.
  - apply (f_equal (fun x => Z.testbit x i)) in E. rewrite Z.land_spec, Z.pow2_bits_true, Z.bits_0, andb_true_r in E by lia. done.
  - destruct (Z.testbit z i) eqn:Et; [done|]. destruct E. apply Z.bits_inj'. intros j Hj. rewrite Z.land_spec, Z.bits_0.
    destruct (Z.eq_dec i j) as [<-|]; [by rewrite Et|]. by rewrite Z.pow2_bits_false, andb_false_r by lia.
Qed.

Lemma word_index c : 0 <= c < 128 -> (c / 64 =? 0) = (c <? 64).
Proof. intros Hc. destruct (Z.eqb_spec (c / 64) 0), (Z.ltb_spec c 64); try done; exfalso; Z.to_euclidean_division_equations; lia. Qed.

Lemma get_has s c : 0 <= c < 128 -> get c s = Some (has s c).
Proof. intros Hc. unfold get, has. rewrite option_guard_True by lia. cbn [mbind option_bind]. by rewrite mask_testbit, word_index by (done || apply Z.mod_pos_bound; lia). Qed.

Lemma set_has s c : okSet s -> 0 <= c < 128 ->
  exists s', set c s = Some s' /\ okSet s' /\ m_inverted s' = m_inverted s /\ forall x, 0 <= x < 128 -> has s' x = (x =? c) || has s x.
Proof.
  intros [H0 H1] Hc. unfold set. rewrite option_guard_True by lia. cbn [mbind option_bind]. eexists. split; [reflexivity|]. pose proof (Z.mod_pos_bound c 64 ltac:(lia)) as Hm.
  assert (forall z, 0 <= z < 2 ^ 64 -> 0 <= Z.lor z (Z.shiftl 1 (c mod 64)) < 2 ^ 64) as Hb.
  { intros z Hz. rewrite Z.shiftl_1_l. assert (0 <= Z.lor z (2 ^ (c mod 64))) as Hp by (apply Z.lor_nonneg; split; [lia|apply Z.pow_nonneg; lia]). split; [done|].
    destruct (Z.eq_dec (Z.lor z (2 ^ (c mod 64))) 0) as [->|]; [lia|]. apply Z.log2_lt_pow2; [lia|]. rewrite Z.log2_lor, Z.log2_pow2 by (try apply Z.pow_nonneg; lia).
    destruct (Z.eq_dec z 0) as [->|]; [cbn; lia|]. pose proof (proj1 (Z.log2_lt_pow2 z 64 ltac:(lia))). lia. }
  assert (forall z x, 0 <= x -> Z.testbit (Z.lor z (Z.shiftl 1 (c mod 64))) x = (x =? c mod 64) || Z.testbit z x) as Ht.
  { intros z x Hx. rewrite Z.lor_spec, Z.shiftl_1_l, orb_comm. f_equal. rewrite Z.pow2_bits_eqb by lia. apply Z.eqb_sym. }
  destruct (Z.eqb_spec (c / 64) 0) as [E|E]; (split; [split; cbn; auto|split; [done|]]); intros x Hx; unfold has; cbn.
  - destruct (Z.ltb_spec x 64); [rewrite Ht by (apply Z.mod_pos_bound; lia)|]; repeat match goal with |- context [?a =? ?b] => destruct (Z.eqb_spec a b) end; try done; exfalso; Z.to_euclidean_division_equations; lia.
  - destruct (Z.ltb_spec x 64); [|rewrite Ht by (apply Z.mod_pos_bound; lia)]; repeat match goal with |- context [?a =? ?b] => destruct (Z.eqb_spec a b) end; try done; exfalso; Z.to_euclidean_division_equations; lia.
Qed.

Lemma filter_iff {A} (P Q : A -> Prop) `{!forall x, Decision (P x)} `{!forall x, Decision (Q x)} (l : list A) :
  (forall x, x ∈ l -> P x <-> Q x) -> filter P l = filter Q l.
Proof.
  induction l as [|x l IH]; intros HPQ; [done|]. rewrite !filter_cons, IH by (intros; apply HPQ; by right).
  destruct (decide (P x)), (decide (Q x)); try done; exfalso; specialize (HPQ x ltac:(left)); tauto.
Qed.

Lemma filter_low s : filter (fun c => has s c = true) (seqZ 0 64) = filter (fun i => Z.testbit (m_characters0 s) i = true) (seqZ 0 64).
Proof. apply filter_iff. intros x Hx%elem_of_seqZ. by rewrite has_low by lia. Qed.

Lemma filter_high s : length (filter (fun c => has s c = true) (seqZ 64 64)) = length (filter (fun i => Z.testbit (m_characters1 s) i = true) (seqZ 0 64)).
Proof.
  replace (seqZ 64 64) with (Z.add 64 <$> seqZ 0 64) by done. assert (Forall (fun x => 0 <= x < 64) (seqZ 0 64)) as H by (apply Forall_forall; intros x Hx%elem_of_seqZ; lia).
  induction H as [|x l Hx _ IH]; [done|]. cbn [fmap list_fmap]. rewrite !filter_cons.
  assert (has s (64 + x) = Z.testbit (m_characters1 s) x) as E by (rewrite has_high by lia; f_equal; lia).
  destruct (Z.testbit (m_characters1 s) x); [rewrite !decide_True by done; cbn [length]; by f_equal|by rewrite !decide_False by (rewrite ?E; done)].
Qed.

(** The number of characters that are listed. *)
Lemma bitCount_count s : okSet s -> bitCount s = Z.of_nat (length (filter (fun c => has s c = true) (seqZ 0 128))).
Proof.
  intros [H0 H1]. unfold bitCount. rewrite !bitCount64_popcount, !popcount_filter by done. change (Z.of_nat 64) with 64. replace (seqZ 0 128) with (seqZ 0 64 ++ seqZ 64 64) by done.
  rewrite filter_app, length_app, Nat2Z.inj_add, filter_low, filter_high. rewrite u32_small; [done|].
  pose proof (length_filter (fun i => Z.testbit (m_characters0 s) i = true) (seqZ 0 64)). pose proof (length_filter (fun i => Z.testbit (m_characters1 s) i = true) (seqZ 0 64)).
  rewrite length_seqZ in *. lia.
Qed.

Lemma filter_full {A} (P : A -> Prop) `{!forall x, Decision (P x)} l : length (filter P l) = length l -> Forall P l.
Proof.
  induction l as [|x l IH]; [constructor|]. rewrite filter_cons. pose proof (length_filter P l). destruct (decide (P x)); cbn; [intros [= E]; auto|lia].
Qed.

Section Count.

Context (s : CharacterSet) (Hs : okSet s).

Lemma bitCount_split : bitCount s = (if has s 0 then 1 else 0) + Z.of_nat (length (filter (fun c => has s c = true) (seqZ 1 127))).
Proof using Hs.
  rewrite bitCount_count by done. rewrite (seqZ_cons 0 128) by lia. cbn [Z.succ Z.pred]. rewrite filter_cons. change (Z.succ 0) with 1. change (Z.pred 128) with 127.
  destruct (has s 0) eqn:E; [rewrite decide_True by done; cbn [length]; lia|by rewrite decide_False by done].
Qed.

Lemma bitCount_zero c : bitCount s = 0 -> 1 <= c <= 127 -> has s c = false.
Proof using Hs.
  rewrite bitCount_split. intros E Hc. assert (filter (fun c => has s c = true) (seqZ 1 127) = []) as Hn by (apply length_zero_iff_nil; destruct (has s 0); lia).
  apply not_true_is_false. intros Ht. assert (c ∈ filter (fun c => has s c = true) (seqZ 1 127)) as Hin by (apply list_elem_of_filter; split; [done|apply elem_of_seqZ; lia]).
  rewrite Hn in Hin. by apply not_elem_of_nil in Hin.
Qed.

Lemma bitCount_one c : bitCount s = 1 -> has s 0 = true -> 0 <= c <= 127 -> has s c = true -> c = 0.
Proof using Hs.
  rewrite bitCount_split. intros E H0 Hc Ht. rewrite H0 in E. assert (filter (fun c => has s c = true) (seqZ 1 127) = []) as Hn by (apply length_zero_iff_nil; lia).
  destruct (Z.eq_dec c 0) as [|Hne]; [done|]. assert (c ∈ filter (fun c => has s c = true) (seqZ 1 127)) as Hin by (apply list_elem_of_filter; split; [done|apply elem_of_seqZ; lia]).
  rewrite Hn in Hin. by apply not_elem_of_nil in Hin.
Qed.

Lemma bitCount_all c : bitCount s = 127 -> has s 0 = false -> 1 <= c <= 127 -> has s c = true.
Proof using Hs.
  rewrite bitCount_split. intros E H0 Hc. rewrite H0 in E. assert (Forall (fun c => has s c = true) (seqZ 1 127)) as H by (apply (filter_full (fun c => has s c = true)); rewrite length_seqZ; lia).
  rewrite Forall_forall in H. apply H, elem_of_seqZ. lia.
Qed.

End Count.

(** * The strings a term matches, and what is known of them *)

Import Term.

(** ** Languages *)

Notation language := (list Z -> Prop).

Definition cat (L M : language) : language := fun w => exists u v, w = u ++ v /\ L u /\ M v.

Inductive star (L : language) : language :=
| star_nil : star L []
| star_app u v : L u -> star L v -> star L (u ++ v).

Definition quantified (q : AtomQuantifier) (L : language) : language :=
  match q with
  | One => L
  | ZeroOrOne => fun w => w = [] \/ L w
  | ZeroOrMore => star L
  | OneOrMore => cat L (star L)
  end.

(** The characters of a set: inverted, it never has the end of the URL. *)
Definition member (s : CharacterSet) (c : Z) : Prop :=
  if m_inverted s then 1 <= c <= 127 /\ has s c = false else 0 <= c <= 127 /\ has s c = true.

Definition cats {B : Type} (f : B -> language) : list B -> language :=
  fix loop (terms : list B) := match terms with [] => fun w => w = [] | t :: terms => cat (f t) (loop terms) end.

(** The strings a term matches. *)
Fixpoint matches (t : Term) : language :=
  match t with
  | Empty _ => fun _ => False
  | CharacterSetTerm s q => quantified q (fun w => exists c, w = [c] /\ member s c)
  | Group terms q => quantified q (cats matches terms)
  end.

(** Terms made by the constructors: none is empty, words have 64 bits. *)
Fixpoint okTerm (t : Term) : bool :=
  match t with Empty _ => false | CharacterSetTerm s _ => okSetb s | Group terms _ => forallb okTerm terms end.

(** The sets of a term. *)
Fixpoint setsOf (t : Term) : list CharacterSet :=
  match t with Empty _ => [] | CharacterSetTerm s _ => [s] | Group terms _ => flat_map setsOf terms end.

(** Induction over the terms of groups. *)
Lemma Term_induction (P : Term -> Prop) :
  (forall q, P (Empty q)) -> (forall s q, P (CharacterSetTerm s q)) -> (forall terms q, Forall P terms -> P (Group terms q)) -> forall t, P t.
Proof.
  intros HE HC HG. fix IH 1. intros [q|s q|terms q]; [apply HE|apply HC|]. apply HG. induction terms as [|t terms IHl]; constructor; [apply IH|apply IHl].
Qed.

Lemma okTerm_group terms q : okTerm (Group terms q) = true <-> Forall (fun t => okTerm t = true) terms.
Proof. cbn. rewrite forallb_forall, Forall_forall. by setoid_rewrite list_elem_of_In. Qed.

Lemma star_one (L : language) w : L w -> star L w.
Proof. intros H. rewrite <- (app_nil_r w). by constructor; [|constructor]. Qed.

Lemma star_mono (L M : language) w : (forall u, L u -> M u) -> star L w -> star M w.
Proof. intros H. induction 1; constructor; auto. Qed.

Lemma cats_one {B} (f : B -> language) t w : cats f [t] w <-> f t w.
Proof. split; [intros (u & v & -> & Hu & ->); by rewrite app_nil_r|intros H; exists w, []; by rewrite app_nil_r]. Qed.

Lemma star_cats_one (f : Term -> language) t w : star (f t) w -> star (cats f [t]) w.
Proof. apply star_mono. intros u. apply cats_one. Qed.

(** Matching at least once the same string, and no other quantifier takes
    strings away. *)
Lemma quantified_one q (L : language) w : L w -> quantified q L w.
Proof. intros H. destruct q; cbn; [done|by right|by apply star_one|exists w, []; rewrite app_nil_r; split_and!; try done; constructor]. Qed.

(** The letters of a string, one by one. *)
Lemma star_letters (L : language) (w : list Z) : Forall (fun c => L [c]) w -> star L w.
Proof. induction 1 as [|c w Hc Hw IH]; [constructor|]. by apply (star_app L [c] w). Qed.

(** ** Making sets of characters *)

(** [x] is the character [c], up to case when case does not matter. *)
Definition sameCharacter (isCaseSensitive : bool) (c x : Z) : bool :=
  (x =? c) || negb isCaseSensitive && isASCIIAlpha c && (toASCIILower x =? toASCIILower c).

Lemma cases_checked c x : 0 <= c < 128 -> 0 <= x < 128 ->
  0 <= toASCIIUpper c < 128 /\ 0 <= toASCIILower c < 128
  /\ (isASCIIAlpha c = true -> (x =? toASCIILower c) || (x =? toASCIIUpper c) = (x =? c) || (toASCIILower x =? toASCIILower c)) /\ isASCII c = true.
Proof.
  intros Hc Hx.
  assert (forallb (fun c => forallb (fun x => (0 <=? toASCIIUpper c) && (toASCIIUpper c <? 128) && (0 <=? toASCIILower c) && (toASCIILower c <? 128) && isASCII c
    && (negb (isASCIIAlpha c) || eqb ((x =? toASCIILower c) || (x =? toASCIIUpper c)) ((x =? c) || (toASCIILower x =? toASCIILower c)))) (seqZ 0 128)) (seqZ 0 128) = true) as H
    by (vm_compute; reflexivity).
  rewrite forallb_forall in H. specialize (H c ltac:(apply list_elem_of_In, elem_of_seqZ; lia)). rewrite forallb_forall in H.
  specialize (H x ltac:(apply list_elem_of_In, elem_of_seqZ; lia)). rewrite !andb_true_iff, orb_true_iff, negb_true_iff, eqb_true_iff, !Z.leb_le, !Z.ltb_lt in H.
  destruct H as (((((? & ?) & ?) & ?) & ?) & Ho). split_and!; try done. intros Ha. destruct Ho; [congruence|done].
Qed.

(** [addCharacter] on a set adds the character and, when case does not
    matter, the letter in the other case, and nothing else. *)
Lemma addCharacter_spec s q c isCaseSensitive : okSet s -> 0 <= c <= 127 ->
  exists s', addCharacter c isCaseSensitive (CharacterSetTerm s q) = Some (CharacterSetTerm s' q) /\ okSet s' /\ m_inverted s' = m_inverted s
    /\ forall x, 0 <= x <= 127 -> has s' x = sameCharacter isCaseSensitive c x || has s x.
Proof.
  intros Hs Hc. destruct (cases_checked c c) as (Hu & Hl & _ & Ha); [lia..|]. unfold addCharacter, sameCharacter. rewrite Ha, option_guard_True by done. cbn [mbind option_bind].
  destruct (isCaseSensitive || negb (isASCIIAlpha c)) eqn:E.
  - destruct (set_has s c) as (s1 & -> & H1 & H2 & H3); [done|lia|]. cbn [mbind option_bind]. exists s1. split_and!; try done. intros x Hx.
    rewrite H3 by lia. f_equal. destruct isCaseSensitive, (isASCIIAlpha c); try done; by rewrite orb_false_r.
  - apply orb_false_iff in E as [-> Hal%negb_false_iff]. rewrite Hal. destruct (set_has s (toASCIIUpper c)) as (s1 & -> & H1 & H2 & H3); [done..|]. cbn [mbind option_bind].
    destruct (set_has s1 (toASCIILower c)) as (s2 & -> & G1 & G2 & G3); [done..|]. cbn [mbind option_bind]. exists s2. split_and!; try done; [congruence|].
    intros x Hx. destruct (cases_checked c x) as (_ & _ & He & _); [lia..|]. rewrite G3, H3 by lia. rewrite orb_assoc, He by done. done.
Qed.

(** The set of the end-of-line assertion, and of [.]: *)
Lemma EndOfLineAssertionTerm_matches : exists t, EndOfLineAssertionTerm = Some t /\ okTerm t = true /\ forall w, matches t w <-> w = [0].
Proof.
  eexists. split; [vm_compute; reflexivity|]. split; [done|]. intros w. cbn [matches quantified]. unfold member. cbn [m_inverted]. split.
  - intros (c & -> & Hc & H). assert (forallb (fun c => negb (has (mkCharacterSet false 1 0) c) || (c =? 0)) (seqZ 0 128) = true) as Hf by (vm_compute; reflexivity).
    rewrite forallb_forall in Hf. specialize (Hf c ltac:(apply list_elem_of_In, elem_of_seqZ; lia)). rewrite H in Hf. cbn in Hf. by apply Z.eqb_eq in Hf as ->.
  - intros ->. exists 0. split_and!; try done.
Qed.

Definition universalSet : CharacterSet := mkCharacterSet false (2 ^ 64 - 2) (2 ^ 64 - 1).

Lemma UniversalTransition_eq : UniversalTransition = Some (CharacterSetTerm universalSet One).
Proof. vm_compute. reflexivity. Qed.

Lemma universalSet_ok : okSet universalSet.
Proof. apply okSetb_spec. vm_compute. reflexivity. Qed.

Lemma universalSet_member c : member universalSet c <-> 1 <= c <= 127.
Proof.
  assert (forallb (fun c => eqb (has universalSet c) (negb (c =? 0))) (seqZ 0 128) = true) as Hf by (vm_compute; reflexivity).
  rewrite forallb_forall in Hf. setoid_rewrite <- list_elem_of_In in Hf. setoid_rewrite elem_of_seqZ in Hf. setoid_rewrite eqb_true_iff in Hf. unfold member. cbn [m_inverted universalSet]. split; intros Hc.
  - destruct Hc as [Hc H]. rewrite Hf in H by lia. destruct (Z.eqb_spec c 0); [done|lia].
  - split; [lia|]. rewrite Hf by lia. by destruct (Z.eqb_spec c 0); [lia|].
Qed.

(** * What the quick tests of a term say of its strings *)

Import Term.

(** The strings of a term without its quantifier. *)
Definition atom (t : Term) : language :=
  match t with
  | Empty _ => fun _ => False
  | CharacterSetTerm s _ => fun w => exists c, w = [c] /\ member s c
  | Group terms _ => cats matches terms
  end.

Lemma matches_atom t : isValid t = true -> matches t = quantified (m_quantifier t) (atom t).
Proof. by destruct t. Qed.

Lemma okTerm_valid t : okTerm t = true -> isValid t = true.
Proof. by destruct t. Qed.

Lemma okTerm_set s q : okTerm (CharacterSetTerm s q) = true -> okSet s.
Proof. apply okSetb_spec. Qed.

Definition character (c : Z) : Prop := 1 <= c <= 127.

(** ** Terms that match any string *)

Lemma isUniversalTransition_spec t : okTerm t = true ->
  exists b, isUniversalTransition t = Some b /\ (b = true -> forall c, character c -> atom t [c]).
Proof.
  induction t as [q|s q|terms q IH] using Term_induction; intros Hok; [done| |].
  - apply okTerm_set in Hok. cbn [isUniversalTransition]. destruct (m_inverted s) eqn:Ei.
    + eexists. split; [reflexivity|]. intros E%Z.eqb_eq c Hc. exists c. split; [done|]. unfold member. rewrite Ei. split; [done|]. by apply bitCount_zero.
    + destruct (Z.eqb_spec (bitCount s) 127) as [E|E]; [|by exists false]. rewrite get_has by lia. cbn [mbind option_bind]. eexists. split; [reflexivity|].
      intros H0%negb_true_iff c Hc. exists c. split; [done|]. unfold member. rewrite Ei. unfold character in Hc. split; [lia|]. by apply bitCount_all.
  - apply okTerm_group in Hok. destruct terms as [|t [|t' terms]]; [by exists false| |by exists false]. apply Forall_inv in IH, Hok.
    destruct (IH Hok) as (b & E & H). exists b. split; [done|]. intros -> c Hc. cbn [atom]. apply cats_one. rewrite matches_atom by by apply okTerm_valid.
    apply quantified_one. by apply H.
Qed.

(** A term that is known to match any string does: every string of characters
    from 1 to 127. *)
Lemma isKnownToMatchAnyString_sound t : okTerm t = true ->
  exists b, isKnownToMatchAnyString t = Some b /\ (b = true -> forall w, Forall character w -> matches t w).
Proof.
  induction t as [q|s q|terms q IH] using Term_induction; intros Hok; [done| |].
  - destruct (isUniversalTransition_spec _ Hok) as (b & E & H). cbn [isKnownToMatchAnyString]. rewrite E. cbn [mbind option_bind]. eexists. split; [reflexivity|].
    intros [-> Hq%bool_decide_eq_true]%andb_true_iff w Hw. subst q. apply star_letters. eapply Forall_impl; [exact Hw|]. by apply H.
  - apply okTerm_group in Hok. destruct terms as [|t [|t' terms]]; [by exists false| |by exists false]. apply Forall_inv in IH, Hok.
    cbn [isKnownToMatchAnyString]. destruct (IH Hok) as (b & E & H). rewrite E. cbn [mbind option_bind]. destruct b.
    { exists true. split; [done|]. intros _ w Hw. apply quantified_one, cats_one. by apply H. }
    destruct (isUniversalTransition_spec t Hok) as (u & Eu & Hu). rewrite Eu. cbn [mbind option_bind]. eexists. split; [reflexivity|].
    intros [-> Hq]%andb_true_iff w Hw. specialize (Hu eq_refl). pose proof (matches_atom t (okTerm_valid t Hok)) as Hm. cbn [matches].
    assert (forall u, Forall character u -> star (atom t) u) as Hstar by (intros u Hl; apply star_letters; eapply Forall_impl; [exact Hl|apply Hu]).
    assert (Forall (fun c => cats matches [t] [c]) w) as Hl.
    { eapply Forall_impl; [exact Hw|]. intros c Hc. apply cats_one. rewrite Hm. by apply quantified_one, Hu. }
    rewrite !orb_true_iff, !andb_true_iff, !bool_decide_eq_true in Hq. destruct Hq as [[Hq|[Hq Ht]]|[Hq Ht]]; subst q; cbn [quantified].
    + by apply star_letters.
    + destruct Hw as [|c w Hc Hw]; [by left|right]. apply cats_one. rewrite Hm, Ht. exists [c], w. split_and!; auto.
    + destruct Hl as [|c w' Hc Hl].
      * exists [], []. split_and!; [done| |constructor]. apply cats_one. rewrite Hm, Ht. by left.
      * exists [c], w'. split_and!; [done|done|]. by apply star_letters.
Qed.

(** ** Terms that need a character *)

(** The end of the URL is only in the sets of end-of-line assertions. *)
Fixpoint endAlone (t : Term) : bool :=
  match t with
  | Empty _ => true
  | CharacterSetTerm s _ => m_inverted s || negb (has s 0) || (bitCount s =? 1)
  | Group terms _ => forallb endAlone terms
  end.

Definition hasCharacter (w : list Z) : Prop := exists c, c ∈ w /\ c <> 0.

Lemma hasCharacter_app u v : hasCharacter (u ++ v) <-> hasCharacter u \/ hasCharacter v.
Proof. unfold hasCharacter. setoid_rewrite elem_of_app. naive_solver. Qed.

Lemma isEndOfLineAssertion_set s q : isEndOfLineAssertion (CharacterSetTerm s q) = Some ((bitCount s =? 1) && has s 0).
Proof. cbn [isEndOfLineAssertion]. destruct (bitCount s =? 1); [|done]. by apply get_has. Qed.

Lemma anyTerm_spec (f : Term -> option bool) (P : Term -> Prop) terms : Forall (fun t => exists b, f t = Some b /\ (b = true -> P t)) terms ->
  exists b, anyTerm f terms = Some b /\ (b = true -> exists t, t ∈ terms /\ P t).
Proof.
  induction 1 as [|t terms (b & E & H) _ (b' & E' & H')]; [by exists false|]. unfold anyTerm. rewrite E. cbn [mbind option_bind]. destruct b.
  - exists true. split; [done|]. intros _. exists t. split; [left|by apply H].
  - exists b'. split; [exact E'|]. intros (t' & Ht & HP)%H'. exists t'. split; [by right|done].
Qed.

Lemma cats_part (f : Term -> language) (P : list Z -> Prop) terms w t : (forall u v, P u \/ P v -> P (u ++ v)) -> t ∈ terms -> (forall u, f t u -> P u) -> cats f terms w -> P w.
Proof.
  intros HP Hin Hf. revert w. induction terms as [|t' terms IH]; [by apply not_elem_of_nil in Hin|]. intros w (u & v & -> & Hu & Hv).
  apply elem_of_cons in Hin as [<-|Hin]; apply HP; [left; by apply Hf|right; by apply IH].
Qed.

Lemma quantified_atom t (P : list Z -> Prop) : isValid t = true -> (forall u v, P u -> P (u ++ v)) -> m_quantifier t = One \/ m_quantifier t = OneOrMore ->
  (forall w, atom t w -> P w) -> forall w, matches t w -> P w.
Proof. intros Hv HP Hq Ha w. rewrite matches_atom by done. destruct Hq as [-> | ->]; cbn; [apply Ha|]. intros (u & v & -> & Hu & _). by apply HP, Ha. Qed.

#[local] Opaque bitCount get.

(** The test on the quantifier, then on the atom. *)
Lemma matchesAtLeastOneCharacter_eq t : isValid t = true ->
  matchesAtLeastOneCharacter t =
    (if bool_decide (m_quantifier t = ZeroOrOne \/ m_quantifier t = ZeroOrMore) then Some false
     else b ← isEndOfLineAssertion t; if b : bool then Some false else match t with Group terms _ => anyTerm matchesAtLeastOneCharacter terms | _ => Some true end).
Proof. intros Hv. destruct t as [q|s q|terms q]; [done| |]; by destruct q. Qed.

Lemma needs_atom t : isValid t = true -> ~ (m_quantifier t = ZeroOrOne \/ m_quantifier t = ZeroOrMore) ->
  (forall w, atom t w -> hasCharacter w) -> forall w, matches t w -> hasCharacter w.
Proof.
  intros Hv Hq. apply quantified_atom; [done|intros u v Hu; apply hasCharacter_app; by left|]. destruct (m_quantifier t); [by left|destruct Hq; by left|destruct Hq; by right|by right].
Qed.

Lemma characterSet_needs s q w : endAlone (CharacterSetTerm s q) = true -> (bitCount s =? 1) && has s 0 = false -> atom (CharacterSetTerm s q) w -> hasCharacter w.
Proof.
  intros He E (c & -> & Hc). exists c. split; [left|]. intros ->. unfold member in Hc. cbn [endAlone] in He. destruct (m_inverted s); [lia|]. destruct Hc as [_ Hc].
  rewrite Hc in *. rewrite andb_true_r in E. by rewrite E in He.
Qed.

Lemma group_needs terms q w t : t ∈ terms -> (forall u, matches t u -> hasCharacter u) -> atom (Group terms q) w -> hasCharacter w.
Proof. intros Ht HP. apply (cats_part matches hasCharacter terms w t); [|done|done]. intros u v. apply hasCharacter_app. Qed.

(** A term that matches at least one character does, other than the end of
    the URL, in every string it matches. *)
Lemma matchesAtLeastOneCharacter_correct t : okTerm t = true -> endAlone t = true ->
  exists b, matchesAtLeastOneCharacter t = Some b /\ (b = true -> forall w, matches t w -> hasCharacter w).
Proof.
  induction t as [q|s q|terms q IH] using Term_induction; intros Hok He; [done| |];
    pose proof (needs_atom _ (okTerm_valid _ Hok)) as HA; rewrite matchesAtLeastOneCharacter_eq by exact (okTerm_valid _ Hok);
    (case_bool_decide as Hq; [exists false; split; [reflexivity|discriminate]|]); specialize (HA Hq).
  - rewrite isEndOfLineAssertion_set. cbn [mbind option_bind]. destruct ((bitCount s =? 1) && has s 0) eqn:E; [by exists false|].
    exists true. split; [done|]. intros _. apply HA. intros w. by apply characterSet_needs.
  - cbn [isEndOfLineAssertion mbind option_bind]. apply okTerm_group in Hok. cbn [endAlone] in He. rewrite forallb_forall in He.
    destruct (anyTerm_spec matchesAtLeastOneCharacter (fun t => forall w, matches t w -> hasCharacter w) terms) as (b & E & H).
    { rewrite Forall_forall in *. intros t Ht. apply IH; [done|by apply Hok|]. by apply He, list_elem_of_In. }
    exists b. split; [done|]. intros (t & Ht & HP)%H. apply HA. intros w. by apply (group_needs terms q w t).
Qed.

(** ** Terms of one length *)

Lemma allTerms_spec (f : Term -> option bool) (P : Term -> Prop) terms : Forall (fun t => exists b, f t = Some b /\ (b = true -> P t)) terms ->
  exists b, allTerms f terms = Some b /\ (b = true -> Forall P terms).
Proof.
  induction 1 as [|t terms (b & E & H) _ (b' & E' & H')]; [by exists true|]. unfold allTerms. rewrite E. cbn [mbind option_bind]. destruct b; [|by exists false].
  exists b'. split; [exact E'|]. intros Hb. constructor; auto.
Qed.

(** All strings that a term with a fixed length matches have one length. *)
Lemma hasFixedLength_correct t : okTerm t = true ->
  exists b, hasFixedLength t = Some b /\ (b = true -> exists n, forall w, matches t w -> length w = n).
Proof.
  induction t as [q|s q|terms q IH] using Term_induction; intros Hok; [done| |]; cbn [hasFixedLength].
  - eexists. split; [reflexivity|]. intros ->%bool_decide_eq_true. exists 1%nat. by intros w (c & -> & _).
  - destruct (bool_decide (q = One)) eqn:Hq; [apply bool_decide_eq_true in Hq; subst q|by exists false]. apply okTerm_group in Hok.
    destruct (allTerms_spec hasFixedLength (fun t => exists n, forall w, matches t w -> length w = n) terms) as (b & E & H).
    { rewrite Forall_forall in *. intros t Ht. by apply IH, Hok. }
    exists b. split; [done|]. intros Hb. specialize (H Hb). clear -H. cbn [matches quantified]. induction H as [|t terms [n Hn] _ [m Hm]]; [exists 0%nat; by intros w ->|].
    exists (n + m)%nat. intros w (u & v & -> & Hu & Hv). rewrite length_app. f_equal; auto.
Qed.

(** ** Equality of terms *)

Lemma allEqual_spec terms : Forall (fun t => forall t', Term_eqb t t' = true <-> t = t') terms -> forall terms', allEqual Term_eqb terms terms' = true <-> terms = terms'.
Proof.
  induction 1 as [|t terms Ht _ IH]; intros [|t' terms']; cbn; try done. rewrite andb_true_iff, Ht, IH. naive_solver.
Qed.

Lemma Term_eqb_eq t : forall t', Term_eqb t t' = true <-> t = t'.
Proof.
  induction t as [q|s q|terms q IH] using Term_induction; intros [q'|s' q'|terms' q']; cbn [Term_eqb]; try done.
  - rewrite bool_decide_eq_true. naive_solver.
  - rewrite andb_true_iff, !bool_decide_eq_true. naive_solver.
  - rewrite andb_true_iff, bool_decide_eq_true, (allEqual_spec terms IH). naive_solver.
Qed.
