(* ===== verification/NFAFragment.v ===== *)
(** * NFAFragment: automata with one way in and one way out

    Thompson's construction on edge relations: a fragment leads from a source
    to a destination through nodes of its own, and fragments compose to
    fragments for the concatenation and the repetitions of their languages. *)

From S2P Require Import Prelude Term TermLanguage.
Import Term.

(** An edge is labelled by a character, or by nothing. *)
Notation edges := (Z -> option Z -> Z -> Prop).

Inductive path (R : edges) : Z -> list Z -> Z -> Prop :=
| path_nil i : path R i [] i
| path_eps i j k w : R i None j -> path R j w k -> path R i w k
| path_char i j k c w : R i (Some c) j -> path R j w k -> path R i (c :: w) k.

(** The edges of [R] lead from [s] or the nodes of [F] to [d] or the nodes of
    [F], their characters are in [A], and the paths from [s] to [d] read the
    strings of [L]. *)
Record frag {s d : Z} {F A : Z -> Prop} {R : edges} {L : language} : Prop := {
  frag_from : forall i l j, R i l j -> i = s \/ F i;
  frag_to : forall i l j, R i l j -> j = d \/ F j;
  frag_label : forall i c j, R i (Some c) j -> A c;
  frag_paths : forall w, path R s w d <-> L w }.
Arguments frag : clear implicits.

Definition both (R1 R2 : edges) : edges := fun i l j => R1 i l j \/ R2 i l j.

Definition epsEdge (s d : Z) : edges := fun i l j => i = s /\ l = None /\ j = d.

Definition charEdges (s d : Z) (P : Z -> Prop) : edges := fun i l j => i = s /\ (exists c, l = Some c /\ P c) /\ j = d.

Lemma path_sub (R R' : edges) i w k : (forall i l j, R i l j -> R' i l j) -> path R i w k -> path R' i w k.
Proof. intros H. induction 1; [constructor|eapply path_eps|eapply path_char]; eauto. Qed.

Lemma path_app (R : edges) i u j v k : path R i u j -> path R j v k -> path R i (u ++ v) k.
Proof. induction 1; cbn; intros; [done|eapply path_eps|eapply path_char]; eauto. Qed.

Lemma path_one (R : edges) i l j : R i l j -> path R i (match l with None => [] | Some c => [c] end) j.
Proof. intros H. destruct l; [eapply path_char|eapply path_eps]; eauto using path_nil. Qed.

(** Paths that cannot leave the nodes of [C] use the edges between them. *)
Lemma path_confined (C : Z -> Prop) (R R' : edges) i w k :
  (forall i l j, C i -> R' i l j -> R i l j /\ C j) -> C i -> path R' i w k -> path R i w k.
Proof.
  intros HC Hi H. induction H as [i|i j k w Hs _ IH|i j k c w Hs _ IH]; [constructor| |]; destruct (HC _ _ _ Hi Hs) as [Hs' Hj]; [eapply path_eps|eapply path_char]; eauto.
Qed.

(** A node without edges ends the path. *)
Lemma path_stuck (R : edges) i w k : (forall l j, ~ R i l j) -> path R i w k -> w = [] /\ i = k.
Proof. intros H. destruct 1 as [|? ? ? ? Hs|? ? ? ? ? Hs]; [done|by apply H in Hs..]. Qed.

Lemma frag_iff s d (F F' A : Z -> Prop) R (L L' : language) : (forall i, F i <-> F' i) -> (forall w, L w <-> L' w) -> frag s d F A R L -> frag s d F' A R L'.
Proof. intros HF HL [H1 H2 H3 H4]. split; [intros i l j Hr; rewrite <- HF; eauto|intros i l j Hr; rewrite <- HF; eauto|done|intros w; by rewrite H4]. Qed.

Lemma frag_eps s d A : s <> d -> frag s d (fun _ => False) A (epsEdge s d) (fun w => w = []).
Proof.
  intros Hne. split; [intros i l j (-> & _ & ->); by left|intros i l j (-> & _ & ->); by left|by intros i c j (_ & [=] & _)|]. intros w. split.
  - intros H. inversion H as [|? j ? ? (_ & _ & Ej) H'|? j ? c v (_ & E & _) H']; subst; [done| |done]. apply path_stuck in H'; [tauto|]. intros l j (E & _). by destruct Hne.
  - intros ->. apply (path_one _ _ None). done.
Qed.

Lemma frag_chars s d (P A : Z -> Prop) : s <> d -> (forall c, P c -> A c) -> frag s d (fun _ => False) A (charEdges s d P) (fun w => exists c, w = [c] /\ P c).
Proof.
  intros Hne HA. split; [intros i l j (-> & _ & ->); by left|intros i l j (-> & _ & ->); by left|intros i c j (_ & (c' & [= ->] & Hc) & _); by apply HA|]. intros w. split.
  - intros H. inversion H as [|? j ? ? (_ & (c & E & _) & _) H'|? j ? c v (_ & (c' & E & Hc) & Ej) H']; subst; [done..|]. injection E as <-.
    apply path_stuck in H' as [-> _]; [by exists c|]. intros l j (E & _). by destruct Hne.
  - intros (c & -> & Hc). apply (path_one _ _ (Some c)). split_and!; try done. by exists c.
Qed.

Section Concatenation.

Context (s m d : Z) (F1 F2 A : Z -> Prop) (R1 R2 : edges) (L1 L2 : language) (H1 : frag s m F1 A R1 L1) (H2 : frag m d F2 A R2 L2).
Hypothesis Hsm : s <> m.
Hypothesis Hsd : s <> d.
Hypothesis Hmd : m <> d.
Hypothesis HF1 : ~ F1 m /\ ~ F1 d.
Hypothesis HF2 : ~ F2 s /\ ~ F2 m.
Hypothesis Hdisj : forall i, F1 i -> F2 i -> False.

Lemma cat_second i w : i = m \/ F2 i \/ i = d -> path (both R1 R2) i w d -> path R2 i w d.
Proof using H1 H2 Hsm Hsd Hmd HF1 HF2 Hdisj.
  apply (path_confined (fun i => i = m \/ F2 i \/ i = d)). intros a l b Ha [Hr|Hr].
  - exfalso. apply (frag_from H1) in Hr. naive_solver.
  - split; [done|]. apply (frag_to H2) in Hr. naive_solver.
Qed.

Lemma cat_first i w k : path (both R1 R2) i w k -> k = d -> i = s \/ F1 i -> exists u v, w = u ++ v /\ path R1 i u m /\ path R2 m v d.
Proof using H1 H2 Hsm Hsd Hmd HF1 HF2 Hdisj.
  assert (forall i l j, i = s \/ F1 i -> both R1 R2 i l j -> R1 i l j) as Hfirst.
  { intros a l b Ha [Hr|Hr]; [done|]. exfalso. apply (frag_from H2) in Hr. naive_solver. }
  assert (forall i l j w, R1 i l j -> path (both R1 R2) j w d -> (j = s \/ F1 j -> exists u v, w = u ++ v /\ path R1 j u m /\ path R2 m v d) ->
    exists u v, w = u ++ v /\ path R1 j u m /\ path R2 m v d) as Hstep.
  { intros a l b v Hr Hp IH. apply (frag_to H1) in Hr as [->|Hb]; [|by apply IH; right]. exists [], v. split_and!; [done|constructor|]. apply cat_second; [by left|done]. }
  induction 1 as [i|i j k w Hs Hp IH|i j k c w Hs Hp IH]; intros -> Hi.
  - exfalso. naive_solver.
  - apply Hfirst in Hs; [|done]. destruct (Hstep _ _ _ _ Hs Hp (IH eq_refl)) as (u & v & -> & Hu & Hv). exists u, v. split_and!; try done. by eapply path_eps.
  - apply Hfirst in Hs; [|done]. destruct (Hstep _ _ _ _ Hs Hp (IH eq_refl)) as (u & v & -> & Hu & Hv). exists (c :: u), v. split_and!; try done. by eapply path_char.
Qed.

Lemma frag_cat : frag s d (fun i => i = m \/ F1 i \/ F2 i) A (both R1 R2) (cat L1 L2).
Proof using All.
  split.
  - intros i l j [Hr|Hr]; [apply (frag_from H1) in Hr|apply (frag_from H2) in Hr]; tauto.
  - intros i l j [Hr|Hr]; [apply (frag_to H1) in Hr|apply (frag_to H2) in Hr]; tauto.
  - intros i c j [Hr|Hr]; [by apply (frag_label H1) in Hr|by apply (frag_label H2) in Hr].
  - intros w. split.
    + intros Hp. destruct (cat_first _ _ _ Hp eq_refl (or_introl eq_refl)) as (u & v & -> & Hu & Hv). exists u, v. split_and!; [done| |].
      * by apply (frag_paths H1).
      * by apply (frag_paths H2).
    + intros (u & v & -> & Hu & Hv). apply (frag_paths H1) in Hu. apply (frag_paths H2) in Hv.
      eapply path_app; (eapply path_sub; [|eassumption]); intros; [by left|by right].
Qed.

End Concatenation.

Lemma frag_optional s d F A R L : s <> d -> ~ F s -> ~ F d -> frag s d F A R L -> frag s d F A (both R (epsEdge s d)) (fun w => w = [] \/ L w).
Proof.
  intros Hne Hs Hd H. split.
  - intros i l j [Hr|(-> & _)]; [by apply (frag_from H) in Hr|by left].
  - intros i l j [Hr|(_ & _ & ->)]; [by apply (frag_to H) in Hr|by left].
  - intros i c j [Hr|(_ & [=] & _)]. by apply (frag_label H) in Hr.
  - intros w. rewrite <- (frag_paths H). split.
    + assert (forall i l j, (i = d \/ F i) -> both R (epsEdge s d) i l j -> R i l j /\ (j = d \/ F j)) as HC.
      { intros i l j Hi [Hr|(-> & _)]; [split; [done|by apply (frag_to H) in Hr]|]. naive_solver. }
      assert (forall w, path (both R (epsEdge s d)) d w d -> w = []) as Hstuck.
      { intros v Hp. apply path_stuck in Hp; [tauto|]. intros l j [Hr|(E & _)]; [apply (frag_from H) in Hr; naive_solver|by destruct Hne]. }
      intros Hp. inversion Hp as [|? j ? ? [Hr|(_ & _ & ->)] Hp'|? j ? c v [Hr|(_ & [=] & _)] Hp']; subst; [by left| |left; by apply Hstuck|].
      * right. eapply path_eps; [done|]. apply (path_confined _ _ _ _ _ _ HC); [|done]. by apply (frag_to H) in Hr.
      * right. eapply path_char; [done|]. apply (path_confined _ _ _ _ _ _ HC); [|done]. by apply (frag_to H) in Hr.
    + intros [->|Hp]; [apply (path_one _ _ None); by right|]. eapply path_sub; [|done]. by left.
Qed.

Lemma distinct_nodes (s d rs re : Z) : NoDup [s; d; rs; re] -> s <> d /\ s <> rs /\ s <> re /\ d <> rs /\ d <> re /\ rs <> re.
Proof. rewrite !NoDup_cons, !elem_of_cons. naive_solver. Qed.

Section Repetition.

Context (s d rs re : Z) (F A : Z -> Prop) (R : edges) (L : language) (H : frag rs re F A R L).
Hypothesis Hdistinct : NoDup [s; d; rs; re].
Hypothesis HF : ~ F s /\ ~ F d /\ ~ F rs /\ ~ F re.

Definition repeatEdges : edges := both R (both (epsEdge s rs) (both (epsEdge re rs) (epsEdge re d))).

Lemma repeat_path i w k : path repeatEdges i w k -> k = d ->
  (i = rs \/ F i -> exists u v, w = u ++ v /\ path R i u re /\ star L v) /\ (i = re -> star L w) /\ (i = d -> w = []).
Proof using H Hdistinct HF.
  destruct (distinct_nodes _ _ _ _ Hdistinct) as (D1 & D2 & D3 & D4 & D5 & D6).
  assert (forall i l j, R i l j -> (i = rs \/ F i) /\ (j = re \/ F j)) as HR by (intros a l b Hr; split; [by apply (frag_from H) in Hr|by apply (frag_to H) in Hr]).
  induction 1 as [i|i j k w Hs _ IH|i j k c w Hs _ IH]; intros ->; [naive_solver| |]; destruct (IH eq_refl) as (I1 & I2 & I3).
  - destruct Hs as [Hr|[(-> & _ & ->)|[(-> & _ & ->)|(-> & _ & ->)]]].
    + destruct (HR _ _ _ Hr) as [Hi Hj]. split; [intros _|naive_solver]. destruct Hj as [->|Hj].
      * exists [], w. split_and!; [done|by apply (path_one _ _ None)|by apply I2].
      * destruct I1 as (u & v & -> & Hu & Hv); [by right|]. exists u, v. split_and!; try done. by eapply path_eps.
    + naive_solver.
    + split; [naive_solver|]. split; [intros _|done]. destruct I1 as (u & v & -> & Hu & Hv); [by left|]. constructor; [by apply (frag_paths H)|done].
    + split; [naive_solver|]. split; [|done]. intros _. rewrite I3 by done. constructor.
  - destruct Hs as [Hr|[(_ & [=] & _)|[(_ & [=] & _)|(_ & [=] & _)]]]. destruct (HR _ _ _ Hr) as [Hi Hj]. split; [intros _|naive_solver]. destruct Hj as [->|Hj].
    + exists [c], w. split_and!; [done|by apply (path_one _ _ (Some c))|by apply I2].
    + destruct I1 as (u & v & -> & Hu & Hv); [by right|]. exists (c :: u), v. split_and!; try done. by eapply path_char.
Qed.

Lemma star_path v : star L v -> path repeatEdges re v d.
Proof using H HF.
  induction 1 as [|u v Hu _ IH]; [apply (path_one _ _ None); unfold repeatEdges, both, epsEdge; tauto|].
  apply (path_eps _ _ rs); [unfold repeatEdges, both, epsEdge; tauto|]. eapply path_app; [|exact IH]. apply (frag_paths H) in Hu. eapply path_sub; [|exact Hu]. by left.
Qed.

Lemma frag_repeat : frag s d (fun i => i = rs \/ i = re \/ F i) A repeatEdges (cat L (star L)).
Proof using H Hdistinct HF.
  destruct (distinct_nodes _ _ _ _ Hdistinct) as (D1 & D2 & D3 & D4 & D5 & D6). split.
  - intros i l j [Hr|Hr]; [apply (frag_from H) in Hr; tauto|unfold both, epsEdge in Hr; tauto].
  - intros i l j [Hr|Hr]; [apply (frag_to H) in Hr; tauto|unfold both, epsEdge in Hr; tauto].
  - intros i c j [Hr|Hr]; [by apply (frag_label H) in Hr|unfold both, epsEdge in Hr; naive_solver].
  - intros w. split.
    + intros Hp. inversion Hp as [|? j ? ? Hs Hp'|? j ? c v Hs Hp']; subst; [done| |].
      * destruct Hs as [Hr|Hs]; [apply (frag_from H) in Hr; naive_solver|]. assert (j = rs) as -> by (unfold both, epsEdge in Hs; naive_solver).
        destruct (repeat_path _ _ _ Hp' eq_refl) as [(u & v & -> & Hu & Hv) _]; [by left|]. exists u, v. split_and!; try done. by apply (frag_paths H).
      * destruct Hs as [Hr|Hs]; [apply (frag_from H) in Hr; naive_solver|]. unfold both, epsEdge in Hs. naive_solver.
    + intros (u & v & -> & Hu & Hv). apply (path_eps _ _ rs); [unfold repeatEdges, both, epsEdge; tauto|]. eapply path_app; [|by apply star_path].
      apply (frag_paths H) in Hu. eapply path_sub; [|exact Hu]. by left.
Qed.

End Repetition.

(** No repetition, or some. *)
Lemma star_unfold (L : language) w : star L w <-> w = [] \/ cat L (star L) w.
Proof. split; [intros [|u v Hu Hv]; [by left|right; by exists u, v]|intros [->|(u & v & -> & Hu & Hv)]; by constructor]. Qed.

(** ** Adding a fragment to an automaton *)

Section Extend.

Context (E R : edges) (s d : Z) (F A : Z -> Prop) (L : language) (H : frag s d F A R L).
Hypothesis Hne : s <> d.
Hypothesis HF : ~ F s /\ ~ F d.
Hypothesis Hfresh : forall i l j, E i l j -> ~ F i /\ ~ F j.
Hypothesis Hback : forall w, ~ path E d w s.

(** Inside the fragment a path goes on to its destination. *)
Lemma extend_path i w k : path (both E R) i w k -> ~ F k ->
  (~ F i -> path E i w k \/ exists u v x, w = u ++ v ++ x /\ path E i u s /\ path R s v d /\ path E d x k)
  /\ (F i -> exists v x, w = v ++ x /\ path R i v d /\ path E d x k).
Proof using H Hne HF Hfresh Hback.
  intros Hp Hk. assert (forall j w, j = d \/ F j -> (~ F j -> path E j w k \/ exists u v x, w = u ++ v ++ x /\ path E j u s /\ path R s v d /\ path E d x k) ->
    (F j -> exists v x, w = v ++ x /\ path R j v d /\ path E d x k) -> exists v x, w = v ++ x /\ path R j v d /\ path E d x k) as Hin.
  { intros j v [->|Hj] I1 I2; [|by apply I2]. destruct I1 as [I1|(u & _ & _ & _ & I1 & _)]; [tauto| |by apply Hback in I1]. exists [], v. split_and!; [done|constructor|done]. }
  induction Hp as [i|i j k w Hs _ IH|i j k c w Hs _ IH]; [split; [intros; left; constructor|done]| |]; specialize (IH Hk Hin); destruct IH as [I1 I2].
  - destruct Hs as [Hs|Hs].
    + destruct (Hfresh _ _ _ Hs) as [Hi Hj]. split; [intros _|done]. destruct (I1 Hj) as [I|(u & v & x & -> & Iu & Iv)]; [left; by eapply path_eps|].
      right. exists u, v, x. split_and!; try done; [by eapply path_eps|tauto..].
    + destruct (Hin j w (frag_to H _ _ _ Hs) I1 I2) as (v & x & -> & Hv & Hx). assert (path R i v d) as Hr by (by eapply path_eps). split; [|intros _; by exists v, x].
      intros Hi. right. assert (i = s) as -> by (apply (frag_from H) in Hs; tauto). exists [], v, x. split_and!; try done. constructor.
  - destruct Hs as [Hs|Hs].
    + destruct (Hfresh _ _ _ Hs) as [Hi Hj]. split; [intros _|done]. destruct (I1 Hj) as [I|(u & v & x & -> & Iu & Iv)]; [left; by eapply path_char|].
      right. exists (c :: u), v, x. split_and!; try done; [by eapply path_char|tauto..].
    + destruct (Hin j w (frag_to H _ _ _ Hs) I1 I2) as (v & x & -> & Hv & Hx). assert (path R i (c :: v) d) as Hr by (by eapply path_char). split; [|intros _; by exists (c :: v), x].
      intros Hi. right. assert (i = s) as -> by (apply (frag_from H) in Hs; tauto). exists [], (c :: v), x. split_and!; try done. constructor.
Qed.

Lemma path_extend i w k : ~ F i -> ~ F k ->
  path (both E R) i w k <-> path E i w k \/ exists u v x, w = u ++ v ++ x /\ path E i u s /\ L v /\ path E d x k.
Proof using H Hne HF Hfresh Hback.
  intros Hi Hk. split.
  - intros Hp. destruct (extend_path i w k Hp Hk) as [H1 _]. destruct (H1 Hi) as [?|(u & v & x & -> & Hu & Hv & Hx)]; [by left|]. right. exists u, v, x.
    split_and!; try done. by apply (frag_paths H).
  - intros [Hp|(u & v & x & -> & Hu & Hv & Hx)]; [eapply path_sub; [|exact Hp]; by left|]. apply (frag_paths H) in Hv.
    eapply path_app; [eapply path_sub; [|exact Hu]; by left|]. eapply path_app; [eapply path_sub; [|exact Hv]; by right|]. eapply path_sub; [|exact Hx]. by left.
Qed.

End Extend.
