(* ===== verification/TermGraph.v ===== *)
(** * TermGraph: the nodes that a term generates read its strings

    [generateGraph] draws a fragment from the source builder to the
    destination: nodes of its own, and edges that are added to the source.  All
    operations return whatever the sizes; that 32-bit indices name the right
    nodes is shown for automata with fewer than 2^32 entries in each array. *)

From stdpp Require Import gmap.
From S2P Require Import Prelude DFA MutableRangeList MutableRangeListCorrect NFA NFAToDFA NFAToDFAClosure ImmutableNFANodeBuilder Term TermLanguage NFAFragment.

(** * What a node builder writes into an automaton *)

Import MutableRangeList ImmutableNFANodeBuilder.

(** ** Builders *)

(** The ranges of a builder in order. *)
Definition spansOf (b : Builder) : list (Span (gset Z)) := match toList (m_ranges b) with Some l => view <$> l | None => [] end.

Definition shape (b : Builder) : Prop := Represents (m_ranges b) (spansOf b) /\ ordered (-1) (spansOf b) /\ Forall (fun s => exists j, j ∈ val s) (spansOf b).

(** The builder has an edge to [j], on a character or on nothing. *)
Definition bedge (b : Builder) (l : option Z) (j : Z) : Prop :=
  match l with
  | None => j ∈ m_epsilonTransitionTargets b
  | Some c => exists X, find c (spansOf b) = Some X /\ j ∈ X
  end.

Lemma spansOf_represents b vs : Represents (m_ranges b) vs -> spansOf b = vs.
Proof. intros H. unfold spansOf. destruct (toList_represents _ _ H) as (l & -> & E). done. Qed.

Lemma addTransition_spec b first last t : shape b -> 0 <= first <= last -> last <= 127 ->
  exists b', addTransition first last t b = Some b' /\ shape b' /\ m_nodeId b' = m_nodeId b /\ m_actions b' = m_actions b
    /\ forall l j, bedge b' l j <-> bedge b l j \/ j = t /\ exists c, l = Some c /\ first <= c <= last.
Proof.
  intros (HR & HO & HN) Hf Hl. unfold addTransition.
  destruct (extend_spec convert extendTargets (fun t => {[ t ]}) (fun d t => {[ t ]} ∪ d) (fun _ => True)) with (rs := m_ranges b) (vs := spansOf b) (l := [mkSpan first last t])
    as (rs & vs & -> & HR' & HO' & HM); try done; [cbn; split_and!; lia|by constructor|]. cbn [mbind option_bind].
  assert (spansOf (mkBuilder rs (m_epsilonTransitionTargets b) (m_actions b) (m_nodeId b)) = vs) as E by by apply spansOf_represents.
  assert (forall c, find c [mkSpan first last t] = if (first <=? c) && (c <=? last) then Some t else None) as Hfind by done.
  eexists. split; [reflexivity|]. split; [|split_and!; try done].
  - split; [by rewrite E|]. rewrite E. split; [done|]. apply Forall_forall. intros s Hs. pose proof (ordered_bounds _ _ HO') as Hb. rewrite Forall_forall in Hb. specialize (Hb s Hs).
    pose proof (find_elem (lo s) (-1) vs s HO' Hs ltac:(lia)) as Hv. rewrite HM, Hfind in Hv. destruct (find (lo s) (spansOf b)) as [X|] eqn:EX, (_ && _); cbn in Hv; try done; injection Hv as <-.
    + exists t. set_solver.
    + apply find_span in EX as (s' & Hs' & _ & <-). rewrite Forall_forall in HN. by apply HN.
    + exists t. set_solver.
  - intros [c|] j; cbn [bedge m_epsilonTransitionTargets]; [|naive_solver]. rewrite E. rewrite HM, Hfind.
    destruct ((first <=? c) && (c <=? last)) eqn:Ec; [rewrite andb_true_iff, !Z.leb_le in Ec|rewrite andb_false_iff, !Z.leb_gt in Ec].
    + destruct (find c (spansOf b)) as [X|]; cbn [MutableRangeListCorrect.merge]; split.
      * intros (Y & [= <-] & Hj). apply elem_of_union in Hj as [->%elem_of_singleton|Hj]; [right; eauto|left; eauto].
      * intros [(Y & [= <-] & Hj)|[-> _]]; (eexists; split; [reflexivity|]); set_solver.
      * intros (Y & [= <-] & ->%elem_of_singleton). right; eauto.
      * intros [(Y & [=] & _)|[-> _]]. eexists. split; [reflexivity|]. set_solver.
    + destruct (find c (spansOf b)) as [X|]; cbn [MutableRangeListCorrect.merge]; split; try naive_solver; intros [H|(-> & c' & [= <-] & Hc)]; eauto; lia.
Qed.

Lemma addEpsilonTransition_edges b t l j : bedge (addEpsilonTransition t b) l j <-> bedge b l j \/ l = None /\ j = t.
Proof. destruct l as [c|]; cbn [bedge addEpsilonTransition m_epsilonTransitionTargets]; [split; [by left|naive_solver]|]. rewrite elem_of_union, elem_of_singleton. naive_solver. Qed.

Lemma addEpsilonTransition_shape b t : shape b -> shape (addEpsilonTransition t b).
Proof. done. Qed.

(** ** Automata that grow *)

Record small (nfa : NFA.NFA) : Prop := {
  small_nodes : Z.of_nat (length (NFA.nodes nfa)) < 2 ^ 32;
  small_transitions : Z.of_nat (length (NFA.transitions nfa)) < 2 ^ 32;
  small_targets : Z.of_nat (length (NFA.targets nfa)) < 2 ^ 32;
  small_eps : Z.of_nat (length (NFA.epsilonTransitionsTargets nfa)) < 2 ^ 32;
  small_actions : Z.of_nat (length (NFA.actions nfa)) < 2 ^ 32 }.

Record extends (nfa nfa' : NFA.NFA) : Prop := {
  ext_nodes : (length (NFA.nodes nfa) <= length (NFA.nodes nfa'))%nat;
  ext_transitions : NFA.transitions nfa `prefix_of` NFA.transitions nfa';
  ext_targets : NFA.targets nfa `prefix_of` NFA.targets nfa';
  ext_eps : NFA.epsilonTransitionsTargets nfa `prefix_of` NFA.epsilonTransitionsTargets nfa';
  ext_actions : NFA.actions nfa `prefix_of` NFA.actions nfa' }.

#[global] Instance extends_preorder : PreOrder extends.
Proof. split; [intros nfa; by split|]. intros a b c [] []. split; [lia|by etrans..]. Qed.

Lemma small_extends nfa nfa' : extends nfa nfa' -> small nfa' -> small nfa.
Proof. intros [H1 H2%prefix_length H3%prefix_length H4%prefix_length H5%prefix_length] []. split; lia. Qed.

(** The rows of a node: its ranges, its epsilon targets, its actions. *)
Definition sameRow (nfa nfa' : NFA.NFA) (i : Z) : Prop :=
  NFA.transitionsForNode nfa' i = NFA.transitionsForNode nfa i /\ NFAToDFA.epsilonTargets nfa' i = NFAToDFA.epsilonTargets nfa i /\ nodeActions nfa' i = nodeActions nfa i.

(** Everything of [okNFA] but the root, with a bound on the nodes named. *)
Record okRow (nfa : NFA.NFA) (i : Z) : Prop := {
  row_eps : exists ts, NFAToDFA.epsilonTargets nfa i = Some ts /\ Forall (valid nfa) ts;
  row_ranges : exists ss, NFA.transitionsForNode nfa i = Some ss /\ ordered (-1) ss /\ Forall (fun s => val s <> [] /\ Forall (valid nfa) (val s)) ss;
  row_actions : exists l, nodeActions nfa i = Some l }.

Definition okRows (nfa : NFA.NFA) : Prop := forall i, valid nfa i -> okRow nfa i.

Lemma okRows_okNFA nfa : NFA.nodes nfa <> [] -> okRows nfa -> okNFA nfa.
Proof. intros Hn H. split; [done|intros i Hi; by destruct (H i Hi)..]. Qed.

Lemma valid_extends nfa nfa' i : extends nfa nfa' -> valid nfa i -> valid nfa' i.
Proof. intros [] H. unfold valid in *. lia. Qed.

Lemma prefix_at {A} (l l' : list A) i x : l `prefix_of` l' -> DFA.at_ l i = Some x -> DFA.at_ l' i = Some x.
Proof. intros [more ->]. apply at_grow. Qed.

Lemma prefix_between {A} (l l' : list A) s e r : l `prefix_of` l' -> NFA.between l s e = Some r -> NFA.between l' s e = Some r.
Proof. intros Hp. unfold NFA.between. apply mapM_mono. intros i x. by apply prefix_at. Qed.

(** A node that stays keeps its rows. *)
Lemma extends_row nfa nfa' i : extends nfa nfa' -> okRow nfa i -> DFA.at_ (NFA.nodes nfa') i = DFA.at_ (NFA.nodes nfa) i -> sameRow nfa nfa' i.
Proof.
  intros [_ E1 E2 E3 E4] [(ts & H1 & _) (ss & H2 & _) (acts & H3)] Ei. unfold sameRow. rewrite H1, H2, H3. unfold NFA.transitionsForNode, NFAToDFA.epsilonTargets, nodeActions in *. rewrite Ei.
  destruct (DFA.at_ (NFA.nodes nfa) i) as [node|]; [|done]. cbn [mbind option_bind] in *. split_and!.
  - case_guard; [|done]. cbn [mbind option_bind] in *. destruct (NFA.between (NFA.transitions nfa) _ _) as [rs|] eqn:Er; [|done]. rewrite (prefix_between _ _ _ _ _ E1 Er).
    cbn [mbind option_bind] in *. eapply mapM_mono; [|exact H2]. intros r s. unfold NFA.spanOf, NFA.IterableConstTargets. case_guard; [|done]. cbn [mbind option_bind].
    destruct (NFA.between (NFA.targets nfa) _ _) as [d|] eqn:Ed; [|done]. by rewrite (prefix_between _ _ _ _ _ E2 Ed).
  - by apply (prefix_between _ _ _ _ _ E3).
  - by apply (prefix_between _ _ _ _ _ E4).
Qed.

Lemma sameRow_ok nfa nfa' i : extends nfa nfa' -> okRow nfa i -> sameRow nfa nfa' i -> okRow nfa' i.
Proof.
  intros E [(ts & H1 & G1) (ss & H2 & O2 & G2) (acts & H3)] (S1 & S2 & S3). split.
  - exists ts. rewrite S2. split; [done|]. eapply Forall_impl; [exact G1|]. intros j. by apply valid_extends.
  - exists ss. rewrite S1. split_and!; try done. eapply Forall_impl; [exact G2|]. intros s [Hn Hv]. split; [done|]. eapply Forall_impl; [exact Hv|]. intros j. by apply valid_extends.
  - exists acts. by rewrite S3.
Qed.

Lemma sameRow_trans nfa1 nfa2 nfa3 i : sameRow nfa1 nfa2 i -> sameRow nfa2 nfa3 i -> sameRow nfa1 nfa3 i.
Proof. intros (A1 & A2 & A3) (B1 & B2 & B3). split_and!; congruence. Qed.

(** ** A new node *)

Record isNew (nfa nfa' : NFA.NFA) (b : Builder) : Prop := {
  new_extends : extends nfa nfa';
  new_length : length (NFA.nodes nfa') = S (length (NFA.nodes nfa));
  new_shape : shape b;
  new_edges : forall l j, ~ bedge b l j;
  new_actions : m_actions b = ∅;
  new_valid : valid nfa' (m_nodeId b);
  new_id : small nfa' -> m_nodeId b = Z.of_nat (length (NFA.nodes nfa));
  new_old : forall i, valid nfa i -> DFA.at_ (NFA.nodes nfa') i = DFA.at_ (NFA.nodes nfa) i;
  new_row : forall i, i = Z.of_nat (length (NFA.nodes nfa)) ->
    NFA.transitionsForNode nfa' i = Some [] /\ NFAToDFA.epsilonTargets nfa' i = Some [] /\ nodeActions nfa' i = Some [] }.

Lemma newBuilder_spec nfa : isNew nfa (newBuilder nfa).1 (newBuilder nfa).2.
Proof.
  unfold newBuilder. cbn [fst snd]. set (n := length (NFA.nodes nfa)). assert (0 <= u32 (Z.of_nat n) <= Z.of_nat n) as Hu.
  { unfold u32. split; [apply Z.mod_pos_bound; lia|]. apply Z.mod_le; lia. }
  split; cbn [m_nodeId NFA.nodes m_actions].
  - split; cbn [NFA.nodes NFA.transitions NFA.targets NFA.epsilonTransitionsTargets NFA.actions]; try done. rewrite length_app. lia.
  - rewrite length_app. cbn. lia.
  - split_and!; [apply Represents_nil|done|constructor].
  - intros [c|] j; cbn; [intros (X & [=] & _)|apply not_elem_of_empty].
  - done.
  - unfold valid. cbn [NFA.nodes]. rewrite length_app. cbn. fold n. lia.
  - intros [H _ _ _ _]. cbn [NFA.nodes] in H. rewrite length_app in H. apply Z.mod_small. unfold n in *. cbn in H. lia.
  - intros i Hi. unfold valid in Hi. rewrite <- (Z2Nat.id i), !at_nat by lia. rewrite lookup_app_l; [done|]. unfold n in *. lia.
  - intros i ->. unfold NFA.transitionsForNode, NFAToDFA.epsilonTargets, nodeActions. cbn [NFA.nodes]. unfold n. rewrite at_nat, list_lookup_middle by done. done.
Qed.

(** ** Finalizing a node *)

Lemma between_appended {A} (l more rest : list A) s e : s = Z.of_nat (length l) -> e = Z.of_nat (length l) + Z.of_nat (length more) ->
  NFA.between ((l ++ more) ++ rest) s e = Some more.
Proof.
  intros -> ->. apply (prefix_between (l ++ more)); [by exists rest|]. unfold NFA.between.
  replace (Z.of_nat (length l) + Z.of_nat (length more) - Z.of_nat (length l)) with (Z.of_nat (length more)) by lia. apply mapM_appended.
Qed.

Lemma size32_small {A} (l : list A) : Z.of_nat (length l) < 2 ^ 32 -> size32 l = Z.of_nat (length l).
Proof. intros H. unfold size32, u32. apply Z.mod_small. lia. Qed.

Lemma spanOf_slice nfa r d : NFA.targetStart r <= NFA.targetEnd r -> NFA.between (NFA.targets nfa) (NFA.targetStart r) (NFA.targetEnd r) = Some d ->
  NFA.spanOf nfa r = Some (mkSpan (NFA.first r) (NFA.last r) d).
Proof. intros H E. unfold NFA.spanOf, NFA.IterableConstTargets. rewrite option_guard_True by done. cbn [mbind option_bind]. by rewrite E. Qed.

Lemma node_insert {A} (l : list A) i x : 0 <= i < Z.of_nat (length l) -> DFA.at_ (<[Z.to_nat i := x]> l) i = Some x.
Proof. intros Hi. unfold DFA.at_. rewrite (proj2 (Z.ltb_ge _ _)) by lia. apply list_lookup_insert_eq. lia. Qed.

Section Finalize.

Context (targetOrder actionOrder : gset Z -> list Z).

Definition targetsOf (s : Span (gset Z)) : Span (list Z) := mkSpan (lo s) (hi s) (targetOrder (val s)).

Lemma sinkRanges_spec ranges : forall targets transitions, exists moreT moreR, sinkRanges targetOrder ranges targets transitions = (targets ++ moreT, transitions ++ moreR)
  /\ length moreR = length ranges
  /\ (Z.of_nat (length (targets ++ moreT)) < 2 ^ 32 -> forall nfa rest, NFA.targets nfa = (targets ++ moreT) ++ rest ->
      mapM (NFA.spanOf nfa) moreR = Some (targetsOf ∘ view <$> ranges)).
Proof.
  induction ranges as [|r ranges IH]; intros targets transitions; cbn [sinkRanges]; [exists [], []; by rewrite !app_nil_r|].
  destruct (IH (targets ++ targetOrder (data r))
    (transitions ++ [NFA.mkRange (size32 targets) (size32 (targets ++ targetOrder (data r))) (first r) (last r)])) as (moreT & moreR & -> & Hl & Hs).
  eexists (targetOrder (data r) ++ moreT), (_ :: moreR). rewrite <- !app_assoc. cbn [app]. split; [reflexivity|]. split; [cbn; lia|].
  intros Hsz nfa rest E. rewrite <- !app_assoc in Hs. rewrite !length_app in Hsz. cbn [mapM].
  rewrite !size32_small, length_app by (rewrite ?length_app; lia). rewrite (spanOf_slice _ _ (targetOrder (data r))).
  2: { cbn. lia. }
  2: { cbn [NFA.targetStart NFA.targetEnd]. rewrite E, (app_assoc targets _ moreT), <- (app_assoc (targets ++ targetOrder (data r)) moreT rest). apply between_appended; lia. }
  cbn [mbind option_bind].
  rewrite (Hs ltac:(rewrite !length_app; lia) nfa rest); [done|]. by rewrite E, <- !app_assoc.
Qed.

Lemma finalize_spec b nfa : shape b -> valid nfa (m_nodeId b) ->
  exists nfa', finalize targetOrder actionOrder b nfa = Some nfa' /\ extends nfa nfa' /\ length (NFA.nodes nfa') = length (NFA.nodes nfa)
    /\ (forall i, i <> m_nodeId b -> DFA.at_ (NFA.nodes nfa') i = DFA.at_ (NFA.nodes nfa) i)
    /\ (small nfa' -> NFA.transitionsForNode nfa' (m_nodeId b) = Some (targetsOf <$> spansOf b)
          /\ NFAToDFA.epsilonTargets nfa' (m_nodeId b) = Some (targetOrder (m_epsilonTransitionTargets b)) /\ nodeActions nfa' (m_nodeId b) = Some (actionOrder (m_actions b))).
Proof.
  intros (HR & _ & _) Hv. unfold finalize. assert (exists node, DFA.at_ (NFA.nodes nfa) (m_nodeId b) = Some node) as [node En].
  { unfold valid in Hv. rewrite <- (Z2Nat.id (m_nodeId b)), at_nat by lia. apply lookup_lt_is_Some. lia. }
  rewrite En. cbn [mbind option_bind]. unfold sinkActions, sinkEpsilonTransitions, sinkTransitions. cbn [NFA.nodes NFA.transitions NFA.targets NFA.epsilonTransitionsTargets NFA.actions
    NFA.rangesStart NFA.rangesEnd NFA.epsilonTransitionTargetsStart NFA.epsilonTransitionTargetsEnd NFA.actionStart NFA.actionEnd].
  destruct (toList_represents _ _ HR) as (l & El & Ev). rewrite El. cbn [mbind option_bind].
  destruct (sinkRanges_spec l (NFA.targets nfa) (NFA.transitions nfa)) as (moreT & moreR & -> & Hlen & Hs). eexists. split; [reflexivity|].
  split; [split; cbn; [by rewrite length_insert|by eexists..]|]. split; [cbn; by rewrite length_insert|]. unfold valid in Hv. split.
  - intros i Hi. cbn [NFA.nodes]. unfold DFA.at_. destruct (Z.ltb_spec i 0); [done|]. apply list_lookup_insert_ne. lia.
  - intros [Z1 Z2 Z3 Z4 Z5]. cbn [NFA.nodes NFA.transitions NFA.targets NFA.epsilonTransitionsTargets NFA.actions] in *. rewrite !length_app in Z2, Z4, Z5.
    unfold NFA.transitionsForNode, NFAToDFA.epsilonTargets, nodeActions. cbn [NFA.nodes]. rewrite node_insert by done.
    cbn [mbind option_bind NFA.nodes NFA.transitions NFA.targets NFA.epsilonTransitionsTargets NFA.actions
      NFA.rangesStart NFA.rangesEnd NFA.epsilonTransitionTargetsStart NFA.epsilonTransitionTargetsEnd NFA.actionStart NFA.actionEnd].
    rewrite !size32_small by (rewrite ?length_app; lia). rewrite option_guard_True by (rewrite ?length_app; lia). cbn [mbind option_bind].
    split_and!.
    + pose proof (between_appended (NFA.transitions nfa) moreR [] _ _ eq_refl eq_refl) as Hb. rewrite app_nil_r in Hb. rewrite length_app, Nat2Z.inj_add, Hb. cbn [mbind option_bind].
      erewrite (Hs Z3 _ []) by (cbn; by rewrite app_nil_r). by rewrite list_fmap_compose, Ev.
    + pose proof (between_appended (NFA.epsilonTransitionsTargets nfa) (targetOrder (m_epsilonTransitionTargets b)) [] _ _ eq_refl eq_refl) as Hb. rewrite app_nil_r in Hb. by rewrite length_app, Nat2Z.inj_add.
    + pose proof (between_appended (NFA.actions nfa) (actionOrder (m_actions b)) [] _ _ eq_refl eq_refl) as Hb. rewrite app_nil_r in Hb. by rewrite length_app, Nat2Z.inj_add.
Qed.

End Finalize.

(** * The nodes that a term generates read its strings *)

Import MutableRangeList ImmutableNFANodeBuilder Term.

(** ** Edges and actions of the nodes of an automaton *)

Definition nedge (nfa : NFA.NFA) : edges := fun i l j => match l with None => eps nfa i j | Some c => step nfa c i j end.

Definition nact (nfa : NFA.NFA) (i a : Z) : Prop := exists acts, nodeActions nfa i = Some acts /\ a ∈ acts.

Lemma path_run nfa i w k : path (nedge nfa) i w k <-> nfaRun nfa i w k.
Proof. split; (induction 1; [constructor|by eapply path_eps || eapply run_eps; eauto|by eapply path_char || eapply run_char; eauto]). Qed.

Lemma sameRow_nedge nfa nfa' i l j : sameRow nfa nfa' i -> nedge nfa' i l j <-> nedge nfa i l j.
Proof. intros (E1 & E2 & _). unfold nedge, eps, step. destruct l; by rewrite ?E1, ?E2. Qed.

Lemma sameRow_nact nfa nfa' i a : sameRow nfa nfa' i -> nact nfa' i a <-> nact nfa i a.
Proof. intros (_ & _ & E3). unfold nact. by rewrite E3. Qed.

Definition count (nfa : NFA.NFA) : Z := Z.of_nat (length (NFA.nodes nfa)).

(** The nodes that were added. *)
Definition fresh (nfa nfa' : NFA.NFA) (i : Z) : Prop := count nfa <= i < count nfa'.

Lemma valid_count nfa i : valid nfa i <-> 0 <= i < count nfa.
Proof. done. Qed.

Lemma count_nonneg nfa : 0 <= count nfa.
Proof. unfold count. lia. Qed.

Lemma extends_count nfa nfa' : extends nfa nfa' -> 0 <= count nfa <= count nfa'.
Proof. intros []. unfold count. lia. Qed.

Definition bounded (nfa : NFA.NFA) (b : Builder) : Prop := forall l j, bedge b l j -> valid nfa j.

Lemma newBuilder_rows nfa : let '(nfa', b) := newBuilder nfa in okRows nfa ->
  okRows nfa' /\ (forall i, valid nfa i -> sameRow nfa nfa' i) /\ (forall l j, ~ nedge nfa' (count nfa) l j) /\ forall a, ~ nact nfa' (count nfa) a.
Proof.
  destruct (newBuilder nfa) as [nfa' b] eqn:E. pose proof (newBuilder_spec nfa) as [N1 N2 _ _ _ _ _ N3 N4]. rewrite E in *. cbn [fst snd] in *. intros Hok.
  assert (forall i, valid nfa i -> sameRow nfa nfa' i) as Hs by (intros i Hi; apply extends_row; [done|by apply Hok|by apply N3]).
  destruct (N4 (count nfa) eq_refl) as (R1 & R2 & R3). split_and!; try done.
  - intros i Hi. destruct (decide (valid nfa i)) as [Hv|Hv]; [apply (sameRow_ok nfa); auto|]. assert (i = count nfa) as -> by (unfold valid, count in *; lia).
    split; [by exists []|by exists []|by exists []].
  - intros [c|] j; cbn; [intros (ss & ts & Es & Ef & _); rewrite R1 in Es; by injection Es as <-|].
    intros (ts & Es & Hj). rewrite R2 in Es. injection Es as <-. by apply not_elem_of_nil in Hj.
  - intros a (acts & Es & Ha). rewrite R3 in Es. injection Es as <-. by apply not_elem_of_nil in Ha.
Qed.

Lemma find_targetsOf (targetOrder : gset Z -> list Z) c spans : find c (targetsOf targetOrder <$> spans) = targetOrder <$> find c spans.
Proof. apply find_fmap. Qed.

Section Orders.

Context (targetOrder actionOrder : gset Z -> list Z).
Hypothesis targets_listed : forall s, targetOrder s ≡ₚ elements s.
Hypothesis actions_listed : forall s, actionOrder s ≡ₚ elements s.

Lemma elem_targetOrder s j : j ∈ targetOrder s <-> j ∈ s.
Proof using targets_listed. by rewrite targets_listed, elem_of_elements. Qed.

Lemma elem_actionOrder s a : a ∈ actionOrder s <-> a ∈ s.
Proof using actions_listed. by rewrite actions_listed, elem_of_elements. Qed.

(** Finalizing a builder. *)
Lemma finalize_rows b nfa : shape b -> valid nfa (m_nodeId b) ->
  exists nfa', finalize targetOrder actionOrder b nfa = Some nfa' /\ extends nfa nfa' /\ count nfa' = count nfa
    /\ (small nfa' -> okRows nfa -> bounded nfa b -> okRows nfa' /\ (forall i, valid nfa i -> i <> m_nodeId b -> sameRow nfa nfa' i)
          /\ (forall l j, nedge nfa' (m_nodeId b) l j <-> bedge b l j) /\ forall a, nact nfa' (m_nodeId b) a <-> a ∈ m_actions b).
Proof using targets_listed actions_listed.
  intros Hb Hv. destruct (finalize_spec targetOrder actionOrder b nfa Hb Hv) as (nfa' & E & Hext & Hlen & Hold & Hnew). exists nfa'. split; [done|]. split; [done|].
  assert (count nfa' = count nfa) as Hc by (unfold count; by rewrite Hlen). split; [done|]. intros Hsmall Hok Hbd. destruct (Hnew Hsmall) as (R1 & R2 & R3).
  assert (forall i, valid nfa i -> i <> m_nodeId b -> sameRow nfa nfa' i) as Hs by (intros i Hi Hne; apply extends_row; [done|by apply Hok|by apply Hold]).
  destruct Hb as (_ & HO & HN). assert (forall l j, nedge nfa' (m_nodeId b) l j <-> bedge b l j) as He.
  { intros [c|] j; cbn.
    - unfold step. rewrite R1. split.
      + intros (ss & ts & [= <-] & Ef & Hj). rewrite find_targetsOf in Ef. destruct (find c (spansOf b)) as [X|]; [|done]. injection Ef as <-. exists X. by rewrite elem_targetOrder in Hj.
      + intros (X & Ef & Hj). exists (targetsOf targetOrder <$> spansOf b), (targetOrder X). rewrite find_targetsOf, Ef, elem_targetOrder. done.
    - unfold eps. rewrite R2. setoid_rewrite <- elem_targetOrder. naive_solver. }
  split_and!; try done.
  - intros i Hi. destruct (decide (i = m_nodeId b)) as [->|Hne]; [|apply (sameRow_ok nfa); [done|apply Hok; unfold valid, count in *; lia|apply Hs; [unfold valid, count in *; lia|done]]].
    assert (forall j, valid nfa j -> valid nfa' j) as Hvv by (intros j; unfold valid, count in *; lia). split.
    + eexists. split; [exact R2|]. apply Forall_forall. intros j. rewrite elem_targetOrder. intros Hj. by apply Hvv, (Hbd None).
    + eexists. split; [exact R1|]. split; [by apply ordered_fmap|]. apply Forall_fmap, Forall_forall. intros s Hin. cbn. rewrite Forall_forall in HN. destruct (HN s Hin) as [j0 Hj0]. split.
      * intros E0. assert (j0 ∈ targetOrder (val s)) as H0 by by apply elem_targetOrder. rewrite E0 in H0. by apply not_elem_of_nil in H0.
      * apply Forall_forall. intros j. rewrite elem_targetOrder. intros Hj. pose proof (ordered_bounds _ _ HO) as HB. rewrite Forall_forall in HB. specialize (HB s Hin).
        apply Hvv, (Hbd (Some (lo s))). exists (val s). split; [|done]. apply (find_elem _ (-1)); [done|done|lia].
    + eexists. exact R3.
  - intros a. unfold nact. rewrite R3. setoid_rewrite <- elem_actionOrder. naive_solver.
Qed.

(** ** Drawing *)

(** The characters of edges are in the alphabet [A]. *)
Context (A : Z -> Prop).

Record Drawn (nfa nfa' : NFA.NFA) (b b' : Builder) (d : Z) (L : language) : Prop := {
  drawn_rows : okRows nfa';
  drawn_old : forall i, valid nfa i -> sameRow nfa nfa' i;
  drawn_frag : exists R, frag (m_nodeId b) d (fresh nfa nfa') A R L /\ (forall l j, bedge b' l j <-> bedge b l j \/ R (m_nodeId b) l j)
    /\ forall i l j, fresh nfa nfa' i -> nedge nfa' i l j <-> R i l j;
  drawn_quiet : forall i a, fresh nfa nfa' i -> ~ nact nfa' i a }.

(** An operation that draws a fragment for [L]. *)
Definition Draws (f : NFA.NFA -> Builder -> Z -> option (NFA.NFA * Builder)) (L : language) : Prop :=
  forall nfa b d, shape b -> valid nfa (m_nodeId b) ->
  exists nfa' b', f nfa b d = Some (nfa', b') /\ extends nfa nfa' /\ shape b' /\ m_nodeId b' = m_nodeId b /\ m_actions b' = m_actions b
    /\ (small nfa' -> okRows nfa -> valid nfa d -> m_nodeId b <> d -> Drawn nfa nfa' b b' d L).

Lemma Draws_iff f L L' : (forall w, L w <-> L' w) -> Draws f L -> Draws f L'.
Proof.
  intros HL Hf nfa b d Hb Hv. destruct (Hf nfa b d Hb Hv) as (nfa' & b' & H1 & H2 & H3 & H4 & H5 & H6). exists nfa', b'. split_and!; try done. intros A1 A2 A3 A4.
  destruct (H6 A1 A2 A3 A4) as [D1 D2 (R & D3 & D4) D5]. split; try done. exists R. split; [|done]. by eapply frag_iff; [| |exact D3].
Qed.

(** Edges at the source only. *)
Lemma Drawn_source nfa b b' d R L : okRows nfa -> frag (m_nodeId b) d (fun _ => False) A R L -> (forall l j, bedge b' l j <-> bedge b l j \/ R (m_nodeId b) l j) -> Drawn nfa nfa b b' d L.
Proof.
  intros Hok HF HE. assert (forall i, fresh nfa nfa i <-> False) as Hno by (unfold fresh; intros; lia). split; try done.
  - exists R. split; [|split; [done|intros i l j []%Hno]]. by eapply frag_iff; [intros i; symmetry; apply Hno| |exact HF].
  - by intros i a []%Hno.
Qed.

Lemma Draws_eps : Draws (fun nfa b d => Some (nfa, addEpsilonTransition d b)) (fun w => w = []).
Proof.
  intros nfa b d Hb Hv. exists nfa, (addEpsilonTransition d b). split_and!; try done. intros _ Hok _ Hne. apply (Drawn_source _ _ _ _ (epsEdge (m_nodeId b) d)); [done|by apply frag_eps|].
  intros l j. rewrite addEpsilonTransition_edges. unfold epsEdge. naive_solver.
Qed.

Lemma Draws_optional f L : Draws f L -> Draws (fun nfa b d => '(nfa, b) ← f nfa b d; Some (nfa, addEpsilonTransition d b)) (fun w => w = [] \/ L w).
Proof.
  intros Hf nfa b d Hb Hv. destruct (Hf nfa b d Hb Hv) as (nfa' & b' & -> & H2 & H3 & H4 & H5 & H6). cbn [mbind option_bind]. exists nfa', (addEpsilonTransition d b').
  split_and!; try done. intros A1 A2 A3 A4. destruct (H6 A1 A2 A3 A4) as [D1 D2 (R & D3 & D4 & D5) D6]. split; try done. unfold valid, fresh, count in *.
  exists (both R (epsEdge (m_nodeId b) d)). split; [apply frag_optional; [done|lia|lia|done]|]. split.
  - intros l j. rewrite addEpsilonTransition_edges, D4. unfold both, epsEdge. naive_solver.
  - intros i l j Hi. rewrite (D5 i l j Hi). unfold both, epsEdge. split; [by left|]. intros [?|(-> & _)]; [done|lia].
Qed.

(** The edges that a drawn fragment adds stay inside. *)
Lemma Drawn_bounded nfa nfa' b b' d L : extends nfa nfa' -> valid nfa d -> bounded nfa b -> Drawn nfa nfa' b b' d L -> bounded nfa' b'.
Proof.
  intros Hext Hd Hb [_ _ (R & HF & HE & _) _] l j Hj. pose proof (extends_count _ _ Hext). apply HE in Hj as [Hj|Hj]; [eapply valid_extends; [done|by apply Hb in Hj]|].
  apply (frag_to HF) in Hj as [->|Hj]; [by eapply valid_extends|]. unfold fresh in Hj. apply valid_count. lia.
Qed.

Lemma bounded_extends nfa nfa' b : extends nfa nfa' -> bounded nfa b -> bounded nfa' b.
Proof. intros He Hb l j Hj. eapply valid_extends; [done|by apply Hb in Hj]. Qed.

(** The nodes of a repetition: the start, the end, and those of the atom. *)
Lemma Drawn_repeat nfa nfa' b d R L n : n = count nfa -> okRows nfa' -> (forall i, valid nfa i -> sameRow nfa nfa' i) -> valid nfa (m_nodeId b) -> valid nfa d -> m_nodeId b <> d ->
  frag n (n + 1) (fun i => n + 2 <= i < count nfa') A R L ->
  (forall i l j, fresh nfa nfa' i -> i <> n + 1 -> nedge nfa' i l j <-> R i l j) -> (forall l j, nedge nfa' (n + 1) l j <-> l = None /\ (j = n \/ j = d)) ->
  (forall i a, fresh nfa nfa' i -> ~ nact nfa' i a) -> n + 2 <= count nfa' -> Drawn nfa nfa' b (addEpsilonTransition n b) d (cat L (star L)).
Proof.
  intros -> Hok Hold Hs Hd Hne HF HR Hend Hq Hn. rewrite valid_count in Hs, Hd. set (n := count nfa) in *. split; try done.
  exists (repeatEdges (m_nodeId b) d n (n + 1) R). assert (forall l j, ~ R (m_nodeId b) l j) as Hsrc by (intros l j Hr; apply (frag_from HF) in Hr; lia).
  split; [|split].
  - eapply frag_iff; [|reflexivity|apply frag_repeat; [exact HF| |cbv beta; lia]].
    + intros i. cbv beta. unfold fresh. fold n. lia.
    + repeat (constructor; [rewrite ?not_elem_of_cons; split_and?; [..|apply not_elem_of_nil]; lia|]). constructor.
  - intros l j. rewrite addEpsilonTransition_edges. unfold repeatEdges, both, epsEdge. specialize (Hsrc l j). intuition (subst; auto; lia).
  - intros i l j Hi. destruct (decide (i = n + 1)) as [->|Hin].
    + rewrite Hend. assert (~ R (n + 1) l j) by (intros Hr; apply (frag_from HF) in Hr; lia). unfold repeatEdges, both, epsEdge. intuition (subst; auto; lia).
    + rewrite (HR i l j Hi Hin). unfold fresh in Hi. fold n in Hi. unfold repeatEdges, both, epsEdge. intuition (subst; auto; lia).
Qed.

Lemma generateRepeat_spec f L : Draws f L -> Draws (generateRepeat targetOrder actionOrder f) (cat L (star L)).
Proof using targets_listed actions_listed.
  intros Hf nfa b d Hb Hv. unfold generateRepeat.
  pose proof (newBuilder_spec nfa) as [A1 A2 A3 A4 A5 A6 A7 _ _]. pose proof (newBuilder_rows nfa) as A8. destruct (newBuilder nfa) as [nfa1 rs]. cbn [fst snd] in *.
  pose proof (newBuilder_spec nfa1) as [B1 B2 B3 B4 B5 B6 B7 _ _]. pose proof (newBuilder_rows nfa1) as B8. destruct (newBuilder nfa1) as [nfa2 re]. cbn [fst snd] in *.
  destruct (Hf nfa2 rs (m_nodeId re) A3) as (nfa3 & rs' & -> & C1 & C2 & C3 & C4 & C5); [by eapply valid_extends|]. cbn [mbind option_bind].
  set (re' := addEpsilonTransition d (addEpsilonTransition (m_nodeId rs') re)).
  destruct (finalize_rows re' nfa3) as (nfa4 & -> & D1 & D2 & D3); [done|by eapply valid_extends|]. cbn [mbind option_bind].
  destruct (finalize_rows rs' nfa4) as (nfa5 & -> & E1 & E2 & E3); [done|rewrite C3; do 3 (eapply valid_extends; [eassumption|]); done|]. cbn [mbind option_bind].
  eexists _, _. split; [reflexivity|]. split; [by do 4 (etrans; [eassumption|])|]. split; [done|]. split; [done|]. split; [done|]. intros S5 Hok Hd Hne.
  pose proof (small_extends _ _ E1 S5) as S4. pose proof (small_extends _ _ D1 S4) as S3. pose proof (small_extends _ _ C1 S3) as S2. pose proof (small_extends _ _ B1 S2) as S1.
  specialize (A7 S1). specialize (B7 S2). destruct (A8 Hok) as (Ok1 & Same1 & _ & _). destruct (B8 Ok1) as (Ok2 & Same2 & _ & _).
  assert (count nfa1 = count nfa + 1 /\ count nfa2 = count nfa + 2) as [N1 N2] by (unfold count in *; lia). fold (count nfa) in A7. fold (count nfa1) in B7.
  pose proof (extends_count _ _ C1) as N3. rewrite valid_count in Hv, Hd.
  assert (valid nfa2 (m_nodeId re)) as V2 by done. specialize (C5 S3 Ok2 V2 ltac:(lia)).
  assert (bounded nfa3 rs') as BD by (eapply Drawn_bounded; [done|exact V2| |exact C5]; intros l j []%A4).
  destruct C5 as [Ok3 Same3 (R & HF & HE & HR) HQ].
  assert (bounded nfa3 re') as BE.
  { intros l j Hj. unfold re' in Hj. rewrite !addEpsilonTransition_edges in Hj. destruct Hj as [[Hj|[_ ->]]|[_ ->]]; [by apply B4 in Hj|rewrite valid_count; lia..]. }
  destruct (D3 S4 Ok3 BE) as (Ok4 & Same4 & Ed4 & Ac4). destruct (E3 S5 Ok4 (bounded_extends _ _ _ D1 BD)) as (Ok5 & Same5 & Ed5 & Ac5).
  assert (m_nodeId re' = count nfa + 1) as Ire by (unfold re'; cbn [m_nodeId addEpsilonTransition]; lia). assert (m_nodeId rs' = count nfa) as Irs by congruence.
  rewrite Irs in *. rewrite Ire in *. rewrite A7, B7 in *.
  assert (forall i, valid nfa3 i -> i <> count nfa -> i <> count nfa + 1 -> sameRow nfa3 nfa5 i) as Same35.
  { intros i Hi H1 H2. eapply sameRow_trans; [by apply Same4|]. apply Same5; [|done]. by eapply valid_extends. }
  assert (sameRow nfa4 nfa5 (count nfa + 1)) as Same45 by (apply Same5; [rewrite valid_count|]; lia).
  apply (Drawn_repeat _ _ _ _ R); try done; try lia.
  - intros i Hi. rewrite valid_count in Hi. eapply sameRow_trans; [by apply Same1|]. eapply sameRow_trans; [apply Same2; rewrite valid_count; lia|].
    eapply sameRow_trans; [apply Same3; rewrite valid_count; lia|]. apply Same35; rewrite ?valid_count; lia.
  - rewrite N1 in HF. eapply frag_iff; [|reflexivity|exact HF]. intros i. unfold fresh. lia.
  - intros i l j Hi Hin. unfold fresh in Hi. destruct (decide (i = count nfa)) as [->|Hi0]; [rewrite Ed5, HE; specialize (A4 l j); tauto|].
    rewrite (sameRow_nedge nfa3) by (apply Same35; rewrite ?valid_count; lia). apply HR. unfold fresh. lia.
  - intros l j. rewrite (sameRow_nedge nfa4), Ed4 by done. unfold re'. rewrite !addEpsilonTransition_edges, Irs. specialize (B4 l j). tauto.
  - intros i a Hi. unfold fresh in Hi. destruct (decide (i = count nfa)) as [->|Hi0]; [rewrite Ac5, C4, A5; apply not_elem_of_empty|].
    destruct (decide (i = count nfa + 1)) as [->|Hi1]; [rewrite (sameRow_nact nfa4), Ac4 by done; cbn; rewrite B5; apply not_elem_of_empty|].
    rewrite (sameRow_nact nfa3) by (apply Same35; rewrite ?valid_count; lia). apply HQ. unfold fresh. lia.
Qed.

(** ** Sequences *)

(** A fragment to a new node [n] and one from there. *)
Lemma frag_join s d n n1 n2 R1 R2 L1 L2 : s < n -> d < n -> s <> d -> n + 1 <= n1 <= n2 ->
  frag s n (fun i => n < i < n1) A R1 L1 -> frag n d (fun i => n1 <= i < n2) A R2 L2 ->
  frag s d (fun i => n <= i < n2) A (both R1 R2) (cat L1 L2) /\ forall i l j, both R1 R2 i l j <-> (if decide (i = n \/ n1 <= i) then R2 i l j else R1 i l j).
Proof.
  intros Hs Hd Hne Hn H1 H2. split.
  - eapply frag_iff; [|reflexivity|eapply frag_cat; [exact H1|exact H2|..]]; cbv beta; lia.
  - intros i l j. unfold both. case_decide as Hi.
    + split; [|by right]. intros [Hr|Hr]; [|done]. apply (frag_from H1) in Hr. lia.
    + split; [|by left]. intros [Hr|Hr]; [done|]. apply (frag_from H2) in Hr. lia.
Qed.

(** Drawn to a new node, which is live. *)
Record ToEnd (nfa nfa' : NFA.NFA) (b b' : Builder) (L : language) : Prop := {
  end_rows : okRows nfa';
  end_old : forall i, valid nfa i -> sameRow nfa nfa' i;
  end_frag : exists R, frag (m_nodeId b) (count nfa) (fun i => count nfa < i < count nfa') A R L /\ (forall l j, bedge b' l j <-> bedge b l j \/ R (m_nodeId b) l j)
    /\ forall i l j, count nfa < i < count nfa' -> nedge nfa' i l j <-> R i l j;
  end_quiet : forall i a, fresh nfa nfa' i -> ~ nact nfa' i a;
  end_live : forall l j, ~ nedge nfa' (count nfa) l j;
  end_count : count nfa < count nfa' }.

Lemma generateToNewEnd_spec g t L acts nfa b : Draws (g t) L -> shape b -> valid nfa (m_nodeId b) ->
  exists nfa' b' e, generateToNewEnd g t nfa b acts = Some (nfa', b', e) /\ extends nfa nfa' /\ shape b' /\ m_nodeId b' = m_nodeId b /\ m_actions b' = m_actions b
    /\ shape e /\ valid nfa' (m_nodeId e) /\ (forall l j, ~ bedge e l j) /\ m_actions e = list_to_set acts
    /\ (small nfa' -> okRows nfa -> m_nodeId e = count nfa /\ ToEnd nfa nfa' b b' L).
Proof.
  intros Hf Hb Hv. unfold generateToNewEnd.
  pose proof (newBuilder_spec nfa) as [A1 A2 A3 A4 A5 A6 A7 _ _]. pose proof (newBuilder_rows nfa) as A8. destruct (newBuilder nfa) as [nfa1 e]. cbn [fst snd] in *.
  destruct (Hf nfa1 b (m_nodeId e) Hb) as (nfa2 & b' & -> & B1 & B2 & B3 & B4 & B5); [by eapply valid_extends|]. cbn [mbind option_bind].
  exists nfa2, b', (setActions acts e). split; [done|]. split; [by etrans|]. split; [done|]. split; [done|]. split; [done|]. split; [done|]. split; [by eapply valid_extends|].
  split; [intros [c|] j; [exact (A4 (Some c) j)|exact (A4 None j)]|]. split; [cbn [setActions m_actions]; rewrite A5; set_solver|]. intros S2 Hok. pose proof (small_extends _ _ B1 S2) as S1.
  destruct (A8 Hok) as (Ok1 & Same1 & Q0 & Q1). specialize (A7 S1). fold (count nfa) in A7. split; [done|]. rewrite valid_count in Hv.
  assert (count nfa1 = count nfa + 1) as N1 by (unfold count; lia). pose proof (extends_count _ _ B1) as N2.
  rewrite A7 in *. destruct (B5 S2 Ok1 A6 ltac:(lia)) as [Ok2 Same2 (R & HF & HE & HR) HQ]. split; [done| | | | |lia].
  - intros i Hi. eapply sameRow_trans; [by apply Same1|]. apply Same2. by eapply valid_extends.
  - exists R. split; [eapply frag_iff; [|reflexivity|exact HF]; intros i; unfold fresh; lia|]. split; [done|]. intros i l j Hi. apply HR. unfold fresh. lia.
  - intros i a Hi. unfold fresh in Hi. destruct (decide (i = count nfa)) as [->|]; [rewrite (sameRow_nact nfa1); [apply Q1|by apply Same2]|]. apply HQ. unfold fresh. lia.
  - intros l j. rewrite (sameRow_nedge nfa1); [apply Q0|by apply Same2].
Qed.

(** The source [m] is finalized too. *)
Record Finished (nfa nfa' : NFA.NFA) (m d : Z) (L : language) : Prop := {
  fin_rows : okRows nfa';
  fin_old : forall i, valid nfa i -> i <> m -> sameRow nfa nfa' i;
  fin_frag : exists R, frag m d (fresh nfa nfa') A R L /\ forall i l j, i = m \/ fresh nfa nfa' i -> nedge nfa' i l j <-> R i l j;
  fin_quiet : forall i a, i = m \/ fresh nfa nfa' i -> ~ nact nfa' i a }.

Lemma Finished_last nfa nfa1 nfa2 b b1 d L : valid nfa (m_nodeId b) -> extends nfa nfa1 -> Drawn nfa nfa1 b b1 d L -> m_nodeId b1 = m_nodeId b ->
  (forall l j, ~ bedge b l j) -> count nfa2 = count nfa1 -> okRows nfa2 -> (forall i, valid nfa1 i -> i <> m_nodeId b -> sameRow nfa1 nfa2 i) ->
  (forall l j, nedge nfa2 (m_nodeId b) l j <-> bedge b1 l j) -> (forall a, ~ nact nfa2 (m_nodeId b) a) -> Finished nfa nfa2 (m_nodeId b) d L.
Proof.
  intros Hv Hext [D1 D2 (R & HF & HE & HR) HQ] Hid Hno Hc Hok Hsame Hedge Hact. rewrite valid_count in Hv. pose proof (extends_count _ _ Hext) as Hn.
  assert (forall i, fresh nfa nfa2 i <-> fresh nfa nfa1 i) as Hfr by (intros i; unfold fresh; lia). split; [done| | |].
  - intros i Hi Hne. eapply sameRow_trans; [by apply D2|]. apply Hsame; [by eapply valid_extends|done].
  - exists R. split; [by eapply frag_iff; [intros i; symmetry; apply Hfr|reflexivity|]|]. intros i l j [->|Hi].
    + rewrite Hedge, HE. specialize (Hno l j). tauto.
    + apply Hfr in Hi. rewrite (sameRow_nedge nfa1) by (apply Hsame; [rewrite valid_count|]; unfold fresh in Hi; lia). by apply HR.
  - intros i a [->|Hi]; [done|]. apply Hfr in Hi. rewrite (sameRow_nact nfa1) by (apply Hsame; [rewrite valid_count|]; unfold fresh in Hi; lia). by apply HQ.
Qed.

(** The rows between the two ends when the rest was drawn from the new node. *)
Section Join.

Context (nfa nfa1 nfa3 : NFA.NFA) (s d : Z) (R1 R2 : edges) (L M : language).
Hypothesis Hs : valid nfa s.
Hypothesis Hd : valid nfa d.
Hypothesis Hne : s <> d.
Hypothesis Hcount : count nfa < count nfa1 <= count nfa3.
Hypothesis H1 : frag s (count nfa) (fun i => count nfa < i < count nfa1) A R1 L.
Hypothesis H2 : frag (count nfa) d (fun i => count nfa1 <= i < count nfa3) A R2 M.
Hypothesis E1 : forall i l j, count nfa < i < count nfa1 -> nedge nfa3 i l j <-> R1 i l j.
Hypothesis E2 : forall i l j, i = count nfa \/ count nfa1 <= i < count nfa3 -> nedge nfa3 i l j <-> R2 i l j.

Lemma join_edges : exists R, frag s d (fresh nfa nfa3) A R (cat L M) /\ (forall l j, R s l j <-> R1 s l j) /\ forall i l j, fresh nfa nfa3 i -> nedge nfa3 i l j <-> R i l j.
Proof using All.
  rewrite valid_count in *. destruct (frag_join s d (count nfa) (count nfa1) (count nfa3) R1 R2 L M) as [HF HE]; [lia..|done|done|]. exists (both R1 R2). split; [done|]. split.
  - intros l j. rewrite HE, decide_False by lia. done.
  - intros i l j Hi. unfold fresh in Hi. rewrite HE. case_decide; [apply E2; lia|apply E1; lia].
Qed.

End Join.

Lemma Finished_step nfa nfa1 nfa2 nfa3 b b1 d L M : valid nfa (m_nodeId b) -> valid nfa d -> m_nodeId b <> d -> (forall l j, ~ bedge b l j) ->
  ToEnd nfa nfa1 b b1 L -> count nfa2 = count nfa1 -> extends nfa2 nfa3 -> (forall i, valid nfa1 i -> i <> m_nodeId b -> sameRow nfa1 nfa2 i) ->
  (forall l j, nedge nfa2 (m_nodeId b) l j <-> bedge b1 l j) -> (forall a, ~ nact nfa2 (m_nodeId b) a) ->
  Finished nfa2 nfa3 (count nfa) d M -> Finished nfa nfa3 (m_nodeId b) d (cat L M).
Proof.
  intros Hs Hd Hne Hno [T1 T2 (R1 & F1 & B1 & E1) T4 _ T5] Hc Hext Hsame Hedge Hact [G1 G2 (R2 & F2 & E2) G4]. pose proof (extends_count _ _ Hext) as Hn. pose proof (count_nonneg nfa) as Hp.
  pose proof (proj1 (valid_count _ _) Hs) as Hs'.
  assert (forall i, 0 <= i < count nfa1 -> i <> m_nodeId b -> i <> count nfa -> sameRow nfa1 nfa3 i) as Same13.
  { intros i Hi Ha Hb. eapply sameRow_trans; [by apply Hsame|]. apply G2; [rewrite valid_count; lia|done]. }
  assert (sameRow nfa2 nfa3 (m_nodeId b)) as Same23 by (apply G2; [rewrite valid_count|]; lia).
  destruct (join_edges nfa nfa1 nfa3 (m_nodeId b) d R1 R2 L M) as (R & HF & HR & HE); try done; try lia.
  { eapply frag_iff; [|reflexivity|exact F2]. intros i. unfold fresh. lia. }
  { intros i l j Hi. rewrite (sameRow_nedge nfa1) by (apply Same13; lia). by apply E1. }
  { intros i l j Hi. apply E2. unfold fresh. lia. }
  split; [done| | |].
  - intros i Hi Hin. eapply sameRow_trans; [by apply T2|]. rewrite valid_count in Hi. apply Same13; lia.
  - exists R. split; [done|]. intros i l j [->|Hi]; [|by apply HE]. rewrite (sameRow_nedge nfa2), Hedge, B1, HR by done. specialize (Hno l j). tauto.
  - intros i a [->|Hi]; [by rewrite (sameRow_nact nfa2)|]. unfold fresh in Hi. destruct (decide (i = count nfa \/ count nfa1 <= i)) as [Hi'|Hi'].
    + apply G4. unfold fresh. lia.
    + rewrite (sameRow_nact nfa1) by (apply Same13; lia). apply T4. unfold fresh. lia.
Qed.

Lemma Drawn_sequence nfa nfa1 nfa2 b b1 d L M : valid nfa (m_nodeId b) -> valid nfa d -> m_nodeId b <> d -> ToEnd nfa nfa1 b b1 L -> extends nfa1 nfa2 ->
  Finished nfa1 nfa2 (count nfa) d M -> Drawn nfa nfa2 b b1 d (cat L M).
Proof.
  intros Hs Hd Hne [T1 T2 (R1 & F1 & B1 & E1) T4 _ T5] Hext [G1 G2 (R2 & F2 & E2) G4]. pose proof (extends_count _ _ Hext) as Hn. pose proof (count_nonneg nfa) as Hp.
  assert (forall i, 0 <= i < count nfa1 -> i <> count nfa -> sameRow nfa1 nfa2 i) as Same by (intros i Hi Ha; by apply G2).
  destruct (join_edges nfa nfa1 nfa2 (m_nodeId b) d R1 R2 L M) as (R & HF & HR & HE); try done; try lia.
  { intros i l j Hi. rewrite (sameRow_nedge nfa1) by (apply Same; lia). by apply E1. }
  split; [done| | |].
  - intros i Hi. eapply sameRow_trans; [by apply T2|]. rewrite valid_count in Hi. apply Same; lia.
  - exists R. split; [done|]. split; [|done]. intros l j. by rewrite HR.
  - intros i a Hi. unfold fresh in Hi. destruct (decide (i = count nfa \/ count nfa1 <= i)) as [Hi'|Hi'].
    + apply G4. unfold fresh. lia.
    + rewrite (sameRow_nact nfa1) by (apply Same; lia). apply T4. unfold fresh. lia.
Qed.

Lemma ToEnd_bounded nfa nfa' b b' L : count nfa < count nfa' -> (forall l j, ~ bedge b l j) -> ToEnd nfa nfa' b b' L -> bounded nfa' b'.
Proof.
  intros Hn Hno [_ _ (R & HF & HE & _) _ _ _] l j Hj. apply HE in Hj as [Hj|Hj]; [by apply Hno in Hj|].
  apply (frag_to HF) in Hj. rewrite valid_count. unfold count in *. lia.
Qed.

Lemma generateRest_spec g (M : Term -> language) terms : Forall (fun t => Draws (g t) (M t)) terms -> terms <> [] -> forall nfa b d, shape b -> valid nfa (m_nodeId b) ->
  exists nfa', generateRest targetOrder actionOrder g terms nfa b d = Some nfa' /\ extends nfa nfa'
    /\ (small nfa' -> okRows nfa -> valid nfa d -> m_nodeId b <> d -> (forall l j, ~ bedge b l j) -> m_actions b = ∅ -> Finished nfa nfa' (m_nodeId b) d (cats M terms)).
Proof using targets_listed actions_listed.
  induction 1 as [|t terms Ht Hterms IH]; intros Hne0 nfa b d Hb Hv; [done|]. destruct terms as [|t' terms]; cbn [generateRest].
  - destruct (Ht nfa b d Hb Hv) as (nfa1 & b1 & -> & A1 & A2 & A3 & A4 & A5). cbn [mbind option_bind].
    destruct (finalize_rows b1 nfa1 A2) as (nfa2 & E & B1 & B2 & B3); [rewrite A3; by eapply valid_extends|]. rewrite A3, A4 in B3. exists nfa2. split; [done|]. split; [by etrans|].
    intros S2 Hok Hd Hne Hno Hact. pose proof (small_extends _ _ B1 S2) as S1. specialize (A5 S1 Hok Hd Hne).
    destruct (B3 S2 (drawn_rows _ _ _ _ _ _ A5)) as (Ok2 & Same2 & Ed2 & Ac2); [by eapply Drawn_bounded; [..|exact A5]; [| |intros l j []%Hno]|].
    assert (Finished nfa nfa2 (m_nodeId b) d (M t)) as [F1 F2 (R & HF & HE) F4].
    { eapply Finished_last; try done. intros a. rewrite Ac2, Hact. apply not_elem_of_empty. }
    split; try done. exists R. split; [|done]. eapply frag_iff; [reflexivity| |exact HF]. intros w. by rewrite cats_one.
  - destruct (generateToNewEnd_spec g t (M t) [] nfa b Ht Hb Hv) as (nfa1 & b1 & e & -> & A1 & A2 & A3 & A4 & A5 & A6 & A7 & A8 & A9). cbn [mbind option_bind].
    destruct (finalize_rows b1 nfa1 A2) as (nfa2 & -> & B1 & B2 & B3); [rewrite A3; by eapply valid_extends|]. rewrite A3, A4 in B3. cbn [mbind option_bind].
    destruct (IH ltac:(done) nfa2 e d A5) as (nfa3 & C & C1 & C2); [by eapply valid_extends|]. exists nfa3. split; [exact C|]. split; [by do 2 (etrans; [eassumption|])|].
    intros S3 Hok Hd Hne Hno Hact. pose proof (small_extends _ _ C1 S3) as S2. pose proof (small_extends _ _ B1 S2) as S1. destruct (A9 S1 Hok) as [Ie HT].
    destruct (B3 S2 (end_rows _ _ _ _ _ HT)) as (Ok2 & Same2 & Ed2 & Ac2); [by eapply ToEnd_bounded; [apply (end_count _ _ _ _ _ HT)|exact Hno|exact HT]|].
    rewrite Ie in C2. apply (Finished_step nfa nfa1 nfa2 nfa3 b b1); try done.
    + intros a. rewrite Ac2, Hact. apply not_elem_of_empty.
    + rewrite valid_count in Hd. apply C2; try done; [|lia]. do 2 (eapply valid_extends; [eassumption|]). done.
Qed.

(** ** Characters *)

Lemma scanSet_spec want s fuel : forall i, 0 <= i <= 128 -> 128 - i < Z.of_nat fuel ->
  exists k, scan fuel want i s = Some k /\ i <= k <= 128 /\ (forall x, i <= x < k -> has s x <> want) /\ (k < 128 -> has s k = want).
Proof.
  induction fuel as [|fuel IH]; intros i Hi Hf; [lia|]. cbn [scan]. destruct (Z.ltb_spec i 128); [|exists i; split_and!; try done; intros; lia].
  rewrite get_has by lia. cbn [mbind option_bind]. destruct (eqb (has s i) want) eqn:E; [apply eqb_prop in E; exists i; split_and!; try done; intros; lia|].
  apply eqb_false_iff in E. destruct (IH (i + 1)) as (k & -> & Hk & Hn & Hw); [lia..|]. exists k. split_and!; try done; [lia|lia|]. intros x Hx. destruct (decide (x = i)) as [->|]; [done|]. apply Hn. lia.
Qed.

Lemma addRanges_spec want s d fuel : forall i b, 0 <= i <= 128 -> 128 - i < Z.of_nat fuel -> shape b ->
  exists b', addRanges fuel want i s d b = Some b' /\ shape b' /\ m_nodeId b' = m_nodeId b /\ m_actions b' = m_actions b
    /\ forall l j, bedge b' l j <-> bedge b l j \/ j = d /\ exists c, l = Some c /\ i <= c < 128 /\ has s c = want.
Proof.
  induction fuel as [|fuel IH]; intros i b Hi Hf Hb; [lia|]. cbn [addRanges]. destruct (scanSet_spec want s 129 i) as (k & -> & Hk & Hn & Hw); [lia..|]. cbn [mbind option_bind].
  destruct (Z.eqb_spec k 128) as [->|Hk'].
  - exists b. split_and!; try done. intros l j. split; [by left|]. intros [?|(_ & c & _ & Hc & Hh)]; [done|]. by apply Hn in Hh.
  - destruct (scanSet_spec (negb want) s 129 (k + 1)) as (m & -> & Hm & Hn2 & Hw2); [lia..|]. cbn [mbind option_bind].
    destruct (addTransition_spec b k (m - 1) d Hb) as (b1 & -> & B1 & B2 & B3 & B4); [lia..|]. cbn [mbind option_bind].
    destruct (IH m b1) as (b2 & -> & C1 & C2 & C3 & C4); [lia..|done|]. exists b2. split_and!; try done; [congruence..|]. intros l j. rewrite C4, B4.
    assert (forall c, k <= c < m -> has s c = want) as Hin.
    { intros c Hc. destruct (decide (c = k)) as [->|]; [apply Hw; lia|]. specialize (Hn2 c ltac:(lia)). by destruct (has s c), want. }
    split.
    + intros [[?|(-> & c & -> & Hc)]|(-> & c & -> & Hc & Hh)]; [by left|right; split; [done|]; exists c; split_and!; try done; [lia|lia|apply Hin; lia]..|].
      right. split; [done|]. exists c. split_and!; try done; lia.
    + intros [?|(-> & c & -> & Hc & Hh)]; [by left; left|]. destruct (decide (m <= c)); [right; split; [done|]; exists c; split_and!; try done; lia|].
      left. right. split; [done|]. exists c. split; [done|]. destruct (decide (c < k)) as [Hck|]; [by apply Hn in Hh; [|lia]|lia].
Qed.

Lemma Draws_set g s q : okSet s -> (forall c, member s c -> A c) -> Draws (generateSubgraphForAtom targetOrder actionOrder g (CharacterSetTerm s q)) (fun w => exists c, w = [c] /\ member s c).
Proof.
  intros Hs HA nfa b d Hb Hv. cbn [generateSubgraphForAtom].
  assert (exists b', (if m_inverted s then addRanges 129 false 1 s d b else addRanges 129 true 0 s d b) = Some b' /\ shape b' /\ m_nodeId b' = m_nodeId b /\ m_actions b' = m_actions b
    /\ forall l j, bedge b' l j <-> bedge b l j \/ j = d /\ exists c, l = Some c /\ member s c) as (b' & -> & H1 & H2 & H3 & H4).
  { unfold member. destruct (m_inverted s).
    - destruct (addRanges_spec false s d 129 1 b) as (b' & -> & H1 & H2 & H3 & H4); [lia|lia|done|]. exists b'. split_and!; try done. intros l j. rewrite H4.
      apply or_iff_compat_l, and_iff_compat_l. split; intros (c & -> & Hc & Hh); exists c; split_and!; try done; lia.
    - destruct (addRanges_spec true s d 129 0 b) as (b' & -> & H1 & H2 & H3 & H4); [lia|lia|done|]. exists b'. split_and!; try done. intros l j. rewrite H4.
      apply or_iff_compat_l, and_iff_compat_l. split; intros (c & -> & Hc & Hh); exists c; split_and!; try done; lia. }
  cbn [mbind option_bind]. exists nfa, b'. split_and!; try done. intros _ Hok _ Hne. apply (Drawn_source _ _ _ _ (charEdges (m_nodeId b) d (member s))); [done|by apply frag_chars|].
  intros l j. rewrite H4. unfold charEdges. naive_solver.
Qed.

(** ** Groups and terms *)

Lemma Draws_group g terms q : Forall (fun t => Draws (g t) (matches t)) terms -> Draws (generateSubgraphForAtom targetOrder actionOrder g (Group terms q)) (cats matches terms).
Proof using targets_listed actions_listed.
  intros H. destruct terms as [|t [|t' terms]].
  - apply Draws_eps.
  - apply (Draws_iff _ (matches t)); [intros w; by rewrite cats_one|]. by apply Forall_inv in H.
  - apply Forall_cons in H as [Ht H]. intros nfa b d Hb Hv. cbn [generateSubgraphForAtom].
    destruct (generateToNewEnd_spec g t (matches t) [] nfa b Ht Hb Hv) as (nfa1 & b1 & e & -> & A1 & A2 & A3 & A4 & A5 & A6 & A7 & A8 & A9). cbn [mbind option_bind].
    destruct (generateRest_spec g matches (t' :: terms) H ltac:(done) nfa1 e d A5 A6) as (nfa2 & -> & B1 & B2). cbn [mbind option_bind].
    exists nfa2, b1. split_and!; try done; [by etrans|]. intros S2 Hok Hd Hne. pose proof (small_extends _ _ B1 S2) as S1. destruct (A9 S1 Hok) as [Ie HT].
    rewrite Ie in B2. apply (Drawn_sequence nfa nfa1 nfa2); try done. apply B2; try done; [apply HT|by eapply valid_extends|]. rewrite valid_count in Hd. lia.
Qed.

Lemma generateGraph_eq t : isValid t = true -> generateGraph targetOrder actionOrder t =
  match m_quantifier t with
  | One => generateSubgraphForAtom targetOrder actionOrder (generateGraph targetOrder actionOrder) t
  | ZeroOrOne => fun nfa b d => '(nfa, b) ← generateSubgraphForAtom targetOrder actionOrder (generateGraph targetOrder actionOrder) t nfa b d; Some (nfa, addEpsilonTransition d b)
  | ZeroOrMore => fun nfa b d =>
      '(nfa, b) ← generateRepeat targetOrder actionOrder (generateSubgraphForAtom targetOrder actionOrder (generateGraph targetOrder actionOrder) t) nfa b d; Some (nfa, addEpsilonTransition d b)
  | OneOrMore => generateRepeat targetOrder actionOrder (generateSubgraphForAtom targetOrder actionOrder (generateGraph targetOrder actionOrder) t)
  end.
Proof. intros Hv. destruct t as [q|s q|terms q]; [done|destruct q; reflexivity..]. Qed.

Lemma Draws_quantified f L q : Draws f L ->
  Draws (match q with
         | One => f
         | ZeroOrOne => fun nfa b d => '(nfa, b) ← f nfa b d; Some (nfa, addEpsilonTransition d b)
         | ZeroOrMore => fun nfa b d => '(nfa, b) ← generateRepeat targetOrder actionOrder f nfa b d; Some (nfa, addEpsilonTransition d b)
         | OneOrMore => generateRepeat targetOrder actionOrder f
         end) (quantified q L).
Proof using targets_listed actions_listed.
  intros Hf. destruct q; cbn [quantified]; [done|by apply Draws_optional| |by apply generateRepeat_spec].
  apply (Draws_iff _ (fun w => w = [] \/ cat L (star L) w)); [intros w; by rewrite star_unfold|]. by apply Draws_optional, generateRepeat_spec.
Qed.

(** The graph of a term draws the strings it matches. *)
Lemma generateGraph_draws t : okTerm t = true -> (forall s c, s ∈ setsOf t -> member s c -> A c) -> Draws (generateGraph targetOrder actionOrder t) (matches t).
Proof using targets_listed actions_listed.
  induction t as [q|s q|terms q IH] using Term_induction; intros Hok HA; [done| |]; rewrite generateGraph_eq, matches_atom by done; apply Draws_quantified.
  - apply Draws_set; [by eapply okTerm_set|]. intros c. apply HA. by left.
  - apply Draws_group. apply okTerm_group in Hok. rewrite Forall_forall in *. intros t Ht. apply IH; [done|by apply Hok|].
    intros s c Hs. apply HA. cbn [setsOf]. apply list_elem_of_In, in_flat_map. exists t. by rewrite <- !list_elem_of_In.
Qed.

End Orders.
