(* ===== verification/CombinedURLFilters.v ===== *)
(** * CombinedURLFilters: the prefix tree of URL filters

    Translated from src/Source/WebCore/contentextensions/CombinedURLFilters.cpp,
    with the terms of CombinedFiltersAlphabet.cpp: [interned] gives a term that
    is equal to its argument, so edges hold the terms themselves.  The actions
    that [m_actions] maps a vertex to are kept in the vertex.  [None] is a failed
    assertion. *)

From stdpp Require Import gmap.
From S2P Require Import Prelude ASCIICType DFA MutableRangeList NFA ImmutableNFANodeBuilder Term.
Import ImmutableNFANodeBuilder Term.

Module CombinedURLFilters.

(** [PrefixTreeVertex] with its slot of [m_actions]; an edge is a term and the
    child. *)
Inductive PrefixTreeVertex := Vertex (actions : option (list Z)) (edges : list (Term * PrefixTreeVertex)).

Definition vertexActions (v : PrefixTreeVertex) : option (list Z) := let '(Vertex actions _) := v in actions.
Definition vertexEdges (v : PrefixTreeVertex) : list (Term * PrefixTreeVertex) := let '(Vertex _ edges) := v in edges.

(** [m_actions.get(vertex)]: the empty list when there is no slot. *)
Definition actionsGet (v : PrefixTreeVertex) : list Z := default [] (vertexActions v).

(** The constructor. *)
Definition emptyFilters : PrefixTreeVertex := Vertex None [].

Definition isEmpty (root : PrefixTreeVertex) : bool := match vertexEdges root with [] => true | _ => false end.

(** [m_actions.add(vertex, ActionList())], then the action if it is new. *)
Definition addAction (actionId : Z) (v : PrefixTreeVertex) : PrefixTreeVertex :=
  let actions := actionsGet v in
  Vertex (Some (if bool_decide (actionId ∈ actions) then actions else actions ++ [actionId])) (vertexEdges v).

(** Follow the first edge with an equal term, or append one with a new
    vertex. *)
Fixpoint followEdge (term : Term) (next : PrefixTreeVertex -> PrefixTreeVertex) (edges : list (Term * PrefixTreeVertex)) : list (Term * PrefixTreeVertex) :=
  match edges with
  | [] => [(term, next emptyFilters)]
  | (edgeTerm, child) :: edges =>
      if Term_eqb edgeTerm term then (edgeTerm, next child) :: edges else (edgeTerm, child) :: followEdge term next edges
  end.

(** The loop over the pattern, with the update of the last vertex. *)
Fixpoint extendTree (actionId : Z) (pattern : list Term) (v : PrefixTreeVertex) : PrefixTreeVertex :=
  match pattern with
  | [] => addAction actionId v
  | term :: pattern => Vertex (vertexActions v) (followEdge term (extendTree actionId pattern) (vertexEdges v))
  end.

Definition addPattern (actionId : Z) (pattern : list Term) (root : PrefixTreeVertex) : option PrefixTreeVertex :=
  guard (pattern <> []);; Some (extendTree actionId pattern root).

(** The term of a character of a domain. *)
Definition domainTerm (character : Z) : option Term :=
  guard (isASCII character = true);; guard (isASCIIUpper character = false);; Term_character character true.

Definition canonicalDotStar : option Term := t ← UniversalTransition; quantify ZeroOrMore t.

Definition addDomain (actionId : Z) (domain : list Z) (root : PrefixTreeVertex) : option PrefixTreeVertex :=
  endOfLine ← EndOfLineAssertionTerm;
  if bool_decide (head domain = Some 42) then
    dotStar ← canonicalDotStar;
    dot ← Term_character 46 true;
    terms ← mapM domainTerm (tail domain);
    root ← addPattern actionId (dotStar :: dot :: terms ++ [endOfLine]) root;
    addPattern actionId (terms ++ [endOfLine]) root
  else
    terms ← mapM domainTerm domain;
    addPattern actionId (terms ++ [endOfLine]) root.

Section Process.

Context (targetOrder actionOrder : gset Z -> list Z).

(** "Put the prefix into the NFA.": one node after the other; the assignment
    to [lastNode] finalizes the node it replaces. *)
Fixpoint generatePrefix (prefix : list (Term * list Z)) (nfa : NFA.NFA) (lastNode : Builder) : option (NFA.NFA * Builder) :=
  match prefix with
  | [] => Some (nfa, lastNode)
  | (term, actions) :: prefix =>
      '(nfa, lastNode, newNode) ← generateGraphToEnd targetOrder actionOrder term nfa lastNode actions;
      nfa ← finalize targetOrder actionOrder lastNode nfa;
      generatePrefix prefix nfa newNode
  end.

Definition emptyNFA : NFA.NFA := NFA.mkNFA [] [] [] [] [].

(** The automaton of a path of the tree whose last vertex has no edges: the
    last builder is finalized at the end of its scope. *)
Definition prefixNFA (prefix : list (Term * list Z)) : option NFA.NFA :=
  let '(nfa, lastNode) := newBuilder emptyNFA in
  '(nfa, lastNode) ← generatePrefix prefix nfa lastNode;
  finalize targetOrder actionOrder lastNode nfa.

End Process.

End CombinedURLFilters.
