(* ===== verification/CombinedURLFiltersTree.v ===== *)
(** * CombinedURLFiltersTree: what the prefix tree holds

    The patterns of a tree with their actions; adding a pattern or a domain
    adds it and nothing else.  The automaton of a path of the tree finds the
    actions of the vertices it passes. *)

From stdpp Require Import gmap.
From S2P Require Import Prelude ASCIICType DFA DFABytecode DFABytecodeCompiler DFABytecodeInterpreter DFATransitions DFACompile DFARun DFASimulation DFAProperties MutableRangeList MutableRangeListCorrect NFA NFAToDFA NFAToDFAClosure NFAToDFACorrect ImmutableNFANodeBuilder Term TermLanguage NFAFragment TermGraph CombinedURLFilters.
Import Term CombinedURLFilters.

#[global] Instance Term_eq_dec : EqDecision Term.
Proof. intros t t'. destruct (Term_eqb t t') eqn:E; [left; by apply Term_eqb_eq|right; intros H%Term_eqb_eq; congruence]. Defined.

(** ** The patterns of a tree *)

(** The terms of a path and an action at its end. *)
Inductive hasPattern : PrefixTreeVertex -> list Term -> Z -> Prop :=
| pattern_here l edges a : a ∈ l -> hasPattern (Vertex (Some l) edges) [] a
| pattern_there actions edges t child p a : (t, child) ∈ edges -> hasPattern child p a -> hasPattern (Vertex actions edges) (t :: p) a.

Lemma hasPattern_nil v a : hasPattern v [] a <-> a ∈ actionsGet v.
Proof.
  destruct v as [acts es]. split; [intros H; inversion H; by subst|]. cbn. destruct acts as [l|]; [by constructor|]. by intros []%not_elem_of_nil.
Qed.

Lemma hasPattern_cons v t p a : hasPattern v (t :: p) a <-> exists child, (t, child) ∈ vertexEdges v /\ hasPattern child p a.
Proof. destruct v as [acts es]. split; [intros H; inversion H; subst; eauto|]. intros (child & H1 & H2). by econstructor. Qed.

Lemma emptyFilters_patterns p a : ~ hasPattern emptyFilters p a.
Proof. destruct p; [rewrite hasPattern_nil; apply not_elem_of_nil|rewrite hasPattern_cons; intros (? & H & _); by apply not_elem_of_nil in H]. Qed.

Lemma followEdge_patterns term next edges (Q : Prop) p a t : (forall v, hasPattern (next v) p a <-> hasPattern v p a \/ Q) ->
  (exists child, (t, child) ∈ followEdge term next edges /\ hasPattern child p a) <-> (exists child, (t, child) ∈ edges /\ hasPattern child p a) \/ t = term /\ Q.
Proof.
  intros Hn. induction edges as [|[et child] edges IH]; cbn [followEdge].
  - setoid_rewrite list_elem_of_singleton. split.
    + intros (c & [= -> ->] & H). apply Hn in H as [H|H]; [by apply emptyFilters_patterns in H|by right].
    + intros [(c & []%not_elem_of_nil & _)|[-> HQ]]. eexists. split; [reflexivity|]. apply Hn. by right.
  - destruct (Term_eqb et term) eqn:E.
    + apply Term_eqb_eq in E as ->. setoid_rewrite elem_of_cons. split.
      * intros (c & [[= -> ->]|Hin] & H0); [apply Hn in H0 as [H0|H0]; [left; eauto|by right]|left; eauto].
      * intros [(c & [[= -> ->]|Hin] & H0)|[-> HQ]]; [eexists; split; [by left|]; apply Hn; by left|eauto|eexists; split; [by left|]; apply Hn; by right].
    + setoid_rewrite elem_of_cons. split.
      * intros (c & [Hc|Hin] & H); [left; eauto|]. destruct (proj1 IH) as [(c' & Hin' & H')|HQ]; [eauto|left; eauto|by right].
      * intros [(c & [Hc|Hin] & H)|HQ]; [eauto|destruct (proj2 IH) as (c' & Hc' & H'); [left; eauto|eauto]|destruct (proj2 IH) as (c' & Hc' & H'); [by right|eauto]].
Qed.

Lemma extendTree_patterns actionId pattern : forall v p a, hasPattern (extendTree actionId pattern v) p a <-> hasPattern v p a \/ p = pattern /\ a = actionId.
Proof.
  induction pattern as [|term pattern IH]; intros v p a; cbn [extendTree].
  - destruct p as [|t p].
    + rewrite !hasPattern_nil. unfold addAction, actionsGet. cbn [vertexActions]. set (l := default [] (vertexActions v)). unfold default, id. case_bool_decide; [naive_solver|].
      rewrite elem_of_app, list_elem_of_singleton. naive_solver.
    + rewrite !hasPattern_cons. cbn [vertexEdges addAction]. naive_solver.
  - destruct p as [|t p]; [rewrite !hasPattern_nil; unfold actionsGet; cbn [vertexActions]; naive_solver|]. rewrite !hasPattern_cons. cbn [vertexEdges].
    rewrite (followEdge_patterns term (extendTree actionId pattern) (vertexEdges v) (p = pattern /\ a = actionId)) by (intros; apply IH). naive_solver.
Qed.

(** [addPattern] never fails on a pattern of the parser, and the tree then
    has its patterns with their actions and the new one, nothing else. *)
Lemma addPattern_patterns actionId pattern root : pattern <> [] ->
  exists root', addPattern actionId pattern root = Some root' /\ forall p a, hasPattern root' p a <-> hasPattern root p a \/ p = pattern /\ a = actionId.
Proof.
  intros Hp. unfold addPattern. rewrite option_guard_True by done. cbn [mbind option_bind]. eexists. split; [reflexivity|]. intros p a. apply extendTree_patterns.
Qed.

(** ** Domains *)

(** A pattern of the tree matches the string. *)
Definition treeFinds (v : PrefixTreeVertex) (w : list Z) (a : Z) : Prop := exists p, hasPattern v p a /\ cats matches p w.

Definition domainCharacter (c : Z) : Prop := 1 <= c <= 127 /\ isASCIIUpper c = false.

(** The string of a URL that ends where a domain does: the domain, or with a
    star before it the domain and its subdomains. *)
Definition isDomain (domain w : list Z) : Prop :=
  if bool_decide (head domain = Some 42) then w = tail domain ++ [0] \/ exists u, Forall character u /\ w = u ++ 46 :: tail domain ++ [0]
  else w = domain ++ [0].

Lemma cats_app (f : Term -> language) p q w : cats f (p ++ q) w <-> cat (cats f p) (cats f q) w.
Proof.
  revert w. induction p as [|t p IH]; intros w; cbn [app].
  - split; [intros H; by exists [], w|]. by intros (u & v & -> & -> & H).
  - split.
    + intros (u & v & -> & Hu & (u' & v' & -> & H1 & H2)%IH). exists (u ++ u'), v'. rewrite <- app_assoc. split_and!; [done| |done]. by exists u, u'.
    + intros (u & v & -> & (u1 & u2 & -> & H1 & H2) & Hv). exists u1, (u2 ++ v). rewrite <- app_assoc. split_and!; [done|done|]. apply IH. by exists u2, v.
Qed.

Lemma character_term c : 0 <= c <= 127 -> exists t, Term_character c true = Some t /\ okTerm t = true /\ forall w, matches t w <-> w = [c].
Proof.
  intros Hc. destruct (addCharacter_spec emptyCharacterSet One c true) as (s & E & Hs & Hi & Hh); [by apply okSetb_spec|done|]. exists (CharacterSetTerm s One). split; [done|].
  split; [by apply okSetb_spec|]. intros w. cbn [matches quantified]. unfold member. rewrite Hi. cbn [m_inverted emptyCharacterSet].
  assert (forall x, 0 <= x <= 127 -> has emptyCharacterSet x = false) as He.
  { intros x Hx. unfold has. cbn. destruct (x <? 64); apply Z.bits_0. }
  split.
  - intros (x & -> & Hx & H). rewrite Hh, He in H by done. unfold sameCharacter in H. cbn in H. rewrite !orb_false_r in H. by apply Z.eqb_eq in H as ->.
  - intros ->. exists c. split; [done|]. split; [done|]. rewrite Hh by done. unfold sameCharacter. by rewrite Z.eqb_refl.
Qed.

Lemma domainTerm_ok c : domainCharacter c -> domainTerm c = Term_character c true.
Proof.
  intros [Hc Hu]. unfold domainTerm. rewrite isASCII_spec, (proj2 (Z.ltb_lt c 128)) by lia. rewrite option_guard_True by done. cbn [mbind option_bind]. by rewrite Hu, option_guard_True by done.
Qed.

Lemma domain_terms rest : Forall domainCharacter rest -> exists terms, mapM domainTerm rest = Some terms /\ forall w, cats matches terms w <-> w = rest.
Proof.
  induction 1 as [|c rest [Hc Hu] _ (terms & E & IH)]; [by exists []|]. destruct (character_term c) as (t & Et & _ & Ht); [lia|]. cbn [mapM]. rewrite domainTerm_ok by done. rewrite Et, E. cbn [mbind option_bind].
  eexists. split; [reflexivity|]. intros w. cbn [cats]. split; [intros (u & v & -> & ->%Ht & ->%IH); done|]. intros ->. exists [c], rest. split_and!; [done|by apply Ht|by apply IH].
Qed.

Lemma dotStar_matches : canonicalDotStar = Some (CharacterSetTerm universalSet ZeroOrMore)
  /\ forall w, matches (CharacterSetTerm universalSet ZeroOrMore) w <-> Forall character w.
Proof.
  split; [unfold canonicalDotStar; by rewrite UniversalTransition_eq|]. intros w. cbn [matches quantified]. split.
  - induction 1 as [|u v (c & -> & Hc) _ IH]; [constructor|]. constructor; [by apply universalSet_member|done].
  - intros Hw. apply star_letters. eapply Forall_impl; [exact Hw|]. intros c Hc. exists c. split; [done|]. by apply universalSet_member.
Qed.

#[local] Opaque universalSet.

Lemma treeFinds_extend root root' pattern actionId w a : (forall p a, hasPattern root' p a <-> hasPattern root p a \/ p = pattern /\ a = actionId) ->
  treeFinds root' w a <-> treeFinds root w a \/ a = actionId /\ cats matches pattern w.
Proof. intros H. unfold treeFinds. setoid_rewrite H. naive_solver. Qed.

(** C36: A domain, of ASCII characters that are not upper case, is added without
    an assertion failing, and the tree then also finds the action exactly in
    the strings of the domain, and with a star of its subdomains, each with the
    end of the URL. *)
Theorem addDomain_correct actionId domain root : Forall domainCharacter domain ->
  exists root', addDomain actionId domain root = Some root' /\ forall w a, treeFinds root' w a <-> treeFinds root w a \/ a = actionId /\ isDomain domain w.
Proof.
  intros HD. unfold addDomain, isDomain. destruct EndOfLineAssertionTerm_matches as (eol & -> & _ & Heol). cbn [mbind option_bind]. destruct dotStar_matches as [Eds Hds].
  assert (forall terms rest w, (forall w, cats matches terms w <-> w = rest) -> cats matches (terms ++ [eol]) w <-> w = rest ++ [0]) as Hend.
  { intros terms rest w Ht. rewrite cats_app. split; [intros (u & v & -> & ->%Ht & ->%cats_one%Heol); done|]. intros ->. exists rest, [0]. split_and!; [done|by apply Ht|by apply cats_one, Heol]. }
  assert (forall terms : list Term, terms ++ [eol] <> []) as Hne by (intros terms; by destruct terms). case_bool_decide as H42.
  - destruct (domain_terms (tail domain)) as (terms & -> & Ht); [destruct HD; [constructor|assumption]|]. rewrite Eds. cbn [mbind option_bind].
    destruct (character_term 46) as (dot & -> & _ & Hdot); [lia|]. cbn [mbind option_bind].
    destruct (addPattern_patterns actionId (CharacterSetTerm universalSet ZeroOrMore :: dot :: terms ++ [eol]) root) as (root1 & -> & HP1); [done|]. cbn [mbind option_bind].
    destruct (addPattern_patterns actionId (terms ++ [eol]) root1) as (root2 & -> & HP2); [done|]. exists root2. split; [done|]. intros w a.
    rewrite (treeFinds_extend _ _ _ _ _ _ HP2), (treeFinds_extend _ _ _ _ _ _ HP1), (Hend terms (tail domain) w Ht).
    assert (cats matches (CharacterSetTerm universalSet ZeroOrMore :: dot :: terms ++ [eol]) w <-> exists u, Forall character u /\ w = u ++ 46 :: tail domain ++ [0]) as ->; [|tauto].
    cbn [cats]. split.
    + intros (u & v & -> & Hu%Hds & u' & v' & -> & ->%Hdot & ->%(Hend terms _ v' Ht)). exists u. split; [exact Hu|reflexivity].
    + intros (u & Hu & ->). exists u, (46 :: tail domain ++ [0]). split; [done|]. split; [by apply Hds|]. exists [46], (tail domain ++ [0]). split_and!; [done|by apply Hdot|].
      by apply (Hend terms (tail domain)).
  - destruct (domain_terms domain HD) as (terms & -> & Ht). cbn [mbind option_bind]. destruct (addPattern_patterns actionId (terms ++ [eol]) root) as (root1 & -> & HP); [done|].
    exists root1. split; [done|]. intros w a. by rewrite (treeFinds_extend _ _ _ _ _ _ HP), (Hend terms domain w Ht).
Qed.

(** * The automaton of a path of the prefix tree *)

Import ImmutableNFANodeBuilder Term CombinedURLFilters.

(** The terms up to a vertex with the action match the string. *)
Definition prefixFinds (prefix : list (Term * list Z)) (w : list Z) (a : Z) : Prop :=
  exists pre t acts post, prefix = pre ++ (t, acts) :: post /\ a ∈ acts /\ cats matches (pre.*1 ++ [t]) w.

Lemma prefixFinds_snoc past t acts w a : prefixFinds (past ++ [(t, acts)]) w a <-> prefixFinds past w a \/ a ∈ acts /\ cats matches (past.*1 ++ [t]) w.
Proof.
  unfold prefixFinds. split.
  - intros (pre & t' & acts' & post & E & H). destruct post as [|x post _] using rev_ind.
    + apply app_inj_tail in E as [-> [= -> ->]]. by right.
    + left. rewrite app_comm_cons, app_assoc in E. apply app_inj_tail in E as [-> _]. by exists pre, t', acts', post.
  - intros [(pre & t' & acts' & post & -> & H)|H]; [exists pre, t', acts', (post ++ [(t, acts)]); by rewrite <- app_assoc|by exists past, t, acts, []].
Qed.

Lemma nedge_valid nfa i l j : nedge nfa i l j -> valid nfa i.
Proof.
  assert (forall node, DFA.at_ (NFA.nodes nfa) i = Some node -> valid nfa i) as Hv.
  { unfold DFA.at_, valid. destruct (Z.ltb_spec i 0); [done|]. intros node Hn%lookup_lt_Some. lia. }
  destruct l as [c|]; cbn.
  - intros (ss & ts & E & _). unfold NFA.transitionsForNode in E. destruct (DFA.at_ (NFA.nodes nfa) i) eqn:Ei; [by eapply Hv|done].
  - intros (ts & E & _). unfold NFAToDFA.epsilonTargets in E. destruct (DFA.at_ (NFA.nodes nfa) i) eqn:Ei; [by eapply Hv|done].
Qed.

Lemma nedge_target nfa i l j : okRows nfa -> nedge nfa i l j -> valid nfa j.
Proof.
  intros Hok He. pose proof (nedge_valid _ _ _ _ He) as Hi. destruct (Hok i Hi) as [(ts & E1 & H1) (ss & E2 & _ & H2) _]. rewrite Forall_forall in H1. rewrite Forall_forall in H2. destruct l as [c|]; cbn in He.
  - destruct He as (ss' & ts' & E & Ef & Hj). rewrite E2 in E. injection E as <-. apply find_span in Ef as (s & Hs & _ & <-). destruct (H2 s Hs) as [_ H3]. rewrite Forall_forall in H3. by apply H3.
  - destruct He as (ts' & E & Hj). rewrite E1 in E. injection E as <-. by apply H1.
Qed.

Lemma path_valid nfa i w k : okRows nfa -> valid nfa i -> path (nedge nfa) i w k -> valid nfa k.
Proof. intros Hok Hi. induction 1; [done|by eapply IHpath, nedge_target..]. Qed.

(** A node that is not there yet is only reached from itself. *)
Lemma path_new nfa i w k : ~ valid nfa i -> path (nedge nfa) i w k -> w = [] /\ i = k.
Proof. intros Hi. apply path_stuck. intros l j Hj. by apply nedge_valid in Hj. Qed.

Section Prefix.

Context (targetOrder actionOrder : gset Z -> list Z) (A : Z -> Prop).
Hypothesis targets_listed : forall s, targetOrder s ≡ₚ elements s.
Hypothesis actions_listed : forall s, actionOrder s ≡ₚ elements s.

(** The nodes of [past] are there, and the live node is the last. *)
Record PInv (nfa : NFA.NFA) (b : Builder) (past : list (Term * list Z)) : Prop := {
  p_rows : okRows nfa;
  p_edges : forall l j, ~ bedge b l j;
  p_live : forall l j, ~ nedge nfa (m_nodeId b) l j;
  p_quiet : forall a, ~ nact nfa (m_nodeId b) a;
  p_reach : forall w, path (nedge nfa) 0 w (m_nodeId b) <-> cats matches past.*1 w;
  p_found : forall w a, (exists k, path (nedge nfa) 0 w k /\ nact nfa k a) \/ path (nedge nfa) 0 w (m_nodeId b) /\ a ∈ m_actions b <-> prefixFinds past w a;
  p_label : forall i c j, nedge nfa i (Some c) j -> A c }.

(** The edges after one more term: the old ones and those of the fragment. *)
Lemma prefix_edges nfa nfa1 nfa2 b b1 L past : valid nfa (m_nodeId b) -> PInv nfa b past -> ToEnd A nfa nfa1 b b1 L -> okRows nfa2 -> count nfa2 = count nfa1 ->
  (forall i, valid nfa1 i -> i <> m_nodeId b -> sameRow nfa1 nfa2 i) -> (forall l j, nedge nfa2 (m_nodeId b) l j <-> bedge b1 l j) ->
  exists R, frag (m_nodeId b) (count nfa) (fun i => count nfa < i < count nfa1) A R L /\ forall i l j, nedge nfa2 i l j <-> both (nedge nfa) R i l j.
Proof.
  intros Hv [P1 P2 P3 P4 P5 P6 P7] [T1 T2 (R & HF & HB & HE) T4 T5 T6] Hok2 Hc Hsame Hedge. exists R. split; [done|]. rewrite valid_count in Hv. intros i l j. unfold both.
  assert (R i l j -> i = m_nodeId b \/ count nfa < i < count nfa1) as Hfrom by apply (frag_from HF).
  destruct (decide (i = m_nodeId b)) as [->|Hm]; [rewrite Hedge, HB; specialize (P2 l j); specialize (P3 l j); tauto|].
  destruct (decide (valid nfa1 i)) as [Hi|Hi].
  - rewrite (sameRow_nedge nfa1) by by apply Hsame. rewrite valid_count in Hi. destruct (decide (i < count nfa)) as [Hlt|Hlt].
    + rewrite (sameRow_nedge nfa) by (apply T2; rewrite valid_count; lia). split; [by left|]. intros [?|Hr]; [done|]. apply Hfrom in Hr. lia.
    + assert (~ nedge nfa i l j) as Hno by (intros Hn%nedge_valid; rewrite valid_count in Hn; lia). destruct (decide (i = count nfa)) as [->|Hne].
      * specialize (T5 l j). split; [done|]. intros [?|Hr]; [done|]. apply Hfrom in Hr. lia.
      * rewrite (HE i l j) by lia. tauto.
  - assert (~ nedge nfa2 i l j) as H2 by (intros Hn%nedge_valid; rewrite valid_count in *; lia).
    assert (~ nedge nfa i l j) as H0 by (intros Hn%nedge_valid; rewrite valid_count in *; lia). split; [done|]. intros [?|Hr]; [done|]. apply Hfrom in Hr. rewrite valid_count in Hi. lia.
Qed.

Lemma PInv_step nfa nfa1 nfa2 b b1 e t acts past : valid nfa 0 -> valid nfa (m_nodeId b) -> PInv nfa b past -> ToEnd A nfa nfa1 b b1 (matches t) -> okRows nfa2 -> count nfa2 = count nfa1 ->
  (forall i, valid nfa1 i -> i <> m_nodeId b -> sameRow nfa1 nfa2 i) -> (forall l j, nedge nfa2 (m_nodeId b) l j <-> bedge b1 l j) ->
  (forall a, nact nfa2 (m_nodeId b) a <-> a ∈ m_actions b) -> m_nodeId e = count nfa -> (forall l j, ~ bedge e l j) -> m_actions e = list_to_set acts ->
  PInv nfa2 e (past ++ [(t, acts)]).
Proof.
  intros H0 Hv HP HT Hok2 Hc Hsame Hedge Hact Ie Ee Ae. destruct (prefix_edges nfa nfa1 nfa2 b b1 (matches t) past) as (R & HF & HE); try done.
  destruct HP as [P1 P2 P3 P4 P5 P6 P7], HT as [T1 T2 _ T4 T5 T6]. rewrite valid_count in Hv. pose proof (proj1 (valid_count _ _) H0) as H0'.
  assert (forall w k, ~ (count nfa < k < count nfa1) -> path (nedge nfa2) 0 w k <->
    path (nedge nfa) 0 w k \/ exists u v x, w = u ++ v ++ x /\ path (nedge nfa) 0 u (m_nodeId b) /\ matches t v /\ path (nedge nfa) (count nfa) x k) as Hpath.
  { intros w k Hk. rewrite <- (path_extend (nedge nfa) R (m_nodeId b) (count nfa) _ A _ HF); [|lia|lia| |intros u Hu; apply path_new in Hu; [lia|rewrite valid_count; lia]|lia|done].
    - split; apply path_sub; intros i l j; apply HE.
    - intros i l j Hij. split; [apply nedge_valid in Hij|apply nedge_target in Hij; [|done]]; rewrite valid_count in Hij; lia. }
  assert (forall w, path (nedge nfa2) 0 w (count nfa) <-> cats matches (past.*1 ++ [t]) w) as Hend.
  { intros w. rewrite Hpath, cats_app by lia. split.
    - intros [Hp|(u & v & x & -> & Hu & Hm & Hx)]; [apply path_valid in Hp; [rewrite valid_count in Hp; lia|done..]|].
      apply path_new in Hx as [-> _]; [|rewrite valid_count; lia]. exists u, v. rewrite app_nil_r. split_and!; [done|by apply P5|by apply cats_one].
    - intros (u & v & -> & Hu%P5 & Hm%(cats_one matches)). right. exists u, v, []. rewrite app_nil_r. split_and!; try done. constructor. }
  assert (forall w k, valid nfa k -> path (nedge nfa2) 0 w k <-> path (nedge nfa) 0 w k) as Hold.
  { intros w k Hk. rewrite valid_count in Hk. rewrite Hpath by lia. split; [|by left]. intros [?|(u & v & x & _ & _ & _ & Hx)]; [done|]. apply path_new in Hx; [lia|rewrite valid_count; lia]. }
  rewrite <- Ie in *. split; try done.
  - intros l j. rewrite (sameRow_nedge nfa1) by (apply Hsame; rewrite ?valid_count; lia). apply T5.
  - intros a. rewrite (sameRow_nact nfa1) by (apply Hsame; rewrite ?valid_count; lia). apply T4. unfold fresh. lia.
  - intros w. by rewrite fmap_app, <- Hend.
  - intros w a. rewrite prefixFinds_snoc, <- P6, <- Hend, Ae, elem_of_list_to_set.
    assert ((exists k, path (nedge nfa2) 0 w k /\ nact nfa2 k a) <->
      (exists k, path (nedge nfa) 0 w k /\ nact nfa k a) \/ path (nedge nfa) 0 w (m_nodeId b) /\ a ∈ m_actions b) as ->; [|tauto]. split.
    + intros (k & Hk & Ha). destruct (decide (valid nfa k)) as [Hkv|Hkv].
      * apply Hold in Hk; [|done]. destruct (decide (k = m_nodeId b)) as [->|Hne]; [right; split; [done|by apply Hact]|]. left. exists k. split; [done|].
        rewrite (sameRow_nact nfa1) in Ha by (apply Hsame; [rewrite valid_count in *; lia|done]). by rewrite (sameRow_nact nfa) in Ha by by apply T2.
      * exfalso. assert (valid nfa2 k) as Hk2 by (eapply path_valid; [exact Hok2| |exact Hk]; rewrite valid_count; lia).
        rewrite valid_count in *. rewrite (sameRow_nact nfa1) in Ha by (apply Hsame; [rewrite valid_count|]; lia). apply (T4 k a); [unfold fresh; lia|done].
    + intros [(k & Hk & Ha)|[Hk Ha]].
      * assert (valid nfa k) as Hkv by (eapply path_valid; [exact P1|exact H0|exact Hk]). assert (k <> m_nodeId b) as Hne by (intros ->; by apply P4 in Ha). exists k.
        split; [by apply Hold|]. rewrite (sameRow_nact nfa1) by (apply Hsame; [rewrite valid_count in *; lia|done]). by rewrite (sameRow_nact nfa) by by apply T2.
      * exists (m_nodeId b). split; [apply Hold; [rewrite valid_count; lia|done]|by apply Hact].
  - intros i c j [Hn|Hr]%HE; [by apply P7 in Hn|by apply (frag_label HF) in Hr].
Qed.

Definition okPrefix (prefix : list (Term * list Z)) : Prop :=
  Forall (fun p => okTerm p.1 = true /\ forall s c, s ∈ setsOf p.1 -> member s c -> A c) prefix.

Lemma generatePrefix_spec prefix : okPrefix prefix -> forall nfa b, shape b -> valid nfa (m_nodeId b) ->
  exists nfa' b', generatePrefix targetOrder actionOrder prefix nfa b = Some (nfa', b') /\ extends nfa nfa' /\ shape b' /\ valid nfa' (m_nodeId b')
    /\ (small nfa' -> forall past, valid nfa 0 -> PInv nfa b past -> PInv nfa' b' (past ++ prefix)).
Proof using targets_listed actions_listed.
  induction 1 as [|[t acts] prefix [Ht HA] _ IH]; intros nfa b Hb Hv; cbn [generatePrefix]; cbn [fst] in *.
  - exists nfa, b. split_and!; try done. intros _ past _. by rewrite app_nil_r.
  - destruct (generateToNewEnd_spec targetOrder actionOrder targets_listed actions_listed A (generateGraph targetOrder actionOrder) t (matches t) acts nfa b) as (nfa1 & b1 & e & E & A1 & A2 & A3 & A4 & A5 & A6 & A7 & A8 & A9);
      [by apply generateGraph_draws|done|done|]. unfold generateGraphToEnd. rewrite E. cbn [mbind option_bind].
    destruct (finalize_rows targetOrder actionOrder targets_listed actions_listed b1 nfa1 A2) as (nfa2 & -> & B1 & B2 & B3); [rewrite A3; by eapply valid_extends|].
    rewrite A3, A4 in B3. cbn [mbind option_bind]. destruct (IH nfa2 e A5) as (nfa3 & b3 & -> & C1 & C2 & C3 & C4); [by eapply valid_extends|].
    exists nfa3, b3. split; [done|]. split; [by do 2 (etrans; [eassumption|])|]. split; [done|]. split; [done|]. intros S3 past H0 HP.
    pose proof (small_extends _ _ C1 S3) as S2. pose proof (small_extends _ _ B1 S2) as S1. destruct (A9 S1 (p_rows _ _ _ HP)) as [Ie HT].
    destruct (B3 S2 (end_rows _ _ _ _ _ _ HT)) as (Ok2 & Same2 & Ed2 & Ac2).
    { eapply ToEnd_bounded; [apply (end_count _ _ _ _ _ _ HT)|exact (p_edges _ _ _ HP)|exact HT]. }
    rewrite (cons_middle (t, acts) past prefix), app_assoc. apply (C4 S3); [do 2 (eapply valid_extends; [eassumption|]); done|].
    by apply (PInv_step nfa nfa1 nfa2 b b1).
Qed.

Lemma PInv_start : let '(nfa, b) := newBuilder emptyNFA in small nfa -> valid nfa 0 /\ PInv nfa b [].
Proof.
  pose proof (newBuilder_spec emptyNFA) as [_ A2 _ A4 A5 A6 A7 _ _]. pose proof (newBuilder_rows emptyNFA) as A8. destruct (newBuilder emptyNFA) as [nfa b]. cbn [fst snd] in *.
  intros Hs. destruct A8 as (Ok & _ & Q1 & Q2); [by intros i Hi; unfold valid in Hi; cbn in Hi; lia|]. change (count emptyNFA) with 0 in *. specialize (A7 Hs). cbn in A7. rewrite A7 in *.
  split; [done|]. assert (forall w k, path (nedge nfa) 0 w k <-> w = [] /\ k = 0) as Hp.
  { intros w k. split; [intros H%path_stuck; [naive_solver|done]|]. intros [-> ->]. constructor. }
  split; rewrite ?A7; try done.
  - intros w. rewrite Hp. cbn. tauto.
  - intros w a. rewrite A5. split.
    + intros [(k & [-> ->]%Hp & Ha)|[_ Ha]]; [by apply Q2 in Ha|by apply not_elem_of_empty in Ha].
    + by intros ([|] & t & acts & post & [=] & _).
  - intros i c j Hn. pose proof (nedge_valid _ _ _ _ Hn) as Hi. unfold valid in Hi. rewrite A2 in Hi. cbn in Hi. assert (i = 0) as -> by lia. by apply Q1 in Hn.
Qed.

(** Finalizing the last node. *)
Lemma PInv_finish nfa nfa' b past : valid nfa 0 -> valid nfa (m_nodeId b) -> PInv nfa b past -> okRows nfa' -> count nfa' = count nfa ->
  (forall i, valid nfa i -> i <> m_nodeId b -> sameRow nfa nfa' i) -> (forall l j, nedge nfa' (m_nodeId b) l j <-> bedge b l j) -> (forall a, nact nfa' (m_nodeId b) a <-> a ∈ m_actions b) ->
  okNFA nfa' /\ (forall w a, nfaFinds nfa' w a <-> prefixFinds past w a) /\ forall i c j, step nfa' c i j -> A c.
Proof.
  intros H0 Hv [P1 P2 P3 P4 P5 P6 P7] Hok Hc Hsame Hedge Hact. assert (forall i l j, nedge nfa' i l j <-> nedge nfa i l j) as HE.
  { intros i l j. destruct (decide (i = m_nodeId b)) as [->|Hne]; [rewrite Hedge; specialize (P2 l j); specialize (P3 l j); tauto|].
    destruct (decide (valid nfa i)) as [Hi|Hi]; [by apply sameRow_nedge, Hsame|]. split; intros Hn%nedge_valid; rewrite valid_count in *; lia. }
  assert (forall w k, nfaRun nfa' 0 w k <-> path (nedge nfa) 0 w k) as HR. { intros w k. rewrite <- path_run. split; apply path_sub; intros i l j; apply HE. }
  split_and!.
  - apply okRows_okNFA; [|done]. intros E. rewrite valid_count in H0. unfold count in *. rewrite E in Hc. cbn in Hc. lia.
  - intros w a. rewrite <- P6. unfold nfaFinds. setoid_rewrite HR. change (exists k acts, path (nedge nfa) 0 w k /\ nodeActions nfa' k = Some acts /\ a ∈ acts)
      with (exists k, exists acts, path (nedge nfa) 0 w k /\ nodeActions nfa' k = Some acts /\ a ∈ acts). split.
    + intros (k & acts & Hk & Ha). assert (nact nfa' k a) as Ha' by by exists acts. destruct (decide (k = m_nodeId b)) as [->|Hne]; [right; split; [done|by apply Hact]|].
      left. exists k. split; [done|]. rewrite <- (sameRow_nact nfa nfa'); [done|]. apply Hsame; [|done]. exact (path_valid _ _ _ _ P1 H0 Hk).
    + intros [(k & Hk & Ha)|[Hk Ha%Hact]]; [|destruct Ha as (acts & Ha); by exists (m_nodeId b), acts]. assert (k <> m_nodeId b) as Hne by (intros ->; by apply P4 in Ha).
      rewrite <- (sameRow_nact nfa nfa') in Ha by (apply Hsame; [exact (path_valid _ _ _ _ P1 H0 Hk)|done]). destruct Ha as (acts & Ha). by exists k, acts.
  - intros i c j Hs. apply (P7 i c j), HE. exact Hs.
Qed.

Lemma prefixNFA_spec prefix : okPrefix prefix -> exists nfa, prefixNFA targetOrder actionOrder prefix = Some nfa
  /\ (small nfa -> okNFA nfa /\ (forall w a, nfaFinds nfa w a <-> prefixFinds prefix w a) /\ forall i c j, step nfa c i j -> A c).
Proof using targets_listed actions_listed.
  intros Hp. unfold prefixNFA. pose proof (newBuilder_spec emptyNFA) as [_ _ A3 _ _ A6 _ _ _]. pose proof PInv_start as A7. destruct (newBuilder emptyNFA) as [nfa b]. cbn [fst snd] in *.
  destruct (generatePrefix_spec prefix Hp nfa b A3 A6) as (nfa1 & b1 & -> & B1 & B2 & B3 & B4). cbn [mbind option_bind].
  destruct (finalize_rows targetOrder actionOrder targets_listed actions_listed b1 nfa1 B2 B3) as (nfa2 & -> & C1 & C2 & C3). exists nfa2. split; [done|]. intros S2.
  pose proof (small_extends _ _ C1 S2) as S1. destruct (A7 (small_extends _ _ B1 S1)) as [H0 HP]. specialize (B4 S1 [] H0 HP). cbn [app] in B4.
  destruct (C3 S2 (p_rows _ _ _ B4)) as (Ok2 & Same2 & Ed2 & Ac2); [intros l j Hj; by apply (p_edges _ _ _ B4) in Hj|].
  apply (PInv_finish nfa1 nfa2 b1); try done. by eapply valid_extends.
Qed.

End Prefix.

(** The automaton of a path of the prefix tree is generated without an
    assertion failing, and when its arrays have fewer than 2^32 entries it
    finds, after any string, exactly the actions of the vertices up to which
    the terms of the path match the string. *)
Theorem prefixNFA_correct targetOrder actionOrder prefix :
  (forall s, targetOrder s ≡ₚ elements s) -> (forall s, actionOrder s ≡ₚ elements s) -> Forall (fun p => okTerm p.1 = true) prefix ->
  exists nfa, prefixNFA targetOrder actionOrder prefix = Some nfa
    /\ (small nfa -> okNFA nfa /\ forall w a, nfaFinds nfa w a <-> prefixFinds prefix w a).
Proof.
  intros H1 H2 Hp. destruct (prefixNFA_spec targetOrder actionOrder (fun _ => True) H1 H2 prefix) as (nfa & E & H); [by eapply Forall_impl; [exact Hp|]|].
  exists nfa. split; [done|]. intros Hs. by destruct (H Hs) as (? & ? & _).
Qed.

(** No set of the term has the end of the URL. *)
Definition endFree (t : Term) : bool := forallb (fun s => m_inverted s || negb (has s 0)) (setsOf t).

Lemma endFree_spec t s c : endFree t = true -> s ∈ setsOf t -> member s c -> c <> 0.
Proof.
  unfold endFree. rewrite forallb_forall. intros H Hs Hm ->. specialize (H s ltac:(by apply list_elem_of_In)). unfold member in Hm. destruct (m_inverted s); [lia|].
  destruct Hm as [_ Hm]. by rewrite Hm in H.
Qed.

(** From the terms of a filter to the load: the automaton of a path of
    terms without the end of the URL, turned into a DFA, compiled and run on
    an ASCII URL, gives exactly the actions, wanted for the load, of the
    vertices up to which the terms match the start of the URL. *)
Theorem interpret_prefix targetOrder actionOrder nodeOrder prefix S fuel top url flags :
  (forall s, targetOrder s ≡ₚ elements s) -> (forall s, actionOrder s ≡ₚ elements s) -> (forall s, nodeOrder s ≡ₚ elements s) ->
  Forall (fun p => okTerm p.1 = true /\ endFree p.1 = true) prefix -> (forall a, ~ prefixFinds prefix [] a) ->
  (forall nfa, prefixNFA targetOrder actionOrder prefix = Some nfa -> small nfa /\ FewSets nfa S /\ Forall okAction (NFA.actions nfa)
    /\ forall d, NFAToDFA.convert nodeOrder actionOrder fuel nfa = Some d -> sumMax d (compileOrder d) + 8 < 2 ^ 30) ->
  (size S <= fuel)%nat -> Z.of_nat (length url) + 2 < 2 ^ 32 -> Forall (fun c => 1 <= c <= 127) url ->
  exists nfa d bytecode found, prefixNFA targetOrder actionOrder prefix = Some nfa /\ NFAToDFA.convert nodeOrder actionOrder fuel nfa = Some d
    /\ DFABytecodeCompiler.compile d [] = Some bytecode /\ DFABytecodeInterpreter.interpretWith bytecode top url flags = Some found
    /\ forall a, a ∈ found <-> wanted top flags a /\ exists start, start `prefix_of` url /\ prefixFinds prefix start a.
Proof.
  intros H1 H2 H3 Hp Hno Hsz Hf Hlen Hurl. destruct (prefixNFA_spec targetOrder actionOrder (fun c => c <> 0) H1 H2 prefix) as (nfa & E & H).
  { eapply Forall_impl; [exact Hp|]. intros [t acts] [Ht He]. split; [done|]. intros s c. by apply endFree_spec. }
  destruct (Hsz nfa E) as (Hs & HS & HA & Hd). destruct (H Hs) as (Hok & HN & HL).
  destruct (interpret_convert nodeOrder actionOrder nfa S fuel top url flags) as (d & code & found & Ec & Eb & Ei & Hfound); try done.
  { intros i j Hst. by apply (HL i 0 j). }
  { intros a Ha%HN. by apply Hno in Ha. }
  exists nfa, d, code, found. split_and!; try done. intros a. rewrite Hfound. by setoid_rewrite HN.
Qed.

(** * Filters on which the theorems apply *)

Import ImmutableNFANodeBuilder Term CombinedURLFilters.

(** The filter [ads?], searched for anywhere: any characters, [a], [d], which
    has the action 3, and [s] with the action 7. *)
Definition characterTerm (c : Z) : Term := default (Empty One) (Term_character c false).

Definition examplePrefix : list (Term * list Z) :=
  [(CharacterSetTerm universalSet ZeroOrMore, []); (characterTerm 97, []); (characterTerm 100, [3]); (characterTerm 115, [7])].

Definition examplePrefixNFA : NFA.NFA := default emptyNFA (prefixNFA elements elements examplePrefix).

Definition examplePrefixSets : gset (gset Z) := list_to_set (subsets (nodeIds examplePrefixNFA)).

Lemma examplePrefix_ok : Forall (fun p => okTerm p.1 = true) examplePrefix.
Proof. repeat (apply Forall_cons; split; [vm_compute; reflexivity|]). apply Forall_nil. exact I. Qed.

Lemma examplePrefixNFA_ok : okNFA examplePrefixNFA.
Proof. apply okNFAb_spec. by vm_compute. Qed.

Lemma examplePrefixSets_size : size examplePrefixSets = 128%nat.
Proof. by vm_compute. Qed.

Lemma examplePrefixNFA_few : FewSets examplePrefixNFA examplePrefixSets.
Proof. apply FewSets_subsets; [exact examplePrefixNFA_ok|vm_compute; discriminate| |]; fold examplePrefixSets; rewrite examplePrefixSets_size; vm_compute; reflexivity. Qed.

Lemma examplePrefixNFA_small : small examplePrefixNFA.
Proof. split; vm_compute; reflexivity. Qed.

Lemma examplePrefixNFA_eq : prefixNFA elements elements examplePrefix = Some examplePrefixNFA.
Proof. vm_compute. reflexivity. Qed.

Lemma some_unique {B} (o : option B) x y : o = Some x -> o = Some y -> y = x.
Proof. congruence. Qed.

Lemma examplePrefixNFA_quiet a : ~ prefixFinds examplePrefix [] a.
Proof.
  destruct (prefixNFA_spec elements elements (fun _ => True)) with (prefix := examplePrefix) as (nfa & E & H).
  { intros s. reflexivity. }
  { intros s. reflexivity. }
  { eapply Forall_impl; [exact examplePrefix_ok|]. intros p Hp. split; [exact Hp|]. intros. exact I. }
  rewrite (some_unique _ _ _ examplePrefixNFA_eq E) in H. clear E. destruct (H examplePrefixNFA_small) as (_ & HN & _). intros Ha%HN. revert Ha.
  apply noInitialb_spec; [exact examplePrefixNFA_ok|vm_compute; reflexivity].
Qed.

Lemma prefixNFA_correct_witness :
  exists nfa, prefixNFA elements elements examplePrefix = Some nfa
    /\ (small nfa -> okNFA nfa /\ forall w a, nfaFinds nfa w a <-> prefixFinds examplePrefix w a).
Proof. apply (prefixNFA_correct elements elements examplePrefix); [intros s; reflexivity|intros s; reflexivity|exact examplePrefix_ok]. Defined.

Lemma interpret_prefix_witness :
  exists nfa d bytecode found, prefixNFA elements elements examplePrefix = Some nfa /\ NFAToDFA.convert elements elements 128 nfa = Some d
    /\ DFABytecodeCompiler.compile d [] = Some bytecode /\ DFABytecodeInterpreter.interpretWith bytecode None (chrs "http://ad/") 0 = Some found
    /\ forall a, a ∈ found <-> wanted None 0 a /\ exists start, start `prefix_of` chrs "http://ad/" /\ prefixFinds examplePrefix start a.
Proof.
  apply (interpret_prefix elements elements elements examplePrefix examplePrefixSets 128 None (chrs "http://ad/") 0).
  - intros s. reflexivity.
  - intros s. reflexivity.
  - intros s. reflexivity.
  - repeat (apply Forall_cons; split; [vm_compute; split; reflexivity|]). apply Forall_nil. exact I.
  - exact examplePrefixNFA_quiet.
  - intros nfa E. rewrite (some_unique _ _ _ examplePrefixNFA_eq E). clear E. split; [exact examplePrefixNFA_small|]. split; [exact examplePrefixNFA_few|]. split.
    + apply (bool_decide_unpack _). vm_compute. exact I.
    + intros d E. vm_compute in E. injection E as <-. vm_compute. reflexivity.
  - rewrite examplePrefixSets_size. apply le_n.
  - vm_compute. reflexivity.
  - apply (bool_decide_unpack _). vm_compute. exact I.
Defined.

(** The interpreter does find the action at [ad]. *)
Example interpret_prefix_found :
  (d ← NFAToDFA.convert elements elements 128 examplePrefixNFA; bytecode ← DFABytecodeCompiler.compile d [];
   DFABytecodeInterpreter.interpretWith bytecode None (chrs "http://ad/") 0) = Some {[ 3 ]}.
Proof. vm_compute. reflexivity. Qed.

Lemma addDomain_correct_witness :
  exists root', addDomain 5 (chrs "*webkit.org") emptyFilters = Some root'
    /\ forall w a, treeFinds root' w a <-> treeFinds emptyFilters w a \/ a = 5 /\ isDomain (chrs "*webkit.org") w.
Proof. apply (addDomain_correct 5 (chrs "*webkit.org") emptyFilters). apply (bool_decide_unpack (Forall (fun c => 1 <= c <= 127 /\ isASCIIUpper c = false) _)). vm_compute. exact I. Defined.
