(* ===== verification/CombinedURLFiltersProcess.v ===== *)
(** * CombinedURLFiltersProcess: from the prefix tree to automata

    Translated from [processNFAs] and its helpers in
    src/Source/WebCore/contentextensions/CombinedURLFilters.cpp.  The tree is
    taken apart while automata are made of it.  The code walks the tree with
    stacks of pointers to vertices; here a stack holds the vertices themselves,
    and a vertex that is left is put back into the edge of its parent.  [None]
    is a failed assertion, an index out of range or a null pointer. *)

From stdpp Require Import gmap sorting.
From S2P Require Import Prelude ASCIICType DFA MutableRangeList NFA ImmutableNFANodeBuilder Term CombinedURLFilters.
Import ImmutableNFANodeBuilder Term CombinedURLFilters.

Module CombinedURLFiltersProcess.

(** [ReverseSuffixTreeVertex]; an edge is a term and the child. *)
Inductive ReverseSuffixTreeVertex := SuffixVertex (nodeId : Z) (edges : list (Term * ReverseSuffixTreeVertex)).

Definition suffixNodeId (v : ReverseSuffixTreeVertex) : Z := let '(SuffixVertex nodeId _) := v in nodeId.
Definition suffixEdges (v : ReverseSuffixTreeVertex) : list (Term * ReverseSuffixTreeVertex) := let '(SuffixVertex _ edges) := v in edges.

(** The vertices by the sorted actions of their leaf. *)
Definition ReverseSuffixTreeRoots := gmap (list Z) ReverseSuffixTreeVertex.

(** [HashableActionList]: the actions sorted. *)
Definition HashableActionList (actions : list Z) : list Z := merge_sort Z.le actions.

(** [ActiveSubtree]: the vertex (its actions, and its edges, whose term is null
    once they are marked for deletion), the builder unless it is empty, and the
    index of the edge that is followed. *)
Record ActiveSubtree := mkActive {
  activeActions : option (list Z);
  activeEdges : list (option Term * PrefixTreeVertex);
  nfaNode : option Builder;
  edgeIndex : nat
}.

Definition isValidNode (f : ActiveSubtree) : bool := match nfaNode f with Some _ => true | None => false end.

Definition setNode (b : Builder) (f : ActiveSubtree) : ActiveSubtree := mkActive (activeActions f) (activeEdges f) (Some b) (edgeIndex f).

Definition setIndex (i : nat) (f : ActiveSubtree) : ActiveSubtree := mkActive (activeActions f) (activeEdges f) (nfaNode f) i.

(** The term of the edge that is followed. *)
Definition activeTerm (f : ActiveSubtree) : option Term := '(term, _) ← activeEdges f !! edgeIndex f; term.

(** A vertex that is entered, with an empty builder. *)
Definition enter (v : PrefixTreeVertex) : ActiveSubtree :=
  mkActive (vertexActions v) ((fun '(term, child) => (Some term, child)) <$> vertexEdges v) None 0.

(** The vertex that was entered through the edge, when it is left. *)
Definition putBack (child : PrefixTreeVertex) (f : ActiveSubtree) : ActiveSubtree :=
  mkActive (activeActions f) (alter (fun '(term, _) => (term, child)) (edgeIndex f) (activeEdges f)) (nfaNode f) (edgeIndex f).

(** [removeAllMatching]: the edges marked for deletion go. *)
Definition removeMarked (edges : list (option Term * PrefixTreeVertex)) : list (Term * PrefixTreeVertex) :=
  omap (fun '(term, child) => term ← term; Some (term, child)) edges.

Section Process.

Context (targetOrder actionOrder : gset Z -> list Z).

(** The nodes from the last vertex of the stack that has one to the top; the
    top of the stack is the head of the list. *)
Fixpoint generateUpTo (nfa : NFA.NFA) (stack : list ActiveSubtree) : option (NFA.NFA * list ActiveSubtree) :=
  match stack with
  | [] => None
  | destination :: below =>
      if isValidNode destination then Some (nfa, stack)
      else
        '(nfa, below) ← generateUpTo nfa below;
        match below with
        | [] => None
        | source :: below =>
            sourceNode ← nfaNode source;
            term ← activeTerm source;
            '(nfa, sourceNode, newNode) ← generateGraphToEnd targetOrder actionOrder term nfa sourceNode (default [] (activeActions destination));
            Some (nfa, setNode newNode destination :: setNode sourceNode source :: below)
        end
  end.

(** The loop of [generateInfixUnsuitableForReverseSuffixTree] below the leaf. *)
Fixpoint infixLoop (nfa : NFA.NFA) (stack : list ActiveSubtree) : option (NFA.NFA * list ActiveSubtree) :=
  match stack with
  | [] => Some (nfa, [])
  | activeSubtree :: below =>
      if isValidNode activeSubtree then Some (nfa, stack)
      else
        guard (below <> []);;
        let hasActionInsideTree := match activeActions activeSubtree with Some _ => true | None => false end in
        let hasSingleOutcome := Nat.eqb (length (activeEdges activeSubtree)) 1 in
        if hasActionInsideTree || negb hasSingleOutcome then generateUpTo nfa stack
        else '(nfa, below) ← infixLoop nfa below; Some (nfa, activeSubtree :: below)
  end.

Definition generateInfixUnsuitableForReverseSuffixTree (nfa : NFA.NFA) (stack : list ActiveSubtree) : option (NFA.NFA * list ActiveSubtree) :=
  match stack with
  | [] => None
  | leaf :: below => '(nfa, below) ← infixLoop nfa below; Some (nfa, leaf :: below)
  end.

(** The edge with the term, if there is one. *)
Fixpoint findSuffixEdge (term : Term) (edges : list (Term * ReverseSuffixTreeVertex)) : option nat :=
  match edges with
  | [] => None
  | (edgeTerm, _) :: edges => if Term_eqb term edgeTerm then Some 0%nat else S <$> findSuffixEdge term edges
  end.

(** The child of [vertex] for a term: that of an existing edge, or a vertex for
    a new node; with its index among the edges. *)
Definition suffixChild (nfa : NFA.NFA) (term : Term) (vertex : ReverseSuffixTreeVertex) : option (NFA.NFA * nat * ReverseSuffixTreeVertex) :=
  match findSuffixEdge term (suffixEdges vertex) with
  | Some i => '(_, child) ← suffixEdges vertex !! i; Some (nfa, i, child)
  | None =>
      let '(nfa, newNode) := newBuilder nfa in
      '(nfa, newNode) ← generateGraph targetOrder actionOrder term nfa newNode (suffixNodeId vertex);
      nfa ← finalize targetOrder actionOrder newNode nfa;
      Some (nfa, length (suffixEdges vertex), SuffixVertex (m_nodeId newNode) [])
  end.

(** The edge at the index leads to [child]: an existing edge or a new one. *)
Definition setSuffixChild (i : nat) (term : Term) (child vertex : ReverseSuffixTreeVertex) : ReverseSuffixTreeVertex :=
  SuffixVertex (suffixNodeId vertex) (take i (suffixEdges vertex) ++ (term, child) :: drop (S i) (suffixEdges vertex)).

(** The loop of [generateSuffixWithReverseSuffixTree]: [vertex] is the active
    vertex of the reverse suffix tree, [above] the actions of the vertex of the
    tree that the followed edge leads to, whose edges are gone. *)
Fixpoint suffixLoop (nfa : NFA.NFA) (stack : list ActiveSubtree) (above : option (list Z)) (vertex : ReverseSuffixTreeVertex)
    : option (NFA.NFA * list ActiveSubtree * ReverseSuffixTreeVertex) :=
  match stack with
  | [] => None
  | source :: below =>
      term ← activeTerm source;
      match nfaNode source with
      | Some sourceNode =>
          '(nfa, sourceNode) ← generateGraph targetOrder actionOrder term nfa sourceNode (suffixNodeId vertex);
          Some (nfa, putBack (Vertex above []) (setNode sourceNode source) :: below, vertex)
      | None =>
          guard (activeActions source = None);;
          '(nfa, i, child) ← suffixChild nfa term vertex;
          guard (length (activeEdges source) = 1%nat);;
          '(nfa, stack, child) ← suffixLoop nfa below (activeActions source) child;
          Some (nfa, stack, setSuffixChild i term child vertex)
      end
  end.

(** The root of the reverse suffix tree for the actions of the leaf: an existing
    one, or one for a new node. *)
Definition suffixRoot (nfa : NFA.NFA) (actionList : list Z) (roots : ReverseSuffixTreeRoots) : option (NFA.NFA * ReverseSuffixTreeVertex) :=
  match roots !! HashableActionList actionList with
  | Some root => Some (nfa, root)
  | None =>
      let '(nfa, newNode) := newBuilder nfa in
      let newNode := setActions actionList newNode in
      nfa ← finalize targetOrder actionOrder newNode nfa;
      Some (nfa, SuffixVertex (m_nodeId newNode) [])
  end.

Definition generateSuffixWithReverseSuffixTree (nfa : NFA.NFA) (stack : list ActiveSubtree) (roots : ReverseSuffixTreeRoots)
    : option (NFA.NFA * list ActiveSubtree * ReverseSuffixTreeRoots) :=
  match stack with
  | [] => None
  | leafSubtree :: below =>
      guard (isValidNode leafSubtree = false);;
      let actionList := default [] (activeActions leafSubtree) in
      guard (actionList <> []);;
      let key := HashableActionList actionList in
      '(nfa, root) ← suffixRoot nfa actionList roots;
      '(nfa, stack, root) ← suffixLoop nfa below (activeActions leafSubtree) root;
      Some (nfa, stack, <[key := root]> roots)
  end.

(** The state of the loop of [generateNFAForSubtree]. *)
Record Subtree := mkSubtree {
  st_nfa : NFA.NFA;
  st_stack : list ActiveSubtree;
  st_roots : ReverseSuffixTreeRoots;
  st_tooBig : bool
}.

(** A vertex on the stack is left: its edge is marked when nothing is left
    under it, and the next one follows. *)
Definition advance (f : ActiveSubtree) : option ActiveSubtree :=
  '(_, child) ← activeEdges f !! edgeIndex f;
  let edges := if isEmpty child then alter (fun '(_, child) => (None, child)) (edgeIndex f) (activeEdges f) else activeEdges f in
  Some (mkActive (activeActions f) edges (nfaNode f) (S (edgeIndex f))).

Definition advanceTop (stack : list ActiveSubtree) : option (list ActiveSubtree) :=
  match stack with
  | [] => Some []
  | f :: below => f ← advance f; Some (f :: below)
  end.

(** [stack.removeLast()]: the destructor finalizes a node. *)
Definition leave (nfa : NFA.NFA) (f : ActiveSubtree) : option NFA.NFA :=
  match nfaNode f with Some b => finalize targetOrder actionOrder b nfa | None => Some nfa end.

(** One turn of the loop, while the stack is not empty; the result at the end
    is the automaton with what is left of the root. *)
Definition subtreeStep (maxNFASize : Z) (s : Subtree) : option (Subtree + NFA.NFA * PrefixTreeVertex) :=
  match st_stack s with
  | [] => None
  | top :: below =>
      match activeEdges top !! edgeIndex top with
      | Some (term, child) =>
          if st_tooBig s then Some (inl (mkSubtree (st_nfa s) (setIndex (length (activeEdges top)) top :: below) (st_roots s) true))
          else
            term ← term;
            fixed ← hasFixedLength term;
            if fixed : bool then Some (inl (mkSubtree (st_nfa s) (enter child :: top :: below) (st_roots s) false))
            else Some (inl (mkSubtree (st_nfa s) (setIndex (S (edgeIndex top)) top :: below) (st_roots s) false))
      | None =>
          guard (edgeIndex top = length (activeEdges top));;
          match activeEdges top with
          | [] =>
              '(nfa, stack) ← generateInfixUnsuitableForReverseSuffixTree (st_nfa s) (top :: below);
              '(nfa, stack, roots) ← generateSuffixWithReverseSuffixTree nfa stack (st_roots s);
              let tooBig := st_tooBig s || (maxNFASize <? Z.of_nat (length (NFA.nodes nfa))) in
              stack ← advanceTop stack;
              Some (inl (mkSubtree nfa stack roots tooBig))
          | edges =>
              let vertex := Vertex (activeActions top) (removeMarked edges) in
              nfa ← leave (st_nfa s) top;
              match below with
              | [] => Some (inr (nfa, vertex))
              | parent :: below =>
                  stack ← advanceTop (putBack vertex parent :: below);
                  Some (inl (mkSubtree nfa stack (st_roots s) (st_tooBig s)))
              end
          end
      end
  end.

Fixpoint subtreeLoop (fuel : nat) (maxNFASize : Z) (s : Subtree) : option (NFA.NFA * PrefixTreeVertex) :=
  match fuel with
  | O => None
  | S fuel =>
      next ← subtreeStep maxNFASize s;
      match next with
      | inl s => subtreeLoop fuel maxNFASize s
      | inr result => Some result
      end
  end.

Fixpoint vertexCount (v : PrefixTreeVertex) : nat :=
  let '(Vertex _ edges) := v in S (list_sum ((fun '(_, child) => vertexCount child) <$> edges)).

Definition generateNFAForSubtree (nfa : NFA.NFA) (subtreeRoot : Builder) (root : PrefixTreeVertex) (maxNFASize : Z)
    : option (NFA.NFA * PrefixTreeVertex) :=
  if isEmpty root then nfa ← finalize targetOrder actionOrder subtreeRoot nfa; Some (nfa, root)
  else subtreeLoop (2 * vertexCount root) maxNFASize (mkSubtree nfa [setNode subtreeRoot (enter root)] ∅ false).

(** A vertex on the way along last edges: its actions, the edges before the
    last one and the term of the last one. *)
Record Crumb := mkCrumb { crumbActions : option (list Z); crumbEdges : list (Term * PrefixTreeVertex); crumbTerm : Term }.

Definition crumbVertex (c : Crumb) (child : PrefixTreeVertex) : PrefixTreeVertex :=
  Vertex (crumbActions c) (crumbEdges c ++ [(crumbTerm c, child)]).

(** [edges.last()], with the edges before it. *)
Definition lastEdge {R} (none : R) (f : list (Term * PrefixTreeVertex) -> Term -> PrefixTreeVertex -> R) :
    list (Term * PrefixTreeVertex) -> list (Term * PrefixTreeVertex) -> R :=
  fix loop (before edges : list (Term * PrefixTreeVertex)) :=
    match edges with
    | [] => none
    | [(term, child)] => f before term child
    | edge :: edges => loop (before ++ [edge]) edges
    end.

(** "Traverse out to a leaf.": the deepest vertex comes first. *)
Fixpoint traverse (v : PrefixTreeVertex) (stack : list Crumb) : list Crumb * PrefixTreeVertex :=
  let '(Vertex actions edges) := v in
  lastEdge (stack, v) (fun before term child => traverse child (mkCrumb actions before term :: stack)) [] edges.

(** "Find the prefix root for this NFA." *)
Fixpoint findPrefixRoot (stack : list Crumb) (v : PrefixTreeVertex) : option (list Crumb * PrefixTreeVertex) :=
  match stack with
  | [] => Some ([], v)
  | c :: below =>
      fixed ← hasFixedLength (crumbTerm c);
      if fixed : bool then findPrefixRoot below (crumbVertex c v) else Some (stack, v)
  end.

(** The terms from the root to the vertex, with the actions of the vertices
    they lead to. *)
Fixpoint prefixOf (stack : list Crumb) (actions : option (list Z)) : list (Term * list Z) :=
  match stack with
  | [] => []
  | c :: below => prefixOf below (crumbActions c) ++ [(crumbTerm c, default [] actions)]
  end.

(** "Clean up any processed leaf nodes." *)
Fixpoint cleanUp (stack : list Crumb) (v : PrefixTreeVertex) : PrefixTreeVertex :=
  match stack with
  | [] => v
  | c :: below => cleanUp below (if isEmpty v then Vertex (crumbActions c) (crumbEdges c) else crumbVertex c v)
  end.

(** One automaton: the automaton and the tree that is left. *)
Definition nextNFA (maxNFASize : Z) (root : PrefixTreeVertex) : option (option (NFA.NFA * PrefixTreeVertex)) :=
  let '(stack, leaf) := traverse root [] in
  match stack with
  | [] => Some None
  | _ =>
      '(stack, vertex) ← findPrefixRoot stack leaf;
      let '(nfa, lastNode) := newBuilder emptyNFA in
      '(nfa, lastNode) ← generatePrefix targetOrder actionOrder (prefixOf stack (vertexActions vertex)) nfa lastNode;
      '(nfa, vertex) ← generateNFAForSubtree nfa lastNode vertex maxNFASize;
      Some (Some (nfa, cleanUp stack vertex))
  end.

(** [processNFAs], with the automata that the handler gets; each one takes at
    least a leaf. *)
Fixpoint processLoop (fuel : nat) (maxNFASize : Z) (root : PrefixTreeVertex) : option (list NFA.NFA * PrefixTreeVertex) :=
  match fuel with
  | O => None
  | S fuel =>
      next ← nextNFA maxNFASize root;
      match next with
      | None => Some ([], root)
      | Some (nfa, root) => '(nfas, root) ← processLoop fuel maxNFASize root; Some (nfa :: nfas, root)
      end
  end.

Definition processNFAs (maxNFASize : Z) (root : PrefixTreeVertex) : option (list NFA.NFA * PrefixTreeVertex) :=
  processLoop (vertexCount root) maxNFASize root.

End Process.

End CombinedURLFiltersProcess.
