(* ===== verification/CombinedURLFiltersGraph.v ===== *)
(** * CombinedURLFiltersGraph: an automaton with builders that are still live

    The nodes of live builders are already in the automaton, their edges and
    actions are still in the builders.  The graph of both together grows by
    fragments, and finalizing a builder does not change it. *)

From stdpp Require Import gmap.
From S2P Require Import Prelude DFA MutableRangeList NFA NFAToDFA NFAToDFAClosure ImmutableNFANodeBuilder Term TermLanguage NFAFragment TermGraph CombinedURLFilters CombinedURLFiltersTree.
Import ImmutableNFANodeBuilder Term.

Definition gedge (nfa : NFA.NFA) (live : list Builder) : edges :=
  fun i l j => nedge nfa i l j \/ exists b, b ∈ live /\ m_nodeId b = i /\ bedge b l j.

Definition gact (nfa : NFA.NFA) (live : list Builder) (i a : Z) : Prop :=
  nact nfa i a \/ exists b, b ∈ live /\ m_nodeId b = i /\ a ∈ m_actions b.

(** What the operations need in order to return. *)
Definition safe (nfa : NFA.NFA) (b : Builder) : Prop := shape b /\ valid nfa (m_nodeId b).

Lemma safe_extends nfa nfa' b : extends nfa nfa' -> safe nfa b -> safe nfa' b.
Proof. intros He [Hs Hv]. split; [done|by eapply valid_extends]. Qed.

Lemma Forall_safe_extends nfa nfa' live : extends nfa nfa' -> Forall (safe nfa) live -> Forall (safe nfa') live.
Proof. intros He H. eapply Forall_impl; [exact H|]. intros b. by apply safe_extends. Qed.

Record Graph (nfa : NFA.NFA) (live : list Builder) : Prop := {
  graph_rows : okRows nfa;
  graph_ids : NoDup (m_nodeId <$> live);
  graph_safe : Forall (safe nfa) live;
  graph_bounded : Forall (bounded nfa) live;
  graph_edges : forall b l j, b ∈ live -> ~ nedge nfa (m_nodeId b) l j;
  graph_acts : forall b a, b ∈ live -> ~ nact nfa (m_nodeId b) a }.

(** The same graph. *)
Definition sameGraph (nfa : NFA.NFA) (live : list Builder) (nfa' : NFA.NFA) (live' : list Builder) : Prop :=
  (forall i l j, gedge nfa' live' i l j <-> gedge nfa live i l j) /\ forall i a, gact nfa' live' i a <-> gact nfa live i a.

Lemma Graph_perm nfa live live' : live ≡ₚ live' -> Graph nfa live -> Graph nfa live'.
Proof.
  intros Hp [H1 H2 H3 H4 H5 H6]. split; [done|by rewrite <- Hp|by rewrite <- Hp|by rewrite <- Hp|..]; intros b ? ?; [intros Hb|]; [apply H5|apply H6]; by rewrite Hp.
Qed.

Lemma sameGraph_perm nfa live live' : live ≡ₚ live' -> sameGraph nfa live nfa live'.
Proof. intros Hp. split; intros; unfold gedge, gact; by setoid_rewrite Hp. Qed.

Lemma gedge_valid nfa live i l j : Graph nfa live -> gedge nfa live i l j -> valid nfa i /\ valid nfa j.
Proof.
  intros [H1 _ H3 H4 _ _] [He|(b & Hb & <- & He)]; [split; [by eapply nedge_valid|by eapply nedge_target]|].
  rewrite Forall_forall in H3. rewrite Forall_forall in H4. split; [by apply (H3 b)|by apply (H4 b Hb) in He].
Qed.

Lemma nact_valid nfa i a : nact nfa i a -> valid nfa i.
Proof.
  intros (acts & E & _). unfold nodeActions, DFA.at_ in E. unfold valid. destruct (Z.ltb_spec i 0); [done|]. destruct (NFA.nodes nfa !! Z.to_nat i) eqn:Ei; [|done]. apply lookup_lt_Some in Ei. lia.
Qed.

Lemma gact_valid nfa live i a : Graph nfa live -> gact nfa live i a -> valid nfa i.
Proof. intros [_ _ H3 _ _ _] [Ha|(b & Hb & <- & _)]; [by eapply nact_valid|]. rewrite Forall_forall in H3. by apply (H3 b). Qed.

(** A node that is not there has no edges and no actions. *)
Lemma gedge_new nfa live i l j : Graph nfa live -> ~ valid nfa i -> ~ gedge nfa live i l j.
Proof. intros HG Hi He. by apply gedge_valid in He as [? _]. Qed.

Lemma gpath_valid nfa live i w k : Graph nfa live -> valid nfa i -> path (gedge nfa live) i w k -> valid nfa k.
Proof. intros HG Hi. induction 1 as [|? ? ? ? He|? ? ? ? ? He]; [done|apply (gedge_valid _ _ _ _ _ HG) in He; tauto..]. Qed.

Section Operations.

Context (targetOrder actionOrder : gset Z -> list Z).
Hypothesis targets_listed : forall s, targetOrder s ≡ₚ elements s.
Hypothesis actions_listed : forall s, actionOrder s ≡ₚ elements s.

Lemma sameRows_edges nfa nfa' i l j : (forall i, valid nfa i -> sameRow nfa nfa' i) -> valid nfa i -> nedge nfa' i l j <-> nedge nfa i l j.
Proof. intros Hs Hi. by apply sameRow_nedge, Hs. Qed.

(** A new node. *)
Lemma newBuilder_graph nfa live : let '(nfa', b) := newBuilder nfa in
  extends nfa nfa' /\ safe nfa' b /\ (forall l j, ~ bedge b l j) /\ m_actions b = ∅
  /\ (small nfa' -> Graph nfa live -> Graph nfa' (b :: live) /\ m_nodeId b = count nfa /\ sameGraph nfa live nfa' (b :: live)).
Proof.
  pose proof (newBuilder_spec nfa) as [A1 A2 A3 A4 A5 A6 A7 _ _]. pose proof (newBuilder_rows nfa) as A8. destruct (newBuilder nfa) as [nfa' b]. cbn [fst snd] in *.
  split; [done|]. split; [done|]. split; [done|]. split; [done|]. intros Hs [H1 H2 H3 H4 H5 H6]. destruct (A8 H1) as (Ok & Same & Q0 & Q1). specialize (A7 Hs). fold (count nfa) in A7.
  assert (count nfa' = count nfa + 1) as Hc by (unfold count; lia). rewrite Forall_forall in H3, H4.
  assert (forall b', b' ∈ live -> m_nodeId b' <> count nfa) as Hne by (intros b' Hb'; destruct (H3 b' Hb') as [_ Hv]; rewrite valid_count in Hv; lia).
  assert (forall i l j, nedge nfa' i l j <-> nedge nfa i l j) as HE.
  { intros i l j. destruct (decide (valid nfa i)) as [Hi|Hi]; [by apply sameRow_nedge, Same|]. split; intros Hn; pose proof (nedge_valid _ _ _ _ Hn) as Hv; [|done].
    assert (i = count nfa) as -> by (rewrite valid_count in *; lia). by apply Q0 in Hn. }
  assert (forall i a, nact nfa' i a <-> nact nfa i a) as HA.
  { intros i a. destruct (decide (valid nfa i)) as [Hi|Hi]; [by apply sameRow_nact, Same|]. split; intros Hn; pose proof (nact_valid _ _ _ Hn) as Hv; [|done].
    assert (i = count nfa) as -> by (rewrite valid_count in *; lia). by apply Q1 in Hn. }
  split; [|split; [done|split]].
  - split; [done| | | | |].
    + rewrite fmap_cons, NoDup_cons. split; [|done]. intros (b' & E & Hb')%list_elem_of_fmap. rewrite A7 in E. by apply (Hne b').
    + constructor; [done|]. apply Forall_forall. intros b' Hb'. by eapply safe_extends; [|apply H3].
    + constructor; [intros l j Hj; by apply A4 in Hj|]. apply Forall_forall. intros b' Hb'. by eapply bounded_extends; [|apply H4].
    + intros b' l j [->|Hb']%elem_of_cons; [rewrite A7; apply Q0|]. rewrite HE. by apply H5.
    + intros b' a [->|Hb']%elem_of_cons; [rewrite A7; apply Q1|]. rewrite HA. by apply H6.
  - intros i l j. unfold gedge. rewrite HE. setoid_rewrite elem_of_cons. split; [intros [?|(b' & [->|?] & ? & Hj)]; [by left|by apply A4 in Hj|right; eauto]|intros [?|(b' & ? & ?)]; [by left|right; eauto]].
  - intros i a. unfold gact. rewrite HA. setoid_rewrite elem_of_cons.
    split; [intros [?|(b' & [->|?] & ? & Hj)]; [by left|rewrite A5 in Hj; by apply not_elem_of_empty in Hj|right; eauto]|intros [?|(b' & ? & ?)]; [by left|right; eauto]].
Qed.

(** Finalizing a node. *)
Lemma finalize_graph nfa b : safe nfa b -> exists nfa', finalize targetOrder actionOrder b nfa = Some nfa' /\ extends nfa nfa' /\ count nfa' = count nfa
  /\ (small nfa' -> forall live, Graph nfa (b :: live) -> Graph nfa' live /\ sameGraph nfa (b :: live) nfa' live).
Proof using targets_listed actions_listed.
  intros [Hb Hv]. destruct (finalize_rows targetOrder actionOrder targets_listed actions_listed b nfa Hb Hv) as (nfa' & E & Hext & Hc & H). exists nfa'. split_and!; try done.
  intros Hs live [H1 H2 H3 H4 H5 H6]. destruct (H Hs H1) as (Ok & Same & Ed & Ac); [by inversion H4|]. clear H.
  rewrite fmap_cons, NoDup_cons in H2. destruct H2 as [H2 H2']. apply Forall_cons in H3 as [_ H3]. apply Forall_cons in H4 as [_ H4].
  assert (forall b', b' ∈ live -> m_nodeId b' <> m_nodeId b) as Hne by (intros b' Hb' E'; apply H2; rewrite <- E'; apply list_elem_of_fmap; by exists b').
  assert (forall i l j, nedge nfa' i l j <-> nedge nfa i l j \/ i = m_nodeId b /\ bedge b l j) as HE.
  { intros i l j. destruct (decide (i = m_nodeId b)) as [->|Hi]; [rewrite Ed; specialize (H5 b l j ltac:(left)); tauto|].
    destruct (decide (valid nfa i)) as [Hvi|Hvi]; [rewrite (sameRow_nedge nfa) by (by apply Same); tauto|]. split; [intros Hn%nedge_valid; destruct Hvi; unfold valid, count in *; lia|]. intros [Hn%nedge_valid|[? _]]; done. }
  assert (forall i a, nact nfa' i a <-> nact nfa i a \/ i = m_nodeId b /\ a ∈ m_actions b) as HA.
  { intros i a. destruct (decide (i = m_nodeId b)) as [->|Hi]; [rewrite Ac; specialize (H6 b a ltac:(left)); tauto|].
    destruct (decide (valid nfa i)) as [Hvi|Hvi]; [rewrite (sameRow_nact nfa) by (by apply Same); tauto|]. split; [intros Hn%nact_valid; destruct Hvi; unfold valid, count in *; lia|]. intros [Hn%nact_valid|[? _]]; done. }
  split; [split; try done|split].
  - by eapply Forall_safe_extends.
  - eapply Forall_impl; [exact H4|]. intros b'. by apply bounded_extends.
  - intros b' l j Hb'. rewrite HE. intros [Hn|[E' _]]; [|by apply (Hne b')]. by apply H5 in Hn; [|right].
  - intros b' a Hb'. rewrite HA. intros [Hn|[E' _]]; [|by apply (Hne b')]. by apply H6 in Hn; [|right].
  - intros i l j. unfold gedge. rewrite HE. setoid_rewrite elem_of_cons. split; [intros [[?|[-> ?]]|(b' & ? & ?)]|intros [?|(b' & [->|?] & <- & ?)]]; eauto 6.
  - intros i a. unfold gact. rewrite HA. setoid_rewrite elem_of_cons. split; [intros [[?|[-> ?]]|(b' & ? & ?)]|intros [?|(b' & [->|?] & <- & ?)]]; eauto 6.
Qed.

(** A term is drawn from a live node to a node; its characters are in the
    alphabet [A]. *)
Context (A : Z -> Prop).

Definition okLabels (t : Term) : Prop := okTerm t = true /\ forall s c, s ∈ setsOf t -> member s c -> A c.

Lemma generateGraph_graph t nfa b d : okLabels t -> safe nfa b ->
  exists nfa' b', generateGraph targetOrder actionOrder t nfa b d = Some (nfa', b') /\ extends nfa nfa' /\ safe nfa' b' /\ m_nodeId b' = m_nodeId b /\ m_actions b' = m_actions b
    /\ (small nfa' -> forall live, Graph nfa (b :: live) -> valid nfa d -> m_nodeId b <> d -> Graph nfa' (b' :: live)
        /\ (exists R, frag (m_nodeId b) d (fresh nfa nfa') A R (matches t) /\ forall i l j, gedge nfa' (b' :: live) i l j <-> both (gedge nfa (b :: live)) R i l j)
        /\ forall i a, gact nfa' (b' :: live) i a <-> gact nfa (b :: live) i a).
Proof using targets_listed actions_listed.
  intros [Ht HL] [Hb Hv]. destruct (generateGraph_draws targetOrder actionOrder targets_listed actions_listed A t Ht HL nfa b d Hb Hv) as (nfa' & b' & E & A1 & A2 & A3 & A4 & A5).
  exists nfa', b'. split_and!; try done; [split; [done|rewrite A3; by eapply valid_extends]|]. intros Hs live [H1 H2 H3 H4 H5 H6] Hd Hne. specialize (A5 Hs H1 Hd Hne). pose proof A5 as [D1 D2 (R & HF & HE & HR) DQ].
  pose proof (extends_count _ _ A1) as Hc. pose proof (proj1 (valid_count _ _) Hv) as Hv'.
  rewrite fmap_cons, NoDup_cons in H2. destruct H2 as [H2 H2']. apply Forall_cons in H3 as [_ H3]. apply Forall_cons in H4 as [H4 H4'].
  assert (forall i l j, nedge nfa' i l j <-> nedge nfa i l j \/ fresh nfa nfa' i /\ R i l j) as HEdge.
  { intros i l j. destruct (decide (valid nfa i)) as [Hi|Hi]; [rewrite (sameRow_nedge nfa) by (by apply D2); unfold fresh; rewrite valid_count in Hi; intuition lia|].
    destruct (decide (valid nfa' i)) as [Hi'|Hi']; [|split; [by intros Hn%nedge_valid|]; intros [Hn%nedge_valid|[Hf _]]; [done|unfold fresh in Hf; rewrite valid_count in Hi'; lia]].
    assert (fresh nfa nfa' i) as Hf by (unfold fresh; rewrite valid_count in *; lia). rewrite (HR i l j Hf). split; [by right|]. intros [Hn%nedge_valid|[_ ?]]; done. }
  assert (forall i a, nact nfa' i a <-> nact nfa i a) as HA.
  { intros i a. destruct (decide (valid nfa i)) as [Hi|Hi]; [by apply sameRow_nact, D2|]. split; intros Hn; pose proof (nact_valid _ _ _ Hn) as Hv2; [|done].
    destruct (DQ i a); [unfold fresh; rewrite valid_count in *; lia|done]. }
  assert (forall b2, b2 ∈ live -> valid nfa (m_nodeId b2)) as Hlive by (intros b2 Hb2; rewrite Forall_forall in H3; by apply (H3 b2)).
  assert (forall i, valid nfa i -> ~ fresh nfa nfa' i) as Hold by (intros i; unfold fresh; rewrite valid_count; lia).
  split; [split|split].
  - done.
  - rewrite fmap_cons, A3. by constructor.
  - constructor; [split; [done|rewrite A3; by eapply valid_extends]|by eapply Forall_safe_extends].
  - constructor; [exact (Drawn_bounded A _ _ _ _ _ _ A1 Hd H4 A5)|]. eapply Forall_impl; [exact H4'|]. intros b2. by apply bounded_extends.
  - intros b2 l j [->|Hb2]%elem_of_cons; rewrite HEdge; intros [Hn|[Hf _]].
    + rewrite A3 in Hn. by apply H5 in Hn; [|left].
    + rewrite A3 in Hf. by apply Hold in Hf.
    + by apply H5 in Hn; [|right].
    + by apply Hold in Hf; [|apply Hlive].
  - intros b2 a [->|Hb2]%elem_of_cons; rewrite HA; [rewrite A3; apply H6; left|apply H6; by right].
  - exists R. split; [done|]. intros i l j. unfold both, gedge. rewrite HEdge. setoid_rewrite elem_of_cons. split.
    + intros [[?|[_ ?]]|(b2 & [->|Hb2] & <- & Hj)]; [by left; left|by right| |left; right; eauto]. rewrite A3. apply HE in Hj as [?|?]; [left; right; exists b; eauto|by right].
    + intros [[?|(b2 & [->|Hb2] & <- & Hj)]|Hr]; [eauto 6|right; exists b'; split_and!; [by left|done|apply HE; by left]|eauto 6|].
      destruct (frag_from HF _ _ _ Hr) as [->|Hf]; [|eauto 6]. right. exists b'. split_and!; [by left|done|apply HE; by right].
  - intros i a. unfold gact. rewrite HA. setoid_rewrite elem_of_cons. split.
    + intros [?|(b2 & [->|Hb2] & <- & Hj)]; [eauto 6| |eauto 6]. rewrite A3, A4 in *. eauto 6.
    + intros [?|(b2 & [->|Hb2] & <- & Hj)]; [eauto 6| |eauto 6]. right. exists b'. rewrite A3, A4. eauto 6.
Qed.

End Operations.

(** ** The languages of the nodes *)

(** A node without edges from it or to it. *)
Definition isolated (E : edges) (n : Z) : Prop := forall i l, ~ E i l n /\ ~ E n l i.

Lemma isolated_from E n w k : isolated E n -> path E n w k -> w = [] /\ n = k.
Proof. intros H. apply path_stuck. intros l j. by apply H. Qed.

Lemma isolated_to E n i w : isolated E n -> path E i w n -> w = [] /\ i = n.
Proof.
  intros H Hp. induction Hp as [|i j k w Hs Hp IH|i j k c w Hs Hp IH]; [done|..]; destruct (IH H) as [_ ->]; by apply H in Hs.
Qed.

(** Nodes [fw] are reached on the strings of their path, from nodes [sfx] the
    strings of their path lead to their actions, and these do not lead back;
    all strings found are those of the patterns of [D]. *)
Record Sem (E : edges) (act : Z -> Z -> Prop) (fw : Z -> list Term -> Prop) (sfx : Z -> list Term -> list Z -> Prop) (D : list Term -> Z -> Prop) : Prop := {
  sem_reach : forall i p, fw i p -> forall w, path E 0 w i <-> cats matches p w;
  sem_after : forall n p acts, sfx n p acts -> forall w a, (exists k, path E n w k /\ act k a) <-> cats matches p w /\ a ∈ acts;
  sem_apart : forall n p acts i q w, sfx n p acts -> fw i q -> ~ path E n w i;
  sem_found : forall w a, (exists k, path E 0 w k /\ act k a) <-> exists p, D p a /\ cats matches p w }.

Lemma Sem_change E act fw sfx D E' act' fw' sfx' D' :
  (forall i l j, E' i l j <-> E i l j) -> (forall i a, act' i a <-> act i a) -> (forall i p, fw' i p -> fw i p) -> (forall n p acts, sfx' n p acts -> sfx n p acts) ->
  (forall p a, D' p a <-> D p a) -> Sem E act fw sfx D -> Sem E' act' fw' sfx' D'.
Proof.
  intros HE HA Hf Hs HD [S1 S2 S3 S4]. assert (forall i w k, path E' i w k <-> path E i w k) as HP by (intros i w k; split; apply path_sub; intros ? ? ?; apply HE). split.
  - intros i p Hi w. rewrite HP. by apply S1, Hf.
  - intros n p acts Hn w a. setoid_rewrite HP. setoid_rewrite HA. by apply S2, Hs.
  - intros n p acts i q w Hn Hi. rewrite HP. eapply S3; [by apply Hs|by apply Hf].
  - intros w a. setoid_rewrite HP. setoid_rewrite HA. setoid_rewrite HD. apply S4.
Qed.

Lemma cats_cons_iff (t : Term) p w : cats matches (t :: p) w <-> exists u v, w = u ++ v /\ matches t u /\ cats matches p v.
Proof. done. Qed.

Section Grow.

Context (E R E' : edges) (act : Z -> Z -> Prop) (fw : Z -> list Term -> Prop) (sfx : Z -> list Term -> list Z -> Prop) (D : list Term -> Z -> Prop).
Context (s d : Z) (F A : Z -> Prop) (t : Term) (p : list Term) (q : list Term) (acts : list Z).
Hypothesis HS : Sem E act fw sfx D.
Hypothesis HF : frag s d F A R (matches t).
Hypothesis HE : forall i l j, E' i l j <-> both E R i l j.
Hypothesis Hne : s <> d.
Hypothesis Hfresh : forall i l j, E i l j -> ~ F i /\ ~ F j.
Hypothesis Hends : ~ F 0 /\ ~ F s /\ ~ F d.
Hypothesis Hact : forall i a, act i a -> ~ F i.
Hypothesis Hfw : forall i q, fw i q -> ~ F i.
Hypothesis Hsfx : forall i q acts, sfx i q acts -> ~ F i.

(** The nodes named so far are not in the fragment. *)
Ltac side := first [done|tauto|by eapply Hfw|by eapply Hsfx].

Lemma grow_path : (forall w, ~ path E d w s) -> forall i w k, ~ F i -> ~ F k ->
  path E' i w k <-> path E i w k \/ exists u v x, w = u ++ v ++ x /\ path E i u s /\ matches t v /\ path E d x k.
Proof using HF HE Hne Hfresh Hends.
  intros Hback i w k Hi Hk. rewrite <- (path_extend E R s d F A (matches t) HF Hne ltac:(tauto) Hfresh Hback i w k Hi Hk). split; apply path_sub; intros ? ? ?; apply HE.
Qed.

(** An action is found at a node of the old graph. *)
Lemma grow_found : (forall w, ~ path E d w s) -> forall i w a, ~ F i ->
  (exists k, path E' i w k /\ act k a) <-> (exists k, path E i w k /\ act k a) \/ exists u v x, w = u ++ v ++ x /\ path E i u s /\ matches t v /\ exists k, path E d x k /\ act k a.
Proof using HF HE Hne Hfresh Hends Hact.
  intros Hback i w a Hi. split.
  - intros (k & Hp & Ha). apply grow_path in Hp as [?|(u & v & x & -> & ? & ? & ?)]; [eauto|right; eauto 10|done|done|by apply Hact in Ha].
  - intros [(k & Hp & Ha)|(u & v & x & -> & Hu & Hv & k & Hp & Ha)]; exists k; (split; [apply grow_path; try done; [by apply Hact in Ha|]|done]); [by left|right; eauto 10].
Qed.

(** A forward node is connected to a node of the suffixes. *)
Lemma Sem_connect : fw s p -> sfx d q acts -> Sem E' act fw sfx (fun p' a => D p' a \/ p' = p ++ t :: q /\ a ∈ acts).
Proof using HS HF HE Hne Hfresh Hends Hact Hfw Hsfx.
  intros Hs Hd. pose proof HS as [S1 S2 S3 S4]. assert (forall w, ~ path E d w s) as Hback by (intros w; by eapply S3). split.
  - intros i p' Hi w. rewrite grow_path, (S1 i p' Hi) by side. split; [|by left]. intros [?|(u & v & x & _ & _ & _ & Hx)]; [done|]. by apply (S3 _ _ _ _ _ _ Hd Hi) in Hx.
  - intros n p' acts' Hn w a. rewrite grow_found, (S2 n p' acts' Hn) by side. split; [|by left]. intros [?|(u & v & x & _ & Hu & _)]; [done|]. by apply (S3 _ _ _ _ _ _ Hn Hs) in Hu.
  - intros n p' acts' i q' w Hn Hi. rewrite grow_path by side. intros [?|(u & v & x & _ & Hu & _)]; [by eapply S3|]. by apply (S3 _ _ _ _ _ _ Hn Hs) in Hu.
  - intros w a. rewrite grow_found, S4 by side. split.
    + intros [(p' & ? & ?)|(u & v & x & -> & Hu & Hv & Hx)]; [eauto|]. apply (S2 _ _ _ Hd) in Hx as [Hx Ha]. apply (S1 _ _ Hs) in Hu. exists (p ++ t :: q). split; [by right|].
      rewrite cats_app. exists u, (v ++ x). split_and!; [done|done|]. by exists v, x.
    + intros (p' & [?|[-> Ha]] & Hp); [left; eauto|]. right. apply cats_app in Hp as (u & y & -> & Hu & (v & x & -> & Hv & Hx)). exists u, v, x. split_and!; [done|by apply (S1 _ _ Hs)|done|]. by apply (S2 _ _ _ Hd).
Qed.

(** A new node for a suffix. *)
Lemma Sem_suffix : isolated E s -> s <> 0 -> (forall i q, fw i q -> i <> s) -> (forall n q acts, sfx n q acts -> n <> s) -> sfx d q acts -> (forall a, ~ act s a) ->
  Sem E' act fw (fun n p' acts' => sfx n p' acts' \/ n = s /\ p' = t :: q /\ acts' = acts) D.
Proof using HS HF HE Hne Hfresh Hends Hact Hfw Hsfx.
  intros His H0 Hfs Hss Hd Has. pose proof HS as [S1 S2 S3 S4]. assert (forall w i, path E i w s -> i = s) as Hto by (intros w i Hp; by apply (isolated_to _ _ _ _ His) in Hp as [_ ?]).
  assert (forall w, ~ path E d w s) as Hback by (intros w Hp%Hto; congruence).
  assert (forall i w a, ~ F i -> i <> s -> (exists k, path E' i w k /\ act k a) <-> exists k, path E i w k /\ act k a) as Hold.
  { intros i w a Hi Hin. rewrite grow_found by done. split; [|by left]. intros [?|(u & v & x & _ & Hu%Hto & _)]; done. }
  assert (forall i w, fw i w -> forall n u, ~ F n -> path E' n u i <-> path E n u i \/ n = s /\ exists v x, u = v ++ x /\ matches t v /\ path E d x i) as Hpi.
  { intros i w Hi n u Hn. rewrite grow_path by side. split; (intros [?|H]; [by left|right]).
    - destruct H as (x & v & y & -> & Hu & Hv & Hy). pose proof (isolated_to _ _ _ _ His Hu) as [-> ->]. split; [done|]. by exists v, y.
    - destruct H as [-> (v & x & -> & Hv & Hx)]. exists [], v, x. split_and!; try done. constructor. }
  split.
  - intros i p' Hi w. rewrite (Hpi i p' Hi), (S1 i p' Hi) by tauto. split; [|by left]. by intros [?|[E0 _]].
  - intros n p' acts' [Hn|(-> & -> & ->)] w a.
    + rewrite Hold, (S2 _ _ _ Hn) by first [side|by eapply Hss]. done.
    + rewrite grow_found, cats_cons_iff by side. split.
      * intros [(k & Hk & Ha)|(u & v & x & -> & Hu & Hv & Hx)]; [apply (isolated_from _ _ _ _ His) in Hk as [_ <-]; by apply Has in Ha|]. apply (isolated_to _ _ _ _ His) in Hu as [-> _].
        apply (S2 _ _ _ Hd) in Hx as [Hx Ha]. split; [|done]. by exists v, x.
      * intros [(v & x & -> & Hv & Hx) Ha]. right. exists [], v, x. split_and!; [done|constructor|done|]. by apply (S2 _ _ _ Hd).
  - intros n p' acts' i q' w Hn Hi. assert (~ F n) as HnF by (destruct Hn as [Hn|(-> & _)]; [by eapply Hsfx|tauto]). rewrite (Hpi _ _ Hi) by done. intros [Hp|(-> & v & x & _ & _ & Hx)].
    + destruct Hn as [Hn|(-> & _)]; [by eapply S3|]. apply (isolated_from _ _ _ _ His) in Hp as [_ <-]. by apply (Hfs _ _ Hi).
    + by apply (S3 _ _ _ _ _ _ Hd Hi) in Hx.
  - intros w a. rewrite Hold by side. apply S4.
Qed.

(** A new forward node, with the actions of its vertex. *)
Lemma Sem_infix act' : isolated E d -> d <> 0 -> (forall i q, fw i q -> i <> d) -> (forall n q acts, sfx n q acts -> n <> d) -> fw s p -> (forall a, ~ act d a) -> (forall i a, act' i a <-> act i a \/ i = d /\ a ∈ acts) ->
  Sem E' act' (fun i p' => fw i p' \/ i = d /\ p' = p ++ [t]) sfx (fun p' a => D p' a \/ p' = p ++ [t] /\ a ∈ acts).
Proof using HS HF HE Hne Hfresh Hends Hact Hfw Hsfx.
  intros His H0 Hfd' Hsd Hs Had HA. pose proof HS as [S1 S2 S3 S4]. assert (forall w k, path E d w k -> w = [] /\ k = d) as Hfrom by (intros w k Hp; apply (isolated_from _ _ _ _ His) in Hp; naive_solver).
  assert (forall w, ~ path E d w s) as Hback by (intros w [_ E0]%Hfrom; done).
  assert (forall i w k, ~ F i -> ~ F k -> k <> d -> path E' i w k <-> path E i w k) as Hold.
  { intros i w k Hi Hk Hkd. rewrite grow_path by done. split; [|by left]. intros [?|(u & v & x & _ & _ & _ & [_ ?]%Hfrom)]; done. }
  assert (forall i w, ~ F i -> i <> d -> path E' i w d <-> exists u v, w = u ++ v /\ path E i u s /\ matches t v) as Hnew.
  { intros i w Hi Hid. rewrite grow_path by side. split.
    - intros [Hp|(u & v & x & -> & Hu & Hv & [-> _]%Hfrom)]; [by apply (isolated_to _ _ _ _ His) in Hp as [_ ?]|]. exists u, v. by rewrite app_nil_r.
    - intros (u & v & -> & Hu & Hv). right. exists u, v, []. rewrite app_nil_r. split_and!; try done. constructor. }
  assert (forall w, path E' 0 w d <-> cats matches (p ++ [t]) w) as Hreach.
  { intros w. rewrite Hnew, cats_app by side. split; intros (u & v & -> & Hu & Hv); exists u, v; (split_and!; [done|by apply (S1 _ _ Hs)|by apply (cats_one matches)]). }
  assert (forall i w a, ~ F i -> i <> d -> (exists k, path E' i w k /\ act k a) <-> exists k, path E i w k /\ act k a) as Hfd.
  { intros i w a Hi Hid. split; intros (k & Hp & Ha); exists k; (split; [|done]); (apply Hold in Hp || apply Hold); try done; try (by apply Hact in Ha); intros ->; by apply Had in Ha. }
  assert (forall i w a, (exists k, path E' i w k /\ act' k a) <-> (exists k, path E' i w k /\ act k a) \/ path E' i w d /\ a ∈ acts) as Hfa.
  { intros i w a. setoid_rewrite HA. naive_solver. }
  split.
  - intros i p' [Hi|[-> ->]] w; [|apply Hreach]. rewrite Hold by first [side|by eapply Hfd']. by apply S1.
  - intros n p' acts' Hn w a. rewrite Hfa, Hfd, (S2 _ _ _ Hn) by first [side|by eapply Hsd]. split; [|by left]. intros [?|[Hp _]]; [done|].
    apply Hnew in Hp as (u & v & _ & Hu & _); [|by eapply Hsfx|by eapply Hsd]. by apply (S3 _ _ _ _ _ _ Hn Hs) in Hu.
  - intros n p' acts' i q' w Hn [Hi|[-> ->]] Hp.
    + apply Hold in Hp; [by apply (S3 _ _ _ _ _ _ Hn Hi) in Hp|by eapply Hsfx|by eapply Hfw|by eapply Hfd'].
    + apply Hnew in Hp as (u & v & _ & Hu & _); [|by eapply Hsfx|by eapply Hsd]. by apply (S3 _ _ _ _ _ _ Hn Hs) in Hu.
  - intros w a. rewrite Hfa, Hfd, S4, Hreach by side. split; [intros [(p' & ? & ?)|[? ?]]; [eauto|exists (p ++ [t]); eauto]|]. intros (p' & [?|[-> ?]] & ?); [left; eauto|by right].
Qed.

End Grow.

(** A new node for the actions of a leaf. *)
Lemma Sem_root E act act' fw sfx D n acts : Sem E act fw sfx D -> isolated E n -> n <> 0 -> (forall i q, fw i q -> i <> n) -> (forall i q acts, sfx i q acts -> i <> n) -> (forall a, ~ act n a) ->
  (forall i a, act' i a <-> act i a \/ i = n /\ a ∈ acts) -> Sem E act' fw (fun i q acts' => sfx i q acts' \/ i = n /\ q = [] /\ acts' = acts) D.
Proof.
  intros [S1 S2 S3 S4] His H0 Hf Hs Hn HA. assert (forall i w a, i <> n -> (exists k, path E i w k /\ act' k a) <-> exists k, path E i w k /\ act k a) as Hold.
  { intros i w a Hi. setoid_rewrite HA. split; [|naive_solver]. intros (k & Hp & [?|[-> _]]); [eauto|]. by apply (isolated_to _ _ _ _ His) in Hp as [_ ?]. }
  split.
  - exact S1.
  - intros i q acts' [Hi|(-> & -> & ->)] w a; [rewrite Hold by (by eapply Hs); by apply S2|]. split.
    + intros (k & Hp & Ha). apply (isolated_from _ _ _ _ His) in Hp as [-> <-]. apply HA in Ha as [Ha|[_ Ha]]; [by apply Hn in Ha|done].
    + intros [-> Ha]. exists n. split; [constructor|]. apply HA. by right.
  - intros i q acts' j p w [Hi|(-> & _)] Hj Hp; [by eapply S3|]. apply (isolated_from _ _ _ _ His) in Hp as [_ <-]. by apply (Hf _ _ Hj).
  - intros w a. rewrite Hold by done. apply S4.
Qed.

(** ** Operations on an automaton whose nodes have their languages *)

Section World.

Context (targetOrder actionOrder : gset Z -> list Z).
Hypothesis targets_listed : forall s, targetOrder s ≡ₚ elements s.
Hypothesis actions_listed : forall s, actionOrder s ≡ₚ elements s.
Context (A : Z -> Prop).

Record World (nfa : NFA.NFA) (live : list Builder) (fw : Z -> list Term -> Prop) (sfx : Z -> list Term -> list Z -> Prop) (D : list Term -> Z -> Prop) : Prop := {
  w_graph : Graph nfa live;
  w_root : valid nfa 0;
  w_fw : forall i p, fw i p -> valid nfa i;
  w_sfx : forall i p acts, sfx i p acts -> valid nfa i;
  w_label : forall i c j, gedge nfa live i (Some c) j -> A c;
  w_sem : Sem (gedge nfa live) (gact nfa live) fw sfx D }.

Lemma World_change nfa live fw sfx D nfa' live' fw' sfx' D' :
  extends nfa nfa' -> Graph nfa' live' -> sameGraph nfa live nfa' live' -> (forall i p, fw' i p -> fw i p) -> (forall n p acts, sfx' n p acts -> sfx n p acts) ->
  (forall p a, D' p a <-> D p a) -> World nfa live fw sfx D -> World nfa' live' fw' sfx' D'.
Proof.
  intros He HG [HE HA] Hf Hs HD [W1 W2 W3 W4 W5 W6]. split; [done|by eapply valid_extends|intros i p Hi; eapply valid_extends; [done|]; by eapply W3, Hf|
    intros i p acts Hi; eapply valid_extends; [done|]; by eapply W4, Hs|intros i c j Hij; by apply (W5 i c j), HE|]. by eapply Sem_change; [..|exact W6].
Qed.

Lemma World_weaken nfa live fw sfx D fw' sfx' D' : (forall i p, fw' i p -> fw i p) -> (forall n p acts, sfx' n p acts -> sfx n p acts) -> (forall p a, D' p a <-> D p a) ->
  World nfa live fw sfx D -> World nfa live fw' sfx' D'.
Proof. intros Hf Hs HD HW. eapply World_change; [reflexivity|apply HW|by split|exact Hf|exact Hs|exact HD|exact HW]. Qed.

Lemma World_perm nfa live live' fw sfx D : live ≡ₚ live' -> World nfa live fw sfx D -> World nfa live' fw sfx D.
Proof. intros Hp HW. eapply World_change; [reflexivity|by eapply Graph_perm, w_graph|by apply sameGraph_perm|done..]. Qed.

Lemma World_isolated nfa live fw sfx D : World nfa live fw sfx D -> isolated (gedge nfa live) (count nfa).
Proof. intros HW i l. split; intros He; apply (gedge_valid _ _ _ _ _ (w_graph _ _ _ _ _ HW)) in He; rewrite !valid_count in He; lia. Qed.

Lemma World_quiet nfa live fw sfx D a : World nfa live fw sfx D -> ~ gact nfa live (count nfa) a.
Proof. intros HW Ha. apply (gact_valid _ _ _ _ (w_graph _ _ _ _ _ HW)) in Ha. rewrite valid_count in Ha. lia. Qed.

(** Setting the actions of a live node. *)
Lemma setActions_graph nfa live b acts : Graph nfa (b :: live) -> Graph nfa (setActions acts b :: live)
  /\ (forall i l j, gedge nfa (setActions acts b :: live) i l j <-> gedge nfa (b :: live) i l j)
  /\ forall i a, gact nfa (setActions acts b :: live) i a <-> gact nfa (b :: live) i a \/ i = m_nodeId b /\ a ∈ acts.
Proof.
  assert (forall l j, bedge (setActions acts b) l j <-> bedge b l j) as HE by (by intros [c|] j). intros [H1 H2 H3 H4 H5 H6]. split_and!.
  - apply Forall_cons in H3 as [H3 H3']. apply Forall_cons in H4 as [H4 H4']. split; [done|done|by constructor|constructor; [intros l j Hj; by apply (H4 l), HE|done]| |].
    + intros b' l j [->|Hb']%elem_of_cons; [exact (H5 b l j ltac:(left))|apply H5; by right].
    + intros b' a [->|Hb']%elem_of_cons; [exact (H6 b a ltac:(left))|apply H6; by right].
  - intros i l j. unfold gedge. setoid_rewrite elem_of_cons. split; (intros [?|(b' & [->|Hb'] & Ei & Hj)]; [by left|right|right; eauto]).
    + exists b. by apply HE in Hj; eauto.
    + exists (setActions acts b). by apply HE in Hj; eauto.
  - intros i a. unfold gact. setoid_rewrite elem_of_cons. split.
    + intros [?|(b' & [->|Hb'] & Ei & Ha)]; [by left; left| |left; right; eauto]. cbn [setActions m_actions m_nodeId] in *. apply elem_of_union in Ha as [Ha|Ha%elem_of_list_to_set]; [left; right; eauto|by right].
    + intros [[?|(b' & [->|Hb'] & Ei & Ha)]|[-> Ha]]; [by left|right..]; [exists (setActions acts b)|eauto|exists (setActions acts b)]; (split; [by left|]); cbn [setActions m_actions m_nodeId]; set_solver.
Qed.

Lemma finalize_world nfa b : safe nfa b -> exists nfa', finalize targetOrder actionOrder b nfa = Some nfa' /\ extends nfa nfa' /\ count nfa' = count nfa
  /\ (small nfa' -> forall live fw sfx D, World nfa (b :: live) fw sfx D -> World nfa' live fw sfx D).
Proof using targets_listed actions_listed.
  intros Hb. destruct (finalize_graph targetOrder actionOrder targets_listed actions_listed nfa b Hb) as (nfa' & E & He & Hc & H). exists nfa'. split_and!; try done.
  intros Hs live fw sfx D HW. destruct (H Hs live (w_graph _ _ _ _ _ HW)) as [HG HS]. by eapply World_change; [..|exact HW].
Qed.

(** The side conditions of the lemmas on growing graphs. *)
Lemma World_sides nfa live fw sfx D nfa' : World nfa live fw sfx D ->
  (forall i l j, gedge nfa live i l j -> ~ fresh nfa nfa' i /\ ~ fresh nfa nfa' j) /\ ~ fresh nfa nfa' 0 /\ (forall i a, gact nfa live i a -> ~ fresh nfa nfa' i)
  /\ (forall i q, fw i q -> ~ fresh nfa nfa' i) /\ (forall i q acts, sfx i q acts -> ~ fresh nfa nfa' i).
Proof.
  intros [W1 W2 W3 W4 _ _]. assert (forall i, valid nfa i -> ~ fresh nfa nfa' i) as Hv by (intros i Hi; rewrite valid_count in Hi; unfold fresh; lia). split_and!.
  - intros i l j He. apply (gedge_valid _ _ _ _ _ W1) in He as [Hi Hj]. by split; apply Hv.
  - by apply Hv.
  - intros i a Ha. by eapply Hv, gact_valid.
  - intros i q Hi. by eapply Hv, W3.
  - intros i q acts Hi. by eapply Hv, W4.
Qed.

Lemma grown_label nfa live live' nfa' E R s d F L : (forall i c j, gedge nfa live i (Some c) j -> A c) -> frag s d F A R L -> (forall i l j, gedge nfa' live' i l j <-> both E R i l j) ->
  (forall i l j, E i l j -> gedge nfa live i l j) -> forall i c j, gedge nfa' live' i (Some c) j -> A c.
Proof. intros Hl HF HE Hsub i c j Hij. apply HE in Hij as [Hij|Hij]; [by eapply Hl, Hsub|by eapply (frag_label HF)]. Qed.

(** A live forward node is connected to a node of the suffixes. *)
Lemma connect_world t nfa b d : okLabels A t -> safe nfa b ->
  exists nfa' b', generateGraph targetOrder actionOrder t nfa b d = Some (nfa', b') /\ extends nfa nfa' /\ safe nfa' b' /\ m_nodeId b' = m_nodeId b
    /\ (small nfa' -> forall live fw sfx D p q acts, World nfa (b :: live) fw sfx D -> fw (m_nodeId b) p -> sfx d q acts -> 
        World nfa' (b' :: live) fw sfx (fun p' a => D p' a \/ p' = p ++ t :: q /\ a ∈ acts)).
Proof using targets_listed actions_listed.
  intros Ht Hb. destruct (generateGraph_graph targetOrder actionOrder targets_listed actions_listed A t nfa b d Ht Hb) as (nfa' & b' & E & He & Hs' & Hid & _ & H). exists nfa', b'. split_and!; try done.
  intros Hs live fw sfx D p q acts HW Hfb Hd. pose proof HW as [W1 W2 W3 W4 W5 W6]. assert (m_nodeId b <> d) as Hne by (intros <-; apply (sem_apart _ _ _ _ _ W6 _ _ _ _ _ [] Hd Hfb); constructor).
  destruct (H Hs live W1 (W4 _ _ _ Hd) Hne) as (HG & (R & HF & HE) & HA). destruct (World_sides _ _ _ _ _ nfa' HW) as (P1 & P2 & P3 & P4 & P5). split.
  - done.
  - by eapply valid_extends.
  - intros i p' Hi. eapply valid_extends; [done|by eapply W3].
  - intros i p' acts' Hi. eapply valid_extends; [done|by eapply W4].
  - by eapply grown_label; [exact W5|exact HF|exact HE|].
  - eapply (Sem_change _ (gact nfa (b :: live)) fw sfx (fun p' a => D p' a \/ p' = p ++ t :: q /\ a ∈ acts)); [reflexivity|exact HA|done|done|done|].
    eapply Sem_connect; [exact W6|exact HF|exact HE|done|exact P1| |exact P3|exact P4|exact P5|exact Hfb|exact Hd]. split_and!; eauto.
Qed.

(** A new forward node, which is live. *)
Lemma toEnd_world t nfa b acts : okLabels A t -> safe nfa b ->
  exists nfa' b' e, generateGraphToEnd targetOrder actionOrder t nfa b acts = Some (nfa', b', e) /\ extends nfa nfa' /\ safe nfa' b' /\ safe nfa' e /\ m_nodeId b' = m_nodeId b
    /\ (small nfa' -> forall live fw sfx D p, World nfa (b :: live) fw sfx D -> fw (m_nodeId b) p ->
        World nfa' (e :: b' :: live) (fun i p' => fw i p' \/ i = m_nodeId e /\ p' = p ++ [t]) sfx (fun p' a => D p' a \/ p' = p ++ [t] /\ a ∈ acts)).
Proof using targets_listed actions_listed.
  intros Ht Hb. unfold generateGraphToEnd, generateToNewEnd. pose proof (fun live => newBuilder_graph nfa live) as HN. destruct (newBuilder nfa) as [nfa1 e].
  destruct (HN []) as (N1 & N2 & N3 & N4 & _).
  destruct (generateGraph_graph targetOrder actionOrder targets_listed actions_listed A t nfa1 b (m_nodeId e) Ht (safe_extends _ _ _ N1 Hb)) as (nfa2 & b' & -> & G1 & G2 & G3 & _ & G4). cbn [mbind option_bind].
  exists nfa2, b', (setActions acts e). split; [done|]. split; [by etrans|]. split; [done|]. split; [destruct N2 as [N2 N2']; split; [done|by eapply valid_extends]|]. split; [done|].
  intros S2 live fw sfx D p HW Hp. pose proof (small_extends _ _ G1 S2) as S1. destruct (HN (b :: live)) as (_ & _ & _ & _ & N5). destruct (N5 S1 (w_graph _ _ _ _ _ HW)) as (HG1 & Ie & [SE SA]).
  pose proof (w_fw _ _ _ _ _ HW _ _ Hp) as Hvb. rewrite valid_count in Hvb. assert (Graph nfa1 (b :: e :: live)) as HG1' by (eapply Graph_perm; [|exact HG1]; constructor).
  destruct (G4 S2 (e :: live) HG1' (proj2 N2) ltac:(lia)) as (HG2 & (R & HF & HE) & HA). assert (World nfa1 (b :: e :: live) fw sfx D) as HW1.
  { eapply World_perm; [apply perm_swap|]. eapply World_change; [exact N1|exact HG1|split; [exact SE|exact SA]|done|done|reflexivity|exact HW]. }
  destruct (World_sides _ _ _ _ _ nfa2 HW1) as (P1 & P2 & P3 & P4 & P5). pose proof HW1 as [W1 W2 W3 W4 W5 W6].
  assert (Graph nfa2 (e :: b' :: live)) as HG2' by (eapply Graph_perm; [|exact HG2]; constructor). destruct (setActions_graph _ _ _ acts HG2') as (HG3 & SE3 & SA3).
  assert (forall i l j, gedge nfa2 (setActions acts e :: b' :: live) i l j <-> both (gedge nfa1 (b :: e :: live)) R i l j) as HE3.
  { intros i l j. rewrite SE3, <- HE. apply (sameGraph_perm nfa2 (b' :: e :: live) (e :: b' :: live) (perm_swap _ _ _)). }
  assert (forall i a, gact nfa2 (setActions acts e :: b' :: live) i a <-> gact nfa1 (b :: e :: live) i a \/ i = m_nodeId e /\ a ∈ acts) as HA3.
  { intros i a. rewrite SA3, <- HA. apply or_iff_compat_r. apply (sameGraph_perm nfa2 (b' :: e :: live) (e :: b' :: live) (perm_swap _ _ _)). }
  assert (forall i l j, gedge nfa1 (b :: e :: live) i l j <-> gedge nfa (b :: live) i l j) as HE1.
  { intros i l j. rewrite <- SE. apply (sameGraph_perm nfa1 (e :: b :: live) (b :: e :: live) (perm_swap _ _ _)). }
  assert (forall i a, gact nfa1 (b :: e :: live) i a <-> gact nfa (b :: live) i a) as HA1.
  { intros i a. rewrite <- SA. apply (sameGraph_perm nfa1 (e :: b :: live) (b :: e :: live) (perm_swap _ _ _)). }
  assert (isolated (gedge nfa1 (b :: e :: live)) (m_nodeId e)) as Hiso by (intros i l; rewrite !HE1, Ie; by eapply World_isolated).
  assert (forall i, valid nfa i -> i <> m_nodeId e) as Hold by (intros i Hi; rewrite valid_count in Hi; lia). pose proof (w_root _ _ _ _ _ HW) as H0.
  split.
  - done.
  - by eapply valid_extends.
  - intros i p' [Hi|[-> _]]; [|cbn; eapply valid_extends; [done|by apply N2]]. eapply valid_extends; [done|by eapply W3].
  - intros i p' acts' Hi. eapply valid_extends; [done|by eapply W4].
  - by eapply grown_label; [exact W5|exact HF|exact HE3|].
  - change (m_nodeId (setActions acts e)) with (m_nodeId e). eapply Sem_infix; [exact W6|exact HF|exact HE3|lia|exact P1| |exact P3|exact P4|exact P5|exact Hiso| | | |exact Hp| |exact HA3].
    + split_and!; [done|by eapply P4|]. intros Hfr. unfold fresh in Hfr. destruct N2 as [_ N2]. rewrite valid_count in N2. lia.
    + apply not_eq_sym, Hold. done.
    + intros i q Hi. by apply Hold, (w_fw _ _ _ _ _ HW i q).
    + intros i q acts' Hi. by apply Hold, (w_sfx _ _ _ _ _ HW i q acts').
    + intros a. rewrite HA1, Ie. by eapply World_quiet.
Qed.

(** A new node of the suffixes, which is finalized. *)
Lemma suffix_world t nfa d : okLabels A t -> exists nfa' n, (let '(nfa, newNode) := newBuilder nfa in
    '(nfa, newNode) ← generateGraph targetOrder actionOrder t nfa newNode d; nfa ← finalize targetOrder actionOrder newNode nfa; Some (nfa, m_nodeId newNode)) = Some (nfa', n) /\ extends nfa nfa'
  /\ (small nfa' -> forall live fw sfx D q acts, World nfa live fw sfx D -> sfx d q acts ->
      World nfa' live fw (fun i q' acts' => sfx i q' acts' \/ i = n /\ q' = t :: q /\ acts' = acts) D).
Proof using targets_listed actions_listed.
  intros Ht. pose proof (fun live => newBuilder_graph nfa live) as HN. destruct (newBuilder nfa) as [nfa1 e]. destruct (HN []) as (N1 & N2 & N3 & N4 & _).
  destruct (generateGraph_graph targetOrder actionOrder targets_listed actions_listed A t nfa1 e d Ht N2) as (nfa2 & e' & -> & G1 & G2 & G3 & _ & G4). cbn [mbind option_bind].
  destruct (finalize_world nfa2 e' G2) as (nfa3 & -> & F1 & _ & F3). cbn [mbind option_bind]. exists nfa3, (m_nodeId e'). split; [done|]. split; [by do 2 (etrans; [eassumption|])|].
  intros S3 live fw sfx D q acts HW Hd. pose proof (small_extends _ _ F1 S3) as S2. pose proof (small_extends _ _ G1 S2) as S1. destruct (HN live) as (_ & _ & _ & _ & N5).
  destruct (N5 S1 (w_graph _ _ _ _ _ HW)) as (HG1 & Ie & [SE SA]). pose proof (w_sfx _ _ _ _ _ HW _ _ _ Hd) as Hvd. pose proof (w_root _ _ _ _ _ HW) as H0.
  assert (forall i, valid nfa i -> i <> m_nodeId e) as Hold by (intros i Hi; rewrite valid_count in Hi; lia).
  assert (World nfa1 (e :: live) fw sfx D) as HW1 by (eapply World_change; [exact N1|exact HG1|split; [exact SE|exact SA]|done|done|reflexivity|exact HW]).
  destruct (G4 S2 live HG1 (valid_extends _ _ _ N1 Hvd)) as (HG2 & (R & HF & HE) & HA); [by apply not_eq_sym, Hold|].
  destruct (World_sides _ _ _ _ _ nfa2 HW1) as (P1 & P2 & P3 & P4 & P5). pose proof HW1 as [W1 W2 W3 W4 W5 W6]. apply (F3 S3). rewrite G3. split.
  - done.
  - by eapply valid_extends.
  - intros i p' Hi. eapply valid_extends; [done|by eapply W3].
  - intros i p' acts' [Hi|[-> _]]; (eapply valid_extends; [done|]); [by eapply W4|apply N2].
  - by eapply grown_label; [exact W5|exact HF|exact HE|].
  - eapply (Sem_change _ (gact nfa1 (e :: live)) fw (fun i q' acts' => sfx i q' acts' \/ i = m_nodeId e /\ q' = t :: q /\ acts' = acts) D); [reflexivity|exact HA|done|done|done|].
    eapply Sem_suffix; [exact W6|exact HF|exact HE|by apply not_eq_sym, Hold|exact P1| |exact P3|exact P4|exact P5| | | | |exact Hd|].
    + split_and!; [done| |by eapply P5]. intros Hfr. unfold fresh in Hfr. destruct N2 as [_ N2]. rewrite valid_count in N2. lia.
    + intros i l. rewrite !SE, Ie. by eapply World_isolated.
    + by apply not_eq_sym, Hold.
    + intros i q' Hi. by apply Hold, (w_fw _ _ _ _ _ HW i q').
    + intros i q' acts' Hi. by apply Hold, (w_sfx _ _ _ _ _ HW i q' acts').
    + intros a. rewrite SA, Ie. by eapply World_quiet.
Qed.

(** The node of the actions of a leaf. *)
Lemma leaf_world nfa acts : exists nfa' n, (let '(nfa, newNode) := newBuilder nfa in
    nfa ← finalize targetOrder actionOrder (setActions acts newNode) nfa; Some (nfa, m_nodeId (setActions acts newNode))) = Some (nfa', n) /\ extends nfa nfa'
  /\ (small nfa' -> forall live fw sfx D, World nfa live fw sfx D ->
      World nfa' live fw (fun i q' acts' => sfx i q' acts' \/ i = n /\ q' = [] /\ acts' = acts) D).
Proof using targets_listed actions_listed.
  pose proof (fun live => newBuilder_graph nfa live) as HN. destruct (newBuilder nfa) as [nfa1 e]. destruct (HN []) as (N1 & N2 & N3 & N4 & _).
  destruct (finalize_world nfa1 (setActions acts e)) as (nfa2 & -> & F1 & _ & F3); [exact N2|]. cbn [mbind option_bind]. exists nfa2, (m_nodeId e). split; [done|]. split; [by etrans|].
  intros S2 live fw sfx D HW. pose proof (small_extends _ _ F1 S2) as S1. destruct (HN live) as (_ & _ & _ & _ & N5). pose proof (w_root _ _ _ _ _ HW) as H0.
  destruct (N5 S1 (w_graph _ _ _ _ _ HW)) as (HG1 & Ie & [SE SA]). assert (forall i, valid nfa i -> i <> m_nodeId e) as Hold by (intros i Hi; rewrite valid_count in Hi; lia).
  destruct (setActions_graph _ _ _ acts HG1) as (HG3 & SE3 & SA3). pose proof HW as [W1 W2 W3 W4 W5 W6]. apply (F3 S2). split.
  - done.
  - by eapply valid_extends.
  - intros i p' Hi. eapply valid_extends; [done|by eapply W3].
  - intros i p' acts' [Hi|[-> _]]; [eapply valid_extends; [done|by eapply W4]|apply N2].
  - intros i c j Hij. apply (W5 i c j), SE, SE3. done.
  - eapply (Sem_root _ (gact nfa (live))).
    + eapply Sem_change; [|reflexivity|done|done|reflexivity|exact W6]. intros i l j. by rewrite SE3, SE.
    + intros i l. rewrite !SE3, !SE, Ie. by eapply World_isolated.
    + by apply not_eq_sym, Hold.
    + intros i q' Hi. by apply Hold, (W3 i q').
    + intros i q' acts' Hi. by apply Hold, (W4 i q' acts').
    + intros a. rewrite Ie. by eapply World_quiet.
    + intros i a. by rewrite SA3, SA.
Qed.

(** Only the members of the actions of suffixes matter. *)
Lemma World_acts nfa live fw sfx sfx' D : (forall n p l, sfx' n p l -> exists l', sfx n p l' /\ forall a, a ∈ l <-> a ∈ l') -> World nfa live fw sfx D -> World nfa live fw sfx' D.
Proof.
  intros Hs [W1 W2 W3 W4 W5 [S1 S2 S3 S4]]. split; try done; [intros n p l Hn; apply Hs in Hn as (l' & Hn & _); by eapply W4|]. split; try done.
  - intros n p l Hn w a. apply Hs in Hn as (l' & Hn & E). rewrite E. by apply S2.
  - intros n p l i q w Hn. apply Hs in Hn as (l' & Hn & _). by eapply S3.
Qed.

End World.
