(* ===== verification/CombinedURLFiltersSubtree.v ===== *)
(** * CombinedURLFiltersSubtree: the automaton of a subtree

    The stack of [generateNFAForSubtree] holds a path of the tree; the patterns
    that are left are those of the vertices on the stack and of the edges that
    are not followed.  The operations of the loop are followed on these
    patterns, on the number of vertices and on the turns of the loop that are
    left.  The loop ends without a failed assertion; its automaton finds the
    patterns that it takes from the tree and the others stay in the tree, of
    which at least one leaf is gone. *)

From stdpp Require Import gmap sorting.
From S2P Require Import Prelude DFA MutableRangeList NFA NFAToDFAClosure ImmutableNFANodeBuilder Term TermLanguage NFAFragment TermGraph CombinedURLFilters CombinedURLFiltersTree CombinedURLFiltersProcess CombinedURLFiltersGraph.
Import ImmutableNFANodeBuilder Term CombinedURLFilters CombinedURLFiltersProcess.

#[local] Open Scope nat_scope.

(** ** Lists with one place singled out *)

Section Others.

Context {B : Type}.
Implicit Types (l : list B) (x : B).

(** The elements but that at the index. *)
Definition others (i : nat) l : list B := take i l ++ drop (S i) l.

Lemma elem_others i l x y : l !! i = Some x -> y ∈ l <-> y = x \/ y ∈ others i l.
Proof.
  intros H. unfold others. rewrite <- (take_drop_middle l i x H) at 1. rewrite !elem_of_app, elem_of_cons. tauto.
Qed.

Lemma alter_split f i l x : l !! i = Some x -> alter f i l = take i l ++ f x :: drop (S i) l.
Proof.
  revert i. induction l as [|y l IH]; intros [|i]; [done|done|intros [= ->]; reflexivity|]. intros H. specialize (IH i H).
  change (y :: alter f i l = y :: take i l ++ f x :: drop (S i) l). by rewrite IH.
Qed.

Lemma alter_alter f g i l : alter f i (alter g i l) = alter (fun x => f (g x)) i l.
Proof. revert i. induction l as [|y l IH]; intros [|i]; [done|done|done|]. change (y :: alter f i (alter g i l) = y :: alter (fun x => f (g x)) i l). by rewrite IH. Qed.

Lemma others_alter f i l : others i (alter f i l) = others i l.
Proof.
  unfold others. rewrite take_alter_ge, drop_alter_lt by lia. done.
Qed.

Lemma drop_alter_after f i l : drop (S i) (alter f i l) = drop (S i) l.
Proof. apply drop_alter_lt. lia. Qed.

End Others.

Notation Edges := (list (option Term * PrefixTreeVertex)).

(** The patterns of some edges of a vertex. *)
Definition edgesHave (es : Edges) (q : list Term) (a : Z) : Prop := exists t c q', (Some t, c) ∈ es /\ q = t :: q' /\ hasPattern c q' a.

Lemma edgesHave_cons t c es q a : edgesHave ((t, c) :: es) q a <-> (exists t' q', t = Some t' /\ q = t' :: q' /\ hasPattern c q' a) \/ edgesHave es q a.
Proof.
  unfold edgesHave. setoid_rewrite elem_of_cons. split.
  - intros (t' & c' & q' & [[= <- <-]|Hin] & -> & Hp); [left; eauto|right; eauto 10].
  - intros [(t' & q' & -> & -> & H)|(t' & c' & q' & Hin & -> & H)]; eauto 10.
Qed.

Lemma edgesHave_sub es es' q a : (forall x, x ∈ es -> x ∈ es') -> edgesHave es q a -> edgesHave es' q a.
Proof. intros H (t & c & q' & Hin & Hq). exists t, c, q'. eauto. Qed.

Lemma elem_removeMarked es t c : (t, c) ∈ removeMarked es <-> (Some t, c) ∈ es.
Proof.
  unfold removeMarked. rewrite list_elem_of_omap. split.
  - intros ([[t'|] c'] & Hin & E); [|done]. by injection E as -> ->.
  - intros Hin. by exists (Some t, c).
Qed.

Lemma removeMarked_patterns acts es q a : hasPattern (Vertex acts (removeMarked es)) q a <-> q = [] /\ a ∈ default [] acts \/ edgesHave es q a.
Proof.
  destruct q as [|t q].
  - rewrite hasPattern_nil. unfold edgesHave, actionsGet. cbn [vertexActions]. naive_solver.
  - rewrite hasPattern_cons. cbn [vertexEdges]. setoid_rewrite elem_removeMarked. unfold edgesHave. naive_solver.
Qed.

Lemma removeMarked_enter v : removeMarked (activeEdges (enter v)) = vertexEdges v.
Proof. destruct v as [acts es]. cbn [enter activeEdges vertexEdges]. induction es as [|[t c] es IH]; [done|]. cbn. by f_equal. Qed.

Lemma enter_patterns v q a : hasPattern v q a <-> q = [] /\ a ∈ default [] (activeActions (enter v)) \/ edgesHave (activeEdges (enter v)) q a.
Proof.
  rewrite <- removeMarked_patterns, removeMarked_enter. by destruct v.
Qed.

Lemma activeEdges_enter v t c : (t, c) ∈ activeEdges (enter v) <-> exists t', t = Some t' /\ (t', c) ∈ vertexEdges v.
Proof.
  cbn [enter activeEdges]. rewrite list_elem_of_fmap. split; [intros ([t' c'] & [= -> ->] & Hin); eauto|]. intros (t' & -> & Hin). by exists (t', c).
Qed.

(** ** Stacks *)

(** The terms up to the vertex of the edge that the top follows. *)
Fixpoint stackPath (base : list Term) (stack : list ActiveSubtree) : list Term :=
  match stack with [] => base | f :: below => stackPath base below ++ [default (Empty One) (activeTerm f)] end.

(** The vertices of the stack with their paths. *)
Fixpoint entries (base : list Term) (stack : list ActiveSubtree) : list (ActiveSubtree * list Term) :=
  match stack with [] => [] | f :: below => (f, stackPath base below) :: entries base below end.

(** The patterns left below the top, and with the top. *)
Fixpoint leftBelow (base : list Term) (stack : list ActiveSubtree) (p : list Term) (a : Z) : Prop :=
  match stack with
  | [] => False
  | f :: below =>
      (exists q, p = stackPath base below ++ q /\ (q = [] /\ a ∈ default [] (activeActions f) \/ edgesHave (others (edgeIndex f) (activeEdges f)) q a))
      \/ leftBelow base below p a
  end.

Definition leftIn (base : list Term) (stack : list ActiveSubtree) (p : list Term) (a : Z) : Prop :=
  match stack with
  | [] => False
  | f :: below => (exists q, p = stackPath base below ++ q /\ (q = [] /\ a ∈ default [] (activeActions f) \/ edgesHave (activeEdges f) q a)) \/ leftBelow base below p a
  end.

(** Frames that differ in their builders. *)
Definition sameFrame (f f' : ActiveSubtree) : Prop := activeActions f' = activeActions f /\ activeEdges f' = activeEdges f /\ edgeIndex f' = edgeIndex f.

Lemma sameFrame_term f f' : sameFrame f f' -> activeTerm f' = activeTerm f.
Proof. intros (_ & E1 & E2). unfold activeTerm. by rewrite E1, E2. Qed.

Lemma same_stackPath base s s' : Forall2 sameFrame s s' -> stackPath base s' = stackPath base s.
Proof. induction 1 as [|f f' s s' Hf _ IH]; [done|]. cbn. by rewrite IH, (sameFrame_term _ _ Hf). Qed.

Lemma same_leftBelow base s s' p a : Forall2 sameFrame s s' -> leftBelow base s' p a <-> leftBelow base s p a.
Proof. induction 1 as [|f f' s s' (E1 & E2 & E3) Hs IH]; [done|]. cbn. by rewrite IH, E1, E2, E3, (same_stackPath _ _ _ Hs). Qed.

Lemma same_entries base s s' f' p : Forall2 sameFrame s s' -> (f', p) ∈ entries base s' -> exists f, (f, p) ∈ entries base s /\ sameFrame f f'.
Proof.
  induction 1 as [|f g s s' Hf Hs IH]; [by intros []%not_elem_of_nil|]. cbn. rewrite (same_stackPath _ _ _ Hs). intros [[= -> ->]|Hin]%elem_of_cons; [exists f; split; [by left|done]|].
  destruct (IH Hin) as (h & Hh & Hs'). exists h. split; [by right|done].
Qed.

#[global] Instance sameFrame_refl : Reflexive sameFrame.
Proof. by intros f. Qed.

#[global] Instance sameFrame_trans : Transitive sameFrame.
Proof. intros f g h (A1 & A2 & A3) (B1 & B2 & B3). repeat split; congruence. Qed.

Lemma sameFrame_setNode b f : sameFrame f (setNode b f).
Proof. done. Qed.

Lemma entries_left base s f p a : (f, p) ∈ entries base s -> a ∈ default [] (activeActions f) -> leftBelow base s p a.
Proof.
  induction s as [|g s IH]; cbn; [by intros []%not_elem_of_nil|]. intros [[= -> ->]|Hin]%elem_of_cons Ha; [|right; by apply IH]. left. exists []. rewrite app_nil_r. auto.
Qed.

(** ** Counting vertices and turns of the loop *)

Definition esum (es : Edges) : nat := list_sum ((fun '(_, c) => vertexCount c) <$> es).
Definition msum (es : Edges) : nat := list_sum ((fun '(_, c) => vertexCount c) <$> removeMarked es).

Lemma list_sum_cons n l : list_sum (n :: l) = n + list_sum l.
Proof. done. Qed.

Lemma esum_cons t c es : esum ((t, c) :: es) = vertexCount c + esum es.
Proof. done. Qed.

Lemma msum_app es es' : msum (es ++ es') = msum es + msum es'.
Proof. unfold msum, removeMarked. by rewrite omap_app, fmap_app, list_sum_app. Qed.

Lemma msum_one t c : msum [(Some t, c)] = vertexCount c.
Proof. unfold msum. cbn. lia. Qed.

Lemma msum_marked c : msum [(None, c)] = 0.
Proof. done. Qed.

Lemma msum_others i es t c : es !! i = Some (Some t, c) -> msum es = vertexCount c + msum (others i es).
Proof.
  intros H. rewrite <- (take_drop_middle es i _ H) at 1. unfold others. rewrite (cons_middle _ (take i es)), !msum_app, msum_one. lia.
Qed.

Lemma msum_alter f i es x : es !! i = Some x -> msum (alter f i es) = msum [f x] + msum (others i es).
Proof. intros H. rewrite (alter_split f i es x H). unfold others. rewrite (cons_middle _ (take i es)), !msum_app. lia. Qed.

Lemma vertexCount_marked acts es : vertexCount (Vertex acts (removeMarked es)) = S (msum es).
Proof. done. Qed.

Lemma vertexCount_pos v : 1 <= vertexCount v.
Proof. destruct v. cbn. lia. Qed.

Lemma esum_enter v : esum (activeEdges (enter v)) = pred (vertexCount v) /\ msum (activeEdges (enter v)) = pred (vertexCount v).
Proof.
  unfold msum. rewrite removeMarked_enter. destruct v as [acts es]. split; [|done]. cbn [enter activeEdges vertexEdges vertexCount Nat.pred].
  induction es as [|[t c] es IH]; [done|]. rewrite !fmap_cons, esum_cons, IH. done.
Qed.

Lemma esum_drop i es t c : es !! i = Some (t, c) -> esum (drop i es) = vertexCount c + esum (drop (S i) es).
Proof. intros H. by rewrite (drop_S _ _ _ H). Qed.

Fixpoint workBelow (stack : list ActiveSubtree) : nat :=
  match stack with [] => 0 | f :: below => S (2 * esum (drop (S (edgeIndex f)) (activeEdges f))) + workBelow below end.

(** A bound on the turns that are left. *)
Definition work (stack : list ActiveSubtree) : nat :=
  match stack with [] => 0 | f :: below => S (2 * esum (drop (edgeIndex f) (activeEdges f))) + workBelow below end.

Fixpoint countBelow (stack : list ActiveSubtree) : nat :=
  match stack with [] => 0 | f :: below => S (msum (others (edgeIndex f) (activeEdges f))) + countBelow below end.

(** The vertices that are left. *)
Definition countIn (stack : list ActiveSubtree) : nat :=
  match stack with [] => 0 | f :: below => S (msum (activeEdges f)) + countBelow below end.

Lemma same_workBelow s s' : Forall2 sameFrame s s' -> workBelow s' = workBelow s.
Proof. induction 1 as [|f f' s s' (_ & E2 & E3) _ IH]; [done|]. cbn. by rewrite IH, E2, E3. Qed.

Lemma same_countBelow s s' : Forall2 sameFrame s s' -> countBelow s' = countBelow s.
Proof. induction 1 as [|f f' s s' (_ & E2 & E3) _ IH]; [done|]. cbn. by rewrite IH, E2, E3. Qed.

(** Some leaf can be reached through edges of fixed length. *)
Fixpoint fixedLeaf (v : PrefixTreeVertex) : bool :=
  let '(Vertex _ edges) := v in
  match edges with [] => true | _ => existsb (fun '(t, c) => bool_decide (hasFixedLength t = Some true) && fixedLeaf c) edges end.

Definition candidate (es : Edges) : Prop := exists t c, (Some t, c) ∈ es /\ hasFixedLength t = Some true /\ fixedLeaf c = true.

(** A leaf is still to come. *)
Definition pending (stack : list ActiveSubtree) : Prop :=
  match stack with
  | [] => False
  | f :: below => activeEdges f = [] \/ candidate (drop (edgeIndex f) (activeEdges f)) \/ Exists (fun g => candidate (drop (S (edgeIndex g)) (activeEdges g))) below
  end.

Lemma fixedLeaf_enter v : fixedLeaf v = true -> activeEdges (enter v) = [] \/ candidate (activeEdges (enter v)).
Proof.
  destruct v as [acts es]. cbn [fixedLeaf]. destruct es as [|e es]; [by left|]. intros H. right. apply existsb_exists in H as ([t c] & Hin & H). apply andb_true_iff in H as [H1 H2].
  exists t, c. split_and!; [|by apply bool_decide_eq_true_1 in H1|done]. apply activeEdges_enter. exists t. split; [done|]. by apply list_elem_of_In.
Qed.

Lemma candidate_drop i es t c : es !! i = Some (t, c) -> candidate (drop i es) -> (exists t', t = Some t' /\ hasFixedLength t' = Some true /\ fixedLeaf c = true) \/ candidate (drop (S i) es).
Proof.
  intros H (t' & c' & Hin & H1 & H2). rewrite (drop_S _ _ _ H) in Hin. apply elem_of_cons in Hin as [[= <- <-]|Hin]; [left; eauto|right; by exists t', c'].
Qed.

(** ** Well-formed stacks *)

Section Ok.

Context (A : Z -> Prop).

(** Leaves have actions. *)
Definition okLeaf (c : PrefixTreeVertex) : Prop := vertexEdges c = [] -> actionsGet c <> [].

Inductive okTree : PrefixTreeVertex -> Prop :=
| ok_vertex acts es : (forall t c, (t, c) ∈ es -> okLabels A t /\ okLeaf c /\ okTree c) -> okTree (Vertex acts es).

Definition okEdges (es : Edges) : Prop := forall t c, (Some t, c) ∈ es -> okLabels A t /\ okLeaf c /\ okTree c.

Lemma okEdges_sub es es' : (forall x, x ∈ es -> x ∈ es') -> okEdges es' -> okEdges es.
Proof. intros H Hok t c Hin. by apply Hok, H. Qed.

Lemma okTree_marked acts es : okTree (Vertex acts (removeMarked es)) <-> okEdges es.
Proof.
  split; [intros H; inversion H as [? ? H1]; subst; intros t c Hin; by apply H1, elem_removeMarked|]. intros H. constructor. intros t c Hin. by apply H, elem_removeMarked.
Qed.

Lemma okTree_enter v : okTree v -> okEdges (activeEdges (enter v)).
Proof. intros H t c (t' & [= ->] & Hin)%activeEdges_enter. inversion H as [acts es H1]; subst. by apply H1. Qed.

Definition valids (stack : list ActiveSubtree) : Prop := Forall (fun f => isValidNode f = true) stack.

(** A vertex of the stack: one with a node has edges and stands on vertices
    with nodes; the bottom has one; marked edges are behind. *)
Record okEntry (f : ActiveSubtree) (below : list ActiveSubtree) : Prop := {
  entry_edges : okEdges (activeEdges f);
  entry_leaf : activeEdges f = [] -> default [] (activeActions f) <> [];
  entry_valid : isValidNode f = true -> activeEdges f <> [] /\ valids below;
  entry_invalid : isValidNode f = false -> below <> [];
  entry_marked : forall j c, activeEdges f !! j = Some (None, c) -> isValidNode f = true /\ j < edgeIndex f }.

Fixpoint okBelow (stack : list ActiveSubtree) : Prop :=
  match stack with [] => True | f :: below => okEntry f below /\ edgeIndex f < length (activeEdges f) /\ okBelow below end.

Definition okStack (stack : list ActiveSubtree) : Prop :=
  match stack with [] => False | f :: below => okEntry f below /\ edgeIndex f <= length (activeEdges f) /\ okBelow below end.

(** The edge that is followed has a term. *)
Lemma okEntry_term f below : okEntry f below -> edgeIndex f < length (activeEdges f) -> exists t c, activeEdges f !! edgeIndex f = Some (Some t, c) /\ activeTerm f = Some t /\ okLabels A t /\ okLeaf c /\ okTree c.
Proof.
  intros H Hi. destruct (lookup_lt_is_Some_2 _ _ Hi) as [[[t|] c] E]; [|apply (entry_marked _ _ H) in E as [_ ?]; lia].
  exists t, c. split; [done|]. split; [unfold activeTerm; by rewrite E|]. apply (entry_edges _ _ H t c). by eapply list_elem_of_lookup_2.
Qed.

Lemma enter_ok v below : below <> [] -> okLeaf v -> okTree v -> okEntry (enter v) below.
Proof.
  intros Hb Hl Ht. split.
  - by apply okTree_enter.
  - destruct v as [acts es]. cbn [enter activeEdges activeActions vertexEdges vertexActions]. intros E%fmap_nil_inv. by apply Hl.
  - done.
  - done.
  - intros j c Hj. apply list_elem_of_lookup_2, activeEdges_enter in Hj as (t & [=] & _).
Qed.

End Ok.

(** ** Patterns that are done or left *)

Record Pure (base : list Term) (T D0 D : list Term -> Z -> Prop) (stack : list ActiveSubtree) : Prop := {
  pure_prefix : forall p a, D0 p a -> D p a;
  pure_sound : forall p a, D p a -> D0 p a \/ T p a;
  pure_left : forall p a, leftIn base stack p a -> T p a;
  pure_all : forall p a, T p a -> D p a \/ leftIn base stack p a;
  pure_done : forall f p a, (f, p) ∈ entries base stack -> isValidNode f = true -> a ∈ default [] (activeActions f) -> D p a }.

(** What is left does not change when a vertex is entered. *)
Lemma left_enter base top below t child p a : activeEdges top !! edgeIndex top = Some (Some t, child) ->
  leftIn base (enter child :: top :: below) p a <-> leftIn base (top :: below) p a.
Proof.
  intros E. assert (activeTerm top = Some t) as Et by (unfold activeTerm; by rewrite E). cbn [leftIn leftBelow stackPath]. rewrite Et. cbn [default].
  setoid_rewrite <- enter_patterns. split.
  - intros [(q & -> & H)|[(q & -> & [H|H])|H]]; [left|left; eauto|left|by right].
    + exists (t :: q). rewrite <- app_assoc. split; [done|]. right. exists t, child, q. split_and!; try done. by eapply list_elem_of_lookup_2.
    + exists q. split; [done|]. right. eapply edgesHave_sub; [|exact H]. intros x Hx. rewrite (elem_others _ _ _ _ E). by right.
  - intros [(q & -> & [H|(t' & c & q' & Hin & -> & H)])|H]; [right; left; eauto| |right; by right]. apply (elem_others _ _ _ _ E) in Hin as [[= -> ->]|Hin].
    + left. exists q'. by rewrite <- app_assoc.
    + right. left. exists (t' :: q'). split; [done|]. right. by exists t', c, q'.
Qed.

Lemma Pure_enter base T D0 D top below t child : activeEdges top !! edgeIndex top = Some (Some t, child) ->
  Pure base T D0 D (top :: below) -> Pure base T D0 D (enter child :: top :: below).
Proof.
  intros E [P0 P1 P2 P3 P4]. split; [done|done|..].
  - intros p a. rewrite (left_enter _ _ _ _ _ _ _ E). apply P2.
  - intros p a. rewrite (left_enter _ _ _ _ _ _ _ E). apply P3.
  - cbn [entries]. intros f p a [[= -> ->]|Hin]%elem_of_cons Hv; [done|]. by apply P4.
Qed.

Lemma Pure_setIndex base T D0 D top below i : Pure base T D0 D (top :: below) -> Pure base T D0 D (setIndex i top :: below).
Proof.
  intros [P0 P1 P2 P3 P4]. split; [done|done|exact P2|exact P3|]. cbn [entries]. intros f p a [[= -> ->]|Hin]%elem_of_cons Hv Ha; [apply (P4 top); [left|done|done]|apply (P4 f); [by right|done|done]].
Qed.

(** ** Returning to the parent *)

(** The parent after its edge has led to [v] and the next one follows. *)
Lemma advance_putBack v parent t c : activeEdges parent !! edgeIndex parent = Some (Some t, c) ->
  exists parent', advance (putBack v parent) = Some parent' /\ activeActions parent' = activeActions parent /\ nfaNode parent' = nfaNode parent /\ edgeIndex parent' = S (edgeIndex parent)
    /\ activeEdges parent' = alter (fun _ => (if isEmpty v then None else Some t, v)) (edgeIndex parent) (activeEdges parent).
Proof.
  intros E. unfold advance, putBack. cbn [activeEdges edgeIndex activeActions nfaNode]. rewrite list_lookup_alter, decide_True by done. rewrite E. cbn [fmap option_fmap option_map mbind option_bind].
  eexists. split; [reflexivity|]. cbn [activeEdges edgeIndex activeActions nfaNode]. split_and!; try done. destruct (isEmpty v); [rewrite alter_alter|]; by rewrite !(alter_split _ _ _ _ E).
Qed.

Section Return.

Context (base : list Term) (parent parent' : ActiveSubtree) (below : list ActiveSubtree) (v : PrefixTreeVertex).
Context (H1 : activeActions parent' = activeActions parent) (H2 : nfaNode parent' = nfaNode parent) (H3 : edgeIndex parent' = S (edgeIndex parent)).
Context (t : Term) (c : PrefixTreeVertex) (Ht : activeEdges parent !! edgeIndex parent = Some (Some t, c)).
Context (H4 : activeEdges parent' = alter (fun _ => (if isEmpty v then None else Some t, v)) (edgeIndex parent) (activeEdges parent)).

Lemma return_left p a : leftIn base (parent' :: below) p a <-> leftBelow base (parent :: below) p a \/ isEmpty v = false /\ exists q, p = stackPath base (parent :: below) ++ q /\ hasPattern v q a.
Proof using All.
  cbn [leftIn leftBelow stackPath]. unfold activeTerm. rewrite Ht, H1. cbn [default mbind option_bind].
  assert (forall x, x ∈ activeEdges parent' <-> x = (if isEmpty v then None else Some t, v) \/ x ∈ others (edgeIndex parent) (activeEdges parent)) as Hin.
  { intros x. rewrite H4, (alter_split _ _ _ _ Ht). unfold others. rewrite !elem_of_app, elem_of_cons. tauto. }
  assert (forall q, edgesHave (activeEdges parent') q a <-> (isEmpty v = false /\ exists q', q = t :: q' /\ hasPattern v q' a) \/ edgesHave (others (edgeIndex parent) (activeEdges parent)) q a) as He.
  { intros q. unfold edgesHave. setoid_rewrite Hin. destruct (isEmpty v).
    - split; [|naive_solver]. intros (t' & c' & q' & [[= ]|Hx] & Hq & Hp). right. eauto 10.
    - split; [|naive_solver]. intros (t' & c' & q' & [[= -> ->]|Hx] & Hq & Hp); [left; eauto|right; eauto 10]. }
  setoid_rewrite He. split.
  - intros [(q & -> & [Hq|[(Hv & q' & -> & Hp)|Hq]])|Hb]; [left; left; eauto| |left; left; eauto|left; by right]. right. split; [done|]. exists q'. by rewrite <- app_assoc.
  - intros [[(q & -> & [Hq|Hq])|Hb]|(Hv & q & -> & Hp)]; [left; eauto|left; eauto|by right|]. left. exists (t :: q). rewrite <- app_assoc. split; [done|]. right. left. eauto.
Qed.

Lemma return_count : countIn (parent' :: below) = countBelow (parent :: below) + (if isEmpty v then 0 else vertexCount v).
Proof using All. cbn [countIn countBelow]. rewrite H4, (msum_alter _ _ _ _ Ht). destruct (isEmpty v); rewrite ?msum_marked, ?msum_one; lia. Qed.

Lemma return_work : work (parent' :: below) = workBelow (parent :: below).
Proof using All. cbn [work workBelow]. by rewrite H3, H4, drop_alter_after. Qed.

Lemma return_pending : Exists (fun g => candidate (drop (S (edgeIndex g)) (activeEdges g))) (parent :: below) -> pending (parent' :: below).
Proof using All. intros [H|H]%Exists_cons; cbn [pending]; rewrite H3, H4, drop_alter_after; auto. Qed.

Lemma return_ok A : okBelow A (parent :: below) -> (isEmpty v = true -> isValidNode parent = true) -> (isEmpty v = false -> okTree A v) -> okStack A (parent' :: below).
Proof using All.
  intros Hok Hv Hv'. destruct Hok as ([E1 E2 E3 E4 E5] & Hi & Hb). assert (isValidNode parent' = isValidNode parent) as Hn by (unfold isValidNode; by rewrite H2).
  assert (length (activeEdges parent') = length (activeEdges parent)) as Hl by by rewrite H4, length_alter. split_and!; [split|lia|done].
  - intros t' c' Hin. rewrite H4, (alter_split _ _ _ _ Ht) in Hin. apply elem_of_app in Hin as [Hin|[Hx|Hin]%elem_of_cons].
    + apply E1. apply (elem_others _ _ _ _ Ht). right. unfold others. rewrite elem_of_app. by left.
    + destruct (isEmpty v) eqn:Ev; [done|]. injection Hx as -> ->. destruct (E1 t c) as [HL _]; [by eapply list_elem_of_lookup_2|]. split; [done|]. split; [|by apply Hv'].
      intros E. unfold isEmpty in Ev. by rewrite E in Ev.
    + apply E1. apply (elem_others _ _ _ _ Ht). right. unfold others. rewrite elem_of_app. by right.
  - intros E. apply (f_equal length) in E. rewrite Hl in E. cbn in E. lia.
  - rewrite Hn. intros Hp. split; [intros E; apply (f_equal length) in E; rewrite Hl in E; cbn in E; lia|by apply E3].
  - rewrite Hn. apply E4.
  - intros j c' Hj. rewrite H3, Hn. destruct (decide (j = edgeIndex parent)) as [->|Hne].
    + rewrite H4, list_lookup_alter, decide_True, Ht in Hj by done. cbn in Hj. destruct (isEmpty v) eqn:Ev; [|done]. split; [by apply Hv|lia].
    + rewrite H4, list_lookup_alter_ne in Hj by done. destruct (E5 j c' Hj). split; [done|lia].
Qed.

End Return.

(** A vertex whose edges have all been seen is left. *)
Lemma pop_step A base T D0 D top parent below : okStack A (top :: parent :: below) -> activeEdges top <> [] -> edgeIndex top = length (activeEdges top) ->
  exists parent', advance (putBack (Vertex (activeActions top) (removeMarked (activeEdges top))) parent) = Some parent' /\ nfaNode parent' = nfaNode parent
    /\ okStack A (parent' :: below) /\ work (parent' :: below) < work (top :: parent :: below) /\ countIn (parent' :: below) <= countIn (top :: parent :: below)
    /\ (pending (top :: parent :: below) -> pending (parent' :: below)) /\ (Pure base T D0 D (top :: parent :: below) -> Pure base T D0 D (parent' :: below)).
Proof.
  intros (Htop & _ & Hok) Hne Hi. set (v := Vertex (activeActions top) (removeMarked (activeEdges top))). pose proof Hok as (Hpar & Hlt & _).
  destruct (okEntry_term _ _ _ Hpar Hlt) as (t & c & Ht & Et & _). destruct (advance_putBack v parent t c Ht) as (parent' & -> & R1 & R2 & R3 & R4). exists parent'. split; [done|]. split; [done|].
  assert (isEmpty v = true -> isValidNode top = true) as Hval.
  { intros Hv. unfold isEmpty, v in Hv. cbn [vertexEdges] in Hv. destruct (activeEdges top) as [|[[t0|] c0] es] eqn:Ee; [done|done|]. apply (entry_marked _ _ _ Htop 0 c0). by rewrite Ee. }
  split_and!.
  - apply (return_ok base parent parent' below v R1 R2 R3 t c Ht R4 A Hok).
    + intros Hv. apply Hval in Hv. apply (entry_valid _ _ _ Htop) in Hv as [_ Hv]. by inversion Hv.
    + intros _. apply okTree_marked. apply Htop.
  - rewrite (return_work base parent parent' below v R1 R2 R3 t c Ht R4). unfold work. lia.
  - rewrite (return_count base parent parent' below v R1 R2 R3 t c Ht R4). unfold countIn at 1. cbn [countIn]. unfold v. rewrite vertexCount_marked. destruct (isEmpty _); lia.
  - cbn [pending]. intros [?|[Hc|Hc]]; [done| |by apply (return_pending base parent parent' below v R1 R2 R3 t c Ht R4)]. rewrite Hi, drop_all in Hc. destruct Hc as (? & ? & []%not_elem_of_nil & _).
  - assert (forall p a, leftIn base (top :: parent :: below) p a <-> (exists q, p = stackPath base (parent :: below) ++ q /\ hasPattern v q a) \/ leftBelow base (parent :: below) p a) as HL.
    { intros p a. unfold leftIn, v. by setoid_rewrite removeMarked_patterns. }
    intros [P0 P1 P2 P3 P4]. pose proof (fun p a => return_left base parent parent' below v R1 R2 R3 t c Ht R4 p a) as HR. split; [done|done|..].
    + intros p a. rewrite HR. intros [Hl|[_ Hl]]; apply P2, HL; [by right|by left].
    + intros p a HT. rewrite HR. destruct (P3 p a HT) as [?|Hl]; [by left|]. apply HL in Hl as [(q & -> & Hq)|Hl]; [|right; by left]. destruct (isEmpty v) eqn:Ev; [left|right; right; eauto].
      apply removeMarked_patterns in Hq as [[-> Ha]|Hq].
      * rewrite app_nil_r. apply (P4 top); [left|by apply Hval|done].
      * destruct Hq as (t' & c' & q' & Hin & _). apply elem_removeMarked in Hin. unfold isEmpty, v in Ev. cbn [vertexEdges] in Ev. destruct (removeMarked _); [by apply not_elem_of_nil in Hin|done].
    + cbn [entries]. intros f p a [[= -> ->]|Hin]%elem_of_cons Hv Ha.
      * apply (P4 parent); [right; left| |by rewrite <- R1]. unfold isValidNode in *. by rewrite <- R2.
      * apply (P4 f); [right; by right|done|done].
Qed.

(** A vertex without actions and with a single edge. *)
Definition idle (f : ActiveSubtree) : Prop := isValidNode f = false /\ activeActions f = None /\ length (activeEdges f) = 1.

Lemma idle_others f : idle f -> edgeIndex f < length (activeEdges f) -> others (edgeIndex f) (activeEdges f) = [].
Proof. intros (_ & _ & Hl) Hi. unfold others. destruct (activeEdges f) as [|e [|]]; cbn in *; try lia. by replace (edgeIndex f) with 0 by lia. Qed.

Lemma leftBelow_idle A base invs stack p a : okBelow A (invs ++ stack) -> Forall idle invs -> leftBelow base (invs ++ stack) p a <-> leftBelow base stack p a.
Proof.
  induction invs as [|f invs IH]; [done|]. cbn [app okBelow leftBelow]. intros (_ & Hi & Hok) [Hf Hid]%Forall_cons. rewrite (idle_others f Hf Hi), (IH Hok Hid). destruct Hf as (_ & -> & _).
  split; [|by right]. intros [(q & _ & [[_ []%not_elem_of_nil]|(? & ? & ? & []%not_elem_of_nil & _)])|?]; done.
Qed.

Lemma okBelow_app A invs stack : okBelow A (invs ++ stack) -> okBelow A stack.
Proof. induction invs as [|f invs IH]; [done|]. cbn. tauto. Qed.

Lemma work_app A invs stack : okBelow A (invs ++ stack) -> workBelow stack <= workBelow (invs ++ stack) /\ countBelow stack <= countBelow (invs ++ stack).
Proof. induction invs as [|f invs IH]; [done|]. cbn [app okBelow workBelow countBelow]. intros (_ & _ & Hok). specialize (IH Hok). lia. Qed.

(** A leaf has been connected to [src]. *)
Lemma leaf_step A base T D0 D leaf invs src rest b above : okStack A (leaf :: invs ++ src :: rest) -> activeEdges leaf = [] -> Forall idle invs -> isValidNode src = true ->
  exists src', advance (putBack (Vertex above []) (setNode b src)) = Some src' /\ nfaNode src' = Some b
    /\ okStack A (src' :: rest) /\ work (src' :: rest) < work (leaf :: invs ++ src :: rest) /\ countIn (src' :: rest) < countIn (leaf :: invs ++ src :: rest)
    /\ (Pure base T D0 D (leaf :: invs ++ src :: rest) ->
        Pure base T D0 (fun p a => D p a \/ p = stackPath base (invs ++ src :: rest) /\ a ∈ default [] (activeActions leaf)) (src' :: rest)).
Proof.
  intros (Hleaf & _ & Hok) Hl Hinv Hval. pose proof (okBelow_app _ _ _ Hok) as Hok'. pose proof Hok' as (Hsrc & Hlt & Hrest). destruct (okEntry_term _ _ _ Hsrc Hlt) as (t & c & Ht & Et & _).
  destruct (advance_putBack (Vertex above []) (setNode b src) t c Ht) as (src' & -> & R1 & R2 & R3 & R4). cbn [setNode activeActions nfaNode edgeIndex activeEdges] in R1, R2, R3, R4. exists src'. split; [done|]. split; [done|].
  destruct (work_app _ _ _ Hok) as [W1 W2]. split_and!.
  - apply (return_ok base (setNode b src) src' rest (Vertex above []) R1 R2 R3 t c Ht R4 A); try done. destruct Hsrc as [E1 E2 E3 E4 E5]. cbn [okBelow setNode]. split_and!; [split; cbn [activeEdges activeActions edgeIndex]|done|done]; try done.
    + intros _. split; [by apply E3|]. by apply E3.
    + intros j c' Hj. split; [done|]. by apply (E5 j c').
  - rewrite (return_work base (setNode b src) src' rest (Vertex above []) R1 R2 R3 t c Ht R4). change (workBelow (setNode b src :: rest)) with (workBelow (src :: rest)). unfold work. lia.
  - rewrite (return_count base (setNode b src) src' rest (Vertex above []) R1 R2 R3 t c Ht R4). change (countBelow (setNode b src :: rest)) with (countBelow (src :: rest)). unfold countIn. cbn [isEmpty vertexEdges]. lia.
  - intros [P0 P1 P2 P3 P4]. assert (forall p a, leftIn base (src' :: rest) p a <-> leftBelow base (src :: rest) p a) as HR.
    { intros p a. rewrite (return_left base (setNode b src) src' rest (Vertex above []) R1 R2 R3 t c Ht R4 p a). change (leftBelow base (setNode b src :: rest)) with (leftBelow base (src :: rest)).
      cbn [isEmpty vertexEdges]. naive_solver. }
    assert (forall p a, leftIn base (leaf :: invs ++ src :: rest) p a <-> (p = stackPath base (invs ++ src :: rest) /\ a ∈ default [] (activeActions leaf)) \/ leftBelow base (src :: rest) p a) as HL.
    { intros p a. cbn [leftIn]. rewrite (leftBelow_idle A base invs _ p a Hok Hinv), Hl. apply or_iff_compat_r. split.
      - intros (q & -> & [[-> Ha]|(? & ? & ? & []%not_elem_of_nil & _)]). by rewrite app_nil_r.
      - intros [-> Ha]. exists []. rewrite app_nil_r. auto. }
    split.
    + intros p a H. left. by apply P0.
    + intros p a [?|[-> Ha]]; [by apply P1|]. right. apply P2, HL. by left.
    + intros p a H. apply P2, HL. right. by apply HR.
    + intros p a HT. destruct (P3 p a HT) as [?|[?|?]%HL]; [left; by left|left; by right|right; by apply HR].
    + cbn [entries]. assert (forall x, x ∈ entries base (src :: rest) -> x ∈ entries base (invs ++ src :: rest)) as Hsub by (intros x Hx; clear -Hx; induction invs; [done|by right]).
      intros f p a [[= -> ->]|Hin]%elem_of_cons Hv Ha; left.
      * apply (P4 src); [right; apply Hsub; left|done|by rewrite <- R1].
      * apply (P4 f); [right; apply Hsub; by right|done|done].
Qed.

(** ** The automaton *)

(** The live builders of a stack. *)
Notation builders stack := (omap nfaNode stack).

(** The forward nodes of a stack. *)
Definition fwOf (base : list Term) (stack : list ActiveSubtree) (i : Z) (p : list Term) : Prop :=
  exists f b, (f, p) ∈ entries base stack /\ nfaNode f = Some b /\ i = m_nodeId b.

(** The actions of vertices with nodes are done. *)
Definition doneFor (base : list Term) (D : list Term -> Z -> Prop) (stack : list ActiveSubtree) : Prop :=
  forall f p a, (f, p) ∈ entries base stack -> isValidNode f = true -> a ∈ default [] (activeActions f) -> D p a.

Lemma isValidNode_some f : isValidNode f = true <-> exists b, nfaNode f = Some b.
Proof. unfold isValidNode. destruct (nfaNode f); naive_solver. Qed.

Lemma isValidNode_none f : isValidNode f = false <-> nfaNode f = None.
Proof. unfold isValidNode. by destruct (nfaNode f). Qed.

(** A vertex that gets a node, on vertices with nodes. *)
Lemma okEntry_setNode A b f below below' : okEntry A f below -> edgeIndex f < length (activeEdges f) -> valids below' -> okEntry A (setNode b f) below'.
Proof.
  intros [E1 E2 E3 E4 E5] Hi Hb. split; cbn [setNode activeEdges activeActions edgeIndex]; try done.
  - intros _. split; [|done]. intros Ee. rewrite Ee in Hi. cbn in Hi. lia.
  - intros j c Hj. split; [done|]. by apply (E5 j c).
Qed.

Section Subtree.

Context (targetOrder actionOrder : gset Z -> list Z).
Hypothesis targets_listed : forall s, targetOrder s ≡ₚ elements s.
Hypothesis actions_listed : forall s, actionOrder s ≡ₚ elements s.
Context (A : Z -> Prop) (base : list Term).

Lemma valids_entries stack f p : valids stack -> (f, p) ∈ entries base stack -> isValidNode f = true.
Proof. induction 1 as [|g stack Hg _ IH]; cbn; [by intros []%not_elem_of_nil|]. by intros [[= -> ->]|Hin]%elem_of_cons; [|apply IH]. Qed.

(** ** Generating the nodes of more vertices *)

Record Upgrade (nfa : NFA.NFA) (stack : list ActiveSubtree) (nfa' : NFA.NFA) (stack' : list ActiveSubtree) : Prop := {
  up_extends : extends nfa nfa';
  up_same : Forall2 sameFrame stack stack';
  up_safe : Forall (safe nfa') (builders stack');
  up_ok : okBelow A stack';
  up_world : forall D, exists D', (forall p a, D p a -> D' p a) /\ (forall p a, D' p a -> D p a \/ leftBelow base stack p a)
    /\ (doneFor base D stack -> doneFor base D' stack')
    /\ (small nfa' -> forall sfx, World A nfa (builders stack) (fwOf base stack) sfx D -> World A nfa' (builders stack') (fwOf base stack') sfx D') }.

Lemma Upgrade_refl nfa stack : okBelow A stack -> Forall (safe nfa) (builders stack) -> Upgrade nfa stack nfa stack.
Proof. intros Hok Hs. split; [done|by apply Reflexive_instance_0|done|done|]. intros D. exists D. split_and!; try done. tauto. Qed.

(** A vertex without a node on top does not matter. *)
Lemma fwOf_invalid f below : nfaNode f = None -> forall i p, fwOf base (f :: below) i p <-> fwOf base below i p.
Proof.
  intros Hf i p. unfold fwOf. cbn [entries]. split.
  - intros (g & b & [[= -> ->]|Hin]%elem_of_cons & Hg & ->); [congruence|eauto].
  - intros (g & b & Hin & Hg & ->). exists g, b. split; [by right|done].
Qed.

Lemma doneFor_invalid f below D : isValidNode f = false -> doneFor base D (f :: below) <-> doneFor base D below.
Proof.
  intros Hf. unfold doneFor. cbn [entries]. split; intros H g p a Hin Hv Ha.
  - apply (H g); [by right|done|done].
  - apply elem_of_cons in Hin as [[= -> ->]|Hin]; [congruence|by apply (H g)].
Qed.

Lemma Upgrade_cons nfa f below nfa' below' : okEntry A f below -> edgeIndex f < length (activeEdges f) -> isValidNode f = false -> below' <> [] ->
  Upgrade nfa below nfa' below' -> Upgrade nfa (f :: below) nfa' (f :: below').
Proof.
  intros Hf Hi Hv Hb [U1 U2 U3 U4 U5]. apply isValidNode_none in Hv as Hn. split; [done|by constructor|cbn; by rewrite Hn| |].
  - destruct Hf as [E1 E2 E3 E4 E5]. cbn [okBelow]. split_and!; [split; try done|done|done]. intros Hv'. congruence.
  - intros D. destruct (U5 D) as (D' & A1 & A2 & A3 & A4). exists D'. split_and!; [done|intros p a Hd; destruct (A2 p a Hd); [by left|right; by right]|by rewrite !doneFor_invalid|].
    intros Hs sfx HW. cbn in HW |- *. rewrite Hn in HW |- *. eapply World_weaken; [intros i p; apply (proj1 (fwOf_invalid f _ Hn i p))|done|done|]. apply (A4 Hs sfx).
    eapply World_weaken; [intros i p; apply (proj2 (fwOf_invalid f _ Hn i p))|done|done|exact HW].
Qed.

Lemma generateUpTo_spec stack : okBelow A stack -> stack <> [] -> forall nfa, Forall (safe nfa) (builders stack) ->
  exists nfa' stack', generateUpTo targetOrder actionOrder nfa stack = Some (nfa', stack') /\ valids stack' /\ Upgrade nfa stack nfa' stack'.
Proof using targets_listed actions_listed.
  induction stack as [|f below IH]; intros Hok Hne nfa Hs; [done|]. pose proof Hok as (Hf & Hi & Hb). cbn [generateUpTo]. destruct (isValidNode f) eqn:Hv.
  { exists nfa, (f :: below). split; [done|]. split; [|by apply Upgrade_refl]. constructor; [done|]. by apply (entry_valid _ _ _ Hf). }
  apply isValidNode_none in Hv as Hn. cbn in Hs. rewrite Hn in Hs. destruct (IH Hb (entry_invalid _ _ _ Hf Hv) nfa Hs) as (nfa1 & below1 & -> & V1 & U1). cbn [mbind option_bind].
  destruct U1 as [U1 U2 U3 U4 U5]. destruct below1 as [|source rest]; [apply Forall2_nil_inv_r in U2 as ->; by destruct (entry_invalid _ _ _ Hf Hv)|].
  apply Forall_cons in V1 as [V1 V1']. apply isValidNode_some in V1 as [b Eb]. rewrite Eb. cbn [mbind option_bind]. pose proof U4 as (Hsrc & Hsi & Hrest).
  destruct (okEntry_term _ _ _ Hsrc Hsi) as (t & c & Et & Ea & HL & _). rewrite Ea. cbn [mbind option_bind]. cbn in U3. rewrite Eb in U3. apply Forall_cons in U3 as [Sb Srest].
  destruct (toEnd_world targetOrder actionOrder targets_listed actions_listed A t nfa1 b (default [] (activeActions f)) HL Sb) as (nfa2 & b' & e & -> & X1 & X2 & X3 & X4 & X5). cbn [mbind option_bind].
  eexists _, _. split; [reflexivity|]. set (stack' := setNode e f :: setNode b' source :: rest). assert (valids stack') as Hvs by (by repeat constructor).
  assert (Forall2 sameFrame (f :: below) stack') as Hsame.
  { constructor; [done|]. inversion U2 as [|g ? ? ? Hg Hr]; subst. constructor; [|done]. by etrans. }
  split; [done|]. split; [by etrans|done|unfold stack'; cbn; do 2 (apply Forall_cons; split; [done|]); by eapply Forall_safe_extends| |].
  - unfold stack'. cbn [okBelow]. split_and!; [by apply (okEntry_setNode _ _ f below); [..|constructor]|done|by apply (okEntry_setNode _ _ source rest)|done|done].
  - intros D. destruct (U5 D) as (D1 & A1 & A2 & A3 & A4). exists (fun p a => D1 p a \/ p = stackPath base below /\ a ∈ default [] (activeActions f)).
    pose proof (same_stackPath base _ _ U2) as HP. cbn [stackPath] in HP. rewrite Ea in HP. cbn [default id] in HP. split_and!.
    + intros p a H. left. by apply A1.
    + intros p a [H|[-> Ha]]; [destruct (A2 p a H); [by left|right; by right]|right; left; exists []; rewrite app_nil_r; auto].
    + rewrite doneFor_invalid by done. intros HD g p a. unfold stack'. cbn [entries stackPath]. change (activeTerm (setNode b' source)) with (activeTerm source). rewrite Ea. cbn [default id]. rewrite HP.
      intros [[= -> ->]|[[= -> ->]|Hin]%elem_of_cons]%elem_of_cons _ Ha; [by right|left|left].
      * apply (A3 HD source); [left|by rewrite isValidNode_some; eauto|done].
      * apply (A3 HD g); [by right|by apply (valids_entries rest g p)|done].
    + intros S2 sfx HW. pose proof (small_extends _ _ X1 S2) as S1. assert (World A nfa1 (b :: builders rest) (fwOf base (source :: rest)) sfx D1) as HW1.
      { specialize (A4 S1 sfx). cbn in A4. rewrite Eb in A4. apply A4. cbn in HW. rewrite Hn in HW. eapply World_weaken; [intros i p; apply (proj2 (fwOf_invalid f _ Hn i p))|done|done|exact HW]. }
      specialize (X5 S2 (builders rest) _ _ _ (stackPath base rest) HW1). rewrite HP in X5. unfold stack'. cbn.
      refine (World_weaken A _ _ _ _ _ _ _ _ _ (fun _ _ _ H => H) (fun _ _ => iff_refl _) (X5 _)); [|exists source, b; split; [left|done]].
      intros i p (g & b0 & Hin & Hg & ->). cbn [entries stackPath] in Hin. change (activeTerm (setNode b' source)) with (activeTerm source) in Hin. rewrite Ea in Hin. cbn [default id] in Hin. rewrite HP in Hin.
      apply elem_of_cons in Hin as [[= -> ->]|[[= -> ->]|Hin]%elem_of_cons].
      * right. by injection Hg as <-.
      * left. injection Hg as <-. exists source, b. rewrite X4. split; [left|done].
      * left. exists g, b0. split; [by right|done].
Qed.

(** After the infix, the vertices above the last one with a node have no
    actions and a single edge. *)
Lemma infixLoop_spec stack : okBelow A stack -> stack <> [] -> forall nfa, Forall (safe nfa) (builders stack) ->
  exists nfa' invs src rest, infixLoop targetOrder actionOrder nfa stack = Some (nfa', invs ++ src :: rest) /\ Forall idle invs /\ isValidNode src = true
    /\ Upgrade nfa stack nfa' (invs ++ src :: rest).
Proof using targets_listed actions_listed.
  induction stack as [|f below IH]; intros Hok Hne nfa Hs; [done|]. pose proof Hok as (Hf & Hi & Hb). cbn [infixLoop]. destruct (isValidNode f) eqn:Hv.
  { exists nfa, [], f, below. split_and!; try done. by apply Upgrade_refl. }
  rewrite option_guard_True by by apply Hf. cbn [mbind option_bind]. apply isValidNode_none in Hv as Hn. destruct (_ || _) eqn:Ho.
  - destruct (generateUpTo_spec (f :: below) Hok ltac:(done) nfa Hs) as (nfa' & stack' & -> & V & U). destruct stack' as [|src rest]; [by apply up_same in U; inversion U|].
    exists nfa', [], src, rest. split_and!; try done. by inversion V.
  - cbn in Hs. rewrite Hn in Hs. destruct (IH Hb (entry_invalid _ _ _ Hf Hv) nfa Hs) as (nfa' & invs & src & rest & -> & I1 & I2 & U). cbn [mbind option_bind].
    exists nfa', (f :: invs), src, rest. split_and!; [done| |done|apply Upgrade_cons; try done; by destruct invs]. constructor; [|done].
    apply orb_false_iff in Ho as [Ho1 Ho2]. split_and!; [done|by destruct (activeActions f)|]. apply negb_false_iff, Nat.eqb_eq in Ho2. done.
Qed.

(** ** The reverse suffix tree *)

(** The nodes of a vertex, whose own path is [q], with their paths. *)
Inductive suffixHas : ReverseSuffixTreeVertex -> list Term -> Z -> list Term -> Prop :=
| suffix_here v q : suffixHas v q (suffixNodeId v) q
| suffix_child v q t c n p : (t, c) ∈ suffixEdges v -> suffixHas c (t :: q) n p -> suffixHas v q n p.

Lemma findSuffixEdge_spec t es i : findSuffixEdge t es = Some i -> exists c, es !! i = Some (t, c).
Proof.
  revert i. induction es as [|[t' c] es IH]; intros i; cbn [findSuffixEdge]; [done|]. destruct (Term_eqb t t') eqn:E; [apply Term_eqb_eq in E as ->; intros [= <-]; by exists c|].
  destruct (findSuffixEdge t es) as [j|]; [|done]. intros [= <-]. by apply IH.
Qed.

Lemma setSuffixChild_has i t c v q n p : suffixHas (setSuffixChild i t c v) q n p -> suffixHas v q n p \/ suffixHas c (t :: q) n p.
Proof.
  intros H. inversion H as [|? ? t' c' ? ? Hin Hc]; subst; [left; apply (suffix_here v)|]. cbn [setSuffixChild suffixEdges] in Hin. apply elem_of_app in Hin as [Hin|[[= -> ->]|Hin]%elem_of_cons].
  - left. eapply suffix_child; [|exact Hc]. apply list_elem_of_lookup_1 in Hin as [j Hj]. apply lookup_take_Some in Hj as [Hj _]. by eapply list_elem_of_lookup_2.
  - by right.
  - left. eapply suffix_child; [|exact Hc]. apply list_elem_of_lookup_1 in Hin as [j Hj]. rewrite lookup_drop in Hj. by eapply list_elem_of_lookup_2.
Qed.

(** The child for a term: an old one, or one with a new node. *)
Lemma suffixChild_spec nfa t v : okLabels A t -> exists nfa' i c, suffixChild targetOrder actionOrder nfa t v = Some (nfa', i, c) /\ extends nfa nfa'
  /\ (small nfa' -> forall live fw S D q acts, World A nfa live fw S D -> (forall n p, suffixHas v q n p -> S n p acts) ->
      World A nfa' live fw (fun n p l => S n p l \/ suffixHas c (t :: q) n p /\ l = acts) D).
Proof using targets_listed actions_listed.
  intros Ht. unfold suffixChild. destruct (findSuffixEdge t (suffixEdges v)) as [i|] eqn:E.
  - destruct (findSuffixEdge_spec _ _ _ E) as (c & Hc). rewrite Hc. cbn [mbind option_bind]. exists nfa, i, c. split; [done|]. split; [done|]. intros _ live fw S D q acts HW HS.
    eapply World_weaken; [done| |done|exact HW]. intros n p l [?|[Hn ->]]; [done|]. apply HS. eapply suffix_child; [|exact Hn]. by eapply list_elem_of_lookup_2.
  - destruct (suffix_world targetOrder actionOrder targets_listed actions_listed A t nfa (suffixNodeId v) Ht) as (nfa' & n & En & Hext & HW). destruct (newBuilder nfa) as [nfa1 e].
    destruct (generateGraph targetOrder actionOrder t nfa1 e (suffixNodeId v)) as [[nfa2 e']|]; [|done]. cbn [mbind option_bind] in *.
    destruct (finalize targetOrder actionOrder e' nfa2) as [nfa3|]; [|done]. cbn [mbind option_bind] in *. injection En as -> <-. eexists _, _, _. split; [reflexivity|]. split; [done|].
    intros Hs live fw S D q acts HW0 HS. eapply World_weaken; [done| |done|apply (HW Hs live fw S D q acts HW0); apply HS, suffix_here]. intros m p l [?|[Hn ->]]; [by left|right].
    inversion Hn as [|? ? ? ? ? ? Hin]; subst; [done|]. by apply not_elem_of_nil in Hin.
Qed.

Lemma suffixLoop_spec src rest b : isValidNode src = true -> nfaNode src = Some b -> forall invs, okBelow A (invs ++ src :: rest) -> Forall idle invs ->
  forall nfa above v, safe nfa b -> exists nfa' b' above' v', suffixLoop targetOrder actionOrder nfa (invs ++ src :: rest) above v = Some (nfa', putBack (Vertex above' []) (setNode b' src) :: rest, v')
    /\ extends nfa nfa' /\ safe nfa' b' /\ m_nodeId b' = m_nodeId b
    /\ (small nfa' -> forall live fw S D q acts, World A nfa (b :: live) fw S D -> fw (m_nodeId b) (stackPath base rest) -> (forall n p, suffixHas v q n p -> S n p acts) ->
        World A nfa' (b' :: live) fw (fun n p l => S n p l \/ suffixHas v' q n p /\ l = acts) (fun p a => D p a \/ p = stackPath base (invs ++ src :: rest) ++ q /\ a ∈ acts)).
Proof using targets_listed actions_listed.
  intros Hv Eb. induction invs as [|f invs IH]; intros Hok Hid nfa above v Hb; cbn [app suffixLoop].
  - destruct Hok as (Hsrc & Hi & _). destruct (okEntry_term _ _ _ Hsrc Hi) as (t & c & Et & Ea & HL & _). rewrite Ea, Eb. cbn [mbind option_bind].
    destruct (connect_world targetOrder actionOrder targets_listed actions_listed A t nfa b (suffixNodeId v) HL Hb) as (nfa' & b' & -> & C1 & C2 & C3 & C4). cbn [mbind option_bind].
    exists nfa', b', above, v. split_and!; try done. intros Hs live fw S D q acts HW Hfw HS. specialize (C4 Hs live fw S D (stackPath base rest) q acts HW Hfw). eapply World_weaken; [done| | |apply C4, HS, suffix_here].
    + intros n p l [?|[Hn ->]]; [done|by apply HS].
    + intros p a. cbn [stackPath]. rewrite Ea. cbn [default id]. by rewrite <- app_assoc.
  - destruct Hok as (Hf & Hi & Hok). apply Forall_cons in Hid as [(Hn & Hact & Hlen) Hid]. apply isValidNode_none in Hn. destruct (okEntry_term _ _ _ Hf Hi) as (t & c & Et & Ea & HL & _).
    rewrite Ea, Hn. cbn [mbind option_bind]. rewrite option_guard_True by done. cbn [mbind option_bind].
    destruct (suffixChild_spec nfa t v HL) as (nfa1 & i & child & -> & C1 & C2). cbn [mbind option_bind]. rewrite option_guard_True by done. cbn [mbind option_bind].
    destruct (IH Hok Hid nfa1 (activeActions f) child (safe_extends _ _ _ C1 Hb)) as (nfa2 & b' & above' & child' & -> & D1 & D2 & D3 & D4). cbn [mbind option_bind].
    eexists _, _, _, _. split; [reflexivity|]. split; [by etrans|]. split; [done|]. split; [done|]. intros Hs live fw S D q acts HW Hfw HS. pose proof (small_extends _ _ D1 Hs) as S1.
    specialize (C2 S1 _ _ _ _ q acts HW HS). specialize (D4 Hs live fw _ D (t :: q) acts C2 Hfw (fun n p H => or_intror (conj H eq_refl))). eapply World_weaken; [done| | |exact D4].
    + intros n p l [?|[[Hm|Hm]%setSuffixChild_has ->]]; [left; by left|left; left; by apply HS|by right].
    + intros p a. cbn [stackPath]. rewrite Ea. cbn [default id]. by rewrite <- app_assoc.
Qed.

(** The nodes of the reverse suffix tree. *)
Definition sfxOf (roots : ReverseSuffixTreeRoots) (n : Z) (p : list Term) (l : list Z) : Prop := exists v, roots !! l = Some v /\ suffixHas v [] n p.

Lemma elem_HashableActionList l a : a ∈ HashableActionList l <-> a ∈ l.
Proof. unfold HashableActionList. by rewrite merge_sort_Permutation. Qed.

Lemma generateSuffix_spec leaf invs src rest roots b : isValidNode leaf = false -> default [] (activeActions leaf) <> [] -> isValidNode src = true -> nfaNode src = Some b ->
  okBelow A (invs ++ src :: rest) -> Forall idle invs -> forall nfa, safe nfa b ->
  exists nfa' b' above' roots', generateSuffixWithReverseSuffixTree targetOrder actionOrder nfa (leaf :: invs ++ src :: rest) roots = Some (nfa', putBack (Vertex above' []) (setNode b' src) :: rest, roots')
    /\ extends nfa nfa' /\ safe nfa' b' /\ m_nodeId b' = m_nodeId b
    /\ (small nfa' -> forall live fw D, World A nfa (b :: live) fw (sfxOf roots) D -> fw (m_nodeId b) (stackPath base rest) ->
        World A nfa' (b' :: live) fw (sfxOf roots') (fun p a => D p a \/ p = stackPath base (invs ++ src :: rest) /\ a ∈ default [] (activeActions leaf))).
Proof using targets_listed actions_listed.
  intros Hl Hne Hv Eb Hok Hid nfa Hb. cbn [generateSuffixWithReverseSuffixTree]. rewrite option_guard_True by done. cbn [mbind option_bind]. rewrite option_guard_True by done. cbn [mbind option_bind].
  set (actionList := default [] (activeActions leaf)) in *. set (key := HashableActionList actionList).
  assert (exists nfa1 root, suffixRoot targetOrder actionOrder nfa actionList roots = Some (nfa1, root) /\ extends nfa nfa1
    /\ (small nfa1 -> forall live fw D, World A nfa live fw (sfxOf roots) D -> World A nfa1 live fw (fun n p l => sfxOf roots n p l \/ suffixHas root [] n p /\ l = key) D)) as (nfa1 & root & E1 & X1 & X2).
  { unfold suffixRoot. fold key. destruct (roots !! key) as [root|] eqn:Er.
    - exists nfa, root. split_and!; try done. intros _ live fw D HW. eapply World_weaken; [done| |done|exact HW]. intros n p l [?|[Hn ->]]; [done|by exists root].
    - destruct (leaf_world targetOrder actionOrder targets_listed actions_listed A nfa actionList) as (nfa1 & n & E & He & HW). destruct (newBuilder nfa) as [nfa0 e]. cbv zeta.
      destruct (finalize targetOrder actionOrder (setActions actionList e) nfa0) as [nfa2|]; [|done]. cbn [mbind option_bind] in *. injection E as -> <-. eexists _, _. split; [reflexivity|]. split; [done|].
      intros Hs live fw D HW0. eapply World_acts; [|exact (HW Hs live fw _ D HW0)]. intros m p l [?|[Hm ->]]; [exists l; split; [by left|done]|]. exists actionList. split; [right|intros a; apply elem_HashableActionList].
      inversion Hm as [|? ? ? ? ? ? Hin]; subst; [done|]. by apply not_elem_of_nil in Hin. }
  rewrite E1. cbn [mbind option_bind]. clear E1. destruct (suffixLoop_spec src rest b Hv Eb invs Hok Hid nfa1 (activeActions leaf) root (safe_extends _ _ _ X1 Hb)) as (nfa2 & b' & above' & root' & -> & Y1 & Y2 & Y3 & Y4).
  cbn [mbind option_bind]. eexists _, _, _, _. split; [reflexivity|]. split; [by etrans|]. split; [done|]. split; [done|]. intros Hs live fw D HW Hfw. pose proof (small_extends _ _ Y1 Hs) as S1.
  specialize (Y4 Hs live fw _ D [] key (X2 S1 _ _ _ HW) Hfw (fun n p H => or_intror (conj H eq_refl))). eapply World_weaken; [done| | |exact Y4].
  - intros n p l (v & Hlk & Hn). apply lookup_insert_Some in Hlk as [[<- <-]|[_ Hlk]]; [by right|]. left. left. by exists v.
  - intros p a. rewrite app_nil_r. unfold key. by rewrite elem_HashableActionList.
Qed.

(** ** The loop *)

(** [T] are the patterns of the tree, [D0] those of the prefix, and the tree had
    [c0] vertices. *)
Context (T D0 : list Term -> Z -> Prop) (c0 : nat).

Record Inv (s : Subtree) : Prop := {
  inv_ok : okStack A (st_stack s);
  inv_safe : Forall (safe (st_nfa s)) (builders (st_stack s));
  inv_count : countIn (st_stack s) <= c0;
  inv_world : exists D, Pure base T D0 D (st_stack s) /\ (countIn (st_stack s) < c0 /\ (exists p a, D p a) \/ st_tooBig s = false /\ pending (st_stack s))
    /\ (small (st_nfa s) -> World A (st_nfa s) (builders (st_stack s)) (fwOf base (st_stack s)) (sfxOf (st_roots s)) D) }.

(** The result: the automaton, and the tree that is left. *)
Record Result (nfa : NFA.NFA) (v : PrefixTreeVertex) : Prop := {
  res_tree : okTree A v;
  res_count : vertexCount v < c0;
  res_world : exists D, (forall p a, D0 p a -> D p a) /\ (forall p a, D p a -> D0 p a \/ T p a) /\ (forall q a, hasPattern v q a -> T (base ++ q) a)
    /\ (forall p a, T p a -> D p a \/ exists q, p = base ++ q /\ hasPattern v q a) /\ (exists p a, D p a)
    /\ (small nfa -> World A nfa [] (fun _ _ => False) (fun _ _ _ => False) D) }.

Lemma fwOf_setIndex i top below j p : fwOf base (setIndex i top :: below) j p -> fwOf base (top :: below) j p.
Proof.
  intros (f & b & [[= -> ->]|Hin]%elem_of_cons & Hf & ->); [exists top, b; split; [left|done]|exists f, b; split; [by right|done]].
Qed.

Lemma Inv_setIndex s top below i tooBig : st_stack s = top :: below -> Inv s -> edgeIndex top <= i <= length (activeEdges top) ->
  (st_tooBig s = false /\ pending (st_stack s) -> tooBig = false /\ pending (setIndex i top :: below)) ->
  Inv (mkSubtree (st_nfa s) (setIndex i top :: below) (st_roots s) tooBig).
Proof.
  intros Es [I1 I2 I3 (D & I5 & I4 & I6)] Hi Hp. rewrite Es in *. destruct I1 as ([E1 E2 E3 E4 E5] & Hle & Hok). split; cbn [st_stack st_nfa st_roots st_tooBig]; try done.
  - split_and!; [split; try done|cbn; lia|done]. intros j c Hj. destruct (E5 j c Hj). split; [done|]. cbn. lia.
  - exists D. split; [by apply Pure_setIndex|]. split; [destruct I4 as [?|?]; [by left|right; by apply Hp]|]. intros Hs. eapply World_weaken; [apply fwOf_setIndex|done|done|by apply I6].
Qed.

(** An edge is looked at. *)
Lemma step_edge max s top below t child : Inv s -> st_stack s = top :: below -> activeEdges top !! edgeIndex top = Some (t, child) ->
  exists s', subtreeStep targetOrder actionOrder max s = Some (inl s') /\ Inv s' /\ work (st_stack s') < work (st_stack s) /\ extends (st_nfa s) (st_nfa s').
Proof.
  intros HI Es E. pose proof HI as [I1 I2 I3 (D & I5 & I4 & I6)]. unfold subtreeStep. rewrite Es in *. rewrite E. pose proof (lookup_lt_Some _ _ _ E) as Hlt. pose proof (vertexCount_pos child) as Hpos.
  pose proof I1 as (Htop & Hle & Hok). destruct (okEntry_term _ _ _ Htop Hlt) as (t' & c' & E' & _ & HL & Hleaf & Htree). rewrite E in E'. injection E' as -> ->.
  pose proof (esum_drop _ _ _ _ E) as Hsum. destruct (st_tooBig s) eqn:Eb.
  - eexists. split; [reflexivity|]. split; [|split; [|done]].
    + apply Inv_setIndex; [done|done|lia|]. rewrite Eb. by intros [? _].
    + cbn [st_stack work setIndex edgeIndex activeEdges]. rewrite drop_all, Hsum. cbn. lia.
  - cbn [mbind option_bind]. destruct (hasFixedLength_correct t') as (fixed & Ef & _); [apply HL|]. rewrite Ef. cbn [mbind option_bind]. destruct fixed.
    + eexists. split; [reflexivity|]. destruct (esum_enter c') as [He1 He2]. split; [|split; [|done]].
      * split; cbn [st_stack st_nfa st_roots st_tooBig].
        -- cbn [okStack okBelow]. split_and!; try done; [by apply enter_ok|]. cbn. lia.
        -- done.
        -- cbn [countIn countBelow] in *. rewrite He2. rewrite (msum_others _ _ _ _ E) in I3. lia.
        -- exists D. split; [by eapply Pure_enter|]. split; [|intros Hs; cbn; eapply World_weaken; [|done|done|by apply I6]; intros i p; by apply fwOf_invalid].
           cbn [countIn countBelow] in *. rewrite He2. rewrite (msum_others _ _ _ _ E) in I4. destruct I4 as [[? ?]|[_ I4]]; [left; split; [lia|done]|right]. split; [done|].
           cbn [pending] in I4 |- *. destruct I4 as [E0|[Hc|Hc]]; [rewrite E0 in Hlt; cbn in Hlt; lia| |right; right; by right].
           apply (candidate_drop _ _ _ _ E) in Hc as [(t0 & [= <-] & _ & Hfl)|Hc]; [|right; right; by left]. apply fixedLeaf_enter in Hfl as [?|?]; [by left|right; by left].
      * cbn [st_stack work workBelow enter edgeIndex]. change (drop 0 (activeEdges (enter c'))) with (activeEdges (enter c')). rewrite Hsum. cbn [enter] in He1. rewrite He1. lia.
    + eexists. split; [reflexivity|]. split; [|split; [|done]].
      * apply Inv_setIndex; [done|done|lia|]. rewrite Es. intros [_ I4']. split; [done|]. cbn [pending setIndex activeEdges edgeIndex] in *.
        destruct I4' as [?|[Hc|Hc]]; [by left| |auto]. apply (candidate_drop _ _ _ _ E) in Hc as [(t0 & [= <-] & Hf & _)|Hc]; [congruence|auto].
      * cbn [st_stack work setIndex edgeIndex activeEdges]. rewrite Hsum. lia.
Qed.

(** A leaf is generated. *)
Lemma step_leaf max s top below : Inv s -> st_stack s = top :: below -> activeEdges top = [] ->
  exists s', subtreeStep targetOrder actionOrder max s = Some (inl s') /\ Inv s' /\ work (st_stack s') < work (st_stack s) /\ extends (st_nfa s) (st_nfa s').
Proof using targets_listed actions_listed.
  intros [I1 I2 I3 (D & I5 & _ & I6)] Es El. unfold subtreeStep. rewrite Es in *. rewrite El. cbn [lookup list_lookup]. pose proof I1 as (Htop & Hle & Hok). rewrite El in Hle. cbn in Hle.
  rewrite option_guard_True by (cbn; lia). cbn [mbind option_bind].
  assert (isValidNode top = false) as Hv by (destruct (isValidNode top) eqn:Hv; [by destruct (entry_valid _ _ _ Htop Hv)|done]). apply isValidNode_none in Hv as Hn.
  cbn [generateInfixUnsuitableForReverseSuffixTree]. cbn in I2. rewrite Hn in I2.
  destruct (infixLoop_spec below Hok (entry_invalid _ _ _ Htop Hv) (st_nfa s) I2) as (nfa1 & invs & src & rest & -> & J1 & J2 & [U1 U2 U3 U4 U5]). cbn [mbind option_bind].
  apply isValidNode_some in J2 as Hb. destruct Hb as [b Eb]. assert (safe nfa1 b) as Sb by (rewrite omap_app in U3; apply Forall_app in U3 as [_ U3]; cbn in U3; rewrite Eb in U3; by inversion U3).
  destruct (generateSuffix_spec top invs src rest (st_roots s) b Hv (entry_leaf _ _ _ Htop El) J2 Eb U4 J1 nfa1 Sb) as (nfa2 & b' & above' & roots' & -> & X1 & X2 & X3 & X4). cbn [mbind option_bind].
  destruct (U5 D) as (D1 & P1 & P2 & P3 & P4). assert (okStack A (top :: invs ++ src :: rest)) as Hok1.
  { destruct Htop as [E1 E2 E3 E4 E5]. cbn [okStack]. split_and!; [split; try done|lia|done]; [congruence|]. intros _. by destruct invs. }
  assert (Pure base T D0 D1 (top :: invs ++ src :: rest)) as HP1.
  { destruct I5 as [Q0 Q1 Q2 Q3 Q4]. assert (forall p a, leftIn base (top :: invs ++ src :: rest) p a <-> leftIn base (top :: below) p a) as HL.
    { intros p a. cbn [leftIn]. by rewrite (same_leftBelow base _ _ p a U2), (same_stackPath base _ _ U2). }
    split.
    - intros p a H. by apply P1, Q0.
    - intros p a [Hd|Hd]%P2; [by apply Q1|]. right. apply Q2. by right.
    - intros p a. rewrite HL. apply Q2.
    - intros p a HT. rewrite HL. destruct (Q3 p a HT); [left; by apply P1|by right].
    - intros f p a [[= -> ->]|Hin]%elem_of_cons Hf Ha; [congruence|]. apply (P3 ltac:(intros g q c Hg; apply (Q4 g); by right) f); done. }
  destruct (leaf_step A base T D0 D1 top invs src rest b' above' Hok1 El J1 J2) as (src' & Ea & Y1 & Y2 & Y3 & Y4 & Y5). cbn [advanceTop]. rewrite Ea. cbn [mbind option_bind].
  eexists. split; [reflexivity|]. cbn [st_stack st_nfa].
  assert (work (top :: invs ++ src :: rest) = work (top :: below) /\ countIn (top :: invs ++ src :: rest) = countIn (top :: below)) as [Hw Hc].
  { cbn [work countIn]. by rewrite (same_workBelow _ _ U2), (same_countBelow _ _ U2). }
  split; [|split; [lia|by etrans]]. split; cbn [st_stack st_nfa st_roots st_tooBig]; [done| |lia|].
  - cbn. rewrite Y1. constructor; [done|]. rewrite omap_app in U3. apply Forall_app in U3 as [_ U3]. cbn in U3. rewrite Eb in U3. apply Forall_cons in U3 as [_ U3]. by eapply Forall_safe_extends.
  - eexists. split; [by apply Y5|]. split.
    { left. split; [lia|]. pose proof (entry_leaf _ _ _ Htop El) as Hacts. destruct (default [] (activeActions top)) as [|x acts] eqn:Eacts; [done|]. eexists _, x. right. split; [reflexivity|]. left. }
    intros Hs. pose proof (small_extends _ _ X1 Hs) as S1. pose proof (small_extends _ _ U1 S1) as S0.
    assert (builders (invs ++ src :: rest) = b :: builders rest) as Hbs.
    { rewrite omap_app. cbn. rewrite Eb. replace (builders invs) with (@nil Builder); [done|]. clear -J1. induction J1 as [|f invs (Hf & _) _ IH]; [done|]. apply isValidNode_none in Hf. cbn. by rewrite Hf. }
    assert (World A nfa1 (b :: builders rest) (fwOf base (invs ++ src :: rest)) (sfxOf (st_roots s)) D1) as HW1.
    { rewrite <- Hbs. apply (P4 S1). specialize (I6 S0). cbn in I6. rewrite Hn in I6. eapply World_weaken; [intros i p; apply (proj2 (fwOf_invalid top _ Hn i p))|done|done|exact I6]. }
    assert (forall x, x ∈ entries base (src :: rest) -> x ∈ entries base (invs ++ src :: rest)) as Hsub by (intros x Hx; clear -Hx; induction invs; [done|by right]).
    specialize (X4 Hs _ _ _ HW1). cbn. rewrite Y1. refine (World_weaken A _ _ _ _ _ _ _ _ _ (fun _ _ _ H => H) (fun _ _ => iff_refl _) (X4 _)).
    + intros i p (f & b0 & [[= -> ->]|Hin]%elem_of_cons & Hf & ->); [|exists f, b0; split; [apply Hsub; by right|done]]. rewrite Y1 in Hf. injection Hf as <-. exists src, b. rewrite X3. split; [apply Hsub; left|done].
    + exists src, b. split; [apply Hsub; left|done].
Qed.

(** A vertex is left. *)
Lemma step_leave max s top below : Inv s -> st_stack s = top :: below -> activeEdges top <> [] -> edgeIndex top = length (activeEdges top) ->
  (exists s', subtreeStep targetOrder actionOrder max s = Some (inl s') /\ Inv s' /\ work (st_stack s') < work (st_stack s) /\ extends (st_nfa s) (st_nfa s'))
  \/ exists nfa v, subtreeStep targetOrder actionOrder max s = Some (inr (nfa, v)) /\ extends (st_nfa s) nfa /\ Result nfa v.
Proof using targets_listed actions_listed.
  intros [I1 I2 I3 (D & I5 & I4 & I6)] Es Hne Hi. unfold subtreeStep. rewrite Es in *. rewrite Hi, lookup_ge_None_2 by lia. rewrite option_guard_True by done. cbn [mbind option_bind].
  destruct (activeEdges top) as [|e es] eqn:Ee; [done|]. rewrite <- Ee in *.
  assert (exists nfa', leave targetOrder actionOrder (st_nfa s) top = Some nfa' /\ extends (st_nfa s) nfa' /\ (small nfa' -> forall fw sfx D,
    World A (st_nfa s) (builders (top :: below)) fw sfx D -> World A nfa' (builders below) fw sfx D)) as (nfa' & El & X1 & X2).
  { unfold leave. destruct (nfaNode top) as [b|] eqn:Eb.
    - cbn in I2. rewrite Eb in I2. apply Forall_cons in I2 as [Sb _]. destruct (finalize_world targetOrder actionOrder targets_listed actions_listed A (st_nfa s) b Sb) as (nfa' & -> & F1 & _ & F3).
      exists nfa'. split_and!; try done. intros Hs fw sfx D' HW. cbn in HW. rewrite Eb in HW. by apply (F3 Hs).
    - exists (st_nfa s). split_and!; try done. intros Hs fw sfx D'. cbn. by rewrite Eb. }
  rewrite El. cbn [mbind option_bind]. rewrite Ee. rewrite <- Ee. destruct below as [|parent below].
  - right. eexists _, _. split; [reflexivity|]. split; [done|]. destruct I1 as (Htop & _ & _).
    assert (countIn [top] < c0 /\ exists p a, D p a) as Hfound.
    { destruct I4 as [?|[_ I4]]; [done|]. cbn [pending] in I4. rewrite Hi, drop_all in I4. destruct I4 as [?|[(? & ? & []%not_elem_of_nil & _)|Hx]]; [done|by inversion Hx]. }
    split.
    + apply okTree_marked, Htop.
    + rewrite vertexCount_marked. destruct Hfound as [Hlt _]. cbn [countIn countBelow] in Hlt. lia.
    + destruct I5 as [Q0 Q1 Q2 Q3 Q4]. assert (forall p a, leftIn base [top] p a <-> exists q, p = base ++ q /\ hasPattern (Vertex (activeActions top) (removeMarked (activeEdges top))) q a) as HL.
      { intros p a. cbn [leftIn leftBelow stackPath]. setoid_rewrite removeMarked_patterns. tauto. }
      exists D. split_and!; [done|done|intros q a Hq; apply Q2, HL; by exists q|intros p a HT; rewrite <- HL; by apply Q3|apply Hfound|]. intros Hs. apply (X2 Hs). pose proof (small_extends _ _ X1 Hs) as S0.
      eapply World_weaken; [done|done|done|by apply I6].
  - left. destruct (pop_step A base T D0 D top parent below I1 Hne Hi) as (parent' & Ep & R1 & R2 & R3 & R4 & R5 & R6). cbn [advanceTop]. rewrite Ep. cbn [mbind option_bind].
    eexists. split; [reflexivity|]. cbn [st_stack st_nfa]. split; [|split; [done|done]]. assert (builders (parent' :: below) = builders (parent :: below)) as Hbs by (cbn; by rewrite R1).
    split; cbn [st_stack st_nfa st_roots st_tooBig]; [done| |lia|].
    + rewrite Hbs. eapply Forall_safe_extends; [exact X1|]. cbn in I2 |- *. destruct (nfaNode top); [by inversion I2|done].
    + exists D. split; [by apply R6|]. split; [destruct I4 as [[? ?]|[? ?]]; [left; split; [lia|done]|right; by split; [|apply R5]]|]. intros Hs. rewrite Hbs. pose proof (small_extends _ _ X1 Hs) as S0. eapply World_weaken; [|done|done|apply (X2 Hs), (I6 S0)].
      intros i p (f & b0 & [[= -> ->]|Hin]%elem_of_cons & Hf & ->); [exists parent, b0; split; [right; left|by rewrite <- R1]|exists f, b0; split; [right; by right|done]].
Qed.

Lemma subtreeLoop_spec max : forall fuel s, Inv s -> work (st_stack s) <= fuel ->
  exists nfa v, subtreeLoop targetOrder actionOrder fuel max s = Some (nfa, v) /\ extends (st_nfa s) nfa /\ Result nfa v.
Proof using targets_listed actions_listed.
  induction fuel as [|fuel IH]; intros s HI Hf.
  - pose proof (inv_ok _ HI) as Hok. destruct (st_stack s); [done|]. cbn in Hf. lia.
  - cbn [subtreeLoop]. destruct (st_stack s) as [|top below] eqn:Es; [pose proof (inv_ok _ HI) as Hok; by rewrite Es in Hok|].
    assert ((exists s', subtreeStep targetOrder actionOrder max s = Some (inl s') /\ Inv s' /\ work (st_stack s') < work (st_stack s) /\ extends (st_nfa s) (st_nfa s'))
      \/ exists nfa v, subtreeStep targetOrder actionOrder max s = Some (inr (nfa, v)) /\ extends (st_nfa s) nfa /\ Result nfa v) as Hstep.
    { destruct (activeEdges top !! edgeIndex top) as [[t child]|] eqn:E; [left; by eapply step_edge|]. apply lookup_ge_None in E. pose proof (inv_ok _ HI) as Hok. rewrite Es in Hok. destruct Hok as (_ & Hle & _).
      destruct (decide (activeEdges top = [])) as [E0|E0]; [left; by eapply step_leaf|]. eapply step_leave; try done. lia. }
    destruct Hstep as [(s' & -> & HI' & Hw & He)|(nfa & v & -> & He & HR)]; cbn [mbind option_bind]; [|by exists nfa, v].
    destruct (IH s' HI') as (nfa & v & E & He' & HR); [rewrite Es in Hw; lia|]. exists nfa, v. split_and!; try done. by etrans.
Qed.

End Subtree.
