(* ===== verification/CombinedURLFiltersProcessCorrect.v ===== *)
(** * CombinedURLFiltersProcessCorrect: the automata of a filter list find its
    patterns

    [processNFAs] takes the tree apart into automata; together they find
    exactly the patterns of the tree, however the tree is cut into parts. *)

From stdpp Require Import gmap.
From S2P Require Import Prelude ASCIICType DFA MutableRangeList NFA NFAToDFA NFAToDFAClosure NFAToDFACorrect ImmutableNFANodeBuilder Term TermLanguage NFAFragment TermGraph CombinedURLFilters CombinedURLFiltersTree CombinedURLFiltersProcess CombinedURLFiltersGraph CombinedURLFiltersSubtree.
Import ImmutableNFANodeBuilder Term CombinedURLFilters CombinedURLFiltersProcess.

#[local] Open Scope nat_scope.

(** ** Trees *)

Lemma PrefixTree_induction (P : PrefixTreeVertex -> Prop) : (forall acts es, Forall (fun e => P e.2) es -> P (Vertex acts es)) -> forall v, P v.
Proof.
  intros H. fix IH 1. intros [acts es]. apply H. induction es as [|[t c] es IHes]; [constructor|]. constructor; [apply IH|exact IHes].
Qed.

(** ** The way along last edges *)

(** The whole tree. *)
Fixpoint plug (stack : list Crumb) (v : PrefixTreeVertex) : PrefixTreeVertex := match stack with [] => v | c :: below => plug below (crumbVertex c v) end.

Fixpoint crumbPath (stack : list Crumb) : list Term := match stack with [] => [] | c :: below => crumbPath below ++ [crumbTerm c] end.

Lemma isEmpty_nil v : isEmpty v = true <-> vertexEdges v = [].
Proof. unfold isEmpty. by destruct (vertexEdges v). Qed.

Lemma crumbVertex_nonempty c v : isEmpty (crumbVertex c v) = false.
Proof. unfold isEmpty, crumbVertex. cbn [vertexEdges]. by destruct (crumbEdges c). Qed.

Lemma lastEdge_spec {R} (none : R) f before t c : forall pre, lastEdge none f pre (before ++ [(t, c)]) = f (pre ++ before) t c.
Proof.
  induction before as [|[t' c'] before IH]; intros pre; [cbn; by rewrite app_nil_r|]. cbn [app]. rewrite (cons_middle _ pre), app_assoc, <- IH. by destruct before as [|[]].
Qed.

Lemma plug_app s1 s2 v : plug (s1 ++ s2) v = plug s2 (plug s1 v).
Proof. revert v. induction s1 as [|c s1 IH]; intros v; [done|]. apply IH. Qed.

Lemma traverse_spec v : forall stack, exists crumbs leaf, traverse v stack = (crumbs ++ stack, leaf) /\ plug crumbs leaf = v /\ isEmpty leaf = true /\ (crumbs = [] -> isEmpty v = true).
Proof.
  induction v as [acts es IH] using PrefixTree_induction. intros stack. destruct es as [|[t c] es _] using rev_ind; [exists [], (Vertex acts []); by split_and!|].
  cbn [traverse]. rewrite lastEdge_spec. cbn [app]. apply Forall_app in IH as [_ IH]. apply Forall_cons in IH as [IH _]. cbn [snd] in IH. destruct (IH (mkCrumb acts es t :: stack)) as (crumbs & leaf & -> & Hp & Hl & _).
  exists (crumbs ++ [mkCrumb acts es t]), leaf. split_and!; [by rewrite <- app_assoc|by rewrite plug_app, Hp|done|by destruct crumbs].
Qed.

(** ** Patterns, sizes and well-formedness along the way *)

Lemma crumbVertex_patterns c v q a : hasPattern (crumbVertex c v) q a <-> hasPattern (Vertex (crumbActions c) (crumbEdges c)) q a \/ exists q', q = crumbTerm c :: q' /\ hasPattern v q' a.
Proof.
  destruct q as [|t q]; [rewrite !hasPattern_nil; naive_solver|]. rewrite !hasPattern_cons. cbn [crumbVertex vertexEdges]. setoid_rewrite elem_of_app. setoid_rewrite list_elem_of_singleton. split.
  - intros (child & [Hin|[= -> ->]] & Hp); [left; eauto|right; eauto].
  - intros [(child & Hin & Hp)|(q' & [= -> ->] & Hp)]; eauto.
Qed.

(** The patterns of the edges that are not last ones. *)
Fixpoint crumbsHave (stack : list Crumb) (p : list Term) (a : Z) : Prop :=
  match stack with
  | [] => False
  | c :: below => (exists q, p = crumbPath below ++ q /\ hasPattern (Vertex (crumbActions c) (crumbEdges c)) q a) \/ crumbsHave below p a
  end.

Lemma plug_patterns stack : forall v p a, hasPattern (plug stack v) p a <-> (exists q, p = crumbPath stack ++ q /\ hasPattern v q a) \/ crumbsHave stack p a.
Proof.
  induction stack as [|c below IH]; intros v p a; cbn [plug crumbPath crumbsHave]; [naive_solver|]. rewrite IH. setoid_rewrite crumbVertex_patterns. split.
  - intros [(q & -> & [H|(q' & -> & H)])|H]; [right; left; eauto|left; exists q'; by rewrite <- app_assoc|right; by right].
  - intros [(q & -> & H)|[(q & -> & H)|H]]; [left; exists (crumbTerm c :: q); rewrite <- app_assoc; eauto|left; eauto|by right].
Qed.

(** The patterns at the vertices of the way, the root left out. *)
Definition prefixHas (prefix : list (Term * list Z)) (p : list Term) (a : Z) : Prop :=
  exists pre t acts post, prefix = pre ++ (t, acts) :: post /\ a ∈ acts /\ p = pre.*1 ++ [t].

Lemma prefixHas_finds prefix w a : prefixFinds prefix w a <-> exists p, prefixHas prefix p a /\ cats matches p w.
Proof.
  split; [intros (pre & t & acts & post & E & Ha & Hm); exists (pre.*1 ++ [t]); split; [by exists pre, t, acts, post|done]|]. intros (p & (pre & t & acts & post & E & Ha & ->) & Hm). by exists pre, t, acts, post.
Qed.

Lemma prefixHas_snoc past t acts p a : prefixHas (past ++ [(t, acts)]) p a <-> prefixHas past p a \/ a ∈ acts /\ p = past.*1 ++ [t].
Proof.
  unfold prefixHas. split.
  - intros (pre & t' & acts' & post & E & H). destruct post as [|x post _] using rev_ind.
    + apply app_inj_tail in E as [-> [= -> ->]]. by right.
    + left. rewrite app_comm_cons, app_assoc in E. apply app_inj_tail in E as [-> _]. by exists pre, t', acts', post.
  - intros [(pre & t' & acts' & post & -> & H)|H]; [exists pre, t', acts', (post ++ [(t, acts)]); by rewrite <- app_assoc|by exists past, t, acts, []].
Qed.

Lemma prefixOf_path stack acts : (prefixOf stack acts).*1 = crumbPath stack.
Proof. revert acts. induction stack as [|c below IH]; intros acts; [done|]. cbn [prefixOf crumbPath]. by rewrite fmap_app, IH. Qed.

Lemma prefixHas_cons c below acts p a : prefixHas (prefixOf (c :: below) acts) p a <-> prefixHas (prefixOf below (crumbActions c)) p a \/ a ∈ default [] acts /\ p = crumbPath (c :: below).
Proof. cbn [prefixOf crumbPath]. by rewrite prefixHas_snoc, prefixOf_path. Qed.

Lemma prefixHas_plug stack : forall v p a, prefixHas (prefixOf stack (vertexActions v)) p a -> hasPattern (plug stack v) p a.
Proof.
  induction stack as [|c below IH]; intros v p a; [by intros ([|] & ? & ? & ? & [=] & _)|]. rewrite prefixHas_cons. intros [H|[Ha ->]].
  - apply (IH (crumbVertex c v)) in H. exact H.
  - apply plug_patterns. left. exists []. rewrite app_nil_r. split; [done|]. by apply hasPattern_nil.
Qed.

Lemma cleanUp_sub stack : forall v p a, hasPattern (cleanUp stack v) p a -> hasPattern (plug stack v) p a.
Proof.
  induction stack as [|c below IH]; intros v p a; [done|]. cbn [cleanUp plug]. intros H%IH. destruct (isEmpty v); [|done]. apply plug_patterns in H as [(q & -> & H)|H]; apply plug_patterns; [left|by right].
  exists q. split; [done|]. apply crumbVertex_patterns. by left.
Qed.

(** Only actions of the way go. *)
Lemma cleanUp_keeps stack : forall v p a, hasPattern (plug stack v) p a -> hasPattern (cleanUp stack v) p a \/ prefixHas (prefixOf stack (vertexActions v)) p a.
Proof.
  induction stack as [|c below IH]; intros v p a; [by left|]. cbn [cleanUp plug]. rewrite prefixHas_cons. destruct (isEmpty v) eqn:Ev.
  - intros H. apply plug_patterns in H. assert (hasPattern (plug below (Vertex (crumbActions c) (crumbEdges c))) p a \/ a ∈ default [] (vertexActions v) /\ p = crumbPath (c :: below)) as [H'|H'].
    { destruct H as [(q & -> & [H|(q' & -> & H)]%crumbVertex_patterns)|H]; [left; apply plug_patterns; left; eauto| |left; apply plug_patterns; by right]. right. apply isEmpty_nil in Ev.
      destruct q' as [|t q']; [by apply hasPattern_nil in H|]. apply hasPattern_cons in H as (child & Hin & _). rewrite Ev in Hin. by apply not_elem_of_nil in Hin. }
    + apply IH in H' as [?|?]; [by left|right; by left].
    + right. by right.
  - intros H. apply IH in H as [?|?]; [by left|right; by left].
Qed.

Lemma crumbVertex_count c v : vertexCount (crumbVertex c v) = vertexCount (Vertex (crumbActions c) (crumbEdges c)) + vertexCount v.
Proof. cbn [crumbVertex vertexCount]. rewrite fmap_app, list_sum_app. cbn. lia. Qed.

Lemma plug_count stack : forall v v', vertexCount v <= vertexCount v' -> vertexCount (plug stack v) <= vertexCount (plug stack v') /\ (vertexCount v < vertexCount v' -> vertexCount (plug stack v) < vertexCount (plug stack v')).
Proof.
  induction stack as [|c below IH]; intros v v' H; [done|]. cbn [plug]. destruct (IH (crumbVertex c v) (crumbVertex c v')) as [H1 H2]; [rewrite !crumbVertex_count; lia|]. split; [done|].
  intros Hlt. apply H2. rewrite !crumbVertex_count. lia.
Qed.

Lemma cleanUp_count stack : forall v, vertexCount (cleanUp stack v) <= vertexCount (plug stack v) /\ (stack <> [] -> isEmpty v = true -> vertexCount (cleanUp stack v) < vertexCount (plug stack v)).
Proof.
  induction stack as [|c below IH]; intros v; [done|]. cbn [cleanUp plug]. pose proof (vertexCount_pos v) as Hp. destruct (isEmpty v).
  - destruct (IH (Vertex (crumbActions c) (crumbEdges c))) as [H _]. destruct (plug_count below (Vertex (crumbActions c) (crumbEdges c)) (crumbVertex c v)) as [H1 H2]; [rewrite crumbVertex_count; lia|].
    specialize (H2 ltac:(rewrite crumbVertex_count; lia)). split; intros; lia.
  - destruct (IH (crumbVertex c v)) as [H _]. split; [done|]. done.
Qed.

Lemma cleanUp_actions stack : forall v, vertexActions (cleanUp stack v) = vertexActions (plug stack v).
Proof.
  assert (forall v v', vertexActions v = vertexActions v' -> vertexActions (cleanUp stack v) = vertexActions (plug stack v')) as H; [|by intros v; apply H].
  induction stack as [|c below IH]; intros v v' E; [done|]. cbn [cleanUp plug]. apply IH. by destruct (isEmpty v).
Qed.

Section Ok.

Context (A : Z -> Prop).

Definition okChildren (es : list (Term * PrefixTreeVertex)) : Prop := forall t c, (t, c) ∈ es -> okLabels A t /\ okLeaf c /\ okTree A c.

Lemma okTree_children acts es : okTree A (Vertex acts es) <-> okChildren es.
Proof. split; [intros H; by inversion H|by constructor]. Qed.

Lemma okTree_crumb c v : okTree A (crumbVertex c v) <-> okChildren (crumbEdges c) /\ okLabels A (crumbTerm c) /\ okLeaf v /\ okTree A v.
Proof.
  unfold crumbVertex. rewrite okTree_children. unfold okChildren. setoid_rewrite elem_of_app. setoid_rewrite list_elem_of_singleton. split.
  - intros H. split; [eauto|]. apply (H (crumbTerm c) v). by right.
  - intros [H1 H2] t c' [Hin|[= -> ->]]; [by apply H1|done].
Qed.

Definition okCrumbs (stack : list Crumb) : Prop := Forall (fun c => okChildren (crumbEdges c) /\ okLabels A (crumbTerm c)) stack.

Lemma okTree_plug stack : forall v, okTree A (plug stack v) -> okCrumbs stack /\ okTree A v /\ (stack <> [] -> okLeaf v).
Proof.
  induction stack as [|c below IH]; intros v H; [split_and!; [constructor|done|done]|]. destruct (IH _ H) as (H1 & (H2 & H3 & H4 & H5)%okTree_crumb & _). split; [by constructor|done].
Qed.

Lemma okTree_cleanUp stack : forall v, okCrumbs stack -> okTree A v -> okTree A (cleanUp stack v).
Proof.
  induction stack as [|c below IH]; intros v Hc Hv; [done|]. apply Forall_cons in Hc as [[H1 H2] Hc]. cbn [cleanUp]. apply IH; [done|]. destruct (isEmpty v) eqn:E; [by apply okTree_children|].
  apply okTree_crumb. split_and!; try apply H2; try done. intros E'. apply isEmpty_nil in E'. congruence.
Qed.

Lemma okPrefix_prefixOf stack acts : okCrumbs stack -> okPrefix A (prefixOf stack acts).
Proof.
  revert acts. induction stack as [|c below IH]; intros acts H; [constructor|]. apply Forall_cons in H as [[_ H2] H]. cbn [prefixOf]. apply Forall_app. split; [by apply IH|]. constructor; [done|constructor].
Qed.

Lemma findPrefixRoot_spec stack : forall v, okTree A (plug stack v) -> fixedLeaf v = true ->
  exists stack' v', findPrefixRoot stack v = Some (stack', v') /\ plug stack' v' = plug stack v /\ fixedLeaf v' = true /\ (stack <> [] -> stack' <> [] \/ isEmpty v' = false).
Proof.
  induction stack as [|c below IH]; intros v Hok Hl; cbn [findPrefixRoot]; [by exists [], v|]. destruct (okTree_plug (c :: below) v Hok) as (Hc & _ & _). apply Forall_cons in Hc as [[_ HL] _].
  destruct (hasFixedLength_correct (crumbTerm c) (proj1 HL)) as (fixed & Ef & _). rewrite Ef. cbn [mbind option_bind]. destruct fixed.
  - destruct (IH (crumbVertex c v) Hok) as (stack' & v' & E & H1 & H2 & H3).
    { unfold crumbVertex. cbn [fixedLeaf]. destruct (crumbEdges c ++ _) eqn:E; [done|]. rewrite <- E. apply existsb_exists. exists (crumbTerm c, v). split; [apply in_app_iff; right; by left|].
      by rewrite bool_decide_eq_true_2, Hl by done. }
    exists stack', v'. split_and!; try done. intros _. destruct below as [|c' below]; [|by apply H3]. cbn [findPrefixRoot] in E. injection E as <- <-. right. apply crumbVertex_nonempty.
  - exists (c :: below), v. split_and!; try done. by left.
Qed.

End Ok.

(** ** One automaton *)

Section Process.

Context (targetOrder actionOrder : gset Z -> list Z).
Hypothesis targets_listed : forall s, targetOrder s ≡ₚ elements s.
Hypothesis actions_listed : forall s, actionOrder s ≡ₚ elements s.
Context (A : Z -> Prop).

(** The prefix as an automaton whose last node is live. *)
Lemma prefix_world nfa b past : safe nfa b -> valid nfa 0 -> PInv A nfa b past ->
  World A nfa [b] (fun i p => i = m_nodeId b /\ p = past.*1) (fun _ _ _ => False) (prefixHas past).
Proof.
  intros Hs H0 [P1 P2 P3 P4 P5 P6 P7]. assert (forall i l j, gedge nfa [b] i l j <-> nedge nfa i l j) as HE.
  { intros i l j. unfold gedge. setoid_rewrite list_elem_of_singleton. split; [|by left]. intros [?|(b' & -> & _ & Hj)]; [done|by apply P2 in Hj]. }
  assert (forall i w k, path (gedge nfa [b]) i w k <-> path (nedge nfa) i w k) as HP by (intros i w k; split; apply path_sub; intros ? ? ?; apply HE).
  split; try done.
  - split; try done.
    + cbn. apply NoDup_singleton.
    + by constructor.
    + constructor; [|constructor]. intros l j Hj. by apply P2 in Hj.
    + intros b' l j ->%list_elem_of_singleton. apply P3.
    + intros b' a ->%list_elem_of_singleton. apply P4.
  - intros i p [-> _]. apply Hs.
  - intros i c j Hij. apply HE in Hij. by apply (P7 i c j).
  - split; try done.
    + intros i p [-> ->] w. by rewrite HP.
    + intros w a. rewrite <- prefixHas_finds, <- P6. unfold gact. setoid_rewrite list_elem_of_singleton. setoid_rewrite HP. naive_solver.
Qed.

Lemma World_finds nfa D : World A nfa [] (fun _ _ => False) (fun _ _ _ => False) D ->
  okNFA nfa /\ (forall w a, nfaFinds nfa w a <-> exists p, D p a /\ cats matches p w) /\ forall i c j, step nfa c i j -> A c.
Proof.
  intros [W1 W2 _ _ W5 [_ _ _ S4]]. assert (forall i l j, gedge nfa [] i l j <-> nedge nfa i l j) as HE.
  { intros i l j. unfold gedge. split; [|by left]. intros [?|(b' & []%not_elem_of_nil & _)]. done. }
  split_and!.
  - apply okRows_okNFA; [|apply W1]. intros E. rewrite valid_count in W2. unfold count in W2. rewrite E in W2. cbn in W2. lia.
  - intros w a. rewrite <- S4. unfold nfaFinds, gact. setoid_rewrite <- path_run. split.
    + intros (k & acts & Hk & Ha & Hin). exists k. split; [eapply path_sub; [|exact Hk]; intros ? ? ?; apply HE|]. left. by exists acts.
    + intros (k & Hk & [(acts & Ha & Hin)|(b & []%not_elem_of_nil & _)]). exists k, acts. split; [|done]. eapply path_sub; [|exact Hk]. intros ? ? ?. apply HE.
  - intros i c j Hs. apply (W5 i c j). left. exact Hs.
Qed.

(** What an automaton of the tree [root] with the rest [root'] is. *)
Record Piece (root : PrefixTreeVertex) (nfa : NFA.NFA) (root' : PrefixTreeVertex) : Prop := {
  piece_tree : okTree A root';
  piece_actions : actionsGet root' = [];
  piece_count : vertexCount root' < vertexCount root;
  piece_patterns : exists D, (forall p a, D p a -> hasPattern root p a) /\ (forall p a, hasPattern root' p a -> hasPattern root p a) /\ (forall p a, hasPattern root p a -> D p a \/ hasPattern root' p a) /\ (exists p a, D p a)
    /\ (small nfa -> okNFA nfa /\ (forall w a, nfaFinds nfa w a <-> exists p, D p a /\ cats matches p w) /\ forall i c j, step nfa c i j -> A c) }.

Lemma generateNFAForSubtree_spec max nfa b base D0 v : safe nfa b -> okTree A v -> fixedLeaf v = true -> (forall a, a ∈ actionsGet v -> D0 base a) ->
  (small nfa -> World A nfa [b] (fun i p => i = m_nodeId b /\ p = base) (fun _ _ _ => False) D0) ->
  exists nfa' v', generateNFAForSubtree targetOrder actionOrder nfa b v max = Some (nfa', v') /\ extends nfa nfa' /\ okTree A v'
    /\ (isEmpty v = true -> v' = v) /\ (isEmpty v = false -> vertexCount v' < vertexCount v)
    /\ exists D, (forall p a, D0 p a -> D p a) /\ (forall p a, D p a -> D0 p a \/ exists q, p = base ++ q /\ hasPattern v q a) /\ (forall q a, hasPattern v' q a -> hasPattern v q a)
       /\ (forall q a, hasPattern v q a -> D (base ++ q) a \/ hasPattern v' q a) /\ ((isEmpty v = true -> exists a, a ∈ actionsGet v) -> exists p a, D p a) /\ (small nfa' -> World A nfa' [] (fun _ _ => False) (fun _ _ _ => False) D).
Proof using targets_listed actions_listed.
  intros Hs Hok Hl HD0 HW. unfold generateNFAForSubtree. destruct (isEmpty v) eqn:Ev.
  - destruct (finalize_world targetOrder actionOrder targets_listed actions_listed A nfa b Hs) as (nfa' & -> & F1 & _ & F3). cbn [mbind option_bind]. exists nfa', v. split_and!; try done.
    exists D0. split_and!; [done|by left|done|by right|intros Ha; destruct (Ha eq_refl) as [a Ha']; exists base, a; by apply HD0|]. intros S1. apply (F3 S1). eapply World_weaken; [done|done|done|]. apply HW. by eapply small_extends.
  - set (s := mkSubtree nfa [setNode b (enter v)] ∅ false). set (T := fun p a => exists q, p = base ++ q /\ hasPattern v q a). destruct (esum_enter v) as [E1 E2]. pose proof (vertexCount_pos v) as Hp.
    assert (activeEdges (enter v) <> []) as Hne. { destruct v as [acts es]. cbn. destruct es; [done|]. done. }
    assert (Inv A base T D0 (vertexCount v) s) as HI.
    { split; unfold s; cbn [st_stack st_nfa st_roots st_tooBig].
      - cbn [okStack okBelow]. split_and!; [|cbn; lia|done]. split; cbn [setNode activeEdges activeActions edgeIndex].
        + by apply okTree_enter.
        + done.
        + intros _. split; [done|constructor].
        + done.
        + intros j c Hj. apply list_elem_of_lookup_2, activeEdges_enter in Hj as (t & [=] & _).
      - by constructor.
      - cbn [countIn countBelow]. change (activeEdges (setNode b (enter v))) with (activeEdges (enter v)). lia.
      - exists D0. split.
        + assert (forall p a, leftIn base [setNode b (enter v)] p a <-> T p a) as HL.
          { intros p a. cbn [leftIn leftBelow stackPath]. unfold T. setoid_rewrite enter_patterns. change (activeEdges (setNode b (enter v))) with (activeEdges (enter v)).
            change (activeActions (setNode b (enter v))) with (activeActions (enter v)). tauto. }
          split; [done|by left|intros p a; apply HL|intros p a HT; right; by apply HL|]. intros f p a [[= -> ->]|[]%not_elem_of_nil]%elem_of_cons _ Ha. apply HD0. by destruct v.
        + split; [right; split; [done|]; cbn [pending]; change (activeEdges (setNode b (enter v))) with (activeEdges (enter v)); right; left; by apply fixedLeaf_enter in Hl as [?|?]|]. intros S0. eapply World_weaken; [| |done|by apply HW].
          * intros i p (f & b0 & [[= -> ->]|[]%not_elem_of_nil]%elem_of_cons & Hf & ->). by injection Hf as <-.
          * intros n p l (u & Hu & _). by apply (lookup_empty_Some (M := gmap (list Z)) l u) in Hu. }
    destruct (subtreeLoop_spec targetOrder actionOrder targets_listed actions_listed A base T D0 (vertexCount v) max (2 * vertexCount v) s HI) as (nfa' & v' & -> & X1 & [X2 X3 (D & X4 & X5 & X6 & X7 & X9 & X8)]).
    { unfold s. cbn [st_stack work workBelow]. change (drop (edgeIndex (setNode b (enter v))) (activeEdges (setNode b (enter v)))) with (activeEdges (enter v)). lia. }
    exists nfa', v'. split_and!; try done. exists D. split_and!; try done.
    + intros q a Hq. destruct (X6 q a Hq) as (q' & E & H). apply app_inv_head in E as <-. done.
    + intros q a Hq. destruct (X7 (base ++ q) a) as [?|(q' & E & H)]; [by exists q|by left|right]. by apply app_inv_head in E as <-.
Qed.

Lemma nextNFA_spec max root : okTree A root -> actionsGet root = [] ->
  (isEmpty root = true /\ nextNFA targetOrder actionOrder max root = Some None)
  \/ exists nfa root', nextNFA targetOrder actionOrder max root = Some (Some (nfa, root')) /\ Piece root nfa root'.
Proof using targets_listed actions_listed.
  intros Hok Hact. unfold nextNFA. destruct (traverse_spec root []) as (crumbs & leaf & -> & Hplug & Hleaf & Hc). rewrite app_nil_r. destruct crumbs as [|c0 crumbs0]; [left; split; [by apply Hc|done]|right].
  set (crumbs := c0 :: crumbs0) in *. change (match crumbs with [] => Some None | _ :: _ => ?x end) with x.
  destruct (findPrefixRoot_spec A crumbs leaf) as (stack & v & -> & Hplug' & Hfix & Hprog); [by rewrite Hplug|destruct leaf as [acts es]; apply isEmpty_nil in Hleaf; cbn in Hleaf; by subst|]. cbn [mbind option_bind].
  rewrite Hplug in Hplug'. rewrite <- Hplug' in Hok. destruct (okTree_plug A stack v Hok) as (Hcs & Hv & Hlf).
  pose proof (newBuilder_spec emptyNFA) as [_ _ A3 _ _ A6 _ _ _]. pose proof (PInv_start A) as A7. destruct (newBuilder emptyNFA) as [nfa b]. cbn [fst snd] in *.
  destruct (generatePrefix_spec targetOrder actionOrder A targets_listed actions_listed (prefixOf stack (vertexActions v)) (okPrefix_prefixOf A stack _ Hcs) nfa b A3 A6) as (nfa1 & b1 & -> & B1 & B2 & B3 & B4). cbn [mbind option_bind].
  destruct (generateNFAForSubtree_spec max nfa1 b1 (crumbPath stack) (prefixHas (prefixOf stack (vertexActions v))) v) as (nfa2 & v' & -> & C1 & C2 & C3 & C4 & (D & D1 & D2 & D3 & D4 & D6 & D5)); [done|done|done| | |].
  { intros a Ha. destruct stack as [|c below]; [|apply prefixHas_cons; by right]. cbn [plug] in Hplug'. rewrite Hplug', Hact in Ha. by apply not_elem_of_nil in Ha. }
  { intros S1. destruct (A7 (small_extends _ _ B1 S1)) as [H0 HP]. specialize (B4 S1 [] H0 HP). cbn [app] in B4. rewrite <- (prefixOf_path stack (vertexActions v)). apply prefix_world; [done| |done]. by eapply valid_extends. }
  cbn [mbind option_bind]. eexists _, _. split; [reflexivity|].
  assert (vertexCount (cleanUp stack v') < vertexCount root) as Hcount.
  { rewrite <- Hplug'. destruct (cleanUp_count stack v') as [H1 H2]. destruct (isEmpty v) eqn:Ev.
    - rewrite C3 in * by done. destruct (Hprog ltac:(done)) as [?|?]; [|done]. by apply H2.
    - destruct (plug_count stack v' v) as [H3 H4]; [specialize (C4 eq_refl); lia|]. specialize (H4 (C4 eq_refl)). lia. }
  assert (forall p a, prefixHas (prefixOf stack (vertexActions v')) p a -> prefixHas (prefixOf stack (vertexActions v)) p a) as Hpre.
  { intros p a. destruct stack as [|c below]; [done|]. rewrite !prefixHas_cons. intros [?|[Ha ->]]; [by left|right]. split; [|done]. apply (hasPattern_nil v), D3, hasPattern_nil. done. }
  assert (forall p a, hasPattern (cleanUp stack v') p a -> hasPattern root p a) as Hsub.
  { intros p a H%cleanUp_sub. rewrite <- Hplug'. apply plug_patterns in H as [(q & -> & H)|H]; apply plug_patterns; [left; eauto|by right]. }
  split; [by apply okTree_cleanUp| |done|].
  - apply elem_of_nil_inv. intros a Ha. apply hasPattern_nil, Hsub, hasPattern_nil in Ha. rewrite Hact in Ha. by apply not_elem_of_nil in Ha.
  - exists D. split_and!; [|done| | |intros S2; by apply World_finds, D5].
    + intros p a [H|(q & -> & H)]%D2; rewrite <- Hplug'; [by apply prefixHas_plug|]. apply plug_patterns. left. eauto.
    + intros p a H. rewrite <- Hplug' in H. assert (D p a \/ hasPattern (plug stack v') p a) as [?|H'].
      { apply plug_patterns in H as [(q & -> & H)|H]; [destruct (D4 q a H); [by left|]|]; right; apply plug_patterns; [left; eauto|by right]. }
      { by left. }
      apply cleanUp_keeps in H' as [?|H']; [by right|left]. by apply D1, Hpre.
    + apply D6. intros He. destruct (Hprog ltac:(done)) as [Hst|?]; [|congruence]. apply isEmpty_nil in He. specialize (Hlf Hst He). destruct (actionsGet v) as [|a acts]; [done|]. exists a. left.
Qed.

(** ** All automata *)

Lemma processLoop_spec max : forall fuel root, okTree A root -> actionsGet root = [] -> vertexCount root <= fuel ->
  exists nfas root', processLoop targetOrder actionOrder fuel max root = Some (nfas, root') /\ isEmpty root' = true
    /\ (Forall small nfas -> Forall (fun nfa => (okNFA nfa /\ forall i c j, step nfa c i j -> A c) /\ exists p a, hasPattern root p a /\ forall w, cats matches p w -> nfaFinds nfa w a) nfas
        /\ forall w a, (exists nfa, nfa ∈ nfas /\ nfaFinds nfa w a) <-> treeFinds root w a).
Proof using targets_listed actions_listed.
  induction fuel as [|fuel IH]; intros root Hok Hact Hf; [pose proof (vertexCount_pos root); lia|]. cbn [processLoop]. destruct (nextNFA_spec max root Hok Hact) as [[He ->]|(nfa & root' & -> & [P1 P2 P3 (D & P4 & P5 & P6 & P8 & P7)])].
  - cbn [mbind option_bind]. exists [], root. split_and!; try done. intros _. split; [constructor|]. intros w a. split; [by intros (? & []%not_elem_of_nil & _)|].
    intros (p & Hp & _). exfalso. destruct p as [|t p]; [apply hasPattern_nil in Hp; rewrite Hact in Hp; by apply not_elem_of_nil in Hp|].
    apply hasPattern_cons in Hp as (c & Hin & _). apply isEmpty_nil in He. rewrite He in Hin. by apply not_elem_of_nil in Hin.
  - cbn [mbind option_bind]. destruct (IH root' P1 P2 ltac:(lia)) as (nfas & rest & -> & I1 & I2). cbn [mbind option_bind]. eexists _, _. split; [reflexivity|]. split; [done|].
    intros [S1 S2]%Forall_cons. destruct (I2 S2) as [J1 J2]. destruct (P7 S1) as (K1 & K2 & K3). split.
    { constructor; [split; [done|]; destruct P8 as (p & a & Hd); exists p, a; split; [by apply P4|]; intros w Hw; apply K2; eauto|]. eapply Forall_impl; [exact J1|]. intros nfa' [? (p & a & Hp & Hw)]. split; [done|]. exists p, a. split; [by apply P5|done]. }
    intros w a. unfold treeFinds in *. split.
    + intros (nfa' & [->|Hin]%elem_of_cons & Hw); [apply K2 in Hw as (p & ? & ?); exists p; eauto|]. destruct (proj1 (J2 w a)) as (p & ? & ?); [eauto|]. exists p. eauto.
    + intros (p & Hp & Hm). apply P6 in Hp as [Hp|Hp]; [exists nfa; split; [by left|]; apply K2; eauto|]. destruct (proj2 (J2 w a)) as (nfa' & ? & ?); [eauto|]. exists nfa'. split; [by right|done].
Qed.

Lemma processNFAs_spec max root : okTree A root -> actionsGet root = [] ->
  exists nfas root', processNFAs targetOrder actionOrder max root = Some (nfas, root') /\ isEmpty root' = true
    /\ (Forall small nfas -> Forall (fun nfa => (okNFA nfa /\ forall i c j, step nfa c i j -> A c) /\ exists p a, hasPattern root p a /\ forall w, cats matches p w -> nfaFinds nfa w a) nfas
        /\ forall w a, (exists nfa, nfa ∈ nfas /\ nfaFinds nfa w a) <-> treeFinds root w a).
Proof using targets_listed actions_listed. intros Hok Hact. by apply processLoop_spec. Qed.

End Process.

(** ** Trees of patterns *)

(** The patterns are added one after the other. *)
Fixpoint addPatterns (patterns : list (Z * list Term)) (root : PrefixTreeVertex) : option PrefixTreeVertex :=
  match patterns with
  | [] => Some root
  | (actionId, pattern) :: patterns => root ← addPattern actionId pattern root; addPatterns patterns root
  end.

Section Build.

Context (A : Z -> Prop).

Lemma followEdge_ok t next es : okLabels A t -> (forall v, okTree A v -> okLeaf (next v) /\ okTree A (next v)) -> okChildren A es -> okChildren A (followEdge t next es).
Proof.
  intros Ht Hn. induction es as [|[t' c] es IH]; intros Hes t0 c0; cbn [followEdge].
  - intros [= -> ->]%list_elem_of_singleton. split; [done|]. apply Hn. constructor. by intros ? ? []%not_elem_of_nil.
  - assert (okChildren A es) as Hes' by (intros ? ? ?; apply Hes; by right). destruct (Term_eqb t' t) eqn:E.
    + intros [[= -> ->]|Hin]%elem_of_cons; [|by apply Hes']. apply Term_eqb_eq in E as ->. split; [done|]. apply Hn. apply (Hes t c). by left.
    + intros [[= -> ->]|Hin]%elem_of_cons; [apply Hes; by left|by apply IH].
Qed.

Lemma followEdge_nonempty t next es : followEdge t next es <> [].
Proof. destruct es as [|[t' c] es]; cbn; [done|]. by destruct (Term_eqb t' t). Qed.

Lemma extendTree_ok actionId pattern : Forall (okLabels A) pattern -> forall v, okTree A v -> okLeaf (extendTree actionId pattern v) /\ okTree A (extendTree actionId pattern v).
Proof.
  induction 1 as [|t pattern Ht _ IH]; intros [acts es] Hv; cbn [extendTree].
  - split; [|by inversion Hv; constructor]. intros _. unfold addAction, actionsGet. cbn [vertexActions default id]. case_bool_decide as Hin; [|by destruct (default [] acts)].
    intros E. unfold actionsGet in Hin. cbn [vertexActions] in Hin. cbn in E. rewrite E in Hin. by apply not_elem_of_nil in Hin.
  - cbn [vertexActions vertexEdges]. split; [intros E; by apply followEdge_nonempty in E|]. apply okTree_children. apply okTree_children in Hv. apply followEdge_ok; [done|exact IH|done].
Qed.

Lemma addPattern_ok actionId pattern root : pattern <> [] -> Forall (okLabels A) pattern -> okTree A root -> actionsGet root = [] ->
  exists root', addPattern actionId pattern root = Some root' /\ okTree A root' /\ actionsGet root' = [] /\ forall p a, hasPattern root' p a <-> hasPattern root p a \/ p = pattern /\ a = actionId.
Proof.
  intros Hp Hl Hok Hact. unfold addPattern. rewrite option_guard_True by done. cbn [mbind option_bind]. eexists. split; [reflexivity|]. split; [by apply extendTree_ok|]. split; [by destruct pattern|].
  intros p a. apply extendTree_patterns.
Qed.

Lemma addPatterns_ok patterns : Forall (fun x => x.2 <> [] /\ Forall (okLabels A) x.2) patterns -> forall root, okTree A root -> actionsGet root = [] ->
  exists root', addPatterns patterns root = Some root' /\ okTree A root' /\ actionsGet root' = [] /\ forall p a, hasPattern root' p a <-> hasPattern root p a \/ (a, p) ∈ patterns.
Proof.
  induction 1 as [|[actionId pattern] patterns [H1 H2] _ IH]; intros root Hok Hact; cbn [addPatterns fst snd] in *.
  - exists root. split_and!; try done. intros p a. split; [by left|]. intros [?|[]%not_elem_of_nil]. done.
  - destruct (addPattern_ok actionId pattern root H1 H2 Hok Hact) as (root1 & -> & A1 & A2 & A3). cbn [mbind option_bind]. destruct (IH root1 A1 A2) as (root' & -> & B1 & B2 & B3). exists root'. split_and!; try done.
    intros p a. rewrite B3, A3, elem_of_cons. naive_solver.
Qed.

Lemma emptyFilters_ok : okTree A emptyFilters /\ actionsGet emptyFilters = [].
Proof. split; [|done]. constructor. by intros ? ? []%not_elem_of_nil. Qed.

End Build.

(** C37: However large the automata may become ([maxNFASize]), taking the tree of
    any list of patterns apart into automata ends without a failed assertion
    and leaves an empty tree; and when the arrays of the automata have fewer
    than 2^32 entries, an action is found after a string by one of them exactly
    when the string matches a pattern that was added with the action.  Sharing
    prefixes in the tree and suffixes in the automata loses and adds nothing. *)
Theorem processNFAs_correct targetOrder actionOrder maxNFASize patterns :
  (forall s, targetOrder s ≡ₚ elements s) -> (forall s, actionOrder s ≡ₚ elements s) ->
  Forall (fun x => x.2 <> [] /\ Forall (fun t => okTerm t = true) x.2) patterns ->
  exists root nfas root', addPatterns patterns emptyFilters = Some root /\ processNFAs targetOrder actionOrder maxNFASize root = Some (nfas, root') /\ isEmpty root' = true
    /\ (Forall small nfas -> Forall okNFA nfas
        /\ forall w a, (exists nfa, nfa ∈ nfas /\ nfaFinds nfa w a) <-> exists p, (a, p) ∈ patterns /\ cats matches p w).
Proof.
  intros H1 H2 Hp. destruct (emptyFilters_ok (fun _ => True)) as [E1 E2].
  destruct (addPatterns_ok (fun _ => True) patterns) with (root := emptyFilters) as (root & Er & R1 & R2 & R3); [|done|done|].
  { eapply Forall_impl; [exact Hp|]. intros x [Hx1 Hx2]. split; [done|]. eapply Forall_impl; [exact Hx2|]. by intros t Ht. }
  destruct (processNFAs_spec targetOrder actionOrder H1 H2 (fun _ => True) maxNFASize root R1 R2) as (nfas & root' & En & N1 & N2). exists root, nfas, root'. split_and!; try done.
  intros Hs. destruct (N2 Hs) as [N3 N4]. split; [eapply Forall_impl; [exact N3|]; by intros nfa [[? _] _]|]. intros w a. rewrite N4. unfold treeFinds. setoid_rewrite R3.
  split; intros (p & Hp1 & Hp2); exists p; (split; [|done]); [|by right]. destruct Hp1 as [Hp1|?]; [by apply emptyFilters_patterns in Hp1|done].
Qed.

(** [ad], [aid] and [aid] with any number of [d], the last two with one action:
    two automata. *)
Definition examplePatterns : list (Z * list Term) :=
  let a := characterTerm 97 in let d := characterTerm 100 in let i := characterTerm 105 in
  [(3%Z, [a; d]); (7%Z, [a; i; d]); (7%Z, [a; CharacterSetTerm universalSet One; d]);
   (9%Z, [a; CharacterSetTerm universalSet ZeroOrMore; d])].

Lemma processNFAs_correct_witness :
  exists root nfas root', addPatterns examplePatterns emptyFilters = Some root /\ processNFAs elements elements 75000 root = Some (nfas, root') /\ isEmpty root' = true
    /\ (Forall small nfas -> Forall okNFA nfas
        /\ forall w a, (exists nfa, nfa ∈ nfas /\ nfaFinds nfa w a) <-> exists p, (a, p) ∈ examplePatterns /\ cats matches p w).
Proof.
  apply (processNFAs_correct elements elements 75000 examplePatterns); [intros s; reflexivity|intros s; reflexivity|].
  repeat (apply Forall_cons; split; [split; [discriminate|apply (bool_decide_unpack _); vm_compute; exact I]|]). apply Forall_nil. exact I.
Defined.

(** Their automata have 6 and 5 nodes: the suffixes of the patterns with action
    7 are shared. *)
Example processNFAs_example :
  (root ← addPatterns examplePatterns emptyFilters; '(nfas, _) ← processNFAs elements elements 75000 root; Some ((fun nfa => length (NFA.nodes nfa)) <$> (nfas : list NFA.NFA))) = Some [6; 5].
Proof. vm_compute. reflexivity. Qed.
