(* ===== verification/URLFilterParser.v ===== *)
(** * URLFilterParser: from the tokens of a pattern to the terms of a filter

    Translated from src/Source/WebCore/contentextensions/URLFilterParser.cpp and
    URLFilterParser.h.  The regular-expression parser of JavaScriptCore reports
    the tokens of a pattern by calling the methods of [PatternParser]; here the
    calls are the values of [Token], and that parser is an argument that gives
    the calls it makes and whether it ends with an error.  [None] is a failed
    assertion.  The innermost open group is the first of its list. *)

From S2P Require Import Prelude ASCIICType DFA MutableRangeList NFA ImmutableNFANodeBuilder Term CombinedURLFilters.
Import Term CombinedURLFilters.

Module URLFilterParser.

Inductive ParseStatus :=
| Ok | MatchesEverything | NonASCII | UnsupportedCharacterClass | BackReference | MisplacedStartOfLine | WordBoundary | AtomCharacter | GroupStatus
| Disjunction | MisplacedEndOfLine | EmptyPattern | YarrError | InvalidQuantifier.

#[global] Instance ParseStatus_eq_dec : EqDecision ParseStatus.
Proof. solve_decision. Defined.

(** [JSC::Yarr::BuiltInCharacterClassID] *)
Inductive BuiltInCharacterClassID := DigitClassID | SpaceClassID | WordClassID | NewlineClassID.

#[global] Instance BuiltInCharacterClassID_eq_dec : EqDecision BuiltInCharacterClassID.
Proof. solve_decision. Defined.

Record PatternParser := mkParser {
  m_patternIsCaseSensitive : bool;
  m_openGroups : list Term;
  m_sunkTerms : list Term;
  m_floatingTerm : Term;
  m_hasBeginningOfLineAssertion : bool;
  m_hasProcessedEndOfLineAssertion : bool;
  m_parseStatus : ParseStatus
}.

Definition newParser (patternIsCaseSensitive : bool) : PatternParser := mkParser patternIsCaseSensitive [] [] (Empty One) false false Ok.

Definition hasError (p : PatternParser) : bool := negb (bool_decide (m_parseStatus p = Ok)).

Definition setStatus (s : ParseStatus) (p : PatternParser) : PatternParser :=
  mkParser (m_patternIsCaseSensitive p) (m_openGroups p) (m_sunkTerms p) (m_floatingTerm p) (m_hasBeginningOfLineAssertion p) (m_hasProcessedEndOfLineAssertion p) s.
Definition setFloatingTerm (t : Term) (p : PatternParser) : PatternParser :=
  mkParser (m_patternIsCaseSensitive p) (m_openGroups p) (m_sunkTerms p) t (m_hasBeginningOfLineAssertion p) (m_hasProcessedEndOfLineAssertion p) (m_parseStatus p).
Definition setOpenGroups (g : list Term) (p : PatternParser) : PatternParser :=
  mkParser (m_patternIsCaseSensitive p) g (m_sunkTerms p) (m_floatingTerm p) (m_hasBeginningOfLineAssertion p) (m_hasProcessedEndOfLineAssertion p) (m_parseStatus p).
Definition setSunkTerms (l : list Term) (p : PatternParser) : PatternParser :=
  mkParser (m_patternIsCaseSensitive p) (m_openGroups p) l (m_floatingTerm p) (m_hasBeginningOfLineAssertion p) (m_hasProcessedEndOfLineAssertion p) (m_parseStatus p).
Definition setBeginningOfLine (p : PatternParser) : PatternParser :=
  mkParser (m_patternIsCaseSensitive p) (m_openGroups p) (m_sunkTerms p) (m_floatingTerm p) true (m_hasProcessedEndOfLineAssertion p) (m_parseStatus p).
Definition setEndOfLine (p : PatternParser) : PatternParser :=
  mkParser (m_patternIsCaseSensitive p) (m_openGroups p) (m_sunkTerms p) (m_floatingTerm p) (m_hasBeginningOfLineAssertion p) true (m_parseStatus p).

Definition fail (reason : ParseStatus) (p : PatternParser) : PatternParser := if hasError p then p else setStatus reason p.

Definition sinkFloatingTermIfNecessary (p : PatternParser) : option PatternParser :=
  if negb (isValid (m_floatingTerm p)) then Some p
  else if m_hasProcessedEndOfLineAssertion p then Some (setFloatingTerm (Empty One) (fail MisplacedEndOfLine p))
  else
    isEndOfLine ← isEndOfLineAssertion (m_floatingTerm p);
    let p := if isEndOfLine : bool then setEndOfLine p else p in
    match m_openGroups p with
    | group :: groups =>
        group ← extendGroupSubpattern (m_floatingTerm p) group;
        Some (setFloatingTerm (Empty One) (setOpenGroups (group :: groups) p))
    | [] => Some (setFloatingTerm (Empty One) (setSunkTerms (m_sunkTerms p ++ [m_floatingTerm p]) p))
    end.

(** ** The calls of the regular-expression parser *)

Inductive Token :=
| atomPatternCharacter (character : Z)
| atomBuiltInCharacterClass (builtInCharacterClassID : BuiltInCharacterClassID) (inverted : bool)
| quantifyAtom (minimum maximum : Z)
| atomBackReference
| assertionBOL
| assertionEOL
| assertionWordBoundary
| atomCharacterClassBegin (inverted : bool)
| atomCharacterClassAtom (character : Z)
| atomCharacterClassRange (a b : Z)
| atomCharacterClassEnd
| atomCharacterClassBuiltIn
| atomParenthesesSubpatternBegin
| atomParentheticalAssertionBegin
| atomParenthesesEnd
| disjunction.

(** [UINT_MAX] *)
Definition quantifyInfinite : Z := 2 ^ 32 - 1.

(** A new atom: the term before it sinks, and [ASSERT(!m_floatingTerm.isValid())]. *)
Definition float (t : option Term) (p : PatternParser) : option PatternParser :=
  p ← sinkFloatingTermIfNecessary p;
  guard (isValid (m_floatingTerm p) = false);;
  t ← t;
  Some (setFloatingTerm t p).

Fixpoint addCharacters (characters : list Z) (isCaseSensitive : bool) (t : Term) : option Term :=
  match characters with [] => Some t | c :: characters => t ← addCharacter c isCaseSensitive t; addCharacters characters isCaseSensitive t end.

Definition quantifierOf (minimum maximum : Z) : option AtomQuantifier :=
  if (minimum =? 0) && (maximum =? 1) then Some ZeroOrOne
  else if (minimum =? 0) && (maximum =? quantifyInfinite) then Some ZeroOrMore
  else if (minimum =? 1) && (maximum =? quantifyInfinite) then Some OneOrMore
  else None.

Definition handle (token : Token) (p : PatternParser) : option PatternParser :=
  if hasError p then Some p
  else
    match token with
    | atomPatternCharacter c =>
        if negb (isASCII c) then Some (fail NonASCII p) else float (Term_character c (m_patternIsCaseSensitive p)) p
    | atomBuiltInCharacterClass id inverted =>
        p ← sinkFloatingTermIfNecessary p;
        guard (isValid (m_floatingTerm p) = false);;
        if bool_decide (id = NewlineClassID) && inverted then t ← UniversalTransition; Some (setFloatingTerm t p)
        else Some (fail UnsupportedCharacterClass p)
    | quantifyAtom minimum maximum =>
        guard (isValid (m_floatingTerm p) = true);;
        match quantifierOf minimum maximum with
        | Some q => t ← quantify q (m_floatingTerm p); Some (setFloatingTerm t p)
        | None => Some (fail InvalidQuantifier p)
        end
    | atomBackReference => Some (fail BackReference p)
    | assertionBOL =>
        match isValid (m_floatingTerm p), m_sunkTerms p, m_openGroups p with
        | false, [], [] => Some (setBeginningOfLine p)
        | _, _, _ => Some (fail MisplacedStartOfLine p)
        end
    | assertionEOL => float EndOfLineAssertionTerm p
    | assertionWordBoundary => Some (fail WordBoundary p)
    | atomCharacterClassBegin inverted => float (Term_characterSet inverted) p
    | atomCharacterClassAtom c =>
        guard (isASCII c = true);;
        t ← addCharacter c (m_patternIsCaseSensitive p) (m_floatingTerm p);
        Some (setFloatingTerm t p)
    | atomCharacterClassRange a b =>
        guard (a <> 0);; guard (b <> 0);; guard (isASCII a = true);; guard (isASCII b = true);;
        t ← addCharacters (seqZ a (b + 1 - a)) (m_patternIsCaseSensitive p) (m_floatingTerm p);
        Some (setFloatingTerm t p)
    | atomCharacterClassEnd => Some p
    | atomCharacterClassBuiltIn => Some (fail AtomCharacter p)
    | atomParenthesesSubpatternBegin =>
        p ← sinkFloatingTermIfNecessary p;
        Some (setOpenGroups (GroupTerm :: m_openGroups p) p)
    | atomParentheticalAssertionBegin => Some (fail GroupStatus p)
    | atomParenthesesEnd =>
        p ← sinkFloatingTermIfNecessary p;
        guard (isValid (m_floatingTerm p) = false);;
        match m_openGroups p with
        | group :: groups => Some (setFloatingTerm group (setOpenGroups groups p))
        | [] => None
        end
    | disjunction => Some (fail Disjunction p)
    end.

Fixpoint handleAll (tokens : list Token) (p : PatternParser) : option PatternParser :=
  match tokens with [] => Some p | token :: tokens => p ← handle token p; handleAll tokens p end.

(** ** Simplification *)

(** "Replace every .*-like terms by our canonical version. Remove any duplicate." *)
Fixpoint canonicalizeDotStars (dotStar : Term) (isAfterDotStar : bool) (terms : list Term) : option (list Term) :=
  match terms with
  | [] => Some []
  | term :: terms =>
      matchesAny ← isKnownToMatchAnyString term;
      if isAfterDotStar && matchesAny then canonicalizeDotStars dotStar true terms
      else
        rest ← canonicalizeDotStars dotStar matchesAny terms;
        Some ((if matchesAny : bool then dotStar else term) :: rest)
  end.

(** "Add our .* in front if needed." *)
Definition prependDotStar (dotStar : Term) (hasBeginningOfLineAssertion : bool) (terms : list Term) : option (list Term) :=
  if hasBeginningOfLineAssertion then Some terms
  else
    first ← head terms;
    matchesAny ← isKnownToMatchAnyString first;
    Some (if matchesAny : bool then terms else dotStar :: terms).

(** "Remove trailing .*$." *)
Definition removeTrailingDotStarEnd (terms : list Term) : option (list Term) :=
  if (2 <? Z.of_nat (length terms)) then
    lastTerm ← last terms;
    isEndOfLine ← isEndOfLineAssertion lastTerm;
    if isEndOfLine : bool then
      previous ← terms !! (length terms - 2)%nat;
      matchesAny ← isKnownToMatchAnyString previous;
      Some (if matchesAny : bool then take (length terms - 2) terms else terms)
    else Some terms
  else Some terms.

(** The terms from the last one backwards: those that can match the empty
    string go. *)
Fixpoint removeIrrelevant (reversed : list Term) : option (list Term) :=
  match reversed with
  | [] => Some []
  | term :: rest =>
      needed ← matchesAtLeastOneCharacter term;
      if needed : bool then Some reversed else removeIrrelevant rest
  end.

Definition removeIrrelevantTerms (terms : list Term) : option (list Term) :=
  lastTerm ← last terms;
  isEndOfLine ← isEndOfLineAssertion lastTerm;
  if isEndOfLine : bool then Some terms
  else
    reversed ← removeIrrelevant (rev terms);
    Some (rev reversed).

Definition simplify (hasBeginningOfLineAssertion : bool) (terms : list Term) : option (list Term) :=
  match terms with
  | [] => Some []
  | _ =>
      dotStar ← canonicalDotStar;
      terms ← canonicalizeDotStars dotStar false terms;
      terms ← prependDotStar dotStar hasBeginningOfLineAssertion terms;
      terms ← removeTrailingDotStarEnd terms;
      removeIrrelevantTerms terms
  end.

Definition simplifySunkTerms (p : PatternParser) : option PatternParser :=
  guard (isValid (m_floatingTerm p) = false);;
  terms ← simplify (m_hasBeginningOfLineAssertion p) (m_sunkTerms p);
  Some (setSunkTerms terms p).

(** "Check to see if there are any terms without ? or *." *)
Definition matchesEverything (terms : list Term) : option bool := b ← anyTerm matchesAtLeastOneCharacter terms; Some (negb b).

(** The parser, for its status, and the filters. *)
Definition finalize (patternId : Z) (p : PatternParser) (filters : PrefixTreeVertex) : option (PatternParser * PrefixTreeVertex) :=
  if hasError p then Some (p, filters)
  else
    p ← sinkFloatingTermIfNecessary p;
    p ← simplifySunkTerms p;
    everything ← matchesEverything (m_sunkTerms p);
    if everything : bool then Some (fail MatchesEverything p, filters)
    else
      filters ← addPattern patternId (m_sunkTerms p) filters;
      Some (p, filters).

(** [URLFilterParser::addPattern], given the tokens of the pattern and whether
    parsing it ends with an error. *)
Definition addFilter (yarr : list Z -> list Token * bool) (pattern : list Z) (patternIsCaseSensitive : bool) (patternId : Z) (filters : PrefixTreeVertex)
    : option (ParseStatus * PrefixTreeVertex) :=
  if negb (forallb isASCII pattern) then Some (NonASCII, filters)
  else if bool_decide (pattern = []) then Some (EmptyPattern, filters)
  else
    let '(tokens, error) := yarr pattern in
    p ← handleAll tokens (newParser patternIsCaseSensitive);
    if error : bool then Some (YarrError, filters)
    else
      '(p, filters) ← finalize patternId p filters;
      Some (m_parseStatus p, filters).

(** [statusString] *)
Definition statusString (status : ParseStatus) : string :=
  match status with
  | Ok => "Ok"
  | MatchesEverything => "Matches everything."
  | NonASCII => "Only ASCII characters are supported in pattern."
  | UnsupportedCharacterClass => "Character class is not supported."
  | BackReference => "Patterns cannot contain backreferences."
  | MisplacedStartOfLine => "Start of line assertion can only appear as the first term in a filter."
  | WordBoundary => "Word boundaries assertions are not supported yet."
  | AtomCharacter => "Builtins character class atoms are not supported yet."
  | GroupStatus => "Groups are not supported yet."
  | Disjunction => "Disjunctions are not supported yet."
  | MisplacedEndOfLine => "The end of line assertion must be the last term in an expression."
  | EmptyPattern => "Empty pattern."
  | YarrError => "Internal error in YARR."
  | InvalidQuantifier => "Arbitrary atom repetitions are not supported."
  end.

End URLFilterParser.
