(* ===== verification/URLFilterParserCorrect.v ===== *)
(** * URLFilterWitness: patterns on which the theorem applies, and some on which it does not

    The last part shows what the parser does with characters that the theorem
    leaves out. *)

From S2P Require Import Prelude ASCIICType DFA MutableRangeList NFA ImmutableNFANodeBuilder Term TermLanguage CombinedURLFilters CombinedURLFiltersTree URLFilterParser.

(** * Simplified filters match the same URLs *)

Import Term CombinedURLFilters URLFilterParser.

(** ** Terms without the end of the URL *)

Record good (t : Term) : Prop := { good_ok : okTerm t = true; good_end : forall s, s ∈ setsOf t -> has s 0 = false }.

Lemma good_group terms q : good (Group terms q) <-> Forall good terms.
Proof.
  split.
  - intros [H1 H2]. apply okTerm_group in H1. rewrite Forall_forall in *. intros t Ht. split; [by apply H1|]. intros s Hs. apply H2. cbn [setsOf].
    apply list_elem_of_In, in_flat_map. exists t. by rewrite <- !list_elem_of_In.
  - intros H. rewrite Forall_forall in H. split; [apply okTerm_group, Forall_forall; intros t Ht; by apply H|]. intros s Hs. cbn [setsOf] in Hs.
    apply list_elem_of_In, in_flat_map in Hs as (t & Ht & Hs). apply list_elem_of_In in Ht. apply list_elem_of_In in Hs. by apply (good_end _ (H t Ht)).
Qed.

Lemma good_valid t : good t -> isValid t = true.
Proof. intros [H _]. by apply okTerm_valid. Qed.

Lemma good_isEndOfLine t : good t -> isEndOfLineAssertion t = Some false.
Proof. intros [H1 H2]. destruct t as [q|s q|terms q]; [done| |done]. rewrite isEndOfLineAssertion_set, (H2 s) by left. by rewrite andb_false_r. Qed.

Lemma star_words (L : language) w : (forall u, L u -> Forall character u) -> star L w -> Forall character w.
Proof. intros H. induction 1; [constructor|]. apply Forall_app. auto. Qed.

Lemma quantified_words q (L : language) w : (forall u, L u -> Forall character u) -> quantified q L w -> Forall character w.
Proof.
  intros H. destruct q; cbn; [apply H|intros [->|]; [constructor|by apply H]|by apply star_words|].
  intros (u & v & -> & Hu & Hv). apply Forall_app. split; [by apply H|by eapply star_words].
Qed.

Lemma cats_words terms w : Forall (fun t => forall u, matches t u -> Forall character u) terms -> cats matches terms w -> Forall character w.
Proof. intros H. revert w. induction H as [|t terms Ht _ IH]; cbn [cats]; [by intros w ->|]. intros w (u & v & -> & Hu & Hv). apply Forall_app. auto. Qed.

Lemma good_words t w : good t -> matches t w -> Forall character w.
Proof.
  revert w. induction t as [q|s q|terms q IH] using Term_induction; intros w Hg; [done| |].
  - apply quantified_words. intros u (c & -> & Hc). apply Forall_singleton. unfold member in Hc. unfold character. destruct (m_inverted s); [lia|]. destruct Hc as [Hc Hh].
    assert (c <> 0); [|lia]. intros ->. rewrite (good_end _ Hg s) in Hh by left. done.
  - apply good_group in Hg. apply quantified_words. intros u. apply cats_words. rewrite Forall_forall in *. intros t Ht v. apply IH; [done|by apply Hg].
Qed.

Lemma goods_words terms w : Forall good terms -> cats matches terms w -> Forall character w.
Proof. intros H. apply cats_words. eapply Forall_impl; [exact H|]. intros t Ht u. by apply good_words. Qed.

Lemma good_any t : good t -> exists b, isKnownToMatchAnyString t = Some b /\ (b = true -> forall w, matches t w <-> Forall character w).
Proof.
  intros Hg. destruct (isKnownToMatchAnyString_sound t (good_ok _ Hg)) as (b & E & H). exists b. split; [done|]. intros Hb w. split; [by apply good_words|by apply H].
Qed.

Lemma anyTerm_false (f : Term -> option bool) terms : anyTerm f terms = Some false -> Forall (fun t => f t = Some false) terms.
Proof.
  induction terms as [|t terms IH]; [constructor|]. unfold anyTerm. destruct (f t) as [[|]|] eqn:E; cbn [mbind option_bind]; try done. intros H. constructor; [done|]. by apply IH.
Qed.

(** A term that need not match a character can match the empty string. *)
Lemma good_empty t : good t -> matchesAtLeastOneCharacter t = Some false -> matches t [].
Proof.
  induction t as [q|s q|terms q IH] using Term_induction; intros Hg; [by destruct Hg| |]; rewrite matchesAtLeastOneCharacter_eq by (by apply good_valid); rewrite good_isEndOfLine by done;
    cbn [mbind option_bind m_quantifier]; (case_bool_decide as Hq; [intros _; destruct Hq as [-> | ->]; cbn; [by left|constructor]|]); [done|].
  intros H%anyTerm_false. apply good_group in Hg. cbn [matches]. apply quantified_one. clear Hq. induction H as [|t terms Ht _ IHl]; [done|]. apply Forall_cons in IH as [It IH], Hg as [Gt Hg].
  exists [], []. split_and!; [done|by apply It|by apply IHl].
Qed.

Lemma good_needs t : good t -> exists b, matchesAtLeastOneCharacter t = Some b.
Proof.
  induction t as [q|s q|terms q IH] using Term_induction; intros Hg; [by destruct Hg| |]; rewrite matchesAtLeastOneCharacter_eq by (by apply good_valid); rewrite good_isEndOfLine by done;
    cbn [mbind option_bind]; (case_bool_decide; [by eexists|]); [by eexists|].
  destruct (anyTerm_spec matchesAtLeastOneCharacter (fun _ => True) terms) as (b & E & _); [|by exists b].
  apply good_group in Hg. rewrite Forall_forall in *. intros t Ht. destruct (IH t Ht (Hg t Ht)) as (b & E). by exists b.
Qed.

(** ** The end of the URL, and any string *)

Definition endTerm : Term := CharacterSetTerm (mkCharacterSet false 1 0) One.
Definition dotStarTerm : Term := CharacterSetTerm universalSet ZeroOrMore.

Lemma EndOfLineAssertionTerm_eq : EndOfLineAssertionTerm = Some endTerm.
Proof. vm_compute. reflexivity. Qed.

Lemma endTerm_matches w : matches endTerm w <-> w = [0].
Proof. destruct EndOfLineAssertionTerm_matches as (t & E & _ & H). rewrite EndOfLineAssertionTerm_eq in E. injection E as <-. apply H. Qed.

Lemma endTerm_tests : isEndOfLineAssertion endTerm = Some true /\ isKnownToMatchAnyString endTerm = Some false /\ matchesAtLeastOneCharacter endTerm = Some false.
Proof. split_and!; vm_compute; reflexivity. Qed.

Lemma dotStarTerm_good : good dotStarTerm.
Proof. split; [vm_compute; reflexivity|]. intros s ->%list_elem_of_singleton. vm_compute. reflexivity. Qed.

Lemma dotStarTerm_known : isKnownToMatchAnyString dotStarTerm = Some true.
Proof. vm_compute. reflexivity. Qed.

Lemma dotStarTerm_matches w : matches dotStarTerm w <-> Forall character w.
Proof. apply dotStar_matches. Qed.

#[local] Opaque endTerm dotStarTerm.

Notation anything := (Forall character).

(** A filter with or without the assertion at its end. *)
Definition ends (e : bool) : list Term := if e then [endTerm] else [].

(** Languages with [anything] before them. *)
Lemma cat_anything (L : language) w : cat anything (cat anything L) w <-> cat anything L w.
Proof.
  split.
  - intros (u & v & -> & Hu & u' & v' & -> & Hu' & Hv). exists (u ++ u'), v'. rewrite <- app_assoc. split_and!; [done|by apply Forall_app|done].
  - intros (u & v & -> & Hu & Hv). exists [], (u ++ v). split_and!; [done|constructor|]. by exists u, v.
Qed.

Lemma cat_mono (L L' M M' : language) w : (forall w, L w <-> L' w) -> (forall w, M w <-> M' w) -> cat L M w <-> cat L' M' w.
Proof. intros HL HM. unfold cat. by setoid_rewrite HL; setoid_rewrite HM. Qed.

Lemma canonicalize_spec e T : Forall good T -> forall after, exists T', canonicalizeDotStars dotStarTerm after (T ++ ends e) = Some (T' ++ ends e) /\ Forall good T'
  /\ (forall w, if after then cat anything (cats matches T) w <-> cat anything (cats matches T') w else cats matches T w <-> cats matches T' w)
  /\ (after = false -> T = [] -> T' = []) /\ (after = false -> T' = [] -> T = []).
Proof.
  induction 1 as [|t T Ht _ IH]; intros after.
  - exists []. split; [|by destruct after]. destruct e; [|done]. cbn [app ends canonicalizeDotStars]. destruct endTerm_tests as (_ & -> & _). cbn [mbind option_bind]. by rewrite andb_false_r.
  - cbn [app canonicalizeDotStars]. destruct (good_any t Ht) as (b & -> & Hb). cbn [mbind option_bind]. destruct (after && b) eqn:E.
    + apply andb_true_iff in E as [-> ->]. specialize (Hb eq_refl). destruct (IH true) as (T' & -> & G & HL & _). exists T'. split_and!; try done. intros w. rewrite <- HL. cbn [cats].
      rewrite <- (cat_anything (cats matches T)). by apply cat_mono; [|intros v; apply cat_mono].
    + destruct (IH b) as (T' & -> & G & HL & _). cbn [mbind option_bind]. exists ((if b then dotStarTerm else t) :: T'). split; [done|]. split; [constructor; [destruct b; [apply dotStarTerm_good|done]|done]|].
      assert (forall w, cats matches (t :: T) w <-> cats matches ((if b then dotStarTerm else t) :: T') w) as HC.
      { intros w. cbn [cats]. destruct b; [|by apply cat_mono]. specialize (Hb eq_refl). rewrite (cat_mono (matches t) anything _ (cats matches T)) by done.
        rewrite (cat_mono (matches dotStarTerm) anything _ (cats matches T')) by (intros; done || apply dotStarTerm_matches). apply HL. }
      split; [|by destruct after]. intros w. destruct after; [by apply cat_mono|apply HC].
Qed.

Lemma prepend_spec bol e T : Forall good T -> T ++ ends e <> [] ->
  exists T', prependDotStar dotStarTerm bol (T ++ ends e) = Some (T' ++ ends e) /\ Forall good T' /\ T' ++ ends e <> []
    /\ (bol = true -> T' = T) /\ (bol = false -> (forall w, cats matches T' w <-> cat anything (cats matches T) w) /\ exists t T1, T' = t :: T1 /\ forall w, matches t w <-> anything w).
Proof.
  intros HG Hne. unfold prependDotStar. destruct bol; [by exists T|]. pose proof dotStarTerm_good as Gd.
  assert (exists first, head (T ++ ends e) = Some first /\ exists b, isKnownToMatchAnyString first = Some b
    /\ (b = true -> exists T1, T = first :: T1 /\ forall w, matches first w <-> anything w)) as (first & -> & b & E & Hb).
  { destruct HG as [|t T1 Ht HG]; [destruct e; [|done]; exists endTerm; split; [done|]; exists false; split; [apply endTerm_tests|done]|].
    exists t. split; [done|]. destruct (good_any t Ht) as (b & E & Hb). exists b. split; [done|]. intros ->. exists T1. split; [done|by apply Hb]. }
  cbn [mbind option_bind]. rewrite E. cbn [mbind option_bind]. destruct b.
  - destruct (Hb eq_refl) as (T1 & -> & Hf). exists (first :: T1). split_and!; try done. intros _. split; [|by exists first, T1]. intros w. cbn [cats].
    rewrite (cat_mono (matches first) anything _ (cats matches T1)) by done. rewrite <- cat_anything. by apply cat_mono; [|intros v; apply cat_mono].
  - exists (dotStarTerm :: T). split_and!; try done; [by constructor|]. intros _. split; [|exists dotStarTerm, T; split; [done|apply dotStarTerm_matches]]. intros w. cbn [cats].
    apply cat_mono; [apply dotStarTerm_matches|done].
Qed.

(** ** The start of a URL *)

(** A string of the language starts the URL or ends with it. *)
Definition starts (L : language) (url : list Z) : Prop := exists p, p `prefix_of` url ++ [0] /\ L p.

Lemma starts_iff (L L' : language) url : (forall w, L w <-> L' w) -> starts L url <-> starts L' url.
Proof. intros H. unfold starts. by setoid_rewrite H. Qed.

Lemma prefix_characters p url : anything url -> anything p -> p `prefix_of` url ++ [0] -> p `prefix_of` url.
Proof.
  intros Hu Hp [rest E]. destruct rest as [|x rest _] using rev_ind.
  - rewrite app_nil_r in E. rewrite <- E, Forall_app, Forall_singleton in Hp. unfold character in Hp. lia.
  - rewrite app_assoc in E. apply app_inj_tail in E as [-> _]. by exists rest.
Qed.

Lemma prefix_end p url : anything url -> p ++ [0] `prefix_of` url ++ [0] -> p = url.
Proof.
  intros Hu [rest E]. destruct rest as [|x rest _] using rev_ind.
  - rewrite app_nil_r in E. by apply app_inj_tail in E as [-> _].
  - rewrite app_assoc in E. apply app_inj_tail in E as [-> _]. rewrite !Forall_app, Forall_singleton in Hu. unfold character in Hu. lia.
Qed.

Lemma cats_ends T e w : cats matches (T ++ ends e) w <-> exists u, cats matches T u /\ w = u ++ (if e then [0] else []).
Proof.
  rewrite cats_app. destruct e; cbn [ends]; split.
  - intros (u & v & -> & Hu & ->%cats_one%endTerm_matches). by exists u.
  - intros (u & Hu & ->). exists u, [0]. split_and!; [done|done|]. by apply cats_one, endTerm_matches.
  - intros (u & v & -> & Hu & ->). by exists u.
  - intros (u & Hu & ->). by exists u, [].
Qed.

(** Terms at the end that can match the empty string do not matter. *)
Lemma removeIrrelevant_spec R : Forall good R -> exists R', removeIrrelevant R = Some R' /\ Forall good R' /\ forall url, starts (cats matches (rev R')) url <-> starts (cats matches (rev R)) url.
Proof.
  induction 1 as [|t R Ht HR (R' & E & G & HS)]; [by exists []|]. cbn [removeIrrelevant]. destruct (good_needs t Ht) as (b & Eb). rewrite Eb. cbn [mbind option_bind]. destruct b.
  - exists (t :: R). split_and!; try done. by constructor.
  - exists R'. split_and!; try done. intros url. rewrite HS. cbn [rev]. unfold starts. setoid_rewrite cats_app. split.
    + intros (p & Hp & Hc). exists p. split; [done|]. exists p, []. rewrite app_nil_r. split_and!; try done. by apply cats_one, good_empty.
    + intros (p & Hp & u & v & -> & Hu & _). exists u. split; [|done]. etrans; [|exact Hp]. by exists v.
Qed.

Lemma removeIrrelevantTerms_spec T : Forall good T -> T <> [] ->
  exists T', removeIrrelevantTerms T = Some T' /\ Forall good T' /\ forall url, starts (cats matches T') url <-> starts (cats matches T) url.
Proof.
  intros HT Hne. unfold removeIrrelevantTerms. destruct T as [|t T _] using rev_ind; [done|]. rewrite last_snoc. cbn [mbind option_bind].
  assert (good t) as Ht by (apply Forall_app in HT as [_ HT]; by apply Forall_inv in HT). rewrite (good_isEndOfLine t Ht). cbn [mbind option_bind].
  destruct (removeIrrelevant_spec (rev (T ++ [t]))) as (R' & -> & G & HS); [by apply Forall_rev|]. cbn [mbind option_bind]. exists (rev R'). split; [done|]. split; [by apply Forall_rev|].
  intros url. rewrite HS. by rewrite rev_involutive.
Qed.

Lemma ends_last T e : last (T ++ ends e) = if e then Some endTerm else last T.
Proof. destruct e; cbn [ends]; [by rewrite last_snoc|by rewrite app_nil_r]. Qed.

(** The assertion after a term that matches anything does not matter. *)
Lemma trailing_starts T k url : Forall good T -> (forall w, matches k w <-> anything w) -> anything url ->
  starts (cats matches ((T ++ [k]) ++ ends true)) url <-> starts (cats matches T) url.
Proof.
  intros HT Hk Hu. unfold starts. setoid_rewrite cats_ends. setoid_rewrite cats_app. split.
  - intros (p & Hp & u & (a & b & -> & Ha & Hb) & ->). exists a. split; [|done]. etrans; [|exact Hp]. rewrite <- app_assoc. by eexists.
  - intros (p & Hp & Hc). apply prefix_characters in Hp as [rest ->]; [|done|by eapply goods_words]. exists ((p ++ rest) ++ [0]). split; [done|]. exists (p ++ rest). split; [|done].
    exists p, rest. split_and!; [done|done|]. apply cats_one, Hk. by apply Forall_app in Hu as [_ ?].
Qed.

Lemma removeTrailing_spec e T : Forall good T -> T ++ ends e <> [] ->
  exists T' e', removeTrailingDotStarEnd (T ++ ends e) = Some (T' ++ ends e') /\ Forall good T' /\ T' ++ ends e' <> [] /\ (e' = true -> e = true /\ T' = T)
    /\ forall url, anything url -> starts (cats matches (T' ++ ends e')) url <-> starts (cats matches (T ++ ends e)) url.
Proof.
  intros HT Hne. unfold removeTrailingDotStarEnd.
  assert (forall o, o = Some (T ++ ends e) -> exists T' e', o = Some (T' ++ ends e') /\ Forall good T' /\ T' ++ ends e' <> [] /\ (e' = true -> e = true /\ T' = T)
    /\ forall url, anything url -> starts (cats matches (T' ++ ends e')) url <-> starts (cats matches (T ++ ends e)) url) as Hsame by (intros o ->; exists T, e; by split_and!).
  destruct (Z.ltb_spec 2 (Z.of_nat (length (T ++ ends e)))) as [Hlen|_]; [|by apply Hsame]. rewrite ends_last. destruct e.
  - cbn [mbind option_bind]. destruct endTerm_tests as (-> & _ & _). cbn [mbind option_bind]. destruct T as [|k T _] using rev_ind; [cbn in Hlen; lia|].
    rewrite !length_app in *. cbn [ends length] in *. replace (length T + 1 + 1 - 2)%nat with (length T) by lia. assert (((T ++ [k]) ++ [endTerm]) !! length T = Some k) as -> by (rewrite <- app_assoc; by apply list_lookup_middle). cbn [mbind option_bind].
    apply Forall_app in HT as [HT Hk%Forall_inv]. destruct (good_any k Hk) as (b & -> & Hb). cbn [mbind option_bind]. destruct b; [|by apply Hsame].
    exists T, false. cbn [ends]. rewrite <- (app_assoc T [k] [endTerm]), take_app_length, app_nil_r. split_and!; try done; [intros ->; cbn in Hlen; lia|]. intros url Hu. rewrite (app_assoc T [k]). symmetry. by apply trailing_starts; [|apply Hb|].
  - cbn [ends] in *. rewrite app_nil_r in *. destruct T as [|t T _] using rev_ind; [done|]. rewrite last_snoc. cbn [mbind option_bind].
    assert (good t) as Ht by (apply Forall_app in HT as [_ HT]; by apply Forall_inv in HT). rewrite (good_isEndOfLine t Ht). cbn [mbind option_bind]. by apply Hsame.
Qed.

(** What simplification gives: terms that match the starts of the same URLs. *)
Lemma simplify_spec bol e T : Forall good T -> T ++ ends e <> [] ->
  exists T' e', simplify bol (T ++ ends e) = Some (T' ++ ends e') /\ Forall good T'
    /\ (forall url, anything url -> starts (cats matches (T' ++ ends e')) url <-> starts (if bol then cats matches (T ++ ends e) else cat anything (cats matches (T ++ ends e))) url)
    /\ (Forall (fun t => matches t []) T' -> bol && e = false -> forall url, anything url -> starts (cats matches (T' ++ ends e')) url).
Proof.
  intros HT Hne. assert (simplify bol (T ++ ends e) = (terms ← canonicalizeDotStars dotStarTerm false (T ++ ends e); terms ← prependDotStar dotStarTerm bol terms;
    terms ← removeTrailingDotStarEnd terms; removeIrrelevantTerms terms)) as ->.
  { unfold simplify. destruct dotStar_matches as [-> _]. cbn [mbind option_bind]. by destruct (T ++ ends e). }
  destruct (canonicalize_spec e T HT false) as (T1 & -> & G1 & L1 & _ & N1). cbn [mbind option_bind].
  assert (T1 ++ ends e <> []) as Hne1 by (intros E; apply app_eq_nil in E as [E1 E2]; rewrite (N1 eq_refl E1), E2 in Hne; done).
  destruct (prepend_spec bol e T1 G1 Hne1) as (T2 & -> & G2 & Hne2 & B2 & P2). cbn [mbind option_bind].
  destruct (removeTrailing_spec e T2 G2 Hne2) as (T3 & e' & -> & G3 & Hne3 & E3 & S3). cbn [mbind option_bind].
  assert (forall url, anything url -> starts (cats matches (T3 ++ ends e')) url
    <-> starts (if bol then cats matches (T ++ ends e) else cat anything (cats matches (T ++ ends e))) url) as HS.
  { intros url Hu. rewrite S3 by done. apply starts_iff. intros w. destruct bol.
    - rewrite (B2 eq_refl), !cats_app. by apply cat_mono; [intros v; symmetry; apply L1|].
    - destruct (P2 eq_refl) as [P3 _]. rewrite cats_app. setoid_rewrite (cat_mono _ _ _ (cats matches (ends e)) w P3); [|done]. split.
      + intros (u & v & -> & (a & b & -> & Ha & Hb%L1) & Hv). exists a, (b ++ v). rewrite <- app_assoc. split_and!; [done|done|]. apply cats_app. by exists b, v.
      + intros (u & v & -> & Hu' & (a & b & -> & Ha%L1 & Hb)%cats_app). exists (u ++ a), b. rewrite <- app_assoc. split_and!; [done| |done]. by exists u, a. }
  destruct e'.
  - destruct (E3 eq_refl) as [-> ->]. exists T2, true. split_and!; try done.
    + unfold removeIrrelevantTerms. rewrite ends_last. cbn [mbind option_bind]. destruct endTerm_tests as (-> & _ & _). done.
    + intros Hall Hbe url Hu. rewrite andb_true_r in Hbe. destruct (P2 Hbe) as [_ (t & T4 & -> & Ht)]. apply Forall_cons in Hall as [_ Hall].
      exists (url ++ [0]). split; [done|]. apply cats_ends. exists url. split; [|done]. exists url, []. split_and!; [by rewrite app_nil_r|by apply Ht|].
      clear -Hall. induction Hall as [|x l Hx _ IH]; [done|]. by exists [], [].
  - cbn [ends] in *. rewrite app_nil_r in *. destruct (removeIrrelevantTerms_spec T3 G3 Hne3) as (T4 & -> & G4 & S4). exists T4, false. cbn [ends]. rewrite app_nil_r.
    split_and!; try done; [intros url Hu; rewrite S4; by apply HS|]. intros Hall _ url Hu. exists []. split; [apply prefix_nil|]. clear -Hall. induction Hall as [|x l Hx _ IH]; [done|]. by exists [], [].
Qed.

(** * The filter of a pattern finds what the pattern matches *)

Import Term CombinedURLFilters URLFilterParser.

(** ** Regular expressions *)

Inductive classItem := ItemCharacter (c : Z) | ItemRange (a b : Z).

Inductive regex :=
| RCharacter (c : Z) (q : AtomQuantifier)
| RDot (q : AtomQuantifier)
| RClass (inverted : bool) (items : list classItem) (q : AtomQuantifier)
| RGroup (rs : list regex) (q : AtomQuantifier).

Lemma regex_induction (P : regex -> Prop) : (forall c q, P (RCharacter c q)) -> (forall q, P (RDot q)) -> (forall inverted items q, P (RClass inverted items q)) ->
  (forall rs q, Forall P rs -> P (RGroup rs q)) -> forall r, P r.
Proof.
  intros H1 H2 H3 H4. fix IH 1. intros [c q|q|inverted items q|rs q]; [apply H1|apply H2|apply H3|]. apply H4. induction rs as [|r rs IHl]; constructor; [apply IH|apply IHl].
Qed.

(** The calls for an expression. *)
Definition quantifierTokens (q : AtomQuantifier) : list Token :=
  match q with
  | One => []
  | ZeroOrOne => [quantifyAtom 0 1]
  | ZeroOrMore => [quantifyAtom 0 quantifyInfinite]
  | OneOrMore => [quantifyAtom 1 quantifyInfinite]
  end.

Definition itemToken (item : classItem) : Token :=
  match item with ItemCharacter c => atomCharacterClassAtom c | ItemRange a b => atomCharacterClassRange a b end.

Fixpoint tokensOf (r : regex) : list Token :=
  match r with
  | RCharacter c q => atomPatternCharacter c :: quantifierTokens q
  | RDot q => atomBuiltInCharacterClass NewlineClassID true :: quantifierTokens q
  | RClass inverted items q => atomCharacterClassBegin inverted :: (itemToken <$> items) ++ atomCharacterClassEnd :: quantifierTokens q
  | RGroup rs q => atomParenthesesSubpatternBegin :: flat_map tokensOf rs ++ atomParenthesesEnd :: quantifierTokens q
  end.

(** ASCII characters other than the null character. *)
Definition okItem (item : classItem) : bool :=
  match item with ItemCharacter c => (1 <=? c) && (c <=? 127) | ItemRange a b => (1 <=? a) && (a <=? b) && (b <=? 127) end.

Fixpoint okRegex (r : regex) : bool :=
  match r with
  | RCharacter c _ => (1 <=? c) && (c <=? 127)
  | RDot _ => true
  | RClass _ items _ => forallb okItem items
  | RGroup rs _ => forallb okRegex rs
  end.

(** The characters of an item, and the strings an expression matches. *)
Definition itemCharacters (item : classItem) : list Z := match item with ItemCharacter c => [c] | ItemRange a b => seqZ a (b + 1 - a) end.

Definition inClass (isCaseSensitive : bool) (items : list classItem) (x : Z) : bool :=
  existsb (fun c => sameCharacter isCaseSensitive c x) (flat_map itemCharacters items).

Fixpoint rmatches (isCaseSensitive : bool) (r : regex) : language :=
  match r with
  | RCharacter c q => quantified q (fun w => exists x, w = [x] /\ character x /\ sameCharacter isCaseSensitive c x = true)
  | RDot q => quantified q (fun w => exists x, w = [x] /\ character x)
  | RClass inverted items q => quantified q (fun w => exists x, w = [x] /\ character x /\ inClass isCaseSensitive items x = negb inverted)
  | RGroup rs q => quantified q (cats (rmatches isCaseSensitive) rs)
  end.

(** A pattern: an expression with or without [^] before and [$] after it. *)
Record pattern := mkPattern { begins : bool; body : list regex; finishes : bool }.

Definition patternTokens (p : pattern) : list Token :=
  (if begins p then [assertionBOL] else []) ++ flat_map tokensOf (body p) ++ (if finishes p then [assertionEOL] else []).

(** The expression matches somewhere in the URL. *)
Definition patternMatches (isCaseSensitive : bool) (p : pattern) (url : list Z) : Prop :=
  exists u w v, url = u ++ w ++ v /\ cats (rmatches isCaseSensitive) (body p) w /\ (begins p = true -> u = []) /\ (finishes p = true -> v = []).

(** ** Adding characters to a set *)

Lemma sameCharacter_null cs c : 1 <= c <= 127 -> sameCharacter cs c 0 = false.
Proof.
  intros Hc. assert (forallb (fun c => negb (sameCharacter true c 0 || sameCharacter false c 0)) (seqZ 1 127) = true) as H by (vm_compute; reflexivity).
  rewrite forallb_forall in H. specialize (H c ltac:(apply list_elem_of_In, elem_of_seqZ; lia)). apply negb_true_iff, orb_false_iff in H as [H1 H2]. by destruct cs.
Qed.

Lemma addCharacters_spec cs characters : Forall (fun c => 1 <= c <= 127) characters -> forall s q, okSet s ->
  exists s', addCharacters characters cs (CharacterSetTerm s q) = Some (CharacterSetTerm s' q) /\ okSet s' /\ m_inverted s' = m_inverted s
    /\ forall x, 0 <= x <= 127 -> has s' x = existsb (fun c => sameCharacter cs c x) characters || has s x.
Proof.
  induction 1 as [|c characters Hc _ IH]; intros s q Hs; cbn [addCharacters]; [by exists s|]. destruct (addCharacter_spec s q c cs Hs) as (s1 & -> & H1 & H2 & H3); [lia|]. cbn [mbind option_bind].
  destruct (IH s1 q H1) as (s2 & -> & G1 & G2 & G3). exists s2. split_and!; try done; [congruence|]. intros x Hx. rewrite G3, H3 by done. cbn [existsb].
  destruct (sameCharacter cs c x), (existsb _ characters); done.
Qed.

Lemma addCharacters_app cs l1 l2 t : addCharacters (l1 ++ l2) cs t = (t ← addCharacters l1 cs t; addCharacters l2 cs t).
Proof. revert t. induction l1 as [|c l1 IH]; intros t; cbn [app addCharacters]; [done|]. destruct (addCharacter c cs t); cbn [mbind option_bind]; [apply IH|done]. Qed.

(** ** The states of the parser *)

(** No error and no end of line so far: the terms of the open groups, the sunk
    terms, the floating term. *)
Definition state (cs bol : bool) (groups : list (list Term)) (sunk : list Term) (floating : option Term) : PatternParser :=
  mkParser cs ((fun terms => Group terms One) <$> groups) sunk (match floating with Some t => t | None => Empty One end) bol false Ok.

(** Terms that have sunk into the innermost group, or outside of groups. *)
Definition sinkGroups (terms : list Term) (groups : list (list Term)) : list (list Term) := match groups with [] => [] | g :: groups => (g ++ terms) :: groups end.
Definition sinkTerms (terms : list Term) (groups : list (list Term)) (sunk : list Term) : list Term := match groups with [] => sunk ++ terms | _ => sunk end.

Definition sunkState (cs bol : bool) (groups : list (list Term)) (sunk terms : list Term) (floating : option Term) : PatternParser :=
  state cs bol (sinkGroups terms groups) (sinkTerms terms groups sunk) floating.

(** After the atoms of [terms], the last of which floats. *)
Definition after (cs bol : bool) (groups : list (list Term)) (sunk terms : list Term) : PatternParser :=
  sunkState cs bol groups sunk (removelast terms) (last terms).

Lemma after_snoc cs bol groups sunk terms t : after cs bol groups sunk (terms ++ [t]) = sunkState cs bol groups sunk terms (Some t).
Proof. unfold after. by rewrite removelast_last, last_snoc. Qed.

Lemma sink_after cs bol groups sunk terms : Forall good terms -> sinkFloatingTermIfNecessary (after cs bol groups sunk terms) = Some (sunkState cs bol groups sunk terms None).
Proof.
  intros HG. destruct terms as [|t terms _] using rev_ind; [done|]. rewrite after_snoc. apply Forall_app in HG as [_ Ht%Forall_inv]. unfold sinkFloatingTermIfNecessary.
  cbn [sunkState state m_floatingTerm m_hasProcessedEndOfLineAssertion]. rewrite (good_valid t Ht). cbn [negb]. rewrite (good_isEndOfLine t Ht). cbn [mbind option_bind m_openGroups].
  unfold sunkState, state. destruct groups as [|g groups]; cbn [sinkGroups sinkTerms fmap list_fmap extendGroupSubpattern mbind option_bind]; unfold setFloatingTerm, setSunkTerms, setOpenGroups;
    cbn [m_patternIsCaseSensitive m_openGroups m_sunkTerms m_floatingTerm m_hasBeginningOfLineAssertion m_hasProcessedEndOfLineAssertion m_parseStatus]; rewrite app_assoc; reflexivity.
Qed.

Lemma float_after cs bol groups sunk terms t : Forall good terms -> float (Some t) (after cs bol groups sunk terms) = Some (after cs bol groups sunk (terms ++ [t])).
Proof. intros HG. unfold float. rewrite sink_after by done. cbn [mbind option_bind]. rewrite option_guard_True by done. by rewrite after_snoc. Qed.

(** Changing the floating term. *)
Lemma refloat cs bol groups sunk terms t t' : setFloatingTerm t' (after cs bol groups sunk (terms ++ [t])) = after cs bol groups sunk (terms ++ [t']).
Proof. by rewrite !after_snoc. Qed.

Lemma floating_after cs bol groups sunk terms t : m_floatingTerm (after cs bol groups sunk (terms ++ [t])) = t.
Proof. by rewrite after_snoc. Qed.

Lemma handleAll_app l1 l2 p : handleAll (l1 ++ l2) p = (p ← handleAll l1 p; handleAll l2 p).
Proof. revert p. induction l1 as [|x l1 IH]; intros p; cbn [app handleAll]; [done|]. destruct (handle x p); cbn [mbind option_bind]; [apply IH|done]. Qed.

Definition withQuantifier (q : AtomQuantifier) (t : Term) : Term :=
  match t with Empty _ => Empty q | CharacterSetTerm s _ => CharacterSetTerm s q | Group terms _ => Group terms q end.

Lemma withQuantifier_good q t : good t -> good (withQuantifier q t).
Proof. intros [H1 H2]. destruct t; by split. Qed.

Lemma withQuantifier_matches q t w : good t -> matches (withQuantifier q t) w <-> quantified q (atom t) w.
Proof. intros [H _]. by destruct t. Qed.

Lemma after_ok cs bol groups sunk terms : hasError (after cs bol groups sunk terms) = false.
Proof. done. Qed.

(** The quantifier of the last atom. *)
Lemma quantifier_tokens q cs bol groups sunk terms t : good t -> m_quantifier t = One ->
  handleAll (quantifierTokens q) (after cs bol groups sunk (terms ++ [t])) = Some (after cs bol groups sunk (terms ++ [withQuantifier q t])).
Proof.
  intros Ht Hq. assert (withQuantifier One t = t) as E1 by (by destruct t; cbn in Hq; subst).
  assert (forall minimum maximum q, quantifierOf minimum maximum = Some q ->
    handleAll [quantifyAtom minimum maximum] (after cs bol groups sunk (terms ++ [t])) = Some (after cs bol groups sunk (terms ++ [withQuantifier q t]))) as H.
  { intros minimum maximum q' Hqq. cbn [handleAll]. unfold handle. rewrite after_ok, floating_after, (good_valid t Ht), option_guard_True by done.
    cbn [mbind option_bind]. rewrite Hqq. unfold quantify. rewrite Hq, option_guard_True by done. cbn [mbind option_bind]. rewrite refloat. by destruct t. }
  destruct q; cbn [quantifierTokens]; [by rewrite E1|apply H; vm_compute; reflexivity..].
Qed.

(** The characters of a class. *)
Lemma class_tokens cs items : forallb okItem items = true -> forall s, okSet s -> has s 0 = false ->
  exists s', (forall bol groups sunk terms, handleAll (itemToken <$> items) (after cs bol groups sunk (terms ++ [CharacterSetTerm s One]))
      = Some (after cs bol groups sunk (terms ++ [CharacterSetTerm s' One])))
    /\ okSet s' /\ m_inverted s' = m_inverted s /\ has s' 0 = false /\ forall x, 0 <= x <= 127 -> has s' x = inClass cs items x || has s x.
Proof.
  induction items as [|item items IH]; cbn [forallb]; intros Hok s Hs H0; [by exists s|]. apply andb_true_iff in Hok as [Hi Hok].
  assert (Forall (fun c => 1 <= c <= 127) (itemCharacters item)) as Hc.
  { destruct item as [c|a b]; cbn [itemCharacters okItem] in *; rewrite !andb_true_iff, !Z.leb_le in Hi; [constructor; [lia|constructor]|].
    apply Forall_forall. intros x Hx%elem_of_seqZ. lia. }
  destruct (addCharacters_spec cs (itemCharacters item) Hc s One Hs) as (s1 & E1 & H1 & H2 & H3).
  assert (has s1 0 = false) as H4.
  { rewrite H3, H0, orb_false_r by lia. apply not_true_is_false. intros (c & Hin & Hsame)%existsb_exists. rewrite Forall_forall in Hc. rewrite sameCharacter_null in Hsame; [done|].
    apply Hc. by apply list_elem_of_In. }
  destruct (IH Hok s1 H1 H4) as (s2 & E2 & G1 & G2 & G3 & G4). exists s2. cbn [fmap list_fmap handleAll].
  assert (forall bol groups sunk terms, handle (itemToken item) (after cs bol groups sunk (terms ++ [CharacterSetTerm s One])) = Some (after cs bol groups sunk (terms ++ [CharacterSetTerm s1 One]))) as Hstep.
  { intros bol groups sunk terms. destruct item as [c|a b]; cbn [itemToken itemCharacters okItem] in *; unfold handle; rewrite after_ok, floating_after;
      change (m_patternIsCaseSensitive (after cs bol groups sunk (terms ++ [CharacterSetTerm s One]))) with cs; rewrite !andb_true_iff, !Z.leb_le in Hi.
    - rewrite isASCII_spec, (proj2 (Z.ltb_lt c 128)), option_guard_True by (done || lia). cbn [mbind option_bind]. cbn [addCharacters] in E1.
      destruct (addCharacter c cs (CharacterSetTerm s One)); [|done]. cbn [mbind option_bind] in *. injection E1 as ->. by rewrite refloat.
    - rewrite !isASCII_spec, (proj2 (Z.ltb_lt a 128)), (proj2 (Z.ltb_lt b 128)) by lia. rewrite (option_guard_True (a <> 0)) by lia. cbn [mbind option_bind].
      rewrite (option_guard_True (b <> 0)) by lia. cbn [mbind option_bind]. rewrite option_guard_True by done. cbn [mbind option_bind]. rewrite option_guard_True by done. cbn [mbind option_bind].
      rewrite E1. cbn [mbind option_bind]. by rewrite refloat. }
  split; [intros; rewrite Hstep; apply E2|]. split; [done|]. split; [congruence|]. split; [done|]. intros x Hx. rewrite G4, H3 by done. unfold inClass. cbn [flat_map]. rewrite existsb_app.
  destruct (existsb _ (itemCharacters item)), (existsb _ (flat_map itemCharacters items)); done.
Qed.

(** An atom floats, and its strings are those of the expression. *)
Definition parsesTo (cs : bool) (r : regex) (t : Term) : Prop :=
  good t /\ (forall w, matches t w <-> rmatches cs r w) /\ forall bol groups sunk terms, Forall good terms ->
    handleAll (tokensOf r) (after cs bol groups sunk terms) = Some (after cs bol groups sunk (terms ++ [t])).

Lemma parses_quantified cs r t q (L : language) tokens : good t -> m_quantifier t = One -> (forall w, atom t w <-> L w) -> (forall w, rmatches cs r w <-> quantified q L w) ->
  tokensOf r = tokens ++ quantifierTokens q ->
  (forall bol groups sunk terms, Forall good terms -> handleAll tokens (after cs bol groups sunk terms) = Some (after cs bol groups sunk (terms ++ [t]))) ->
  parsesTo cs r (withQuantifier q t).
Proof.
  intros Hg Hq HL Hr Ht Hh. split; [by apply withQuantifier_good|]. split.
  - intros w. rewrite withQuantifier_matches, Hr by done. destruct q; cbn [quantified]; [apply HL|by rewrite HL|split; apply star_mono; intros u; apply HL|].
    unfold cat. setoid_rewrite HL. split; intros (u & v & -> & Hu & Hv); exists u, v; (split_and!; [done|done|]); (eapply star_mono; [|exact Hv]); intros x; apply HL.
  - intros bol groups sunk terms HG. rewrite Ht, handleAll_app, Hh by done. cbn [mbind option_bind]. by apply quantifier_tokens.
Qed.

Lemma set_good s q : okSet s -> has s 0 = false -> good (CharacterSetTerm s q).
Proof. intros Hs H0. split; [by apply okSetb_spec|]. by intros s' ->%list_elem_of_singleton. Qed.

Lemma empty_has inverted x : has (mkCharacterSet inverted 0 0) x = false.
Proof. unfold has. cbn. destruct (x <? 64); apply Z.bits_0. Qed.

Lemma empty_okSet inverted : okSet (mkCharacterSet inverted 0 0).
Proof. by apply okSetb_spec. Qed.

(** The members of a set without the end of the URL. *)
Lemma member_set s x : has s 0 = false -> member s x <-> character x /\ has s x = negb (m_inverted s).
Proof.
  intros H0. unfold member, character. destruct (m_inverted s); cbn [negb]; [tauto|]. split; intros [Hx Hh]; (split; [|done]); [|lia]. assert (x <> 0); [|lia]. intros ->. congruence.
Qed.

Lemma parses_character cs c q : 1 <= c <= 127 -> exists t, parsesTo cs (RCharacter c q) t.
Proof.
  intros Hc. destruct (addCharacter_spec emptyCharacterSet One c cs) as (s & E & Hs & Hi & Hh); [apply empty_okSet|lia|].
  assert (has s 0 = false) as H0 by (rewrite Hh, sameCharacter_null by lia; apply empty_has). exists (withQuantifier q (CharacterSetTerm s One)).
  apply (parses_quantified cs _ _ q (fun w => exists x, w = [x] /\ character x /\ sameCharacter cs c x = true) [atomPatternCharacter c]); try done; [by apply set_good| |].
  - intros w. cbn [atom]. pose proof (fun x => member_set s x H0) as Hm. setoid_rewrite Hm. rewrite Hi. cbn [negb m_inverted emptyCharacterSet]. assert (forall x, character x -> has s x = sameCharacter cs c x) as He.
    { intros x Hx. unfold character in Hx. rewrite Hh, (empty_has false x : has emptyCharacterSet x = false), orb_false_r by lia. done. }
    split; intros (x & -> & Hx & Hs'); exists x; (split_and!; [done|done|]); specialize (He x Hx); congruence.
  - intros bol groups sunk terms HG. cbn [handleAll]. unfold handle. rewrite after_ok, isASCII_spec, (proj2 (Z.ltb_lt c 128)) by lia. cbn [negb].
    change (m_patternIsCaseSensitive (after cs bol groups sunk terms)) with cs. unfold Term_character. rewrite E. by rewrite float_after.
Qed.

Lemma parses_dot cs q : exists t, parsesTo cs (RDot q) t.
Proof.
  exists (withQuantifier q (CharacterSetTerm universalSet One)).
  apply (parses_quantified cs _ _ q (fun w => exists x, w = [x] /\ character x) [atomBuiltInCharacterClass NewlineClassID true]); try done.
  - apply set_good; [apply universalSet_ok|vm_compute; reflexivity].
  - intros w. cbn [atom]. by setoid_rewrite universalSet_member.
  - intros bol groups sunk terms HG. cbn [handleAll]. unfold handle. rewrite after_ok, sink_after by done. cbn [mbind option_bind]. rewrite option_guard_True by done. cbn [mbind option_bind].
    rewrite bool_decide_true by done. cbn [andb]. rewrite UniversalTransition_eq. cbn [mbind option_bind]. by rewrite after_snoc.
Qed.

Lemma parses_class cs inverted items q : forallb okItem items = true -> exists t, parsesTo cs (RClass inverted items q) t.
Proof.
  intros Hok. assert (Term_characterSet inverted = Some (CharacterSetTerm (mkCharacterSet inverted 0 0) One)) as Ec by by destruct inverted.
  destruct (class_tokens cs items Hok (mkCharacterSet inverted 0 0)) as (s & E & Hs & Hi & H0 & Hh); [apply empty_okSet|apply empty_has|]. exists (withQuantifier q (CharacterSetTerm s One)).
  apply (parses_quantified cs _ _ q (fun w => exists x, w = [x] /\ character x /\ inClass cs items x = negb inverted) (atomCharacterClassBegin inverted :: (itemToken <$> items) ++ [atomCharacterClassEnd]));
    try done; [by apply set_good| |by cbn [tokensOf app]; rewrite <- app_assoc|].
  - intros w. cbn [atom]. pose proof (fun x => member_set s x H0) as Hm. setoid_rewrite Hm. rewrite Hi. cbn [m_inverted]. assert (forall x, character x -> has s x = inClass cs items x) as He.
    { intros x Hx. unfold character in Hx. rewrite Hh, empty_has, orb_false_r by lia. done. }
    split; intros (x & -> & Hx & Hs'); exists x; (split_and!; [done|done|]); specialize (He x Hx); congruence.
  - intros bol groups sunk terms HG. cbn [handleAll]. unfold handle at 1. rewrite after_ok, Ec, float_after by done. cbn [mbind option_bind]. rewrite handleAll_app, E. done.
Qed.

(** The atoms of a list, one after the other. *)
Lemma parses_list cs rs ts : Forall2 (parsesTo cs) rs ts ->
  Forall good ts /\ (forall w, cats matches ts w <-> cats (rmatches cs) rs w)
  /\ forall bol groups sunk terms, Forall good terms -> handleAll (flat_map tokensOf rs) (after cs bol groups sunk terms) = Some (after cs bol groups sunk (terms ++ ts)).
Proof.
  induction 1 as [|r t rs ts (Hg & Hm & Hh) _ (IG & IM & IH)].
  - split_and!; [constructor|done|]. intros. by rewrite app_nil_r.
  - split_and!; [by constructor|intros w; cbn [cats]; unfold cat; by setoid_rewrite Hm; setoid_rewrite IM|]. intros bol groups sunk terms HG. cbn [flat_map].
    rewrite handleAll_app, Hh by done. cbn [mbind option_bind]. rewrite IH by (apply Forall_app; split; [done|by apply Forall_singleton]). by rewrite <- app_assoc.
Qed.

Lemma parses_group cs rs ts q : Forall2 (parsesTo cs) rs ts -> parsesTo cs (RGroup rs q) (withQuantifier q (Group ts One)).
Proof.
  intros HF. destruct (parses_list cs rs ts HF) as (HG & HM & HH).
  apply (parses_quantified cs _ _ q (cats (rmatches cs) rs) (atomParenthesesSubpatternBegin :: flat_map tokensOf rs ++ [atomParenthesesEnd])); try done;
    [by apply good_group|by cbn [tokensOf app]; rewrite <- app_assoc|].
  intros bol groups sunk terms Ht. cbn [handleAll]. unfold handle at 1. rewrite after_ok, sink_after by done. cbn [mbind option_bind]. rewrite handleAll_app.
  change (setOpenGroups (GroupTerm :: m_openGroups (sunkState cs bol groups sunk terms None)) (sunkState cs bol groups sunk terms None))
    with (after cs bol ([] :: sinkGroups terms groups) (sinkTerms terms groups sunk) []).
  rewrite HH by constructor. cbn [app mbind option_bind handleAll]. unfold handle. rewrite after_ok, sink_after by done. cbn [mbind option_bind]. rewrite option_guard_True by done. by rewrite after_snoc.
Qed.

Lemma parses_regex cs r : okRegex r = true -> exists t, parsesTo cs r t.
Proof.
  induction r as [c q|q|inverted items q|rs q IH] using regex_induction; cbn [okRegex]; intros Hok.
  - apply andb_true_iff in Hok as [H1%Z.leb_le H2%Z.leb_le]. by apply parses_character.
  - apply parses_dot.
  - by apply parses_class.
  - rewrite forallb_forall in Hok. assert (exists ts, Forall2 (parsesTo cs) rs ts) as [ts HF]; [|exists (withQuantifier q (Group ts One)); by apply parses_group].
    assert (Forall (fun r => exists t, parsesTo cs r t) rs) as H. { rewrite Forall_forall in *. intros r Hr. apply IH; [done|]. by apply Hok, list_elem_of_In. }
    clear -H. induction H as [|r rs [t Ht] _ [ts IH]]; [by exists []|]. exists (t :: ts). by constructor.
Qed.

(** ** Patterns *)

Lemma parses_body cs rs : forallb okRegex rs = true -> exists ts, Forall2 (parsesTo cs) rs ts.
Proof.
  induction rs as [|r rs IH]; cbn [forallb]; [by exists []|]. intros [Hr Hrs]%andb_true_iff. destruct (parses_regex cs r Hr) as [t Ht], (IH Hrs) as [ts Hts]. exists (t :: ts). by constructor.
Qed.

Lemma handle_pattern cs p ts : Forall2 (parsesTo cs) (body p) ts -> handleAll (patternTokens p) (newParser cs) = Some (after cs (begins p) [] [] (ts ++ ends (finishes p))).
Proof.
  intros HF. destruct (parses_list cs (body p) ts HF) as (HG & _ & HH). unfold patternTokens. rewrite handleAll_app.
  assert (handleAll (if begins p then [assertionBOL] else []) (newParser cs) = Some (after cs (begins p) [] [] [])) as -> by by destruct (begins p).
  cbn [mbind option_bind]. rewrite handleAll_app, HH by constructor. cbn [mbind option_bind app]. destruct (finishes p); cbn [ends]; [|by rewrite app_nil_r].
  cbn [handleAll]. unfold handle. by rewrite after_ok, EndOfLineAssertionTerm_eq, float_after.
Qed.

(** The last term sinks. *)
Lemma sink_pattern cs bol e ts : Forall good ts -> exists p, sinkFloatingTermIfNecessary (after cs bol [] [] (ts ++ ends e)) = Some p
  /\ m_sunkTerms p = ts ++ ends e /\ m_floatingTerm p = Empty One /\ m_hasBeginningOfLineAssertion p = bol /\ m_parseStatus p = Ok.
Proof.
  intros HG. destruct e; cbn [ends].
  - rewrite after_snoc. unfold sinkFloatingTermIfNecessary. cbn [sunkState state m_floatingTerm m_hasProcessedEndOfLineAssertion]. replace (isValid endTerm) with true by done. cbn [negb].
    destruct endTerm_tests as (-> & _ & _). cbn [mbind option_bind]. eexists. split; [reflexivity|]. done.
  - rewrite app_nil_r, sink_after by done. eexists. split; [reflexivity|]. done.
Qed.

Lemma matchesEverything_spec T e : Forall good T ->
  exists b, matchesEverything (T ++ ends e) = Some b /\ (b = true -> Forall (fun t => matches t []) T) /\ (b = false -> T ++ ends e <> []).
Proof.
  intros HG. unfold matchesEverything. destruct (anyTerm_spec matchesAtLeastOneCharacter (fun _ => True) (T ++ ends e)) as (b & E & Hb).
  { apply Forall_app. split; [eapply Forall_impl; [exact HG|]; intros t Ht; destruct (good_needs t Ht) as (b & E); by exists b|].
    destruct e; [|constructor]. apply Forall_singleton. exists false. destruct endTerm_tests as (_ & _ & E). done. }
  rewrite E. cbn [mbind option_bind]. exists (negb b). split; [done|]. split.
  - intros ->%negb_true_iff. apply anyTerm_false, Forall_app in E as [E _]. rewrite Forall_forall in *. intros t Ht. apply good_empty; auto.
  - intros ->%negb_false_iff. destruct (Hb eq_refl) as (t & Ht & _). intros En. rewrite En in Ht. by apply not_elem_of_nil in Ht.
Qed.

(** Starting anywhere is starting after any string. *)
Lemma starts_pattern cs p ts url : Forall2 (parsesTo cs) (body p) ts -> Forall character url ->
  starts (if begins p then cats matches (ts ++ ends (finishes p)) else cat (Forall character) (cats matches (ts ++ ends (finishes p)))) url <-> patternMatches cs p url.
Proof.
  intros HF Hu. destruct (parses_list cs (body p) ts HF) as (HG & HM & _). unfold patternMatches, starts.
  assert (forall u w, Forall character u -> cats matches ts w -> (u ++ w) ++ (if finishes p then [0] else []) `prefix_of` url ++ [0] ->
    exists v, url = u ++ w ++ v /\ (finishes p = true -> v = [])) as Hin.
  { intros u w Hw Hc Hp. pose proof (goods_words ts w HG Hc) as Hwc. destruct (finishes p).
    - apply prefix_end in Hp as <-; [|done]. exists []. by rewrite app_nil_r.
    - rewrite app_nil_r in Hp. apply prefix_characters in Hp as [v ->]; [|done|by apply Forall_app]. exists v. by rewrite <- app_assoc. }
  assert (forall u w v, url = u ++ w ++ v -> (finishes p = true -> v = []) -> (u ++ w) ++ (if finishes p then [0] else []) `prefix_of` url ++ [0]) as Hout.
  { intros u w v -> Hv. destruct (finishes p); [rewrite Hv, app_nil_r by done; done|]. rewrite app_nil_r. exists (v ++ [0]). by rewrite <- !app_assoc. }
  destruct (begins p); split.
  - intros (q & Hq & (w & Hw & ->)%cats_ends). destruct (Hin [] w (Forall_nil_2 _) Hw Hq) as (v & -> & Hv). exists [], w, v. split_and!; try done. by apply HM.
  - intros (u & w & v & E & Hw%HM & Hb & Hv). rewrite (Hb eq_refl) in E. exists (w ++ (if finishes p then [0] else [])). split; [by apply (Hout [] w v)|]. apply cats_ends. by exists w.
  - intros (q & Hq & u & x & -> & Hu' & (w & Hw & ->)%cats_ends). rewrite app_assoc in Hq. destruct (Hin u w Hu' Hw Hq) as (v & -> & Hv). exists u, w, v. split_and!; try done. by apply HM.
  - intros (u & w & v & E & Hw%HM & Hb & Hv). exists (u ++ w ++ (if finishes p then [0] else [])). split; [rewrite app_assoc; by apply (Hout u w v)|].
    exists u, (w ++ (if finishes p then [0] else [])). split_and!; [done|by rewrite E, !Forall_app in Hu; tauto|]. apply cats_ends. by exists w.
Qed.

(** A pattern of the filters starts the URL. *)
Definition filtersFind (filters : PrefixTreeVertex) (url : list Z) (a : Z) : Prop := starts (fun w => treeFinds filters w a) url.


(** * Patterns on which the theorem applies, and some on which it does not *)

Import Term CombinedURLFilters URLFilterParser.

(** [ads?[0-9]+$], ignoring case. *)
Definition examplePattern : pattern :=
  mkPattern false [RCharacter 97 One; RCharacter 100 One; RCharacter 115 ZeroOrOne; RClass false [ItemRange 48 57] OneOrMore] true.

(** A parser that knows this pattern only. *)
Definition exampleYarr (source : list Z) : list Token * bool := if bool_decide (source = chrs "ads?[0-9]+$") then (patternTokens examplePattern, false) else ([], true).


Example addFilter_status : fst <$> addFilter exampleYarr (chrs "ads?[0-9]+$") false 5 emptyFilters = Some Ok.
Proof. vm_compute. reflexivity. Qed.

(** ** A pattern with an assertion at both ends

    [^a?$] is said to match everything. *)

Definition anchoredPattern : pattern := mkPattern true [RCharacter 97 ZeroOrOne] true.

Theorem anchored_matchesEverything :
  addFilter (fun _ => (patternTokens anchoredPattern, false)) (chrs "^a?$") true 1 emptyFilters = Some (MatchesEverything, emptyFilters)
  /\ ~ patternMatches true anchoredPattern (chrs "b").
Proof.
  split; [vm_compute; reflexivity|]. intros (u & w & v & E & Hw & Hu & Hv). rewrite (Hu eq_refl), (Hv eq_refl), app_nil_r in E. cbn [app] in E. subst w.
  apply cats_one in Hw as [Hw|(x & Hx & _ & Hs)]; [done|]. injection Hx as <-. vm_compute in Hs. done.
Qed.

(** ** Null characters in a class

    [foo.*[^\0]]: the class of all characters but the null character is taken
    for the end of the URL, and with the term before it goes away. *)

Definition nullPattern : pattern := mkPattern false [RCharacter 102 One; RCharacter 111 One; RCharacter 111 One; RDot ZeroOrMore; RClass true [ItemCharacter 0] One] false.

Definition nullFilters : PrefixTreeVertex :=
  match addFilter (fun _ => (patternTokens nullPattern, false)) (chrs "foo.*[^\0]") true 1 emptyFilters with Some (Ok, filters) => filters | _ => emptyFilters end.

Lemma nullFilters_eq :
  addFilter (fun _ => (patternTokens nullPattern, false)) (chrs "foo.*[^\0]") true 1 emptyFilters = Some (Ok, nullFilters)
  /\ exists f o, Term_character 102 true = Some f /\ Term_character 111 true = Some o /\ nullFilters = extendTree 1 [dotStarTerm; f; o; o] emptyFilters.
Proof. split; [vm_compute; reflexivity|]. eexists _, _. split; [vm_compute; reflexivity|]. split; [vm_compute; reflexivity|]. vm_compute. reflexivity. Qed.

Theorem null_class_dropped :
  addFilter (fun _ => (patternTokens nullPattern, false)) (chrs "foo.*[^\0]") true 1 emptyFilters = Some (Ok, nullFilters)
  /\ filtersFind nullFilters (chrs "foo") 1 /\ ~ patternMatches true nullPattern (chrs "foo").
Proof.
  destruct nullFilters_eq as (E & f & o & Ef & Eo & Et). split; [exact E|]. split.
  - rewrite Et. exists (chrs "foo"). split; [by exists [0]|]. exists [dotStarTerm; f; o; o]. split; [apply extendTree_patterns; right; split; reflexivity|].
    destruct (character_term 102) as (f' & Ef' & _ & Hf); [lia|]. destruct (character_term 111) as (o' & Eo' & _ & Ho); [lia|]. rewrite Ef in Ef'. rewrite Eo in Eo'. injection Ef' as <-. injection Eo' as <-.
    exists [], [102; 111; 111]. split; [reflexivity|]. split; [apply dotStarTerm_matches; constructor|]. exists [102], [111; 111]. split; [reflexivity|]. split; [apply Hf; reflexivity|].
    exists [111], [111]. split; [reflexivity|]. split; [apply Ho; reflexivity|]. apply (cats_one matches), Ho. reflexivity.
  - intros (u & w & v & Ew & Hw & _). apply (f_equal length) in Ew. rewrite !length_app in Ew.
    destruct Hw as (w1 & r1 & -> & (x1 & -> & _) & w2 & r2 & -> & (x2 & -> & _) & w3 & r3 & -> & (x3 & -> & _) & w4 & r4 & -> & _ & w5 & r5 & -> & (x5 & -> & _) & _).
    rewrite !length_app in Ew. cbn in Ew. lia.
Qed.

(** ** Characters that are not ASCII in a class

    The pattern has ASCII characters only, an escape sequence gives the other:
    outside of a class it is an error, inside it fails an assertion. *)
Theorem non_ascii_class_fails :
  (p ← handleAll [atomPatternCharacter 233] (newParser true); Some (m_parseStatus p)) = Some NonASCII
  /\ handleAll [atomCharacterClassBegin false; atomCharacterClassAtom 233] (newParser true) = None /\ set 233 emptyCharacterSet = None.
Proof. split_and!; vm_compute; reflexivity. Qed.

(** ** Patterns with an error are added

    [a$b]: the error shows when the last term sinks, after which the terms
    before it are still added. *)
Definition misplacedTokens : list Token := [atomPatternCharacter 97; assertionEOL; atomPatternCharacter 98].

Theorem misplaced_pattern_added :
  exists filters, addFilter (fun _ => (misplacedTokens, false)) (chrs "a$b") true 1 emptyFilters = Some (MisplacedEndOfLine, filters) /\ isEmpty filters = false.
Proof. eexists. split; [vm_compute; reflexivity|]. vm_compute. reflexivity. Qed.
