(* ===== verification/RuleListCompiler.v ===== *)
(** * RuleListCompiler: from a rule list to what the client writes

    Translated from src/Source/WebCore/contentextensions/ContentExtensionCompiler.cpp:
    [compileRuleList] and [compileToBytecode], which take the rules through the
    filters, the automata and the bytecode.  The rules are those that the JSON
    reader returns, or its error; the tokens of a pattern are those of the
    regular expression parser.  The orders of hash tables and the number of
    rounds of the powerset construction are arguments. *)

From stdpp Require Import gmap.
From S2P Require Import Prelude DFA DFABytecode DFABytecodeCompiler ContentExtensionRule ContentExtensionCompiler DFAMinimizer DFACombiner NFA NFAToDFA Term CombinedURLFilters CombinedURLFiltersProcess URLFilterParser.
Import DFABytecode ContentExtensionRule.

Module RuleListCompiler.

Inductive ContentExtensionError :=
| JSONInvalid | JSONTopLevelStructureNotAnObject | JSONTopLevelStructureNotAnArray | JSONInvalidObjectInTopLevelArray | JSONInvalidRule | JSONContainsNoRules
| JSONInvalidTrigger | JSONInvalidURLFilterInTrigger | JSONInvalidTriggerFlagsArray | JSONInvalidObjectInTriggerFlagsArray | JSONInvalidStringInTriggerFlagsArray
| JSONInvalidConditionList | JSONDomainNotLowerCaseASCII | JSONMultipleConditions | JSONTopURLAndDomainConditions | JSONTooManyRules
| JSONInvalidAction | JSONInvalidActionType | JSONInvalidCSSDisplayNoneActionType | JSONInvalidRegex.

(** The functions of the client, in the order in which they are called. *)
Inductive ClientCall :=
| writeSource (source : list Z)
| writeActions (actions : list Z) (conditionsApplyOnlyToDomain : bool)
| writeFiltersWithoutConditionsBytecode (bytecode : list Z)
| writeFiltersWithConditionsBytecode (bytecode : list Z)
| writeTopURLFiltersBytecode (bytecode : list Z)
| finalizeClient.

Section Compile.

Context (targetOrder nodeOrder actionOrder : gset Z -> list Z) (stateOrder : gmap (list Z) (list nat) -> list (list nat)) (rounds : nat).

(** ** [compileToBytecode] *)

Definition addUniversalActionsToDFA (dfa : DFA.DFA) (universalActions : gset Z) : option DFA.DFA :=
  if decide (universalActions = ∅) then Some dfa
  else
    root ← DFA.at_ (DFA.nodes dfa) (DFA.root dfa);
    guard (DFA.m_actionsLength root = 0);;
    let actionsStart := u32 (Z.of_nat (length (DFA.dfa_actions dfa))) in
    let actions := DFA.dfa_actions dfa ++ actionOrder universalActions in
    let actionsEnd := u32 (Z.of_nat (length actions)) in
    let actionsLength := u32 (actionsEnd - actionsStart) in
    guard (actionsLength < 2 ^ 16 - 1);;
    root ← DFA.setActions actionsStart (actionsLength mod 2 ^ 16) root;
    Some (DFA.mkDFA (<[Z.to_nat (DFA.root dfa) := root]> (DFA.nodes dfa)) actions (DFA.transitionRanges dfa) (DFA.transitionDestinations dfa) (DFA.root dfa)).

(** [firstNFASeen], and what has been written. *)
Record Lowering := mkLowering { firstNFASeen : bool; written : list (list Z) }.

(** [lowerDFAToBytecode] *)
Definition lowerDFAToBytecode (universalActions : gset Z) (s : Lowering) (dfa : DFA.DFA) : option Lowering :=
  root ← DFA.at_ (DFA.nodes dfa) (DFA.root dfa);
  guard (DFA.hasActions root = false);;
  dfa ← (if firstNFASeen s then Some dfa else addUniversalActionsToDFA dfa universalActions);
  bytecode ← DFABytecodeCompiler.compile dfa [];
  Some (mkLowering true (written s ++ [bytecode])).

Definition maxNFASize : Z := 75000.
Definition smallDFASize : Z := 100.

(** What is done with an NFA; the small automata are kept in the combiner. *)
Definition handleNFA (universalActions : gset Z) (s : Lowering * list DFA.DFA) (nfa : NFA.NFA) : option (Lowering * list DFA.DFA) :=
  let '(lowering, smallDFACombiner) := s in
  dfa ← NFAToDFA.convert nodeOrder actionOrder rounds nfa;
  if DFA.graphSize dfa <? smallDFASize then
    smallDFACombiner ← DFACombiner.addDFA stateOrder smallDFACombiner dfa;
    Some (lowering, smallDFACombiner)
  else
    dfa ← DFAMinimizer.minimize stateOrder dfa;
    lowering ← lowerDFAToBytecode universalActions lowering dfa;
    Some (lowering, smallDFACombiner).

(** The bytecode that is written. *)
Definition compileToBytecode (filters : CombinedURLFilters.PrefixTreeVertex) (universalActions : gset Z) : option (list (list Z)) :=
  '(nfas, filters) ← CombinedURLFiltersProcess.processNFAs targetOrder actionOrder maxNFASize filters;
  '(lowering, smallDFACombiner) ← DFAMinimizer.foldlM (handleNFA universalActions) (mkLowering false [], []) nfas;
  dfas ← DFACombiner.combineDFAs actionOrder stateOrder smallDFASize smallDFACombiner;
  lowering ← DFAMinimizer.foldlM (lowerDFAToBytecode universalActions) lowering dfas;
  guard (CombinedURLFilters.isEmpty filters = true);;
  if firstNFASeen lowering then Some (written lowering)
  else
    dummyDFA ← addUniversalActionsToDFA DFA.empty universalActions;
    bytecode ← DFABytecodeCompiler.compile dummyDFA [];
    Some (written lowering ++ [bytecode]).

(** ** [compileRuleList] *)

(** Whether there are conditions on domains, and on top URLs. *)
Fixpoint conditionsSeen (rules : list Rule) (domainConditionSeen topURLConditionSeen : bool) : bool * bool :=
  match rules with
  | [] => (domainConditionSeen, topURLConditionSeen)
  | rule :: rules =>
      match conditionType (trigger rule) with
      | NoCondition => conditionsSeen rules domainConditionSeen topURLConditionSeen
      | IfDomain | UnlessDomain => conditionsSeen rules true topURLConditionSeen
      | IfTopURL | UnlessTopURL => conditionsSeen rules domainConditionSeen true
      end
  end.

(** Filters, and the actions of the patterns that match everything. *)
Definition FilterSet : Type := CombinedURLFilters.PrefixTreeVertex * gset Z.

Record RuleFilters := mkRuleFilters { withoutConditions : FilterSet; withConditions : FilterSet; topURL : FilterSet }.

Context (yarr : list Z -> list URLFilterParser.Token * bool).

(** [addPattern], and what follows each call of it: [None] is an error of the
    pattern. *)
Definition addPatternOrUniversal (pattern : list Z) (isCaseSensitive : bool) (actionLocationAndFlags : Z) (s : FilterSet) : option (option FilterSet) :=
  let '(filters, universal) := s in
  '(status, filters) ← URLFilterParser.addFilter yarr pattern isCaseSensitive actionLocationAndFlags filters;
  match status with
  | URLFilterParser.Ok => Some (Some (filters, universal))
  | URLFilterParser.MatchesEverything => Some (Some (filters, universal ∪ {[ actionLocationAndFlags ]}))
  | _ => Some None
  end.

(** The loop over the conditions of a rule. *)
Fixpoint addConditions (domainConditionSeen topURLConditionSeen : bool) (t : Trigger) (actionLocationAndFlags : Z) (conditions : list (list Z)) (s : FilterSet) : option (option FilterSet) :=
  match conditions with
  | [] => Some (Some s)
  | condition :: conditions =>
      if domainConditionSeen then
        guard (topURLConditionSeen = false);;
        filters ← CombinedURLFilters.addDomain actionLocationAndFlags condition (fst s);
        addConditions domainConditionSeen topURLConditionSeen t actionLocationAndFlags conditions (filters, snd s)
      else
        guard (topURLConditionSeen = true);;
        result ← addPatternOrUniversal condition (topURLConditionIsCaseSensitive t) actionLocationAndFlags s;
        match result with
        | Some s => addConditions domainConditionSeen topURLConditionSeen t actionLocationAndFlags conditions s
        | None => Some None
        end
  end.

(** The body of the loop over the rules. *)
Definition compileRule (domainConditionSeen topURLConditionSeen : bool) (rule : Rule) (actionLocation : Z) (s : RuleFilters) : option (option RuleFilters) :=
  let t := trigger rule in
  guard (urlFilter t <> []);;
  let flagBits := Z.shiftl (flags t) 32 in
  guard (flags t = 0 \/ Z.land ActionFlagMask flagBits <> 0);;
  guard (Z.ldiff flagBits ActionFlagMask = 0);;
  let actionLocationAndFlags := Z.lor flagBits actionLocation in
  match conditions t with
  | [] =>
      guard (conditionType t = NoCondition);;
      result ← addPatternOrUniversal (urlFilter t) (urlFilterIsCaseSensitive t) actionLocationAndFlags (withoutConditions s);
      match result with
      | Some withoutConditions => Some (Some (mkRuleFilters withoutConditions (withConditions s) (topURL s)))
      | None => Some None
      end
  | conditions =>
      actionLocationAndFlags ← match conditionType t with
        | IfDomain | IfTopURL => Some (Z.lor actionLocationAndFlags IfConditionFlag)
        | NoCondition | UnlessDomain | UnlessTopURL => guard (Z.land actionLocationAndFlags IfConditionFlag = 0);; Some actionLocationAndFlags
        end;
      result ← addPatternOrUniversal (urlFilter t) (urlFilterIsCaseSensitive t) actionLocationAndFlags (withConditions s);
      match result with
      | None => Some None
      | Some withConditions =>
          result ← addConditions domainConditionSeen topURLConditionSeen t actionLocationAndFlags conditions (topURL s);
          match result with
          | Some topURL => Some (Some (mkRuleFilters (withoutConditions s) withConditions topURL))
          | None => Some None
          end
      end
  end.

(** [for (unsigned ruleIndex = 0; ...)] *)
Fixpoint compileRules (domainConditionSeen topURLConditionSeen : bool) (actionLocations : list Z) (ruleIndex : nat) (rules : list Rule) (s : RuleFilters) : option (option RuleFilters) :=
  match rules with
  | [] => Some (Some s)
  | rule :: rules =>
      actionLocation ← actionLocations !! ruleIndex;
      result ← compileRule domainConditionSeen topURLConditionSeen rule actionLocation s;
      match result with
      | Some s => compileRules domainConditionSeen topURLConditionSeen actionLocations (S ruleIndex) rules s
      | None => Some None
      end
  end.

Context (hashOrder : ContentExtensionCompiler.PendingMap -> ContentExtensionCompiler.PendingMap).

Definition emptyFilterSet : FilterSet := (CombinedURLFilters.emptyFilters, ∅).

(** What the client is told, and the error. *)
Definition compileRuleList (ruleJSON : list Z) (ruleList : ContentExtensionError + list Rule) : option (list ClientCall * option ContentExtensionError) :=
  match ruleList with
  | inl error => Some ([], Some error)
  | inr parsedRuleList =>
      let '(domainConditionSeen, topURLConditionSeen) := conditionsSeen parsedRuleList false false in
      if topURLConditionSeen && domainConditionSeen then Some ([], Some JSONTopURLAndDomainConditions)
      else
        '(actionLocations, actions) ← ContentExtensionCompiler.serializeActions hashOrder parsedRuleList;
        let calls := [writeSource ruleJSON; writeActions actions domainConditionSeen] in
        result ← compileRules domainConditionSeen topURLConditionSeen actionLocations 0 parsedRuleList (mkRuleFilters emptyFilterSet emptyFilterSet emptyFilterSet);
        match result with
        | None => Some (calls, Some JSONInvalidRegex)
        | Some s =>
            let compile filterSet := compileToBytecode (fst filterSet) (snd filterSet) in
            without ← compile (withoutConditions s);
            with_ ← compile (withConditions s);
            top ← compile (topURL s);
            Some (calls ++ (writeFiltersWithoutConditionsBytecode <$> without) ++ (writeFiltersWithConditionsBytecode <$> with_)
                    ++ (writeTopURLFiltersBytecode <$> top) ++ [finalizeClient], None)
        end
  end.

End Compile.

End RuleListCompiler.
