(* ===== verification/RuleListCompilerCorrect.v ===== *)
(** * RuleListCompilerCorrect: the bytecode finds what the patterns match

    The passes of [compileToBytecode] one after the other: the automata of the
    filters are converted, minimized, combined and compiled, each pass keeps
    which actions a word finds, and the universal actions are put on the root of
    the first automaton.  Two examples at the end show what happens where a
    condition of the theorem fails. *)

From stdpp Require Import gmap relations sorting.
From S2P Require Import Prelude ASCIICType DFA DFABytecode DFABytecodeCompiler DFABytecodeInterpreter DFATransitions DFACompile DFARun DFASimulation DFAProperties ContentExtensionRule MutableRangeList NFA NFAToDFA NFAToDFAClosure NFAToDFACorrect DFAMinimizer DFAMinimizerCorrect DFACombiner DFACombinerCorrect Term TermLanguage ImmutableNFANodeBuilder NFAFragment TermGraph CombinedURLFilters CombinedURLFiltersTree CombinedURLFiltersProcess CombinedURLFiltersGraph CombinedURLFiltersSubtree CombinedURLFiltersProcessCorrect URLFilterParser URLFilterParserCorrect RuleListCompiler.
Import Term CombinedURLFilters RuleListCompiler.

#[local] Open Scope Z_scope.

(** ** From an NFA to an automaton of the combiner *)

Section Built.

Context (nfa : NFA.NFA) (b : NFAToDFA.Builder) (U : gset Z) (L : Z -> Prop).
Hypothesis HB : BInv nfa b [] (transitionCount b).
Hypothesis Hu : NFAToDFA.unprocessed b = [].
Hypothesis Hfew : Z.of_nat (length (NFAToDFA.uniqueNodeIdSetTable b)) * 128 < 2 ^ 32.
(** The actions and characters of the NFA, and a word it reads. *)
Hypothesis HU : forall w x, nfaFinds nfa w x -> x ∈ U.
Hypothesis HL : forall i c j, step nfa c i j -> L c.
Hypothesis Hread : exists c w k, nfaRun nfa 0 (c :: w) k.

Lemma built_minimize : okMinimize (NFAToDFA.dfa b) /\ hasStep (NFAToDFA.dfa b).
Proof using HB Hu Hfew Hread.
  pose proof (b_length _ _ _ _ HB) as Hlen. destruct (b_first _ _ _ _ HB) as (i0 & Hi0 & _). pose proof (lookup_lt_Some _ _ _ Hi0) as Hpos.
  assert (hasStep (NFAToDFA.dfa b)) as Hstep.
  { destruct Hread as (c & w & k & Hk). pose proof (built_walk nfa b (c :: w) HB Hu) as Hw. cbn [walk] in Hw. destruct (delta (NFAToDFA.dfa b) (DFA.root (NFAToDFA.dfa b)) c) as [m|] eqn:E; [by exists c, m|]. by apply Hw in Hk. }
  split; [|done]. split.
  - rewrite (b_root _ _ _ _ HB). lia.
  - intros i node Hn. assert (DFA.at_ (DFA.nodes (NFAToDFA.dfa b)) (Z.of_nat i) = Some node) as Hat by (by rewrite at_nat). destruct (built_entry nfa b HB Hu _ _ Hat) as (k & impl & acts & E & Hk & Hf & Ha & _ & ts & Et & Hts & Hm).
    split_and!; [unfold DFA.isKilled; by rewrite Hf|by apply (sl_actions _ _ (b_slices _ _ _ _ HB) i)|by apply (sl_transitions _ _ (b_slices _ _ _ _ HB) i)|]. exists acts, ts. split_and!; try done.
    intros r d Hr. specialize (Hm (DFA.first r)). rewrite (goes_elem ts r d Hts Hr) in Hm. destruct Hm as (iq & Hq%lookup_lt_Some & _). destruct Hts as [Hts _]. rewrite Forall_forall in Hts. destruct (Hts _ Hr) as (_ & _ & Hd). cbn in Hd. lia.
  - destruct Hstep as (c & m & Hd). rewrite (b_root _ _ _ _ HB) in Hd. destruct (lookup_lt_is_Some_2 (DFA.nodes (NFAToDFA.dfa b)) 0) as [node Hn]; [lia|]. unfold delta, DFABytecodeCompiler.at_ in Hd. change 0 with (Z.of_nat 0) in Hd. rewrite at_nat, Hn in Hd. cbn [mbind option_bind] in Hd.
    destruct (DFA.transitions node (NFAToDFA.dfa b)) as [ts|] eqn:Et; [|done]. exists 0%nat, node, ts. split_and!; try done. by intros ->.
  - apply (sl_disjoint _ _ (b_slices _ _ _ _ HB)).
Qed.

Lemma built_combinable : Combinable U L (NFAToDFA.dfa b).
Proof using HB Hu Hfew HU HL Hread.
  destruct built_minimize as [HM Hstep]. apply prepared_combinable.
  - split; try done.
    + intros n x Hx. unfold actionsOf in Hx. destruct (DFABytecodeCompiler.at_ (DFA.nodes (NFAToDFA.dfa b)) n) as [node|] eqn:Hat; cbn [mbind option_bind] in Hx; [|by apply not_elem_of_nil in Hx].
      destruct (built_entry nfa b HB Hu _ _ Hat) as (k & impl & acts & -> & Hk & _ & Ha & Hacts & _). rewrite Ha in Hx. cbn in Hx. pose proof (b_entries _ _ _ _ HB) as HE. rewrite Forall_forall in HE. destruct (entry_reach _ _ (HE impl ltac:(by eapply list_elem_of_lookup_2))) as [w Hw].
      apply (HU w). apply (actionsAt_finds nfa w (NFAToDFA.m_buffer impl)); [done|]. by apply Hacts.
    + rewrite (b_length _ _ _ _ HB). unfold DFACombiner.invalidNodeIndex. lia.
  - intros i c m (node & Hat & _) Hd. unfold delta in Hd. rewrite Hat in Hd. cbn [mbind option_bind] in Hd. destruct (built_entry nfa b HB Hu _ _ Hat) as (k & impl & acts & -> & Hk & _ & _ & _ & ts & Et & Hts & Hm). rewrite Et in Hd. cbn [mbind option_bind] in Hd. specialize (Hm c). rewrite Hd in Hm.
    destruct Hm as (iq & Hq & Hj). pose proof (b_entries _ _ _ _ HB) as HE. rewrite Forall_forall in HE. destruct (entry_inhabited _ _ (HE iq ltac:(by eapply list_elem_of_lookup_2))) as [j Hj']. apply Hj in Hj' as (i1 & i2 & _ & Hst & _). by apply HL in Hst.
Qed.

Lemma built_finds w x : finds (NFAToDFA.dfa b) w x <-> nfaFinds nfa w x.
Proof using HB Hu.
  pose proof (built_walk nfa b w HB Hu) as Hw. unfold finds. destruct (walk (NFAToDFA.dfa b) (DFA.root (NFAToDFA.dfa b)) w) as [m|].
  - destruct Hw as [_ Hw]. rewrite <- Hw. split; [by intros (n & [= ->] & Hx)|by exists m].
  - split; [by intros (n & ? & _)|]. intros (k & acts & Hk & _). by apply Hw in Hk.
Qed.

End Built.

Section Compile.

Context (targetOrder nodeOrder actionOrder : gset Z -> list Z) (stateOrder : gmap (list Z) (list nat) -> list (list nat)) (rounds : nat).
Hypothesis targets_ok : forall s, targetOrder s ≡ₚ elements s.
Hypothesis nodes_ok : forall s, nodeOrder s ≡ₚ elements s.
Hypothesis actions_ok : forall s, actionOrder s ≡ₚ elements s.
Hypothesis states_ok : forall states, stateOrder states ≡ₚ (map_to_list states).*2.

(** The rounds are enough for the sets of nodes that words lead to. *)
Definition convertible (nfa : NFA.NFA) : Prop := exists S, FewSets nfa S /\ (size S <= rounds)%nat.

Section Automata.

Context (U : gset Z) (L : Z -> Prop).
Hypothesis U_size : Z.of_nat (size U) < 2 ^ 16.

(** An automaton of filters: its actions and characters are known, and it reads
    some character. *)
Record Piecewise (nfa : NFA.NFA) : Prop := {
  pw_ok : okNFA nfa;
  pw_sets : convertible nfa;
  pw_actions : forall w x, nfaFinds nfa w x -> x ∈ U;
  pw_labels : forall i c j, step nfa c i j -> L c;
  pw_reads : exists c w k, nfaRun nfa 0 (c :: w) k }.

Lemma convert_combinable nfa : Piecewise nfa ->
  exists d, NFAToDFA.convert nodeOrder actionOrder rounds nfa = Some d /\ okMinimize d /\ Combinable U L d /\ forall w x, finds d w x <-> nfaFinds nfa w x.
Proof using nodes_ok actions_ok.
  intros [Hok (S & HS & Hr) HU HL Hread]. destruct (convert_BInv nodeOrder actionOrder nfa S nodes_ok actions_ok Hok HS rounds Hr) as (b & E & HB & Hu & Hl). exists (NFAToDFA.dfa b). pose proof (few_transitions _ _ HS) as Ht.
  assert (Z.of_nat (length (NFAToDFA.uniqueNodeIdSetTable b)) * 128 < 2 ^ 32) as Hfew by lia. split_and!; [done|by apply (built_minimize nfa)|by apply (built_combinable nfa)|]. intros w x. by apply built_finds.
Qed.

(** What becomes of the automata without the bytecode: the large ones, and what
    is in the combiner. *)
Definition sortNFA (s : list DFA.DFA * list DFA.DFA) (nfa : NFA.NFA) : option (list DFA.DFA * list DFA.DFA) :=
  let '(large, small) := s in
  dfa ← NFAToDFA.convert nodeOrder actionOrder rounds nfa;
  if DFA.graphSize dfa <? smallDFASize then small ← DFACombiner.addDFA stateOrder small dfa; Some (large, small)
  else dfa ← DFAMinimizer.minimize stateOrder dfa; Some (large ++ [dfa], small).

(** The automata that become bytecode, in their order. *)
Definition automata (nfas : list NFA.NFA) : option (list DFA.DFA) :=
  '(large, small) ← DFAMinimizer.foldlM sortNFA ([], []) nfas;
  combined ← DFACombiner.combineDFAs actionOrder stateOrder smallDFASize small;
  Some (large ++ combined).

Lemma found_app ds ds' w x : found (ds ++ ds') w x <-> found ds w x \/ found ds' w x.
Proof. apply Exists_app. Qed.

Lemma found_one d w x : found [d] w x <-> finds d w x.
Proof. unfold found. rewrite Exists_cons, Exists_nil. tauto. Qed.

Lemma sortNFAs_spec nfas : Forall Piecewise nfas -> forall large small, Forall (Combinable U L) large -> Forall (Combinable U L) small ->
  exists large' small', DFAMinimizer.foldlM sortNFA (large, small) nfas = Some (large', small') /\ Forall (Combinable U L) large' /\ Forall (Combinable U L) small'
    /\ forall w x, found (large' ++ small') w x <-> found (large ++ small) w x \/ exists nfa, nfa ∈ nfas /\ nfaFinds nfa w x.
Proof using nodes_ok actions_ok states_ok.
  induction 1 as [|nfa nfas Hp _ IH]; intros large small Hl Hs; cbn [DFAMinimizer.foldlM].
  - exists large, small. split_and!; try done. intros w x. split; [by left|]. intros [?|(? & []%not_elem_of_nil & _)]. done.
  - destruct (convert_combinable nfa Hp) as (d & Ed & HM & HC & Hf). cbn [sortNFA]. rewrite Ed. cbn [mbind option_bind].
    assert (exists large1 small1, (if DFA.graphSize d <? smallDFASize then small ← DFACombiner.addDFA stateOrder small d; Some (large, small) else d ← DFAMinimizer.minimize stateOrder d; Some (large ++ [d], small)) = Some (large1, small1)
      /\ Forall (Combinable U L) large1 /\ Forall (Combinable U L) small1 /\ forall w x, found (large1 ++ small1) w x <-> found (large ++ small) w x \/ finds d w x) as (large1 & small1 & -> & Hl1 & Hs1 & Hf1).
    { destruct (DFA.graphSize d <? smallDFASize).
      - destruct (addDFA_spec U L stateOrder states_ok small d HM HC) as (d' & -> & HC' & Hf'). cbn [mbind option_bind]. eexists _, _. split; [reflexivity|]. split_and!; [done|apply Forall_app; split; [done|by apply Forall_singleton]|]. intros w x. rewrite !found_app, found_one, Hf'. tauto.
      - destruct (minimized_spec U L stateOrder states_ok d HM HC) as (d' & -> & HC' & Hf'). cbn [mbind option_bind]. eexists _, _. split; [reflexivity|]. split_and!; [apply Forall_app; split; [done|by apply Forall_singleton]|done|]. intros w x. rewrite !found_app, found_one, Hf'. tauto. }
    cbn [mbind option_bind]. destruct (IH large1 small1 Hl1 Hs1) as (large' & small' & -> & Hl' & Hs' & Hf'). exists large', small'. split_and!; try done. intros w x. rewrite Hf', Hf1, Hf. setoid_rewrite elem_of_cons. naive_solver.
Qed.

Lemma automata_spec nfas : Forall Piecewise nfas ->
  exists dfas, automata nfas = Some dfas /\ Forall (Combinable U L) dfas /\ forall w x, found dfas w x <-> exists nfa, nfa ∈ nfas /\ nfaFinds nfa w x.
Proof using nodes_ok actions_ok states_ok U_size.
  intros Hp. unfold automata. destruct (sortNFAs_spec nfas Hp [] []) as (large & small & -> & Hl & Hs & Hf); [constructor|constructor|]. cbn [mbind option_bind].
  destruct (combineDFAs_spec U L actionOrder stateOrder smallDFASize actions_ok states_ok U_size) with (l := small) as (ds & -> & [H1 H2 _ _]); [unfold smallDFASize; lia|unfold smallDFASize; lia|done|]. cbn [mbind option_bind].
  exists (large ++ ds). split_and!; [done|by apply Forall_app|]. intros w x. rewrite found_app, H2, <- found_app, Hf. unfold found. rewrite Exists_nil. naive_solver.
Qed.

End Automata.

(** ** From automata to bytecode *)

Definition lowerAll (universal : gset Z) (dfas : list DFA.DFA) : option (list (list Z)) :=
  lowering ← DFAMinimizer.foldlM (lowerDFAToBytecode actionOrder universal) (mkLowering false []) dfas;
  if firstNFASeen lowering then Some (written lowering)
  else dummyDFA ← addUniversalActionsToDFA actionOrder DFA.empty universal; bytecode ← DFABytecodeCompiler.compile dummyDFA []; Some (written lowering ++ [bytecode]).

(** The bytecode of the automata can as well be made when all of them are
    there. *)
Lemma handleNFAs_sort universal nfas : forall lowering large small large' small',
  DFAMinimizer.foldlM sortNFA (large, small) nfas = Some (large', small') ->
  exists more, large' = large ++ more /\ forall lowering', DFAMinimizer.foldlM (lowerDFAToBytecode actionOrder universal) lowering more = Some lowering' ->
    DFAMinimizer.foldlM (handleNFA nodeOrder actionOrder stateOrder rounds universal) (lowering, small) nfas = Some (lowering', small').
Proof.
  induction nfas as [|nfa nfas IH]; intros lowering large small large' small'; cbn [DFAMinimizer.foldlM].
  - intros [= <- <-]. exists []. rewrite app_nil_r. split; [done|]. by intros lowering' [= <-].
  - cbn [sortNFA handleNFA]. destruct (NFAToDFA.convert nodeOrder actionOrder rounds nfa) as [d|]; [|done]. cbn [mbind option_bind]. destruct (DFA.graphSize d <? smallDFASize).
    + destruct (DFACombiner.addDFA stateOrder small d) as [small1|]; [|done]. cbn [mbind option_bind]. apply IH.
    + destruct (DFAMinimizer.minimize stateOrder d) as [d'|]; [|done]. cbn [mbind option_bind]. intros E. destruct (IH lowering _ _ _ _ E) as (more & -> & _). exists (d' :: more). rewrite <- app_assoc. split; [done|]. intros lowering'. cbn [DFAMinimizer.foldlM].
      destruct (lowerDFAToBytecode actionOrder universal lowering d') as [lowering1|]; [|done]. cbn [mbind option_bind]. intros E'. destruct (IH lowering1 _ _ _ _ E) as (more' & Em & H). rewrite app_inv_head_iff in Em. subst more'. by apply H.
Qed.

Lemma compileToBytecode_lowerAll root universal nfas root' dfas bs :
  CombinedURLFiltersProcess.processNFAs targetOrder actionOrder maxNFASize root = Some (nfas, root') -> CombinedURLFilters.isEmpty root' = true ->
  automata nfas = Some dfas -> lowerAll universal dfas = Some bs -> compileToBytecode targetOrder nodeOrder actionOrder stateOrder rounds root universal = Some bs.
Proof.
  intros Ep He Ea El. unfold compileToBytecode. rewrite Ep. cbn [mbind option_bind]. unfold automata in Ea. destruct (DFAMinimizer.foldlM sortNFA ([], []) nfas) as [[large small]|] eqn:Es; [|done]. cbn [mbind option_bind] in Ea.
  destruct (DFACombiner.combineDFAs actionOrder stateOrder smallDFASize small) as [combined|] eqn:Ec; [|done]. injection Ea as <-. unfold lowerAll in El. rewrite DFAPartition.foldlM_app in El.
  destruct (handleNFAs_sort universal nfas (mkLowering false []) _ _ _ _ Es) as (more & -> & Hh). cbn [app] in *. destruct (DFAMinimizer.foldlM (lowerDFAToBytecode actionOrder universal) (mkLowering false []) more) as [lowering|] eqn:Em; [|done].
  rewrite (Hh lowering eq_refl). cbn [mbind option_bind] in El |- *. rewrite Ec. cbn [mbind option_bind]. destruct (DFAMinimizer.foldlM (lowerDFAToBytecode actionOrder universal) lowering combined) as [lowering'|]; [|done]. cbn [mbind option_bind] in El |- *. rewrite option_guard_True by done. exact El.
Qed.

(** The automata with the universal actions on the root of the first. *)
Definition withUniversal (universal : gset Z) (dfas : list DFA.DFA) : option (list DFA.DFA) :=
  match dfas with
  | [] => d ← addUniversalActionsToDFA actionOrder DFA.empty universal; Some [d]
  | d :: dfas => d ← addUniversalActionsToDFA actionOrder d universal; Some (d :: dfas)
  end.

(** The root has no actions. *)
Definition bareRoot (d : DFA.DFA) : Prop := exists root, DFA.at_ (DFA.nodes d) (DFA.root d) = Some root /\ DFA.m_actionsLength root = 0.

Lemma lowerDFA_spec universal s d bytecode : bareRoot d -> (d' ← (if firstNFASeen s then Some d else addUniversalActionsToDFA actionOrder d universal); DFABytecodeCompiler.compile d' []) = Some bytecode ->
  lowerDFAToBytecode actionOrder universal s d = Some (mkLowering true (written s ++ [bytecode])).
Proof.
  intros (root & Er & Hr) E. unfold lowerDFAToBytecode. rewrite Er. cbn [mbind option_bind]. unfold DFA.hasActions. rewrite Hr. rewrite option_guard_True by done.
  destruct (if firstNFASeen s then _ else _) as [d'|]; [|done]. cbn [mbind option_bind] in E |- *. by rewrite E.
Qed.

Lemma lowerRest_spec universal dfas : forall bs out, Forall bareRoot dfas -> mapM (fun d => DFABytecodeCompiler.compile d []) dfas = Some bs ->
  DFAMinimizer.foldlM (lowerDFAToBytecode actionOrder universal) (mkLowering true out) dfas = Some (mkLowering true (out ++ bs)).
Proof.
  induction dfas as [|d dfas IH]; intros bs out HF E; cbn [mapM] in E; cbn [DFAMinimizer.foldlM].
  - injection E as <-. by rewrite app_nil_r.
  - apply Forall_cons in HF as [Hd HF]. destruct (DFABytecodeCompiler.compile d []) as [bytecode|] eqn:Ed; [|done]. cbn [mbind option_bind] in E. destruct (mapM _ dfas) as [bs'|]; [|done]. injection E as <-.
    rewrite (lowerDFA_spec universal (mkLowering true out) d bytecode Hd) by done. cbn [mbind option_bind written]. rewrite (IH bs' _ HF eq_refl). by rewrite <- app_assoc.
Qed.

Lemma lowerAll_spec universal dfas D bs : Forall bareRoot dfas -> withUniversal universal dfas = Some D -> mapM (fun d => DFABytecodeCompiler.compile d []) D = Some bs -> lowerAll universal dfas = Some bs.
Proof.
  intros HF Ew Ec. unfold lowerAll. destruct dfas as [|d dfas]; cbn [withUniversal] in Ew.
  - cbn [DFAMinimizer.foldlM mbind option_bind firstNFASeen written]. destruct (addUniversalActionsToDFA actionOrder DFA.empty universal) as [d|]; [|done]. injection Ew as <-. cbn [mapM mbind option_bind] in Ec |- *. destruct (DFABytecodeCompiler.compile d []); [|done]. exact Ec.
  - apply Forall_cons in HF as [Hd HF]. destruct (addUniversalActionsToDFA actionOrder d universal) as [d'|] eqn:Ed; [|done]. injection Ew as <-. cbn [mapM] in Ec. destruct (DFABytecodeCompiler.compile d' []) as [bytecode|] eqn:Eb; [|done]. cbn [mbind option_bind] in Ec.
    destruct (mapM _ dfas) as [bs'|] eqn:Em; [|done]. injection Ec as <-. cbn [DFAMinimizer.foldlM]. rewrite (lowerDFA_spec universal (mkLowering false []) d bytecode Hd) by (cbn [firstNFASeen]; rewrite Ed; exact Eb). cbn [mbind option_bind written app].
    rewrite (lowerRest_spec universal dfas bs' [bytecode] HF Em). done.
Qed.

(** ** The universal actions *)

Record Marked (U universal : gset Z) (d d' : DFA.DFA) : Prop := {
  mk_root : DFA.root d' = DFA.root d;
  mk_rootAlive : alive d' (DFA.root d');
  mk_alive : forall i, alive d' i -> alive d i;
  mk_delta : forall i c, delta d' i c = delta d i c;
  mk_actions : forall i, i <> DFA.root d -> alive d i -> actionsOf d' i = actionsOf d i;
  mk_universal : forall x, x ∈ actionsOf d' (DFA.root d) <-> x ∈ universal;
  mk_node : forall i node, DFA.at_ (DFA.nodes d') i = Some node -> DFA.isKilled node = false ->
    exists acts ts, DFA.actions node d' = Some acts /\ DFA.transitions node d' = Some ts /\ okTransitions ts /\ (forall x, x ∈ acts -> x ∈ U ∪ universal) /\ forall r t, (r, t) ∈ ts -> alive d' t }.

(** There is room on the root. *)
Definition markable (universal : gset Z) (d : DFA.DFA) : Prop :=
  universal = ∅ \/ (exists root, DFA.at_ (DFA.nodes d) (DFA.root d) = Some root /\ DFA.m_actionsStart root = 0) /\ Z.of_nat (length (DFA.dfa_actions d)) + Z.of_nat (size universal) < 2 ^ 32.

Lemma bareRoot_actions d root : DFA.at_ (DFA.nodes d) (DFA.root d) = Some root -> okSlice (DFA.m_actionsStart root) (DFA.m_actionsLength root) -> DFA.m_actionsLength root = 0 -> actionsOf d (DFA.root d) = [].
Proof. intros Hat Hs Hl. unfold actionsOf, DFABytecodeCompiler.at_. rewrite Hat. cbn [mbind option_bind]. unfold DFA.actions. rewrite slice_seqZ by done. by rewrite Hl. Qed.

Lemma addUniversal_spec U L d universal : okInput U L d -> bareRoot d -> markable universal d -> Z.of_nat (size universal) < 2 ^ 16 - 1 ->
  exists d', addUniversalActionsToDFA actionOrder d universal = Some d' /\ Marked U universal d d'.
Proof using actions_ok.
  intros HI (root & Hat & Hl) Hm Hsz. unfold addUniversalActionsToDFA. destruct (in_root _ _ _ HI) as (root0 & Hat0 & Hk). unfold DFABytecodeCompiler.at_ in Hat0. rewrite Hat in Hat0. injection Hat0 as <-. pose proof (in_slice _ _ _ HI _ _ Hat Hk) as Hs.
  pose proof (bareRoot_actions d root Hat Hs Hl) as Hbare. destruct (decide (universal = ∅)) as [->|Hne].
  - exists d. split; [done|]. split; try done.
    + apply (in_root _ _ _ HI).
    + intros x. rewrite Hbare. split; [by intros ?%not_elem_of_nil|by intros ?%elem_of_empty].
    + intros i node Hi Hki. destruct (in_node _ _ _ HI i node Hi Hki) as (acts & ts & H1 & H2 & H3 & H4 & H5). exists acts, ts. split_and!; try done. intros x Hx. apply elem_of_union. left. by apply H4.
  - destruct Hm as [?|[(root1 & Hat1 & Hstart) Hfit]]; [done|]. rewrite Hat in Hat1. injection Hat1 as <-. rewrite Hat. cbn [mbind option_bind]. rewrite option_guard_True by done. cbn [mbind option_bind].
    assert (length (actionOrder universal) = size universal) as Hlen by (by rewrite actions_ok). rewrite length_app, Hlen, !(u32_id (Z.of_nat _)) by lia.
    replace (Z.of_nat (length (DFA.dfa_actions d) + size universal) - Z.of_nat (length (DFA.dfa_actions d))) with (Z.of_nat (size universal)) by lia. rewrite u32_id, option_guard_True by lia. cbn [mbind option_bind]. unfold DFA.setActions. rewrite !option_guard_True by done. cbn [mbind option_bind]. rewrite Z.mod_small by lia.
    set (root' := DFA.mkNode _ _ _ _ _). eexists. split; [reflexivity|]. set (d' := DFA.mkDFA _ _ _ _ _). pose proof (at_lt _ _ _ Hat) as Hlt.
    assert (forall i, DFA.at_ (DFA.nodes d') i = if decide (i = DFA.root d) then Some root' else DFA.at_ (DFA.nodes d) i) as Hnodes by (intros i; by apply at_updated).
    assert (DFA.actions root' d' = Some (actionOrder universal)) as Eroot.
    { unfold DFA.actions. cbn [root' d' DFA.m_actionsStart DFA.m_actionsLength DFA.dfa_actions]. rewrite slice_seqZ by (unfold okSlice; lia). rewrite <- Hlen. apply mapM_appended. }
    assert (forall i, alive d i -> alive d' i) as Hal. { intros i (node & Hi & Hki). unfold alive, DFABytecodeCompiler.at_ in *. rewrite Hnodes. case_decide as E; [exists root'|exists node]; [|done]. split; [done|]. exact Hk. }
    split; try done.
    + apply Hal, (in_root _ _ _ HI).
    + intros i (node & Hi & Hki). unfold alive, DFABytecodeCompiler.at_ in *. rewrite Hnodes in Hi. case_decide as E; [subst i; by exists root|by exists node].
    + intros i c. unfold delta, DFABytecodeCompiler.at_. rewrite Hnodes. case_decide as E; [|done]. subst i. by rewrite Hat.
    + intros i Hi (node & Hni & Hki). unfold actionsOf, DFABytecodeCompiler.at_ in *. rewrite Hnodes, decide_False, Hni by done. cbn [mbind option_bind]. destruct (in_node _ _ _ HI i node Hni Hki) as (acts & _ & Ha & _). by rewrite Ha, (actions_grow node d d' (actionOrder universal) acts).
    + intros x. unfold actionsOf, DFABytecodeCompiler.at_. rewrite Hnodes, decide_True by done. cbn [mbind option_bind]. rewrite Eroot. cbn [default id]. by rewrite actions_ok, elem_of_elements.
    + intros i node. rewrite Hnodes. case_decide as E.
      * intros [= <-] _. destruct (in_node _ _ _ HI _ root Hat Hk) as (acts & ts & _ & H2 & H3 & _ & H5). exists (actionOrder universal), ts. split_and!; try done; [|intros r t Hr; by eapply Hal, H5]. intros x. rewrite actions_ok, elem_of_elements. intros Hx. apply elem_of_union. by right.
      * intros Hni Hki. destruct (in_node _ _ _ HI i node Hni Hki) as (acts & ts & H1 & H2 & H3 & H4 & H5). exists acts, ts. split_and!; try done; [by apply (actions_grow node d d' (actionOrder universal) acts)| |intros r t Hr; by eapply Hal, H5]. intros x Hx. apply elem_of_union. left. by apply H4.
Qed.

Lemma empty_input U L : okInput U L DFA.empty /\ bareRoot DFA.empty.
Proof.
  split; [|by eexists]. split.
  - by eexists.
  - intros i node Hi _. exists [], []. pose proof (at_lt _ _ _ Hi) as Hlt. cbn in Hlt. assert (i = 0) as -> by lia. injection Hi as <-. split_and!; try done; [by repeat constructor| |]; [by intros x ?%not_elem_of_nil|by intros r t ?%not_elem_of_nil].
  - intros i c m (node & Hi & _) Hd. pose proof (at_lt _ _ _ Hi) as Hlt. cbn in Hlt. assert (i = 0) as -> by lia. by vm_compute in Hd.
  - intros i node Hi _. pose proof (at_lt _ _ _ Hi) as Hlt. cbn in Hlt. assert (i = 0) as -> by lia. injection Hi as <-. unfold okSlice. cbn. lia.
  - done.
Qed.

(** ** The machine of the automata *)

Lemma walk_alive U L d w : okInput U L d -> forall n m, alive d n -> walk d n w = Some m -> alive d m.
Proof.
  intros HI. induction w as [|c w IH]; intros n m Hn; cbn [walk]; [by intros [= <-]|]. destruct (delta d n c) as [k|] eqn:Ek; [|done]. cbn [mbind option_bind]. apply IH. by eapply (move_ok U L d (Some n)).
Qed.

Lemma walk_marked U universal d d' w : Marked U universal d d' -> forall n, walk d' n w = walk d n w.
Proof. intros HM. induction w as [|c w IH]; intros n; cbn [walk]; [done|]. rewrite (mk_delta _ _ _ _ HM). destruct (delta d n c); [|done]. apply IH. Qed.

(** The interpreter reports what is found on a start of the URL. *)
Lemma meets_finds d url a : actionsOf d (DFA.root d) = [] -> meets d (DFA.root d) url a <-> exists w, w `prefix_of` (url ++ [0]) /\ finds d w a.
Proof.
  intros Hr. split.
  - intros (c & pre & m & Hp & Hw & _ & Ha). exists (c :: pre). split; [done|]. by exists m.
  - intros (w & Hp & m & Hw & Ha). assert (m <> DFA.root d) as Hm by (intros ->; rewrite Hr in Ha; by apply not_elem_of_nil in Ha). destruct w as [|c pre]; [injection Hw as <-; done|]. by exists c, pre, m.
Qed.

Lemma meets_marked U L universal d d' url a : okInput U L d -> Marked U universal d d' -> meets d' (DFA.root d') url a <-> meets d (DFA.root d) url a.
Proof.
  intros HI HM. unfold meets. rewrite (mk_root _ _ _ _ HM). setoid_rewrite (walk_marked _ _ _ _ _ HM).
  split; intros (c & pre & m & Hp & Hw & Hm & Ha); exists c, pre, m; (split_and!; [done|done|done|]); pose proof (walk_alive U L d _ HI _ _ (in_root _ _ _ HI) Hw) as Hal; [by rewrite <- (mk_actions _ _ _ _ HM m Hm Hal)|by rewrite (mk_actions _ _ _ _ HM m Hm Hal)].
Qed.

Definition Sized (D : list DFA.DFA) : Prop := Forall (fun d => sumMax d (compileOrder d) + 8 < 2 ^ 30) D /\ totalMax D < 2 ^ 31.

Lemma input_okDFA U L d : okInput U L d -> (forall x, x ∈ U -> okAction x) -> sumMax d (compileOrder d) + 8 < 2 ^ 30 -> okDFA d.
Proof.
  intros HI HU Hs. split; [apply (in_root _ _ _ HI)| |done]. intros i node Hi Hk. destruct (in_node _ _ _ HI i node Hi Hk) as (acts & ts & H1 & H2 & H3 & H4 & H5). exists acts, ts. split_and!; try done. apply Forall_forall. intros x Hx. by apply HU, H4.
Qed.

Lemma marked_okDFA U universal d d' : Marked U universal d d' -> (forall x, x ∈ U ∪ universal -> okAction x) -> sumMax d' (compileOrder d') + 8 < 2 ^ 30 -> okDFA d'.
Proof.
  intros HM HU Hs. split; [apply (mk_rootAlive _ _ _ _ HM)| |done]. intros i node Hi Hk. destruct (mk_node _ _ _ _ HM i node Hi Hk) as (acts & ts & H1 & H2 & H3 & H4 & H5). exists acts, ts. split_and!; try done. apply Forall_forall. intros x Hx. by apply HU, H4.
Qed.

(** Nothing is found on the empty word. *)
Lemma quiet_bareRoot U L d : okInput U L d -> (forall x, ~ finds d [] x) -> bareRoot d /\ actionsOf d (DFA.root d) = [].
Proof.
  intros HI Hq. assert (actionsOf d (DFA.root d) = []) as E by (apply elem_of_nil_inv; intros x Hx; apply (Hq x); by exists (DFA.root d)). split; [|done].
  destruct (in_root _ _ _ HI) as (root & Hat & Hk). exists root. split; [done|]. pose proof (in_slice _ _ _ HI _ _ Hat Hk) as Hs. destruct (in_node _ _ _ HI _ _ Hat Hk) as (acts & _ & Ha & _). unfold actionsOf in E. rewrite Hat in E. cbn [mbind option_bind] in E. rewrite Ha in E. cbn in E. subst acts.
  unfold DFA.actions in Ha. rewrite slice_seqZ in Ha by done. apply mapM_Some, Forall2_length in Ha. rewrite length_seqZ in Ha. cbn in Ha. destruct Hs as (_ & Hs & _). lia.
Qed.

(** The conditions on the automata: they are not too large, the first has room
    for the universal actions, and either no pattern reads the end of the URL or
    the compiler does not mistake it for a character. *)
Record okLowering (endFree : Prop) (universal : gset Z) (dfas : list DFA.DFA) : Prop := {
  low_universal : Z.of_nat (size universal) < 2 ^ 16 - 1;
  low_first : match dfas with [] => True | d :: _ => markable universal d end;
  low_sized : forall D, withUniversal universal dfas = Some D -> Sized D;
  low_end : endFree \/ forall D, withUniversal universal dfas = Some D -> Forall endSafe D }.

Section Machine.

Context (U universal : gset Z) (endFree : Prop) (dfas : list DFA.DFA).
Hypothesis Hdfas : Forall (Combinable U (fun c => endFree -> c <> 0)) dfas.
Hypothesis Hquiet : forall x, ~ found dfas [] x.
Hypothesis Hactions : forall x, x ∈ U ∪ universal -> okAction x.
Hypothesis Hlow : okLowering endFree universal dfas.

Notation input := (okInput U (fun c => endFree -> c <> 0)).

Lemma dfas_bare : Forall (fun d => input d /\ bareRoot d /\ actionsOf d (DFA.root d) = []) dfas.
Proof using Hdfas Hquiet.
  apply Forall_forall. intros d Hd. rewrite Forall_forall in Hdfas. destruct (Hdfas d Hd) as [HI _]. split; [done|]. apply (quiet_bareRoot U (fun c => endFree -> c <> 0)); [done|]. intros x Hx. apply (Hquiet x), Exists_exists. by exists d.
Qed.

(** The first automaton, or the one that is made when there is none. *)
Definition firstOf : DFA.DFA := default DFA.empty (head dfas).

Lemma first_spec : exists d', withUniversal universal dfas = Some (d' :: tail dfas) /\ Marked U universal firstOf d' /\ input firstOf /\ actionsOf firstOf (DFA.root firstOf) = [].
Proof using Hdfas Hquiet Hlow actions_ok.
  pose proof dfas_bare as HF. destruct Hlow as [L1 L2 _ _]. unfold firstOf. destruct dfas as [|d rest]; cbn [withUniversal head tail default].
  - destruct (empty_input U (fun c => endFree -> c <> 0)) as [HI Hb]. destruct (addUniversal_spec U _ DFA.empty universal HI Hb) as (d' & -> & HM); [|done|by exists d'].
    unfold markable. destruct (decide (universal = ∅)) as [|Hne]; [by left|right]. split; [by eexists|]. cbn. lia.
  - apply Forall_cons in HF as [(HI & Hb & Hr) _]. destruct (addUniversal_spec U _ d universal HI Hb L2 L1) as (d' & -> & HM). by exists d'.
Qed.

Lemma input_noEnd d : input d -> endFree -> endSafe d.
Proof.
  intros HI He. apply noEnd_endSafe. intros i node ts Hi Hk Et. destruct (goes ts 0) as [m|] eqn:Eg; [|done]. exfalso. refine (in_labels _ _ _ HI i 0 m _ _ He eq_refl); [by exists node|]. unfold delta, DFABytecodeCompiler.at_. rewrite Hi. cbn [mbind option_bind]. by rewrite Et.
Qed.

Lemma marked_noEnd d d' : input d -> Marked U universal d d' -> endFree -> endSafe d'.
Proof.
  intros HI HM He. apply noEnd_endSafe. intros i node ts Hi Hk Et. destruct (goes ts 0) as [m|] eqn:Eg; [|done]. exfalso. assert (delta d' i 0 = Some m) as Hd by (unfold delta, DFABytecodeCompiler.at_; rewrite Hi; cbn [mbind option_bind]; by rewrite Et).
  rewrite (mk_delta _ _ _ _ HM) in Hd. refine (in_labels _ _ _ HI i 0 m _ Hd He eq_refl). apply (mk_alive _ _ _ _ HM). by exists node.
Qed.

Lemma machine_okMachine d' : withUniversal universal dfas = Some (d' :: tail dfas) -> Marked U universal firstOf d' -> input firstOf -> okMachine (d' :: tail dfas).
Proof using Hdfas Hquiet Hactions Hlow.
  intros Ew HM HI. pose proof dfas_bare as HF. destruct Hlow as [_ _ L3 L4]. destruct (L3 _ Ew) as [[Hs Hss]%Forall_cons Ht]. assert (Forall (fun d => input d /\ bareRoot d /\ actionsOf d (DFA.root d) = []) (tail dfas)) as HF' by (destruct dfas; [constructor|by apply Forall_cons in HF as [_ HF]]). rewrite Forall_forall in HF', Hss.
  split; [constructor| | |done].
  - by apply (marked_okDFA U universal firstOf).
  - apply Forall_forall. intros d Hd. apply (input_okDFA U (fun c => endFree -> c <> 0)); [by apply HF'| |by apply Hss]. intros x Hx. apply Hactions, elem_of_union. by left.
  - destruct L4 as [He|He]; [|by apply He]. constructor; [by apply (marked_noEnd firstOf)|]. apply Forall_forall. intros d Hd. apply input_noEnd; [by apply HF'|done].
  - apply Forall_forall. intros d Hd. by apply HF'.
Qed.

Lemma machine_meets d' url a : withUniversal universal dfas = Some (d' :: tail dfas) -> Marked U universal firstOf d' -> input firstOf -> actionsOf firstOf (DFA.root firstOf) = [] ->
  (exists d, d ∈ d' :: tail dfas /\ meets d (DFA.root d) url a) <-> exists w, w `prefix_of` (url ++ [0]) /\ found dfas w a.
Proof using Hdfas Hquiet Hlow.
  intros Ew HM HI Hr. pose proof dfas_bare as HF. rewrite Forall_forall in HF. pose proof (meets_marked _ _ _ _ _ url a HI HM) as Hm. rewrite (meets_finds firstOf url a Hr) in Hm. setoid_rewrite elem_of_cons. unfold firstOf in *. destruct dfas as [|d rest]; cbn [head tail default] in *.
  - split; [|by intros (w & _ & []%Exists_nil)]. intros (d & [->|[]%not_elem_of_nil] & (w & Hp & m & Hw & Ha)%Hm). exfalso. destruct w as [|c w]; [injection Hw as <-; by apply not_elem_of_nil in Ha|]. by vm_compute in Hw.
  - unfold found. setoid_rewrite Exists_cons. split.
    + intros (d1 & [->|Hd] & Hd1); [apply Hm in Hd1 as (w & ? & ?); exists w; by auto|]. apply (meets_finds d1 url a) in Hd1 as (w & ? & ?); [|by apply HF; right]. exists w. split; [done|]. right. apply Exists_exists. by exists d1.
    + intros (w & Hp & [Hf|(d1 & Hd & Hf)%Exists_exists]); [exists d'; split; [by left|]; apply Hm; by exists w|]. exists d1. split; [by right|]. apply (meets_finds d1 url a); [by apply HF; right|by exists w].
Qed.

(** The bytecode of the automata finds the actions of the starts of the URL, and
    of the universal actions those with flags; the others match everything. *)
Lemma machine_spec top url flags : Z.of_nat (length url) + 2 < 2 ^ 32 -> Forall (fun c => 1 <= c <= 127) url ->
  exists bs found everything, lowerAll universal dfas = Some bs /\ DFABytecodeInterpreter.interpretWith (concat bs) top url flags = Some found /\ DFABytecodeInterpreter.actionsMatchingEverything (concat bs) None = Some everything
    /\ (forall a, a ∈ found <-> wanted top flags a /\ ((exists w, w `prefix_of` (url ++ [0]) /\ DFACombinerCorrect.found dfas w a) \/ DFABytecodeCompiler.hasFlags a = true /\ a ∈ universal))
    /\ forall a, a ∈ everything <-> DFABytecodeCompiler.hasFlags a = false /\ a ∈ universal.
Proof using Hdfas Hquiet Hactions Hlow actions_ok.
  intros Hlen Hurl. destruct first_spec as (d' & Ew & HM & HI & Hr). pose proof (machine_okMachine d' Ew HM HI) as HK. destruct (interpret_machine _ top url flags HK Hlen Hurl) as (bs & Eb & Ei). destruct (actionsMatchingEverything_correct _ _ HK) as (bs' & everything & Eb' & Ee & He).
  rewrite Eb in Eb'. injection Eb' as <-. exists bs, (matched top url flags (d' :: tail dfas)), everything. assert (forall a, a ∈ actionsOf d' (DFA.root d') <-> a ∈ universal) as Hun by (intros a; rewrite (mk_root _ _ _ _ HM); apply (mk_universal _ _ _ _ HM)).
  split_and!; try done.
  - apply (lowerAll_spec universal dfas (d' :: tail dfas) bs); [|done|done]. eapply Forall_impl; [apply dfas_bare|]. by intros d (_ & ? & _).
  - intros a. rewrite elem_matched, (machine_meets d' url a Ew HM HI Hr). apply and_iff_compat_l, or_iff_compat_l. cbn [head]. rewrite <- Hun. naive_solver.
  - intros a. rewrite He. by rewrite Hun.
Qed.

End Machine.

(** ** From patterns to the actions of a load *)

Section Patterns.

Context (patterns : list (Z * list Term)) (universal : gset Z).

(** A pattern as the parser makes them: not empty, some string matches it, and
    the empty string does not. *)
Definition okPattern (x : Z * list Term) : Prop :=
  (okAction x.1 /\ x.2 <> [] /\ Forall (fun t => okTerm t = true) x.2) /\ (exists w, cats matches x.2 w) /\ ~ cats matches x.2 [].

(** No pattern reads the end of the URL. *)
Definition endFreePatterns : Prop := Forall (fun x => Forall (fun t => endFree t = true) x.2) patterns.

(** The sizes of what the passes make. *)
Definition withinLimits : Prop := forall root nfas rest, addPatterns patterns emptyFilters = Some root -> CombinedURLFiltersProcess.processNFAs targetOrder actionOrder maxNFASize root = Some (nfas, rest) ->
  Forall small nfas /\ Forall convertible nfas /\ forall dfas, automata nfas = Some dfas -> okLowering endFreePatterns universal dfas.

Hypothesis Hpatterns : Forall okPattern patterns.

Notation label := (fun c : Z => endFreePatterns -> c <> 0).

Lemma patterns_labels : Forall (fun x => x.2 <> [] /\ Forall (okLabels label) x.2) patterns.
Proof using Hpatterns.
  apply Forall_forall. intros x Hx. rewrite Forall_forall in Hpatterns. destruct (Hpatterns x Hx) as [(_ & Hne & Hok) _]. split; [done|]. rewrite Forall_forall in Hok. apply Forall_forall. intros t Ht. split; [by apply Hok|]. intros s c Hs Hc He. unfold endFreePatterns in He. rewrite Forall_forall in He. specialize (He x Hx). rewrite Forall_forall in He. by apply (endFree_spec t s c (He t Ht)).
Qed.

(** The automata of the patterns, all of them fit for the passes. *)
Lemma patterns_nfas : withinLimits -> exists root nfas rest, addPatterns patterns emptyFilters = Some root /\ CombinedURLFiltersProcess.processNFAs targetOrder actionOrder maxNFASize root = Some (nfas, rest) /\ isEmpty rest = true
  /\ Forall (Piecewise (list_to_set patterns.*1) label) nfas /\ (forall w a, (exists nfa, nfa ∈ nfas /\ nfaFinds nfa w a) <-> exists p, (a, p) ∈ patterns /\ cats matches p w)
  /\ forall dfas, automata nfas = Some dfas -> okLowering endFreePatterns universal dfas.
Proof using Hpatterns targets_ok actions_ok.
  intros HL. destruct (emptyFilters_ok label) as [E1 E2]. destruct (addPatterns_ok label patterns patterns_labels emptyFilters E1 E2) as (root & Er & R1 & R2 & R3).
  destruct (processNFAs_spec targetOrder actionOrder targets_ok actions_ok label maxNFASize root R1 R2) as (nfas & rest & En & N1 & N2). destruct (HL root nfas rest Er En) as (L1 & L2 & L3). destruct (N2 L1) as [N3 N4].
  assert (forall p a, hasPattern root p a <-> (a, p) ∈ patterns) as Hhas. { intros p a. rewrite R3. split; [|by right]. intros [Hp|?]; [by apply emptyFilters_patterns in Hp|done]. }
  assert (forall w a, (exists nfa, nfa ∈ nfas /\ nfaFinds nfa w a) <-> exists p, (a, p) ∈ patterns /\ cats matches p w) as Hfinds. { intros w a. rewrite N4. unfold treeFinds. by setoid_rewrite Hhas. }
  exists root, nfas, rest. split_and!; try done. rewrite Forall_forall in N3, L2. apply Forall_forall. intros nfa Hn. destruct (N3 nfa Hn) as ((Hok & Hlab) & p & a & Hp & Hpf). split; [done|by apply L2| |done|].
  - intros w x Hx. destruct (proj1 (Hfinds w x)) as (q & Hq & _); [by exists nfa|]. apply elem_of_list_to_set. by apply (list_elem_of_fmap_2 fst) in Hq.
  - apply Hhas in Hp. rewrite Forall_forall in Hpatterns. destruct (Hpatterns _ Hp) as [_ [[w Hw] Hno]]. destruct (Hpf w Hw) as (k & acts & Hk & _). destruct w as [|c w]; [done|]. by exists c, w, k.
Qed.

End Patterns.






End Compile.

(** ** An example *)

Lemma cats_step t p u w : matches t u -> cats matches p w -> cats matches (t :: p) (u ++ w).
Proof. intros Hu Hw. by exists u, w. Qed.

(** The words of the terms. *)
Lemma example_matches : Forall (fun c => matches (characterTerm c) [c] /\ ~ matches (characterTerm c) []) [97; 100; 105].
Proof. repeat (apply Forall_cons; split); [..|by apply Forall_nil_2]; (split; [eexists; split; [reflexivity|by vm_compute]|by intros (? & ? & _)]). Qed.

Lemma examplePatterns_ok : Forall okPattern examplePatterns.
Proof.
  pose proof example_matches as ([Ha Hno] & [Hd _] & [Hi _] & _)%(fun H => conj (Forall_inv H) (conj (Forall_inv (Forall_inv_tail H)) (conj (Forall_inv (Forall_inv_tail (Forall_inv_tail H))) I))).
  assert (forall a p w, okAction a -> Forall (fun t => okTerm t = true) p -> cats matches p w -> okPattern (a, characterTerm 97 :: p)) as Hok.
  { intros a p w H1 H2 H3. split; [split_and!; [done|done|by constructor]|]. split; [eexists; by apply (cats_step _ _ [97] w)|]. intros (u & v & [-> _]%symmetry%app_nil & Hu & _). by apply Hno. }
  assert (cats matches [characterTerm 100] [100]) as Hlast by (by apply (cats_step _ _ [100] [])).
  repeat (apply Forall_cons; split); try apply Forall_nil_2; eapply Hok; try (split; [by vm_compute|by vm_compute]); try (apply (bool_decide_unpack _); by vm_compute).
  - exact Hlast.
  - apply (cats_step _ _ [105] [100] Hi). exact Hlast.
  - apply (cats_step _ _ [97] [100]); [by exists 97|]. exact Hlast.
  - apply (cats_step _ _ [] [100]); [apply star_nil|]. exact Hlast.
Qed.

(** Enough rounds for all the sets of nodes are enough. *)
Definition convertibleb (rounds : nat) (nfa : NFA.NFA) : bool :=
  let n := size (list_to_set (subsets (nodeIds nfa)) : gset (gset Z)) in
  okNFAb nfa && (Z.of_nat (length (NFA.actions nfa)) <=? 2 ^ 16 - 1) && (n <=? rounds)%nat && (Z.of_nat n * Z.of_nat (length (NFA.actions nfa)) <? 2 ^ 32) && (Z.of_nat n * 128 <? 2 ^ 32).

Lemma convertibleb_spec rounds nfa : convertibleb rounds nfa = true -> convertible rounds nfa.
Proof.
  unfold convertibleb. rewrite !andb_true_iff, Z.leb_le, Nat.leb_le, !Z.ltb_lt. intros ((((H1 & H2) & H3) & H4) & H5). exists (list_to_set (subsets (nodeIds nfa))). split; [|done]. by apply FewSets_subsets; [apply okNFAb_spec|..].
Qed.

Definition exampleUniversal : gset Z := {[ 20; 2 ^ 32 + 21 ]}.

Lemma example_limits : withinLimits elements elements elements listOrder 64 examplePatterns exampleUniversal.
Proof.
  intros root nfas rest Er En. vm_compute in Er. injection Er as <-. vm_compute in En. injection En as <- _. split; [|split].
  - repeat (apply Forall_cons; split; [split; by vm_compute|]). by apply Forall_nil_2.
  - repeat (apply Forall_cons; split; [apply convertibleb_spec; by vm_compute|]). by apply Forall_nil_2.
  - intros dfas Ed. vm_compute in Ed. injection Ed as <-. split.
    + by vm_compute.
    + right. split; [eexists; split; by vm_compute|by vm_compute].
    + intros D Ew. vm_compute in Ew. injection Ew as <-. split; [|by vm_compute]. repeat (apply Forall_cons; split; [by vm_compute|]). by apply Forall_nil_2.
    + left. apply (bool_decide_unpack _). by vm_compute.
Qed.


(** On [aid] two patterns are found, and the universal action with a flag. *)
Example compileToBytecode_example :
  (root ← addPatterns examplePatterns emptyFilters; bs ← compileToBytecode elements elements elements listOrder 64 root exampleUniversal;
   found ← DFABytecodeInterpreter.interpretWith (concat bs) None (chrs "aid") 1; everything ← DFABytecodeInterpreter.actionsMatchingEverything (concat bs) None;
   Some (length bs, found, everything)) = Some (1%nat, {[ 7; 9; 2 ^ 32 + 21 ]}, {[ 20 ]}).
Proof. vm_compute. reflexivity. Qed.

(** ** Where the conditions fail *)

Definition compilePatterns (patterns : list (Z * list Term)) (universal : gset Z) : option (list (list Z)) :=
  root ← addPatterns patterns emptyFilters; compileToBytecode elements elements elements listOrder 200 root universal.

Definition foundBy (patterns : list (Z * list Term)) (url : list Z) : option (gset Z) :=
  bs ← compilePatterns patterns ∅; DFABytecodeInterpreter.interpretWith (concat bs) None url 0.

(** The patterns [^a.] and [^a$]: when both have the action 7, the automaton is
    the one whose transition on the end of the URL the compiler turns into the
    way of every other character; the URL [a] then finds nothing, though the
    second pattern matches it, while [ab] does.  When the actions differ the
    URL is found. *)
Definition dotOrEnd (dotAction endAction : Z) : list (Z * list Term) :=
  let a := characterTerm 97 in [(dotAction, [a; CharacterSetTerm universalSet One]); (endAction, [a; endTerm])].

Theorem end_pattern_lost :
  cats matches [characterTerm 97; endTerm] (chrs "a" ++ [0])
  /\ foundBy (dotOrEnd 7 7) (chrs "a") = Some ∅ /\ foundBy (dotOrEnd 7 7) (chrs "ab") = Some {[ 7 ]} /\ foundBy (dotOrEnd 7 8) (chrs "a") = Some {[ 8 ]}.
Proof.
  split; [|vm_compute; split_and!; reflexivity]. apply (cats_step _ _ [97] [0]); [by apply (Forall_inv example_matches)|]. apply (cats_step _ _ [0] []); [|done]. eexists. split; [reflexivity|by vm_compute].
Qed.

(** The root of a minimized automaton has no actions, but where they start need
    not be 0 when it was merged with other nodes: with a universal action
    [setActions] of the root then fails its assertion. *)
Definition lateRoot : list (Z * list Term) :=
  let dots := CharacterSetTerm universalSet ZeroOrMore in let low := CharacterSetTerm (mkCharacterSet false (2 ^ 64 - 2) 0) One in
  [(7, [dots; low]); (8, [dots; characterTerm 98; low; low])].

Theorem universal_actions_refused : is_Some (compilePatterns lateRoot ∅) /\ compilePatterns lateRoot {[ 3 ]} = None.
Proof. vm_compute. split; [eauto|reflexivity]. Qed.
